(* ===== verification/_CoqProject ===== *)
-Q . S2P
Prelude.v
GoTime.v
Float64.v
FloatBound.v
Model.v
Bytes.v
Sha256.v
Wire.v
Session.v
Prober.v
Tracker.v
Decimal.v
Text.v
Net.v
Ports.v
Nft.v
Rules.v
Protect.v
Blocklist.v
Store.v
Quota.v
Messages.v
Meter.v
Control.v
Accounting.v
Registry.v
Select.v
Engine.v
Peers.v
A2S.v
Pacer.v
QCache.v
Agent.v
Responder.v
Validate.v
LinkerRules.v
Web.v
ProbeRules.v
Forward.v
Shape.v
LinkerPolicy.v
Routing.v
LinkerRouting.v
Bootstrap.v
LinkerAgent.v
Plumbing.v
Backend.v
Saved.v
CacheRecord.v
Api.v
Watching.v
Status.v
Readback.v
GeoFetch.v
Notify.v
Journal.v
StateFile.v
