(* ===== verification/Prelude.v ===== *)
(** * Homeport: a verification library

    Homeport keeps a game or web host reachable over several WireGuard tunnels.
    A _frontend_ with a public address publishes services and forwards them
    over one active tunnel to a _backend_; every tunnel is probed all the time,
    and when the active one fails the frontend moves one route and the backend
    follows.  This library models the Go code of both agents (under
    [src/internal]) as executable definitions and proves what it promises.  It
    opens with this prelude: machine integers, results, and the tactics the
    other files share.

    ** Parts, and where they are

    Foundations, each a Go library the agents use, as far as they use it:
    - [GoTime] instants, locations and calendar arithmetic ([time]);
      [Float64] binary64 arithmetic and [FloatBound] its bounds; [Bytes] byte strings and big-endian
      integers; [Decimal] [strconv]; [Text] [strings], with Unicode's space and
      case tables a class; [Net] addresses and prefixes ([net], [net/netip]);
      [Sha256] the digest and HMAC.

    The wire ([proto/proto.go]):
    - [Wire] the probe datagram and the handshake; [Session] the line reader
      and the authenticated frames; [Messages] their payloads; [Peers] one
      connection, at the frontend ([serve] and [serveLinker] of
      [engine/control.go]) and at the two clients ([agent/client.go],
      [linker/client.go]).

    Measuring and deciding ([engine]):
    - [Model] the configuration ([model/model.go]); [Prober] one path's probes
      ([prober.go]); [Tracker] its health ([tracker.go]); [Select] the choice of
      a path ([selectPath] and what it calls in [engine.go]); [Engine] the loop
      that acts on it ([evaluate], [reconcileRouting], [Revert],
      [SetConfig], [refreshQuota]) over a kernel whose commands can fail;
      [Registry] which hosts are connected; [Notify] the alerts it raises and
      their delivery ([notify/notify.go]); [Journal] the throttles of the reports
      a peer can drive ([engine/control.go], [agent/throttle.go]).

    Following ([agent]):
    - [Agent] the backend's decisions, their queue and its repairs
      ([agent.go]); [Responder] the socket that answers probes
      ([responder.go]).

    Metering ([agent/meter.go], [engine/control.go], [store/store.go],
    [quota/quota.go]):
    - [Meter] the deltas and their backlog; [StateFile] the files they are kept
      in, over a file system that loses power; [Control] what the frontend does
      with the frames of a peer; [Store] the tables, with transactions and
      faults; [Quota] billing periods and status; [Accounting] the two ends
      and a lossy network between them as one step relation.

    The edge ([sysx]):
    - [Ports] intervals and networks as sets hold them; [Nft] the rulesets of
      [nft.go] and what a rule does to a packet; [Protect] the edge filter
      ([protect.go]) and [Readback] what is read back of it; [Blocklist] the threat feed ([sysx/blocklist.go],
      [engine/blocklist.go]); [QCache], [A2S], [Pacer] the query cache
      ([qcache]); [Rules] the commands of policy routing ([route.go]) and the
      observe-mode gate ([sysx.go]); [ProbeRules] and [Routing] what they do to
      a kernel's policy database; [CacheRecord] which ports the query cache holds
      open ([engine/qcache.go]); [Forward] the exceptions in Docker's chain
      ([nft.go]); [Shape] the queues of the tunnels ([shape.go]).

    Installing ([engine.go], [agent.go]):
    - [Plumbing] what a configuration installs at the frontend, command by
      command ([applySystemConfig], [reconcileRouting]), through the runner of
      the mode; [Backend] the same at the backend ([applyPlumbing],
      [ApplyConfig], [Revert]) and its copy of the configuration on disk.

    The extra hosts ([linker], [sysx/linker.go], [model/bootstrap.go]):
    - [LinkerRules] the commands and rulesets; [LinkerPolicy] and
      [LinkerRouting] what the commands do to a policy database;
      [LinkerAgent] the agent that issues them; [Bootstrap] the file an agent
      starts from.

    The portal ([web]):
    - [Validate] the settings gate ([validate] of [api.go]); [Saved] what a
      configuration that passed it does to packets; [Web] the door
      ([server.go]): routing, sessions, lockout, password change; [Api] the
      handlers behind it ([api.go]), which overlap at the engine's
      reconfiguration lock; [GeoFetch] the region lists ([geofetch.go]);
      [Status] what the portal is shown of the engine, and [Watching] the link
      counters behind it ([sysx/stats.go]).

    ** How the code's shapes are carried

    A struct is a [Record] with the source's field names behind a prefix, an
    enumeration an [Inductive]; [int] and [int64] are [Z] with the wrap written
    at every operation that can leave the range ([i64], [u64]).  A method that
    changes its receiver returns the new value.  A function that can fail
    returns [result].  What a loop does under one lock is one step; where other
    goroutines can run between two steps the model is a relation or a list of
    operations, and a theorem quantifies over it ([Accounting.step],
    [Engine.step], the operations of [Agent], [Web.Concurrent]).  Programs
    whose only effect is to run commands ([route.go]) are trees of commands and
    continuations ([Rules.cmds]), executed by any runner; what the kernel does
    with a command is the class [Rules.Kernel], whose laws are what
    [ip-rule(8)] documents, with [Routing.table_kernel] an instance on which
    every theorem is run, and [LinkerRouting.host_kernel] one for the linker's
    commands.  The text a listing prints is parsed by the source's
    own parsers, and [Rules.rule_lines_listing] shows they read what is
    printed.

    ** What the theorems show

    - Money: whatever is lost, repeated or reordered, whatever the database
      refuses, and however often the backend restarts on files that hold what it
      had in memory, every metered byte is billed once
      ([Accounting.billed_exactly_once], [Accounting.backlog_drains],
      [Control.applyUsage_sound], [Store.AddUsageBatch_atomic]); billing
      periods tile time, in a zone where every day begins at its midnight
      ([Quota.PeriodBounds_tile]); a power loss never tears a
      state file, and the backlog is read back whole, on a file system that keeps
      what was synced and renames all or nothing
      ([StateFile.writeAtomic_never_torn], [StateFile.backlog_survives],
      [StateFile.decodeBuffer_roundtrip], [StateFile.decodeBuffer_torn]); a quota that cannot be
      read blocks ([Engine.refreshQuota_fails_closed]).
    - Failover: detection after exactly the configured losses
      ([Tracker.detection_exact], [Prober.prober_in_order]); the choice is
      safe and is the reference one ([Select.selectPath_safe],
      [Select.selectPath_priority]); the route in the kernel is the one
      decided, also when commands fail ([Engine.route_follows_decision],
      [Engine.evaluate_exact]); a reverted frontend stays reverted,
      across a restart too once the store has taken the latch
      ([Engine.revert_stays_reverted]); the backend never goes back to an older
      decision and gets to the last ([Agent.decisions_monotone],
      [Agent.decision_retried]).
    - Probes: a reply is authenticated, fresh and over its own path
      ([Responder.probe_answered], [Responder.reply_by_own_path],
      [Wire.Unmarshal_Marshal]); the kernel's rules that keep a probe on its
      path end at their places, are never missing meanwhile, and nothing else
      of the host is touched ([Routing.probe_rules_pinned],
      [Routing.probe_rules_no_gap], [Routing.probe_rules_touch_ours],
      [Routing.probe_rules_idempotent], [Routing.observe_changes_no_rule]).
    - Installing: observe mode moves nothing ([Plumbing.observe_moves_nothing],
      [Backend.backend_observes]); a healthy host is only read
      ([Plumbing.reconcile_healthy_quiet]); the protection table in the kernel
      is the one asked for ([Plumbing.protect_in_sync]); every tunnel's queue
      ends at its rate and a foreign one is left alone
      ([Plumbing.shaping_settles], [Shape.shape_only_ours],
      [Shape.shape_settles]); the operator's rules in Docker's chain stay, and
      the agents' own settle ([Forward.forward_strangers_kept],
      [Forward.forward_settles], [Forward.forward_removed]); the backend marks
      packets only behind the rules that carry them and never takes a fault for
      an instruction ([Backend.backend_egress_rules_first],
      [Backend.egress_fault_keeps], [Backend.withdraw_exact]); a restart comes
      back with the last configuration kept ([Backend.restart_reads_last]).
    - Linkers: a route this system installed is never left without the rule
      that marks it, and no rule of the host's is touched
      ([LinkerRouting.linker_no_orphan],
      [LinkerRouting.linker_rule_strangers_kept],
      [LinkerRouting.ensurePinnedRule_places],
      [LinkerRouting.ensurePinnedRule_converges]); marks are set only behind
      the rules that catch them ([LinkerAgent.egress_rules_first],
      [LinkerAgent.return_mark_behind_table]); a turn of the reconciler that
      nothing fails installs what was last pushed
      ([LinkerAgent.reconcile_converges],
      [LinkerAgent.unusable_push_ignored]); an accepted bootstrap file is
      usable ([Bootstrap.LoadBootstrap_usable],
      [Bootstrap.LoadBootstrap_idempotent]).
    - Configuration: what the gate lets through is well formed and accepted
      again unchanged ([Validate.validate_sound],
      [Validate.validate_idempotent]); in the chains generated for a saved
      configuration each published port goes to its own row, by the first packet
      of a flow, and exactly the locked regions are barred
      ([Saved.saved_publishes], [Saved.saved_locks]); what a chain decides is
      what a specification over the fields of the configuration says
      ([Nft.published_refines]), and the protection table is one nft takes
      ([Protect.protect_table_accepted],
      [Ports.mergeCIDRs_exact], [Ports.uniqueName_returns]).
    - Peers: an honest handshake completes ([Peers.handshake_agrees]); a
      connection changes nothing unless the bytes it sent prove the secret for
      its own nonces and it comes from the address of the host it claims to be
      ([Peers.serve_strangers_change_nothing]), bills only as the backend
      ([Peers.only_backend_bills]) and takes back what it registered
      ([Peers.serve_balanced]); an agent acts only on proven frames
      ([Peers.client_acts_on_proven]).
    - Strangers: no session, no change ([Web.portal_gate],
      [Web.password_change_revokes], [Web.guesses_bounded]); frames are in
      order and never reflected ([Session.session_accepts_in_order],
      [Session.session_no_reflection]); the cache sends no more than it was
      asked, and a reply in pieces is put together from the first arrival of each
      ([QCache.no_amplification], [QCache.collect_exact]); a feed cannot take
      more than its bounds, a bad one leaves the last good list in force, and
      the set in the kernel follows the list while nft takes tables and
      removals ([Blocklist.CheckBlocklist_bounds], [Blocklist.feed_in_sync],
      [Blocklist.refresh_keeps_last_good]); the ports the query cache holds are
      those the ruleset redirects, while the store and the removals do not fail
      ([CacheRecord.sockets_match_redirects],
      [CacheRecord.timings_floor]).
    - The portal: what the engine runs stays a configuration the gate accepted,
      in every interleaving of requests ([Api.portal_config_sound]); an approval
      is bounded ([Api.approve_bounded]); a stranger moves nothing
      ([Api.strangers_move_nothing]); a region list is whole or nothing, whatever
      the order of its fetches, ends, and can be saved
      ([GeoFetch.fetch_whole_or_nothing], [GeoFetch.fetch_any_order],
      [GeoFetch.fetch_ends]).
    - What operators see: live facts are the sampler's last
      ([Status.sample_served_is_last], [Status.pickWANAddress_exact],
      [Status.snapshot_paths]); shared links are named exactly and a clash is
      announced ([Watching.shared_links_exact], [Watching.clash_announced]); the
      readback is bounded ([Readback.readback_bounded]); the deliveries started
      are those of the policy, and each goes only to the address of the settings
      ([Notify.alerts_refine], [Notify.keys_apart], [Notify.deliver_exact]); no
      counted report is forgotten ([Journal.journal_whole]), and the backend's
      copy of the throttle is the same ([Journal.agent_throttle_mirrors]).

    Some theorems show a behaviour that falls short of what the code means:
    [Quota.PeriodBounds_midnight_gap], [Accounting.torn_restart_underbills],
    [Engine.stale_install_after_save], [Registry.linker_stamp_lost_write],
    [Saved.mapped_target_saved], [Saved.wide_mark_saved],
    [Web.eviction_forgets], [Web.Concurrent.lockout_burst],
    [LinkerAgent.retry_reinstates_old], [Peers.linkerBackoff_stuck],
    [Blocklist.refused_outlives_304], [Forward.single_network_reinserted],
    [Backend.revert_takes_foreign_queue], [Backend.linker_route_not_repaired],
    [CacheRecord.refused_load_blackholes], [CacheRecord.negative_refresh_unfloored],
    [Api.save_rearms_after_revert], [Api.mode_loses_save], [Api.events_cap_bypassed],
    [Api.fraction_is_unlimited], [Notify.same_name_silenced],
    [Notify.broken_name_untold], [Notify.held_not_repeated],
    [StateFile.unsynced_torn], [StateFile.torn_array_lost],
    [Blocklist.refused_rearm_falls_behind],
    [CacheRecord.refused_removal_unrecorded].  And some show where a theorem
    above ends: [Engine.refused_latch_forgotten], [Agent.equal_number_moves],
    [Notify.undelivered_silences].

    ** Parameters, bounds and fuel

    Code that is not under [src/] is a parameter: the JSON codec of [Messages]
    with its round-trip law, the time-zone database ([LoadLocation]), URL
    parsing, Unicode's tables, the SQLite engine's faults, the network.
    Recursion that is not structural has fuel, each with a lemma that it is
    enough: numerals are printed with 20 digits ([Decimal.u64_digits]), a mark
    with 16 hexadecimal ones ([ProbeRules.hex_number_digits]); the line reader
    and [uniqueName] are shown to return ([Session.readLine_exact],
    [Ports.uniqueName_returns]).  Password hashing runs 600000 rounds as the
    source does, so no witness evaluates it.

    ** Not modelled

    The laws of the host the linker's commands run on ([LinkerRouting]) are of
    tables with at most one default route, the one without a metric; a table an
    administrator gave several is outside them.  Connection tracking: a chain is
    read for the packet it is asked about, which for a NAT chain is the first of
    a flow.
    Sockets, goroutine start and stop, logging, files and HTTP themselves;
    deadlines and the goroutines that close a connection; the text of pages and
    of messages; the socket mark ([mark_linux.go]); the schema of the database
    and its history queries; the command-line entry points ([cmd]), which read
    flags and start the parts above or print what the portal's socket answers. *)

From stdpp Require Export base list gmap strings sorting.
From Stdlib Require Export ZArith Lia Ascii.
From Stdlib Require String.

#[global] Open Scope string_scope.
#[global] Open Scope list_scope.
#[global] Open Scope Z_scope.

(** ** Machine integers

    Go's [int] and [int64] are 64-bit two's complement on the platforms the
    agents are built for, [uint64] is 64-bit unsigned.  Values are carried as
    [Z]; every operation that can leave the range is followed by the wrap the
    machine performs. *)

Definition MaxInt64 : Z := 9223372036854775807.
Definition MinInt64 : Z := -9223372036854775808.
Definition MaxUint64 : Z := 18446744073709551615.

(** Reduction modulo [2^64] into the unsigned range. *)
Definition u64 (z : Z) : Z := z mod 18446744073709551616.

(** Reduction modulo [2^64] into the signed range. *)
Definition i64 (z : Z) : Z :=
  (z + 9223372036854775808) mod 18446744073709551616 - 9223372036854775808.

(** Reduction modulo [2^16]. *)
Definition u16 (z : Z) : Z := z mod 65536.

Definition in_i64 (z : Z) : Prop := MinInt64 <= z <= MaxInt64.
Definition in_u64 (z : Z) : Prop := 0 <= z <= MaxUint64.

Create HintDb go.

Lemma i64_id z : in_i64 z -> i64 z = z.
Proof.
  unfold in_i64, i64, MinInt64, MaxInt64. intros H.
  rewrite Z.mod_small; lia.
Qed.

Lemma u64_id z : in_u64 z -> u64 z = z.
Proof. unfold in_u64, u64, MaxUint64. intros H. rewrite Z.mod_small; lia. Qed.

Lemma i64_range z : in_i64 (i64 z).
Proof.
  unfold in_i64, i64, MinInt64, MaxInt64.
  pose proof (Z.mod_pos_bound (z + 9223372036854775808) 18446744073709551616).
  lia.
Qed.

Lemma u64_range z : in_u64 (u64 z).
Proof.
  unfold in_u64, u64, MaxUint64.
  pose proof (Z.mod_pos_bound z 18446744073709551616). lia.
Qed.

Lemma u16_range z : 0 <= u16 z < 65536.
Proof. unfold u16. apply Z.mod_pos_bound. lia. Qed.

Lemma i64_u64 z : i64 (u64 z) = i64 z.
Proof.
  unfold i64, u64. f_equal.
  rewrite <- Z.add_mod_idemp_l by lia.
  rewrite Z.mod_mod by lia.
  rewrite Z.add_mod_idemp_l by lia. reflexivity.
Qed.

Lemma u64_i64 z : u64 (i64 z) = u64 z.
Proof.
  unfold i64, u64.
  rewrite Zminus_mod, Z.mod_mod by lia.
  rewrite <- Zminus_mod. f_equal. lia.
Qed.

#[export] Hint Resolve i64_range u64_range u16_range : go.

(** ** Results

    A fallible Go function returns a value and an [error]; the model returns
    one or the other. *)

Inductive result (E A : Type) : Type :=
| Ok (a : A)
| Err (e : E).
Arguments Ok {E A} a.
Arguments Err {E A} e.

Definition is_ok {E A} (r : result E A) : bool :=
  match r with Ok _ => true | Err _ => false end.

Definition res_bind {E A B} (r : result E A) (k : A -> result E B) : result E B :=
  match r with Ok a => k a | Err e => Err e end.

Declare Scope go_scope.
Delimit Scope go_scope with go.
Notation "'let?' x ':=' r 'in' k" := (res_bind r (fun x => k))
  (at level 10, x pattern, r at level 100, k at level 200)
  : go_scope.
#[global] Open Scope go_scope.

Lemma res_bind_ok {E A B} (r : result E A) (k : A -> result E B) b :
  res_bind r k = Ok b <-> exists a, r = Ok a /\ k a = Ok b.
Proof. destruct r; naive_solver. Qed.

(** ** Tactics *)

(** Turn the boolean comparisons of the hypotheses into propositions. *)
Ltac bool_to_prop :=
  repeat match goal with
  | H : (_ =? _) = true |- _ => apply Z.eqb_eq in H
  | H : (_ =? _) = false |- _ => apply Z.eqb_neq in H
  | H : (_ <? _) = true |- _ => apply Z.ltb_lt in H
  | H : (_ <? _) = false |- _ => apply Z.ltb_ge in H
  | H : (_ <=? _) = true |- _ => apply Z.leb_le in H
  | H : (_ <=? _) = false |- _ => apply Z.leb_gt in H
  | H : (_ && _)%bool = true |- _ => apply andb_true_iff in H; destruct H
  | H : (_ || _)%bool = false |- _ => apply orb_false_iff in H; destruct H
  | H : negb _ = true |- _ => apply negb_true_iff in H
  | H : negb _ = false |- _ => apply negb_false_iff in H
  end.

(** Case split on the scrutinee of some [if] or [match] of the goal. *)
Ltac split_if :=
  match goal with
  | |- context [if ?b then _ else _] => destruct b eqn:?
  end.

Ltac split_if_in H :=
  match type of H with
  | context [if ?b then _ else _] => destruct b eqn:?
  end.

(** Arithmetic after unfolding the integer ranges. *)
Ltac go_lia :=
  unfold in_i64, in_u64, MaxInt64, MinInt64, MaxUint64 in *; lia.
