(* ===== verification/GoTime.v ===== *)
(** * Go's [time] package, as far as the agents use it

    A [Time] is an instant: a number of nanoseconds since 1 January of year 1,
    UTC, so that the zero [time.Time] is [0] and [IsZero] is a test against it.
    A [Duration] is an [int64] number of nanoseconds.  Monotonic and wall
    readings are one and the same here: a function of the source that calls
    [time.Now()] takes the reading as an argument.

    The civil calendar (proleptic Gregorian, as the package documents it) is
    computed month by month: [month_start] gives the first day of a month and
    [civil_of_day] finds the month a day lies in. *)

From S2P Require Import Prelude.

Abbreviation Time := Z.
Abbreviation Duration := Z.

Definition Nanosecond : Duration := 1.
Definition Microsecond : Duration := 1000.
Definition Millisecond : Duration := 1000000.
Definition Second : Duration := 1000000000.
Definition Minute : Duration := 60000000000.
Definition Hour : Duration := 3600000000000.

(** Seconds from the zero [Time] to the Unix epoch. *)
Definition unixToInternal : Z := 62135596800.

Definition zeroTime : Time := 0.
Definition IsZero (t : Time) : bool := t =? 0.
Definition Before (t u : Time) : bool := t <? u.
Definition After (t u : Time) : bool := u <? t.

(** [Duration] arithmetic wraps like every [int64]. *)
Definition dmul (d u : Duration) : Duration := i64 (d * u).
Definition Add (t : Time) (d : Duration) : Time := t + d.

(** [Sub] saturates at the limits of a [Duration]. *)
Definition Sub (t u : Time) : Duration :=
  let d := t - u in
  if MaxInt64 <? d then MaxInt64 else if d <? MinInt64 then MinInt64 else d.

(** [time.Unix(s, 0)] and [Time.Unix]. *)
Definition UnixTime (s : Z) : Time := (s + unixToInternal) * Second.
Definition Unix (t : Time) : Z := t / Second - unixToInternal.
Definition UnixMilli (t : Time) : Z := t / Millisecond - unixToInternal * 1000.

(** [Duration.Microseconds] and [Duration.Milliseconds] truncate. *)
Definition Microseconds (d : Duration) : Z := Z.quot d Microsecond.
Definition Milliseconds (d : Duration) : Z := Z.quot d Millisecond.

Lemma Unix_UnixTime s : Unix (UnixTime s) = s.
Proof. unfold Unix, UnixTime, Second. rewrite Z.div_mul by lia. lia. Qed.

Lemma UnixTime_mono s s' : s <= s' -> UnixTime s <= UnixTime s'.
Proof. unfold UnixTime, Second. lia. Qed.

Lemma UnixTime_Unix_le t : UnixTime (Unix t) <= t.
Proof.
  unfold Unix, UnixTime, Second.
  pose proof (Z.mul_div_le t 1000000000). lia.
Qed.

Lemma Sub_pos t u : 0 < Sub t u <-> u < t.
Proof. unfold Sub, MaxInt64, MinInt64. repeat split_if; lia. Qed.

Lemma Sub_ge_small t u d :
  d < MaxInt64 -> MinInt64 < d -> (d <= Sub t u <-> d <= t - u).
Proof. unfold Sub, MaxInt64, MinInt64. intros. repeat split_if; lia. Qed.

Lemma Sub_range t u : in_i64 (Sub t u).
Proof. unfold Sub. repeat split_if; go_lia. Qed.
#[export] Hint Resolve Sub_range : go.

(** ** Civil calendar *)

Definition is_leap (y : Z) : bool :=
  (y mod 4 =? 0) && (negb (y mod 100 =? 0) || (y mod 400 =? 0)).

(** Length of month [m] (1 to 12) of year [y]. *)
Definition month_len (y m : Z) : Z :=
  if m =? 2 then (if is_leap y then 29 else 28)
  else if (m =? 4) || (m =? 6) || (m =? 9) || (m =? 11) then 30 else 31.

(** Days from 1 January of year 1 to 1 January of year [y]. *)
Definition days_before_year (y : Z) : Z :=
  365 * (y - 1) + (y - 1) / 4 - (y - 1) / 100 + (y - 1) / 400.

(** Days of year [y] before month [m]. *)
Definition days_before_month (y m : Z) : Z :=
  let leap := if is_leap y then 1 else 0 in
  if m <=? 1 then 0 else if m =? 2 then 31
  else leap + (if m =? 3 then 59 else if m =? 4 then 90 else if m =? 5 then 120
  else if m =? 6 then 151 else if m =? 7 then 181 else if m =? 8 then 212
  else if m =? 9 then 243 else if m =? 10 then 273 else if m =? 11 then 304
  else 334).

(** Months are numbered [12 * year + month - 1]. *)
Definition month_index (y m : Z) : Z := 12 * y + (m - 1).
Definition index_year (k : Z) : Z := k / 12.
Definition index_month (k : Z) : Z := k mod 12 + 1.

Definition month_start (k : Z) : Z :=
  days_before_year (index_year k) + days_before_month (index_year k) (index_month k).
Definition index_len (k : Z) : Z := month_len (index_year k) (index_month k).

Lemma index_of_month y m :
  1 <= m <= 12 ->
  index_year (month_index y m) = y /\ index_month (month_index y m) = m.
Proof.
  unfold month_index, index_year, index_month. intros H.
  replace (12 * y + (m - 1)) with ((m - 1) + y * 12) by lia.
  rewrite Z.div_add, Z.mod_add by lia.
  rewrite Z.div_small, Z.mod_small by lia. lia.
Qed.

Lemma month_index_of k : month_index (index_year k) (index_month k) = k.
Proof.
  unfold month_index, index_year, index_month.
  pose proof (Z.div_mod k 12). lia.
Qed.

Lemma index_month_range k : 1 <= index_month k <= 12.
Proof. unfold index_month. pose proof (Z.mod_pos_bound k 12). lia. Qed.

Lemma month_len_range y m : 28 <= month_len y m <= 31.
Proof. unfold month_len. repeat split_if; lia. Qed.

Lemma index_len_range k : 28 <= index_len k <= 31.
Proof. apply month_len_range. Qed.

Lemma days_before_year_succ y :
  days_before_year (y + 1) = days_before_year y + (if is_leap y then 366 else 365).
Proof.
  unfold days_before_year, is_leap.
  assert (H4 : y / 4 = (y - 1) / 4 + (if y mod 4 =? 0 then 1 else 0)).
  { split_if; bool_to_prop; Z.div_mod_to_equations; lia. }
  assert (H100 : y / 100 = (y - 1) / 100 + (if y mod 100 =? 0 then 1 else 0)).
  { split_if; bool_to_prop; Z.div_mod_to_equations; lia. }
  assert (H400 : y / 400 = (y - 1) / 400 + (if y mod 400 =? 0 then 1 else 0)).
  { split_if; bool_to_prop; Z.div_mod_to_equations; lia. }
  assert (D1 : y mod 400 = 0 -> y mod 100 = 0).
  { intros. Z.div_mod_to_equations. lia. }
  assert (D2 : y mod 100 = 0 -> y mod 4 = 0).
  { intros. Z.div_mod_to_equations. lia. }
  replace (y + 1 - 1) with y by lia. rewrite H4, H100, H400.
  destruct (y mod 4 =? 0) eqn:E4, (y mod 100 =? 0) eqn:E100,
    (y mod 400 =? 0) eqn:E400; simpl; bool_to_prop; lia.
Qed.

(** Months follow one another without gap or overlap. *)
Lemma month_start_succ k : month_start (k + 1) = month_start k + index_len k.
Proof.
  pose proof (index_month_range k) as Hm.
  rewrite <- (month_index_of k) at 1.
  unfold month_start at 2, index_len.
  set (y := index_year k) in *. set (m := index_month k) in *. clearbody y m.
  assert (Hcase : m = 12 \/ 1 <= m <= 11) by lia.
  destruct Hcase as [-> | Hm'].
  - replace (month_index y 12 + 1) with (month_index (y + 1) 1)
      by (unfold month_index; lia).
    unfold month_start. destruct (index_of_month (y + 1) 1) as [-> ->]; [lia |].
    rewrite days_before_year_succ.
    unfold days_before_month, month_len. destruct (is_leap y); simpl; lia.
  - replace (month_index y m + 1) with (month_index y (m + 1))
      by (unfold month_index; lia).
    unfold month_start. destruct (index_of_month y (m + 1)) as [-> ->]; [lia |].
    assert (Hm'' : m = 1 \/ m = 2 \/ m = 3 \/ m = 4 \/ m = 5 \/ m = 6 \/ m = 7
              \/ m = 8 \/ m = 9 \/ m = 10 \/ m = 11) by lia.
    unfold days_before_month, month_len.
    destruct (is_leap y);
      repeat (destruct Hm'' as [-> | Hm'']; [simpl; lia |]); subst; simpl; lia.
Qed.

Lemma month_start_lt k k' : k < k' -> month_start k + 28 <= month_start k'.
Proof.
  intros H. replace k' with (k + 1 + Z.of_nat (Z.to_nat (k' - k - 1))) by lia.
  induction (Z.to_nat (k' - k - 1)) as [|n IH].
  - rewrite Z.add_0_r, month_start_succ. pose proof (index_len_range k). lia.
  - rewrite Nat2Z.inj_succ.
    replace (k + 1 + Z.succ (Z.of_nat n)) with (k + 1 + Z.of_nat n + 1) by lia.
    rewrite month_start_succ. pose proof (index_len_range (k + 1 + Z.of_nat n)). lia.
Qed.

Lemma month_start_inj_range k k' d :
  month_start k <= d < month_start (k + 1) ->
  month_start k' <= d < month_start (k' + 1) -> k = k'.
Proof.
  intros H H'. destruct (Z.lt_trichotomy k k') as [Hlt | [-> | Hlt]]; [| done |].
  - assert (k + 1 = k' \/ k + 1 < k') as [<- | Hlt'] by lia; [lia |].
    apply month_start_lt in Hlt'. lia.
  - assert (k' + 1 = k \/ k' + 1 < k) as [<- | Hlt'] by lia; [lia |].
    apply month_start_lt in Hlt'. lia.
Qed.

(** Walk forward from month [k] until the month that holds day [rem] of it. *)
Fixpoint scan_month (fuel : nat) (k rem : Z) : Z * Z :=
  match fuel with
  | O => (k, rem)
  | S fuel =>
      if rem <? index_len k then (k, rem)
      else scan_month fuel (k + 1) (rem - index_len k)
  end.

(** The month index and the zero-based day of month of a day number.  400
    Gregorian years are 146097 days and 4800 months, which is the fuel. *)
Definition month_fuel : nat := Z.to_nat 4800.

Definition civil_of_day (d : Z) : Z * Z :=
  scan_month month_fuel (4800 * (d / 146097) + 12) (d mod 146097).

Fixpoint months_total (fuel : nat) (k : Z) : Z :=
  match fuel with O => 0 | S fuel => index_len k + months_total fuel (k + 1) end.

Lemma months_total_start fuel k :
  months_total fuel k = month_start (k + Z.of_nat fuel) - month_start k.
Proof.
  revert k. induction fuel as [|n IH]; intros k.
  - simpl. rewrite Z.add_0_r. lia.
  - rewrite Nat2Z.inj_succ. cbn [months_total]. rewrite IH, month_start_succ.
    replace (k + Z.succ (Z.of_nat n)) with (k + 1 + Z.of_nat n) by lia. lia.
Qed.

Lemma scan_month_ok fuel k rem k' r :
  0 <= rem < months_total fuel k ->
  scan_month fuel k rem = (k', r) ->
  month_start k' + r = month_start k + rem /\ 0 <= r < index_len k'.
Proof.
  revert k rem. induction fuel as [|n IH]; intros k rem Hr; simpl in *; [lia |].
  destruct (rem <? index_len k) eqn:E; intros H.
  - injection H as <- <-. bool_to_prop. lia.
  - bool_to_prop. apply IH in H; [| lia]. rewrite month_start_succ in H. lia.
Qed.

Lemma month_start_era e : month_start (4800 * e + 12) = 146097 * e.
Proof.
  replace (4800 * e + 12) with (month_index (400 * e + 1) 1)
    by (unfold month_index; lia).
  unfold month_start. destruct (index_of_month (400 * e + 1) 1) as [-> ->]; [lia |].
  unfold days_before_year, days_before_month. simpl.
  replace (400 * e + 1 - 1) with (400 * e) by lia.
  replace (400 * e) with (100 * e * 4) at 2 by lia.
  replace (400 * e) with (4 * e * 100) at 2 by lia.
  rewrite (Z.mul_comm 400 e). rewrite !Z.div_mul by lia. lia.
Qed.

Lemma month_fuel_Z : Z.of_nat month_fuel = 4800.
Proof. apply Z2Nat.id. lia. Qed.

(** [civil_of_day] finds the month: the day lies in it, at the offset given. *)
Lemma civil_of_day_ok d :
  month_start (civil_of_day d).1 + (civil_of_day d).2 = d
  /\ 0 <= (civil_of_day d).2 < index_len (civil_of_day d).1.
Proof.
  destruct (civil_of_day d) as [k r] eqn:E. unfold civil_of_day in E.
  pose proof (Z.mod_pos_bound d 146097) as Hm.
  apply scan_month_ok in E.
  - rewrite month_start_era in E. cbn [fst snd].
    pose proof (Z.div_mod d 146097). lia.
  - rewrite months_total_start, month_fuel_Z.
    replace (4800 * (d / 146097) + 12 + 4800)
      with (4800 * (d / 146097 + 1) + 12) by lia.
    rewrite !month_start_era. lia.
Qed.

Lemma civil_of_day_month d : 
  month_start (civil_of_day d).1 <= d < month_start ((civil_of_day d).1 + 1).
Proof. pose proof (civil_of_day_ok d). rewrite month_start_succ. lia. Qed.

(** The month found is the only one that holds the day. *)
Lemma civil_of_day_unique d k :
  month_start k <= d < month_start (k + 1) ->
  civil_of_day d = (k, d - month_start k).
Proof.
  intros H. pose proof (civil_of_day_ok d) as [H1 H2].
  pose proof (civil_of_day_month d) as H3.
  destruct (civil_of_day d) as [k' r]; simpl in *.
  rewrite (month_start_inj_range k k' d H H3). f_equal. lia.
Qed.

(** ** Locations

    A [*time.Location] is what [lookup] answers for a Unix second: the offset
    east of UTC, and the span of Unix seconds over which it holds. *)

Record Location := mkLocation {
  loc_lookup : Z -> Z * Z * Z;   (* offset, start, end *)
}.

Definition secsPerDay : Z := 86400.
Definition alpha : Z := MinInt64.
Definition omega : Z := MaxInt64.

(** [time.UTC] and [time.FixedZone]. *)
Definition FixedZone (off : Z) : Location := mkLocation (fun _ => (off, alpha, omega)).
Definition UTC : Location := FixedZone 0.

Definition loc_offset (l : Location) (sec : Z) : Z := (loc_lookup l sec).1.1.

(** The instant a wall-clock reading [unix] (counted as if it were UTC) stands
    for in a zone, as [time.Date] works it out: the offset is guessed at the
    reading itself and looked up again when the guess leaves the span it was
    valid for. *)
Definition wall_to_unix (l : Location) (unix : Z) : Z :=
  let '(offset, start, end_) := loc_lookup l unix in
  if offset =? 0 then unix
  else
    let utc := unix - offset in
    let offset :=
      if (utc <? start) || (end_ <=? utc) then loc_offset l utc else offset in
    unix - offset.

(** [time.Date(y, m, d, 0, 0, 0, 0, loc)] as a Unix second.  Months outside 1
    to 12 and days outside the month normalise. *)
Definition DateSec (l : Location) (y m d : Z) : Z :=
  wall_to_unix l ((month_start (month_index y m) + (d - 1)) * secsPerDay - unixToInternal).

Definition Date (l : Location) (y m d : Z) : Time := UnixTime (DateSec l y m d).

(** [t.In(loc)] followed by [Year], [Month] and [Day]: the local day number. *)
Definition local_day (l : Location) (t : Time) : Z :=
  let sec := Unix t in
  (sec + loc_offset l sec + unixToInternal) / secsPerDay.

Definition Year (l : Location) (t : Time) : Z :=
  index_year (civil_of_day (local_day l t)).1.
Definition Month (l : Location) (t : Time) : Z :=
  index_month (civil_of_day (local_day l t)).1.
Definition Day (l : Location) (t : Time) : Z :=
  (civil_of_day (local_day l t)).2 + 1.

(** [t.AddDate(dy, dm, dd)] with [t] in the zone: the date moves, the time of
    day stays. *)
Definition AddDate (l : Location) (t : Time) (dy dm dd : Z) : Time :=
  let sec := Unix t in
  let local := sec + loc_offset l sec + unixToInternal in
  let '(k, d) := civil_of_day (local / secsPerDay) in
  let day := month_start (k + 12 * dy + dm) + d + dd in
  UnixTime (wall_to_unix l (day * secsPerDay + local mod secsPerDay - unixToInternal))
  + t mod Second.

Lemma local_index l t :
  month_index (Year l t) (Month l t) = (civil_of_day (local_day l t)).1.
Proof. apply month_index_of. Qed.

(** In a zone with one offset, midnight is the day boundary shifted by it. *)
Lemma DateSec_fixed off y m d :
  DateSec (FixedZone off) y m d
  = (month_start (month_index y m) + (d - 1)) * secsPerDay - unixToInternal - off.
Proof.
  unfold DateSec, wall_to_unix, FixedZone, loc_offset; simpl.
  destruct (off =? 0) eqn:E; bool_to_prop; [lia |].
  destruct (_ || _); lia.
Qed.

Example civil_leap_day : civil_of_day (month_start (month_index 2024 2) + 28)
  = (month_index 2024 2, 28).
Proof. vm_compute. reflexivity. Qed.

Example unix_epoch_day : month_start (month_index 1970 1) * secsPerDay = unixToInternal.
Proof. vm_compute. reflexivity. Qed.

#[global] Opaque civil_of_day.
