(* ===== verification/Float64.v ===== *)
(** * IEEE 754 binary64

    Go's [float64], on the executable specification of binary floating point
    that the standard library carries ([SpecFloat], with 53 bits of precision
    and exponents below 1024).  Rounding is to nearest, ties to even.  The
    file adds what the agents use: conversion from and to [int64], the
    comparisons, and the order lemmas that hold of every value that is not a
    NaN. *)

From S2P Require Import Prelude.
From Stdlib Require Export SpecFloat.

Abbreviation float64 := spec_float.

Definition prec : Z := 53.
Definition emax : Z := 1024.

Definition fadd : float64 -> float64 -> float64 := SFadd prec emax.
Definition fsub : float64 -> float64 -> float64 := SFsub prec emax.
Definition fmul : float64 -> float64 -> float64 := SFmul prec emax.
Definition fdiv : float64 -> float64 -> float64 := SFdiv prec emax.
Definition fopp : float64 -> float64 := SFopp.
Definition flt : float64 -> float64 -> bool := SFltb.
Definition fle : float64 -> float64 -> bool := SFleb.
Definition feq : float64 -> float64 -> bool := SFeqb.
Definition fgt (a b : float64) : bool := flt b a.
Definition fge (a b : float64) : bool := fle b a.

Definition fzero : float64 := S754_zero false.
Definition finf : float64 := S754_infinity false.
Definition fnan : float64 := S754_nan.

(** [math.IsNaN]. *)
Definition fis_nan (f : float64) : bool :=
  match f with S754_nan => true | _ => false end.

(** [float64(z)] of an integer, rounded to nearest even. *)
Definition f64_of_Z (z : Z) : float64 := binary_normalize prec emax z 0 false.

(** The value of a finite float, truncated toward zero. *)
Definition f64_trunc (f : float64) : option Z :=
  match f with
  | S754_zero _ => Some 0
  | S754_finite s m e => Some (cond_Zopp s (Z.shiftl (Zpos m) e))
  | _ => None
  end.

(** [int64(f)].  Out of range, and for a NaN, amd64 produces [MinInt64]. *)
Definition f64_to_int64 (f : float64) : Z :=
  match f64_trunc f with
  | Some z => if (MinInt64 <=? z) && (z <=? MaxInt64) then z else MinInt64
  | None => MinInt64
  end.

(** The builtin [min] on two floats: a NaN operand is the result. *)
Definition fmin (a b : float64) : float64 :=
  if fis_nan a then a else if fis_nan b then b
  else if flt b a then b
  else if feq a b then (match a with S754_zero true => a | _ =>
    match b with S754_zero true => b | _ => a end end)
  else a.

Definition fabs_lt0 (d : float64) : float64 := if flt d fzero then fopp d else d.

(** ** Order *)

(** Case analysis on every exponent and mantissa comparison in sight. *)
Ltac cmp_cases :=
  change (Pos.compare_cont Eq) with Pos.compare in *;
  repeat match goal with
  | H : context [Z.compare ?a ?b] |- _ => destruct (Z.compare_spec a b); simpl in *
  | |- context [Z.compare ?a ?b] => destruct (Z.compare_spec a b); simpl in *
  | H : context [Pos.compare ?a ?b] |- _ => destruct (Pos.compare_spec a b); simpl in *
  | |- context [Pos.compare ?a ?b] => destruct (Pos.compare_spec a b); simpl in *
  end; try discriminate; try reflexivity; try lia.

Lemma flt_irrefl a : flt a a = false.
Proof.
  unfold flt, SFltb, SFcompare. destruct a as [?|[]| |[] m e]; try reflexivity; cmp_cases.
Qed.

Lemma flt_trans a b c : flt a b = true -> flt b c = true -> flt a c = true.
Proof.
  unfold flt, SFltb, SFcompare. intros H1 H2.
  destruct a as [[]|[]| |[] ma ea], b as [[]|[]| |[] mb eb], c as [[]|[]| |[] mc ec];
    try discriminate; try reflexivity; cmp_cases.
Qed.

Lemma flt_total a b :
  fis_nan a = false -> fis_nan b = false -> flt a b = false -> fle b a = true.
Proof.
  unfold flt, fle, SFltb, SFleb, SFcompare. intros Ha Hb H.
  destruct a as [[]|[]| |[] ma ea], b as [[]|[]| |[] mb eb];
    try discriminate; try reflexivity; cmp_cases.
Qed.

Lemma fle_not_lt a b : fle a b = true -> flt b a = false.
Proof.
  unfold flt, fle, SFltb, SFleb, SFcompare. intros H.
  destruct a as [[]|[]| |[] ma ea], b as [[]|[]| |[] mb eb];
    try discriminate; try reflexivity; cmp_cases.
Qed.

Lemma flt_nan_l b : flt fnan b = false.
Proof. reflexivity. Qed.

Lemma flt_not_nan a b : flt a b = true -> fis_nan a = false /\ fis_nan b = false.
Proof. destruct a as [[]|[]| |[] ? ?], b as [[]|[]| |[] ? ?]; done. Qed.

Lemma flt_le_incompat a b c :
  flt a b = true -> flt c b = false -> fis_nan c = false -> flt c a = false.
Proof.
  intros H1 H2 Hc. destruct (flt c a) eqn:E; [| done].
  rewrite (flt_trans c a b) in H2; done.
Qed.

(** ** Mantissa bound

    Every rounded result has a mantissa below [2^53]. *)

Definition small_mantissa (f : float64) : Prop :=
  match f with S754_finite _ m _ => Zpos m < 2 ^ prec | _ => True end.

Lemma Zdigits2_bound m : 0 <= m -> m < 2 ^ Zdigits2 m.
Proof.
  intros Hm. destruct m as [|p|p]; [simpl; lia | | lia]. simpl Zdigits2.
  induction p as [p IH|p IH|]; cbn [digits2_pos]; [| | done];
    rewrite Pos2Z.inj_succ, Z.pow_succ_r by lia; specialize (IH ltac:(lia)); lia.
Qed.

Lemma shr_1_m r : 0 <= shr_m r -> shr_m (shr_1 r) = shr_m r / 2.
Proof.
  destruct r as [m r s]; simpl. destruct m as [|[p|p|]|p]; simpl; intros; try lia; try done.
  - apply (Z.div_unique _ _ _ 1); lia.
  - apply (Z.div_unique _ _ _ 0); lia.
Qed.

Lemma iter_pos_nat {A} (f : A -> A) n : forall x,
  iter_pos f n x = Nat.iter (Pos.to_nat n) f x.
Proof.
  induction n as [n IH|n IH|]; intros x; cbn [iter_pos]; rewrite ?IH; [| | done].
  - rewrite <- Nat.iter_add, <- Nat.iter_succ_r. f_equal. lia.
  - rewrite <- Nat.iter_add. f_equal. lia.
Qed.

Lemma iter_shr_1_m n r : 0 <= shr_m r ->
  shr_m (iter_pos shr_1 n r) = shr_m r / 2 ^ Zpos n.
Proof.
  intros Hr. rewrite iter_pos_nat, <- (positive_nat_Z n).
  induction (Pos.to_nat n) as [|k IH]; simpl Nat.iter.
  - change (2 ^ Z.of_nat 0) with 1. rewrite Z.div_1_r. done.
  - rewrite shr_1_m, IH, Nat2Z.inj_succ, Z.pow_succ_r by
      (rewrite ?IH; try apply Z.div_pos; lia).
    rewrite Z.div_div by lia. f_equal. lia.
Qed.

Lemma shr_record_of_loc_m m l : shr_m (shr_record_of_loc m l) = m.
Proof. destruct l as [|[]]; reflexivity. Qed.

Lemma shr_fexp_bound m e l :
  0 <= m -> 0 <= shr_m (shr_fexp prec emax m e l).1 < 2 ^ prec.
Proof.
  intros Hm. unfold shr_fexp, shr.
  pose proof (Zdigits2_bound m Hm) as Hd.
  set (n := SpecFloat.fexp prec emax (Zdigits2 m + e) - e).
  assert (Hn : Zdigits2 m - prec <= n) by (subst n; unfold SpecFloat.fexp; lia).
  clearbody n.
  assert (Hsmall : n <= 0 -> 0 <= m < 2 ^ prec).
  { intros. split; [done |]. eapply Z.lt_le_trans; [exact Hd |].
    apply Z.pow_le_mono_r; lia. }
  destruct n as [|p|p]; simpl fst; rewrite ?shr_record_of_loc_m;
    [apply Hsmall; lia | | apply Hsmall; lia].
  rewrite iter_shr_1_m; rewrite shr_record_of_loc_m; [| done].
  split; [apply Z.div_pos; lia |].
  apply Z.div_lt_upper_bound; [lia |].
  eapply Z.lt_le_trans; [exact Hd |].
  rewrite <- Z.pow_add_r by (unfold prec; lia). apply Z.pow_le_mono_r; lia.
Qed.

(** A non-negative input rounds to a float of the given sign, never a NaN. *)
Definition signed_number (s : bool) (f : float64) : Prop :=
  match f with
  | S754_zero s' | S754_infinity s' | S754_finite s' _ _ => s' = s
  | S754_nan => False
  end.

Lemma round_nearest_even_nonneg m l : 0 <= m -> 0 <= round_nearest_even m l.
Proof. destruct l as [|[]]; simpl; try destruct (Z.even m); lia. Qed.

Lemma binary_round_aux_ok s m e l :
  0 <= m ->
  signed_number s (binary_round_aux prec emax s m e l)
  /\ small_mantissa (binary_round_aux prec emax s m e l).
Proof.
  intros Hm. unfold binary_round_aux.
  pose proof (shr_fexp_bound m e l Hm) as H1.
  destruct (shr_fexp prec emax m e l) as [r1 e1]; simpl in H1.
  set (m1 := round_nearest_even (shr_m r1) (loc_of_shr_record r1)).
  assert (Hm1 : 0 <= m1) by (apply round_nearest_even_nonneg; lia).
  pose proof (shr_fexp_bound m1 e1 loc_Exact Hm1) as H2.
  destruct (shr_fexp prec emax m1 e1 loc_Exact) as [r2 e2]; simpl in H2.
  destruct (shr_m r2) as [|p|p] eqn:E; simpl; [done | | lia].
  destruct (e2 <=? emax - prec); simpl; (split; [done |]); [lia | done].
Qed.

Lemma f64_of_Z_ok z :
  0 <= z -> signed_number false (f64_of_Z z) /\ small_mantissa (f64_of_Z z).
Proof.
  intros Hz. unfold f64_of_Z, binary_normalize. destruct z as [|p|p]; [done | | lia].
  unfold binary_round. destruct (shl_align _ _ _) as [mz ez].
  apply binary_round_aux_ok. lia.
Qed.

Lemma fmul_pos_ok f m e :
  signed_number false f ->
  small_mantissa f ->
  signed_number false (fmul f (S754_finite false m e))
  /\ small_mantissa (fmul f (S754_finite false m e)).
Proof.
  unfold fmul. destruct f as [s|s| |s m' e']; simpl; try done; intros -> _; try done.
  apply binary_round_aux_ok. lia.
Qed.

Lemma fdiv_pos_ok f m e :
  signed_number false f ->
  small_mantissa f ->
  signed_number false (fdiv f (S754_finite false m e))
  /\ small_mantissa (fdiv f (S754_finite false m e)).
Proof.
  unfold fdiv. destruct f as [s|s| |s m' e']; simpl; try done; intros -> _; try done.
  destruct (SFdiv_core_binary prec emax (Zpos m') e' (Zpos m) e) as [[mz ez] lz] eqn:E.
  apply binary_round_aux_ok. revert E.
  unfold SFdiv_core_binary.
  set (x := match _ with Z0 => _ | Zpos _ => _ | Zneg _ => _ end).
  assert (Hx : 0 <= x).
  { subst x. destruct (_ - _ - _) as [|p|p]; [lia | apply Z.shiftl_nonneg; lia | lia]. }
  clearbody x. pose proof (Z.div_pos x (Zpos m) Hx ltac:(lia)) as Hd. unfold Z.div in Hd.
  destruct (Z.div_eucl x (Zpos m)) as [q r]. intros [= <- _ _]. exact Hd.
Qed.

(** A number below [2^63] truncates inside the [int64] range. *)
Lemma f64_to_int64_bound f :
  signed_number false f -> small_mantissa f ->
  fle (f64_of_Z 9223372036854775808) f = false ->
  0 <= f64_to_int64 f <= MaxInt64.
Proof.
  intros Hs Hm Hlt.
  assert (H63 : f64_of_Z 9223372036854775808 = S754_finite false 4503599627370496 11)
    by (vm_compute; reflexivity).
  rewrite H63 in Hlt. unfold f64_to_int64.
  assert (Hz : exists z, f64_trunc f = Some z /\ 0 <= z <= MaxInt64).
  { destruct f as [s|s| |s m e]; simpl in Hs; try done; subst s.
    - exists 0. split; [done | go_lia].
    - discriminate.
    - exists (Z.shiftl (Zpos m) e). split; [done |].
      unfold small_mantissa, prec in Hm. change (2 ^ 53) with 9007199254740992 in Hm.
      assert (Hc : e < 11 \/ e = 11 /\ Zpos m < 4503599627370496).
      { unfold fle, SFleb, SFcompare in Hlt.
        change (Pos.compare_cont Eq 4503599627370496 m)
          with (Pos.compare 4503599627370496 m) in Hlt.
        destruct (Z.compare_spec 11 e); [| discriminate | left; done].
        destruct (Pos.compare_spec 4503599627370496 m) as [| |Hc]; try discriminate.
        right. split; [done | exact Hc]. }
      split; [apply Z.shiftl_nonneg; lia |].
      destruct (Z.lt_ge_cases e 0) as [Hneg | Hpos].
      + rewrite Z.shiftl_div_pow2 by lia.
        assert (0 < 2 ^ (- e)) by (apply Z.pow_pos_nonneg; lia).
        transitivity (Zpos m); [apply Z.div_le_upper_bound; nia |].
        unfold MaxInt64. lia.
      + rewrite Z.shiftl_mul_pow2 by lia.
        assert (2 ^ e <= 2 ^ 10 \/ e = 11) as [Hp | ->].
        { destruct Hc; [left; apply Z.pow_le_mono_r | right]; lia. }
        * unfold MaxInt64. change (2 ^ 10) with 1024 in Hp.
          assert (Zpos m * 2 ^ e <= 9007199254740991 * 1024); [| lia].
          apply Z.mul_le_mono_nonneg; lia.
        * unfold MaxInt64. change (2 ^ 11) with 2048.
          destruct Hc; [lia |]. lia. }
  destruct Hz as (z & -> & Hz). 
  replace ((MinInt64 <=? z) && (z <=? MaxInt64)) with true; [done |].
  symmetry. apply andb_true_iff. split; apply Z.leb_le; go_lia.
Qed.

(** ** Small integers are exact *)

(** A mantissa of exactly 53 bits. *)
Definition full_mantissa (m : Z) : Prop := 2 ^ 52 <= m < 2 ^ 53.

Lemma digits2_lower p : 2 ^ (Zpos (digits2_pos p) - 1) <= Zpos p.
Proof.
  induction p as [p IH|p IH|]; cbn [digits2_pos]; [| | cbn; lia];
    rewrite Pos2Z.inj_succ;
    replace (Z.succ (Zpos (digits2_pos p)) - 1) with (Z.succ (Zpos (digits2_pos p) - 1)) by lia;
    rewrite Z.pow_succ_r by lia; lia.
Qed.

Lemma digits2_unique p k : 0 < k -> 2 ^ (k - 1) <= Zpos p < 2 ^ k -> Zpos (digits2_pos p) = k.
Proof.
  intros Hk [H1 H2]. pose proof (digits2_lower p) as L. pose proof (Zdigits2_bound (Zpos p) ltac:(lia)) as U.
  cbn [Zdigits2] in U. set (d := Zpos (digits2_pos p)) in *.
  destruct (Z.lt_trichotomy d k) as [Hd|[Hd|Hd]]; [| done |]; exfalso.
  - assert (2 ^ d <= 2 ^ (k - 1)) by (apply Z.pow_le_mono_r; lia). lia.
  - assert (2 ^ k <= 2 ^ (d - 1)) by (apply Z.pow_le_mono_r; lia). lia.
Qed.

Lemma iter_shr_1_exact n : forall m,
  Nat.iter n shr_1 (Build_shr_record (m * 2 ^ Z.of_nat n) false false) = Build_shr_record m false false.
Proof.
  induction n as [|n IH]; intros m; [cbn; by rewrite Z.mul_1_r |].
  rewrite Nat.iter_succ. replace (m * 2 ^ Z.of_nat (S n)) with ((m * 2) * 2 ^ Z.of_nat n)
    by (rewrite Nat2Z.inj_succ, Z.pow_succ_r by lia; lia).
  rewrite IH, (Z.mul_comm m 2). by destruct m.
Qed.

(** Rounding an exact mantissa of more than 53 bits whose low bits are zero. *)
Lemma shr_fexp_exact m e n :
  full_mantissa m -> 0 <= n -> -1074 <= e + n ->
  shr_fexp prec emax (m * 2 ^ n) e loc_Exact = (Build_shr_record m false false, e + n).
Proof.
  unfold full_mantissa. intros Hm Hn He.
  assert (Hp : 0 < 2 ^ n) by (apply Z.pow_pos_nonneg; lia).
  destruct (m * 2 ^ n) as [|p|p] eqn:E; [nia | | nia].
  assert (Hd : Zpos (digits2_pos p) = 53 + n).
  { apply digits2_unique; [lia |]. rewrite <- E. replace (53 + n - 1) with (52 + n) by lia.
    rewrite !Z.pow_add_r by lia. nia. }
  unfold shr_fexp. cbn [Zdigits2]. rewrite Hd. unfold SpecFloat.fexp, SpecFloat.emin, prec, emax.
  replace (Z.max (53 + n + e - 53) (3 - 1024 - 53) - e) with n by lia.
  unfold shr. destruct n as [|k|k]; [| | lia].
  - cbn [shr_record_of_loc]. rewrite Z.mul_1_r in E. by rewrite <- E, Z.add_0_r.
  - cbn [shr_record_of_loc]. rewrite <- E. f_equal.
    rewrite iter_pos_nat. rewrite <- (positive_nat_Z k). by apply iter_shr_1_exact.
Qed.

Lemma binary_round_exact s m e n :
  full_mantissa (Zpos m) -> 0 <= n -> -1074 <= e + n <= 971 ->
  binary_round_aux prec emax s (Zpos m * 2 ^ n) e loc_Exact = S754_finite s m (e + n).
Proof.
  intros Hm Hn He. unfold binary_round_aux. rewrite shr_fexp_exact by (done || lia).
  cbn [shr_m loc_of_shr_record round_nearest_even].
  assert (H2 := shr_fexp_exact (Zpos m) (e + n) 0 Hm ltac:(lia) ltac:(lia)).
  rewrite Z.mul_1_r, Z.add_0_r in H2. rewrite H2. cbn [shr_m].
  destruct (Z.leb_spec (e + n) (emax - prec)); [done | unfold emax, prec in *; lia].
Qed.

Lemma shift_pos_Z d m : Zpos (shift_pos d m) = Zpos m * 2 ^ Zpos d.
Proof.
  rewrite Zpower.shift_pos_correct, Z.mul_comm. reflexivity.
Qed.

Lemma f64_of_Z_exact p : Zpos p < 2 ^ 53 ->
  exists m e, f64_of_Z (Zpos p) = S754_finite false m e
    /\ full_mantissa (Zpos m) /\ -52 <= e <= 0 /\ Zpos m = Zpos p * 2 ^ (- e).
Proof.
  intros Hp. pose proof (digits2_lower p) as L. pose proof (Zdigits2_bound (Zpos p) ltac:(lia)) as U.
  cbn [Zdigits2] in U. set (d := Zpos (digits2_pos p)) in *.
  assert (Hd : 1 <= d <= 53).
  { split; [lia |]. destruct (Z.le_gt_cases d 53); [done |].
    assert (2 ^ 53 <= 2 ^ (d - 1)) by (apply Z.pow_le_mono_r; lia). lia. }
  assert (Hfull : full_mantissa (Zpos p * 2 ^ (53 - d))).
  { unfold full_mantissa. assert (0 < 2 ^ (53 - d)) by (apply Z.pow_pos_nonneg; lia).
    replace (2 ^ 52) with (2 ^ (d - 1) * 2 ^ (53 - d)) by (rewrite <- Z.pow_add_r by lia; f_equal; lia).
    replace (2 ^ 53) with (2 ^ d * 2 ^ (53 - d)) by (rewrite <- Z.pow_add_r by lia; f_equal; lia). nia. }
  unfold f64_of_Z, binary_normalize, binary_round, shl_align. cbn [Zdigits2].
  fold d. unfold SpecFloat.fexp, SpecFloat.emin.
  replace (Z.max (d + 0 - prec) (3 - emax - prec) - 0) with (d - 53) by (unfold prec, emax; lia).
  replace (Z.max (d + 0 - prec) (3 - emax - prec)) with (d - 53) by (unfold prec, emax; lia).
  destruct (d - 53) as [|k|k] eqn:Ek; [| lia |].
  - exists p, 0. replace (53 - d) with 0 in Hfull by lia. rewrite Z.mul_1_r in Hfull.
    assert (H := binary_round_exact false p 0 0 Hfull ltac:(lia) ltac:(lia)).
    rewrite Z.mul_1_r in H. split_and!; [exact H | done | lia | lia | cbn; lia].
  - exists (shift_pos k p), (Zneg k).
    assert (E : Zpos (shift_pos k p) = Zpos p * 2 ^ (53 - d)).
    { rewrite shift_pos_Z. f_equal. f_equal. lia. }
    rewrite <- E in Hfull.
    assert (H := binary_round_exact false (shift_pos k p) (Zneg k) 0 Hfull ltac:(lia) ltac:(lia)).
    rewrite Z.mul_1_r in H. split_and!; [exact H | done | lia | lia | rewrite E; f_equal; f_equal; lia].
Qed.

(** Halving is exact, and comparison is that of the numbers. *)
Definition f64_half : float64 := fdiv (f64_of_Z 1) (f64_of_Z 2).

Lemma half_lt r p : 0 <= r < 2 ^ 53 -> 0 < p < 2 ^ 53 ->
  flt (f64_of_Z r) (fmul f64_half (f64_of_Z p)) = (2 * r <? p).
Proof.
  intros Hr Hp. destruct p as [|p|p]; [lia | | lia].
  destruct (f64_of_Z_exact p (proj2 Hp)) as (mp & ep & Ep & Fp & Bp & Vp).
  assert (Hh : f64_half = S754_finite false 4503599627370496 (-53)) by (vm_compute; reflexivity).
  rewrite Hh, Ep. unfold fmul, SFmul.
  replace (Zpos (4503599627370496 * mp)) with (Zpos mp * 2 ^ 52) by (change (2 ^ 52) with 4503599627370496; lia).
  rewrite (binary_round_exact (xorb false false) mp (-53 + ep) 52 Fp) by lia.
  replace (-53 + ep + 52) with (ep - 1) by lia.
  destruct r as [|r|r]; [| | lia].
  { change (f64_of_Z 0) with (S754_zero false). cbn. symmetry. apply Z.ltb_lt. lia. }
  destruct (f64_of_Z_exact r (proj2 Hr)) as (mr & er & Er & Fr & Br & Vr). rewrite Er.
  unfold flt, SFltb, SFcompare. cbn [xorb].
  change (Pos.compare_cont Eq mr mp) with (Pos.compare mr mp).
  unfold full_mantissa in *. change (2 ^ 53) with 9007199254740992 in *. change (2 ^ 52) with 4503599627370496 in *.
  assert (Pr : 0 < 2 ^ (- er)) by (apply Z.pow_pos_nonneg; lia).
  assert (Pp : 0 < 2 ^ (- ep)) by (apply Z.pow_pos_nonneg; lia).
  destruct (Z.compare_spec er (ep - 1)) as [E|E|E].
  - assert (H2 : 2 ^ (- er) = 2 * 2 ^ (- ep)).
    { replace (- er) with (Z.succ (- ep)) by lia. rewrite Z.pow_succ_r by lia. done. }
    rewrite H2 in Vr. destruct (Pos.compare_spec mr mp) as [->|Hc|Hc]; symmetry;
      [apply Z.ltb_ge | apply Z.ltb_lt | apply Z.ltb_ge]; nia.
  - symmetry. apply Z.ltb_lt.
    assert (H2 : 4 * 2 ^ (- ep) <= 2 ^ (- er)).
    { replace 4 with (2 ^ 2) by done. rewrite <- Z.pow_add_r by lia. apply Z.pow_le_mono_r; lia. }
    nia.
  - symmetry. apply Z.ltb_ge.
    assert (H2 : 2 ^ (- er) <= 2 ^ (- ep)) by (apply Z.pow_le_mono_r; lia). nia.
Qed.
