(* ===== verification/FloatBound.v ===== *)
(** * Rounded products stay under exact bounds

    Rounding to binary64 never passes a number that needs no rounding, so a
    product with a constant is bounded by the product of the bound, where that
    is exact. *)

From S2P Require Import Prelude Float64.
From Stdlib Require Import SpecFloat.

(** ** Values

    The value of [m * 2 ^ e], scaled to an integer. *)
Definition fscale : Z := 2200.
Definition val_le (m e m' e' : Z) : Prop := m * 2 ^ (e + fscale) <= m' * 2 ^ (e' + fscale).

(** A shift by one keeps track of what it drops. *)
Definition lossless (r : shr_record) : bool := negb (shr_r r) && negb (shr_s r).
Lemma shr_1_lossless r : 0 <= shr_m r ->
  lossless (shr_1 r) = lossless r && (shr_m (shr_1 r) * 2 =? shr_m r).
Proof.
  destruct r as [m r s]. intros Hm. cbn in Hm. unfold lossless.
  destruct m as [|[p|p|]|p]; try lia; destruct r, s; cbn; try done; symmetry; (apply Z.eqb_eq; lia) || (apply Z.eqb_neq; lia).
Qed.

Lemma iter_shr_1_value n m : 0 <= m ->
  let r := Nat.iter n shr_1 (Build_shr_record m false false) in
  shr_m r = m / 2 ^ Z.of_nat n /\ lossless r = (shr_m r * 2 ^ Z.of_nat n =? m).
Proof.
  intros Hm. induction n as [|n [IH1 IH2]]; cbn zeta in *.
  { cbn. rewrite Z.div_1_r, Z.mul_1_r, Z.eqb_refl. done. }
  rewrite Nat.iter_succ. set (r := Nat.iter n shr_1 _) in *. rewrite Nat2Z.inj_succ, Z.pow_succ_r by lia.
  assert (Hp : 0 < 2 ^ Z.of_nat n) by (apply Z.pow_pos_nonneg; lia).
  assert (Hr : 0 <= shr_m r) by (rewrite IH1; apply Z.div_pos; lia).
  assert (E : shr_m (shr_1 r) = m / (2 * 2 ^ Z.of_nat n)).
  { rewrite shr_1_m, IH1, Z.div_div by lia. f_equal. lia. }
  split; [done |]. rewrite shr_1_lossless, IH2 by done. rewrite E, IH1.
  pose proof (Z.mul_div_le m (2 ^ Z.of_nat n) Hp). pose proof (Z.mul_div_le (m / 2 ^ Z.of_nat n) 2 ltac:(lia)).
  rewrite (Z.mul_comm 2), <- (Z.div_div m) by lia. set (a := m / 2 ^ Z.of_nat n) in *. set (p := 2 ^ Z.of_nat n) in *.
  destruct (Z.eqb_spec (a * p) m), (Z.eqb_spec (a / 2 * 2) a), (Z.eqb_spec (a / 2 * (p * 2)) m); try done; nia.
Qed.

(** What [shr_fexp] leaves of an exact mantissa. *)
Lemma shr_fexp_value m e : 0 <= m ->
  let '(r, e1) := shr_fexp prec emax m e loc_Exact in
  e1 = Z.max e (SpecFloat.fexp prec emax (Zdigits2 m + e))
  /\ shr_m r = m / 2 ^ (e1 - e) /\ (loc_of_shr_record r = loc_Exact \/ shr_m r * 2 ^ (e1 - e) < m).
Proof.
  intros Hm. unfold shr_fexp, shr. set (n := SpecFloat.fexp _ _ _). destruct (n - e) as [|k|k] eqn:En.
  - rewrite Z.sub_diag, Z.div_1_r. split_and!; [lia | done | by left].
  - replace (e + Zpos k - e) with (Zpos k) by lia. rewrite iter_pos_nat, <- (positive_nat_Z k).
    destruct (iter_shr_1_value (Pos.to_nat k) m ltac:(lia)) as [H1 H2]. cbn [shr_record_of_loc]. set (r := Nat.iter _ _ _) in *.
    split_and!; [lia | done |]. unfold lossless in H2. destruct (Z.eqb_spec (shr_m r * 2 ^ Z.of_nat (Pos.to_nat k)) m) as [E|E].
    + left. apply andb_true_iff in H2 as [A B]. apply negb_true_iff in A, B. destruct r as [mr rr sr]. cbn in *. by subst.
    + right. pose proof (Z.mul_div_le m (2 ^ Z.of_nat (Pos.to_nat k)) ltac:(apply Z.pow_pos_nonneg; lia)). lia.
  - rewrite Z.sub_diag, Z.div_1_r. split_and!; [lia | done | by left].
Qed.

Lemma pow_gap a b c : a <= b -> 0 <= a -> c * 2 ^ b = c * 2 ^ (b - a) * 2 ^ a.
Proof. intros H Ha. rewrite <- Z.mul_assoc, <- Z.pow_add_r, Z.sub_add by lia. done. Qed.

(** A number below a bound of 53 bits keeps its exponent below the bound's. *)
Lemma exponent_below m e mB eB : 0 < m -> -2200 <= e -> full_mantissa mB -> -1074 <= eB ->
  val_le m e mB eB -> SpecFloat.fexp prec emax (Zdigits2 m + e) <= eB.
Proof.
  unfold full_mantissa, val_le, fscale, SpecFloat.fexp, SpecFloat.emin, prec, emax. intros Hm He [_ HB] HeB Hv.
  enough (Zdigits2 m + e <= eB + 53) by lia. destruct m as [|p|p]; [lia | | lia]. cbn [Zdigits2].
  pose proof (digits2_lower p) as L. set (d := Zpos (digits2_pos p)) in *. assert (0 < d) by (subst d; lia).
  destruct (Z.le_gt_cases (d + e) (eB + 53)) as [|Hgt]; [done |]. exfalso.
  assert (2 ^ (d - 1 + (e + 2200)) <= Zpos p * 2 ^ (e + 2200)) as H1 by (rewrite (Z.pow_add_r 2 (d - 1)) by lia; apply Z.mul_le_mono_nonneg_r; [apply Z.pow_nonneg; lia | lia]).
  assert (mB * 2 ^ (eB + 2200) < 2 ^ (53 + (eB + 2200))) as H2 by (rewrite (Z.pow_add_r 2 53) by lia; apply Z.mul_lt_mono_pos_r; [apply Z.pow_pos_nonneg; lia | lia]).
  assert (2 ^ (53 + (eB + 2200)) <= 2 ^ (d - 1 + (e + 2200))) by (apply Z.pow_le_mono_r; lia). lia.
Qed.

Lemma round_nearest_even_up m l : 0 <= m -> round_nearest_even m l <= m + (if l is loc_Exact then 0 else 1).
Proof. destruct l as [|[]]; cbn; try destruct (Z.even m); lia. Qed.

(** Rounding goes over no number that needs no rounding. *)
Lemma round_below m e mB eB : 2 ^ 52 <= m -> -2200 <= e -> full_mantissa mB -> -1074 <= eB <= 971 ->
  val_le m e mB eB ->
  match binary_round_aux prec emax false m e loc_Exact with
  | S754_zero _ => True | S754_finite s m' e' => s = false /\ -2200 <= e' /\ val_le (Zpos m') e' mB eB | _ => False end.
Proof.
  intros Hm He HB HeB Hv. assert (Hm0 : 0 < m) by lia. pose proof (exponent_below m e mB eB Hm0 He HB ltac:(lia) Hv) as Hx.
  unfold binary_round_aux. pose proof (shr_fexp_value m e ltac:(lia)) as H1. destruct (shr_fexp prec emax m e loc_Exact) as [r1 e1].
  destruct H1 as (E1 & M1 & L1).
  assert (Hd : 53 <= Zdigits2 m).
  { destruct m as [|p|p]; try lia. cbn [Zdigits2]. pose proof (Zdigits2_bound (Zpos p) ltac:(lia)) as U. cbn [Zdigits2] in U.
    destruct (Z.le_gt_cases 53 (Zpos (digits2_pos p))); [done |]. assert (2 ^ Zpos (digits2_pos p) <= 2 ^ 52) by (apply Z.pow_le_mono_r; lia). lia. }
  assert (He1 : e1 = SpecFloat.fexp prec emax (Zdigits2 m + e)) by (unfold SpecFloat.fexp, SpecFloat.emin, prec, emax in *; lia).
  assert (Hle1 : e <= e1 <= eB) by lia. clear E1 He1 Hx.
  set (m1 := round_nearest_even (shr_m r1) (loc_of_shr_record r1)).
  assert (Hr1 : 0 <= shr_m r1) by (rewrite M1; apply Z.div_pos; [lia | apply Z.pow_pos_nonneg; lia]).
  assert (Hm1 : 0 <= m1) by (by apply round_nearest_even_nonneg).
  assert (Hv1 : val_le m1 e1 mB eB).
  { pose proof (round_nearest_even_up (shr_m r1) (loc_of_shr_record r1) Hr1) as Hup. fold m1 in Hup. unfold val_le, fscale in *.
    rewrite (pow_gap (e + 2200) (e1 + 2200)) by lia. rewrite (pow_gap (e + 2200) (eB + 2200)) in Hv |- * by lia.
    replace (e1 + 2200 - (e + 2200)) with (e1 - e) by lia. replace (eB + 2200 - (e + 2200)) with (eB - e) in * by lia.
    assert (Hp : 0 < 2 ^ (e + 2200)) by (apply Z.pow_pos_nonneg; lia). apply Z.mul_le_mono_pos_r; [done |]. apply Z.mul_le_mono_pos_r in Hv; [| done].
    assert (Hs : mB * 2 ^ (eB - e) = mB * 2 ^ (eB - e1) * 2 ^ (e1 - e)).
    { rewrite (pow_gap (e1 - e) (eB - e)) by lia. do 2 f_equal. f_equal. lia. }
    assert (Hq : 0 < 2 ^ (e1 - e)) by (apply Z.pow_pos_nonneg; lia). rewrite Hs in *. set (q := 2 ^ (e1 - e)) in *. set (b := mB * 2 ^ (eB - e1)) in *.
    apply Z.mul_le_mono_pos_r; [done |]. pose proof (Z.mul_div_le m q Hq). rewrite <- M1 in *.
    destruct L1 as [L1|L1]; [rewrite L1 in Hup; nia |]. destruct (loc_of_shr_record r1); nia. }
  clearbody m1. pose proof (shr_fexp_value m1 e1 Hm1) as H2. destruct (shr_fexp prec emax m1 e1 loc_Exact) as [r2 e2]. destruct H2 as (E2 & M2 & _).
  cbn [shr_m]. destruct (shr_m r2) as [|p|p] eqn:Ep; [done | |].
  - assert (Hn : m1 <> 0) by (intros ->; by rewrite Z.div_0_l in M2 by (apply Z.pow_nonzero; lia)).
    pose proof (exponent_below m1 e1 mB eB ltac:(lia) ltac:(lia) HB ltac:(lia) Hv1) as Hx2.
    replace (e2 <=? emax - prec) with true by (symmetry; apply Z.leb_le; unfold emax, prec; lia).
    split_and!; [done | lia |]. unfold val_le, fscale in *. etrans; [| exact Hv1].
    rewrite (pow_gap (e1 + 2200) (e2 + 2200)) by lia. replace (e2 + 2200 - (e1 + 2200)) with (e2 - e1) by lia.
    apply Z.mul_le_mono_nonneg_r; [apply Z.pow_nonneg; lia |]. rewrite M2, Z.mul_comm. apply Z.mul_div_le, Z.pow_pos_nonneg; lia.
  - exfalso. assert (0 <= m1 / 2 ^ (e2 - e1)) by (apply Z.div_pos; [lia | apply Z.pow_pos_nonneg; lia]). lia.
Qed.

(** A finite binary64 number: a mantissa of 53 bits, or the smallest exponent. *)
Definition number (f : float64) : Prop :=
  match f with
  | S754_zero _ => True
  | S754_finite _ m e => Zpos m < 2 ^ 53 /\ -1074 <= e <= 971 /\ (full_mantissa (Zpos m) \/ e = -1074)
  | _ => False
  end.

Lemma fle_val m e mF eF : number (S754_finite false m e) -> full_mantissa (Zpos mF) ->
  fle (S754_finite false m e) (S754_finite false mF eF) = true -> val_le (Zpos m) e (Zpos mF) eF.
Proof.
  unfold number, full_mantissa, fle, SFleb, SFcompare, val_le, fscale. intros (Hm & He & _) [HF _] H.
  assert (HeF : e < eF \/ e = eF /\ Zpos m <= Zpos mF).
  { destruct (Z.compare_spec e eF) as [->|Hlt|Hgt]; [| by left | done]. right. split; [done |].
    change (Pos.compare_cont Eq m mF) with (Pos.compare m mF) in H. destruct (Pos.compare_spec m mF) as [->| |]; [lia | lia | done]. }
  destruct HeF as [Hlt|[-> Hle]]; [| apply Z.mul_le_mono_nonneg_r; [apply Z.pow_nonneg; lia | done]].
  rewrite (pow_gap (e + 2200) (eF + 2200)) by lia. apply Z.mul_le_mono_nonneg_r; [apply Z.pow_nonneg; lia |].
  assert (2 ^ 1 <= 2 ^ (eF + 2200 - (e + 2200))) by (apply Z.pow_le_mono_r; lia). nia.
Qed.

Lemma shiftl_val m e mB eB : 0 <= m -> 0 <= mB -> -2200 <= e -> -2200 <= eB -> val_le m e mB eB -> Z.shiftl m e <= Z.shiftl mB eB.
Proof.
  unfold val_le, fscale. intros Hm HB He HeB Hv.
  assert (Hfl : forall m e, -2200 <= e -> Z.shiftl m e = m * 2 ^ (e + 2200) / 2 ^ 2200).
  { clear. intros m e He. assert (0 < 2 ^ 2200) by (apply Z.pow_pos_nonneg; lia). destruct (Z.le_gt_cases 0 e).
    - rewrite Z.shiftl_mul_pow2, Z.pow_add_r, Z.mul_assoc, Z.div_mul by lia. done.
    - rewrite Z.shiftl_div_pow2 by lia. assert (0 < 2 ^ (e + 2200)) by (apply Z.pow_pos_nonneg; lia).
      replace 2200 with (- e + (e + 2200)) at 2 by lia. rewrite (Z.pow_add_r 2 (- e)) by lia. by rewrite Z.div_mul_cancel_r by (lia || apply Z.pow_nonzero; lia). }
  rewrite !Hfl by done. by apply Z.div_le_mono; [apply Z.pow_pos_nonneg; lia |].
Qed.

(** A product with a constant, of a number that is not above another. *)
Lemma fmul_bound f mF eF mc ec mB eB : number f -> flt f fzero = false -> fle f (S754_finite false mF eF) = true ->
  full_mantissa (Zpos mF) -> -1074 <= eF -> full_mantissa (Zpos mc) -> -1074 <= ec -> full_mantissa (Zpos mB) -> -1074 <= eB <= 971 ->
  val_le (Zpos (mF * mc)) (eF + ec) (Zpos mB) eB ->
  exists z, f64_trunc (fmul f (S754_finite false mc ec)) = Some z /\ 0 <= z <= Z.shiftl (Zpos mB) eB.
Proof.
  intros Hn Hpos Hle HF HeF Hc Hec HB HeB Hv. assert (HB0 : 0 <= Z.shiftl (Zpos mB) eB) by (by apply Z.shiftl_nonneg).
  destruct f as [s|s| |s m e]; try done; [exists 0; by split |]. destruct s; [done |].
  pose proof (fle_val _ _ _ _ Hn HF Hle) as Hm. destruct Hn as (Hm53 & He & _).
  change (fmul _ _) with (binary_round_aux prec emax false (Zpos (m * mc)) (e + ec) loc_Exact).
  assert (Hv2 : val_le (Zpos (m * mc)) (e + ec) (Zpos mB) eB).
  { unfold val_le, fscale in *. etrans; [| exact Hv]. rewrite !Pos2Z.inj_mul.
    assert (A : forall a b x, -1074 <= x -> a * b * 2 ^ (x + ec + 2200) * 2 ^ 2200 = a * 2 ^ (x + 2200) * (b * 2 ^ (ec + 2200))).
    { intros a b x Hx. rewrite <- !Z.mul_assoc, <- Z.pow_add_r by lia. f_equal. rewrite !Z.mul_assoc, (Z.mul_comm _ b), <- !Z.mul_assoc, <- Z.pow_add_r by lia. do 2 f_equal. lia. }
    apply (Z.mul_le_mono_pos_r _ _ (2 ^ 2200)); [by apply Z.pow_pos_nonneg |]. rewrite !A by lia.
    apply Z.mul_le_mono_nonneg_r; [apply Z.mul_nonneg_nonneg; [lia | apply Z.pow_nonneg; lia] | done]. }
  assert (Hbig : 2 ^ 52 <= Zpos (m * mc)) by (unfold full_mantissa in *; nia).
  pose proof (round_below (Zpos (m * mc)) (e + ec) (Zpos mB) eB Hbig ltac:(lia) HB HeB Hv2) as Hr.
  destruct (binary_round_aux _ _ _ _ _ _) as [s|s| |s m' e']; try done; [exists 0; by split |].
  destruct Hr as (-> & He' & Hv'). exists (Z.shiftl (Zpos m') e'). split; [done |]. split; [by apply Z.shiftl_nonneg |].
  apply shiftl_val; done || lia.
Qed.
