(* ===== verification/Model.v ===== *)
(** * The configuration model ([internal/model/model.go])

    The records the operator edits, the engine reads and the wire carries,
    with the pure functions that live beside them: defaults, presets,
    normalisation of an old configuration, and the enumeration of the ports
    the query cache serves.  A field [x] of the Go struct [T] is [T_x] up to a
    short lower-case prefix for [T]. *)

From S2P Require Import Prelude GoTime Float64.

Definition ModeObserve : string := "observe".
Definition ModeArmed : string := "armed".
Definition DefaultTimezone : string := "Australia/Melbourne".

(** Probe verdict on a path, and the policy block on it. *)
Inductive Health := HealthUnknown | HealthUp | HealthSuspect | HealthDown.
Inductive Block := BlockNone | BlockQuota | BlockQuarantine | BlockDisabled | BlockDegraded.

#[export] Instance Health_eq_dec : EqDecision Health.
Proof. solve_decision. Defined.
#[export] Instance Block_eq_dec : EqDecision Block.
Proof. solve_decision. Defined.

Definition Health_string (h : Health) : string :=
  match h with
  | HealthUnknown => "unknown" | HealthUp => "up"
  | HealthSuspect => "suspect" | HealthDown => "down"
  end.
Definition Block_string (b : Block) : string :=
  match b with
  | BlockNone => "" | BlockQuota => "quota" | BlockQuarantine => "quarantine"
  | BlockDisabled => "disabled" | BlockDegraded => "degraded"
  end.

Record FrontendConfig := mkFrontendConfig {
  fe_PublicIface : string; fe_PublicIP : string; fe_BackendEgress : bool }.

Record OverlayConfig := mkOverlayConfig {
  ov_FrontendIP : string; ov_BackendIP : string; ov_Device : string;
  ov_Subnet : string; ov_ProbePort : Z; ov_ControlPort : Z }.

Record ShapeConfig := mkShapeConfig {
  shape_ToBackendMbit : float64; shape_ToFrontendMbit : float64 }.

Record Quota := mkQuota {
  quota_LimitBytes : Z; quota_CeilingBytes : Z; quota_ResetDay : Z;
  quota_Timezone : string; quota_Calibration : float64; quota_OverheadPerPacket : Z }.

Record PathConfig := mkPathConfig {
  path_ID : Z; path_Name : string; path_Iface : string; path_Priority : Z;
  path_Table : Z; path_Mark : Z; path_Enabled : bool; path_Metered : bool;
  path_Quota : Quota; path_Shape : ShapeConfig }.

Record ProbeConfig := mkProbeConfig {
  probe_ActiveIntervalMs : Z; probe_StandbyIntervalMs : Z; probe_TimeoutMs : Z;
  probe_FailThreshold : Z; probe_RecoverThreshold : Z; probe_WindowSize : Z;
  probe_MaxLossPct : float64; probe_MaxRTTMs : Z }.

Record QualityConfig := mkQualityConfig {
  qual_LossWeight : float64; qual_RTTWeight : float64; qual_JitterWeight : float64;
  qual_MarginPct : float64; qual_MinDwellSec : Z }.

Record FailoverConfig := mkFailoverConfig {
  fail_HoldDownSec : Z; fail_FlapWindowSec : Z; fail_FlapThreshold : Z;
  fail_QuarantineSec : Z; fail_QuarantineMaxSec : Z;
  fail_Selection : string; fail_Quality : QualityConfig }.

Definition SelectionPriority : string := "priority".
Definition SelectionQuality : string := "quality".

Record Service := mkService {
  svc_Name : string; svc_Proto : string; svc_Port : Z; svc_PortEnd : Z;
  svc_Enabled : bool; svc_Target : string; svc_SourceEngine : bool;
  svc_CeilingPPS : Z; svc_NewConnsPerSec : Z; svc_MaxConnsPerSource : Z;
  svc_GeoRegions : list string; svc_GeoBlock : bool; svc_GeoAutoPPS : Z }.

Record Linker := mkLinker {
  linker_Name : string; linker_OverlayIP : string; linker_LanIP : string;
  linker_Table : Z; linker_Enabled : bool }.

Record EgressSource := mkEgressSource {
  src_Name : string; src_Host : string; src_CIDR : string; src_Enabled : bool }.
Record EgressConfig := mkEgressConfig { egress_Sources : list EgressSource }.

Record NotifyConfig := mkNotifyConfig {
  notify_Enabled : bool; notify_Kind : string; notify_URL : string; notify_Token : string;
  notify_OnSwitch : bool; notify_OnPathDown : bool; notify_OnQuota : bool; notify_OnHeld : bool }.

Record GeoRegion := mkGeoRegion {
  region_Name : string; region_CIDRs : list string; region_Countries : list string }.

Record ProtectConfig := mkProtectConfig {
  protect_Enabled : bool; protect_NewConnsPerSec : Z; protect_MaxConnsPerSource : Z;
  protect_PacketsPerSec : Z; protect_QueriesPerSec : Z; protect_BlockSeconds : Z;
  protect_DropInvalid : bool; protect_DropBogusTCP : bool; protect_DropSpoofed : bool;
  protect_DropLegacyQueries : bool; protect_Regions : list GeoRegion;
  protect_GeoLockSeconds : Z }.

Record QueryCacheConfig := mkQueryCacheConfig {
  qcc_Enabled : bool; qcc_RefreshMs : Z; qcc_StaleMs : Z }.

Record BlocklistConfig := mkBlocklistConfig {
  blc_Enabled : bool; blc_RefreshHours : Z; blc_Exceptions : list string }.

Definition DefaultBlocklistRefreshHours : Z := 4.
Definition MinBlocklistRefreshHours : Z := 1.
Definition MaxBlocklistRefreshHours : Z := 168.
Definition MaxQueryCachePorts : Z := 128.

Record Config := mkConfig {
  cfg_Mode : string; cfg_Frontend : FrontendConfig; cfg_Overlay : OverlayConfig;
  cfg_Paths : list PathConfig; cfg_Probe : ProbeConfig; cfg_Failover : FailoverConfig;
  cfg_Services : list Service; cfg_Linkers : list Linker; cfg_BackendLAN : string;
  cfg_Egress : EgressConfig; cfg_Notify : NotifyConfig; cfg_Protect : ProtectConfig;
  cfg_QueryCache : QueryCacheConfig; cfg_Blocklist : BlocklistConfig }.

Record PathState := mkPathState {
  ps_ID : Z; ps_Name : string; ps_Iface : string; ps_Priority : Z;
  ps_Health : Health; ps_Block : Block; ps_Active : bool;
  ps_RTTms : float64; ps_JitterMs : float64; ps_LossPct : float64;
  ps_ConsecLoss : Z; ps_ConsecOK : Z; ps_LastReply : Time; ps_HandshakeAge : float64;
  ps_PeerEndpoint : string; ps_CleanSince : Time; ps_QuarantineEnd : Time;
  ps_UsedBytes : Z; ps_LimitBytes : Z; ps_PeriodStart : Time; ps_PeriodEnd : Time;
  ps_GrantUntil : Time; ps_GrantBytes : Z }.

Definition set_cfg_Mode (m : string) (c : Config) : Config :=
  mkConfig m (cfg_Frontend c) (cfg_Overlay c) (cfg_Paths c) (cfg_Probe c)
    (cfg_Failover c) (cfg_Services c) (cfg_Linkers c) (cfg_BackendLAN c)
    (cfg_Egress c) (cfg_Notify c) (cfg_Protect c) (cfg_QueryCache c) (cfg_Blocklist c).
Definition set_cfg_Failover (f : FailoverConfig) (c : Config) : Config :=
  mkConfig (cfg_Mode c) (cfg_Frontend c) (cfg_Overlay c) (cfg_Paths c) (cfg_Probe c)
    f (cfg_Services c) (cfg_Linkers c) (cfg_BackendLAN c)
    (cfg_Egress c) (cfg_Notify c) (cfg_Protect c) (cfg_QueryCache c) (cfg_Blocklist c).

(** ** Accessors with a fallback *)

Definition TableOr (l : Linker) (def : Z) : Z :=
  if negb (linker_Table l =? 0) then linker_Table l else def.

Definition HostOr (s : EgressSource) (backendIP : string) : string :=
  if negb (String.eqb (src_Host s) "") then src_Host s else backendIP.

Definition TargetOr (s : Service) (backendIP : string) : string :=
  if negb (String.eqb (svc_Target s) "") then svc_Target s else backendIP.

Definition MatchPrefix (o : OverlayConfig) : string :=
  if negb (String.eqb (ov_Subnet o) "") then ov_Subnet o else ov_BackendIP o.

Definition RoutePrefix (o : OverlayConfig) : string :=
  if negb (String.eqb (ov_Subnet o) "") then ov_Subnet o
  else (ov_BackendIP o ++ "/32")%string.

(** [Config.PathByID]: the first path with the id. *)
Fixpoint path_by_id (ps : list PathConfig) (id : Z) : option PathConfig :=
  match ps with
  | [] => None
  | p :: ps => if path_ID p =? id then Some p else path_by_id ps id
  end.
Definition PathByID (c : Config) (id : Z) : option PathConfig := path_by_id (cfg_Paths c) id.

Lemma path_by_id_in ps id p : path_by_id ps id = Some p -> p ∈ ps /\ path_ID p = id.
Proof.
  induction ps as [|q ps IH]; simpl; [done |].
  destruct (path_ID q =? id) eqn:E; intros H.
  - injection H as <-. bool_to_prop. split; [left | done].
  - apply IH in H as [H1 H2]. split; [by right | done].
Qed.

Lemma path_by_id_unique ps p :
  NoDup (path_ID <$> ps) -> p ∈ ps -> path_by_id ps (path_ID p) = Some p.
Proof.
  induction ps as [|q ps IH]; simpl; intros Hnd Hin; [by apply elem_of_nil in Hin |].
  apply NoDup_cons in Hnd as [Hq Hnd].
  apply elem_of_cons in Hin as [-> | Hin].
  - by rewrite Z.eqb_refl.
  - destruct (path_ID q =? path_ID p) eqn:E; [| by apply IH].
    bool_to_prop. exfalso. apply Hq. rewrite E. by apply list_elem_of_fmap_2.
Qed.

(** [ProbeConfig.DetectMs]: how long a dead path goes on being believed. *)
Definition DetectMs (p : ProbeConfig) : Z :=
  let n := probe_FailThreshold p in
  let n := if n <? 1 then 1 else n in
  i64 (i64 ((n - 1) * probe_ActiveIntervalMs p) + probe_TimeoutMs p).

(** [PathState.Eligible]. *)
Definition Eligible (p : PathState) : bool :=
  (match ps_Health p with HealthUp | HealthSuspect => true | _ => false end)
  && bool_decide (ps_Block p = BlockNone).

(** ** Presets *)

Record DetectionPreset := mkDetectionPreset {
  dp_Name : string; dp_Label : string; dp_Note : string;
  dp_ActiveIntervalMs : Z; dp_TimeoutMs : Z; dp_FailThreshold : Z; dp_WindowSize : Z }.

(** [DetectionPreset.Apply]. *)
Definition DetectionPreset_Apply (d : DetectionPreset) (p : ProbeConfig) : ProbeConfig :=
  mkProbeConfig (dp_ActiveIntervalMs d)
    (if probe_StandbyIntervalMs p <? dp_ActiveIntervalMs d
     then dp_ActiveIntervalMs d else probe_StandbyIntervalMs p)
    (dp_TimeoutMs d) (dp_FailThreshold d) (probe_RecoverThreshold p)
    (dp_WindowSize d) (probe_MaxLossPct p) (probe_MaxRTTMs p).

Record ProtectPreset := mkProtectPreset {
  pp_Name : string; pp_Label : string; pp_Note : string;
  pp_NewConnsPerSec : Z; pp_MaxConnsPerSource : Z; pp_PacketsPerSec : Z;
  pp_QueriesPerSec : Z; pp_BlockSeconds : Z }.

(** [ProtectPreset.Apply]. *)
Definition ProtectPreset_Apply (p : ProtectPreset) (pr : ProtectConfig) : ProtectConfig :=
  mkProtectConfig (protect_Enabled pr) (pp_NewConnsPerSec p) (pp_MaxConnsPerSource p)
    (pp_PacketsPerSec p) (pp_QueriesPerSec p) (pp_BlockSeconds p)
    (protect_DropInvalid pr) (protect_DropBogusTCP pr) (protect_DropSpoofed pr)
    (protect_DropLegacyQueries pr) (protect_Regions pr) (protect_GeoLockSeconds pr).

Definition PresetStandard : string := "standard".
Definition PresetFast : string := "fast".
Definition PresetRelaxed : string := "relaxed".
Definition ProtectPresetOff : string := "off".
Definition ProtectPresetTight : string := "tight".
Definition ProtectPresetPublic : string := "public".
Definition ProtectPresetShared : string := "shared".

Definition DetectionPresets : list DetectionPreset := [
  mkDetectionPreset PresetFast "Fast"
    ("Condemns a dead path in about 0.6s, so a failover is a stutter rather than a " ++
    "freeze. The trade: 400ms of silence is enough to move traffic, and LTE produces " ++
    "that on its own during a tower handover, so expect the occasional failover that " ++
    "nothing was wrong for. Every false trip parks players on a metered link until " ++
    "failback clears the hold-down (a couple of minutes), costs a visible switch each " ++
    "way, and counts towards quarantine. The 300ms timeout must stay above the worst " ++
    "round trip on your slowest link, or late replies are booked as losses and a " ++
    "loaded path reads as degraded. A reply slower than the timeout is never " ++
    "measured, so a Max RTT above 300 can no longer trip: lower it, or accept that " ++
    "latency is judged by the timeout alone. Probing at 100ms also costs about 6.7 GB " ++
    "a month of data, both directions billed, while an LTE path is the active one.")%string
    100 300 4 150;
  mkDetectionPreset PresetStandard "Standard (default)"
    ("Condemns a dead path in about 2.6s. Tolerates the short bursts of loss LTE " ++
    "produces without moving traffic, and the 800ms timeout sits well above any round " ++
    "trip a working link should see. A real outage freezes the game for roughly three " ++
    "seconds before play resumes on the next path.")%string
    250 800 8 60;
  mkDetectionPreset PresetRelaxed "Relaxed (for poor links)"
    ("For links that drop packets in bursts or spike in latency. Condemns a dead path " ++
    "in about 7s, so a real outage freezes the game for longer, but a flaky link is " ++
    "not abandoned over a two second hiccup and then kept off traffic for the whole " ++
    "failback hold-down. The 1500ms timeout stops latency spikes being counted as " ++
    "loss, and the loss figure is averaged over 30 seconds rather than 15. Choose " ++
    "this when the dashboard shows the main link being condemned and recovering on " ++
    "its own, which is the fingerprint of a tuning that is too tight for the link.")%string
    500 1500 12 60 ].

Definition ProtectPresets : list ProtectPreset := [
  mkProtectPreset ProtectPresetOff "Off (no per-source limits)"
    ("Every limit at zero: nothing is counted, nothing is dropped and nobody is " ++
    "parked. This is the shipped state. The edge filtering and region locks below are " ++
    "separate switches and this choice does not touch them.")%string
    0 0 0 0 0;
  mkProtectPreset ProtectPresetTight "Small community (tight)"
    ("For a server whose players are known and mostly on home connections. 10 new " ++
    "connections a second and 50 concurrent per address still clear a browser " ++
    "comfortably, which holds at most 6 connections to one host, but leave little " ++
    "room for big shared networks. 150 UDP packets a second covers two Source players " ++
    "on one address, each sending at the usual 30 to 66 packets a second, and not a " ++
    "house full. 10 queries a second clears a server browser being refreshed by hand, " ++
    "which sends the three A2S queries per refresh and tripped the old figure of 2 on " ++
    "the second click. A tripping source is parked for a minute. Pick this only when " ++
    "the dashboard counters show real traffic sitting far below these figures, " ++
    "because a player behind a shared carrier address is the one it will bite first.")%string
    10 50 150 10 60;
  mkProtectPreset ProtectPresetPublic "Public server"
    ("A defensible starting point for a public server. 20 new connections a second and " ++
    "100 concurrent per address sit well clear of a browser's 6 per host and of a " ++
    "small office NAT. 400 UDP packets a second covers five or six Source players " ++
    "sharing one carrier address, each sending at the usual 30 to 66 packets a " ++
    "second. 15 queries a second clears a hand-refreshed server browser, which sends " ++
    "the three A2S queries per refresh, while the query flood, the usual attack on a " ++
    "Source server, still trips it thousands of times over. A tripping source is " ++
    "parked for a minute. Watch the counters after choosing this: a limit that trips " ++
    "in normal play reads from outside as the service being down.")%string
    20 100 400 15 60;
  mkProtectPreset ProtectPresetShared "Shared networks (CGNAT-heavy)"
    ("For audiences heavy on mobile and university networks, where carrier NAT " ++
    "routinely puts 16 to 64 subscribers behind one address. 1000 UDP packets a " ++
    "second covers a dozen Source players on one address; 40 new connections and 250 " ++
    "concurrent cover their browsers beside them, and 20 queries a second covers " ++
    "several of them refreshing at once. Parking is the dangerous half on shared " ++
    "addresses, since one park is every household behind that NAT, so a tripping " ++
    "source is parked for one minute. The limits still stop a single flood; they are " ++
    "just sized so a busy shared address is not mistaken for one.")%string
    40 250 1000 20 60 ].

(** ** Defaults and normalisation *)

Definition no_quota : Quota := mkQuota 0 0 0 "" fzero 0.
Definition no_shape : ShapeConfig := mkShapeConfig fzero fzero.

(** The quota of a metered path of the shipped configuration. *)
Definition default_quota (limit : Z) : Quota :=
  mkQuota limit 0 1 DefaultTimezone (f64_of_Z 100) 60.

Definition default_quality : QualityConfig :=
  mkQualityConfig (f64_of_Z 25) (f64_of_Z 1) (f64_of_Z 3) (f64_of_Z 25) 300.

Definition default_service (name proto : string) (port portEnd : Z) : Service :=
  mkService name proto port portEnd false "" false 0 0 0 [] false 0.

Definition Defaults : Config :=
  mkConfig ModeObserve
    (mkFrontendConfig "eth0" "" false)
    (mkOverlayConfig "10.99.0.1" "10.99.0.2" "dummy0" "" 51999 51998)
    [ mkPathConfig 1 "main" "wg-main" 1 101 257 true false no_quota no_shape;
      mkPathConfig 2 "lte1" "wg-lte1" 2 102 258 true true
        (default_quota (Z.shiftl 60 30)) no_shape;
      mkPathConfig 3 "lte2" "wg-lte2" 3 103 259 true true
        (default_quota (Z.shiftl 20 30)) no_shape ]
    (mkProbeConfig 250 5000 800 8 10 60 (f64_of_Z 15) 400)
    (mkFailoverConfig 90 600 4 300 3600 SelectionPriority default_quality)
    [ default_service "http" "tcp" 80 0;
      default_service "https" "tcp" 443 0;
      default_service "pterodactyl-sftp" "tcp" 2022 0;
      default_service "pterodactyl-wings" "tcp" 8080 0;
      default_service "source" "udp" 27015 27030;
      default_service "minecraft" "tcp" 25565 0 ]
    [] ""
    (mkEgressConfig [ mkEgressSource "pterodactyl" "" "172.18.0.0/16" false ])
    (mkNotifyConfig false "ntfy" "" "" true true true true)
    (mkProtectConfig false 0 0 0 0 0 false false false false [] 0)
    (mkQueryCacheConfig false 0 0)
    (mkBlocklistConfig false 0 []).

(** [Normalise]: settings a stored configuration predates. *)
Definition quality_unset (q : QualityConfig) : bool :=
  feq (qual_LossWeight q) fzero && feq (qual_RTTWeight q) fzero
  && feq (qual_JitterWeight q) fzero && feq (qual_MarginPct q) fzero
  && (qual_MinDwellSec q =? 0).

Definition Normalise (c : Config) : Config :=
  let f := cfg_Failover c in
  let sel := if String.eqb (fail_Selection f) "" then SelectionPriority
             else fail_Selection f in
  let q := if quality_unset (fail_Quality f) then fail_Quality (cfg_Failover Defaults)
           else fail_Quality f in
  set_cfg_Failover
    (mkFailoverConfig (fail_HoldDownSec f) (fail_FlapWindowSec f) (fail_FlapThreshold f)
       (fail_QuarantineSec f) (fail_QuarantineMaxSec f) sel q) c.

(** ** Query cache ports *)

Record QueryCacheSpan := mkQueryCacheSpan {
  span_From : Z; span_To : Z; span_Target : string; span_Service : string }.

(** [strings.EqualFold(s, "udp")]: none of the three letters has a case variant
    outside ASCII. *)
Definition ascii_lower (c : ascii) : ascii :=
  let n := nat_of_ascii c in
  if ((65 <=? n) && (n <=? 90))%nat then ascii_of_nat (n + 32) else c.
Fixpoint string_lower (s : string) : string :=
  match s with
  | EmptyString => EmptyString
  | String c s => String (ascii_lower c) (string_lower s)
  end.
Definition EqualFold_udp (s : string) : bool := String.eqb (string_lower s) "udp".

(** The state of the enumeration: ports left in the budget, ports claimed, and
    the spans so far with the newest first. *)
Record span_state := mkSpanState {
  ss_budget : Z; ss_claimed : gset Z; ss_out : list QueryCacheSpan }.

(** One turn of the port loop.  [open] says that the [span] pointer of the
    source is not nil; it then points at the newest span. *)
Definition claim_port (target name : string) (p : Z) (open : bool) (st : span_state)
    : bool * span_state :=
  if bool_decide (p ∈ ss_claimed st) then (false, st)
  else
    let budget := ss_budget st - 1 in
    let claimed := {[p]} ∪ ss_claimed st in
    match open, ss_out st with
    | true, sp :: out =>
        if span_To sp =? p - 1
        then (true, mkSpanState budget claimed
                (mkQueryCacheSpan (span_From sp) p (span_Target sp) (span_Service sp) :: out))
        else (true, mkSpanState budget claimed
                (mkQueryCacheSpan p p target name :: sp :: out))
    | _, out => (true, mkSpanState budget claimed (mkQueryCacheSpan p p target name :: out))
    end.

(** The port loop of one service: [n] ports from [p] on, while the budget lasts. *)
Fixpoint claim_ports (n : nat) (target name : string) (p : Z) (open : bool)
    (st : span_state) : span_state :=
  match n with
  | O => st
  | S n =>
      if 0 <? ss_budget st
      then let '(open, st) := claim_port target name p open st in
           claim_ports n target name (p + 1) open st
      else st
  end.

Definition svc_end (s : Service) : Z :=
  if svc_Port s <? svc_PortEnd s then svc_PortEnd s else svc_Port s.
Definition svc_cached (s : Service) : bool :=
  negb (negb (svc_Enabled s) || negb (svc_SourceEngine s) || negb (EqualFold_udp (svc_Proto s))).

Definition claim_service (backendIP : string) (st : span_state) (s : Service) : span_state :=
  if svc_cached s
  then claim_ports (Z.to_nat (svc_end s - svc_Port s + 1)) (TargetOr s backendIP)
         (svc_Name s) (svc_Port s) false st
  else st.

Definition QueryCachePorts (c : Config) : list QueryCacheSpan :=
  if negb (qcc_Enabled (cfg_QueryCache c)) then []
  else rev (ss_out (fold_left (claim_service (ov_BackendIP (cfg_Overlay c)))
                      (cfg_Services c) (mkSpanState MaxQueryCachePorts ∅ []))).

(** ** What the port enumeration promises

    The reference: walk every port of every cached service in order and keep
    the first [MaxQueryCachePorts] distinct ones. *)

Definition claim : Type := Z * string * string.
Definition claim_port_of (x : claim) : Z := x.1.1.

Definition service_claims (backendIP : string) (s : Service) : list claim :=
  if svc_cached s
  then (fun p => (p, TargetOr s backendIP, svc_Name s))
         <$> seqZ (svc_Port s) (svc_end s - svc_Port s + 1)
  else [].

Definition claim_step (acc : list claim) (x : claim) : list claim :=
  if (MaxQueryCachePorts <=? Z.of_nat (length acc))
     || bool_decide (claim_port_of x ∈ claim_port_of <$> acc)
  then acc else acc ++ [x].

Definition reference_claims (c : Config) : list claim :=
  if qcc_Enabled (cfg_QueryCache c)
  then fold_left claim_step
         (concat (service_claims (ov_BackendIP (cfg_Overlay c)) <$> cfg_Services c)) []
  else [].

(** The ports a span list stands for. *)
Definition span_claims (sp : QueryCacheSpan) : list claim :=
  (fun p => (p, span_Target sp, span_Service sp))
    <$> seqZ (span_From sp) (span_To sp - span_From sp + 1).
Definition flatten (out : list QueryCacheSpan) : list claim := concat (span_claims <$> out).

(** The enumeration state agrees with the claims made so far. *)
Record spans_agree (st : span_state) (acc : list claim) : Prop := {
  sa_flat : flatten (rev (ss_out st)) = acc;
  sa_claimed : forall p, p ∈ ss_claimed st <-> p ∈ claim_port_of <$> acc;
  sa_budget : ss_budget st = MaxQueryCachePorts - Z.of_nat (length acc);
  sa_le : Forall (fun sp => span_From sp <= span_To sp) (ss_out st) }.

(** The open span, when there is one, belongs to the current service. *)
Definition open_ok (open : bool) (target name : string) (st : span_state) : Prop :=
  open = true -> exists sp out, ss_out st = sp :: out
    /\ span_Target sp = target /\ span_Service sp = name.

Lemma flatten_snoc out sp : flatten (rev (sp :: out)) = flatten (rev out) ++ span_claims sp.
Proof.
  unfold flatten. simpl rev. rewrite fmap_app, concat_app. simpl. by rewrite app_nil_r.
Qed.

Lemma span_claims_one p t n : span_claims (mkQueryCacheSpan p p t n) = [(p, t, n)].
Proof. unfold span_claims. simpl. replace (p - p + 1) with 1 by lia. reflexivity. Qed.

Lemma span_claims_grow f p t n :
  f <= p - 1 ->
  span_claims (mkQueryCacheSpan f p t n)
  = span_claims (mkQueryCacheSpan f (p - 1) t n) ++ [(p, t, n)].
Proof.
  intros H. unfold span_claims. simpl.
  replace (p - f + 1) with ((p - 1 - f + 1) + 1) by lia.
  rewrite seqZ_app by lia. rewrite fmap_app. f_equal.
  change (seqZ (f + (p - 1 - f + 1)) 1) with [f + (p - 1 - f + 1)]. simpl.
  do 3 f_equal. lia.
Qed.

Lemma claim_step_snoc acc x :
  Z.of_nat (length acc) < MaxQueryCachePorts ->
  claim_port_of x ∉ claim_port_of <$> acc -> claim_step acc x = acc ++ [x].
Proof.
  intros Hl Hx. unfold claim_step. rewrite bool_decide_eq_false_2 by done.
  replace (_ <=? _) with false by (symmetry; apply Z.leb_gt; lia). done.
Qed.

Lemma claim_port_agree t n p open st acc :
  spans_agree st acc -> open_ok open t n st -> 0 < ss_budget st ->
  spans_agree (claim_port t n p open st).2 (claim_step acc (p, t, n))
  /\ open_ok (claim_port t n p open st).1 t n (claim_port t n p open st).2.
Proof.
  intros [Hflat Hcl Hb Hle] Hopen Hpos. unfold claim_port.
  case_bool_decide as Hin.
  - split; [| done]. apply Hcl in Hin. unfold claim_step, claim_port_of at 1; simpl.
    rewrite bool_decide_eq_true_2 by done. rewrite orb_true_r. by split.
  - rewrite Hcl in Hin. rewrite claim_step_snoc; [| lia | done].
    assert (Hcl' : forall q, q ∈ {[p]} ∪ ss_claimed st
              <-> q ∈ claim_port_of <$> (acc ++ [(p, t, n)])).
    { intros q. rewrite fmap_app, elem_of_app, elem_of_union, Hcl, elem_of_singleton.
      simpl. rewrite list_elem_of_singleton. unfold claim_port_of at 3; simpl. tauto. }
    assert (Hb' : ss_budget st - 1
              = MaxQueryCachePorts - Z.of_nat (length (acc ++ [(p, t, n)]))).
    { rewrite length_app. simpl. lia. }
    assert (Hnew : forall o, (forall sp out, o = true -> ss_out st = sp :: out ->
                span_To sp <> p - 1) \/ o = false ->
              spans_agree (mkSpanState (ss_budget st - 1) ({[p]} ∪ ss_claimed st)
                (mkQueryCacheSpan p p t n :: ss_out st)) (acc ++ [(p, t, n)])).
    { intros _ _. split; simpl ss_claimed; simpl ss_budget; try done.
      - simpl ss_out. rewrite flatten_snoc, Hflat, span_claims_one. done.
      - simpl ss_out. constructor; [simpl; lia | done]. }
    destruct open.
    + destruct Hopen as (sp & out & Hout & <- & <-); [done |]. rewrite Hout in *.
      destruct (span_To sp =? p - 1) eqn:E; simpl.
      * bool_to_prop. apply Forall_cons in Hle as [Hsp Hle]. split; [| by repeat eexists].
        split; try done; simpl ss_out.
        -- rewrite flatten_snoc, span_claims_grow by lia. rewrite <- E.
           rewrite flatten_snoc in Hflat. rewrite app_assoc, <- Hflat.
           destruct sp; done.
        -- constructor; [simpl; lia | done].
      * split; [by apply (Hnew false); right | by repeat eexists].
    + split; [by apply (Hnew false); right |]. intros _. by repeat eexists.
Qed.

Lemma claim_full xs acc :
  MaxQueryCachePorts <= Z.of_nat (length acc) -> fold_left claim_step xs acc = acc.
Proof.
  intros H. induction xs as [|x xs IH]; simpl; [done |].
  unfold claim_step at 2. replace (_ <=? _) with true by (symmetry; apply Z.leb_le; lia). done.
Qed.

Lemma claim_ports_agree t name n : forall p open st acc,
  spans_agree st acc -> open_ok open t name st ->
  spans_agree (claim_ports n t name p open st)
    (fold_left claim_step ((fun q => (q, t, name)) <$> seqZ p (Z.of_nat n)) acc).
Proof.
  induction n as [|n IH]; intros p open st acc Hag Hop; [done |].
  simpl claim_ports. destruct (0 <? ss_budget st) eqn:E; bool_to_prop.
  - rewrite seqZ_cons by lia. replace (Z.pred (Z.of_nat (S n))) with (Z.of_nat n) by lia.
    pose proof (claim_port_agree t name p open st acc Hag Hop E) as [H1 H2].
    destruct (claim_port t name p open st) as [open' st']. simpl in *.
    replace (Z.succ p) with (p + 1) by lia. by apply IH with (open := open').
  - rewrite claim_full; [done |]. destruct Hag. lia.
Qed.

Lemma claim_services_agree ip ss : forall st acc,
  spans_agree st acc ->
  spans_agree (fold_left (claim_service ip) ss st)
    (fold_left claim_step (concat (service_claims ip <$> ss)) acc).
Proof.
  induction ss as [|s ss IH]; intros st acc Hag; [done |].
  simpl. rewrite fold_left_app. apply IH.
  unfold claim_service, service_claims. destruct (svc_cached s); [| done].
  replace (svc_end s - svc_Port s + 1)
    with (Z.of_nat (Z.to_nat (svc_end s - svc_Port s + 1))) at 2.
  - by apply claim_ports_agree.
  - rewrite Z2Nat.id; [done |]. unfold svc_end. split_if; bool_to_prop; lia.
Qed.

Lemma flatten_ports_agree c : flatten (QueryCachePorts c) = reference_claims c.
Proof.
  unfold QueryCachePorts, reference_claims.
  destruct (qcc_Enabled (cfg_QueryCache c)); simpl; [| done].
  apply (claim_services_agree (ov_BackendIP (cfg_Overlay c)) (cfg_Services c)
           (mkSpanState MaxQueryCachePorts ∅ []) []).
  split; [done | intros p; set_solver | done | done].
Qed.

Lemma QueryCachePorts_spans c : Forall (fun sp => span_From sp <= span_To sp) (QueryCachePorts c).
Proof.
  unfold QueryCachePorts. destruct (qcc_Enabled (cfg_QueryCache c)); [| constructor]. cbn [negb].
  apply Forall_rev. eapply sa_le.
  apply (claim_services_agree (ov_BackendIP (cfg_Overlay c)) (cfg_Services c)
           (mkSpanState MaxQueryCachePorts ∅ []) []).
  split; [done | intros p; set_solver | done | done].
Qed.

Lemma claim_step_inv xs : forall acc,
  NoDup (claim_port_of <$> acc) -> Z.of_nat (length acc) <= MaxQueryCachePorts ->
  NoDup (claim_port_of <$> fold_left claim_step xs acc)
  /\ Z.of_nat (length (fold_left claim_step xs acc)) <= MaxQueryCachePorts.
Proof.
  induction xs as [|x xs IH]; intros acc Hnd Hl; simpl; [done |].
  apply IH; unfold claim_step;
    destruct (_ <=? _) eqn:E; simpl; try done; case_bool_decide as Hx; try done; bool_to_prop.
  - rewrite fmap_app. apply NoDup_app. split; [done |]. split.
    + intros y Hy Hy'. simpl in Hy'. apply list_elem_of_singleton in Hy' as ->. done.
    + simpl. apply NoDup_singleton.
  - rewrite length_app. simpl. unfold MaxQueryCachePorts in *. lia.
Qed.

(** The ports the query cache serves, span by span, are exactly the first
    128 distinct ports of the enabled UDP Source-engine services, walked in
    configuration order, each with the target and the name of the first
    service that claims it: the span merging, the shared budget and the
    duplicate check lose and invent nothing. *)
Theorem QueryCachePorts_reference c :
  flatten (QueryCachePorts c) = reference_claims c.
Proof. apply flatten_ports_agree. Qed.

(** No port is served twice and at most 128 are served, whatever services a
    stored configuration holds. *)
Theorem QueryCachePorts_bounded c :
  NoDup (claim_port_of <$> flatten (QueryCachePorts c))
  /\ Z.of_nat (length (flatten (QueryCachePorts c))) <= MaxQueryCachePorts.
Proof.
  rewrite flatten_ports_agree. unfold reference_claims.
  destruct (qcc_Enabled _); [| split; [constructor | done]].
  apply claim_step_inv; [constructor | done].
Qed.

(** ** Normalisation *)

Lemma quality_unset_default : quality_unset (fail_Quality (cfg_Failover Defaults)) = false.
Proof. vm_compute. reflexivity. Qed.

(** Filling in what a stored configuration predates is done once: a
    configuration that was normalised is left alone, its selection mode is
    never empty, and its quality weights are never the all-zero group. *)
Theorem Normalise_idempotent c :
  Normalise (Normalise c) = Normalise c
  /\ fail_Selection (cfg_Failover (Normalise c)) <> ""%string
  /\ quality_unset (fail_Quality (cfg_Failover (Normalise c))) = false.
Proof.
  unfold Normalise. destruct c as [m fe ov ps pr f sv li bl eg no pt qc bk].
  unfold set_cfg_Failover; simpl. destruct f as [hd fw ft qs qm sel q]; simpl.
  destruct (String.eqb sel "") eqn:Es; destruct (quality_unset q) eqn:Eq; simpl;
    rewrite ?Eq, ?Es, ?quality_unset_default; simpl;
    (split; [done |]); (split; [| done]);
    intros H; first [discriminate | subst sel; discriminate].
Qed.
