(* ===== verification/Bytes.v ===== *)
(** * Bytes

    A [[]byte] is a list of integers from 0 to 255.  The file holds the
    big-endian codec of [encoding/binary], the writes into a fixed buffer that
    the probe codec is made of, the conversion of a string to its bytes, and
    [hexEncode] of [internal/proto/proto.go] with the decoder that inverts
    it. *)

From S2P Require Import Prelude.

Abbreviation bytes := (list Z).

Definition is_byte (b : Z) : Prop := 0 <= b < 256.
Definition byte_ok (b : Z) : bool := (0 <=? b) && (b <? 256).
Abbreviation all_bytes := (Forall is_byte).

(** [bytes.Equal] and, up to its timing, [hmac.Equal]. *)
Definition bytes_eqb (a b : bytes) : bool := bool_decide (a = b).

Lemma bytes_eqb_eq a b : bytes_eqb a b = true <-> a = b.
Proof. apply bool_decide_eq_true. Qed.
Lemma bytes_eqb_neq a b : bytes_eqb a b = false <-> a <> b.
Proof. apply bool_decide_eq_false. Qed.

Definition string_bytes (s : string) : bytes :=
  (fun c => Z.of_nat (nat_of_ascii c)) <$> String.list_ascii_of_string s.

Definition bytes_string (b : bytes) : string :=
  String.string_of_list_ascii ((fun z => ascii_of_nat (Z.to_nat z)) <$> b).

(** ** Big-endian integers *)

Fixpoint put_be (n : nat) (v : Z) : bytes :=
  match n with
  | O => []
  | S n => (v / 256 ^ Z.of_nat n) mod 256 :: put_be n v
  end.

Fixpoint get_be_from (acc : Z) (b : bytes) : Z :=
  match b with
  | [] => acc
  | x :: b => get_be_from (acc * 256 + x) b
  end.
Definition get_be (b : bytes) : Z := get_be_from 0 b.

Lemma length_put_be n v : length (put_be n v) = n.
Proof. induction n; simpl; congruence. Qed.

Lemma put_be_bytes n v : all_bytes (put_be n v).
Proof.
  induction n; simpl; constructor; [| done].
  apply Z.mod_pos_bound. lia.
Qed.

Lemma get_be_from_put n v : forall acc,
  get_be_from acc (put_be n v) = acc * 256 ^ Z.of_nat n + v mod 256 ^ Z.of_nat n.
Proof.
  induction n as [|n IH]; intros acc; cbn [put_be get_be_from].
  - change (256 ^ Z.of_nat 0) with 1. rewrite Z.mod_1_r. lia.
  - rewrite IH. rewrite Nat2Z.inj_succ, Z.pow_succ_r by lia.
    assert (0 < 256 ^ Z.of_nat n) by (apply Z.pow_pos_nonneg; lia).
    rewrite (Z.mul_comm 256 (256 ^ _)), Z.rem_mul_r by lia. lia.
Qed.

Lemma get_be_put n v : get_be (put_be n v) = v mod 256 ^ Z.of_nat n.
Proof. unfold get_be. rewrite get_be_from_put. lia. Qed.

Lemma get_be_from_app b : forall acc,
  get_be_from acc b = acc * 256 ^ Z.of_nat (length b) + get_be b.
Proof.
  unfold get_be. induction b as [|x b IH]; intros acc; simpl length.
  - simpl. lia.
  - cbn [get_be_from]. rewrite IH, (IH (0 * 256 + x)).
    rewrite Nat2Z.inj_succ, Z.pow_succ_r by lia. lia.
Qed.

Lemma get_be_range b : all_bytes b -> 0 <= get_be b < 256 ^ Z.of_nat (length b).
Proof.
  induction 1 as [|x b Hx Hb IH]; [done |].
  change (get_be (x :: b)) with (get_be_from x b).
  rewrite get_be_from_app. simpl length.
  rewrite Nat2Z.inj_succ, Z.pow_succ_r by lia. unfold is_byte in Hx. nia.
Qed.

Lemma put_be_mod n v v' : v mod 256 ^ Z.of_nat n = v' mod 256 ^ Z.of_nat n ->
  put_be n v = put_be n v'.
Proof.
  induction n as [|n IH]; intros H; [done |]. simpl.
  rewrite Nat2Z.inj_succ, Z.pow_succ_r, (Z.mul_comm 256 (256 ^ _)) in H by lia.
  assert (0 < 256 ^ Z.of_nat n) by (apply Z.pow_pos_nonneg; lia).
  rewrite !Z.rem_mul_r in H by lia.
  destruct (Z.div_mod_unique (256 ^ Z.of_nat n) ((v / 256 ^ Z.of_nat n) mod 256)
    ((v' / 256 ^ Z.of_nat n) mod 256) (v mod 256 ^ Z.of_nat n) (v' mod 256 ^ Z.of_nat n))
    as [H1 H2]; try (left; apply Z.mod_pos_bound; lia); [lia |].
  f_equal; [done | by apply IH].
Qed.

Lemma put_get_be b : all_bytes b -> put_be (length b) (get_be b) = b.
Proof.
  induction 1 as [|x b Hx Hb IH]; [done |].
  change (get_be (x :: b)) with (get_be_from x b).
  rewrite get_be_from_app. simpl.
  pose proof (get_be_range b Hb) as Hr.
  set (P := 256 ^ Z.of_nat (length b)) in *.
  f_equal.
  - rewrite Z.div_add_l by lia. rewrite Z.div_small, Z.add_0_r by lia.
    apply Z.mod_small. done.
  - etransitivity; [| exact IH]. apply put_be_mod. fold P.
    rewrite Z.add_comm, Z.mod_add by lia. done.
Qed.

Lemma put_be_inj n v v' :
  0 <= v < 256 ^ Z.of_nat n -> 0 <= v' < 256 ^ Z.of_nat n ->
  put_be n v = put_be n v' -> v = v'.
Proof.
  intros Hv Hv' H. apply (f_equal get_be) in H.
  rewrite !get_be_put, !Z.mod_small in H by lia. done.
Qed.

(** ** Writes into a buffer *)

(** [copy(b[off:], data)]: what does not fit is dropped. *)
Definition copy_at (off : nat) (data b : bytes) : bytes :=
  take off b ++ take (length b - off) data ++ drop (off + length data) b.

(** The slice [b[i:j]]. *)
Definition slice (i j : nat) (b : bytes) : bytes := take (j - i) (drop i b).

Definition zeros (n : nat) : bytes := replicate n 0.

Lemma length_copy_at off data b : (off <= length b)%nat -> length (copy_at off data b) = length b.
Proof.
  intros H. unfold copy_at.
  rewrite !length_app, !length_take, length_drop. lia.
Qed.

(** Filling a buffer from its front: what is written next goes at the front of
    what is still zero. *)
Lemma copy_at_front done data n :
  (length data <= n)%nat ->
  copy_at (length done) data (done ++ zeros n) = (done ++ data) ++ zeros (n - length data).
Proof.
  intros H. unfold copy_at, zeros.
  rewrite take_app_length, length_app, length_replicate.
  rewrite (take_ge data) by lia.
  rewrite drop_app_ge by lia.
  replace (length done + length data - length done)%nat with (length data) by lia.
  rewrite drop_replicate. by rewrite app_assoc.
Qed.

Lemma slice_mid a x b i j :
  length a = i -> (i + length x)%nat = j -> slice i j (a ++ x ++ b) = x.
Proof.
  intros <- <-. unfold slice. rewrite drop_app_length.
  replace (length a + length x - length a)%nat with (length x) by lia.
  apply take_app_length.
Qed.

Lemma slice_bytes i j b : all_bytes b -> all_bytes (slice i j b).
Proof. intros H. unfold slice. by apply Forall_take, Forall_drop. Qed.

Lemma length_slice i j b : (i <= j <= length b)%nat -> length (slice i j b) = (j - i)%nat.
Proof. intros H. unfold slice. rewrite length_take, length_drop. lia. Qed.

Lemma slice_split i j k b :
  (i <= j <= k)%nat -> slice i k b = slice i j b ++ slice j k b.
Proof.
  intros H. unfold slice.
  replace (k - i)%nat with ((j - i) + (k - j))%nat by lia.
  rewrite <- (take_drop (j - i) (take (j - i + (k - j)) (drop i b))) at 1.
  rewrite take_take, Nat.min_l by lia. f_equal.
  rewrite skipn_firstn_comm, drop_drop.
  replace (j - i + (k - j) - (j - i))%nat with (k - j)%nat by lia.
  f_equal. f_equal. lia.
Qed.

Lemma slice_full b : slice 0 (length b) b = b.
Proof. unfold slice. rewrite drop_0, take_ge; [done | lia]. Qed.

(** ** Hexadecimal *)

Definition hexDigits : bytes := string_bytes "0123456789abcdef".
Definition hexDigit (n : Z) : Z := nth (Z.to_nat n) hexDigits 0.

(** [hexEncode]. *)
Fixpoint hexEncode (b : bytes) : bytes :=
  match b with
  | [] => []
  | c :: b => hexDigit (Z.shiftr c 4) :: hexDigit (Z.land c 15) :: hexEncode b
  end.

Definition hexValue (d : Z) : option Z :=
  if (48 <=? d) && (d <=? 57) then Some (d - 48)
  else if (97 <=? d) && (d <=? 102) then Some (d - 87) else None.

Definition is_hex (d : Z) : bool :=
  negb (((d <? 48) || (57 <? d)) && ((d <? 97) || (102 <? d))).

Fixpoint hexDecode (b : bytes) : option bytes :=
  match b with
  | [] => Some []
  | [_] => None
  | x :: y :: b =>
      match hexValue x, hexValue y, hexDecode b with
      | Some h, Some l, Some r => Some (h * 16 + l :: r)
      | _, _, _ => None
      end
  end.

Definition hexDigit_ok (n : Z) : bool :=
  bool_decide (hexValue (hexDigit n) = Some n) && is_hex (hexDigit n).

Lemma hexValue_digit n : 0 <= n < 16 ->
  hexValue (hexDigit n) = Some n /\ is_hex (hexDigit n) = true.
Proof.
  intros H. assert (Hall : forallb hexDigit_ok (seqZ 0 16) = true) by reflexivity.
  rewrite forallb_forall in Hall. specialize (Hall n).
  rewrite <- list_elem_of_In, elem_of_seqZ in Hall.
  destruct (proj1 (andb_true_iff _ _) (Hall ltac:(lia))) as [H1 H2].
  by apply bool_decide_eq_true in H1.
Qed.

Lemma nibbles c : is_byte c ->
  0 <= Z.shiftr c 4 < 16 /\ 0 <= Z.land c 15 < 16
  /\ Z.shiftr c 4 * 16 + Z.land c 15 = c.
Proof.
  unfold is_byte. intros H.
  change 15 with (Z.ones 4). rewrite Z.land_ones, Z.shiftr_div_pow2 by lia.
  change (2 ^ 4) with 16. pose proof (Z.div_mod c 16).
  pose proof (Z.mod_pos_bound c 16).
  assert (0 <= c / 16 < 16); [| lia].
  split; [apply Z.div_pos | apply Z.div_lt_upper_bound]; lia.
Qed.

Lemma hexDecode_Encode b : all_bytes b -> hexDecode (hexEncode b) = Some b.
Proof.
  induction 1 as [|c b Hc Hb IH]; [done |]. simpl.
  destruct (nibbles c Hc) as (H1 & H2 & H3).
  apply hexValue_digit in H1 as [-> _], H2 as [-> _].
  rewrite IH. by rewrite H3.
Qed.

Lemma hexEncode_inj a b : all_bytes a -> all_bytes b -> hexEncode a = hexEncode b -> a = b.
Proof.
  intros Ha Hb H. apply (f_equal hexDecode) in H.
  rewrite !hexDecode_Encode in H by done. by injection H.
Qed.

Lemma length_hexEncode b : length (hexEncode b) = (2 * length b)%nat.
Proof. induction b; simpl; lia. Qed.

Lemma hexEncode_hex b : all_bytes b -> Forall (fun d => is_hex d = true) (hexEncode b).
Proof.
  induction 1 as [|c b Hc Hb IH]; simpl; [constructor |].
  destruct (nibbles c Hc) as (H1 & H2 & _).
  apply hexValue_digit in H1 as [_ ?], H2 as [_ ?]. by repeat constructor.
Qed.

Lemma is_hex_byte d : is_hex d = true -> is_byte d.
Proof.
  unfold is_hex, is_byte. intros H.
  destruct (Z.ltb_spec d 48), (Z.ltb_spec 57 d), (Z.ltb_spec d 97), (Z.ltb_spec 102 d);
    simpl in H; done || lia.
Qed.

Lemma string_bytes_string b : all_bytes b -> string_bytes (bytes_string b) = b.
Proof.
  unfold string_bytes, bytes_string. rewrite String.list_ascii_of_string_of_list_ascii.
  induction 1 as [|c b Hc Hb IH]; [done |]. rewrite !fmap_cons, IH. f_equal.
  unfold is_byte in Hc. rewrite nat_ascii_embedding by lia. lia.
Qed.
