(* ===== verification/Sha256.v ===== *)
(** * SHA-256 and HMAC

    [crypto/sha256] and [crypto/hmac], from FIPS 180-4 and RFC 2104, so that
    every authenticator of the protocol is a value the model computes. *)

From S2P Require Import Prelude Bytes.

Definition w32 (z : Z) : Z := Z.land z 4294967295.
Definition add32 (a b : Z) : Z := w32 (a + b).
Definition rotr (n x : Z) : Z := Z.lor (Z.shiftr x n) (w32 (Z.shiftl x (32 - n))).
Definition Ch (x y z : Z) : Z := Z.lxor (Z.land x y) (Z.land (Z.lxor x 4294967295) z).
Definition Maj (x y z : Z) : Z :=
  Z.lxor (Z.lxor (Z.land x y) (Z.land x z)) (Z.land y z).
Definition Sigma0 (x : Z) : Z := Z.lxor (Z.lxor (rotr 2 x) (rotr 13 x)) (rotr 22 x).
Definition Sigma1 (x : Z) : Z := Z.lxor (Z.lxor (rotr 6 x) (rotr 11 x)) (rotr 25 x).
Definition sigma0 (x : Z) : Z := Z.lxor (Z.lxor (rotr 7 x) (rotr 18 x)) (Z.shiftr x 3).
Definition sigma1 (x : Z) : Z := Z.lxor (Z.lxor (rotr 17 x) (rotr 19 x)) (Z.shiftr x 10).

Definition K256 : list Z :=
  [1116352408; 1899447441; 3049323471; 3921009573; 961987163; 1508970993; 2453635748; 2870763221;
   3624381080; 310598401; 607225278; 1426881987; 1925078388; 2162078206; 2614888103; 3248222580;
   3835390401; 4022224774; 264347078; 604807628; 770255983; 1249150122; 1555081692; 1996064986;
   2554220882; 2821834349; 2952996808; 3210313671; 3336571891; 3584528711; 113926993; 338241895;
   666307205; 773529912; 1294757372; 1396182291; 1695183700; 1986661051; 2177026350; 2456956037;
   2730485921; 2820302411; 3259730800; 3345764771; 3516065817; 3600352804; 4094571909; 275423344;
   430227734; 506948616; 659060556; 883997877; 958139571; 1322822218; 1537002063; 1747873779;
   1955562222; 2024104815; 2227730452; 2361852424; 2428436474; 2756734187; 3204031479; 3329325298].

Record hstate := mkH { h0 : Z; h1 : Z; h2 : Z; h3 : Z; h4 : Z; h5 : Z; h6 : Z; h7 : Z }.

Definition H256 : hstate :=
  mkH 1779033703 3144134277 1013904242 2773480762 1359893119 2600822924 528734635 1541459225.

(** One round, on the eight working variables. *)
Definition round (s : hstate) (k w : Z) : hstate :=
  let t1 := w32 (h7 s + Sigma1 (h4 s) + Ch (h4 s) (h5 s) (h6 s) + k + w) in
  let t2 := w32 (Sigma0 (h0 s) + Maj (h0 s) (h1 s) (h2 s)) in
  mkH (add32 t1 t2) (h0 s) (h1 s) (h2 s) (add32 (h3 s) t1) (h4 s) (h5 s) (h6 s).

(** The message schedule is generated along with the rounds: [win] holds the
    sixteen words before the current one, oldest first. *)
Fixpoint rounds (ks : list Z) (win : list Z) (s : hstate) : hstate :=
  match ks with
  | [] => s
  | k :: ks =>
      match win with
      | w0 :: rest =>
          let w16 := w32 (sigma1 (nth 13 rest 0) + nth 8 rest 0 + sigma0 (nth 0 rest 0) + w0) in
          rounds ks (rest ++ [w16]) (round s k w0)
      | [] => s
      end
  end.

Fixpoint words (n : nat) (b : bytes) : list Z :=
  match n with
  | O => []
  | S n => get_be (take 4 b) :: words n (drop 4 b)
  end.

Definition compress (s : hstate) (block : bytes) : hstate :=
  let r := rounds K256 (words 16 block) s in
  mkH (add32 (h0 s) (h0 r)) (add32 (h1 s) (h1 r)) (add32 (h2 s) (h2 r)) (add32 (h3 s) (h3 r))
      (add32 (h4 s) (h4 r)) (add32 (h5 s) (h5 r)) (add32 (h6 s) (h6 r)) (add32 (h7 s) (h7 r)).

Fixpoint blocks (n : nat) (s : hstate) (b : bytes) : hstate :=
  match n with
  | O => s
  | S n => blocks n (compress s (take 64 b)) (drop 64 b)
  end.

Definition pad (b : bytes) : bytes :=
  let len := Z.of_nat (length b) in
  b ++ [128] ++ zeros (Z.to_nat ((55 - len) mod 64)) ++ put_be 8 (8 * len).

Definition digest (s : hstate) : bytes :=
  put_be 4 (h0 s) ++ put_be 4 (h1 s) ++ put_be 4 (h2 s) ++ put_be 4 (h3 s)
  ++ put_be 4 (h4 s) ++ put_be 4 (h5 s) ++ put_be 4 (h6 s) ++ put_be 4 (h7 s).

Definition sha256 (b : bytes) : bytes :=
  let p := pad b in digest (blocks (Nat.div (length p) 64) H256 p).

(** [hmac.New(sha256.New, key)], [Write], [Sum(nil)]. *)
Definition hmac_sha256 (key msg : bytes) : bytes :=
  let key := if (64 <? Z.of_nat (length key)) then sha256 key else key in
  let key := key ++ zeros (64 - length key) in
  sha256 ((Z.lxor 92 <$> key) ++ sha256 ((Z.lxor 54 <$> key) ++ msg)).

Lemma length_sha256 b : length (sha256 b) = 32%nat.
Proof. unfold sha256, digest. rewrite !length_app, !length_put_be. done. Qed.

Lemma sha256_bytes b : all_bytes (sha256 b).
Proof. unfold sha256, digest. repeat apply Forall_app_2; apply put_be_bytes. Qed.

Lemma length_hmac k m : length (hmac_sha256 k m) = 32%nat.
Proof. apply length_sha256. Qed.

Lemma hmac_bytes k m : all_bytes (hmac_sha256 k m).
Proof. apply sha256_bytes. Qed.

(** The published test vectors. *)
Example sha256_abc :
  hexEncode (sha256 (string_bytes "abc"))
  = string_bytes "ba7816bf8f01cfea414140de5dae2223b00361a396177a9cb410ff61f20015ad".
Proof. vm_compute. reflexivity. Qed.

Example hmac_rfc4231_2 :
  hexEncode (hmac_sha256 (string_bytes "Jefe") (string_bytes "what do ya want for nothing?"))
  = string_bytes "5bdcc146bf60754e6a042426089575c75a003f089d2739839dec58b964ec3843".
Proof. vm_compute. reflexivity. Qed.

#[global] Opaque sha256 hmac_sha256.
