(* ===== verification/Wire.v ===== *)
(** * The probe datagram and the handshake ([internal/proto/proto.go])

    The fixed 66-byte probe, its authenticator, and the two proofs of the
    control handshake.  Every authenticator is [hmac_sha256] over a byte
    string that starts with a label; [mac_input] collects the five kinds of
    string that are ever authenticated. *)

From S2P Require Import Prelude Bytes Sha256.

Definition ProbeSize : nat := 66.
Definition offMagic : nat := 0.
Definition offVersion : nat := 4.
Definition offType : nat := 5.
Definition offPathID : nat := 6.
Definition offSeq : nat := 8.
Definition offTxNanos : nat := 16.
Definition offEchoNanos : nat := 24.
Definition offActivePath : nat := 32.
Definition offDecisionSeq : nat := 34.
Definition offNonce : nat := 42.
Definition offMAC : nat := 50.

Definition TypeProbe : Z := 1.
Definition TypeReply : Z := 2.
Definition Version : Z := 2.
Definition magic : bytes := string_bytes "FOVR".

Inductive probe_error := ErrBadProbe | ErrProbeVersion.

Definition probeLabel : bytes := string_bytes "homeport-probe-v2".
Definition controlLabel : bytes := string_bytes "homeport-control-client-v2".
Definition controlAckLabel : bytes := string_bytes "homeport-control-server-v2".
Definition sessionLabel : bytes := string_bytes "homeport-control-session-v2".
Definition frameToServer : bytes := string_bytes "homeport-frame-to-server-v2".
Definition frameToClient : bytes := string_bytes "homeport-frame-to-client-v2".

Record Probe := mkProbe {
  pr_Type : Z; pr_PathID : Z; pr_Seq : Z; pr_TxNanos : Z; pr_EchoNanos : Z;
  pr_ActivePath : Z; pr_DecisionSeq : Z; pr_Nonce : Z }.

(** The Go types of the fields. *)
Record probe_wf (p : Probe) : Prop := {
  wf_type : 0 <= pr_Type p < 256;
  wf_path : 0 <= pr_PathID p < 65536;
  wf_seq : in_u64 (pr_Seq p);
  wf_tx : in_i64 (pr_TxNanos p);
  wf_echo : in_i64 (pr_EchoNanos p);
  wf_active : 0 <= pr_ActivePath p < 65536;
  wf_dseq : in_u64 (pr_DecisionSeq p);
  wf_nonce : in_u64 (pr_Nonce p) }.

Definition PutUint16 (off : nat) (v : Z) (b : bytes) : bytes := copy_at off (put_be 2 v) b.
Definition PutUint64 (off : nat) (v : Z) (b : bytes) : bytes := copy_at off (put_be 8 v) b.
Definition Uint16 (off : nat) (b : bytes) : Z := get_be (slice off (off + 2) b).
Definition Uint64 (off : nat) (b : bytes) : Z := get_be (slice off (off + 8) b).
Definition byte_at (off : nat) (b : bytes) : Z := get_be (slice off (off + 1) b).

Definition probeMAC (psk body : bytes) : bytes :=
  take 16 (hmac_sha256 psk (probeLabel ++ body)).

(** [Probe.Marshal]. *)
Definition Marshal (p : Probe) (psk : bytes) : bytes :=
  let b := zeros ProbeSize in
  let b := copy_at offMagic magic b in
  let b := copy_at offVersion [Version] b in
  let b := copy_at offType [pr_Type p] b in
  let b := PutUint16 offPathID (pr_PathID p) b in
  let b := PutUint64 offSeq (pr_Seq p) b in
  let b := PutUint64 offTxNanos (u64 (pr_TxNanos p)) b in
  let b := PutUint64 offEchoNanos (u64 (pr_EchoNanos p)) b in
  let b := PutUint16 offActivePath (pr_ActivePath p) b in
  let b := PutUint64 offDecisionSeq (pr_DecisionSeq p) b in
  let b := PutUint64 offNonce (pr_Nonce p) b in
  copy_at offMAC (probeMAC psk (slice 0 offMAC b)) b.

(** [Unmarshal]. *)
Definition Unmarshal (b psk : bytes) : result probe_error Probe :=
  if negb (length b =? ProbeSize)%nat then Err ErrBadProbe
  else if negb (bytes_eqb (slice offMagic (offMagic + 4) b) magic) then Err ErrBadProbe
  else if negb (byte_at offVersion b =? Version) then Err ErrProbeVersion
  else if negb (bytes_eqb (probeMAC psk (slice 0 offMAC b)) (slice offMAC ProbeSize b))
  then Err ErrBadProbe
  else Ok {|
    pr_Type := byte_at offType b;
    pr_PathID := Uint16 offPathID b;
    pr_Seq := Uint64 offSeq b;
    pr_TxNanos := i64 (Uint64 offTxNanos b);
    pr_EchoNanos := i64 (Uint64 offEchoNanos b);
    pr_ActivePath := Uint16 offActivePath b;
    pr_DecisionSeq := Uint64 offDecisionSeq b;
    pr_Nonce := Uint64 offNonce b |}.

(** ** The control handshake *)

Definition nonceLen : nat := 32.

(** [validNonce]. *)
Definition validNonce (s : bytes) : bool :=
  (length s =? nonceLen)%nat && forallb is_hex s.

Inductive nonce_error := ErrBadNonce.

(** [controlMAC]. *)
Definition controlMAC (psk label serverNonce clientNonce : bytes) : result nonce_error bytes :=
  if negb (validNonce serverNonce) || negb (validNonce clientNonce) then Err ErrBadNonce
  else Ok (hexEncode (hmac_sha256 psk (label ++ serverNonce ++ clientNonce))).

(** [verifyControl]. *)
Definition verifyControl (psk label serverNonce clientNonce got : bytes) : bool :=
  match controlMAC psk label serverNonce clientNonce with
  | Err _ => false
  | Ok want => bytes_eqb want got
  end.

Definition SignAuth (psk s c : bytes) := controlMAC psk controlLabel s c.
Definition VerifyAuth (psk s c got : bytes) := verifyControl psk controlLabel s c got.
Definition SignAuthAck (psk s c : bytes) := controlMAC psk controlAckLabel s c.
Definition VerifyAuthAck (psk s c got : bytes) := verifyControl psk controlAckLabel s c got.

(** [RandomNonce], given the sixteen bytes the random source produced. *)
Definition RandomNonce (random : bytes) : bytes := hexEncode random.

(** [NewNonce], given its eight. *)
Definition NewNonce (random : bytes) : Z := get_be random.

(** [frameMAC]: the authenticated string of a frame, then its code. *)
Definition frame_input (label : bytes) (seq : Z) (typ data : bytes) : bytes :=
  label ++ put_be 8 seq ++ put_be 8 (Z.of_nat (length typ)) ++ typ
        ++ put_be 8 (Z.of_nat (length data)) ++ data.
Definition frameMAC (key label : bytes) (seq : Z) (typ data : bytes) : bytes :=
  hexEncode (take 16 (hmac_sha256 key (frame_input label seq typ data))).

(** The session key of [NewSession]. *)
Definition sessionKey (psk serverNonce clientNonce : bytes) : bytes :=
  hmac_sha256 psk (sessionLabel ++ serverNonce ++ clientNonce).

(** ** The codec *)

(** The fifty bytes before the authenticator. *)
Definition probe_body (p : Probe) : bytes :=
  magic ++ [Version] ++ [pr_Type p] ++ put_be 2 (pr_PathID p) ++ put_be 8 (pr_Seq p)
  ++ put_be 8 (u64 (pr_TxNanos p)) ++ put_be 8 (u64 (pr_EchoNanos p))
  ++ put_be 2 (pr_ActivePath p) ++ put_be 8 (pr_DecisionSeq p) ++ put_be 8 (pr_Nonce p).

Lemma length_probe_body p : length (probe_body p) = offMAC.
Proof. unfold probe_body. rewrite !length_app, !length_put_be. done. Qed.

Lemma length_probeMAC psk body : length (probeMAC psk body) = 16%nat.
Proof. unfold probeMAC. rewrite length_take, length_hmac. done. Qed.

(** One more write at the front of what is still zero. *)
Lemma copy_next done data n off :
  length done = off -> (length data <= n)%nat ->
  copy_at off data (done ++ zeros n) = (done ++ data) ++ zeros (n - length data).
Proof. intros <-. apply copy_at_front. Qed.

Ltac copy_step :=
  rewrite copy_next; [| by rewrite ?length_app, ?length_put_be
                      | by rewrite ?length_put_be; apply Nat.leb_le].

Lemma Marshal_eq p psk : Marshal p psk = probe_body p ++ probeMAC psk (probe_body p).
Proof.
  unfold Marshal, PutUint16, PutUint64.
  replace (zeros ProbeSize) with ([] ++ zeros ProbeSize) by done.
  do 10 copy_step. 
  match goal with |- context [slice 0 offMAC (?b ++ zeros ?n)] =>
    replace b with (probe_body p) by (unfold probe_body; by rewrite <- !app_assoc)
  end.
  assert (Hs : forall z, slice 0 offMAC (probe_body p ++ z) = probe_body p).
  { intros z. unfold slice. rewrite drop_0, Nat.sub_0_r, <- (length_probe_body p).
    apply take_app_length. }
  rewrite Hs. rewrite copy_next; rewrite ?length_probeMAC;
    [| apply length_probe_body | rewrite ?length_put_be; by apply Nat.leb_le].
  rewrite !length_put_be. simpl. by rewrite app_nil_r.
Qed.

(** Cutting a known prefix off a slice. *)
Lemma slice_skip a b i j :
  (length a <= i)%nat -> slice i j (a ++ b) = slice (i - length a) (j - length a) b.
Proof.
  intros H. unfold slice. rewrite drop_app_ge by done.
  destruct (decide (i <= j)%nat).
  - f_equal. lia.
  - replace (j - i)%nat with 0%nat by lia.
    by replace (j - length a - (i - length a))%nat with 0%nat by lia.
Qed.

Lemma slice_here a b j : length a = j -> slice 0 j (a ++ b) = a.
Proof. intros <-. unfold slice. rewrite drop_0, Nat.sub_0_r. apply take_app_length. Qed.

Ltac field_step :=
  unfold probe_body; rewrite <- ?app_assoc;
  repeat first
    [ rewrite slice_here by (by rewrite ?length_put_be)
    | rewrite slice_skip by (rewrite ?length_put_be; by apply Nat.leb_le);
      rewrite ?length_put_be; cbn [length Nat.sub Nat.add] ].

Lemma get_be_one x : get_be [x] = x.
Proof. done. Qed.

Lemma get_be_put_id n v : 0 <= v < 256 ^ Z.of_nat n -> get_be (put_be n v) = v.
Proof. intros H. rewrite get_be_put. by apply Z.mod_small. Qed.

Lemma u64_pow z : in_u64 z -> 0 <= z < 256 ^ Z.of_nat 8.
Proof. change (256 ^ Z.of_nat 8) with 18446744073709551616. go_lia. Qed.

(** The ten fields of a body, read back. *)
Record body_reads (p : Probe) (b : bytes) : Prop := {
  br_magic : slice offMagic (offMagic + 4) b = magic;
  br_version : byte_at offVersion b = Version;
  br_type : byte_at offType b = pr_Type p;
  br_path : Uint16 offPathID b = pr_PathID p;
  br_seq : Uint64 offSeq b = pr_Seq p;
  br_tx : Uint64 offTxNanos b = u64 (pr_TxNanos p);
  br_echo : Uint64 offEchoNanos b = u64 (pr_EchoNanos p);
  br_active : Uint16 offActivePath b = pr_ActivePath p;
  br_dseq : Uint64 offDecisionSeq b = pr_DecisionSeq p;
  br_nonce : Uint64 offNonce b = pr_Nonce p }.

Lemma probe_body_reads p rest : probe_wf p -> body_reads p (probe_body p ++ rest).
Proof.
  intros [Ht Hp Hs Htx He Ha Hd Hn].
  unfold offMagic, offVersion, offType, offPathID, offSeq, offTxNanos, offEchoNanos,
    offActivePath, offDecisionSeq, offNonce.
  split; unfold byte_at, Uint16, Uint64; cbn [Nat.add]; field_step; try done;
    apply get_be_put_id; try done; apply u64_pow; auto with go.
Qed.

Lemma MAC_split p psk :
  slice 0 offMAC (Marshal p psk) = probe_body p
  /\ slice offMAC ProbeSize (Marshal p psk) = probeMAC psk (probe_body p)
  /\ length (Marshal p psk) = ProbeSize.
Proof.
  rewrite Marshal_eq. split; [| split].
  - apply slice_here, length_probe_body.
  - rewrite slice_skip by (rewrite length_probe_body; done).
    rewrite length_probe_body. cbn [Nat.sub].
    unfold slice. rewrite drop_0. apply take_ge. by rewrite length_probeMAC.
  - rewrite length_app, length_probe_body, length_probeMAC. done.
Qed.

Lemma unmarshal_marshalled p psk :
  probe_wf p -> Unmarshal (Marshal p psk) psk = Ok p.
Proof.
  intros Hwf. destruct (MAC_split p psk) as (H1 & H2 & H3).
  unfold Unmarshal. rewrite H1, H2, H3, Nat.eqb_refl. cbn [negb].
  rewrite Marshal_eq in *.
  destruct (probe_body_reads p (probeMAC psk (probe_body p)) Hwf).
  unfold bytes_eqb. rewrite br_magic0, br_version0, !bool_decide_eq_true_2 by done.
  rewrite Z.eqb_refl. cbn [negb].
  rewrite br_type0, br_path0, br_seq0, br_tx0, br_echo0, br_active0, br_dseq0, br_nonce0.
  rewrite !i64_u64, !i64_id by apply Hwf. by destruct p.
Qed.

(** [C40] A probe survives the wire: what one host marshals under a secret, the
    other host with that secret unmarshals to the same probe, for every value
    of every field, signed timestamps included. *)
Theorem Unmarshal_Marshal p psk :
  probe_wf p -> Unmarshal (Marshal p psk) psk = Ok p.
Proof. apply unmarshal_marshalled. Qed.

Lemma Unmarshal_Marshal_witness :
  probe_wf (mkProbe TypeProbe 3 (2 ^ 63) (-5) 0 2 77 123456789)
  /\ Unmarshal (Marshal (mkProbe TypeProbe 3 (2 ^ 63) (-5) 0 2 77 123456789) [1; 2; 3]) [1; 2; 3]
     = Ok (mkProbe TypeProbe 3 (2 ^ 63) (-5) 0 2 77 123456789).
Proof.
  assert (H : probe_wf (mkProbe TypeProbe 3 (2 ^ 63) (-5) 0 2 77 123456789)).
  { split; simpl; unfold TypeProbe, in_u64, in_i64, MaxUint64, MinInt64, MaxInt64; lia. }
  split; [exact H | exact (Unmarshal_Marshal _ _ H)].
Defined.

(** Reading a whole buffer field by field and writing it again gives it back. *)
Lemma put_slice n i j b :
  all_bytes b -> (i + n = j)%nat -> (j <= length b)%nat ->
  put_be n (get_be (slice i j b)) = slice i j b.
Proof.
  intros Hb <- Hl. 
  replace n with (length (slice i (i + n) b)) at 1.
  - by apply put_get_be, slice_bytes.
  - rewrite length_slice by lia. lia.
Qed.

Lemma slice_range n i j b :
  all_bytes b -> (i + n = j)%nat -> (j <= length b)%nat ->
  0 <= get_be (slice i j b) < 256 ^ Z.of_nat n.
Proof.
  intros Hb <- Hl.
  replace n with (length (slice i (i + n) b)) at 3.
  - by apply get_be_range, slice_bytes.
  - rewrite length_slice by lia. lia.
Qed.

Lemma unmarshalled_marshal b psk p :
  all_bytes b -> Unmarshal b psk = Ok p -> probe_wf p /\ b = Marshal p psk.
Proof.
  intros Hb H. unfold Unmarshal in H.
  destruct (length b =? ProbeSize)%nat eqn:Hl; [| discriminate].
  destruct (bytes_eqb (slice offMagic _ b) magic) eqn:Hm; [| discriminate].
  destruct (byte_at offVersion b =? Version) eqn:Hv; [| discriminate].
  destruct (bytes_eqb (probeMAC _ _) _) eqn:Hmac; [| discriminate].
  simpl in H. injection H as <-.
  apply Nat.eqb_eq in Hl. apply bytes_eqb_eq in Hm, Hmac. bool_to_prop.
  assert (Hu : forall off, (off + 8 <= ProbeSize)%nat -> in_u64 (Uint64 off b)).
  { intros off Hoff. pose proof (slice_range 8 off (off + 8) b Hb eq_refl ltac:(lia)) as Hr.
    change (256 ^ Z.of_nat 8) with 18446744073709551616 in Hr.
    unfold Uint64. go_lia. }
  assert (Hs : forall off, (off + 2 <= ProbeSize)%nat -> 0 <= Uint16 off b < 65536).
  { intros off Hoff. exact (slice_range 2 off (off + 2) b Hb eq_refl ltac:(lia)). }
  split.
  - split; simpl; auto with go; try (apply Hu; by apply Nat.leb_le);
      try (apply Hs; by apply Nat.leb_le).
    apply (slice_range 1 offType (offType + 1) b Hb eq_refl). rewrite Hl. by apply Nat.leb_le.
  - rewrite Marshal_eq.
    assert (Hbody : probe_body {| pr_Type := byte_at offType b; pr_PathID := Uint16 offPathID b;
      pr_Seq := Uint64 offSeq b; pr_TxNanos := i64 (Uint64 offTxNanos b);
      pr_EchoNanos := i64 (Uint64 offEchoNanos b); pr_ActivePath := Uint16 offActivePath b;
      pr_DecisionSeq := Uint64 offDecisionSeq b; pr_Nonce := Uint64 offNonce b |}
      = slice 0 offMAC b).
    { unfold probe_body.
      cbn [pr_Type pr_PathID pr_Seq pr_TxNanos pr_EchoNanos pr_ActivePath pr_DecisionSeq pr_Nonce].
      rewrite !u64_i64, !u64_id by (apply Hu; by apply Nat.leb_le).
      rewrite (slice_split 0 4), (slice_split 4 5), (slice_split 5 6), (slice_split 6 8),
        (slice_split 8 16), (slice_split 16 24), (slice_split 24 32), (slice_split 32 34),
        (slice_split 34 42) by (unfold offMAC; lia).
      assert (H1 : forall i j, (i + 1 = j)%nat -> (j <= ProbeSize)%nat ->
                [get_be (slice i j b)] = slice i j b).
      { intros i j Hij Hj. rewrite <- (put_slice 1 i j b) at 2; [| done | done | lia].
        simpl. f_equal. rewrite Z.div_1_r. symmetry. apply Z.mod_small.
        apply (slice_range 1); [done | done | lia]. }
      rewrite <- Hv, <- Hm. unfold byte_at, Uint16, Uint64.
      rewrite !H1 by (done || by apply Nat.leb_le).
      rewrite !put_slice by (done || (rewrite Hl; by apply Nat.leb_le)).
      done. }
    rewrite Hbody, Hmac, <- slice_split by (unfold offMAC, ProbeSize; lia).
    rewrite <- Hl. by rewrite slice_full.
Qed.

(** Nothing but a marshalled probe is ever accepted: a datagram that
    unmarshals is, byte for byte, the marshalling of the probe it decodes to
    under the receiver's secret, and that probe's fields are in range.  So
    there is one datagram per probe and secret, and no field escapes the
    authenticator. *)
Theorem Unmarshal_sound b psk p :
  all_bytes b -> Unmarshal b psk = Ok p -> probe_wf p /\ b = Marshal p psk.
Proof. apply unmarshalled_marshal. Qed.

Definition sample_probe : Probe := mkProbe TypeReply 1 42 1000 2000 1 9 7.

Lemma Unmarshal_sound_witness :
  probe_wf sample_probe
  /\ Marshal sample_probe [9; 9] = Marshal sample_probe [9; 9].
Proof.
  apply (Unmarshal_sound (Marshal sample_probe [9; 9]) [9; 9] sample_probe).
  - assert (H : forallb byte_ok (Marshal sample_probe [9; 9]) = true) by (vm_compute; reflexivity).
    apply Forall_forall. intros x Hx. rewrite forallb_forall in H.
    apply list_elem_of_In in Hx. apply H in Hx. unfold byte_ok in Hx.
    apply andb_true_iff in Hx as [H1 H2]. unfold is_byte.
    apply Z.leb_le in H1. apply Z.ltb_lt in H2. lia.
  - vm_compute. reflexivity.
Defined.

(** What a datagram is refused for: a wrong length or a wrong magic is
    malformed, a right-sized packet of another wire version is reported as
    that whether or not it authenticates, and only a packet of this version
    whose authenticator does not match the receiver's secret is left, again
    malformed.  Nothing else is refused. *)
Theorem Unmarshal_errors b psk :
  (Unmarshal b psk = Err ErrProbeVersion <->
     length b = ProbeSize /\ slice offMagic (offMagic + 4) b = magic
     /\ byte_at offVersion b <> Version)
  /\ (Unmarshal b psk = Err ErrBadProbe <->
     length b <> ProbeSize \/ slice offMagic (offMagic + 4) b <> magic
     \/ (byte_at offVersion b = Version
         /\ probeMAC psk (slice 0 offMAC b) <> slice offMAC ProbeSize b)).
Proof.
  unfold Unmarshal.
  destruct (Nat.eqb_spec (length b) ProbeSize);
    destruct (bytes_eqb (slice offMagic _ b) magic) eqn:Hm;
    destruct (Z.eqb_spec (byte_at offVersion b) Version);
    destruct (bytes_eqb (probeMAC _ _) _) eqn:Hc; cbn [negb];
    rewrite ?bytes_eqb_eq, ?bytes_eqb_neq in *;
    (split; split; [intros H; try discriminate H; tauto | intros H; try done; exfalso; tauto
      | intros H; try discriminate H; tauto | intros H; try done; exfalso; tauto]).
Qed.

(** ** Domain separation *)

(** Everything that is ever authenticated. *)
Inductive mac_input :=
| InProbe (body : bytes)
| InAuth (serverNonce clientNonce : bytes)
| InAuthAck (serverNonce clientNonce : bytes)
| InSession (serverNonce clientNonce : bytes)
| InFrame (toServer : bool) (seq : Z) (typ data : bytes).

Definition frameLabel (toServer : bool) : bytes :=
  if toServer then frameToServer else frameToClient.

Definition mac_bytes (x : mac_input) : bytes :=
  match x with
  | InProbe body => probeLabel ++ body
  | InAuth s c => controlLabel ++ s ++ c
  | InAuthAck s c => controlAckLabel ++ s ++ c
  | InSession s c => sessionLabel ++ s ++ c
  | InFrame d seq typ data => frame_input (frameLabel d) seq typ data
  end.

Definition nonces_ok (s c : bytes) : Prop := validNonce s = true /\ validNonce c = true.

Definition mac_input_ok (x : mac_input) : Prop :=
  match x with
  | InProbe body => length body = offMAC
  | InAuth s c | InAuthAck s c | InSession s c => nonces_ok s c
  | InFrame _ seq typ data =>
      in_u64 seq /\ in_u64 (Z.of_nat (length typ)) /\ in_u64 (Z.of_nat (length data))
  end.

Lemma validNonce_length s : validNonce s = true -> length s = nonceLen.
Proof. unfold validNonce. intros H. apply andb_true_iff in H as [H _]. by apply Nat.eqb_eq. Qed.

Lemma nonces_inj s c s' c' :
  nonces_ok s c -> nonces_ok s' c' -> s ++ c = s' ++ c' -> s = s' /\ c = c'.
Proof.
  intros [H1 _] [H2 _] H. apply app_inj_1 in H; [done |].
  by rewrite !validNonce_length.
Qed.

(** A big-endian length in front of a field makes the split unique. *)
Lemma prefixed_inj x y a b :
  in_u64 (Z.of_nat (length x)) -> in_u64 (Z.of_nat (length y)) ->
  put_be 8 (Z.of_nat (length x)) ++ x ++ a = put_be 8 (Z.of_nat (length y)) ++ y ++ b ->
  x = y /\ a = b.
Proof.
  intros Hx Hy H. apply app_inj_1 in H as [H1 H2]; [| by rewrite !length_put_be].
  apply put_be_inj in H1; [| by apply u64_pow ..].
  apply app_inj_1 in H2; [done | lia].
Qed.

Lemma frame_input_inj d d' seq seq' typ typ' data data' :
  mac_input_ok (InFrame d seq typ data) -> mac_input_ok (InFrame d' seq' typ' data') ->
  frame_input (frameLabel d) seq typ data = frame_input (frameLabel d') seq' typ' data' ->
  d = d' /\ seq = seq' /\ typ = typ' /\ data = data'.
Proof.
  intros (Hs & Ht & Hd) (Hs' & Ht' & Hd') H. unfold frame_input in H.
  apply app_inj_1 in H as [Hl H]; [| by destruct d, d'].
  assert (d = d') as <- by (destruct d, d'; done).
  apply app_inj_1 in H as [Hq H]; [| by rewrite !length_put_be].
  apply put_be_inj in Hq; [| by apply u64_pow ..].
  apply prefixed_inj in H as [-> H]; [| done | done].
  rewrite <- (app_nil_r data), <- (app_nil_r data') in H.
  rewrite !length_app in H. cbn [length] in H. rewrite !Nat.add_0_r in H.
  by apply prefixed_inj in H as [-> _].
Qed.

(** The labels and the length prefixes separate everything that is
    authenticated: a probe, either half of the handshake, the derivation of a
    session key, and a frame in either direction at any sequence number never
    give the same authenticated string unless they are the same message.  So
    no authenticator issued for one purpose is valid for another, and no field
    boundary of a frame can be moved. *)
Theorem mac_bytes_injective x y :
  mac_input_ok x -> mac_input_ok y -> mac_bytes x = mac_bytes y -> x = y.
Proof.
  destruct x as [b|s c|s c|s c|d q t dt], y as [b'|s' c'|s' c'|s' c'|d' q' t' dt'];
    intros Hx Hy H; unfold mac_bytes in H;
    try (exfalso; revert H; try destruct d; try destruct d'; discriminate).
  - by apply app_inv_head in H as ->.
  - apply app_inv_head in H. by apply nonces_inj in H as [-> ->].
  - apply app_inv_head in H. by apply nonces_inj in H as [-> ->].
  - apply app_inv_head in H. by apply nonces_inj in H as [-> ->].
  - by apply frame_input_inj in H as (-> & -> & -> & ->).
Qed.

Definition nonce_a : bytes := string_bytes "00112233445566778899aabbccddeeff".
Definition nonce_b : bytes := string_bytes "ffeeddccbbaa99887766554433221100".

Lemma mac_bytes_injective_witness :
  mac_input_ok (InAuth nonce_a nonce_b) /\ InAuth nonce_a nonce_b = InAuth nonce_a nonce_b.
Proof.
  assert (H : mac_input_ok (InAuth nonce_a nonce_b)) by (split; vm_compute; reflexivity).
  split; [exact H | exact (mac_bytes_injective _ _ H H eq_refl)].
Defined.

(** The handshake accepts exactly what the holder of the secret signs: a
    proof verifies iff both nonces are well formed and it is the signature
    over them, so an honest proof is accepted, a malformed nonce never is,
    and the two directions are checked against different strings. *)
Theorem handshake_sound psk s c got :
  (VerifyAuth psk s c got = true <->
     nonces_ok s c /\ SignAuth psk s c = Ok got)
  /\ (VerifyAuthAck psk s c got = true <->
     nonces_ok s c /\ SignAuthAck psk s c = Ok got).
Proof.
  unfold VerifyAuth, VerifyAuthAck, SignAuth, SignAuthAck, verifyControl, controlMAC, nonces_ok.
  destruct (validNonce s), (validNonce c); simpl; rewrite ?bytes_eqb_eq;
    split; split; try naive_solver.
  all: intros ->; done.
Qed.

Lemma forallb_is_hex b : Forall (fun d => is_hex d = true) b -> forallb is_hex b = true.
Proof. induction 1 as [|x b Hx Hb IH]; simpl; [done |]. by rewrite Hx. Qed.

(** Every nonce the random source yields is one the peer accepts, and
    distinct random bytes give distinct nonces. *)
Theorem RandomNonce_valid r r' :
  all_bytes r -> all_bytes r' -> length r = 16%nat ->
  validNonce (RandomNonce r) = true /\ (RandomNonce r = RandomNonce r' -> r = r').
Proof.
  intros Hr Hr' Hl. unfold RandomNonce. split.
  - unfold validNonce. rewrite length_hexEncode, Hl. simpl.
    by apply forallb_is_hex, hexEncode_hex.
  - by apply hexEncode_inj.
Qed.

Lemma RandomNonce_valid_witness :
  validNonce (RandomNonce (replicate 16 171)) = true
  /\ (RandomNonce (replicate 16 171) = RandomNonce (replicate 16 171)
      -> replicate 16 171 = replicate 16 171).
Proof.
  assert (H : all_bytes (replicate 16 171)).
  { apply Forall_replicate. unfold is_byte. lia. }
  exact (RandomNonce_valid _ _ H H eq_refl).
Defined.
