(* ===== verification/Session.v ===== *)
(** * Control frames ([internal/proto/proto.go])

    Newline-delimited frames over a byte stream: the bounded line reader, the
    unauthenticated frames of the handshake, and the [Session] that numbers
    and authenticates every frame after it.

    JSON is the interface [EnvelopeCodec]: what the code relies on is that a
    marshalled envelope is one line and unmarshals to itself. *)

From S2P Require Import Prelude Bytes Sha256 Wire.

Definition newline : Z := 10.
Definition MaxFrameBytes : Z := Z.shiftl 1 20.

(** Message types. *)
Definition MsgChallenge : bytes := string_bytes "challenge".
Definition MsgAuth : bytes := string_bytes "auth".
Definition MsgAuthAck : bytes := string_bytes "auth_ack".
Definition MsgHello : bytes := string_bytes "hello".
Definition MsgConfig : bytes := string_bytes "config".
Definition MsgUsage : bytes := string_bytes "usage".
Definition MsgUsageAck : bytes := string_bytes "usage_ack".
Definition MsgLink : bytes := string_bytes "link".
Definition MsgPing : bytes := string_bytes "ping".
Definition MsgPong : bytes := string_bytes "pong".
Definition MsgLinkerConfig : bytes := string_bytes "linker_config".

Record Envelope := mkEnvelope {
  env_Type : bytes; env_Data : bytes; env_Seq : Z; env_MAC : bytes }.

Inductive frame_error :=
| ErrFrameTooLarge | ErrBadFrame | ErrJSON | ErrEOF | ErrWrite.

(** [encoding/json], for envelopes and for the payloads put in them.  An
    envelope is marshalled from a payload that was itself marshalled (or from
    none), on one line, and unmarshals to the same envelope. *)
Class EnvelopeCodec (P : Type) := {
  marshal_payload : P -> option bytes;
  marshal_env : Envelope -> option bytes;
  unmarshal_env : bytes -> option Envelope;
  json_roundtrip : forall e line,
    (env_Data e = [] \/ exists p, marshal_payload p = Some (env_Data e)) ->
    in_u64 (env_Seq e) ->
    marshal_env e = Some line -> unmarshal_env (line ++ [newline]) = Some e;
  json_one_line : forall e line, marshal_env e = Some line -> newline ∉ line }.

(** ** Reading lines *)

Fixpoint index_of (x : Z) (b : bytes) : option nat :=
  match b with
  | [] => None
  | y :: b => if y =? x then Some 0%nat
              else match index_of x b with Some i => Some (S i) | None => None end
  end.

Inductive slice_error := ErrBufferFull | SliceEOF.

(** [bufio.Reader.ReadSlice('\n')] with a buffer of [buf] bytes over what is
    left of the stream: the chunk, the rest, and why it stopped short. *)
Definition ReadSlice (buf : nat) (r : bytes) : bytes * bytes * option slice_error :=
  match index_of newline (take buf r) with
  | Some i => (take (S i) r, drop (S i) r, None)
  | None =>
      if (buf <=? length r)%nat then (take buf r, drop buf r, Some ErrBufferFull)
      else (r, [], Some SliceEOF)
  end.

(** [readLine]: chunks are gathered until the newline, and a line that outgrows
    [MaxFrameBytes] is refused as soon as it does. *)
Fixpoint readLine_loop (fuel buf : nat) (line r : bytes)
    : option (result frame_error bytes * bytes) :=
  match fuel with
  | O => None
  | S fuel =>
      let '(chunk, r, err) := ReadSlice buf r in
      if MaxFrameBytes <? Z.of_nat (length line + length chunk)
      then Some (Err ErrFrameTooLarge, r)
      else
        let line := line ++ chunk in
        match err with
        | None => Some (Ok line, r)
        | Some ErrBufferFull => readLine_loop fuel buf line r
        | Some SliceEOF => Some (Err ErrEOF, r)
        end
  end.

Definition bufSize : nat := Z.to_nat 4096.
Definition readLine (r : bytes) : option (result frame_error bytes * bytes) :=
  readLine_loop (S (length r)) bufSize [] r.

(** What [readLine] promises, without the buffering: the bytes up to the first
    newline when they fit, and the reason there are none otherwise. *)
Definition readLine_spec (line r : bytes) : result frame_error bytes :=
  match index_of newline r with
  | Some i => if MaxFrameBytes <? Z.of_nat (length line + S i) then Err ErrFrameTooLarge
              else Ok (line ++ take (S i) r)
  | None => if MaxFrameBytes <? Z.of_nat (length line + length r)
            then Err ErrFrameTooLarge else Err ErrEOF
  end.

Section frames.
Context {P : Type} `{!EnvelopeCodec P}.

(** The payload of a frame: [nil] leaves [Data] empty. *)
Definition frame_data (payload : option P) : option bytes :=
  match payload with None => Some [] | Some p => marshal_payload p end.

(** [WriteFrame]: what is put on the wire. *)
Definition WriteFrame (typ : bytes) (payload : option P) : result frame_error bytes :=
  match frame_data payload with
  | None => Err ErrJSON
  | Some data =>
      match marshal_env (mkEnvelope typ data 0 []) with
      | None => Err ErrJSON
      | Some line =>
          if MaxFrameBytes <? Z.of_nat (length line) + 1 then Err ErrFrameTooLarge
          else Ok (line ++ [newline])
      end
  end.

(** [ReadFrame]: the envelope and what is left of the stream. *)
Definition ReadFrame (r : bytes) : option (result frame_error Envelope * bytes) :=
  match readLine r with
  | None => None
  | Some (Err e, r) => Some (Err e, r)
  | Some (Ok line, r) =>
      match unmarshal_env line with
      | None => Some (Err ErrJSON, r)
      | Some env => Some (Ok env, r)
      end
  end.
End frames.

(** ** Sessions *)

Record Session := mkSession {
  s_key : bytes; s_txLabel : bytes; s_rxLabel : bytes; s_tx : Z; s_rx : Z }.

(** [NewSession]. *)
Definition NewSession (psk serverNonce clientNonce : bytes) (dialler : bool)
    : result nonce_error Session :=
  if negb (validNonce serverNonce) || negb (validNonce clientNonce) then Err ErrBadNonce
  else
    let key := sessionKey psk serverNonce clientNonce in
    Ok (if dialler then mkSession key frameToServer frameToClient 0 0
        else mkSession key frameToClient frameToServer 0 0).

Definition set_tx (n : Z) (s : Session) : Session :=
  mkSession (s_key s) (s_txLabel s) (s_rxLabel s) n (s_rx s).
Definition set_rx (n : Z) (s : Session) : Session :=
  mkSession (s_key s) (s_txLabel s) (s_rxLabel s) (s_tx s) n.

Section session.
Context {P : Type} `{!EnvelopeCodec P}.

(** [Session.WriteFrame]: the bytes written, if any, and the session after.
    [sent] is whether the connection took them; the sequence number advances
    only then. *)
Definition Session_WriteFrame (sent : bool) (typ : bytes) (payload : option P) (s : Session)
    : result frame_error bytes * Session :=
  match frame_data payload with
  | None => (Err ErrJSON, s)
  | Some data =>
      let mac := frameMAC (s_key s) (s_txLabel s) (s_tx s) typ data in
      match marshal_env (mkEnvelope typ data (s_tx s) mac) with
      | None => (Err ErrJSON, s)
      | Some line =>
          if MaxFrameBytes <? Z.of_nat (length line) + 1 then (Err ErrFrameTooLarge, s)
          else if negb sent then (Err ErrWrite, s)
          else (Ok (line ++ [newline]), set_tx (u64 (s_tx s + 1)) s)
      end
  end.

(** [Session.ReadFrame]: the envelope, what is left of the stream, and the
    session after. *)
Definition Session_ReadFrame (r : bytes) (s : Session)
    : option (result frame_error Envelope * bytes * Session) :=
  match readLine r with
  | None => None
  | Some (Err e, r) => Some (Err e, r, s)
  | Some (Ok line, r) =>
      match unmarshal_env line with
      | None => Some (Err ErrJSON, r, s)
      | Some env =>
          if negb (env_Seq env =? s_rx s) then Some (Err ErrBadFrame, r, s)
          else
            let want := frameMAC (s_key s) (s_rxLabel s) (env_Seq env)
                          (env_Type env) (env_Data env) in
            if negb (bytes_eqb want (env_MAC env)) then Some (Err ErrBadFrame, r, s)
            else Some (Ok env, r, set_rx (u64 (s_rx s + 1)) s)
      end
  end.

(** Read [n] frames, stopping at the first error. *)
Fixpoint read_frames (n : nat) (r : bytes) (s : Session)
    : option (list Envelope * bytes * Session) :=
  match n with
  | O => Some ([], r, s)
  | S n =>
      match Session_ReadFrame r s with
      | Some (Ok env, r, s) =>
          match read_frames n r s with
          | Some (envs, r, s) => Some (env :: envs, r, s)
          | None => None
          end
      | _ => None
      end
  end.

(** Write a list of messages, every one of which must go out. *)
Fixpoint write_frames (ms : list (bytes * option P)) (s : Session)
    : option (bytes * Session) :=
  match ms with
  | [] => Some ([], s)
  | (typ, payload) :: ms =>
      match Session_WriteFrame true typ payload s with
      | (Ok out, s) =>
          match write_frames ms s with
          | Some (rest, s) => Some (out ++ rest, s)
          | None => None
          end
      | (Err _, _) => None
      end
  end.
End session.

(** ** The line reader *)

Lemma index_of_some x b i : index_of x b = Some i ->
  (i < length b)%nat /\ b !! i = Some x /\ x ∉ take i b.
Proof.
  revert i. induction b as [|y b IH]; intros i; simpl; [done |].
  destruct (Z.eqb_spec y x) as [-> | Hne].
  - intros [= <-]. simpl. split; [lia |]. split; [done | set_solver].
  - destruct (index_of x b) as [j|] eqn:E; [| done]. intros [= <-].
    destruct (IH j eq_refl) as (H1 & H2 & H3). simpl. split; [lia |]. split; [done |].
    rewrite not_elem_of_cons. auto.
Qed.

Lemma index_of_none x b : index_of x b = None <-> x ∉ b.
Proof.
  induction b as [|y b IH]; simpl; [set_solver |].
  destruct (Z.eqb_spec y x) as [-> | Hne]; [set_solver |].
  destruct (index_of x b) as [i|]; rewrite not_elem_of_cons.
  - split; [done |]. intros [_ H]. by apply IH in H.
  - split; [intros _ | done]. split; [congruence | by apply IH].
Qed.

Lemma index_of_app_r x a b : x ∉ a ->
  index_of x (a ++ b) = match index_of x b with Some i => Some (length a + i)%nat | None => None end.
Proof.
  intros Ha. induction a as [|y a IH]; simpl; [by destruct (index_of x b) |].
  apply not_elem_of_cons in Ha as [Hy Ha].
  destruct (Z.eqb_spec y x); [congruence |]. rewrite IH by done. by destruct (index_of x b).
Qed.

Lemma index_of_app_l x a b i : index_of x a = Some i -> index_of x (a ++ b) = Some i.
Proof.
  revert i. induction a as [|y a IH]; intros i; simpl; [done |].
  destruct (y =? x); [done |]. destruct (index_of x a) as [j|] eqn:E; [| done].
  intros [= <-]. by rewrite (IH j).
Qed.

Lemma readLine_loop_spec buf : (0 < buf)%nat -> forall fuel line r,
  (length r < fuel)%nat ->
  exists rest, readLine_loop fuel buf line r = Some (readLine_spec line r, rest)
    /\ forall l, readLine_spec line r = Ok l -> line ++ r = l ++ rest.
Proof.
  intros Hbuf fuel. induction fuel as [|fuel IH]; intros line r Hf; [lia |].
  simpl. unfold ReadSlice. destruct (index_of newline (take buf r)) as [i|] eqn:Ei.
  - pose proof (index_of_some _ _ _ Ei) as (Hi & _ & _). rewrite length_take in Hi.
    apply (index_of_app_l _ _ (drop buf r)) in Ei. rewrite take_drop in Ei.
    unfold readLine_spec. rewrite Ei, length_take, Nat.min_l by lia.
    exists (drop (S i) r). destruct (_ <? _) eqn:E; [by split |].
    split; [done |]. intros l [= <-]. by rewrite <- app_assoc, take_drop.
  - apply index_of_none in Ei. destruct (Nat.leb_spec buf (length r)).
    + assert (Hidx : index_of newline r = match index_of newline (drop buf r) with
                | Some j => Some (buf + j)%nat | None => None end).
      { rewrite <- (take_drop buf r) at 1. rewrite index_of_app_r by done.
        by rewrite length_take, Nat.min_l by lia. }
      assert (Hspec : MaxFrameBytes < Z.of_nat (length line + buf) ->
                readLine_spec line r = Err ErrFrameTooLarge).
      { intros Hbig. unfold readLine_spec.
        rewrite Hidx. destruct (index_of newline (drop buf r)) as [j|];
          rewrite (proj2 (Z.ltb_lt _ _)); try done; lia. }
      rewrite length_take, Nat.min_l by lia.
      destruct (_ <? _) eqn:E; bool_to_prop.
      * rewrite Hspec by done. eexists. by split.
      * destruct (IH (line ++ take buf r) (drop buf r)) as (rest & H1 & H2);
          [rewrite length_drop; lia |].
        assert (Heq : readLine_spec line r = readLine_spec (line ++ take buf r) (drop buf r)).
        { unfold readLine_spec. rewrite Hidx.
          rewrite !length_app, !length_take, !length_drop, Nat.min_l by lia.
          destruct (index_of newline (drop buf r)) as [j|].
          - replace (length line + S (buf + j))%nat with (length line + buf + S j)%nat by lia.
            destruct (_ <? _); [done |]. f_equal. rewrite <- app_assoc. f_equal.
            rewrite <- (take_drop buf r) at 1.
            rewrite take_app_ge by (rewrite length_take; lia).
            rewrite length_take, Nat.min_l by lia. do 2 f_equal. lia.
          - by replace (length line + length r)%nat
              with (length line + buf + (length r - buf))%nat by lia. }
        rewrite Heq. exists rest. split; [done |]. intros l Hl.
        apply H2 in Hl. by rewrite <- app_assoc, take_drop in Hl.
    + rewrite take_ge in Ei by lia. apply index_of_none in Ei.
      unfold readLine_spec. rewrite Ei. exists [].
      destruct (_ <? _); by split.
Qed.

(** The line reader is exact and bounded whatever the size of the buffer
    under it: it always answers; it returns the bytes up to and including the
    first newline, leaving the rest of the stream, when they are at most
    [MaxFrameBytes]; it refuses a longer line as too large; and a stream that
    ends first is the end of the stream. *)
Theorem readLine_exact r :
  exists rest, readLine r = Some (readLine_spec [] r, rest)
    /\ forall l, readLine_spec [] r = Ok l -> r = l ++ rest.
Proof. apply (readLine_loop_spec bufSize); unfold bufSize; lia. Qed.

Lemma readLine_one line rest :
  newline ∉ line -> Z.of_nat (length line) + 1 <= MaxFrameBytes ->
  readLine ((line ++ [newline]) ++ rest) = Some (Ok (line ++ [newline]), rest).
Proof.
  intros Hnl Hlen.
  destruct (readLine_loop_spec bufSize ltac:(unfold bufSize; lia)
    (S (length ((line ++ [newline]) ++ rest))) [] ((line ++ [newline]) ++ rest)
    ltac:(lia)) as (rest' & H1 & H2).
  assert (Hs : readLine_spec [] ((line ++ [newline]) ++ rest) = Ok (line ++ [newline])).
  { unfold readLine_spec. rewrite <- app_assoc, index_of_app_r by done. simpl.
    rewrite Nat.add_0_r. rewrite (proj2 (Z.ltb_ge _ _)) by lia.
    f_equal. replace (S (length line)) with (length (line ++ [newline]))
      by (rewrite length_app; simpl; lia).
    change (newline :: rest) with ([newline] ++ rest).
    rewrite app_assoc. apply take_app_length. }
  unfold readLine. rewrite H1, Hs. rewrite Hs in H2.
  specialize (H2 _ eq_refl). simpl in H2. apply app_inv_head in H2 as <-. done.
Qed.

(** ** Sessions, end to end *)

Section theorems.
Context {P : Type} `{!EnvelopeCodec P}.

(** The two ends of a connection, as far as one direction goes. *)
Definition in_step (w r : Session) : Prop :=
  s_key w = s_key r /\ s_txLabel w = s_rxLabel r /\ s_tx w = s_rx r /\ in_u64 (s_tx w).

Lemma frame_data_marshalled payload data :
  frame_data payload = Some data ->
  data = [] \/ exists p : P, marshal_payload p = Some data.
Proof. destruct payload; simpl; [eauto | intros [= <-]; auto]. Qed.

Lemma write_read_one typ payload w w' rd out rest :
  in_step w rd ->
  Session_WriteFrame true typ payload w = (Ok out, w') ->
  exists env rd', Session_ReadFrame (out ++ rest) rd = Some (Ok env, rest, rd')
    /\ env_Type env = typ /\ frame_data payload = Some (env_Data env) /\ in_step w' rd'.
Proof.
  intros (Hk & Hl & Hn & Hu) H. unfold Session_WriteFrame in H.
  destruct (frame_data payload) as [data|] eqn:Hd; [| discriminate].
  set (env := mkEnvelope _ _ _ _) in H.
  destruct (marshal_env env) as [line|] eqn:Hm; [| discriminate].
  destruct (_ <? _) eqn:Hsz; [discriminate |]. simpl in H. injection H as <- <-.
  bool_to_prop. exists env, (set_rx (u64 (s_rx rd + 1)) rd).
  unfold Session_ReadFrame. rewrite readLine_one;
    [| by apply json_one_line in Hm | lia].
  rewrite (json_roundtrip env line); [| by apply (frame_data_marshalled payload) | done | done].
  unfold env; simpl. rewrite Hn, Z.eqb_refl, <- Hk, <- Hl. simpl.
  rewrite (proj2 (bytes_eqb_eq _ _)) by done. simpl.
  split; [done |]. split; [done |]. split; [done |].
  unfold in_step; simpl. auto with go.
Qed.

(** Frames arrive: whatever one end of a session writes, the other end
    reads back, frame by frame, in order, with the types and data that were
    sent and nothing left over, and the two ends stay in step. *)
Theorem session_roundtrip ms : forall w w' rd out rest,
  in_step w rd ->
  write_frames ms w = Some (out, w') ->
  exists envs rd', read_frames (length ms) (out ++ rest) rd = Some (envs, rest, rd')
    /\ Forall2 (fun m env => env_Type env = m.1 /\ frame_data m.2 = Some (env_Data env)) ms envs
    /\ in_step w' rd'.
Proof.
  induction ms as [|[typ payload] ms IH]; intros w w' rd out rest Hin H; simpl in *.
  - injection H as <- <-. exists [], rd. by split_and!.
  - destruct (Session_WriteFrame true typ payload w) as [[o|e] w1] eqn:E; [| discriminate].
    destruct (write_frames ms w1) as [[o' w2]|] eqn:E2; [| discriminate].
    injection H as <- <-.
    destruct (write_read_one _ _ _ _ _ _ (o' ++ rest) Hin E) as (env & rd1 & H1 & H2 & H3 & H4).
    destruct (IH _ _ _ _ rest H4 E2) as (envs & rd2 & H5 & H6 & H7).
    exists (env :: envs), rd2. rewrite <- app_assoc, H1, H5.
    split_and!; [done | by constructor | done].
Qed.

Lemma Session_ReadFrame_ok r s env rest s' :
  Session_ReadFrame r s = Some (Ok env, rest, s') ->
  env_Seq env = s_rx s
  /\ env_MAC env = frameMAC (s_key s) (s_rxLabel s) (s_rx s) (env_Type env) (env_Data env)
  /\ s' = set_rx (u64 (s_rx s + 1)) s.
Proof.
  unfold Session_ReadFrame. intros H.
  destruct (readLine r) as [[[line|e] r']|]; try discriminate.
  destruct (unmarshal_env line) as [env'|]; [| discriminate].
  destruct (Z.eqb_spec (env_Seq env') (s_rx s)) as [Hs|]; [| discriminate].
  destruct (bytes_eqb _ _) eqn:Hm; [| discriminate]. simpl in H.
  injection H as <- <- <-. apply bytes_eqb_eq in Hm. by rewrite <- Hs, <- Hm.
Qed.

(** No replay, no reordering, no injection: whatever bytes a peer or an
    attacker puts on the stream, the frames a session accepts carry exactly
    the consecutive sequence numbers from the one expected on, each
    authenticated under the session key and this direction's label at that
    number. *)
Theorem session_accepts_in_order n : forall r s envs rest s',
  read_frames n r s = Some (envs, rest, s') ->
  0 <= s_rx s -> s_rx s + Z.of_nat n <= MaxUint64 ->
  (forall i env, envs !! i = Some env ->
     env_Seq env = s_rx s + Z.of_nat i
     /\ env_MAC env = frameMAC (s_key s) (s_rxLabel s) (s_rx s + Z.of_nat i)
          (env_Type env) (env_Data env))
  /\ length envs = n /\ s_rx s' = s_rx s + Z.of_nat n.
Proof.
  induction n as [|n IH]; intros r s envs rest s' H H0 Hmax; simpl in H.
  - injection H as <- <- <-. split; [by intros i env Hi |]. simpl. split; [done | lia].
  - destruct (Session_ReadFrame r s) as [[[[env|e] r1] s1]|] eqn:E; try discriminate.
    destruct (read_frames n r1 s1) as [[[envs1 r2] s2]|] eqn:E2; [| discriminate].
    injection H as <- <- <-.
    apply Session_ReadFrame_ok in E as (Hs & Hm & ->).
    assert (Hu : u64 (s_rx s + 1) = s_rx s + 1) by (apply u64_id; go_lia).
    apply IH in E2 as (H1 & H2 & H3); cbn [s_rx set_rx] in *; rewrite Hu in *; [| lia | lia].
    split; [| split; [simpl; by rewrite H2 | rewrite H3; lia]].
    intros [|i] env' Hi; simpl in Hi.
    + injection Hi as <-. by rewrite Z.add_0_r.
    + apply H1 in Hi as [-> ->]. split; [lia |]. f_equal. lia.
Qed.

(** A session never accepts its own words back: what an end signs when
    it writes and what it requires of a frame it reads are authenticated
    strings of different directions, so they are different strings at every
    sequence number, type and payload. *)
Theorem session_no_reflection psk sn cn dialler s seq typ data seq' typ' data' :
  NewSession psk sn cn dialler = Ok s ->
  mac_input_ok (InFrame dialler seq typ data) ->
  mac_input_ok (InFrame (negb dialler) seq' typ' data') ->
  frame_input (s_txLabel s) seq typ data <> frame_input (s_rxLabel s) seq' typ' data'.
Proof.
  intros H Hok Hok' Heq. unfold NewSession in H.
  destruct (negb (validNonce sn) || negb (validNonce cn)); [discriminate |].
  injection H as <-.
  assert (Hl : frame_input (frameLabel dialler) seq typ data
            = frame_input (frameLabel (negb dialler)) seq' typ' data').
  { destruct dialler; exact Heq. }
  apply frame_input_inj in Hl as [Hd _]; [by destruct dialler | done | done].
Qed.
End theorems.

(** ** A concrete codec

    Length-prefixed fields in hexadecimal: an instance of the interface that
    computes, on which the theorems above are exercised. *)

Module HexCodec.
Definition field (b : bytes) : bytes := put_be 8 (Z.of_nat (length b)) ++ b.
Definition take_field (b : bytes) : bytes * bytes :=
  let n := Z.to_nat (get_be (take 8 b)) in (take n (drop 8 b), drop n (drop 8 b)).

Definition field_ok (b : bytes) : bool :=
  forallb byte_ok b && (Z.of_nat (length b) <=? MaxUint64).

Definition encode (e : Envelope) : option bytes :=
  if field_ok (env_Type e) && field_ok (env_Data e) && field_ok (env_MAC e)
  then Some (hexEncode (field (env_Type e) ++ field (env_Data e)
                        ++ field (env_MAC e) ++ put_be 8 (env_Seq e)))
  else None.

Definition decode (line : bytes) : option Envelope :=
  match hexDecode (take (length line - 1) line) with
  | None => None
  | Some b =>
      let '(typ, b) := take_field b in
      let '(data, b) := take_field b in
      let '(mac, b) := take_field b in
      Some (mkEnvelope typ data (get_be b) mac)
  end.

Lemma forallb_bytes b : forallb byte_ok b = true -> all_bytes b.
Proof.
  intros H. apply Forall_forall. intros x Hx. apply list_elem_of_In in Hx.
  rewrite forallb_forall in H. apply H in Hx. unfold byte_ok in Hx. bool_to_prop.
  unfold is_byte. lia.
Qed.

Lemma field_bytes b : all_bytes b -> all_bytes (field b).
Proof. intros H. apply Forall_app_2; [apply put_be_bytes | done]. Qed.

Lemma take_field_ok b rest :
  Z.of_nat (length b) <= MaxUint64 -> take_field (field b ++ rest) = (b, rest).
Proof.
  intros H. unfold take_field, field. rewrite <- !app_assoc.
  rewrite take_app_length', drop_app_length' by (by rewrite length_put_be).
  rewrite get_be_put_id by (apply u64_pow; go_lia).
  rewrite Nat2Z.id, take_app_length, drop_app_length. done.
Qed.

Lemma roundtrip e line :
  (env_Data e = [] \/ exists p : bytes, Some p = Some (env_Data e)) ->
  in_u64 (env_Seq e) ->
  encode e = Some line -> decode (line ++ [newline]) = Some e.
Proof.
  intros _ Hs H. unfold encode in H.
  destruct (field_ok (env_Type e)) eqn:E1; [| discriminate].
  destruct (field_ok (env_Data e)) eqn:E2; [| discriminate].
  destruct (field_ok (env_MAC e)) eqn:E3; [| discriminate].
  cbn [andb] in H. apply (inj Some) in H. subst line. unfold field_ok in *. bool_to_prop.
  unfold decode. rewrite length_app. change (length [newline]) with 1%nat.
  rewrite Nat.add_sub, take_app_length, hexDecode_Encode.
  - rewrite !take_field_ok by done. rewrite get_be_put_id by (by apply u64_pow).
    by destruct e.
  - repeat apply Forall_app_2; auto using field_bytes, forallb_bytes, put_be_bytes.
Qed.

Lemma one_line e line : encode e = Some line -> newline ∉ line.
Proof.
  intros H Hin. unfold encode in H.
  destruct (field_ok (env_Type e)) eqn:E1; [| discriminate].
  destruct (field_ok (env_Data e)) eqn:E2; [| discriminate].
  destruct (field_ok (env_MAC e)) eqn:E3; [| discriminate].
  cbn [andb] in H. apply (inj Some) in H. subst line. unfold field_ok in *. bool_to_prop.
  assert (Hh : Forall (fun d => is_hex d = true)
    (hexEncode (field (env_Type e) ++ field (env_Data e)
                ++ field (env_MAC e) ++ put_be 8 (env_Seq e)))).
  { apply hexEncode_hex.
    repeat apply Forall_app_2; auto using field_bytes, forallb_bytes, put_be_bytes. }
  rewrite Forall_forall in Hh. apply Hh in Hin. discriminate.
Qed.

#[export] Instance codec : EnvelopeCodec bytes := {
  marshal_payload := fun p => Some p;
  marshal_env := encode;
  unmarshal_env := decode;
  json_roundtrip := roundtrip;
  json_one_line := one_line }.
End HexCodec.

#[local] Existing Instance HexCodec.codec.

Definition demo_session (dialler : bool) : Session :=
  match NewSession [1; 2; 3; 4] nonce_a nonce_b dialler with
  | Ok s => s
  | Err _ => mkSession [] [] [] 0 0
  end.

Definition demo_frames : list (bytes * option bytes) :=
  [(MsgPing, None); (MsgHello, Some [5; 6; 7]); (MsgUsage, Some [0; 255])].

Lemma session_roundtrip_witness :
  exists out w', write_frames demo_frames (demo_session true)
      = Some (out, w')
    /\ exists envs rd', read_frames 3
          (out ++ []) (demo_session false) = Some (envs, [], rd')
        /\ Forall2 (fun m env => env_Type env = m.1 /\ frame_data m.2 = Some (env_Data env))
             demo_frames envs
        /\ in_step w' rd'.
Proof.
  destruct (write_frames demo_frames (demo_session true)) as [[out w']|] eqn:E.
  - exists out, w'. split; [reflexivity |].
    apply (session_roundtrip demo_frames (demo_session true) w' (demo_session false) out []).
    + split_and!; try (vm_compute; reflexivity).
      split; vm_compute; discriminate.
    + exact E.
  - exfalso. revert E. vm_compute. discriminate.
Defined.

Definition demo_wire : bytes :=
  match write_frames demo_frames (demo_session true) with
  | Some (out, _) => out
  | None => []
  end.

Lemma session_accepts_in_order_witness :
  exists envs rest s',
    read_frames 3 demo_wire (demo_session false)
      = Some (envs, rest, s')
    /\ ((forall i env, envs !! i = Some env ->
       env_Seq env = 0 + Z.of_nat i
       /\ env_MAC env = frameMAC (s_key (demo_session false)) (s_rxLabel (demo_session false))
            (0 + Z.of_nat i) (env_Type env) (env_Data env))
      /\ length envs = 3%nat /\ s_rx s' = 0 + Z.of_nat 3).
Proof.
  destruct (read_frames 3 demo_wire (demo_session false)) as [[[envs rest] s']|] eqn:E.
  - exists envs, rest, s'. split; [reflexivity |].
    apply (session_accepts_in_order 3 demo_wire (demo_session false) envs rest s' E);
      vm_compute; discriminate.
  - exfalso. revert E. vm_compute. discriminate.
Defined.

Lemma session_no_reflection_witness :
  frame_input (s_txLabel (demo_session true)) 0 MsgPing []
  <> frame_input (s_rxLabel (demo_session true)) 0 MsgPing [].
Proof.
  apply (session_no_reflection [1; 2; 3; 4] nonce_a nonce_b true (demo_session true)).
  - vm_compute. reflexivity.
  - unfold mac_input_ok, in_u64. split_and!; vm_compute; discriminate.
  - unfold mac_input_ok, in_u64. split_and!; vm_compute; discriminate.
Defined.
