(* ===== verification/Prober.v ===== *)
(** * The prober ([internal/engine/prober.go])

    One path's probes: what was sent and is unanswered ([pending]), what was
    answered or lost and not yet reported ([resolved]), and the sequence
    number to report next ([deliver]).  Results must reach the tracker in the
    order the probes were sent, each exactly once, because it counts
    consecutive losses.  The operations take the clock reading and the random
    nonce the code obtains, and [run_op] is one turn of the prober's loop. *)

From S2P Require Import Prelude GoTime Model Bytes Wire.

Record Result := mkResult {
  r_PathID : Z; r_Seq : Z; r_RTT : Duration; r_Lost : bool; r_At : Time }.

Record pendingProbe := mkPending { pp_sent : Time; pp_nonce : Z }.

Record Prober := mkProber {
  pb_path : PathConfig;
  pb_cfg : ProbeConfig;
  pb_seq : Z;
  pb_pending : gmap Z pendingProbe;
  pb_resolved : gmap Z Result;
  pb_deliver : Z;
  pb_active : bool;
  pb_nudge : bool }.

Definition set_seq (n : Z) (p : Prober) : Prober :=
  mkProber (pb_path p) (pb_cfg p) n (pb_pending p) (pb_resolved p) (pb_deliver p)
    (pb_active p) (pb_nudge p).
Definition set_pending (m : gmap Z pendingProbe) (p : Prober) : Prober :=
  mkProber (pb_path p) (pb_cfg p) (pb_seq p) m (pb_resolved p) (pb_deliver p)
    (pb_active p) (pb_nudge p).
Definition set_resolved (m : gmap Z Result) (p : Prober) : Prober :=
  mkProber (pb_path p) (pb_cfg p) (pb_seq p) (pb_pending p) m (pb_deliver p)
    (pb_active p) (pb_nudge p).
Definition set_deliver (n : Z) (p : Prober) : Prober :=
  mkProber (pb_path p) (pb_cfg p) (pb_seq p) (pb_pending p) (pb_resolved p) n
    (pb_active p) (pb_nudge p).

Definition seqSeedBits : Z := 62.

(** [seedSeq], given the nonce the random source produced. *)
Definition seedSeq (nonce : Z) : Z := Z.land nonce (Z.shiftl 1 seqSeedBits - 1).

(** [NewProber], past the address resolution. *)
Definition NewProber (path : PathConfig) (cfg : ProbeConfig) (nonce : Z) : Prober :=
  let seq := seedSeq nonce in
  mkProber path cfg seq ∅ ∅ (u64 (seq + 1)) false false.

(** [Nudge] and [SetActive]. *)
Definition Nudge (p : Prober) : Prober :=
  mkProber (pb_path p) (pb_cfg p) (pb_seq p) (pb_pending p) (pb_resolved p) (pb_deliver p)
    (pb_active p) true.
Definition SetActive (active : bool) (p : Prober) : Prober :=
  mkProber (pb_path p) (pb_cfg p) (pb_seq p) (pb_pending p) (pb_resolved p) (pb_deliver p)
    active (pb_nudge p).

(** [interval]: the cadence for the path's present role. *)
Definition interval (p : Prober) : Duration :=
  if pb_active p then dmul (probe_ActiveIntervalMs (pb_cfg p)) Millisecond
  else dmul (probe_StandbyIntervalMs (pb_cfg p)) Millisecond.

(** [markLost]. *)
Definition markLost (now : Time) (seq : Z) (p : Prober) : Prober :=
  set_resolved (<[seq := mkResult (path_ID (pb_path p)) seq 0 true now]> (pb_resolved p))
    (set_pending (delete seq (pb_pending p)) p).

(** [send]: the probe put on the wire, its number, and the prober after. *)
Definition send (decision : Z * Z) (now : Time) (nonce : Z) (p : Prober) : Probe * Z * Prober :=
  let seq := u64 (pb_seq p + 1) in
  let p := set_seq seq p in
  let p := set_pending (<[seq := mkPending now nonce]> (pb_pending p)) p in
  (mkProbe TypeProbe (u16 (path_ID (pb_path p))) seq (now - unixToInternal * Second) 0
     decision.1 decision.2 nonce, seq, p).

(** [resolve]: whether a reply was accepted, and the prober after. *)
Definition resolve (msg : Probe) (now : Time) (p : Prober) : bool * Prober :=
  if negb (pr_Type msg =? TypeReply) || negb (pr_PathID msg =? u16 (path_ID (pb_path p)))
  then (false, p)
  else
    match pb_pending p !! pr_Seq msg with
    | None => (false, p)
    | Some entry =>
        if negb (pp_nonce entry =? pr_Nonce msg) then (false, p)
        else
          let p := set_pending (delete (pr_Seq msg) (pb_pending p)) p in
          (true, set_resolved
             (<[pr_Seq msg := mkResult (path_ID (pb_path p)) (pr_Seq msg)
                                (Sub now (pp_sent entry)) false now]> (pb_resolved p)) p)
    end.

(** [expire]: every probe unanswered for longer than the timeout is lost. *)
Definition expired (cutoff : Time) (e : pendingProbe) : bool := Before (pp_sent e) cutoff.

Definition expire (now : Time) (p : Prober) : Prober :=
  let timeout := dmul (probe_TimeoutMs (pb_cfg p)) Millisecond in
  let cutoff := Add now (i64 (- timeout)) in
  fold_left
    (fun p kv => if expired cutoff (kv : Z * pendingProbe).2 then markLost now kv.1 p else p)
    (map_to_list (pb_pending p)) p.

(** [flush]: what is reported to the tracker, and the prober after.  [None] is
    an exhausted fuel. *)
Fixpoint flush_loop (fuel : nat) (p : Prober) : option (list Result * Prober) :=
  match fuel with
  | O => None
  | S fuel =>
      match pb_resolved p !! pb_deliver p with
      | None =>
          if bool_decide (pb_pending p !! pb_deliver p = None) && (pb_deliver p <? pb_seq p)
          then flush_loop fuel (set_deliver (u64 (pb_deliver p + 1)) p)
          else Some ([], p)
      | Some r =>
          let p := set_resolved (delete (pb_deliver p) (pb_resolved p)) p in
          let p := set_deliver (u64 (pb_deliver p + 1)) p in
          match flush_loop fuel p with
          | Some (rs, p) => Some (r :: rs, p)
          | None => None
          end
      end
  end.

Definition flush (p : Prober) : option (list Result * Prober) :=
  flush_loop (Z.to_nat (pb_seq p - pb_deliver p + 2)) p.

(** ** The loop *)

Inductive op :=
| OpSend (decision : Z * Z) (now : Time) (nonce : Z) (sent : bool)
| OpReply (msg : Probe) (now : Time)
| OpSweep (now : Time)
| OpUnreachable (now : Time)
| OpSetActive (active : bool)
| OpNudge.

(** One turn: what is reported, and the prober after.  A failed send is booked
    as a loss at once ([sendFailed]); a sweep is [expire] then [flush], which
    is also what [hold] does between attempts; [reportUnreachable] spends a
    number on a probe that could not be sent. *)
Definition run_op (o : op) (p : Prober) : option (list Result * Prober) :=
  match o with
  | OpSend decision now nonce sent =>
      let '(_, seq, p) := send decision now nonce p in
      if sent then Some ([], p) else flush (markLost now seq p)
  | OpReply msg now => Some ([], (resolve msg now p).2)
  | OpSweep now => flush (expire now p)
  | OpUnreachable now =>
      match flush (expire now p) with
      | None => None
      | Some (rs, p) =>
          let p := set_seq (u64 (pb_seq p + 1)) p in
          match flush (markLost now (pb_seq p) p) with
          | Some (rs', p) => Some (rs ++ rs', p)
          | None => None
          end
      end
  | OpSetActive a => Some ([], SetActive a p)
  | OpNudge => Some ([], Nudge p)
  end.

Fixpoint run_ops (os : list op) (p : Prober) : option (list Result * Prober) :=
  match os with
  | [] => Some ([], p)
  | o :: os =>
      match run_op o p with
      | None => None
      | Some (rs, p) =>
          match run_ops os p with
          | Some (rs', p) => Some (rs ++ rs', p)
          | None => None
          end
      end
  end.

(** ** The invariant

    Every number from [deliver] to [seq] is either pending or resolved, none
    is both, and nothing outside that span is either. *)

Record prober_inv (p : Prober) : Prop := {
  pi_span : forall k, (is_Some (pb_pending p !! k) \/ is_Some (pb_resolved p !! k))
              <-> pb_deliver p <= k <= pb_seq p;
  pi_disjoint : forall k, is_Some (pb_pending p !! k) -> pb_resolved p !! k = None;
  pi_seq : forall k r, pb_resolved p !! k = Some r ->
             r_Seq r = k /\ r_PathID r = path_ID (pb_path p);
  pi_next : pb_deliver p <= pb_seq p + 1;
  pi_nonneg : 0 <= pb_deliver p }.

(** What a turn reports: the consecutive numbers it advanced [deliver] over. *)
Definition reports (p : Prober) (rs : list Result) (p' : Prober) : Prop :=
  r_Seq <$> rs = seqZ (pb_deliver p) (Z.of_nat (length rs))
  /\ pb_deliver p' = pb_deliver p + Z.of_nat (length rs)
  /\ Forall (fun r => r_PathID r = path_ID (pb_path p)) rs
  /\ pb_path p' = pb_path p /\ pb_seq p <= pb_seq p' <= pb_seq p + 1
  /\ pb_cfg p' = pb_cfg p.

Lemma reports_nil p p' :
  pb_deliver p' = pb_deliver p -> pb_path p' = pb_path p ->
  pb_seq p <= pb_seq p' <= pb_seq p + 1 -> pb_cfg p' = pb_cfg p -> reports p [] p'.
Proof. intros. unfold reports. simpl. split_and!; done || lia. Qed.

Lemma span_cases p k : prober_inv p -> pb_deliver p <= k <= pb_seq p ->
  is_Some (pb_pending p !! k) \/ is_Some (pb_resolved p !! k).
Proof. intros Hinv. apply (pi_span p Hinv). Qed.

Lemma markLost_inv now k p :
  prober_inv p -> pb_deliver p <= k <= pb_seq p -> prober_inv (markLost now k p).
Proof.
  intros [Hs Hd Hq Hn H0] Hk. split; simpl; try done.
  - intros j. destruct (decide (j = k)) as [-> | Hj].
    + rewrite lookup_insert_eq. split; [done |]. intros _. right. eauto.
    + rewrite lookup_delete_ne, lookup_insert_ne by done. apply Hs.
  - intros j. destruct (decide (j = k)) as [-> | Hj].
    + rewrite lookup_delete_eq. intros [? ?]. done.
    + rewrite lookup_delete_ne, lookup_insert_ne by done. apply Hd.
  - intros j r. destruct (decide (j = k)) as [-> | Hj].
    + rewrite lookup_insert_eq. by intros [= <-].
    + rewrite lookup_insert_ne by done. apply Hq.
Qed.

(** The prober after the next number was given to a fresh probe. *)
Lemma send_inv decision now nonce p :
  prober_inv p -> pb_seq p < MaxUint64 ->
  prober_inv (send decision now nonce p).2
  /\ (send decision now nonce p).1.2 = pb_seq p + 1
  /\ pb_seq (send decision now nonce p).2 = pb_seq p + 1.
Proof.
  intros [Hs Hd Hq Hn H0] Hmax.
  assert (Hu : u64 (pb_seq p + 1) = pb_seq p + 1) by (apply u64_id; go_lia).
  unfold send; simpl; rewrite Hu. split; [| done].
  assert (Hfresh : pb_pending p !! (pb_seq p + 1) = None
            /\ pb_resolved p !! (pb_seq p + 1) = None).
  { specialize (Hs (pb_seq p + 1)).
    destruct (pb_pending p !! (pb_seq p + 1)), (pb_resolved p !! (pb_seq p + 1));
      try done; exfalso; destruct Hs as [Hs _];
      (assert (pb_deliver p <= pb_seq p + 1 <= pb_seq p); [apply Hs; eauto | lia]). }
  split; simpl; try done; try lia.
  - intros j. destruct (decide (j = pb_seq p + 1)) as [-> | Hj].
    + rewrite lookup_insert_eq. split; [lia | eauto].
    + rewrite lookup_insert_ne by done. rewrite Hs. lia.
  - intros j. destruct (decide (j = pb_seq p + 1)) as [-> | Hj].
    + intros _. apply Hfresh.
    + rewrite lookup_insert_ne by done. apply Hd.
Qed.

Lemma resolve_inv msg now p : prober_inv p -> prober_inv (resolve msg now p).2.
Proof.
  intros Hinv. unfold resolve.
  destruct (_ || _); [done |].
  destruct (pb_pending p !! pr_Seq msg) as [e|] eqn:E; [| done].
  destruct (negb _); [done |]. simpl.
  assert (Hk : pb_deliver p <= pr_Seq msg <= pb_seq p) by (apply (pi_span p Hinv); eauto).
  destruct Hinv as [Hs Hd Hq Hn H0].
  split; simpl; try done.
  - intros j. destruct (decide (j = pr_Seq msg)) as [-> | Hj].
    + rewrite lookup_insert_eq. split; [done |]. eauto.
    + rewrite lookup_delete_ne, lookup_insert_ne by done. apply Hs.
  - intros j. destruct (decide (j = pr_Seq msg)) as [-> | Hj].
    + rewrite lookup_delete_eq. intros [? ?]. done.
    + rewrite lookup_delete_ne, lookup_insert_ne by done. apply Hd.
  - intros j r. destruct (decide (j = pr_Seq msg)) as [-> | Hj].
    + rewrite lookup_insert_eq. by intros [= <-].
    + rewrite lookup_insert_ne by done. apply Hq.
Qed.

Lemma resolve_frame msg now p :
  pb_deliver (resolve msg now p).2 = pb_deliver p
  /\ pb_path (resolve msg now p).2 = pb_path p
  /\ pb_seq (resolve msg now p).2 = pb_seq p
  /\ pb_cfg (resolve msg now p).2 = pb_cfg p.
Proof.
  unfold resolve. destruct (_ || _); [done |].
  destruct (pb_pending p !! pr_Seq msg); [| done]. by destruct (negb _).
Qed.

(** The loop of [expire], over any list of in-range entries. *)
Lemma expire_fold now cutoff kvs : forall p,
  prober_inv p ->
  (forall kv, kv ∈ kvs -> pb_deliver p <= kv.1 <= pb_seq p) ->
  let p' := fold_left
    (fun p kv => if expired cutoff (kv : Z * pendingProbe).2 then markLost now kv.1 p else p)
    kvs p in
  prober_inv p' /\ pb_deliver p' = pb_deliver p /\ pb_path p' = pb_path p
  /\ pb_seq p' = pb_seq p /\ pb_cfg p' = pb_cfg p
  /\ (forall k, is_Some (pb_pending p' !! k) <->
        is_Some (pb_pending p !! k)
        /\ forall kv, kv ∈ kvs -> kv.1 = k -> expired cutoff kv.2 = false).
Proof.
  induction kvs as [|kv kvs IH]; intros p Hinv Hin; simpl.
  { split_and!; try done. intros k. split; [| tauto]. intros ?. split; [done |].
    intros kv Hkv. by apply elem_of_nil in Hkv. }
  destruct (expired cutoff kv.2) eqn:E.
  - destruct (IH (markLost now kv.1 p)) as (H1 & H2 & H3 & H4 & H5 & H6).
    { apply markLost_inv; [done |]. apply Hin. by left. }
    { intros kv' Hkv'. apply Hin. by right. }
    split_and!; try done. intros k. rewrite H6. simpl.
    destruct (decide (k = kv.1)) as [-> | Hk].
    + rewrite lookup_delete_eq. split; [intros [[? ?] _]; done |].
      intros [_ H]. rewrite (H kv) in E; [done | by left | done].
    + rewrite lookup_delete_ne by done. split; intros [Hp H]; split; try done.
      * intros kv' Hkv' <-. apply elem_of_cons in Hkv' as [-> | Hkv']; [done |]. by apply H.
      * intros kv' Hkv'. apply H. by right.
  - destruct (IH p Hinv) as (H1 & H2 & H3 & H4 & H5 & H6).
    { intros kv' Hkv'. apply Hin. by right. }
    split_and!; try done. intros k. rewrite H6. split; intros [Hp H]; split; try done.
    + intros kv' Hkv' Heq. apply elem_of_cons in Hkv' as [-> | Hkv']; [done |]. by apply H.
    + intros kv' Hkv'. apply H. by right.
Qed.

Lemma expire_inv now p :
  prober_inv p ->
  prober_inv (expire now p) /\ pb_deliver (expire now p) = pb_deliver p
  /\ pb_path (expire now p) = pb_path p /\ pb_seq (expire now p) = pb_seq p
  /\ pb_cfg (expire now p) = pb_cfg p
  /\ (forall k, is_Some (pb_pending (expire now p) !! k) <->
        exists e, pb_pending p !! k = Some e
        /\ expired (Add now (i64 (- dmul (probe_TimeoutMs (pb_cfg p)) Millisecond))) e = false).
Proof.
  intros Hinv. unfold expire.
  set (cutoff := Add now _).
  destruct (expire_fold now cutoff (map_to_list (pb_pending p)) p Hinv)
    as (H1 & H2 & H3 & H4 & H5 & H6).
  { intros [k e] Hkv. apply elem_of_map_to_list in Hkv. apply (pi_span p Hinv). simpl. eauto. }
  split_and!; try done. intros k. rewrite H6. split.
  - intros [[e He] H]. exists e. split; [done |].
    apply (H (k, e)); [by apply elem_of_map_to_list | done].
  - intros (e & He & Hx). split; [eauto |]. intros [k' e'] Hkv Heq. simpl in *. subst k'.
    apply elem_of_map_to_list in Hkv. congruence.
Qed.

Lemma flush_loop_ok fuel : forall p,
  prober_inv p -> pb_seq p <= MaxUint64 - 2 ->
  (Z.to_nat (pb_seq p - pb_deliver p + 2) <= fuel)%nat ->
  exists rs p', flush_loop fuel p = Some (rs, p') /\ prober_inv p' /\ reports p rs p'
    /\ pb_pending p' = pb_pending p /\ pb_seq p' = pb_seq p
    /\ pb_resolved p' !! pb_deliver p' = None.
Proof.
  induction fuel as [|fuel IH]; intros p Hinv Hmax Hfuel.
  { pose proof (pi_next p Hinv). lia. }
  simpl. pose proof (pi_next p Hinv) as Hn. pose proof (pi_nonneg p Hinv) as H0.
  assert (Hu : u64 (pb_deliver p + 1) = pb_deliver p + 1) by (apply u64_id; go_lia).
  destruct (pb_resolved p !! pb_deliver p) as [r|] eqn:Er.
  - rewrite Hu.
    assert (Hspan : pb_deliver p <= pb_deliver p <= pb_seq p) by (apply (pi_span p Hinv); eauto).
    assert (Hpend : pb_pending p !! pb_deliver p = None).
    { destruct (pb_pending p !! pb_deliver p) eqn:Ep; [| done].
      rewrite (pi_disjoint p Hinv) in Er; [done | eauto]. }
    set (p1 := set_deliver _ _).
    destruct (IH p1) as (rs & p' & H1 & H2 & (H3 & H4 & H5 & H6 & H7 & H7') & H8 & H9 & H10).
    { destruct Hinv as [Hs Hd Hq _ _]. subst p1. split; simpl; try lia.
      - intros k. destruct (decide (k = pb_deliver p)) as [-> | Hk].
        + rewrite lookup_delete_eq, Hpend. split; [intros [[? ?]|[? ?]]; done | lia].
        + rewrite lookup_delete_ne by done. rewrite Hs. lia.
      - intros k Hk. destruct (decide (k = pb_deliver p)) as [-> | Hne].
        + by rewrite lookup_delete_eq.
        + rewrite lookup_delete_ne by done. by apply Hd.
      - intros k r'. rewrite lookup_delete_Some. intros [_ Hk]. by apply Hq. }
    { done. } { subst p1. simpl. lia. }
    simpl in H3, H4, H5, H6, H7, H7', H8, H9.
    exists (r :: rs), p'. rewrite H1. split_and!; try done.
    destruct (pi_seq p Hinv _ _ Er) as [Hr1 Hr2].
    unfold reports. rewrite H9. split_and!; try done; try lia.
    + rewrite fmap_cons, H3. simpl length.
      rewrite (seqZ_cons (pb_deliver p) (Z.of_nat (S _))) by lia. rewrite Hr1. f_equal. f_equal; lia.
    + simpl length. lia.
    + by constructor.
  - assert (Hskip : bool_decide (pb_pending p !! pb_deliver p = None)
              && (pb_deliver p <? pb_seq p) = false).
    { case_bool_decide as Hp; [| done]. simpl. apply Z.ltb_ge.
      destruct (Z.lt_ge_cases (pb_seq p) (pb_deliver p)); [lia |].
      destruct (span_cases p (pb_deliver p) Hinv ltac:(lia)) as [[? ?]|[? ?]]; congruence. }
    rewrite Hskip. exists [], p. split_and!; try done.
    apply reports_nil; done || lia.
Qed.

Lemma flush_ok p :
  prober_inv p -> pb_seq p <= MaxUint64 - 2 ->
  exists rs p', flush p = Some (rs, p') /\ prober_inv p' /\ reports p rs p'
    /\ pb_pending p' = pb_pending p /\ pb_seq p' = pb_seq p
    /\ pb_resolved p' !! pb_deliver p' = None.
Proof. intros. by apply flush_loop_ok. Qed.

(** Two reports in a row are one report, as long as the numbers move by one. *)
Lemma reports_trans p q r rs rs' :
  reports p rs q -> reports q rs' r -> pb_seq r <= pb_seq p + 1 -> reports p (rs ++ rs') r.
Proof.
  intros (H1 & H2 & H3 & H4 & H5 & H5') (H6 & H7 & H8 & H9 & H10 & H10') H11. unfold reports.
  rewrite length_app, fmap_app, H1, H6, H2, Nat2Z.inj_add, seqZ_app by lia.
  split_and!; try done; try lia; try congruence.
  apply Forall_app_2; [done |]. by rewrite <- H4.
Qed.

(** From another state with the same span. *)
Lemma reports_from p q rs r :
  pb_deliver q = pb_deliver p -> pb_path q = pb_path p -> pb_cfg q = pb_cfg p ->
  pb_seq p <= pb_seq q -> pb_seq r <= pb_seq p + 1 -> reports q rs r -> reports p rs r.
Proof.
  intros H1 H2 H2' H3 H4 (H5 & H6 & H7 & H8 & H9 & H10). unfold reports.
  rewrite <- H1, <- H2, <- H2'. split_and!; try done; lia.
Qed.

(** A number handed out and lost at once keeps the invariant. *)
Lemma unreachable_inv now p :
  prober_inv p -> pb_seq p < MaxUint64 ->
  prober_inv (markLost now (pb_seq p + 1) (set_seq (pb_seq p + 1) p)).
Proof.
  intros Hinv Hmax.
  destruct (send_inv (0, 0) now 0 p Hinv Hmax) as (H1 & H2 & H3).
  apply (markLost_inv now (pb_seq p + 1)) in H1; [| rewrite H3; pose proof (pi_next p Hinv); simpl; lia].
  unfold send in H1. cbn [snd fst] in H1.
  rewrite (u64_id (pb_seq p + 1)) in H1 by (pose proof (pi_next p Hinv); pose proof (pi_nonneg p Hinv); go_lia).
  destruct H1 as [Hs Hd Hq Hn H0]. simpl in *.
  rewrite delete_insert_eq in *. split; simpl; done.
Qed.

Lemma run_op_ok o p :
  prober_inv p -> pb_seq p <= MaxUint64 - 4 ->
  exists rs p', run_op o p = Some (rs, p') /\ prober_inv p' /\ reports p rs p'.
Proof.
  intros Hinv Hmax. pose proof (pi_next p Hinv) as Hn. pose proof (pi_nonneg p Hinv) as H0.
  assert (Hu : u64 (pb_seq p + 1) = pb_seq p + 1) by (apply u64_id; go_lia).
  destruct o as [decision now nonce sent|msg now|now|now|a|]; cbn [run_op].
  - destruct (send_inv decision now nonce p Hinv ltac:(lia)) as (H1 & H2 & H3).
    destruct (send decision now nonce p) as [[pkt seq] q] eqn:Es. simpl in H1, H2, H3. subst seq.
    assert (Hq : pb_deliver q = pb_deliver p /\ pb_path q = pb_path p /\ pb_cfg q = pb_cfg p).
    { unfold send in Es. injection Es as _ _ <-. done. }
    destruct Hq as (Hq1 & Hq2 & Hq3). destruct sent.
    + exists [], q. split_and!; try done. apply reports_nil; try done; lia.
    + destruct (flush_ok (markLost now (pb_seq p + 1) q)) as (rs & p' & F1 & F2 & F3 & _ & F5 & _).
      { apply markLost_inv; [done |]. rewrite Hq1, H3. lia. }
      { simpl. lia. }
      exists rs, p'. split_and!; try done.
      apply reports_from with (q := markLost now (pb_seq p + 1) q); simpl; try done; try lia.
      rewrite F5. simpl. lia.
  - destruct (resolve_frame msg now p) as (R1 & R2 & R3 & R4).
    exists [], (resolve msg now p).2. split_and!; try done; [by apply resolve_inv |].
    apply reports_nil; try done; lia.
  - destruct (expire_inv now p Hinv) as (E1 & E2 & E3 & E4 & E5 & _).
    destruct (flush_ok (expire now p) E1) as (rs & p' & F1 & F2 & F3 & _ & F5 & _); [lia |].
    exists rs, p'. split_and!; try done.
    apply reports_from with (q := expire now p); try done; lia.
  - destruct (expire_inv now p Hinv) as (E1 & E2 & E3 & E4 & E5 & _).
    destruct (flush_ok (expire now p) E1) as (rs & q & F1 & F2 & F3 & _ & F5 & _); [lia |].
    rewrite F1. assert (Hqs : pb_seq q = pb_seq p) by lia. rewrite Hqs, Hu.
    pose proof (unreachable_inv now q F2 ltac:(lia)) as G1. rewrite Hqs in G1.
    cbn [set_seq pb_seq].
    destruct (flush_ok _ G1) as (rs' & r & I1 & I2 & I3 & _ & I5 & _); [simpl; lia |].
    simpl in I5. rewrite I1. exists (rs ++ rs'), r. split_and!; try done.
    apply reports_trans with (q := q); [| | lia].
    + apply reports_from with (q := expire now p); try done; lia.
    + apply reports_from with (q := markLost now (pb_seq p + 1) (set_seq (pb_seq p + 1) q));
        simpl; try done; lia.
  - exists [], (SetActive a p). split_and!; try done.
    + destruct Hinv. by split.
    + apply reports_nil; try done; simpl; lia.
  - exists [], (Nudge p). split_and!; try done.
    + destruct Hinv. by split.
    + apply reports_nil; try done; simpl; lia.
Qed.

(** *** What a turn does to the numbers and to what is outstanding *)

(** The numbers a turn, and a run of turns, give to probes: the one put on the
    wire, or the one spent on a probe that could not be. *)
Definition op_numbers (o : op) (p : Prober) : list Z :=
  match o with
  | OpSend decision now nonce _ => [pr_Seq (send decision now nonce p).1.1]
  | OpUnreachable _ => [u64 (pb_seq p + 1)]
  | _ => []
  end.
Fixpoint numbers (os : list op) (p : Prober) : list Z :=
  match os with
  | [] => []
  | o :: os => op_numbers o p ++ match run_op o p with Some (_, p) => numbers os p | None => [] end
  end.

(** Every outstanding probe left at a moment of a set. *)
Definition left_at (P : Time -> Prop) (p : Prober) : Prop :=
  forall k e, pb_pending p !! k = Some e -> P (pp_sent e).
Definition op_left_at (P : Time -> Prop) (o : op) : Prop :=
  match o with OpSend _ now _ _ => P now | _ => True end.

Lemma left_at_sub P p q : pb_pending q ⊆ pb_pending p -> left_at P p -> left_at P q.
Proof. intros Hs Hp k e Hk. eapply Hp, lookup_weaken; done. Qed.

Lemma expire_sub now p : pb_pending (expire now p) ⊆ pb_pending p.
Proof.
  unfold expire. generalize (map_to_list (pb_pending p)) as kvs.
  generalize (Add now (i64 (- dmul (probe_TimeoutMs (pb_cfg p)) Millisecond))) as cutoff.
  intros cutoff kvs. revert p.
  induction kvs as [|kv kvs IH]; intros p; [done |]. cbn [fold_left].
  etransitivity; [apply IH |]. destruct (expired _ _); [| done]. apply delete_subseteq.
Qed.

Lemma resolve_sub msg now p : pb_pending (resolve msg now p).2 ⊆ pb_pending p.
Proof.
  unfold resolve. destruct (_ || _); [done |]. destruct (pb_pending p !! pr_Seq msg); [| done].
  destruct (negb _); [done |]. apply delete_subseteq.
Qed.

Lemma send_left P decision now nonce p : P now -> left_at P p -> left_at P (send decision now nonce p).2.
Proof. intros Hn Hp k e Hk. cbn in Hk. apply lookup_insert_Some in Hk as [[_ <-] | [_ Hk]]; [done | by eapply Hp]. Qed.

Lemma run_op_counts P o p rs p' :
  prober_inv p -> pb_seq p <= MaxUint64 - 4 -> run_op o p = Some (rs, p') ->
  op_numbers o p = seqZ (pb_seq p + 1) (pb_seq p' - pb_seq p)
  /\ (op_left_at P o -> left_at P p -> left_at P p').
Proof.
  intros Hinv Hmax Hr. pose proof (pi_next p Hinv) as Hn. pose proof (pi_nonneg p Hinv) as H0.
  assert (Hu : u64 (pb_seq p + 1) = pb_seq p + 1) by (apply u64_id; go_lia).
  assert (Hone : forall q, pb_seq q = pb_seq p + 1 -> [pb_seq p + 1] = seqZ (pb_seq p + 1) (pb_seq q - pb_seq p)).
  { intros q ->. by replace (pb_seq p + 1 - pb_seq p) with 1 by lia. }
  destruct o as [decision now nonce sent|msg now|now|now|a|]; cbn [run_op op_numbers op_left_at] in *.
  - destruct (send_inv decision now nonce p Hinv ltac:(lia)) as (H1 & H2 & H3).
    pose proof (send_left P decision now nonce p) as Hl.
    assert (Hw : pr_Seq (send decision now nonce p).1.1 = pb_seq p + 1) by (unfold send; cbn; by rewrite Hu).
    assert (Hq : pb_deliver (send decision now nonce p).2 = pb_deliver p) by done.
    rewrite Hw. destruct (send decision now nonce p) as [[pkt seq] q]. cbn [fst snd] in *. subst seq.
    destruct sent; [injection Hr as <- <-; split; [by apply Hone | done] |].
    destruct (flush_ok (markLost now (pb_seq p + 1) q)) as (rs' & q' & F1 & _ & _ & F4 & F5 & _).
    { apply markLost_inv; [done |]. rewrite Hq. lia. } { cbn. lia. }
    rewrite F1 in Hr. injection Hr as <- <-. split; [apply Hone; rewrite F5; done |]. intros Hp Hpp.
    eapply left_at_sub; [rewrite F4; apply delete_subseteq | by apply Hl].
  - injection Hr as <- <-. destruct (resolve_frame msg now p) as (_ & _ & R3 & _). rewrite R3, Z.sub_diag.
    split; [done |]. intros _. apply left_at_sub, resolve_sub.
  - destruct (expire_inv now p Hinv) as (E1 & _ & _ & E4 & _ & _).
    destruct (flush_ok (expire now p) E1) as (rs' & q & F1 & _ & _ & F4 & F5 & _); [lia |].
    rewrite F1 in Hr. injection Hr as <- <-. rewrite F5, E4, Z.sub_diag. split; [done |]. intros _.
    apply left_at_sub. rewrite F4. apply expire_sub.
  - destruct (expire_inv now p Hinv) as (E1 & _ & _ & E4 & _ & _).
    destruct (flush_ok (expire now p) E1) as (rs' & q & F1 & F2 & _ & F4 & F5 & _); [lia |].
    rewrite F1 in Hr. assert (Hqs : pb_seq q = pb_seq p) by lia. rewrite Hqs, Hu in Hr.
    pose proof (unreachable_inv now q F2 ltac:(lia)) as G1. rewrite Hqs in G1. cbn [set_seq pb_seq] in Hr.
    destruct (flush_ok _ G1) as (rs2 & r & I1 & _ & _ & I4 & I5 & _); [simpl; lia |].
    rewrite I1 in Hr. injection Hr as <- <-. rewrite Hu. split; [apply Hone; by rewrite I5 |]. intros _.
    apply left_at_sub. rewrite I4. etransitivity; [apply delete_subseteq |]. cbn. rewrite F4. apply expire_sub.
  - injection Hr as <- <-. cbn. rewrite Z.sub_diag. done.
  - injection Hr as <- <-. cbn. rewrite Z.sub_diag. done.
Qed.

Lemma run_ops_ok P os : forall p,
  prober_inv p -> pb_seq p + Z.of_nat (length os) <= MaxUint64 - 4 ->
  exists rs p', run_ops os p = Some (rs, p') /\ prober_inv p'
    /\ r_Seq <$> rs = seqZ (pb_deliver p) (Z.of_nat (length rs))
    /\ pb_deliver p' = pb_deliver p + Z.of_nat (length rs)
    /\ Forall (fun r => r_PathID r = path_ID (pb_path p)) rs
    /\ pb_path p' = pb_path p /\ pb_cfg p' = pb_cfg p
    /\ pb_seq p <= pb_seq p' <= pb_seq p + Z.of_nat (length os)
    /\ numbers os p = seqZ (pb_seq p + 1) (pb_seq p' - pb_seq p)
    /\ (Forall (op_left_at P) os -> left_at P p -> left_at P p').
Proof.
  induction os as [|o os IH]; intros p Hinv Hmax; cbn [run_ops numbers].
  { exists [], p. cbn. rewrite Z.sub_diag. split_and!; try done; lia. }
  cbn [length] in Hmax.
  destruct (run_op_ok o p Hinv ltac:(lia)) as (rs & q & H1 & H2 & (H3 & H4 & H5 & H6 & H7 & H8)).
  destruct (run_op_counts P o p rs q Hinv ltac:(lia) H1) as [Hc Hl].
  destruct (IH q H2 ltac:(lia)) as (rs' & p' & I1 & I2 & I3 & I4 & I5 & I6 & I7 & I8 & I9 & I10).
  rewrite H1, I1. exists (rs ++ rs'), p'.
  rewrite length_app, fmap_app, H3, I3, H4, Nat2Z.inj_add, seqZ_app, Hc, I9 by lia.
  cbn [length]. split_and!; try done; try lia; try congruence.
  - apply Forall_app_2; [done |]. by rewrite <- H6.
  - replace (pb_seq p' - pb_seq p) with ((pb_seq q - pb_seq p) + (pb_seq p' - pb_seq q)) by lia.
    rewrite seqZ_app by lia. do 2 f_equal. lia.
  - intros [Ho Hos]%Forall_cons Hp. by apply I10, Hl.
Qed.

Lemma seedSeq_range nonce : 0 <= seedSeq nonce < 4611686018427387904.
Proof.
  unfold seedSeq, seqSeedBits.
  change (Z.shiftl 1 62 - 1) with (Z.ones 62). rewrite Z.land_ones by lia.
  apply (Z.mod_pos_bound nonce (2 ^ 62)). lia.
Qed.

Lemma NewProber_inv path cfg nonce : prober_inv (NewProber path cfg nonce).
Proof.
  pose proof (seedSeq_range nonce) as Hs. unfold NewProber.
  rewrite u64_id by go_lia.
  split; simpl; try (intros; rewrite lookup_empty in *; done); try lia.
  intros k. rewrite !lookup_empty. split; [intros [[? ?]|[? ?]]; done | lia].
Qed.

Lemma sweep_ok now p :
  prober_inv p -> pb_seq p <= MaxUint64 - 4 ->
  (forall k e, pb_pending p !! k = Some e ->
     expired (Add now (i64 (- dmul (probe_TimeoutMs (pb_cfg p)) Millisecond))) e = true) ->
  exists rs p', run_op (OpSweep now) p = Some (rs, p')
    /\ r_Seq <$> rs = seqZ (pb_deliver p) (pb_seq p - pb_deliver p + 1)
    /\ pb_pending p' = ∅ /\ pb_resolved p' = ∅ /\ pb_deliver p' = pb_seq p + 1.
Proof.
  intros Hinv Hmax Hall. simpl.
  destruct (expire_inv now p Hinv) as (E1 & E2 & E3 & E4 & E5 & E6).
  destruct (flush_ok (expire now p) E1)
    as (rs & p' & F1 & F2 & (F3 & F4 & _) & F6 & F7 & F8); [lia |].
  assert (Hpe : pb_pending p' = ∅).
  { rewrite F6. apply map_eq. intros k. rewrite lookup_empty.
    destruct (pb_pending (expire now p) !! k) eqn:E; [| done].
    destruct (proj1 (E6 k)) as (e & He & Hx); [eauto |]. by rewrite (Hall k e He) in Hx. }
  assert (Hd : pb_deliver p' = pb_seq p + 1).
  { pose proof (pi_next p' F2) as Hn. destruct (Z.lt_ge_cases (pb_seq p') (pb_deliver p')); [lia |].
    destruct (span_cases p' (pb_deliver p') F2 ltac:(lia)) as [[? Hx]|[? Hx]].
    - rewrite Hpe, lookup_empty in Hx. done.
    - by rewrite F8 in Hx. }
  exists rs, p'. split_and!; try done.
  - rewrite F3, E2. f_equal. lia.
  - apply map_eq. intros k. rewrite lookup_empty.
    destruct (pb_resolved p' !! k) eqn:E; [| done].
    assert (pb_deliver p' <= k <= pb_seq p') by (apply (pi_span p' F2); eauto). lia.
Qed.

(** [C30] Every probe is reported exactly once and in the order sent.  Whatever
    the network, the clock and the socket do (replies in any order, forged or
    replayed, sends that fail, a tunnel that cannot be dialled), a prober
    never gets stuck; what it has reported are the first of the numbers it gave
    its probes, in order, none skipped, none repeated, none for another path;
    and one sweep with the clock past the timeout of every probe sent reports
    all the rest, so that the reports are then exactly the numbers given. *)
Theorem prober_in_order path cfg nonce os :
  Z.of_nat (length os) <= 4611686018427387904 ->
  exists rs p', run_ops os (NewProber path cfg nonce) = Some (rs, p')
    /\ r_Seq <$> rs = seqZ (seedSeq nonce + 1) (Z.of_nat (length rs))
    /\ pb_deliver p' = seedSeq nonce + 1 + Z.of_nat (length rs)
    /\ Forall (fun r => r_PathID r = path_ID path) rs
    /\ NoDup (numbers os (NewProber path cfg nonce))
    /\ forall now, 0 <= probe_TimeoutMs cfg <= 9223372036854 ->
         Forall (op_left_at (fun t => t + probe_TimeoutMs cfg * Millisecond < now)) os ->
         exists rest p'', run_op (OpSweep now) p' = Some (rest, p'')
           /\ r_Seq <$> rs ++ rest = numbers os (NewProber path cfg nonce)
           /\ Forall (fun r => r_PathID r = path_ID path) rest
           /\ pb_pending p'' = ∅ /\ pb_resolved p'' = ∅.
Proof.
  intros Hlen. pose proof (seedSeq_range nonce) as Hs. pose proof (NewProber_inv path cfg nonce) as Hinv.
  assert (Hd : pb_deliver (NewProber path cfg nonce) = seedSeq nonce + 1) by (cbn; apply u64_id; go_lia).
  destruct (run_ops_ok (fun _ => True) os _ Hinv) as (rs & p' & H1 & Hi & H3 & H4 & H5 & Hp & Hc & Hsq & Hnum & _);
    [cbn; go_lia |].
  rewrite Hd in H3, H4. cbn [NewProber pb_path pb_cfg pb_seq] in H5, Hp, Hc, Hsq, Hnum.
  exists rs, p'. rewrite Hnum. split_and!; try done; [apply NoDup_seqZ |].
  intros now Ht Hos.
  destruct (run_ops_ok (fun t => t + probe_TimeoutMs cfg * Millisecond < now) os _ Hinv)
    as (rs2 & p2 & H1' & _ & _ & _ & _ & _ & _ & _ & _ & Hl); [cbn; go_lia |].
  rewrite H1 in H1'. injection H1' as <- <-.
  destruct (sweep_ok now p' Hi ltac:(go_lia)) as (rest & p2 & S1 & S2 & S3 & S4 & _).
  { intros k e Hk. apply Hl in Hk; [| done | intros ? ? Hx; cbn [NewProber pb_pending] in Hx; by apply lookup_empty_Some in Hx].
    rewrite Hc. unfold expired, Before, Add, dmul, Millisecond in *. rewrite (i64_id (_ * _)), i64_id by go_lia. go_lia. }
  exists rest, p2. split_and!; try done.
  - rewrite fmap_app, H3, S2, H4, <- seqZ_app by (pose proof (pi_next p' Hi); lia). f_equal. lia.
  - destruct (run_op_ok (OpSweep now) p' Hi ltac:(go_lia)) as (? & ? & S1' & _ & (_ & _ & S5 & _)).
    rewrite S1 in S1'. injection S1' as <- <-. by rewrite Hp in S5.
Qed.

(** One answered, one that could not be sent, one that is lost, and a sweep. *)
Definition turns : list op :=
  [OpSend (1, 5) 1000 77 true; OpReply (mkProbe TypeReply 2 42 0 0 1 5 77) 1500; OpSend (1, 5) 2000 78 false;
   OpUnreachable 2500; OpSend (1, 6) 3000 79 true].

Lemma prober_in_order_witness :
  let lte := mkPathConfig 2 "lte1" "wg-lte1" 2 102 258 true true no_quota no_shape in
  let p0 := NewProber lte (cfg_Probe Defaults) 41 in
  exists rs p', run_ops turns p0 = Some (rs, p')
    /\ numbers turns p0 = [42; 43; 44; 45] /\ r_Lost <$> rs = [false; true; true]
    /\ exists rest p'', run_op (OpSweep 3000000000) p' = Some (rest, p'') /\ r_Seq <$> rs ++ rest = [42; 43; 44; 45].
Proof.
  intros lte p0.
  destruct (prober_in_order lte (cfg_Probe Defaults) 41 turns) as (rs & p' & Hr & _ & _ & _ & _ & Hsw); [cbn; lia |].
  exists rs, p'. split; [exact Hr |]. split; [vm_compute; reflexivity |]. split.
  - vm_compute in Hr. injection Hr as <- _. reflexivity.
  - destruct (Hsw 3000000000) as (rest & p2 & Hs & Hn & _).
    + vm_compute. split; discriminate.
    + repeat constructor.
    + exists rest, p2. split; [exact Hs |]. rewrite Hn. vm_compute. reflexivity.
Defined.

(** Nothing waits for ever: once the clock is past the timeout of every
    probe outstanding, one sweep reports all of them and leaves nothing
    pending or held back. *)
Theorem sweep_reports_all now p :
  prober_inv p -> pb_seq p <= MaxUint64 - 4 ->
  (forall k e, pb_pending p !! k = Some e ->
     expired (Add now (i64 (- dmul (probe_TimeoutMs (pb_cfg p)) Millisecond))) e = true) ->
  exists rs p', run_op (OpSweep now) p = Some (rs, p')
    /\ r_Seq <$> rs = seqZ (pb_deliver p) (pb_seq p - pb_deliver p + 1)
    /\ pb_pending p' = ∅ /\ pb_resolved p' = ∅ /\ pb_deliver p' = pb_seq p + 1.
Proof. apply sweep_ok. Qed.

Lemma sweep_reports_all_witness :
  let p := (send (1, 5) 1000 77 (NewProber (mkPathConfig 2 "lte1" "wg-lte1" 2 102 258 true true
      no_quota no_shape) (cfg_Probe Defaults) 41)).2 in
  exists rs p', run_op (OpSweep 3000000000) p = Some (rs, p')
    /\ r_Seq <$> rs = seqZ (pb_deliver p) (pb_seq p - pb_deliver p + 1)
    /\ pb_pending p' = ∅ /\ pb_resolved p' = ∅ /\ pb_deliver p' = pb_seq p + 1.
Proof.
  apply sweep_reports_all.
  - apply send_inv; [apply NewProber_inv | vm_compute; reflexivity].
  - vm_compute. discriminate.
  - intros k e Hk. unfold send in Hk. cbn [snd pb_pending set_pending set_seq NewProber] in Hk.
    apply lookup_insert_Some in Hk as [[_ <-]|[_ Hk]]; [vm_compute; reflexivity |].
    by rewrite lookup_empty in Hk.
Defined.

(** Only the reply to a probe still outstanding moves the state, and only
    once: a reply is accepted iff it is a reply, names this path and carries
    the number and the nonce of a pending probe; a refused one changes
    nothing, and an accepted one played again is refused. *)
Theorem resolve_exact msg now p :
  ((resolve msg now p).1 = true <->
     pr_Type msg = TypeReply /\ pr_PathID msg = u16 (path_ID (pb_path p))
     /\ exists sent, pb_pending p !! pr_Seq msg = Some (mkPending sent (pr_Nonce msg)))
  /\ ((resolve msg now p).1 = false -> (resolve msg now p).2 = p)
  /\ (forall now', (resolve msg now p).1 = true ->
        resolve msg now' (resolve msg now p).2 = (false, (resolve msg now p).2)).
Proof.
  unfold resolve.
  destruct (Z.eqb_spec (pr_Type msg) TypeReply) as [Ht|Ht]; simpl;
    [| by split; [split; [done | tauto] |]].
  destruct (Z.eqb_spec (pr_PathID msg) (u16 (path_ID (pb_path p)))) as [Hp|Hp]; simpl;
    [| by split; [split; [done | tauto] |]].
  destruct (pb_pending p !! pr_Seq msg) as [[s n]|] eqn:E; simpl.
  - destruct (Z.eqb_spec n (pr_Nonce msg)) as [Hn|Hn]; simpl.
    + subst n. split; [split; eauto |]. split; [done |]. intros now' _.
      rewrite lookup_delete_eq. by repeat split_if.
    + split; [split; [done |] | done]. intros (_ & _ & s' & Hs'). congruence.
  - split; [split; [done |] | done]. intros (_ & _ & s' & Hs'). congruence.
Qed.
