(* ===== verification/Tracker.v ===== *)
(** * The path tracker ([internal/engine/tracker.go], [Window] of [prober.go])

    The health state machine of one path: it folds probe results, in the order
    the prober reports them, into a verdict (unknown, up, suspect, down), the
    two consecutive counters, the clean streak that failback waits for, and the
    circuit breaker that parks a path that keeps failing. *)

From S2P Require Import Prelude GoTime Float64 Model Prober.

(** ** The window of recent results *)

Record Window := mkWindow { win_size : Z; win_entries : list Result }.

Definition NewWindow (size : Z) : Window :=
  mkWindow (if size <? 5 then 5 else size) [].

Definition Window_Add (r : Result) (w : Window) : Window :=
  let entries := win_entries w ++ [r] in
  mkWindow (win_size w)
    (if win_size w <? Z.of_nat (length entries)
     then drop (Z.to_nat (Z.of_nat (length entries) - win_size w)) entries else entries).

(** The round-trip times of the answered probes, in milliseconds. *)
Definition rtts_of (entries : list Result) : list float64 :=
  omap (fun e => if r_Lost e then None
                 else Some (fdiv (f64_of_Z (Microseconds (r_RTT e))) (f64_of_Z 1000))) entries.

(** [sort.Float64s]: NaNs first, then ascending. *)
Definition sort_le (a b : float64) : Prop := fis_nan a || negb (flt b a) && negb (fis_nan b) = true.
#[export] Instance sort_le_dec a b : Decision (sort_le a b).
Proof. unfold sort_le. apply _. Defined.
Definition sortFloat64s (l : list float64) : list float64 := merge_sort sort_le l.

(** [Stats]: loss percentage, mean round trip, and the median absolute
    deviation from that mean. *)
Definition Stats (w : Window) : float64 * float64 * float64 :=
  if bool_decide (win_entries w = []) then (fzero, fzero, fzero)
  else
    let lost := Z.of_nat (length (filter (fun e => r_Lost e = true) (win_entries w))) in
    let n := Z.of_nat (length (win_entries w)) in
    let lossPct := fmul (fdiv (f64_of_Z lost) (f64_of_Z n)) (f64_of_Z 100) in
    let rtts := rtts_of (win_entries w) in
    if bool_decide (rtts = []) then (lossPct, fzero, fzero)
    else
      let sum := fold_left fadd rtts fzero in
      let rttMs := fdiv sum (f64_of_Z (Z.of_nat (length rtts))) in
      let dev := (fun v => fabs_lt0 (fsub v rttMs)) <$> rtts in
      let dev := sortFloat64s dev in
      (lossPct, rttMs, default fzero (dev !! (length dev / 2)%nat)).

(** ** The tracker *)

Record Tracker := mkTracker {
  tk_cfg : PathConfig;
  tk_probeCfg : ProbeConfig;
  tk_failCfg : FailoverConfig;
  tk_health : Health;
  tk_consecLoss : Z;
  tk_consecOK : Z;
  tk_window : Window;
  tk_lastReply : Time;
  tk_cleanSince : Time;
  tk_failures : list Time;
  tk_quarantineUntil : Time;
  tk_quarantineLevel : Z;
  tk_handshakeAge : float64 }.

Definition NewTracker (p : PathConfig) (probeCfg : ProbeConfig) (failCfg : FailoverConfig) : Tracker :=
  mkTracker p probeCfg failCfg HealthUnknown 0 0 (NewWindow (probe_WindowSize probeCfg))
    zeroTime zeroTime [] zeroTime 0 fzero.

Record Transition := mkTransition {
  tr_Changed : bool; tr_From : Health; tr_To : Health; tr_Quarantine : Duration }.

(** The streak fields together: health, losses, replies, last reply, clean since. *)
Definition set_streak (h : Health) (loss ok : Z) (last clean : Time) (t : Tracker) : Tracker :=
  mkTracker (tk_cfg t) (tk_probeCfg t) (tk_failCfg t) h loss ok (tk_window t) last clean
    (tk_failures t) (tk_quarantineUntil t) (tk_quarantineLevel t) (tk_handshakeAge t).

Definition set_window (w : Window) (t : Tracker) : Tracker :=
  mkTracker (tk_cfg t) (tk_probeCfg t) (tk_failCfg t) (tk_health t) (tk_consecLoss t)
    (tk_consecOK t) w (tk_lastReply t) (tk_cleanSince t)
    (tk_failures t) (tk_quarantineUntil t) (tk_quarantineLevel t) (tk_handshakeAge t).

Definition set_breaker (fs : list Time) (until : Time) (level : Z) (t : Tracker) : Tracker :=
  mkTracker (tk_cfg t) (tk_probeCfg t) (tk_failCfg t) (tk_health t) (tk_consecLoss t)
    (tk_consecOK t) (tk_window t) (tk_lastReply t) (tk_cleanSince t)
    fs until level (tk_handshakeAge t).

(** The doubling loop of [recordFailure], [n] rounds of it. *)
Fixpoint double_upto (n : nat) (max d : Duration) : Duration :=
  match n with
  | O => d
  | S n =>
      if (0 <? max) && (max <=? d) then d
      else if Z.quot MaxInt64 2 <? d then d
      else double_upto n max (i64 (d * 2))
  end.

(** The quarantine [recordFailure] imposes at a level. *)
Definition quarantine_delay (failCfg : FailoverConfig) (level : Z) : Duration :=
  let base := dmul (fail_QuarantineSec failCfg) Second in
  let max := dmul (fail_QuarantineMaxSec failCfg) Second in
  let d := double_upto (Z.to_nat level) max base in
  let d := if (0 <? max) && (max <? d) then max else d in
  if d <? base then base else d.

Definition recordFailure (now : Time) (t : Tracker) : Tracker :=
  let window := dmul (fail_FlapWindowSec (tk_failCfg t)) Second in
  let cutoff := Add now (i64 (- window)) in
  let kept := filter (fun f => After f cutoff = true) (tk_failures t ++ [now]) in
  let threshold := fail_FlapThreshold (tk_failCfg t) in
  if (0 <? threshold) && (threshold <=? Z.of_nat (length kept)) then
    set_breaker [] (Add now (quarantine_delay (tk_failCfg t) (tk_quarantineLevel t)))
      (i64 (tk_quarantineLevel t + 1)) t
  else set_breaker kept (tk_quarantineUntil t) (tk_quarantineLevel t) t.

Definition quarantineRemaining (now : Time) (t : Tracker) : Duration :=
  if IsZero (tk_quarantineUntil t) || negb (Before now (tk_quarantineUntil t)) then 0
  else Sub (tk_quarantineUntil t) now.

Definition Observe (r : Result) (now : Time) (t : Tracker) : Transition * Tracker :=
  let t := set_window (Window_Add r (tk_window t)) t in
  let from := tk_health t in
  if r_Lost r then
    let loss := i64 (tk_consecLoss t + 1) in
    let h := if bool_decide (tk_health t = HealthUp) then HealthSuspect else tk_health t in
    if (probe_FailThreshold (tk_probeCfg t) <=? loss) && negb (bool_decide (h = HealthDown)) then
      let t := recordFailure now (set_streak HealthDown loss 0 (tk_lastReply t) zeroTime t) in
      (mkTransition true from (tk_health t) (quarantineRemaining now t), t)
    else
      (mkTransition (negb (bool_decide (from = h))) from h 0,
       set_streak h loss 0 (tk_lastReply t) zeroTime t)
  else
    let ok := i64 (tk_consecOK t + 1) in
    if negb (bool_decide (tk_health t = HealthUp))
       && (probe_RecoverThreshold (tk_probeCfg t) <=? ok) then
      (mkTransition true from HealthUp 0, set_streak HealthUp 0 ok (r_At r) now t)
    else
      let h := if bool_decide (tk_health t = HealthUnknown) && (0 <? ok)
               then HealthSuspect else tk_health t in
      (mkTransition (negb (bool_decide (from = h))) from h 0,
       set_streak h 0 ok (r_At r) (tk_cleanSince t) t).

(** [Retune]: new thresholds, the same evidence. *)
Definition Retune (p : PathConfig) (probeCfg : ProbeConfig) (failCfg : FailoverConfig)
    (t : Tracker) : Tracker :=
  let w := if negb (probe_WindowSize probeCfg =? win_size (tk_window t))
           then fold_left (fun w e => Window_Add e w) (win_entries (tk_window t))
                  (NewWindow (probe_WindowSize probeCfg))
           else tk_window t in
  mkTracker p probeCfg failCfg (tk_health t) (tk_consecLoss t) (tk_consecOK t) w
    (tk_lastReply t) (tk_cleanSince t) (tk_failures t) (tk_quarantineUntil t)
    (tk_quarantineLevel t) (tk_handshakeAge t).

(** [Tracker.ClearQuarantine] and [SetHandshakeAge]. *)
Definition Tracker_ClearQuarantine (t : Tracker) : Tracker := set_breaker [] zeroTime 0 t.
Definition SetHandshakeAge (age : float64) (t : Tracker) : Tracker :=
  mkTracker (tk_cfg t) (tk_probeCfg t) (tk_failCfg t) (tk_health t) (tk_consecLoss t)
    (tk_consecOK t) (tk_window t) (tk_lastReply t) (tk_cleanSince t)
    (tk_failures t) (tk_quarantineUntil t) (tk_quarantineLevel t) age.

Definition usableHealth (h : Health) : bool :=
  bool_decide (h = HealthUp) || bool_decide (h = HealthSuspect).
Definition Usable (t : Tracker) : bool := usableHealth (tk_health t).

Definition Degraded (t : Tracker) : bool :=
  if negb (Usable t) then false
  else
    let '(loss, rtt, _) := Stats (tk_window t) in
    if fgt (probe_MaxLossPct (tk_probeCfg t)) fzero && fgt loss (probe_MaxLossPct (tk_probeCfg t))
    then true
    else (0 <? probe_MaxRTTMs (tk_probeCfg t))
         && fgt rtt (f64_of_Z (probe_MaxRTTMs (tk_probeCfg t))).

Definition Score (q : QualityConfig) (t : Tracker) : float64 :=
  let '(loss, rtt, jitter) := Stats (tk_window t) in
  fadd (fadd (fmul loss (qual_LossWeight q)) (fmul rtt (qual_RTTWeight q)))
    (fmul jitter (qual_JitterWeight q)).

Definition CleanFor (now : Time) (t : Tracker) : Duration :=
  if IsZero (tk_cleanSince t) then 0 else Sub now (tk_cleanSince t).

Definition Quarantined (now : Time) (t : Tracker) : bool := 0 <? quarantineRemaining now t.

Definition Snapshot (now : Time) (t : Tracker) : PathState :=
  let '(loss, rtt, jitter) := Stats (tk_window t) in
  mkPathState (path_ID (tk_cfg t)) (path_Name (tk_cfg t)) (path_Iface (tk_cfg t))
    (path_Priority (tk_cfg t)) (tk_health t) BlockNone false rtt jitter loss
    (tk_consecLoss t) (tk_consecOK t) (tk_lastReply t) (tk_handshakeAge t) ""%string
    (tk_cleanSince t) (tk_quarantineUntil t) 0 0 zeroTime zeroTime zeroTime 0.

(** A run of observations. *)
Definition observe_all (obs : list (Result * Time)) (t : Tracker) : Tracker :=
  fold_left (fun t o => (Observe o.1 o.2 t).2) obs t.

(** ** The window *)

(** Trimming twice is trimming once. *)
Lemma last_n_app {A} (k : nat) (l l' : list A) :
  drop (length (drop (length l - k) l ++ l') - k) (drop (length l - k) l ++ l')
  = drop (length (l ++ l') - k) (l ++ l').
Proof.
  rewrite !length_app, length_drop, !drop_app, length_drop, drop_drop. f_equal.
  - f_equal. lia.
  - f_equal. lia.
Qed.

Lemma Window_Add_entries r w :
  0 <= win_size w ->
  win_size (Window_Add r w) = win_size w
  /\ win_entries (Window_Add r w)
     = drop (length (win_entries w ++ [r]) - Z.to_nat (win_size w)) (win_entries w ++ [r]).
Proof.
  intros Hs. split; [done |]. unfold Window_Add. cbn [win_entries].
  destruct (Z.ltb_spec (win_size w) (Z.of_nat (length (win_entries w ++ [r])))).
  - f_equal. lia.
  - replace (_ - _)%nat with 0%nat by lia. done.
Qed.

Lemma Window_Add_all rs : forall w l,
  0 <= win_size w ->
  win_entries w = drop (length l - Z.to_nat (win_size w)) l ->
  win_size (fold_left (fun w r => Window_Add r w) rs w) = win_size w
  /\ win_entries (fold_left (fun w r => Window_Add r w) rs w)
     = drop (length (l ++ rs) - Z.to_nat (win_size w)) (l ++ rs).
Proof.
  induction rs as [|r rs IH]; intros w l Hs Hw; simpl; [by rewrite app_nil_r |].
  destruct (Window_Add_entries r w Hs) as [H1 H2].
  destruct (IH (Window_Add r w) (l ++ [r])) as [H3 H4].
  { done. }
  { rewrite H2, H1, Hw. apply last_n_app. }
  rewrite H1, <- app_assoc in H4. by rewrite H3, H4.
Qed.

(** ** Transitions and the clean streak *)

Lemma recordFailure_frame now t :
  tk_health (recordFailure now t) = tk_health t
  /\ tk_cleanSince (recordFailure now t) = tk_cleanSince t
  /\ tk_probeCfg (recordFailure now t) = tk_probeCfg t
  /\ tk_failCfg (recordFailure now t) = tk_failCfg t
  /\ tk_consecLoss (recordFailure now t) = tk_consecLoss t
  /\ tk_consecOK (recordFailure now t) = tk_consecOK t
  /\ tk_window (recordFailure now t) = tk_window t.
Proof. unfold recordFailure. by split_if. Qed.

(** What one result does to the fields the verdict depends on. *)
Lemma Observe_loss r now t :
  r_Lost r = true ->
  let t' := (Observe r now t).2 in
  let h := if bool_decide (tk_health t = HealthUp) then HealthSuspect else tk_health t in
  tk_health t' = (if (probe_FailThreshold (tk_probeCfg t) <=? i64 (tk_consecLoss t + 1))
                  then HealthDown else h)
  /\ tk_cleanSince t' = zeroTime /\ tk_consecLoss t' = i64 (tk_consecLoss t + 1)
  /\ tk_consecOK t' = 0 /\ tk_probeCfg t' = tk_probeCfg t.
Proof.
  intros Hr. unfold Observe. rewrite Hr. simpl.
  set (h := if bool_decide _ then _ else _).
  destruct (probe_FailThreshold _ <=? _) eqn:E1; cbn [andb];
    [destruct (bool_decide (h = HealthDown)) eqn:E2 |]; cbn [negb snd fst].
  - apply bool_decide_eq_true in E2. simpl. by rewrite E2.
  - destruct (recordFailure_frame now (set_streak HealthDown (i64 (tk_consecLoss t + 1)) 0
      (tk_lastReply t) zeroTime (set_window (Window_Add r (tk_window t)) t)))
      as (H1 & H2 & H3 & _ & H5 & H6 & _). by rewrite H1, H2, H3, H5, H6.
  - done.
Qed.

Lemma Observe_reply r now t :
  r_Lost r = false ->
  let t' := (Observe r now t).2 in
  let up := negb (bool_decide (tk_health t = HealthUp))
            && (probe_RecoverThreshold (tk_probeCfg t) <=? i64 (tk_consecOK t + 1)) in
  tk_health t' = (if up then HealthUp
                  else if bool_decide (tk_health t = HealthUnknown) && (0 <? i64 (tk_consecOK t + 1))
                       then HealthSuspect else tk_health t)
  /\ tk_cleanSince t' = (if up then now else tk_cleanSince t)
  /\ tk_consecLoss t' = 0 /\ tk_consecOK t' = i64 (tk_consecOK t + 1)
  /\ tk_probeCfg t' = tk_probeCfg t.
Proof. intros Hr. unfold Observe. rewrite Hr. simpl. by destruct (_ && _). Qed.

(** A transition is reported exactly when the verdict changes: [From] is
    the verdict before the result, [To] the verdict after it, and [Changed]
    holds iff they differ, whatever the result, the thresholds and the
    tracker's state. *)
Theorem Observe_transition r now t :
  tr_From (Observe r now t).1 = tk_health t
  /\ tr_To (Observe r now t).1 = tk_health (Observe r now t).2
  /\ (tr_Changed (Observe r now t).1 = true <-> tk_health t <> tk_health (Observe r now t).2).
Proof.
  unfold Observe. destruct (r_Lost r); cbn [tk_health set_window tk_probeCfg].
  - set (h := if bool_decide _ then _ else _).
    destruct (_ && _) eqn:E; cbn [fst snd tr_From tr_To tr_Changed].
    + rewrite (proj1 (recordFailure_frame _ _)). cbn [tk_health set_streak].
      split_and!; try done. split; [intros _ Hd | done].
      apply andb_true_iff in E as [_ E]. subst h. rewrite Hd in E. done.
    + split_and!; try done. rewrite negb_true_iff. apply bool_decide_eq_false.
  - destruct (_ && _) eqn:E; cbn [fst snd tr_From tr_To tr_Changed tk_health set_streak].
    + split_and!; try done. split; [intros _ Hu | done].
      apply andb_true_iff in E as [E _]. rewrite Hu in E. done.
    + split_and!; try done. rewrite negb_true_iff. apply bool_decide_eq_false.
Qed.

(** The observations that made a tracker what it is. *)
Definition clean_inv (obs : list (Result * Time)) (t : Tracker) : Prop :=
  (tk_health t = HealthUp <-> tk_cleanSince t <> zeroTime)
  /\ (tk_cleanSince t <> zeroTime ->
      exists pre r suf, obs = pre ++ (r, tk_cleanSince t) :: suf
        /\ Forall (fun o => r_Lost o.1 = false) ((r, tk_cleanSince t) :: suf)).

Lemma clean_inv_step obs r now t :
  now <> zeroTime -> clean_inv obs t -> clean_inv (obs ++ [(r, now)]) (Observe r now t).2.
Proof.
  intros Hnow [Hup Hclean]. destruct (r_Lost r) eqn:Hr.
  - destruct (Observe_loss r now t Hr) as (H1 & H2 & _). unfold clean_inv. rewrite H1, H2.
    split; [| done]. split; [| done]. split_if; [done |].
    case_bool_decide; [done |]. intros Hu. by rewrite Hu in *.
  - destruct (Observe_reply r now t Hr) as (H1 & H2 & _). unfold clean_inv. rewrite H1, H2.
    destruct (negb _ && _) eqn:Eup.
    + split; [done |]. intros _. exists obs, r, []. split; [done |]. by repeat constructor.
    + split.
      * rewrite <- Hup. split; [| intros ->; by rewrite bool_decide_eq_false_2].
        by split_if.
      * intros Hc. destruct (Hclean Hc) as (pre & r0 & suf & -> & Hall).
        exists pre, r0, (suf ++ [(r, now)]). rewrite <- app_assoc. split; [done |].
        rewrite app_comm_cons. apply Forall_app_2; [done |]. by repeat constructor.
Qed.

Lemma clean_inv_all obs : forall pre t,
  Forall (fun o => o.2 <> zeroTime) obs -> clean_inv pre t ->
  clean_inv (pre ++ obs) (observe_all obs t).
Proof.
  induction obs as [|[r now] obs IH]; intros pre t Hz Ht; simpl.
  { by rewrite app_nil_r. }
  inversion_clear Hz. rewrite (cons_middle (r, now)), app_assoc.
  apply IH; [done |]. by apply clean_inv_step.
Qed.

(** The window keeps the last results, and no others: a window made for
    [size] results holds exactly the last [max 5 size] of those added to it, in
    the order they came. *)
Theorem Window_last size rs :
  win_entries (fold_left (fun w r => Window_Add r w) rs (NewWindow size))
  = drop (length rs - Z.to_nat (Z.max 5 size)) rs.
Proof.
  assert (Hs : win_size (NewWindow size) = Z.max 5 size).
  { unfold NewWindow. simpl. destruct (Z.ltb_spec size 5); lia. }
  destruct (Window_Add_all rs (NewWindow size) []) as [_ H]; [lia | by rewrite drop_nil |].
  by rewrite H, Hs.
Qed.

Lemma StronglySorted_app_cons_inv {A} (R : A -> A -> Prop) l1 x l2 y :
  StronglySorted R (l1 ++ x :: l2) -> y ∈ l1 -> R y x.
Proof.
  induction l1 as [|z l1 IH]; simpl; intros Hs Hy; [by apply elem_of_nil in Hy |].
  apply StronglySorted_inv in Hs as [Hs Hz].
  apply elem_of_cons in Hy as [-> | Hy]; [| by apply IH].
  rewrite Forall_forall in Hz. apply Hz, elem_of_app. right. by left.
Qed.

(** The clean streak is real.  When a tracker says it has been clean for
    some time, every result observed in that time was a reply: one lost probe
    anywhere in it would have ended the streak.  So the hold-down that failback
    waits for is a span of unbroken replies; and a streak is running exactly
    while the verdict is up. *)
Theorem CleanFor_no_loss path probeCfg failCfg obs now :
  Forall (fun o => o.2 <> zeroTime) obs ->
  StronglySorted Z.le (snd <$> obs) ->
  Forall (fun o => o.2 <= now) obs ->
  let t := observe_all obs (NewTracker path probeCfg failCfg) in
  (tk_health t = HealthUp <-> IsZero (tk_cleanSince t) = false)
  /\ (0 <= CleanFor now t)
  /\ (forall o, o ∈ obs -> now - CleanFor now t < o.2 -> r_Lost o.1 = false).
Proof.
  intros Hz Hs Hnow t.
  destruct (clean_inv_all obs [] (NewTracker path probeCfg failCfg) Hz) as [Hup Hc];
    [split; [by split | done] |].
  fold t in Hup, Hc. simpl in Hc. unfold CleanFor, IsZero, zeroTime in *.
  split; [rewrite Hup; symmetry; apply Z.eqb_neq |].
  destruct (Z.eqb_spec (tk_cleanSince t) 0) as [Hzero|Hne].
  { split; [done |]. intros o Ho Hlt. rewrite Forall_forall in Hnow. specialize (Hnow o Ho). lia. }
  destruct (Hc Hne) as (pre & r & suf & Hobs & Hall).
  assert (Hle : tk_cleanSince t <= now).
  { rewrite Forall_forall in Hnow. apply (Hnow (r, tk_cleanSince t)).
    rewrite Hobs. apply elem_of_app. right. by left. }
  assert (Hsub : 0 <= Sub now (tk_cleanSince t) <= now - tk_cleanSince t).
  { unfold Sub. repeat split_if; bool_to_prop; go_lia. }
  split; [lia |]. intros o Ho Hlt. rewrite Hobs in Ho. apply elem_of_app in Ho as [Ho|Ho].
  - exfalso. rewrite Hobs, fmap_app, fmap_cons in Hs.
    pose proof (StronglySorted_app_cons_inv _ _ _ _ o.2 Hs ltac:(by apply list_elem_of_fmap_2)).
    simpl in *. lia.
  - rewrite Forall_forall in Hall. by apply Hall.
Qed.

(** A tracker whose health is down waits for replies; any other for losses. *)
Lemma observe_losses obs : forall t,
  Forall (fun o => r_Lost o.1 = true) obs ->
  0 <= tk_consecLoss t -> tk_consecLoss t + Z.of_nat (length obs) <= MaxInt64 ->
  tk_health t <> HealthDown -> obs <> [] ->
  tk_consecLoss (observe_all obs t) = tk_consecLoss t + Z.of_nat (length obs)
  /\ tk_consecOK (observe_all obs t) = 0
  /\ (tk_health (observe_all obs t) = HealthDown <->
      probe_FailThreshold (tk_probeCfg t) <= tk_consecLoss t + Z.of_nat (length obs)).
Proof.
  induction obs as [|[r now] obs IH] using rev_ind; intros t Hall H0 Hmax Hd Hne; [done |].
  apply Forall_app in Hall as [Hall Hr]. inversion_clear Hr as [|? ? Hr1 _]. simpl in Hr1.
  unfold observe_all. rewrite fold_left_app. simpl. fold (observe_all obs t).
  rewrite length_app in *. simpl in Hmax. simpl length.
  set (u := observe_all obs t).
  assert (Hu : tk_consecLoss u = tk_consecLoss t + Z.of_nat (length obs)
    /\ tk_probeCfg u = tk_probeCfg t
    /\ (tk_health u = HealthDown -> probe_FailThreshold (tk_probeCfg t)
          <= tk_consecLoss t + Z.of_nat (length obs))).
  { assert (Hp : tk_probeCfg u = tk_probeCfg t).
    { subst u. clear -Hall. revert t. induction obs as [|[r now] obs IHo]; intros t; [done |].
      inversion_clear Hall as [|? ? Hr Hall']. simpl in *. rewrite (IHo Hall').
      by apply (Observe_loss r now t Hr). }
    destruct obs as [|o obs]; [subst u; simpl; split_and!; [lia | done | done] |].
    destruct (IH t Hall H0) as (I1 & _ & I2); [simpl in *; lia | done | done |].
    split_and!; [done | done |]. intros Hh. by apply I2. }
  destruct Hu as (U1 & U2 & U3).
  destruct (Observe_loss r now u Hr1) as (H1 & _ & H3 & H4 & _). rewrite H1, H3, H4, U1, U2.
  rewrite i64_id by go_lia.
  split_and!; [lia | done |].
  destruct (Z.leb_spec (probe_FailThreshold (tk_probeCfg t))
    (tk_consecLoss t + Z.of_nat (length obs) + 1)) as [Hle|Hgt]; [split; [intros _; lia | done] |].
  split; [| lia]. case_bool_decide; [done |]. intros Hh. specialize (U3 Hh). lia.
Qed.

Lemma observe_replies obs : forall t,
  Forall (fun o => r_Lost o.1 = false) obs ->
  0 <= tk_consecOK t -> tk_consecOK t + Z.of_nat (length obs) <= MaxInt64 ->
  tk_health t = HealthDown -> obs <> [] ->
  tk_health (observe_all obs t) =
    (if probe_RecoverThreshold (tk_probeCfg t) <=? tk_consecOK t + Z.of_nat (length obs)
     then HealthUp else HealthDown)
  /\ tk_consecOK (observe_all obs t) = tk_consecOK t + Z.of_nat (length obs)
  /\ tk_probeCfg (observe_all obs t) = tk_probeCfg t.
Proof.
  induction obs as [|[r now] obs IH] using rev_ind; intros t Hall H0 Hmax Hd Hne; [done |].
  apply Forall_app in Hall as [Hall Hr]. inversion_clear Hr as [|? ? Hr1 _]. simpl in Hr1.
  unfold observe_all. rewrite fold_left_app. simpl. fold (observe_all obs t).
  rewrite length_app in *. simpl in Hmax. simpl length.
  set (u := observe_all obs t).
  assert (Hu : tk_consecOK u = tk_consecOK t + Z.of_nat (length obs)
    /\ tk_probeCfg u = tk_probeCfg t
    /\ (tk_health u = HealthDown \/ tk_health u = HealthUp
          /\ probe_RecoverThreshold (tk_probeCfg t) <= tk_consecOK t + Z.of_nat (length obs))).
  { destruct obs as [|o obs]; [subst u; simpl; split_and!; [lia | done | by left] |].
    destruct (IH t Hall H0) as (I1 & I2 & I3); [simpl in *; lia | done | done |].
    split_and!; try done. subst u. rewrite I1. split_if; bool_to_prop; auto. }
  destruct Hu as (U1 & U2 & U3).
  destruct (Observe_reply r now u Hr1) as (H1 & _ & _ & H4 & H5). rewrite H1, H4, H5, U1, U2.
  rewrite i64_id by go_lia.
  split_and!; [| lia | done].
  replace (tk_consecOK t + Z.of_nat (length obs + 1))
    with (tk_consecOK t + Z.of_nat (length obs) + 1) by lia.
  destruct U3 as [-> | [-> Hle]]; simpl.
  - by split_if.
  - destruct (Z.leb_spec (probe_RecoverThreshold (tk_probeCfg t))
      (tk_consecOK t + Z.of_nat (length obs) + 1)); [done | lia].
Qed.

(** ** Detection and recovery *)

(** [C29] Detection takes exactly the configured number of losses, and recovery
    exactly the configured number of replies.  A path that is not down is
    condemned by a run of lost probes iff the run, with the losses already
    counted, reaches [FailThreshold]; a path that is down stays down through a
    run of replies until they reach [RecoverThreshold], and is up from there. *)
Theorem detection_exact obs t :
  obs <> [] ->
  0 <= tk_consecLoss t -> 0 <= tk_consecOK t ->
  tk_consecLoss t + Z.of_nat (length obs) <= MaxInt64 ->
  tk_consecOK t + Z.of_nat (length obs) <= MaxInt64 ->
  (tk_health t <> HealthDown -> Forall (fun o => r_Lost o.1 = true) obs ->
     (tk_health (observe_all obs t) = HealthDown <->
      probe_FailThreshold (tk_probeCfg t) <= tk_consecLoss t + Z.of_nat (length obs)))
  /\ (tk_health t = HealthDown -> Forall (fun o => r_Lost o.1 = false) obs ->
      tk_health (observe_all obs t) =
        (if probe_RecoverThreshold (tk_probeCfg t) <=? tk_consecOK t + Z.of_nat (length obs)
         then HealthUp else HealthDown)).
Proof.
  intros Hne Hl Ho Hlm Hom. split; intros Hd Hall.
  - by apply observe_losses.
  - by apply observe_replies.
Qed.

Definition sample_path : PathConfig :=
  mkPathConfig 2 "lte1" "wg-lte1" 2 102 258 true true no_quota no_shape.
Definition sample_tracker : Tracker :=
  NewTracker sample_path (cfg_Probe Defaults) (cfg_Failover Defaults).
Definition lost_at (t : Time) : Result * Time := (mkResult 2 0 0 true t, t).
Definition reply_at (t : Time) : Result * Time := (mkResult 2 0 20000000 false t, t).

Lemma detection_exact_witness :
  tk_health (observe_all [lost_at 1; lost_at 2; lost_at 3] sample_tracker) = HealthDown <->
  probe_FailThreshold (cfg_Probe Defaults) <= 3.
Proof.
  apply (detection_exact [lost_at 1; lost_at 2; lost_at 3] sample_tracker);
    first [discriminate | vm_compute; discriminate | idtac].
  repeat constructor.
Defined.

Lemma CleanFor_no_loss_witness :
  let obs := [lost_at 10; reply_at 20; reply_at 30; reply_at 40; reply_at 50; reply_at 60;
              reply_at 70; reply_at 80; reply_at 90; reply_at 100; reply_at 110] in
  let t := observe_all obs sample_tracker in
  (tk_health t = HealthUp <-> IsZero (tk_cleanSince t) = false)
  /\ 0 <= CleanFor 150 t
  /\ (forall o, o ∈ obs -> 150 - CleanFor 150 t < o.2 -> r_Lost o.1 = false).
Proof.
  apply (CleanFor_no_loss sample_path (cfg_Probe Defaults) (cfg_Failover Defaults)).
  - repeat constructor; discriminate.
  - repeat constructor; discriminate.
  - repeat constructor; discriminate.
Defined.

(** ** The circuit breaker *)

Lemma double_upto_range n max : forall d,
  0 <= d <= MaxInt64 -> d <= double_upto n max d <= MaxInt64.
Proof.
  induction n as [|n IH]; intros d Hd; simpl; [lia |].
  split_if; [lia |]. split_if; [lia |]. bool_to_prop.
  change (Z.quot MaxInt64 2) with 4611686018427387903 in *.
  rewrite i64_id by go_lia. specialize (IH (d * 2)). go_lia.
Qed.

(** The loop against doubling without limits. *)
Lemma double_upto_spec n max : forall d,
  0 < d <= MaxInt64 -> 0 < max <= 4611686018427387904 ->
  Z.min max (double_upto n max d) = Z.min max (d * 2 ^ Z.of_nat n).
Proof.
  induction n as [|n IH]; intros d Hd Hm; simpl double_upto.
  { change (2 ^ Z.of_nat 0) with 1. by rewrite Z.mul_1_r. }
  assert (Hp : 1 <= 2 ^ Z.of_nat n) by (apply (Z.pow_le_mono_r 2 0); lia).
  rewrite Nat2Z.inj_succ, Z.pow_succ_r by lia.
  destruct (Z.ltb_spec 0 max) as [_|]; [| lia]. simpl.
  destruct (Z.leb_spec max d) as [Hle|Hlt]; [nia |].
  change (Z.quot MaxInt64 2) with 4611686018427387903.
  destruct (Z.ltb_spec 4611686018427387903 d) as [Hbig|Hsmall]; [nia |].
  rewrite i64_id by go_lia. rewrite IH by go_lia. f_equal. lia.
Qed.

(** The quarantine doubles up to its ceiling and never overflows.  For any
    level, however long the path has flapped, the delay is at least the
    configured base and fits a [Duration]; with a ceiling it is exactly
    [base * 2^level] held to the ceiling, or the base where that is larger. *)
Theorem quarantine_delay_exact f level :
  0 < fail_QuarantineSec f * Second <= MaxInt64 -> 0 <= level ->
  in_i64 (fail_QuarantineMaxSec f * Second) ->
  let base := fail_QuarantineSec f * Second in
  let max := fail_QuarantineMaxSec f * Second in
  base <= quarantine_delay f level <= MaxInt64
  /\ (0 < max <= 4611686018427387904 ->
      quarantine_delay f level = Z.max base (Z.min max (base * 2 ^ level))).
Proof.
  intros Hb Hl Hm base max. unfold quarantine_delay, dmul.
  rewrite (i64_id (fail_QuarantineSec f * Second)) by go_lia.
  rewrite (i64_id (fail_QuarantineMaxSec f * Second)) by done. fold base max in Hb, Hm |- *.
  pose proof (double_upto_range (Z.to_nat level) max base ltac:(lia)) as Hr. split.
  - repeat split_if; bool_to_prop; go_lia.
  - intros Hmax. pose proof (double_upto_spec (Z.to_nat level) max base Hb Hmax) as Hs.
    rewrite Z2Nat.id in Hs by done. rewrite <- Hs.
    destruct (Z.ltb_spec 0 max) as [_|]; [| lia]. simpl.
    destruct (Z.ltb_spec max (double_upto (Z.to_nat level) max base));
      split_if; bool_to_prop; lia.
Qed.

Lemma quarantine_delay_exact_witness :
  let f := cfg_Failover Defaults in
  0 < fail_QuarantineSec f * Second
  /\ quarantine_delay f 200 = Z.max (fail_QuarantineSec f * Second)
       (Z.min (fail_QuarantineMaxSec f * Second) (fail_QuarantineSec f * Second * 2 ^ 200)).
Proof.
  split; [vm_compute; reflexivity |].
  apply (quarantine_delay_exact (cfg_Failover Defaults) 200).
  - vm_compute. split; [reflexivity | discriminate].
  - discriminate.
  - vm_compute. split; discriminate.
  - vm_compute. split; [reflexivity | discriminate].
Defined.

(** The breaker holds for its whole delay, and only a full set of failures
    trips it.  When a condemnation completes [FlapThreshold] failures inside
    the flap window, the path is quarantined at every instant from now until
    the delay has run out, and the count starts again from nothing; when it
    does not, the quarantine is what it was and the failure is remembered. *)
Theorem breaker_exact now t :
  let cutoff := now - fail_FlapWindowSec (tk_failCfg t) * Second in
  let kept := filter (fun f => cutoff < f) (tk_failures t ++ [now]) in
  let n := fail_FlapThreshold (tk_failCfg t) in
  let d := quarantine_delay (tk_failCfg t) (tk_quarantineLevel t) in
  0 <= fail_FlapWindowSec (tk_failCfg t) * Second <= MaxInt64 -> 0 < now -> 0 < d ->
  let t' := recordFailure now t in
  (0 < n <= Z.of_nat (length kept) ->
     (forall x, now <= x -> (Quarantined x t' = true <-> x < now + d)) /\ tk_failures t' = [])
  /\ (~ 0 < n <= Z.of_nat (length kept) ->
      tk_quarantineUntil t' = tk_quarantineUntil t /\ tk_failures t' = kept).
Proof.
  intros cutoff kept n d Hw Hnow Hd t'. subst t'. unfold recordFailure, dmul.
  set (w := fail_FlapWindowSec (tk_failCfg t) * Second) in *.
  rewrite (i64_id w) by go_lia. rewrite (i64_id (- w)) by go_lia.
  replace (filter (fun f => After f _ = true) (tk_failures t ++ [now])) with kept.
  2:{ subst kept cutoff. apply list_filter_iff. intros f. unfold After, Add.
      rewrite Z.ltb_lt. by rewrite Z.add_opp_r. }
  fold n d.
  destruct (Z.ltb_spec 0 n); [destruct (Z.leb_spec n (Z.of_nat (length kept))) |]; simpl;
    (split; intros Hn; [| try (exfalso; lia); done]); try (exfalso; lia).
  split; [| done]. intros x Hx.
  unfold Quarantined, quarantineRemaining, IsZero, Before, Add, Sub. simpl.
  destruct (Z.eqb_spec (now + d) 0); [lia |]. simpl.
  destruct (Z.ltb_spec x (now + d)); simpl; [| split; [done | lia]].
  rewrite Z.ltb_lt. repeat split_if; bool_to_prop; go_lia.
Qed.

Lemma breaker_exact_witness :
  (forall x, 400 <= x ->
    (Quarantined x (recordFailure 400 (set_breaker [100; 200; 300] 0 0 sample_tracker)) = true <->
     x < 400 + quarantine_delay (cfg_Failover Defaults) 0))
  /\ tk_failures (recordFailure 400 (set_breaker [100; 200; 300] 0 0 sample_tracker)) = [].
Proof.
  apply (breaker_exact 400 (set_breaker [100; 200; 300] 0 0 sample_tracker));
    vm_compute; try split; first [reflexivity | discriminate].
Defined.
