(* ===== verification/Decimal.v ===== *)
(** * Decimal numerals

    What [strconv.FormatUint(n, 10)], [strconv.Itoa] and
    [strconv.ParseUint(s, 10, 64)] do, for the watermarks the frontend keeps as
    text and the keys it files them under. *)

From S2P Require Import Prelude Bytes.

(** Decimal digits, most significant first.  Twenty are enough for 64 bits. *)
Fixpoint digits (fuel : nat) (n : Z) : list Z :=
  match fuel with
  | O => []
  | S fuel => if n <? 10 then [n] else digits fuel (n / 10) ++ [n mod 10]
  end.

Definition FormatUint (n : Z) : string := bytes_string (Z.add 48 <$> digits 20 n).

Definition Itoa (n : Z) : string :=
  if n <? 0 then ("-" ++ FormatUint (- n))%string else FormatUint n.

Fixpoint parse_digits (acc : Z) (b : bytes) : option Z :=
  match b with
  | [] => Some acc
  | c :: b =>
      if (48 <=? c) && (c <=? 57) then
        let n := acc * 10 + (c - 48) in
        if MaxUint64 <? n then None else parse_digits n b
      else None
  end.

Definition ParseUint (s : string) : option Z :=
  match string_bytes s with [] => None | b => parse_digits 0 b end.

(** The number a list of digits stands for. *)
Definition undigits (acc : Z) (ds : list Z) : Z := fold_left (fun acc d => acc * 10 + d) ds acc.

Lemma digits_ok fuel : forall n,
  0 <= n < 10 ^ Z.of_nat fuel ->
  undigits 0 (digits fuel n) = n /\ Forall (fun d => 0 <= d < 10) (digits fuel n)
  /\ (fuel <> O -> digits fuel n <> []).
Proof.
  induction fuel as [|fuel IH]; intros n Hn; simpl digits.
  { change (10 ^ Z.of_nat 0) with 1 in Hn. split_and!; [simpl; lia | constructor | done]. }
  destruct (Z.ltb_spec n 10) as [Hlt | Hge].
  { split_and!; [simpl; lia | repeat constructor; lia | done]. }
  rewrite Nat2Z.inj_succ, Z.pow_succ_r in Hn by lia.
  destruct (IH (n / 10)) as (H1 & H2 & _).
  { split; [apply Z.div_pos; lia | apply Z.div_lt_upper_bound; lia]. }
  split_and!.
  - unfold undigits in *. rewrite fold_left_app, H1. simpl.
    pose proof (Z.div_mod n 10). lia.
  - apply Forall_app_2; [done |]. constructor; [apply Z.mod_pos_bound; lia | constructor].
  - intros _ H. by apply app_eq_nil in H as [_ H].
Qed.

Lemma undigits_le ds : forall acc, 0 <= acc -> Forall (fun d => 0 <= d < 10) ds ->
  acc <= undigits acc ds.
Proof.
  unfold undigits.
  induction ds as [|d ds IH]; intros acc Ha Hd; simpl; [lia |].
  inversion_clear Hd. specialize (IH (acc * 10 + d) ltac:(lia) ltac:(done)). lia.
Qed.

Lemma parse_digits_ok ds : forall acc,
  0 <= acc -> Forall (fun d => 0 <= d < 10) ds -> undigits acc ds <= MaxUint64 ->
  parse_digits acc (Z.add 48 <$> ds) = Some (undigits acc ds).
Proof.
  induction ds as [|d ds IH]; intros acc Ha Hd Hm; simpl; [done |].
  inversion_clear Hd.
  destruct (Z.leb_spec 48 (48 + d)); [| lia]. destruct (Z.leb_spec (48 + d) 57); [| lia]. simpl.
  replace (48 + d - 48) with d by lia.
  pose proof (undigits_le ds (acc * 10 + d) ltac:(lia) ltac:(done)) as Hle.
  unfold undigits in Hm, Hle. simpl in Hm.
  destruct (Z.ltb_spec MaxUint64 (acc * 10 + d)); [lia |]. apply IH; (done || lia).
Qed.

Lemma u64_digits n : in_u64 n -> 0 <= n < 10 ^ Z.of_nat 20.
Proof.
  change (10 ^ Z.of_nat 20) with 100000000000000000000. go_lia.
Qed.

Lemma FormatUint_bytes n : 0 <= n <= MaxUint64 ->
  string_bytes (FormatUint n) = Z.add 48 <$> digits 20 n.
Proof.
  intros Hn. apply string_bytes_string, Forall_fmap.
  destruct (digits_ok 20 n) as (_ & H & _); [apply u64_digits; done |].
  eapply Forall_impl; [exact H |]. intros d Hd. change (0 <= 48 + d < 256). simpl in Hd. lia.
Qed.

(** What is written is what is read back. *)
Lemma ParseUint_FormatUint n : in_u64 n -> ParseUint (FormatUint n) = Some n.
Proof.
  intros Hn. unfold ParseUint. rewrite FormatUint_bytes by done.
  destruct (digits_ok 20 n) as (H1 & H2 & H3); [apply u64_digits; done |].
  specialize (H3 ltac:(done)).
  pose proof (parse_digits_ok (digits 20 n) 0 ltac:(lia) H2) as H. rewrite H1 in H.
  specialize (H ltac:(apply Hn)).
  destruct (digits 20 n) as [|d ds]; [done |]. exact H.
Qed.

Lemma ParseUint_range s n : ParseUint s = Some n -> in_u64 n.
Proof.
  unfold ParseUint. destruct (string_bytes s) as [|c b]; [done |].
  assert (H : forall b acc, 0 <= acc <= MaxUint64 -> parse_digits acc b = Some n -> in_u64 n).
  { clear. induction b as [|c b IH]; intros acc Ha; simpl; [intros [= <-]; done |].
    destruct (Z.leb_spec 48 c); [| done]. destruct (Z.leb_spec c 57); [| done]. simpl.
    destruct (Z.ltb_spec MaxUint64 (acc * 10 + (c - 48))); [done |]. apply IH. lia. }
  apply H. go_lia.
Qed.

Lemma FormatUint_inj n m : in_u64 n -> in_u64 m -> FormatUint n = FormatUint m -> n = m.
Proof.
  intros Hn Hm H. apply (inj Some). rewrite <- (ParseUint_FormatUint n), <- (ParseUint_FormatUint m) by done.
  by rewrite H.
Qed.

Lemma ParseUint_minus s : ParseUint ("-" ++ s)%string = None.
Proof. reflexivity. Qed.

Lemma FormatUint_nonempty n : in_u64 n -> FormatUint n <> ""%string.
Proof. intros Hn H. pose proof (ParseUint_FormatUint n Hn) as Hp. by rewrite H in Hp. Qed.

Lemma Itoa_inj n m : in_i64 n -> in_i64 m -> Itoa n = Itoa m -> n = m.
Proof.
  intros Hn Hm. unfold Itoa.
  destruct (Z.ltb_spec n 0), (Z.ltb_spec m 0); intros He.
  - cbn [String.append] in He. injection He as He. apply FormatUint_inj in He; [lia | go_lia | go_lia].
  - pose proof (ParseUint_FormatUint m ltac:(go_lia)) as Hp. by rewrite <- He, ParseUint_minus in Hp.
  - pose proof (ParseUint_FormatUint n ltac:(go_lia)) as Hp. by rewrite He, ParseUint_minus in Hp.
  - apply FormatUint_inj in He; [done | go_lia | go_lia].
Qed.

(** [strconv.Atoi]. *)
Definition Atoi (s : bytes) : option Z :=
  let '(neg, digits) := match s with
    | 45 :: d => (true, d) | 43 :: d => (false, d) | _ => (false, s) end in
  match digits with
  | [] => None
  | _ => match parse_digits 0 digits with
         | Some n => let z := if (neg : bool) then - n else n in
                     if (MinInt64 <=? z) && (z <=? MaxInt64) then Some z else None
         | None => None
         end
  end.
