(* ===== verification/Text.v ===== *)
(** * Go's [strings], as far as the configuration is read

    [strings.TrimSpace] and [strings.ToLower] on a string that need not be
    valid UTF-8, with the decoding of runes they share, and [strings.Cut]-like
    splitting at a byte.  A string is its bytes; the case mapping of a rune is
    the Unicode database's, of which [Unicode] names the part relied on. *)

From S2P Require Import Prelude Bytes.

Lemma bytes_string_bytes s : bytes_string (string_bytes s) = s.
Proof.
  unfold bytes_string, string_bytes. rewrite <- list_fmap_compose.
  rewrite <- (String.string_of_list_ascii_of_string s) at 2. f_equal.
  rewrite <- (list_fmap_id (String.list_ascii_of_string s)) at 2.
  apply list_fmap_ext. intros _ c _. cbn. rewrite Nat2Z.id. apply ascii_nat_embedding.
Qed.

Lemma string_bytes_ok s : all_bytes (string_bytes s).
Proof.
  unfold string_bytes. apply Forall_fmap, Forall_forall. intros c _. cbn.
  pose proof (nat_ascii_bounded c). unfold is_byte. lia.
Qed.

Lemma string_bytes_inj s t : string_bytes s = string_bytes t -> s = t.
Proof. intros H. by rewrite <- (bytes_string_bytes s), H, bytes_string_bytes. Qed.

(** ** White space *)

(** The length of the white-space rune a string begins with, if it does:
    [unicode.IsSpace] holds of these byte sequences and no others. *)
Definition space_front (b : bytes) : nat :=
  match b with
  | x :: rest =>
      if (x =? 32) || ((9 <=? x) && (x <=? 13)) then 1%nat
      else match rest with
      | y :: rest =>
          if (x =? 194) && ((y =? 133) || (y =? 160)) then 2%nat
          else match rest with
          | z :: _ =>
              if ((x =? 225) && (y =? 154) && (z =? 128))
                 || ((x =? 226) && (y =? 128)
                     && (((128 <=? z) && (z <=? 138)) || (z =? 168) || (z =? 169) || (z =? 175)))
                 || ((x =? 226) && (y =? 129) && (z =? 159))
                 || ((x =? 227) && (y =? 128) && (z =? 128))
              then 3%nat else 0%nat
          | [] => 0%nat
          end
      | [] => 0%nat
      end
  | [] => 0%nat
  end.

(** The same at the end of a string, given reversed. *)
Definition space_back (b : bytes) : nat :=
  let n1 := space_front (rev (take 1 b)) in
  let n2 := space_front (rev (take 2 b)) in
  let n3 := space_front (rev (take 3 b)) in
  if (n1 =? 1)%nat then 1%nat else if (n2 =? 2)%nat then 2%nat
  else if (n3 =? 3)%nat then 3%nat else 0%nat.

Fixpoint trim_with (f : bytes -> nat) (fuel : nat) (b : bytes) : bytes :=
  match fuel with
  | O => b
  | S fuel => match f b with O => b | n => trim_with f fuel (drop n b) end
  end.

Definition trim_left (b : bytes) : bytes := trim_with space_front (length b) b.
Definition trim_right (b : bytes) : bytes := rev (trim_with space_back (length b) (rev b)).
Definition trim_bytes (b : bytes) : bytes := trim_right (trim_left b).

(** [strings.TrimSpace]. *)
Definition TrimSpace (s : string) : string := bytes_string (trim_bytes (string_bytes s)).

Lemma space_front_le b : (space_front b <= length b)%nat.
Proof.
  destruct b as [|x [|y [|z b]]]; cbn; repeat split_if; lia.
Qed.

Lemma space_back_le b : (space_back b <= length b)%nat.
Proof.
  assert (H : forall n, (space_front (rev (take n b)) <= length b)%nat).
  { intros n. pose proof (space_front_le (rev (take n b))) as Hl.
    rewrite length_rev, length_take in Hl. lia. }
  unfold space_back. pose proof (H 1%nat). pose proof (H 2%nat). pose proof (H 3%nat).
  repeat split_if; try lia;
    repeat match goal with E : (_ =? _)%nat = true |- _ => apply Nat.eqb_eq in E end; lia.
Qed.

(** A space a prefix begins with is one the whole begins with. *)
Lemma space_front_app a b : space_front (a ++ b) = 0%nat -> space_front a = 0%nat.
Proof.
  destruct a as [|x [|y [|z a]]]; cbn; [done | | |]; intros H; repeat split_if_in H; done.
Qed.

Lemma trim_with_stops f fuel b :
  (forall b, (f b <= length b)%nat) -> (length b <= fuel)%nat -> f [] = 0%nat ->
  f (trim_with f fuel b) = 0%nat.
Proof.
  intros Hf. revert b. induction fuel as [|fuel IH]; intros b Hl H0; cbn.
  - destruct b; [done | cbn in Hl; lia].
  - destruct (f b) eqn:E; [done |]. apply IH; [| done].
    pose proof (Hf b) as Hb. rewrite length_drop. lia.
Qed.

Lemma trim_with_id f fuel b : f b = 0%nat -> trim_with f fuel b = b.
Proof. intros H. destruct fuel; cbn; [done |]. by rewrite H. Qed.

Lemma trim_with_suffix f fuel b : exists a, b = a ++ trim_with f fuel b.
Proof.
  revert b. induction fuel as [|fuel IH]; intros b; cbn; [by exists [] |].
  destruct (f b) as [|n] eqn:E; [by exists [] |].
  destruct (IH (drop (S n) b)) as [a Ha]. exists (take (S n) b ++ a).
  by rewrite <- app_assoc, <- Ha, take_drop.
Qed.

Lemma trim_left_prefix b : exists a, b = a ++ trim_left b.
Proof. apply trim_with_suffix. Qed.
Lemma trim_right_suffix b : exists c, b = trim_right b ++ c.
Proof.
  unfold trim_right. destruct (trim_with_suffix space_back (length b) (rev b)) as [a Ha].
  exists (rev a). rewrite <- rev_app_distr, <- Ha. by rewrite rev_involutive.
Qed.

Lemma trim_bytes_ends b :
  space_front (trim_bytes b) = 0%nat /\ space_back (rev (trim_bytes b)) = 0%nat.
Proof.
  unfold trim_bytes. split.
  - destruct (trim_right_suffix (trim_left b)) as [c Hc]. eapply space_front_app.
    rewrite <- Hc. apply trim_with_stops; [apply space_front_le | done | done].
  - unfold trim_right. rewrite rev_involutive.
    apply trim_with_stops; [apply space_back_le | by rewrite length_rev | done].
Qed.

Lemma trim_bytes_id b :
  space_front b = 0%nat -> space_back (rev b) = 0%nat -> trim_bytes b = b.
Proof.
  intros Hf Hb. unfold trim_bytes, trim_left. rewrite (trim_with_id _ _ b Hf).
  unfold trim_right. rewrite trim_with_id by done. apply rev_involutive.
Qed.

Lemma trim_bytes_idem b : trim_bytes (trim_bytes b) = trim_bytes b.
Proof. apply trim_bytes_id; apply trim_bytes_ends. Qed.

Lemma trim_bytes_sub b x : x ∈ trim_bytes b -> x ∈ b.
Proof.
  unfold trim_bytes. destruct (trim_left_prefix b) as [a Ha].
  destruct (trim_right_suffix (trim_left b)) as [c Hc]. intros H.
  rewrite Ha, Hc. set_solver.
Qed.

Lemma trim_bytes_ok b : all_bytes b -> all_bytes (trim_bytes b).
Proof.
  rewrite !Forall_forall. intros H x Hx. apply H. by apply trim_bytes_sub.
Qed.

Lemma string_bytes_trim s : string_bytes (TrimSpace s) = trim_bytes (string_bytes s).
Proof. apply string_bytes_string, trim_bytes_ok, string_bytes_ok. Qed.

Lemma TrimSpace_idem s : TrimSpace (TrimSpace s) = TrimSpace s.
Proof. unfold TrimSpace at 1. by rewrite string_bytes_trim, trim_bytes_idem. Qed.

(** A string with no byte that begins or ends a space is left alone. *)
Definition plain_byte (x : Z) : bool := (33 <=? x) && (x <? 128).

Lemma plain_front b : forallb plain_byte b = true -> space_front b = 0%nat.
Proof.
  unfold plain_byte. destruct b as [|x [|y [|z b]]]; cbn; intros H; [done | | |];
    repeat match goal with H : (_ && _) = true |- _ => apply andb_true_iff in H; destruct H end;
    bool_to_prop; repeat split_if; try done; exfalso; bool_to_prop;
    repeat match goal with
    | H : (_ || _) = true |- _ => apply orb_true_iff in H; destruct H
    | H : (_ && _) = true |- _ => apply andb_true_iff in H; destruct H
    end; bool_to_prop; lia.
Qed.

Lemma plain_sublist a b : (forall x, x ∈ a -> x ∈ b) -> forallb plain_byte b = true -> forallb plain_byte a = true.
Proof.
  rewrite !forallb_forall. intros Hs H x Hx. apply H, list_elem_of_In, Hs. by apply list_elem_of_In.
Qed.

Lemma elem_of_rev_list {A} (l : list A) x : x ∈ rev l -> x ∈ l.
Proof. rewrite !list_elem_of_In. apply in_rev. Qed.

Lemma plain_back b : forallb plain_byte b = true -> space_back b = 0%nat.
Proof.
  intros H. unfold space_back.
  assert (Hn : forall n, space_front (rev (take n b)) = 0%nat).
  { intros n. apply plain_front. eapply plain_sublist; [| exact H]. intros x Hx.
    apply elem_of_rev_list in Hx. rewrite <- (take_drop n b). set_solver. }
  by rewrite !Hn.
Qed.

Lemma TrimSpace_plain s : forallb plain_byte (string_bytes s) = true -> TrimSpace s = s.
Proof.
  intros H. unfold TrimSpace. rewrite trim_bytes_id, bytes_string_bytes; [done | by apply plain_front |].
  apply plain_back. eapply plain_sublist; [| exact H]. intros x Hx. by apply elem_of_rev_list in Hx.
Qed.

(** ** Runes *)

(** The replacement rune, and what an invalid byte decodes to. *)
Definition RuneError : Z := 65533.
Definition cont (b : Z) : bool := (128 <=? b) && (b <=? 191).

(** The first rune of a string and the bytes it takes, as [utf8.DecodeRune]:
    an invalid or truncated sequence is one [RuneError] one byte long. *)
Definition decode_rune (b : bytes) : Z * nat :=
  match b with
  | [] => (RuneError, 0%nat)
  | x :: rest =>
      if x <? 128 then (x, 1%nat)
      else if (194 <=? x) && (x <=? 223) then
        match rest with
        | y :: _ => if cont y then (Z.land x 31 * 64 + Z.land y 63, 2%nat) else (RuneError, 1%nat)
        | [] => (RuneError, 1%nat)
        end
      else if (224 <=? x) && (x <=? 239) then
        match rest with
        | y :: z :: _ =>
            let lo := if x =? 224 then 160 else 128 in
            let hi := if x =? 237 then 159 else 191 in
            if (lo <=? y) && (y <=? hi) && cont z
            then (Z.land x 15 * 4096 + Z.land y 63 * 64 + Z.land z 63, 3%nat)
            else (RuneError, 1%nat)
        | _ => (RuneError, 1%nat)
        end
      else if (240 <=? x) && (x <=? 244) then
        match rest with
        | y :: z :: w :: _ =>
            let lo := if x =? 240 then 144 else 128 in
            let hi := if x =? 244 then 143 else 191 in
            if (lo <=? y) && (y <=? hi) && cont z && cont w
            then (Z.land x 7 * 262144 + Z.land y 63 * 4096 + Z.land z 63 * 64 + Z.land w 63, 4%nat)
            else (RuneError, 1%nat)
        | _ => (RuneError, 1%nat)
        end
      else (RuneError, 1%nat)
  end.

Fixpoint decode_runes_fuel (fuel : nat) (b : bytes) : list Z :=
  match fuel, b with
  | S fuel, _ :: _ => let '(r, n) := decode_rune b in r :: decode_runes_fuel fuel (drop n b)
  | _, _ => []
  end.
Definition decode_runes (b : bytes) : list Z := decode_runes_fuel (length b) b.

(** [utf8.AppendRune]. *)
Definition encode_rune (r : Z) : bytes :=
  if (0 <=? r) && (r <? 128) then [r]
  else if (0 <=? r) && (r <? 2048) then [192 + r / 64; 128 + r mod 64]
  else if (r <? 0) || (1114111 <? r) || ((55296 <=? r) && (r <=? 57343)) then [239; 191; 189]
  else if r <? 65536 then [224 + r / 4096; 128 + (r / 64) mod 64; 128 + r mod 64]
  else [240 + r / 262144; 128 + (r / 4096) mod 64; 128 + (r / 64) mod 64; 128 + r mod 64].

(** [unicode.ToLower], of which only its effect on and into ASCII is relied
    on: besides the capital letters, exactly two runes have an ASCII image. *)
Class Unicode := {
  to_lower : Z -> Z;
  to_lower_ascii r : 0 <= r < 128 ->
    to_lower r = if (65 <=? r) && (r <=? 90) then r + 32 else r;
  to_lower_dotted : to_lower 304 = 105;
  to_lower_kelvin : to_lower 8490 = 107;
  to_lower_other r : 128 <= r -> r <> 304 -> r <> 8490 -> 128 <= to_lower r }.

(** [strings.ToLower]. *)
Definition ToLower `{Unicode} (s : string) : string :=
  bytes_string (concat (encode_rune ∘ to_lower <$> decode_runes (string_bytes s))).

(** The case mapping restricted to what the laws fix. *)
Definition ascii_to_lower (r : Z) : Z :=
  if (65 <=? r) && (r <=? 90) then r + 32 else if r =? 304 then 105 else if r =? 8490 then 107 else r.
#[refine] Definition AsciiUnicode : Unicode := {| to_lower := ascii_to_lower |}.
Proof.
  - intros r Hr. unfold ascii_to_lower. split_if; [done |].
    destruct (Z.eqb_spec r 304); [lia |]. destruct (Z.eqb_spec r 8490); [lia |]. done.
  - done.
  - done.
  - intros r Hr H1 H2. unfold ascii_to_lower.
    destruct (Z.leb_spec 65 r), (Z.leb_spec r 90); cbn; try lia;
      destruct (Z.eqb_spec r 304), (Z.eqb_spec r 8490); lia.
Defined.

Lemma decode_rune_pos b : b <> [] -> (1 <= (decode_rune b).2 <= length b)%nat.
Proof.
  destruct b as [|x [|y [|z [|w b]]]]; [done | | | |]; intros _; cbn;
    repeat split_if; cbn; lia.
Qed.

Lemma decode_ascii b : Forall (fun x => 0 <= x < 128) b -> decode_runes b = b.
Proof.
  unfold decode_runes. intros H. 
  induction H as [|x b Hx Hb IH]; [done |]. cbn [length decode_runes_fuel].
  unfold decode_rune. destruct (Z.ltb_spec x 128); [| lia]. by rewrite drop_0 || (cbn; f_equal).
Qed.

(** A rune of more than one byte is not ASCII. *)
Lemma decode_rune_ascii b : all_bytes b -> b <> [] -> (decode_rune b).1 < 128 ->
  exists x t, b = x :: t /\ x < 128 /\ decode_rune b = (x, 1%nat).
Proof.
  intros Hb Hne Hr. destruct b as [|x t]; [done |]. exists x, t. split; [done |].
  assert (Hand : forall a k, 0 <= k -> Z.land a (Z.ones k) = a mod 2 ^ k) by (intros; by apply Z.land_ones).
  pose proof (Hand x 5 ltac:(lia)) as E5. pose proof (Hand x 4 ltac:(lia)) as E4. pose proof (Hand x 3 ltac:(lia)) as E3.
  change (Z.ones 5) with 31 in E5. change (Z.ones 4) with 15 in E4. change (Z.ones 3) with 7 in E3.
  change (2 ^ 5) with 32 in E5. change (2 ^ 4) with 16 in E4. change (2 ^ 3) with 8 in E3.
  assert (Hc : forall y, Z.land y 63 = y mod 64) by (intros y; change 63 with (Z.ones 6); by apply Hand).
  unfold decode_rune in *. destruct (Z.ltb_spec x 128); [done |]. exfalso.
  rewrite ?E5, ?E4, ?E3 in Hr.
  destruct ((194 <=? x) && (x <=? 223)) eqn:C2; [| destruct ((224 <=? x) && (x <=? 239)) eqn:C3;
    [| destruct ((240 <=? x) && (x <=? 244)) eqn:C4]]; bool_to_prop.
  - destruct t as [|y t]; [done |]. destruct (cont y); [| done]. cbn [fst] in Hr. rewrite Hc in Hr.
    Z.div_mod_to_equations. lia.
  - destruct t as [|y [|z t]]; [done | done |]. destruct (_ && cont z) eqn:Eg; [| done]. cbn [fst] in Hr.
    rewrite !Hc in Hr. unfold cont in Eg. revert Eg.
    destruct (x =? 224) eqn:E224, (x =? 237) eqn:E237; intros Eg; bool_to_prop; Z.div_mod_to_equations; lia.
  - destruct t as [|y [|z [|w t]]]; [done | done | done |]. destruct (_ && cont w) eqn:Eg; [| done]. cbn [fst] in Hr.
    rewrite !Hc in Hr. unfold cont in Eg. revert Eg.
    destruct (x =? 240) eqn:E240, (x =? 244) eqn:E244; intros Eg; bool_to_prop; Z.div_mod_to_equations; lia.
  - done.
Qed.
Lemma decode_ascii_inv b : all_bytes b -> Forall (fun r => r < 128) (decode_runes b) -> decode_runes b = b.
Proof.
  unfold decode_runes. intros Hb. induction Hb as [|x t Hx Ht IH]; [done |]. cbn [length decode_runes_fuel].
  intros Hr. destruct (decode_rune (x :: t)) as [r n] eqn:E.
  apply Forall_cons in Hr as [Hr Hrs].
  destruct (decode_rune_ascii (x :: t)) as (y & t' & [= <- <-] & Hy & E');
    [by constructor | done | by rewrite E |]. rewrite E in E'. injection E' as -> ->.
  cbn [drop] in *. rewrite drop_0 in *. by rewrite IH.
Qed.

(** On ASCII, [ToLower] is the mapping of its letters. *)
Lemma ToLower_ascii `{Unicode} s :
  Forall (fun x => 0 <= x < 128) (string_bytes s) ->
  ToLower s = bytes_string ((fun r => if (65 <=? r) && (r <=? 90) then r + 32 else r) <$> string_bytes s).
Proof.
  intros Hs. unfold ToLower. rewrite decode_ascii by done. f_equal.
  induction Hs as [|x b Hx Hb IH]; [done |]. cbn. rewrite IH, to_lower_ascii by done.
  unfold encode_rune.
  assert (Hr : (0 <=? (if (65 <=? x) && (x <=? 90) then x + 32 else x))
            && ((if (65 <=? x) && (x <=? 90) then x + 32 else x) <? 128) = true).
  { destruct (Z.leb_spec 65 x), (Z.leb_spec x 90); cbn; apply andb_true_intro; split;
      (apply Z.leb_le || apply Z.ltb_lt); lia. }
  by rewrite Hr.
Qed.

Definition lower_ascii (x : Z) : bool := ((97 <=? x) && (x <=? 122)).
Lemma ToLower_lower `{Unicode} s :
  forallb (fun x => (33 <=? x) && (x <? 65) || (91 <=? x) && (x <? 128)) (string_bytes s) = true ->
  ToLower s = s.
Proof.
  rewrite forallb_forall. intros Hs.
  assert (Hr : forall x, x ∈ string_bytes s -> 0 <= x < 128 /\ (65 <=? x) && (x <=? 90) = false).
  { intros x Hx. apply list_elem_of_In, Hs in Hx. apply orb_true_iff in Hx as [Hx|Hx]; bool_to_prop;
      (split; [lia | apply andb_false_iff; rewrite !Z.leb_gt; lia]). }
  rewrite ToLower_ascii by (apply Forall_forall; intros x Hx; by apply Hr).
  rewrite <- (bytes_string_bytes s) at 2. f_equal.
  rewrite <- (list_fmap_id (string_bytes s)) at 2. apply list_fmap_ext. intros i x Hx.
  apply list_elem_of_lookup_2, Hr in Hx as [_ ->]. done.
Qed.

(** ** Lines and fields *)

(** [strings.Split(s, "\n")]. *)
Fixpoint split_lines (acc b : bytes) : list bytes :=
  match b with
  | [] => [rev acc]
  | c :: b => if c =? 10 then rev acc :: split_lines [] b else split_lines (c :: acc) b
  end.

(** [strings.Fields]: the maximal runs without white space. *)
Definition flush_field (cur : bytes) : list bytes := match cur with [] => [] | _ => [rev cur] end.
Fixpoint fields_fuel (fuel : nat) (cur b : bytes) : list bytes :=
  match fuel, b with
  | S fuel, x :: rest =>
      match space_front b with
      | O => fields_fuel fuel (x :: cur) rest
      | n => flush_field cur ++ fields_fuel fuel [] (drop n b)
      end
  | _, _ => flush_field cur
  end.
Definition Fields (s : string) : list string :=
  bytes_string <$> fields_fuel (String.length s) [] (string_bytes s).

(** [strings.Cut(s, ":")]. *)
Fixpoint cut_byte (c : Z) (acc b : bytes) : option (bytes * bytes) :=
  match b with
  | [] => None
  | x :: b => if x =? c then Some (rev acc, b) else cut_byte c (x :: acc) b
  end.

Example Fields_ex : Fields "  from all	fwmark 0x101 " = ["from"; "all"; "fwmark"; "0x101"]%string /\ Fields " " = [].
Proof. split; vm_compute; reflexivity. Qed.

(** A word: what a field is. *)
Definition word (s : string) : Prop := s <> ""%string /\ forallb plain_byte (string_bytes s) = true.

Definition join_bytes (sep : bytes) (l : list bytes) : bytes :=
  match l with [] => [] | x :: l => x ++ concat ((fun y => sep ++ y) <$> l) end.

Lemma string_bytes_append a b : string_bytes (a ++ b)%string = string_bytes a ++ string_bytes b.
Proof. unfold string_bytes. induction a as [|c a IH]; cbn; [done |]. by rewrite <- IH. Qed.

Lemma append_assoc (a b c : string) : ((a ++ b) ++ c = a ++ b ++ c)%string.
Proof. induction a as [|x a IH]; [done |]. change (String x ((a ++ b) ++ c) = String x (a ++ b ++ c))%string. by rewrite IH. Qed.

Lemma string_bytes_concat sep l :
  string_bytes (String.concat sep l) = join_bytes (string_bytes sep) (string_bytes <$> l).
Proof.
  destruct l as [|x l]; [done |]. cbn [fmap list_fmap join_bytes]. revert x.
  induction l as [|y l IH]; intros x; cbn [fmap list_fmap concat].
  { change (String.concat sep [x]) with x. symmetry. apply app_nil_r. }
  change (String.concat sep (x :: y :: l)) with (x ++ sep ++ String.concat sep (y :: l))%string.
  rewrite !string_bytes_append, (IH y). by rewrite <- !app_assoc.
Qed.

Lemma string_length_bytes s : String.length s = length (string_bytes s).
Proof. induction s as [|c s IH]; [done |]. cbn. by rewrite IH. Qed.

(** Scanning a word, then a space. *)
Lemma fields_word w : forallb plain_byte w = true -> forall fuel cur b,
  (length w <= fuel)%nat -> fields_fuel fuel cur (w ++ b) = fields_fuel (fuel - length w) (rev w ++ cur) b.
Proof.
  induction w as [|x w IH]; intros Hw fuel cur b Hf; [cbn; by rewrite Nat.sub_0_r |].
  destruct fuel as [|fuel]; [cbn in Hf; lia |]. cbn in Hw. apply andb_true_iff in Hw as [Hx Hw].
  cbn [app fields_fuel].
  assert (Hs : space_front (x :: w ++ b) = 0%nat).
  { unfold plain_byte in Hx. bool_to_prop. cbn [space_front].
    destruct (Z.eqb_spec x 32), (Z.leb_spec 9 x), (Z.leb_spec x 13); try lia; cbn [orb andb];
      (destruct (w ++ b) as [|y [|z r]]; [done | |];
       repeat (match goal with |- context [x =? ?k] => destruct (Z.eqb_spec x k); [lia |] end); done). }
  rewrite Hs. rewrite IH by (done || (cbn in Hf; lia)). cbn [length rev]. rewrite <- app_assoc.
  by replace (S fuel - S (length w))%nat with (fuel - length w)%nat by lia.
Qed.

Lemma fields_space x fuel cur b : x = 32 \/ 9 <= x <= 13 ->
  fields_fuel (S fuel) cur (x :: b) = flush_field cur ++ fields_fuel fuel [] b.
Proof.
  intros Hx. cbn [fields_fuel]. assert (space_front (x :: b) = 1%nat) as ->; [| done].
  cbn [space_front]. destruct Hx as [->|Hx]; [done |].
  destruct (Z.leb_spec 9 x), (Z.leb_spec x 13); try lia. by rewrite orb_true_r.
Qed.

Lemma flush_word w : w <> [] -> flush_field (rev w ++ []) = [w].
Proof.
  intros Hw. rewrite app_nil_r. unfold flush_field.
  destruct (rev w) eqn:E; [apply (f_equal (@rev Z)) in E; rewrite rev_involutive in E; by destruct Hw |].
  by rewrite <- E, rev_involutive.
Qed.

Lemma fields_join ws : Forall (fun w => w <> [] /\ forallb plain_byte w = true) ws -> forall fuel,
  (length (join_bytes [32%Z] ws) <= fuel)%nat -> fields_fuel fuel [] (join_bytes [32] ws) = ws.
Proof.
  destruct ws as [|w ws]; [by destruct fuel |]. intros Hws. revert w Hws.
  induction ws as [|v ws IH]; intros w Hws fuel Hf; apply Forall_cons in Hws as [[Hne Hw] Hws];
    cbn [join_bytes fmap list_fmap concat] in *.
  - rewrite app_nil_r in *. rewrite <- (app_nil_r w) at 1. rewrite fields_word by done.
    destruct (fuel - length w)%nat; cbn [fields_fuel]; by apply flush_word.
  - rewrite fields_word by (done || (rewrite length_app in Hf; lia)). cbn [app].
    rewrite !length_app in Hf. cbn [length app] in Hf.
    destruct (fuel - length w)%nat as [|fuel'] eqn:Ef; [lia |].
    rewrite fields_space by by left. rewrite flush_word by done. cbn [app]. f_equal.
    apply (IH v Hws). cbn. rewrite length_app. lia.
Qed.

Lemma words_back (ws : list string) : bytes_string <$> (string_bytes <$> ws) = ws.
Proof.
  rewrite <- list_fmap_compose. rewrite (list_fmap_ext _ id); [by rewrite list_fmap_id |].
  intros i s _. apply bytes_string_bytes.
Qed.

Lemma words_bytes (ws : list string) : Forall word ws -> Forall (fun w => w <> [] /\ forallb plain_byte w = true) (string_bytes <$> ws).
Proof.
  intros Hws. apply Forall_fmap. eapply Forall_impl; [exact Hws |]. intros s [Hne Hs]. cbn. split; [| done].
  intros E. apply Hne. rewrite <- (bytes_string_bytes s), E. done.
Qed.

(** The fields of a line of words after one white-space byte. *)
Lemma Fields_words c ws : c = 32 \/ 9 <= c <= 13 -> Forall word ws ->
  Fields (bytes_string [c] ++ String.concat " " ws)%string = ws.
Proof.
  intros Hc Hws. unfold Fields. rewrite string_length_bytes, string_bytes_append, string_bytes_concat.
  assert (Hb : string_bytes (bytes_string [c]) = [c]).
  { apply string_bytes_string. constructor; [unfold is_byte; lia | constructor]. }
  rewrite Hb. cbn [app length]. rewrite fields_space by done. cbn [flush_field app].
  change (string_bytes " ") with [32]. rewrite fields_join.
  - apply words_back.
  - by apply words_bytes.
  - done.
Qed.

(** The fields of words with spaces between. *)
Lemma Fields_concat ws : Forall word ws -> Fields (String.concat " " ws) = ws.
Proof.
  intros Hws. unfold Fields. rewrite string_length_bytes, string_bytes_concat. change (string_bytes " ") with [32].
  rewrite fields_join by (done || by apply words_bytes). apply words_back.
Qed.

(** A word, one white-space byte, and words. *)
Lemma Fields_cons w c ws : word w -> c = 32 \/ 9 <= c <= 13 -> Forall word ws ->
  Fields (w ++ bytes_string [c] ++ String.concat " " ws)%string = w :: ws.
Proof.
  intros [Hne Hw] Hc Hws. unfold Fields. rewrite string_length_bytes, !string_bytes_append, string_bytes_concat.
  assert (Hb : string_bytes (bytes_string [c]) = [c]).
  { apply string_bytes_string. constructor; [unfold is_byte; lia | constructor]. }
  rewrite Hb. change (string_bytes " ") with [32]. rewrite !length_app. cbn [length].
  rewrite fields_word by (done || lia). cbn [app].
  set (rest := join_bytes _ _). replace (length (string_bytes w) + (1 + length rest) - length (string_bytes w))%nat
    with (S (length rest)) by lia.
  rewrite fields_space by done. rewrite flush_word.
  2:{ intros E. apply Hne. rewrite <- (bytes_string_bytes w), E. done. }
  unfold rest. rewrite fields_join by (done || by apply words_bytes). cbn [app fmap list_fmap].
  by rewrite bytes_string_bytes, words_back.
Qed.

Lemma cut_byte_ok c a b acc : c ∉ a -> cut_byte c acc (a ++ c :: b) = Some (rev acc ++ a, b).
Proof.
  revert acc. induction a as [|x a IH]; intros acc Ha; cbn [app cut_byte].
  - by rewrite Z.eqb_refl, app_nil_r.
  - destruct (Z.eqb_spec x c) as [->|]; [set_solver |]. rewrite IH by set_solver. cbn. by rewrite <- app_assoc.
Qed.

Lemma split_lines_app a b acc : 10 ∉ a -> split_lines acc (a ++ 10 :: b) = (rev acc ++ a) :: split_lines [] b.
Proof.
  revert acc. induction a as [|x a IH]; intros acc Ha; cbn [app split_lines].
  - by rewrite app_nil_r.
  - destruct (Z.eqb_spec x 10) as [->|]; [set_solver |]. rewrite IH by set_solver. cbn. by rewrite <- app_assoc.
Qed.

Lemma split_lines_last a acc : 10 ∉ a -> split_lines acc a = [rev acc ++ a].
Proof.
  revert acc. induction a as [|x a IH]; intros acc Ha; cbn [split_lines]; [by rewrite app_nil_r |].
  destruct (Z.eqb_spec x 10) as [->|]; [set_solver |]. rewrite IH by set_solver. cbn. by rewrite <- app_assoc.
Qed.

Lemma split_lines_join ls : ls <> [] -> Forall (fun l => 10 ∉ l) ls -> split_lines [] (join_bytes [10] ls) = ls.
Proof.
  destruct ls as [|l ls]; [done |]. intros _. revert l. induction ls as [|m ls IH]; intros l Hls;
    apply Forall_cons in Hls as [Hl Hls]; cbn [join_bytes fmap list_fmap concat].
  - rewrite app_nil_r. by apply split_lines_last.
  - cbn [app]. rewrite split_lines_app by done. cbn. f_equal. by apply (IH m).
Qed.
