(* ===== verification/Net.v ===== *)
(** * Addresses and networks (Go's [net] and [net/netip])

    What the configuration and the generated rulesets use of them:
    [net.ParseIP], [net.ParseCIDR], [IPNet.Contains] and the printed forms of
    an IPv4 address and network, with the three readers built on them in the
    repository: [AddressLiteral] and [NetworkLiteral] ([internal/sysx/nft.go])
    and [parseIPv4Network] and [parseIPv4Address] ([internal/web/api.go]).  An
    address is its sixteen bytes, as [net.IP] from [ParseIP] has it. *)

From S2P Require Import Prelude Bytes Decimal Text.

Definition is_digit (c : Z) : bool := (48 <=? c) && (c <=? 57).

(** [netip.parseIPv4Fields]. *)
Fixpoint v4_fields (s : bytes) (acc : bytes) (val digLen : Z) : option bytes :=
  match s with
  | [] => if (length acc <? 3)%nat then None else Some (acc ++ [val])
  | c :: s =>
      if is_digit c then
        if (digLen =? 1) && (val =? 0) then None
        else if 255 <? val * 10 + (c - 48) then None
        else v4_fields s acc (val * 10 + (c - 48)) (digLen + 1)
      else if c =? 46 then
        if (digLen =? 0) || bool_decide (s = []) then None
        else if (length acc =? 3)%nat then None
        else v4_fields s (acc ++ [val]) 0 0
      else None
  end.

(** [netip.parseIPv6], of a string without a zone: one group of hexadecimal
    digits, then the loop over groups. *)
Fixpoint hex_group (off : nat) (acc : Z) (s : bytes) : option (nat * Z * bytes) :=
  match s with
  | c :: s' =>
      match hexValue (if (65 <=? c) && (c <=? 70) then c + 32 else c) with
      | Some v => if (3 <? off)%nat then None else hex_group (S off) (acc * 16 + v) s'
      | None => Some (off, acc, s)
      end
  | [] => Some (off, acc, [])
  end.

Fixpoint v6_loop (fuel : nat) (ip : bytes) (ellipsis : option nat) (s : bytes)
    : option (bytes * option nat * bytes) :=
  match fuel with
  | O => Some (ip, ellipsis, s)
  | S fuel =>
      match hex_group 0 0 s with
      | None => None
      | Some (O, _, _) => None
      | Some (_, acc, rest) =>
          match rest with
          | 46 :: _ =>
              if negb (bool_decide (is_Some ellipsis)) && negb (length ip =? 12)%nat then None
              else if (16 <? length ip + 4)%nat then None
              else match v4_fields s [] 0 0 with
                   | None => None
                   | Some v4 => Some (ip ++ v4, ellipsis, [])
                   end
          | _ =>
              let ip := ip ++ [acc / 256; acc mod 256] in
              match rest with
              | [] => Some (ip, ellipsis, [])
              | 58 :: [] => None
              | 58 :: 58 :: s =>
                  if bool_decide (is_Some ellipsis) then None
                  else match s with
                       | [] => Some (ip, Some (length ip), [])
                       | _ => v6_loop fuel ip (Some (length ip)) s
                       end
              | 58 :: s => v6_loop fuel ip ellipsis s
              | _ => None
              end
          end
      end
  end.

Definition v6_addr (s : bytes) : option bytes :=
  let '(ellipsis, s0) := match s with 58 :: 58 :: s => (Some 0%nat, s) | _ => (None, s) end in
  if bool_decide (is_Some ellipsis) && bool_decide (s0 = []) then Some (zeros 16)
  else
    match v6_loop 8 [] ellipsis s0 with
    | None => None
    | Some (ip, ellipsis, rest) =>
        if negb (bool_decide (rest = [])) then None
        else if (length ip <? 16)%nat then
          match ellipsis with
          | None => None
          | Some e => Some (take e ip ++ zeros (16 - length ip) ++ drop e ip)
          end
        else if bool_decide (is_Some ellipsis) then None else Some ip
    end.

(** The first byte that says which family a string is. *)
Definition family_byte (c : Z) : bool := (c =? 46) || (c =? 58) || (c =? 37).
Definition v4_mapped : bytes := zeros 10 ++ [255; 255].

Inductive addr := Addr4 (ip : bytes) | Addr6 (ip : bytes).

(** [netip.ParseAddr], an address with a zone being of no use here. *)
Definition ParseAddr (s : bytes) : option addr :=
  match List.find family_byte s with
  | Some 46 => Addr4 <$> v4_fields s [] 0 0
  | Some 58 => if existsb (Z.eqb 37) s then None else Addr6 <$> v6_addr s
  | _ => None
  end.

Definition As16 (a : addr) : bytes :=
  match a with Addr4 ip => v4_mapped ++ ip | Addr6 ip => ip end.
Definition BitLen (a : addr) : Z := match a with Addr4 _ => 32 | Addr6 _ => 128 end.

(** [net.ParseIP] and [IP.To4]. *)
Definition ParseIP (s : string) : option bytes := As16 <$> ParseAddr (string_bytes s).
Definition To4 (ip : bytes) : option bytes :=
  if (length ip =? 4)%nat then Some ip
  else if (length ip =? 16)%nat && bytes_eqb (take 12 ip) v4_mapped then Some (drop 12 ip)
  else None.

(** ** Networks *)

(** [net.IPNet]: its address in four or sixteen bytes, and the length and
    width of its mask. *)
Record IPNet := mkIPNet { net_IP : bytes; net_ones : Z; net_bits : Z }.

(** [dtoi], of a whole string. *)
Fixpoint dtoi_loop (acc : Z) (s : bytes) : option Z :=
  match s with
  | [] => Some acc
  | c :: s => if is_digit c then
                if 16777215 <=? acc * 10 + (c - 48) then None else dtoi_loop (acc * 10 + (c - 48)) s
              else None
  end.
Definition dtoi (s : bytes) : option Z := match s with [] => None | _ => dtoi_loop 0 s end.

(** Byte [i] of [CIDRMask(ones, bits)]. *)
Definition mask_byte (ones i : Z) : Z := 256 - 2 ^ (8 - Z.max 0 (Z.min 8 (ones - 8 * i))).
Fixpoint mask_from (ones i : Z) (ip : bytes) : bytes :=
  match ip with [] => [] | b :: ip => Z.land b (mask_byte ones i) :: mask_from ones (i + 1) ip end.
Definition mask_ip (ones : Z) (ip : bytes) : bytes := mask_from ones 0 ip.

Definition split_slash (s : bytes) : option (bytes * bytes) :=
  match list_find (eq 47) s with
  | Some (i, _) => Some (take i s, drop (S i) s)
  | None => None
  end.

(** [net.ParseCIDR]: the address, and its network. *)
Definition ParseCIDR (s : bytes) : option (bytes * IPNet) :=
  match split_slash s with
  | None => None
  | Some (a, m) =>
      match ParseAddr a with
      | None => None
      | Some a =>
          match dtoi m with
          | None => None
          | Some n =>
              if BitLen a <? n then None
              else Some (As16 a, mkIPNet (mask_ip n (match a with Addr4 ip | Addr6 ip => ip end)) n (BitLen a))
          end
      end
  end.

(** [networkNumberAndMask] and [IPNet.Contains]. *)
Definition network_number (n : IPNet) : bytes * Z :=
  match To4 (net_IP n) with
  | Some ip => (ip, if net_bits n =? 128 then Z.max 0 (net_ones n - 96) else net_ones n)
  | None => (net_IP n, net_ones n)
  end.
Definition Contains (n : IPNet) (ip : bytes) : bool :=
  let '(nn, ones) := network_number n in
  let ip := default ip (To4 ip) in
  (length ip =? length nn)%nat && bytes_eqb (mask_ip ones nn) (mask_ip ones ip).

(** The printed form of four bytes, and of an IPv4 network. *)
Fixpoint dotted (ip : bytes) : bytes :=
  match ip with
  | [] => []
  | [b] => string_bytes (FormatUint b)
  | b :: ip => string_bytes (FormatUint b) ++ [46] ++ dotted ip
  end.
Definition cidr4 (ip : bytes) (ones : Z) : bytes := dotted ip ++ [47] ++ string_bytes (FormatUint ones).

(** ** The repository's readers *)

(** [sysx.AddressLiteral] and [sysx.NetworkLiteral]; the empty string is a
    value nothing may use. *)
Definition AddressLiteral (s : string) : string :=
  match ParseIP (TrimSpace s) with
  | None => ""
  | Some ip => match To4 ip with None => "" | Some ip4 => bytes_string (dotted ip4) end
  end.

(** The IPv4 network of a string, if it is one: the mask is 32 wide. *)
Definition network4 (s : bytes) : option (bytes * Z) :=
  match ParseCIDR s with
  | None => None
  | Some (_, n) => if (net_bits n =? 32) && bool_decide (is_Some (To4 (net_IP n)))
                   then Some (net_IP n, net_ones n) else None
  end.

Definition NetworkLiteral (s : string) : string :=
  match network4 (string_bytes (TrimSpace s)) with
  | None => ""
  | Some (ip, ones) => bytes_string (cidr4 ip ones)
  end.

Inductive net_error := NotCIDR | NotIPv4.

(** [web.parseIPv4Network]. *)
Definition parseIPv4Network (s : string) : result net_error string :=
  match ParseCIDR (string_bytes s) with
  | None => Err NotCIDR
  | Some (ip, n) =>
      if bool_decide (To4 ip = None) || negb (net_bits n =? 32) then Err NotIPv4
      else Ok (bytes_string (cidr4 (net_IP n) (net_ones n)))
  end.

(** [web.parseIPv4Address]. *)
Definition parseIPv4Address (s : string) : result net_error string :=
  let v := AddressLiteral s in
  if String.eqb v "" then Err NotIPv4 else Ok v.

Example parse_v4 : ParseIP "192.0.2.7" = Some (v4_mapped ++ [192; 0; 2; 7]).
Proof. reflexivity. Qed.
Example parse_v6 : ParseIP "2001:db8::1:0" = Some [32; 1; 13; 184; 0; 0; 0; 0; 0; 0; 0; 0; 0; 1; 0; 0].
Proof. reflexivity. Qed.
Example parse_v6_mapped : AddressLiteral "::ffff:203.0.113.7" = "203.0.113.7"%string.
Proof. reflexivity. Qed.
Example parse_v6_bad : ParseIP "1::2::3" = None /\ ParseIP "::1%eth0" = None /\ ParseIP "1.2.3.04" = None.
Proof. split_and!; reflexivity. Qed.
Example parse_net : parseIPv4Network "172.18.0.5/16" = Ok "172.18.0.0/16"%string
  /\ parseIPv4Network "::ffff:1.128.0.0/120" = Err NotIPv4.
Proof. split; reflexivity. Qed.

(** ** What is printed parses back *)

(** One octet of a dotted address, read where a field may start. *)
Definition octet (n : Z) : bytes := string_bytes (FormatUint n).
Definition octet_len (n : Z) : Z := if n <? 10 then 1 else if n <? 100 then 2 else 3.

Lemma FormatUint_small n : 0 <= n < 1000 -> octet n =
  if n <? 10 then [48 + n] else if n <? 100 then [48 + n / 10; 48 + n mod 10]
  else [48 + n / 100; 48 + (n / 10) mod 10; 48 + n mod 10].
Proof.
  intros Hn. unfold octet. rewrite FormatUint_bytes by go_lia.
  assert (Hd : forall k m, m < 10 -> digits (S k) m = [m]).
  { intros k m Hm. cbn. destruct (Z.ltb_spec m 10); [done | lia]. }
  assert (Hs : forall k m, 10 <= m -> digits (S k) m = digits k (m / 10) ++ [m mod 10]).
  { intros k m Hm. cbn. destruct (Z.ltb_spec m 10); [lia | done]. }
  destruct (Z.ltb_spec n 10); [by rewrite Hd |].
  rewrite Hs by lia. destruct (Z.ltb_spec n 100).
  - rewrite Hd by (Z.div_mod_to_equations; lia). done.
  - rewrite Hs, Hd by (Z.div_mod_to_equations; lia). rewrite Z.div_div by lia. done.
Qed.

Lemma digit_of d : 0 <= d < 10 -> is_digit (48 + d) = true /\ 48 + d - 48 = d.
Proof. intros Hd. unfold is_digit. split; [apply andb_true_intro; split; apply Z.leb_le; lia | lia]. Qed.

Lemma v4_digit d s acc val len : 0 <= d < 10 ->
  (len =? 1) && (val =? 0) = false -> val * 10 + d <= 255 ->
  v4_fields ((48 + d) :: s) acc val len = v4_fields s acc (val * 10 + d) (len + 1).
Proof.
  intros Hd H0 Hv. destruct (digit_of d Hd) as [H1 H2]. cbn [v4_fields]. rewrite H1, H0, H2.
  destruct (Z.ltb_spec 255 (val * 10 + d)); [lia | done].
Qed.

Lemma v4_octet n s acc : 0 <= n < 256 ->
  v4_fields (octet n ++ s) acc 0 0 = v4_fields s acc n (octet_len n).
Proof.
  intros Hn. rewrite FormatUint_small by lia. unfold octet_len.
  destruct (Z.ltb_spec n 10); [| destruct (Z.ltb_spec n 100)]; cbn [app].
  - rewrite v4_digit by (done || lia). done.
  - rewrite v4_digit by (done || (Z.div_mod_to_equations; lia)).
    rewrite v4_digit; [f_equal; Z.div_mod_to_equations; lia | Z.div_mod_to_equations; lia | |
      Z.div_mod_to_equations; lia].
    cbn. apply Z.eqb_neq. Z.div_mod_to_equations; lia.
  - rewrite v4_digit by (done || (Z.div_mod_to_equations; lia)).
    rewrite v4_digit; [| Z.div_mod_to_equations; lia | cbn; apply Z.eqb_neq; Z.div_mod_to_equations; lia |
      Z.div_mod_to_equations; lia].
    rewrite v4_digit; [f_equal; Z.div_mod_to_equations; lia | Z.div_mod_to_equations; lia | done |
      Z.div_mod_to_equations; lia].
Qed.

Lemma v4_dot n s acc : s <> [] -> (length acc < 3)%nat ->
  v4_fields (46 :: s) acc n (octet_len n) = v4_fields s (acc ++ [n]) 0 0.
Proof.
  intros Hs Ha. cbn. rewrite bool_decide_eq_false_2 by done.
  assert ((octet_len n =? 0) = false) as -> by (unfold octet_len; by repeat split_if).
  apply Nat.lt_neq in Ha. by apply Nat.eqb_neq in Ha as ->.
Qed.

Lemma octet_cons n : 0 <= n < 1000 -> exists c b, octet n = c :: b /\ is_digit c = true.
Proof.
  intros Hn. rewrite FormatUint_small by done.
  destruct (Z.ltb_spec n 10); [| destruct (Z.ltb_spec n 100)]; do 2 eexists; (split; [done |]);
    apply digit_of; Z.div_mod_to_equations; lia.
Qed.

Lemma octet_not n x : 0 <= n < 1000 -> is_digit x = false -> x ∉ octet n.
Proof.
  intros Hn Hx. rewrite FormatUint_small by done.
  assert (H : forall d, 0 <= d < 10 -> x <> 48 + d).
  { intros d Hd ->. destruct (digit_of d Hd). congruence. }
  destruct (Z.ltb_spec n 10); [| destruct (Z.ltb_spec n 100)];
    rewrite !not_elem_of_cons; split_and!; try (apply H; Z.div_mod_to_equations; lia);
    apply not_elem_of_nil.
Qed.

(** Four bytes. *)
Definition ip4_ok (ip : bytes) : Prop := length ip = 4%nat /\ all_bytes ip.

Lemma v4_dotted ip s : ip4_ok ip -> s = [] -> v4_fields (dotted ip ++ s) [] 0 0 = Some ip.
Proof.
  intros [Hl Hb] ->. destruct ip as [|a [|b [|c [|d [|]]]]]; try done.
  rewrite !Forall_cons in Hb. destruct Hb as (Ha & Hb & Hc & Hd & _).
  unfold is_byte in *. cbn [dotted]. fold (octet a) (octet b) (octet c) (octet d).
  rewrite app_nil_r.
  destruct (octet_cons b) as (cb & bb & Eb & _); [lia |].
  destruct (octet_cons c) as (cc & bc & Ec & _); [lia |].
  destruct (octet_cons d) as (cd & bd & Ed & _); [lia |].
  rewrite v4_octet by lia. cbn [app].
  rewrite v4_dot; [| rewrite Eb; done | cbn; lia].
  rewrite v4_octet by lia. cbn [app].
  rewrite v4_dot; [| rewrite Ec; done | cbn; lia].
  rewrite v4_octet by lia. cbn [app].
  rewrite v4_dot; [| rewrite Ed; done | cbn; lia].
  rewrite <- (app_nil_r (octet d)), v4_octet by lia. done.
Qed.

Lemma find_family s : Forall (fun x => is_digit x = true) s -> List.find family_byte s = None.
Proof.
  induction 1 as [|x s Hx Hs IH]; [done |]. cbn.
  assert (family_byte x = false) as ->; [| done].
  unfold is_digit in Hx. bool_to_prop. unfold family_byte.
  rewrite !orb_false_iff, !Z.eqb_neq. lia.
Qed.

Lemma octet_digits n : 0 <= n < 1000 -> Forall (fun x => is_digit x = true) (octet n).
Proof.
  intros Hn. apply Forall_forall. intros x Hx. destruct (is_digit x) eqn:E; [done |].
  by apply (octet_not n x Hn E) in Hx.
Qed.

Lemma find_app_none {A} (f : A -> bool) a b :
  List.find f a = None -> List.find f (a ++ b) = List.find f b.
Proof. induction a as [|x a IH]; cbn; [done |]. by destruct (f x). Qed.

Lemma find_dotted a b ip : 0 <= a < 1000 -> List.find family_byte (dotted (a :: b :: ip)) = Some 46.
Proof.
  intros Ha. change (dotted (a :: b :: ip)) with (octet a ++ [46] ++ dotted (b :: ip)).
  by rewrite find_app_none by (apply find_family, octet_digits; lia).
Qed.

Lemma ParseAddr_dotted ip : ip4_ok ip -> ParseAddr (dotted ip) = Some (Addr4 ip).
Proof.
  intros Hip. unfold ParseAddr. pose proof (v4_dotted ip [] Hip eq_refl) as Hv.
  rewrite app_nil_r in Hv. destruct Hip as [Hl Hb].
  destruct ip as [|a [|b ip]]; try done.
  rewrite !Forall_cons in Hb. destruct Hb as (Ha & _). unfold is_byte in Ha.
  rewrite find_dotted by lia. by rewrite Hv.
Qed.

Lemma As16_4 ip : As16 (Addr4 ip) = v4_mapped ++ ip.
Proof. done. Qed.

Lemma To4_mapped ip : length ip = 4%nat -> To4 (v4_mapped ++ ip) = Some ip.
Proof.
  intros Hl. unfold To4. rewrite length_app, Hl. cbn [Nat.eqb length].
  change (length v4_mapped + 4)%nat with 16%nat. cbn [Nat.eqb].
  rewrite (proj2 (bytes_eqb_eq _ _)) by (apply (take_app_length v4_mapped)). 
  done.
Qed.

Lemma dtoi_octet n : 0 <= n < 1000 -> dtoi (octet n) = Some n.
Proof.
  intros Hn. rewrite FormatUint_small by done.
  assert (Hd : forall d acc s, 0 <= d < 10 -> 0 <= acc < 100 ->
    dtoi_loop acc ((48 + d) :: s) = dtoi_loop (acc * 10 + d) s).
  { intros d acc s Hd Ha. cbn [dtoi_loop]. destruct (digit_of d Hd) as [-> ->].
    destruct (Z.leb_spec 16777215 (acc * 10 + d)); [lia | done]. }
  destruct (Z.ltb_spec n 10); [| destruct (Z.ltb_spec n 100)]; unfold dtoi;
    rewrite ?Hd by (Z.div_mod_to_equations; lia); cbn [dtoi_loop]; f_equal;
    Z.div_mod_to_equations; lia.
Qed.

Lemma dotted_no_slash ip : all_bytes ip -> 47 ∉ dotted ip.
Proof.
  induction 1 as [|a ip Ha Hip IH]; [by apply not_elem_of_nil |].
  unfold is_byte in Ha. assert (Ho : 47 ∉ octet a) by (apply octet_not; [lia | done]).
  destruct ip as [|b ip]; [done |].
  change (dotted (a :: b :: ip)) with (octet a ++ [46] ++ dotted (b :: ip)).
  rewrite !not_elem_of_app, not_elem_of_cons. split_and!; try done. apply not_elem_of_nil.
Qed.

Lemma split_slash_app a b : 47 ∉ a -> split_slash (a ++ 47 :: b) = Some (a, b).
Proof.
  intros Ha. unfold split_slash.
  assert (H : list_find (eq 47) (a ++ 47 :: b) = Some (length a, 47)).
  { induction a as [|x a IH]; cbn; [by rewrite decide_True |].
    apply not_elem_of_cons in Ha as [Hx Ha]. rewrite decide_False by done.
    by rewrite IH. }
  rewrite H, take_app_length. f_equal. f_equal.
  change (47 :: b) with ([47] ++ b). rewrite app_assoc.
  replace (S (length a)) with (length (a ++ [47])) by (rewrite length_app; cbn; lia).
  apply drop_app_length.
Qed.

Lemma mask_byte_idem b ones i : Z.land (Z.land b (mask_byte ones i)) (mask_byte ones i)
  = Z.land b (mask_byte ones i).
Proof. by rewrite <- Z.land_assoc, Z.land_diag. Qed.
Lemma mask_idem ones ip : mask_ip ones (mask_ip ones ip) = mask_ip ones ip.
Proof.
  unfold mask_ip. generalize 0. induction ip as [|b ip IH]; intros i; [done |].
  cbn. by rewrite mask_byte_idem, IH.
Qed.

Lemma mask_byte_range ones i : is_byte (mask_byte ones i) \/ mask_byte ones i = 0.
Proof.
  unfold mask_byte, is_byte. left.
  assert (H : 1 <= 2 ^ (8 - Z.max 0 (Z.min 8 (ones - 8 * i))) <= 2 ^ 8).
  { split; [| apply Z.pow_le_mono_r; lia].
    assert (0 < 2 ^ (8 - Z.max 0 (Z.min 8 (ones - 8 * i)))); [apply Z.pow_pos_nonneg; lia | lia]. }
  change (2 ^ 8) with 256 in H. lia.
Qed.

Lemma land_byte b m : is_byte b -> is_byte (Z.land b m).
Proof.
  unfold is_byte. intros Hb.
  assert (H : Z.land b m = Z.land (Z.land b m) (Z.ones 8)).
  { rewrite <- Z.land_assoc, (Z.land_comm m), Z.land_assoc, Z.land_ones by lia.
    change (2 ^ 8) with 256. by rewrite Z.mod_small. }
  rewrite H, Z.land_ones by lia. apply Z.mod_pos_bound. lia.
Qed.

Lemma mask_ip4 ones ip : ip4_ok ip -> ip4_ok (mask_ip ones ip).
Proof.
  intros [Hl Hb]. unfold mask_ip. split.
  - rewrite <- Hl. generalize 0. clear. induction ip; intros i; cbn; congruence.
  - clear Hl. generalize 0. induction Hb as [|b ip Hb Hip IH]; intros i; cbn; constructor; [| apply IH].
    by apply land_byte.
Qed.

(** A printed network parses to itself. *)
Lemma ParseCIDR_cidr4 ip ones : ip4_ok ip -> 0 <= ones <= 32 ->
  ParseCIDR (cidr4 ip ones) = Some (v4_mapped ++ ip, mkIPNet (mask_ip ones ip) ones 32).
Proof.
  intros Hip Ho. unfold ParseCIDR, cidr4. cbn [app].
  rewrite split_slash_app by (apply dotted_no_slash, Hip).
  rewrite ParseAddr_dotted by done. fold (octet ones). rewrite dtoi_octet by lia. cbn [BitLen].
  destruct (Z.ltb_spec 32 ones); [lia | done].
Qed.

Lemma v4_fields_ok s : forall acc val len r, (length acc <= 3)%nat -> all_bytes acc -> 0 <= val <= 255 ->
  v4_fields s acc val len = Some r -> ip4_ok r.
Proof.
  induction s as [|c s IH]; intros acc val len r Hl Ha Hv H; cbn [v4_fields] in H.
  - destruct (Nat.ltb_spec (length acc) 3); [done |]. injection H as <-. split.
    + rewrite length_app. cbn. lia.
    + apply Forall_app_2; [done |]. repeat constructor; unfold is_byte; lia.
  - destruct (is_digit c) eqn:Ed.
    + unfold is_digit in Ed. bool_to_prop. destruct (_ && _); [done |].
      destruct (Z.ltb_spec 255 (val * 10 + (c - 48))); [done |].
      eapply (IH acc); [| | | exact H]; (done || lia).
    + destruct (c =? 46); [| done]. destruct (_ || _); [done |].
      destruct (length acc =? 3)%nat eqn:E3; [done |]. apply Nat.eqb_neq in E3.
      eapply (IH (acc ++ [val])); [| | | exact H].
      * rewrite length_app. cbn. lia.
      * apply Forall_app_2; [done |]. repeat constructor; unfold is_byte; lia.
      * lia.
Qed.

Lemma dtoi_loop_range s : forall acc n, 0 <= acc -> dtoi_loop acc s = Some n -> 0 <= n.
Proof.
  induction s as [|c s IH]; intros acc n Ha H; cbn in H; [by injection H as <- |].
  destruct (is_digit c) eqn:E; [| done]. unfold is_digit in E. bool_to_prop.
  destruct (_ <=? _); [done |]. eapply IH; [| exact H]. lia.
Qed.

Lemma ParseAddr_cases s ad : ParseAddr s = Some ad ->
  (exists ip, ad = Addr4 ip /\ v4_fields s [] 0 0 = Some ip /\ ip4_ok ip)
  \/ (exists ip, ad = Addr6 ip /\ v6_addr s = Some ip).
Proof.
  unfold ParseAddr. destruct (List.find _ _) as [c|]; [| done].
  destruct (Z.eq_dec c 46) as [->|H46].
  { destruct (v4_fields _ _ _ _) as [r|] eqn:E; [| done]. intros [= <-]. left. exists r.
    split_and!; try done; eapply v4_fields_ok in E; try done; cbn; lia. }
  destruct (Z.eq_dec c 58) as [->|H58].
  { destruct (existsb _ _); [done |]. destruct (v6_addr _) as [r|] eqn:E; [| done].
    intros [= <-]. right. by exists r. }
  destruct c as [|p|p]; try done. repeat (destruct p; try done).
Qed.

(** What an IPv4 network reads as: four bytes already masked, and a length up
    to 32. *)
Lemma network4_ok s ip ones : network4 s = Some (ip, ones) ->
  ip4_ok ip /\ 0 <= ones <= 32 /\ mask_ip ones ip = ip.
Proof.
  unfold network4, ParseCIDR. destruct (split_slash s) as [[a m]|]; [| done].
  destruct (ParseAddr a) as [ad|] eqn:Ea; [| done].
  destruct (dtoi m) as [n|] eqn:En; [| done].
  destruct (Z.ltb_spec (BitLen ad) n); [done |]. cbn [net_bits net_IP net_ones].
  destruct ad as [ip4|ip6]; cbn [BitLen] in *; [| done]. cbn [Z.eqb andb]. 
  destruct (bool_decide _) eqn:Hb; [| done]. intros [= <- <-].
  assert (Hip : ip4_ok ip4) by (apply ParseAddr_cases in Ea as [(? & [= <-] & _ & ?)|(? & ? & _)]; done).
  split; [by apply mask_ip4 |]. split; [| apply mask_idem].
  split; [| lia]. unfold dtoi in En. destruct m; [done |]. eapply dtoi_loop_range; [| exact En]. lia.
Qed.

Lemma network4_cidr4 ip ones : ip4_ok ip -> 0 <= ones <= 32 -> mask_ip ones ip = ip ->
  network4 (cidr4 ip ones) = Some (ip, ones).
Proof.
  intros Hip Ho Hm. unfold network4. rewrite ParseCIDR_cidr4 by done.
  cbn [net_bits net_IP net_ones]. rewrite Hm. unfold To4. destruct Hip as [-> _].
  cbn [Nat.eqb]. by rewrite bool_decide_eq_true_2.
Qed.

(** The bytes of a printed network are digits, dots and a slash. *)
Lemma digit_plain c : is_digit c = true -> plain_byte c = true.
Proof. unfold is_digit, plain_byte. intros H. bool_to_prop. apply andb_true_intro; split;
  [apply Z.leb_le | apply Z.ltb_lt]; lia. Qed.

Definition net_byte (c : Z) : bool := is_digit c || (c =? 46) || (c =? 47).
Lemma dotted_bytes ip : all_bytes ip -> Forall (fun c => is_digit c || (c =? 46) = true) (dotted ip).
Proof.
  induction 1 as [|a ip Ha Hip IH]; [constructor |]. unfold is_byte in Ha.
  assert (Ho : Forall (fun c => is_digit c || (c =? 46) = true) (octet a)).
  { eapply Forall_impl; [apply octet_digits; lia |]. cbn. by intros c ->. }
  destruct ip as [|b ip]; [done |].
  change (dotted (a :: b :: ip)) with (octet a ++ [46] ++ dotted (b :: ip)).
  apply Forall_app_2; [done |]. constructor; [done | exact IH].
Qed.
Lemma cidr4_bytes ip ones : ip4_ok ip -> 0 <= ones <= 32 ->
  Forall (fun c => net_byte c = true) (cidr4 ip ones).
Proof.
  intros [_ Hb] Ho. unfold cidr4. apply Forall_app_2.
  - eapply Forall_impl; [by apply dotted_bytes |]. cbn. intros c Hc. unfold net_byte. by rewrite Hc.
  - constructor; [done |]. eapply Forall_impl; [apply octet_digits; lia |].
    cbn. intros c Hc. unfold net_byte. by rewrite Hc.
Qed.

Lemma net_byte_plain c : net_byte c = true -> plain_byte c = true.
Proof.
  unfold net_byte. rewrite !orb_true_iff. intros [[H|H]|H]; [by apply digit_plain | |];
    apply Z.eqb_eq in H as ->; done.
Qed.
Lemma net_byte_byte c : net_byte c = true -> is_byte c.
Proof.
  intros H%net_byte_plain. unfold plain_byte in H. bool_to_prop. unfold is_byte. lia.
Qed.

Lemma string_bytes_cidr4 ip ones : ip4_ok ip -> 0 <= ones <= 32 ->
  string_bytes (bytes_string (cidr4 ip ones)) = cidr4 ip ones.
Proof.
  intros Hip Ho. apply string_bytes_string. eapply Forall_impl; [by apply cidr4_bytes |].
  cbn. apply net_byte_byte.
Qed.

Lemma TrimSpace_cidr4 ip ones : ip4_ok ip -> 0 <= ones <= 32 ->
  TrimSpace (bytes_string (cidr4 ip ones)) = bytes_string (cidr4 ip ones).
Proof.
  intros Hip Ho. apply TrimSpace_plain. rewrite string_bytes_cidr4 by done.
  apply forallb_forall. intros c Hc. apply list_elem_of_In in Hc.
  pose proof (cidr4_bytes ip ones Hip Ho) as Hf. rewrite Forall_forall in Hf.
  by apply net_byte_plain, Hf.
Qed.

(** ** The two readers of a network agree, and settle at once *)

Lemma parse_network4 s : parseIPv4Network s =
  match network4 (string_bytes s) with
  | Some (ip, ones) => Ok (bytes_string (cidr4 ip ones))
  | None => match ParseCIDR (string_bytes s) with None => Err NotCIDR | Some _ => Err NotIPv4 end
  end.
Proof.
  unfold parseIPv4Network, network4, ParseCIDR.
  destruct (split_slash _) as [[a m]|]; [| done].
  destruct (ParseAddr a) as [ad|] eqn:Ea; [| done]. destruct (dtoi m) as [n|]; [| done].
  destruct (_ <? n); [done |]. cbn [net_bits net_IP net_ones].
  destruct ad as [ip4|ip6]; cbn [BitLen]; [| by rewrite orb_true_r].
  assert (Hip : length ip4 = 4%nat)
    by (apply ParseAddr_cases in Ea as [(? & [= <-] & _ & [? _])|(? & ? & _)]; done).
  cbn [As16]. rewrite To4_mapped by done. rewrite bool_decide_eq_false_2 by done. cbn [orb negb Z.eqb andb].
  assert (Hm : length (mask_ip n ip4) = 4%nat).
  { rewrite <- Hip. unfold mask_ip. generalize 0. clear. induction ip4; intros i; cbn; congruence. }
  unfold To4. rewrite Hm. cbn. done.
Qed.

Lemma parseIPv4Network_ok s t : parseIPv4Network s = Ok t ->
  exists ip ones, network4 (string_bytes s) = Some (ip, ones) /\ t = bytes_string (cidr4 ip ones)
    /\ ip4_ok ip /\ 0 <= ones <= 32 /\ mask_ip ones ip = ip.
Proof.
  rewrite parse_network4. destruct (network4 (string_bytes s)) as [[ip ones]|] eqn:E.
  - intros [= <-]. exists ip, ones. destruct (network4_ok _ _ _ E) as (H1 & [H2 H3] & H4). by split_and!.
  - by destruct (ParseCIDR _).
Qed.

Lemma parseIPv4Network_idem s t : parseIPv4Network s = Ok t ->
  parseIPv4Network t = Ok t /\ TrimSpace t = t /\ NetworkLiteral t = t /\ t <> ""%string
  /\ existsb (Z.eqb 47) (string_bytes t) = true.
Proof.
  intros (ip & ones & _ & -> & Hip & Ho & Hm)%parseIPv4Network_ok.
  assert (Hn : network4 (string_bytes (bytes_string (cidr4 ip ones))) = Some (ip, ones)).
  { rewrite string_bytes_cidr4 by done. by apply network4_cidr4. }
  split_and!.
  - by rewrite parse_network4, Hn.
  - by apply TrimSpace_cidr4.
  - unfold NetworkLiteral. by rewrite TrimSpace_cidr4, Hn.
  - intros H. apply (f_equal string_bytes) in H. rewrite string_bytes_cidr4 in H by done.
    unfold cidr4 in H. by apply app_eq_nil in H as [_ H].
  - rewrite string_bytes_cidr4 by done. unfold cidr4. rewrite existsb_app. cbn. by rewrite orb_true_r.
Qed.

Lemma dotted_byte c : is_digit c || (c =? 46) = true -> net_byte c = true.
Proof. unfold net_byte. by intros ->. Qed.

Lemma hexValue_range c v : hexValue c = Some v -> 0 <= v < 16.
Proof.
  unfold hexValue. destruct ((48 <=? c) && (c <=? 57)) eqn:E1; [intros [= <-]; bool_to_prop; lia |].
  destruct ((97 <=? c) && (c <=? 102)) eqn:E2; [| done]. intros [= <-]. bool_to_prop. lia.
Qed.

Lemma hex_group_range s : forall off acc o a r, (off <= 4)%nat ->
  0 <= acc < 16 ^ Z.of_nat off -> hex_group off acc s = Some (o, a, r) -> 0 <= a < 65536.
Proof.
  assert (Hpow : forall off, (off <= 4)%nat -> 16 ^ Z.of_nat off <= 65536).
  { intros off Ho. change 65536 with (16 ^ Z.of_nat 4). apply Z.pow_le_mono_r; lia. }
  induction s as [|c s IH]; intros off acc o a r Ho Ha H; cbn [hex_group] in H.
  - injection H as _ <- _. specialize (Hpow off Ho). lia.
  - destruct (hexValue _) as [v|] eqn:Ev.
    + apply hexValue_range in Ev. destruct (Nat.ltb_spec 3 off); [done |].
      eapply (IH (S off)); [lia | | exact H]. rewrite Nat2Z.inj_succ, Z.pow_succ_r by lia. lia.
    + injection H as _ <- _. specialize (Hpow off Ho). lia.
Qed.

Lemma v6_loop_ok fuel : forall ip e s r e' t, all_bytes ip -> (length ip + 2 * fuel <= 16)%nat ->
  v6_loop fuel ip e s = Some (r, e', t) -> all_bytes r /\ (length r <= 16)%nat.
Proof.
  induction fuel as [|fuel IH]; intros ip e s r e' t Hb Hl H; cbn [v6_loop] in H.
  { injection H as <- _ _. split; [done | lia]. }
  destruct (hex_group 0 0 s) as [[[[|o] acc] rest]|] eqn:Eg; [done | | done].
  apply hex_group_range in Eg; [| lia | done].
  assert (Hb2 : all_bytes (ip ++ [acc / 256; acc mod 256])).
  { apply Forall_app_2; [done |]. repeat constructor; unfold is_byte; Z.div_mod_to_equations; lia. }
  assert (Hl2 : length (ip ++ [acc / 256; acc mod 256]) = (length ip + 2)%nat) by (by rewrite length_app).
  set (ip2 := ip ++ [acc / 256; acc mod 256]) in *.
  assert (Hstop : (r = ip2) -> all_bytes r /\ (length r <= 16)%nat) by (intros ->; split; [done | lia]).
  assert (Hgo : forall e s, v6_loop fuel ip2 e s = Some (r, e', t) -> all_bytes r /\ (length r <= 16)%nat).
  { intros e0 s0 H0. eapply IH; [exact Hb2 | lia | exact H0]. }
  assert (Hv4 : forall v4, v4_fields s [] 0 0 = Some v4 -> r = ip ++ v4 ->
    (16 <? length ip + 4)%nat = false -> all_bytes r /\ (length r <= 16)%nat).
  { intros v4 Ev -> Hlt. apply v4_fields_ok in Ev; [| cbn; lia | constructor | lia].
    destruct Ev as [E1 E2]. apply Nat.ltb_ge in Hlt. rewrite length_app, E1.
    split; [by apply Forall_app_2 | lia]. }
  clearbody ip2. clear IH.
  repeat first [ discriminate | case_match; simplify_eq ];
    first [ by apply Hstop | by eapply Hgo | by eapply Hv4 ].
Qed.

Lemma v6_addr_ok s r : v6_addr s = Some r -> all_bytes r /\ length r = 16%nat.
Proof.
  unfold v6_addr. destruct (match s with 58 :: 58 :: s => _ | _ => _ end) as [e0 s0].
  assert (Hz : forall n, all_bytes (zeros n)).
  { intros n. apply Forall_forall. intros x Hx. apply elem_of_replicate in Hx as [-> _]. done. }
  destruct (_ && _); [by intros [= <-] |].
  destruct (v6_loop 8 [] e0 s0) as [[[ip e] rest]|] eqn:El; [| done].
  apply v6_loop_ok in El as [Hb Hl]; [| constructor | cbn; lia].
  destruct (negb _); [done |]. destruct (Nat.ltb_spec (length ip) 16).
  - destruct e as [e|]; [| done]. intros [= <-]. split.
    + apply Forall_app_2; [by apply Forall_take |]. apply Forall_app_2; [done | by apply Forall_drop].
    + rewrite !length_app, length_take, length_drop. unfold zeros. rewrite length_replicate. lia.
  - destruct (bool_decide _); [done |]. intros [= <-]. split; [done | lia].
Qed.

Lemma ParseIP_ok s ip : ParseIP s = Some ip -> all_bytes ip /\ length ip = 16%nat.
Proof.
  unfold ParseIP. destruct (ParseAddr _) as [ad|] eqn:Ea; [| done]. intros [= <-].
  apply ParseAddr_cases in Ea as [(r & -> & _ & [E1 E2])|(r & -> & E)].
  - split; [| cbn [As16]; by rewrite length_app, E1].
    apply Forall_app_2; [repeat constructor; done | done].
  - by apply v6_addr_ok in E.
Qed.

Lemma To4_ok ip r : all_bytes ip -> To4 ip = Some r -> ip4_ok r.
Proof.
  intros Hb. unfold To4. destruct (Nat.eqb_spec (length ip) 4); [by intros [= <-] |].
  destruct (Nat.eqb_spec (length ip) 16); [| done]. destruct (bytes_eqb _ _); [| done].
  intros [= <-]. split; [rewrite length_drop; lia | by apply Forall_drop].
Qed.

(** An address literal is settled: it denotes the same address, and reading it
    again changes nothing. *)
Lemma AddressLiteral_ok s : AddressLiteral s <> ""%string ->
  exists ip, AddressLiteral s = bytes_string (dotted ip) /\ ip4_ok ip
    /\ ParseIP (TrimSpace s) = Some (v4_mapped ++ ip)
    /\ ParseIP (AddressLiteral s) = Some (v4_mapped ++ ip)
    /\ AddressLiteral (AddressLiteral s) = AddressLiteral s.
Proof.
  assert (E : AddressLiteral s = match ParseIP (TrimSpace s) with None => ""%string
     | Some ip => match To4 ip with None => ""%string | Some ip4 => bytes_string (dotted ip4) end end) by done.
  destruct (ParseIP (TrimSpace s)) as [ip|] eqn:Ep; [| by rewrite E].
  destruct (To4 ip) as [ip4|] eqn:E4; [| by rewrite E]. intros _. rewrite E. exists ip4.
  apply ParseIP_ok in Ep as [Hb Hl]. pose proof (To4_ok ip ip4 Hb E4) as Hip.
  assert (Heq : ip = v4_mapped ++ ip4).
  { unfold To4 in E4. rewrite Hl in E4. cbn [Nat.eqb andb] in E4.
    destruct (bytes_eqb _ _) eqn:Eb; [| done]. apply bytes_eqb_eq in Eb. injection E4 as <-.
    by rewrite <- Eb, take_drop. }
  assert (Hd : Forall (fun c => net_byte c = true) (dotted ip4)).
  { eapply Forall_impl; [by apply dotted_bytes, Hip |]. cbn. intros c Hc. unfold net_byte. by rewrite Hc. }
  assert (Hs : string_bytes (bytes_string (dotted ip4)) = dotted ip4).
  { apply string_bytes_string. eapply Forall_impl; [exact Hd |]. cbn. apply net_byte_byte. }
  assert (Ht : TrimSpace (bytes_string (dotted ip4)) = bytes_string (dotted ip4)).
  { apply TrimSpace_plain. rewrite Hs. apply forallb_forall. intros c Hc. apply list_elem_of_In in Hc.
    rewrite Forall_forall in Hd. by apply net_byte_plain, Hd. }
  assert (Hp : ParseIP (bytes_string (dotted ip4)) = Some (v4_mapped ++ ip4)).
  { unfold ParseIP. rewrite Hs, ParseAddr_dotted by done. done. }
  split_and!; try done; [by rewrite Heq |].
  unfold AddressLiteral. rewrite Ht, Hp, To4_mapped by apply Hip. done.
Qed.
