(* ===== verification/Ports.v ===== *)
(** * Port intervals and networks of a ruleset ([internal/sysx/protect.go])

    An nftables set refuses a repeated element and two overlapping intervals,
    and the whole table with it, so the generator merges what the operator's
    rows cover before it renders anything: [mergePorts] and [subtractRanges]
    on port intervals, [mergeCIDRs] on networks, [uniqueName] on identifiers.
    Each is stated against the set of ports, addresses or names it stands
    for. *)

From S2P Require Import Prelude Model Bytes Decimal Text Net.

(** ** Port intervals *)

Record portRange := mkPortRange { pr_lo : Z; pr_hi : Z }.

#[export] Instance portRange_eq_dec : EqDecision portRange.
Proof. solve_decision. Defined.

(** The order [mergePorts] sorts by, and an insertion sort for it: ties are
    equal, so every sort gives the same list. *)
Definition pr_le (a b : portRange) : bool :=
  if pr_lo a =? pr_lo b then pr_hi a <=? pr_hi b else pr_lo a <? pr_lo b.

Fixpoint insert_by {A} (le : A -> A -> bool) (x : A) (l : list A) : list A :=
  match l with
  | [] => [x]
  | y :: l => if le x y then x :: y :: l else y :: insert_by le x l
  end.
Fixpoint sort_by {A} (le : A -> A -> bool) (l : list A) : list A :=
  match l with [] => [] | x :: l => insert_by le x (sort_by le l) end.

(** The loop of [mergePorts] from its last merged interval on. *)
Fixpoint merge_loop (last : portRange) (rs : list portRange) : list portRange :=
  match rs with
  | [] => [last]
  | r :: rs =>
      if pr_lo r <=? i64 (pr_hi last + 1) then
        merge_loop (if pr_hi last <? pr_hi r then mkPortRange (pr_lo last) (pr_hi r) else last) rs
      else last :: merge_loop r rs
  end.

Definition merge_ranges (rs : list portRange) : list portRange :=
  match sort_by pr_le rs with [] => [] | r :: rs => merge_loop r rs end.

Definition portSpec (port end_ : Z) : string :=
  if port <? end_ then (Itoa port ++ "-" ++ Itoa end_)%string else Itoa port.

(** [mergePorts]. *)
Definition mergePorts (rs : list portRange) : list string :=
  (fun r => portSpec (pr_lo r) (pr_hi r)) <$> merge_ranges rs.

(** [subtractRanges]: one cut of one segment, then the three loops. *)
Definition cut_one (c s : portRange) : list portRange :=
  if (pr_hi c <? pr_lo s) || (pr_hi s <? pr_lo c) then [s]
  else (if pr_lo s <? pr_lo c then [mkPortRange (pr_lo s) (i64 (pr_lo c - 1))] else [])
       ++ (if pr_hi c <? pr_hi s then [mkPortRange (i64 (pr_hi c + 1)) (pr_hi s)] else []).
Definition cut_all (cut : list portRange) (b : portRange) : list portRange :=
  fold_left (fun segs c => concat (cut_one c <$> segs)) cut [b].
Definition subtractRanges (base cut : list portRange) : list portRange :=
  concat (cut_all cut <$> base).

(** [portSet]. *)
Definition portSet (ports : list string) : string :=
  match ports with
  | [p] => p
  | _ => ("{ " ++ String.concat ", " ports ++ " }")%string
  end.

(** ** What intervals cover *)

Definition in_range (p : Z) (r : portRange) : Prop := pr_lo r <= p <= pr_hi r.
Definition ports_cover (rs : list portRange) (p : Z) : Prop := Exists (in_range p) rs.

(** Away from the ends of the machine integers, as every port is. *)
Definition range_ok (r : portRange) : Prop :=
  MinInt64 < pr_lo r /\ pr_lo r <= pr_hi r /\ pr_hi r < MaxInt64.

(** Disjoint, in order, and never adjacent. *)
Definition apart (a b : portRange) : Prop := pr_hi a + 1 < pr_lo b.

Lemma Exists_insert_by {A} (P : A -> Prop) le x l :
  Exists P (insert_by le x l) <-> P x \/ Exists P l.
Proof.
  induction l as [|y l IH]; cbn; [by rewrite Exists_cons, !Exists_nil |].
  destruct (le x y); rewrite !Exists_cons; [done |]. rewrite IH. tauto.
Qed.
Lemma Exists_sort_by {A} (P : A -> Prop) le l : Exists P (sort_by le l) <-> Exists P l.
Proof.
  induction l as [|x l IH]; cbn; [done |]. by rewrite Exists_insert_by, IH, Exists_cons.
Qed.
Lemma elem_of_sort_by {A} le (l : list A) x : x ∈ sort_by le l <-> x ∈ l.
Proof.
  induction l as [|y l IH]; cbn; [done |].
  rewrite elem_of_cons, <- IH. clear IH. induction (sort_by le l) as [|z m IHm]; cbn.
  - set_solver.
  - destruct (le y z); rewrite !elem_of_cons; [done |]. rewrite IHm. tauto.
Qed.
Lemma Forall_sort_by {A} (P : A -> Prop) le l : Forall P l -> Forall P (sort_by le l).
Proof. rewrite !Forall_forall. intros H x Hx. apply H. by apply elem_of_sort_by in Hx. Qed.

Section sorted.
Context {A} (le : A -> A -> bool).
Hypothesis le_total : forall a b, le a b = false -> le b a = true.
Hypothesis le_trans : forall a b c, le a b = true -> le b c = true -> le a c = true.

Lemma insert_by_sorted x l :
  StronglySorted (fun a b => le a b = true) l -> StronglySorted (fun a b => le a b = true) (insert_by le x l).
Proof.
  induction 1 as [|y l Hs IH Hy]; cbn; [by repeat constructor |].
  destruct (le x y) eqn:E.
  - constructor; [by constructor |]. constructor; [done |].
    eapply Forall_impl; [exact Hy |]. cbn. intros z Hz. by eapply le_trans.
  - constructor; [done |]. rewrite Forall_forall in *. intros z Hz.
    assert (Hz' : z ∈ insert_by le x l) by done. clear Hz.
    assert (Hin : z = x \/ z ∈ l).
    { clear -Hz'. induction l as [|w l IHl]; cbn in Hz'; [set_solver |].
      destruct (le x w); set_solver. }
    destruct Hin as [-> | Hin]; [by apply le_total | by apply Hy].
Qed.
Lemma sort_by_sorted l : StronglySorted (fun a b => le a b = true) (sort_by le l).
Proof. induction l; cbn; [constructor | by apply insert_by_sorted]. Qed.
End sorted.

Lemma pr_le_total a b : pr_le a b = false -> pr_le b a = true.
Proof.
  unfold pr_le. destruct (Z.eqb_spec (pr_lo a) (pr_lo b)), (Z.eqb_spec (pr_lo b) (pr_lo a));
    rewrite ?Z.leb_gt, ?Z.leb_le, ?Z.ltb_ge, ?Z.ltb_lt; lia.
Qed.
Lemma pr_le_trans a b c : pr_le a b = true -> pr_le b c = true -> pr_le a c = true.
Proof.
  unfold pr_le. destruct (Z.eqb_spec (pr_lo a) (pr_lo b)), (Z.eqb_spec (pr_lo b) (pr_lo c)),
    (Z.eqb_spec (pr_lo a) (pr_lo c)); rewrite ?Z.leb_le, ?Z.ltb_lt; lia.
Qed.
Lemma pr_le_lo a b : pr_le a b = true -> pr_lo a <= pr_lo b.
Proof.
  unfold pr_le. destruct (Z.eqb_spec (pr_lo a) (pr_lo b)); rewrite ?Z.ltb_lt; lia.
Qed.

Lemma ports_cover_cons p r rs : ports_cover (r :: rs) p <-> in_range p r \/ ports_cover rs p.
Proof. apply Exists_cons. Qed.
Lemma ports_cover_app p a b : ports_cover (a ++ b) p <-> ports_cover a p \/ ports_cover b p.
Proof. apply Exists_app. Qed.

Lemma merge_loop_ok rs : forall last,
  range_ok last -> Forall range_ok rs ->
  StronglySorted (fun a b => pr_le a b = true) rs -> Forall (fun r => pr_lo last <= pr_lo r) rs ->
  (forall p, ports_cover (merge_loop last rs) p <-> in_range p last \/ ports_cover rs p)
  /\ StronglySorted apart (merge_loop last rs)
  /\ Forall (fun r => pr_lo last <= pr_lo r) (merge_loop last rs)
  /\ Forall range_ok (merge_loop last rs).
Proof.
  induction rs as [|r rs IH]; intros last Hlast Hrs Hs Hlo; cbn [merge_loop].
  - split_and!; [intros p; apply ports_cover_cons | by repeat constructor | |];
      apply Forall_singleton; [lia | done].
  - apply Forall_cons in Hrs as [Hr Hrs]. apply Forall_cons in Hlo as [Hlr Hlo].
    inversion_clear Hs as [|? ? Hs' Hall].
    assert (Hrlo : Forall (fun x => pr_lo r <= pr_lo x) rs)
      by (eapply Forall_impl; [exact Hall |]; cbn; intros x; apply pr_le_lo).
    unfold range_ok in Hlast, Hr. rewrite i64_id by go_lia.
    destruct (Z.leb_spec (pr_lo r) (pr_hi last + 1)).
    + set (last' := if pr_hi last <? pr_hi r then mkPortRange (pr_lo last) (pr_hi r) else last).
      assert (Hl' : pr_lo last' = pr_lo last /\ pr_hi last' = Z.max (pr_hi last) (pr_hi r)).
      { unfold last'. destruct (Z.ltb_spec (pr_hi last) (pr_hi r)); cbn; lia. }
      destruct Hl' as [L1 L2].
      destruct (IH last') as (I1 & I2 & I3 & I4); [unfold range_ok; lia | done | done | by rewrite L1 |].
      rewrite L1 in I3. split_and!; try done. intros p.
      rewrite I1, ports_cover_cons. unfold in_range. rewrite L1, L2. split.
      * intros [Hp|]; [| tauto]. destruct (Z.le_gt_cases p (pr_hi last)); [left; lia | right; left; lia].
      * intros [?|[?|?]]; [left; lia | left; lia | by right].
    + destruct (IH r) as (I1 & I2 & I3 & I4); try done.
      split_and!.
      * intros p. rewrite !ports_cover_cons, I1. tauto.
      * constructor; [done |]. eapply Forall_impl; [exact I3 |]. cbn. unfold apart. lia.
      * constructor; [lia |]. eapply Forall_impl; [exact I3 |]. cbn. lia.
      * by constructor.
Qed.

(** Merging ports_cover the same ports with intervals that are in order, disjoint
    and never adjacent. *)
Lemma merge_ranges_ok rs : Forall range_ok rs ->
  (forall p, ports_cover (merge_ranges rs) p <-> ports_cover rs p)
  /\ StronglySorted apart (merge_ranges rs) /\ Forall range_ok (merge_ranges rs).
Proof.
  intros Hrs. unfold merge_ranges. pose proof (sort_by_sorted pr_le pr_le_total pr_le_trans rs) as Hs.
  apply (Forall_sort_by _ pr_le) in Hrs.
  assert (Hc : forall p, ports_cover (sort_by pr_le rs) p <-> ports_cover rs p) by (intros p; apply Exists_sort_by).
  destruct (sort_by pr_le rs) as [|r l].
  - split_and!; try constructor; apply Hc.
  - apply Forall_cons in Hrs as [Hr Hl]. inversion_clear Hs as [|? ? Hs' Hall].
    destruct (merge_loop_ok l r) as (I1 & I2 & _ & I4); try done.
    { eapply Forall_impl; [exact Hall |]. cbn. intros x. apply pr_le_lo. }
    split_and!; try done. intros p. by rewrite I1, <- Hc, ports_cover_cons.
Qed.

Lemma cut_one_ok c s p : range_ok c -> range_ok s ->
  (ports_cover (cut_one c s) p <-> in_range p s /\ ~ in_range p c) /\ Forall range_ok (cut_one c s).
Proof.
  unfold range_ok, cut_one. intros Hc Hs. rewrite !i64_id by go_lia.
  destruct (Z.ltb_spec (pr_hi c) (pr_lo s)), (Z.ltb_spec (pr_hi s) (pr_lo c)),
    (Z.ltb_spec (pr_lo s) (pr_lo c)), (Z.ltb_spec (pr_hi c) (pr_hi s)); cbn [orb app];
    unfold ports_cover; rewrite ?Exists_cons, ?Exists_nil, ?Forall_cons, ?Forall_nil;
    unfold in_range; cbn [pr_lo pr_hi]; lia.
Qed.

Lemma cut_segs_ok c segs p : range_ok c -> Forall range_ok segs ->
  (ports_cover (concat (cut_one c <$> segs)) p <-> ports_cover segs p /\ ~ in_range p c)
  /\ Forall range_ok (concat (cut_one c <$> segs)).
Proof.
  intros Hc. induction 1 as [|s segs Hs Hsegs IH]; cbn.
  - split; [| constructor]. unfold ports_cover. rewrite Exists_nil. tauto.
  - destruct IH as [I1 I2]. destruct (cut_one_ok c s p Hc Hs) as [C1 C2].
    split; [| by rewrite Forall_app]. rewrite ports_cover_app, C1, I1, ports_cover_cons. tauto.
Qed.

Lemma cut_all_ok cut b p : Forall range_ok cut -> range_ok b ->
  (ports_cover (cut_all cut b) p <-> in_range p b /\ ~ ports_cover cut p) /\ Forall range_ok (cut_all cut b).
Proof.
  intros Hcut Hb. unfold cut_all.
  assert (H : forall segs, Forall range_ok segs ->
    (ports_cover (fold_left (fun segs c => concat (cut_one c <$> segs)) cut segs) p
     <-> ports_cover segs p /\ ~ ports_cover cut p)
    /\ Forall range_ok (fold_left (fun segs c => concat (cut_one c <$> segs)) cut segs)).
  { induction Hcut as [|c cut Hc Hcut IH]; intros segs Hsegs; cbn [fold_left].
    - split; [| done]. unfold ports_cover at 3. rewrite Exists_nil. tauto.
    - destruct (cut_segs_ok c segs p Hc Hsegs) as [S1 S2]. destruct (IH _ S2) as [I1 I2].
      split; [| done]. rewrite I1, S1, ports_cover_cons. tauto. }
  destruct (H [b]) as [H1 H2]; [by apply Forall_singleton |]. split; [| done].
  rewrite H1, ports_cover_cons. unfold ports_cover at 1. rewrite Exists_nil. tauto.
Qed.

Lemma subtractRanges_ok base cut p : Forall range_ok base -> Forall range_ok cut ->
  (ports_cover (subtractRanges base cut) p <-> ports_cover base p /\ ~ ports_cover cut p)
  /\ Forall range_ok (subtractRanges base cut).
Proof.
  intros Hb Hcut. unfold subtractRanges. induction Hb as [|b base Hb Hbase IH]; cbn.
  - split; [| constructor]. unfold ports_cover at 1 2. rewrite !Exists_nil. tauto.
  - destruct IH as [I1 I2]. destruct (cut_all_ok cut b p Hcut Hb) as [C1 C2].
    split; [| by rewrite Forall_app]. rewrite ports_cover_app, C1, I1, ports_cover_cons. tauto.
Qed.

(** [mergePorts] renders intervals that cover exactly the ports of its
    rows, in order, disjoint, and with a gap between any two. *)
Theorem mergePorts_exact rs : Forall range_ok rs ->
  exists ms, mergePorts rs = (fun r => portSpec (pr_lo r) (pr_hi r)) <$> ms
    /\ (forall p, ports_cover ms p <-> ports_cover rs p) /\ StronglySorted apart ms.
Proof. intros H. destruct (merge_ranges_ok rs H) as (H1 & H2 & _). by exists (merge_ranges rs). Qed.

(** ** Networks *)

(** One parsed network of a region: its first and last address as numbers,
    and the text of its element. *)
Record block := mkBlock { blk_start : Z; blk_end : Z; blk_text : string }.

Definition cidr_block (ip : bytes) (ones : Z) : block :=
  mkBlock (get_be ip) (Z.lor (get_be ip) (Z.shiftr 4294967295 ones)) (bytes_string (cidr4 ip ones)).

(** The reading loop of [mergeCIDRs]: what does not parse as an IPv4 network
    is skipped. *)
Definition parse_block (c : string) : option block :=
  match network4 (string_bytes (TrimSpace c)) with
  | Some (ip, ones) => Some (cidr_block ip ones)
  | None => None
  end.

(** The order of the sort: by first address, the containing network first. *)
Definition blk_le (a b : block) : bool :=
  if blk_start a =? blk_start b then blk_end b <=? blk_end a else blk_start a <? blk_start b.

Fixpoint keep_blocks (lastEnd : Z) (bs : list block) : list block :=
  match bs with
  | [] => []
  | b :: bs => if blk_end b <=? lastEnd then keep_blocks lastEnd bs
               else b :: keep_blocks (blk_end b) bs
  end.

Definition mergeCIDRs (cidrs : list string) : list string :=
  blk_text <$> keep_blocks (-1) (sort_by blk_le (omap parse_block cidrs)).

Example mergeCIDRs_ex :
  mergeCIDRs ["10.1.0.0/16"; " 10.0.0.0/8"; "x"; "192.0.2.0/24"; "192.0.2.0/24"; "::/0"]
  = ["10.0.0.0/8"; "192.0.2.0/24"]%string.
Proof. vm_compute. reflexivity. Qed.

(** *** Networks as intervals of addresses *)

Definition in_block (x : Z) (b : block) : Prop := blk_start b <= x <= blk_end b.

(** A network: [2^k] addresses from a multiple of [2^k]. *)
Definition aligned (b : block) : Prop :=
  exists k, 0 <= k <= 32 /\ 0 <= blk_start b /\ blk_start b mod 2 ^ k = 0 /\ blk_end b = blk_start b + 2 ^ k - 1.

Lemma aligned_nest a b : aligned a -> aligned b ->
  blk_start a < blk_start b -> blk_start b <= blk_end a -> blk_end b <= blk_end a.
Proof.
  intros (k & Hk & Ha0 & Ha & Ea) (j & Hj & Hb0 & Hb & Eb) Hlt Hin.
  assert (Hk0 : 0 < 2 ^ k) by (apply Z.pow_pos_nonneg; lia).
  assert (Hj0 : 0 < 2 ^ j) by (apply Z.pow_pos_nonneg; lia).
  apply Z.mod_divide in Ha as [qa Ha]; [| lia]. apply Z.mod_divide in Hb as [qb Hb]; [| lia].
  destruct (Z.le_gt_cases j k) as [Hjk|Hjk].
  - assert (Hp : 2 ^ k = 2 ^ (k - j) * 2 ^ j) by (rewrite <- Z.pow_add_r by lia; f_equal; lia).
    assert (0 < 2 ^ (k - j)) by (apply Z.pow_pos_nonneg; lia).
    assert (qb + 1 <= (qa + 1) * 2 ^ (k - j)); [| nia].
    assert (qb < (qa + 1) * 2 ^ (k - j)); [| lia]. nia.
  - assert (Hp : 2 ^ j = 2 ^ (j - k) * 2 ^ k) by (rewrite <- Z.pow_add_r by lia; f_equal; lia).
    assert (0 < 2 ^ (j - k)) by (apply Z.pow_pos_nonneg; lia).
    assert (qa < qb * 2 ^ (j - k)) by nia.
    assert (qb * 2 ^ (j - k) < qa + 1) by nia. lia.
Qed.

Definition blk_apart (a b : block) : Prop := blk_end a < blk_start b.

Lemma keep_blocks_sub l bs x : x ∈ keep_blocks l bs -> x ∈ bs.
Proof.
  revert l. induction bs as [|b bs IH]; intros l; cbn [keep_blocks]; [done |].
  split_if; rewrite !elem_of_cons; [intros H; right; by eapply IH |].
  intros [->|H]; [by left | right; by eapply IH].
Qed.

Lemma blk_le_start a b : blk_le a b = true -> blk_start a <= blk_start b.
Proof. unfold blk_le. destruct (Z.eqb_spec (blk_start a) (blk_start b)); rewrite ?Z.ltb_lt; lia. Qed.
Lemma blk_le_same a b : blk_le a b = true -> blk_start a = blk_start b -> blk_end b <= blk_end a.
Proof. unfold blk_le. intros H E. rewrite E, Z.eqb_refl in H. by apply Z.leb_le. Qed.
Lemma blk_le_total a b : blk_le a b = false -> blk_le b a = true.
Proof.
  unfold blk_le. destruct (Z.eqb_spec (blk_start a) (blk_start b)), (Z.eqb_spec (blk_start b) (blk_start a));
    rewrite ?Z.leb_gt, ?Z.leb_le, ?Z.ltb_ge, ?Z.ltb_lt; lia.
Qed.
Lemma blk_le_trans a b c : blk_le a b = true -> blk_le b c = true -> blk_le a c = true.
Proof.
  unfold blk_le. destruct (Z.eqb_spec (blk_start a) (blk_start b)), (Z.eqb_spec (blk_start b) (blk_start c)),
    (Z.eqb_spec (blk_start a) (blk_start c)); rewrite ?Z.leb_le, ?Z.ltb_lt; lia.
Qed.

(** The loop, after a kept network [last] no later block starts before. *)
Lemma keep_blocks_ok bs : forall last, aligned last -> Forall aligned bs ->
  StronglySorted (fun a b => blk_le a b = true) bs -> Forall (fun b => blk_le last b = true) bs ->
  (forall x, Exists (in_block x) (keep_blocks (blk_end last) bs) \/ in_block x last
             <-> Exists (in_block x) bs \/ in_block x last)
  /\ StronglySorted blk_apart (last :: keep_blocks (blk_end last) bs).
Proof.
  induction bs as [|b bs IH]; intros last Hl Hbs Hs Hle; cbn [keep_blocks].
  { split; [done |]. by repeat constructor. }
  apply Forall_cons in Hbs as [Hb Hbs]. apply Forall_cons in Hle as [Hlb Hle].
  inversion_clear Hs as [|? ? Hs' Hall].
  pose proof (blk_le_start _ _ Hlb) as Hst.
  destruct (Z.leb_spec (blk_end b) (blk_end last)) as [He|He].
  - destruct (IH last Hl Hbs Hs' Hle) as [I1 I2]. split; [| done].
    intros x. rewrite Exists_cons, I1. unfold in_block. split; [tauto |].
    intros [[?|?]|?]; [right; lia | by left | by right].
  - destruct (IH b Hb Hbs Hs' Hall) as [I1 I2].
    assert (Hlt : blk_end last < blk_start b).
    { destruct (Z.eq_dec (blk_start last) (blk_start b)) as [E|E].
      - pose proof (blk_le_same _ _ Hlb E). lia.
      - destruct (Z.lt_ge_cases (blk_end last) (blk_start b)); [done |].
        pose proof (aligned_nest last b Hl Hb). lia. }
    split; [intros x; rewrite !Exists_cons; specialize (I1 x); tauto |].
    constructor; [done |]. constructor; [done |].
    inversion_clear I2 as [|? ? _ Hap]. eapply Forall_impl; [exact Hap |].
    unfold blk_apart. destruct Hb as (k & Hk & _ & _ & Eb).
    assert (0 < 2 ^ k) by (apply Z.pow_pos_nonneg; lia). cbn. lia.
Qed.

(** *** What a mask does to an address as a number *)

Definition land_mask_ok (k b : Z) : bool := Z.land b (256 - 2 ^ k) =? b - b mod 2 ^ k.
Lemma land_mask k b : 0 <= k <= 8 -> is_byte b -> Z.land b (256 - 2 ^ k) = b - b mod 2 ^ k.
Proof.
  intros Hk Hb. apply Z.eqb_eq. fold (land_mask_ok k b).
  assert (H : forallb (fun k => forallb (land_mask_ok k) (seqZ 0 256)) (seqZ 0 9) = true) by (vm_compute; reflexivity).
  rewrite forallb_forall in H. specialize (H k). rewrite forallb_forall in H.
  apply H; apply list_elem_of_In, elem_of_seqZ; unfold is_byte in Hb; lia.
Qed.

Lemma get_be4 a b c d : get_be [a; b; c; d] = ((a * 256 + b) * 256 + c) * 256 + d.
Proof. unfold get_be. cbn [get_be_from]. lia. Qed.

Ltac eval_pow :=
  repeat match goal with
  | |- context [2 ^ ?e] => let v := eval vm_compute in (2 ^ e) in change (2 ^ e) with v
  end.

Lemma mask_num ip ones : ip4_ok ip -> 0 <= ones <= 32 ->
  get_be (mask_ip ones ip) = get_be ip - get_be ip mod 2 ^ (32 - ones).
Proof.
  intros [Hl Hb] Ho. destruct ip as [|a [|b [|c [|d [|]]]]]; try done. clear Hl.
  rewrite !Forall_cons in Hb. destruct Hb as (Ha & Hb & Hc & Hd & _).
  change (mask_ip ones [a; b; c; d])
    with [Z.land a (mask_byte ones 0); Z.land b (mask_byte ones 1);
          Z.land c (mask_byte ones 2); Z.land d (mask_byte ones 3)].
  unfold mask_byte. rewrite !land_mask by (done || lia). rewrite !get_be4.
  unfold is_byte in *.
  assert (H : ones ∈ seqZ 0 33) by (apply elem_of_seqZ; lia). clear Ho.
  cbn in H. repeat (apply elem_of_cons in H as [->|H]; [eval_pow; Z.div_mod_to_equations; lia |]).
  by apply elem_of_nil in H.
Qed.

(** An address is in a network exactly when the mask takes it to the
    network's own. *)
Definition in_network (ip : bytes) (n : bytes * Z) : Prop := mask_ip n.2 ip = n.1.

Lemma get_be_inj4 a b : ip4_ok a -> ip4_ok b -> get_be a = get_be b -> a = b.
Proof.
  intros [La Ha] [Lb Hb] E. rewrite <- (put_get_be a Ha), <- (put_get_be b Hb). congruence.
Qed.

Lemma pow_split ones : 0 <= ones <= 32 -> 2 ^ 32 = 2 ^ ones * 2 ^ (32 - ones) /\ 0 < 2 ^ (32 - ones) /\ 0 < 2 ^ ones.
Proof.
  intros Ho. split; [rewrite <- Z.pow_add_r by lia; f_equal; lia |].
  split; apply Z.pow_pos_nonneg; lia.
Qed.

Lemma block_end ip ones : ip4_ok ip -> 0 <= ones <= 32 -> mask_ip ones ip = ip ->
  get_be ip mod 2 ^ (32 - ones) = 0 /\ blk_end (cidr_block ip ones) = get_be ip + 2 ^ (32 - ones) - 1.
Proof.
  intros Hip Ho Hm. destruct (pow_split ones Ho) as (Hp & H1 & H2).
  assert (Hz : get_be ip mod 2 ^ (32 - ones) = 0).
  { pose proof (mask_num ip ones Hip Ho) as E. rewrite Hm in E. lia. }
  split; [done |]. cbn [cidr_block blk_end].
  assert (Hs : Z.shiftr 4294967295 ones = Z.ones (32 - ones)).
  { change 4294967295 with (Z.ones 32). apply Z.bits_inj'. intros i Hi.
    rewrite Z.shiftr_spec, !Z.testbit_ones_nonneg by lia.
    destruct (Z.ltb_spec (i + ones) 32), (Z.ltb_spec i (32 - ones)); (done || lia). }
  rewrite Hs. assert (Hd : Z.land (get_be ip) (Z.ones (32 - ones)) = 0) by (rewrite Z.land_ones by lia; done).
  rewrite <- Z.lxor_lor, <- Z.add_nocarry_lxor by done. rewrite Z.ones_equiv. lia.
Qed.

Lemma cidr_block_aligned ip ones : ip4_ok ip -> 0 <= ones <= 32 -> mask_ip ones ip = ip -> aligned (cidr_block ip ones).
Proof.
  intros Hip Ho Hm. destruct (block_end ip ones Hip Ho Hm) as [H1 H2].
  exists (32 - ones). split_and!; try lia; cbn [cidr_block blk_start]; try done.
  destruct Hip as [_ Hb]. apply get_be_range in Hb. lia.
Qed.

Lemma in_block_network ip n ones : ip4_ok ip -> ip4_ok n -> 0 <= ones <= 32 -> mask_ip ones n = n ->
  in_block (get_be ip) (cidr_block n ones) <-> in_network ip (n, ones).
Proof.
  intros Hip Hn Ho Hm. destruct (block_end n ones Hn Ho Hm) as [H1 H2].
  destruct (pow_split ones Ho) as (_ & Hp & _).
  unfold in_block, in_network. rewrite H2. cbn [cidr_block blk_start fst snd].
  assert (E : mask_ip ones ip = n <-> get_be ip - get_be ip mod 2 ^ (32 - ones) = get_be n).
  { rewrite <- mask_num by done. split; [by intros -> |]. apply get_be_inj4; [by apply mask_ip4 | done]. }
  rewrite E. apply Z.mod_divide in H1 as [q Hq]; [| lia].
  pose proof (Z.div_mod (get_be ip) (2 ^ (32 - ones))) as Hdm.
  pose proof (Z.mod_pos_bound (get_be ip) (2 ^ (32 - ones)) Hp). rewrite Hq. split; [| nia].
  intros [L1 L2]. set (m := 2 ^ (32 - ones)) in *. set (d := get_be ip / m) in *.
  assert (d = q) by nia. subst q. lia.
Qed.

(** *** The merged networks *)

Definition network_block (b : block) : Prop :=
  exists n ones, b = cidr_block n ones /\ ip4_ok n /\ 0 <= ones <= 32 /\ mask_ip ones n = n.

Lemma network_block_aligned b : network_block b -> aligned b.
Proof. intros (n & ones & -> & ? & ? & ?). by apply cidr_block_aligned. Qed.

(** What a region's entry admits, as the kernel reads the network. *)
Definition admits (ip : bytes) (c : string) : Prop :=
  exists n ones, network4 (string_bytes (TrimSpace c)) = Some (n, ones) /\ in_network ip (n, ones).

Lemma parse_block_ok c b : parse_block c = Some b -> network_block b.
Proof.
  unfold parse_block. destruct (network4 _) as [[n ones]|] eqn:E; [| done]. intros [= <-].
  apply network4_ok in E as (? & ? & ?). by exists n, ones.
Qed.

Lemma admits_parse ip c : ip4_ok ip ->
  admits ip c <-> exists b, parse_block c = Some b /\ in_block (get_be ip) b.
Proof.
  intros Hip. unfold admits, parse_block. destruct (network4 _) as [[n ones]|] eqn:E; [| naive_solver].
  apply network4_ok in E as (Hn & Ho & Hm). split.
  - intros (? & ? & [= <- <-] & Hin). exists (cidr_block n ones). split; [done |]. by apply in_block_network.
  - intros (b & [= <-] & Hin). exists n, ones. split; [done |]. by apply in_block_network in Hin.
Qed.

Lemma read_text b : network_block b -> parse_block (blk_text b) = Some b.
Proof.
  intros (n & ones & -> & Hn & Ho & Hm). unfold parse_block. cbn [cidr_block blk_text].
  by rewrite TrimSpace_cidr4, string_bytes_cidr4, network4_cidr4 by done.
Qed.

Lemma merged_blocks_ok bs : Forall network_block bs ->
  let ms := keep_blocks (-1) (sort_by blk_le bs) in
  (forall x, Exists (in_block x) ms <-> Exists (in_block x) bs)
  /\ StronglySorted blk_apart ms /\ Forall network_block ms.
Proof.
  intros Hn ms. assert (Hms : Forall network_block ms).
  { rewrite Forall_forall in *. intros x Hx. apply Hn. apply keep_blocks_sub in Hx.
    by apply elem_of_sort_by in Hx. }
  cut ((forall x, Exists (in_block x) ms <-> Exists (in_block x) (sort_by blk_le bs)) /\ StronglySorted blk_apart ms).
  { intros [H1 H2]. split_and!; [| done | done]. intros x. by rewrite H1, Exists_sort_by. }
  clear Hms. unfold ms. apply (Forall_impl _ aligned) in Hn; [| apply network_block_aligned].
  apply (Forall_sort_by _ blk_le) in Hn. pose proof (sort_by_sorted blk_le blk_le_total blk_le_trans bs) as Hs.
  destruct (sort_by blk_le bs) as [|b l]; cbn [keep_blocks]; [split; [done | constructor] |].
  apply Forall_cons in Hn as [Hb Hl]. inversion_clear Hs as [|? ? Hs' Hall].
  destruct (Z.leb_spec (blk_end b) (-1)) as [He|_].
  { destruct Hb as (k & Hk & ? & _ & ?). assert (0 < 2 ^ k) by (apply Z.pow_pos_nonneg; lia). lia. }
  destruct (keep_blocks_ok l b Hb Hl Hs' Hall) as [I1 I2]. split; [| done].
  intros x. rewrite !Exists_cons. specialize (I1 x). tauto.
Qed.

Lemma sorted_apart_lookup {A} (R : A -> A -> Prop) l i j a b :
  StronglySorted R l -> l !! i = Some a -> l !! j = Some b -> (i < j)%nat -> R a b.
Proof.
  intros Hs. revert i j. induction Hs as [|x l Hs IH Hx]; intros i j Hi Hj Hlt; [done |].
  destruct j as [|j]; [lia |]. destruct i as [|i]; cbn in Hi, Hj.
  - injection Hi as ->. rewrite Forall_lookup in Hx. by eapply Hx.
  - eapply IH; [done | done | lia].
Qed.

Lemma mergeCIDRs_ok cidrs ip : ip4_ok ip ->
  Forall (fun s => is_Some (network4 (string_bytes (TrimSpace s)))) (mergeCIDRs cidrs)
  /\ (Exists (admits ip) (mergeCIDRs cidrs) <-> Exists (admits ip) cidrs)
  /\ (forall i j s t, mergeCIDRs cidrs !! i = Some s -> mergeCIDRs cidrs !! j = Some t ->
        admits ip s -> admits ip t -> i = j).
Proof.
  intros Hip. unfold mergeCIDRs.
  assert (Hn : Forall network_block (omap parse_block cidrs)).
  { apply Forall_forall. intros b (c & _ & Hc)%list_elem_of_omap. by apply parse_block_ok in Hc. }
  destruct (merged_blocks_ok _ Hn) as (H1 & H2 & H3). set (ms := keep_blocks _ _) in *. clearbody ms.
  assert (Ht : forall b, b ∈ ms -> admits ip (blk_text b) <-> in_block (get_be ip) b).
  { intros b Hb. rewrite Forall_forall in H3. rewrite admits_parse, (read_text b) by auto. naive_solver. }
  split_and!.
  - apply Forall_fmap. eapply Forall_impl; [exact H3 |]. intros b Hb%read_text. cbn.
    unfold parse_block in Hb. by destruct (network4 _).
  - rewrite Exists_fmap. transitivity (Exists (in_block (get_be ip)) ms).
    + rewrite !Exists_exists. split; intros (b & Hb & Ha); exists b; (split; [done |]); by apply (Ht b Hb) in Ha || by apply (Ht b Hb).
    + rewrite H1, !Exists_exists. split.
      * intros (b & (c & Hc & Hp)%list_elem_of_omap & Hin). exists c. split; [done |].
        apply admits_parse; eauto.
      * intros (c & Hc & (b & Hp & Hin)%admits_parse); [| done]. exists b. split; [| done].
        apply list_elem_of_omap. eauto.
  - intros i j s t Hi Hj Hs Hj'. rewrite list_lookup_fmap in Hi, Hj.
    destruct (ms !! i) as [a|] eqn:Ei; [| done]. destruct (ms !! j) as [b|] eqn:Ej; [| done].
    cbn in Hi, Hj. injection Hi as <-. injection Hj as <-.
    apply Ht in Hs; [| by eapply list_elem_of_lookup_2]. apply Ht in Hj'; [| by eapply list_elem_of_lookup_2].
    unfold in_block in Hs, Hj'.
    destruct (Nat.lt_trichotomy i j) as [Hlt|[->|Hlt]]; [| done |].
    + pose proof (sorted_apart_lookup _ _ _ _ _ _ H2 Ei Ej Hlt) as Hap. unfold blk_apart in Hap. lia.
    + pose proof (sorted_apart_lookup _ _ _ _ _ _ H2 Ej Ei Hlt) as Hap. unfold blk_apart in Hap. lia.
Qed.

Lemma mergeCIDRs_admits cidrs ip : ip4_ok ip ->
  Exists (admits ip) (mergeCIDRs cidrs) <-> Exists (admits ip) cidrs.
Proof. intros Hip. apply (mergeCIDRs_ok cidrs ip Hip). Qed.

(** The elements [mergeCIDRs] hands to one set are IPv4 networks that
    admit exactly the addresses the region's entries admit, and no address is
    in two of them: the set loads, and locks what the operator listed. *)
Theorem mergeCIDRs_exact cidrs ip : ip4_ok ip ->
  Forall (fun s => is_Some (network4 (string_bytes (TrimSpace s)))) (mergeCIDRs cidrs)
  /\ (Exists (admits ip) (mergeCIDRs cidrs) <-> Exists (admits ip) cidrs)
  /\ (forall i j s t, mergeCIDRs cidrs !! i = Some s -> mergeCIDRs cidrs !! j = Some t ->
        admits ip s -> admits ip t -> i = j).
Proof. apply mergeCIDRs_ok. Qed.

Lemma mergeCIDRs_exact_witness :
  Exists (admits [10; 1; 2; 3]) (mergeCIDRs ["10.1.0.0/16"; "10.0.0.0/8"; "x"]%string)
  <-> Exists (admits [10; 1; 2; 3]) ["10.1.0.0/16"; "10.0.0.0/8"; "x"]%string.
Proof.
  apply (mergeCIDRs_exact ["10.1.0.0/16"; "10.0.0.0/8"; "x"]%string [10; 1; 2; 3]).
  split; [reflexivity |]. repeat constructor; unfold is_byte; lia.
Defined.

Lemma mergePorts_exact_witness :
  exists ms, mergePorts [mkPortRange 81 90; mkPortRange 80 80] = (fun r => portSpec (pr_lo r) (pr_hi r)) <$> ms
    /\ (forall p, ports_cover ms p <-> ports_cover [mkPortRange 81 90; mkPortRange 80 80] p) /\ StronglySorted apart ms.
Proof.
  apply mergePorts_exact. repeat apply Forall_cons_2; try apply Forall_nil_2;
    unfold range_ok, MinInt64, MaxInt64; cbn; lia.
Defined.

(** ** Names

    nft refuses a table that declares one identifier twice, and an identifier
    with a character it does not know. *)

(** [uniqueName]: the loop, from suffix [n] on. *)
Fixpoint unique_from (fuel : nat) (taken : gset string) (base : string) (n : Z) (name : string) : option string :=
  match fuel with
  | O => None
  | S fuel =>
      if bool_decide (name ∈ taken)
      then unique_from fuel taken base (n + 1) (base ++ "_" ++ Itoa n)%string
      else Some name
  end.

(** One pass more than there are names taken is enough. *)
Definition uniqueName (taken : gset string) (base : string) : option string :=
  unique_from (S (size taken)) taken base 2 base.

(** [foldSetName], and the names of a region's set. *)
Section fold.
Context `{Unicode}.

Definition fold_rune (r : Z) : Z :=
  if ((97 <=? r) && (r <=? 122)) || ((48 <=? r) && (r <=? 57)) then r else 95.
Definition foldSetName (prefix name : string) : string :=
  (prefix ++ bytes_string (fold_rune <$> decode_runes (string_bytes (ToLower name))))%string.
Definition foldGeoName (name : string) : string := foldSetName "geo_" name.
Definition geoLockSetName (proto : string) : string := ("geo_lockdown_" ++ ToLower proto)%string.
Definition geoNameFoldsToLockSet (folded : string) : bool :=
  String.eqb folded (geoLockSetName "tcp") || String.eqb folded (geoLockSetName "udp").
Definition GeoSetName (name : string) : string :=
  let folded := foldGeoName name in
  if geoNameFoldsToLockSet folded then (folded ++ "_")%string else folded.
Definition GeoNameReserved (name : string) : bool := geoNameFoldsToLockSet (foldGeoName name).
End fold.

(** The names the loop tries. *)
Definition candidate (base : string) (i : nat) : string :=
  match i with O => base | S i => (base ++ "_" ++ Itoa (Z.of_nat i + 2))%string end.

Lemma unique_from_tries fuel (taken : gset string) base : forall i,
  unique_from fuel taken base (Z.of_nat i + 2) (candidate base i) =
  (candidate base ∘ snd) <$> list_find (fun j => candidate base j ∉ taken) (seq i fuel).
Proof.
  induction fuel as [|fuel IH]; intros i; [done |]. cbn [unique_from seq list_find].
  destruct (decide (candidate base i ∈ taken)) as [Hin|Hin].
  - rewrite bool_decide_eq_true_2 by done. rewrite decide_False by tauto.
    replace (Z.of_nat i + 2 + 1) with (Z.of_nat (S i) + 2) by lia.
    change (base ++ "_" ++ Itoa (Z.of_nat i + 2))%string with (candidate base (S i)).
    rewrite IH. by destruct (list_find _ _) as [[k x]|].
  - rewrite bool_decide_eq_false_2 by done. by rewrite decide_True.
Qed.

Lemma string_app_inj a b c : (a ++ b)%string = (a ++ c)%string -> b = c.
Proof. induction a as [|x a IH]; cbn; [done |]. intros [= E]. auto. Qed.
Lemma string_app_self a b : a = (a ++ b)%string -> b = ""%string.
Proof. induction a as [|x a IH]; cbn; [done |]. intros [= E]. auto. Qed.

Lemma candidate_inj base i j : Z.of_nat i < MaxInt64 - 2 -> Z.of_nat j < MaxInt64 - 2 ->
  candidate base i = candidate base j -> i = j.
Proof.
  intros Hi Hj E. destruct i as [|i], j as [|j]; cbn [candidate] in E; [done | | |].
  - by apply string_app_self in E.
  - symmetry in E. by apply string_app_self in E.
  - apply string_app_inj, string_app_inj, Itoa_inj in E; [lia | go_lia | go_lia].
Qed.

(** Among more candidates than names taken, one is free. *)
Lemma candidate_free (taken : gset string) base : Z.of_nat (size taken) < MaxInt64 - 3 ->
  exists j, (j <= size taken)%nat /\ candidate base j ∉ taken.
Proof.
  intros Hsz. destruct (decide (Forall (fun j => (candidate base j) ∈ taken) (seq 0 (S (size taken))))) as [Hall|Hex].
  - exfalso.
    assert (Hnd : NoDup (candidate base <$> seq 0 (S (size taken)))).
    { apply NoDup_fmap_2_strong; [| apply NoDup_seq].
      intros i j Hi%elem_of_seq Hj%elem_of_seq. apply candidate_inj; lia. }
    assert (Hsub : list_to_set (C := gset string) (candidate base <$> seq 0 (S (size taken))) ⊆ taken).
    { intros x Hx. apply elem_of_list_to_set, list_elem_of_fmap in Hx as (j & -> & Hj).
      rewrite Forall_forall in Hall. by apply Hall. }
    apply subseteq_size in Hsub. rewrite size_list_to_set in Hsub by done.
    rewrite length_fmap, length_seq in Hsub. lia.
  - apply not_Forall_Exists in Hex; [| apply _]. apply Exists_exists in Hex as (j & Hj%elem_of_seq & Hn).
    exists j. split; [lia | done].
Qed.

Lemma uniqueName_some (taken : gset string) base : Z.of_nat (size taken) < MaxInt64 - 3 ->
  exists j, uniqueName taken base = Some (candidate base j)
    /\ (candidate base j ∉ taken) /\ (forall i, (i < j)%nat -> (candidate base i) ∈ taken).
Proof.
  intros Hsz. destruct (candidate_free taken base Hsz) as (j0 & Hj0 & Hfree).
  unfold uniqueName. change 2 with (Z.of_nat 0 + 2). change base with (candidate base 0) at 2.
  rewrite unique_from_tries.
  destruct (list_find _ _) as [[k j]|] eqn:E.
  - apply list_find_Some in E as (Hk & Hj & Hmin). apply lookup_seq in Hk as [-> Hk].
    exists k. split_and!; [done | done |]. intros i Hi.
    destruct (decide (candidate base i ∈ taken)) as [|Hn]; [done | exfalso].
    apply (Hmin i i); [apply lookup_seq; lia | done | done].
  - exfalso. apply list_find_None in E. rewrite Forall_forall in E.
    apply (E j0); [apply elem_of_seq; lia | done].
Qed.

(** [uniqueName] returns: its loop meets a free name before it has tried
    more names than are taken, and the name it claims is the first free one of
    the base and its numbered forms. *)
Theorem uniqueName_returns (taken : gset string) base : Z.of_nat (size taken) < MaxInt64 - 3 ->
  exists j, uniqueName taken base = Some (candidate base j)
    /\ (candidate base j ∉ taken) /\ (forall i, (i < j)%nat -> (candidate base i) ∈ taken).
Proof. apply uniqueName_some. Qed.

Lemma uniqueName_returns_witness :
  exists j, uniqueName {["park_a"; "park_a_2"]} "park_a" = Some (candidate "park_a" j)
    /\ (candidate "park_a" j ∉ ({["park_a"; "park_a_2"]} : gset string))
    /\ (forall i, (i < j)%nat -> candidate "park_a" i ∈ ({["park_a"; "park_a_2"]} : gset string)).
Proof. apply uniqueName_returns. reflexivity. Defined.
Example uniqueName_ex : uniqueName {["park_a"; "park_a_2"]} "park_a" = Some "park_a_3"%string.
Proof. vm_compute. reflexivity. Qed.
