(* ===== verification/Nft.v ===== *)
(** * Rulesets ([internal/sysx/nft.go])

    The tables the agents load, as the rules they hold: a rule is a list of
    atoms, rendered to the text the generators write and read the way nftables
    reads it, left to right until a match fails.  The published services'
    destination NAT, the egress source NAT of either host and the backend's
    connection marking are here; the edge filter is in [Protect]. *)

From S2P Require Import Prelude Model Bytes Decimal Text Net Ports.

Definition NL : string := String (ascii_of_nat 10) EmptyString.
Definition TAB : string := String (ascii_of_nat 9) EmptyString.
Definition QUOTE : string := String (ascii_of_nat 34) EmptyString.

(** ** Strings that reach a ruleset *)

Definition nftMaxString : nat := 120.
Definition nft_byte (c : Z) : bool :=
  negb ((c <? 32) || (127 <=? c) || (c =? 34) || (c =? 92)).

(** The loop of [nftSafe]: [room] is what is left of [nftMaxString]. *)
Fixpoint nft_loop (room : nat) (s : bytes) : bytes :=
  match room, s with
  | O, _ | _, [] => []
  | S room', c :: s => if nft_byte c then c :: nft_loop room' s else nft_loop room s
  end.
Definition nftSafe (s : string) : string := bytes_string (nft_loop nftMaxString (string_bytes s)).

(** [%q] of what [nftSafe] returns: quotes around it, since nothing is left
    that Go would escape. *)
Definition quoted (s : string) : string := (QUOTE ++ nftSafe s ++ QUOTE)%string.

(** ** Rules *)

(** What a published rule matches and does. [Text] is a match or statement
    whose truth the kernel decides from the packet alone; [Meter] one that
    also reads or feeds a set. *)
Inductive atom :=
| Text (s : string)
| Iif (neg : bool) (name : string)
| IifSet (names : list string) | OifSet (names : list string)
| Oif (name : string)
| Daddr (a : string) | Saddr (n : string)
| Dport (proto : string) (ports : list portRange)
| Payload (off len : Z) (vals : list (Z * string))
| InSet (key : string) (neg : bool) (set : string)
| Meter (op set body : string)
| Counter | Drop | Accept | Redirect
| Dnat (addr : string) | Snat (addr : string) | Masquerade
| Jump (chain : string)
| SetMark (text : string)
| Comment (s : string).

Definition rule := list atom.

Inductive line := Remark (s : string) | Rule (r : rule).

Record chain := mkChain { ch_name : string; ch_hook : option string; ch_lines : list line }.
Record nset := mkNset {
  ns_name : string; ns_type : string; ns_attrs : list string; ns_elems : option (list string) }.
Record table := mkTable {
  tb_name : string; tb_header : list string; tb_sets : list nset; tb_chains : list chain;
  tb_gap : string }.

(** [uniqueIfaces] and [ifaceSet]. *)
Fixpoint unique_from_seen (seen : list string) (l : list string) : list string :=
  match l with
  | [] => []
  | i :: l => if bool_decide (i ∈ seen) then unique_from_seen seen l
              else i :: unique_from_seen (i :: seen) l
  end.
Definition uniqueIfaces (ifaces : list string) : list string := unique_from_seen [] ifaces.
Definition ifaceSet (ifaces : list string) : string :=
  ("{ " ++ String.concat ", " (quoted <$> uniqueIfaces ifaces) ++ " }")%string.

(** ** Text *)

Definition range_text (r : portRange) : string := portSpec (pr_lo r) (pr_hi r).

Definition atom_text (a : atom) : string :=
  match a with
  | Text s => s
  | Iif neg n => ("iifname " ++ (if neg then "!= " else "") ++ quoted n)%string
  | IifSet ns => ("iifname " ++ ifaceSet ns)%string
  | OifSet ns => ("oifname " ++ ifaceSet ns)%string
  | Oif n => ("oifname " ++ quoted n)%string
  | Daddr a => ("ip daddr " ++ a)%string
  | Saddr n => ("ip saddr " ++ n)%string
  | Dport proto ps => (proto ++ " dport " ++ portSet (range_text <$> ps))%string
  | Payload off len vals =>
      ("@th," ++ Itoa off ++ "," ++ Itoa len ++ " " ++ portSet (vals.*2))%string
  | InSet key neg set => (key ++ (if neg then " != @" else " @") ++ set)%string
  | Meter op set body => (op ++ " @" ++ set ++ " { " ++ body ++ " }")%string
  | Counter => "counter" | Drop => "drop" | Accept => "accept" | Redirect => "redirect"
  | Dnat a => ("dnat to " ++ a)%string
  | Snat a => ("snat to " ++ a)%string
  | Masquerade => "masquerade"
  | Jump c => ("jump " ++ c)%string
  | SetMark t => t
  | Comment s => ("comment " ++ quoted s)%string
  end.

Definition rule_text (r : rule) : string := String.concat " " (atom_text <$> r).
Definition line_text (l : line) : string :=
  match l with
  | Remark s => (TAB ++ TAB ++ "# " ++ s ++ NL)%string
  | Rule r => (TAB ++ TAB ++ rule_text r ++ NL)%string
  end.
Definition chain_text (c : chain) : string :=
  (TAB ++ "chain " ++ ch_name c ++ " {" ++ NL
   ++ match ch_hook c with Some h => TAB ++ TAB ++ h ++ NL | None => "" end
   ++ String.concat "" (line_text <$> ch_lines c) ++ TAB ++ "}" ++ NL)%string.

(** [geoElements]: six to a line. *)
Fixpoint geo_tail (i : Z) (l : list string) : string :=
  match l with
  | [] => ""
  | e :: l => ("," ++ (if (i mod 6 =? 0)%Z then NL ++ TAB ++ TAB ++ TAB else " ") ++ e ++ geo_tail (i + 1) l)%string
  end.
Definition geoElements (elems : list string) : string :=
  match elems with [] => "" | e :: l => (e ++ geo_tail 1 l)%string end.

Definition nset_text (s : nset) : string :=
  (TAB ++ "set " ++ ns_name s ++ " {" ++ NL
   ++ TAB ++ TAB ++ "type " ++ ns_type s ++ NL
   ++ String.concat "" ((fun a => TAB ++ TAB ++ a ++ NL) <$> ns_attrs s)
   ++ match ns_elems s with
      | Some l => TAB ++ TAB ++ "elements = { " ++ geoElements l ++ " }" ++ NL
      | None => "" end
   ++ TAB ++ "}" ++ NL ++ NL)%string.

(** The whole file: create if missing, delete, redefine. *)
Definition table_text (t : table) : string :=
  (String.concat "" ((fun h => "# " ++ h ++ NL) <$> tb_header t) ++ NL
   ++ "table ip " ++ tb_name t ++ NL
   ++ "delete table ip " ++ tb_name t ++ NL ++ NL
   ++ "table ip " ++ tb_name t ++ " {" ++ NL
   ++ String.concat "" (nset_text <$> tb_sets t)
   ++ String.concat (tb_gap t) (chain_text <$> tb_chains t)
   ++ "}" ++ NL)%string.

(** ** The tables *)

Definition NFTTable : string := "failover".
Definition NFTReturnTable : string := "failover_return".
Definition NFTEgressTable : string := "failover_egress".

Definition connectionlessMatch : atom := Payload 64 32 [(4294967295, "0xffffffff"%string)].
Definition ReturnMark : Z := 512.
Definition EgressMark : Z := 768.

(** [writeMSSClamp]. *)
Definition mss_clamp (ifaces : list string) : list chain :=
  match ifaces with
  | [] => []
  | _ => [mkChain "forward" (Some "type filter hook forward priority mangle; policy accept;")%string
            [Rule [OifSet ifaces; Text "tcp flags syn tcp option maxseg size set rt mtu"]]]
  end.

Definition pathIfaces (cfg : Config) : list string := uniqueIfaces (path_Iface <$> cfg_Paths cfg).

(** [serviceScope]. *)
Definition serviceScope (cfg : Config) : list atom :=
  (if negb (String.eqb (fe_PublicIface (cfg_Frontend cfg)) "")
   then [Iif false (fe_PublicIface (cfg_Frontend cfg))] else [])
  ++ (if negb (String.eqb (fe_PublicIP (cfg_Frontend cfg)) "")
      then [Daddr (fe_PublicIP (cfg_Frontend cfg))] else []).

(** The three query types a cached port answers: the byte, its text, and the
    word for it. *)
Definition query_types : list (Z * string * string) :=
  [(84, "0x54", "info"); (85, "0x55", "players"); (86, "0x56", "rules")]%string.

Definition span_range (sp : QueryCacheSpan) : portRange := mkPortRange (span_From sp) (span_To sp).
Definition redirect_rule (cfg : Config) (sp : QueryCacheSpan) (t : Z * string * string) : line :=
  Rule (serviceScope cfg ++
    [Dport "udp" [span_range sp]; connectionlessMatch; Payload 96 8 [(t.1.1, t.1.2)]; Redirect;
     Comment ("qcache " ++ t.2 ++ ": " ++ span_Service sp)%string]).
Definition redirect_rules (cfg : Config) : list line :=
  concat ((fun sp => redirect_rule cfg sp <$> query_types) <$> QueryCachePorts cfg).

Section published.
Context `{Unicode}.

(** Which rows of the services reach a ruleset, and under which protocol. *)
Definition row_proto (s : Service) : option string :=
  if negb (svc_Enabled s) then None
  else let proto := ToLower (svc_Proto s) in
       if String.eqb proto "tcp" || String.eqb proto "udp" then Some proto else None.

Definition svc_range (s : Service) : portRange := mkPortRange (svc_Port s) (svc_PortEnd s).
Definition dnat_rule (cfg : Config) (s : Service) : option line :=
  match row_proto s with
  | None => None
  | Some proto =>
      Some (Rule (serviceScope cfg ++
        [Dport proto [svc_range s]; Dnat (TargetOr s (ov_BackendIP (cfg_Overlay cfg)));
         Comment (svc_Name s)]))
  end.

Definition prerouting_rules (cfg : Config) : list line :=
  redirect_rules cfg ++ omap (dnat_rule cfg) (cfg_Services cfg).

(** [BuildRuleset]. *)
Definition published_table (cfg : Config) : table :=
  mkTable NFTTable
    ["generated by failover-frontend - do not edit by hand";
     "destination NAT only; source addresses are never rewritten,";
     "so srcds and the web server see real client IPs."]%string []
    (mkChain "prerouting" (Some "type nat hook prerouting priority dstnat; policy accept;")%string
       (prerouting_rules cfg) :: mss_clamp (pathIfaces cfg)) "".
Definition BuildRuleset (cfg : Config) : string := table_text (published_table cfg).
End published.

(** [BuildEgressRuleset]; [None] is the empty text. *)
Definition egress_table (cfg : Config) : option table :=
  if negb (fe_BackendEgress (cfg_Frontend cfg)) || String.eqb (ov_BackendIP (cfg_Overlay cfg)) ""
     || String.eqb (fe_PublicIface (cfg_Frontend cfg)) "" then None
  else Some (mkTable NFTEgressTable
    ["generated by failover-frontend - do not edit by hand";
     "gives traffic the backend originates the frontend's public";
     "address, so a game server is listed at the published address";
     "rather than at the house's own internet service."]%string []
    [mkChain "postrouting" (Some "type nat hook postrouting priority srcnat; policy accept;")%string
       [Rule [Saddr (MatchPrefix (cfg_Overlay cfg)); Oif (fe_PublicIface (cfg_Frontend cfg));
              if negb (String.eqb (fe_PublicIP (cfg_Frontend cfg)) "")
              then Snat (fe_PublicIP (cfg_Frontend cfg)) else Masquerade]]] "").
Definition text_of (t : option table) : string :=
  match t with Some t => table_text t | None => "" end.
Definition BuildEgressRuleset (cfg : Config) : string := text_of (egress_table cfg).

Definition nonInternetDestinations : list string :=
  ["0.0.0.0/8"; "10.0.0.0/8"; "100.64.0.0/10"; "127.0.0.0/8"; "169.254.0.0/16";
   "172.16.0.0/12"; "192.168.0.0/16"; "224.0.0.0/3"]%string.
Definition internetOnly : string :=
  ("ip daddr != { " ++ String.concat ", " nonInternetDestinations ++ " }")%string.

(** [EgressNetworks]. *)
Definition EgressNetworks (cidrs : list string) : list string :=
  filter (fun n => n <> ""%string) (NetworkLiteral <$> cidrs).

(** [BuildBackendEgressRuleset]. *)
Definition backend_egress_table (cidrs ifaces : list string) (overlayIP : string) : option table :=
  let cidrs := EgressNetworks cidrs in
  let overlayIP := AddressLiteral overlayIP in
  if (length cidrs =? 0)%nat || (length ifaces =? 0)%nat || String.eqb overlayIP "" then None
  else Some (mkTable NFTEgressTable
    ["generated by failover-backend - do not edit by hand";
     "pulls these networks onto the tunnel so their traffic leaves";
     "by the frontend's public address rather than the house's."]%string []
    [mkChain "prerouting" (Some "type filter hook prerouting priority mangle; policy accept;")%string
       ((fun c => Rule [Saddr c; Text internetOnly; SetMark "meta mark set 0x300"]) <$> cidrs);
     mkChain "postrouting" (Some "type nat hook postrouting priority -10; policy accept;")%string
       ((fun c => Rule [Saddr c; OifSet ifaces; Snat overlayIP]) <$> cidrs)] "").
Definition BuildBackendEgressRuleset (cidrs ifaces : list string) (overlayIP : string) : string :=
  text_of (backend_egress_table cidrs ifaces overlayIP).

(** [BuildReturnRuleset]. *)
Definition return_table (ifaces : list string) : table :=
  mkTable NFTReturnTable
    ["generated by failover-backend - do not edit by hand";
     "marks connections arriving from a tunnel so their replies";
     "route back out one, even after a container DNAT has rewritten";
     "their source address."]%string []
    (mkChain "prerouting" (Some "type filter hook prerouting priority mangle; policy accept;")%string
       (match ifaces with
        | [] => []
        | _ => [Rule [IifSet ifaces; Text "ct direction original"; SetMark "ct mark set 0x200"]]
        end ++ [Rule [Text "ct direction reply"; SetMark "meta mark set ct mark"]])
     :: mss_clamp ifaces) "".
Definition BuildReturnRuleset (ifaces : list string) : string := table_text (return_table ifaces).

(** ** How a chain reads a packet

    Matches left to right until one fails; the first rule that reaches a
    verdict ends the chain. What depends on the kernel's own state, the truth
    of [Text] and [Meter] and the contents of sets, is [env]. *)

Record packet := mkPacket {
  pk_iif : string; pk_oif : string; pk_saddr : bytes; pk_daddr : string;
  pk_proto : string; pk_dport : Z; pk_th : bytes }.

Inductive nft_verdict :=
| VAccept | VDrop | VRedirect | VDnat (a : string) | VSnat (a : string) | VMasquerade
| VJump (c : string).
#[export] Instance outcome_eq_dec : EqDecision nft_verdict.
Proof. solve_decision. Defined.

Record env := mkEnv {
  env_text : string -> bool; env_set : string -> string -> bool; env_meter : string -> bool;
  env_net : string -> bool }.

(** A port range as the text it is rendered to is read: the end counts only
    above the start. *)
Definition in_spec (p : Z) (r : portRange) : bool :=
  if pr_lo r <? pr_hi r then (pr_lo r <=? p) && (p <=? pr_hi r) else p =? pr_lo r.

Definition payload (off len : Z) (th : bytes) : option Z :=
  if (off + len) / 8 <=? Z.of_nat (length th)
  then Some (get_be (slice (Z.to_nat (off / 8)) (Z.to_nat ((off + len) / 8)) th)) else None.

Definition atom_match (E : env) (p : packet) (a : atom) : bool :=
  match a with
  | Text s => env_text E s
  | Iif neg n => xorb neg (String.eqb (pk_iif p) (nftSafe n))
  | IifSet ns => existsb (fun n => String.eqb (pk_iif p) (nftSafe n)) ns
  | OifSet ns => existsb (fun n => String.eqb (pk_oif p) (nftSafe n)) ns
  | Oif n => String.eqb (pk_oif p) (nftSafe n)
  | Daddr a => String.eqb (pk_daddr p) a
  | Saddr n => env_net E n
  | Dport proto ps => String.eqb (pk_proto p) proto && existsb (in_spec (pk_dport p)) ps
  | Payload off len vals =>
      match payload off len (pk_th p) with
      | Some v => existsb (Z.eqb v) (vals.*1) | None => false end
  | InSet key neg set => xorb neg (env_set E key set)
  | Meter _ _ _ => env_meter E (atom_text a)
  | _ => true
  end.

Definition atom_verdict (a : atom) : option nft_verdict :=
  match a with
  | Drop => Some VDrop | Accept => Some VAccept | Redirect => Some VRedirect
  | Dnat a => Some (VDnat a) | Snat a => Some (VSnat a) | Masquerade => Some VMasquerade
  | Jump c => Some (VJump c) | _ => None
  end.

Fixpoint rule_outcome (E : env) (p : packet) (r : rule) : option nft_verdict :=
  match r with
  | [] => None
  | a :: r => if atom_match E p a
              then match atom_verdict a with Some v => Some v | None => rule_outcome E p r end
              else None
  end.

Fixpoint chain_outcome (E : env) (p : packet) (ls : list line) : option nft_verdict :=
  match ls with
  | [] => None
  | Remark _ :: ls => chain_outcome E p ls
  | Rule r :: ls => match rule_outcome E p r with Some v => Some v | None => chain_outcome E p ls end
  end.

Lemma rule_outcome_app E p r s :
  Forall (fun a => atom_verdict a = None) r ->
  rule_outcome E p (r ++ s) = if forallb (atom_match E p) r then rule_outcome E p s else None.
Proof.
  induction 1 as [|a r Ha Hr IH]; cbn [app rule_outcome forallb]; [done |].
  destruct (atom_match E p a); cbn [andb]; [| done]. by rewrite Ha, IH.
Qed.

Lemma chain_outcome_app E p a b :
  chain_outcome E p (a ++ b)
  = match chain_outcome E p a with Some v => Some v | None => chain_outcome E p b end.
Proof. induction a as [|[s|r] a IH]; cbn; [done | done |]. by destruct (rule_outcome E p r). Qed.

(** ** Published services *)

(** Whether a packet is the published address's at all. *)
Definition in_scope (cfg : Config) (p : packet) : bool :=
  (String.eqb (fe_PublicIface (cfg_Frontend cfg)) ""
   || String.eqb (pk_iif p) (nftSafe (fe_PublicIface (cfg_Frontend cfg))))
  && (String.eqb (fe_PublicIP (cfg_Frontend cfg)) ""
      || String.eqb (pk_daddr p) (fe_PublicIP (cfg_Frontend cfg))).

Lemma serviceScope_match E cfg p : forallb (atom_match E p) (serviceScope cfg) = in_scope cfg p.
Proof.
  unfold serviceScope, in_scope.
  destruct (String.eqb (fe_PublicIface _) ""), (String.eqb (fe_PublicIP _) ""); cbn;
    rewrite ?andb_true_r; (done || by destruct (String.eqb _ _)).
Qed.
Lemma serviceScope_silent cfg : Forall (fun a => atom_verdict a = None) (serviceScope cfg).
Proof.
  unfold serviceScope. destruct (String.eqb (fe_PublicIface _) ""), (String.eqb (fe_PublicIP _) "");
    by repeat constructor.
Qed.

(** A Source-engine query: the connectionless header, and one of the three
    types behind it. *)
Definition source_query (p : packet) : bool :=
  String.eqb (pk_proto p) "udp"
  && bool_decide (payload 64 32 (pk_th p) = Some 4294967295)
  && bool_decide (payload 96 8 (pk_th p) ∈ [Some 84; Some 85; Some 86]).
Definition cached_port (cfg : Config) (port : Z) : bool :=
  existsb (fun sp => in_spec port (span_range sp)) (QueryCachePorts cfg).

Section spec.
Context `{Unicode}.

(** The row that publishes a packet, spelled out field by field: it is enabled,
    its protocol is TCP or UDP in any case and the packet's, and the packet's
    port is its port or, when the row ends above it, up to its end. *)
Definition publishes (p : packet) (s : Service) : bool :=
  svc_Enabled s
  && bool_decide (pk_proto p = "tcp" \/ pk_proto p = "udp")
  && bool_decide (ToLower (svc_Proto s) = pk_proto p)
  && bool_decide (svc_Port s <= pk_dport p <= Z.max (svc_Port s) (svc_PortEnd s)).

(** Where a row sends what it publishes: its own target, or the backend. *)
Definition row_target (cfg : Config) (s : Service) : string :=
  if bool_decide (svc_Target s = "") then ov_BackendIP (cfg_Overlay cfg) else svc_Target s.

(** The ports whose queries the cache answers: walking the enabled Source-engine
    UDP rows in order, the first 128 different ports they name. *)
Fixpoint first_seen (seen l : list Z) : list Z :=
  match l with
  | [] => []
  | x :: l => if bool_decide (x ∈ seen) then first_seen seen l else x :: first_seen (seen ++ [x]) l
  end.
Definition query_ports_of (s : Service) : list Z :=
  if bool_decide (svc_Enabled s = true /\ svc_SourceEngine s = true /\ string_lower (svc_Proto s) = "udp")
  then seqZ (svc_Port s) (Z.max (svc_Port s) (svc_PortEnd s) - svc_Port s + 1) else [].
Definition query_ports (cfg : Config) : list Z :=
  if qcc_Enabled (cfg_QueryCache cfg)
  then take 128 (first_seen [] (concat (query_ports_of <$> cfg_Services cfg))) else [].

(** What the frontend promises for a packet that reaches its prerouting hook: of
    rows, targets and cached ports only the configuration is read, and none of
    what the generator computes from it. *)
Definition publish_spec (cfg : Config) (p : packet) : option nft_verdict :=
  if negb (in_scope cfg p) then None
  else if source_query p && bool_decide (pk_dport p ∈ query_ports cfg) then Some VRedirect
  else VDnat ∘ row_target cfg <$> List.find (publishes p) (cfg_Services cfg).

End spec.

Lemma payload_match p off len v t :
  match payload off len (pk_th p) with
  | Some w => existsb (Z.eqb w) ([(v, t : string)].*1) | None => false end
  = bool_decide (payload off len (pk_th p) = Some v).
Proof.
  destruct (payload _ _ _) as [w|]; [| done]. cbn. rewrite orb_false_r.
  destruct (Z.eqb_spec w v) as [->|Hn]; [by rewrite bool_decide_eq_true_2 |].
  symmetry. apply bool_decide_eq_false. congruence.
Qed.

Lemma redirect_rule_outcome E cfg p sp t :
  chain_outcome E p [redirect_rule cfg sp t] =
  if in_scope cfg p && String.eqb (pk_proto p) "udp" && in_spec (pk_dport p) (span_range sp)
     && bool_decide (payload 64 32 (pk_th p) = Some 4294967295)
     && bool_decide (payload 96 8 (pk_th p) = Some t.1.1)
  then Some VRedirect else None.
Proof.
  unfold redirect_rule, connectionlessMatch. cbn [chain_outcome].
  rewrite rule_outcome_app by apply serviceScope_silent.
  rewrite serviceScope_match. destruct (in_scope cfg p); cbn [andb]; [| done].
  cbn [rule_outcome atom_match atom_verdict existsb]. rewrite !payload_match, orb_false_r.
  destruct (String.eqb (pk_proto p) "udp"), (in_spec _ _); cbn [andb]; try done.
  destruct (bool_decide (payload 64 32 _ = _)), (bool_decide (payload 96 8 _ = _)); done.
Qed.

Lemma redirect_span_outcome E cfg p sp :
  chain_outcome E p (redirect_rule cfg sp <$> query_types) =
  if in_scope cfg p && source_query p && in_spec (pk_dport p) (span_range sp) then Some VRedirect else None.
Proof.
  change (redirect_rule cfg sp <$> query_types)
    with ([redirect_rule cfg sp (84, "0x54", "info")%string] ++ [redirect_rule cfg sp (85, "0x55", "players")%string]
          ++ [redirect_rule cfg sp (86, "0x56", "rules")%string]).
  rewrite !chain_outcome_app, !redirect_rule_outcome. cbn [fst]. unfold source_query.
  destruct (in_scope cfg p), (String.eqb (pk_proto p) "udp"), (in_spec (pk_dport p) _); cbn [andb]; try done;
    rewrite ?andb_false_r; try done.
  destruct (bool_decide (payload 64 32 _ = _)); cbn [andb]; [| done].
  destruct (bool_decide (payload 96 8 _ ∈ _)) eqn:Ein.
  - apply bool_decide_eq_true in Ein. rewrite !elem_of_cons in Ein.
    destruct Ein as [E1|[E1|[E1|E1%elem_of_nil]]]; [| | | done]; rewrite E1;
      repeat (rewrite bool_decide_eq_true_2 by done || rewrite bool_decide_eq_false_2 by done); done.
  - apply bool_decide_eq_false in Ein. rewrite !elem_of_cons in Ein.
    rewrite !bool_decide_eq_false_2 by tauto. done.
Qed.

Lemma redirect_rules_outcome E cfg p :
  chain_outcome E p (redirect_rules cfg) =
  if in_scope cfg p && source_query p && cached_port cfg (pk_dport p) then Some VRedirect else None.
Proof.
  unfold redirect_rules, cached_port. induction (QueryCachePorts cfg) as [|sp l IH]; cbn [fmap list_fmap concat existsb].
  - by rewrite andb_false_r.
  - rewrite chain_outcome_app, redirect_span_outcome, IH.
    destruct (in_scope cfg p && source_query p), (in_spec _ (span_range sp)); done.
Qed.

Lemma bool_decide_is (P : Prop) `{!Decision P} b : (P <-> b = true) -> bool_decide P = b.
Proof. intros H. destruct b; [by apply bool_decide_eq_true_2, H |]. apply bool_decide_eq_false_2. by intros ?%H. Qed.

(** The generator's rows, targets and cached ports are the specification's. *)
Lemma row_publishes `{Unicode} p s :
  publishes p s
  = match row_proto s with
    | Some proto => String.eqb (pk_proto p) proto && in_spec (pk_dport p) (svc_range s)
    | None => false
    end.
Proof.
  unfold publishes, row_proto. destruct (svc_Enabled s); [| done]. cbn [negb andb].
  assert (Hr : bool_decide (svc_Port s <= pk_dport p <= Z.max (svc_Port s) (svc_PortEnd s))
               = in_spec (pk_dport p) (svc_range s)).
  { apply bool_decide_is. unfold in_spec, svc_range. cbn [pr_lo pr_hi].
    destruct (Z.ltb_spec (svc_Port s) (svc_PortEnd s)); bool_to_prop; lia. }
  rewrite Hr. destruct (String.eqb_spec (ToLower (svc_Proto s)) "tcp") as [->|Ht]; cbn [orb].
  { destruct (String.eqb_spec (pk_proto p) "tcp") as [->|Hn].
    - rewrite !bool_decide_eq_true_2 by tauto. done.
    - rewrite (bool_decide_eq_false_2 ("tcp" = _)) by congruence. by rewrite andb_false_r. }
  destruct (String.eqb_spec (ToLower (svc_Proto s)) "udp") as [->|Hu]; cbn [orb].
  { destruct (String.eqb_spec (pk_proto p) "udp") as [->|Hn].
    - rewrite !bool_decide_eq_true_2 by tauto. done.
    - rewrite (bool_decide_eq_false_2 ("udp" = _)) by congruence. by rewrite andb_false_r. }
  destruct (decide (pk_proto p = "tcp" \/ pk_proto p = "udp")) as [[-> | ->]|Hn];
    [by rewrite (bool_decide_eq_false_2 (ToLower _ = _)) by done ..|].
  by rewrite (bool_decide_eq_false_2 (_ \/ _)).
Qed.

Lemma row_target_or cfg s : TargetOr s (ov_BackendIP (cfg_Overlay cfg)) = row_target cfg s.
Proof.
  unfold TargetOr, row_target. destruct (String.eqb_spec (svc_Target s) "") as [->|Hn]; [done |].
  by rewrite bool_decide_eq_false_2.
Qed.

Lemma claims_first_seen xs : forall acc, (length acc <= 128)%nat ->
  claim_port_of <$> fold_left claim_step xs acc
  = (claim_port_of <$> acc) ++ take (128 - length acc) (first_seen (claim_port_of <$> acc) (claim_port_of <$> xs)).
Proof.
  induction xs as [|x xs IH]; intros acc Hl; [cbn [fold_left fmap list_fmap first_seen]; by rewrite firstn_nil, app_nil_r |].
  cbn [fold_left fmap list_fmap first_seen]. case_bool_decide as Hin.
  - assert (claim_step acc x = acc) as -> by (unfold claim_step; by rewrite bool_decide_eq_true_2, orb_true_r).
    by apply IH.
  - destruct (decide (length acc = 128%nat)) as [He|Hne].
    + rewrite He. replace (128 - 128)%nat with 0%nat by lia. cbn [take]. rewrite app_nil_r.
      assert (claim_step acc x = acc) as -> by (unfold claim_step; by rewrite He).
      rewrite claim_full; [done |]. by rewrite He.
    + rewrite claim_step_snoc; [| unfold MaxQueryCachePorts; lia | done].
      rewrite IH by (rewrite length_app; cbn; lia). rewrite fmap_app, length_app. cbn [fmap list_fmap length].
      replace (128 - length acc)%nat with (S (128 - (length acc + 1))) by lia. cbn [take].
      by rewrite <- app_assoc.
Qed.

Lemma claim_port_of_map t n (l : list Z) : claim_port_of <$> ((fun p => (p, t, n)) <$> l) = l.
Proof. induction l as [|x l IH]; [done |]. cbn [fmap list_fmap]. f_equal. exact IH. Qed.
Lemma service_claims_ports ip s : claim_port_of <$> service_claims ip s = query_ports_of s.
Proof.
  unfold service_claims, query_ports_of, svc_cached, EqualFold_udp.
  replace (svc_end s) with (Z.max (svc_Port s) (svc_PortEnd s))
    by (unfold svc_end; destruct (Z.ltb_spec (svc_Port s) (svc_PortEnd s)); lia).
  destruct (svc_Enabled s), (svc_SourceEngine s), (String.eqb_spec (string_lower (svc_Proto s)) "udp") as [Hu|Hu];
    cbn [negb orb];
    rewrite ?bool_decide_eq_true_2, ?bool_decide_eq_false_2 by (done || (intros (? & ? & ?); done));
    [| done ..].
  apply claim_port_of_map.
Qed.

Lemma cached_port_spec cfg port : cached_port cfg port = bool_decide (port ∈ query_ports cfg).
Proof.
  assert (Hq : claim_port_of <$> reference_claims cfg = query_ports cfg).
  { unfold reference_claims, query_ports. destruct (qcc_Enabled _); [| done].
    rewrite claims_first_seen by (cbn; lia). cbn [fmap list_fmap app length]. f_equal. f_equal.
    induction (cfg_Services cfg) as [|s ss IH]; [done |]. cbn [fmap list_fmap concat].
    by rewrite fmap_app, service_claims_ports, IH. }
  rewrite <- Hq, <- flatten_ports_agree. symmetry. unfold cached_port, flatten.
  pose proof (QueryCachePorts_spans cfg) as Hle.
  induction Hle as [|sp l Hsp Hl IH]; [done |]. cbn [fmap list_fmap concat existsb].
  rewrite <- IH, fmap_app.
  assert (claim_port_of <$> span_claims sp = seqZ (span_From sp) (span_To sp - span_From sp + 1)) as ->
    by apply claim_port_of_map.
  assert (Hs : in_spec port (span_range sp) = bool_decide (port ∈ seqZ (span_From sp) (span_To sp - span_From sp + 1))).
  { symmetry. apply bool_decide_is. rewrite elem_of_seqZ. unfold in_spec, span_range. cbn [pr_lo pr_hi].
    destruct (Z.ltb_spec (span_From sp) (span_To sp)); bool_to_prop; lia. }
  rewrite Hs. destruct (bool_decide (port ∈ seqZ _ _)) eqn:E.
  - apply bool_decide_eq_true in E. apply bool_decide_eq_true_2. apply elem_of_app. by left.
  - apply bool_decide_eq_false in E. cbn [orb]. apply bool_decide_ext. rewrite elem_of_app. tauto.
Qed.

Lemma dnat_rules_outcome `{Unicode} E cfg p ss :
  chain_outcome E p (omap (dnat_rule cfg) ss) =
  if in_scope cfg p then VDnat ∘ row_target cfg <$> List.find (publishes p) ss else None.
Proof.
  induction ss as [|s ss IH]; cbn [omap list_omap List.find]; [by destruct (in_scope cfg p) |].
  rewrite row_publishes. unfold dnat_rule at 1. destruct (row_proto s) as [proto|]; [| exact IH].
  cbn [chain_outcome]. rewrite rule_outcome_app by apply serviceScope_silent.
  rewrite serviceScope_match, IH. destruct (in_scope cfg p); [| done].
  cbn [rule_outcome atom_match atom_verdict existsb]. rewrite orb_false_r, row_target_or.
  by destruct (String.eqb (pk_proto p) proto && in_spec (pk_dport p) (svc_range s)).
Qed.

Lemma published_outcome `{Unicode} E cfg p :
  chain_outcome E p (prerouting_rules cfg) = publish_spec cfg p.
Proof.
  unfold prerouting_rules, publish_spec.
  rewrite chain_outcome_app, redirect_rules_outcome, dnat_rules_outcome, cached_port_spec.
  destruct (in_scope cfg p); cbn [negb andb]; [| done].
  by destruct (source_query p && bool_decide (pk_dport p ∈ query_ports cfg)).
Qed.

(** [C14] What the generated prerouting chain decides for a packet (nftables
    asks a NAT chain about the first packet of each flow; the rest of the flow
    follows that decision in connection tracking) is what the configuration
    says, read field by field: off the public interface or address nothing; a
    Source-engine query to one of the first 128 ports of the cached rows stays
    on this host; anything else goes to the target, or else to the backend, of
    the first enabled row of its protocol that covers its port; and what no
    row publishes is left alone. *)
Theorem published_refines `{Unicode} E cfg p :
  chain_outcome E p (prerouting_rules cfg) = publish_spec cfg p.
Proof. apply published_outcome. Qed.

(** ** What reaches the file

    nftables reads a quoted string up to the next quote, with no escape, and
    a newline ends a rule: text that is not plain is a free hand with the
    whole ruleset. *)

Lemma nft_loop_ok room s : Forall (fun c => nft_byte c = true) (nft_loop room s) /\ (length (nft_loop room s) <= room)%nat.
Proof.
  revert room. induction s as [|c s IH]; intros [|room]; cbn [nft_loop]; try (split; [constructor | cbn; lia]).
  destruct (nft_byte c) eqn:E; [| apply IH]. destruct (IH room) as [H1 H2].
  split; [by constructor | cbn; lia].
Qed.
Lemma nft_loop_id room s : Forall (fun c => nft_byte c = true) s -> (length s <= room)%nat -> nft_loop room s = s.
Proof.
  intros Hs. revert room. induction Hs as [|c s Hc Hs IH]; intros room Hl; [by destruct room |].
  destruct room as [|room]; cbn in Hl; [lia |]. cbn [nft_loop]. rewrite Hc, IH by lia. done.
Qed.
Lemma nft_byte_range c : nft_byte c = true -> 32 <= c < 127 /\ c <> 34 /\ c <> 92.
Proof. unfold nft_byte. intros H. bool_to_prop. repeat split; (lia || done). Qed.

Definition nft_clean (s : string) : Prop :=
  Forall (fun c => nft_byte c = true) (string_bytes s) /\ (length (string_bytes s) <= nftMaxString)%nat.

Lemma string_bytes_nftSafe s : string_bytes (nftSafe s) = nft_loop nftMaxString (string_bytes s).
Proof.
  apply string_bytes_string. eapply Forall_impl; [apply nft_loop_ok |].
  intros c Hc%nft_byte_range. unfold is_byte. lia.
Qed.

(** What comes out has no quote, no backslash, no control or non-ASCII byte,
    and fits a comment; a clean name is not moved by a byte. *)
Lemma nftSafe_clean s : nft_clean (nftSafe s).
Proof. unfold nft_clean. rewrite string_bytes_nftSafe. apply nft_loop_ok. Qed.
Lemma nftSafe_id s : nft_clean s -> nftSafe s = s.
Proof. intros [H1 H2]. unfold nftSafe. rewrite nft_loop_id by done. apply bytes_string_bytes. Qed.

Definition printable (s : string) : Prop := Forall (fun c => 32 <= c < 127) (string_bytes s).

Create HintDb nft.
Lemma printable_app a b : printable a -> printable b -> printable (a ++ b)%string.
Proof. unfold printable. rewrite string_bytes_append. apply Forall_app_2. Qed.
Lemma printable_b s : forallb (fun c => (32 <=? c) && (c <? 127)) (string_bytes s) = true -> printable s.
Proof.
  unfold printable. rewrite forallb_forall. intros H. apply Forall_forall. intros c Hc%list_elem_of_In%H.
  bool_to_prop. lia.
Qed.
Lemma printable_concat sep l : printable sep -> Forall printable l -> printable (String.concat sep l).
Proof.
  intros Hs. induction 1 as [|a l Ha Hl IH]; [by apply printable_b |].
  destruct l; [done |]. change (String.concat sep (a :: s :: l)) with (a ++ sep ++ String.concat sep (s :: l))%string.
  by repeat apply printable_app.
Qed.
Lemma printable_quoted s : printable (quoted s).
Proof.
  unfold quoted. repeat apply printable_app; [by apply printable_b | | by apply printable_b].
  destruct (nftSafe_clean s) as [H _]. eapply Forall_impl; [exact H |]. intros c Hc%nft_byte_range. lia.
Qed.

Lemma digits_printable fuel n : 0 <= n -> Forall (fun d => 0 <= d < 10) (digits fuel n).
Proof.
  revert n. induction fuel as [|fuel IH]; intros n Hn; cbn [digits]; [constructor |].
  destruct (Z.ltb_spec n 10); [repeat constructor; lia |].
  apply Forall_app_2; [apply IH; apply Z.div_pos; lia |].
  repeat constructor; pose proof (Z.mod_pos_bound n 10); lia.
Qed.
Lemma printable_FormatUint n : 0 <= n -> printable (FormatUint n).
Proof.
  intros Hn. unfold printable, FormatUint. rewrite string_bytes_string.
  - apply Forall_fmap. eapply Forall_impl; [by apply (digits_printable 20) |]. cbn. lia.
  - apply Forall_fmap. eapply Forall_impl; [by apply (digits_printable 20) |]. cbn. unfold is_byte. lia.
Qed.
Lemma printable_Itoa n : printable (Itoa n).
Proof.
  unfold Itoa. destruct (Z.ltb_spec n 0); [apply printable_app; [by apply printable_b |] |];
    apply printable_FormatUint; lia.
Qed.
Lemma printable_portSpec a b : printable (portSpec a b).
Proof.
  unfold portSpec. destruct (a <? b); [| apply printable_Itoa].
  repeat apply printable_app; (apply printable_Itoa || by apply printable_b).
Qed.
Lemma printable_portSet l : Forall printable l -> printable (portSet l).
Proof.
  intros Hl. unfold portSet. destruct l as [|a [|b l]].
  - by apply printable_b.
  - by inversion Hl.
  - apply printable_app; [by apply printable_b |]. apply printable_app; [| by apply printable_b].
    apply printable_concat; [by apply printable_b | done].
Qed.
Lemma printable_ifaceSet l : printable (ifaceSet l).
Proof.
  unfold ifaceSet. apply printable_app; [by apply printable_b |].
  apply printable_app; [| by apply printable_b]. apply printable_concat; [by apply printable_b |]. apply Forall_fmap, Forall_true. intros x. apply printable_quoted.
Qed.
Lemma printable_ranges ps : printable (portSet (range_text <$> ps)).
Proof. apply printable_portSet, Forall_fmap, Forall_true. intros r. apply printable_portSpec. Qed.
#[export] Hint Resolve printable_app printable_concat printable_quoted printable_Itoa printable_portSpec
  printable_portSet printable_ifaceSet printable_ranges : nft.
#[export] Hint Extern 5 (printable _) => (apply printable_b; reflexivity) : nft.

(** The operands an atom renders without quotes. *)
Definition atom_plain (a : atom) : Prop :=
  match a with
  | Text s | Daddr s | Saddr s | Dnat s | Snat s | Jump s | SetMark s => printable s
  | Dport proto _ => printable proto
  | Payload _ _ vals => Forall (fun v => printable v.2) vals
  | InSet key _ set => printable key /\ printable set
  | Meter op set body => printable op /\ printable set /\ printable body
  | _ => True
  end.

Lemma atom_text_printable a : atom_plain a -> printable (atom_text a).
Proof.
  destruct a; cbn [atom_plain atom_text]; intros; destruct_and?; repeat split_if; eauto 10 with nft.
  repeat apply printable_app; auto with nft. apply printable_portSet, Forall_fmap. done.
Qed.

Lemma net_byte_printable c : net_byte c = true -> 32 <= c < 127.
Proof.
  unfold net_byte, is_digit. intros H. apply orb_true_iff in H as [H|H]; [apply orb_true_iff in H as [H|H] |];
    bool_to_prop; lia.
Qed.

Definition is_network (s : string) : Prop :=
  exists ip ones, ip4_ok ip /\ 0 <= ones <= 32 /\ mask_ip ones ip = ip /\ s = bytes_string (cidr4 ip ones).

Lemma is_network_printable s : is_network s -> printable s.
Proof.
  intros (ip & ones & Hip & Ho & _ & ->). unfold printable. rewrite string_bytes_cidr4 by done.
  eapply Forall_impl; [by apply cidr4_bytes |]. apply net_byte_printable.
Qed.
Lemma EgressNetworks_ok cidrs : Forall is_network (EgressNetworks cidrs).
Proof.
  unfold EgressNetworks. apply Forall_forall. intros n (Hn & (c & -> & _)%list_elem_of_fmap)%list_elem_of_filter.
  unfold NetworkLiteral in *. destruct (network4 _) as [[ip ones]|] eqn:E; [| done].
  apply network4_ok in E as (? & ? & ?). by exists ip, ones.
Qed.

Definition is_address (s : string) : Prop := exists ip, ip4_ok ip /\ s = bytes_string (dotted ip).
Lemma is_address_printable s : is_address s -> printable s.
Proof.
  intros (ip & Hip & ->).
  assert (H : Forall (fun c => net_byte c = true) (dotted ip)).
  { eapply Forall_impl; [by apply dotted_bytes, Hip |]. cbn. intros c Hc. unfold net_byte. by rewrite Hc. }
  unfold printable. rewrite string_bytes_string.
  - eapply Forall_impl; [exact H |]. apply net_byte_printable.
  - eapply Forall_impl; [exact H |]. apply net_byte_byte.
Qed.

Definition line_atoms (l : line) : list atom := match l with Remark _ => [] | Rule r => r end.
Definition table_atoms (t : table) : list atom := concat (line_atoms <$> concat (ch_lines <$> tb_chains t)).

(** What a rule of the backend's egress table may hold. *)
Definition backend_atom (a : atom) : Prop :=
  printable (atom_text a)
  /\ match a with
     | Saddr n => is_network n | Snat a => is_address a
     | OifSet _ => True | Text s => s = internetOnly | SetMark s => s = "meta mark set 0x300"%string
     | _ => False
     end.

Lemma rules_atoms (P : atom -> Prop) (Q : string -> Prop) (f : string -> rule) nets :
  (forall n, Q n -> Forall P (f n)) -> Forall Q nets ->
  Forall P (concat (line_atoms <$> ((fun c => Rule (f c)) <$> nets))).
Proof. intros Hf. induction 1 as [|n nets Hn Hns IH]; cbn; [constructor |]. apply Forall_app_2; auto. Qed.

(** Whatever the peer at the other end of the control channel said, the
    backend's egress table renders networks and an address it parsed itself,
    as the plain text of one rule each; and its translation and its mark are
    the only things it does. *)
Theorem backend_egress_boundary cidrs ifaces overlayIP t :
  backend_egress_table cidrs ifaces overlayIP = Some t -> Forall backend_atom (table_atoms t).
Proof.
  unfold backend_egress_table. destruct (String.eqb_spec (AddressLiteral overlayIP) "") as [|Hne];
    [by rewrite orb_true_r |]. destruct (_ || _); [done |]. intros [= <-].
  destruct (AddressLiteral_ok overlayIP Hne) as (ip & E & Hip & _).
  assert (Ha : is_address (AddressLiteral overlayIP)) by (by exists ip).
  unfold table_atoms. cbn [tb_chains fmap list_fmap ch_lines concat]. rewrite app_nil_r, fmap_app, concat_app.
  apply Forall_app_2; (eapply rules_atoms; [| apply EgressNetworks_ok]); intros n Hnet;
    repeat apply Forall_cons_2; try apply Forall_nil_2; (split; [apply atom_text_printable |]); cbn; auto with nft.
  - by apply is_network_printable.
  - by apply is_network_printable.
  - by apply is_address_printable.
Qed.

Lemma backend_egress_boundary_witness :
  exists t, backend_egress_table ["172.18.0.5/16"; "10.0.0.0/8 accept"]%string ["wg0"]%string "10.77.0.2" = Some t
    /\ Forall backend_atom (table_atoms t).
Proof.
  eexists. split; [vm_compute; reflexivity |].
  apply (backend_egress_boundary ["172.18.0.5/16"; "10.0.0.0/8 accept"]%string ["wg0"]%string "10.77.0.2").
  vm_compute. reflexivity.
Defined.
