(* ===== verification/Rules.v ===== *)
(** * Policy routing ([internal/sysx/route.go], [internal/sysx/sysx.go])

    The commands the agents run against the kernel's rules and routes, as the
    programs that issue them: each is the argument list the source builds,
    and a continuation for what the command answers.  A program is executed by
    a [runner], which is the interface the source hands these functions; the
    readings of [ip rule show] and [ip route show] are the source's own
    parsers, on the text.  What the kernel does with a command is [Kernel], an
    interface with the documented behaviour of [ip rule] as its laws. *)

From S2P Require Import Prelude Model Bytes Decimal Text Net Ports Nft.

(** ** Commands *)

(** What [Run] returns: the output, or an error carrying the command's text. *)
Definition answer := result string string.

Inductive cmds (A : Type) : Type :=
| Done (a : A)
| Exec (argv : list string) (k : answer -> cmds A).
Arguments Done {A} a.
Arguments Exec {A} argv k.

Fixpoint then_ {A B} (c : cmds A) (k : A -> cmds B) : cmds B :=
  match c with
  | Done a => k a
  | Exec argv f => Exec argv (fun r => then_ (f r) k)
  end.
Notation "'let!' x ':=' c 'in' k" := (then_ c (fun x => k))
  (at level 10, x pattern, c at level 100, k at level 200) : go_scope.

(** A command whose answer nobody reads. *)
Definition ignore (argv : list string) : cmds unit := Exec argv (fun _ => Done tt).
Definition ask (argv : list string) : cmds answer := Exec argv (fun r => Done r).

Definition runner (W : Type) := list string -> W -> answer * W.

Fixpoint execute {W A} (run : runner W) (c : cmds A) (w : W) : A * W :=
  match c with
  | Done a => (a, w)
  | Exec argv k => let '(r, w) := run argv w in execute run (k r) w
  end.

(** The world after each command of a run, and the commands themselves. *)
Fixpoint worlds {W A} (run : runner W) (c : cmds A) (w : W) : list W :=
  match c with
  | Done _ => []
  | Exec argv k => let '(r, w) := run argv w in w :: worlds run (k r) w
  end.
Fixpoint issued {W A} (run : runner W) (c : cmds A) (w : W) : list (list string) :=
  match c with
  | Done _ => []
  | Exec argv k => let '(r, w) := run argv w in argv :: issued run (k r) w
  end.

(** ** The observe-mode gate *)

Definition IPReadVerb (word : string) : bool :=
  String.eqb word "show" || String.eqb word "get" || String.eqb word "list".

Fixpoint skip_options (args : list string) : list string :=
  match args with
  | a :: rest => if String.prefix "-" a then skip_options rest else args
  | [] => []
  end.
Definition ipVerb (args : list string) : string :=
  match skip_options args with _ :: verb :: _ => verb | _ => "" end.
Definition nftVerb (args : list string) : string :=
  match skip_options args with verb :: _ => verb | [] => "" end.

Definition isReadOnly (name : string) (args : list string) : bool :=
  match args with
  | [] => false
  | first :: _ =>
      if String.eqb name "wg" then String.eqb first "show" || String.eqb first "showconf"
      else if String.eqb name "ip" || String.eqb name "tc" then
        let verb := ipVerb args in String.eqb verb "" || IPReadVerb verb
      else if String.eqb name "nft" then String.eqb (nftVerb args) "list"
      else if String.eqb name "sysctl" then String.eqb first "-n"
      else false
  end.
Definition read_only (argv : list string) : bool :=
  match argv with name :: args => isReadOnly name args | [] => false end.

(** [DryRunner] around the runner that really runs. *)
Definition DryRunner {W} (run : runner W) : runner W := fun argv w =>
  if read_only argv then run argv w else (Ok ""%string, w).

(** ** Numbers of the rules *)

Definition ReturnTable : Z := 100.
Definition ControlTable : Z := 100.
Definition ControlMark : Z := 256.
Definition ProbeRulePrefBase : Z := 30000.
Definition EgressRulePref : Z := ProbeRulePrefBase + 100.
Definition ProbeDenyRulePrefBase : Z := 31000.
Definition ProbeDenyBandSize : Z := EgressRulePref - ProbeRulePrefBase.
Definition EgressDenyRulePref : Z := ProbeDenyRulePrefBase + ProbeDenyBandSize.
Definition ControlRulePref : Z := ProbeRulePrefBase - 1.
Definition ReturnMarkRulePref : Z := ProbeRulePrefBase - 2.
Definition ReturnRulePrefBase : Z := 32500.
Definition OverlayLocalRulePref : Z := ReturnRulePrefBase - 1.
Definition FrontendLocalRulePref : Z := OverlayLocalRulePref - 1.

Definition probeRulePref (p : PathConfig) : Z := i64 (ProbeRulePrefBase + path_ID p).
Definition probeDenyRulePref (p : PathConfig) : Z := i64 (ProbeDenyRulePrefBase + path_ID p).
Definition inProbeDenyBand (pref : Z) : bool :=
  (ProbeDenyRulePrefBase <? pref) && (pref <? ProbeDenyRulePrefBase + ProbeDenyBandSize).

(** [fmt.Sprintf("0x%x", mark)]. *)
Fixpoint hex_digits (fuel : nat) (n : Z) : bytes :=
  match fuel with
  | O => []
  | S fuel => if n <? 16 then [hexDigit n] else hex_digits fuel (n / 16) ++ [hexDigit (n mod 16)]
  end.
Definition hex_text (n : Z) : string :=
  ("0x" ++ (if (n <? 0)%Z then "-" else "") ++ bytes_string (hex_digits 16 (Z.abs n)))%string.
Definition path_mark (p : PathConfig) : string := hex_text (path_Mark p).

(** ** Reading the listings *)

(** The priority and the fields of a line of [ip rule show]. *)
Definition rule_line (line : bytes) : option (Z * list string) :=
  match cut_byte 58 [] (trim_bytes line) with
  | None => None
  | Some (pref, rest) =>
      match Atoi pref with
      | Some n => Some (n, Fields (bytes_string rest))
      | None => None
      end
  end.
Definition rule_lines (rules : string) : list (Z * list string) :=
  omap rule_line (split_lines [] (string_bytes rules)).

Record denyRule := mkDeny { dr_pref : Z; dr_mark : string }.
#[export] Instance denyRule_eq_dec : EqDecision denyRule.
Proof. solve_decision. Defined.

(** The mark named last, and whether the rule refuses. *)
Fixpoint scan_deny (mark : string) (refuses : bool) (fields : list string) : string * bool :=
  match fields with
  | [] => (mark, refuses)
  | f :: rest =>
      if String.eqb f "fwmark"
      then scan_deny (match rest with g :: _ => g | [] => mark end) refuses rest
      else scan_deny mark (refuses || String.eqb f "unreachable") rest
  end.
Definition deny_of (line : Z * list string) : option denyRule :=
  let '(mark, refuses) := scan_deny "" false line.2 in
  if negb (String.eqb mark "") && refuses then Some (mkDeny line.1 mark) else None.
Definition unreachableRules (rules : string) : list denyRule := omap deny_of (rule_lines rules).
Definition denyRulesInBand (rules : string) : list denyRule :=
  filter (fun d => inProbeDenyBand (dr_pref d) = true) (unreachableRules rules).
Definition denyRulePrefs (rules mark : string) : list Z :=
  dr_pref <$> filter (fun d => dr_mark d = mark) (denyRulesInBand rules).

(** Whether a field named [key] is followed by [value]; whether there is one
    with a value at all. *)
Fixpoint followed_by (key value : string) (fields : list string) : bool :=
  match fields with
  | f :: (g :: _) as rest => (String.eqb f key && String.eqb g value) || followed_by key value rest
  | _ => false
  end.
Fixpoint has_key (key : string) (fields : list string) : bool :=
  match fields with
  | f :: (_ :: _) as rest => String.eqb f key || has_key key rest
  | _ => false
  end.

Definition markRulePrefs (rules mark table : string) : list Z :=
  omap (fun line =>
    if followed_by "fwmark" mark line.2 && has_key "lookup" line.2
       && (followed_by "lookup" table line.2 || String.eqb table "")
    then Some line.1 else None) (rule_lines rules).
Definition sourceRulePrefs (rules source table : string) : list Z :=
  omap (fun line =>
    if followed_by "from" source line.2 && (followed_by "lookup" table line.2 || String.eqb table "")
    then Some line.1 else None) (rule_lines rules).

Fixpoint dev_of (fields : list string) : string :=
  match fields with
  | f :: (g :: _) as rest => if String.eqb f "dev" then g else dev_of rest
  | _ => ""
  end.
Definition devFrom (out : string) : string := dev_of (Fields out).

(** [strings.Contains]. *)
Fixpoint contains (needle s : string) : bool :=
  String.prefix needle s || match s with String _ s => contains needle s | EmptyString => false end.
Definition tableDoesNotExist (err : string) : bool := contains "FIB table does not exist" err.

(** ** Programs *)

Inductive rule_err :=
| ErrRun (e : string) | ErrRuleAdd (name e : string) | ErrNoAddress | ErrProblems (l : list string).

Definition listRules : cmds answer := ask ["ip"; "rule"; "show"]%string.
Definition listRulesInTable (table : Z) : cmds answer := ask ["ip"; "rule"; "show"; "table"; Itoa table]%string.

Definition mark_rule (verb mark table : string) (pref : Z) : list string :=
  ["ip"; "rule"; verb; "fwmark"; mark; "lookup"; table; "pref"; Itoa pref]%string.
Definition deny_rule (verb mark : string) (pref : Z) : list string :=
  ["ip"; "rule"; verb; "fwmark"; mark; "unreachable"; "pref"; Itoa pref]%string.
Definition source_rule (verb src table : string) (pref : Z) : list string :=
  ["ip"; "rule"; verb; "from"; src; "lookup"; table; "pref"; Itoa pref]%string.

(** One deletion for each of what was found. *)
Fixpoint sweep {K} (del : K -> list string) (found : list K) : cmds unit :=
  match found with
  | [] => Done tt
  | k :: found => let! _ := ignore (del k) in sweep del found
  end.

(** A rule at its pinned priority and nowhere else: it goes in, unless it is
    found there, before what is found at another priority comes out. *)
Definition pin (want : Z) (found : list Z) (rule : string -> Z -> list string) : cmds (option string) :=
  let strays := sweep (rule "del"%string) (filter (fun pref => pref <> want) found) in
  if bool_decide (want ∈ found) then let! _ := strays in Done None
  else Exec (rule "add"%string want) (fun r =>
    match r with Err e => Done (Some e) | Ok _ => let! _ := strays in Done None end).

Definition ensureProbeRules (p : PathConfig) (all : string) : cmds (option rule_err) :=
  let table := Itoa (path_Table p) in
  let mark := path_mark p in
  let! existing := listRulesInTable (path_Table p) in
  match existing with
  | Err e => Done (Some (ErrRun e))
  | Ok existing =>
      let! r := pin (probeRulePref p) (markRulePrefs existing mark "")
                  (fun verb => mark_rule verb mark table) in
      match r with
      | Some e => Done (Some (ErrRuleAdd (path_Name p) e))
      | None =>
          let! r := pin (probeDenyRulePref p) (denyRulePrefs all mark) (fun verb => deny_rule verb mark) in
          match r with
          | Some e => Done (Some (ErrRuleAdd (path_Name p) e))
          | None => Done None
          end
      end
  end.

Definition failed (r : answer) : option rule_err := match r with Ok _ => None | Err e => Some (ErrRun e) end.

Definition ensureProbeRouteOnly (p : PathConfig) (dstIP srcIP : string) : cmds (option rule_err) :=
  let! r := ask ["ip"; "route"; "replace"; (dstIP ++ "/32")%string; "dev"; path_Iface p; "src"; srcIP;
                 "table"; Itoa (path_Table p)]%string in
  Done (failed r).

Definition EnsureProbeRoute (p : PathConfig) (dstIP srcIP : string) : cmds (option rule_err) :=
  let! all := listRules in
  match all with
  | Err e => Done (Some (ErrRun e))
  | Ok all =>
      let! r := ensureProbeRules p all in
      match r with Some e => Done (Some e) | None => ensureProbeRouteOnly p dstIP srcIP end
  end.

(** One path of [EnsureProbeRoutes]: the batch ends at a rule that cannot be
    installed, and goes on past anything else with a problem noted. *)
Definition probe_path (exists_ : string -> bool) (p : PathConfig) (all dstIP srcIP : string)
    : cmds (rule_err + option string) :=
  let! r := ensureProbeRules p all in
  match r with
  | Some (ErrRuleAdd n e) => Done (inl (ErrRuleAdd n e))
  | Some _ => Done (inr (Some (path_Name p)))
  | None =>
      if negb (exists_ (path_Iface p)) then Done (inr (Some (path_Name p)))
      else let! r := ensureProbeRouteOnly p dstIP srcIP in
           Done (inr (match r with Some _ => Some (path_Name p) | None => None end))
  end.

Fixpoint probe_paths (exists_ : string -> bool) (ps : list PathConfig) (all dstIP srcIP : string)
    (problems : list string) : cmds (rule_err + list string) :=
  match ps with
  | [] => Done (inr problems)
  | p :: ps =>
      let! r := probe_path exists_ p all dstIP srcIP in
      match r with
      | inl e => Done (inl e)
      | inr problem => probe_paths exists_ ps all dstIP srcIP (problems ++ option_list problem)
      end
  end.

Definition sweep_denies (denies : list denyRule) : cmds unit :=
  sweep (fun d => deny_rule "del" (dr_mark d) (dr_pref d)) denies.

Definition EnsureProbeRoutes (exists_ : string -> bool) (paths : list PathConfig) (dstIP srcIP : string)
    : cmds (option rule_err) :=
  let! all := listRules in
  match all with
  | Err e => Done (Some (ErrRun e))
  | Ok all =>
      let! r := probe_paths exists_ paths all dstIP srcIP [] in
      match r with
      | inl e => Done (Some e)
      | inr problems =>
          let configured := path_mark <$> paths in
          let! _ := sweep_denies (filter (fun d => dr_mark d ∉ configured) (denyRulesInBand all)) in
          Done (match problems with [] => None | _ => Some (ErrProblems problems) end)
      end
  end.

(** *** The other rules *)

Definition ensureUnreachableRule (mark : string) (pref : Z) (all : string) : cmds (option rule_err) :=
  if bool_decide (mkDeny pref mark ∈ unreachableRules all) then Done None
  else let! r := ask (deny_rule "add" mark pref) in Done (failed r).
Definition removeUnreachableRule (mark : string) (pref : Z) : cmds unit := ignore (deny_rule "del" mark pref).

(** A mark rule into the return table, pinned. *)
Definition ensureMarkRule (mark : string) (table want : Z) : cmds (option rule_err) :=
  let! existing := listRulesInTable table in
  match existing with
  | Err e => Done (Some (ErrRun e))
  | Ok existing =>
      let! r := pin want (markRulePrefs existing mark "") (fun verb => mark_rule verb mark (Itoa table)) in
      Done (ErrRun <$> r)
  end.

Definition EnsureReturnMarkRule : cmds (option rule_err) :=
  ensureMarkRule (hex_text ReturnMark) ReturnTable ReturnMarkRulePref.

Definition EnsureEgressRule : cmds (option rule_err) :=
  let mark := hex_text EgressMark in
  let! r := ensureMarkRule mark ReturnTable EgressRulePref in
  match r with
  | Some e => Done (Some e)
  | None =>
      let! all := listRules in
      match all with
      | Err e => Done (Some (ErrRun e))
      | Ok all => ensureUnreachableRule mark EgressDenyRulePref all
      end
  end.

Definition RemoveEgressRule : cmds unit :=
  let! existing := listRulesInTable ReturnTable in
  match existing with
  | Err _ => Done tt
  | Ok existing =>
      let mark := hex_text EgressMark in
      let! _ := sweep (fun pref => mark_rule "del" mark (Itoa ReturnTable) pref) (markRulePrefs existing mark "") in
      removeUnreachableRule mark EgressDenyRulePref
  end.

Fixpoint return_rules (existing : string) (seen : list string) (idx : Z) (sources : list string)
    : cmds (option rule_err) :=
  match sources with
  | [] => Done None
  | src :: sources =>
      if String.eqb src "" || bool_decide (src ∈ seen) then return_rules existing seen idx sources
      else
        let! r := pin (i64 (ReturnRulePrefBase + idx)) (sourceRulePrefs existing src "")
                    (fun verb => source_rule verb src (Itoa ReturnTable)) in
        match r with
        | Some e => Done (Some (ErrRun e))
        | None => return_rules existing (src :: seen) (i64 (idx + 1)) sources
        end
  end.
Definition EnsureReturnRule (sources : list string) : cmds (option rule_err) :=
  let! existing := listRulesInTable ReturnTable in
  match existing with
  | Err e => Done (Some (ErrRun e))
  | Ok existing => return_rules existing [] 0 sources
  end.

Definition showRoutes (args : list string) : cmds answer :=
  let! r := ask (["ip"; "route"; "show"]%string ++ args) in
  Done (match r with
        | Ok out => Ok out
        | Err e => if tableDoesNotExist e then Ok ""%string else Err e
        end).
Definition RouteVia (dstPrefix : string) (table : Z) : cmds answer :=
  let! r := showRoutes (dstPrefix :: if 0 <? table then ["table"; Itoa table]%string else []) in
  Done (match r with Ok out => Ok (devFrom out) | Err e => Err e end).
Definition DefaultVia (table : Z) : cmds answer :=
  let! r := showRoutes ["default"; "table"; Itoa table]%string in
  Done (match r with Ok out => Ok (devFrom out) | Err e => Err e end).
Definition ActiveIface (backendIP : string) : cmds answer := RouteVia backendIP 0.
Definition SetActivePath (dstPrefix srcIP iface : string) : cmds (option rule_err) :=
  let! r := ask ["ip"; "route"; "replace"; dstPrefix; "dev"; iface; "src"; srcIP]%string in Done (failed r).
Definition SetReturnPath (iface : string) : cmds (option rule_err) :=
  let! r := ask ["ip"; "route"; "replace"; "default"; "dev"; iface; "table"; Itoa ReturnTable]%string in
  Done (failed r).
Definition DeleteRoute (prefix : string) : cmds (option rule_err) :=
  let! r := ask ["ip"; "route"; "del"; prefix]%string in Done (failed r).

(** The source-matched rule an early build left, and the host route the
    overlay range supersedes. *)
Definition old_control_rule (frontendIP backendIP : string) : list string :=
  ["ip"; "rule"; "del"; "from"; frontendIP; "to"; backendIP; "lookup"; Itoa ControlTable]%string.
Definition del_route (prefix : string) (table : Z) : list string :=
  ["ip"; "route"; "del"; prefix; "table"; Itoa table]%string.

Definition EnsureControlRoute (routePrefix backendIP frontendIP iface : string) : cmds (option rule_err) :=
  let! existing := listRulesInTable ControlTable in
  match existing with
  | Err e => Done (Some (ErrRun e))
  | Ok existing =>
      let mark := hex_text ControlMark in
      let! r := pin ControlRulePref (markRulePrefs existing mark "")
                  (fun verb => mark_rule verb mark (Itoa ControlTable)) in
      match r with
      | Some e => Done (Some (ErrRun e))
      | None =>
          let! _ := (if contains ("from " ++ frontendIP ++ " to " ++ backendIP) existing
                     then ignore (old_control_rule frontendIP backendIP) else Done tt) in
          let! r := ask ["ip"; "route"; "replace"; routePrefix; "dev"; iface; "src"; frontendIP;
                         "table"; Itoa ControlTable]%string in
          match r with
          | Err e => Done (Some (ErrRun e))
          | Ok _ =>
              let host := (backendIP ++ "/32")%string in
              if String.eqb routePrefix host then Done None
              else let! via := RouteVia host ControlTable in
                   match via with
                   | Ok v => if String.eqb v "" then Done None
                             else let! _ := ignore (del_route host ControlTable) in Done None
                   | Err _ => Done None
                   end
          end
      end
  end.

Definition RemoveControlRoute (routePrefix backendIP frontendIP : string) : cmds unit :=
  let table := Itoa ControlTable in
  let mark := hex_text ControlMark in
  let! existing := listRulesInTable ControlTable in
  let! _ := match existing with
            | Ok existing => sweep (fun pref => mark_rule "del" mark table pref) (markRulePrefs existing mark "")
            | Err _ => ignore ["ip"; "rule"; "del"; "fwmark"; mark; "lookup"; table]%string
            end in
  let! _ := ignore (old_control_rule frontendIP backendIP) in
  let! _ := ignore (del_route routePrefix ControlTable) in
  let host := (backendIP ++ "/32")%string in
  if String.eqb routePrefix host then Done tt else ignore (del_route host ControlTable).

Definition or_empty (r : answer) : string := match r with Ok s => s | Err _ => "" end.

Fixpoint remove_probe_rules (ps : list PathConfig) (probeDst : string) : cmds unit :=
  match ps with
  | [] => Done tt
  | p :: ps =>
      let! existing := listRulesInTable (path_Table p) in
      let! _ := sweep (fun pref => mark_rule "del" (path_mark p) (Itoa (path_Table p)) pref)
                  (markRulePrefs (or_empty existing) (path_mark p) "") in
      let! _ := ignore (del_route probeDst (path_Table p)) in
      remove_probe_rules ps probeDst
  end.
Definition RemoveProbeRoutes (paths : list PathConfig) (probeDst dataPrefix : string) : cmds unit :=
  let! all := listRules in
  let! _ := remove_probe_rules paths probeDst in
  let! _ := sweep_denies (denyRulesInBand (or_empty all)) in
  ignore ["ip"; "route"; "del"; dataPrefix]%string.

Fixpoint remove_sources (existing : string) (seen sources : list string) : cmds unit :=
  match sources with
  | [] => Done tt
  | src :: sources =>
      if String.eqb src "" || bool_decide (src ∈ seen) then remove_sources existing seen sources
      else
        let! _ := sweep (fun pref => source_rule "del" src (Itoa ReturnTable) pref)
                    (sourceRulePrefs existing src "") in
        remove_sources existing (src :: seen) sources
  end.
Definition RemoveReturnRoutes (sources : list string) : cmds unit :=
  let! existing := listRulesInTable ReturnTable in
  let existing := or_empty existing in
  let! _ := remove_sources existing [] sources in
  let mark := hex_text ReturnMark in
  let! _ := sweep (fun pref => mark_rule "del" mark (Itoa ReturnTable) pref) (markRulePrefs existing mark "") in
  ignore ["ip"; "route"; "del"; "default"; "table"; Itoa ReturnTable]%string.

(** A line of the listing at priority [want] that names [value] after [key]. *)
Definition listed_at (existing key value : string) (want : Z) : bool :=
  existsb (fun line => followed_by key value (Fields (TrimSpace (bytes_string line)))
                       && String.prefix (Itoa want ++ ":") (bytes_string line))
    (split_lines [] (string_bytes existing)).

Definition EnsureOverlayLocalRule (subnet : string) : cmds (option rule_err) :=
  if String.eqb subnet "" then Done None
  else
    let! existing := listRules in
    match existing with
    | Err e => Done (Some (ErrRun e))
    | Ok existing =>
        if listed_at existing "to" subnet OverlayLocalRulePref then Done None
        else let! r := ask ["ip"; "rule"; "add"; "to"; subnet; "lookup"; "main"; "pref"; Itoa OverlayLocalRulePref]%string in
             Done (failed r)
    end.
Definition RemoveOverlayLocalRule (subnet : string) : cmds unit :=
  if String.eqb subnet "" then Done tt
  else ignore ["ip"; "rule"; "del"; "to"; subnet; "lookup"; "main"; "pref"; Itoa OverlayLocalRulePref]%string.

Definition EnsureFrontendLocalRule (frontendIP subnet : string) : cmds (option rule_err) :=
  if String.eqb subnet "" || String.eqb frontendIP "" then Done None
  else
    let! existing := listRules in
    match existing with
    | Err e => Done (Some (ErrRun e))
    | Ok existing =>
        if listed_at existing "from" frontendIP FrontendLocalRulePref then Done None
        else let! r := ask ["ip"; "rule"; "add"; "from"; frontendIP; "lookup"; "main"; "pref"; Itoa FrontendLocalRulePref]%string in
             Done (failed r)
    end.
Definition RemoveFrontendLocalRule (frontendIP subnet : string) : cmds unit :=
  if String.eqb subnet "" || String.eqb frontendIP "" then Done tt
  else ignore ["ip"; "rule"; "del"; "from"; frontendIP; "lookup"; "main"; "pref"; Itoa FrontendLocalRulePref]%string.

(** *** The overlay address and reverse-path filtering *)

Definition file_exists (r : answer) : bool :=
  match r with Ok _ => true | Err e => contains "File exists" e end.
Definition EnsureOverlayAddress (ip dev : string) : cmds (option rule_err) :=
  if String.eqb ip "" then Done (Some ErrNoAddress)
  else
    let dev := if String.eqb dev "" then "dummy0" else dev in
    let! out := ask ["ip"; "-o"; "addr"; "show"]%string in
    match out with
    | Err e => Done (Some (ErrRun e))
    | Ok out =>
        if contains (" " ++ ip ++ "/32 ") out then Done None
        else
          let! r := ask ["ip"; "link"; "add"; dev; "type"; "dummy"]%string in
          if negb (file_exists r) then Done (failed r)
          else
            let! r := ask ["ip"; "addr"; "add"; (ip ++ "/32")%string; "dev"; dev]%string in
            if negb (file_exists r) then Done (failed r)
            else let! r := ask ["ip"; "link"; "set"; dev; "up"]%string in Done (failed r)
    end.

Definition rpFilterKey (iface : string) : string := ("net/ipv4/conf/" ++ iface ++ "/rp_filter")%string.
Definition sysctl_set (key value : string) : list string := ["sysctl"; "-w"; (key ++ "=" ++ value)%string]%string.
Fixpoint rp_filters_off (ifaces : list string) : cmds unit :=
  match ifaces with
  | [] => Done tt
  | i :: ifaces => let! _ := ignore (sysctl_set (rpFilterKey i) "0") in rp_filters_off ifaces
  end.
Definition EnsureSysctls (ifaces : list string) : cmds unit :=
  let! _ := ignore (sysctl_set "net.ipv4.conf.all.rp_filter" "0") in
  let! _ := rp_filters_off ifaces in
  ignore (sysctl_set "net.ipv4.ip_forward" "1").
Definition RPFilterOff (iface : string) : cmds (result string bool) :=
  let key := rpFilterKey iface in
  let! out := ask ["sysctl"; "-n"; key]%string in
  match out with
  | Err e => Done (Err e)
  | Ok out =>
      if String.eqb (TrimSpace out) "0" then Done (Ok false)
      else let! r := ask (sysctl_set key "0") in
           Done (match r with Ok _ => Ok true | Err e => Err e end)
  end.

(** ** The kernel *)

(** A rule of the policy database, as far as the commands here select on it:
    source, destination, mark, and a table to look up or a refusal. *)
Inductive action := Lookup (table : Z) | Unreachable.
#[export] Instance action_eq_dec : EqDecision action.
Proof. solve_decision. Defined.

Record krule := mkRule {
  kr_pref : Z; kr_from : option string; kr_to : option string; kr_mark : option string; kr_act : action }.
#[export] Instance krule_eq_dec : EqDecision krule.
Proof. solve_decision. Defined.

Definition named (key : string) (v : option string) : list string :=
  match v with Some s => [key; s] | None => [] end.

(** How [ip rule show] prints it, a table by its name in [rt_tables] if it has
    one, and how a command names it. *)
Definition rule_fields (alias : Z -> string) (r : krule) : list string :=
  ["from"; default "all" (kr_from r)] ++ named "to" (kr_to r) ++ named "fwmark" (kr_mark r)
  ++ match kr_act r with Lookup t => ["lookup"; alias t] | Unreachable => ["unreachable"] end.
Definition rule_text (alias : Z -> string) (r : krule) : string :=
  (Itoa (kr_pref r) ++ ":" ++ TAB ++ String.concat " " (rule_fields alias r))%string.
Definition listing (alias : Z -> string) (rs : list krule) : string := String.concat NL (rule_text alias <$> rs).

Definition rule_argv (verb : string) (r : krule) : list string :=
  ["ip"; "rule"; verb] ++ named "from" (kr_from r) ++ named "to" (kr_to r) ++ named "fwmark" (kr_mark r)
  ++ match kr_act r with Lookup t => ["lookup"; Itoa t] | Unreachable => ["unreachable"] end
  ++ ["pref"; Itoa (kr_pref r)].

(** A deletion takes a rule with everything it names; what it leaves out it
    does not ask about. *)
Definition fits_opt (want have : option string) : bool :=
  match want with None => true | Some s => bool_decide (have = Some s) end.
Definition fits (r r' : krule) : bool :=
  (kr_pref r' =? kr_pref r) && bool_decide (kr_act r' = kr_act r)
  && fits_opt (kr_from r) (kr_from r') && fits_opt (kr_to r) (kr_to r') && fits_opt (kr_mark r) (kr_mark r').

Definition in_table (t : Z) (r : krule) : bool := bool_decide (kr_act r = Lookup t).

Definition keywords : list string := ["from"; "to"; "fwmark"; "lookup"; "unreachable"]%string.
Definition name_ok (s : string) : Prop := word s /\ s ∉ keywords.
Definition rule_ok (r : krule) : Prop :=
  in_i64 (kr_pref r) /\ match kr_act r with Lookup t => 0 <= t <= MaxInt64 | Unreachable => True end
  /\ from_option name_ok True (kr_from r) /\ from_option name_ok True (kr_to r)
  /\ from_option name_ok True (kr_mark r).

(** The commands on the policy database, with the behaviour [ip-rule(8)]
    documents.  A command can fail; one that fails has done nothing. *)
Class Kernel {W} (run : runner W) := {
  k_rules : W -> list krule;
  k_alias : Z -> string;
  k_alias_ok t : name_ok (k_alias t);
  k_rules_ok w : Forall rule_ok (k_rules w);
  k_show w : let '(a, w') := run ["ip"; "rule"; "show"]%string w in
    k_rules w' = k_rules w /\ forall out, a = Ok out -> out = listing k_alias (k_rules w);
  k_show_table t w : 0 <= t <= MaxInt64 -> let '(a, w') := run ["ip"; "rule"; "show"; "table"; Itoa t]%string w in
    k_rules w' = k_rules w
    /\ forall out, a = Ok out -> out = listing k_alias (filter (fun r => in_table t r = true) (k_rules w));
  k_add r w : rule_ok r -> let '(a, w') := run (rule_argv "add" r) w in
    if is_ok a then k_rules w' ≡ₚ r :: k_rules w else k_rules w' = k_rules w;
  k_del r w : rule_ok r -> let '(a, w') := run (rule_argv "del" r) w in
    if is_ok a then exists r', fits r r' = true /\ k_rules w ≡ₚ r' :: k_rules w' else k_rules w' = k_rules w;
  k_route dst rest w : let '(_, w') := run ("ip" :: "route" :: dst :: rest)%string w in k_rules w' = k_rules w }.

(** ** What the parsers read *)

(** Comparisons of two literals. *)
Ltac eval_eqb :=
  repeat match goal with
  | |- context [String.eqb ?a ?b] =>
      let v := eval vm_compute in (String.eqb a b) in
      match v with
      | true => change (String.eqb a b) with true
      | false => change (String.eqb a b) with false
      end
  end.

(** *** Values and keywords *)

Lemma not_keyword s k : name_ok s -> k ∈ keywords -> String.eqb s k = false.
Proof. intros [_ Hs] Hk. apply String.eqb_neq. by intros ->. Qed.

Definition is_lookup (r : krule) : bool := match kr_act r with Lookup _ => true | Unreachable => false end.

(** No value of a line is one of its keywords. *)
Lemma value_free x : (forall k, k ∈ keywords -> String.eqb x k = false) ->
  String.eqb x "from" = false /\ String.eqb x "to" = false /\ String.eqb x "fwmark" = false
  /\ String.eqb x "lookup" = false /\ String.eqb x "unreachable" = false.
Proof. intros Hx. repeat split; apply Hx; unfold keywords; rewrite !elem_of_cons, elem_of_nil; tauto. Qed.

Lemma name_free s : name_ok s -> String.eqb s "from" = false /\ String.eqb s "to" = false
  /\ String.eqb s "fwmark" = false /\ String.eqb s "lookup" = false /\ String.eqb s "unreachable" = false.
Proof. intros Hs. apply value_free. intros k Hk. by apply not_keyword. Qed.

Lemma source_free o : from_option name_ok True o -> let s := default "all" o in
  String.eqb s "from" = false /\ String.eqb s "to" = false
  /\ String.eqb s "fwmark" = false /\ String.eqb s "lookup" = false /\ String.eqb s "unreachable" = false.
Proof. destruct o as [s|]; [apply name_free |]. intros _. repeat split. Qed.

Lemma some_decide (a b : string) : bool_decide (Some a = Some b) = String.eqb a b.
Proof. destruct (String.eqb_spec a b) as [->|]; [by apply bool_decide_eq_true | apply bool_decide_eq_false; congruence]. Qed.

(** Run a scan over the fields of a rule, by the parts it has. *)
Ltac scan_rule alias Halias r Hr :=
  let Hf := fresh in let Ht := fresh in let Hm := fresh in
  destruct Hr as (_ & _ & Hf & Ht & Hm); apply source_free in Hf as (? & ? & ? & ? & ?);
  let pref := fresh "pref" in let from := fresh "from" in let to := fresh "to" in
  let mark := fresh "mark" in let act := fresh "act" in
  destruct r as [pref from to mark act]; cbn [kr_from kr_to kr_mark kr_act] in *;
  unfold rule_fields; cbn [kr_from kr_to kr_mark kr_act]; set (default "all" from) in *;
  destruct to as [to|]; [apply name_free in Ht as (? & ? & ? & ? & ?) |];
  (destruct mark as [mark|]; [apply name_free in Hm as (? & ? & ? & ? & ?) |]);
  (destruct act as [tb|]; [destruct (name_free (alias tb) (Halias tb)) as (? & ? & ? & ? & ?) |]);
  cbn [named app]; unfold is_lookup; cbn [kr_act default].

Section parsing.
Context (alias : Z -> string) (Halias : forall t, name_ok (alias t)).

Lemma keyword_word s : s ∈ keywords -> word s.
Proof.
  unfold keywords. rewrite !elem_of_cons, elem_of_nil. intros H.
  destruct_or!; subst; try done; split; (done || vm_compute; reflexivity).
Qed.

Lemma rule_fields_words r : rule_ok r -> Forall word (rule_fields alias r).
Proof.
  intros (_ & _ & Hf & Ht & Hm). unfold rule_fields.
  assert (Hk : forall s, s ∈ keywords -> word s) by apply keyword_word.
  assert (Hn : forall key v, key ∈ keywords -> from_option name_ok True v -> Forall word (named key v)).
  { intros key [s|] Hkey Hs; cbn [named]; [| constructor]. constructor; [by apply Hk |].
    constructor; [apply Hs | constructor]. }
  apply Forall_app_2.
  { constructor; [apply Hk; by left |]. constructor; [| constructor].
    destruct (kr_from r) as [s|]; [apply Hf | split; [done | vm_compute; reflexivity]]. }
  apply Forall_app_2; [apply Hn; [right; by left | done] |].
  apply Forall_app_2; [apply Hn; [right; right; by left | done] |].
  destruct (kr_act r).
  - constructor; [apply Hk; do 3 right; by left |]. constructor; [apply Halias | constructor].
  - constructor; [apply Hk; do 4 right; by left | constructor].
Qed.

Lemma uint_text n : in_u64 n -> exists c b, string_bytes (FormatUint n) = c :: b
  /\ Forall (fun c => 48 <= c <= 57) (c :: b) /\ parse_digits 0 (c :: b) = Some n.
Proof.
  intros Hu. pose proof (FormatUint_nonempty n Hu) as Hne. pose proof (ParseUint_FormatUint n Hu) as Hp.
  pose proof (FormatUint_bytes n ltac:(unfold in_u64 in Hu; lia)) as Hb. unfold ParseUint in Hp.
  destruct (string_bytes (FormatUint n)) as [|c b] eqn:E.
  - destruct Hne. by rewrite <- (bytes_string_bytes (FormatUint n)), E.
  - exists c, b. split; [done |]. split; [| done].
    rewrite Hb. apply Forall_fmap. destruct (digits_ok 20 n) as (_ & Hd & _); [by apply u64_digits |].
    eapply Forall_impl; [exact Hd |]. cbn. lia.
Qed.

Lemma Itoa_bytes n : in_i64 n ->
  string_bytes (Itoa n) <> [] /\ Forall (fun c => 45 <= c <= 57) (string_bytes (Itoa n)) /\ Atoi (string_bytes (Itoa n)) = Some n.
Proof.
  intros Hn. unfold Itoa, Atoi. destruct (Z.ltb_spec n 0).
  - destruct (uint_text (-n)) as (c & b & E & Hd & Hp); [go_lia |].
    rewrite string_bytes_append, E. change (string_bytes "-") with [45]. cbn [app]. split; [done |]. split.
    + constructor; [lia |]. eapply Forall_impl; [exact Hd |]. cbn. lia.
    + rewrite Hp. replace (- - n) with n by lia.
      destruct (Z.leb_spec MinInt64 n), (Z.leb_spec n MaxInt64); (done || go_lia).
  - destruct (uint_text n) as (c & b & E & Hd & Hp); [go_lia |]. rewrite E. split; [done |]. split.
    + eapply Forall_impl; [exact Hd |]. cbn. lia.
    + apply Forall_cons in Hd as [Hc _].
      assert (Hs : match c :: b with 45 :: d => (true, d) | 43 :: d => (false, d) | _ => (false, c :: b) end = (false, c :: b)).
      { destruct c as [|q|q]; [done | | done]. do 6 (destruct q as [q|q|]; try done); lia. }
      rewrite Hs, Hp. destruct (Z.leb_spec MinInt64 n), (Z.leb_spec n MaxInt64); (done || go_lia).
Qed.

Lemma plain_bytes_of_words ws : Forall word ws -> ws <> [] ->
  exists a b x y, string_bytes (String.concat " " ws) = x :: a /\ string_bytes (String.concat " " ws) = b ++ [y]
    /\ plain_byte x = true /\ plain_byte y = true
    /\ Forall (fun c => c = 32 \/ plain_byte c = true) (string_bytes (String.concat " " ws)).
Proof.
  intros Hws Hne. rewrite string_bytes_concat. change (string_bytes " ") with [32].
  assert (Hb : Forall (fun w => w <> [] /\ forallb plain_byte w = true) (string_bytes <$> ws)).
  { apply Forall_fmap. eapply Forall_impl; [exact Hws |]. intros s [Hs Hp]. cbn. split; [| done].
    intros E. apply Hs. rewrite <- (bytes_string_bytes s), E. done. }
  assert (Hne' : string_bytes <$> ws <> []) by (destruct ws; done).
  revert Hb Hne'. generalize (string_bytes <$> ws). clear. intros ws Hb Hne.
  destruct ws as [|w ws]; [done |]. clear Hne. revert w Hb.
  induction ws as [|v ws IH]; intros w Hb; apply Forall_cons in Hb as [[Hw Hp] Hb]; cbn [join_bytes fmap list_fmap concat].
  - rewrite app_nil_r. destruct w as [|x a]; [done |].
    destruct (exists_last Hw) as (b & y & E). rewrite forallb_forall in Hp.
    exists a, b, x, y. split_and!; [done | done | apply Hp; by left | apply Hp; rewrite E; apply in_or_app; right; by left |].
    apply Forall_forall. intros c Hc. right. apply Hp. by apply list_elem_of_In.
  - destruct (IH v Hb) as (a & b & x & y & E1 & E2 & Hx & Hy & Hall). cbn [join_bytes] in E1, E2, Hall.
    destruct w as [|z w]; [done |]. rewrite forallb_forall in Hp.
    exists (w ++ (32 :: v) ++ concat ((fun y => [32] ++ y) <$> ws)), ((z :: w) ++ [32] ++ b), z, y.
    split_and!; [done | | apply Hp; by left | done |].
    + cbn [app]. cbn [app] in E2. rewrite E2. by rewrite <- app_assoc.
    + apply Forall_app_2; [apply Forall_forall; intros c Hc; right; apply Hp; by apply list_elem_of_In |].
      cbn [app]. constructor; [by left | exact Hall].
Qed.

Lemma space_front_digit c b : 45 <= c <= 57 -> space_front (c :: b) = 0%nat.
Proof.
  intros Hc. cbn [space_front]. destruct (Z.eqb_spec c 32), (Z.leb_spec 9 c), (Z.leb_spec c 13); try lia. cbn [orb andb].
  destruct b as [|y [|z r]]; [done | |];
    repeat (match goal with |- context [c =? ?k] => destruct (Z.eqb_spec c k); [lia |] end); done.
Qed.

Lemma space_back_plain y b : plain_byte y = true -> space_back (y :: b) = 0%nat.
Proof.
  intros Hy. unfold space_back.
  unfold plain_byte in Hy. bool_to_prop.
  assert (H1 : space_front [y] = 0%nat).
  { cbn. destruct (Z.eqb_spec y 32), (Z.leb_spec 9 y), (Z.leb_spec y 13); try lia; done. }
  assert (H2 : forall p, space_front [p; y] <> 2%nat).
  { intros p. cbn. destruct (_ || _); [done |]. destruct (Z.eqb_spec y 133), (Z.eqb_spec y 160); try lia.
    by rewrite andb_false_r. }
  assert (H3 : forall q p, space_front [q; p; y] <> 3%nat).
  { intros q p. cbn. destruct (_ || _); [done |]. destruct (_ && _); [done |].
    assert (E : ((q =? 225) && (p =? 154) && (y =? 128)
      || (q =? 226) && (p =? 128) && ((128 <=? y) && (y <=? 138) || (y =? 168) || (y =? 169) || (y =? 175))
      || (q =? 226) && (p =? 129) && (y =? 159) || (q =? 227) && (p =? 128) && (y =? 128)) = false); [| by rewrite E].
    destruct (Z.eqb_spec y 128), (Z.leb_spec 128 y), (Z.eqb_spec y 168), (Z.eqb_spec y 169), (Z.eqb_spec y 175),
      (Z.eqb_spec y 159); lia. }
  destruct b as [|p [|q b]]; cbn [take rev app]; rewrite H1; cbn [Nat.eqb].
  - done.
  - assert (H4 : space_front [p; y] <> 3%nat).
    { cbn. destruct (_ || _); [done |]. by destruct (_ && _). }
    by rewrite (proj2 (Nat.eqb_neq _ _) (H2 p)), (proj2 (Nat.eqb_neq _ _) H4).
  - rewrite take_0. cbn [rev app]. by rewrite (proj2 (Nat.eqb_neq _ _) (H2 p)), (proj2 (Nat.eqb_neq _ _) (H3 q p)).
Qed.

Lemma trim_rule_line d b y : Forall (fun c => 45 <= c <= 57) d -> d <> [] -> plain_byte y = true ->
  trim_bytes (d ++ b ++ [y]) = d ++ b ++ [y].
Proof.
  intros Hd Hne Hy. apply trim_bytes_id.
  - destruct d as [|c d]; [done |]. apply Forall_cons in Hd as [Hc _]. by apply space_front_digit.
  - rewrite app_assoc, rev_app_distr. by apply space_back_plain.
Qed.

Lemma string_bytes_TAB : string_bytes TAB = [9].
Proof. reflexivity. Qed.

Lemma rule_text_bytes r : rule_ok r -> exists d b y,
  string_bytes (rule_text alias r) = d ++ b ++ [y] /\ d = string_bytes (Itoa (kr_pref r))
  /\ b ++ [y] = 58 :: 9 :: string_bytes (String.concat " " (rule_fields alias r))
  /\ plain_byte y = true /\ 10 ∉ string_bytes (rule_text alias r).
Proof.
  intros Hr.
  destruct (plain_bytes_of_words (rule_fields alias r) (rule_fields_words r Hr) ltac:(done))
    as (a & b & x & y & E1 & E2 & Hx & Hy & Hall).
  exists (string_bytes (Itoa (kr_pref r))), (58 :: 9 :: b), y.
  destruct (Itoa_bytes (kr_pref r) (proj1 Hr)) as (_ & Hd & _).
  assert (E : string_bytes (rule_text alias r) = string_bytes (Itoa (kr_pref r)) ++ (58 :: 9 :: b) ++ [y]).
  { unfold rule_text. rewrite !string_bytes_append, E2, string_bytes_TAB. reflexivity. }
  split; [done |]. split; [done |]. split; [by rewrite E2 |]. split; [done |].
  rewrite E. intros Hin. apply elem_of_app in Hin as [Hin|Hin].
  - rewrite Forall_forall in Hd. specialize (Hd 10 Hin). lia.
  - cbn [app] in Hin. rewrite <- E2, !elem_of_cons in Hin. destruct Hin as [?|[?|Hin]]; try lia.
    rewrite Forall_forall in Hall. destruct (Hall 10 Hin) as [?|Hp]; [lia | discriminate Hp].
Qed.

Lemma rule_line_text r : rule_ok r ->
  rule_line (string_bytes (rule_text alias r)) = Some (kr_pref r, rule_fields alias r).
Proof.
  intros Hr. destruct (rule_text_bytes r Hr) as (d & b & y & E & -> & Eb & Hy & _).
  destruct (Itoa_bytes (kr_pref r) (proj1 Hr)) as (Hne & Hd & Ha).
  unfold rule_line. rewrite E, trim_rule_line by done. rewrite Eb. rewrite cut_byte_ok.
  - cbn [rev app]. rewrite Ha. do 2 f_equal.
    rewrite <- (Fields_words 9 (rule_fields alias r)) at 2; [| right; lia | by apply rule_fields_words].
    f_equal. rewrite <- (bytes_string_bytes (bytes_string [9] ++ _)%string), string_bytes_append. reflexivity.
  - intros Hin. rewrite Forall_forall in Hd. specialize (Hd 58 Hin). lia.
Qed.

Lemma listing_lines rs : rs <> [] -> Forall rule_ok rs ->
  split_lines [] (string_bytes (listing alias rs)) = string_bytes <$> (rule_text alias <$> rs).
Proof.
  intros Hne Hrs. unfold listing. rewrite string_bytes_concat. change (string_bytes NL) with [10].
  rewrite split_lines_join; [done | by destruct rs |].
  apply Forall_fmap, Forall_fmap. eapply Forall_impl; [exact Hrs |]. intros r' Hr'.
  by destruct (rule_text_bytes r' Hr') as (d & b & y & _ & _ & _ & _ & ?).
Qed.

Lemma rule_lines_listing rs : Forall rule_ok rs ->
  rule_lines (listing alias rs) = (fun r => (kr_pref r, rule_fields alias r)) <$> rs.
Proof.
  intros Hrs. unfold rule_lines. destruct rs as [|r rs]; [done |]. rewrite listing_lines by done.
  revert Hrs. generalize (r :: rs). clear r rs. intros rs Hrs. induction Hrs as [|r rs Hr Hrs IH]; [done |].
  cbn [fmap list_fmap omap list_omap]. rewrite (rule_line_text r Hr). f_equal. exact IH.
Qed.

Lemma scan_fields r : rule_ok r ->
  (forall m, followed_by "fwmark" m (rule_fields alias r) = bool_decide (kr_mark r = Some m))
  /\ (forall s, followed_by "from" s (rule_fields alias r) = String.eqb (default "all" (kr_from r)) s)
  /\ has_key "lookup" (rule_fields alias r) = is_lookup r
  /\ scan_deny "" false (rule_fields alias r) = (default "" (kr_mark r), negb (is_lookup r)).
Proof.
  intros Hr. scan_rule alias Halias r Hr; repeat split; intros; cbn [followed_by has_key scan_deny];
    repeat match goal with E : String.eqb ?a ?b = false |- context [String.eqb ?a ?b] => rewrite E end;
    eval_eqb; cbn [andb orb negb from_option]; rewrite ?some_decide, ?orb_false_r; try done;
    try (symmetry; apply bool_decide_eq_false; done).
Qed.

(** What a line of the listing is read as: the priority of a lookup with this
    mark, a refusal in the band. *)
Definition mark_view (m : string) (r : krule) : option Z :=
  if bool_decide (kr_mark r = Some m) && is_lookup r then Some (kr_pref r) else None.
Definition deny_view (r : krule) : option denyRule :=
  match kr_mark r with
  | Some m => if negb (is_lookup r) && inProbeDenyBand (kr_pref r) then Some (mkDeny (kr_pref r) m) else None
  | None => None
  end.

Lemma markRulePrefs_listing rs m : Forall rule_ok rs -> markRulePrefs (listing alias rs) m "" = omap (mark_view m) rs.
Proof.
  intros Hrs. unfold markRulePrefs. rewrite rule_lines_listing by done.
  induction Hrs as [|r rs Hr Hrs IH]; [done |]. cbn [fmap list_fmap omap list_omap fst snd].
  destruct (scan_fields r Hr) as (E1 & _ & E3 & _). rewrite E1, E3, String.eqb_refl, orb_true_r, andb_true_r.
  unfold mark_view. destruct (_ && _); [f_equal |]; exact IH.
Qed.

Lemma sourceRulePrefs_listing rs s : Forall rule_ok rs ->
  sourceRulePrefs (listing alias rs) s ""
  = omap (fun r => if String.eqb (default "all" (kr_from r)) s then Some (kr_pref r) else None) rs.
Proof.
  intros Hrs. unfold sourceRulePrefs. rewrite rule_lines_listing by done.
  induction Hrs as [|r rs Hr Hrs IH]; [done |]. cbn [fmap list_fmap omap list_omap fst snd].
  destruct (scan_fields r Hr) as (_ & E & _). rewrite E, String.eqb_refl, orb_true_r, andb_true_r.
  destruct (String.eqb _ s); [f_equal |]; exact IH.
Qed.

(** A refusal of a mark, at any priority. *)
Definition refused_view (r : krule) : option denyRule :=
  match kr_mark r with
  | Some m => if is_lookup r then None else Some (mkDeny (kr_pref r) m)
  | None => None
  end.

Lemma unreachableRules_listing rs : Forall rule_ok rs -> unreachableRules (listing alias rs) = omap refused_view rs.
Proof.
  intros Hrs. unfold unreachableRules. rewrite rule_lines_listing by done.
  induction Hrs as [|r rs Hr Hrs IH]; [done |]. cbn [fmap list_fmap omap list_omap fst snd].
  destruct (scan_fields r Hr) as (_ & _ & _ & E). unfold deny_of, refused_view. cbn [fst snd]. rewrite E.
  destruct Hr as (_ & _ & _ & _ & Hm). destruct (kr_mark r) as [m|]; cbn [default from_option id] in *; [| exact IH].
  assert (Hne : String.eqb m "" = false) by (apply String.eqb_neq; apply Hm). rewrite Hne. cbn [negb andb].
  destruct (is_lookup r); cbn [negb]; [exact IH | f_equal; exact IH].
Qed.

Lemma denyRulesInBand_listing rs : Forall rule_ok rs -> denyRulesInBand (listing alias rs) = omap deny_view rs.
Proof.
  intros Hrs. unfold denyRulesInBand. rewrite unreachableRules_listing by done. clear Hrs.
  induction rs as [|r rs IH]; [done |]. cbn [omap list_omap]. unfold refused_view at 1, deny_view at 1.
  destruct (kr_mark r) as [m|]; [| exact IH]. destruct (is_lookup r); cbn [negb andb]; [exact IH |].
  destruct (inProbeDenyBand (kr_pref r)) eqn:Eb.
  - rewrite filter_cons_True by exact Eb. f_equal. exact IH.
  - rewrite filter_cons_False by (cbn; congruence). exact IH.
Qed.
End parsing.
