(* ===== verification/Protect.v ===== *)
(** * Edge protection ([internal/sysx/protect.go])

    What the edge filter is built from, and the table it renders to: the
    per-source limits and their sets, the region locks, the park chains.  A
    table nft refuses takes every limit with it, so the first theorems say it
    is one nft accepts: every set and chain declared once, before it is used,
    under an identifier.  The rest read the rules as the kernel does and
    compare them with what the configuration promises. *)

From S2P Require Import Prelude Model Bytes Decimal Text Net Ports Nft.

Definition NFTProtectTable : string := "failover_protect".

Record ProtectService := mkProtectService {
  psv_Name : string; psv_Proto : string; psv_Port : Z; psv_PortEnd : Z; psv_SourceEngine : bool;
  psv_CeilingPPS : Z; psv_GeoRegions : list string; psv_GeoBlock : bool; psv_GeoAutoPPS : Z;
  psv_NewConnsPerSec : Z; psv_MaxConnsPerSource : Z }.

Record ProtectSpec := mkProtectSpec {
  sp_PublicIface : string;
  sp_NewConnsPerSec : Z; sp_MaxConnsPerSource : Z; sp_PacketsPerSec : Z; sp_QueriesPerSec : Z;
  sp_BlockSeconds : Z;
  sp_DropInvalid : bool; sp_DropBogusTCP : bool; sp_DropSpoofed : bool; sp_DropLegacyQueries : bool;
  sp_GeoLockSeconds : Z; sp_Regions : list GeoRegion; sp_Services : list ProtectService }.

Definition DefaultGeoLockSeconds : Z := 60.
Definition geoLockSeconds (s : ProtectSpec) : Z :=
  if 0 <? sp_GeoLockSeconds s then sp_GeoLockSeconds s else DefaultGeoLockSeconds.

(** [strings.EqualFold] with a word none of whose letters has a case variant
    outside ASCII, as [tcp] and [udp]. *)
Definition equal_fold (s word : string) : bool := String.eqb (string_lower s) word.

Definition overridesConnRate (sv : ProtectService) : bool :=
  equal_fold (psv_Proto sv) "tcp" && (0 <? psv_NewConnsPerSec sv).
Definition overridesConnCount (sv : ProtectService) : bool :=
  equal_fold (psv_Proto sv) "tcp" && (0 <? psv_MaxConnsPerSource sv).

(** A service's ports as an interval, and as the generators write them. *)
Definition psv_range (sv : ProtectService) : portRange :=
  mkPortRange (psv_Port sv) (Z.max (psv_Port sv) (psv_PortEnd sv)).
Definition psv_spec (sv : ProtectService) : portRange := mkPortRange (psv_Port sv) (psv_PortEnd sv).

(** [ProtectSpec.ports], [sharedConnPorts] and [sourceEnginePorts], before
    [mergePorts] renders them. *)
Definition proto_ports (s : ProtectSpec) (proto : string) : list portRange :=
  merge_ranges (psv_range <$> filter (fun sv => equal_fold (psv_Proto sv) proto = true) (sp_Services s)).

Definition sharedConnPorts (s : ProtectSpec) (overridden : ProtectService -> bool) : list portRange :=
  let tcp := filter (fun sv => equal_fold (psv_Proto sv) "tcp" = true) (sp_Services s) in
  merge_ranges (subtractRanges (psv_range <$> filter (fun sv => overridden sv = false) tcp)
                               (psv_range <$> filter (fun sv => overridden sv = true) tcp)).

Definition sourceEnginePorts (s : ProtectSpec) : list portRange :=
  merge_ranges (psv_range <$>
    filter (fun sv => psv_SourceEngine sv && equal_fold (psv_Proto sv) "udp" = true) (sp_Services s)).

(** [geoRegionElems]: the regions some service names, merged; of two regions
    with one name the later one's networks stand, if it has any. *)
Definition referenced_regions (s : ProtectSpec) : list string := concat (psv_GeoRegions <$> sp_Services s).
Definition add_region (referenced : list string) (out : gmap string (list string)) (r : GeoRegion)
  : gmap string (list string) :=
  if bool_decide (region_Name r ∉ referenced) then out
  else match mergeCIDRs (region_CIDRs r) with
       | [] => out
       | els => <[region_Name r := els]> out
       end.
Definition geoRegionElems (s : ProtectSpec) : gmap string (list string) :=
  fold_left (add_region (referenced_regions s)) (sp_Regions s) ∅.

Definition resolves (elems : gmap string (list string)) (name : string) : bool :=
  (0 <? length (default [] (elems !! name)))%nat.

(** [geoServices]. *)
Definition geo_live (elems : gmap string (list string)) (sv : ProtectService) : bool :=
  if (length (psv_GeoRegions sv) =? 0)%nat then false
  else let resolved := length (filter (fun n => resolves elems n = true) (psv_GeoRegions sv)) in
       if psv_GeoBlock sv && (0 <? resolved)%nat then true
       else negb (psv_GeoBlock sv) && (resolved =? length (psv_GeoRegions sv))%nat.
Definition geoServices (s : ProtectSpec) (elems : gmap string (list string)) : list ProtectService :=
  filter (fun sv => geo_live elems sv = true) (sp_Services s).

Definition claimName (taken : gset string) (base : string) : gset string * string :=
  let name := default base (uniqueName taken base) in ({[name]} ∪ taken, name).

Record connOverride := mkConnOverride { ov_svc : ProtectService; ov_rateSet : string; ov_countSet : string }.

Section names.
Context `{Unicode}.

(** [connOverrides]: one row's claim, and the loop. *)
Definition override_step (acc : gset string * list connOverride) (sv : ProtectService)
  : gset string * list connOverride :=
  let '(taken, out) := acc in
  if negb (overridesConnRate sv) && negb (overridesConnCount sv) then acc
  else
    let '(taken, rate) := if overridesConnRate sv
                          then claimName taken (foldSetName "conn_rate_" (psv_Name sv)) else (taken, ""%string) in
    let '(taken, count) := if overridesConnCount sv
                           then claimName taken (foldSetName "conn_count_" (psv_Name sv)) else (taken, ""%string) in
    (taken, out ++ [mkConnOverride sv rate count]).
Definition connOverrides (s : ProtectSpec) : list connOverride :=
  snd (fold_left override_step (sp_Services s) (∅, [])).

(** [ProtectSpecFrom]. *)
Definition protect_row (s : Service) : option ProtectService :=
  if negb (svc_Enabled s) then None
  else let proto := ToLower (svc_Proto s) in
       if negb (String.eqb proto "tcp") && negb (String.eqb proto "udp") then None
       else Some (mkProtectService (svc_Name s) proto (svc_Port s) (svc_PortEnd s) (svc_SourceEngine s)
                    (svc_CeilingPPS s) (svc_GeoRegions s) (svc_GeoBlock s) (svc_GeoAutoPPS s)
                    (svc_NewConnsPerSec s) (svc_MaxConnsPerSource s)).
Definition emptySpec : ProtectSpec := mkProtectSpec "" 0 0 0 0 0 false false false false 0 [] [].
Definition ProtectSpecFrom (cfg : Config) : ProtectSpec :=
  let p := cfg_Protect cfg in
  if negb (protect_Enabled p) then emptySpec
  else mkProtectSpec (fe_PublicIface (cfg_Frontend cfg))
         (protect_NewConnsPerSec p) (protect_MaxConnsPerSource p) (protect_PacketsPerSec p)
         (protect_QueriesPerSec p) (protect_BlockSeconds p)
         (protect_DropInvalid p) (protect_DropBogusTCP p) (protect_DropSpoofed p) (protect_DropLegacyQueries p)
         (protect_GeoLockSeconds p) (protect_Regions p)
         (omap protect_row (cfg_Services cfg)).
End names.

(** [active]. *)
Definition active (s : ProtectSpec) (sePorts : list portRange) (geoSvcs : list ProtectService)
    (overrides : list connOverride) : bool :=
  if String.eqb (sp_PublicIface s) "" then false
  else if sp_DropInvalid s || sp_DropBogusTCP s || sp_DropSpoofed s then true
  else if (0 <? sp_NewConnsPerSec s) || (0 <? sp_MaxConnsPerSource s) || (0 <? sp_PacketsPerSec s) then true
  else if (0 <? length overrides)%nat then true
  else if ((0 <? sp_QueriesPerSec s) || sp_DropLegacyQueries s) && (0 <? length sePorts)%nat then true
  else if existsb (fun sv => 0 <? psv_CeilingPPS sv) (sp_Services s) then true
  else (0 <? length geoSvcs)%nat.

(** ** The table *)

Definition CounterBlocked : string := "blocked".
Definition CounterInvalid : string := "invalid".
Definition CounterBogusTCP : string := "bogus-tcp".
Definition CounterSpoofed : string := "spoofed".
Definition CounterLegacyQ : string := "legacy-query".
Definition CounterConnRate : string := "conn-rate".
Definition CounterConnCount : string := "conn-count".
Definition CounterPacketRate : string := "packet-rate".
Definition CounterQueryRate : string := "query-rate".
Definition CounterCeiling : string := "ceiling".
Definition CounterGeo : string := "geo".
Definition CounterGeoTrip : string := "geo-trip".
Definition sourceSetSize : Z := 262144.
Definition rateSetTimeout : Z := 10.

(** [dynSet]: a timeout of zero is a set with no element timeout. *)
Definition dynSet (name : string) (timeout : Z) : nset :=
  mkNset name "ipv4_addr"
    (("size " ++ Itoa sourceSetSize)%string ::
     (if 0 <? timeout then ["flags dynamic,timeout"; "timeout " ++ Itoa timeout ++ "s"]%string
      else ["flags dynamic"%string])) None.
Definition blockedSet (seconds : Z) : nset :=
  mkNset "blocked" "ipv4_addr"
    [("size " ++ Itoa sourceSetSize)%string; "flags dynamic,timeout"%string; ("timeout " ++ Itoa seconds ++ "s")%string;
     ("comment " ++ quoted "sources parked by a rate limit; entries expire on their own")%string] None.

(** [parkChains]: the chains registered, latest last, and the names used. *)
Record parks := mkParks { pk_chains : list (string * string); pk_used : gset string }.

Definition bogusTCPMatches : list string :=
  ["tcp flags & (fin|syn) == (fin|syn)"; "tcp flags & (syn|rst) == (syn|rst)";
   "tcp flags & (fin|rst) == (fin|rst)"; "tcp flags & (fin|ack) == fin";
   "tcp flags & (ack|urg) == urg"; "tcp flags & (fin|syn|rst|psh|ack|urg) == 0x0";
   "tcp flags == (fin|syn|rst|psh|ack|urg)"]%string.
Definition martianSet : string :=
  ("{ 0.0.0.0/8, 10.0.0.0/8, 127.0.0.0/8, 169.254.0.0/16, 172.16.0.0/12, " ++
   "192.168.0.0/16, 224.0.0.0/4, 240.0.0.0/4 }")%string.

Section table.
Context `{Unicode}.

Definition target (comment : string) (p : parks) : string * parks :=
  let '(used, name) := claimName (pk_used p) (foldSetName "park_" comment) in
  (name, mkParks (pk_chains p ++ [(name, comment)]) used).

(** The tail of a limiter's rule: its own drop, or a jump to its park chain. *)
Definition limiter_tail (park : bool) (comment : string) (p : parks) : rule * parks :=
  if negb park then ([Counter; Drop; Comment comment], p)
  else let '(name, p) := target comment p in ([Jump name], p).

Definition connRateRule (ports : list portRange) (set : string) (rate : Z) (tail : rule) : rule :=
  [Text "ct state new"; Dport "tcp" ports;
   Meter "add" set ("ip saddr limit rate over " ++ Itoa rate ++ "/second burst " ++ Itoa (i64 (rate * 2)) ++ " packets")%string]
  ++ tail.
Definition connCountRule (ports : list portRange) (set : string) (most : Z) (tail : rule) : rule :=
  [Text "ct state new"; Dport "tcp" ports; Meter "add" set ("ip saddr ct count over " ++ Itoa most)%string] ++ tail.

(** Rules written one after another, each taking the park chains so far. *)
Definition writer := parks -> list line * parks.
Definition write (l : list line) : writer := fun p => (l, p).
Definition andThen (a b : writer) : writer :=
  fun p => let '(l, p) := a p in let '(m, p) := b p in (l ++ m, p).
Definition when (c : bool) (w : writer) : writer := if c then w else write [].
Definition limited (park : bool) (comment : string) (f : rule -> rule) : writer :=
  fun p => let '(t, p) := limiter_tail park comment p in ([Rule (f t)], p).
Definition each {A} (f : A -> writer) (l : list A) : writer := fold_right (fun a w => andThen (f a) w) (write []) l.

(** The region locks of one service: the trip first, then its drops. *)
Definition geo_lock (s : ProtectSpec) (elems : gmap string (list string)) (sv : ProtectService) : list line :=
  let dport := Dport (psv_Proto sv) [psv_spec sv] in
  let lockCond := if 0 <? psv_GeoAutoPPS sv then [InSet "th dport" false (geoLockSetName (psv_Proto sv))] else [] in
  let live := filter (fun n => resolves elems n = true) (psv_GeoRegions sv) in
  let comment := Comment (CounterGeo ++ ":" ++ psv_Name sv)%string in
  (if 0 <? psv_GeoAutoPPS sv
   then [Rule [dport; Text ("limit rate over " ++ Itoa (psv_GeoAutoPPS sv) ++ "/second")%string;
               Meter "update" (geoLockSetName (psv_Proto sv))
                 ("th dport timeout " ++ Itoa (geoLockSeconds s) ++ "s")%string;
               Counter; Comment (CounterGeoTrip ++ ":" ++ psv_Name sv)%string]] else [])
  ++ (if psv_GeoBlock sv
      then (fun n => Rule ([dport] ++ lockCond ++ [InSet "ip saddr" false (GeoSetName n); Counter; Drop; comment])) <$> live
      else [Rule ([dport] ++ lockCond ++ ((fun n => InSet "ip saddr" true (GeoSetName n)) <$> live)
                  ++ [Counter; Drop; comment])]).

Definition raw_lines (s : ProtectSpec) (elems : gmap string (list string)) (geoSvcs : list ProtectService)
    (sePorts : list portRange) : list line :=
  [Rule [Iif true (sp_PublicIface s); Accept]]
  ++ (if 0 <? sp_BlockSeconds s
      then [Remark "Parked sources cost one set lookup and nothing else.";
            Rule [InSet "ip saddr" false "blocked"; Counter; Drop; Comment CounterBlocked]] else [])
  ++ (if sp_DropBogusTCP s
      then Remark "Flag combinations no stack produces: scans and crafted floods." ::
           ((fun m => Rule [Text m; Counter; Drop; Comment CounterBogusTCP]) <$> bogusTCPMatches) else [])
  ++ (if sp_DropSpoofed s
      then [Remark "Source addresses that cannot legitimately arrive from the internet.";
            Rule [Text ("ip saddr " ++ martianSet)%string; Counter; Drop; Comment CounterSpoofed]] else [])
  ++ (if sp_DropLegacyQueries s && (0 <? length sePorts)%nat
      then [Remark "The two deprecated Source connectionless queries, dropped before";
            Remark "conntrack: GETCHALLENGE (0x57) and A2A_PING (0x69). No client has";
            Remark "sent either in over a decade, and both are reflector shapes. The";
            Remark "match is the connectionless header then the type byte, exactly as";
            Remark "the query rate limiter reads it, so the live queries (0x54-0x56)";
            Remark "and in-game traffic are untouched.";
            Rule [Dport "udp" sePorts; connectionlessMatch; Payload 96 8 [(87, "0x57"%string); (105, "0x69"%string)];
                  Counter; Drop; Comment CounterLegacyQ]] else [])
  ++ (if (0 <? length geoSvcs)%nat
      then [Remark "Region locks: an allow lock drops everything outside its regions,";
            Remark "a block lock drops exactly what is inside them. Before conntrack";
            Remark "and on every packet, not just new connections: the set answer is";
            Remark "fixed per address, so a player the lock admits can never be newly";
            Remark "caught by it, while matching statelessly means a barred flood costs";
            Remark "no conntrack entry and a lock engaging also ends flows already in";
            Remark "progress."] ++ concat (geo_lock s elems <$> geoSvcs) else []).

Definition filter_lines (s : ProtectSpec) (sePorts : list portRange) (overrides : list connOverride) : writer :=
  let park := 0 <? sp_BlockSeconds s in
  let ratePorts := sharedConnPorts s overridesConnRate in
  let countPorts := sharedConnPorts s overridesConnCount in
  let udp := proto_ports s "udp" in
  andThen (write [Rule [Iif true (sp_PublicIface s); Accept]])
  (andThen (write (if sp_DropInvalid s
      then [Remark "Packets conntrack cannot place in any connection.";
            Rule [Text "ct state invalid"; Counter; Drop; Comment CounterInvalid]] else []))
  (andThen (when ((0 <? sp_NewConnsPerSec s) && (0 <? length ratePorts)%nat)
      (andThen (write [Remark "Connection attempts per source. Established connections are untouched."])
               (limited park CounterConnRate (connRateRule ratePorts "conn_rate" (sp_NewConnsPerSec s)))))
  (andThen (when ((0 <? sp_MaxConnsPerSource s) && (0 <? length countPorts)%nat)
      (andThen (write [Remark "Concurrent connections held by one source."])
               (limited park CounterConnCount (connCountRule countPorts "conn_count" (sp_MaxConnsPerSource s)))))
  (andThen (when ((0 <? length udp)%nat && (0 <? sp_PacketsPerSec s))
      (andThen (write [Remark "Packets per second from one source. A player in a game sends";
                       Remark "tens of packets a second, so this wants to be generous."])
               (limited park CounterPacketRate (fun t =>
                  [Dport "udp" udp;
                   Meter "add" "packet_rate" ("ip saddr limit rate over " ++ Itoa (sp_PacketsPerSec s)
                     ++ "/second burst " ++ Itoa (i64 (sp_PacketsPerSec s * 2)) ++ " packets")%string] ++ t))))
  (andThen (when ((0 <? length sePorts)%nat && (0 <? sp_QueriesPerSec s))
      (andThen (write [Remark "Source-engine connectionless packets: the queries and connection";
                       Remark "attempts, which start 0xFFFFFFFF. A player already in the game";
                       Remark "sends sequence-numbered packets and never matches this, which is";
                       Remark "what makes a tight limit safe here. @th,64,32 is the first four";
                       Remark "bytes after the 8-byte UDP header."])
               (limited park CounterQueryRate (fun t =>
                  [Dport "udp" sePorts; connectionlessMatch;
                   Meter "add" "query_rate" ("ip saddr limit rate over " ++ Itoa (sp_QueriesPerSec s)
                     ++ "/second burst " ++ Itoa (i64 (sp_QueriesPerSec s * 2)) ++ " packets")%string] ++ t))))
  (andThen (write (if (0 <? length overrides)%nat
      then [Remark "Per-service overrides of the connection limits; these rows' ports";
            Remark "are excluded from the shared rules above."] else []))
  (andThen (each (fun o =>
      andThen (when (negb (String.eqb (ov_rateSet o) ""))
                 (limited park (CounterConnRate ++ ":" ++ psv_Name (ov_svc o))%string
                    (connRateRule [psv_spec (ov_svc o)] (ov_rateSet o) (psv_NewConnsPerSec (ov_svc o)))))
              (when (negb (String.eqb (ov_countSet o) ""))
                 (limited park (CounterConnCount ++ ":" ++ psv_Name (ov_svc o))%string
                    (connCountRule [psv_spec (ov_svc o)] (ov_countSet o) (psv_MaxConnsPerSource (ov_svc o)))))) overrides)
  (write (omap (fun sv =>
      if psv_CeilingPPS sv <=? 0 then None
      else Some (Rule [Dport (psv_Proto sv) [psv_spec sv];
             Text ("limit rate over " ++ Itoa (psv_CeilingPPS sv) ++ "/second burst "
                   ++ Itoa (psv_CeilingPPS sv) ++ " packets")%string;
             Counter; Drop; Comment (CounterCeiling ++ ":" ++ psv_Name sv)%string])) (sp_Services s)))))))))).

(** The region sets, one per set name in the order the services name them. *)
Fixpoint geo_order (seen : list string) (names : list string) : list string :=
  match names with
  | [] => []
  | n :: names => if bool_decide (GeoSetName n ∈ seen) then geo_order seen names
                  else n :: geo_order (GeoSetName n :: seen) names
  end.
Definition geo_names (elems : gmap string (list string)) (geoSvcs : list ProtectService) : list string :=
  geo_order [] (filter (fun n => resolves elems n = true) (concat (psv_GeoRegions <$> geoSvcs))).
Definition region_set (elems : gmap string (list string)) (n : string) : nset :=
  mkNset (GeoSetName n) "ipv4_addr"
    ["flags interval"%string;
     ("comment " ++ quoted "sources allowed to reach the services locked to this region")%string]
    (Some (default [] (elems !! n))).

Fixpoint lock_protos (seen : list string) (svcs : list ProtectService) : list string :=
  match svcs with
  | [] => []
  | sv :: svcs => if (0 <? psv_GeoAutoPPS sv) && negb (bool_decide (psv_Proto sv ∈ seen))
                  then psv_Proto sv :: lock_protos (psv_Proto sv :: seen) svcs else lock_protos seen svcs
  end.
Definition lock_set (s : ProtectSpec) (proto : string) : nset :=
  mkNset (geoLockSetName proto) "inet_service"
    ["size 65535"%string; "flags dynamic,timeout"%string; ("timeout " ++ Itoa (geoLockSeconds s) ++ "s")%string;
     ("comment " ++ quoted "ports whose region lock is engaged; entries release on their own")%string] None.

Definition override_sets (o : connOverride) : list nset :=
  (if negb (String.eqb (ov_rateSet o) "") then [dynSet (ov_rateSet o) rateSetTimeout] else [])
  ++ (if negb (String.eqb (ov_countSet o) "") then [dynSet (ov_countSet o) 0] else []).

Definition protect_sets (s : ProtectSpec) (elems : gmap string (list string)) (geoSvcs : list ProtectService)
    (sePorts : list portRange) (overrides : list connOverride) : list nset :=
  (if 0 <? sp_BlockSeconds s then [blockedSet (sp_BlockSeconds s)] else [])
  ++ (if (0 <? sp_NewConnsPerSec s) && (0 <? length (sharedConnPorts s overridesConnRate))%nat
      then [dynSet "conn_rate" rateSetTimeout] else [])
  ++ (if (0 <? sp_MaxConnsPerSource s) && (0 <? length (sharedConnPorts s overridesConnCount))%nat
      then [dynSet "conn_count" 0] else [])
  ++ (if 0 <? sp_PacketsPerSec s then [dynSet "packet_rate" rateSetTimeout] else [])
  ++ (if (0 <? sp_QueriesPerSec s) && (0 <? length sePorts)%nat then [dynSet "query_rate" rateSetTimeout] else [])
  ++ concat (override_sets <$> overrides)
  ++ (region_set elems <$> geo_names elems geoSvcs)
  ++ (lock_set s <$> lock_protos [] geoSvcs).

(** [parkChains.write]. *)
Definition park_chain (c : string * string) : chain :=
  mkChain c.1 None [Rule [Meter "add" "blocked" "ip saddr"]; Rule [Counter; Drop; Comment c.2]].

(** [BuildProtectRuleset]; [None] is the empty text. *)
Definition protect_table (s : ProtectSpec) : option table :=
  let elems := geoRegionElems s in
  let geoSvcs := geoServices s elems in
  let sePorts := sourceEnginePorts s in
  let overrides := connOverrides s in
  if negb (active s sePorts geoSvcs overrides) then None
  else
    let '(fl, ps) := filter_lines s sePorts overrides (mkParks [] ∅) in
    Some (mkTable NFTProtectTable
      ["generated by failover-frontend - do not edit by hand";
       "rate limiting and edge filtering for traffic arriving from the";
       "internet, before it is translated and sent down a tunnel.";
       "every rule is scoped to the public interface, so probes, the";
       "control channel and overlay traffic are out of reach of it."]%string
      (protect_sets s elems geoSvcs sePorts overrides)
      ((park_chain <$> pk_chains ps)
       ++ [mkChain "raw" (Some "type filter hook prerouting priority raw; policy accept;")%string
             (raw_lines s elems geoSvcs sePorts);
           mkChain "filter" (Some "type filter hook prerouting priority mangle; policy accept;")%string fl]) NL).
Definition BuildProtectRuleset (s : ProtectSpec) : string := text_of (protect_table s).
End table.

(** ** A table nft accepts *)

(** The identifiers: small letters, digits and underscores. *)
Definition ident_byte (c : Z) : bool :=
  ((97 <=? c) && (c <=? 122)) || ((48 <=? c) && (c <=? 57)) || (c =? 95).
Definition ident (s : string) : Prop := s <> ""%string /\ Forall (fun c => ident_byte c = true) (string_bytes s).

Lemma ident_b s : negb (String.eqb s "") && forallb ident_byte (string_bytes s) = true -> ident s.
Proof.
  intros [H1 H2]%andb_true_iff. split; [by destruct (String.eqb_spec s "") |].
  apply Forall_forall. intros c Hc. rewrite forallb_forall in H2. by apply H2, list_elem_of_In.
Qed.
Lemma ident_app a b : ident a -> Forall (fun c => ident_byte c = true) (string_bytes b) -> ident (a ++ b)%string.
Proof.
  intros [Hn Ha] Hb. split; [by destruct a |]. rewrite string_bytes_append. by apply Forall_app_2.
Qed.
Lemma ident_range c : ident_byte c = true -> 32 <= c < 127.
Proof.
  unfold ident_byte. rewrite !orb_true_iff, !andb_true_iff, !Z.leb_le, Z.eqb_eq. lia.
Qed.
Lemma ident_printable s : ident s -> printable s.
Proof. intros [_ H]. eapply Forall_impl; [exact H |]. apply ident_range. Qed.
#[export] Hint Resolve ident_printable : nft.

Lemma fold_rune_ident r : ident_byte (fold_rune r) = true.
Proof.
  unfold fold_rune. destruct (_ || _) eqn:E; [| done]. unfold ident_byte. by rewrite E.
Qed.
Lemma foldSetName_ident `{Unicode} prefix name : ident prefix -> ident (foldSetName prefix name).
Proof.
  intros Hp. apply ident_app; [done |].
  assert (Hf : Forall (fun c => ident_byte c = true) (fold_rune <$> decode_runes (string_bytes (ToLower name)))).
  { apply Forall_fmap, Forall_true. intros r. apply fold_rune_ident. }
  rewrite string_bytes_string; [done |]. eapply Forall_impl; [exact Hf |]. intros c Hc%ident_range. unfold is_byte. lia.
Qed.
Lemma Itoa_ident n : 0 <= n -> Forall (fun c => ident_byte c = true) (string_bytes (Itoa n)).
Proof.
  intros Hn. unfold Itoa. destruct (Z.ltb_spec n 0); [lia |].
  assert (Hd : Forall (fun c => 48 <= c < 58) (Z.add 48 <$> digits 20 n)).
  { apply Forall_fmap. eapply Forall_impl; [by apply digits_printable |]. cbn. lia. }
  unfold FormatUint. rewrite string_bytes_string.
  - eapply Forall_impl; [exact Hd |]. cbn. intros c Hc. unfold ident_byte.
    apply orb_true_iff. left. apply orb_true_iff. right. apply andb_true_iff. rewrite !Z.leb_le. lia.
  - eapply Forall_impl; [exact Hd |]. cbn. unfold is_byte. lia.
Qed.
Lemma candidate_ident base i : ident base -> ident (candidate base i).
Proof.
  intros Hb. destruct i as [|i]; [done |]. cbn [candidate]. apply ident_app; [done |].
  rewrite string_bytes_append. apply Forall_app_2; [exact (proj2 (ident_b "_" eq_refl)) |]. apply Itoa_ident. lia.
Qed.

(** Which group of identifiers a name is in, by its prefix. *)
Lemma prefix_app p s : String.prefix p (p ++ s)%string = true.
Proof.
  induction p as [|c p IH]; [by destruct s |]. change (String c p ++ s)%string with (String c (p ++ s)).
  cbn [String.prefix]. destruct (Ascii.ascii_dec c c) as [_|Hn]; [exact IH | by destruct Hn].
Qed.
Lemma string_app_assoc a b c : ((a ++ b) ++ c = a ++ (b ++ c))%string.
Proof.
  induction a as [|x a IH]; [done |].
  change ((String x a ++ b) ++ c)%string with (String x ((a ++ b) ++ c)). by rewrite IH.
Qed.
Lemma prefix_fold `{Unicode} prefix name i : String.prefix prefix (candidate (foldSetName prefix name) i) = true.
Proof. unfold foldSetName. destruct i as [|i]; cbn [candidate]; rewrite ?string_app_assoc; apply prefix_app. Qed.

Lemma claimName_ok (taken : gset string) base : Z.of_nat (size taken) < MaxInt64 - 3 ->
  exists j, claimName taken base = ({[candidate base j]} ∪ taken, candidate base j) /\ candidate base j ∉ taken.
Proof.
  intros Hsz. destruct (uniqueName_some taken base Hsz) as (j & E & Hj & _).
  exists j. unfold claimName. by rewrite E.
Qed.

(** *** The override sets *)

Section overrides.
Context `{Unicode}.

Definition override_names (out : list connOverride) : list string := ns_name <$> concat (override_sets <$> out).

Definition override_name (x : string) : Prop :=
  ident x /\ (String.prefix "conn_rate_" x = true \/ String.prefix "conn_count_" x = true).

Record overrides_inv (n : nat) (taken : gset string) (out : list connOverride) : Prop := {
  oi_nodup : NoDup (override_names out);
  oi_taken : forall x, x ∈ taken <-> x ∈ override_names out;
  oi_names : Forall override_name (override_names out);
  oi_len : (length (override_names out) <= 2 * n)%nat;
  oi_count : (length out <= n)%nat;
  oi_svc : Forall (fun o => (ov_rateSet o = "" <-> overridesConnRate (ov_svc o) = false)
                         /\ (ov_countSet o = "" <-> overridesConnCount (ov_svc o) = false)) out }.

Lemma taken_size taken names :
  NoDup names -> (forall x, x ∈ taken <-> x ∈ names) -> size (taken : gset string) = length names.
Proof.
  intros Hn Ht. assert (taken = list_to_set names) as -> by (apply set_eq; intros x; rewrite Ht; set_solver).
  by apply size_list_to_set.
Qed.

Lemma candidate_nonempty base i : base <> ""%string -> candidate base i <> ""%string.
Proof. intros Hb. destruct i; cbn [candidate]; [done |]. by destruct base. Qed.

(** One name more in a list of names that lists what is taken. *)
Definition claimed (taken : gset string) (names : list string) : Prop :=
  NoDup names /\ (forall x, x ∈ taken <-> x ∈ names).
Lemma claim_one taken names prefix svc (P : string -> Prop) :
  claimed taken names -> Z.of_nat (length names) < MaxInt64 - 3 -> ident prefix ->
  (forall i, ident (candidate (foldSetName prefix svc) i) ->
     String.prefix prefix (candidate (foldSetName prefix svc) i) = true -> P (candidate (foldSetName prefix svc) i)) ->
  exists x, claimName taken (foldSetName prefix svc) = ({[x]} ∪ taken, x)
    /\ claimed ({[x]} ∪ taken) (names ++ [x]) /\ P x /\ x <> ""%string.
Proof.
  intros [Hn Ht] Hsz Hp HP. rewrite <- (taken_size taken names Hn Ht) in Hsz.
  destruct (claimName_ok taken (foldSetName prefix svc) Hsz) as (j & -> & Hj).
  assert (Hid : ident (foldSetName prefix svc)) by by apply foldSetName_ident.
  exists (candidate (foldSetName prefix svc) j). split; [done |]. split; [| split].
  - split; [| set_solver]. apply NoDup_app. split_and!; [done | | apply NoDup_singleton].
    intros x Hx ->%list_elem_of_singleton. by apply Hj, Ht.
  - apply HP; [by apply candidate_ident | apply prefix_fold].
  - apply candidate_nonempty, Hid.
Qed.

Lemma override_names_app out o :
  override_names (out ++ [o]) = override_names out ++ (ns_name <$> override_sets o).
Proof. unfold override_names. by rewrite fmap_app, concat_app, fmap_app, <- (app_nil_r (override_sets o)). Qed.

Lemma override_sets_names o :
  ns_name <$> override_sets o = (if negb (String.eqb (ov_rateSet o) "") then [ov_rateSet o] else [])
    ++ (if negb (String.eqb (ov_countSet o) "") then [ov_countSet o] else []).
Proof. unfold override_sets. by repeat split_if. Qed.

Lemma override_step_inv n acc sv : overrides_inv n acc.1 acc.2 -> 2 * Z.of_nat n + 4 < MaxInt64 - 3 ->
  overrides_inv (S n) (override_step acc sv).1 (override_step acc sv).2.
Proof.
  destruct acc as [taken out]. cbn [fst snd]. intros [I1 I2 I3 I4 I5 I6] Hsz. unfold override_step.
  destruct (negb (overridesConnRate sv) && negb (overridesConnCount sv)) eqn:Enone.
  { constructor; cbn [fst snd]; (done || lia). }
  assert (Hrate : exists taken1 rate, (if overridesConnRate sv
      then claimName taken (foldSetName "conn_rate_" (psv_Name sv)) else (taken, ""%string)) = (taken1, rate)
    /\ (rate = ""%string <-> overridesConnRate sv = false)
    /\ claimed taken1 (override_names out ++ if negb (String.eqb rate "") then [rate] else [])
    /\ Forall override_name (if negb (String.eqb rate "") then [rate] else [])).
  { destruct (overridesConnRate sv).
    - destruct (claim_one taken (override_names out) "conn_rate_" (psv_Name sv) override_name)
        as (x & -> & Hc & Hx & Hne); [done | lia | by apply ident_b | unfold override_name; auto |].
      exists ({[x]} ∪ taken), x. apply String.eqb_neq in Hne as Hb. rewrite Hb. cbn [negb].
      split_and!; try done. by apply Forall_singleton.
    - exists taken, ""%string. cbn. rewrite app_nil_r. by split_and!. }
  destruct Hrate as (taken1 & rate & -> & Hr & Hc1 & Hf1).
  set (r := if negb (String.eqb rate "") then [rate] else []) in *.
  assert (Hlr : (length r <= 1)%nat) by (unfold r; split_if; cbn [length]; lia).
  assert (Hcount : exists taken2 count, (if overridesConnCount sv
      then claimName taken1 (foldSetName "conn_count_" (psv_Name sv)) else (taken1, ""%string)) = (taken2, count)
    /\ (count = ""%string <-> overridesConnCount sv = false)
    /\ claimed taken2 ((override_names out ++ r) ++ if negb (String.eqb count "") then [count] else [])
    /\ Forall override_name (if negb (String.eqb count "") then [count] else [])).
  { destruct (overridesConnCount sv).
    - destruct (claim_one taken1 (override_names out ++ r) "conn_count_" (psv_Name sv) override_name)
        as (x & -> & Hc & Hx & Hne);
        [done | rewrite length_app; lia | by apply ident_b | unfold override_name; auto |].
      exists ({[x]} ∪ taken1), x. apply String.eqb_neq in Hne as Hb. rewrite Hb. cbn [negb].
      split_and!; try done. by apply Forall_singleton.
    - exists taken1, ""%string. cbn. rewrite app_nil_r. by split_and!. }
  destruct Hcount as (taken2 & count & -> & Hc & [Hn2 Ht2] & Hf2).
  set (c := if negb (String.eqb count "") then [count] else []) in *.
  assert (Hlc : (length c <= 1)%nat) by (unfold c; split_if; cbn [length]; lia).
  assert (E : override_names (out ++ [mkConnOverride sv rate count]) = (override_names out ++ r) ++ c).
  { rewrite override_names_app, override_sets_names, app_assoc. done. }
  constructor; cbn [fst snd]; rewrite ?E; try done.
  - by repeat apply Forall_app_2.
  - rewrite !length_app. lia.
  - rewrite length_app. cbn. lia.
  - apply Forall_app_2; [done |]. by apply Forall_singleton.
Qed.

Lemma connOverrides_inv s : 2 * Z.of_nat (length (sp_Services s)) + 4 < MaxInt64 - 3 ->
  exists taken, overrides_inv (length (sp_Services s)) taken (connOverrides s).
Proof.
  unfold connOverrides. intros Hsz.
  assert (Hg : forall l acc n, overrides_inv n acc.1 acc.2 -> 2 * Z.of_nat (n + length l) + 4 < MaxInt64 - 3 ->
    overrides_inv (n + length l) (fold_left override_step l acc).1 (fold_left override_step l acc).2).
  { induction l as [|sv l IH]; intros acc n Hi Hn; cbn [length fold_left] in *; [by rewrite Nat.add_0_r |].
    rewrite Nat.add_succ_r, <- Nat.add_succ_l. apply IH; [| lia].
    apply override_step_inv; [done | lia]. }
  specialize (Hg (sp_Services s) (∅, []) 0%nat). eexists. apply Hg; [| done].
  constructor; cbn; try constructor; try lia; set_solver.
Qed.
End overrides.

(** *** Rules over declared names *)

(** An atom is plain text, refers only to sets [S] and chains [J], and never
    to an empty list of ports. *)
Definition atom_ok (S J : list string) (a : atom) : Prop :=
  printable (atom_text a)
  /\ match a with
     | InSet _ _ x | Meter _ x _ => x ∈ S
     | Jump c => c ∈ J
     | Dport _ ps => ps <> []
     | _ => True
     end.
Definition lines_ok (S J : list string) (l : list line) : Prop := Forall (atom_ok S J) (concat (line_atoms <$> l)).

Lemma lines_ok_app S J a b : lines_ok S J (a ++ b) <-> lines_ok S J a /\ lines_ok S J b.
Proof. unfold lines_ok. by rewrite fmap_app, concat_app, Forall_app. Qed.
Lemma lines_ok_mono S J J' l : J ⊆ J' -> lines_ok S J l -> lines_ok S J' l.
Proof.
  intros HJ Hl. eapply Forall_impl; [exact Hl |]. intros a [H1 H2]. split; [done |].
  destruct a; try done. by apply HJ.
Qed.
Lemma lines_ok_remark S J s l : lines_ok S J (Remark s :: l) <-> lines_ok S J l.
Proof. done. Qed.
Lemma lines_ok_rule S J r l : lines_ok S J (Rule r :: l) <-> Forall (atom_ok S J) r /\ lines_ok S J l.
Proof. unfold lines_ok. cbn. by rewrite Forall_app. Qed.
Lemma lines_ok_nil S J : lines_ok S J [].
Proof. constructor. Qed.
Lemma lines_ok_concat S J ls : Forall (lines_ok S J) ls -> lines_ok S J (concat ls).
Proof.
  induction 1 as [|l ls Hl Hls IH]; [apply lines_ok_nil |]. change (concat (l :: ls)) with (l ++ concat ls).
  by apply lines_ok_app.
Qed.

Section writers.
Context `{Unicode}.

Definition park_name (x : string) : Prop := ident x /\ String.prefix "park_" x = true.
Definition parks_inv (park : bool) (p : parks) : Prop :=
  claimed (pk_used p) ((pk_chains p).*1) /\ Forall park_name ((pk_chains p).*1)
  /\ (park = false -> pk_chains p = []).

(** What a piece of the filter chain writes: at most [n] park chains more, and
    rules over [S] and the park chains there are by then. *)
Definition writer_ok (park : bool) (S : list string) (n : nat) (w : writer) : Prop := forall p, parks_inv park p ->
  Z.of_nat (length (pk_chains p) + n) < MaxInt64 - 3 ->
  let '(l, p') := w p in
  parks_inv park p' /\ (length (pk_chains p') <= length (pk_chains p) + n)%nat
  /\ (pk_chains p).*1 ⊆ (pk_chains p').*1
  /\ lines_ok S ((pk_chains p').*1) l.

Lemma write_ok park S l n : lines_ok S [] l -> writer_ok park S n (write l).
Proof.
  intros Hl p Hp Hsz. cbn. split_and!; [done | lia | done |]. eapply lines_ok_mono; [| exact Hl]. set_solver.
Qed.
Lemma andThen_ok park S a b n m : writer_ok park S n a -> writer_ok park S m b -> writer_ok park S (n + m) (andThen a b).
Proof.
  intros Ha Hb p Hp Hsz. unfold andThen. specialize (Ha p Hp). destruct (a p) as [l p1].
  destruct Ha as (H1 & H2 & H3 & H4); [lia |]. specialize (Hb p1 H1). destruct (b p1) as [l' p2].
  destruct Hb as (K1 & K2 & K3 & K4); [lia |]. split_and!; [done | lia | set_solver |].
  apply lines_ok_app. split; [by eapply lines_ok_mono | done].
Qed.
Lemma when_ok park S n c w : (c = true -> writer_ok park S n w) -> writer_ok park S n (when c w).
Proof. destruct c; [by intros Hw; apply Hw |]. intros _. apply write_ok, lines_ok_nil. Qed.

Lemma atom_ok_plain S J a : atom_plain a ->
  match a with
  | InSet _ _ x | Meter _ x _ => x ∈ S | Jump c => c ∈ J | Dport _ ps => ps <> [] | _ => True end ->
  atom_ok S J a.
Proof. intros Ha Hs. split; [by apply atom_text_printable | done]. Qed.

Lemma limited_ok park S comment f :
  (forall J t, Forall (atom_ok S J) t -> Forall (atom_ok S J) (f t)) -> writer_ok park S 1 (limited park comment f).
Proof.
  intros Hf p (Hc & Hp & Hnone) Hsz. unfold limited, limiter_tail. destruct park; cbn [negb].
  - unfold target.
    destruct (claim_one (pk_used p) ((pk_chains p).*1) "park_" comment park_name)
      as (x & -> & Hc' & Hx & _); [done | rewrite length_fmap; lia | by apply ident_b | by unfold park_name |].
    cbn [pk_chains]. split_and!.
    + unfold parks_inv. cbn [pk_chains pk_used]. rewrite fmap_app. split_and!; [done | | done].
      apply Forall_app_2; [done |]. by apply Forall_singleton.
    + rewrite length_app. cbn. lia.
    + rewrite fmap_app. set_solver.
    + apply lines_ok_rule. split; [| apply lines_ok_nil]. apply Hf, Forall_singleton.
      apply atom_ok_plain; cbn; [apply ident_printable, Hx |]. rewrite fmap_app. set_solver.
  - split_and!; [done | lia | done |]. apply lines_ok_rule. split; [| apply lines_ok_nil].
    apply Hf. repeat apply Forall_cons_2; try apply Forall_nil_2; by apply atom_ok_plain.
Qed.

Lemma each_ok {A} park S k (f : A -> writer) l :
  Forall (fun a => writer_ok park S k (f a)) l -> writer_ok park S (k * length l) (each f l).
Proof.
  induction 1 as [|a l Ha Hl IH]; cbn [each fold_right length]; [apply write_ok, lines_ok_nil |].
  replace (k * Datatypes.S (length l))%nat with (k + k * length l)%nat by lia. by apply andThen_ok.
Qed.
End writers.

Lemma connectionless_plain : atom_plain connectionlessMatch.
Proof. cbn. apply Forall_singleton. auto with nft. Qed.
#[export] Hint Resolve connectionless_plain I : nft.

(** Discharge the atoms of a rule written out. *)
Ltac atoms_ok :=
  repeat apply Forall_cons_2; try apply Forall_nil_2; apply atom_ok_plain;
  cbn [atom_plain]; try exact I; auto 10 with nft.

Definition proto_ok (sv : ProtectService) : Prop := psv_Proto sv = "tcp"%string \/ psv_Proto sv = "udp"%string.
Lemma proto_printable sv : proto_ok sv -> printable (psv_Proto sv).
Proof. intros [-> | ->]; auto with nft. Qed.
Lemma nonempty_length {A} (l : list A) : (0 <? length l)%nat = true -> l <> [].
Proof. by destruct l. Qed.
#[export] Hint Resolve nonempty_length : nft.

Section chains.
Context `{Unicode}.
Variables (s : ProtectSpec) (sets : list string).
Hypothesis Hproto : Forall proto_ok (sp_Services s).
Hypothesis Hident : forall x, x ∈ sets -> ident x.

Lemma set_printable x : x ∈ sets -> printable x.
Proof. intros Hx. by apply ident_printable, Hident. Qed.
#[local] Hint Resolve set_printable : nft.

Lemma conn_rate_ok J ports set rate t : ports <> [] -> set ∈ sets -> Forall (atom_ok sets J) t ->
  Forall (atom_ok sets J) (connRateRule ports set rate t).
Proof. intros Hp Hs Ht. apply Forall_app_2; [| done]. atoms_ok. Qed.
Lemma conn_count_ok J ports set most t : ports <> [] -> set ∈ sets -> Forall (atom_ok sets J) t ->
  Forall (atom_ok sets J) (connCountRule ports set most t).
Proof. intros Hp Hs Ht. apply Forall_app_2; [| done]. atoms_ok. Qed.

Lemma filter_lines_ok sePorts overrides :
  ((0 <? sp_NewConnsPerSec s) && (0 <? length (sharedConnPorts s overridesConnRate))%nat = true -> "conn_rate"%string ∈ sets) ->
  ((0 <? sp_MaxConnsPerSource s) && (0 <? length (sharedConnPorts s overridesConnCount))%nat = true -> "conn_count"%string ∈ sets) ->
  ((0 <? sp_PacketsPerSec s) = true -> "packet_rate"%string ∈ sets) ->
  ((0 <? sp_QueriesPerSec s) && (0 <? length sePorts)%nat = true -> "query_rate"%string ∈ sets) ->
  (forall x, x ∈ override_names overrides -> x ∈ sets) ->
  writer_ok (0 <? sp_BlockSeconds s) sets (4 + 2 * length overrides) (filter_lines s sePorts overrides).
Proof.
  intros Hrate Hcount Hpacket Hquery Hover. unfold filter_lines.
  replace (4 + 2 * length overrides)%nat
    with (0 + (0 + ((0 + 1) + ((0 + 1) + ((0 + 1) + ((0 + 1) + (0 + (2 * length overrides + 0))))))))%nat by lia.
  repeat apply andThen_ok.
  - apply write_ok, lines_ok_rule. split; [atoms_ok | apply lines_ok_nil].
  - apply write_ok. destruct (sp_DropInvalid s); [| apply lines_ok_nil].
    apply lines_ok_remark, lines_ok_rule. split; [atoms_ok | apply lines_ok_nil].
  - apply when_ok. intros Hc. specialize (Hrate Hc). bool_to_prop.
    apply andThen_ok; [apply write_ok, lines_ok_nil |]. apply limited_ok. intros J t Ht.
    apply conn_rate_ok; auto with nft.
  - apply when_ok. intros Hc. specialize (Hcount Hc). bool_to_prop.
    apply andThen_ok; [apply write_ok, lines_ok_nil |]. apply limited_ok. intros J t Ht.
    apply conn_count_ok; auto with nft.
  - apply when_ok. intros Hc. bool_to_prop.
    apply andThen_ok; [apply write_ok, lines_ok_nil |]. apply limited_ok. intros J t Ht.
    apply Forall_app_2; [| done]. atoms_ok. by apply Hpacket, Z.ltb_lt.
  - apply when_ok. intros Hc. rewrite andb_comm in Hc. specialize (Hquery Hc). bool_to_prop.
    apply andThen_ok; [apply write_ok, lines_ok_nil |]. apply limited_ok. intros J t Ht.
    apply Forall_app_2; [| done]. atoms_ok.
  - apply write_ok. destruct (0 <? length overrides)%nat; apply lines_ok_nil.
  - apply each_ok, Forall_forall. intros o Ho.
    assert (Hin : forall x, x ∈ ns_name <$> override_sets o -> x ∈ sets).
    { intros x Hx. apply Hover. unfold override_names. apply list_elem_of_fmap in Hx as (y & -> & Hy).
      apply list_elem_of_fmap_2, list_elem_of_In, in_concat. exists (override_sets o).
      split; [| by apply list_elem_of_In]. apply list_elem_of_In. by apply list_elem_of_fmap_2. }
    rewrite override_sets_names in Hin. change 2%nat with (1 + 1)%nat.
    apply andThen_ok; apply when_ok; intros Hne; rewrite Hne in Hin; apply limited_ok; intros J t Ht;
      [apply conn_rate_ok | apply conn_count_ok]; try done; apply Hin; set_solver.
  - apply write_ok. clear -Hproto. induction Hproto as [|sv l Hsv Hl IH]; [apply lines_ok_nil |].
    cbn [omap list_omap]. destruct (psv_CeilingPPS sv <=? 0); [exact (IH Hl) |]. apply lines_ok_rule.
    split; [| exact (IH Hl)]. apply proto_printable in Hsv. atoms_ok.
Qed.
End chains.

(** *** The sets *)

Section sets.
Context `{Unicode}.

Lemma lock_name proto : proto = "tcp"%string \/ proto = "udp"%string ->
  geoLockSetName proto = ("geo_lockdown_" ++ proto)%string.
Proof. intros Hp. unfold geoLockSetName. f_equal. destruct Hp as [-> | ->]; by apply ToLower_lower. Qed.

Lemma GeoSetName_ident n : ident (GeoSetName n).
Proof.
  assert (Hf : ident (foldGeoName n)) by (apply foldSetName_ident; by apply ident_b).
  unfold GeoSetName. destruct (geoNameFoldsToLockSet _); [| done].
  apply ident_app; [done | exact (proj2 (ident_b "_" eq_refl))].
Qed.
Lemma GeoSetName_prefix n : String.prefix "geo_" (GeoSetName n) = true.
Proof.
  unfold GeoSetName, foldGeoName, foldSetName. destruct (geoNameFoldsToLockSet _);
    rewrite ?string_app_assoc; apply prefix_app.
Qed.
Lemma string_length_app a b : String.length (a ++ b)%string = (String.length a + String.length b)%nat.
Proof.
  induction a as [|c a IH]; [done |]. change (String c a ++ b)%string with (String c (a ++ b)).
  cbn [String.length]. by rewrite IH.
Qed.
(** A region's set is never one of the lock sets: a name that folds onto one
    is shifted. *)
Lemma GeoSetName_not_lock n proto : proto = "tcp"%string \/ proto = "udp"%string -> GeoSetName n <> geoLockSetName proto.
Proof.
  intros Hp. unfold GeoSetName. destruct (geoNameFoldsToLockSet (foldGeoName n)) eqn:E.
  - intros Heq. unfold geoNameFoldsToLockSet in E.
    assert (Hl : forall q, q = "tcp"%string \/ q = "udp"%string -> String.length (geoLockSetName q) = 16%nat)
      by (intros q Hq; rewrite (lock_name q Hq); by destruct Hq as [-> | ->]).
    apply (f_equal String.length) in Heq. rewrite string_length_app, (Hl proto Hp) in Heq.
    apply orb_true_iff in E as [E|E]; apply String.eqb_eq in E; rewrite E, Hl in Heq by tauto; done.
  - intros Heq. unfold geoNameFoldsToLockSet in E. apply orb_false_iff in E as [E1 E2].
    apply String.eqb_neq in E1, E2. destruct Hp as [-> | ->]; done.
Qed.

Lemma geo_order_seen names : forall seen,
  NoDup (GeoSetName <$> geo_order seen names)
  /\ (forall x, x ∈ GeoSetName <$> geo_order seen names -> x ∉ seen)
  /\ (forall n, n ∈ names -> GeoSetName n ∈ seen \/ GeoSetName n ∈ GeoSetName <$> geo_order seen names)
  /\ (forall n, n ∈ geo_order seen names -> n ∈ names).
Proof.
  induction names as [|n names IH]; intros seen; cbn [geo_order].
  { cbn. split_and!; [constructor | set_solver | set_solver | done]. }
  case_bool_decide as Hn.
  - destruct (IH seen) as (I1 & I2 & I3 & I4). split_and!; [done | done | |].
    + intros m [->|Hm]%elem_of_cons; [by left | by apply I3].
    + intros m Hm. right. by apply I4.
  - destruct (IH (GeoSetName n :: seen)) as (I1 & I2 & I3 & I4). rewrite fmap_cons. split_and!.
    + constructor; [| done]. intros Hx%I2. set_solver.
    + intros x [->|Hx]%elem_of_cons; [done |]. apply I2 in Hx. set_solver.
    + intros m [->|Hm]%elem_of_cons; [right; by left |]. destruct (I3 m Hm) as [Hs|Hs]; set_solver.
    + intros m [->|Hm]%elem_of_cons; [by left | right; by apply I4].
Qed.

Lemma lock_protos_seen svcs : forall seen,
  NoDup (lock_protos seen svcs)
  /\ (forall x, x ∈ lock_protos seen svcs -> (x ∉ seen) /\ exists sv, sv ∈ svcs /\ psv_Proto sv = x)
  /\ (forall sv, sv ∈ svcs -> 0 < psv_GeoAutoPPS sv -> psv_Proto sv ∈ seen \/ psv_Proto sv ∈ lock_protos seen svcs).
Proof.
  induction svcs as [|sv svcs IH]; intros seen; cbn [lock_protos].
  { split_and!; [constructor | intros x Hx; by apply elem_of_nil in Hx | intros sv Hx; by apply elem_of_nil in Hx]. }
  destruct (Z.ltb_spec 0 (psv_GeoAutoPPS sv)) as [Hp|Hp]; cbn [andb]; [case_bool_decide as Hn; cbn [negb] |].
  - destruct (IH seen) as (I1 & I2 & I3). split_and!; [done | |].
    + intros x Hx. destruct (I2 x Hx) as (? & w & ? & ?). split; [done |]. exists w. split; [by right | done].
    + intros w [->|Hw]%elem_of_cons Hpos; [by left | by apply I3].
  - destruct (IH (psv_Proto sv :: seen)) as (I1 & I2 & I3). split_and!.
    + constructor; [| done]. intros Hx. apply I2 in Hx as [Hx _]. set_solver.
    + intros x [->|Hx]%elem_of_cons; [split; [done |]; exists sv; split; [by left | done] |].
      destruct (I2 x Hx) as (Hs & w & ? & ?). split; [set_solver |]. exists w. split; [by right | done].
    + intros w [->|Hw]%elem_of_cons Hpos; [right; by left |]. destruct (I3 w Hw Hpos); set_solver.
  - destruct (IH seen) as (I1 & I2 & I3). split_and!; [done | |].
    + intros x Hx. destruct (I2 x Hx) as (? & w & ? & ?). split; [done |]. exists w. split; [by right | done].
    + intros w [->|Hw]%elem_of_cons Hpos; [lia | by apply I3].
Qed.

(** The four groups of names never meet. *)
Definition name_kind (x : string) : nat :=
  if String.prefix "geo_" x
  then if String.eqb x "geo_lockdown_tcp" || String.eqb x "geo_lockdown_udp" then 3 else 2
  else if String.prefix "conn_rate_" x || String.prefix "conn_count_" x then 1 else 0.

Lemma NoDup_app_kind a b (k : nat) :
  NoDup a -> NoDup b -> Forall (fun x => (name_kind x < k)%nat) a -> Forall (fun x => name_kind x = k) b -> NoDup (a ++ b).
Proof.
  intros Ha Hb Fa Fb. apply NoDup_app. split_and!; [done | | done]. intros x Hxa Hxb.
  rewrite Forall_forall in Fa, Fb. specialize (Fa x Hxa). specialize (Fb x Hxb). lia.
Qed.

Lemma override_kind x : override_name x -> name_kind x = 1%nat.
Proof.
  intros [_ Hx]. unfold name_kind. rewrite (proj2 (orb_true_iff _ _) Hx).
  assert (String.prefix "geo_" x = false) as ->; [| done].
  destruct x as [|c x]; [done |]. cbn [String.prefix]. destruct (Ascii.ascii_dec "g" c) as [<-|]; [| done].
  by destruct Hx.
Qed.
Lemma GeoSetName_kind n : name_kind (GeoSetName n) = 2%nat.
Proof.
  unfold name_kind. rewrite GeoSetName_prefix.
  pose proof (GeoSetName_not_lock n "tcp" (or_introl eq_refl)) as H1.
  pose proof (GeoSetName_not_lock n "udp" (or_intror eq_refl)) as H2.
  rewrite lock_name in H1, H2 by tauto. apply String.eqb_neq in H1, H2.
  change ("geo_lockdown_" ++ "tcp")%string with "geo_lockdown_tcp"%string in H1.
  change ("geo_lockdown_" ++ "udp")%string with "geo_lockdown_udp"%string in H2.
  by rewrite H1, H2.
Qed.
End sets.

(** What nft needs of a table: each set and chain declared once, under an
    identifier, its text plain; each rule over sets of the table and chains
    declared above its own, and over some port; no set of networks empty. *)
Definition nset_ok (x : nset) : Prop :=
  ident (ns_name x) /\ Forall printable (ns_attrs x)
  /\ match ns_elems x with Some l => l <> [] /\ Forall is_network l | None => True end.
Record nft_accepts (t : table) : Prop := {
  to_sets : NoDup (ns_name <$> tb_sets t);
  to_chains : NoDup (ch_name <$> tb_chains t);
  to_nsets : Forall nset_ok (tb_sets t);
  to_names : Forall (fun c => ident (ch_name c)) (tb_chains t);
  to_rules : forall i c, tb_chains t !! i = Some c ->
    lines_ok (ns_name <$> tb_sets t) (ch_name <$> take i (tb_chains t)) (ch_lines c) }.

Section protect_sets.
Context `{Unicode}.

Lemma mergeCIDRs_networks cidrs : Forall is_network (mergeCIDRs cidrs).
Proof.
  apply Forall_forall. intros x (b & -> & Hb)%list_elem_of_fmap.
  apply keep_blocks_sub, elem_of_sort_by, list_elem_of_omap in Hb as (c & _ & Hc).
  apply parse_block_ok in Hc as (n & ones & -> & ? & ? & ?). by exists n, ones.
Qed.

Lemma geo_elems_fold referenced rs : forall out n els,
  fold_left (add_region referenced) rs out !! n = Some els ->
  out !! n = Some els \/ exists r, r ∈ rs /\ region_Name r = n /\ els = mergeCIDRs (region_CIDRs r) /\ els <> [].
Proof.
  induction rs as [|r rs IH]; intros out n els Hl; cbn [fold_left] in Hl; [by left |].
  apply IH in Hl as [Hl|(r' & ? & ? & ? & ?)]; [| right; exists r'; split_and!; (done || by right)].
  unfold add_region in Hl. case_bool_decide; [by left |].
  destruct (mergeCIDRs (region_CIDRs r)) as [|e l] eqn:E; [by left |].
  destruct (decide (region_Name r = n)) as [Heq|Hne].
  - subst n. rewrite lookup_insert_eq in Hl. injection Hl as <-. right. exists r. split_and!; (done || by left).
  - rewrite lookup_insert_ne in Hl by done. by left.
Qed.
Lemma geo_elems_ok s n els : geoRegionElems s !! n = Some els ->
  exists r, r ∈ sp_Regions s /\ region_Name r = n /\ els = mergeCIDRs (region_CIDRs r) /\ els <> [].
Proof. intros [Hl|Hl]%geo_elems_fold; [by rewrite lookup_empty in Hl | done]. Qed.

Lemma geoServices_sub s elems sv : sv ∈ geoServices s elems -> sv ∈ sp_Services s /\ geo_live elems sv = true.
Proof. intros [? ?]%list_elem_of_filter. done. Qed.

Lemma dynSet_ok name timeout : ident name -> nset_ok (dynSet name timeout).
Proof.
  intros Hi. split_and!; [done | | done]. cbn [dynSet ns_attrs].
  split_if; rewrite ?Forall_cons, ?Forall_nil; split_and?; auto 6 with nft.
Qed.

Variable s : ProtectSpec.
Hypothesis Hproto : Forall proto_ok (sp_Services s).
Hypothesis Hsize : 2 * Z.of_nat (length (sp_Services s)) + 12 < MaxInt64.
Let elems := geoRegionElems s.
Let geoSvcs := geoServices s elems.
Let overrides := connOverrides s.
Variable sePorts : list portRange.
Let sets := protect_sets s elems geoSvcs sePorts overrides.

Definition fixed_sets : list nset :=
  (if 0 <? sp_BlockSeconds s then [blockedSet (sp_BlockSeconds s)] else [])
  ++ (if (0 <? sp_NewConnsPerSec s) && (0 <? length (sharedConnPorts s overridesConnRate))%nat
      then [dynSet "conn_rate" rateSetTimeout] else [])
  ++ (if (0 <? sp_MaxConnsPerSource s) && (0 <? length (sharedConnPorts s overridesConnCount))%nat
      then [dynSet "conn_count" 0] else [])
  ++ (if 0 <? sp_PacketsPerSec s then [dynSet "packet_rate" rateSetTimeout] else [])
  ++ (if (0 <? sp_QueriesPerSec s) && (0 <? length sePorts)%nat then [dynSet "query_rate" rateSetTimeout] else []).

Lemma sets_split : sets = fixed_sets ++ concat (override_sets <$> overrides)
  ++ (region_set elems <$> geo_names elems geoSvcs) ++ (lock_set s <$> lock_protos [] geoSvcs).
Proof. unfold sets, protect_sets, fixed_sets. by rewrite <- !app_assoc. Qed.

Lemma fixed_names_ok : NoDup (ns_name <$> fixed_sets) /\ Forall (fun x => name_kind x = 0%nat) (ns_name <$> fixed_sets)
  /\ Forall nset_ok fixed_sets.
Proof.
  unfold fixed_sets.
  assert (Hb : nset_ok (blockedSet (sp_BlockSeconds s))).
  { split_and!; [by apply ident_b | | done]. cbn [blockedSet ns_attrs].
    rewrite ?Forall_cons, ?Forall_nil; split_and!; auto 6 with nft. }
  assert (Hd : forall n t, negb (String.eqb n "") && forallb ident_byte (string_bytes n) = true -> nset_ok (dynSet n t))
    by (intros n t Hn; by apply dynSet_ok, ident_b).
  destruct (0 <? sp_BlockSeconds s), ((0 <? sp_NewConnsPerSec s) && _), ((0 <? sp_MaxConnsPerSource s) && _),
    (0 <? sp_PacketsPerSec s), ((0 <? sp_QueriesPerSec s) && _); cbn [app fmap list_fmap];
    (split_and!; [by apply (bool_decide_unpack _); vm_compute
                 | by apply (bool_decide_unpack _); vm_compute
                 | repeat apply Forall_cons_2; try apply Forall_nil_2; auto]).
Qed.

Lemma geo_svc_proto sv : sv ∈ geoSvcs -> proto_ok sv.
Proof. intros [Hs _]%geoServices_sub. rewrite Forall_forall in Hproto. by apply Hproto. Qed.

Lemma lock_protos_ok x : x ∈ lock_protos [] geoSvcs -> x = "tcp"%string \/ x = "udp"%string.
Proof.
  intros Hx. destruct (lock_protos_seen geoSvcs []) as (_ & H2 & _). destruct (H2 x Hx) as (_ & sv & Hsv & <-).
  by apply geo_svc_proto.
Qed.

Lemma region_names_ok :
  NoDup (ns_name <$> (region_set elems <$> geo_names elems geoSvcs))
  /\ Forall (fun x => name_kind x = 2%nat) (ns_name <$> (region_set elems <$> geo_names elems geoSvcs))
  /\ Forall nset_ok (region_set elems <$> geo_names elems geoSvcs).
Proof.
  destruct (geo_order_seen (filter (fun n => resolves elems n = true) (concat (psv_GeoRegions <$> geoSvcs))) [])
    as (I1 & _ & _ & I4).
  rewrite <- list_fmap_compose. change (ns_name ∘ region_set elems) with GeoSetName. split_and!; [done | |].
  - apply Forall_fmap, Forall_true. intros n. apply GeoSetName_kind.
  - apply Forall_fmap, Forall_forall. intros n Hn. apply I4, list_elem_of_filter in Hn as [Hr _].
    split_and!; [apply GeoSetName_ident | |].
    + cbn [region_set ns_attrs]. rewrite ?Forall_cons, ?Forall_nil. split_and!; auto with nft.
    + cbn [region_set ns_elems]. unfold resolves in Hr. destruct (elems !! n) as [els|] eqn:E; [| done].
      apply geo_elems_ok in E as (r & _ & _ & -> & Hne). split; [done | apply mergeCIDRs_networks].
Qed.

Lemma lock_names_ok :
  NoDup (ns_name <$> (lock_set s <$> lock_protos [] geoSvcs))
  /\ Forall (fun x => name_kind x = 3%nat) (ns_name <$> (lock_set s <$> lock_protos [] geoSvcs))
  /\ Forall nset_ok (lock_set s <$> lock_protos [] geoSvcs).
Proof.
  destruct (lock_protos_seen geoSvcs []) as (I1 & _ & _).
  assert (Hl : Forall (fun x => x = "tcp"%string \/ x = "udp"%string) (lock_protos [] geoSvcs))
    by (apply Forall_forall; apply lock_protos_ok).
  rewrite <- list_fmap_compose. change (ns_name ∘ lock_set s) with geoLockSetName. split_and!.
  - apply NoDup_fmap_2_strong; [| done]. intros x y Hx%lock_protos_ok Hy%lock_protos_ok.
    rewrite !lock_name by done. by destruct Hx as [-> | ->], Hy as [-> | ->].
  - apply Forall_fmap. eapply Forall_impl; [exact Hl |]. intros x Hx. cbn. rewrite lock_name by done.
    by destruct Hx as [-> | ->].
  - apply Forall_fmap. eapply Forall_impl; [exact Hl |]. intros x Hx. split_and!; [| | done].
    + cbn. rewrite lock_name by done. destruct Hx as [-> | ->]; by apply ident_b.
    + cbn [lock_set ns_attrs]. rewrite ?Forall_cons, ?Forall_nil. split_and!; auto 6 with nft.
Qed.

Lemma override_sets_ok : NoDup (override_names overrides) /\ Forall override_name (override_names overrides)
  /\ Forall nset_ok (concat (override_sets <$> overrides)) /\ (length overrides <= length (sp_Services s))%nat.
Proof.
  destruct (connOverrides_inv s) as (taken & [I1 _ I3 _ I5 _]); [lia |]. split_and!; [done | done | | done].
  assert (Hd : forall x, x ∈ concat (override_sets <$> overrides) -> exists t, x = dynSet (ns_name x) t).
  { intros x Hx. apply list_elem_of_In, in_concat in Hx as (l & Hl & Hx). apply list_elem_of_In in Hl, Hx.
    apply list_elem_of_fmap in Hl as (o & -> & _). unfold override_sets in Hx.
    apply elem_of_app in Hx as [Hx|Hx]; split_if_in Hx; try (by apply elem_of_nil in Hx);
      apply list_elem_of_singleton in Hx as ->; by eexists. }
  apply Forall_forall. intros x Hx. destruct (Hd x Hx) as [t ->]. apply dynSet_ok.
  rewrite Forall_forall in I3. apply I3. unfold override_names. by apply list_elem_of_fmap_2.
Qed.

Lemma protect_sets_nodup : NoDup (ns_name <$> sets).
Proof.
  rewrite sets_split, !fmap_app.
  destruct fixed_names_ok as (F1 & F2 & _), override_sets_ok as (O1 & O2 & _ & _),
    region_names_ok as (R1 & R2 & _), lock_names_ok as (L1 & L2 & _).
  fold (override_names overrides).
  assert (O3 : Forall (fun x => name_kind x = 1%nat) (override_names overrides))
    by (eapply Forall_impl; [exact O2 | apply override_kind]).
  assert (Hlt : forall k j l, Forall (fun x => name_kind x = k) l -> (k < j)%nat -> Forall (fun x => (name_kind x < j)%nat) l)
    by (intros k j l Hl Hkj; eapply Forall_impl; [exact Hl |]; cbn; lia).
  rewrite !app_assoc. apply (NoDup_app_kind _ _ 3); [| done | | done].
  - apply (NoDup_app_kind _ _ 2); [| done | | done].
    + apply (NoDup_app_kind _ _ 1); [done | done | by eapply Hlt; [exact F2 | lia] | done].
    + apply Forall_app_2; by (eapply Hlt; [eassumption | lia]).
  - repeat apply Forall_app_2; by (eapply Hlt; [eassumption | lia]).
Qed.

Lemma protect_nsets_ok : Forall nset_ok sets.
Proof.
  rewrite sets_split, !Forall_app. split_and!;
    [apply fixed_names_ok | apply override_sets_ok | apply region_names_ok | apply lock_names_ok].
Qed.

Lemma protect_sets_ident x : x ∈ ns_name <$> sets -> ident x.
Proof.
  intros (y & -> & Hy)%list_elem_of_fmap. pose proof protect_nsets_ok as Hn. rewrite Forall_forall in Hn.
  by apply Hn.
Qed.

Lemma geo_set_declared sv n : sv ∈ geoSvcs -> n ∈ psv_GeoRegions sv -> resolves elems n = true ->
  GeoSetName n ∈ ns_name <$> sets.
Proof.
  intros Hsv Hn Hr. rewrite sets_split, !fmap_app, !elem_of_app. right. right. left.
  rewrite <- list_fmap_compose. change (ns_name ∘ region_set elems) with GeoSetName. unfold geo_names.
  destruct (geo_order_seen (filter (fun n => resolves elems n = true) (concat (psv_GeoRegions <$> geoSvcs))) [])
    as (_ & _ & I3 & _).
  destruct (I3 n) as [Hs|Hs]; [| by apply elem_of_nil in Hs | done].
  apply list_elem_of_filter. split; [done |]. apply list_elem_of_In, in_concat. exists (psv_GeoRegions sv).
  split; apply list_elem_of_In; [by apply list_elem_of_fmap_2 | done].
Qed.
Lemma lock_set_declared sv : sv ∈ geoSvcs -> 0 < psv_GeoAutoPPS sv -> geoLockSetName (psv_Proto sv) ∈ ns_name <$> sets.
Proof.
  intros Hsv Hp. rewrite sets_split, !fmap_app, !elem_of_app. right. right. right.
  rewrite <- list_fmap_compose. change (ns_name ∘ lock_set s) with geoLockSetName.
  destruct (lock_protos_seen geoSvcs []) as (_ & _ & I3). apply list_elem_of_fmap_2.
  destruct (I3 sv Hsv Hp) as [Hs|Hs]; [by apply elem_of_nil in Hs | done].
Qed.
Lemma fixed_declared x : x ∈ ns_name <$> fixed_sets -> x ∈ ns_name <$> sets.
Proof. intros Hx. rewrite sets_split, !fmap_app, !elem_of_app. by left. Qed.

#[local] Hint Resolve protect_sets_ident : nft.

Lemma geo_lock_ok sv : sv ∈ geoSvcs -> lines_ok (ns_name <$> sets) [] (geo_lock s elems sv).
Proof.
  intros Hsv. pose proof (proto_printable sv (geo_svc_proto sv Hsv)) as Hp.
  set (lockCond := if 0 <? psv_GeoAutoPPS sv then [InSet "th dport" false (geoLockSetName (psv_Proto sv))] else []).
  assert (Hcond : Forall (atom_ok (ns_name <$> sets) []) lockCond).
  { unfold lockCond. destruct (Z.ltb_spec 0 (psv_GeoAutoPPS sv)); [| apply Forall_nil_2].
    pose proof (lock_set_declared sv Hsv ltac:(lia)) as Hl. apply Forall_singleton, atom_ok_plain; cbn; [| done].
    split; auto with nft. }
  assert (Hname : forall n, n ∈ filter (fun n => resolves elems n = true) (psv_GeoRegions sv) ->
    forall neg, atom_ok (ns_name <$> sets) [] (InSet "ip saddr" neg (GeoSetName n))).
  { intros n [Hr Hn]%list_elem_of_filter neg. pose proof (geo_set_declared sv n Hsv Hn Hr) as Hd.
    apply atom_ok_plain; cbn; [| done]. split; auto with nft. }
  unfold geo_lock. fold lockCond. apply lines_ok_app. split.
  - destruct (Z.ltb_spec 0 (psv_GeoAutoPPS sv)); [| apply lines_ok_nil].
    pose proof (lock_set_declared sv Hsv ltac:(lia)) as Hl. apply lines_ok_rule. split; [| apply lines_ok_nil]. atoms_ok.
  - destruct (psv_GeoBlock sv).
    + unfold lines_ok. induction (filter _ _) as [|n l IH]; [constructor |]. cbn [fmap list_fmap concat line_atoms].
      apply Forall_app_2; [| apply IH; intros m Hm; apply Hname; by right].
      apply Forall_app_2; [atoms_ok |]. apply Forall_app_2; [done |].
      apply Forall_cons_2; [apply Hname; by left |]. atoms_ok.
    + apply lines_ok_rule. split; [| apply lines_ok_nil]. apply Forall_app_2; [atoms_ok |].
      apply Forall_app_2; [done |]. apply Forall_app_2; [| atoms_ok].
      apply Forall_fmap, Forall_forall. intros n Hn. by apply Hname.
Qed.

Lemma raw_lines_ok : lines_ok (ns_name <$> sets) [] (raw_lines s elems geoSvcs sePorts).
Proof.
  unfold raw_lines. rewrite !lines_ok_app. split_and!.
  - apply lines_ok_rule. split; [atoms_ok | apply lines_ok_nil].
  - destruct (0 <? sp_BlockSeconds s) eqn:E; [| apply lines_ok_nil].
    assert (Hb : "blocked"%string ∈ ns_name <$> sets) by (apply fixed_declared; unfold fixed_sets; rewrite E; by left).
    apply lines_ok_remark, lines_ok_rule. split; [atoms_ok | apply lines_ok_nil].
  - destruct (sp_DropBogusTCP s); [| apply lines_ok_nil]. apply lines_ok_remark. unfold lines_ok.
    cbn [fmap list_fmap bogusTCPMatches concat line_atoms app]. atoms_ok.
  - destruct (sp_DropSpoofed s); [| apply lines_ok_nil].
    apply lines_ok_remark, lines_ok_rule. split; [atoms_ok | apply lines_ok_nil].
  - destruct (_ && _) eqn:E; [| apply lines_ok_nil]. bool_to_prop.
    do 6 apply lines_ok_remark. apply lines_ok_rule. split; [| apply lines_ok_nil]. atoms_ok.
  - destruct (0 <? length geoSvcs)%nat; [| apply lines_ok_nil]. apply lines_ok_app. split; [apply lines_ok_nil |].
    apply lines_ok_concat, Forall_fmap, Forall_forall. intros sv Hsv. by apply geo_lock_ok.
Qed.
End protect_sets.

Section accepted.
Context `{Unicode}.

Lemma ProtectSpecFrom_rows cfg :
  Forall proto_ok (sp_Services (ProtectSpecFrom cfg))
  /\ (length (sp_Services (ProtectSpecFrom cfg)) <= length (cfg_Services cfg))%nat.
Proof.
  unfold ProtectSpecFrom. destruct (negb _); [split; [constructor | cbn; lia] |]. cbn [sp_Services].
  induction (cfg_Services cfg) as [|sv l [I1 I2]]; cbn [omap list_omap length]; [split; [constructor | done] |].
  destruct (protect_row sv) as [r|] eqn:E; [| split; [done | lia]]. split; [| cbn; lia].
  constructor; [| done]. unfold protect_row in E. destruct (negb (svc_Enabled sv)); [done |].
  destruct (String.eqb_spec (ToLower (svc_Proto sv)) "tcp") as [Et|_]; cbn [negb andb] in E;
    [| destruct (String.eqb_spec (ToLower (svc_Proto sv)) "udp") as [Eu|_]; cbn [negb] in E; [| done]];
    injection E as <-; unfold proto_ok; cbn; auto.
Qed.

Lemma park_prefix_not x : String.prefix "park_" x = true -> x <> "raw"%string /\ x <> "filter"%string.
Proof. intros Hp. split; intros ->; by vm_compute in Hp. Qed.

(** [C9] The edge filter of any configuration is a table nft accepts: every
    set and chain is declared once, under an identifier no other shares, every
    rule refers to sets of the table and jumps to chains declared above it,
    no port list and no region set is empty, and nothing an operator typed
    reaches the file as anything but plain text. *)
Theorem protect_table_accepted cfg t :
  2 * Z.of_nat (length (cfg_Services cfg)) + 12 < MaxInt64 ->
  protect_table (ProtectSpecFrom cfg) = Some t -> nft_accepts t.
Proof.
  intros Hsize. destruct (ProtectSpecFrom_rows cfg) as [Hproto Hlen].
  generalize dependent (ProtectSpecFrom cfg). intros s Hproto Hlen. unfold protect_table.
  set (sePorts := sourceEnginePorts s). destruct (negb _); [done |].
  assert (Hs : 2 * Z.of_nat (length (sp_Services s)) + 12 < MaxInt64) by lia.
  pose proof (protect_sets_nodup s Hproto Hs sePorts) as Hnd.
  pose proof (protect_nsets_ok s Hproto Hs sePorts) as Hns.
  pose proof (protect_sets_ident s Hproto Hs sePorts) as Hid.
  pose proof (raw_lines_ok s Hproto Hs sePorts) as Hraw.
  destruct (override_sets_ok s Hs) as (_ & _ & _ & Hol).
  assert (Hdecl : forall x, x ∈ ns_name <$> fixed_sets s sePorts ->
    x ∈ ns_name <$> protect_sets s (geoRegionElems s) (geoServices s (geoRegionElems s)) sePorts (connOverrides s))
    by (intros x; apply fixed_declared).
  assert (Hov : forall x, x ∈ override_names (connOverrides s) ->
    x ∈ ns_name <$> protect_sets s (geoRegionElems s) (geoServices s (geoRegionElems s)) sePorts (connOverrides s)).
  { intros x Hx. rewrite sets_split, !fmap_app, !elem_of_app. right. by left. }
  set (sets := protect_sets _ _ _ _ _) in *.
  assert (Hw : writer_ok (0 <? sp_BlockSeconds s) (ns_name <$> sets) (4 + 2 * length (connOverrides s)) (filter_lines s sePorts (connOverrides s))).
  { apply filter_lines_ok; [done | done | | | | | exact Hov]; intros E; apply Hdecl; unfold fixed_sets;
      rewrite E, !fmap_app, !elem_of_app; cbn; set_solver. }
  specialize (Hw (mkParks [] ∅)). destruct (filter_lines s sePorts (connOverrides s) (mkParks [] ∅)) as [fl ps].
  destruct Hw as (([Hpn _] & Hpk & Hnone) & Hpl & _ & Hfl);
    [split_and!; [split; [constructor | set_solver] | constructor | done] | cbn; lia |].
  intros [= <-]. constructor; cbn [tb_sets tb_chains]; [done | | done | |].
  - rewrite fmap_app, <- list_fmap_compose. change (ch_name ∘ park_chain) with (@fst string string). cbn.
    apply NoDup_app. split_and!; [done | | by apply (bool_decide_unpack _); vm_compute].
    intros x Hx Hin. rewrite Forall_forall in Hpk. destruct (Hpk x Hx) as [_ [Hr Hf]%park_prefix_not]. set_solver.
  - apply Forall_app_2.
    + apply Forall_fmap. rewrite Forall_fmap in Hpk. eapply Forall_impl; [exact Hpk |]. by intros c [Hc _].
    + repeat apply Forall_cons_2; try apply Forall_nil_2; by apply ident_b.
  - intros i c Hi. apply lookup_app_Some in Hi as [Hi|[Hge Hi]].
    + apply list_lookup_fmap_Some in Hi as (pc & -> & Hpc).
      assert (Hb : "blocked"%string ∈ ns_name <$> sets).
      { apply Hdecl. unfold fixed_sets. destruct (0 <? sp_BlockSeconds s) eqn:E; [by left |].
        by rewrite (Hnone eq_refl) in Hpc. }
      cbn [park_chain ch_lines]. apply lines_ok_rule. split; [| apply lines_ok_rule; split; [| apply lines_ok_nil]]; atoms_ok.
    + rewrite length_fmap in *.
      destruct (i - length (pk_chains ps))%nat as [|[|j]] eqn:Ei; cbn in Hi; [| | done]; injection Hi as <-; cbn [ch_lines].
      * eapply lines_ok_mono; [| exact Hraw]. set_solver.
      * eapply lines_ok_mono; [| exact Hfl]. rewrite take_app_ge by (rewrite length_fmap; lia).
        rewrite fmap_app, <- list_fmap_compose. change (ch_name ∘ park_chain) with (@fst string string). set_solver.
Qed.
End accepted.

(** ** What the rules do to a packet *)

Section packets.
Context `{Unicode}.

(** Every rule is scoped to the public interface: a packet from any other
    one, a probe, the control channel or the overlay's own traffic, is accepted
    by both chains before any limit looks at it. *)
Theorem protect_scoped s t c E p :
  protect_table s = Some t -> c ∈ tb_chains t -> is_Some (ch_hook c) ->
  pk_iif p <> nftSafe (sp_PublicIface s) -> chain_outcome E p (ch_lines c) = Some VAccept.
Proof.
  unfold protect_table. destruct (negb _); [done |].
  destruct (filter_lines s _ _ _) as [fl ps] eqn:Ef. intros [= <-] Hc Hh Hif. cbn [tb_chains] in Hc.
  assert (Hacc : forall ls, chain_outcome E p ((Rule [Iif true (sp_PublicIface s); Accept]) :: ls) = Some VAccept).
  { intros ls. cbn. apply String.eqb_neq in Hif. by rewrite Hif. }
  apply elem_of_app in Hc as [(pc & -> & _)%list_elem_of_fmap | Hc].
  { destruct Hh as [h Hh]. done. }
  rewrite !elem_of_cons in Hc. destruct Hc as [-> | [-> | Hc%elem_of_nil]]; [| | done]; cbn [ch_lines].
  - apply Hacc.
  - unfold filter_lines in Ef. unfold andThen at 1 in Ef. cbn [write] in Ef.
    destruct (andThen _ _ _) as [m p2]. injection Ef as <- _. apply Hacc.
Qed.

(** A lock that is conditional holds while its port is in the lockdown set. *)
Definition lock_engaged (E : env) (sv : ProtectService) : bool :=
  if 0 <? psv_GeoAutoPPS sv then env_set E "th dport" (geoLockSetName (psv_Proto sv)) else true.
Definition lock_covers (p : packet) (sv : ProtectService) : bool :=
  String.eqb (pk_proto p) (psv_Proto sv) && in_spec (pk_dport p) (psv_spec sv).
Definition live_regions (elems : gmap string (list string)) (sv : ProtectService) : list string :=
  filter (fun n => resolves elems n = true) (psv_GeoRegions sv).
Definition lock_bars (E : env) (elems : gmap string (list string)) (sv : ProtectService) : bool :=
  let inside := existsb (fun n => env_set E "ip saddr" (GeoSetName n)) (live_regions elems sv) in
  if psv_GeoBlock sv then inside else negb inside.

Lemma geo_lock_outcome s elems sv E p :
  chain_outcome E p (geo_lock s elems sv) =
  if lock_covers p sv && lock_engaged E sv && lock_bars E elems sv then Some VDrop else None.
Proof.
  unfold geo_lock, lock_covers, lock_bars, live_regions. rewrite chain_outcome_app.
  set (lockCond := if 0 <? psv_GeoAutoPPS sv then [InSet "th dport" false (geoLockSetName (psv_Proto sv))] else []).
  assert (Htrip : forall c r, chain_outcome E p (if c : bool then [Rule (Dport (psv_Proto sv) [psv_spec sv] :: r)] else [])
    = if c then rule_outcome E p (Dport (psv_Proto sv) [psv_spec sv] :: r) else None).
  { intros [] r; [| done]. cbn [chain_outcome]. by destruct (rule_outcome _ _ _). }
  rewrite Htrip. clear Htrip.
  match goal with |- context [if ?c then ?o else None] =>
    assert (Ht : (if c then o else None) = None) by
      (destruct c; [| done]; cbn; repeat (split_if; try done)); rewrite Ht; clear Ht end.
  assert (Hcond : Forall (fun a => atom_verdict a = None) lockCond
    /\ forallb (atom_match E p) lockCond = lock_engaged E sv).
  { unfold lockCond, lock_engaged. destruct (0 <? psv_GeoAutoPPS sv); cbn; [| by split; [constructor |]].
    split; [by repeat constructor |]. by destruct (env_set _ _ _). }
  destruct Hcond as [Hv He].
  assert (Hrule : forall l tl, Forall (fun a => atom_verdict a = None) l ->
    rule_outcome E p ([Dport (psv_Proto sv) [psv_spec sv]] ++ lockCond ++ l ++ tl)
    = if lock_covers p sv && lock_engaged E sv && forallb (atom_match E p) l then rule_outcome E p tl else None).
  { intros l tl Hl. rewrite rule_outcome_app by by repeat constructor. rewrite rule_outcome_app by done.
    rewrite rule_outcome_app by done. rewrite He. cbn. rewrite orb_false_r, andb_true_r. unfold lock_covers.
    by destruct (_ && _), (lock_engaged E sv), (forallb _ l). }
  fold (lock_covers p sv). destruct (psv_GeoBlock sv).
  - induction (filter _ _) as [|n l IH]; cbn [fmap list_fmap existsb]; [by rewrite andb_false_r |].
    cbn [chain_outcome]. rewrite IH. change [InSet "ip saddr" false (GeoSetName n); Counter; Drop; Comment (CounterGeo ++ ":" ++ psv_Name sv)%string]
      with ([InSet "ip saddr" false (GeoSetName n)] ++ [Counter; Drop; Comment (CounterGeo ++ ":" ++ psv_Name sv)%string]).
    rewrite Hrule by by repeat constructor. cbn [forallb atom_match xorb rule_outcome atom_verdict].
    by destruct (lock_covers p sv), (lock_engaged E sv), (env_set E "ip saddr" _).
  - cbn [chain_outcome]. rewrite Hrule by (apply Forall_fmap, Forall_true; done).
    cbn [rule_outcome atom_match atom_verdict].
    assert (Hf : forall l, forallb (atom_match E p) ((fun n => InSet "ip saddr" true (GeoSetName n)) <$> l)
      = negb (existsb (fun n => env_set E "ip saddr" (GeoSetName n)) l)).
    { induction l as [|n l IH]; cbn; [done |]. rewrite IH. by destruct (env_set _ _ _). }
    rewrite Hf. by destruct (lock_covers p sv), (lock_engaged E sv), (existsb _ _).
Qed.

Lemma geo_locks_outcome s elems svcs E p :
  chain_outcome E p (concat (geo_lock s elems <$> svcs)) = Some VDrop
  <-> exists sv, sv ∈ svcs /\ lock_covers p sv = true /\ lock_engaged E sv = true /\ lock_bars E elems sv = true.
Proof.
  induction svcs as [|sv svcs IH]; cbn [fmap list_fmap concat].
  { split; [done |]. intros (sv & Hsv & _). by apply elem_of_nil in Hsv. }
  rewrite chain_outcome_app, geo_lock_outcome.
  destruct (lock_covers p sv && lock_engaged E sv && lock_bars E elems sv) eqn:Eb.
  - split; [| done]. intros _. exists sv. rewrite !andb_true_iff in Eb. destruct Eb as [[? ?] ?].
    split_and!; [by left | done | done | done].
  - rewrite IH. split; intros (w & Hw & H1 & H2 & H3).
    + exists w. split_and!; [by right | done | done | done].
    + apply elem_of_cons in Hw as [->|Hw]; [| by exists w]. by rewrite H1, H2, H3 in Eb.
Qed.

(** A region's networks, under a name only it has. *)
Lemma add_region_other referenced out r n : region_Name r <> n -> add_region referenced out r !! n = out !! n.
Proof.
  intros Hn. unfold add_region. case_bool_decide; [done |].
  destruct (mergeCIDRs _); [done |]. by rewrite lookup_insert_ne.
Qed.
Lemma fold_region_other referenced rs : forall out n, n ∉ (region_Name <$> rs) ->
  fold_left (add_region referenced) rs out !! n = out !! n.
Proof.
  induction rs as [|r rs IH]; intros out n Hn; [done |]. cbn [fold_left]. cbn in Hn.
  rewrite IH by set_solver. apply add_region_other. set_solver.
Qed.
Lemma geo_elems_region s r : NoDup (region_Name <$> sp_Regions s) -> r ∈ sp_Regions s ->
  region_Name r ∈ referenced_regions s ->
  default [] (geoRegionElems s !! region_Name r) = mergeCIDRs (region_CIDRs r).
Proof.
  intros Hnd Hr Href. unfold geoRegionElems. set (referenced := referenced_regions s) in *.
  assert (Hg : forall rs out, NoDup (region_Name <$> rs) -> r ∈ rs -> out !! region_Name r = None ->
    default [] (fold_left (add_region referenced) rs out !! region_Name r) = mergeCIDRs (region_CIDRs r)).
  { induction rs as [|q rs IH]; intros out Hn Hin Hout; [by apply elem_of_nil in Hin |].
    cbn [fold_left]. rewrite fmap_cons in Hn. apply NoDup_cons in Hn as [Hq Hn].
    apply elem_of_cons in Hin as [<-|Hin].
    - rewrite fold_region_other by done. unfold add_region. rewrite bool_decide_eq_false_2 by tauto.
      destruct (mergeCIDRs (region_CIDRs r)); [by rewrite Hout |]. by rewrite lookup_insert_eq.
    - apply IH; [done | done |]. rewrite add_region_other; [done |].
      intros Heq. apply Hq. rewrite Heq. by apply list_elem_of_fmap_2. }
  apply Hg; [done | done | apply lookup_empty].
Qed.

(** The kernel's sets hold what the table declares them with. *)
Definition sets_loaded (E : env) (sets : list nset) (ip : bytes) : Prop := forall x l,
  x ∈ sets -> ns_elems x = Some l -> env_set E "ip saddr" (ns_name x) = true <-> Exists (admits ip) l.

(** What the configuration says of a source: whether one of the service's
    regions lists a network holding it. *)
Definition in_regions (s : ProtectSpec) (sv : ProtectService) (ip : bytes) : Prop :=
  exists r, r ∈ sp_Regions s /\ region_Name r ∈ psv_GeoRegions sv /\ Exists (admits ip) (region_CIDRs r).

Lemma live_regions_exact s E ip sv sePorts overrides :
  ip4_ok ip -> NoDup (region_Name <$> sp_Regions s) ->
  (forall n m, n ∈ referenced_regions s -> m ∈ referenced_regions s -> GeoSetName n = GeoSetName m -> n = m) ->
  sets_loaded E (protect_sets s (geoRegionElems s) (geoServices s (geoRegionElems s)) sePorts overrides) ip ->
  sv ∈ geoServices s (geoRegionElems s) ->
  existsb (fun n => env_set E "ip saddr" (GeoSetName n)) (live_regions (geoRegionElems s) sv) = true
  <-> in_regions s sv ip.
Proof.
  intros Hip Hnd Hinj Hload Hsv. set (elems := geoRegionElems s) in *.
  assert (Hreferenced : forall n w, w ∈ geoServices s elems -> n ∈ psv_GeoRegions w -> n ∈ referenced_regions s).
  { intros n w [Hw _]%geoServices_sub Hn. apply list_elem_of_In, in_concat. exists (psv_GeoRegions w).
    split; apply list_elem_of_In; [by apply list_elem_of_fmap_2 | done]. }
  assert (Hset : forall n, n ∈ psv_GeoRegions sv -> resolves elems n = true ->
    env_set E "ip saddr" (GeoSetName n) = true <-> Exists (admits ip) (default [] (elems !! n))).
  { intros n Hn Hr.
    set (names := filter (fun n => resolves elems n = true) (concat (psv_GeoRegions <$> geoServices s elems))).
    destruct (geo_order_seen names []) as (_ & _ & I3 & I4).
    assert (Hnames : n ∈ names).
    { apply list_elem_of_filter. split; [done |]. apply list_elem_of_In, in_concat. exists (psv_GeoRegions sv).
      split; apply list_elem_of_In; [by apply list_elem_of_fmap_2 | done]. }
    destruct (I3 n Hnames) as [Hs%elem_of_nil|(m & Heq & Hm)%list_elem_of_fmap]; [done |].
    assert (Hmn : n = m).
    { apply Hinj; [by eapply Hreferenced | | done]. apply I4, list_elem_of_filter in Hm as [_ Hm].
      apply list_elem_of_In, in_concat in Hm as (gs & Hgs & Hm). apply list_elem_of_In in Hgs, Hm.
      apply list_elem_of_fmap in Hgs as (w & -> & Hw). by eapply Hreferenced. }
    subst m. apply (Hload (region_set elems n)); [| done].
    unfold protect_sets. rewrite !elem_of_app. do 6 right. left. by apply list_elem_of_fmap_2. }
  rewrite existsb_exists. split.
  - intros (n & Hn & Hin). apply list_elem_of_In, list_elem_of_filter in Hn as [Hr Hn].
    apply Hset in Hin; [| done | done]. unfold resolves in Hr.
    destruct (elems !! n) as [els|] eqn:El; [| done]. cbn in Hin.
    apply geo_elems_ok in El as (r & Hr' & <- & -> & _). exists r. split_and!; [done | done |].
    by apply (mergeCIDRs_admits (region_CIDRs r) ip Hip).
  - intros (r & Hr & Hn & Hex). apply (mergeCIDRs_admits (region_CIDRs r) ip Hip) in Hex.
    rewrite <- (geo_elems_region s r Hnd Hr) in Hex by by eapply Hreferenced. fold elems in Hex.
    assert (Hres : resolves elems (region_Name r) = true).
    { unfold resolves. destruct (default [] (elems !! region_Name r)); [by apply Exists_nil in Hex | done]. }
    exists (region_Name r). split; [| by apply Hset]. by apply list_elem_of_In, list_elem_of_filter.
Qed.

Lemma region_locks_outcome s E p sePorts overrides :
  ip4_ok (pk_saddr p) -> NoDup (region_Name <$> sp_Regions s) ->
  (forall n m, n ∈ referenced_regions s -> m ∈ referenced_regions s -> GeoSetName n = GeoSetName m -> n = m) ->
  sets_loaded E (protect_sets s (geoRegionElems s) (geoServices s (geoRegionElems s)) sePorts overrides) (pk_saddr p) ->
  chain_outcome E p (concat (geo_lock s (geoRegionElems s) <$> geoServices s (geoRegionElems s))) = Some VDrop
  <-> exists sv, sv ∈ geoServices s (geoRegionElems s) /\ lock_covers p sv = true /\ lock_engaged E sv = true
      /\ (if psv_GeoBlock sv then in_regions s sv (pk_saddr p) else ~ in_regions s sv (pk_saddr p)).
Proof.
  intros Hip Hnd Hinj Hload. rewrite geo_locks_outcome. unfold lock_bars.
  split; intros (sv & Hsv & Hc & He & Hb); exists sv; (split_and!; [done | done | done |]);
    pose proof (live_regions_exact s E (pk_saddr p) sv sePorts overrides Hip Hnd Hinj Hload Hsv) as Hl;
    destruct (psv_GeoBlock sv), (existsb _ _); naive_solver.
Qed.

(** The region locks bar exactly whom the configuration says: of the
    packets that reach them, one is dropped when, and only when, some locked
    service covers its port, the lock is engaged, and its source is outside
    every network of the service's regions, or inside one of them when the lock
    is a block. Merging, folding and sharing sets change none of it. *)
Theorem region_lock_exact s E p sePorts overrides :
  ip4_ok (pk_saddr p) -> NoDup (region_Name <$> sp_Regions s) ->
  (forall n m, n ∈ referenced_regions s -> m ∈ referenced_regions s -> GeoSetName n = GeoSetName m -> n = m) ->
  sets_loaded E (protect_sets s (geoRegionElems s) (geoServices s (geoRegionElems s)) sePorts overrides) (pk_saddr p) ->
  chain_outcome E p (concat (geo_lock s (geoRegionElems s) <$> geoServices s (geoRegionElems s))) = Some VDrop
  <-> exists sv, sv ∈ geoServices s (geoRegionElems s) /\ lock_covers p sv = true /\ lock_engaged E sv = true
      /\ (if psv_GeoBlock sv then in_regions s sv (pk_saddr p) else ~ in_regions s sv (pk_saddr p)).
Proof. apply region_locks_outcome. Qed.
End packets.

(** ** Which limit a port faces *)

Definition row_covers (port : Z) (sv : ProtectService) : Prop := in_range port (psv_range sv).
Definition tcp_row (sv : ProtectService) : Prop := equal_fold (psv_Proto sv) "tcp" = true.

Lemma covers_rows (rows : list ProtectService) p :
  ports_cover (psv_range <$> rows) p <-> exists sv, sv ∈ rows /\ row_covers p sv.
Proof. unfold ports_cover. rewrite Exists_fmap, Exists_exists. done. Qed.
Lemma rows_ok (P : ProtectService -> Prop) `{!forall x, Decision (P x)} rows :
  Forall (fun sv => range_ok (psv_range sv)) rows -> Forall range_ok (psv_range <$> filter P rows).
Proof.
  intros Hr. apply Forall_fmap, Forall_forall. intros sv [_ Hsv]%list_elem_of_filter.
  rewrite Forall_forall in Hr. by apply Hr.
Qed.

Definition port_row_ok (sv : ProtectService) : bool :=
  (0 <=? psv_Port sv) && (psv_Port sv <=? 65535) && (psv_PortEnd sv <=? 65535).
Lemma rows_range_ok l : forallb port_row_ok l = true -> Forall (fun sv => range_ok (psv_range sv)) l.
Proof.
  rewrite forallb_forall. intros H. apply Forall_forall. intros sv Hsv%list_elem_of_In%H.
  unfold port_row_ok in Hsv. bool_to_prop. unfold range_ok, psv_range, MinInt64, MaxInt64. cbn. lia.
Qed.

(** A shared connection limit covers a port exactly when some TCP row
    publishes it and no TCP row publishing it overrides that limit, whatever
    the rows overlap: a port faces the shared rule or the row's own, never
    both and never neither. Its intervals are disjoint and apart. *)
Theorem sharedConnPorts_exact s overridden port :
  Forall (fun sv => range_ok (psv_range sv)) (sp_Services s) ->
  (ports_cover (sharedConnPorts s overridden) port
   <-> (exists sv, sv ∈ sp_Services s /\ tcp_row sv /\ row_covers port sv)
       /\ ~ (exists sv, sv ∈ sp_Services s /\ tcp_row sv /\ row_covers port sv /\ overridden sv = true))
  /\ StronglySorted apart (sharedConnPorts s overridden).
Proof.
  intros Hr. unfold sharedConnPorts. set (tcp := filter _ (sp_Services s)).
  assert (Htcp : Forall (fun sv => range_ok (psv_range sv)) tcp).
  { apply Forall_forall. intros sv [_ Hsv]%list_elem_of_filter. rewrite Forall_forall in Hr. by apply Hr. }
  destruct (subtractRanges_ok (psv_range <$> filter (fun sv => overridden sv = false) tcp)
    (psv_range <$> filter (fun sv => overridden sv = true) tcp) port) as [Hs Hok];
    [by apply rows_ok | by apply rows_ok |].
  destruct (merge_ranges_ok _ Hok) as (Hm & Hsorted & _). split; [| done].
  rewrite Hm, Hs, !covers_rows. unfold tcp. split.
  - intros [(sv & [Ho [Ht Hsv]%list_elem_of_filter]%list_elem_of_filter & Hc) Hn]. split; [by exists sv |].
    intros (w & Hw & Hwt & Hwc & Hwo). apply Hn. exists w. split; [| done].
    by repeat (apply list_elem_of_filter; split; [done |]).
  - intros [(sv & Hsv & Ht & Hc) Hn]. split.
    + exists sv. split; [| done]. destruct (overridden sv) eqn:Eo; [exfalso; apply Hn; by exists sv |].
      by repeat (apply list_elem_of_filter; split; [done |]).
    + intros (w & [Ho [Hwt Hw]%list_elem_of_filter]%list_elem_of_filter & Hwc). apply Hn. by exists w.
Qed.

(** ** A sample site *)

Definition sample_service (name proto : string) (port end_ : Z) : Service :=
  mkService name proto port end_ true "" false 0 0 0 [] false 0.
Definition sample_services : list Service :=
  [sample_service "web" "tcp" 80 0; sample_service "web-alt" "tcp" 81 90;
   mkService "Game (EU)" "udp" 27015 27020 true "" true 5000 0 0 ["eu"%string] false 400;
   mkService "rcon" "tcp" 27015 0 true "" false 0 4 2 [] false 0].
Definition sample_protect : ProtectConfig :=
  mkProtectConfig true 20 64 300 10 600 true true true true
    [mkGeoRegion "eu" ["10.0.0.0/8"; "10.1.0.0/16"]%string []] 0.
Definition sample_site : Config :=
  mkConfig "armed" (mkFrontendConfig "eth0" "203.0.113.7" true) (cfg_Overlay Defaults) (cfg_Paths Defaults)
    (cfg_Probe Defaults) (cfg_Failover Defaults) sample_services [] "" (cfg_Egress Defaults)
    (cfg_Notify Defaults) sample_protect (mkQueryCacheConfig true 1000 5000) (cfg_Blocklist Defaults).

Lemma protect_table_accepted_witness :
  exists t, @protect_table AsciiUnicode (@ProtectSpecFrom AsciiUnicode sample_site) = Some t /\ nft_accepts t.
Proof.
  destruct (@protect_table AsciiUnicode (@ProtectSpecFrom AsciiUnicode sample_site)) as [t|] eqn:E.
  - exists t. split; [reflexivity |]. apply (@protect_table_accepted AsciiUnicode sample_site t); [reflexivity | exact E].
  - vm_compute in E. discriminate E.
Defined.

Definition sample_locked : ProtectSpec :=
  mkProtectSpec "eth0" 0 0 0 0 0 false false false false 0
    [mkGeoRegion "eu" ["10.0.0.0/8"; "10.1.0.0/16"]%string []]
    [mkProtectService "game" "udp" 27015 27020 false 0 ["eu"%string] false 0 0 0].
Definition sample_packet : packet := mkPacket "eth0" "" [10; 1; 2; 3] "203.0.113.7" "udp" 27016 [].
Definition sample_env : env := mkEnv (fun _ => true) (fun _ x => String.eqb x "geo_eu") (fun _ => false) (fun _ => true).

Lemma protect_scoped_witness :
  exists t c, @protect_table AsciiUnicode sample_locked = Some t /\ c ∈ tb_chains t
    /\ chain_outcome sample_env (mkPacket "wg0" "" [10; 1; 2; 3] "203.0.113.7" "udp" 27016 []) (ch_lines c) = Some VAccept.
Proof.
  destruct (@protect_table AsciiUnicode sample_locked) as [t|] eqn:E; [| vm_compute in E; discriminate E].
  assert (Hc : exists c, c ∈ tb_chains t /\ is_Some (ch_hook c)).
  { vm_compute in E. injection E as <-. eexists. split; [left |]. by eexists. }
  destruct Hc as (c & Hc & Hh). exists t, c. split; [reflexivity |]. split; [exact Hc |].
  apply (@protect_scoped AsciiUnicode sample_locked t c); [exact E | exact Hc | exact Hh | vm_compute; discriminate].
Defined.

Lemma region_lock_exact_witness :
  let s := sample_locked in let p := sample_packet in
  let elems := geoRegionElems s in
  chain_outcome sample_env p (concat (@geo_lock AsciiUnicode s elems <$> geoServices s elems)) = Some VDrop
  <-> exists sv, sv ∈ geoServices s elems /\ lock_covers p sv = true /\ @lock_engaged AsciiUnicode sample_env sv = true
      /\ (if psv_GeoBlock sv then in_regions s sv (pk_saddr p) else ~ in_regions s sv (pk_saddr p)).
Proof.
  apply (@region_lock_exact AsciiUnicode sample_locked sample_env sample_packet [] []).
  - split; [reflexivity |]. repeat constructor; unfold is_byte; cbn; lia.
  - repeat constructor. by intros ?%elem_of_nil.
  - intros n m Hn Hm _. cbn in Hn, Hm. apply list_elem_of_singleton in Hn, Hm. congruence.
  - intros x l Hx Hl. vm_compute in Hx. apply list_elem_of_singleton in Hx as ->.
    cbn in Hl. injection Hl as <-. split; [intros _ | intros _; vm_compute; reflexivity].
    constructor. exists [10; 0; 0; 0], 8. split; vm_compute; reflexivity.
Defined.

Lemma sharedConnPorts_exact_witness :
  let s := @ProtectSpecFrom AsciiUnicode sample_site in
  (ports_cover (sharedConnPorts s overridesConnRate) 27015
   <-> (exists sv, sv ∈ sp_Services s /\ tcp_row sv /\ row_covers 27015 sv)
       /\ ~ (exists sv, sv ∈ sp_Services s /\ tcp_row sv /\ row_covers 27015 sv /\ overridesConnRate sv = true))
  /\ StronglySorted apart (sharedConnPorts s overridesConnRate).
Proof.
  apply (sharedConnPorts_exact (@ProtectSpecFrom AsciiUnicode sample_site) overridesConnRate 27015).
  apply rows_range_ok. vm_compute. reflexivity.
Defined.
