(* ===== verification/Blocklist.v ===== *)
(** * The threat feed ([internal/sysx/blocklist.go], [internal/engine/blocklist.go])

    The drop list the frontend refreshes on a timer: what a feed's text is
    read as, what of it may be loaded, the table and the set it is loaded
    into, and the refresher that keeps the set, the record of it and the copy
    on disk.  The kernel is the table's text and the text last loaded into
    its feed set; an [nft] command changes it or, failing, does not.  The feed
    is the response the HTTP client hands back. *)

From S2P Require Import Prelude GoTime Float64 Model Bytes Decimal Text Net Ports Nft.

(** ** The table *)

Definition NFTBlocklistTable : string := "failover_blocklist".
Definition CounterBlocklist : string := "blocklist".
Definition BlocklistFeedSet : string := "feed".
Definition BlocklistAllowSet : string := "allow".
Definition blocklistPriority : Z := -310.

Record BlocklistSpec := mkBlocklistSpec {
  bs_Enabled : bool; bs_PublicIface : string; bs_Exceptions : list string }.

Definition set_comment (s : string) : string := ("comment " ++ QUOTE ++ s ++ QUOTE)%string.
Definition feed_set : nset :=
  mkNset BlocklistFeedSet "ipv4_addr"
    ["flags interval";
     set_comment "networks from the threat feed; loaded by the agent, not from the packet path"]%string None.
Definition allow_set (allow : list string) : list nset :=
  match allow with
  | [] => []
  | _ => [mkNset BlocklistAllowSet "ipv4_addr"
            ["flags interval"; set_comment "networks the operator has exempted from the feed"]%string
            (Some allow)]
  end.

Definition raw_chain (iface : string) (allow : list string) : list line :=
  [Rule [Iif true iface; Accept]]
  ++ match allow with
     | [] => []
     | _ => [Remark "The operator's exceptions, ahead of the feed: the feed is the one";
             Remark "list here nobody in this deployment reviewed, and a false positive";
             Remark "in it is a visitor who cannot connect with nothing saying why.";
             Rule [InSet "ip saddr" false BlocklistAllowSet; Accept]]
     end
  ++ [Remark "TCP only, deliberately. A false positive on a UDP game port would";
      Remark "drop a player mid-match; on TCP it is a connection that does not";
      Remark "open, which is the recoverable direction. Stateless and on every";
      Remark "packet, like the region locks: the set answer is fixed per address,";
      Remark "so a source the list admits can never be newly caught, a listed";
      Remark "flood costs no conntrack entry, and a source appearing in the feed";
      Remark "also ends flows already in progress.";
      Rule [Text "meta l4proto tcp"; InSet "ip saddr" false BlocklistFeedSet; Counter; Drop;
            Comment CounterBlocklist]].

Definition blocklist_table (spec : BlocklistSpec) : option table :=
  let iface := TrimSpace (bs_PublicIface spec) in
  if negb (bs_Enabled spec) || String.eqb iface "" then None
  else
    let allow := mergeCIDRs (EgressNetworks (bs_Exceptions spec)) in
    Some (mkTable NFTBlocklistTable
      ["generated by failover-frontend - do not edit by hand";
       "a drop list in front of every TCP port, from a threat feed this";
       "host refreshes on a timer. the elements of the feed set are loaded";
       "separately (see blocklist-feed.nft) so a refresh touches no rule";
       "and resets no counter. scoped to the public interface, so probes,";
       "the control channel and overlay traffic are out of reach of it."]%string
      (feed_set :: allow_set allow)
      [mkChain "raw"
         (Some ("type filter hook prerouting priority " ++ Itoa blocklistPriority ++ "; policy accept;")%string)
         (raw_chain iface allow)] "").
Definition BuildBlocklistRuleset (spec : BlocklistSpec) : string := text_of (blocklist_table spec).

(** ** What may be loaded *)

(** [dropNonInternet]: an entry goes when it overlaps any of the reserved
    ranges. *)
Definition overlaps (a b : block) : bool := (blk_start a <=? blk_end b) && (blk_start b <=? blk_end a).
Definition bad_blocks : list block := omap parse_block nonInternetDestinations.
Definition keeps_entry (c : string) : bool :=
  match parse_block c with
  | None => false
  | Some b => negb (existsb (overlaps b) bad_blocks)
  end.
Definition dropNonInternet (cidrs : list string) : list string := filter (fun c => keeps_entry c = true) cidrs.

Definition blocklistElements (networks : list string) : list string :=
  mergeCIDRs (dropNonInternet (EgressNetworks networks)).

Definition RenderBlocklistElements (elems : list string) : string :=
  match elems with
  | [] => ""
  | _ =>
      ("# generated by failover-frontend - do not edit by hand" ++ NL
       ++ "# the threat feed's networks. flush and add in one transaction, so" ++ NL
       ++ "# the set is never half replaced and no rule or counter is touched." ++ NL ++ NL
       ++ "flush set ip " ++ NFTBlocklistTable ++ " " ++ BlocklistFeedSet ++ NL
       ++ "add element ip " ++ NFTBlocklistTable ++ " " ++ BlocklistFeedSet ++ " {" ++ NL
       ++ TAB ++ TAB ++ TAB ++ geoElements elems ++ NL ++ "}" ++ NL)%string
  end.
Definition BuildBlocklistElements (networks : list string) : string :=
  RenderBlocklistElements (blocklistElements networks).

Definition BlocklistMinPrefix : Z := 8.
Definition BlocklistMaxCoverage : Z := 134217728.

(** What follows the last slash, or all of it where there is none. *)
Fixpoint after_slash (acc s : bytes) : bytes :=
  match s with
  | [] => acc
  | c :: s => if c =? 47 then after_slash s s else after_slash acc s
  end.
Definition prefix_len (c : string) : option Z :=
  match Atoi (after_slash (string_bytes c) (string_bytes c)) with
  | Some ones => if (ones <? 0) || (32 <? ones) then None else Some ones
  | None => None
  end.

Inductive check_error := ErrShortPrefix (c : string) | ErrBlocklistCoverage (covered : Z).

Fixpoint check_elems (covered : Z) (elems : list string) : result check_error Z :=
  match elems with
  | [] => Ok covered
  | c :: elems =>
      match prefix_len c with
      | None => check_elems covered elems
      | Some ones =>
          if ones <? BlocklistMinPrefix then Err (ErrShortPrefix c)
          else check_elems (u64 (covered + u64 (Z.shiftl 1 (32 - ones)))) elems
      end
  end.
Definition CheckBlocklist (networks : list string) : result check_error (list string) :=
  let elems := blocklistElements networks in
  match check_elems 0 elems with
  | Err e => Err e
  | Ok covered => if BlocklistMaxCoverage <? covered then Err (ErrBlocklistCoverage covered) else Ok elems
  end.

(** ** The feed's text *)

Definition blocklistMaxBytes : Z := 8388608.
Definition blocklistMaxNetworks : Z := 200000.
Definition blocklistTick : Duration := Minute.
Definition blocklistRetryEvery : Duration := 15 * Minute.
Definition blocklistStaleAfter : Duration := 48 * Hour.

Inductive feed_error :=
| ErrRequest | ErrStatus (code : Z) | ErrBody | ErrTooBig
| ErrTooMany | ErrLine (n : Z) (text : string) | ErrEmpty
| ErrShrink (returned previous : Z) | ErrCheck (e : check_error).

Definition truncateLine (s : string) : string :=
  if (String.length s <=? 60)%nat then s else (String.substring 0 60 s ++ "...")%string.

(** One line: nothing, or the network it names. *)
Definition parse_line (n : Z) (raw : bytes) : result feed_error (option string) :=
  let line := TrimSpace (bytes_string raw) in
  if String.eqb line "" || String.prefix "#" line || String.prefix ";" line then Ok None
  else if bool_decide (47 ∈ string_bytes line) then
    let net := NetworkLiteral line in
    if String.eqb net "" then Err (ErrLine n (truncateLine line)) else Ok (Some net)
  else match ParseIP line with
       | None => Err (ErrLine n (truncateLine line))
       | Some ip => match To4 ip with
                    | None => Err (ErrLine n (truncateLine line))
                    | Some ip4 => Ok (Some (bytes_string (dotted ip4) ++ "/32")%string)
                    end
       end.

(** The line counts against the cap before it is read. *)
Definition is_entry (raw : bytes) : bool :=
  let line := TrimSpace (bytes_string raw) in
  negb (String.eqb line "" || String.prefix "#" line || String.prefix ";" line).

Fixpoint parse_lines (n : Z) (out : list string) (lines : list bytes) : result feed_error (list string) :=
  match lines with
  | [] => match out with [] => Err ErrEmpty | _ => Ok (rev out) end
  | raw :: lines =>
      if is_entry raw && (blocklistMaxNetworks <=? Z.of_nat (length out)) then Err ErrTooMany
      else match parse_line n raw with
           | Err e => Err e
           | Ok None => parse_lines (n + 1) out lines
           | Ok (Some net) => parse_lines (n + 1) (net :: out) lines
           end
  end.
Definition parseBlocklistBody (body : bytes) : result feed_error (list string) :=
  parse_lines 1 [] (split_lines [] body).

(** What the HTTP client returns; a body is read up to one byte past the cap. *)
Record response := mkResponse { rs_Status : Z; rs_Body : option bytes; rs_ETag : string }.

Inductive fetched := NotModified | Fetched (networks : list string) (etag : string).
Definition fetchBlocklist (resp : option response) : result feed_error fetched :=
  match resp with
  | None => Err ErrRequest
  | Some r =>
      if rs_Status r =? 304 then Ok NotModified
      else if negb (rs_Status r =? 200) then Err (ErrStatus (rs_Status r))
      else match rs_Body r with
      | None => Err ErrBody
      | Some body =>
          if blocklistMaxBytes <? Z.of_nat (length body) then Err ErrTooBig
          else match parseBlocklistBody body with
               | Ok nets => Ok (Fetched nets (rs_ETag r))
               | Err e => Err e
               end
      end
  end.

(** ** The refresher *)

Definition blocklistRefreshInterval (bl : BlocklistConfig) : Duration :=
  let h := blc_RefreshHours bl in
  let h := if h =? 0 then DefaultBlocklistRefreshHours else h in
  let h := if h <? MinBlocklistRefreshHours then MinBlocklistRefreshHours else h in
  let h := if MaxBlocklistRefreshHours <? h then MaxBlocklistRefreshHours else h in
  dmul h Hour.

Record blocklistCache := mkCache {
  ca_Source : string; ca_Fetched : Time; ca_ETag : string; ca_Networks : list string }.

(** The engine's record of the feature. *)
Record feed := mkFeed {
  bl_Networks : list string; bl_Elems : list string; bl_Count : Z;
  bl_Updated : Time; bl_Etag : string; bl_LastTry : Time; bl_LastErr : option feed_error;
  bl_Refused : bool; bl_LoadFailed : Time; bl_LoadErr : bool;
  bl_On : bool; bl_Applied : string; bl_Counter : Z }.

Definition emptyFeed : feed :=
  mkFeed [] [] 0 zeroTime "" zeroTime None false zeroTime false false "" 0.

Definition with_list nets elems f := mkFeed nets elems (Z.of_nat (length elems)) (bl_Updated f)
  (bl_Etag f) (bl_LastTry f) (bl_LastErr f) (bl_Refused f) (bl_LoadFailed f) (bl_LoadErr f)
  (bl_On f) (bl_Applied f) (bl_Counter f).
Definition with_fetch updated etag try err refused f := mkFeed (bl_Networks f) (bl_Elems f) (bl_Count f)
  updated etag try err refused (bl_LoadFailed f) (bl_LoadErr f) (bl_On f) (bl_Applied f) (bl_Counter f).
Definition with_failure t e f := mkFeed (bl_Networks f) (bl_Elems f) (bl_Count f) (bl_Updated f)
  (bl_Etag f) (bl_LastTry f) (bl_LastErr f) (bl_Refused f) t e (bl_On f) (bl_Applied f) (bl_Counter f).
Definition with_rules on applied counter f := mkFeed (bl_Networks f) (bl_Elems f) (bl_Count f)
  (bl_Updated f) (bl_Etag f) (bl_LastTry f) (bl_LastErr f) (bl_Refused f) (bl_LoadFailed f) (bl_LoadErr f)
  on applied counter.

(** The table in the kernel: its text and what its feed set was filled with. *)
Record kernel_table := mkKernel { kt_Ruleset : string; kt_Feed : string }.

Inductive feed_event := EvRefused (e : feed_error) | EvNoIface | EvApplyFailed | EvLoadFailed.

Record host := mkHost {
  h_feed : feed;
  h_cfg : BlocklistConfig; h_iface : string;
  h_reverted : bool; h_armed : bool;      (* the runner in force *)
  h_kernel : option kernel_table;
  h_disk : option blocklistCache;
  h_events : list feed_event }.

Definition upd_feed (g : feed -> feed) h := mkHost (g (h_feed h)) (h_cfg h) (h_iface h) (h_reverted h)
  (h_armed h) (h_kernel h) (h_disk h) (h_events h).
Definition set_kernel k h := mkHost (h_feed h) (h_cfg h) (h_iface h) (h_reverted h) (h_armed h) k
  (h_disk h) (h_events h).
Definition set_disk d h := mkHost (h_feed h) (h_cfg h) (h_iface h) (h_reverted h) (h_armed h) (h_kernel h)
  d (h_events h).
Definition emit e h := mkHost (h_feed h) (h_cfg h) (h_iface h) (h_reverted h) (h_armed h) (h_kernel h)
  (h_disk h) (h_events h ++ [e]).
Definition set_mode cfg iface reverted armed h := mkHost (h_feed h) cfg iface reverted armed (h_kernel h)
  (h_disk h) (h_events h).

Section engine.
Variable blURL : string.

Definition forgetBlocklistTable : feed -> feed := with_rules false "" 0.
Definition forgetBlocklistLoadFailure : feed -> feed := with_failure zeroTime false.

Definition rememberBlocklist (nets : list string) (f : feed) : result check_error feed :=
  match CheckBlocklist nets with
  | Err e => Err e
  | Ok elems => Ok (with_list nets elems f)
  end.

Definition loadBlocklistCache (h : host) : host :=
  match h_disk h with
  | None => h
  | Some c =>
      match rememberBlocklist (ca_Networks c) (h_feed h) with
      | Err _ => h
      | Ok f =>
          upd_feed (fun _ =>
            if String.eqb (ca_Source c) blURL
            then with_fetch (ca_Fetched c) (ca_ETag c) (bl_LastTry f) (bl_LastErr f) (bl_Refused f) f
            else f) h
      end
  end.

(** [written]: whether the temporary file was written and renamed. *)
Definition saveBlocklistCache (c : blocklistCache) (written : bool) (h : host) : host :=
  if written then set_disk (Some c) h else h.

(** [sysx.ApplyBlocklistElements] through the runner in force: the set must
    exist, and [nft] must not fail. *)
Definition load_elements (text : string) (nft_ok : bool) (h : host) : option host :=
  if negb (h_armed h) then Some h
  else match h_kernel h with
       | Some k => if nft_ok then Some (set_kernel (Some (mkKernel (kt_Ruleset k) text)) h) else None
       | None => None
       end.

Definition loadBlocklistElements (now : Time) (nft_ok : bool) (h : host) : host :=
  let f := h_feed h in
  if negb (bl_On f) || negb (h_armed h) || bool_decide (bl_Networks f = [])
  then upd_feed forgetBlocklistLoadFailure h
  else
    let elements := RenderBlocklistElements (bl_Elems f) in
    if String.eqb elements "" then upd_feed forgetBlocklistLoadFailure h
    else match load_elements elements nft_ok h with
         | Some h => upd_feed forgetBlocklistLoadFailure h
         | None => upd_feed (with_failure now true) (emit EvLoadFailed h)
         end.

Definition installBlocklistElements := loadBlocklistElements.

Definition refuseBlocklist (now : Time) (e : feed_error) (h : host) : host :=
  let first := negb (bl_Refused (h_feed h)) in
  let h := upd_feed (fun f => with_fetch (bl_Updated f) (bl_Etag f) now (Some e) true f) h in
  if first then emit (EvRefused e) h else h.

(** [float64(len(networks)) < blocklistShrinkFloor*float64(previous)]. *)
Definition blocklistShrinkFloor : float64 := f64_half.
Definition shrunk (returned previous : Z) : bool :=
  (0 <? previous) && flt (f64_of_Z returned) (fmul blocklistShrinkFloor (f64_of_Z previous)).

(** What one refresh meets: the response, when it was complete, and whether
    the cache is written and the elements are taken. *)
Record attempt := mkTry {
  tr_Resp : option response; tr_Now : Time; tr_Written : bool; tr_Nft : bool }.

Definition record_error (now : Time) (e : feed_error) (f : feed) : feed :=
  with_fetch (bl_Updated f) (bl_Etag f) now (Some e) (bl_Refused f) f.

Definition refreshBlocklist (a : attempt) (h : host) : host :=
  let now := tr_Now a in
  let previous := Z.of_nat (length (bl_Networks (h_feed h))) in
  match fetchBlocklist (tr_Resp a) with
  | Err e => upd_feed (record_error now e) h
  | Ok NotModified =>
      let h := upd_feed (fun f => with_fetch now (bl_Etag f) now None (bl_Refused f) f) h in
      saveBlocklistCache (mkCache blURL now (bl_Etag (h_feed h)) (bl_Networks (h_feed h))) (tr_Written a) h
  | Ok (Fetched networks etag) =>
      let returned := Z.of_nat (length networks) in
      if shrunk returned previous then refuseBlocklist now (ErrShrink returned previous) h
      else match rememberBlocklist networks (h_feed h) with
      | Err (ErrBlocklistCoverage c) => refuseBlocklist now (ErrCheck (ErrBlocklistCoverage c)) h
      | Err e => upd_feed (record_error now (ErrCheck e)) h
      | Ok f =>
          let h := upd_feed (fun _ => with_fetch now etag now None false f) h in
          let h := saveBlocklistCache (mkCache blURL now etag networks) (tr_Written a) h in
          installBlocklistElements now (tr_Nft a) h
      end
  end.

(** When the next attempt is due. *)
Definition feed_due (h : host) : Time :=
  let f := h_feed h in
  let interval := blocklistRefreshInterval (h_cfg h) in
  if bl_Refused f then Add (bl_LastTry f) interval
  else if bool_decide (is_Some (bl_LastErr f)) || bool_decide (bl_Networks f = [])
  then Add (bl_LastTry f) blocklistRetryEvery
  else Add (bl_Updated f) interval.

Definition load_due (now : Time) (f : feed) : bool :=
  negb (IsZero (bl_LoadFailed f)) && negb (Before now (Add (bl_LoadFailed f) blocklistRetryEvery)).

(** One pass of [runBlocklist]: [retry_ok] is for the load that is retried,
    and [a] for the attempt, if one is due.  What is due is read before either. *)
Definition maybeRefreshBlocklist (now : Time) (retry_ok : bool) (a : attempt) (h : host) : host :=
  if negb (blc_Enabled (h_cfg h)) || h_reverted h then h
  else
    let due := feed_due h in
    let h := if load_due now (h_feed h) then installBlocklistElements now retry_ok h else h in
    if Before now due then h else refreshBlocklist a h.

(** ** Installing the table *)

Record apply_outcome := mkApply { ao_Remove : bool; ao_Table : bool; ao_Load : bool; ao_Now : Time }.

Definition remove_table (ok : bool) (h : host) : host := if ok then set_kernel None h else h.

Definition applyBlocklist (o : apply_outcome) (h : host) : host :=
  let ruleset := BuildBlocklistRuleset
    (mkBlocklistSpec (blc_Enabled (h_cfg h)) (h_iface h) (blc_Exceptions (h_cfg h))) in
  if String.eqb ruleset "" then
    let h := if blc_Enabled (h_cfg h) && String.eqb (TrimSpace (h_iface h)) "" then emit EvNoIface h else h in
    upd_feed forgetBlocklistTable (remove_table (ao_Remove o) h)
  else
    let f := h_feed h in
    if h_armed h && bl_On f && String.eqb (bl_Applied f) ruleset then h
    else if h_armed h then
      if ao_Table o then
        let h := set_kernel (Some (mkKernel ruleset "")) h in
        let h := upd_feed (with_rules true ruleset 0) h in
        loadBlocklistElements (ao_Now o) (ao_Load o) h
      else upd_feed (fun f => with_rules (bl_On f) "" (bl_Counter f) f) (emit EvApplyFailed h)
    else upd_feed (fun f => with_rules (bl_On f) "" (bl_Counter f) f) h.

(** A settings save as far as the feature goes: the swap of configuration and
    runner, and the apply. *)
Definition save_settings (cfg : BlocklistConfig) (iface : string) (armed : bool) (o : apply_outcome)
    (h : host) : host :=
  applyBlocklist o (set_mode cfg iface false armed h).

(** [Engine.Revert], as far as the feature goes. *)
Definition revert_table (removed : bool) (h : host) : host :=
  let h := set_mode (h_cfg h) (h_iface h) true false h in
  upd_feed forgetBlocklistTable (remove_table removed h).

(** What the readback of the counter finds: the table, that there is none, or
    an error that says neither. *)
Inductive readback := Found (drops : Z) | Missing | Unreadable.
Definition sampleBlocklistCounter (r : readback) (h : host) : host :=
  upd_feed (fun f =>
    match r with
    | Found c => with_rules true (bl_Applied f) c f
    | Missing => forgetBlocklistTable f
    | Unreadable => with_rules (bl_On f) "" (bl_Counter f) f
    end) h.

(** [blocklistStatus], the part the portal's warning hangs on. *)
Definition bl_stale (now : Time) (f : feed) : bool :=
  negb (IsZero (bl_Updated f)) && (blocklistStaleAfter <=? Sub now (bl_Updated f)).
End engine.

(** ** What the table does to a packet *)

(** An entry that is a network admits the same addresses once rendered. *)
Lemma parse_block_literal c : NetworkLiteral c <> ""%string -> parse_block (NetworkLiteral c) = parse_block c.
Proof.
  unfold NetworkLiteral, parse_block. destruct (network4 (string_bytes (TrimSpace c))) as [[n ones]|] eqn:E; [| done].
  intros _. apply network4_ok in E as (Hn & Ho & Hm).
  by rewrite TrimSpace_cidr4, string_bytes_cidr4, network4_cidr4.
Qed.

Lemma literal_none c : NetworkLiteral c = ""%string -> parse_block c = None.
Proof.
  unfold NetworkLiteral, parse_block. destruct (network4 (string_bytes (TrimSpace c))) as [[n ones]|] eqn:E; [| done].
  apply network4_ok in E as (Hn & Ho & Hm). intros Hs. exfalso.
  pose proof (string_bytes_cidr4 n ones Hn Ho) as Hb. rewrite Hs in Hb. cbn in Hb. unfold cidr4 in Hb.
  symmetry in Hb. apply app_eq_nil in Hb as [_ Hb]. discriminate Hb.
Qed.

Lemma EgressNetworks_blocks l : omap parse_block (EgressNetworks l) = omap parse_block l.
Proof.
  induction l as [|c l IH]; [done |]. unfold EgressNetworks. rewrite fmap_cons, filter_cons.
  fold (EgressNetworks l). destruct (decide (NetworkLiteral c <> ""%string)) as [H|H].
  - cbn. by rewrite (parse_block_literal c H), IH.
  - assert (E : NetworkLiteral c = ""%string) by (destruct (decide (NetworkLiteral c = ""%string)); [done | by destruct H]).
    cbn. rewrite (literal_none c E). exact IH.
Qed.

Lemma mergeCIDRs_blocks l l' : omap parse_block l = omap parse_block l' -> mergeCIDRs l = mergeCIDRs l'.
Proof. unfold mergeCIDRs. by intros ->. Qed.

Lemma mergeCIDRs_admits_egress l ip : ip4_ok ip ->
  Exists (admits ip) (mergeCIDRs (EgressNetworks l)) <-> Exists (admits ip) l.
Proof.
  intros Hip. rewrite (mergeCIDRs_blocks _ _ (EgressNetworks_blocks l)). by apply mergeCIDRs_admits.
Qed.

(** The sets of the table hold what was loaded into them. *)
Definition blocklist_loaded (E : env) (p : packet) (allow feed : list string) : Prop :=
  (env_set E "ip saddr" BlocklistAllowSet = true <-> Exists (admits (pk_saddr p)) allow)
  /\ (env_set E "ip saddr" BlocklistFeedSet = true <-> Exists (admits (pk_saddr p)) feed).

(** The blocklist drops a packet exactly when it arrives on the public
    interface, is TCP, its source is in the loaded feed and in none of the
    operator's exceptions; no rule of it looks at a packet from anywhere else. *)
Theorem blocklist_drops_exactly spec t c E p feed :
  blocklist_table spec = Some t -> c ∈ tb_chains t -> ip4_ok (pk_saddr p) ->
  blocklist_loaded E p (mergeCIDRs (EgressNetworks (bs_Exceptions spec))) feed ->
  (chain_outcome E p (ch_lines c) = Some VDrop <->
     pk_iif p = nftSafe (TrimSpace (bs_PublicIface spec)) /\ env_text E "meta l4proto tcp" = true
     /\ Exists (admits (pk_saddr p)) feed /\ ~ Exists (admits (pk_saddr p)) (bs_Exceptions spec))
  /\ (pk_iif p <> nftSafe (TrimSpace (bs_PublicIface spec)) -> chain_outcome E p (ch_lines c) = Some VAccept).
Proof.
  unfold blocklist_table. destruct (_ || _); [done |]. intros [= <-] Hc%list_elem_of_singleton Hip [Ha Hf].
  subst c. cbn [ch_lines].
  rewrite <- (mergeCIDRs_admits_egress (bs_Exceptions spec)) by done.
  set (allow := mergeCIDRs _) in *. set (iface := TrimSpace _). clearbody allow iface. rewrite <- Ha, <- Hf.
  assert (Hno : allow = [] -> env_set E "ip saddr" BlocklistAllowSet = false).
  { intros ->. destruct (env_set _ _ _); [| done]. by destruct (proj1 (Exists_nil _) (proj1 Ha eq_refl)). }
  unfold raw_chain. cbn [app chain_outcome rule_outcome atom_match atom_verdict].
  destruct (String.eqb_spec (pk_iif p) (nftSafe iface)) as [Ei|Ei]; cbn [xorb]; [| naive_solver].
  split; [| done].
  destruct (env_set E "ip saddr" BlocklistAllowSet) eqn:Ea, (env_text E "meta l4proto tcp") eqn:Et,
    (env_set E "ip saddr" BlocklistFeedSet) eqn:Ef;
  (destruct allow as [|x allow]; [try (specialize (Hno eq_refl); discriminate Hno) |]);
  cbn [app chain_outcome rule_outcome atom_match atom_verdict xorb]; rewrite ?Ea, ?Et, ?Ef;
  cbn [xorb]; rewrite ?Ef; cbn [xorb]; naive_solver.
Qed.

(** ** What the floor and the ceiling admit *)

Lemma parse_digits_octet n : 0 <= n < 1000 -> parse_digits 0 (octet n) = Some n.
Proof.
  intros Hn. pose proof (ParseUint_FormatUint n ltac:(go_lia)) as H. unfold ParseUint in H.
  fold (octet n) in H. by destruct (octet n).
Qed.

Lemma after_slash_app a b acc : 47 ∉ b -> after_slash acc (a ++ 47 :: b) = b.
Proof.
  intros Hb. revert acc. induction a as [|x a IH]; intros acc; cbn [app after_slash].
  - change (47 =? 47) with true. cbn. clear acc.
    assert (H : forall acc, after_slash acc b = acc); [| apply H].
    induction b as [|y b IH]; intros acc; [done |]. cbn [after_slash].
    destruct (Z.eqb_spec y 47) as [->|]; [set_solver |]. apply IH. set_solver.
  - destruct (x =? 47); apply IH.
Qed.

Lemma prefix_len_block n ones : ip4_ok n -> 0 <= ones <= 32 -> prefix_len (blk_text (cidr_block n ones)) = Some ones.
Proof.
  intros Hn Ho. unfold prefix_len. cbn [cidr_block blk_text]. rewrite string_bytes_cidr4 by done.
  unfold cidr4. cbn [app]. rewrite after_slash_app by (apply octet_not; [lia | done]).
  fold (octet ones). unfold Atoi.
  destruct (octet_cons ones ltac:(lia)) as (c & b & E & Hd). pose proof (parse_digits_octet ones ltac:(lia)) as Hp.
  rewrite E in Hp |- *. unfold is_digit in Hd. bool_to_prop.
  assert (Hs : match c :: b with 45 :: d => (true, d) | 43 :: d => (false, d) | _ => (false, c :: b) end = (false, c :: b)).
  { destruct c as [|q|q]; [done | | done]. do 6 (destruct q as [q|q|]; try done); lia. }
  rewrite Hs, Hp. destruct (Z.leb_spec MinInt64 ones), (Z.leb_spec ones MaxInt64); try go_lia. cbn [andb].
  destruct (Z.ltb_spec ones 0), (Z.ltb_spec 32 ones); (done || lia).
Qed.

Definition block_size (b : block) : Z := blk_end b - blk_start b + 1.

Lemma network_block_size n ones : ip4_ok n -> 0 <= ones <= 32 -> mask_ip ones n = n ->
  block_size (cidr_block n ones) = 2 ^ (32 - ones).
Proof. intros Hn Ho Hm. unfold block_size. destruct (block_end n ones Hn Ho Hm) as [_ ->]. cbn. lia. Qed.

(** Disjoint blocks fill at most the address space. *)
Definition total_size (bs : list block) : Z := foldr (fun b s => block_size b + s) 0 bs.

Lemma network_block_bounds b : network_block b -> 0 <= blk_start b <= blk_end b /\ blk_end b < 2 ^ 32.
Proof.
  intros (n & ones & -> & Hn & Ho & Hm). destruct (block_end n ones Hn Ho Hm) as [H1 H2].
  destruct (pow_split ones Ho) as (Hp & Hp1 & Hp2). rewrite H2. cbn [cidr_block blk_start].
  destruct Hn as [Hl Hb]. pose proof (get_be_range n Hb) as Hr. rewrite Hl in Hr.
  change (256 ^ Z.of_nat 4) with (2 ^ 32) in Hr. split; [lia |].
  apply Z.mod_divide in H1 as [q Hq]; [| lia]. rewrite Hq in *. rewrite Hp in *.
  assert (q < 2 ^ ones) by nia. nia.
Qed.

Lemma total_size_bound bs : StronglySorted blk_apart bs -> Forall network_block bs ->
  forall lo, 0 <= lo <= 2 ^ 32 -> Forall (fun b => lo <= blk_start b) bs -> 0 <= total_size bs <= 2 ^ 32 - lo.
Proof.
  induction 1 as [|b bs Hs IH Hap]; intros Hn lo Hlo Hge; [cbn; lia |].
  apply Forall_cons in Hn as [Hb Hn]. apply Forall_cons in Hge as [Hgb _].
  destruct (network_block_bounds b Hb) as [B1 B2]. cbn [total_size foldr]. fold (total_size bs).
  specialize (IH Hn (blk_end b + 1) ltac:(lia)). unfold block_size.
  assert (Forall (fun b' => blk_end b + 1 <= blk_start b') bs).
  { eapply Forall_impl; [exact Hap |]. unfold blk_apart. cbn. lia. }
  specialize (IH H). lia.
Qed.

Lemma check_elems_covered bs : Forall network_block bs -> forall acc,
  0 <= acc -> acc + total_size bs <= 2 ^ 32 ->
  match check_elems acc (blk_text <$> bs) with
  | Ok covered => covered = acc + total_size bs
      /\ Forall (fun b => forall n ones, b = cidr_block n ones -> ip4_ok n -> 0 <= ones <= 32 -> 8 <= ones) bs
  | Err (ErrShortPrefix c) => c ∈ blk_text <$> bs
  | Err (ErrBlocklistCoverage _) => False
  end.
Proof.
  induction 1 as [|b bs Hb Hbs IH]; intros acc Ha Ht; cbn [fmap list_fmap check_elems].
  { split; [cbn; lia | constructor]. }
  destruct (network_block_bounds b Hb) as [B1 B2].
  destruct Hb as (n & ones & -> & Hn & Ho & Hm). rewrite (prefix_len_block n ones Hn Ho).
  unfold BlocklistMinPrefix. destruct (Z.ltb_spec ones 8) as [H8|H8]; [by left |].
  pose proof (network_block_size n ones Hn Ho Hm) as Hsz.
  assert (Hpos : 0 < 2 ^ (32 - ones)) by (apply Z.pow_pos_nonneg; lia).
  assert (Hts : 0 <= total_size bs).
  { clear -Hbs. induction Hbs as [|b bs Hb _ IH]; [cbn; lia |]. destruct (network_block_bounds b Hb).
    cbn [total_size foldr]. fold (total_size bs). unfold block_size. lia. }
  cbn [total_size foldr] in Ht. fold (total_size bs) in Ht. rewrite Hsz in Ht.
  rewrite Z.shiftl_mul_pow2, Z.mul_1_l by lia. change (2 ^ 32) with 4294967296 in Ht.
  rewrite (u64_id (2 ^ (32 - ones))) by go_lia. rewrite u64_id by go_lia.
  specialize (IH (acc + 2 ^ (32 - ones)) ltac:(lia)). change (2 ^ 32) with 4294967296 in IH. specialize (IH ltac:(lia)).
  unfold fmap in IH. destruct (check_elems _ _) as [covered|[c|]] eqn:E.
  - destruct IH as [-> Hf]. split; [cbn [total_size foldr]; fold (total_size bs); lia |].
    constructor; [| done]. intros n' ones' Heq Hn' Ho'.
    assert (Some ones = Some ones') as [= ->]; [| lia].
    rewrite <- (prefix_len_block n ones Hn Ho), <- (prefix_len_block n' ones' Hn' Ho'). by rewrite Heq.
  - by right.
  - done.
Qed.

#[export] Instance in_block_dec x b : Decision (in_block x b).
Proof. unfold in_block. apply _. Defined.

(** Distinct addresses of some blocks are no more than the blocks hold. *)
Lemma addresses_bounded bs : Forall network_block bs -> forall xs,
  NoDup xs -> Forall (fun x => Exists (in_block x) bs) xs -> Z.of_nat (length xs) <= total_size bs.
Proof.
  induction 1 as [|b bs Hb Hbs IH]; intros xs Hnd Hxs.
  { destruct xs as [|x xs]; [done |]. apply Forall_cons in Hxs as [Hx _]. by apply Exists_nil in Hx. }
  cbn [total_size foldr]. fold (total_size bs).
  rewrite <- (filter_app_complement (fun x => in_block x b) xs), length_app, Nat2Z.inj_add.
  destruct (network_block_bounds b Hb) as [B1 B2].
  assert (H1 : Z.of_nat (length (filter (fun x => in_block x b) xs)) <= block_size b).
  { assert (Hsub : filter (fun x => in_block x b) xs ⊆+ seqZ (blk_start b) (block_size b)).
    { apply NoDup_submseteq; [by apply NoDup_filter |]. intros x [Hx _]%list_elem_of_filter.
      apply elem_of_seqZ. unfold in_block, block_size in *. lia. }
    apply submseteq_length in Hsub. rewrite length_seqZ in Hsub. unfold block_size in *. lia. }
  specialize (IH (filter (fun x => ~ in_block x b) xs)).
  assert (H2 : Z.of_nat (length (filter (fun x => ~ in_block x b) xs)) <= total_size bs); [| lia].
  apply IH; [by apply NoDup_filter |]. apply Forall_forall. intros x [Hno Hx]%list_elem_of_filter.
  rewrite Forall_forall in Hxs. specialize (Hxs x Hx). apply Exists_cons in Hxs as [?|Hin]; [done | exact Hin].
Qed.

Lemma keeps_entry_ok c : keeps_entry c = true ->
  exists b, parse_block c = Some b /\ forall ip, ip4_ok ip -> in_block (get_be ip) b ->
    ~ Exists (admits ip) nonInternetDestinations.
Proof.
  unfold keeps_entry. destruct (parse_block c) as [b|]; [| done]. intros Hk%negb_true_iff. exists b. split; [done |].
  intros ip Hip Hin (d & Hd & (bb & Hbb & Hin')%admits_parse)%Exists_exists; [| done].
  assert (Hov : existsb (overlaps b) bad_blocks = true); [| congruence].
  apply existsb_exists. exists bb. split.
  - apply list_elem_of_In. unfold bad_blocks. apply list_elem_of_omap. by exists d.
  - unfold overlaps, in_block in *. apply andb_true_iff. rewrite !Z.leb_le. lia.
Qed.

(** Every address is some four bytes. *)
Lemma address_of x : 0 <= x < 2 ^ 32 -> exists ip, ip4_ok ip /\ get_be ip = x.
Proof.
  intros Hx. exists (put_be 4 x). split; [split; [apply length_put_be | apply put_be_bytes] |].
  rewrite get_be_put. apply Z.mod_small. exact Hx.
Qed.

Lemma entry_kept c b : parse_block c = Some b ->
  (forall ip, ip4_ok ip -> admits ip c -> ~ Exists (admits ip) nonInternetDestinations) -> keeps_entry c = true.
Proof.
  intros Hb Hclear. unfold keeps_entry. rewrite Hb. apply negb_true_iff.
  destruct (existsb (overlaps b) bad_blocks) eqn:E; [| done]. exfalso.
  apply existsb_exists in E as (bb & Hbb%list_elem_of_In & Hov). unfold bad_blocks in Hbb.
  apply list_elem_of_omap in Hbb as (d & Hd & Hdb).
  destruct (network_block_bounds b (parse_block_ok c b Hb)) as [B1 B2].
  destruct (network_block_bounds bb (parse_block_ok d bb Hdb)) as [B3 B4].
  unfold overlaps in Hov. bool_to_prop.
  destruct (address_of (Z.max (blk_start b) (blk_start bb)) ltac:(lia)) as (ip & Hip & Hv).
  apply (Hclear ip Hip).
  - apply admits_parse; [done |]. exists b. split; [done |]. unfold in_block. lia.
  - apply Exists_exists. exists d. split; [done |]. apply admits_parse; [done |]. exists bb.
    split; [done |]. unfold in_block. lia.
Qed.

Lemma elements_blocks networks : exists bs,
  blocklistElements networks = blk_text <$> bs /\ StronglySorted blk_apart bs /\ Forall network_block bs
  /\ 0 <= total_size bs <= 2 ^ 32.
Proof.
  unfold blocklistElements, mergeCIDRs. set (l := omap parse_block _).
  assert (Hn : Forall network_block l).
  { apply Forall_forall. intros b (c & _ & Hc)%list_elem_of_omap. by apply parse_block_ok in Hc. }
  destruct (merged_blocks_ok l Hn) as (_ & Hs & Hb). eexists. split; [reflexivity |].
  split; [done |]. split; [done |].
  pose proof (total_size_bound _ Hs Hb 0 ltac:(lia)) as Ht. rewrite Z.sub_0_r in Ht. apply Ht.
  eapply Forall_impl; [exact Hb |]. intros b [? _]%network_block_bounds. lia.
Qed.

(** Whatever a feed says, what may be loaded of it is bounded.  The
    elements [CheckBlocklist] accepts hold at most 2^27 addresses between them
    and no network shorter than /8; none of them is private, carrier-grade NAT
    or otherwise reserved, all are the feed's; and an entry that keeps clear of
    the reserved ranges is loaded in full. *)
Theorem CheckBlocklist_bounds networks elems : CheckBlocklist networks = Ok elems ->
  (forall ips, NoDup ips -> Forall (fun ip => ip4_ok ip /\ Exists (admits ip) elems) ips ->
     Z.of_nat (length ips) <= 134217728)
  /\ (forall c n ones, c ∈ elems -> network4 (string_bytes (TrimSpace c)) = Some (n, ones) -> 8 <= ones)
  /\ (forall ip, ip4_ok ip -> Exists (admits ip) elems ->
        Exists (admits ip) networks /\ ~ Exists (admits ip) nonInternetDestinations)
  /\ (forall ip c, ip4_ok ip -> c ∈ networks -> admits ip c ->
        (forall ip', ip4_ok ip' -> admits ip' c -> ~ Exists (admits ip') nonInternetDestinations) ->
        Exists (admits ip) elems).
Proof.
  unfold CheckBlocklist. destruct (elements_blocks networks) as (bs & Hel & Hs & Hb & Ht).
  pose proof (check_elems_covered bs Hb 0 ltac:(lia) ltac:(lia)) as Hck. rewrite <- Hel in Hck.
  destruct (check_elems 0 _) as [covered|]; [| done]. destruct Hck as [-> H8].
  destruct (Z.ltb_spec BlocklistMaxCoverage (0 + total_size bs)) as [|Hmax]; [done |]. intros [= <-].
  assert (Hadm : forall ip, ip4_ok ip -> Exists (admits ip) (blocklistElements networks) <->
    exists c, c ∈ networks /\ admits ip c /\ keeps_entry (NetworkLiteral c) = true).
  { intros ip Hip. unfold blocklistElements. rewrite mergeCIDRs_admits by done.
    unfold dropNonInternet, EgressNetworks. rewrite Exists_exists. split.
    - intros (x & (Hk & (Hne & (c & -> & Hc)%list_elem_of_fmap)%list_elem_of_filter)%list_elem_of_filter & Ha).
      exists c. split; [done |]. split; [| done]. revert Ha. rewrite !admits_parse by done.
      by rewrite parse_block_literal.
    - intros (c & Hc & Ha & Hk). exists (NetworkLiteral c).
      assert (Hne : NetworkLiteral c <> ""%string).
      { intros E. rewrite E in Hk. discriminate Hk. }
      split; [| revert Ha; rewrite !admits_parse by done; by rewrite parse_block_literal].
      apply list_elem_of_filter. split; [done |]. apply list_elem_of_filter. split; [done |].
      apply list_elem_of_fmap. by exists c. }
  split_and!.
  - intros ips Hnd Hips. rewrite <- (length_fmap get_be ips).
    transitivity (total_size bs); [| unfold BlocklistMaxCoverage in Hmax; lia].
    apply addresses_bounded; [done | |].
    + rewrite Forall_forall in Hips. apply NoDup_fmap_2_strong; [| done].
      intros a b Ha Hb' E. destruct (Hips a Ha) as [? _], (Hips b Hb') as [? _]. by apply get_be_inj4.
    + rewrite Forall_fmap. eapply Forall_impl; [exact Hips |]. cbn. intros ip [Hip Hex].
      rewrite Hel, Exists_fmap in Hex. apply Exists_exists in Hex as (b & Hbin & (b' & Hp & Hin)%admits_parse); [| done].
      apply Exists_exists. exists b. split; [done |]. rewrite Forall_forall in Hb.
      rewrite (read_text b (Hb b Hbin)) in Hp. by injection Hp as ->.
  - intros c n ones Hc Hn4. rewrite Hel in Hc. apply list_elem_of_fmap in Hc as (b & -> & Hbin).
    rewrite Forall_forall in Hb, H8. pose proof (read_text b (Hb b Hbin)) as Hr. unfold parse_block in Hr.
    rewrite Hn4 in Hr. injection Hr as Hr. apply network4_ok in Hn4 as (? & ? & ?). by eapply (H8 b Hbin).
  - intros ip Hip (c & Hc & Ha & Hk)%Hadm; [| done]. split; [apply Exists_exists; by exists c |].
    destruct (keeps_entry_ok _ Hk) as (b & Hpb & Hclear). apply (Hclear ip Hip).
    assert (Hne : NetworkLiteral c <> ""%string) by (intros E; rewrite E in Hk; discriminate Hk).
    rewrite parse_block_literal in Hpb by done. apply admits_parse in Ha as (b' & Hb' & Hin); [| done]. congruence.
  - intros ip c Hip Hc Ha Hclear. apply Hadm; [done |]. exists c. split_and!; [done.. |].
    pose proof Ha as (b & Hpb & _)%admits_parse; [| done].
    assert (Hne : NetworkLiteral c <> ""%string) by (intros E%literal_none; congruence).
    apply (entry_kept _ b); [by rewrite parse_block_literal |].
    intros ip' Hip' Ha'. apply (Hclear ip' Hip'). revert Ha'. rewrite !admits_parse by done. by rewrite parse_block_literal.
Qed.

Example CheckBlocklist_ex :
  CheckBlocklist ["1.2.3.0/24"; "10.0.0.0/8"; "100.64.0.0/9"; "224.0.0.0/4"; "1.2.3.128/25"; "5.6.7.8/32"]
  = Ok ["1.2.3.0/24"; "5.6.7.8/32"]%string
  /\ CheckBlocklist ["1.0.0.0/8"; "32.0.0.0/3"] = Err (ErrShortPrefix "32.0.0.0/3")
  /\ CheckBlocklist ["1.0.0.0/8"; "2.0.0.0/7"; "4.0.0.0/8"] = Err (ErrShortPrefix "2.0.0.0/7")
  /\ CheckBlocklist ((fun i => Itoa i ++ ".0.0.0/8")%string <$> seqZ 11 9) = Err (ErrBlocklistCoverage 150994944).
Proof. repeat split; vm_compute; reflexivity. Qed.

(** ** The refresher over time *)

Section life.
Variable blURL : string.

(** What can happen to the feature: a pass of the refresher, a settings save,
    a revert, a readback, somebody else deleting the table, the process being
    replaced by a new one that starts from the store and the disk. *)
Inductive happening :=
| OpPass (now : Time) (retry_ok : bool) (a : attempt)
| OpSave (cfg : BlocklistConfig) (iface : string) (armed : bool) (o : apply_outcome)
| OpRevert (removed : bool)
| OpSample (readable : bool) (drops : Z)
| OpFlushed
| OpRestart (o : apply_outcome).

Definition restart_feed (o : apply_outcome) (h : host) : host :=
  let h := loadBlocklistCache blURL
    (mkHost emptyFeed (h_cfg h) (h_iface h) (h_reverted h) (h_armed h) (h_kernel h) (h_disk h) (h_events h)) in
  if h_reverted h then h else applyBlocklist o h.

Definition do_op (o : happening) (h : host) : host :=
  match o with
  | OpPass now retry_ok a => maybeRefreshBlocklist blURL now retry_ok a h
  | OpSave cfg iface armed o => save_settings cfg iface armed o h
  | OpRevert removed => revert_table removed h
  | OpSample readable drops =>
      sampleBlocklistCounter
        (if readable then match h_kernel h with Some _ => Found drops | None => Missing end else Unreadable) h
  | OpFlushed => set_kernel None h
  | OpRestart o => restart_feed o h
  end.
Definition do_ops (ops : list happening) (h : host) : host := fold_left (fun h o => do_op o h) ops h.

Definition renders (h : host) : bool :=
  negb (String.eqb (BuildBlocklistRuleset
    (mkBlocklistSpec (blc_Enabled (h_cfg h)) (h_iface h) (blc_Exceptions (h_cfg h)))) "").

(** In force: armed, not reverted, and with a table to install. *)
Definition in_force (h : host) : Prop := h_armed h = true /\ h_reverted h = false /\ renders h = true.





Lemma render_empty elems : RenderBlocklistElements elems = ""%string <-> elems = [].
Proof. by destruct elems. Qed.

Ltac feed_cbn :=
  cbn [h_feed h_cfg h_iface h_reverted h_armed h_kernel h_disk h_events upd_feed set_kernel set_disk emit
       set_mode with_list with_fetch with_failure with_rules forgetBlocklistTable forgetBlocklistLoadFailure
       record_error bl_Networks bl_Elems bl_Count bl_Updated bl_Etag bl_LastTry bl_LastErr bl_Refused
       bl_LoadFailed bl_LoadErr bl_On bl_Applied bl_Counter kt_Ruleset kt_Feed] in *.

(** Loading the elements, case by case: nothing to do, done, or refused. *)
Lemma load_cases now ok h :
  let h' := loadBlocklistElements now ok h in let f := h_feed h in
  ((bl_On f = false \/ h_armed h = false \/ bl_Elems f = [] \/ bl_Networks f = [])
     /\ h' = upd_feed forgetBlocklistLoadFailure h)
  \/ (bl_On f = true /\ h_armed h = true
      /\ ((exists k, h_kernel h = Some k /\ ok = true
             /\ h' = upd_feed forgetBlocklistLoadFailure
                       (set_kernel (Some (mkKernel (kt_Ruleset k) (RenderBlocklistElements (bl_Elems f)))) h))
          \/ (h_kernel h = None \/ ok = false)
             /\ h' = upd_feed (with_failure now true) (emit EvLoadFailed h))).
Proof.
  unfold loadBlocklistElements. cbn zeta. destruct (bl_On (h_feed h)) eqn:Eo; [| left; by auto].
  destruct (h_armed h) eqn:Ea; [| left; by auto]. cbn [negb orb].
  case_bool_decide as En; [left; by auto |].
  destruct (String.eqb_spec (RenderBlocklistElements (bl_Elems (h_feed h))) "") as [Er|Er].
  { left. apply render_empty in Er. by auto. }
  right. split; [done |]. split; [done |]. unfold load_elements. rewrite Ea. cbn [negb].
  destruct (h_kernel h) as [k|]; [destruct ok; [left; by exists k | right; by auto] | right; by auto].
Qed.










(** A load the kernel refused is made good.  On the first pass a quarter of
    an hour after it, once [nft] takes it again, the set holds the list and the
    mark is gone, even when the feed has nothing new to say. *)
Theorem load_retried now a h k :
  blc_Enabled (h_cfg h) = true -> in_force h -> h_kernel h = Some k -> bl_On (h_feed h) = true ->
  bl_Networks (h_feed h) <> [] -> bl_Elems (h_feed h) <> [] ->
  bl_LoadFailed (h_feed h) <> zeroTime -> Add (bl_LoadFailed (h_feed h)) blocklistRetryEvery <= now ->
  fetchBlocklist (tr_Resp a) = Ok NotModified ->
  let h' := maybeRefreshBlocklist blURL now true a h in
  h_kernel h' = Some (mkKernel (kt_Ruleset k) (RenderBlocklistElements (bl_Elems (h_feed h))))
  /\ bl_LoadFailed (h_feed h') = zeroTime /\ bl_Elems (h_feed h') = bl_Elems (h_feed h).
Proof.
  intros Hen (Ha & Hrev & _) Hk Hon Hne Hel Hf Hdue H304. unfold maybeRefreshBlocklist. rewrite Hen, Hrev. cbn [negb orb].
  assert (Hld : load_due now (h_feed h) = true).
  { unfold load_due, IsZero, Before. apply Z.eqb_neq in Hf. unfold zeroTime in Hf. rewrite Hf.
    cbn. apply negb_true_iff, Z.ltb_ge. exact Hdue. }
  rewrite Hld. unfold installBlocklistElements.
  destruct (load_cases now true h) as [[Hc _]|(_ & _ & [(k' & Hek & _ & ->)|[[Hc|Hc] _]])]; [| | congruence | done].
  { destruct Hc as [?|[?|[?|?]]]; congruence. }
  rewrite Hk in Hek. injection Hek as <-.
  destruct (Before _ _); [feed_cbn; done |]. unfold refreshBlocklist. rewrite H304.
  unfold saveBlocklistCache. destruct (tr_Written a); feed_cbn; done.
Qed.

Lemma load_keeps now ok h :
  let h' := loadBlocklistElements now ok h in
  bl_Networks (h_feed h') = bl_Networks (h_feed h) /\ bl_Elems (h_feed h') = bl_Elems (h_feed h)
  /\ h_disk h' = h_disk h /\ (kt_Ruleset <$> h_kernel h') = (kt_Ruleset <$> h_kernel h).
Proof.
  destruct (load_cases now ok h) as [[Hc ->]|(Eo & Ea & [(k & Hek & _ & ->)|[Hc ->]])]; feed_cbn; try done.
  by rewrite Hek.
Qed.

Lemma parse_line_entry n raw net : parse_line n raw = Ok (Some net) -> is_entry raw = true.
Proof. unfold parse_line, is_entry. destruct (_ || _); done. Qed.

Lemma parse_lines_length lines : forall n out nets,
  Z.of_nat (length out) <= blocklistMaxNetworks -> parse_lines n out lines = Ok nets ->
  Z.of_nat (length nets) <= blocklistMaxNetworks.
Proof.
  induction lines as [|raw lines IH]; intros n out nets Hl; cbn [parse_lines].
  { destruct out as [|x out]; [done |]. intros [= <-]. by rewrite length_app, length_rev, Nat.add_1_r. }
  destruct (is_entry raw) eqn:Ei, (Z.leb_spec blocklistMaxNetworks (Z.of_nat (length out))); cbn [andb]; try done;
    destruct (parse_line n raw) as [[net|]|e] eqn:El; try done; try apply IH; try done.
  - cbn [length]. lia.
  - apply parse_line_entry in El. congruence.
  - apply parse_line_entry in El. congruence.
Qed.

Lemma fetched_length resp nets etag : fetchBlocklist resp = Ok (Fetched nets etag) -> Z.of_nat (length nets) <= 200000.
Proof.
  unfold fetchBlocklist. destruct resp as [r|]; [| done]. destruct (_ =? _); [done |]. destruct (negb _); [done |].
  destruct (rs_Body r) as [body|]; [| done]. destruct (_ <? _); [done |].
  unfold parseBlocklistBody. destruct (parse_lines _ _ _) as [l|] eqn:E; [| done]. intros [= <- _].
  by apply (parse_lines_length (split_lines [] body) 1 []).
Qed.

(** The last good list stays until a better one comes.  A pass keeps the
    engine's list as it is, or replaces it with one the feed returned whole,
    that [CheckBlocklist] accepted and that has at least half its entries; the
    copy on disk is the old one or the list now held; and the table itself is
    not touched. *)
Theorem refresh_keeps_last_good now ok a h :
  Z.of_nat (length (bl_Networks (h_feed h))) < 2 ^ 53 ->
  let h' := maybeRefreshBlocklist blURL now ok a h in
  (bl_Networks (h_feed h') = bl_Networks (h_feed h) /\ bl_Elems (h_feed h') = bl_Elems (h_feed h)
   \/ exists etag, fetchBlocklist (tr_Resp a) = Ok (Fetched (bl_Networks (h_feed h')) etag)
        /\ CheckBlocklist (bl_Networks (h_feed h')) = Ok (bl_Elems (h_feed h'))
        /\ (length (bl_Networks (h_feed h)) <= 2 * length (bl_Networks (h_feed h')))%nat)
  /\ (h_disk h' = h_disk h \/ exists c, h_disk h' = Some c /\ ca_Networks c = bl_Networks (h_feed h'))
  /\ (kt_Ruleset <$> h_kernel h') = (kt_Ruleset <$> h_kernel h).
Proof.
  intros Hlen. unfold maybeRefreshBlocklist.
  destruct (_ || _); [split; [by left | split; [by left | done]] |].
  set (h1 := if load_due now (h_feed h) then _ else h).
  assert (H1 : bl_Networks (h_feed h1) = bl_Networks (h_feed h) /\ bl_Elems (h_feed h1) = bl_Elems (h_feed h)
            /\ h_disk h1 = h_disk h /\ (kt_Ruleset <$> h_kernel h1) = (kt_Ruleset <$> h_kernel h)).
  { subst h1. destruct (load_due _ _); [apply load_keeps | done]. }
  destruct H1 as (E1 & E2 & E3 & E4). rewrite <- E1, <- E2, <- E3, <- E4. rewrite <- E1 in Hlen. generalize (feed_due h).
  clearbody h1. clear h E1 E2 E3 E4. intros due. destruct (Before _ _); [split; [by left | split; [by left | done]] |].
  unfold refreshBlocklist. destruct (fetchBlocklist (tr_Resp a)) as [[|nets etag]|e] eqn:Ef.
  - unfold saveBlocklistCache. destruct (tr_Written a); feed_cbn; (split; [by left |]; split; [| done]); [right; by eexists | by left].
  - pose proof (fetched_length _ _ _ Ef) as Hn.
    destruct (shrunk _ _) eqn:Es.
    { unfold refuseBlocklist. destruct (negb _); feed_cbn; (split; [by left |]; split; [by left | done]). }
    unfold rememberBlocklist. destruct (CheckBlocklist nets) as [elems|[c|c]] eqn:Ec.
    + assert (Hhalf : (length (bl_Networks (h_feed h1)) <= 2 * length nets)%nat).
      { revert Es. unfold shrunk, blocklistShrinkFloor. destruct (Z.ltb_spec 0 (Z.of_nat (length (bl_Networks (h_feed h1)))));
          [| lia]. cbn [andb]. change (2 ^ 53) with 9007199254740992 in Hlen.
        rewrite half_lt by (change (2 ^ 53) with 9007199254740992; lia). intros Hs%Z.ltb_ge. lia. }
      set (h2 := saveBlocklistCache _ _ _).
      assert (H2 : bl_Networks (h_feed h2) = nets /\ bl_Elems (h_feed h2) = elems
            /\ (h_disk h2 = h_disk h1 \/ exists c, h_disk h2 = Some c /\ ca_Networks c = nets)
            /\ h_kernel h2 = h_kernel h1).
      { subst h2. unfold saveBlocklistCache. destruct (tr_Written a); feed_cbn;
          (split_and!; [done | done | | done]); [right; by eexists | by left]. }
      destruct H2 as (F1 & F2 & F3 & F4). unfold installBlocklistElements.
      destruct (load_keeps (tr_Now a) (tr_Nft a) h2) as (G1 & G2 & G3 & G4).
      rewrite G1, G2, G3, G4, F1, F2, F4. split; [right; by exists etag | by split].
    + feed_cbn. split; [by left |]. split; [by left | done].
    + unfold refuseBlocklist. destruct (negb _); feed_cbn; (split; [by left |]; split; [by left | done]).
  - feed_cbn. split; [by left |]. split; [by left | done].
Qed.

(** The refusal outlives its streak: a 304, the feed confirming the list this
    host holds, clears the error but not the mark, so the next refusal, of a
    different list, is neither said out loud nor retried sooner. *)
Theorem refused_outlives_304 a h :
  fetchBlocklist (tr_Resp a) = Ok NotModified -> bl_Refused (h_feed h) = true ->
  let h1 := refreshBlocklist blURL a h in
  bl_LastErr (h_feed h1) = None /\ bl_Refused (h_feed h1) = true
  /\ forall now e, h_events (refuseBlocklist now e h1) = h_events h.
Proof.
  intros Hf Hr h1. subst h1. unfold refreshBlocklist. rewrite Hf. unfold saveBlocklistCache, refuseBlocklist.
  destruct (tr_Written a); feed_cbn; rewrite Hr; done.
Qed.
End life.

(** ** At work *)

Definition sample_cfg : BlocklistConfig := mkBlocklistConfig true 4 ["203.0.113.9/32"%string].
Definition feed_host : host :=
  mkHost emptyFeed sample_cfg "eth0" false true None None [].
Definition sample_body : bytes :=
  string_bytes ("# level1" ++ NL ++ "192.0.2.0/24" ++ NL ++ " 198.51.100.7" ++ NL ++ "10.0.0.0/8" ++ NL)%string.
Definition sample_try (t : Time) (nft : bool) : attempt :=
  mkTry (Some (mkResponse 200 (Some sample_body) "v1")) t true nft.
Definition unchanged_try (t : Time) : attempt := mkTry (Some (mkResponse 304 None "")) t true true.
Definition good_apply : apply_outcome := mkApply true true true Hour.

Example parseBlocklistBody_ex :
  parseBlocklistBody sample_body = Ok ["192.0.2.0/24"; "198.51.100.7/32"; "10.0.0.0/8"]%string
  /\ parseBlocklistBody (string_bytes ("192.0.2.0/24" ++ NL ++ "<html>")) = Err (ErrLine 2 "<html>")
  /\ parseBlocklistBody (string_bytes "; nothing") = Err ErrEmpty.
Proof. repeat split; vm_compute; reflexivity. Qed.

(** First fetch, a load the kernel refuses, and the pass that makes it good. *)
Definition after_refusal : host :=
  do_ops "feed" [OpPass (2 * Hour) true (sample_try (2 * Hour) false)] (restart_feed "feed" good_apply feed_host).


(** A revert whose removal is refused, a save whose table is refused, a fetch,
    and a readback that finds the old table: the feature is in force, the engine
    reports the new list and the set holds the old one, with no load to retry;
    a pass an hour later, with the feed unchanged, leaves it so. *)
Definition newer_try (t : Time) : attempt :=
  mkTry (Some (mkResponse 200 (Some (string_bytes ("192.0.2.0/24" ++ NL ++ "203.0.113.64/26"))) "v2")) t true true.
Definition refusals : list happening :=
  [OpPass (2 * Hour) true (sample_try (2 * Hour) true); OpRevert false;
   OpSave sample_cfg "eth0" true (mkApply true false true (3 * Hour));
   OpPass (9 * Hour) true (newer_try (9 * Hour)); OpSample true 0; OpPass (14 * Hour) true (unchanged_try (14 * Hour))].
Theorem refused_rearm_falls_behind :
  let h := do_ops "feed" refusals (restart_feed "feed" good_apply feed_host) in
  in_force h /\ bl_On (h_feed h) = true /\ bl_Elems (h_feed h) = ["192.0.2.0/24"; "203.0.113.64/26"]%string
  /\ kt_Feed <$> h_kernel h = Some (RenderBlocklistElements ["192.0.2.0/24"; "198.51.100.7/32"]%string)
  /\ bl_LoadFailed (h_feed h) = zeroTime.
Proof. unfold in_force. split_and!; vm_compute; reflexivity. Qed.

Lemma load_retried_witness :
  let h' := maybeRefreshBlocklist "feed" (3 * Hour) true (unchanged_try (3 * Hour)) after_refusal in
  kt_Feed <$> h_kernel after_refusal = Some ""%string
  /\ bl_LoadFailed (h_feed h') = zeroTime
  /\ kt_Feed <$> h_kernel h' = Some (RenderBlocklistElements ["192.0.2.0/24"; "198.51.100.7/32"]%string).
Proof.
  set (ruleset := BuildBlocklistRuleset (mkBlocklistSpec true "eth0" ["203.0.113.9/32"%string])).
  assert (Hk : h_kernel after_refusal = Some (mkKernel ruleset "")) by (vm_compute; reflexivity).
  split; [rewrite Hk; reflexivity |].
  destruct (load_retried "feed" (3 * Hour) (unchanged_try (3 * Hour)) after_refusal (mkKernel ruleset ""))
    as (K & F & _).
  - reflexivity.
  - split_and!; vm_compute; reflexivity.
  - exact Hk.
  - vm_compute. reflexivity.
  - vm_compute. discriminate.
  - vm_compute. discriminate.
  - vm_compute. discriminate.
  - vm_compute. discriminate.
  - reflexivity.
  - split; [exact F |]. rewrite K. vm_compute. reflexivity.
Defined.

Lemma refresh_keeps_last_good_witness :
  let h' := maybeRefreshBlocklist "feed" (9 * Hour) true
    (mkTry (Some (mkResponse 200 (Some (string_bytes "192.0.2.0/24")) "v2")) (9 * Hour) true true) after_refusal in
  bl_Networks (h_feed h') = bl_Networks (h_feed after_refusal)
  \/ (length (bl_Networks (h_feed after_refusal)) <= 2 * length (bl_Networks (h_feed h')))%nat.
Proof.
  destruct (refresh_keeps_last_good "feed" (9 * Hour) true
    (mkTry (Some (mkResponse 200 (Some (string_bytes "192.0.2.0/24")) "v2")) (9 * Hour) true true) after_refusal)
    as [[[H _]|(etag & _ & _ & H)] _]; [vm_compute; reflexivity | by left | by right].
Defined.

Lemma CheckBlocklist_bounds_witness :
  CheckBlocklist ["192.0.2.0/24"; "100.64.0.0/9"]%string = Ok ["192.0.2.0/24"%string]
  /\ ~ Exists (admits [100; 64; 0; 1]) ["192.0.2.0/24"%string].
Proof.
  assert (E : CheckBlocklist ["192.0.2.0/24"; "100.64.0.0/9"]%string = Ok ["192.0.2.0/24"%string])
    by (vm_compute; reflexivity).
  split; [exact E |]. intros Hex.
  destruct (CheckBlocklist_bounds _ _ E) as (_ & _ & H & _).
  destruct (H [100; 64; 0; 1]) as [_ Hno]; [split; [reflexivity | repeat constructor; unfold is_byte; cbn; lia] | exact Hex |].
  apply Hno. right; right; left. exists [100; 64; 0; 0], 10. split; vm_compute; reflexivity.
Defined.

Definition sample_spec : BlocklistSpec := mkBlocklistSpec true "eth0" ["203.0.113.9/32"%string].
Definition feed_env : env :=
  mkEnv (fun _ => true) (fun _ x => String.eqb x "feed") (fun _ => false) (fun _ => true).
Lemma blocklist_drops_exactly_witness :
  exists t c, blocklist_table sample_spec = Some t /\ c ∈ tb_chains t
    /\ chain_outcome feed_env (mkPacket "eth0" "" [192; 0; 2; 77] "203.0.113.1" "tcp" 443 []) (ch_lines c) = Some VDrop.
Proof.
  destruct (blocklist_table sample_spec) as [t|] eqn:E; [| vm_compute in E; discriminate E].
  assert (Hc : exists c, c ∈ tb_chains t) by (vm_compute in E; injection E as <-; eexists; left).
  destruct Hc as [c Hc]. exists t, c. split; [reflexivity |]. split; [exact Hc |].
  assert (Hip : ip4_ok [192; 0; 2; 77]) by (split; [reflexivity | repeat constructor; unfold is_byte; cbn; lia]).
  apply (blocklist_drops_exactly sample_spec t c feed_env
    (mkPacket "eth0" "" [192; 0; 2; 77] "203.0.113.1" "tcp" 443 []) ["192.0.2.0/24"%string] E Hc Hip).
  - split.
    + split; [intros H; vm_compute in H; discriminate H |]. intros H. exfalso.
      pose proof (proj1 (mergeCIDRs_admits_egress (bs_Exceptions sample_spec) [192; 0; 2; 77] Hip) H) as H'.
      apply Exists_cons in H' as [(n & ones & Hn & Hin)|H'%Exists_nil]; [| done].
      vm_compute in Hn. injection Hn as <- <-. vm_compute in Hin. discriminate Hin.
    + split; [intros _ | intros _; vm_compute; reflexivity].
      constructor. exists [192; 0; 2; 0], 24. split; vm_compute; reflexivity.
  - split_and!; [vm_compute; reflexivity | reflexivity | |].
    + constructor. exists [192; 0; 2; 0], 24. split; vm_compute; reflexivity.
    + intros [(n & ones & Hn & Hin)|H%Exists_nil]%Exists_cons; [| done].
      vm_compute in Hn. injection Hn as <- <-. vm_compute in Hin. discriminate Hin.
Defined.
