(* ===== verification/Store.v ===== *)
(** * The store ([internal/store/store.go])

    The SQLite database behind the frontend, as the tables its schema declares
    and the statements the package runs on them.  Every statement can fail
    (a full disk, a locked file): a run carries the list of outcomes the
    database engine will give, one per statement, [true] being a failure, and
    none when the list is exhausted.  A transaction works on a copy and takes
    effect at its commit. *)

From S2P Require Import Prelude GoTime Float64 Model Bytes Sha256.

(** ** Rows *)

(** An argument of a message format. *)
Inductive arg :=
| AInt (z : Z) | AStr (s : string) | ABytes (b : Z) | AFloat (f : float64)
| ADuration (d : Duration) | ATime (t : Time) | AHealth (h : Health) | AList (l : list string).

(** A formatted message: the format string of the source and its arguments. *)
Record message := mkMessage { msg_format : string; msg_args : list arg }.

Record Event := mkEvent {
  ev_ID : Z; ev_TS : Z; ev_Kind : string; ev_PathID : Z; ev_Message : message }.

Definition EventSwitch := "switch".
Definition EventPathDown := "path_down".
Definition EventPathUp := "path_up".
Definition EventQuota := "quota".
Definition EventGrant := "grant".
Definition EventHeld := "held".
Definition EventQuarantine := "quarantine".
Definition EventConfig := "config".
Definition EventSystem := "system".

Record Grant := mkGrant {
  grant_PathID : Z; grant_Until : Z; grant_ExtraBytes : Z; grant_StartBytes : Z }.

Record UsageSample := mkUsageSample { us_ts : Z; us_path : Z; us_bytes : Z; us_packets : Z }.
Record PathSample := mkPathSample {
  sm_PathID : Z; sm_RTT : float64; sm_Loss : float64; sm_Jitter : float64; sm_Health : Health }.

Record UsageEntry := mkUsageEntry {
  ue_PeriodStart : Time; ue_At : Time; ue_Bytes : Z; ue_Packets : Z }.

Record DB := mkDB {
  db_config : option Config;
  db_users : gmap string (string * string);
  db_sessions : gmap string (string * Z);
  db_ledger : gmap (Z * Z) (Z * Z);
  db_usage_samples : list UsageSample;
  db_path_samples : list (Z * PathSample);
  db_events : list Event;
  db_event_seq : Z;   (* the AUTOINCREMENT counter *)
  db_grants : gmap Z Grant;
  db_meta : gmap string string }.

Definition emptyDB : DB := mkDB None ∅ ∅ ∅ [] [] [] 0 ∅ ∅.

Definition set_config c d := mkDB c (db_users d) (db_sessions d) (db_ledger d)
  (db_usage_samples d) (db_path_samples d) (db_events d) (db_event_seq d) (db_grants d) (db_meta d).
Definition set_users u d := mkDB (db_config d) u (db_sessions d) (db_ledger d)
  (db_usage_samples d) (db_path_samples d) (db_events d) (db_event_seq d) (db_grants d) (db_meta d).
Definition set_sessions s d := mkDB (db_config d) (db_users d) s (db_ledger d)
  (db_usage_samples d) (db_path_samples d) (db_events d) (db_event_seq d) (db_grants d) (db_meta d).
Definition set_ledger l d := mkDB (db_config d) (db_users d) (db_sessions d) l
  (db_usage_samples d) (db_path_samples d) (db_events d) (db_event_seq d) (db_grants d) (db_meta d).
Definition set_usage_samples l d := mkDB (db_config d) (db_users d) (db_sessions d) (db_ledger d)
  l (db_path_samples d) (db_events d) (db_event_seq d) (db_grants d) (db_meta d).
Definition set_path_samples l d := mkDB (db_config d) (db_users d) (db_sessions d) (db_ledger d)
  (db_usage_samples d) l (db_events d) (db_event_seq d) (db_grants d) (db_meta d).
Definition set_events l d := mkDB (db_config d) (db_users d) (db_sessions d) (db_ledger d)
  (db_usage_samples d) (db_path_samples d) l (db_event_seq d) (db_grants d) (db_meta d).
Definition set_grants g d := mkDB (db_config d) (db_users d) (db_sessions d) (db_ledger d)
  (db_usage_samples d) (db_path_samples d) (db_events d) (db_event_seq d) g (db_meta d).
Definition set_meta m d := mkDB (db_config d) (db_users d) (db_sessions d) (db_ledger d)
  (db_usage_samples d) (db_path_samples d) (db_events d) (db_event_seq d) (db_grants d) m.

(** ** Statements *)

Inductive StoreErr := ErrNotFound | ErrDB.

(** The database and the failures still to come. *)
Record Store := mkStore { st_db : DB; st_faults : list bool }.

Definition SM (A : Type) : Type := Store -> result StoreErr A * Store.

Definition sret {A} (a : A) : SM A := fun s => (Ok a, s).
Definition sfail {A} (e : StoreErr) : SM A := fun s => (Err e, s).
Definition sbind {A B} (m : SM A) (k : A -> SM B) : SM B := fun s =>
  match m s with (Ok a, s) => k a s | (Err e, s) => (Err e, s) end.

(** The outcome of the next call into the database engine. *)
Definition call : SM unit := fun s =>
  match st_faults s with
  | [] => (Ok tt, s)
  | f :: fs => (if f then Err ErrDB else Ok tt, mkStore (st_db s) fs)
  end.

Definition exec (f : DB -> DB) : SM unit :=
  sbind call (fun _ s => (Ok tt, mkStore (f (st_db s)) (st_faults s))).
Definition query {A} (f : DB -> A) : SM A :=
  sbind call (fun _ s => (Ok (f (st_db s)), s)).

(** [Begin], the statements, [Commit]; anything that fails rolls back. *)
Definition transaction (body : SM unit) : SM unit := fun s =>
  match sbind call (fun _ => sbind body (fun _ => call)) s with
  | (Ok _, s') => (Ok tt, s')
  | (Err e, s') => (Err e, mkStore (st_db s) (st_faults s'))
  end.

Notation "'do!' x ':=' m 'in' k" := (sbind m (fun x => k))
  (at level 10, x pattern, m at level 100, k at level 200) : go_scope.
Notation "'run!' m 'in' k" := (sbind m (fun _ => k))
  (at level 10, m at level 100, k at level 200) : go_scope.

(** ** Configuration *)

Definition HasConfig : SM bool := query (fun d => bool_decide (is_Some (db_config d))).
Definition SaveConfig (cfg : Config) : SM unit := exec (set_config (Some cfg)).
Definition LoadConfig : SM Config :=
  do! row := query db_config in
  match row with
  | None => run! SaveConfig Defaults in sret Defaults
  | Some cfg => sret (Normalise cfg)
  end.

(** ** Usage *)

Definition MaxLedgerValue : Z := Z.shiftl 1 60.

Definition clampLedger (v : Z) : Z :=
  if v <? 0 then 0 else if MaxLedgerValue <? v then MaxLedgerValue else v.

(** The ledger upsert. *)
Definition ledger_add (path start b pk : Z) (d : DB) : DB :=
  set_ledger (<[(path, start) :=
    match db_ledger d !! (path, start) with
    | None => (b, pk)
    | Some (b0, pk0) => (Z.max (Z.min (b0 + b) MaxLedgerValue) 0,
                         Z.max (Z.min (pk0 + pk) MaxLedgerValue) 0)
    end]> (db_ledger d)) d.

Definition add_entry (path : Z) (e : UsageEntry) : SM unit :=
  let b := clampLedger (ue_Bytes e) in
  let pk := clampLedger (ue_Packets e) in
  run! exec (ledger_add path (Unix (ue_PeriodStart e)) b pk) in
  exec (fun d => set_usage_samples
          (db_usage_samples d ++ [mkUsageSample (Unix (ue_At e)) path b pk]) d).

Fixpoint add_entries (path : Z) (es : list UsageEntry) : SM unit :=
  match es with
  | [] => sret tt
  | e :: es => run! add_entry path e in add_entries path es
  end.

Definition SetMeta (key value : string) : SM unit :=
  exec (fun d => set_meta (<[key := value]> (db_meta d)) d).

Definition MetaChecked (key : string) : SM string :=
  query (fun d => default "" (db_meta d !! key)).
Definition Meta (key : string) : Store -> string * Store := fun s =>
  match MetaChecked key s with (Ok v, s) => (v, s) | (Err _, s) => ("", s) end.

Definition AddUsageBatch (path : Z) (entries : list UsageEntry) (metaKey metaValue : string) : SM unit :=
  match entries with
  | [] => if String.eqb metaKey "" then sret tt else SetMeta metaKey metaValue
  | _ =>
      transaction (
        run! call in      (* prepare the ledger upsert *)
        run! call in      (* prepare the sample insert *)
        run! add_entries path entries in
        if String.eqb metaKey "" then sret tt else SetMeta metaKey metaValue)
  end.

Definition AddUsage (path : Z) (periodStart : Time) (b pk : Z) (at_ : Time)
    (metaKey metaValue : string) : SM unit :=
  AddUsageBatch path [mkUsageEntry periodStart at_ b pk] metaKey metaValue.

Definition Usage (path : Z) (periodStart : Time) : SM Z :=
  query (fun d => match db_ledger d !! (path, Unix periodStart) with
                  | Some (b, _) => b | None => 0 end).
Definition UsagePackets (path : Z) (periodStart : Time) : SM Z :=
  query (fun d => match db_ledger d !! (path, Unix periodStart) with
                  | Some (_, pk) => pk | None => 0 end).

(** ** Samples and events *)

Fixpoint add_path_samples (ts : Z) (ps : list PathSample) : SM unit :=
  match ps with
  | [] => sret tt
  | p :: ps =>
      run! exec (fun d => set_path_samples (db_path_samples d ++ [(ts, p)]) d) in
      add_path_samples ts ps
  end.

Definition AddPathSamples (at_ : Time) (samples : list PathSample) : SM unit :=
  match samples with
  | [] => sret tt
  | _ => transaction (run! call in add_path_samples (Unix at_) samples)
  end.

(** The row's id is one past every id ever used. *)
Definition append_event (ts : Z) (kind : string) (path : Z) (m : message) (d : DB) : DB :=
  let id := db_event_seq d + 1 in
  mkDB (db_config d) (db_users d) (db_sessions d) (db_ledger d) (db_usage_samples d)
    (db_path_samples d) (db_events d ++ [mkEvent id ts kind path m]) id (db_grants d) (db_meta d).

Definition AddEvent (now : Time) (kind : string) (path : Z) (m : message) : SM unit :=
  exec (append_event (Unix now) kind path m).

(** [LIMIT] with a negative count is no limit. *)
Definition Events (limit : Z) : SM (list Event) :=
  query (fun d => let l := reverse (db_events d) in
                  if limit <? 0 then l else take (Z.to_nat limit) l).

(** ** Grants *)

Definition SetGrant (g : Grant) : SM unit :=
  exec (fun d => set_grants (<[grant_PathID g := g]> (db_grants d)) d).
Definition ClearGrant (path : Z) : SM unit :=
  exec (fun d => set_grants (delete path (db_grants d)) d).
Definition Grants : SM (gmap Z Grant) := query db_grants.

(** ** Users and sessions *)

Definition pbkdf2Iterations : nat := Z.to_nat 600000.

(** The first block of PBKDF2 with HMAC-SHA-256, the only one 32 bytes need. *)
Fixpoint pbkdf2_fold (n : nat) (password u acc : bytes) : bytes :=
  match n with
  | O => acc
  | S n => let u := hmac_sha256 password u in
           pbkdf2_fold n password u (zip_with Z.lxor acc u)
  end.
Definition pbkdf2_block (iterations : nat) (password salt : bytes) : bytes :=
  let u := hmac_sha256 password (salt ++ put_be 4 1) in
  pbkdf2_fold (iterations - 1) password u u.
Definition derive (password : string) (salt : bytes) : bytes :=
  pbkdf2_block pbkdf2Iterations (string_bytes password) salt.

Definition hex_string (b : bytes) : string := bytes_string (hexEncode b).
Definition unhex_string (s : string) : option bytes := hexDecode (string_bytes s).

(** [CreateUser], given the salt the random source produced. *)
Definition CreateUser (username password : string) (salt : bytes) : SM unit :=
  exec (fun d => set_users
    (<[username := (hex_string salt, hex_string (derive password salt))]> (db_users d)) d).

Definition HasUsers : SM bool := query (fun d => negb (bool_decide (db_users d = ∅))).

Definition credentials (username : string) : Store -> option (bytes * bytes) * Store := fun s =>
  match query (fun d => db_users d !! username) s with
  | (Ok (Some (saltHex, hashHex)), s) =>
      (match unhex_string saltHex, unhex_string hashHex with
       | Some salt, Some hash => Some (salt, hash)
       | _, _ => None
       end, s)
  | (_, s) => (None, s)
  end.

Definition CheckPassword (username password : string) : Store -> bool * Store := fun s =>
  let '(cred, s) := credentials username s in
  let '(salt, want) := default (string_bytes "no-such-account-", []) cred in
  let got := derive password salt in
  (bool_decide (is_Some cred) && bytes_eqb got want, s).

(** [NewSession], given the 32 random bytes; [Session] and its deletions. *)
Definition NewSession (username : string) (ttl : Duration) (now : Time) (b : bytes) : SM string :=
  let token := hex_string b in
  run! call in
  fun s =>
    match db_sessions (st_db s) !! token with
    | Some _ => (Err ErrDB, s)      (* the token is the primary key *)
    | None => (Ok token, mkStore (set_sessions
        (<[token := (username, Unix (Add now ttl))]> (db_sessions (st_db s))) (st_db s)) (st_faults s))
    end.

Definition DeleteSession (token : string) : SM unit :=
  exec (fun d => set_sessions (delete token (db_sessions d)) d).
Definition DeleteSessionsFor (username : string) : SM unit :=
  exec (fun d => set_sessions (filter (fun kv => kv.2.1 <> username) (db_sessions d)) d).

Definition Session (token : string) (now : Time) : SM string := fun s =>
  match query (fun d => db_sessions d !! token) s with
  | (Err e, s) => (Err e, s)
  | (Ok None, s) => (Err ErrNotFound, s)
  | (Ok (Some (username, expires)), s) =>
      if expires <? Unix now then (Err ErrNotFound, (DeleteSession token s).2)
      else (Ok username, s)
  end.

(** ** Pruning *)

Definition Prune (local : Location) (now : Time) : SM unit :=
  run! exec (fun d => set_path_samples
    (filter (fun r => Unix (AddDate local now 0 0 (-30)) <= r.1) (db_path_samples d)) d) in
  run! exec (fun d => set_usage_samples
    (filter (fun r => Unix (AddDate local now 0 (-13) 0) <= us_ts r) (db_usage_samples d)) d) in
  run! exec (fun d => set_events
    (filter (fun e => Unix (AddDate local now 0 0 (-90)) <= ev_TS e) (db_events d)) d) in
  exec (fun d => set_sessions (filter (fun kv => Unix now <= kv.2.2) (db_sessions d)) d).

(** ** What the statements do *)

Lemma call_db s : st_db (call s).2 = st_db s.
Proof. unfold call. by destruct (st_faults s). Qed.

Lemma call_ok s : st_faults s = [] -> call s = (Ok tt, s).
Proof. unfold call. by intros ->. Qed.

Lemma sbind_ok {A B} (m : SM A) (k : A -> SM B) s a s' :
  m s = (Ok a, s') -> sbind m k s = k a s'.
Proof. unfold sbind. by intros ->. Qed.

(** A statement either fails and does nothing or takes effect. *)
Lemma exec_cases f s :
  (exists e, (exec f s).1 = Err e /\ st_db (exec f s).2 = st_db s)
  \/ (exec f s).1 = Ok tt /\ st_db (exec f s).2 = f (st_db s).
Proof.
  unfold exec, sbind, call. destruct (st_faults s) as [|[] fs]; simpl; [by right | | by right].
  left. by eexists.
Qed.

Lemma exec_ok f s : st_faults s = [] -> exec f s = (Ok tt, mkStore (f (st_db s)) []).
Proof. intros H. unfold exec. rewrite (sbind_ok _ _ s tt s); [by rewrite H | by apply call_ok]. Qed.

(** A sequence of statements whose combined effect, when none fails, is [f]. *)
Definition does (m : SM unit) (f : DB -> DB) : Prop :=
  forall s, ((m s).1 = Ok tt -> st_db (m s).2 = f (st_db s))
    /\ (st_faults s = [] -> m s = (Ok tt, mkStore (f (st_db s)) [])).

Lemma does_exec f : does (exec f) f.
Proof.
  intros s. split; [| apply exec_ok]. destruct (exec_cases f s) as [(e & -> & _)|[_ ->]]; done.
Qed.

Lemma does_ret : does (sret tt) (fun d => d).
Proof. intros s. split; [done |]. destruct s as [d fs]. simpl. by intros ->. Qed.

Lemma does_call : does call (fun d => d).
Proof.
  intros s. split; [intros _; apply call_db |]. intros H. rewrite call_ok by done.
  destruct s as [d fs]. simpl in *. by subst.
Qed.

Lemma does_bind m f k g : does m f -> does k g -> does (sbind m (fun _ => k)) (fun d => g (f d)).
Proof.
  intros Hm Hk s. unfold sbind. destruct (Hm s) as [H1 H2]. split.
  - destruct (m s) as [[[]|e] s1]; simpl in *; [| done].
    intros H. by rewrite (proj1 (Hk s1) H), H1.
  - intros H. rewrite (H2 H). simpl. by rewrite (proj2 (Hk (mkStore (f (st_db s)) []))).
Qed.

(** A transaction is all or nothing. *)
Lemma transaction_atomic m f : does m f -> forall s,
  ((exists e, (transaction m s).1 = Err e /\ st_db (transaction m s).2 = st_db s)
   \/ (transaction m s).1 = Ok tt /\ st_db (transaction m s).2 = f (st_db s))
  /\ (st_faults s = [] -> (transaction m s).1 = Ok tt).
Proof.
  intros Hm s.
  assert (H : does (sbind call (fun _ => sbind m (fun _ => call))) f).
  { apply (does_bind call (fun d => d)); [apply does_call |].
    apply (does_bind m f call (fun d => d)); [done | apply does_call]. }
  destruct (H s) as [H1 H2]. unfold transaction.
  destruct (sbind call _ s) as [[[]|e] s']; simpl in *; split.
  - right. split; [done |]. by apply H1.
  - done.
  - left. by exists e.
  - intros Hf. by specialize (H2 Hf).
Qed.

(** A statement or transaction that does all of [f] or nothing, and does it when
    the engine does not fail. *)
Definition atomic (m : SM unit) (f : DB -> DB) : Prop :=
  forall s, ((exists e, (m s).1 = Err e /\ st_db (m s).2 = st_db s)
             \/ (m s).1 = Ok tt /\ st_db (m s).2 = f (st_db s))
    /\ (st_faults s = [] -> m s = (Ok tt, mkStore (f (st_db s)) [])).

Lemma atomic_exec f : atomic (exec f) f.
Proof. intros s. split; [apply exec_cases | apply exec_ok]. Qed.

Lemma atomic_transaction m f : does m f -> atomic (transaction m) f.
Proof.
  intros Hm s. split; [by apply transaction_atomic |]. intros Hf.
  assert (H : does (sbind call (fun _ => sbind m (fun _ => call))) f).
  { apply (does_bind call (fun d => d)); [apply does_call |].
    apply (does_bind m f call (fun d => d)); [done | apply does_call]. }
  unfold transaction. by rewrite (proj2 (H s) Hf).
Qed.

(** ** The ledger *)

Definition add_entry_db (path : Z) (d : DB) (e : UsageEntry) : DB :=
  let b := clampLedger (ue_Bytes e) in
  let pk := clampLedger (ue_Packets e) in
  let d := ledger_add path (Unix (ue_PeriodStart e)) b pk d in
  set_usage_samples (db_usage_samples d ++ [mkUsageSample (Unix (ue_At e)) path b pk]) d.

Lemma does_add_entries path es :
  does (add_entries path es) (fun d => fold_left (add_entry_db path) es d).
Proof.
  induction es as [|e es IH]; [apply does_ret |].
  apply (does_bind (add_entry path e) (fun d => add_entry_db path d e)); [| done].
  exact (does_bind _ _ _ _ (does_exec (ledger_add path (Unix (ue_PeriodStart e)) _ _)) (does_exec _)).
Qed.

(** What the ledger holds for a path and a period: bytes and packets. *)
Definition ledger_at (d : DB) (key : Z * Z) : Z * Z := default (0, 0) (db_ledger d !! key).

Definition ledger_ok (d : DB) : Prop :=
  map_Forall (fun _ r => 0 <= r.1 <= MaxLedgerValue /\ 0 <= r.2 <= MaxLedgerValue) (db_ledger d).

Lemma clampLedger_range v : 0 <= clampLedger v <= MaxLedgerValue.
Proof.
  unfold clampLedger. change MaxLedgerValue with 1152921504606846976.
  repeat split_if; bool_to_prop; lia.
Qed.

Lemma ledger_at_ok d key : ledger_ok d ->
  0 <= (ledger_at d key).1 <= MaxLedgerValue /\ 0 <= (ledger_at d key).2 <= MaxLedgerValue.
Proof.
  intros H. unfold ledger_at. destruct (db_ledger d !! key) eqn:E; simpl.
  - by apply (H key).
  - change MaxLedgerValue with 1152921504606846976. lia.
Qed.

Lemma ledger_add_at path start b pk d key :
  ledger_ok d -> 0 <= b <= MaxLedgerValue -> 0 <= pk <= MaxLedgerValue ->
  ledger_ok (ledger_add path start b pk d)
  /\ ledger_at (ledger_add path start b pk d) key
     = if decide (key = (path, start))
       then (Z.min ((ledger_at d key).1 + b) MaxLedgerValue,
             Z.min ((ledger_at d key).2 + pk) MaxLedgerValue)
       else ledger_at d key.
Proof.
  intros Hd Hb Hpk. pose proof (ledger_at_ok d (path, start) Hd) as Hr.
  unfold ledger_at, ledger_add in *. simpl.
  destruct (db_ledger d !! (path, start)) as [[b0 pk0]|] eqn:E; simpl in *.
  - split; [apply map_Forall_insert_2; [simpl; lia | done] |].
    case_decide as Hk; subst; rewrite ?lookup_insert_eq, ?lookup_insert_ne by done; [| done].
    rewrite E. simpl. f_equal; lia.
  - split; [by apply map_Forall_insert_2 |].
    case_decide as Hk; subst; rewrite ?lookup_insert_eq, ?lookup_insert_ne by done; [| done].
    rewrite E. simpl. f_equal; lia.
Qed.

(** What a batch adds to one period. *)
Definition batch_sum (f : UsageEntry -> Z) (start : Z) (es : list UsageEntry) : Z :=
  foldr (fun e acc => (if Unix (ue_PeriodStart e) =? start then clampLedger (f e) else 0) + acc) 0 es.

Lemma batch_sum_nonneg f start es : 0 <= batch_sum f start es.
Proof.
  induction es as [|e es IH]; simpl; [done |].
  pose proof (clampLedger_range (f e)). split_if; lia.
Qed.

Lemma add_entries_at path es : forall d key,
  ledger_ok d ->
  let d' := fold_left (add_entry_db path) es d in
  ledger_ok d'
  /\ ledger_at d' key =
     (if key.1 =? path
      then (Z.min ((ledger_at d key).1 + batch_sum ue_Bytes key.2 es) MaxLedgerValue,
            Z.min ((ledger_at d key).2 + batch_sum ue_Packets key.2 es) MaxLedgerValue)
      else ledger_at d key).
Proof.
  induction es as [|e es IH]; intros d key Hd; simpl.
  { split; [done |]. pose proof (ledger_at_ok d key Hd). rewrite !Z.add_0_r.
    rewrite !Z.min_l by lia. destruct (ledger_at d key). by split_if. }
  set (b := clampLedger (ue_Bytes e)). set (pk := clampLedger (ue_Packets e)).
  destruct (ledger_add_at path (Unix (ue_PeriodStart e)) b pk d key Hd) as [H1 H2];
    [apply clampLedger_range | apply clampLedger_range |].
  destruct (IH (add_entry_db path d e) key H1) as [H3 H4]. split; [done |].
  rewrite H4. unfold add_entry_db. fold b pk.
  change (ledger_at (set_usage_samples _ ?x) key) with (ledger_at x key). rewrite H2.
  pose proof (batch_sum_nonneg ue_Bytes key.2 es). pose proof (batch_sum_nonneg ue_Packets key.2 es).
  destruct key as [p start]. simpl in *.
  destruct (Z.eqb_spec p path) as [->|Hp]; [| by rewrite decide_False by congruence].
  destruct (Z.eqb_spec (Unix (ue_PeriodStart e)) start) as [->|Hs].
  - rewrite decide_True by done. simpl. f_equal; lia.
  - rewrite decide_False by congruence. done.
Qed.

Lemma add_entries_frame path es : forall d,
  let d' := fold_left (add_entry_db path) es d in
  db_meta d' = db_meta d /\ db_grants d' = db_grants d /\ db_events d' = db_events d
  /\ db_usage_samples d' = db_usage_samples d ++
       ((fun e => mkUsageSample (Unix (ue_At e)) path (clampLedger (ue_Bytes e))
                    (clampLedger (ue_Packets e))) <$> es).
Proof.
  induction es as [|e es IH]; intros d; simpl; [by rewrite app_nil_r |].
  destruct (IH (add_entry_db path d e)) as (H1 & H2 & H3 & H4). split_and!; try done.
  rewrite H4. simpl. by rewrite <- app_assoc.
Qed.

(** What a whole batch does to the database. *)
Definition batch_db (path : Z) (es : list UsageEntry) (key value : string) (d : DB) : DB :=
  let d := fold_left (add_entry_db path) es d in
  set_meta (<[key := value]> (db_meta d)) d.

Lemma AddUsageBatch_is path es key value :
  key <> "" -> atomic (AddUsageBatch path es key value) (batch_db path es key value).
Proof.
  intros Hkey. unfold AddUsageBatch.
  destruct (String.eqb_spec key "") as [|_]; [done |].
  destruct es as [|e es]; [apply atomic_exec |].
  apply atomic_transaction.
  apply (does_bind call (fun d => d)); [apply does_call |].
  apply (does_bind call (fun d => d)); [apply does_call |].
  apply (does_bind (add_entries path (e :: es)) _ _ (fun d => set_meta (<[key := value]> (db_meta d)) d)
           (does_add_entries path (e :: es))).
  apply does_exec.
Qed.

(** [C27] A usage batch is billed exactly once or not at all.  Whatever
    statement the database fails, either nothing of the batch is in the store,
    or all of it is: every period's figure has grown by the sum of the
    batch's entries for it, saturating at the ledger's ceiling, no other path
    has changed, each entry left its sample, and the watermark was written in
    the same transaction.  The ledger's bounds survive, and a store that does
    not fail accepts the batch. *)
Theorem AddUsageBatch_atomic path es key value s :
  ledger_ok (st_db s) -> es <> [] -> key <> "" ->
  let d := st_db s in
  let r := AddUsageBatch path es key value s in
  let d' := st_db r.2 in
  ((exists e, r.1 = Err e /\ d' = d)
   \/ r.1 = Ok tt
      /\ (forall p start, ledger_at d' (p, start) =
            if p =? path
            then (Z.min ((ledger_at d (p, start)).1 + batch_sum ue_Bytes start es) MaxLedgerValue,
                  Z.min ((ledger_at d (p, start)).2 + batch_sum ue_Packets start es) MaxLedgerValue)
            else ledger_at d (p, start))
      /\ db_meta d' = <[key := value]> (db_meta d)
      /\ length (db_usage_samples d') = (length (db_usage_samples d) + length es)%nat)
  /\ ledger_ok d' /\ (st_faults s = [] -> r.1 = Ok tt).
Proof.
  intros Hd Hne Hkey d r d'.
  destruct (AddUsageBatch_is path es key value Hkey s) as [Hat Hok].
  fold r d in Hat, Hok.
  destruct (add_entries_frame path es d) as (F1 & _ & _ & F4).
  split; [| split; [| intros Hf; by rewrite (Hok Hf)]].
  - destruct Hat as [Hat | [Hr1 Hd']]; [by left |]. right. split; [done |].
    subst d'. rewrite Hd'. split_and!.
    + intros p start. apply (add_entries_at path es d (p, start) Hd).
    + simpl. by rewrite F1.
    + simpl. rewrite F4, length_app, length_fmap. done.
  - subst d'. destruct Hat as [(e & _ & ->) | [_ ->]]; [done |].
    apply (add_entries_at path es d (0, 0) Hd).
Qed.

Lemma AddUsageBatch_atomic_witness :
  let es := [mkUsageEntry (UnixTime 1000) (UnixTime 5000) 700 3;
             mkUsageEntry (UnixTime 1000) (UnixTime 5005) (-4) 2] in
  (AddUsageBatch 2 es "usage_seq:2" "9" (mkStore emptyDB [])).1 = Ok tt
  /\ ledger_ok (st_db (AddUsageBatch 2 es "usage_seq:2" "9" (mkStore emptyDB [false; false; true])).2).
Proof.
  split.
  - apply (AddUsageBatch_atomic 2 _ "usage_seq:2" "9" (mkStore emptyDB []));
      [apply map_Forall_empty | discriminate | discriminate | reflexivity].
  - apply (AddUsageBatch_atomic 2 _ "usage_seq:2" "9" (mkStore emptyDB [false; false; true]));
      [apply map_Forall_empty | discriminate | discriminate].
Defined.

(** ** Passwords and sessions *)

#[global] Opaque pbkdf2Iterations.

Lemma lxor_byte a b : is_byte a -> is_byte b -> is_byte (Z.lxor a b).
Proof.
  unfold is_byte. intros Ha Hb. split; [apply Z.lxor_nonneg; lia |].
  destruct (Z.eq_dec (Z.lxor a b) 0) as [-> | Hne]; [lia |].
  assert (0 < Z.lxor a b).
  { assert (0 <= Z.lxor a b) by (apply Z.lxor_nonneg; lia). lia. }
  change 256 with (2 ^ 8). apply Z.log2_lt_pow2; [done |].
  eapply Z.le_lt_trans; [apply Z.log2_lxor; lia |].
  assert (Hl : forall c, 0 <= c < 256 -> Z.log2 c < 8).
  { intros c Hc. destruct (Z.eq_dec c 0) as [-> | Hc0]; [done |].
    apply Z.log2_lt_pow2; [lia | change (2 ^ 8) with 256; lia]. }
  apply Z.max_lub_lt; by apply Hl.
Qed.

Lemma zip_xor_bytes a : forall b, all_bytes a -> all_bytes b -> all_bytes (zip_with Z.lxor a b).
Proof.
  induction a as [|x a IH]; intros [|y b] Ha Hb; simpl; try constructor;
    inversion_clear Ha; inversion_clear Hb; [by apply lxor_byte | by apply IH].
Qed.

Lemma pbkdf2_fold_bytes n password : forall u acc,
  all_bytes acc -> all_bytes (pbkdf2_fold n password u acc).
Proof.
  induction n as [|n IH]; intros u acc Ha; simpl; [done |].
  apply IH, zip_xor_bytes; [done | apply hmac_bytes].
Qed.

Lemma pbkdf2_block_bytes n password salt : all_bytes (pbkdf2_block n password salt).
Proof. unfold pbkdf2_block. apply pbkdf2_fold_bytes, hmac_bytes. Qed.

Lemma derive_bytes password salt : all_bytes (derive password salt).
Proof. unfold derive. generalize pbkdf2Iterations. intros n. apply pbkdf2_block_bytes. Qed.
#[global] Opaque derive.

Lemma unhex_hex b : all_bytes b -> unhex_string (hex_string b) = Some b.
Proof.
  intros Hb. unfold unhex_string, hex_string.
  rewrite string_bytes_string; [by apply hexDecode_Encode |].
  eapply Forall_impl; [by apply hexEncode_hex | apply is_hex_byte].
Qed.

Lemma query_ok {A} (f : DB -> A) s : st_faults s = [] -> query f s = (Ok (f (st_db s)), s).
Proof. intros H. unfold query. by rewrite (sbind_ok _ _ s tt s) by by apply call_ok. Qed.

Lemma credentials_other user row other s :
  other <> user ->
  (credentials other (mkStore (set_users (<[user := row]> (db_users (st_db s))) (st_db s)) [])).1
  = (credentials other (mkStore (st_db s) [])).1.
Proof.
  intros Hne. unfold credentials. rewrite !query_ok by done. cbn [st_db set_users db_users].
  rewrite lookup_insert_ne by done. by repeat case_match.
Qed.

Lemma credentials_created user salt hash s :
  all_bytes salt -> all_bytes hash ->
  (credentials user (mkStore (set_users (<[user := (hex_string salt, hex_string hash)]>
     (db_users (st_db s))) (st_db s)) [])).1 = Some (salt, hash).
Proof.
  intros Hs Hh. unfold credentials. rewrite query_ok by done. cbn [st_db set_users db_users].
  by rewrite lookup_insert_eq, !unhex_hex.
Qed.

Lemma CheckPassword_credentials user offered s :
  (CheckPassword user offered s).1 =
  match (credentials user s).1 with
  | Some (salt, want) => bytes_eqb (derive offered salt) want
  | None => false
  end.
Proof. unfold CheckPassword. by destruct (credentials user s) as [[[? ?]|] ?]. Qed.

Lemma CreateUser_db user password salt s :
  st_faults s = [] ->
  (CreateUser user password salt s).2
  = mkStore (set_users (<[user := (hex_string salt, hex_string (derive password salt))]>
      (db_users (st_db s))) (st_db s)) [].
Proof. intros Hf. unfold CreateUser. rewrite exec_ok by exact Hf. reflexivity. Qed.

(** A password opens exactly the account it was set for.  After
    [CreateUser], the account's sign-in succeeds iff the password offered
    derives, under the stored salt, the key the chosen one does, so the chosen
    one always does; no other account's sign-in is affected, and an unknown
    account is refused whatever is offered. *)
Theorem CreateUser_CheckPassword user password salt offered s :
  all_bytes salt -> st_faults s = [] ->
  let s1 := (CreateUser user password salt s).2 in
  ((CheckPassword user offered s1).1 = true <-> derive offered salt = derive password salt)
  /\ (forall other, other <> user ->
        (CheckPassword other offered s1).1 = (CheckPassword other offered s).1)
  /\ (forall other, db_users (st_db s) !! other = None ->
        (CheckPassword other offered s).1 = false).
Proof.
  intros Hsalt Hf s1. subst s1. rewrite CreateUser_db by exact Hf.
  pose proof (derive_bytes password salt) as Hd.
  rewrite !CheckPassword_credentials. split_and!.
  - rewrite credentials_created by assumption. apply bytes_eqb_eq.
  - intros other Hne. rewrite !CheckPassword_credentials, credentials_other by exact Hne.
    destruct s as [d fs]. simpl in Hf. subst fs. reflexivity.
  - intros other Hnone. rewrite CheckPassword_credentials. unfold credentials.
    rewrite query_ok by exact Hf. by rewrite Hnone.
Qed.

Lemma CreateUser_CheckPassword_witness :
  let salt := [1; 2; 3; 250] in
  let s1 := (CreateUser "admin" "correct horse" salt (mkStore emptyDB [])).2 in
  (CheckPassword "admin" "battery staple" s1).1 = true
  <-> derive "battery staple" salt = derive "correct horse" salt.
Proof.
  apply (CreateUser_CheckPassword "admin" "correct horse" [1; 2; 3; 250] "battery staple"
    (mkStore emptyDB [])); [| reflexivity].
  repeat (constructor; [split; lia |]). constructor.
Defined.

(** A session lives exactly to its expiry: the token finds its user until
    then, is not found after, and is gone once it has been asked for late. *)
Lemma Session_lifetime user ttl now later b s :
  st_faults s = [] -> db_sessions (st_db s) !! hex_string b = None ->
  let s1 := (NewSession user ttl now b s).2 in
  (NewSession user ttl now b s).1 = Ok (hex_string b)
  /\ (Unix later <= Unix (Add now ttl) ->
      Session (hex_string b) later s1 = (Ok user, s1))
  /\ (Unix (Add now ttl) < Unix later ->
      (Session (hex_string b) later s1).1 = Err ErrNotFound
      /\ db_sessions (st_db (Session (hex_string b) later s1).2) !! hex_string b = None).
Proof.
  intros Hf Hnone s1. subst s1. unfold NewSession.
  rewrite (sbind_ok _ _ s tt s) by by apply call_ok. rewrite Hnone. cbn [fst snd].
  split; [done |]. unfold Session.
  split; intros Hl; rewrite query_ok by done; cbn [st_db set_sessions db_sessions];
    rewrite lookup_insert_eq.
  - destruct (Z.ltb_spec (Unix (Add now ttl)) (Unix later)); [lia | done].
  - destruct (Z.ltb_spec (Unix (Add now ttl)) (Unix later)); [| lia]. cbn [fst snd].
    split; [done |]. unfold DeleteSession. rewrite exec_ok by done. apply lookup_delete_eq.
Qed.
