(* ===== verification/Quota.v ===== *)
(** * Quotas ([internal/quota/quota.go])

    From raw interface counters to billed bytes ([Metered]), from an instant
    to its billing period ([PeriodBounds]), and from a path's usage to the
    decision whether it may carry traffic ([Evaluate]).  The zone database is
    not part of the repository: [LoadLocation] is a parameter wherever a zone
    name is resolved. *)

From S2P Require Import Prelude GoTime Float64 Model Store.

Definition MaxOverheadPerPacket : Z := 65535.
Definition MaxCalibration : float64 := f64_of_Z 1000.
Definition MinCalibration : float64 := f64_of_Z 10.

Definition saturatingMul (a b : Z) : Z :=
  if (a =? 0) || (b =? 0) then 0
  else
    let c := i64 (a * b) in
    if negb (i64 (Z.quot c b) =? a) || ((a =? MinInt64) && (b =? -1)) then
      if Bool.eqb (0 <? a) (0 <? b) then MaxInt64 else MinInt64
    else c.

Definition saturatingAdd (a b : Z) : Z :=
  if (0 <? b) && (i64 (MaxInt64 - b) <? a) then MaxInt64
  else if (b <? 0) && (a <? i64 (MinInt64 - b)) then MinInt64
  else i64 (a + b).

Definition Metered (b packets : Z) (q : Quota) : Z :=
  let overhead := quota_OverheadPerPacket q in
  let overhead := if overhead <? 0 then 0
                  else if MaxOverheadPerPacket <? overhead then MaxOverheadPerPacket
                  else overhead in
  let b := if b <? 0 then 0 else b in
  let packets := if packets <? 0 then 0 else packets in
  let cal := quota_Calibration q in
  let cal := if fis_nan cal || flt cal MinCalibration || fgt cal MaxCalibration
             then f64_of_Z 100 else cal in
  let total := saturatingAdd b (saturatingMul packets overhead) in
  let scaled := fdiv (fmul (f64_of_Z total) cal) (f64_of_Z 100) in
  if fge scaled (f64_of_Z 9223372036854775808) then MaxInt64 else f64_to_int64 scaled.

(** ** Billing periods *)

(** [daysIn]: day zero of the next month is the last of this one. *)
Definition daysIn (year month : Z) : Z := Day UTC (Date UTC year (month + 1) 0).

Definition boundary (day : Z) (loc : Location) (year month : Z) : Time :=
  let last := daysIn year month in
  Date loc year month (if last <? day then last else day).

Definition PeriodBoundsIn (day : Z) (loc : option Location) (now : Time) : Time * Time :=
  let loc := default UTC loc in
  let day := if day <? 1 then 1 else day in
  let day := if 31 <? day then 31 else day in
  let start := boundary day loc (Year loc now) (Month loc now) in
  let start :=
    if Before now start then
      let y := Year loc now in
      let m := Month loc now in
      if m =? 1 then boundary day loc (y - 1) 12 else boundary day loc y (m - 1)
    else start in
  let y := Year loc start in
  let m := Month loc start in
  let end_ := if m =? 12 then boundary day loc (y + 1) 1 else boundary day loc y (m + 1) in
  (start, end_).

Record Decision := mkDecision {
  dec_Blocked : bool; dec_Reason : option message; dec_Used : Z; dec_Limit : Z;
  dec_PeriodStart : Time; dec_PeriodEnd : Time; dec_GrantUntil : Time; dec_GrantBytes : Z;
  dec_OverQuota : bool }.

Section zones.
Context (LoadLocation : string -> option Location).

(** [Location]: the quota's zone, UTC when it has none that loads. *)
Definition Location_of (q : Quota) : option GoTime.Location :=
  if String.eqb (quota_Timezone q) "" then Some UTC
  else match LoadLocation (quota_Timezone q) with
       | Some loc => Some loc
       | None => Some UTC
       end.

Definition PeriodBounds (q : Quota) (now : Time) : Time * Time :=
  PeriodBoundsIn (quota_ResetDay q) (Location_of q) now.

Definition Evaluate (p : PathConfig) (used : Z) (grant : option Grant) (now : Time) : Decision :=
  let q := path_Quota p in
  let '(start, end_) := PeriodBounds q now in
  let limit := quota_LimitBytes q in
  if negb (path_Metered p) || (limit <=? 0) then
    mkDecision false None used limit start end_ zeroTime 0 false
  else
    let over := limit <=? used in
    let ceiling := quota_CeilingBytes q in
    if (0 <? ceiling) && (ceiling <=? used) then
      mkDecision true
        (Some (mkMessage "absolute ceiling reached (%s of %s)" [ABytes used; ABytes ceiling]))
        used limit start end_ zeroTime 0 over
    else if negb over then
      mkDecision false None used limit start end_ zeroTime 0 over
    else
      let refuse until gb :=
        mkDecision true
          (Some (mkMessage "over monthly quota (%s of %s), resets %s"
                   [ABytes used; ABytes limit; ATime end_]))
          used limit start end_ until gb over in
      match grant with
      | None => refuse zeroTime 0
      | Some g =>
          let until := UnixTime (grant_Until g) in
          let expired := negb (Before now until) in
          let exhausted := (0 <? grant_ExtraBytes g)
            && (i64 (grant_StartBytes g + grant_ExtraBytes g) <=? used) in
          if negb expired && negb exhausted then
            mkDecision false None used limit start end_ until (grant_ExtraBytes g) over
          else refuse until (grant_ExtraBytes g)
      end.
End zones.

(** ** Saturating arithmetic *)

Lemma quot_mul_i64 a b :
  in_i64 a -> in_i64 b -> a <> 0 -> b <> 0 -> ~ (a = MinInt64 /\ b = -1) ->
  i64 (Z.quot (i64 (a * b)) b) = a -> in_i64 (a * b).
Proof.
  intros Ha Hb Ha0 Hb0 Hm Hq.
  pose proof (i64_range (a * b)) as Hr. set (c := i64 (a * b)) in *.
  assert (Hc : exists k, c = a * b + k * 18446744073709551616).
  { subst c. unfold i64. exists (- ((a * b + 9223372036854775808) / 18446744073709551616)).
    pose proof (Z.div_mod (a * b + 9223372036854775808) 18446744073709551616). lia. }
  destruct Hc as [k Hk].
  destruct (Z.eq_dec k 0) as [-> | Hk0]; [rewrite Z.add_0_r in Hk; by rewrite <- Hk |].
  exfalso.
  pose proof (Z.quot_rem c b Hb0) as Hqr.
  pose proof (Z.rem_bound_abs c b Hb0) as Hrem.
  assert (Habs : Z.abs (Z.quot c b) <= Z.abs c).
  { rewrite <- Z.quot_abs by done. apply Z.quot_le_upper_bound; [lia |]. nia. }
  assert (Hcase : Z.quot c b = a \/ Z.quot c b = a + 18446744073709551616
                  \/ Z.quot c b = a - 18446744073709551616).
  { unfold i64 in Hq.
    pose proof (Z.div_mod (Z.quot c b + 9223372036854775808) 18446744073709551616).
    assert (-1 <= (Z.quot c b + 9223372036854775808) / 18446744073709551616 <= 1); [| lia].
    split; [apply Z.div_le_lower_bound | apply Z.div_le_upper_bound]; go_lia. }
  destruct Hcase as [Hcase | [Hcase | Hcase]]; [| go_lia | go_lia].
  rewrite Hcase in Hqr. assert (Z.abs (k * 18446744073709551616) < Z.abs b) by lia.
  go_lia.
Qed.

(** The mathematical result held to the [int64] range. *)
Definition clamp64 (z : Z) : Z := Z.max MinInt64 (Z.min MaxInt64 z).

Lemma clamp64_id z : in_i64 z -> clamp64 z = z.
Proof. unfold clamp64. go_lia. Qed.

Lemma saturatingAdd_clamp a b : in_i64 a -> in_i64 b -> saturatingAdd a b = clamp64 (a + b).
Proof.
  intros Ha Hb. unfold saturatingAdd.
  destruct (Z.ltb_spec 0 b); simpl.
  - rewrite (i64_id (MaxInt64 - b)) by go_lia. destruct (Z.ltb_spec (MaxInt64 - b) a).
    + unfold clamp64. go_lia.
    + destruct (Z.ltb_spec b 0); [lia |]. simpl.
      rewrite i64_id, clamp64_id; go_lia.
  - destruct (Z.ltb_spec b 0); simpl.
    + rewrite (i64_id (MinInt64 - b)) by go_lia. destruct (Z.ltb_spec a (MinInt64 - b)).
      * unfold clamp64. go_lia.
      * rewrite i64_id, clamp64_id; go_lia.
    + rewrite i64_id, clamp64_id; go_lia.
Qed.

Lemma saturatingMul_clamp a b : in_i64 a -> in_i64 b -> saturatingMul a b = clamp64 (a * b).
Proof.
  intros Ha Hb. unfold saturatingMul.
  destruct (Z.eqb_spec a 0) as [-> | Ha0]; [done |].
  destruct (Z.eqb_spec b 0) as [-> | Hb0]; [by rewrite Z.mul_0_r |]. simpl.
  assert (Hsign : a * b <= MaxInt64 /\ MinInt64 <= a * b \/ ~ in_i64 (a * b)) by go_lia.
  assert (Hover : ~ in_i64 (a * b) ->
    (if Bool.eqb (0 <? a) (0 <? b) then MaxInt64 else MinInt64) = clamp64 (a * b)).
  { intros Hn. unfold clamp64.
    destruct (Z.ltb_spec 0 a), (Z.ltb_spec 0 b); simpl;
      unfold in_i64, MaxInt64, MinInt64 in *; nia. }
  destruct (Z.eqb_spec (i64 (Z.quot (i64 (a * b)) b)) a) as [Hq|Hq]; simpl.
  - destruct (Z.eqb_spec a MinInt64) as [->|Hm]; [destruct (Z.eqb_spec b (-1)) as [->|Hb1] |];
      simpl; [done | |];
      (rewrite clamp64_id; [apply i64_id |]; apply quot_mul_i64; (done || tauto)).
  - apply Hover. intros Hin. rewrite (i64_id (a * b)), Z.quot_mul, i64_id in Hq; done.
Qed.

(** The saturating operations are arithmetic held to the [int64] range,
    for every pair of operands, negative ones and [MinInt64 * -1] included:
    never a wrapped figure. *)
Theorem saturating_exact a b :
  in_i64 a -> in_i64 b ->
  saturatingAdd a b = clamp64 (a + b) /\ saturatingMul a b = clamp64 (a * b).
Proof. intros. split; [by apply saturatingAdd_clamp | by apply saturatingMul_clamp]. Qed.

Lemma saturating_exact_witness :
  saturatingAdd MaxInt64 5 = clamp64 (MaxInt64 + 5)
  /\ saturatingMul MinInt64 (-1) = clamp64 (MinInt64 * -1).
Proof.
  split.
  - apply (saturating_exact MaxInt64 5); unfold in_i64; vm_compute; split; discriminate.
  - apply (saturating_exact MinInt64 (-1)); unfold in_i64; vm_compute; split; discriminate.
Defined.

(** ** Metering *)

(** A calibration [Metered] uses is a positive float. *)
Lemma calibration_pos cal :
  fis_nan cal || flt cal MinCalibration || fgt cal MaxCalibration = false ->
  exists m e, cal = S754_finite false m e.
Proof.
  assert (Hmin : MinCalibration = S754_finite false 5629499534213120 (-49)) by (vm_compute; done).
  assert (Hmax : MaxCalibration = S754_finite false 8796093022208000 (-43)) by (vm_compute; done).
  rewrite Hmin, Hmax. intros H. destruct cal as [[]|[]| |[] m e]; try discriminate H. eauto.
Qed.

Lemma saturating_nonneg b packets overhead :
  in_i64 b -> in_i64 packets -> 0 <= b -> 0 <= packets -> 0 <= overhead <= MaxOverheadPerPacket ->
  0 <= saturatingAdd b (saturatingMul packets overhead) <= MaxInt64.
Proof.
  intros. assert (in_i64 overhead) by (unfold MaxOverheadPerPacket in *; go_lia).
  rewrite saturatingMul_clamp by done.
  assert (0 <= clamp64 (packets * overhead) <= MaxInt64).
  { unfold clamp64. assert (0 <= packets * overhead) by nia. go_lia. }
  rewrite saturatingAdd_clamp by go_lia. unfold clamp64. go_lia.
Qed.

(** A metered figure never credits the month back.  For any counts a
    socket can carry and any stored configuration (a NaN or infinite
    calibration, a negative or absurd overhead), the billed amount is between
    zero and the largest [int64]. *)
Theorem Metered_range b packets q :
  in_i64 b -> in_i64 packets -> 0 <= Metered b packets q <= MaxInt64.
Proof.
  intros Hb Hp. unfold Metered.
  set (overhead := if quota_OverheadPerPacket q <? 0 then _ else _).
  set (b' := if b <? 0 then _ else _). set (p' := if packets <? 0 then _ else _).
  set (cal := if _ || _ then _ else _).
  assert (Ho : 0 <= overhead <= MaxOverheadPerPacket).
  { subst overhead. unfold MaxOverheadPerPacket. repeat split_if; bool_to_prop; lia. }
  assert (Hb' : in_i64 b' /\ 0 <= b') by (subst b'; split_if; bool_to_prop; go_lia).
  assert (Hp' : in_i64 p' /\ 0 <= p') by (subst p'; split_if; bool_to_prop; go_lia).
  assert (Hcal : exists m e, cal = S754_finite false m e).
  { subst cal. destruct (_ || fgt (quota_Calibration q) _) eqn:E; [| by apply calibration_pos].
    exists 7036874417766400%positive, (-46). vm_compute. done. }
  clearbody overhead b' p' cal. destruct Hcal as (m & e & ->).
  destruct (f64_of_Z_ok (saturatingAdd b' (saturatingMul p' overhead))) as [S1 S2];
    [apply saturating_nonneg; tauto |].
  destruct (fmul_pos_ok _ m e S1 S2) as [S3 S4].
  assert (H100 : f64_of_Z 100 = S754_finite false 7036874417766400 (-46)) by (vm_compute; done).
  rewrite H100.
  destruct (fdiv_pos_ok _ 7036874417766400 (-46) S3 S4) as [S5 S6].
  destruct (fge _ _) eqn:E; [go_lia |].
  apply f64_to_int64_bound; done.
Qed.

Lemma Metered_range_witness :
  0 <= Metered MinInt64 MaxInt64 (mkQuota 0 0 1 "" fnan 99999999) <= MaxInt64.
Proof. apply Metered_range; unfold in_i64; vm_compute; split; discriminate. Defined.

Example Metered_plain : Metered 1000000 1000 (mkQuota 0 0 1 "" (f64_of_Z 100) 60) = 1060000.
Proof. vm_compute. reflexivity. Qed.

(** ** Billing periods *)

(** A zone in which a date's midnight is where that local day begins.  It
    holds of every zone whose offset does not jump across a midnight. *)
Definition civil_zone (l : Location) : Prop :=
  forall y m d, 1 <= m <= 12 -> 1 <= d <= month_len y m ->
    local_day l (Date l y m d) = month_start (month_index y m) + (d - 1)
    /\ forall t, t < Date l y m d <-> local_day l t < month_start (month_index y m) + (d - 1).

Lemma local_day_fixed off t :
  local_day (FixedZone off) t = (t / Second + off) / secsPerDay.
Proof. unfold local_day, loc_offset, FixedZone, Unix. simpl. f_equal. lia. Qed.

Lemma Date_fixed off y m d :
  Date (FixedZone off) y m d
  = ((month_start (month_index y m) + (d - 1)) * secsPerDay - off) * Second.
Proof. unfold Date, UnixTime. rewrite DateSec_fixed. f_equal. lia. Qed.

Lemma FixedZone_civil off : civil_zone (FixedZone off).
Proof.
  intros y m d _ _. rewrite Date_fixed. set (n := month_start _ + (d - 1)). split.
  - rewrite local_day_fixed. unfold secsPerDay, Second. rewrite Z.div_mul by lia.
    replace (n * 86400 - off + off) with (n * 86400) by lia. by rewrite Z.div_mul.
  - intros t. rewrite local_day_fixed. unfold secsPerDay, Second.
    Z.div_mod_to_equations. lia.
Qed.

Lemma civil_UTC : civil_zone UTC.
Proof. apply FixedZone_civil. Qed.

Lemma Day_of_day l t k r :
  local_day l t = month_start k + r -> 0 <= r < index_len k ->
  Year l t = index_year k /\ Month l t = index_month k /\ Day l t = r + 1.
Proof.
  intros Hd Hr. unfold Year, Month, Day.
  rewrite (civil_of_day_unique (local_day l t) k); rewrite ?month_start_succ; [| lia].
  simpl. rewrite Hd. split_and!; try done. lia.
Qed.

(** [daysIn] is the length of the month. *)
Lemma daysIn_ok y m : 1 <= m <= 12 -> daysIn y m = month_len y m.
Proof.
  intros Hm. unfold daysIn, UTC.
  assert (Hi : month_index y (m + 1) = month_index y m + 1) by (unfold month_index; lia).
  assert (Hlen : index_len (month_index y m) = month_len y m).
  { unfold index_len. by destruct (index_of_month y m Hm) as [-> ->]. }
  pose proof (month_len_range y m).
  assert (Hd : local_day (FixedZone 0) (Date (FixedZone 0) y (m + 1) 0)
    = month_start (month_index y m) + (month_len y m - 1)).
  { rewrite local_day_fixed, Date_fixed, Hi, month_start_succ, Hlen. unfold secsPerDay, Second.
    rewrite Z.div_mul by lia. rewrite Z.sub_0_r, Z.add_0_r, Z.div_mul by lia. lia. }
  destruct (Day_of_day _ _ _ _ Hd) as (_ & _ & Hday); [rewrite Hlen; lia |].
  rewrite Hday. lia.
Qed.

Section periods.
Context (l : Location) (Hl : civil_zone l) (day : Z) (Hday : 1 <= day <= 31).

(** The boundary of month [k], and the local day it opens. *)
Definition boundary_day (k : Z) : Z := month_start k + (Z.min day (index_len k) - 1).
Definition boundary_of (k : Z) : Time := boundary day l (index_year k) (index_month k).

Lemma boundary_of_date k :
  boundary_of k = Date l (index_year k) (index_month k) (Z.min day (index_len k)).
Proof.
  unfold boundary_of, boundary. pose proof (index_month_range k).
  rewrite daysIn_ok by done. fold (index_len k).
  f_equal. destruct (Z.ltb_spec (index_len k) day); lia.
Qed.

Lemma boundary_civil k :
  local_day l (boundary_of k) = boundary_day k
  /\ forall t, t < boundary_of k <-> local_day l t < boundary_day k.
Proof.
  rewrite boundary_of_date. unfold boundary_day.
  pose proof (index_month_range k). pose proof (index_len_range k).
  destruct (Hl (index_year k) (index_month k) (Z.min day (index_len k))) as [H1 H2];
    [done | unfold index_len in *; lia |].
  rewrite month_index_of in H1, H2. done.
Qed.

Lemma boundary_day_in k :
  month_start k <= boundary_day k < month_start (k + 1).
Proof.
  unfold boundary_day. rewrite month_start_succ. pose proof (index_len_range k). lia.
Qed.

Lemma boundary_lt k : boundary_of k < boundary_of (k + 1).
Proof.
  apply boundary_civil. rewrite (proj1 (boundary_civil k)).
  pose proof (boundary_day_in k). pose proof (boundary_day_in (k + 1)). lia.
Qed.

Lemma boundary_lt_all k k' : k < k' -> boundary_of k < boundary_of k'.
Proof.
  intros H. replace k' with (k + 1 + Z.of_nat (Z.to_nat (k' - k - 1))) by lia.
  induction (Z.to_nat (k' - k - 1)) as [|n IH].
  - rewrite Z.add_0_r. apply boundary_lt.
  - rewrite Nat2Z.inj_succ.
    replace (k + 1 + Z.succ (Z.of_nat n)) with (k + 1 + Z.of_nat n + 1) by lia.
    pose proof (boundary_lt (k + 1 + Z.of_nat n)). lia.
Qed.

Lemma boundary_inj_range k k' t :
  boundary_of k <= t < boundary_of (k + 1) -> boundary_of k' <= t < boundary_of (k' + 1) -> k = k'.
Proof.
  intros H H'. destruct (Z.lt_trichotomy k k') as [Hlt | [-> | Hlt]]; [| done |].
  - destruct (Z.eq_dec (k + 1) k') as [<- | Hne]; [lia |].
    pose proof (boundary_lt_all (k + 1) k' ltac:(lia)). lia.
  - destruct (Z.eq_dec (k' + 1) k) as [<- | Hne]; [lia |].
    pose proof (boundary_lt_all (k' + 1) k ltac:(lia)). lia.
Qed.

Lemma boundary_of_index y m :
  1 <= m <= 12 -> boundary_of (month_index y m) = boundary day l y m.
Proof. intros Hm. unfold boundary_of. by destruct (index_of_month y m Hm) as [-> ->]. Qed.

(** The month before and the month after, as the code steps them. *)
Lemma boundary_prev k :
  (if index_month k =? 1 then boundary day l (index_year k - 1) 12
   else boundary day l (index_year k) (index_month k - 1)) = boundary_of (k - 1).
Proof.
  pose proof (index_month_range k) as Hr. pose proof (month_index_of k) as Hk.
  unfold month_index in Hk.
  destruct (Z.eqb_spec (index_month k) 1) as [H1 | H1]; rewrite <- boundary_of_index by lia;
    unfold month_index; f_equal; lia.
Qed.

Lemma boundary_next k :
  (if index_month k =? 12 then boundary day l (index_year k + 1) 1
   else boundary day l (index_year k) (index_month k + 1)) = boundary_of (k + 1).
Proof.
  pose proof (index_month_range k) as Hr. pose proof (month_index_of k) as Hk.
  unfold month_index in Hk.
  destruct (Z.eqb_spec (index_month k) 12) as [H1 | H1]; rewrite <- boundary_of_index by lia;
    unfold month_index; f_equal; lia.
Qed.

Lemma boundary_month k :
  Year l (boundary_of k) = index_year k /\ Month l (boundary_of k) = index_month k.
Proof.
  pose proof (boundary_day_in k) as Hin. rewrite month_start_succ in Hin.
  destruct (Day_of_day l (boundary_of k) k (boundary_day k - month_start k)) as (H1 & H2 & _);
    [rewrite (proj1 (boundary_civil k)); lia | lia | done].
Qed.

(** The period is a pair of consecutive boundaries around the instant. *)
Lemma PeriodBoundsIn_spec now :
  exists k, PeriodBoundsIn day (Some l) now = (boundary_of k, boundary_of (k + 1))
    /\ boundary_of k <= now < boundary_of (k + 1).
Proof.
  unfold PeriodBoundsIn. cbn [default from_option]. cbv zeta. unfold id.
  destruct (Z.ltb_spec day 1); [lia |]. destruct (Z.ltb_spec 31 day); [lia |].
  set (k0 := (civil_of_day (local_day l now)).1).
  assert (Hnow : month_start k0 <= local_day l now < month_start (k0 + 1))
    by apply civil_of_day_month.
  change (Year l now) with (index_year k0). change (Month l now) with (index_month k0).
  fold (boundary_of k0). rewrite boundary_prev.
  assert (Hk : exists k, (if Before now (boundary_of k0) then boundary_of (k0 - 1) else boundary_of k0)
     = boundary_of k /\ boundary_of k <= now < boundary_of (k + 1)).
  { unfold Before. destruct (Z.ltb_spec now (boundary_of k0)) as [Hlt | Hge].
    - exists (k0 - 1). rewrite Z.sub_add. split; [done |]. split; [| done].
      apply Z.nlt_ge. rewrite (proj2 (boundary_civil (k0 - 1))).
      pose proof (boundary_day_in (k0 - 1)) as Hb. rewrite Z.sub_add in Hb. lia.
    - exists k0. split; [done |]. split; [done |]. apply boundary_civil.
      pose proof (boundary_day_in (k0 + 1)). lia. }
  destruct Hk as (k & -> & Hk). exists k. split; [| done]. f_equal.
  destruct (boundary_month k) as [-> ->]. apply boundary_next.
Qed.
End periods.

Lemma PeriodBoundsIn_clamp day l now :
  PeriodBoundsIn day l now = PeriodBoundsIn (Z.max 1 (Z.min 31 day)) l now.
Proof.
  assert (Hc : forall d, (if 31 <? (if d <? 1 then 1 else d) then 31
                          else (if d <? 1 then 1 else d)) = Z.max 1 (Z.min 31 d)).
  { intros d. destruct (Z.ltb_spec d 1); [simpl; lia |]. destruct (Z.ltb_spec 31 d); lia. }
  unfold PeriodBoundsIn. rewrite !Hc.
  by replace (Z.max 1 (Z.min 31 (Z.max 1 (Z.min 31 day)))) with (Z.max 1 (Z.min 31 day)) by lia.
Qed.

(** [C38] Billing periods tile the time line, in any zone where a midnight is
    where its day begins: for any reset day (out of range, or past the end of a
    short month), the period of an instant contains it, every other instant of
    that period has the same one, and the next period starts exactly where it
    ends, so no byte is billed to two periods or to none. Where the clocks skip
    a midnight this fails ([PeriodBounds_midnight_gap]). *)
Theorem PeriodBounds_tile day l now :
  civil_zone l ->
  let '(start, end_) := PeriodBoundsIn day (Some l) now in
  start <= now < end_
  /\ (forall t, start <= t < end_ -> PeriodBoundsIn day (Some l) t = (start, end_))
  /\ (PeriodBoundsIn day (Some l) end_).1 = end_.
Proof.
  intros Hl. rewrite PeriodBoundsIn_clamp. set (d := Z.max 1 (Z.min 31 day)).
  assert (Hd : 1 <= d <= 31) by lia.
  destruct (PeriodBoundsIn_spec l Hl d Hd now) as (k & -> & Hk). split_and!; try lia.
  - intros t Ht. rewrite PeriodBoundsIn_clamp. fold d.
    destruct (PeriodBoundsIn_spec l Hl d Hd t) as (k' & -> & Hk').
    by rewrite (boundary_inj_range l Hl d Hd k k' t Ht Hk').
  - rewrite PeriodBoundsIn_clamp. fold d.
    destruct (PeriodBoundsIn_spec l Hl d Hd (boundary_of l d (k + 1))) as (k' & -> & Hk').
    pose proof (boundary_lt l Hl d Hd (k + 1)).
    by rewrite (boundary_inj_range l Hl d Hd k' (k + 1) _ Hk' ltac:(lia)).
Qed.

Lemma PeriodBounds_tile_witness :
  let now := Date (FixedZone 36000) 2025 2 20 in
  let '(start, end_) := PeriodBoundsIn 31 (Some (FixedZone 36000)) now in
  start <= now < end_
  /\ (forall t, start <= t < end_ -> PeriodBoundsIn 31 (Some (FixedZone 36000)) t = (start, end_))
  /\ (PeriodBoundsIn 31 (Some (FixedZone 36000)) end_).1 = end_.
Proof.
  exact (PeriodBounds_tile 31 (FixedZone 36000) (Date (FixedZone 36000) 2025 2 20)
    (FixedZone_civil 36000)).
Defined.

Example PeriodBounds_february :
  PeriodBoundsIn 31 (Some UTC) (Date UTC 2025 2 20) = (Date UTC 2025 1 31, Date UTC 2025 2 28).
Proof. vm_compute. reflexivity. Qed.

(** A zone whose clocks go forward at the midnight that opens 1 October 2023,
    as Paraguay's did: four hours behind UTC before, three after. *)
Definition midnight_gap_zone : Location :=
  mkLocation (fun sec => if sec <? 1696132800 then (-14400, alpha, 1696132800)
                         else (-10800, 1696132800, omega)).

(** Where the clocks skip the midnight a period opens at, the period is
    empty.  With a reset on the first, every instant of October 2023 in such a
    zone is given a period that ends where it starts, at 23:00 on 30
    September, and so does not contain the instant it was asked for. *)
Theorem PeriodBounds_midnight_gap :
  let p := PeriodBoundsIn 1 (Some midnight_gap_zone) (UnixTime 1697328000) in
  p.1 = p.2 /\ p.2 < UnixTime 1697328000
  /\ Year midnight_gap_zone p.1 = 2023 /\ Month midnight_gap_zone p.1 = 9
  /\ Day midnight_gap_zone p.1 = 30.
Proof. vm_compute. done. Qed.

(** ** The decision *)

(** An approval that still lets traffic through. *)
Definition grant_live (grant : option Grant) (used : Z) (now : Time) : bool :=
  match grant with
  | None => false
  | Some g => Before now (UnixTime (grant_Until g))
      && negb ((0 <? grant_ExtraBytes g)
               && (i64 (grant_StartBytes g + grant_ExtraBytes g) <=? used))
  end.

(** The decision's flags as boolean functions of the inputs. *)
Lemma Evaluate_flags LoadLocation p used grant now :
  let q := path_Quota p in
  let d := Evaluate LoadLocation p used grant now in
  let limited := path_Metered p && negb (quota_LimitBytes q <=? 0) in
  dec_Blocked d =
    limited && ((0 <? quota_CeilingBytes q) && (quota_CeilingBytes q <=? used)
                || (quota_LimitBytes q <=? used) && negb (grant_live grant used now))
  /\ dec_OverQuota d = limited && (quota_LimitBytes q <=? used)
  /\ bool_decide (is_Some (dec_Reason d)) = dec_Blocked d
  /\ (dec_PeriodStart d, dec_PeriodEnd d) = PeriodBounds LoadLocation q now
  /\ dec_Used d = used /\ dec_Limit d = quota_LimitBytes q.
Proof.
  unfold Evaluate. destruct (PeriodBounds LoadLocation (path_Quota p) now) as [start end_].
  destruct (path_Metered p), (_ <=? 0), (0 <? quota_CeilingBytes _),
    (quota_CeilingBytes _ <=? used), (quota_LimitBytes _ <=? used); try done;
    (destruct grant as [g|]; [| done]); unfold grant_live;
    by destruct (Before now _), (0 <? grant_ExtraBytes g), (_ <=? used).
Qed.

(** A path is blocked exactly when its policy says so: it is metered with
    a limit, and either an absolute ceiling is set and reached, whatever was
    approved, or the limit is reached and no live approval covers it.  The
    over-quota flag ignores approvals, a block always has its reason, and
    the reported period is the one that holds the instant. *)
Theorem Evaluate_exact LoadLocation p used grant now :
  let q := path_Quota p in
  let d := Evaluate LoadLocation p used grant now in
  let limited := path_Metered p = true /\ 0 < quota_LimitBytes q in
  (dec_Blocked d = true <->
     limited /\ ((0 < quota_CeilingBytes q <= used)
                 \/ (quota_LimitBytes q <= used /\ grant_live grant used now = false)))
  /\ (dec_OverQuota d = true <-> limited /\ quota_LimitBytes q <= used)
  /\ (dec_Blocked d = true <-> is_Some (dec_Reason d))
  /\ (dec_PeriodStart d, dec_PeriodEnd d) = PeriodBounds LoadLocation q now
  /\ dec_Used d = used /\ dec_Limit d = quota_LimitBytes q.
Proof.
  intros q d limited.
  destruct (Evaluate_flags LoadLocation p used grant now) as (H1 & H2 & H3 & H4).
  fold d q in H1, H2, H3, H4.
  assert (Hlim : path_Metered p && negb (quota_LimitBytes q <=? 0) = true <-> limited).
  { rewrite andb_true_iff, negb_true_iff, Z.leb_gt. done. }
  split_and!; try apply H4.
  - rewrite H1, andb_true_iff, Hlim, orb_true_iff, !andb_true_iff, Z.ltb_lt, !Z.leb_le,
      negb_true_iff. done.
  - by rewrite H2, andb_true_iff, Hlim, Z.leb_le.
  - rewrite <- H3. apply bool_decide_eq_true.
Qed.
