(* ===== verification/Messages.v ===== *)
(** * Control-channel messages ([internal/proto/proto.go])

    The payloads the framed channel of [Session] carries between the agents.
    They are JSON objects on the wire, decoded back into these records. *)

From S2P Require Import Prelude Float64.

Record OverlayInfo := mkOverlayInfo {
  oi_FrontendIP : string; oi_BackendIP : string; oi_Device : string; oi_Subnet : string }.

Record PathInfo := mkPathInfo {
  pinfo_ID : Z; pinfo_Name : string; pinfo_Iface : string; pinfo_Table : Z;
  pinfo_Mark : Z; pinfo_Metered : bool; pinfo_ShapeMbit : float64 }.

Record LinkerRoute := mkLinkerRoute { lr_OverlayIP : string; lr_LanIP : string }.

Record BackendConfig := mkBackendConfig {
  bc_Overlay : OverlayInfo; bc_Paths : list PathInfo; bc_Mode : string; bc_SampleMs : Z;
  bc_Linkers : list LinkerRoute; bc_EgressCIDRs : list string }.

Record LinkerConfig := mkLinkerConfig { lc_EgressCIDRs : list string }.

Record Hello := mkHello {
  hello_Version : string; hello_Hostname : string; hello_Role : string;
  hello_OverlayIP : string; hello_Table : Z }.

Record LinkInfo := mkLinkInfo {
  li_PathID : Z; li_HandshakeAgeSec : float64; li_Exists : bool }.

(** One metering sample of one path. *)
Record UsageDelta := mkUsageDelta {
  ud_PathID : Z; ud_Bytes : Z; ud_Packets : Z; ud_AtUnix : Z; ud_Sequence : Z }.

#[export] Instance UsageDelta_eq_dec : EqDecision UsageDelta.
Proof. solve_decision. Defined.

(** A batch of deltas, and the per-path watermark that answers it. *)
Record Usage := mkUsage { usage_Deltas : list UsageDelta }.
Record UsageAck := mkUsageAck { ack_Seqs : gmap Z Z }.

(** The deltas of one path, in the order they stand. *)
Definition by_path (p : Z) (ds : list UsageDelta) : list UsageDelta :=
  filter (fun d => ud_PathID d = p) ds.

Lemma by_path_app p a b : by_path p (a ++ b) = by_path p a ++ by_path p b.
Proof. apply filter_app. Qed.

Lemma by_path_cons p d ds :
  by_path p (d :: ds) = if decide (ud_PathID d = p) then d :: by_path p ds else by_path p ds.
Proof. unfold by_path. by rewrite filter_cons. Qed.

Lemma elem_of_by_path p d ds : d ∈ by_path p ds <-> ud_PathID d = p /\ d ∈ ds.
Proof. unfold by_path. by rewrite list_elem_of_filter. Qed.

(** A buffer's length, counted path by path over any list of distinct ids that
    covers it. *)
Definition path_counts (keys : list Z) (ds : list UsageDelta) : nat :=
  sum_list_with (fun p => length (by_path p ds)) keys.

Lemma path_counts_cons keys d ds :
  NoDup keys -> ud_PathID d ∈ keys ->
  path_counts keys (d :: ds) = S (path_counts keys ds).
Proof.
  unfold path_counts. induction keys as [|k keys IH]; intros Hnd Hin; [by apply elem_of_nil in Hin |].
  apply NoDup_cons in Hnd as [Hk Hnd]. simpl. rewrite by_path_cons.
  case_decide as Heq.
  - simpl. f_equal. f_equal. subst k. clear -Hk. induction keys as [|k keys IH]; [done |].
    simpl. rewrite by_path_cons, decide_False by (intros E; apply Hk; rewrite E; by left).
    f_equal. apply IH. intros H. apply Hk. by right.
  - apply elem_of_cons in Hin as [Hin | Hin]; [done |]. rewrite IH by done. lia.
Qed.

Lemma path_counts_length keys ds :
  NoDup keys -> (forall d, d ∈ ds -> ud_PathID d ∈ keys) -> path_counts keys ds = length ds.
Proof.
  intros Hnd. induction ds as [|d ds IH]; intros Hin.
  - unfold path_counts. clear. by induction keys.
  - rewrite path_counts_cons; [| done | apply Hin; by left]. simpl. f_equal. apply IH.
    intros d' Hd'. apply Hin. by right.
Qed.

(** Two buffers that agree path by path are equally long. *)
Lemma by_path_length a b : (forall p, by_path p a = by_path p b) -> length a = length b.
Proof.
  intros H. set (keys := remove_dups (ud_PathID <$> (a ++ b))).
  assert (Hin : forall d, d ∈ a \/ d ∈ b -> ud_PathID d ∈ keys).
  { intros d Hd. apply elem_of_remove_dups, list_elem_of_fmap_2, elem_of_app. done. }
  rewrite <- (path_counts_length keys a), <- (path_counts_length keys b);
    [| apply NoDup_remove_dups | auto | apply NoDup_remove_dups | auto].
  unfold path_counts. clear Hin. induction keys as [|k keys IH]; [done |]. simpl. by rewrite H, IH.
Qed.
