(* ===== verification/Meter.v ===== *)
(** * The backend's meter ([internal/agent/meter.go])

    It turns interface counters into deltas, numbers them per path, buffers
    them until the frontend acknowledges them, and keeps the buffer and its own
    counters on disk.  The counter readings, the clock and whether a file write
    succeeds are arguments.  The file formats are JSON, read back as what was
    written; [writeAtomic] replaces a file whole or leaves it, which [StateFile]
    shows of the calls it makes. *)

From S2P Require Import Prelude GoTime Messages.

Definition maxBuffered : Z := 50000.

(** [sysx.Counters]. *)
Record Counters := mkCounters {
  ctr_RxBytes : Z; ctr_TxBytes : Z; ctr_RxPackets : Z; ctr_TxPackets : Z }.
Definition Counters_Bytes (c : Counters) : Z := i64 (ctr_RxBytes c + ctr_TxBytes c).
Definition Counters_Packets (c : Counters) : Z := i64 (ctr_RxPackets c + ctr_TxPackets c).

(** What the two files hold. *)
Record MeterDisk := mkMeterDisk {
  disk_pending : list UsageDelta;
  disk_state : gmap string Counters * gmap Z Z }.

Record Meter := mkMeter {
  m_last : gmap string Counters;
  m_nextSeq : gmap Z Z;
  m_pending : list UsageDelta;
  m_disk : MeterDisk }.

Definition set_m_pending (ds : list UsageDelta) (m : Meter) : Meter :=
  mkMeter (m_last m) (m_nextSeq m) ds (m_disk m).

(** [persist] and [save]; [ok] is whether the file could be replaced. *)
Definition persist (ok : bool) (m : Meter) : Meter :=
  if ok then mkMeter (m_last m) (m_nextSeq m) (m_pending m)
               (mkMeterDisk (m_pending m) (disk_state (m_disk m)))
  else m.
Definition save (ok : bool) (m : Meter) : Meter :=
  if ok then mkMeter (m_last m) (m_nextSeq m) (m_pending m)
               (mkMeterDisk (disk_pending (m_disk m)) (m_last m, m_nextSeq m))
  else m.

(** [NewMeter] with [load]: everything comes from the files. *)
Definition NewMeter (d : MeterDisk) : Meter :=
  mkMeter (disk_state d).1 (disk_state d).2 (disk_pending d) d.

Definition seq_of (m : Meter) (path : Z) : Z := default 0 (m_nextSeq m !! path).

(** One path of [sample]: the meter, and the delta it yields. *)
Definition sample_path (read : string -> option Counters) (now : Time) (p : PathInfo) (m : Meter)
    : option UsageDelta * Meter :=
  if negb (pinfo_Metered p) then (None, m)
  else
    match read (pinfo_Iface p) with
    | None => (None, m)
    | Some cur =>
        let prev := m_last m !! pinfo_Iface p in
        let m := mkMeter (<[pinfo_Iface p := cur]> (m_last m)) (m_nextSeq m) (m_pending m) (m_disk m) in
        match prev with
        | None => (None, m)
        | Some prev =>
            let dBytes := i64 (Counters_Bytes cur - Counters_Bytes prev) in
            let dPackets := i64 (Counters_Packets cur - Counters_Packets prev) in
            if (dBytes <? 0) || (dPackets <? 0) then (None, m)
            else if (dBytes =? 0) && (dPackets =? 0) then (None, m)
            else
              let seq := u64 (seq_of m (pinfo_ID p) + 1) in
              (Some (mkUsageDelta (pinfo_ID p) dBytes dPackets (Unix now) seq),
               mkMeter (m_last m) (<[pinfo_ID p := seq]> (m_nextSeq m)) (m_pending m) (m_disk m))
        end
    end.

Fixpoint sample_paths (read : string -> option Counters) (now : Time) (ps : list PathInfo) (m : Meter)
    : list UsageDelta * Meter :=
  match ps with
  | [] => ([], m)
  | p :: ps =>
      let '(d, m) := sample_path read now p m in
      let '(ds, m) := sample_paths read now ps m in
      (option_list d ++ ds, m)
  end.

(** The buffer keeps its newest [maxBuffered] deltas. *)
Definition trim (ds : list UsageDelta) : list UsageDelta :=
  drop (length ds - Z.to_nat maxBuffered) ds.

Definition sample (cfg : option BackendConfig) (read : string -> option Counters) (now : Time)
    (wrotePending wroteState : bool) (m : Meter) : Meter :=
  match cfg with
  | None => m
  | Some cfg =>
      let '(fresh, m) := sample_paths read now (bc_Paths cfg) m in
      let m :=
        match fresh with
        | [] => m
        | _ => persist wrotePending (set_m_pending (trim (m_pending m ++ fresh)) m)
        end in
      save wroteState m
  end.

Definition Pending (m : Meter) : list UsageDelta := m_pending m.

(** ** Batches *)

Definition count_of (t : gmap Z Z) (p : Z) : Z := default 0 (t !! p).

(** The share pass: up to [share] deltas of each path, [n] in all. *)
Fixpoint share_pass (n share : Z) (taken : gmap Z Z) (out ds : list UsageDelta)
    : list UsageDelta * gmap Z Z :=
  match ds with
  | [] => (out, taken)
  | d :: ds =>
      if Z.of_nat (length out) =? n then (out, taken)
      else if share <=? count_of taken (ud_PathID d) then share_pass n share taken out ds
      else share_pass n share (<[ud_PathID d := count_of taken (ud_PathID d) + 1]> taken)
             (out ++ [d]) ds
  end.

(** The fill pass: what the share pass left, from the front. *)
Fixpoint fill_pass (n : Z) (taken seen : gmap Z Z) (out ds : list UsageDelta) : list UsageDelta :=
  match ds with
  | [] => out
  | d :: ds =>
      if Z.of_nat (length out) =? n then out
      else
        let k := count_of seen (ud_PathID d) + 1 in
        let seen := <[ud_PathID d := k]> seen in
        if k <=? count_of taken (ud_PathID d) then fill_pass n taken seen out ds
        else fill_pass n taken seen (out ++ [d]) ds
  end.

Definition paths_of (ds : list UsageDelta) : gset Z := list_to_set (ud_PathID <$> ds).

Definition PendingBatch (n : Z) (m : Meter) : list UsageDelta :=
  let pending := m_pending m in
  let n := if Z.of_nat (length pending) <? n then Z.of_nat (length pending) else n in
  if n <=? 0 then []
  else
    let paths := Z.of_nat (size (paths_of pending)) in
    if paths =? 1 then take (Z.to_nat n) pending
    else
      let share := Z.quot n paths in
      let share := if share <? 1 then 1 else share in
      let '(out, taken) := share_pass n share ∅ [] pending in
      fill_pass n taken ∅ out pending.

(** ** Acknowledgement *)

Definition acked (seqs : gmap Z Z) (d : UsageDelta) : bool :=
  match seqs !! ud_PathID d with
  | Some upTo => ud_Sequence d <=? upTo
  | None => false
  end.

Definition AckApplied (seqs : gmap Z Z) (wrote : bool) (m : Meter) : Meter :=
  let kept := filter (fun d => acked seqs d = false) (m_pending m) in
  let changed := negb (length kept =? length (m_pending m))%nat in
  let m := set_m_pending kept m in
  if changed then persist wrote m else m.

(** ** What a batch holds *)

Lemma count_of_insert t p q z : count_of (<[p := z]> t) q = if decide (q = p) then z else count_of t q.
Proof.
  unfold count_of. case_decide as H; [subst; by rewrite lookup_insert_eq |].
  by rewrite lookup_insert_ne.
Qed.

(** The share pass takes a prefix of every path, no more than the share of any,
    and stops short of the share only when the batch is full or the path is
    exhausted. *)
Lemma share_pass_spec n share ds : forall taken out out' taken',
  share_pass n share taken out ds = (out', taken') -> Z.of_nat (length out) <= n ->
  exists s, out' = out ++ s /\ Z.of_nat (length out') <= n
    /\ forall p,
       by_path p s `prefix_of` by_path p ds
       /\ count_of taken' p = count_of taken p + Z.of_nat (length (by_path p s))
       /\ (share <= count_of taken p -> by_path p s = [])
       /\ (count_of taken p <= share -> count_of taken' p <= share)
       /\ (Z.of_nat (length out') = n \/ share <= count_of taken' p \/ by_path p s = by_path p ds).
Proof.
  induction ds as [|d ds IH]; intros taken out out' taken' H Hlen; simpl in H.
  { injection H as <- <-. exists []. rewrite app_nil_r. split_and!; try done.
    intros p. simpl. split_and!; try done; [lia |]. auto. }
  destruct (Z.eqb_spec (Z.of_nat (length out)) n) as [Hn|Hn].
  { injection H as <- <-. exists []. rewrite app_nil_r. split_and!; try done.
    intros p. split_and!; try done; [apply prefix_nil | simpl; lia | auto]. }
  destruct (Z.leb_spec share (count_of taken (ud_PathID d))) as [Hs|Hs].
  - destruct (IH _ _ _ _ H Hlen) as (s & -> & Hl & Hp). exists s. split_and!; try done.
    intros p. destruct (Hp p) as (P1 & P2 & P3 & P4 & P5).
    rewrite by_path_cons. destruct (decide (ud_PathID d = p)) as [Heq|Heq]; [| done]. subst p.
    rewrite (P3 Hs) in *. split_and!; try done; [apply prefix_nil |].
    right. left. rewrite P2. simpl. lia.
  - destruct (IH _ _ _ _ H) as (s & -> & Hl & Hp); [rewrite length_app; simpl; lia |].
    exists (d :: s). rewrite <- app_assoc in *. split_and!; try done.
    intros p. destruct (Hp p) as (P1 & P2 & P3 & P4 & P5). rewrite count_of_insert in *.
    rewrite !by_path_cons. destruct (decide (ud_PathID d = p)) as [Heq|Heq].
    + subst p. rewrite ?decide_True in * by done. split_and!.
      * by apply prefix_cons.
      * rewrite P2. simpl. lia.
      * intros. exfalso. lia.
      * intros _. apply P4. lia.
      * destruct P5 as [? | [? | ->]]; auto.
    + rewrite ?decide_False in * by congruence. by split_and!.
Qed.

Lemma fill_pass_spec n taken ds : forall seen out,
  Z.of_nat (length out) <= n ->
  exists s, fill_pass n taken seen out ds = out ++ s /\ Z.of_nat (length (out ++ s)) <= n
    /\ forall p,
       by_path p s `prefix_of` drop (Z.to_nat (count_of taken p - count_of seen p)) (by_path p ds)
       /\ (Z.of_nat (length (out ++ s)) = n
           \/ by_path p s = drop (Z.to_nat (count_of taken p - count_of seen p)) (by_path p ds)).
Proof.
  induction ds as [|d ds IH]; intros seen out Hlen; simpl.
  { exists []. rewrite app_nil_r. split_and!; try done.
    intros p. change (by_path p []) with (@nil UsageDelta). rewrite drop_nil. auto. }
  destruct (Z.eqb_spec (Z.of_nat (length out)) n) as [Hn|Hn].
  { exists []. rewrite app_nil_r. split_and!; try done. intros p. split; [apply prefix_nil | auto]. }
  set (k := count_of seen (ud_PathID d) + 1).
  destruct (Z.leb_spec k (count_of taken (ud_PathID d))) as [Hk|Hk].
  - destruct (IH (<[ud_PathID d := k]> seen) out Hlen) as (s & -> & Hl & Hp).
    exists s. split_and!; try done. intros p. specialize (Hp p).
    rewrite count_of_insert in Hp. rewrite by_path_cons.
    destruct (decide (ud_PathID d = p)) as [Heq|Heq].
    + subst p. rewrite decide_True in Hp by done.
      replace (Z.to_nat (count_of taken (ud_PathID d) - count_of seen (ud_PathID d)))
        with (S (Z.to_nat (count_of taken (ud_PathID d) - k))) by lia. done.
    + by rewrite decide_False in Hp by congruence.
  - destruct (IH (<[ud_PathID d := k]> seen) (out ++ [d])) as (s & -> & Hl & Hp);
      [rewrite length_app; simpl; lia |].
    exists (d :: s). rewrite <- app_assoc in *. split_and!; try done. intros p. specialize (Hp p).
    rewrite count_of_insert in Hp. rewrite !by_path_cons.
    destruct (decide (ud_PathID d = p)) as [Heq|Heq].
    + subst p. rewrite decide_True in Hp by done.
      replace (Z.to_nat (count_of taken (ud_PathID d) - k)) with 0%nat in Hp by lia.
      replace (Z.to_nat (count_of taken (ud_PathID d) - count_of seen (ud_PathID d)))
        with 0%nat by lia.
      simpl drop in *. destruct Hp as [H1 H2]. split; [by apply prefix_cons |].
      destruct H2 as [? | ->]; auto.
    + by rewrite decide_False in Hp by congruence.
Qed.

Lemma prefix_drop_app {A} (l a b : list A) :
  a `prefix_of` l -> b `prefix_of` drop (length a) l -> a ++ b `prefix_of` l.
Proof.
  intros [k ->] Hb. rewrite drop_app_length in Hb. by apply prefix_app.
Qed.

(** Some key below the bound keeps the total below the bound's multiple. *)
Lemma sum_below (f : Z -> nat) keys (b : nat) k0 :
  (forall k, k ∈ keys -> (f k <= b)%nat) -> k0 ∈ keys -> (f k0 < b)%nat ->
  (sum_list_with f keys < length keys * b)%nat.
Proof.
  induction keys as [|k keys IH]; intros Hb Hin Hlt; [by apply elem_of_nil in Hin |]. simpl.
  assert (Hk : (f k <= b)%nat) by (apply Hb; by left).
  apply elem_of_cons in Hin as [-> | Hin].
  - assert ((sum_list_with f keys <= length keys * b)%nat); [| lia].
    clear IH Hlt Hk. assert (Hb' : forall k', k' ∈ keys -> (f k' <= b)%nat)
      by (intros; apply Hb; by right). clear Hb.
    induction keys as [|k' keys IHk]; simpl; [lia |].
    assert ((f k' <= b)%nat) by (apply Hb'; by left).
    assert ((sum_list_with f keys <= length keys * b)%nat); [| lia].
    apply IHk. intros. apply Hb'. by right.
  - specialize (IH ltac:(intros; apply Hb; by right) Hin Hlt). lia.
Qed.

Lemma paths_of_elem d ds : d ∈ ds -> ud_PathID d ∈ paths_of ds.
Proof. intros H. unfold paths_of. apply elem_of_list_to_set. by apply list_elem_of_fmap_2. Qed.

Lemma path_counts_paths pending ds :
  (forall d, d ∈ ds -> ud_PathID d ∈ paths_of pending) ->
  path_counts (elements (paths_of pending)) ds = length ds.
Proof.
  intros H. apply path_counts_length; [apply NoDup_elements |].
  intros d Hd. by apply elem_of_elements, H.
Qed.

(** Both passes together: a full batch, a prefix of every path. *)
Lemma two_passes n share pending out taken :
  0 <= n <= Z.of_nat (length pending) -> 0 <= share ->
  share_pass n share ∅ [] pending = (out, taken) ->
  let b := fill_pass n taken ∅ out pending in
  Z.of_nat (length b) = n
  /\ (forall p, by_path p b `prefix_of` by_path p pending)
  /\ (forall p, (length (by_path p out) <= length (by_path p b))%nat).
Proof.
  intros Hn Hshare Hpass b.
  destruct (share_pass_spec _ _ _ _ _ _ _ Hpass) as (s1 & -> & Hl1 & Hp1); [simpl; lia |].
  simpl in *.
  destruct (fill_pass_spec n taken pending ∅ s1 Hl1) as (s2 & Hb & Hl2 & Hp2).
  subst b. rewrite Hb.
  assert (Htaken : forall p, Z.to_nat (count_of taken p - count_of ∅ p) = length (by_path p s1)).
  { intros p. destruct (Hp1 p) as (_ & P2 & _). unfold count_of in *.
    rewrite lookup_empty in *. simpl in *. lia. }
  split_and!.
  - destruct (Z.eq_dec (Z.of_nat (length (s1 ++ s2))) n) as [|Hne]; [done |]. exfalso.
    assert (Hall : forall p, by_path p (s1 ++ s2) = by_path p pending).
    { intros p. destruct (Hp2 p) as [_ [? | H2]]; [done |]. rewrite Htaken in H2.
      destruct (Hp1 p) as (H1 & _). rewrite by_path_app, H2.
      destruct H1 as [k ->]. by rewrite drop_app_length. }
    apply by_path_length in Hall. lia.
  - intros p. rewrite by_path_app. apply prefix_drop_app; [apply Hp1 |].
    destruct (Hp2 p) as [H2 _]. by rewrite Htaken in H2.
  - intros p. rewrite by_path_app, length_app. lia.
Qed.

Lemma by_path_all p ds : (forall d, d ∈ ds -> ud_PathID d = p) -> by_path p ds = ds.
Proof.
  intros H. induction ds as [|d ds IH]; [done |]. rewrite by_path_cons, decide_True by (apply H; by left).
  f_equal. apply IH. intros d' Hd'. apply H. by right.
Qed.

Lemma by_path_none p ds : p ∉ paths_of ds -> by_path p ds = [].
Proof.
  intros H. induction ds as [|d ds IH]; [done |].
  rewrite by_path_cons, decide_False.
  - apply IH. intros Hin. apply H. unfold paths_of in *. simpl. set_solver.
  - intros <-. apply H, paths_of_elem. by left.
Qed.

(** The batch of a buffer that holds one path. *)
Lemma single_path_batch pending k :
  size (paths_of pending) = 1%nat -> forall p,
  Z.min (Z.of_nat k) (Z.of_nat (length (by_path p pending)))
  <= Z.of_nat (length (by_path p (take k pending))).
Proof.
  intros Hsize p. destruct (decide (p ∈ paths_of pending)) as [Hin|Hout];
    [| rewrite (by_path_none p pending Hout); simpl; lia].
  assert (Hall : forall d, d ∈ pending -> ud_PathID d = p).
  { intros d Hd. eapply (size_singleton_inv (paths_of pending));
      [exact Hsize | by apply paths_of_elem | exact Hin]. }
  rewrite (by_path_all p pending Hall), by_path_all; [rewrite length_take; lia |].
  intros d Hd. apply Hall. rewrite <- (take_drop k pending). apply elem_of_app. by left.
Qed.

(** The share pass gives every path its share, when the shares fit. *)
Lemma share_pass_fair n share pending out taken p :
  0 <= n -> 0 < share -> Z.of_nat (size (paths_of pending)) * share <= n ->
  share_pass n share ∅ [] pending = (out, taken) ->
  Z.min share (Z.of_nat (length (by_path p pending))) <= Z.of_nat (length (by_path p out)).
Proof.
  intros Hn Hs Hfit Hpass.
  destruct (decide (p ∈ paths_of pending)) as [Hin|Hout];
    [| rewrite (by_path_none p pending Hout); simpl; lia].
  destruct (share_pass_spec _ _ _ _ _ _ _ Hpass) as (s1 & -> & Hl1 & Hp1); [simpl; lia |].
  simpl in *.
  assert (Hc : forall q, count_of taken q = Z.of_nat (length (by_path q s1)) /\ count_of taken q <= share).
  { intros q. destruct (Hp1 q) as (_ & P2 & _ & P4 & _). unfold count_of in *.
    rewrite lookup_empty in *. simpl in *. split; [lia | apply P4; lia]. }
  destruct (Hc p) as [C1 C2]. destruct (Hp1 p) as (P1 & _ & _ & _ & P5).
  destruct P5 as [Hfull | [Hle | ->]]; [| lia | lia].
  destruct (Z.lt_ge_cases (count_of taken p) share) as [Hlt | Hge]; [exfalso | lia].
  assert (Hsub : forall d, d ∈ s1 -> ud_PathID d ∈ paths_of pending).
  { intros d Hd. destruct (Hp1 (ud_PathID d)) as ([k Hk] & _). apply paths_of_elem.
    eapply (elem_of_by_path (ud_PathID d)). rewrite Hk. apply elem_of_app. left.
    by apply elem_of_by_path. }
  pose proof (path_counts_paths pending s1 Hsub) as Hsum. unfold path_counts in Hsum.
  pose proof (sum_below (fun q => length (by_path q s1)) (elements (paths_of pending))
    (Z.to_nat share) p) as Hb.
  rewrite Hsum in Hb. unfold size, set_size in Hfit. simpl in Hfit.
  assert (length s1 < length (elements (paths_of pending)) * Z.to_nat share)%nat; [| nia].
  apply Hb; [| by apply elem_of_elements | lia].
  intros q _. destruct (Hc q). lia.
Qed.

(** What a batch takes of a path is a prefix of it. *)
Lemma PendingBatch_prefix n m :
  0 <= n -> forall p, by_path p (PendingBatch n m) `prefix_of` by_path p (m_pending m).
Proof.
  intros Hn0 p. unfold PendingBatch. set (pending := m_pending m).
  set (len := if Z.of_nat (length pending) <? n then _ else n).
  assert (Hlen : 0 <= len <= Z.of_nat (length pending))
    by (subst len; destruct (Z.ltb_spec (Z.of_nat (length pending)) n); lia).
  destruct (Z.leb_spec len 0); [apply prefix_nil |].
  destruct (_ =? 1).
  { rewrite <- (take_drop (Z.to_nat len) pending) at 2. rewrite by_path_app. by apply prefix_app_r. }
  set (share := if _ <? 1 then _ else _).
  destruct (share_pass len share ∅ [] pending) as [out taken] eqn:Hpass.
  apply (two_passes len share pending out taken); [lia | | done].
  subst share. destruct (Z.ltb_spec (Z.quot len (Z.of_nat (size (paths_of pending)))) 1); lia.
Qed.

Lemma size_paths_of pending : (size (paths_of pending) <= length pending)%nat.
Proof.
  rewrite <- (path_counts_paths pending pending) by (intros ?; apply paths_of_elem).
  unfold path_counts, size, set_size. simpl.
  assert (Hall : forall q, q ∈ elements (paths_of pending) -> (1 <= length (by_path q pending))%nat).
  { intros q Hq%elem_of_elements. destruct (by_path q pending) eqn:E; [| simpl; lia].
    exfalso. unfold paths_of in Hq. apply elem_of_list_to_set, list_elem_of_fmap in Hq as (d & -> & Hd).
    assert (Hin : d ∈ by_path (ud_PathID d) pending) by by apply elem_of_by_path.
    rewrite E in Hin. by apply elem_of_nil in Hin. }
  clear -Hall. induction (elements (paths_of pending)) as [|q l IH]; simpl; [lia |].
  pose proof (Hall q ltac:(by left)). specialize (IH ltac:(intros; apply Hall; by right)). lia.
Qed.

(** The length of a batch, and what each path has of it. *)
Lemma PendingBatch_share n m :
  0 <= n ->
  let pending := m_pending m in
  let b := PendingBatch n m in
  let len := Z.min n (Z.of_nat (length pending)) in
  let paths := Z.of_nat (size (paths_of pending)) in
  Z.of_nat (length b) = len
  /\ (paths <= n -> forall p,
        Z.min (len / paths) (Z.of_nat (length (by_path p pending)))
        <= Z.of_nat (length (by_path p b))).
Proof.
  intros Hn0 pending b len paths. subst b. unfold PendingBatch. fold pending.
  replace (if Z.of_nat (length pending) <? n then Z.of_nat (length pending) else n) with len
    by (subst len; destruct (Z.ltb_spec (Z.of_nat (length pending)) n); lia).
  fold paths.
  assert (Hlen : 0 <= len <= Z.of_nat (length pending)) by lia.
  destruct (Z.leb_spec len 0) as [H0|H0].
  { assert (len = 0) as -> by lia. split; [done |].
    intros _ p. rewrite Zdiv.Zdiv_0_l. simpl. lia. }
  destruct (Z.eqb_spec paths 1) as [H1|H1].
  { split.
    - rewrite length_take. lia.
    - intros _ p. rewrite H1, Z.div_1_r. pose proof (single_path_batch pending (Z.to_nat len)) as Hsp.
      rewrite Z2Nat.id in Hsp by lia. apply Hsp. subst paths. lia. }
  assert (Hpos : 0 < paths).
  { subst paths. destruct (Nat.eq_dec (size (paths_of pending)) 0) as [Hz|]; [| lia].
    apply size_empty_inv in Hz. destruct pending as [|d ds]; [simpl in Hlen; lia |].
    assert (ud_PathID d ∈ paths_of (d :: ds)) by (apply paths_of_elem; by left). set_solver. }
  rewrite Z.quot_div_nonneg by lia.
  set (share := if len / paths <? 1 then 1 else len / paths).
  destruct (share_pass len share ∅ [] pending) as [out taken] eqn:Hpass.
  assert (Hsh : 0 < share) by (subst share; destruct (Z.ltb_spec (len / paths) 1); lia).
  destruct (two_passes len share pending out taken) as (T1 & _ & T3); [lia | lia | done |].
  split; [done |]. intros Hle p.
  assert (Hcount : paths <= Z.of_nat (length pending)) by (pose proof (size_paths_of pending); lia).
  assert (Hone : 1 <= len / paths) by (apply Z.div_le_lower_bound; lia).
  assert (share = len / paths) as Hshare
    by (subst share; destruct (Z.ltb_spec (len / paths) 1); lia).
  rewrite <- Hshare.
  pose proof (share_pass_fair len share pending out taken p) as Hfair.
  specialize (T3 p).
  assert (Z.of_nat (size (paths_of pending)) * share <= len).
  { fold paths. rewrite Hshare. apply Z.mul_div_le. lia. }
  specialize (Hfair ltac:(lia) Hsh ltac:(done) Hpass). lia.
Qed.

(** A stalled path cannot starve the others, and no batch reorders a path.
    A batch of [n] is as long as the buffer allows; what it holds of each path
    is a prefix of that path's deltas in buffer order, which is what the
    frontend's watermark needs; and when [n] is at least the number of paths
    buffered, every path has its equal share of it, or all it has. *)
Theorem PendingBatch_fair n m :
  0 <= n ->
  let pending := m_pending m in
  let b := PendingBatch n m in
  let len := Z.min n (Z.of_nat (length pending)) in
  let paths := Z.of_nat (size (paths_of pending)) in
  Z.of_nat (length b) = len
  /\ (forall p, by_path p b `prefix_of` by_path p pending)
  /\ (paths <= n -> forall p,
        Z.min (len / paths) (Z.of_nat (length (by_path p pending)))
        <= Z.of_nat (length (by_path p b))).
Proof.
  intros Hn. destruct (PendingBatch_share n m Hn) as [H1 H2].
  split_and!; [done | by apply PendingBatch_prefix | done].
Qed.

Definition sample_meter : Meter :=
  let d p s := mkUsageDelta p 100 1 0 s in
  set_m_pending [d 2 1; d 2 2; d 2 3; d 2 4; d 3 1; d 2 5] (NewMeter (mkMeterDisk [] (∅, ∅))).

Lemma PendingBatch_fair_witness :
  PendingBatch 4 sample_meter
    = [mkUsageDelta 2 100 1 0 1; mkUsageDelta 2 100 1 0 2;
                        mkUsageDelta 3 100 1 0 1; mkUsageDelta 2 100 1 0 3]
  /\ forall p, by_path p (PendingBatch 4 sample_meter) `prefix_of` by_path p (m_pending sample_meter).
Proof.
  split; [vm_compute; reflexivity |].
  apply (PendingBatch_fair 4 sample_meter). discriminate.
Defined.
