(* ===== verification/Control.v ===== *)
(** * The frontend's control server ([internal/engine/control.go])

    What the frontend does with the frames of an authenticated peer: the usage
    batches that end in the ledger ([applyUsage], with [Engine.addUsageBatch]
    of [engine.go]), the configuration it pushes back ([backendConfig]), the
    per-address connection budget, and the throttles that bound its log.  The
    journal lines themselves are not modelled; the counters behind them are. *)

From S2P Require Import Prelude GoTime Float64 Model Bytes Decimal Messages Store Quota.

(** ** Throttled reports *)

Definition throttleWindow : Duration := 30 * Second.

Record throttle := mkThrottle { th_at : Time; th_seen : Z }.
Definition new_throttle : throttle := mkThrottle zeroTime 0.

Definition throttle_take (now : Time) (t : throttle) : Z * throttle :=
  let seen := i64 (th_seen t + 1) in
  if Sub now (th_at t) <? throttleWindow then (0, mkThrottle (th_at t) seen)
  else (seen, mkThrottle now 0).

Definition throttle_flush (now : Time) (t : throttle) : Z * throttle :=
  if (th_seen t =? 0) || (Sub now (th_at t) <? throttleWindow) then (0, t)
  else (th_seen t, mkThrottle now 0).

(** ** The bounds on a delta *)

Definition maxDeltaBytes : Z := Z.shiftl 1 44.
Definition maxDeltaPackets : Z := Z.shiftl 1 40.
Definition maxDeltaSequence : Z := Z.shiftl 1 40.
Definition maxSequenceJump : Z := Z.shiftl 1 27.
Definition maxDeltaSkew : Duration := Hour.
Definition maxDeltaAge : Duration := 7 * 24 * Hour.
Definition maxDeltaPathID : Z := 100.   (* sysx.ProbeDenyBandSize *)
Definition maxDeltasPerFrame : Z := 1000.

Definition clampStamp (atUnix : Z) (now : Time) : Z * string :=
  let newest := Unix (Add now maxDeltaSkew) in
  let oldest := Unix (Add now (- maxDeltaAge)) in
  if newest <? atUnix then (Unix now, "a timestamp in the future"%string)
  else if atUnix <? oldest then (Unix now, "a timestamp too far in the past to bill"%string)
  else (atUnix, ""%string).

Definition clamp_count (max v : Z) (negative large : string) : Z * list string :=
  if v <? 0 then (0, [negative]) else if max <? v then (max, [large]) else (v, []).

Definition clampCounts (b packets : Z) : Z * Z * list string :=
  let '(b, why1) := clamp_count maxDeltaBytes b "negative bytes" "implausible byte count" in
  let '(packets, why2) :=
    clamp_count maxDeltaPackets packets "negative packets" "implausible packet count" in
  (b, packets, why1 ++ why2).

(** ** The server *)

Record ControlServer := mkControlServer {
  cs_perSource : gmap string Z;
  cs_clamped : throttle; cs_badPath : throttle; cs_badSeq : throttle; cs_oversized : throttle }.

Definition NewControlServer : ControlServer :=
  mkControlServer ∅ new_throttle new_throttle new_throttle new_throttle.

Definition note_clamped (now : Time) (s : ControlServer) : ControlServer :=
  mkControlServer (cs_perSource s) (throttle_take now (cs_clamped s)).2 (cs_badPath s)
    (cs_badSeq s) (cs_oversized s).
Definition note_badPath (now : Time) (s : ControlServer) : ControlServer :=
  mkControlServer (cs_perSource s) (cs_clamped s) (throttle_take now (cs_badPath s)).2
    (cs_badSeq s) (cs_oversized s).
Definition note_badSeq (now : Time) (s : ControlServer) : ControlServer :=
  mkControlServer (cs_perSource s) (cs_clamped s) (cs_badPath s)
    (throttle_take now (cs_badSeq s)).2 (cs_oversized s).
Definition note_oversized (now : Time) (s : ControlServer) : ControlServer :=
  mkControlServer (cs_perSource s) (cs_clamped s) (cs_badPath s) (cs_badSeq s)
    (throttle_take now (cs_oversized s)).2.

Definition checkDelta (d : UsageDelta) (now : Time) (s : ControlServer) : UsageDelta * ControlServer :=
  let '(b, packets, why) := clampCounts (ud_Bytes d) (ud_Packets d) in
  let '(at_, reason) := clampStamp (ud_AtUnix d) now in
  let why := if String.eqb reason "" then why else why ++ [reason] in
  let out := mkUsageDelta (ud_PathID d) b packets at_ (ud_Sequence d) in
  (out, match why with [] => s | _ => note_clamped now s end).

Definition maxPerSource : Z := 4.

Definition claimSource (ip : string) (s : ControlServer) : bool * ControlServer :=
  let n := default 0 (cs_perSource s !! ip) in
  if maxPerSource <=? n then (false, s)
  else (true, mkControlServer (<[ip := n + 1]> (cs_perSource s)) (cs_clamped s) (cs_badPath s)
                (cs_badSeq s) (cs_oversized s)).

Definition releaseSource (ip : string) (s : ControlServer) : ControlServer :=
  let n := default 0 (cs_perSource s !! ip) in
  let m := if n <=? 1 then delete ip (cs_perSource s) else <[ip := n - 1]> (cs_perSource s) in
  mkControlServer m (cs_clamped s) (cs_badPath s) (cs_badSeq s) (cs_oversized s).

(** ** From a delta to the ledger *)

Record usageSample := mkUsageSample' { smp_Bytes : Z; smp_Packets : Z; smp_At : Time }.

Section billing.
Context (LoadLocation : string -> option GoTime.Location).

(** The ledger entry [addUsageBatch] makes of a sample. *)
Definition bill_entry (q : Quota) (now : Time) (s : usageSample) : UsageEntry :=
  let '(b, packets, _) := clampCounts (smp_Bytes s) (smp_Packets s) in
  let at_ := (clampStamp (Unix (smp_At s)) now).1 in
  let start := (PeriodBoundsIn (quota_ResetDay q) (Location_of LoadLocation q) (UnixTime at_)).1 in
  mkUsageEntry start (UnixTime at_) (Metered b packets q) packets.

Definition addUsageBatch (cfg : Config) (now : Time) (path : Z) (samples : list usageSample)
    (seqKey seqVal : string) : SM unit :=
  match PathByID cfg path with
  | Some p =>
      if path_Metered p
      then AddUsageBatch path (bill_entry (path_Quota p) now <$> samples) seqKey seqVal
      else SetMeta seqKey seqVal
  | None => SetMeta seqKey seqVal
  end.

Record pathBatch := mkPathBatch {
  bt_key : string; bt_base : Z; bt_seen : Z; bt_samples : list usageSample }.

Record UsageRun := mkUsageRun {
  run_batches : gmap Z pathBatch;
  run_order : list Z;
  run_unread : gset Z;
  run_ack : gmap Z Z;
  run_store : Store;
  run_server : ControlServer }.

Definition on_server (f : ControlServer -> ControlServer) (r : UsageRun) : UsageRun :=
  mkUsageRun (run_batches r) (run_order r) (run_unread r) (run_ack r) (run_store r)
    (f (run_server r)).

Definition usage_key (path : Z) : string := ("usage_seq:" ++ Itoa path)%string.

(** The path's batch, opened at its first delta with the watermark read from
    the store; none when the watermark cannot be read. *)
Definition open_batch (path : Z) (r : UsageRun) : option pathBatch * UsageRun :=
  match run_batches r !! path with
  | Some b => (Some b, r)
  | None =>
      let key := usage_key path in
      let '(raw, st) := MetaChecked key (run_store r) in
      let last := match raw with
                  | Err _ => None
                  | Ok raw => if String.eqb raw "" then Some 0 else ParseUint raw
                  end in
      match last with
      | None => (None, mkUsageRun (run_batches r) (run_order r) ({[path]} ∪ run_unread r)
                         (run_ack r) st (run_server r))
      | Some last =>
          let b := mkPathBatch key last last [] in
          (Some b, mkUsageRun (<[path := b]> (run_batches r)) (run_order r ++ [path]) (run_unread r)
                     (<[path := last]> (run_ack r)) st (run_server r))
      end
  end.

Definition HasPath (cfg : Config) (id : Z) : bool := bool_decide (is_Some (PathByID cfg id)).

(** One delta of a frame.  The [known] memo of the source caches [HasPath]. *)
Definition apply_delta (cfg : Config) (now : Time) (r : UsageRun) (d : UsageDelta) : UsageRun :=
  let path := ud_PathID d in
  if negb (HasPath cfg path) && ((path <=? 0) || (maxDeltaPathID <=? path))
  then on_server (note_badPath now) r
  else if maxDeltaSequence <? ud_Sequence d then on_server (note_badSeq now) r
  else if bool_decide (path ∈ run_unread r) then r
  else
    match open_batch path r with
    | (None, r) => r
    | (Some b, r) =>
        if ud_Sequence d <=? bt_seen b then r
        else if maxSequenceJump <? u64 (ud_Sequence d - bt_base b)
        then on_server (note_badSeq now) r
        else
          let '(d, server) := checkDelta d now (run_server r) in
          let b := mkPathBatch (bt_key b) (bt_base b) (ud_Sequence d)
            (bt_samples b ++ [mkUsageSample' (ud_Bytes d) (ud_Packets d) (UnixTime (ud_AtUnix d))]) in
          mkUsageRun (<[path := b]> (run_batches r)) (run_order r) (run_unread r) (run_ack r)
            (run_store r) server
    end.

(** One path of the commit loop: the ledger first, then the ack. *)
Definition commit_path (cfg : Config) (nowOf : Z -> Time) (r : UsageRun) (id : Z) : UsageRun :=
  match run_batches r !! id with
  | None => r
  | Some b =>
      match bt_samples b with
      | [] => r
      | samples =>
          match addUsageBatch cfg (nowOf id) id samples (bt_key b) (FormatUint (bt_seen b)) (run_store r) with
          | (Err _, st) => mkUsageRun (run_batches r) (run_order r) (run_unread r) (run_ack r) st (run_server r)
          | (Ok _, st) => mkUsageRun (run_batches r) (run_order r) (run_unread r)
                            (<[id := bt_seen b]> (run_ack r)) st (run_server r)
          end
      end
  end.

(** [applyUsage]: [now] is read once at the top, and [nowOf] by each path's
    write. *)
Definition applyUsage (cfg : Config) (now : Time) (nowOf : Z -> Time) (u : Messages.Usage)
    (st : Store) (server : ControlServer) : UsageAck * Store * ControlServer :=
  let deltas := usage_Deltas u in
  let over := maxDeltasPerFrame <? Z.of_nat (length deltas) in
  let server := if over then note_oversized now server else server in
  let deltas := if over then take (Z.to_nat maxDeltasPerFrame) deltas else deltas in
  let r := fold_left (apply_delta cfg now) deltas (mkUsageRun ∅ [] ∅ ∅ st server) in
  let r := fold_left (commit_path cfg nowOf) (run_order r) r in
  (mkUsageAck (run_ack r), run_store r, run_server r).
End billing.

(** ** The pushed configuration *)

Definition backendConfig (cfg : Config) : BackendConfig :=
  let o := cfg_Overlay cfg in
  mkBackendConfig
    (mkOverlayInfo (ov_FrontendIP o) (ov_BackendIP o) (ov_Device o) (ov_Subnet o))
    ((fun p => mkPathInfo (path_ID p) (path_Name p) (path_Iface p) (path_Table p) (path_Mark p)
                 (path_Metered p) (shape_ToFrontendMbit (path_Shape p))) <$> cfg_Paths cfg)
    (cfg_Mode cfg) 10000
    ((fun l => mkLinkerRoute (linker_OverlayIP l) (linker_LanIP l))
       <$> filter (fun l => linker_Enabled l = true) (cfg_Linkers cfg))
    (if fe_BackendEgress (cfg_Frontend cfg)
     then src_CIDR <$> filter (fun s => src_Enabled s && negb (String.eqb (src_CIDR s) "")
                && String.eqb (HostOr s (ov_BackendIP o)) (ov_BackendIP o) = true)
            (egress_Sources (cfg_Egress cfg))
     else []).

(** ** What a frame does, path by path *)

(** The watermark the store holds for a path; none when the row is damaged. *)
Definition watermark (d : DB) (p : Z) : option Z :=
  match db_meta d !! usage_key p with
  | None => Some 0
  | Some raw => if String.eqb raw "" then Some 0 else ParseUint raw
  end.

Lemma watermark_range d p w : watermark d p = Some w -> in_u64 w.
Proof.
  unfold watermark. destruct (_ !! _) as [raw|]; [destruct (String.eqb raw "") |];
    [intros [= <-]; go_lia | apply ParseUint_range | intros [= <-]; go_lia].
Qed.

(** The deltas of one path a frame takes: past everything seen so far, inside
    the sequence bound, and within the jump of where the frame began. *)
Fixpoint accepted (base seen : Z) (ds : list UsageDelta) : list UsageDelta :=
  match ds with
  | [] => []
  | d :: ds =>
      if (ud_Sequence d <=? maxDeltaSequence) && (seen <? ud_Sequence d)
         && (ud_Sequence d - base <=? maxSequenceJump)
      then d :: accepted base (ud_Sequence d) ds else accepted base seen ds
  end.

Definition last_seq (seen : Z) (ds : list UsageDelta) : Z :=
  fold_left (fun _ d => ud_Sequence d) ds seen.

(** What [checkDelta] leaves of a delta, as a sample. *)
Definition checked_sample (now : Time) (d : UsageDelta) : usageSample :=
  let '(b, packets, _) := clampCounts (ud_Bytes d) (ud_Packets d) in
  mkUsageSample' b packets (UnixTime (clampStamp (ud_AtUnix d) now).1).

Lemma checkDelta_sample d now s :
  let out := (checkDelta d now s).1 in
  mkUsageSample' (ud_Bytes out) (ud_Packets out) (UnixTime (ud_AtUnix out)) = checked_sample now d
  /\ ud_Sequence out = ud_Sequence d.
Proof.
  unfold checkDelta, checked_sample. destruct (clampCounts _ _) as [[b pk] why].
  by destruct (clampStamp _ _).
Qed.

Lemma accepted_snoc base ds d : forall seen,
  let acc := accepted base seen ds in
  accepted base seen (ds ++ [d]) =
    acc ++ (if (ud_Sequence d <=? maxDeltaSequence) && (last_seq seen acc <? ud_Sequence d)
               && (ud_Sequence d - base <=? maxSequenceJump) then [d] else []).
Proof.
  induction ds as [|x ds IH]; intros seen; simpl; [by destruct (_ && _) |].
  destruct (_ && _) eqn:E; simpl; [f_equal |]; apply IH.
Qed.

Lemma last_seq_ge base ds : forall seen, seen <= last_seq seen (accepted base seen ds).
Proof.
  induction ds as [|d ds IH]; intros seen; simpl; [lia |].
  destruct (_ && _) eqn:E; [| apply IH]. bool_to_prop. simpl.
  specialize (IH (ud_Sequence d)). unfold last_seq in *. lia.
Qed.

Lemma last_seq_snoc seen ds d : last_seq seen (ds ++ [d]) = ud_Sequence d.
Proof. unfold last_seq. by rewrite fold_left_app. Qed.

(** A path whose deltas a frame may bill or discard; any other is dropped
    without an answer. *)
Definition eligible (cfg : Config) (p : Z) : bool :=
  HasPath cfg p || ((0 <? p) && (p <? maxDeltaPathID)).

(** What the frame has made of the deltas [ds] of one path. *)
Definition batch_of (now : Time) (db : DB) (p : Z) (ds : list UsageDelta) (b : pathBatch) : Prop :=
  exists base, watermark db p = Some base
    /\ b = mkPathBatch (usage_key p) base (last_seq base (accepted base base ds))
             (checked_sample now <$> accepted base base ds).

(** A frame's state against the part of the frame already read. *)
Record run_inv (cfg : Config) (now : Time) (st0 : Store) (ds : list UsageDelta) (r : UsageRun) : Prop := {
  ri_db : st_db (run_store r) = st_db st0;
  ri_order : NoDup (run_order r);
  ri_dom : forall p, p ∈ run_order r <-> is_Some (run_batches r !! p);
  ri_ack : forall p, run_ack r !! p = bt_base <$> run_batches r !! p;
  ri_batch : forall p b, run_batches r !! p = Some b ->
    eligible cfg p = true /\ batch_of now (st_db st0) p (by_path p ds) b;
  ri_unread : forall p, p ∈ run_unread r -> run_batches r !! p = None;
  ri_closed : forall p, eligible cfg p = true -> run_batches r !! p = None -> p ∉ run_unread r ->
    Forall (fun d => maxDeltaSequence < ud_Sequence d) (by_path p ds);
  ri_live : st_faults st0 = [] ->
    st_faults (run_store r) = []
    /\ (forall p, p ∈ run_unread r -> watermark (st_db st0) p = None) }.

Lemma eligible_guard cfg p :
  negb (HasPath cfg p) && ((p <=? 0) || (maxDeltaPathID <=? p)) = negb (eligible cfg p).
Proof.
  unfold eligible. destruct (HasPath cfg p); [done |]. simpl.
  destruct (Z.ltb_spec 0 p), (Z.ltb_spec p maxDeltaPathID), (Z.leb_spec p 0),
    (Z.leb_spec maxDeltaPathID p); simpl; done || lia.
Qed.

Lemma accepted_big base ds : forall seen,
  Forall (fun d => maxDeltaSequence < ud_Sequence d) ds -> accepted base seen ds = [].
Proof.
  induction ds as [|d ds IH]; intros seen H; [done |]. inversion_clear H. simpl.
  destruct (Z.leb_spec (ud_Sequence d) maxDeltaSequence); [lia |]. by apply IH.
Qed.

Lemma MetaChecked_cases key st :
  st_db (MetaChecked key st).2 = st_db st
  /\ ((MetaChecked key st).1 = Ok (default ""%string (db_meta (st_db st) !! key))
      \/ exists e, (MetaChecked key st).1 = Err e)
  /\ (st_faults st = [] -> (MetaChecked key st).2 = st
        /\ (MetaChecked key st).1 = Ok (default ""%string (db_meta (st_db st) !! key))).
Proof.
  unfold MetaChecked, query, sbind, call.
  destruct (st_faults st) as [|[] fs]; simpl; split_and!; try done; eauto.
Qed.

Lemma watermark_read db path :
  (if String.eqb (default ""%string (db_meta db !! usage_key path)) "" then Some 0
   else ParseUint (default ""%string (db_meta db !! usage_key path))) = watermark db path.
Proof. unfold watermark. by destruct (_ !! _). Qed.

(** Opening a batch leaves the invariant, with the path's batch open or the
    path set aside. *)
Lemma open_batch_inv cfg now st0 ds path r :
  run_inv cfg now st0 ds r -> eligible cfg path = true -> path ∉ run_unread r ->
  let '(b, r') := open_batch path r in
  run_inv cfg now st0 ds r' /\ run_batches r' !! path = b
  /\ (b = None -> path ∈ run_unread r').
Proof.
  intros Hinv Hel Hun. unfold open_batch.
  destruct (run_batches r !! path) as [b|] eqn:Eb; [by split_and! |].
  destruct (MetaChecked_cases (usage_key path) (run_store r)) as (M1 & M2 & M3).
  destruct (MetaChecked (usage_key path) (run_store r)) as [raw st]; simpl in M1, M2, M3.
  pose proof Hinv as [Hdb Hord Hdom Hack Hbat Hunr Hclo Hliv].
  set (last := match raw with Ok _ => _ | Err _ => _ end).
  assert (Hlast : last = watermark (st_db st0) path \/ last = None /\ st_faults st0 <> []).
  { destruct M2 as [-> | [e ->]]; subst last.
    - left. rewrite Hdb. apply watermark_read.
    - right. split; [done |]. intros Hf. destruct (Hliv Hf) as [Hf' _].
      by destruct (M3 Hf') as [_ [=]]. }
  assert (Hlive : st_faults st0 = [] -> st_faults st = []).
  { intros Hf. destruct (Hliv Hf) as [Hf' _]. by destruct (M3 Hf') as [-> _]. }
  destruct last as [base|].
  - split_and!; [| simpl; by rewrite lookup_insert_eq | done].
    assert (Hw : watermark (st_db st0) path = Some base) by (destruct Hlast as [| [? _]]; done).
    assert (Hnew : path ∉ run_order r) by (rewrite Hdom, Eb; by intros [? ?]).
    split; simpl.
    + by rewrite M1.
    + apply NoDup_app. split_and!; [done | | by apply NoDup_singleton].
      intros p Hp ->%list_elem_of_singleton. done.
    + intros p. rewrite elem_of_app, list_elem_of_singleton, Hdom.
      destruct (decide (p = path)) as [-> | Hne].
      * rewrite lookup_insert_eq. naive_solver.
      * rewrite lookup_insert_ne by done. naive_solver.
    + intros p. destruct (decide (p = path)) as [-> | Hne].
      * by rewrite !lookup_insert_eq.
      * rewrite !lookup_insert_ne by done. apply Hack.
    + intros p b. destruct (decide (p = path)) as [-> | Hne].
      * rewrite lookup_insert_eq. intros [= <-]. split; [done |]. exists base. split; [done |].
        by rewrite (accepted_big base _ base (Hclo path Hel Eb Hun)).
      * rewrite lookup_insert_ne by done. apply Hbat.
    + intros p Hp. rewrite lookup_insert_ne by (intros <-; done). by apply Hunr.
    + intros p Hp Hnone. destruct (decide (p = path)) as [-> | Hne].
      * by rewrite lookup_insert_eq in Hnone.
      * rewrite lookup_insert_ne in Hnone by done. by apply Hclo.
    + intros Hf. split; [by apply Hlive | by apply Hliv].
  - split_and!; [| done | intros _; simpl; set_solver].
    split; simpl; try done.
    + by rewrite M1.
    + intros p Hp. apply elem_of_union in Hp as [->%elem_of_singleton | Hp]; [done | by apply Hunr].
    + intros p Hp Hnone Hu. apply Hclo; [done | done | set_solver].
    + intros Hf. split; [by apply Hlive |]. intros p Hp.
      apply elem_of_union in Hp as [->%elem_of_singleton | Hp]; [| by apply Hliv].
      destruct Hlast as [<- | [_ ?]]; done.
Qed.

Lemma by_path_snoc p ds d :
  by_path p (ds ++ [d]) = by_path p ds ++ (if decide (ud_PathID d = p) then [d] else []).
Proof. rewrite by_path_app, by_path_cons. by case_decide. Qed.

(** A delta that changes no batch: the invariant moves past it. *)
Lemma run_inv_skip cfg now st0 ds r d r' :
  run_inv cfg now st0 ds r ->
  run_batches r' = run_batches r -> run_order r' = run_order r -> run_unread r' = run_unread r ->
  run_ack r' = run_ack r -> run_store r' = run_store r ->
  (forall b, run_batches r !! ud_PathID d = Some b -> eligible cfg (ud_PathID d) = true ->
     (ud_Sequence d <=? maxDeltaSequence) && (bt_seen b <? ud_Sequence d)
     && (ud_Sequence d - bt_base b <=? maxSequenceJump) = false) ->
  (run_batches r !! ud_PathID d = None -> ud_PathID d ∉ run_unread r ->
     eligible cfg (ud_PathID d) = true -> maxDeltaSequence < ud_Sequence d) ->
  run_inv cfg now st0 (ds ++ [d]) r'.
Proof.
  intros [Hdb Hord Hdom Hack Hbat Hunr Hclo Hliv] E1 E2 E3 E4 E5 Hb Hn.
  split; rewrite ?E1, ?E2, ?E3, ?E4, ?E5; try done.
  - intros p b Hp. rewrite by_path_snoc. destruct (Hbat p b Hp) as (He & base & Hw & Hbo).
    split; [done |]. exists base. split; [done |]. case_decide as Hd; [| by rewrite app_nil_r].
    subst p. specialize (Hb b Hp He). rewrite accepted_snoc. subst b. simpl in Hb.
    rewrite Hb, app_nil_r. done.
  - intros p He Hnone Hu. rewrite by_path_snoc. apply Forall_app_2; [by apply Hclo |].
    case_decide as Hd; [| constructor]. subst p. repeat constructor. by apply Hn.
Qed.

Lemma u64_gap base seq : in_u64 base -> base <= seq -> seq <= maxDeltaSequence ->
  u64 (seq - base) = seq - base.
Proof.
  intros Hb Hle Hs. apply u64_id. change maxDeltaSequence with 1099511627776 in Hs. go_lia.
Qed.

Lemma apply_delta_inv cfg now st0 ds r d :
  run_inv cfg now st0 ds r -> run_inv cfg now st0 (ds ++ [d]) (apply_delta cfg now r d).
Proof.
  intros Hinv. unfold apply_delta. rewrite eligible_guard.
  destruct (eligible cfg (ud_PathID d)) eqn:Hel; simpl;
    [| apply (run_inv_skip _ _ _ _ r); try done; congruence].
  destruct (Z.ltb_spec maxDeltaSequence (ud_Sequence d)) as [Hbig|Hsmall].
  { apply (run_inv_skip _ _ _ _ r); try done. intros b _ _.
    destruct (Z.leb_spec (ud_Sequence d) maxDeltaSequence); [lia | done]. }
  destruct (bool_decide (ud_PathID d ∈ run_unread r)) eqn:Hu.
  { apply bool_decide_eq_true in Hu.
    apply (run_inv_skip _ _ _ _ r); try done. intros b Hb. by rewrite (ri_unread _ _ _ _ _ Hinv _ Hu) in Hb. }
  apply bool_decide_eq_false in Hu.
  pose proof (open_batch_inv cfg now st0 ds (ud_PathID d) r Hinv Hel Hu) as Hopen.
  destruct (open_batch (ud_PathID d) r) as [[b|] r1]; destruct Hopen as (Hinv1 & Hb1 & Hun1).
  2:{ apply (run_inv_skip _ _ _ _ r1); try done; [congruence |].
      intros _ Hn. by destruct Hn; apply Hun1. }
  clear Hinv Hu Hun1.
  destruct (ri_batch _ _ _ _ _ Hinv1 _ _ Hb1) as (_ & base & Hw & Hbo).
  assert (Hseen : base <= bt_seen b) by (subst b; apply last_seq_ge).
  assert (Hbase : bt_base b = base) by (by subst b).
  destruct (Z.leb_spec (ud_Sequence d) (bt_seen b)) as [Hold|Hnew].
  { apply (run_inv_skip _ _ _ _ r1); try done; [| congruence]. intros b' Hb'.
    rewrite Hb1 in Hb'. injection Hb' as <-.
    destruct (Z.ltb_spec (bt_seen b) (ud_Sequence d)); [lia |]. by rewrite andb_false_r. }
  rewrite u64_gap by (try (eapply watermark_range; by rewrite Hbase); lia).
  destruct (Z.ltb_spec maxSequenceJump (ud_Sequence d - bt_base b)) as [Hfar|Hnear].
  { apply (run_inv_skip _ _ _ _ r1); try done; [| simpl; congruence]. intros b' Hb'.
    rewrite Hb1 in Hb'. injection Hb' as <-.
    destruct (Z.leb_spec (ud_Sequence d - bt_base b) maxSequenceJump); [lia |].
    by rewrite andb_false_r. }
  destruct (checkDelta_sample d now (run_server r1)) as [Hc1 Hc2].
  destruct (checkDelta d now (run_server r1)) as [out server]. simpl in Hc1, Hc2.
  destruct Hinv1 as [Hdb Hord Hdom Hack Hbat Hunr Hclo Hliv].
  assert (Hsame : forall p, is_Some (<[ud_PathID d := mkPathBatch (bt_key b) (bt_base b) (ud_Sequence out)
      (bt_samples b ++ [mkUsageSample' (ud_Bytes out) (ud_Packets out) (UnixTime (ud_AtUnix out))])]>
      (run_batches r1) !! p) <-> is_Some (run_batches r1 !! p)).
  { intros p. destruct (decide (p = ud_PathID d)) as [-> | Hne].
    - rewrite lookup_insert_eq, Hb1. split; eauto.
    - by rewrite lookup_insert_ne. }
  split; simpl; try done.
  - intros p. by rewrite Hsame.
  - intros p. destruct (decide (p = ud_PathID d)) as [-> | Hne].
    + by rewrite Hack, Hb1, lookup_insert_eq.
    + by rewrite lookup_insert_ne.
  - intros p b'. rewrite by_path_snoc. destruct (decide (p = ud_PathID d)) as [-> | Hne].
    + rewrite lookup_insert_eq, decide_True by done. intros [= <-]. split; [done |].
      exists base. split; [done |]. rewrite accepted_snoc.
      replace ((ud_Sequence d <=? maxDeltaSequence) && _ && _) with true.
      * rewrite last_seq_snoc, fmap_app, Hc1, Hc2. by subst b.
      * subst b. simpl in Hnew, Hnear. symmetry. rewrite !andb_true_iff, Z.ltb_lt, !Z.leb_le. lia.
    + rewrite lookup_insert_ne, decide_False, app_nil_r by congruence. apply Hbat.
  - intros p Hp. destruct (decide (p = ud_PathID d)) as [-> | Hne].
    + by rewrite (Hunr _ Hp) in Hb1.
    + rewrite lookup_insert_ne by done. by apply Hunr.
  - intros p He Hnone Hu. destruct (decide (p = ud_PathID d)) as [-> | Hne].
    + by rewrite lookup_insert_eq in Hnone.
    + rewrite lookup_insert_ne in Hnone by done. rewrite by_path_snoc, decide_False, app_nil_r by congruence.
      by apply Hclo.
Qed.

Lemma apply_deltas_inv cfg now st0 ds : forall pre r,
  run_inv cfg now st0 pre r ->
  run_inv cfg now st0 (pre ++ ds) (fold_left (apply_delta cfg now) ds r).
Proof.
  induction ds as [|d ds IH]; intros pre r H; simpl; [by rewrite app_nil_r |].
  rewrite (cons_middle d), app_assoc. apply IH. by apply apply_delta_inv.
Qed.

Lemma run_inv_start cfg now st server : run_inv cfg now st [] (mkUsageRun ∅ [] ∅ ∅ st server).
Proof.
  split; cbn [run_store run_order run_batches run_ack run_unread].
  - done.
  - constructor.
  - intros p. rewrite lookup_empty, elem_of_nil. split; [done | by intros [? ?]].
  - intros p. by rewrite !lookup_empty.
  - intros p b. by rewrite lookup_empty.
  - set_solver.
  - intros p _ _ _. constructor.
  - intros Hf. split; [done | set_solver].
Qed.

(** ** What the commit loop does *)

(** The part of the store one path's accounting lives in. *)
Definition path_samples (p : Z) (d : DB) : list UsageSample :=
  filter (fun r => us_path r = p) (db_usage_samples d).

Definition same_path (p : Z) (d d' : DB) : Prop :=
  watermark d' p = watermark d p /\ path_samples p d' = path_samples p d
  /\ forall start, ledger_at d' (p, start) = ledger_at d (p, start).

Lemma same_path_refl p d : same_path p d d.
Proof. done. Qed.

Lemma same_path_trans p d1 d2 d3 : same_path p d1 d2 -> same_path p d2 d3 -> same_path p d1 d3.
Proof.
  intros (A1 & A2 & A3) (B1 & B2 & B3). unfold same_path. rewrite B1, B2, A1, A2.
  split_and!; try done. intros start. by rewrite B3.
Qed.

Lemma usage_key_inj p q : in_i64 p -> in_i64 q -> usage_key p = usage_key q -> p = q.
Proof.
  intros Hp Hq H. apply Itoa_inj; [done | done |]. unfold usage_key in H.
  cbn [String.append] in H. by injection H.
Qed.

Lemma usage_key_nonempty p : usage_key p <> ""%string.
Proof. done. Qed.

Section commit.
Context (LoadLocation : string -> option GoTime.Location) (cfg : Config).

(** The ledger entries a path's samples become. *)
Definition entries_of (now : Time) (p : Z) (samples : list usageSample) : list UsageEntry :=
  match PathByID cfg p with
  | Some pc => if path_Metered pc
               then bill_entry LoadLocation (path_Quota pc) now <$> samples else []
  | None => []
  end.

Definition sample_row (p : Z) (e : UsageEntry) : UsageSample :=
  mkUsageSample (Unix (ue_At e)) p (clampLedger (ue_Bytes e)) (clampLedger (ue_Packets e)).

Lemma addUsageBatch_is now p samples key value :
  key <> ""%string ->
  atomic (addUsageBatch LoadLocation cfg now p samples key value)
    (batch_db p (entries_of now p samples) key value).
Proof.
  intros Hkey. unfold addUsageBatch, entries_of.
  destruct (PathByID cfg p) as [pc|]; [destruct (path_Metered pc) |];
    [by apply AddUsageBatch_is | apply atomic_exec | apply atomic_exec].
Qed.

(** A path's entries are in the ledger and its watermark stands at [seen]. *)
Definition billed (p : Z) (es : list UsageEntry) (seen : Z) (d d' : DB) : Prop :=
  watermark d' p = Some seen
  /\ path_samples p d' = path_samples p d ++ (sample_row p <$> es)
  /\ forall start, ledger_at d' (p, start) =
       (Z.min ((ledger_at d (p, start)).1 + batch_sum ue_Bytes start es) MaxLedgerValue,
        Z.min ((ledger_at d (p, start)).2 + batch_sum ue_Packets start es) MaxLedgerValue).

Lemma billed_from p es seen d0 d d' :
  same_path p d0 d -> billed p es seen d d' -> billed p es seen d0 d'.
Proof.
  intros (A1 & A2 & A3) (B1 & B2 & B3). unfold billed. rewrite <- A2. split_and!; try done.
  intros start. by rewrite <- A3.
Qed.

Lemma billed_then p es seen d d' d'' :
  billed p es seen d d' -> same_path p d' d'' -> billed p es seen d d''.
Proof.
  intros (A1 & A2 & A3) (B1 & B2 & B3). unfold billed. rewrite B1, B2. split_and!; try done.
  intros start. by rewrite B3.
Qed.

Lemma batch_db_samples q p es key value d :
  path_samples q (batch_db p es key value d)
  = path_samples q d ++ (if decide (p = q) then sample_row p <$> es else []).
Proof.
  unfold path_samples, batch_db. cbn [set_meta db_usage_samples].
  destruct (add_entries_frame p es d) as (_ & _ & _ & ->). rewrite filter_app. f_equal.
  change (fun e => mkUsageSample _ p _ _) with (sample_row p).
  induction es as [|e es IH]; [by case_decide |].
  rewrite fmap_cons, filter_cons, IH. simpl. by case_decide.
Qed.

Lemma batch_db_billed p es seen d :
  ledger_ok d -> in_u64 seen ->
  billed p es seen d (batch_db p es (usage_key p) (FormatUint seen) d)
  /\ ledger_ok (batch_db p es (usage_key p) (FormatUint seen) d).
Proof.
  intros Hd Hs. destruct (add_entries_at p es d (p, 0) Hd) as [Hok _]. split; [| exact Hok].
  split_and!.
  - unfold watermark, batch_db. cbn [set_meta db_meta]. rewrite lookup_insert_eq.
    destruct (String.eqb_spec (FormatUint seen) "") as [He|_]; [by apply FormatUint_nonempty in He |].
    by apply ParseUint_FormatUint.
  - by rewrite batch_db_samples, decide_True.
  - intros start. destruct (add_entries_at p es d (p, start) Hd) as [_ H].
    simpl in H. rewrite Z.eqb_refl in H. exact H.
Qed.

Lemma batch_db_other q p es value d :
  in_i64 p -> in_i64 q -> q <> p -> ledger_ok d ->
  same_path q d (batch_db p es (usage_key p) value d).
Proof.
  intros Hp Hq Hne Hd. split_and!.
  - unfold watermark, batch_db. cbn [set_meta db_meta].
    rewrite lookup_insert_ne; [by destruct (add_entries_frame p es d) as (-> & _) |].
    intros H. apply Hne. by apply usage_key_inj.
  - by rewrite batch_db_samples, decide_False, app_nil_r.
  - intros start. destruct (add_entries_at p es d (q, start) Hd) as [_ H].
    simpl in H. destruct (Z.eqb_spec q p); [done |]. exact H.
Qed.

Context (nowOf : Z -> Time).

(** What became of one path's batch. *)
Definition outcome (p : Z) (b : pathBatch) (d d' : DB) (ack ack' : option Z) (healthy : Prop) : Prop :=
  (ack' = ack /\ same_path p d d' /\ (healthy -> bt_samples b = []))
  \/ (bt_samples b <> [] /\ ack' = Some (bt_seen b)
      /\ billed p (entries_of (nowOf p) p (bt_samples b)) (bt_seen b) d d').

Definition batch_ok (p : Z) (b : pathBatch) : Prop := bt_key b = usage_key p /\ in_u64 (bt_seen b).

Lemma commit_path_spec r id b :
  in_i64 id -> run_batches r !! id = Some b -> batch_ok id b -> ledger_ok (st_db (run_store r)) ->
  let r' := commit_path LoadLocation cfg nowOf r id in
  let d := st_db (run_store r) in
  let d' := st_db (run_store r') in
  run_batches r' = run_batches r /\ ledger_ok d'
  /\ (st_faults (run_store r) = [] -> st_faults (run_store r') = [])
  /\ outcome id b d d' (run_ack r !! id) (run_ack r' !! id) (st_faults (run_store r) = [])
  /\ (forall q, in_i64 q -> q <> id -> run_ack r' !! q = run_ack r !! q /\ same_path q d d').
Proof.
  intros Hid Hb [Hk Hs] Hd. unfold commit_path. rewrite Hb.
  unfold outcome. destruct (bt_samples b) as [|x xs]; cbv zeta.
  { split_and!; try done. left. split_and!; try done. }
  rewrite Hk. set (samples := x :: xs).
  destruct (addUsageBatch_is (nowOf id) id samples (usage_key id)
    (FormatUint (bt_seen b)) (usage_key_nonempty id) (run_store r)) as [Hat Hok].
  destruct (addUsageBatch _ _ _ _ _ _ _ (run_store r)) as [res st]. simpl in Hat, Hok.
  set (es := entries_of (nowOf id) id samples) in *.
  assert (Hfine : st_faults (run_store r) = [] ->
    res = Ok tt /\ st_faults st = []) by (intros Hf; by injection (Hok Hf) as -> ->).
  destruct (batch_db_billed id es (bt_seen b) (st_db (run_store r)) Hd Hs) as [Hbill Hld].
  destruct Hat as [(e & -> & Hdb) | [-> Hdb]]; cbn [run_batches run_store run_ack].
  - rewrite Hdb. split_and!; try done.
    + intros Hf. by destruct (Hfine Hf).
    + left. split_and!; try done. intros Hf. by destruct (Hfine Hf).
  - rewrite Hdb. split_and!; try done.
    + intros Hf. by destruct (Hfine Hf).
    + right. rewrite lookup_insert_eq. by split_and!.
    + intros q Hq Hne. rewrite lookup_insert_ne by done. split; [done |]. by apply batch_db_other.
Qed.

Lemma commit_fold ids : forall r,
  NoDup ids -> Forall in_i64 ids -> ledger_ok (st_db (run_store r)) ->
  (forall p, p ∈ ids -> exists b, run_batches r !! p = Some b /\ batch_ok p b) ->
  let r' := fold_left (commit_path LoadLocation cfg nowOf) ids r in
  let d := st_db (run_store r) in
  let d' := st_db (run_store r') in
  ledger_ok d'
  /\ (forall p, in_i64 p -> p ∉ ids -> run_ack r' !! p = run_ack r !! p /\ same_path p d d')
  /\ (forall p b, in_i64 p -> p ∈ ids -> run_batches r !! p = Some b ->
        outcome p b d d' (run_ack r !! p) (run_ack r' !! p) (st_faults (run_store r) = [])).
Proof.
  induction ids as [|id ids IH]; intros r Hnd Hi Hd Hb; simpl.
  { split_and!; try done. intros p b _ Hp. by apply elem_of_nil in Hp. }
  apply NoDup_cons in Hnd as [Hid Hnd]. inversion_clear Hi as [|? ? Hi1 Hi2].
  destruct (Hb id ltac:(by left)) as (b & Hb1 & Hb2).
  destruct (commit_path_spec r id b Hi1 Hb1 Hb2 Hd) as (C1 & C2 & C3 & C4 & C5).
  set (r1 := commit_path LoadLocation cfg nowOf r id) in *.
  destruct (IH r1 Hnd Hi2 C2) as (I1 & I2 & I3).
  { intros p Hp. rewrite C1. apply Hb. by right. }
  split_and!; [done | |].
  - intros p Hp Hnin. apply not_elem_of_cons in Hnin as [Hne Hnin].
    destruct (I2 p Hp Hnin) as [-> Hs2]. destruct (C5 p Hp Hne) as [-> Hs1].
    split; [done |]. by eapply same_path_trans.
  - intros p b' Hp Hin Hb'. destruct (decide (p = id)) as [-> | Hne].
    + rewrite Hb1 in Hb'. injection Hb' as <-. destruct (I2 id Hp Hid) as [Ha Hs2].
      unfold outcome in *. rewrite Ha. destruct C4 as [(A1 & A2 & A3) | (A1 & A2 & A3)].
      * left. split_and!; try done. by eapply same_path_trans.
      * right. split_and!; try done. by eapply billed_then.
    + apply elem_of_cons in Hin as [Hin | Hin]; [done |].
      destruct (C5 p Hp Hne) as [Ha Hs1]. rewrite C1 in I3.
      specialize (I3 p b' Hp Hin Hb'). unfold outcome in *. rewrite Ha in I3.
      destruct I3 as [(A1 & A2 & A3) | (A1 & A2 & A3)].
      * left. split_and!; try done; [by eapply same_path_trans | auto].
      * right. split_and!; try done. by eapply billed_from.
Qed.
End commit.

Lemma last_seq_le base ds : forall seen,
  last_seq seen (accepted base seen ds) <= Z.max seen maxDeltaSequence.
Proof.
  induction ds as [|d ds IH]; intros seen; simpl; [lia |].
  destruct (_ && _) eqn:E; [| apply IH]. bool_to_prop. simpl.
  specialize (IH (ud_Sequence d)). unfold last_seq in *. lia.
Qed.

Lemma last_seq_u64 base ds : in_u64 base -> in_u64 (last_seq base (accepted base base ds)).
Proof.
  intros Hb. pose proof (last_seq_ge base ds base). pose proof (last_seq_le base ds base).
  change maxDeltaSequence with 1099511627776 in *. go_lia.
Qed.

(** The deltas a frame is taken to hold. *)
Definition frame (ds : list UsageDelta) : list UsageDelta := take (Z.to_nat maxDeltasPerFrame) ds.

(** The state of a frame at the end of the delta loop. *)
Definition frame_run (cfg : Config) (now : Time) (ds : list UsageDelta) (st : Store)
    (server : ControlServer) : UsageRun :=
  let over := maxDeltasPerFrame <? Z.of_nat (length ds) in
  fold_left (apply_delta cfg now) (frame ds)
    (mkUsageRun ∅ [] ∅ ∅ st (if over then note_oversized now server else server)).

Lemma applyUsage_run LoadLocation cfg now nowOf ds st server :
  applyUsage LoadLocation cfg now nowOf (mkUsage ds) st server
  = let r := frame_run cfg now ds st server in
    let r := fold_left (commit_path LoadLocation cfg nowOf) (run_order r) r in
    (mkUsageAck (run_ack r), run_store r, run_server r).
Proof.
  unfold applyUsage, frame_run, frame. cbn [usage_Deltas].
  destruct (Z.ltb_spec maxDeltasPerFrame (Z.of_nat (length ds))); [done |].
  rewrite take_ge; [done |]. lia.
Qed.

Lemma elem_of_frame d ds : d ∈ frame ds -> d ∈ ds.
Proof. intros H. rewrite <- (take_drop (Z.to_nat maxDeltasPerFrame) ds). apply elem_of_app. by left. Qed.

(** The invariant's facts in the form the commit loop wants. *)
Lemma frame_run_inv cfg now ds st server :
  run_inv cfg now st (frame ds) (frame_run cfg now ds st server).
Proof.
  unfold frame_run.
  apply (apply_deltas_inv cfg now st (frame ds) []), run_inv_start.
Qed.

Lemma run_batch_path cfg now st ds r p b :
  run_inv cfg now st ds r -> run_batches r !! p = Some b -> batch_ok p b.
Proof.
  intros Hinv Hb. destruct (ri_batch _ _ _ _ _ Hinv p b Hb) as (_ & base & Hw & ->).
  split; [done |]. apply last_seq_u64. by eapply watermark_range.
Qed.

(** Only paths the frame names have batches. *)
Lemma apply_delta_dom cfg now r d p :
  is_Some (run_batches (apply_delta cfg now r d) !! p) ->
  is_Some (run_batches r !! p) \/ p = ud_PathID d.
Proof.
  unfold apply_delta. destruct (_ && _); [by left |]. destruct (_ <? _); [by left |].
  destruct (bool_decide _); [by left |].
  assert (H : let '(b, r1) := open_batch (ud_PathID d) r in
    is_Some (run_batches r1 !! p) -> is_Some (run_batches r !! p) \/ p = ud_PathID d).
  { unfold open_batch. destruct (run_batches r !! ud_PathID d) as [b|]; [by left |].
    destruct (MetaChecked _ _) as [raw st]. destruct (match raw with Ok _ => _ | Err _ => _ end);
      simpl; [| by left].
    destruct (decide (p = ud_PathID d)); [by right |]. rewrite lookup_insert_ne by done. by left. }
  destruct (open_batch (ud_PathID d) r) as [[b|] r1]; [| done].
  destruct (_ <=? _); [done |]. destruct (_ <? _); [done |].
  destruct (checkDelta _ _ _) as [out server]. simpl.
  destruct (decide (p = ud_PathID d)); [by right |]. by rewrite lookup_insert_ne.
Qed.

Lemma frame_run_paths cfg now ds st server p :
  Forall (fun d => in_i64 (ud_PathID d)) ds ->
  is_Some (run_batches (frame_run cfg now ds st server) !! p) -> in_i64 p.
Proof.
  intros Hi. unfold frame_run.
  assert (Hgen : forall l r, Forall (fun d => in_i64 (ud_PathID d)) l ->
    (forall q, is_Some (run_batches r !! q) -> in_i64 q) ->
    is_Some (run_batches (fold_left (apply_delta cfg now) l r) !! p) -> in_i64 p).
  { induction l as [|d l IH]; intros r Hl Hr; simpl; [apply Hr |].
    inversion_clear Hl. apply IH; [done |]. intros q Hq.
    apply apply_delta_dom in Hq as [Hq | ->]; [by apply Hr | done]. }
  apply Hgen.
  - rewrite Forall_forall in Hi |- *. intros d Hd. by apply Hi, elem_of_frame.
  - intros q [b Hq]. simpl in Hq. by rewrite lookup_empty in Hq.
Qed.

(** The commit loop, started from a frame's run. *)
Lemma frame_commit LoadLocation cfg now nowOf ds st server :
  Forall (fun d => in_i64 (ud_PathID d)) ds -> ledger_ok (st_db st) ->
  let r := frame_run cfg now ds st server in
  let r' := fold_left (commit_path LoadLocation cfg nowOf) (run_order r) r in
  let d := st_db st in
  let d' := st_db (run_store r') in
  ledger_ok d'
  /\ (forall p, in_i64 p -> p ∉ run_order r -> run_ack r' !! p = run_ack r !! p /\ same_path p d d')
  /\ (forall p b, in_i64 p -> p ∈ run_order r -> run_batches r !! p = Some b ->
        outcome LoadLocation cfg nowOf p b d d' (run_ack r !! p) (run_ack r' !! p)
          (st_faults (run_store r) = [])).
Proof.
  intros Hi Hld r. pose proof (frame_run_inv cfg now ds st server) as Hinv. fold r in Hinv.
  pose proof (ri_db _ _ _ _ _ Hinv) as Hdb. cbv zeta. rewrite <- Hdb.
  apply commit_fold.
  - apply (ri_order _ _ _ _ _ Hinv).
  - apply Forall_forall. intros p Hp. apply (ri_dom _ _ _ _ _ Hinv) in Hp.
    by eapply frame_run_paths.
  - by rewrite Hdb.
  - intros p Hp. apply (ri_dom _ _ _ _ _ Hinv) in Hp as [b Hb]. exists b. split; [done |].
    by eapply run_batch_path.
Qed.

(** Path by path: untouched and unanswered, or answered with the watermark the
    store then holds. *)
Lemma applyUsage_path LoadLocation cfg now nowOf ds st server p :
  Forall (fun d => in_i64 (ud_PathID d)) ds -> ledger_ok (st_db st) -> in_i64 p ->
  let r := applyUsage LoadLocation cfg now nowOf (mkUsage ds) st server in
  let d := st_db st in
  let d' := st_db r.1.2 in
  let took base := accepted base base (by_path p (frame ds)) in
  ledger_ok d' /\
  match ack_Seqs r.1.1 !! p with
  | None => same_path p d d'
  | Some w => exists base, watermark d p = Some base /\ watermark d' p = Some w
      /\ ((w = base /\ same_path p d d')
          \/ (w = last_seq base (took base)
              /\ billed p (entries_of LoadLocation cfg (nowOf p) p
                             (checked_sample now <$> took base)) w d d'))
  end.
Proof.
  intros Hi Hld Hp.
  rewrite applyUsage_run. cbv zeta. cbn [fst snd ack_Seqs].
  set (r := frame_run cfg now ds st server).
  pose proof (frame_run_inv cfg now ds st server) as Hinv. fold r in Hinv.
  pose proof (ri_db _ _ _ _ _ Hinv) as Hdb.
  destruct (frame_commit LoadLocation cfg now nowOf ds st server Hi Hld) as (C1 & C2 & C3).
  fold r in C1, C2, C3.
  set (r' := fold_left _ (run_order r) r) in *.
  split; [done |].
  destruct (decide (p ∈ run_order r)) as [Hin | Hout].
  + destruct (proj1 (ri_dom _ _ _ _ _ Hinv p) Hin) as [b Hb].
    specialize (C3 p b Hp Hin Hb). pose proof (ri_ack _ _ _ _ _ Hinv p) as Ha.
    destruct (ri_batch _ _ _ _ _ Hinv p b Hb) as (_ & base & Hw & Hbo).
    rewrite Hb in Ha. simpl in Ha. unfold outcome in C3. rewrite Ha in C3.
    destruct C3 as [(-> & Hs & _) | (_ & -> & Hbill)]; subst b; simpl in *.
    * exists base. split_and!; [done | | by left]. destruct Hs as [Hs _]. by rewrite Hs.
    * exists base. split_and!; [done | apply Hbill | by right].
  + destruct (C2 p Hp Hout) as [-> Hs]. rewrite (ri_ack _ _ _ _ _ Hinv p).
    destruct (run_batches r !! p) eqn:Hb; [| done]. exfalso. apply Hout.
    apply (ri_dom _ _ _ _ _ Hinv). eauto.
Qed.

(** A store that does not fail takes all a frame holds for an eligible path. *)
Lemma applyUsage_healthy LoadLocation cfg now nowOf ds st server p base x :
  Forall (fun d => in_i64 (ud_PathID d)) ds -> ledger_ok (st_db st) -> st_faults st = [] ->
  eligible cfg p = true -> watermark (st_db st) p = Some base ->
  x ∈ by_path p (frame ds) -> ud_Sequence x <= maxDeltaSequence ->
  ack_Seqs (applyUsage LoadLocation cfg now nowOf (mkUsage ds) st server).1.1 !! p
  = Some (last_seq base (accepted base base (by_path p (frame ds)))).
Proof.
  intros Hi Hld Hf Hel Hw Hx Hsx.
  rewrite applyUsage_run. cbv zeta. cbn [fst snd ack_Seqs].
  set (r := frame_run cfg now ds st server).
  pose proof (frame_run_inv cfg now ds st server) as Hinv. fold r in Hinv.
  pose proof (ri_db _ _ _ _ _ Hinv) as Hdb.
  destruct (frame_commit LoadLocation cfg now nowOf ds st server Hi Hld) as (C1 & C2 & C3).
  fold r in C1, C2, C3.
  set (r' := fold_left _ (run_order r) r) in *.
  destruct (ri_live _ _ _ _ _ Hinv Hf) as [Hf' Hun].
  assert (Hp : in_i64 p).
  { apply elem_of_by_path in Hx as [<- Hx]. rewrite Forall_forall in Hi. by apply Hi, elem_of_frame. }
  destruct (run_batches r !! p) as [b|] eqn:Hb.
  2:{ exfalso. destruct (decide (p ∈ run_unread r)) as [Hu | Hu].
      - apply Hun in Hu. congruence.
      - pose proof (ri_closed _ _ _ _ _ Hinv p Hel Hb Hu) as Hc.
        rewrite Forall_forall in Hc. specialize (Hc x Hx). simpl in Hc. lia. }
  assert (Hin : p ∈ run_order r) by (apply (ri_dom _ _ _ _ _ Hinv); eauto).
  specialize (C3 p b Hp Hin Hb). pose proof (ri_ack _ _ _ _ _ Hinv p) as Ha.
  destruct (ri_batch _ _ _ _ _ Hinv p b Hb) as (_ & base' & Hw' & Hbo).
  rewrite Hw in Hw'. injection Hw' as <-. rewrite Hb in Ha. simpl in Ha.
  destruct C3 as [(-> & _ & He) | (_ & -> & _)]; [| by subst b].
  rewrite Ha. specialize (He Hf'). subst b. simpl in *.
  apply fmap_nil_inv in He. by rewrite He.
Qed.

(** [C17] An acknowledgement is a promise the store keeps.  Whatever a peer
    sends and whatever statement the database fails, a path is acknowledged at
    [w] only if the store's watermark for it is [w] when the frame is done; the
    deltas of the frame past the old watermark, in sequence, are then billed in
    full, each exactly once, or none of them is and the watermark has not
    moved; a path that is not acknowledged is untouched; and a healthy store
    takes everything a path may send. *)
Theorem applyUsage_sound LoadLocation cfg now nowOf ds st server :
  Forall (fun d => in_i64 (ud_PathID d)) ds -> ledger_ok (st_db st) ->
  let r := applyUsage LoadLocation cfg now nowOf (mkUsage ds) st server in
  let ack := ack_Seqs r.1.1 in
  let d := st_db st in
  let d' := st_db r.1.2 in
  let took p base := accepted base base (by_path p (frame ds)) in
  ledger_ok d'
  /\ (forall p, in_i64 p ->
       match ack !! p with
       | None => same_path p d d'
       | Some w => exists base, watermark d p = Some base /\ watermark d' p = Some w
           /\ ((w = base /\ same_path p d d')
               \/ (w = last_seq base (took p base)
                   /\ billed p (entries_of LoadLocation cfg (nowOf p) p
                                  (checked_sample now <$> took p base)) w d d'))
       end)
  /\ (st_faults st = [] -> forall p base x,
        eligible cfg p = true -> watermark d p = Some base ->
        x ∈ by_path p (frame ds) -> ud_Sequence x <= maxDeltaSequence ->
        ack !! p = Some (last_seq base (took p base))).
Proof.
  intros Hi Hld. split_and!.
  - by apply (applyUsage_path LoadLocation cfg now nowOf ds st server 0).
  - intros p Hp. by apply applyUsage_path.
  - intros Hf p base x. by apply applyUsage_healthy.
Qed.

Definition sample_frame : list UsageDelta :=
  [mkUsageDelta 2 1000 10 1700000000 1; mkUsageDelta 2 500 5 1700000010 2;
   mkUsageDelta 2 500 5 1700000010 2; mkUsageDelta 77 1 1 1700000010 9].

Lemma applyUsage_sound_witness :
  let st := mkStore emptyDB [] in
  let r := applyUsage (fun _ => None) Defaults (UnixTime 1700000020) (fun _ => UnixTime 1700000020)
             (mkUsage sample_frame) st NewControlServer in
  ack_Seqs r.1.1 !! 2 = Some (last_seq 0 (accepted 0 0 (by_path 2 (frame sample_frame)))).
Proof.
  apply (applyUsage_sound (fun _ => None) Defaults (UnixTime 1700000020)
    (fun _ => UnixTime 1700000020) sample_frame (mkStore emptyDB []) NewControlServer)
    with (x := mkUsageDelta 2 1000 10 1700000000 1).
  - repeat (constructor; [unfold in_i64; vm_compute; split; discriminate |]). constructor.
  - apply map_Forall_empty.
  - reflexivity.
  - vm_compute. reflexivity.
  - vm_compute. reflexivity.
  - change (mkUsageDelta 2 1000 10 1700000000 1 ∈
      [mkUsageDelta 2 1000 10 1700000000 1; mkUsageDelta 2 500 5 1700000010 2;
       mkUsageDelta 2 500 5 1700000010 2]). by left.
  - vm_compute. discriminate.
Defined.

(** ** Throttles *)

Inductive throttle_op := ThTake (now : Time) | ThFlush (now : Time).

Fixpoint throttle_run (ops : list throttle_op) (t : throttle) : Z * throttle :=
  match ops with
  | [] => (0, t)
  | o :: ops =>
      let '(n, t) := match o with ThTake now => throttle_take now t
                                | ThFlush now => throttle_flush now t end in
      let '(m, t) := throttle_run ops t in (n + m, t)
  end.

Definition is_take (o : throttle_op) : bool :=
  match o with ThTake _ => true | ThFlush _ => false end.
Definition takes (ops : list throttle_op) : Z :=
  Z.of_nat (length (filter (fun o => is_take o = true) ops)).

Lemma throttle_run_count ops : forall t,
  0 <= th_seen t -> th_seen t + Z.of_nat (length ops) <= MaxInt64 ->
  let '(n, t') := throttle_run ops t in
  n + th_seen t' = th_seen t + takes ops /\ 0 <= th_seen t'.
Proof.
  induction ops as [|o ops IH]; intros t H0 Hm; simpl; [unfold takes; simpl; lia |].
  simpl in Hm. unfold takes in *.
  destruct o as [now|now]; rewrite filter_cons; simpl.
  - unfold throttle_take. rewrite i64_id by go_lia. destruct (_ <? throttleWindow).
    + specialize (IH (mkThrottle (th_at t) (th_seen t + 1)) ltac:(simpl; lia) ltac:(simpl; lia)).
      destruct (throttle_run ops _) as [m t']. simpl in *. lia.
    + specialize (IH (mkThrottle now 0) ltac:(simpl; lia) ltac:(simpl; lia)).
      destruct (throttle_run ops _) as [m t']. simpl in *. lia.
  - unfold throttle_flush. destruct (_ || _).
    + specialize (IH t H0 ltac:(lia)). destruct (throttle_run ops _) as [m t']. simpl in *. lia.
    + specialize (IH (mkThrottle now 0) ltac:(simpl; lia) ltac:(simpl; lia)).
      destruct (throttle_run ops _) as [m t']. simpl in *. lia.
Qed.

(** A throttle hides how loud a flood is, never that it happened.  Over
    any sequence of events and trailing-edge flushes, what was reported and
    what is still owed add up to the events counted; and a flush once the
    window has passed reports everything owed. *)
Theorem throttle_conserves ops now :
  Z.of_nat (length ops) <= MaxInt64 ->
  let '(n, t) := throttle_run ops new_throttle in
  n + th_seen t = takes ops
  /\ (throttleWindow <= Sub now (th_at t) ->
        throttle_flush now t = (th_seen t, (throttle_flush now t).2)
        /\ th_seen (throttle_flush now t).2 = 0).
Proof.
  intros Hm. pose proof (throttle_run_count ops new_throttle) as H. simpl in H.
  specialize (H ltac:(lia) Hm). destruct (throttle_run ops new_throttle) as [n t].
  split; [lia |]. intros Hw. unfold throttle_flush.
  destruct (Z.eqb_spec (th_seen t) 0) as [Hz | Hne]; simpl; [by rewrite Hz |].
  destruct (Z.ltb_spec (Sub now (th_at t)) throttleWindow); [lia | done].
Qed.

Lemma throttle_conserves_witness :
  let ops := ThTake (UnixTime 0) :: (ThTake <$> replicate 499 (UnixTime 5)) in
  let '(n, t) := throttle_run ops new_throttle in
  n + th_seen t = 500 /\ n = 1.
Proof.
  pose proof (throttle_conserves (ThTake (UnixTime 0) :: (ThTake <$> replicate 499 (UnixTime 5)))
    (UnixTime 100)) as H.
  vm_compute in H. vm_compute. destruct H as [H _]; [discriminate |]. split; reflexivity.
Defined.

(** ** Connections *)

(** One address never holds more than its share, and a release undoes a claim. *)
Lemma claimSource_budget ip s :
  (forall a n, cs_perSource s !! a = Some n -> 0 < n <= maxPerSource) ->
  (forall a n, cs_perSource (claimSource ip s).2 !! a = Some n -> 0 < n <= maxPerSource)
  /\ ((claimSource ip s).1 = true ->
      cs_perSource (releaseSource ip (claimSource ip s).2) = cs_perSource s).
Proof.
  intros Hinv. unfold claimSource, releaseSource. unfold maxPerSource in *.
  destruct (Z.leb_spec 4 (default 0 (cs_perSource s !! ip))) as [Hle|Hlt]; simpl; [done |]. split.
  - intros a n. destruct (decide (a = ip)) as [-> | Hne].
    + rewrite lookup_insert_eq. intros [= <-].
      destruct (cs_perSource s !! ip) eqn:E; simpl in *; [specialize (Hinv _ _ E); lia | lia].
    + rewrite lookup_insert_ne by done. apply Hinv.
  - intros _. rewrite lookup_insert_eq. simpl.
    destruct (cs_perSource s !! ip) as [n|] eqn:E; simpl in *.
    + specialize (Hinv _ _ E). destruct (Z.leb_spec (n + 1) 1); [lia |].
      rewrite Z.add_simpl_r, insert_insert_eq, insert_id; done.
    + by rewrite delete_insert_id.
Qed.
