(* ===== verification/Accounting.v ===== *)
(** * Metered usage, end to end ([agent/meter.go], [engine/control.go], [store/store.go])

    The backend's meter, the frontend's ledger, and a network between them that
    delivers any frame the meter ever sent, at any time, any number of times,
    and any acknowledgement likewise; the store fails where it likes and the
    backend restarts.  The theorem is what the sequence numbers, the watermark
    and the buffer are for: each delta is billed exactly once. *)

From S2P Require Import Prelude GoTime Model Messages Store Quota Meter Control.

(** ** Numbered runs of deltas *)

(** [l] carries consecutive sequence numbers from [s] on. *)
Definition numbered (s : Z) (l : list UsageDelta) : Prop :=
  forall i d, l !! i = Some d -> ud_Sequence d = s + Z.of_nat i.

Lemma numbered_nil s : numbered s [].
Proof. intros i d H. by rewrite lookup_nil in H. Qed.

Lemma numbered_cons s d l : numbered s (d :: l) <-> ud_Sequence d = s /\ numbered (s + 1) l.
Proof.
  split.
  - intros H. split; [rewrite (H 0%nat d) by done; lia |].
    intros i x Hx. rewrite (H (S i) x Hx). lia.
  - intros [Hd H] [|i] x Hx; simpl in Hx; [injection Hx as <-; lia |].
    rewrite (H i x Hx). lia.
Qed.

Lemma numbered_app s l l' :
  numbered s (l ++ l') <-> numbered s l /\ numbered (s + Z.of_nat (length l)) l'.
Proof.
  revert s. induction l as [|d l IH]; intros s; simpl.
  - rewrite Z.add_0_r. split; [intros; split; [apply numbered_nil | done] | by intros [_ ?]].
  - rewrite !numbered_cons, IH.
    replace (s + 1 + Z.of_nat (length l)) with (s + Z.of_nat (S (length l))) by lia. tauto.
Qed.

Lemma numbered_drop s n l : numbered s l -> numbered (s + Z.of_nat n) (drop n l).
Proof.
  intros H i d Hd. rewrite lookup_drop in Hd. rewrite (H _ _ Hd). lia.
Qed.

Lemma numbered_take s n l : numbered s l -> numbered s (take n l).
Proof. intros H i d Hd. apply lookup_take_Some in Hd as [Hd _]. by apply H. Qed.

(** What a watermark lets through of a numbered run. *)
Lemma accepted_numbered base l : forall s seen,
  numbered s l -> base <= seen -> s <= seen + 1 ->
  s + Z.of_nat (length l) <= maxDeltaSequence + 1 ->
  s + Z.of_nat (length l) <= base + maxSequenceJump + 1 ->
  accepted base seen l = drop (Z.to_nat (seen + 1 - s)) l.
Proof.
  induction l as [|d l IH]; intros s seen Hn Hb Hs Hm Hj; [by rewrite drop_nil |].
  apply numbered_cons in Hn as [Hd Hn]. simpl length in *. simpl accepted. rewrite Hd.
  destruct (Z.leb_spec s maxDeltaSequence); [| lia].
  destruct (Z.leb_spec (s - base) maxSequenceJump); [| lia].
  destruct (Z.ltb_spec seen s); simpl.
  - assert (s = seen + 1) as -> by lia.
    replace (Z.to_nat (seen + 1 - (seen + 1))) with 0%nat by lia. simpl. f_equal.
    rewrite (IH (seen + 1 + 1)) by (done || lia).
    by replace (Z.to_nat (seen + 1 + 1 - (seen + 1 + 1))) with 0%nat by lia.
  - replace (Z.to_nat (seen + 1 - s)) with (S (Z.to_nat (seen + 1 - (s + 1)))) by lia.
    simpl. apply IH; (done || lia).
Qed.

Lemma last_seq_numbered l : forall s, numbered (s + 1) l -> last_seq s l = s + Z.of_nat (length l).
Proof.
  unfold last_seq. induction l as [|d l IH]; intros s Hn; simpl; [lia |].
  apply numbered_cons in Hn as [Hd Hn]. rewrite Hd, IH by done. lia.
Qed.

(** What an acknowledgement leaves of a numbered run. *)
Lemma filter_numbered x l : forall s,
  numbered s l ->
  filter (fun d => (ud_Sequence d <=? x) = false) l = drop (Z.to_nat (x + 1 - s)) l.
Proof.
  induction l as [|d l IH]; intros s Hn; [by rewrite drop_nil |].
  apply numbered_cons in Hn as [Hd Hn]. rewrite filter_cons, Hd.
  destruct (Z.leb_spec s x).
  - rewrite decide_False by done.
    replace (Z.to_nat (x + 1 - s)) with (S (Z.to_nat (x + 1 - (s + 1)))) by lia. by apply IH.
  - rewrite decide_True by done. replace (Z.to_nat (x + 1 - s)) with 0%nat by lia.
    simpl. f_equal. rewrite (IH (s + 1)) by done. by replace (Z.to_nat (x + 1 - (s + 1))) with 0%nat by lia.
Qed.

(** ** Sampling *)

Lemma sample_paths_numbered read now ps p : forall m fresh m',
  sample_paths read now ps m = (fresh, m') ->
  0 <= seq_of m p -> seq_of m p + Z.of_nat (length fresh) <= MaxUint64 ->
  numbered (seq_of m p + 1) (by_path p fresh)
  /\ seq_of m' p = seq_of m p + Z.of_nat (length (by_path p fresh))
  /\ m_pending m' = m_pending m /\ m_disk m' = m_disk m
  /\ (length fresh <= length ps)%nat
  /\ Forall (fun d => ud_PathID d ∈ pinfo_ID <$> ps) fresh.
Proof.
  induction ps as [|q ps IH]; intros m fresh m' H H0 Hmax; simpl in H.
  { injection H as <- <-. simpl. split_and!; try done; first [apply numbered_nil | lia | constructor]. }
  assert (Hone : exists od m1, sample_path read now q m = (od, m1)
    /\ m_pending m1 = m_pending m /\ m_disk m1 = m_disk m
    /\ match od with
       | None => seq_of m1 p = seq_of m p
       | Some d => ud_PathID d = pinfo_ID q
           /\ (if decide (pinfo_ID q = p)
               then ud_Sequence d = u64 (seq_of m p + 1) /\ seq_of m1 p = u64 (seq_of m p + 1)
               else seq_of m1 p = seq_of m p)
       end).
  { unfold sample_path. destruct (negb _); [eauto 10 |].
    destruct (read _) as [cur|]; [| eauto 10]. destruct (m_last m !! _) as [prev|]; [| eauto 10].
    destruct (_ || _); [eauto 10 |]. destruct (_ && _); [eauto 10 |].
    eexists _, _. split; [done |]. split_and!; try done. unfold seq_of. simpl.
    case_decide as Hp.
    - subst p. fold (seq_of m (pinfo_ID q)). by rewrite lookup_insert_eq.
    - by rewrite lookup_insert_ne. }
  destruct Hone as (od & m1 & E & P1 & P2 & Hod). rewrite E in H.
  destruct (sample_paths read now ps m1) as [ds m2] eqn:E2. injection H as <- <-.
  rewrite length_app in Hmax.
  assert (Hs1 : match od with
    | Some d => ud_PathID d = pinfo_ID q /\ (if decide (pinfo_ID q = p)
        then ud_Sequence d = seq_of m p + 1 /\ seq_of m1 p = seq_of m p + 1
        else seq_of m1 p = seq_of m p)
    | None => seq_of m1 p = seq_of m p end).
  { destruct od as [d|]; [| done]. simpl in Hmax. rewrite u64_id in Hod by go_lia. done. }
  clear Hod. rename Hs1 into Hod.
  assert (Hs1 : 0 <= seq_of m1 p /\ seq_of m1 p + Z.of_nat (length ds) <= MaxUint64).
  { destruct od as [d|]; simpl in Hmax; [| lia]. destruct Hod as [_ Hod]. case_decide; lia. }
  destruct (IH m1 ds m2 E2) as (I1 & I2 & I3 & I4 & I5 & I6); [lia | lia |].
  assert (Hmem : Forall (fun d => ud_PathID d ∈ pinfo_ID q :: (pinfo_ID <$> ps)) ds).
  { eapply Forall_impl; [exact I6 |]. intros d Hd. by right. }
  destruct od as [d|]; simpl.
  - destruct Hod as [Hid Hod]. rewrite by_path_cons, Hid. case_decide as Hp; simpl.
    + destruct Hod as [Hd Hs]. rewrite numbered_cons, Hd, <- Hs.
      split_and!; try congruence; try lia; [done |]. constructor; [rewrite Hid; by left | done].
    + rewrite <- Hod.
      split_and!; try congruence; try lia; [done |]. constructor; [rewrite Hid; by left | done].
  - rewrite <- Hod. split_and!; try congruence; try lia; done.
Qed.

(** ** The system *)

Record World := mkWorld {
  w_meter : Meter;
  w_db : DB;
  w_server : ControlServer;
  w_emitted : list UsageDelta;       (* every delta the meter ever produced *)
  w_frames : list (list UsageDelta); (* every usage frame ever sent *)
  w_acks : list (gmap Z Z) }.        (* every acknowledgement ever sent *)

Section system.
Context (LoadLocation : string -> option GoTime.Location) (cfg : Config).

Inductive step (W : World) : World -> Prop :=
| StSample bc read now wrotePending wroteState :
    Forall (fun q => in_i64 (pinfo_ID q)) (bc_Paths bc) ->
    let fresh := (sample_paths read now (bc_Paths bc) (w_meter W)).1 in
    Z.of_nat (length (m_pending (w_meter W) ++ fresh)) <= maxBuffered ->
    step W (mkWorld (sample (Some bc) read now wrotePending wroteState (w_meter W)) (w_db W)
              (w_server W) (w_emitted W ++ fresh) (w_frames W) (w_acks W))
| StSend n :
    step W (mkWorld (w_meter W) (w_db W) (w_server W) (w_emitted W)
              (PendingBatch n (w_meter W) :: w_frames W) (w_acks W))
| StDeliver b now nowOf faults :
    b ∈ w_frames W ->
    let r := applyUsage LoadLocation cfg now nowOf (mkUsage b) (mkStore (w_db W) faults) (w_server W) in
    step W (mkWorld (w_meter W) (st_db r.1.2) r.2 (w_emitted W) (w_frames W)
              (ack_Seqs r.1.1 :: w_acks W))
| StAck a wrote :
    a ∈ w_acks W ->
    step W (mkWorld (AckApplied a wrote (w_meter W)) (w_db W) (w_server W) (w_emitted W)
              (w_frames W) (w_acks W))
| StRestart :
    m_disk (w_meter W)
      = mkMeterDisk (m_pending (w_meter W)) (m_last (w_meter W), m_nextSeq (w_meter W)) ->
    step W (mkWorld (NewMeter (m_disk (w_meter W))) (w_db W) (w_server W) (w_emitted W)
              (w_frames W) (w_acks W)).

(** A new backend and a new frontend. *)
Definition start : World :=
  mkWorld (NewMeter (mkMeterDisk [] (∅, ∅))) emptyDB NewControlServer [] [] [].

(** The figures a delta is billed at. *)
Definition bill (q : Quota) (d : UsageDelta) : Z * Z :=
  let '(b, packets, _) := clampCounts (ud_Bytes d) (ud_Packets d) in
  (clampLedger (Metered b packets q), clampLedger packets).

Definition figures (r : UsageSample) : Z * Z := (us_bytes r, us_packets r).

Context (p : Z) (pc : PathConfig) (Hpc : PathByID cfg p = Some pc)
  (Hmetered : path_Metered pc = true) (Hp : in_i64 p).

(** A slice of the path's deltas that starts no later than the watermark. *)
Definition slice_ok (E b : list UsageDelta) (w : nat) : Prop :=
  exists a k, by_path p b = take k (drop a E) /\ (a + k <= length E)%nat /\ (a <= w)%nat.

Record inv (W : World) : Prop := {
  inv_numbered : numbered 1 (by_path p (w_emitted W));
  inv_next : seq_of (w_meter W) p = Z.of_nat (length (by_path p (w_emitted W)));
  inv_short : Z.of_nat (length (m_pending (w_meter W))) <= maxBuffered;
  inv_ids : Forall (fun d => in_i64 (ud_PathID d)) (m_pending (w_meter W));
  inv_frames_ids : Forall (Forall (fun d => in_i64 (ud_PathID d))) (w_frames W);
  inv_ledger : ledger_ok (w_db W);
  inv_mark : exists w a, watermark (w_db W) p = Some (Z.of_nat w)
    /\ (w <= length (by_path p (w_emitted W)))%nat
    /\ (a <= w)%nat /\ by_path p (m_pending (w_meter W)) = drop a (by_path p (w_emitted W))
    /\ figures <$> path_samples p (w_db W) = bill (path_Quota pc) <$> take w (by_path p (w_emitted W))
    /\ Forall (fun b => slice_ok (by_path p (w_emitted W)) b w) (w_frames W)
    /\ Forall (fun s => forall x, s !! p = Some x -> x <= Z.of_nat w) (w_acks W) }.

Lemma clamp_count_idem max v n l n' l' :
  0 <= max -> (clamp_count max (clamp_count max v n l).1 n' l').1 = (clamp_count max v n l).1.
Proof.
  intros H. unfold clamp_count.
  destruct (Z.ltb_spec v 0); simpl; [destruct (Z.ltb_spec max 0); [lia | done] |].
  destruct (Z.ltb_spec max v); simpl.
  - destruct (Z.ltb_spec max 0); [lia |]. by rewrite Z.ltb_irrefl.
  - destruct (Z.ltb_spec v 0); [lia |]. destruct (Z.ltb_spec max v); [lia | done].
Qed.

(** The figures of the ledger row a delta ends as. *)
Lemma figures_bill now now' d :
  figures (sample_row p (bill_entry LoadLocation (path_Quota pc) now' (checked_sample now d)))
  = bill (path_Quota pc) d.
Proof.
  unfold checked_sample, bill_entry, bill, clampCounts.
  pose proof (clamp_count_idem maxDeltaBytes (ud_Bytes d) "negative bytes" "implausible byte count"
    "negative bytes" "implausible byte count" ltac:(done)) as H1.
  pose proof (clamp_count_idem maxDeltaPackets (ud_Packets d) "negative packets"
    "implausible packet count" "negative packets" "implausible packet count" ltac:(done)) as H2.
  destruct (clamp_count maxDeltaBytes (ud_Bytes d) _ _) as [b l1].
  destruct (clamp_count maxDeltaPackets (ud_Packets d) _ _) as [pk l2].
  cbn [fst smp_Bytes smp_Packets smp_At] in *.
  destruct (clamp_count maxDeltaBytes b _ _) as [b' l1'].
  destruct (clamp_count maxDeltaPackets pk _ _) as [pk' l2']. simpl in *. subst. done.
Qed.

Lemma inv_start : inv start.
Proof.
  split; cbn [start w_meter w_db w_emitted w_frames w_acks].
  - apply numbered_nil.
  - done.
  - done.
  - constructor.
  - constructor.
  - apply map_Forall_empty.
  - exists 0%nat, 0%nat. simpl. split_and!; try done; constructor.
Qed.

(** One sample, on the buffer and on the numbering. *)
Lemma sample_effect bc read now wp ws m :
  let fresh := (sample_paths read now (bc_Paths bc) m).1 in
  Z.of_nat (length (m_pending m ++ fresh)) <= maxBuffered ->
  0 <= seq_of m p -> seq_of m p + Z.of_nat (length fresh) <= MaxUint64 ->
  Forall (fun q => in_i64 (pinfo_ID q)) (bc_Paths bc) ->
  let m' := sample (Some bc) read now wp ws m in
  m_pending m' = m_pending m ++ fresh
  /\ numbered (seq_of m p + 1) (by_path p fresh)
  /\ seq_of m' p = seq_of m p + Z.of_nat (length (by_path p fresh))
  /\ Forall (fun d => in_i64 (ud_PathID d)) fresh.
Proof.
  intros fresh Hlen H0 Hmax Hids m'. subst m'. unfold sample.
  destruct (sample_paths read now (bc_Paths bc) m) as [fr m1] eqn:E. subst fresh. simpl in Hlen, Hmax.
  destruct (sample_paths_numbered _ _ _ p _ _ _ E H0 Hmax) as (S1 & S2 & S3 & S4 & _ & S6).
  set (m2 := match fr with [] => m1 | _ => _ end).
  assert (Hm2 : m_pending m2 = m_pending m ++ fr /\ m_nextSeq m2 = m_nextSeq m1).
  { subst m2. destruct fr as [|d fr]; [by rewrite S3, app_nil_r |].
    unfold persist, trim. rewrite S3.
    replace (length (m_pending m ++ d :: fr) - Z.to_nat maxBuffered)%nat with 0%nat by lia.
    by destruct wp. }
  destruct Hm2 as [Hm2 Hn2].
  assert (Hsave : m_pending (save ws m2) = m_pending m2 /\ m_nextSeq (save ws m2) = m_nextSeq m2)
    by (by destruct ws).
  destruct Hsave as [-> Hn3]. unfold seq_of. rewrite Hn3, Hn2. fold (seq_of m1 p). fold (seq_of m p).
  split_and!; try done.
  eapply Forall_impl; [exact S6 |]. intros d Hd. simpl in Hd.
  apply list_elem_of_fmap in Hd as (q & -> & Hq). rewrite Forall_forall in Hids. by apply Hids.
Qed.

Lemma slice_ok_grow E E' b w w' : slice_ok E b w -> (w <= w')%nat -> slice_ok (E ++ E') b w'.
Proof.
  intros (a & k & Hb & Hk & Ha) Hw. exists a, k. rewrite Hb, length_app.
  split_and!; [| lia | lia]. rewrite drop_app_le by lia.
  rewrite take_app_le; [done |]. rewrite length_drop. lia.
Qed.

Lemma inv_sample W bc read now wp ws :
  inv W -> Forall (fun q => in_i64 (pinfo_ID q)) (bc_Paths bc) ->
  let fresh := (sample_paths read now (bc_Paths bc) (w_meter W)).1 in
  Z.of_nat (length (m_pending (w_meter W) ++ fresh)) <= maxBuffered ->
  Z.of_nat (length (w_emitted W ++ fresh)) <= maxDeltaSequence ->
  inv (mkWorld (sample (Some bc) read now wp ws (w_meter W)) (w_db W)
         (w_server W) (w_emitted W ++ fresh) (w_frames W) (w_acks W)).
Proof.
  intros [Hnum Hnext Hshort Hids Hfids Hled (w & a & M1 & M2 & M3 & M4 & M5 & M6 & M7)] Hbc fresh Hlen Hmax.
  change maxDeltaSequence with 1099511627776 in Hmax.
  assert (Hle : (length (by_path p (w_emitted W)) <= length (w_emitted W))%nat) by apply length_filter.
  destruct (sample_effect bc read now wp ws (w_meter W)) as (S1 & S2 & S3 & S4); try done.
  { rewrite Hnext. lia. }
  { fold fresh. rewrite Hnext. rewrite length_app in Hmax. go_lia. }
  fold fresh in S1, S2, S3, S4.
  split; cbn [w_meter w_db w_emitted w_frames w_acks]; try done.
  - rewrite by_path_app, numbered_app. split; [done |]. by rewrite Hnext, Z.add_comm in S2.
  - rewrite S3, Hnext, by_path_app, length_app. lia.
  - by rewrite S1.
  - rewrite S1. by apply Forall_app_2.
  - exists w, a. rewrite S1, !by_path_app. split_and!; try done.
    + rewrite length_app. lia.
    + rewrite M4, drop_app_le by lia. done.
    + by rewrite take_app_le by lia.
    + eapply Forall_impl; [exact M6 |]. intros b Hb. by apply (slice_ok_grow _ _ _ w).
Qed.

Lemma PendingBatch_slice n m :
  (forall q, by_path q (PendingBatch n m) `prefix_of` by_path q (m_pending m))
  /\ (forall d, d ∈ PendingBatch n m -> d ∈ m_pending m).
Proof.
  assert (H : forall q, by_path q (PendingBatch n m) `prefix_of` by_path q (m_pending m)).
  { destruct (Z.lt_ge_cases n 0) as [Hneg | Hpos].
    - intros q. unfold PendingBatch.
      destruct (Z.ltb_spec (Z.of_nat (length (m_pending m))) n); [lia |].
      destruct (Z.leb_spec n 0); [apply prefix_nil | lia].
    - by apply PendingBatch_prefix. }
  split; [exact H |]. intros d Hd. destruct (H (ud_PathID d)) as [k Hk].
  apply (elem_of_by_path (ud_PathID d)). rewrite Hk. apply elem_of_app. left.
  by apply elem_of_by_path.
Qed.

Lemma inv_send W n :
  inv W ->
  inv (mkWorld (w_meter W) (w_db W) (w_server W) (w_emitted W)
         (PendingBatch n (w_meter W) :: w_frames W) (w_acks W)).
Proof.
  intros [Hnum Hnext Hshort Hids Hfids Hled (w & a & M1 & M2 & M3 & M4 & M5 & M6 & M7)].
  destruct (PendingBatch_slice n (w_meter W)) as [B1 B2].
  split; cbn [w_meter w_db w_emitted w_frames w_acks]; try done.
  - constructor; [| done]. rewrite Forall_forall in Hids |- *. auto.
  - exists w, a. split_and!; try done. constructor; [| done].
    destruct (B1 p) as [k Hk]. rewrite M4 in Hk.
    exists a, (length (by_path p (PendingBatch n (w_meter W)))). split_and!; [| | done].
    + by rewrite Hk, take_app_length.
    + apply (f_equal length) in Hk. rewrite length_drop, length_app in Hk. lia.
Qed.

(** An acknowledgement, on the buffer and path by path. *)
Lemma AckApplied_path s wrote m :
  m_pending (AckApplied s wrote m) = filter (fun d => acked s d = false) (m_pending m)
  /\ m_nextSeq (AckApplied s wrote m) = m_nextSeq m
  /\ by_path p (m_pending (AckApplied s wrote m))
     = match s !! p with
       | Some x => filter (fun d => (ud_Sequence d <=? x) = false) (by_path p (m_pending m))
       | None => by_path p (m_pending m)
       end.
Proof.
  assert (Hpend : m_pending (AckApplied s wrote m) = filter (fun d => acked s d = false) (m_pending m)
          /\ m_nextSeq (AckApplied s wrote m) = m_nextSeq m).
  { unfold AckApplied. destruct (negb _); [by destruct wrote | done]. }
  destruct Hpend as [Hpend Hns]. split_and!; [done | done |].
  rewrite Hpend. unfold by_path. clear. unfold acked.
  induction (m_pending m) as [|d l IH]; [by destruct (s !! p) |].
  rewrite !filter_cons. destruct (decide (ud_PathID d = p)) as [Hd|Hd].
  - rewrite Hd. destruct (s !! p) as [x|]; simpl.
    + rewrite filter_cons. destruct (decide ((ud_Sequence d <=? x) = false)); [| done].
      rewrite filter_cons, decide_True by done. by rewrite IH.
    + rewrite filter_cons, decide_True by done. by rewrite IH.
  - destruct (decide _); [rewrite filter_cons, decide_False by done |]; exact IH.
Qed.

Lemma inv_ack W s wrote :
  inv W -> s ∈ w_acks W ->
  inv (mkWorld (AckApplied s wrote (w_meter W)) (w_db W) (w_server W) (w_emitted W)
         (w_frames W) (w_acks W)).
Proof.
  intros [Hnum Hnext Hshort Hids Hfids Hled (w & a & M1 & M2 & M3 & M4 & M5 & M6 & M7)] Hs.
  destruct (AckApplied_path s wrote (w_meter W)) as (Hpend & Hns & Hf).
  split; cbn [w_meter w_db w_emitted w_frames w_acks]; try done.
  - unfold seq_of. rewrite Hns. exact Hnext.
  - rewrite Hpend. pose proof (length_filter (fun d => acked s d = false) (m_pending (w_meter W))). lia.
  - rewrite Hpend. rewrite Forall_forall in Hids |- *. intros d [_ Hd]%list_elem_of_filter. by apply Hids.
  - pose proof (proj1 (Forall_forall _ _) M7 s Hs) as M8. simpl in M8.
    destruct (s !! p) as [x|] eqn:Ex.
    + exists w, (Nat.max a (Z.to_nat x)). specialize (M8 x eq_refl).
      split_and!; try done; [lia |].
      rewrite Hf, M4, (filter_numbered x _ (1 + Z.of_nat a)) by (by apply numbered_drop).
      rewrite drop_drop. f_equal. lia.
    + exists w, a. rewrite Hf. by split_and!.
Qed.

Lemma inv_restart W :
  inv W ->
  m_disk (w_meter W) = mkMeterDisk (m_pending (w_meter W)) (m_last (w_meter W), m_nextSeq (w_meter W)) ->
  inv (mkWorld (NewMeter (m_disk (w_meter W))) (w_db W) (w_server W) (w_emitted W)
         (w_frames W) (w_acks W)).
Proof.
  intros Hinv Hd. destruct W as [[last next pend disk] db server em fr ac]. simpl in Hd.
  subst disk. unfold NewMeter. simpl. destruct Hinv. by split.
Qed.

(** What a frame holds of the path is a slice too, and a short one. *)
Lemma frame_slice E b w :
  slice_ok E b w -> exists a k, by_path p (frame b) = take k (drop a E)
    /\ (a + k <= length E)%nat /\ (a <= w)%nat /\ Z.of_nat k <= maxDeltasPerFrame.
Proof.
  intros (a & k & Hb & Hk & Ha).
  assert (Hpre : by_path p (frame b) `prefix_of` by_path p b).
  { unfold frame. rewrite <- (take_drop (Z.to_nat maxDeltasPerFrame) b) at 2.
    rewrite by_path_app. by apply prefix_app_r. }
  destruct Hpre as [l Hl]. rewrite Hb in Hl.
  assert (Hlen : length (take k (drop a E)) = k) by (rewrite length_take, length_drop; lia).
  assert (Hk' : (length (by_path p (frame b)) <= k)%nat)
    by (rewrite <- Hlen, Hl, length_app; lia).
  exists a, (length (by_path p (frame b))). split_and!; [| lia | done |].
  - rewrite <- (take_app_length (by_path p (frame b)) l) at 1. rewrite <- Hl, take_take.
    f_equal. lia.
  - assert ((length (by_path p (frame b)) <= length (frame b))%nat) by apply length_filter.
    unfold frame in *. rewrite length_take in *. unfold maxDeltasPerFrame in *. lia.
Qed.

Lemma inv_deliver W b now nowOf faults :
  inv W -> b ∈ w_frames W -> Z.of_nat (length (w_emitted W)) <= maxDeltaSequence ->
  let r := applyUsage LoadLocation cfg now nowOf (mkUsage b) (mkStore (w_db W) faults) (w_server W) in
  inv (mkWorld (w_meter W) (st_db r.1.2) r.2 (w_emitted W) (w_frames W) (ack_Seqs r.1.1 :: w_acks W)).
Proof.
  intros [Hnum Hnext Hshort Hids Hfids Hled (w & a & M1 & M2 & M3 & M4 & M5 & M6 & M7)] Hb Hmax r.
  pose proof (proj1 (Forall_forall _ _) Hfids b Hb) as Hbi. simpl in Hbi.
  pose proof (proj1 (Forall_forall _ _) M6 b Hb) as Hsl. simpl in Hsl.
  destruct (applyUsage_path LoadLocation cfg now nowOf b (mkStore (w_db W) faults) (w_server W) p
    Hbi Hled Hp) as [Hok Hack].
  fold r in Hok, Hack. cbn [st_db] in Hack. set (E := by_path p (w_emitted W)) in *.
  assert (HE : (length E <= length (w_emitted W))%nat) by apply length_filter.
  assert (Hgoal : exists w', (w <= w' <= length E)%nat
    /\ watermark (st_db r.1.2) p = Some (Z.of_nat w')
    /\ figures <$> path_samples p (st_db r.1.2) = bill (path_Quota pc) <$> take w' E
    /\ (forall x, ack_Seqs r.1.1 !! p = Some x -> x <= Z.of_nat w')).
  { destruct (ack_Seqs r.1.1 !! p) as [x|].
    2:{ destruct Hack as (A1 & A2 & _). exists w. rewrite A1, A2. by split_and!. }
    destruct Hack as (base & Hbase & Hx & Hcase). rewrite M1 in Hbase. injection Hbase as <-.
    destruct Hcase as [(-> & A1 & A2 & _) | (Hxe & _ & B2 & _)].
    { exists w. rewrite A1, A2. split_and!; try done. intros x [= <-]. lia. }
    destruct (frame_slice E b w Hsl) as (a' & k & F1 & F2 & F3 & F4).
    set (n := (k - (w - a'))%nat).
    assert (Hacc : accepted (Z.of_nat w) (Z.of_nat w) (by_path p (frame b)) = take n (drop w E)).
    { rewrite F1, (accepted_numbered _ _ (1 + Z.of_nat a')).
      - rewrite skipn_firstn_comm, drop_drop. subst n.
        replace (Z.to_nat (Z.of_nat w + 1 - (1 + Z.of_nat a'))) with (w - a')%nat by lia.
        f_equal. f_equal. lia.
      - by apply numbered_take, numbered_drop.
      - lia.
      - lia.
      - rewrite length_take, length_drop. lia.
      - rewrite length_take, length_drop. change maxSequenceJump with 134217728.
        unfold maxDeltasPerFrame in F4. lia. }
    assert (Hn : length (take n (drop w E)) = n) by (rewrite length_take, length_drop; lia).
    exists (w + n)%nat. rewrite Hacc in Hxe, B2.
    rewrite (last_seq_numbered _ (Z.of_nat w)), Hn in Hxe
      by (apply numbered_take; rewrite Z.add_comm; by apply numbered_drop).
    split_and!; [lia | subst n; lia | rewrite Hx; f_equal; lia | | intros y [= <-]; lia].
    rewrite B2, fmap_app, M5. unfold entries_of. rewrite Hpc, Hmetered, <- !list_fmap_compose.
    rewrite <- take_take_drop, fmap_app. f_equal. apply list_fmap_ext. intros i d _.
    apply figures_bill. }
  destruct Hgoal as (w' & [G0 G1] & G2 & G3 & G4).
  split; cbn [w_meter w_db w_emitted w_frames w_acks]; try done.
  exists w', a. fold E. split_and!; try done; [lia | |].
  - eapply Forall_impl; [exact M6 |]. intros fr (a1 & k1 & K1 & K2 & K3).
    exists a1, k1. split_and!; try done. lia.
  - constructor; [done |]. eapply Forall_impl; [exact M7 |]. intros s Hs x Hx.
    specialize (Hs x Hx). lia.
Qed.

Lemma step_emitted W W' : step W W' -> (length (w_emitted W) <= length (w_emitted W'))%nat.
Proof. intros []; simpl; rewrite ?length_app; lia. Qed.

Lemma inv_step W W' :
  step W W' -> Z.of_nat (length (w_emitted W')) <= maxDeltaSequence -> inv W -> inv W'.
Proof.
  intros Hs Hm Hinv. destruct Hs.
  - by apply inv_sample.
  - by apply inv_send.
  - by apply inv_deliver.
  - by apply inv_ack.
  - by apply inv_restart.
Qed.

Lemma inv_reach W :
  rtc step start W -> Z.of_nat (length (w_emitted W)) <= maxDeltaSequence -> inv W.
Proof.
  revert W. apply (rtc_ind_r (fun W => Z.of_nat (length (w_emitted W)) <= maxDeltaSequence -> inv W)).
  - intros _. apply inv_start.
  - intros W W' _ Hs IH Hm. apply (inv_step W); [done | done |]. apply IH.
    pose proof (step_emitted W W' Hs). lia.
Qed.

(** A round trip: a batch is sent, applied by a healthy store, and its
    acknowledgement comes back. *)
Definition round_trip (n : Z) (now : Time) (nowOf : Z -> Time) (W : World) : World :=
  let b := PendingBatch n (w_meter W) in
  let r := applyUsage LoadLocation cfg now nowOf (mkUsage b) (mkStore (w_db W) []) (w_server W) in
  mkWorld (AckApplied (ack_Seqs r.1.1) true (w_meter W)) (st_db r.1.2) r.2 (w_emitted W)
    (b :: w_frames W) (ack_Seqs r.1.1 :: w_acks W).

Lemma round_trip_steps n now nowOf W : rtc step W (round_trip n now nowOf W).
Proof.
  eapply rtc_l; [apply (StSend W n) |].
  eapply rtc_l; [apply (StDeliver _ (PendingBatch n (w_meter W)) now nowOf []); simpl; by left |].
  eapply rtc_l; [| apply rtc_refl]. unfold round_trip. cbn [w_meter w_db w_server w_emitted w_frames w_acks].
  apply (StAck (mkWorld _ _ _ _ _ (_ :: _)) _ true). simpl. by left.
Qed.

(** A batch with room for every buffered path has something of each. *)
Lemma batch_has_path n m :
  Z.of_nat (size (paths_of (m_pending m))) <= n -> by_path p (m_pending m) <> [] ->
  (0 < length (by_path p (PendingBatch n m)))%nat.
Proof.
  intros Hn Hne. destruct (by_path p (m_pending m)) as [|x l] eqn:Ex; [done |].
  assert (Hx : x ∈ m_pending m) by (apply (elem_of_by_path p); rewrite Ex; by left).
  assert (1 <= Z.of_nat (size (paths_of (m_pending m)))).
  { apply paths_of_elem in Hx.
    destruct (Nat.eq_dec (size (paths_of (m_pending m))) 0) as [Hz|]; [| lia].
    apply size_empty_inv in Hz. set_solver. }
  destruct (PendingBatch_share n m ltac:(lia)) as [_ L2]. specialize (L2 Hn p).
  assert (1 <= Z.min n (Z.of_nat (length (m_pending m))) / Z.of_nat (size (paths_of (m_pending m)))).
  { apply Z.div_le_lower_bound; [lia |]. pose proof (size_paths_of (m_pending m)). lia. }
  rewrite Ex in L2. simpl in L2. lia.
Qed.

(** What a round trip leaves of the path's buffer. *)
Lemma round_trip_pending n now nowOf W :
  inv W -> Z.of_nat (length (w_emitted W)) <= maxDeltaSequence ->
  Z.of_nat (size (paths_of (m_pending (w_meter W)))) <= n <= maxDeltasPerFrame ->
  by_path p (m_pending (w_meter W)) <> [] ->
  (length (by_path p (m_pending (w_meter (round_trip n now nowOf W))))
   < length (by_path p (m_pending (w_meter W))))%nat.
Proof.
  intros [Hnum Hnext Hshort Hids Hfids Hled (w & a & M1 & M2 & M3 & M4 & M5 & M6 & M7)] Hmax Hn Hne.
  set (E := by_path p (w_emitted W)) in *. set (b := PendingBatch n (w_meter W)).
  assert (HE : (length E <= length (w_emitted W))%nat) by apply length_filter.
  destruct (PendingBatch_slice n (w_meter W)) as [B1 B2].
  destruct (PendingBatch_share n (w_meter W) ltac:(lia)) as [L1 _]. fold b in B1, B2, L1.
  assert (Hframe : frame b = b) by (unfold frame; apply take_ge; lia).
  assert (Hpos : (0 < length (by_path p b))%nat) by (apply batch_has_path; [lia | done]).
  destruct (B1 p) as [l Hl]. rewrite M4 in Hl. set (k := length (by_path p b)) in *.
  assert (Hb : by_path p b = take k (drop a E)) by (rewrite Hl; subst k; by rewrite take_app_length).
  assert (Hk : (a + k <= length E)%nat).
  { apply (f_equal length) in Hl. rewrite length_drop, length_app in Hl. lia. }
  assert (Hacc : accepted (Z.of_nat w) (Z.of_nat w) (by_path p b) = drop (w - a) (take k (drop a E))).
  { rewrite Hb, (accepted_numbered _ _ (1 + Z.of_nat a)).
    - f_equal. lia.
    - by apply numbered_take, numbered_drop.
    - lia.
    - lia.
    - rewrite length_take, length_drop. lia.
    - rewrite length_take, length_drop. change maxSequenceJump with 134217728.
      assert (k <= length b)%nat by apply length_filter. unfold maxDeltasPerFrame in Hn. lia. }
  destruct (by_path p b) as [|x l0] eqn:Ex; [subst k; simpl in Hpos; lia |].
  assert (Hxs : ud_Sequence x <= maxDeltaSequence).
  { assert (Hx0 : take k (drop a E) !! 0%nat = Some x) by by rewrite <- Hb.
    rewrite (numbered_take (1 + Z.of_nat a) k (drop a E) (numbered_drop _ _ _ Hnum) 0%nat x Hx0). lia. }
  pose proof (applyUsage_healthy LoadLocation cfg now nowOf b (mkStore (w_db W) []) (w_server W) p
    (Z.of_nat w) x) as Hack.
  rewrite Hframe, Ex, Hacc in Hack.
  assert (Hack' : ack_Seqs (applyUsage LoadLocation cfg now nowOf (mkUsage b) (mkStore (w_db W) [])
      (w_server W)).1.1 !! p = Some (last_seq (Z.of_nat w) (drop (w - a) (take k (drop a E))))).
  { apply Hack; try done; [| | by left].
    - rewrite Forall_forall in Hids |- *. auto.
    - unfold eligible, HasPath. rewrite bool_decide_eq_true_2 by eauto. done. }
  clear Hack. unfold round_trip. cbn [w_meter]. fold b.
  destruct (AckApplied_path (ack_Seqs (applyUsage LoadLocation cfg now nowOf (mkUsage b)
    (mkStore (w_db W) []) (w_server W)).1.1) true (w_meter W)) as (_ & _ & ->).
  rewrite Hack', M4, (filter_numbered _ _ (1 + Z.of_nat a)) by by apply numbered_drop.
  rewrite (last_seq_numbered _ (Z.of_nat w)).
  - rewrite !length_drop, length_take, length_drop. lia.
  - replace (Z.of_nat w + 1) with (1 + Z.of_nat a + Z.of_nat (w - a)) by lia.
    by apply numbered_drop, numbered_take, numbered_drop.
Qed.
End system.

(** [C1] Metered usage is billed exactly once.  Whatever the network does with
    the frames and the acknowledgements (loss, delay, duplication, reordering),
    whenever the database fails, and whenever the backend restarts on files that
    hold what it had in memory: the store's rows for a metered path are, in
    order and once each, the figures of exactly the first [w] deltas the meter
    emitted for it, where [w] is the watermark; every delta past an acknowledged
    point [a <= w] is still in the meter's buffer; so nothing is billed twice
    and nothing is lost. The buffer stays within its cap, and the numbers below
    their ceiling; a restart between the meter's two writes is the exception,
    and bills too little ([torn_restart_underbills]). *)
Theorem billed_exactly_once LoadLocation cfg p pc W :
  PathByID cfg p = Some pc -> path_Metered pc = true -> in_i64 p ->
  rtc (step LoadLocation cfg) start W ->
  Z.of_nat (length (w_emitted W)) <= maxDeltaSequence ->
  let E := by_path p (w_emitted W) in
  exists w a,
    watermark (w_db W) p = Some (Z.of_nat w) /\ (a <= w <= length E)%nat
    /\ figures <$> path_samples p (w_db W) = bill (path_Quota pc) <$> take w E
    /\ by_path p (m_pending (w_meter W)) = drop a E
    /\ numbered 1 E.
Proof.
  intros Hpc Hm Hp Hr Hlen E.
  destruct (inv_reach LoadLocation cfg p pc Hpc Hm Hp W Hr Hlen)
    as [Hnum _ _ _ _ _ (w & a & M1 & M2 & M3 & M4 & M5 & _)].
  exists w, a. by split_and!.
Qed.

(** [C8] The backlog drains.  From any state the system can reach, one batch
    with room for every buffered path, applied by a store that does not fail
    and acknowledged, strictly shortens the buffer of every metered path that
    has one, and is itself a run of the system. *)
Theorem backlog_drains LoadLocation cfg p pc W n now nowOf :
  PathByID cfg p = Some pc -> path_Metered pc = true -> in_i64 p ->
  rtc (step LoadLocation cfg) start W ->
  Z.of_nat (length (w_emitted W)) <= maxDeltaSequence ->
  Z.of_nat (size (paths_of (m_pending (w_meter W)))) <= n <= maxDeltasPerFrame ->
  by_path p (m_pending (w_meter W)) <> [] ->
  let W' := round_trip LoadLocation cfg n now nowOf W in
  rtc (step LoadLocation cfg) W W'
  /\ (length (by_path p (m_pending (w_meter W')))
      < length (by_path p (m_pending (w_meter W))))%nat.
Proof.
  intros Hpc Hm Hp Hr Hlen Hn Hne. split; [apply round_trip_steps |].
  apply (round_trip_pending LoadLocation cfg p pc Hpc); try done. by apply (inv_reach LoadLocation cfg p pc).
Qed.

(** A run: two samples, the second with traffic. *)
Definition sample_bc : BackendConfig := backendConfig Defaults.
Definition counters_at (b pk : Z) (iface : string) : option Counters :=
  if String.eqb iface "wg-lte1" then Some (mkCounters b 0 pk 0) else None.
Definition sample_at (b pk : Z) (now : Time) (W : World) : World :=
  mkWorld (sample (Some sample_bc) (counters_at b pk) now true true (w_meter W)) (w_db W) (w_server W)
    (w_emitted W ++ (sample_paths (counters_at b pk) now (bc_Paths sample_bc) (w_meter W)).1)
    (w_frames W) (w_acks W).
Definition sampled : World :=
  sample_at 9000 20 (UnixTime 1700000010) (sample_at 1000 10 (UnixTime 1700000000) start).

Lemma sample_bc_ids : Forall (fun q => in_i64 (pinfo_ID q)) (bc_Paths sample_bc).
Proof. repeat (constructor; [unfold in_i64; vm_compute; split; discriminate |]). constructor. Qed.

Lemma sampled_run : rtc (step (fun _ => None) Defaults) start sampled.
Proof.
  eapply rtc_l; [| eapply rtc_l; [| apply rtc_refl]].
  - apply (StSample _ _ start sample_bc (counters_at 1000 10) (UnixTime 1700000000) true true sample_bc_ids).
    vm_compute. discriminate.
  - apply (StSample _ _ (sample_at 1000 10 (UnixTime 1700000000) start) sample_bc (counters_at 9000 20)
      (UnixTime 1700000010) true true sample_bc_ids).
    vm_compute. discriminate.
Qed.

Definition lte1 : PathConfig :=
  mkPathConfig 2 "lte1" "wg-lte1" 2 102 258 true true (default_quota (Z.shiftl 60 30)) no_shape.

(** A run with the troubles in it: the batch goes out, the store fails on it,
    takes it, and is handed it again; the backend restarts on its files before
    the acknowledgement comes; the traffic goes on. *)
Definition sent (W : World) : World :=
  mkWorld (w_meter W) (w_db W) (w_server W) (w_emitted W) (PendingBatch 500 (w_meter W) :: w_frames W) (w_acks W).
Definition delivered (faults : list bool) (W : World) : World :=
  let r := applyUsage (fun _ => None) Defaults (UnixTime 1700000020) (fun _ => UnixTime 1700000020)
             (mkUsage (hd [] (w_frames W))) (mkStore (w_db W) faults) (w_server W) in
  mkWorld (w_meter W) (st_db r.1.2) r.2 (w_emitted W) (w_frames W) (ack_Seqs r.1.1 :: w_acks W).
Definition restarted (W : World) : World :=
  mkWorld (NewMeter (m_disk (w_meter W))) (w_db W) (w_server W) (w_emitted W) (w_frames W) (w_acks W).
Definition ack_taken (W : World) : World :=
  mkWorld (AckApplied (hd ∅ (w_acks W)) true (w_meter W)) (w_db W) (w_server W) (w_emitted W) (w_frames W) (w_acks W).
Definition twice_delivered : World := delivered [] (delivered [] (delivered [true] (sent sampled))).
Definition troubled : World :=
  sample_at 12000 30 (UnixTime 1700000040) (ack_taken
    (sample_at 10000 25 (UnixTime 1700000030) (restarted twice_delivered))).

Lemma delivered_step faults W : w_frames W <> [] -> step (fun _ => None) Defaults W (delivered faults W).
Proof.
  intros Hf. apply (StDeliver _ _ W (hd [] (w_frames W)) (UnixTime 1700000020) (fun _ => UnixTime 1700000020) faults).
  destruct (w_frames W) as [|f fs]; [done |]. by left.
Qed.
Lemma ack_taken_step W : w_acks W <> [] -> step (fun _ => None) Defaults W (ack_taken W).
Proof.
  intros Hf. apply (StAck _ _ W (hd ∅ (w_acks W)) true). destruct (w_acks W) as [|f fs]; [done |]. by left.
Qed.
Lemma sample_at_step b pk now W :
  (Z.of_nat (length (m_pending (w_meter W) ++ (sample_paths (counters_at b pk) now (bc_Paths sample_bc) (w_meter W)).1)) <=? maxBuffered) = true ->
  step (fun _ => None) Defaults W (sample_at b pk now W).
Proof. intros H%Z.leb_le. apply (StSample _ _ W sample_bc (counters_at b pk) now true true sample_bc_ids H). Qed.

Lemma troubled_run : rtc (step (fun _ => None) Defaults) start troubled.
Proof.
  etransitivity; [apply sampled_run |].
  eapply rtc_l; [apply (StSend _ _ sampled 500) |].
  do 3 (eapply rtc_l; [apply delivered_step; done |]).
  eapply rtc_l; [apply (StRestart _ _ twice_delivered); vm_compute; reflexivity |].
  eapply rtc_l; [apply (sample_at_step 10000 25 (UnixTime 1700000030)); vm_compute; reflexivity |].
  eapply rtc_l; [apply ack_taken_step; done |].
  eapply rtc_l; [apply (sample_at_step 12000 30 (UnixTime 1700000040)); vm_compute; reflexivity | apply rtc_refl].
Qed.

(** Three deltas were emitted; the first, delivered to a failing store and then
    twice, is billed once and gone from the buffer, and the other two wait. *)
Lemma billed_exactly_once_witness :
  watermark (w_db troubled) 2 = Some 1
  /\ length (path_samples 2 (w_db troubled)) = 1%nat
  /\ ud_Sequence <$> by_path 2 (m_pending (w_meter troubled)) = [2; 3]
  /\ exists w a,
    watermark (w_db troubled) 2 = Some (Z.of_nat w)
    /\ (a <= w <= length (by_path 2 (w_emitted troubled)))%nat
    /\ figures <$> path_samples 2 (w_db troubled)
       = bill (path_Quota lte1) <$> take w (by_path 2 (w_emitted troubled))
    /\ by_path 2 (m_pending (w_meter troubled)) = drop a (by_path 2 (w_emitted troubled))
    /\ numbered 1 (by_path 2 (w_emitted troubled)).
Proof.
  split; [vm_compute; reflexivity |]. split; [vm_compute; reflexivity |]. split; [vm_compute; reflexivity |].
  apply (billed_exactly_once (fun _ => None) Defaults 2 lte1 troubled).
  - reflexivity.
  - reflexivity.
  - unfold in_i64. vm_compute. split; discriminate.
  - apply troubled_run.
  - vm_compute. discriminate.
Defined.

Lemma backlog_drains_witness :
  let W' := round_trip (fun _ => None) Defaults 500 (UnixTime 1700000020)
              (fun _ => UnixTime 1700000020) sampled in
  rtc (step (fun _ => None) Defaults) sampled W'
  /\ (length (by_path 2 (m_pending (w_meter W')))
      < length (by_path 2 (m_pending (w_meter sampled))))%nat.
Proof.
  apply (backlog_drains (fun _ => None) Defaults 2 lte1 sampled 500).
  - reflexivity.
  - reflexivity.
  - unfold in_i64. vm_compute. split; discriminate.
  - apply sampled_run.
  - vm_compute. discriminate.
  - vm_compute. split; discriminate.
  - vm_compute. discriminate.
Defined.

(** ** A lost state write

    [sample] writes the buffer, then the counters and the numbering.  When the
    second write is the one that fails and the agent restarts, the sequence the
    last delta took is given out again. *)

Definition torn_meter : Meter :=
  let m := sample (Some sample_bc) (counters_at 1000 10) (UnixTime 1700000000) true true (w_meter start) in
  let m := sample (Some sample_bc) (counters_at 9000 20) (UnixTime 1700000010) true false m in
  sample (Some sample_bc) (counters_at 10000 25) (UnixTime 1700000020) true true (NewMeter (m_disk m)).

(** After such a restart two deltas carry the same number; the frontend bills
    the first and discards the second, and its acknowledgement empties the
    buffer: of the 9000 bytes the interface counted, 8000 are billed. *)
Theorem torn_restart_underbills :
  let b := PendingBatch 500 torn_meter in
  let r := applyUsage (fun _ => None) Defaults (UnixTime 1700000030) (fun _ => UnixTime 1700000030)
             (mkUsage b) (mkStore emptyDB []) NewControlServer in
  ud_Sequence <$> b = [1; 1] /\ ud_Bytes <$> b = [8000; 9000]
  /\ figures <$> path_samples 2 (st_db r.1.2) = [bill (path_Quota lte1) (mkUsageDelta 2 8000 10 1700000010 1)]
  /\ m_pending (AckApplied (ack_Seqs r.1.1) true torn_meter) = [].
Proof. vm_compute. done. Qed.
