(* ===== verification/Registry.v ===== *)
(** * The hosts on the control channel ([internal/engine/engine.go])

    Which hosts are connected and when each was last heard from: the count of
    backend connections behind [SetBackendUp], the linker sessions behind
    [SetLinkerUp], [MarkLinkerSeen] and [SetLinkerDown], and the on-disk stamp
    [persistLinkerSeen] throttles.  Who a peer may be ([KnownBackend],
    [KnownLinker]) and what a linker is told ([LinkerConfigFor]) are functions
    of the configuration. *)

From S2P Require Import Prelude GoTime Model Bytes Decimal Store.

(** ** State *)

Record linkerConn := mkLinkerConn {
  lc_version : string; lc_hostname : string; lc_table : Z; lc_since : Time; lc_session : Z }.

Record Registry := mkRegistry {
  rg_backendConns : Z;
  rg_backendUp : bool;
  rg_backendVersion : string;
  rg_backendHost : string;
  rg_linkers : gmap string linkerConn;
  rg_linkerSeen : gmap string Time;
  rg_linkerSaved : gmap string Time;
  rg_linkerSession : Z }.

Definition NewRegistry : Registry := mkRegistry 0 false "" "" ∅ ∅ ∅ 0.

Definition set_linkers (m : gmap string linkerConn) (g : Registry) : Registry :=
  mkRegistry (rg_backendConns g) (rg_backendUp g) (rg_backendVersion g) (rg_backendHost g)
    m (rg_linkerSeen g) (rg_linkerSaved g) (rg_linkerSession g).
Definition set_linkerSeen (m : gmap string Time) (g : Registry) : Registry :=
  mkRegistry (rg_backendConns g) (rg_backendUp g) (rg_backendVersion g) (rg_backendHost g)
    (rg_linkers g) m (rg_linkerSaved g) (rg_linkerSession g).
Definition set_linkerSaved (m : gmap string Time) (g : Registry) : Registry :=
  mkRegistry (rg_backendConns g) (rg_backendUp g) (rg_backendVersion g) (rg_backendHost g)
    (rg_linkers g) (rg_linkerSeen g) m (rg_linkerSession g).
Definition set_linkerSession (n : Z) (g : Registry) : Registry :=
  mkRegistry (rg_backendConns g) (rg_backendUp g) (rg_backendVersion g) (rg_backendHost g)
    (rg_linkers g) (rg_linkerSeen g) (rg_linkerSaved g) n.

(** An event whose failure to be written is ignored. *)
Definition log_event (now : Time) (kind : string) (path : Z) (m : message) (st : Store) : Store :=
  (AddEvent now kind path m st).2.

(** ** The backend's connections *)

Definition SetBackendUp (up : bool) (now : Time) (g : Registry) (st : Store) : Registry * Store :=
  let conns := if up then i64 (rg_backendConns g + 1)
               else if 0 <? rg_backendConns g then rg_backendConns g - 1
               else rg_backendConns g in
  let nowUp := 0 <? conns in
  let changed := negb (Bool.eqb (rg_backendUp g) nowUp) in
  let g' := mkRegistry conns nowUp (rg_backendVersion g) (rg_backendHost g)
              (rg_linkers g) (rg_linkerSeen g) (rg_linkerSaved g) (rg_linkerSession g) in
  (g', if changed
       then log_event now EventSystem 0
              (mkMessage (if nowUp then "backend control channel connected"
                          else "backend control channel lost") []) st
       else st).

Definition SetBackendInfo (version hostname : string) (g : Registry) : Registry :=
  mkRegistry (rg_backendConns g) (rg_backendUp g) version hostname
    (rg_linkers g) (rg_linkerSeen g) (rg_linkerSaved g) (rg_linkerSession g).

(** ** The linkers' sessions *)

(** [time.RFC3339] in UTC. *)
Definition pad (width : nat) (n : Z) : string :=
  let s := FormatUint n in
  (String.string_of_list_ascii (replicate (width - String.length s) "0"%char) ++ s)%string.
Definition FormatRFC3339 (t : Time) : string :=
  let s := Unix t mod secsPerDay in
  (pad 4 (Year UTC t) ++ "-" ++ pad 2 (Month UTC t) ++ "-" ++ pad 2 (Day UTC t) ++ "T"
   ++ pad 2 (s / 3600) ++ ":" ++ pad 2 (s / 60 mod 60) ++ ":" ++ pad 2 (s mod 60) ++ "Z")%string.

Definition metaLinkerSeen (overlayIP : string) : string := ("linker_seen:" ++ overlayIP)%string.
Definition linkerSeenPersistEvery : Duration := 5 * Minute.

Definition persistLinkerSeen (overlayIP : string) (at_ : Time) (force : bool)
    (g : Registry) (st : Store) : Registry * Store :=
  let due := force || match rg_linkerSaved g !! overlayIP with
                      | None => true
                      | Some saved => linkerSeenPersistEvery <=? Sub at_ saved
                      end in
  if due then
    (set_linkerSaved (<[overlayIP := at_]> (rg_linkerSaved g)) g,
     (SetMeta (metaLinkerSeen overlayIP) (FormatRFC3339 at_) st).2)
  else (g, st).

Definition SetLinkerUp (overlayIP version hostname : string) (table : Z) (now : Time)
    (g : Registry) (st : Store) : Z * (Registry * Store) :=
  let session := u64 (rg_linkerSession g + 1) in
  let g := set_linkerSession session g in
  let g := set_linkers
             (<[overlayIP := mkLinkerConn version hostname table now session]> (rg_linkers g)) g in
  let g := set_linkerSeen (<[overlayIP := now]> (rg_linkerSeen g)) g in
  (session, persistLinkerSeen overlayIP now true g st).

Definition MarkLinkerSeen (overlayIP : string) (now : Time) (g : Registry) (st : Store)
    : Registry * Store :=
  let g := set_linkerSeen (<[overlayIP := now]> (rg_linkerSeen g)) g in
  persistLinkerSeen overlayIP now false g st.

Definition SetLinkerDown (overlayIP : string) (session : Z) (g : Registry) (st : Store)
    : Registry * Store :=
  match rg_linkers g !! overlayIP with
  | None => (g, st)
  | Some c =>
      if negb (lc_session c =? session) then (g, st)
      else
        let g := set_linkers (delete overlayIP (rg_linkers g)) g in
        let last := default zeroTime (rg_linkerSeen g !! overlayIP) in
        if negb (IsZero last) then persistLinkerSeen overlayIP last true g st else (g, st)
  end.

(** ** What the configuration says of a peer *)

Definition KnownBackend (cfg : Config) (host : string) : bool :=
  negb (String.eqb (ov_BackendIP (cfg_Overlay cfg)) "")
  && String.eqb host (ov_BackendIP (cfg_Overlay cfg)).

Definition KnownLinker (cfg : Config) (overlayIP : string) : bool :=
  existsb (fun l => linker_Enabled l && String.eqb (linker_OverlayIP l) overlayIP)
    (cfg_Linkers cfg).

Definition LinkerConfigFor (cfg : Config) (overlayIP : string) : list string :=
  if negb (fe_BackendEgress (cfg_Frontend cfg)) then []
  else src_CIDR <$> filter (fun s => src_Enabled s && negb (String.eqb (src_CIDR s) "")
                                     && String.eqb (src_Host s) overlayIP = true)
                      (egress_Sources (cfg_Egress cfg)).

(** ** Runs of the registry *)

Inductive linker_op :=
| LUp (overlayIP version hostname : string) (table : Z) (now : Time)
| LSeen (overlayIP : string) (now : Time)
| LDown (overlayIP : string) (session : Z).

Definition linker_step (s : Registry * Store) (o : linker_op) : Registry * Store :=
  match o with
  | LUp ip v h t now => (SetLinkerUp ip v h t now s.1 s.2).2
  | LSeen ip now => MarkLinkerSeen ip now s.1 s.2
  | LDown ip n => SetLinkerDown ip n s.1 s.2
  end.
Definition linker_run (os : list linker_op) (s : Registry * Store) : Registry * Store :=
  fold_left linker_step os s.

(** The number of sessions opened. *)
Definition is_up (o : linker_op) : bool := match o with LUp _ _ _ _ _ => true | _ => false end.
Definition ups (os : list linker_op) : Z := Z.of_nat (length (List.filter is_up os)).
Definition is_up_at (ip : string) (o : linker_op) : bool :=
  match o with LUp ip' _ _ _ _ => String.eqb ip' ip | _ => false end.
Definition op_time (o : linker_op) : option Time :=
  match o with LUp _ _ _ _ now => Some now | LSeen _ now => Some now | LDown _ _ => None end.

Lemma linker_run_snoc os o s : linker_run (os ++ [o]) s = linker_step (linker_run os s) o.
Proof. unfold linker_run. by rewrite fold_left_app. Qed.

Lemma ups_snoc os o : ups (os ++ [o]) = ups os + (if is_up o then 1 else 0).
Proof.
  unfold ups. rewrite List.filter_app, length_app. simpl. destruct (is_up o); simpl; lia.
Qed.

Lemma persist_frame ip at_ force g st :
  rg_linkers (persistLinkerSeen ip at_ force g st).1 = rg_linkers g
  /\ rg_linkerSeen (persistLinkerSeen ip at_ force g st).1 = rg_linkerSeen g
  /\ rg_linkerSession (persistLinkerSeen ip at_ force g st).1 = rg_linkerSession g.
Proof. unfold persistLinkerSeen. by split_if. Qed.

(** What one operation does to the sessions. *)
Lemma step_linkers s o :
  rg_linkers (linker_step s o).1 =
    match o with
    | LUp ip v h t now =>
        <[ip := mkLinkerConn v h t now (u64 (rg_linkerSession s.1 + 1))]> (rg_linkers s.1)
    | LSeen _ _ => rg_linkers s.1
    | LDown ip n =>
        match rg_linkers s.1 !! ip with
        | Some c => if lc_session c =? n then delete ip (rg_linkers s.1) else rg_linkers s.1
        | None => rg_linkers s.1
        end
    end
  /\ rg_linkerSession (linker_step s o).1
     = if is_up o then u64 (rg_linkerSession s.1 + 1) else rg_linkerSession s.1.
Proof.
  destruct s as [g st]. destruct o as [ip v h t now | ip now | ip n];
    cbn [linker_step fst snd is_up]; unfold SetLinkerUp, MarkLinkerSeen, SetLinkerDown; cbn [snd].
  - destruct (persist_frame ip now true
      (set_linkerSeen (<[ip := now]> (rg_linkerSeen g))
        (set_linkers (<[ip := mkLinkerConn v h t now (u64 (rg_linkerSession g + 1))]> (rg_linkers g))
          (set_linkerSession (u64 (rg_linkerSession g + 1)) g))) st) as (H1 & _ & H3).
    split; [exact H1 | exact H3].
  - destruct (persist_frame ip now false
      (set_linkerSeen (<[ip := now]> (rg_linkerSeen g)) g) st) as (H1 & _ & H3). by split.
  - destruct (rg_linkers g !! ip) as [c|]; [| done].
    destruct (lc_session c =? n); cbn [negb]; [| done]. cbn zeta.
    split_if; [| done].
    by rewrite (proj1 (persist_frame _ _ _ _ _)), (proj2 (proj2 (persist_frame _ _ _ _ _))).
Qed.

(** The session [c] at [ip] is the last one opened there, and its own teardown
    has not run. *)
Definition open_session (os : list linker_op) (ip : string) (c : linkerConn) : Prop :=
  exists pre v h t now post,
    os = pre ++ LUp ip v h t now :: post
    /\ c = mkLinkerConn v h t now (ups pre + 1)
    /\ Forall (fun o => is_up_at ip o = false) post
    /\ LDown ip (ups pre + 1) ∉ post.

Lemma snoc_split {A} (os pre post : list A) (o x : A) :
  os ++ [o] = pre ++ x :: post ->
  (post = [] /\ pre = os /\ x = o) \/ (exists post', post = post' ++ [o] /\ os = pre ++ x :: post').
Proof.
  induction post as [|y post' _] using rev_ind; intros H.
  - left. apply app_inj_tail in H as [-> ->]. done.
  - right. rewrite app_comm_cons, app_assoc in H. apply app_inj_tail in H as [-> ->].
    by exists post'.
Qed.

Lemma open_session_snoc os o ip c :
  open_session (os ++ [o]) ip c <->
    (exists v h t now, o = LUp ip v h t now /\ c = mkLinkerConn v h t now (ups os + 1))
    \/ (open_session os ip c /\ is_up_at ip o = false /\ o <> LDown ip (lc_session c)).
Proof.
  split.
  - intros (pre & v & h & t & now & post & Hos & -> & Hup & Hdown).
    apply snoc_split in Hos as [(-> & -> & <-) | (post' & -> & ->)].
    + left. by exists v, h, t, now.
    + right. apply Forall_app in Hup as [Hup Ho]. inversion_clear Ho.
      split; [| split; [done |]].
      * exists pre, v, h, t, now, post'. split_and!; [done | done | done |].
        intros Hin. apply Hdown. apply elem_of_app. by left.
      * simpl. intros ->. apply Hdown. apply elem_of_app. right. by left.
  - intros [(v & h & t & now & -> & ->) | (Ho & Hup & Hne)].
    + exists os, v, h, t, now, []. split_and!; [done | done | constructor | apply not_elem_of_nil].
    + destruct Ho as (pre & v & h & t & now & post & -> & -> & Hpost & Hdown).
      exists pre, v, h, t, now, (post ++ [o]). split_and!.
      * by rewrite <- app_assoc.
      * done.
      * apply Forall_app_2; [done | by repeat constructor].
      * rewrite elem_of_app, list_elem_of_singleton. simpl in Hne. naive_solver.
Qed.

Lemma linker_session_inv os st :
  Z.of_nat (length os) < MaxUint64 ->
  rg_linkerSession (linker_run os (NewRegistry, st)).1 = ups os
  /\ 0 <= ups os <= Z.of_nat (length os)
  /\ (forall ip c, rg_linkers (linker_run os (NewRegistry, st)).1 !! ip = Some c
        <-> open_session os ip c).
Proof.
  induction os as [|o os IH] using rev_ind; intros Hlen.
  { split_and!; try done. intros ip c. simpl. rewrite lookup_empty. split; [done |].
    intros (pre & v & h & t & now & post & Hnil & _). by destruct pre. }
  rewrite length_app in Hlen. simpl in Hlen. destruct IH as (Hn & Hr & Hmap); [lia |].
  rewrite linker_run_snoc, ups_snoc, length_app. simpl.
  destruct (step_linkers (linker_run os (NewRegistry, st)) o) as [Hstep Hses].
  rewrite Hses, Hn. rewrite Hn in Hstep.
  rewrite (u64_id (ups os + 1)) in * by go_lia. split_and!.
  - by destruct (is_up o); lia.
  - by destruct (is_up o); lia.
  - by destruct (is_up o); lia.
  - intros ip c. rewrite open_session_snoc, Hstep. specialize (Hmap ip).
    destruct o as [ip' v h t now | ip' now | ip' n]; simpl.
    + destruct (String.eqb_spec ip' ip) as [-> | Hne].
      * rewrite lookup_insert_eq. naive_solver.
      * rewrite lookup_insert_ne by done. rewrite Hmap. naive_solver.
    + rewrite Hmap. naive_solver.
    + destruct (String.eqb_spec ip' ip) as [-> | Hne].
      * destruct (rg_linkers _ !! ip) as [c'|] eqn:E.
        -- assert (Hc' : open_session os ip c') by (by apply Hmap).
           destruct (Z.eqb_spec (lc_session c') n) as [<- | Hsn].
           ++ rewrite lookup_delete_eq. split; [done |].
              intros [(? & ? & ? & ? & ? & ?) | (Ho & _ & Hd)]; [done |].
              apply Hmap in Ho. by injection Ho as <-.
           ++ rewrite E, <- Hmap. split; [| naive_solver]. intros [= <-]. right.
              split_and!; [done | done |]. by intros [= ->].
        -- rewrite E, <- Hmap. split; [done |]. naive_solver.
      * assert (Hd : (match rg_linkers (linker_run os (NewRegistry, st)).1 !! ip' with
          | Some c0 => if lc_session c0 =? n
              then delete ip' (rg_linkers (linker_run os (NewRegistry, st)).1)
              else rg_linkers (linker_run os (NewRegistry, st)).1
          | None => rg_linkers (linker_run os (NewRegistry, st)).1 end) !! ip
          = rg_linkers (linker_run os (NewRegistry, st)).1 !! ip).
        { destruct (_ !! ip') as [c'|]; [| done]. split_if; [| done].
          by rewrite lookup_delete_ne. }
        rewrite Hd, Hmap. split; [| naive_solver]. intros Ho. right.
        split_and!; [done | done |]. by intros [= -> _].
Qed.

(** A linker is listed as connected exactly while the last session opened
    from its address has not been torn down, whatever the order in which the
    sessions of a reconnecting host end: the teardown of an older session never
    removes a newer one, and the entry carries what that last session said of
    itself.  Sessions are numbered from one, each its own number. *)
Theorem linker_session_exact os st ip c :
  Z.of_nat (length os) < MaxUint64 ->
  rg_linkers (linker_run os (NewRegistry, st)).1 !! ip = Some c <->
    exists pre v h t now post,
      os = pre ++ LUp ip v h t now :: post
      /\ c = mkLinkerConn v h t now (ups pre + 1)
      /\ Forall (fun o => is_up_at ip o = false) post
      /\ LDown ip (ups pre + 1) ∉ post.
Proof. intros H. apply (linker_session_inv os st H). Qed.

(** A host that redials before its dead session is torn down. *)
Definition redial : list linker_op :=
  [LUp "10.99.0.3" "v1" "nas" 100 (UnixTime 1700000000);
   LSeen "10.99.0.3" (UnixTime 1700000015);
   LUp "10.99.0.3" "v2" "nas" 100 (UnixTime 1700000060);
   LDown "10.99.0.3" 1].

Lemma linker_session_exact_witness :
  rg_linkers (linker_run redial (NewRegistry, mkStore emptyDB [])).1 !! "10.99.0.3"
  = Some (mkLinkerConn "v2" "nas" 100 (UnixTime 1700000060) 2).
Proof.
  apply (linker_session_exact redial (mkStore emptyDB []) "10.99.0.3"
    (mkLinkerConn "v2" "nas" 100 (UnixTime 1700000060) 2)).
  - vm_compute. reflexivity.
  - exists [LUp "10.99.0.3" "v1" "nas" 100 (UnixTime 1700000000);
            LSeen "10.99.0.3" (UnixTime 1700000015)],
      "v2"%string, "nas"%string, 100, (UnixTime 1700000060), [LDown "10.99.0.3" 1].
    split; [reflexivity |]. split; [vm_compute; reflexivity |]. split.
    + repeat constructor.
    + intros H. apply list_elem_of_singleton in H. discriminate H.
Defined.

(** ** The stamp on disk *)

Definition saved_ok (s : Registry * Store) : Prop :=
  st_faults s.2 = []
  /\ forall ip saved, rg_linkerSaved s.1 !! ip = Some saved ->
       db_meta (st_db s.2) !! metaLinkerSeen ip = Some (FormatRFC3339 saved).
Definition fresh_at (ip : string) (s : Registry * Store) : Prop :=
  forall t, rg_linkerSeen s.1 !! ip = Some t ->
    exists saved, rg_linkerSaved s.1 !! ip = Some saved /\ Sub t saved < linkerSeenPersistEvery.

Lemma metaLinkerSeen_inj ip ip' : metaLinkerSeen ip = metaLinkerSeen ip' -> ip = ip'.
Proof. unfold metaLinkerSeen. intros H. simpl in H. by injection H. Qed.

Lemma Sub_self t : Sub t t = 0.
Proof. unfold Sub. rewrite Z.sub_diag. reflexivity. Qed.

(** Saving the stamp of one host brings it up to date and keeps the others'. *)
Lemma persist_stamp ip t force g st :
  rg_linkerSeen g !! ip = Some t -> saved_ok (g, st) ->
  saved_ok (persistLinkerSeen ip t force g st)
  /\ fresh_at ip (persistLinkerSeen ip t force g st)
  /\ (forall ip', ip' <> ip -> fresh_at ip' (g, st) ->
        fresh_at ip' (persistLinkerSeen ip t force g st))
  /\ (force = true -> rg_linkerSaved (persistLinkerSeen ip t force g st).1 !! ip = Some t).
Proof.
  intros Ht [Hf Hs]. unfold persistLinkerSeen, fresh_at, saved_ok. cbn [fst snd] in *.
  destruct (force || _) eqn:Edue.
  - unfold SetMeta. rewrite (exec_ok _ st Hf).
    cbn [fst snd rg_linkerSaved set_linkerSaved rg_linkerSeen st_db st_faults db_meta set_meta].
    split_and!; [done | | | |].
    + intros ip' saved. destruct (decide (ip' = ip)) as [-> | Hne].
      * rewrite !lookup_insert_eq. by intros [= ->].
      * rewrite lookup_insert_ne by done. rewrite lookup_insert_ne; [apply Hs |].
        intros Heq. by apply metaLinkerSeen_inj in Heq.
    + intros t' Ht'. rewrite Ht in Ht'. injection Ht' as <-. exists t.
      by rewrite lookup_insert_eq, Sub_self.
    + intros ip' Hne Hfr t' Ht'. rewrite lookup_insert_ne by done. by apply Hfr.
    + intros _. apply lookup_insert_eq.
  - apply orb_false_iff in Edue as [-> Edue]. cbn [fst snd]. split_and!; [done | done | | done | done].
    intros t' Ht'. rewrite Ht in Ht'. injection Ht' as <-.
    destruct (rg_linkerSaved g !! ip) as [saved|]; [| done].
    exists saved. split; [done | by bool_to_prop].
Qed.

Lemma stamp_step s o :
  saved_ok s -> (forall ip, fresh_at ip s) ->
  saved_ok (linker_step s o) /\ (forall ip, fresh_at ip (linker_step s o)).
Proof.
  destruct s as [g st]. intros Hs Hfr.
  assert (Hseen : forall ip now force m m',
    rg_linkerSaved m = rg_linkerSaved g -> rg_linkerSeen m = rg_linkerSeen g ->
    m' = set_linkerSeen (<[ip := now]> (rg_linkerSeen m)) m ->
    saved_ok (persistLinkerSeen ip now force m' st)
    /\ forall ip', fresh_at ip' (persistLinkerSeen ip now force m' st)).
  { intros ip now force m m' Hsaved Hseen ->.
    destruct (persist_stamp ip now force
      (set_linkerSeen (<[ip := now]> (rg_linkerSeen m)) m) st) as (H1 & H2 & H3 & _).
    { apply lookup_insert_eq. }
    { destruct Hs as [Hf Hs]. split; [done |]. simpl in *. by rewrite Hsaved. }
    split; [done |]. intros ip'. destruct (decide (ip' = ip)) as [-> | Hne]; [done |].
    apply H3; [done |]. intros t. cbn [fst rg_linkerSeen set_linkerSeen rg_linkerSaved].
    rewrite lookup_insert_ne by done. rewrite Hsaved, Hseen. apply Hfr. }
  destruct o as [ip v h t now | ip now | ip n]; cbn [linker_step fst snd].
  - by apply (Hseen ip now true (set_linkers
      (<[ip := mkLinkerConn v h t now (u64 (rg_linkerSession g + 1))]> (rg_linkers g))
      (set_linkerSession (u64 (rg_linkerSession g + 1)) g))).
  - by apply (Hseen ip now false g).
  - unfold SetLinkerDown. destruct (rg_linkers g !! ip) as [c|]; [| done].
    destruct (lc_session c =? n); cbn [negb]; [| done].
    set (g' := set_linkers (delete ip (rg_linkers g)) g). cbv zeta.
    destruct (rg_linkerSeen g' !! ip) as [t|] eqn:E; [| exact (conj Hs Hfr)].
    change (default zeroTime (Some t)) with t.
    destruct (IsZero t); cbn [negb]; [exact (conj Hs Hfr) |].
    destruct (persist_stamp ip t true g' st) as (H1 & H2 & H3 & _); [done | done |].
    split; [done |]. intros ip'. destruct (decide (ip' = ip)) as [-> | Hne]; [done |].
    apply H3; [done |]. apply Hfr.
Qed.

(** The stamp on disk is never far behind.  However linkers come, talk and
    go, and while the database does not fail, every host heard from has its
    stamp in the store, less than five minutes older than its last contact. *)
Theorem linker_stamp_fresh os st ip t :
  st_faults st = [] ->
  let s := linker_run os (NewRegistry, st) in
  rg_linkerSeen s.1 !! ip = Some t ->
  exists saved, db_meta (st_db s.2) !! metaLinkerSeen ip = Some (FormatRFC3339 saved)
    /\ Sub t saved < 5 * Minute.
Proof.
  intros Hf s Hip.
  assert (H : saved_ok s /\ forall ip, fresh_at ip s).
  { subst s. clear Hip. induction os as [|o os IH] using rev_ind.
    - split; [split; [done |] |]; intros ip' x H; discriminate H.
    - rewrite linker_run_snoc. apply stamp_step; apply IH. }
  destruct H as [[_ Hs] Hfr]. destruct (Hfr ip t Hip) as (saved & H1 & H2).
  exists saved. split; [by apply Hs | exact H2].
Qed.

Lemma linker_stamp_fresh_witness :
  exists saved,
    db_meta (st_db (linker_run redial (NewRegistry, mkStore emptyDB [])).2)
      !! "linker_seen:10.99.0.3" = Some (FormatRFC3339 saved)
    /\ Sub (UnixTime 1700000060) saved < 5 * Minute.
Proof.
  apply (linker_stamp_fresh redial (mkStore emptyDB []) "10.99.0.3" (UnixTime 1700000060));
    vm_compute; reflexivity.
Defined.

(** The stamp is recorded as saved whether or not the write went through, so a
    failed one is not tried again for five minutes. *)
Theorem linker_stamp_lost_write :
  let s := linker_run [LUp "10.99.0.3" "v1" "nas" 100 (UnixTime 1700000000);
                       LSeen "10.99.0.3" (UnixTime 1700000290)]
             (NewRegistry, mkStore emptyDB [true]) in
  rg_linkerSaved s.1 !! "10.99.0.3" = Some (UnixTime 1700000000)
  /\ db_meta (st_db s.2) !! "linker_seen:10.99.0.3" = None.
Proof. vm_compute. split; reflexivity. Qed.

(** ** The backend's connections *)

Definition backend_run (ups : list bool) (s : Registry * Store) : Registry * Store :=
  fold_left (fun s up => SetBackendUp up (UnixTime 0) s.1 s.2) ups s.

(** Connections open after a run: each release follows its own connect. *)
Definition opened (ups : list bool) : Z :=
  Z.of_nat (length (List.filter (fun b => b) ups))
  - Z.of_nat (length (List.filter negb ups)).

Lemma opened_snoc ups b : opened (ups ++ [b]) = opened ups + (if b then 1 else -1).
Proof.
  unfold opened. rewrite !List.filter_app, !length_app. destruct b; simpl; lia.
Qed.

Lemma backend_run_inv ups st :
  Z.of_nat (length ups) <= MaxInt64 ->
  (forall k, 0 <= opened (take k ups)) ->
  rg_backendConns (backend_run ups (NewRegistry, st)).1 = opened ups
  /\ rg_backendUp (backend_run ups (NewRegistry, st)).1 = (0 <? opened ups)
  /\ opened ups <= Z.of_nat (length ups).
Proof.
  induction ups as [|b ups IH] using rev_ind; intros Hlen Hall; [done |].
  rewrite length_app in Hlen. simpl in Hlen.
  destruct IH as (H1 & H2 & H3); [lia | |].
  { intros k. specialize (Hall (k `min` length ups)%nat).
    rewrite take_app_le in Hall by lia.
    destruct (Nat.le_gt_cases k (length ups)).
    - by rewrite Nat.min_l in Hall by lia.
    - rewrite Nat.min_r in Hall by lia. by rewrite (take_ge ups k) by lia; rewrite firstn_all in Hall. }
  pose proof (Hall (length (ups ++ [b]))) as Hb. rewrite firstn_all in Hb.
  unfold backend_run in *. rewrite fold_left_app. cbn [fold_left].
  destruct (fold_left _ ups (NewRegistry, st)) as [g st']. cbn [fst snd] in *.
  rewrite opened_snoc in *. rewrite length_app. cbn [length].
  unfold SetBackendUp. cbn [fst rg_backendConns rg_backendUp]. rewrite H1.
  destruct b.
  - rewrite i64_id by (specialize (Hall (length ups)); rewrite take_app_length in Hall; go_lia).
    split_and!; [done | done | lia].
  - rewrite (proj2 (Z.ltb_lt 0 (opened ups))) by lia. split_and!; [lia | done | lia].
Qed.

(** The backend is reported reachable exactly while one of its control
    connections is open.  A reconnecting backend has two for a moment, and the
    old one's teardown does not clear what the new one raised. *)
Theorem backend_up_exact ups st :
  Z.of_nat (length ups) <= MaxInt64 ->
  (forall k, 0 <= opened (take k ups)) ->
  rg_backendUp (backend_run ups (NewRegistry, st)).1 = true <-> 0 < opened ups.
Proof.
  intros Hl Ho. destruct (backend_run_inv ups st Hl Ho) as (_ & -> & _). apply Z.ltb_lt.
Qed.

Lemma backend_up_exact_witness :
  rg_backendUp (backend_run [true; true; false] (NewRegistry, mkStore emptyDB [])).1 = true
  <-> 0 < opened [true; true; false].
Proof.
  apply (backend_up_exact [true; true; false] (mkStore emptyDB [])).
  - vm_compute. discriminate.
  - intros k. destruct k as [|[|[|[|k]]]]; vm_compute; discriminate.
Defined.
