(* ===== verification/Select.v ===== *)
(** * Path selection ([internal/engine/engine.go])

    The decision the frontend takes twice a second: which policy blocks hold
    ([refresh_blocks], the head of [evaluate]), which path should carry the
    traffic ([selectPath] and its helpers), and why none can ([heldReasonFor]).
    [Engine] is the part of the engine's state the decision reads and writes. *)

From S2P Require Import Prelude GoTime Float64 Model Prober Tracker Store Quota Registry.

Record Engine := mkEngine {
  e_cfg : Config;
  e_trackers : gmap Z Tracker;
  e_probers : gmap Z Prober;
  e_blocks : gmap Z Block;
  e_quotaDec : gmap Z Decision;
  e_active : Z;
  e_pinned : Z;
  e_decisionSeq : Z;
  e_lastSwitch : Time;
  e_beatenSince : Time;
  e_held : bool;
  e_heldReason : string;
  e_reverted : bool;
  e_dataPlane : bool;
  e_cfgVersion : Z }.

Definition with_trackers ts e := mkEngine (e_cfg e) ts (e_probers e) (e_blocks e) (e_quotaDec e)
  (e_active e) (e_pinned e) (e_decisionSeq e) (e_lastSwitch e) (e_beatenSince e) (e_held e)
  (e_heldReason e) (e_reverted e) (e_dataPlane e) (e_cfgVersion e).
Definition with_probers ps e := mkEngine (e_cfg e) (e_trackers e) ps (e_blocks e) (e_quotaDec e)
  (e_active e) (e_pinned e) (e_decisionSeq e) (e_lastSwitch e) (e_beatenSince e) (e_held e)
  (e_heldReason e) (e_reverted e) (e_dataPlane e) (e_cfgVersion e).
Definition with_blocks bs e := mkEngine (e_cfg e) (e_trackers e) (e_probers e) bs (e_quotaDec e)
  (e_active e) (e_pinned e) (e_decisionSeq e) (e_lastSwitch e) (e_beatenSince e) (e_held e)
  (e_heldReason e) (e_reverted e) (e_dataPlane e) (e_cfgVersion e).
Definition with_quotaDec ds e := mkEngine (e_cfg e) (e_trackers e) (e_probers e) (e_blocks e) ds
  (e_active e) (e_pinned e) (e_decisionSeq e) (e_lastSwitch e) (e_beatenSince e) (e_held e)
  (e_heldReason e) (e_reverted e) (e_dataPlane e) (e_cfgVersion e).
Definition with_switch active seq last e := mkEngine (e_cfg e) (e_trackers e) (e_probers e)
  (e_blocks e) (e_quotaDec e) active (e_pinned e) seq last (e_beatenSince e) (e_held e)
  (e_heldReason e) (e_reverted e) (e_dataPlane e) (e_cfgVersion e).
Definition with_active active e :=
  with_switch active (e_decisionSeq e) (e_lastSwitch e) e.
Definition with_pinned pinned e := mkEngine (e_cfg e) (e_trackers e) (e_probers e) (e_blocks e)
  (e_quotaDec e) (e_active e) pinned (e_decisionSeq e) (e_lastSwitch e) (e_beatenSince e)
  (e_held e) (e_heldReason e) (e_reverted e) (e_dataPlane e) (e_cfgVersion e).
Definition with_beatenSince t e := mkEngine (e_cfg e) (e_trackers e) (e_probers e) (e_blocks e)
  (e_quotaDec e) (e_active e) (e_pinned e) (e_decisionSeq e) (e_lastSwitch e) t (e_held e)
  (e_heldReason e) (e_reverted e) (e_dataPlane e) (e_cfgVersion e).
Definition with_held held reason e := mkEngine (e_cfg e) (e_trackers e) (e_probers e) (e_blocks e)
  (e_quotaDec e) (e_active e) (e_pinned e) (e_decisionSeq e) (e_lastSwitch e) (e_beatenSince e)
  held reason (e_reverted e) (e_dataPlane e) (e_cfgVersion e).

(** A missing key of a Go map reads as the zero value. *)
Definition block_of (e : Engine) (id : Z) : Block := default BlockNone (e_blocks e !! id).
Definition quota_blocked (e : Engine) (id : Z) : bool :=
  match e_quotaDec e !! id with Some d => dec_Blocked d | None => false end.

(** ** The policy blocks *)

Definition block_verdict (now : Time) (p : PathConfig) (tr : Tracker) (e : Engine) : Block :=
  if negb (path_Enabled p) then BlockDisabled
  else if Quarantined now tr then BlockQuarantine
  else if quota_blocked e (path_ID p) then BlockQuota
  else if Degraded tr then BlockDegraded
  else BlockNone.

Definition refresh_block (now : Time) (e : Engine) (p : PathConfig) : Engine :=
  match e_trackers e !! path_ID p with
  | None => e
  | Some tr => with_blocks (<[path_ID p := block_verdict now p tr e]> (e_blocks e)) e
  end.
Definition refresh_blocks (now : Time) (e : Engine) : Engine :=
  fold_left (refresh_block now) (cfg_Paths (e_cfg e)) e.

(** ** Order and preference *)

(** [sort.Slice] by priority: the insertion sort it runs on up to twelve
    elements.  What is proved below holds of any sorted arrangement. *)
Fixpoint insert_priority (p : PathConfig) (l : list PathConfig) : list PathConfig :=
  match l with
  | [] => [p]
  | q :: l' => if path_Priority p <? path_Priority q then p :: l else q :: insert_priority p l'
  end.
Definition sort_by_priority (ps : list PathConfig) : list PathConfig :=
  fold_left (fun l p => insert_priority p l) ps [].

Fixpoint preferred_from (best bestPrio : Z) (ps : list PathConfig) : Z :=
  match ps with
  | [] => best
  | p :: ps =>
      if negb (path_Enabled p) then preferred_from best bestPrio ps
      else if (best =? 0) || (path_Priority p <? bestPrio)
      then preferred_from (path_ID p) (path_Priority p) ps
      else preferred_from best bestPrio ps
  end.
Definition preferredPathID (cfg : Config) : Z := preferred_from 0 0 (cfg_Paths cfg).

Definition path_usable (e : Engine) (id : Z) : bool :=
  match e_trackers e !! id with
  | Some tr => Usable tr && bool_decide (block_of e id = BlockNone)
  | None => false
  end.
Definition eligible_paths (e : Engine) (cfg : Config) : list PathConfig :=
  List.filter (fun p => path_usable e (path_ID p)) (sort_by_priority (cfg_Paths cfg)).

(** ** Scores *)

Definition score (e : Engine) (id : Z) (cfg : Config) : float64 :=
  match e_trackers e !! id with
  | None => finf
  | Some tr => Score (fail_Quality (cfg_Failover cfg)) tr
  end.

Fixpoint best_score (e : Engine) (cfg : Config) (best : PathConfig) (bestScore : float64)
    (ps : list PathConfig) : PathConfig :=
  match ps with
  | [] => best
  | p :: ps =>
      let s := score e (path_ID p) cfg in
      if flt s bestScore then best_score e cfg p s ps else best_score e cfg best bestScore ps
  end.

Definition qualityTarget (e : Engine) (top : PathConfig) (eligible : list PathConfig)
    (cfg : Config) : PathConfig :=
  if path_ID top =? preferredPathID cfg then top
  else best_score e cfg top (score e (path_ID top) cfg) eligible.

Definition beatsByMargin (e : Engine) (candidate incumbent : Z) (cfg : Config) : bool :=
  match e_trackers e !! candidate, e_trackers e !! incumbent with
  | Some ct, Some it =>
      let q := fail_Quality (cfg_Failover cfg) in
      let margin := fdiv (qual_MarginPct q) (f64_of_Z 100) in
      let margin := if flt margin fzero then fzero else margin in
      flt (Score q ct) (fmul (Score q it) (fsub (f64_of_Z 1) margin))
  | _, _ => false
  end.

(** ** The choice *)

(** [%v] of a list of strings. *)
Definition show_list (l : list string) : string := ("[" ++ String.concat " " l ++ "]")%string.

(** The names of the paths that are healthy but over quota, and of those under
    any other block. *)
Definition quota_held (e : Engine) (cfg : Config) : list string :=
  omap (fun p => match e_trackers e !! path_ID p with
                 | Some tr => if bool_decide (block_of e (path_ID p) = BlockQuota) && Usable tr
                              then Some (path_Name p) else None
                 | None => None end) (cfg_Paths cfg).
Definition other_held (e : Engine) (cfg : Config) : list string :=
  omap (fun p => match e_trackers e !! path_ID p with
                 | Some _ => if bool_decide (block_of e (path_ID p) = BlockQuota)
                                || bool_decide (block_of e (path_ID p) = BlockNone)
                             then None else Some (path_Name p)
                 | None => None end) (cfg_Paths cfg).

Definition heldReasonFor (e : Engine) (cfg : Config) : string :=
  if negb (bool_decide (quota_held e cfg = [])) then
    ("no usable path: " ++ show_list (quota_held e cfg)
     ++ " healthy but over quota, waiting for approval")%string
  else if negb (bool_decide (other_held e cfg = [])) then
    ("no usable path: all paths unreachable or blocked (" ++ show_list (other_held e cfg)
     ++ ")")%string
  else "no usable path: all tunnels unreachable"%string.

(** A choice: the path, whether nothing usable is left, and why. *)
Definition choice : Type := Z * bool * string.

Definition pinned_choice (e : Engine) (p : PathConfig) : choice :=
  if path_usable e (e_pinned e) then (e_pinned e, false, "")%string
  else
    let why := match e_trackers e !! e_pinned e with
               | Some _ => if bool_decide (block_of e (e_pinned e) = BlockNone)
                           then "unreachable"%string else Block_string (block_of e (e_pinned e))
               | None => "unreachable"%string
               end in
    (e_pinned e, true,
     "pinned to " ++ path_Name p ++ ", which is " ++ why ++ "; unpin to let it fail over")%string.

(** The closure [failback]: the hold-down of a return to a preferred path. *)
Definition failback (e : Engine) (target : Z) (hold : Duration) (now : Time) : choice * Engine :=
  let e' := with_beatenSince zeroTime e in
  match e_trackers e !! target with
  | Some tr => if hold <=? CleanFor now tr then ((target, false, ""%string), e')
               else ((e_active e, false, ""%string), e')
  | None => ((e_active e, false, ""%string), e')
  end.

(** Between two working fallbacks: the margin, how long the active path has
    been beaten, and the dwell since the last switch. *)
Definition quality_choice (e : Engine) (cfg : Config) (target : Z) (hold : Duration) (now : Time)
    : choice * Engine :=
  let stay e := ((e_active e, false, ""%string), e) in
  if negb (beatsByMargin e target (e_active e) cfg) then stay (with_beatenSince zeroTime e)
  else
    let e := if IsZero (e_beatenSince e) then with_beatenSince now e else e in
    if Sub now (e_beatenSince e) <? hold then stay e
    else
      let dwell := dmul (qual_MinDwellSec (fail_Quality (cfg_Failover cfg))) Second in
      if (0 <? dwell) && negb (IsZero (e_lastSwitch e)) && (Sub now (e_lastSwitch e) <? dwell)
      then stay e
      else ((target, false, ""%string), e).

(** The active path works and something else is preferred: when to move. *)
Definition challenge (e : Engine) (cfg : Config) (target activeCfg : PathConfig) (now : Time)
    : choice * Engine :=
  let hold := dmul (fail_HoldDownSec (cfg_Failover cfg)) Second in
  if negb (String.eqb (fail_Selection (cfg_Failover cfg)) SelectionQuality) then
    if path_Priority target <? path_Priority activeCfg
    then failback e (path_ID target) hold now
    else ((e_active e, false, ""%string), e)
  else if path_ID target =? preferredPathID cfg then failback e (path_ID target) hold now
  else quality_choice e cfg (path_ID target) hold now.

Definition auto_choice (e : Engine) (cfg : Config) (now : Time) : choice * Engine :=
  match eligible_paths e cfg with
  | [] => ((0, true, heldReasonFor e cfg), e)
  | top :: rest =>
      let quality := String.eqb (fail_Selection (cfg_Failover cfg)) SelectionQuality in
      let target := if quality then qualityTarget e top (top :: rest) cfg else top in
      if e_active e =? 0 then ((path_ID target, false, ""%string), e)
      else match PathByID cfg (e_active e) with
      | None => ((path_ID target, false, ""%string), e)
      | Some activeCfg =>
          if negb (existsb (fun p => path_ID p =? e_active e) (top :: rest)) then
            ((path_ID target, false, ""%string), with_beatenSince zeroTime e)
          else if path_ID target =? e_active e then
            ((e_active e, false, ""%string), with_beatenSince zeroTime e)
          else challenge e cfg target activeCfg now
      end
  end.

Definition selectPath (e : Engine) (cfg : Config) (now : Time) : choice * Engine :=
  match (if negb (e_pinned e =? 0) then PathByID cfg (e_pinned e) else None) with
  | Some p => (pinned_choice e p, e)
  | None => auto_choice e cfg now
  end.

(** ** Sorting and eligibility *)

Definition prio_le (p q : PathConfig) : Prop := path_Priority p <= path_Priority q.

Lemma insert_priority_perm p l : insert_priority p l ≡ₚ p :: l.
Proof.
  induction l as [|q l IH]; simpl; [done |]. split_if; [done |].
  rewrite IH. apply perm_swap.
Qed.

Lemma insert_priority_sorted p l :
  StronglySorted prio_le l -> StronglySorted prio_le (insert_priority p l).
Proof.
  induction 1 as [|q l Hl IH Hq]; simpl; [by repeat constructor |].
  split_if; bool_to_prop.
  - constructor; [by constructor |]. constructor; [unfold prio_le; lia |].
    eapply Forall_impl; [exact Hq |]. unfold prio_le. lia.
  - constructor; [done |]. rewrite insert_priority_perm. constructor; [unfold prio_le; lia | done].
Qed.

Lemma sort_by_priority_ok ps :
  sort_by_priority ps ≡ₚ ps /\ StronglySorted prio_le (sort_by_priority ps).
Proof.
  induction ps as [|p ps [H1 H2]] using rev_ind; [by split; [| constructor] |].
  unfold sort_by_priority in *. rewrite fold_left_app. simpl. split.
  - rewrite insert_priority_perm, H1. by rewrite Permutation_cons_append.
  - by apply insert_priority_sorted.
Qed.

Lemma StronglySorted_filter {A} (R : A -> A -> Prop) (f : A -> bool) l :
  StronglySorted R l -> StronglySorted R (List.filter f l).
Proof.
  induction 1 as [|x l Hl IH Hx]; simpl; [constructor |].
  split_if; [| done]. constructor; [done |].
  apply Forall_forall. intros y Hy. apply list_elem_of_In, filter_In in Hy as [Hy _].
  rewrite Forall_forall in Hx. apply Hx. by apply list_elem_of_In.
Qed.

Lemma eligible_elem e cfg p :
  p ∈ eligible_paths e cfg <-> p ∈ cfg_Paths cfg /\ path_usable e (path_ID p) = true.
Proof.
  unfold eligible_paths. rewrite list_elem_of_In, filter_In, <- list_elem_of_In.
  by rewrite (proj1 (sort_by_priority_ok (cfg_Paths cfg))).
Qed.

Lemma eligible_head e cfg top rest :
  eligible_paths e cfg = top :: rest ->
  top ∈ cfg_Paths cfg /\ path_usable e (path_ID top) = true
  /\ forall p, p ∈ cfg_Paths cfg -> path_usable e (path_ID p) = true ->
       path_Priority top <= path_Priority p.
Proof.
  intros H. pose proof (proj1 (eligible_elem e cfg top)) as Ht. rewrite H in Ht.
  destruct Ht as [H1 H2]; [by left |]. split_and!; [done | done |].
  intros p Hp Hu. pose proof (proj2 (eligible_elem e cfg p) (conj Hp Hu)) as He.
  pose proof (StronglySorted_filter prio_le (fun p => path_usable e (path_ID p)) _
    (proj2 (sort_by_priority_ok (cfg_Paths cfg)))) as Hs.
  fold (eligible_paths e cfg) in Hs. rewrite H in Hs, He. inversion_clear Hs.
  apply elem_of_cons in He as [-> | He]; [lia |].
  rewrite Forall_forall in H3. by apply H3.
Qed.

Lemma eligible_nil e cfg :
  eligible_paths e cfg = [] <->
  forall p, p ∈ cfg_Paths cfg -> path_usable e (path_ID p) = false.
Proof.
  split.
  - intros H p Hp. destruct (path_usable e (path_ID p)) eqn:E; [| done].
    pose proof (proj2 (eligible_elem e cfg p) (conj Hp E)) as Hin. rewrite H in Hin.
    by apply elem_of_nil in Hin.
  - intros H. destruct (eligible_paths e cfg) as [|p l] eqn:E; [done |].
    destruct (eligible_head e cfg p l E) as (H1 & H2 & _). by rewrite H in H2.
Qed.

Lemma best_score_elem e cfg ps : forall best s,
  best_score e cfg best s ps = best \/ best_score e cfg best s ps ∈ ps.
Proof.
  induction ps as [|p ps IH]; intros best s; simpl; [by left |]. split_if.
  - destruct (IH p (score e (path_ID p) cfg)) as [-> | H]; right; [by left | by right].
  - destruct (IH best s) as [-> | H]; [by left | right; by right].
Qed.

(** What the decision aims at is an eligible path. *)
Definition target_of (e : Engine) (cfg : Config) (top : PathConfig) (rest : list PathConfig)
    : PathConfig :=
  if String.eqb (fail_Selection (cfg_Failover cfg)) SelectionQuality
  then qualityTarget e top (top :: rest) cfg else top.

Lemma target_elem e cfg top rest : target_of e cfg top rest ∈ top :: rest.
Proof.
  unfold target_of, qualityTarget. repeat split_if; try by left.
  destruct (best_score_elem e cfg (top :: rest) top (score e (path_ID top) cfg)) as [-> | H];
    [by left | done].
Qed.

Lemma existsb_active e (l : list PathConfig) :
  existsb (fun p => path_ID p =? e_active e) l = true <->
  exists p, p ∈ l /\ path_ID p = e_active e.
Proof.
  rewrite existsb_exists. split; intros (p & H1 & H2); exists p.
  - split; [by apply list_elem_of_In | by apply Z.eqb_eq].
  - split; [by apply list_elem_of_In | by apply Z.eqb_eq].
Qed.

(** The active path is eligible when it is configured and usable. *)
Lemma active_eligible e cfg top rest p :
  eligible_paths e cfg = top :: rest ->
  PathByID cfg (e_active e) = Some p ->
  existsb (fun p => path_ID p =? e_active e) (top :: rest) = path_usable e (e_active e).
Proof.
  intros He Hp. apply path_by_id_in in Hp as [Hin Hid].
  destruct (path_usable e (e_active e)) eqn:Eu.
  - apply existsb_active. exists p. split; [| done]. rewrite <- He. apply eligible_elem.
    by rewrite Hid.
  - apply not_true_iff_false. rewrite existsb_active, <- He. intros (q & Hq & Hqid).
    apply eligible_elem in Hq as [_ Hq]. by rewrite Hqid, Eu in Hq.
Qed.

(** ** The decision, case by case *)

(** The active path, when it is configured and usable. *)
Definition working (e : Engine) (cfg : Config) : option PathConfig :=
  if e_active e =? 0 then None
  else match PathByID cfg (e_active e) with
       | Some a => if path_usable e (e_active e) then Some a else None
       | None => None
       end.

(** No pin is in force. *)
Definition unpinned (e : Engine) (cfg : Config) : Prop :=
  e_pinned e = 0 \/ PathByID cfg (e_pinned e) = None.

Lemma selectPath_auto e cfg now : unpinned e cfg -> selectPath e cfg now = auto_choice e cfg now.
Proof.
  unfold selectPath. intros [-> | H]; [done |]. rewrite H. by destruct (negb _).
Qed.

Lemma selectPath_cases e cfg now :
  (unpinned e cfg /\ selectPath e cfg now = auto_choice e cfg now)
  \/ exists p, e_pinned e <> 0 /\ PathByID cfg (e_pinned e) = Some p
       /\ selectPath e cfg now = (pinned_choice e p, e).
Proof.
  destruct (Z.eqb_spec (e_pinned e) 0) as [H | H].
  { left. split; [by left |]. apply selectPath_auto. by left. }
  destruct (PathByID cfg (e_pinned e)) as [p|] eqn:E.
  - right. exists p. split_and!; [done | done |]. unfold selectPath.
    apply Z.eqb_neq in H. by rewrite H, E.
  - left. split; [by right |]. apply selectPath_auto. by right.
Qed.

Lemma auto_choice_eq e cfg now top rest :
  eligible_paths e cfg = top :: rest ->
  let target := target_of e cfg top rest in
  exists t,
  auto_choice e cfg now =
    match working e cfg with
    | None => ((path_ID target, false, ""%string), with_beatenSince t e)
    | Some a => if path_ID target =? e_active e
                then ((e_active e, false, ""%string), with_beatenSince zeroTime e)
                else challenge e cfg target a now
    end.
Proof.
  intros He target. unfold auto_choice, working. rewrite He. fold (target_of e cfg top rest).
  fold target. destruct (e_active e =? 0) eqn:E0.
  { exists (e_beatenSince e). by destruct e. }
  destruct (PathByID cfg (e_active e)) as [a|] eqn:Ea.
  - rewrite (active_eligible e cfg top rest a He Ea). exists zeroTime.
    by destruct (path_usable e (e_active e)).
  - exists (e_beatenSince e). by destruct e.
Qed.

(** When a working path is left for another one. *)
Definition may_leave (e : Engine) (cfg : Config) (target activeCfg : PathConfig) (now : Time) : Prop :=
  let f := cfg_Failover cfg in
  let hold := dmul (fail_HoldDownSec f) Second in
  let dwell := dmul (qual_MinDwellSec (fail_Quality f)) Second in
  let clean := exists tr, e_trackers e !! path_ID target = Some tr /\ hold <= CleanFor now tr in
  let since := if IsZero (e_beatenSince e) then now else e_beatenSince e in
  if String.eqb (fail_Selection f) SelectionQuality then
    (path_ID target = preferredPathID cfg /\ clean)
    \/ (path_ID target <> preferredPathID cfg
        /\ beatsByMargin e (path_ID target) (e_active e) cfg = true
        /\ hold <= Sub now since
        /\ (dwell <= 0 \/ e_lastSwitch e = zeroTime \/ dwell <= Sub now (e_lastSwitch e)))
  else path_Priority target < path_Priority activeCfg /\ clean.

Lemma failback_cases e target hold now :
  let moves := exists tr, e_trackers e !! target = Some tr /\ hold <= CleanFor now tr in
  (moves /\ failback e target hold now = ((target, false, ""%string), with_beatenSince zeroTime e))
  \/ (~ moves /\ failback e target hold now
                 = ((e_active e, false, ""%string), with_beatenSince zeroTime e)).
Proof.
  unfold failback. destruct (e_trackers e !! target) as [tr|]; [| right; naive_solver].
  destruct (Z.leb_spec hold (CleanFor now tr)) as [H | H].
  - left. split; [by exists tr | done].
  - right. split; [| done]. intros (tr' & [= <-] & H'). lia.
Qed.

(** The decision to leave is exactly the policy. *)
Lemma challenge_cases e cfg target a now :
  (may_leave e cfg target a now
   /\ exists t, challenge e cfg target a now
                = ((path_ID target, false, ""%string), with_beatenSince t e))
  \/ (~ may_leave e cfg target a now
      /\ exists t, challenge e cfg target a now
                   = ((e_active e, false, ""%string), with_beatenSince t e)).
Proof.
  unfold challenge, may_leave. cbv zeta.
  destruct (String.eqb _ _); cbn [negb].
  - destruct (Z.eqb_spec (path_ID target) (preferredPathID cfg)) as [Hp | Hp].
    + destruct (failback_cases e (path_ID target)
        (dmul (fail_HoldDownSec (cfg_Failover cfg)) Second) now) as [[H ->] | [H ->]];
        [left | right]; (split; [naive_solver | by eexists]).
    + unfold quality_choice. cbv zeta.
      destruct (beatsByMargin _ _ _ _); cbn [negb]; [| right; split; [naive_solver | by eexists]].
      set (since := if IsZero (e_beatenSince e) then now else e_beatenSince e).
      replace (if IsZero (e_beatenSince e) then with_beatenSince now e else e)
        with (with_beatenSince since e) by (subst since; destruct e, (IsZero _); done).
      cbn [e_beatenSince with_beatenSince e_active e_lastSwitch].
      destruct (Z.ltb_spec (Sub now since) (dmul (fail_HoldDownSec (cfg_Failover cfg)) Second)).
      { right. split; [| by eexists]. intros [[??]|(_ & _ & ? & _)]; [done | lia]. }
      set (dwell := dmul (qual_MinDwellSec _) Second).
      destruct (Z.ltb_spec 0 dwell); cbn [andb];
        [| left; split; [right; split_and!; [done | done | done | by left] | by eexists]].
      unfold IsZero. destruct (Z.eqb_spec (e_lastSwitch e) 0) as [Hz | Hz]; cbn [negb andb];
        [left; split; [right; split_and!; [done | done | done | by right; left] | by eexists] |].
      destruct (Z.ltb_spec (Sub now (e_lastSwitch e)) dwell).
      * right. split; [| by eexists].
        intros [[??]|(_ & _ & _ & [? | [? | ?]])]; [done | lia | done | lia].
      * left. split; [| by eexists]. right. split_and!; [done | done | done | by right; right].
  - destruct (Z.ltb_spec (path_Priority target) (path_Priority a)).
    + destruct (failback_cases e (path_ID target)
        (dmul (fail_HoldDownSec (cfg_Failover cfg)) Second) now) as [[H' ->] | [H' ->]];
        [left | right]; (split; [naive_solver | by eexists]).
    + right. split; [naive_solver lia |]. exists (e_beatenSince e). by destruct e.
Qed.

(** ** What the decision promises *)

Lemma auto_choice_frame e cfg now : exists t, (auto_choice e cfg now).2 = with_beatenSince t e.
Proof.
  destruct (eligible_paths e cfg) as [|top rest] eqn:E.
  - exists (e_beatenSince e). unfold auto_choice. rewrite E. by destruct e.
  - destruct (auto_choice_eq e cfg now top rest E) as [t ->].
    destruct (working e cfg) as [a|]; [| by eexists]. split_if; [by eexists |].
    destruct (challenge_cases e cfg (target_of e cfg top rest) a now)
      as [[_ [t' ->]] | [_ [t' ->]]]; by eexists.
Qed.

Lemma selectPath_frame e cfg now : exists t, (selectPath e cfg now).2 = with_beatenSince t e.
Proof.
  destruct (selectPath_cases e cfg now) as [[_ ->] | (p & _ & _ & ->)]; [apply auto_choice_frame |].
  exists (e_beatenSince e). by destruct e.
Qed.

(** The paths the decision may send traffic to. *)
Definition may_carry (e : Engine) (cfg : Config) (id : Z) : Prop :=
  path_usable e id = true /\ exists p, p ∈ cfg_Paths cfg /\ path_ID p = id.

Lemma target_may_carry e cfg top rest :
  eligible_paths e cfg = top :: rest -> may_carry e cfg (path_ID (target_of e cfg top rest)).
Proof.
  intros He. pose proof (target_elem e cfg top rest) as H. rewrite <- He in H.
  apply eligible_elem in H as [H1 H2]. split; [done | by eexists].
Qed.

Lemma working_may_carry e cfg a : working e cfg = Some a -> may_carry e cfg (e_active e).
Proof.
  unfold working. split_if; [done |]. destruct (PathByID cfg (e_active e)) as [p|] eqn:E; [| done].
  split_if; [| done]. intros _. apply path_by_id_in in E as [H1 H2]. split; [done | by eexists].
Qed.

Lemma auto_choice_safe e cfg now :
  let '(id, held, _) := (auto_choice e cfg now).1 in
  if held : bool then id = 0 /\ forall p, p ∈ cfg_Paths cfg -> path_usable e (path_ID p) = false
  else may_carry e cfg id.
Proof.
  destruct (eligible_paths e cfg) as [|top rest] eqn:E.
  - unfold auto_choice. rewrite E. split; [done |]. by apply eligible_nil.
  - pose proof (target_may_carry e cfg top rest E) as Ht.
    destruct (auto_choice_eq e cfg now top rest E) as [t ->].
    destruct (working e cfg) as [a|] eqn:Ea; [| done].
    pose proof (working_may_carry e cfg a Ea). split_if; [done |].
    by destruct (challenge_cases e cfg (target_of e cfg top rest) a now)
      as [[_ [t' ->]] | [_ [t' ->]]].
Qed.

Lemma path_usable_iff e id :
  path_usable e id = true <->
  (exists tr, e_trackers e !! id = Some tr /\ (tk_health tr = HealthUp \/ tk_health tr = HealthSuspect))
  /\ block_of e id = BlockNone.
Proof.
  unfold path_usable, Usable, usableHealth. destruct (e_trackers e !! id) as [tr|]; [| naive_solver].
  rewrite andb_true_iff, orb_true_iff, !bool_decide_eq_true. naive_solver.
Qed.

(** The decision never sends traffic down an unusable path.  Whenever it
    reports no trouble, the path it names is configured, has a prober whose
    verdict is up or suspect, and is under no policy block: not disabled, not
    quarantined, not over quota, not degraded.  It reports trouble in two
    cases only: the operator's pin names a path that is unusable, and then the
    pin is honoured; or no configured path is usable at all, and then it names
    no path, which keeps the last route.  It changes nothing but its own
    beaten-since clock. *)
Theorem selectPath_safe e cfg now :
  let '((id, held, _), e') := selectPath e cfg now in
  let usable id := (exists tr, e_trackers e !! id = Some tr
                      /\ (tk_health tr = HealthUp \/ tk_health tr = HealthSuspect))
                   /\ block_of e id = BlockNone in
  (exists t, e' = with_beatenSince t e)
  /\ if held : bool then
       (id = e_pinned e /\ id <> 0 /\ PathByID cfg id <> None /\ ~ usable id)
       \/ (unpinned e cfg /\ id = 0 /\ forall p, p ∈ cfg_Paths cfg -> ~ usable (path_ID p))
     else usable id /\ exists p, p ∈ cfg_Paths cfg /\ path_ID p = id.
Proof.
  pose proof (selectPath_frame e cfg now) as Hf.
  destruct (selectPath_cases e cfg now) as [[Hu Hs] | (p & Hne & Hp & Hs)]; rewrite Hs in *.
  - pose proof (auto_choice_safe e cfg now) as H.
    destruct (auto_choice e cfg now) as [[[id held] why] e']. cbn [fst snd] in *.
    split; [done |]. destruct held; [right | by rewrite <- path_usable_iff].
    destruct H as [-> H]. split_and!; [done | done |]. intros p Hp.
    by rewrite <- path_usable_iff, H.
  - unfold pinned_choice. destruct (path_usable e (e_pinned e)) eqn:Eu; (split; [done |]).
    + rewrite <- path_usable_iff. split; [done |]. apply path_by_id_in in Hp as [H1 H2]. by exists p.
    + left. rewrite <- path_usable_iff, Eu. split_and!; [done | done | by rewrite Hp | done].
Qed.

(** [C11] Priority selection is exactly one policy.  Without a pin, the active
    path keeps the traffic while it works, unless a usable path of strictly
    better priority has been clean for the whole hold-down; in every other case
    the best usable path gets it at once: there is no hold-down on leaving a
    path that has failed. *)
Theorem selectPath_priority e cfg now :
  unpinned e cfg -> fail_Selection (cfg_Failover cfg) <> SelectionQuality ->
  (selectPath e cfg now).1 =
    match eligible_paths e cfg with
    | [] => (0, true, heldReasonFor e cfg)
    | best :: _ =>
        (match working e cfg with
         | Some a =>
             match e_trackers e !! path_ID best with
             | Some tr =>
                 if (path_Priority best <? path_Priority a)
                    && (dmul (fail_HoldDownSec (cfg_Failover cfg)) Second <=? CleanFor now tr)
                 then path_ID best else e_active e
             | None => e_active e
             end
         | None => path_ID best
         end, false, ""%string)
    end.
Proof.
  intros Hu Hq. rewrite (selectPath_auto e cfg now Hu). apply String.eqb_neq in Hq.
  destruct (eligible_paths e cfg) as [|best rest] eqn:E; [unfold auto_choice; by rewrite E |].
  destruct (auto_choice_eq e cfg now best rest E) as [t ->].
  unfold target_of. rewrite Hq. destruct (working e cfg) as [a|]; [| done].
  destruct (Z.eqb_spec (path_ID best) (e_active e)) as [Heq | Hne].
  { rewrite Heq. repeat case_match; by rewrite <- ?Heq. }
  destruct (challenge_cases e cfg best a now) as [[Hm [t' ->]] | [Hm [t' ->]]];
    unfold may_leave in Hm; rewrite Hq in Hm; cbn [fst].
  - destruct Hm as (Hlt & tr & -> & Hc).
    by rewrite (proj2 (Z.ltb_lt _ _) Hlt), (proj2 (Z.leb_le _ _) Hc).
  - destruct (e_trackers e !! path_ID best) as [tr|]; [| done].
    destruct (_ && _) eqn:Eb; [| done]. bool_to_prop. exfalso. apply Hm. split; [done |].
    by exists tr.
Qed.

(** A working path is left for three reasons only, in either selection
    mode.  The traffic moves off a usable active path exactly when the decision
    aims elsewhere and either the aim is preferred (strictly better priority,
    or under quality selection the most preferred enabled path) and has been
    clean for the hold-down, or, under quality selection between two fallbacks,
    the aim beats the active path by the margin, the active path has been
    beaten for the hold-down, and the dwell since the last switch is over. *)
Theorem working_path_left e cfg now top rest a :
  unpinned e cfg -> eligible_paths e cfg = top :: rest -> working e cfg = Some a ->
  let target := target_of e cfg top rest in
  let chosen := (selectPath e cfg now).1.1.1 in
  (chosen <> e_active e <-> path_ID target <> e_active e /\ may_leave e cfg target a now)
  /\ (chosen <> e_active e -> chosen = path_ID target).
Proof.
  intros Hu He Ha target chosen. subst chosen. rewrite (selectPath_auto e cfg now Hu).
  destruct (auto_choice_eq e cfg now top rest He) as [t ->]. rewrite Ha.
  fold target. destruct (Z.eqb_spec (path_ID target) (e_active e)) as [Heq | Hne].
  { cbn [fst]. naive_solver. }
  destruct (challenge_cases e cfg target a now) as [[Hm [t' ->]] | [Hm [t' ->]]]; cbn [fst];
    naive_solver.
Qed.

(** ** Stability *)

Lemma usable_switch e id seq t now' x :
  path_usable (with_switch id seq now' (with_beatenSince t e)) x = path_usable e x.
Proof. done. Qed.

Lemma eligible_switch e cfg id seq t now' :
  eligible_paths (with_switch id seq now' (with_beatenSince t e)) cfg = eligible_paths e cfg.
Proof. done. Qed.

Lemma best_score_switch e cfg id seq t now' ps : forall best s,
  best_score (with_switch id seq now' (with_beatenSince t e)) cfg best s ps
  = best_score e cfg best s ps.
Proof.
  induction ps as [|p ps IH]; intros best s; [done |]. simpl. rewrite !IH. done.
Qed.

Lemma target_switch e cfg id seq t now' top rest :
  target_of (with_switch id seq now' (with_beatenSince t e)) cfg top rest
  = target_of e cfg top rest.
Proof.
  unfold target_of, qualityTarget. rewrite best_score_switch. done.
Qed.

Lemma path_by_id_elem ps p : p ∈ ps -> exists q, path_by_id ps (path_ID p) = Some q.
Proof.
  induction ps as [|q ps IH]; intros H; [by apply elem_of_nil in H |]. simpl.
  destruct (Z.eqb_spec (path_ID q) (path_ID p)) as [E | E]; [by eexists |].
  apply elem_of_cons in H as [-> | H]; [done | by apply IH].
Qed.

(** Once the target carries the traffic, nothing moves it. *)
Lemma target_stays e cfg now top rest :
  eligible_paths e cfg = top :: rest ->
  e_active e = path_ID (target_of e cfg top rest) ->
  (auto_choice e cfg now).1 = (e_active e, false, ""%string).
Proof.
  intros He Ha. destruct (auto_choice_eq e cfg now top rest He) as [t ->]. rewrite <- Ha.
  by destruct (working e cfg); rewrite ?Z.eqb_refl.
Qed.

(** No decision is undone by the next one.  Once a switch to the path a
    decision names is recorded, deciding again on the same evidence at the same
    instant names the same path and reports no trouble, whichever the selection
    mode: two paths never trade the traffic on unchanged measurements. *)
Theorem selectPath_stable e cfg now seq id reason e' :
  selectPath e cfg now = ((id, false, reason), e') -> id <> e_active e ->
  (selectPath (with_switch id seq now e') cfg now).1 = (id, false, ""%string).
Proof.
  intros Hs Hne. destruct (selectPath_cases e cfg now) as [[Hu Ha] | (p & Hpn & Hp & Ha)];
    rewrite Hs in Ha.
  - destruct (eligible_paths e cfg) as [|top rest] eqn:He.
    { unfold auto_choice in Ha. by rewrite He in Ha. }
    destruct (auto_choice_eq e cfg now top rest He) as [t Heq]. rewrite <- Ha in Heq.
    assert (H : id = path_ID (target_of e cfg top rest) /\ exists t, e' = with_beatenSince t e).
    { destruct (working e cfg) as [a|]; [| by injection Heq as -> _ ->; eauto].
      destruct (path_ID _ =? e_active e); [by injection Heq as -> |].
      destruct (challenge_cases e cfg (target_of e cfg top rest) a now)
        as [[_ [t' Hc]] | [_ [t' Hc]]]; rewrite Hc in Heq; injection Heq as -> _ ->; eauto.
      done. }
    destruct H as (Hid & t' & ->).
    rewrite selectPath_auto by exact Hu. subst id.
    apply (target_stays (with_switch (path_ID (target_of e cfg top rest)) seq now
      (with_beatenSince t' e)) cfg now top rest); [done |]. by rewrite target_switch.
  - injection Ha as Ha ->. unfold pinned_choice in Ha.
    destruct (path_usable e (e_pinned e)) eqn:Eu; [| done]. injection Ha as -> _.
    unfold selectPath. cbn [e_pinned with_switch]. apply Z.eqb_neq in Hpn.
    rewrite Hpn. cbn [negb]. rewrite Hp. unfold pinned_choice. cbn [e_pinned with_switch].
    change (path_usable (with_switch (e_pinned e) seq now e) (e_pinned e))
      with (path_usable e (e_pinned e)). by rewrite Eu.
Qed.

(** ** A frontend to run the decision on *)

(** The default configuration, its three tunnels up since the given times. *)
Definition up_since (p : PathConfig) (since : Time) : Tracker :=
  set_streak HealthUp 0 20 since since
    (NewTracker p (cfg_Probe Defaults) (cfg_Failover Defaults)).
Definition sample_engine (active : Z) (since1 since2 : Time) : Engine :=
  let tracker p := up_since p (if path_ID p =? 1 then since1 else since2) in
  mkEngine Defaults (list_to_map ((fun p => (path_ID p, tracker p)) <$> cfg_Paths Defaults))
    ∅ ∅ ∅ active 0 77 zeroTime zeroTime false "" false false 1.

(** The preferred tunnel came back two minutes ago, or a little over one. *)
Example sample_failback :
  (selectPath (sample_engine 2 (UnixTime 1000) (UnixTime 10)) Defaults (UnixTime 1130)).1
  = (1, false, ""%string).
Proof. vm_compute. reflexivity. Qed.
Example sample_hold :
  (selectPath (sample_engine 2 (UnixTime 1055) (UnixTime 10)) Defaults (UnixTime 1130)).1
  = (2, false, ""%string).
Proof. vm_compute. reflexivity. Qed.

Lemma selectPath_priority_witness :
  (selectPath (sample_engine 2 (UnixTime 1000) (UnixTime 10)) Defaults (UnixTime 1130)).1
  = (1, false, ""%string).
Proof.
  refine (eq_trans (selectPath_priority (sample_engine 2 (UnixTime 1000) (UnixTime 10)) Defaults
    (UnixTime 1130) (or_introl eq_refl) _) _).
  - vm_compute. discriminate.
  - vm_compute. reflexivity.
Defined.

Definition sample_paths : list PathConfig := cfg_Paths Defaults.
Definition sample_active : PathConfig := nth 1 sample_paths sample_path.
Definition sample_top : PathConfig := nth 0 sample_paths sample_path.

Lemma working_path_left_witness :
  let e := sample_engine 2 (UnixTime 1055) (UnixTime 10) in
  (selectPath e Defaults (UnixTime 1130)).1.1.1 <> e_active e <->
  path_ID (target_of e Defaults sample_top (tl sample_paths)) <> e_active e
  /\ may_leave e Defaults (target_of e Defaults sample_top (tl sample_paths)) sample_active
       (UnixTime 1130).
Proof.
  apply (working_path_left (sample_engine 2 (UnixTime 1055) (UnixTime 10)) Defaults
    (UnixTime 1130) sample_top (tl sample_paths) sample_active).
  - left. reflexivity.
  - vm_compute. reflexivity.
  - vm_compute. reflexivity.
Defined.

Lemma selectPath_stable_witness :
  let e := sample_engine 2 (UnixTime 1000) (UnixTime 10) in
  (selectPath (with_switch 1 78 (UnixTime 1130) (with_beatenSince zeroTime e)) Defaults
    (UnixTime 1130)).1 = (1, false, ""%string).
Proof.
  apply (selectPath_stable (sample_engine 2 (UnixTime 1000) (UnixTime 10)) Defaults
    (UnixTime 1130) 78 1 "" (with_beatenSince zeroTime (sample_engine 2 (UnixTime 1000) (UnixTime 10)))).
  - vm_compute. reflexivity.
  - vm_compute. discriminate.
Defined.
