(* ===== verification/Engine.v ===== *)
(** * The engine ([internal/engine/engine.go])

    The frontend's control loop around the decision of [Select]: [evaluate] and
    [commitSwitch], the probe results ([onResult]), the quota verdicts
    ([refreshQuota]), the samples kept for the graphs, the operator's actions
    ([Pin], [Approve], [ClearQuarantine], [Revert], [Reconfigure]), and the
    repair of a route lost with its tunnel ([reconcileRouting]).

    [evaluate] runs beside the operator's actions, so it is split at its locks:
    [evaluate_decide] holds [e.mu], [evaluate_apply] holds [e.applyMu], and any
    action can fall between them.  The kernel is the one entry the engine's
    main-table command writes, the interface that carries published traffic;
    each command carries the answer the kernel will give. *)

From S2P Require Import Prelude GoTime Float64 Model Prober Tracker Store Quota Registry Select.

Record Host := mkHost { h_e : Engine; h_st : Store; h_main : option string }.

Definition on_engine (f : Engine -> Engine) (h : Host) : Host :=
  mkHost (f (h_e h)) (h_st h) (h_main h).
Definition add_event (clock : Time) (kind : string) (path : Z) (fmt : string) (args : list arg)
    (h : Host) : Host :=
  mkHost (h_e h) (log_event clock kind path (mkMessage fmt args) (h_st h)) (h_main h).

(** What the kernel answers a command: accepted, or the error's text. *)
Definition answer : Type := option string.

(** The runner of the mode: [runnerFor], and whether it acts. *)
Definition applying (e : Engine) : bool := String.eqb (cfg_Mode (e_cfg e)) ModeArmed.

(** [sysx.SetActivePath] through the mode's runner: nothing runs in observe
    mode. *)
Definition SetActivePath (iface : string) (a : answer) (h : Host) : option string * Host :=
  if applying (h_e h) then
    match a with
    | None => (None, mkHost (h_e h) (h_st h) (Some iface))
    | Some err => (Some err, h)
    end
  else (None, h).

Definition no_path : PathConfig :=
  mkPathConfig 0 "" "" 0 0 0 false false (mkQuota 0 0 0 "" fzero 0) (mkShapeConfig fzero fzero).
Definition path_or_zero (cfg : Config) (id : Z) : PathConfig := default no_path (PathByID cfg id).

(** ** The decision and its effect *)

(** What [evaluate] carries from its first critical section to the rest. *)
Record pending := mkPendingSwitch {
  pd_cfg : Config; pd_now : Time; pd_chosen : Z; pd_prevActive : Z;
  pd_held : bool; pd_prevHeld : bool; pd_reason : string }.

Definition evaluate_decide (now : Time) (e : Engine) : option pending * Engine :=
  if e_reverted e then (None, e)
  else
    let cfg := e_cfg e in
    let e := refresh_blocks now e in
    let '((chosen, held, reason), e) := selectPath e cfg now in
    (Some (mkPendingSwitch cfg now chosen (e_active e) held (e_held e) reason),
     with_held held reason e).

Definition commitSwitch (clock : Time) (pd : pending) (h : Host) : Host :=
  let chosen := pd_chosen pd in
  let e := h_e h in
  let e := with_switch chosen (u64 (e_decisionSeq e + 1)) (pd_now pd) e in
  let e := with_probers (map_imap (fun id pr => Some (Nudge (SetActive (id =? chosen) pr)))
                           (e_probers e)) e in
  let h := mkHost e (h_st h) (h_main h) in
  let prevName := match PathByID (pd_cfg pd) (pd_prevActive pd) with
                  | Some p => path_Name p | None => "none"%string end in
  add_event clock EventSwitch chosen "switched %s -> %s%s"
    [AStr prevName; AStr (path_Name (path_or_zero (pd_cfg pd) chosen));
     AStr (if applying e then "" else " (observe mode, not applied)")] h.

(** The second section.  [false] is the early return of a decision overtaken by
    a revert. *)
Definition evaluate_apply (a : answer) (clock : Time) (pd : pending) (h : Host) : bool * Host :=
  if negb (pd_chosen pd =? 0) && negb (pd_chosen pd =? pd_prevActive pd) then
    if e_reverted (h_e h) then (false, h)
    else
      let p := path_or_zero (pd_cfg pd) (pd_chosen pd) in
      match SetActivePath (path_Iface p) a h with
      | (None, h) => (true, commitSwitch clock pd h)
      | (Some err, h) =>
          (true, add_event clock EventSystem (pd_chosen pd) "failed to install route via %s: %v"
                   [AStr (path_Iface p); AStr err] h)
      end
  else (true, h).

Definition evaluate_report (clock : Time) (pd : pending) (h : Host) : Host :=
  let h := if pd_held pd && negb (pd_prevHeld pd)
           then add_event clock EventHeld 0 "%s; keeping the last route installed"
                  [AStr (pd_reason pd)] h
           else h in
  if negb (pd_held pd) && pd_prevHeld pd
  then add_event clock EventSystem 0 "recovered: a usable path is available again" [] h
  else h.

Definition evaluate (now : Time) (a : answer) (clock : Time) (h : Host) : Host :=
  match evaluate_decide now (h_e h) with
  | (None, e) => on_engine (fun _ => e) h
  | (Some pd, e) =>
      match evaluate_apply a clock pd (on_engine (fun _ => e) h) with
      | (false, h) => h
      | (true, h) => evaluate_report clock pd h
      end
  end.

(** ** Measurements *)

(** [Duration.Round], of a duration that is not negative. *)
Definition Round (d m : Duration) : Duration :=
  let r := d mod m in
  if r + r <? m then d - r
  else let d1 := i64 (d + m - r) in if d <? d1 then d1 else MaxInt64.

Definition onResult (now : Time) (r : Result) (h : Host) : Host :=
  match e_trackers (h_e h) !! r_PathID r with
  | None => h
  | Some tr =>
      let '(tn, tr') := Observe r now tr in
      let name := path_Name (tk_cfg tr') in
      let failThreshold := probe_FailThreshold (cfg_Probe (e_cfg (h_e h))) in
      let h := on_engine (fun e => with_trackers (<[r_PathID r := tr']> (e_trackers e)) e) h in
      if negb (tr_Changed tn) then h
      else match tr_To tn with
      | HealthDown =>
          let h := add_event now EventPathDown (r_PathID r)
                     "%s went down (%d consecutive probe losses)"
                     [AStr name; AInt failThreshold] h in
          if 0 <? tr_Quarantine tn
          then add_event now EventQuarantine (r_PathID r)
                 "%s quarantined for %s after repeated failures"
                 [AStr name; ADuration (Round (tr_Quarantine tn) Second)] h
          else h
      | HealthUp => add_event now EventPathUp (r_PathID r) "%s recovered" [AStr name] h
      | _ => h
      end
  end.

Definition SetHandshakeAges (ages : gmap Z float64) (e : Engine) : Engine :=
  with_trackers (map_imap (fun id tr => Some (match ages !! id with
                                              | Some age => SetHandshakeAge age tr
                                              | None => tr end)) (e_trackers e)) e.

(** [persistSamples].  The rows follow the iteration order of the map. *)
Definition sample_of (s : PathState) : PathSample :=
  mkPathSample (ps_ID s) (ps_RTTms s) (ps_LossPct s) (ps_JitterMs s) (ps_Health s).
Definition persistSamples (now : Time) (h : Host) : Host :=
  if e_reverted (h_e h) then h
  else
    let snaps := (fun kv => Snapshot now (kv : Z * Tracker).2) <$> map_to_list (e_trackers (h_e h)) in
    mkHost (h_e h) (AddPathSamples now (sample_of <$> snaps) (h_st h)).2 (h_main h).

(** ** Quota verdicts and the operator's actions *)

Inductive OpErr := ErrUnknownPath (id : Z) | ErrOverQuota (name : string)
  | ErrDisabled (name : string) | ErrStore (e : StoreErr).

Definition revertedMetaKey : string := "reverted".

Section quota.
Context (LoadLocation : string -> option Location).

(** One path of the loop of [refreshQuota]: a usage that cannot be read keeps
    the verdict of the last round. *)
Definition quota_step (now : Time) (grants : gmap Z Grant) (previous : gmap Z Decision)
    (s : gmap Z Decision * Store) (p : PathConfig) : gmap Z Decision * Store :=
  let '(decisions, st) := s in
  let start := (PeriodBounds LoadLocation (path_Quota p) now).1 in
  match Store.Usage (path_ID p) start st with
  | (Err _, st) =>
      (match previous !! path_ID p with
       | Some prev => <[path_ID p := prev]> decisions
       | None => decisions end, st)
  | (Ok used, st) =>
      (<[path_ID p := Evaluate LoadLocation p used (grants !! path_ID p) now]> decisions, st)
  end.

(** The events of the verdicts that changed, in the order of the map. *)
Definition quota_event (now : Time) (cfg : Config) (prev : gmap Z Decision) (h : Host)
    (kv : Z * Decision) : Host :=
  let '(id, d) := kv in
  let was := match prev !! id with Some d => dec_Blocked d | None => false end in
  let name := path_Name (path_or_zero cfg id) in
  if dec_Blocked d && negb was then
    mkHost (h_e h)
      (log_event now EventQuota id
         (match dec_Reason d with
          | Some m => mkMessage ("%s blocked: " ++ msg_format m) (AStr name :: msg_args m)
          | None => mkMessage "%s blocked: " [AStr name] end) (h_st h)) (h_main h)
  else if negb (dec_Blocked d) && was then
    add_event now EventQuota id "%s is within quota again" [AStr name] h
  else h.

Definition refreshQuota (now : Time) (h : Host) : Host :=
  match Grants (h_st h) with
  | (Err _, st) => mkHost (h_e h) st (h_main h)
  | (Ok grants, st) =>
      let cfg := e_cfg (h_e h) in
      let previous := e_quotaDec (h_e h) in
      let '(decisions, st) := fold_left (quota_step now grants previous) (cfg_Paths cfg) (∅, st) in
      let h := mkHost (with_quotaDec decisions (h_e h)) st (h_main h) in
      fold_left (quota_event now cfg previous) (map_to_list decisions) h
  end.

Definition Approve (path : Z) (dur : Duration) (extraBytes : Z) (now : Time) (h : Host)
    : result OpErr unit * Host :=
  match PathByID (e_cfg (h_e h)) path with
  | None => (Err (ErrUnknownPath path), h)
  | Some p =>
      let start := (PeriodBounds LoadLocation (path_Quota p) now).1 in
      match (do! used := Store.Usage path start in
             SetGrant (mkGrant path (Unix (Add now dur)) extraBytes used)) (h_st h) with
      | (Err e, st) => (Err (ErrStore e), mkHost (h_e h) st (h_main h))
      | (Ok _, st) =>
          let limit := if 0 <? extraBytes then [ABytes extraBytes; AStr " extra"]
                       else [AStr "no byte limit"] in
          let h := add_event now EventGrant path "overage approved on %s for %s (%s)"
                     (AStr (path_Name p) :: ADuration dur :: limit)
                     (mkHost (h_e h) st (h_main h)) in
          (Ok tt, refreshQuota now h)
      end
  end.

Definition RevokeApproval (path : Z) (now : Time) (h : Host) : result OpErr unit * Host :=
  match ClearGrant path (h_st h) with
  | (Err e, st) => (Err (ErrStore e), mkHost (h_e h) st (h_main h))
  | (Ok _, st) =>
      let h := add_event now EventGrant path "overage approval revoked" []
                 (mkHost (h_e h) st (h_main h)) in
      (Ok tt, refreshQuota now h)
  end.

Definition Pin (path : Z) (now : Time) (h : Host) : result OpErr unit * Host :=
  let pin h :=
    let h := on_engine (with_pinned path) h in
    (Ok tt, if path =? 0
            then add_event now EventSystem 0 "pin cleared, automatic selection resumed" [] h
            else add_event now EventSystem path "path pinned by operator" [] h) in
  if path =? 0 then pin h
  else match PathByID (e_cfg (h_e h)) path with
       | None => (Err (ErrUnknownPath path), h)
       | Some p => match block_of (h_e h) path with
                   | BlockQuota => (Err (ErrOverQuota (path_Name p)), h)
                   | BlockDisabled => (Err (ErrDisabled (path_Name p)), h)
                   | _ => pin h
                   end
       end.

Definition ClearQuarantine (path : Z) (now : Time) (h : Host) : Host :=
  let h := on_engine (fun e => match e_trackers e !! path with
             | Some tr => with_trackers (<[path := Tracker_ClearQuarantine tr]> (e_trackers e)) e
             | None => e end) h in
  add_event now EventQuarantine path "quarantine cleared by operator" [] h.
End quota.

(** ** Starting, reconfiguring, reverting *)

(** [startProbers]: a tracker is kept while its tunnel is, and every path whose
    socket opens gets a prober.  [dial] is the random seed of the path's prober,
    or nothing when it cannot be started. *)
Definition start_path (dial : Z -> option Z) (cfg : Config) (active : Z) (previous : gmap Z Tracker)
    (s : gmap Z Tracker * gmap Z Prober) (p : PathConfig) : gmap Z Tracker * gmap Z Prober :=
  let id := path_ID p in
  let fresh := NewTracker p (cfg_Probe cfg) (cfg_Failover cfg) in
  let tracker := match previous !! id with
                 | Some old => if String.eqb (path_Iface (tk_cfg old)) (path_Iface p)
                               then Retune p (cfg_Probe cfg) (cfg_Failover cfg) old else fresh
                 | None => fresh
                 end in
  (<[id := tracker]> s.1,
   match dial id with
   | Some nonce => <[id := SetActive (id =? active) (NewProber p (cfg_Probe cfg) nonce)]> s.2
   | None => s.2
   end).
Definition startProbers (dial : Z -> option Z) (e : Engine) : Engine :=
  let '(ts, ps) := fold_left (start_path dial (e_cfg e) (e_active e) (e_trackers e))
                     (cfg_Paths (e_cfg e)) (∅, ∅) in
  with_probers ps (with_trackers ts e).

Definition with_mode_state (cfg : Config) (reverted dataPlane : bool) (version : Z) (e : Engine) : Engine :=
  mkEngine cfg (e_trackers e) (e_probers e) (e_blocks e) (e_quotaDec e) (e_active e) (e_pinned e)
    (e_decisionSeq e) (e_lastSwitch e) (e_beatenSince e) (e_held e) (e_heldReason e)
    reverted dataPlane version.

(** [New], with the latch the previous run left in the store. *)
Definition decision_seed (now : Time) : Z := u64 (Z.shiftl (u64 (UnixMilli now)) 16).
Definition New (cfg : Config) (now : Time) (st : Store) : Engine * Store :=
  let '(latch, st) := Meta revertedMetaKey st in
  (mkEngine cfg ∅ ∅ ∅ ∅ 0 0 (decision_seed now) zeroTime zeroTime false ""
     (negb (String.eqb latch "")) false 0, st).

(** [seedActiveFromKernel]; [via] is the interface the kernel reports. *)
Definition seedActiveFromKernel (via : option string) (e : Engine) : Engine :=
  match via with
  | None => e
  | Some iface =>
      if String.eqb iface "" then e
      else match List.find (fun p => String.eqb (path_Iface p) iface) (cfg_Paths (e_cfg e)) with
           | Some p => with_active (path_ID p) e
           | None => e
           end
  end.

(** The route and the ruleset of [applySystemConfig]: the active path's route is
    put back, and the ruleset loaded. *)
Definition applySystemConfig (route nft : answer) (clock : Time) (h : Host) : Host :=
  let e := h_e h in
  let h := match PathByID (e_cfg e) (e_active e) with
           | None => h
           | Some p =>
               match SetActivePath (path_Iface p) route h with
               | (None, h) => h
               | (Some err, h) =>
                   add_event clock EventSystem (e_active e) "could not reinstall route via %s: %v"
                     [AStr (path_Iface p); AStr err] h
               end
           end in
  if negb (applying e) then h
  else match nft with
       | Some err => add_event clock EventSystem 0 "nftables apply failed: %v" [AStr err] h
       | None => on_engine (fun e => with_mode_state (e_cfg e) (e_reverted e) true (e_cfgVersion e) e) h
       end.

(** [Reconfigure], up to the release of its locks. *)
Definition reconfigure_swap (cfg : Config) (h : Host) : result OpErr unit * Host :=
  match SaveConfig cfg (h_st h) with
  | (Err e, st) => (Err (ErrStore e), mkHost (h_e h) st (h_main h))
  | (Ok _, st) =>
      let e := with_mode_state cfg false (e_dataPlane (h_e h)) (u64 (e_cfgVersion (h_e h) + 1)) (h_e h) in
      (Ok tt, mkHost e (SetMeta revertedMetaKey "" st).2 (h_main h))
  end.

(** The rest of it, after [applySystemConfig]; [prevMode] and [dataPlane] were
    read at the swap. *)
Definition reconfigure_finish LoadLocation (dial : Z -> option Z) (prevMode : string)
    (dataPlane : bool) (now : Time) (h : Host) : Host :=
  let h := refreshQuota LoadLocation now (on_engine (startProbers dial) h) in
  let mode := cfg_Mode (e_cfg (h_e h)) in
  let h := add_event now EventConfig 0 "configuration updated (mode: %s)" [AStr mode] h in
  if String.eqb prevMode ModeArmed && String.eqb mode ModeObserve && dataPlane then
    add_event now EventSystem 0
      "disarmed: no further changes will be made, but the rules already installed stay active until you revert"
      [] h
  else h.

(** [Revert]: latched first, then torn down.  The teardown's commands are not
    checked; [removed] says whether the kernel dropped the route. *)
Definition revert_latch (h : Host) : Host :=
  let e := with_mode_state (e_cfg (h_e h)) true (e_dataPlane (h_e h)) (e_cfgVersion (h_e h)) (h_e h) in
  mkHost e (SetMeta revertedMetaKey "1" (h_st h)).2 (h_main h).

Definition qcacheAppliedMetaKey : string := "qcache_applied".

Definition set_cfg_Mode (mode : string) (c : Config) : Config :=
  mkConfig mode (cfg_Frontend c) (cfg_Overlay c) (cfg_Paths c) (cfg_Probe c) (cfg_Failover c)
    (cfg_Services c) (cfg_Linkers c) (cfg_BackendLAN c) (cfg_Egress c) (cfg_Notify c)
    (cfg_Protect c) (cfg_QueryCache c) (cfg_Blocklist c).

Definition revert_finish (removed : bool) (clock : Time) (h : Host) : Host :=
  let cfg := set_cfg_Mode ModeObserve (e_cfg (h_e h)) in
  let st := (SaveConfig cfg (SetMeta qcacheAppliedMetaKey "" (h_st h)).2).2 in
  let e := with_pinned 0 (with_active 0
             (with_mode_state cfg (e_reverted (h_e h)) false (u64 (e_cfgVersion (h_e h) + 1)) (h_e h))) in
  add_event clock EventSystem 0
    ("reverted: nftables table and policy routes removed, mode set to observe; "
     ++ "probing is stopped until settings are saved or the mode is changed") []
    (mkHost e st (if removed then None else h_main h)).

(** ** Repair *)

(** The main-table part of [reconcileRouting]: [exists_ifc] says whether the
    tunnel is there, [read] whether the kernel's table could be read. *)
Definition reconcileRouting (exists_ifc : string -> bool) (read : bool) (a : answer) (clock : Time)
    (h : Host) : Host :=
  let e := h_e h in
  if e_reverted e then h
  else match PathByID (e_cfg e) (e_active e) with
  | None => h
  | Some ap =>
      if negb (exists_ifc (path_Iface ap)) || negb (applying e) then h
      else if read && negb (bool_decide (h_main h = Some (path_Iface ap))) then
        match SetActivePath (path_Iface ap) a h with
        | (Some err, h) => add_event clock EventSystem (e_active e)
                             "could not restore the route via %s: %v" [AStr (path_Iface ap); AStr err] h
        | (None, h) => add_event clock EventSystem (e_active e)
                         "restored the route to the backend via %s after it was lost"
                         [AStr (path_Iface ap)] h
        end
      else h
  end.

(** ** The goroutines together *)

(** Who holds the reconfiguration lock, and how far it has come. *)
Inductive phase := Idle | Reverting
  | Swapped (prevMode : string) (dataPlane : bool) | Applied (prevMode : string) (dataPlane : bool).

(** The decision under way in [Run]'s goroutine, and whether its second section
    has run. *)
Record World := mkWorld { w_host : Host; w_pending : option (pending * bool); w_phase : phase }.

Inductive act :=
(* the loop of [Run] *)
| ActDecide (now : Time) | ActApply (a : answer) (clock : Time) | ActReport (clock : Time)
| ActResult (now : Time) (r : Result) | ActSample (now : Time) | ActQuota (now : Time)
| ActReconcile (exists_ifc : string -> bool) (read : bool) (a : answer) (clock : Time)
(* the portal *)
| ActPin (path : Z) (now : Time) | ActClear (path : Z) (now : Time)
| ActApprove (path : Z) (dur : Duration) (extra : Z) (now : Time) | ActRevoke (path : Z) (now : Time)
| ActRevert | ActRevertFinish (removed : bool) (clock : Time)
| ActSave (cfg : Config) | ActSystem (route nft : answer) (clock : Time)
| ActFinish (dial : Z -> option Z) (now : Time)
(* the process *)
| ActRestart (now : Time) (via : option string) (nft : answer) (dial : Z -> option Z).

Section world.
Context (LoadLocation : string -> option Location).

Definition set_host (h : Host) (w : World) : World := mkWorld h (w_pending w) (w_phase w).

(** A step of the loop, which runs one thing at a time. *)
Definition loop (f : Host -> Host) (w : World) : option World :=
  match w_pending w with None => Some (set_host (f (w_host w)) w) | Some _ => None end.

(** The process starts again on what the store holds. *)
Definition restart (now : Time) (via : option string) (nft : answer) (dial : Z -> option Z) (w : World)
    : option World :=
  match LoadConfig (h_st (w_host w)) with
  | (Err _, _) => None
  | (Ok cfg, st) =>
      let '(e, st) := New cfg now st in
      let h := mkHost e st (h_main (w_host w)) in
      let h := if e_reverted e then h
               else on_engine (fun e => startProbers dial (seedActiveFromKernel via e))
                      (applySystemConfig None nft now h) in
      Some (mkWorld h None Idle)
  end.

(** One step; [None] when a lock or the step's own goroutine forbids it. *)
Definition step (a : act) (w : World) : option World :=
  let h := w_host w in
  match a with
  | ActDecide now =>
      match w_pending w with
      | Some _ => None
      | None =>
          let '(pd, e) := evaluate_decide now (h_e h) in
          Some (mkWorld (on_engine (fun _ => e) h) ((fun pd => (pd, false)) <$> pd) (w_phase w))
      end
  | ActApply a clock =>
      match w_pending w, w_phase w with
      | Some (pd, false), (Idle | Swapped _ _ | Applied _ _) =>
          let '(go_on, h) := evaluate_apply a clock pd h in
          Some (mkWorld h (if go_on then Some (pd, true) else None) (w_phase w))
      | _, _ => None
      end
  | ActReport clock =>
      match w_pending w with
      | Some (pd, true) => Some (mkWorld (evaluate_report clock pd h) None (w_phase w))
      | _ => None
      end
  | ActResult now r => loop (onResult now r) w
  | ActSample now => loop (persistSamples now) w
  | ActQuota now => loop (refreshQuota LoadLocation now) w
  | ActReconcile exists_ifc read a clock =>
      match w_phase w with
      | Reverting => None
      | _ => loop (reconcileRouting exists_ifc read a clock) w
      end
  | ActPin path now => Some (set_host (Pin path now h).2 w)
  | ActClear path now => Some (set_host (ClearQuarantine path now h) w)
  | ActApprove path dur extra now => Some (set_host (Approve LoadLocation path dur extra now h).2 w)
  | ActRevoke path now => Some (set_host (RevokeApproval LoadLocation path now h).2 w)
  | ActRevert =>
      match w_phase w with
      | Idle => Some (mkWorld (revert_latch h) (w_pending w) Reverting)
      | _ => None
      end
  | ActRevertFinish removed clock =>
      match w_phase w with
      | Reverting => Some (mkWorld (revert_finish removed clock h) (w_pending w) Idle)
      | _ => None
      end
  | ActSave cfg =>
      match w_phase w with
      | Idle =>
          match reconfigure_swap cfg h with
          | (Ok _, h') => Some (mkWorld h' (w_pending w)
                                  (Swapped (cfg_Mode (e_cfg (h_e h))) (e_dataPlane (h_e h))))
          | (Err _, h') => Some (set_host h' w)
          end
      | _ => None
      end
  | ActSystem route nft clock =>
      match w_phase w with
      | Swapped m d => Some (mkWorld (applySystemConfig route nft clock h) (w_pending w) (Applied m d))
      | _ => None
      end
  | ActFinish dial now =>
      match w_phase w with
      | Applied m d => Some (mkWorld (reconfigure_finish LoadLocation dial m d now h) (w_pending w) Idle)
      | _ => None
      end
  | ActRestart now via nft dial => restart now via nft dial w
  end.

Definition run (acts : list act) (w : World) : option World :=
  fold_left (fun ow a => ow ≫= step a) acts (Some w).
End world.

(** ** What leaves the latch alone *)

(** The store neither starts failing nor changes its metadata. *)
Definition keeps (st st' : Store) : Prop :=
  st_faults st = [] -> st_faults st' = [] /\ db_meta (st_db st') = db_meta (st_db st).

Lemma keeps_refl st : keeps st st.
Proof. done. Qed.

Lemma keeps_trans st1 st2 st3 : keeps st1 st2 -> keeps st2 st3 -> keeps st1 st3.
Proof. intros H1 H2 Hf. destruct (H1 Hf) as [Hf2 <-]. by apply H2. Qed.

Lemma keeps_exec f st :
  (forall d, db_meta (f d) = db_meta d) -> keeps st (exec f st).2.
Proof. intros Hf H. rewrite exec_ok by done. split; [done | apply Hf]. Qed.

Lemma exec_faults f st : st_faults st = [] -> st_faults (exec f st).2 = [].
Proof. intros H. by rewrite exec_ok. Qed.
Lemma exec_db f st : st_faults st = [] -> st_db (exec f st).2 = f (st_db st).
Proof. intros H. by rewrite exec_ok. Qed.

Lemma keeps_query {A} (f : DB -> A) st : keeps st (query f st).2.
Proof.
  intros H. unfold query. rewrite (sbind_ok _ _ st tt st); [done | by apply call_ok].
Qed.

Lemma keeps_bind {A B} (m : SM A) (k : A -> SM B) st :
  keeps st (m st).2 -> (forall a st, keeps st (k a st).2) -> keeps st (sbind m k st).2.
Proof.
  intros Hm Hk. unfold sbind. destruct (m st) as [[a|e] st'] eqn:E; [| done].
  eapply keeps_trans; [exact Hm | apply Hk].
Qed.

Lemma keeps_event now kind path m st : keeps st (log_event now kind path m st).
Proof. by apply keeps_exec. Qed.

Lemma keeps_samples now ps st : keeps st (AddPathSamples now ps st).2.
Proof.
  unfold AddPathSamples. destruct ps as [|p ps]; [done |].
  assert (Hall : forall ts l, does (add_path_samples ts l)
    (fun d => fold_left (fun d p => set_path_samples (db_path_samples d ++ [(ts, p)]) d) l d)).
  { intros ts l. induction l as [|q l IH]; [apply does_ret |].
    exact (does_bind _ _ _ _ (does_exec _) IH). }
  intros Hf.
  rewrite (proj2 (atomic_transaction _ _ (does_bind call (fun d => d) _ _ does_call
    (Hall (Unix now) (p :: ps))) st) Hf).
  split; [done |]. cbn [snd st_db].
  generalize (st_db st) as d. generalize (p :: ps) as l.
  induction l as [|q l IH]; intros d; [done |]. cbn [fold_left]. by rewrite IH.
Qed.

#[export] Hint Resolve keeps_refl keeps_event keeps_query keeps_samples : go.

(** An operation of the engine that touches neither the route nor the latch. *)
Definition harmless (h h' : Host) : Prop :=
  h_main h' = h_main h /\ e_reverted (h_e h') = e_reverted (h_e h)
  /\ e_active (h_e h') = e_active (h_e h) /\ e_cfg (h_e h') = e_cfg (h_e h)
  /\ e_decisionSeq (h_e h') = e_decisionSeq (h_e h)
  /\ keeps (h_st h) (h_st h').

Lemma harmless_refl h : harmless h h.
Proof. by repeat split. Qed.
Lemma harmless_trans h1 h2 h3 : harmless h1 h2 -> harmless h2 h3 -> harmless h1 h3.
Proof.
  intros (A1 & A2 & A3 & A4 & A5 & A6) (B1 & B2 & B3 & B4 & B5 & B6).
  split_and!; try congruence. eapply keeps_trans; eassumption.
Qed.
Lemma harmless_event clock kind path fmt args h : harmless h (add_event clock kind path fmt args h).
Proof. unfold harmless. split_and!; try done. apply keeps_event. Qed.
Lemma harmless_event_l clock kind path fmt args h h' :
  harmless h h' -> harmless h (add_event clock kind path fmt args h').
Proof. intros H. eapply harmless_trans; [exact H | apply harmless_event]. Qed.
Lemma harmless_store h st : keeps (h_st h) st -> harmless h (mkHost (h_e h) st (h_main h)).
Proof. intros H. unfold harmless. by split_and!. Qed.

#[export] Hint Resolve harmless_refl harmless_event harmless_event_l harmless_store : go.

Lemma onResult_harmless now r h : harmless h (onResult now r h).
Proof.
  unfold onResult. destruct (e_trackers _ !! _) as [tr|]; [| apply harmless_refl].
  destruct (Observe r now tr) as [tn tr'].
  set (h1 := on_engine _ h). assert (H1 : harmless h h1) by by repeat split.
  destruct (tr_Changed tn); cbn [negb]; [| done].
  destruct (tr_To tn); try done; [by apply harmless_event_l |].
  split_if; repeat apply harmless_event_l; done.
Qed.

Lemma persistSamples_harmless now h : harmless h (persistSamples now h).
Proof.
  unfold persistSamples. destruct (e_reverted (h_e h)); [apply harmless_refl |].
  apply harmless_store, keeps_samples.
Qed.

Lemma Pin_harmless path now h : harmless h (Pin path now h).2.
Proof.
  assert (Hp : harmless h (on_engine (with_pinned path) h)) by by repeat split.
  unfold Pin. destruct (path =? 0); [by apply harmless_event_l |].
  destruct (PathByID _ path); [| apply harmless_refl].
  destruct (block_of _ path); first [apply harmless_refl | by apply harmless_event_l].
Qed.

Lemma ClearQuarantine_harmless path now h : harmless h (ClearQuarantine path now h).
Proof.
  unfold ClearQuarantine. apply harmless_event_l. repeat split; try done;
    unfold on_engine; cbn [h_e]; by destruct (e_trackers (h_e h) !! path).
Qed.

Lemma evaluate_report_harmless clock pd h : harmless h (evaluate_report clock pd h).
Proof.
  unfold evaluate_report. repeat split_if; repeat apply harmless_event_l; apply harmless_refl.
Qed.

Lemma quota_step_keeps LoadLocation now grants previous p ds st :
  keeps st (quota_step LoadLocation now grants previous (ds, st) p).2.
Proof.
  unfold quota_step. pose proof (keeps_query (fun d =>
    match db_ledger d !! (path_ID p, Unix (PeriodBounds LoadLocation (path_Quota p) now).1) with
    | Some (b, _) => b | None => 0 end) st) as H.
  unfold Store.Usage. by destruct (query _ st) as [[used|e] st'].
Qed.

Lemma quota_loop_keeps LoadLocation now grants previous ps : forall ds st,
  keeps st (fold_left (quota_step LoadLocation now grants previous) ps (ds, st)).2.
Proof.
  induction ps as [|p ps IH]; intros ds st; [apply keeps_refl |]. cbn [fold_left].
  pose proof (quota_step_keeps LoadLocation now grants previous p ds st) as H.
  destruct (quota_step _ _ _ _ (ds, st) p) as [ds' st']. eapply keeps_trans; [exact H | apply IH].
Qed.

Lemma quota_events_harmless now cfg prev l : forall h,
  harmless h (fold_left (quota_event now cfg prev) l h).
Proof.
  induction l as [|[id d] l IH]; intros h; [apply harmless_refl |]. cbn [fold_left].
  eapply harmless_trans; [| apply IH]. unfold quota_event. split_if.
  - apply harmless_store, keeps_event.
  - split_if; [apply harmless_event | apply harmless_refl].
Qed.

Lemma refreshQuota_harmless LoadLocation now h : harmless h (refreshQuota LoadLocation now h).
Proof.
  unfold refreshQuota. pose proof (keeps_query db_grants (h_st h)) as Hg. unfold Grants.
  destruct (query db_grants (h_st h)) as [[grants|e] st]; cbn [snd] in Hg;
    [| by apply harmless_store].
  pose proof (quota_loop_keeps LoadLocation now grants (e_quotaDec (h_e h))
    (cfg_Paths (e_cfg (h_e h))) ∅ st) as Hq.
  destruct (fold_left _ _ (∅, st)) as [ds st']. eapply harmless_trans; [| apply quota_events_harmless].
  unfold harmless. split_and!; try done. eapply keeps_trans; eassumption.
Qed.

Lemma Approve_harmless LoadLocation path dur extra now h :
  harmless h (Approve LoadLocation path dur extra now h).2.
Proof.
  unfold Approve. destruct (PathByID _ path) as [p|]; [| apply harmless_refl].
  set (m := sbind _ _). assert (H : keeps (h_st h) (m (h_st h)).2).
  { apply keeps_bind; [apply keeps_query | intros used st; by apply keeps_exec]. }
  destruct (m (h_st h)) as [[u|e] st]; [| by apply harmless_store]. cbn [snd].
  eapply harmless_trans; [| apply refreshQuota_harmless].
  apply harmless_event_l. by apply harmless_store.
Qed.

Lemma RevokeApproval_harmless LoadLocation path now h :
  harmless h (RevokeApproval LoadLocation path now h).2.
Proof.
  unfold RevokeApproval.
  assert (H : keeps (h_st h) (ClearGrant path (h_st h)).2) by by apply keeps_exec.
  destruct (ClearGrant path (h_st h)) as [[u|e] st]; [| by apply harmless_store]. cbn [snd].
  eapply harmless_trans; [| apply refreshQuota_harmless].
  apply harmless_event_l. by apply harmless_store.
Qed.

(** The decision writes neither the route nor the active path. *)
Lemma refresh_block_frame now e p :
  exists bs, refresh_block now e p = with_blocks bs e.
Proof.
  unfold refresh_block. destruct (e_trackers e !! path_ID p); [by eexists |].
  exists (e_blocks e). by destruct e.
Qed.

Lemma refresh_blocks_frame now e : exists bs, refresh_blocks now e = with_blocks bs e.
Proof.
  unfold refresh_blocks. generalize (cfg_Paths (e_cfg e)) as ps. intros ps. revert e.
  induction ps as [|p ps IH]; intros e; simpl; [exists (e_blocks e); by destruct e |].
  destruct (refresh_block_frame now e p) as [bs ->]. destruct (IH (with_blocks bs e)) as [bs' ->].
  by eexists.
Qed.

Lemma evaluate_decide_frame now e :
  exists bs t held reason,
    (evaluate_decide now e).2 = with_held held reason (with_beatenSince t (with_blocks bs e))
    \/ (evaluate_decide now e).2 = e.
Proof.
  unfold evaluate_decide. destruct (e_reverted e); [exists ∅, zeroTime, false, ""%string; by right |].
  destruct (refresh_blocks_frame now e) as [bs Hbs]. rewrite Hbs.
  destruct (selectPath_frame (with_blocks bs e) (e_cfg e) now) as [t Ht].
  destruct (selectPath _ _ _) as [[[id held] reason] e']. cbn [snd] in *. subst e'.
  do 4 eexists. by left.
Qed.

Lemma evaluate_decide_harmless now h :
  harmless h (on_engine (fun _ => (evaluate_decide now (h_e h)).2) h).
Proof.
  destruct (evaluate_decide_frame now (h_e h)) as (bs & t & held & reason & [-> | ->]);
    unfold harmless; split_and!; try done; apply keeps_refl.
Qed.

(** ** The latch *)

(** Nothing but a settings save undoes this, and where the latch was not
    stored ([stored] is off) a restart. *)
Definition latch_stored (st : Store) : Prop :=
  st_faults st = [] /\ db_meta (st_db st) !! revertedMetaKey = Some "1"%string.
Definition latched (stored : bool) (w : World) : Prop :=
  e_reverted (h_e (w_host w)) = true
  /\ (stored = true -> latch_stored (h_st (w_host w)))
  /\ (w_phase w = Idle \/ w_phase w = Reverting).

Definition removed_all (w : World) : Prop :=
  h_main (w_host w) = None /\ e_active (h_e (w_host w)) = 0.

(** One step of a latched system: it stays latched, and the route and the active
    path are what they were unless the revert itself removes them. *)
Definition still (h h' : Host) : Prop :=
  h_main h' = h_main h /\ (e_active (h_e h') = e_active (h_e h) \/ e_active (h_e h') = 0).

Lemma harmless_latched stored h h' pd pd' ph :
  latched stored (mkWorld h pd ph) -> harmless h h' ->
  latched stored (mkWorld h' pd' ph) /\ still h h'.
Proof.
  intros (H1 & H2 & H3) (M & R & A & C & _ & K). cbn [w_host w_phase] in *.
  unfold latched, still. cbn [w_host w_phase]. rewrite R. split_and!; auto.
  intros Hst. destruct (H2 Hst) as [F1 F2], (K F1) as [K1 K2]. split; [done | by rewrite K2].
Qed.

Lemma latched_apply stored a clock pd h ph pds :
  latched stored (mkWorld h pds ph) ->
  exists b, evaluate_apply a clock pd h = (b, h).
Proof.
  intros (H1 & _). cbn [w_host] in H1. unfold evaluate_apply. rewrite H1.
  destruct (_ && _); by eexists.
Qed.

Lemma latched_reconcile stored ex read a clock h ph pds :
  latched stored (mkWorld h pds ph) -> reconcileRouting ex read a clock h = h.
Proof. intros (H1 & _). cbn [w_host] in H1. unfold reconcileRouting. by rewrite H1. Qed.

Lemma LoadConfig_keeps st : keeps st (LoadConfig st).2.
Proof.
  apply keeps_bind; [apply keeps_query |]. intros [cfg|] st'; [apply keeps_refl |].
  apply keeps_bind; [by apply keeps_exec | intros; apply keeps_refl].
Qed.

Lemma latched_restart now via nft dial w w' :
  latched true w -> restart now via nft dial w = Some w' ->
  latched true w' /\ still (w_host w) (w_host w').
Proof.
  intros (H1 & [H2 H3] & _); [done |]. unfold restart.
  pose proof (LoadConfig_keeps (h_st (w_host w)) H2) as [K1 K2].
  destruct (LoadConfig _) as [[cfg|e] st]; [| done]. cbn [snd] in *.
  unfold New, Meta, MetaChecked, query. rewrite (sbind_ok _ _ st tt st) by (by apply call_ok).
  rewrite K2, H3. cbn. intros [= <-]. unfold latched, latch_stored, still. cbn. rewrite K2.
  split_and!; auto.
Qed.

Definition is_save (a : act) : bool := match a with ActSave _ => true | _ => false end.
Definition is_restart (a : act) : bool := match a with ActRestart _ _ _ _ => true | _ => false end.
(** What a latched system admits. *)
Definition admits (stored : bool) (a : act) : Prop :=
  is_save a = false /\ (stored = true \/ is_restart a = false).
Definition is_finish (a : act) : bool := match a with ActRevertFinish _ _ => true | _ => false end.

Section latch.
Context (LoadLocation : string -> option Location).

Lemma latched_step stored a w w' :
  admits stored a -> is_finish a = false -> latched stored w -> step LoadLocation a w = Some w' ->
  latched stored w' /\ still (w_host w) (w_host w').
Proof.
  intros [Hs Hre] Hfin Hl Hstep. destruct w as [h pd ph].
  assert (Hself : forall pd', latched stored (mkWorld h pd' ph) /\ still h h).
  { intros pd'. apply (harmless_latched stored h h pd pd' ph Hl), harmless_refl. }
  assert (Hharm : forall h' pd', harmless h h' ->
    Some (mkWorld h' pd' ph) = Some w' -> latched stored w' /\ still h (w_host w')).
  { intros h' pd' Hh [= <-]. by apply (harmless_latched stored h h' pd pd' ph). }
  destruct a; try discriminate; cbn [step w_host w_pending w_phase] in *; unfold loop, set_host in *;
    cbn [w_host w_pending w_phase] in *.
  - destruct pd; [done |].
    pose proof (evaluate_decide_harmless now h) as He.
    destruct (evaluate_decide now (h_e h)) as [pd' e']. by eapply Hharm.
  - destruct pd as [[pd' []]|]; [done | | done].
    destruct (latched_apply stored a clock pd' h ph _ Hl) as [b Hb]. rewrite Hb in Hstep.
    destruct ph; try done; injection Hstep as <-; apply Hself.
  - destruct pd as [[pd' []]|]; [| done | done].
    eapply Hharm; [apply evaluate_report_harmless | exact Hstep].
  - destruct pd; [done |]. eapply Hharm; [apply onResult_harmless | exact Hstep].
  - destruct pd; [done |]. eapply Hharm; [apply persistSamples_harmless | exact Hstep].
  - destruct pd; [done |]. eapply Hharm; [apply refreshQuota_harmless | exact Hstep].
  - rewrite (latched_reconcile stored exists_ifc read a clock h ph pd Hl) in Hstep.
    destruct ph, pd; try done; injection Hstep as <-; apply Hself.
  - eapply Hharm; [apply Pin_harmless | exact Hstep].
  - eapply Hharm; [apply ClearQuarantine_harmless | exact Hstep].
  - eapply Hharm; [apply Approve_harmless | exact Hstep].
  - eapply Hharm; [apply RevokeApproval_harmless | exact Hstep].
  - destruct ph; try done. injection Hstep as <-.
    destruct Hl as (H1 & H2 & H3). cbn [w_host w_phase] in *.
    unfold latched, still, revert_latch, SetMeta. cbn [w_host w_phase h_st h_e h_main].
    split_and!; auto. intros Hst. destruct (H2 Hst) as [F1 _]. unfold latch_stored.
    rewrite exec_ok by done. cbn. by rewrite lookup_insert_eq.
  - destruct Hl as (_ & _ & [Hp | Hp]); cbn [w_phase] in Hp; by subst ph.
  - destruct Hl as (_ & _ & [Hp | Hp]); cbn [w_phase] in Hp; by subst ph.
  - destruct Hre as [-> | Hre]; [| done]. by apply (latched_restart now via nft dial (mkWorld h pd ph) w').
Qed.

(** The teardown leaves no route and no active path. *)
Lemma latched_finish stored clock w w' removed :
  latched stored w -> step LoadLocation (ActRevertFinish removed clock) w = Some w' ->
  latched stored w' /\ e_active (h_e (w_host w')) = 0
  /\ h_main (w_host w') = if removed then None else h_main (w_host w).
Proof.
  intros (H1 & H2 & H3) Hstep. cbn [step] in Hstep.
  destruct (w_phase w); try done. injection Hstep as <-.
  unfold latched, revert_finish, add_event, log_event, AddEvent, SaveConfig, SetMeta.
  cbn [w_host w_phase h_st h_e h_main]. split_and!; try done; try by left.
  intros Hst. destruct (H2 Hst) as [F1 F2]. split.
  - by repeat apply exec_faults.
  - rewrite !exec_db by (repeat apply exec_faults; done).
    change (<[qcacheAppliedMetaKey := ""%string]> (db_meta (st_db (h_st (w_host w))))
              !! revertedMetaKey = Some "1"%string). by rewrite lookup_insert_ne.
Qed.

Lemma run_snoc acts a w : run LoadLocation (acts ++ [a]) w = run LoadLocation acts w ≫= step LoadLocation a.
Proof. unfold run. by rewrite fold_left_app. Qed.

Lemma run_app acts1 acts2 w :
  run LoadLocation (acts1 ++ acts2) w = run LoadLocation acts1 w ≫= run LoadLocation acts2.
Proof.
  unfold run. rewrite fold_left_app. destruct (fold_left _ acts1 (Some w)); [done |]. simpl.
  by induction acts2.
Qed.

Lemma latched_any stored a w w' :
  admits stored a -> latched stored w -> step LoadLocation a w = Some w' ->
  latched stored w' /\ (removed_all w -> removed_all w').
Proof.
  intros Hs Hl Hst. destruct (is_finish a) eqn:Ef.
  - destruct a; try done. destruct (latched_finish stored clock w w' removed Hl Hst) as (H1 & H2 & H3).
    split; [done |]. intros [Hm _]. split; [| done]. rewrite H3. by destruct removed.
  - destruct (latched_step stored a w w' Hs Ef Hl Hst) as [H1 [H2 H3]]. split; [done |].
    intros [Hm Ha]. split; [by rewrite H2 | by destruct H3 as [-> | ->]].
Qed.

Lemma latched_run stored acts : forall w w',
  Forall (admits stored) acts -> latched stored w -> run LoadLocation acts w = Some w' ->
  latched stored w' /\ (removed_all w -> removed_all w').
Proof.
  induction acts as [|a acts IH] using rev_ind; intros w w' Hs Hl Hr.
  { by injection Hr as <-. }
  apply Forall_app in Hs as [Hs Ha]. inversion_clear Ha.
  rewrite run_snoc in Hr. destruct (run LoadLocation acts w) as [w1|] eqn:E; [| done].
  destruct (IH w w1 Hs Hl E) as [Hl1 Hr1].
  destruct (latched_any stored a w1 w' H Hl1 Hr) as [Hl2 Hr2]. split; [done |]. intros Hrem. by apply Hr2, Hr1.
Qed.

Lemma revert_run stored w acts1 clock acts2 w' :
  w_phase w = Idle -> (stored = true -> st_faults (h_st (w_host w)) = []) ->
  Forall (admits stored) (acts1 ++ acts2) ->
  run LoadLocation ([ActRevert] ++ acts1 ++ [ActRevertFinish true clock] ++ acts2) w = Some w' ->
  latched stored w' /\ removed_all w'.
Proof.
  intros Hp Hf Hs Hr. apply Forall_app in Hs as [Hs1 Hs2].
  rewrite run_app in Hr. destruct (run LoadLocation [ActRevert] w) as [w1|] eqn:E1; [| done].
  cbn [mbind option_bind] in Hr. rewrite run_app in Hr.
  destruct (run LoadLocation acts1 w1) as [w2|] eqn:E2; [| done]. cbn [mbind option_bind] in Hr.
  rewrite run_app in Hr.
  destruct (run LoadLocation [ActRevertFinish true clock] w2) as [w3|] eqn:E3; [| done].
  cbn [mbind option_bind] in Hr.
  assert (Hl1 : latched stored w1).
  { cbn in E1. rewrite Hp in E1. injection E1 as <-. unfold latched, revert_latch, SetMeta.
    cbn [w_host w_phase h_e h_st e_reverted with_mode_state].
    split_and!; [done | | by right]. intros Hst. specialize (Hf Hst). split; [by apply exec_faults |].
    rewrite exec_db by done. apply lookup_insert_eq. }
  destruct (latched_run stored acts1 w1 w2 Hs1 Hl1 E2) as [Hl2 _].
  destruct (latched_finish stored clock w2 w3 true Hl2 E3) as (Hl3 & Ha & Hm).
  destruct (latched_run stored acts2 w3 w' Hs2 Hl3 Hr) as [Hl' Hrem]. split; [done |]. by apply Hrem.
Qed.
End latch.

(** [C5] A revert stays reverted.  Whatever the decision loop, the repair loop,
    the operator's other actions and the measurements do around it, in any
    interleaving the locks allow, a decision taken before it included: once the
    teardown has removed the route nothing puts it back, no path is active and
    the latch is on, until settings are saved. So within one process whatever
    the store does, and through any number of restarts while the store takes
    its calls, the latch's among them; a latch the store refused is lost with
    the process ([refused_latch_forgotten]). *)
Theorem revert_stays_reverted LoadLocation w acts1 clock acts2 w' :
  w_phase w = Idle ->
  Forall (fun a => is_save a = false) (acts1 ++ acts2) ->
  st_faults (h_st (w_host w)) = [] \/ Forall (fun a => is_restart a = false) (acts1 ++ acts2) ->
  run LoadLocation ([ActRevert] ++ acts1 ++ [ActRevertFinish true clock] ++ acts2) w = Some w' ->
  h_main (w_host w') = None /\ e_active (h_e (w_host w')) = 0
  /\ e_reverted (h_e (w_host w')) = true.
Proof.
  intros Hp Hs Hor Hr.
  assert (Ha : exists stored, (stored = true -> st_faults (h_st (w_host w)) = [])
    /\ Forall (admits stored) (acts1 ++ acts2)).
  { destruct Hor as [Hf | Hre].
    - exists true. split; [done |]. eapply Forall_impl; [exact Hs |]. intros a H. split; auto.
    - exists false. split; [done |]. rewrite Forall_forall in Hs, Hre. apply Forall_forall. intros a Hin. split; auto. }
  destruct Ha as (stored & Hf & Ha).
  destruct (revert_run LoadLocation stored w acts1 clock acts2 w' Hp Hf Ha Hr) as [(H & _) [H1 H2]].
  by split_and!.
Qed.

(** ** Routes that follow the decision *)

(** The default configuration, armed. *)
Definition armed_config : Config := set_cfg_Mode ModeArmed Defaults.
Definition sample_host (active : Z) (since1 since2 : Time) (main : option string) : Host :=
  mkHost (with_mode_state armed_config false true 1 (sample_engine active since1 since2))
    (mkStore emptyDB []) main.

(** A decision to move to the preferred tunnel, overtaken by a revert. *)
Definition overtaken : list act :=
  [ActApply None (UnixTime 1130); ActPin 3 (UnixTime 1131)].
Definition overtaken_world : World :=
  let h := sample_host 2 (UnixTime 1000) (UnixTime 10) (Some "wg-lte1"%string) in
  mkWorld h ((fun pd => (pd, false)) <$> (evaluate_decide (UnixTime 1130) (h_e h)).1) Idle.

Lemma revert_stays_reverted_witness :
  let r := run (fun _ => None) ([ActRevert] ++ [] ++ [ActRevertFinish true (UnixTime 1130)] ++ overtaken)
             overtaken_world in
  (h_main ∘ w_host <$> r) = Some None /\ (e_active ∘ h_e ∘ w_host <$> r) = Some 0.
Proof.
  destruct (run (fun _ => None) ([ActRevert] ++ [] ++ [ActRevertFinish true (UnixTime 1130)]
    ++ overtaken) overtaken_world) as [w'|] eqn:E.
  - destruct (revert_stays_reverted (fun _ => None) overtaken_world [] (UnixTime 1130) overtaken w'
      eq_refl) as (H1 & H2 & _).
    + repeat constructor.
    + by left.
    + exact E.
    + cbn. rewrite H1, H2. split; reflexivity.
  - exfalso. revert E. vm_compute. discriminate.
Defined.

(** What [Revert]'s own comment warns of: the store refuses the latch and the
    saved mode, and the process that comes back on it is not reverted, probes
    again and installs the route the revert took down. *)
Definition faulty_world : World :=
  let h := sample_host 2 (UnixTime 1000) (UnixTime 10) (Some "wg-lte1"%string) in
  mkWorld (mkHost (h_e h) (mkStore (st_db (SaveConfig armed_config (h_st h)).2) [true; true; true]) (h_main h)) None Idle.
Definition back_up : list act :=
  ActRestart (UnixTime 1200) None None (fun _ => Some 1)
  :: ((fun k => ActResult (UnixTime (1200 + k)) (mkResult 1 k Millisecond false (UnixTime (1200 + k)))) <$> seqZ 1 10)
  ++ [ActDecide (UnixTime 1300); ActApply None (UnixTime 1300)].
Example refused_latch_forgotten :
  let r := run (fun _ => None) ([ActRevert; ActRevertFinish true (UnixTime 1130)] ++ back_up) faulty_world in
  (e_reverted ∘ h_e ∘ w_host <$> r) = Some false /\ (h_main ∘ w_host <$> r) = Some (Some "wg-main"%string).
Proof. split; vm_compute; reflexivity. Qed.

(** Restricted to the first half of a run without settings saves: what is
    installed is what was decided. *)
Definition route_ok (w : World) : Prop :=
  let e := h_e (w_host w) in
  applying e = true -> e_reverted e = false -> e_active e <> 0 ->
  exists p, PathByID (e_cfg e) (e_active e) = Some p /\ h_main (w_host w) = Some (path_Iface p).
Definition pending_ok (w : World) : Prop :=
  forall pd, w_pending w = Some (pd, false) ->
    e_reverted (h_e (w_host w)) = true
    \/ (pd_cfg pd = e_cfg (h_e (w_host w))
        /\ (pd_chosen pd <> 0 -> exists p, PathByID (pd_cfg pd) (pd_chosen pd) = Some p)).
Definition unswapped (w : World) : Prop :=
  w_phase w = Idle \/ (w_phase w = Reverting /\ e_reverted (h_e (w_host w)) = true).
Definition world_ok (w : World) : Prop := route_ok w /\ pending_ok w /\ unswapped w.

Lemma harmless_ok h h' pd ph :
  world_ok (mkWorld h pd ph) -> harmless h h' -> world_ok (mkWorld h' pd ph).
Proof.
  intros (H1 & H2 & H3) (M & R & A & C & _ & _).
  unfold world_ok, route_ok, pending_ok, unswapped, applying in *.
  cbn [w_host w_pending w_phase] in *. rewrite M, R, A, C. by split_and!.
Qed.

Lemma no_pending_ok h ph pd :
  world_ok (mkWorld h pd ph) -> world_ok (mkWorld h None ph).
Proof. intros (H1 & _ & H3). by split_and!. Qed.

(** A choice that names a path names a configured one. *)
Lemma selectPath_known e cfg now :
  (selectPath e cfg now).1.1.1 <> 0 ->
  exists p, PathByID cfg (selectPath e cfg now).1.1.1 = Some p.
Proof.
  destruct (selectPath_cases e cfg now) as [[Hu ->] | (p & Hn & Hp & ->)].
  - pose proof (auto_choice_safe e cfg now) as H.
    destruct (auto_choice e cfg now) as [[[id held] why] e']. cbn [fst] in *. intros Hne.
    destruct held; [by destruct H |]. destruct H as [_ (p & Hp & <-)].
    by apply path_by_id_elem.
  - unfold pinned_choice. intros _. exists p. by destruct (path_usable e (e_pinned e)).
Qed.

Lemma decide_ok now h ph :
  world_ok (mkWorld h None ph) ->
  let '(pd, e) := evaluate_decide now (h_e h) in
  world_ok (mkWorld (on_engine (fun _ => e) h) ((fun pd => (pd, false)) <$> pd) ph).
Proof.
  intros Hw. pose proof (evaluate_decide_harmless now h) as Hh.
  destruct (evaluate_decide now (h_e h)) as [pd e] eqn:E. cbn [snd] in Hh.
  destruct (harmless_ok _ _ _ _ Hw Hh) as (H1 & _ & H3). split_and!; [done | | done].
  intros pd' Hpd. cbn [w_pending w_host] in *.
  destruct pd as [pd0|]; [| done]. injection Hpd as ->. right.
  destruct Hh as (_ & _ & _ & C & _). cbn [h_e on_engine] in *. rewrite C.
  unfold evaluate_decide in E. destruct (e_reverted (h_e h)); [done |].
  pose proof (selectPath_known (refresh_blocks now (h_e h)) (e_cfg (h_e h)) now) as Hk.
  destruct (selectPath _ _ _) as [[[id held] reason] e']. injection E as <- _. by split.
Qed.

Lemma apply_ok a clock pd h ph :
  world_ok (mkWorld h (Some (pd, false)) ph) ->
  let '(go_on, h') := evaluate_apply a clock pd h in
  world_ok (mkWorld h' (if go_on then Some (pd, true) else None) ph).
Proof.
  intros Hw.
  assert (Hsame : forall b, world_ok (mkWorld h (if b : bool then Some (pd, true) else None) ph)).
  { intros b. destruct Hw as (H1 & _ & H3). split_and!; [done | | done]. intros pd' Hpd.
    by destruct b. }
  unfold evaluate_apply. destruct (negb _ && negb _) eqn:Ec; [| apply (Hsame true)].
  destruct (e_reverted (h_e h)) eqn:Er; [apply (Hsame false) |].
  assert (Hpd := proj1 (proj2 Hw) pd eq_refl). cbn [w_host] in Hpd.
  destruct Hpd as [Hr | [Hc Hp]]; [congruence |].
  apply andb_true_iff in Ec as [Ec _]. apply negb_true_iff, Z.eqb_neq in Ec.
  destruct (Hp Ec) as [p Hpp]. unfold path_or_zero. rewrite Hpp. cbn [default].
  assert (Hcommit : forall h1, h_e h1 = h_e h ->
    (applying (h_e h) = true -> h_main h1 = Some (path_Iface p)) ->
    world_ok (mkWorld (commitSwitch clock pd h1) (Some (pd, true)) ph)).
  { intros h1 He Hm. destruct Hw as (_ & _ & H3). split_and!; [| by intros ? |
      unfold unswapped in *; cbn in *; by rewrite He].
    unfold route_ok, applying. cbn. rewrite He. intros Ha _ _. exists p. rewrite <- Hc.
    split; [done | by apply Hm]. }
  unfold SetActivePath. destruct (applying (h_e h)) eqn:Ea; [| by apply Hcommit].
  destruct a as [err|]; [| by apply Hcommit].
  eapply harmless_ok; [apply (Hsame true) | apply harmless_event].
Qed.

Lemma reconcile_ok ex read a clock h pd ph :
  world_ok (mkWorld h pd ph) -> world_ok (mkWorld (reconcileRouting ex read a clock h) pd ph).
Proof.
  intros Hw. unfold reconcileRouting. destruct (e_reverted (h_e h)); [done |].
  destruct (PathByID _ _) as [ap|] eqn:Ep; [| done].
  destruct (negb _ || _); [done |]. destruct (read && _); [| done].
  unfold SetActivePath. destruct (applying (h_e h)).
  - destruct a as [err|]; [eapply harmless_ok; [exact Hw | apply harmless_event] |].
    eapply harmless_ok; [| apply harmless_event].
    destruct Hw as (_ & H2 & H3). split_and!; [| done | done].
    intros _ _ _. by exists ap.
  - eapply harmless_ok; [exact Hw | apply harmless_event].
Qed.

Lemma world_step LoadLocation a w w' :
  is_save a = false -> is_restart a = false -> world_ok w -> step LoadLocation a w = Some w' ->
  world_ok w'.
Proof.
  intros Hs Hr Hw Hstep. destruct w as [h pd ph].
  assert (Hph : ph = Idle \/ (ph = Reverting /\ e_reverted (h_e h) = true)) by apply Hw.
  destruct a; try discriminate; cbn [step w_host w_pending w_phase] in *; unfold loop, set_host in *;
    cbn [w_host w_pending w_phase] in *.
  - destruct pd; [done |]. pose proof (decide_ok now h ph Hw) as H.
    destruct (evaluate_decide now (h_e h)) as [pd e]. by injection Hstep as <-.
  - destruct pd as [[pd []]|]; [done | | done]. pose proof (apply_ok a clock pd h ph Hw) as H.
    destruct (evaluate_apply a clock pd h) as [b h'].
    destruct ph; try done; by injection Hstep as <-.
  - destruct pd as [[pd []]|]; [| done | done]. injection Hstep as <-.
    eapply no_pending_ok, harmless_ok; [exact Hw | apply evaluate_report_harmless].
  - destruct pd; [done |]. injection Hstep as <-.
    eapply harmless_ok; [exact Hw | apply onResult_harmless].
  - destruct pd; [done |]. injection Hstep as <-.
    eapply harmless_ok; [exact Hw | apply persistSamples_harmless].
  - destruct pd; [done |]. injection Hstep as <-.
    eapply harmless_ok; [exact Hw | apply refreshQuota_harmless].
  - destruct pd; [by destruct ph |]. destruct ph; try done; injection Hstep as <-; by apply reconcile_ok.
  - injection Hstep as <-. eapply harmless_ok; [exact Hw | apply Pin_harmless].
  - injection Hstep as <-. eapply harmless_ok; [exact Hw | apply ClearQuarantine_harmless].
  - injection Hstep as <-. eapply harmless_ok; [exact Hw | apply Approve_harmless].
  - injection Hstep as <-. eapply harmless_ok; [exact Hw | apply RevokeApproval_harmless].
  - destruct ph; try done. injection Hstep as <-. split_and!; [| | right; split; done].
    + intros _ Hrev. discriminate Hrev.
    + intros pd' _. by left.
  - destruct ph; try done. injection Hstep as <-. split_and!; [| | by left].
    + intros Ha. discriminate Ha.
    + intros pd' _. left. by destruct Hph as [? | [_ ?]].
  - by destruct Hph as [-> | [-> _]].
  - by destruct Hph as [-> | [-> _]].
Qed.

Lemma world_run LoadLocation acts : forall w w',
  Forall (fun a => is_save a = false /\ is_restart a = false) acts -> world_ok w ->
  run LoadLocation acts w = Some w' -> world_ok w'.
Proof.
  induction acts as [|a acts IH] using rev_ind; intros w w' Hs Hw Hr; [by injection Hr as <- |].
  apply Forall_app in Hs as [Hs Ha]. inversion_clear Ha. rewrite run_snoc in Hr.
  destruct (run LoadLocation acts w) as [w1|] eqn:E; [| done].
  eapply world_step; [apply H | apply H | by eapply IH | exact Hr].
Qed.

(** [C2] Armed, the kernel sends the published traffic where the engine says it
    does.  Start from a system whose route is the active path's; through any
    interleaving of decisions, installs the kernel accepts or refuses, probe
    results, repairs, pins, approvals and reverts, whenever a path is active
    and the mode is armed the kernel's route goes out of that path's tunnel: a
    switch is never recorded that the kernel did not take. *)
Theorem route_follows_decision LoadLocation acts h w' :
  e_reverted (h_e h) = false -> e_active (h_e h) <> 0 ->
  (exists p, PathByID (e_cfg (h_e h)) (e_active (h_e h)) = Some p
             /\ h_main h = Some (path_Iface p)) ->
  Forall (fun a => is_save a = false /\ is_restart a = false) acts ->
  run LoadLocation acts (mkWorld h None Idle) = Some w' ->
  let e := h_e (w_host w') in
  cfg_Mode (e_cfg e) = ModeArmed -> e_reverted e = false -> e_active e <> 0 ->
  exists p, PathByID (e_cfg e) (e_active e) = Some p /\ h_main (w_host w') = Some (path_Iface p).
Proof.
  intros Hr Ha Hm Hs Hrun e Hmode.
  assert (Hw : world_ok (mkWorld h None Idle)).
  { split_and!; [by intros _ _ _ | by intros pd Hpd | by left]. }
  destruct (world_run LoadLocation acts _ w' Hs Hw Hrun) as [H _]. apply H.
  unfold applying. fold e. by rewrite Hmode.
Qed.

(** The preferred tunnel's return: a refused install, then an accepted one. *)
Definition return_acts : list act :=
  [ActDecide (UnixTime 1130); ActApply (Some "no such device"%string) (UnixTime 1130);
   ActReport (UnixTime 1130);
   ActDecide (UnixTime 1131); ActApply None (UnixTime 1131); ActPin 0 (UnixTime 1131);
   ActReport (UnixTime 1131)].

Lemma route_follows_decision_witness :
  let r := run (fun _ => None) return_acts
             (mkWorld (sample_host 2 (UnixTime 1000) (UnixTime 10) (Some "wg-lte1"%string)) None Idle) in
  (e_active ∘ h_e ∘ w_host <$> r) = Some 1 /\ (h_main ∘ w_host <$> r) = Some (Some "wg-main"%string).
Proof.
  destruct (run (fun _ => None) return_acts
    (mkWorld (sample_host 2 (UnixTime 1000) (UnixTime 10) (Some "wg-lte1"%string)) None Idle))
    as [w'|] eqn:E; [| exfalso; revert E; vm_compute; discriminate].
  assert (He : (e_active (h_e (w_host w')), cfg_Mode (e_cfg (h_e (w_host w'))),
                e_reverted (h_e (w_host w')),
                path_Iface <$> PathByID (e_cfg (h_e (w_host w'))) 1)
               = (1, ModeArmed, false, Some "wg-main"%string)).
  { assert (H : (fun w => (e_active (h_e (w_host w)), cfg_Mode (e_cfg (h_e (w_host w))),
                e_reverted (h_e (w_host w)),
                path_Iface <$> PathByID (e_cfg (h_e (w_host w))) 1)) <$> Some w'
               = Some (1, ModeArmed, false, Some "wg-main"%string)).
    { rewrite <- E. vm_compute. reflexivity. }
    cbn in H. congruence. }
  injection He as He1 He2 He3 He4.
  destruct (route_follows_decision (fun _ => None) return_acts
    (sample_host 2 (UnixTime 1000) (UnixTime 10) (Some "wg-lte1"%string)) w') as (p & Hp & Hm).
  - reflexivity.
  - discriminate.
  - exists sample_active. split; vm_compute; reflexivity.
  - repeat constructor.
  - exact E.
  - exact He2.
  - exact He3.
  - rewrite He1. discriminate.
  - cbn. rewrite He1 in Hp |- *. rewrite Hm. split; [reflexivity |].
    rewrite Hp in He4. cbn in He4. exact (f_equal Some He4).
Defined.

(** A configuration in which the preferred path has moved to another tunnel. *)
Definition set_cfg_Paths (ps : list PathConfig) (c : Config) : Config :=
  mkConfig (cfg_Mode c) (cfg_Frontend c) (cfg_Overlay c) ps (cfg_Probe c) (cfg_Failover c)
    (cfg_Services c) (cfg_Linkers c) (cfg_BackendLAN c) (cfg_Egress c) (cfg_Notify c)
    (cfg_Protect c) (cfg_QueryCache c) (cfg_Blocklist c).
Definition moved_config : Config :=
  set_cfg_Paths (match cfg_Paths armed_config with
    | p :: ps => mkPathConfig (path_ID p) (path_Name p) "wg-new" (path_Priority p) (path_Table p)
                   (path_Mark p) (path_Enabled p) (path_Metered p) (path_Quota p) (path_Shape p) :: ps
    | [] => [] end) armed_config.

(** A settings save that lands between a decision and its install: the install
    uses the configuration the decision was taken on, so the active path's
    route is put on the tunnel the operator has just moved it off. *)
Theorem stale_install_after_save :
  let r := run (fun _ => None)
    [ActDecide (UnixTime 1130); ActSave moved_config; ActSystem None None (UnixTime 1130);
     ActApply None (UnixTime 1130); ActReport (UnixTime 1131)]
    (mkWorld (sample_host 2 (UnixTime 1000) (UnixTime 10) (Some "wg-lte1"%string)) None Idle) in
  (fun w => (e_active (h_e (w_host w)), h_main (w_host w),
             path_Iface <$> PathByID (e_cfg (h_e (w_host w))) 1)) <$> r
  = Some (1, Some "wg-main"%string, Some "wg-new"%string).
Proof. vm_compute. reflexivity. Qed.

(** ** One decision, to the end *)

(** Refreshing the blocks writes the same verdicts whatever was there. *)
Definition block_fold (now : Time) (e : Engine) (ps : list PathConfig) (bs : gmap Z Block) : gmap Z Block :=
  fold_left (fun bs p => match e_trackers e !! path_ID p with
                         | None => bs
                         | Some tr => <[path_ID p := block_verdict now p tr e]> bs end) ps bs.

Lemma refresh_blocks_fold now e bs :
  refresh_blocks now (with_blocks bs e) = with_blocks (block_fold now e (cfg_Paths (e_cfg e)) bs) e.
Proof.
  unfold refresh_blocks, block_fold. cbn [e_cfg with_blocks].
  generalize (cfg_Paths (e_cfg e)) as ps. intros ps. revert bs.
  induction ps as [|p ps IH]; intros bs; [done |]. cbn [fold_left]. rewrite <- IH. f_equal.
  unfold refresh_block. cbn [e_trackers with_blocks]. by destruct (e_trackers e !! path_ID p).
Qed.

Lemma block_fold_lookup now e ps k :
  (exists v, forall bs, block_fold now e ps bs !! k = Some v)
  \/ (forall bs, block_fold now e ps bs !! k = bs !! k).
Proof.
  induction ps as [|p ps IH] using rev_ind; [by right |].
  assert (Hs : forall bs, block_fold now e (ps ++ [p]) bs
    = match e_trackers e !! path_ID p with
      | None => block_fold now e ps bs
      | Some tr => <[path_ID p := block_verdict now p tr e]> (block_fold now e ps bs) end).
  { intros bs. unfold block_fold. by rewrite fold_left_app. }
  destruct (e_trackers e !! path_ID p) as [tr|].
  - destruct (decide (path_ID p = k)) as [<- | Hne].
    + left. eexists. intros bs. rewrite Hs. apply lookup_insert_eq.
    + destruct IH as [[v IH] | IH]; [left; exists v | right]; intros bs;
        rewrite Hs, lookup_insert_ne by done; apply IH.
  - destruct IH as [[v IH] | IH]; [left; exists v | right]; intros bs; rewrite Hs; apply IH.
Qed.

Lemma block_fold_idem now e ps bs :
  block_fold now e ps (block_fold now e ps bs) = block_fold now e ps bs.
Proof.
  apply map_eq. intros k. destruct (block_fold_lookup now e ps k) as [[v H] | H]; by rewrite !H.
Qed.

(** Deciding again on what a decision left behind. *)
Definition since_of (e : Engine) (now : Time) : Time :=
  if IsZero (e_beatenSince e) then now else e_beatenSince e.

Lemma quality_choice_since e cfg target hold now :
  beatsByMargin e target (e_active e) cfg = true ->
  quality_choice e cfg target hold now
  = quality_choice (with_beatenSince (since_of e now) e) cfg target hold now
  /\ (quality_choice e cfg target hold now).2 = with_beatenSince (since_of e now) e.
Proof.
  intros E. unfold quality_choice.
  assert (Hb : beatsByMargin (with_beatenSince (since_of e now) e) target (e_active e) cfg = true)
    by done.
  cbn [e_active with_beatenSince]. rewrite E, Hb. cbn [negb]. unfold since_of. cbn [e_beatenSince].
  destruct (IsZero (e_beatenSince e)) eqn:Ez; cbn [e_beatenSince with_beatenSince].
  - split; [by destruct (IsZero now) |]. by repeat split_if.
  - rewrite Ez. replace (with_beatenSince (e_beatenSince e) e) with e by by destruct e.
    split; [done |]. by repeat split_if.
Qed.

Lemma quality_choice_again e cfg target hold now :
  (quality_choice (quality_choice e cfg target hold now).2 cfg target hold now).1
  = (quality_choice e cfg target hold now).1.
Proof.
  destruct (beatsByMargin e target (e_active e) cfg) eqn:E.
  - destruct (quality_choice_since e cfg target hold now E) as [H1 H2]. by rewrite H2, <- H1.
  - assert (H : quality_choice e cfg target hold now
                = ((e_active e, false, ""%string), with_beatenSince zeroTime e)).
    { unfold quality_choice. by rewrite E. }
    rewrite H. unfold quality_choice. cbn [snd fst e_active with_beatenSince].
    assert (Hb : beatsByMargin (with_beatenSince zeroTime e) target (e_active e) cfg = false) by done.
    by rewrite Hb.
Qed.

Lemma failback_again e target hold now :
  (failback (failback e target hold now).2 target hold now).1 = (failback e target hold now).1.
Proof.
  unfold failback. destruct (e_trackers e !! target) as [tr|] eqn:E;
    [destruct (hold <=? CleanFor now tr) eqn:Eh |]; cbn [snd fst e_trackers with_beatenSince e_active];
    rewrite E; by rewrite ?Eh.
Qed.

Lemma challenge_again e cfg target a now :
  (challenge (challenge e cfg target a now).2 cfg target a now).1 = (challenge e cfg target a now).1.
Proof.
  unfold challenge. cbv zeta. repeat split_if;
    first [apply failback_again | apply quality_choice_again | done].
Qed.

Lemma working_beaten t e cfg : working (with_beatenSince t e) cfg = working e cfg.
Proof. done. Qed.

Lemma selectPath_again e cfg now :
  (selectPath (selectPath e cfg now).2 cfg now).1 = (selectPath e cfg now).1.
Proof.
  destruct (selectPath_cases e cfg now) as [[Hu Hs] | (p & Hn & Hp & Hs)]; rewrite Hs;
    [| cbn [snd]; by rewrite Hs].
  destruct (auto_choice_frame e cfg now) as [t Ht]. rewrite Ht.
  rewrite selectPath_auto by exact Hu.
  destruct (eligible_paths e cfg) as [|top rest] eqn:He.
  { unfold auto_choice. change (eligible_paths (with_beatenSince t e) cfg) with (eligible_paths e cfg).
    by rewrite He. }
  destruct (auto_choice_eq e cfg now top rest He) as [t1 H1].
  destruct (auto_choice_eq (with_beatenSince t e) cfg now top rest He) as [t2 H2].
  rewrite H2. rewrite H1 in Ht |- *. rewrite working_beaten.
  replace (target_of (with_beatenSince t e) cfg top rest) with (target_of e cfg top rest)
    by (symmetry; exact (target_switch e cfg (e_active e) (e_decisionSeq e) t (e_lastSwitch e) top rest)).
  destruct (working e cfg) as [a|]; [| done].
  cbn [e_active with_beatenSince]. split_if; [done |]. rewrite <- Ht. apply challenge_again.
Qed.

(** What the portal shows of a hold plays no part in the next decision. *)
Lemma best_score_held e cfg hd r ps : forall best s,
  best_score (with_held hd r e) cfg best s ps = best_score e cfg best s ps.
Proof. induction ps as [|p ps IH]; intros best s; [done |]. simpl. rewrite !IH. done. Qed.

Lemma challenge_held e cfg target a now hd r :
  (challenge (with_held hd r e) cfg target a now).1 = (challenge e cfg target a now).1.
Proof.
  unfold challenge. cbv zeta.
  assert (Hf : forall hold, (failback (with_held hd r e) (path_ID target) hold now).1
    = (failback e (path_ID target) hold now).1).
  { intros hold. unfold failback. cbn [e_trackers with_held e_active].
    destruct (e_trackers e !! path_ID target) as [tr|]; [| done]. by destruct (hold <=? _). }
  repeat split_if; rewrite ?Hf; try done.
  unfold quality_choice.
  change (beatsByMargin (with_held hd r e) (path_ID target) (e_active (with_held hd r e)) cfg)
    with (beatsByMargin e (path_ID target) (e_active e) cfg).
  cbn [e_beatenSince with_held]. destruct (beatsByMargin _ _ _ _); cbn [negb]; [| done].
  destruct (IsZero (e_beatenSince e));
    cbn [e_beatenSince with_held with_beatenSince e_lastSwitch e_active]; by repeat split_if.
Qed.

Lemma selectPath_held e cfg now hd r :
  (selectPath (with_held hd r e) cfg now).1 = (selectPath e cfg now).1.
Proof.
  destruct (selectPath_cases e cfg now) as [[Hu Hs] | (p & Hn & Hp & Hs)]; rewrite Hs.
  - rewrite selectPath_auto by exact Hu.
    destruct (eligible_paths e cfg) as [|top rest] eqn:He.
    { unfold auto_choice. change (eligible_paths (with_held hd r e) cfg) with (eligible_paths e cfg).
      by rewrite He. }
    destruct (auto_choice_eq e cfg now top rest He) as [t1 ->].
    destruct (auto_choice_eq (with_held hd r e) cfg now top rest He) as [t2 ->].
    replace (target_of (with_held hd r e) cfg top rest) with (target_of e cfg top rest)
      by (unfold target_of, qualityTarget; by rewrite best_score_held).
    change (working (with_held hd r e) cfg) with (working e cfg).
    destruct (working e cfg) as [a|]; [| done]. cbn [e_active with_held].
    split_if; [done |]. apply challenge_held.
  - unfold selectPath. cbn [e_pinned with_held]. apply Z.eqb_neq in Hn. rewrite Hn. cbn [negb].
    rewrite Hp. done.
Qed.

Lemma evaluate_decide_some now e pd e1 :
  evaluate_decide now e = (Some pd, e1) ->
  e_reverted e = false /\ pd_cfg pd = e_cfg e /\ pd_now pd = now /\ pd_prevActive pd = e_active e
  /\ pd_chosen pd = (selectPath (refresh_blocks now e) (e_cfg e) now).1.1.1
  /\ exists t hd r bs, e1 = with_held hd r (with_beatenSince t (with_blocks bs e))
       /\ bs = block_fold now e (cfg_Paths (e_cfg e)) (e_blocks e)
       /\ with_beatenSince t (with_blocks bs e) = (selectPath (refresh_blocks now e) (e_cfg e) now).2.
Proof.
  unfold evaluate_decide. destruct (e_reverted e); [done |].
  set (bs := block_fold now e (cfg_Paths (e_cfg e)) (e_blocks e)).
  assert (Hbs : refresh_blocks now e = with_blocks bs e).
  { pose proof (refresh_blocks_fold now e (e_blocks e)) as H.
    by replace (with_blocks (e_blocks e) e) with e in H by by destruct e. }
  rewrite Hbs. destruct (selectPath_frame (with_blocks bs e) (e_cfg e) now) as [t Ht].
  destruct (selectPath _ _ _) as [[[id held] reason] e']. cbn [snd fst] in *. subst e'.
  intros [= <- <-]. split_and!; try done. by exists t, held, reason, bs.
Qed.

(** The state a decision leaves behind leads to the same decision. *)
Lemma evaluate_decide_again now e pd e1 :
  evaluate_decide now e = (Some pd, e1) ->
  exists pd' e2, evaluate_decide now e1 = (Some pd', e2) /\ pd_chosen pd' = pd_chosen pd.
Proof.
  intros H. destruct (evaluate_decide_some now e pd e1 H)
    as (Hr & _ & _ & _ & Hid & t & hd & r & bs & He1 & Hbs & Hsel).
  destruct (evaluate_decide now e1) as [[pd'|] e2] eqn:E.
  - destruct (evaluate_decide_some now e1 pd' e2 E) as (_ & _ & _ & _ & Hid' & _).
    exists pd', e2. split; [done |]. rewrite Hid', Hid.
    assert (Hre : refresh_blocks now e1 = e1).
    { subst e1. change (with_held hd r (with_beatenSince t (with_blocks bs e)))
        with (with_blocks bs (with_held hd r (with_beatenSince t e))) at 1.
      rewrite refresh_blocks_fold. cbn [e_cfg with_held with_beatenSince].
      change (block_fold now (with_held hd r (with_beatenSince t e)) (cfg_Paths (e_cfg e)) bs)
        with (block_fold now e (cfg_Paths (e_cfg e)) bs).
      rewrite Hbs at 1. rewrite block_fold_idem, <- Hbs. done. }
    rewrite Hre, He1. cbn [e_cfg with_held with_beatenSince with_blocks].
    rewrite selectPath_held, Hsel. by rewrite selectPath_again.
  - exfalso. assert (Hr1 : e_reverted e1 = false) by by rewrite He1.
    unfold evaluate_decide in E. rewrite Hr1 in E. by destruct (selectPath (refresh_blocks now e1) (e_cfg e1) now) as [[[? ?] ?] ?].
Qed.

Lemma evaluate_report_engine clock pd h :
  h_e (evaluate_report clock pd h) = h_e h /\ h_main (evaluate_report clock pd h) = h_main h.
Proof. unfold evaluate_report. by repeat split_if. Qed.

(** [C12] Install, then record.  A decision that names a new path asks the kernel
    first.  Accepted (or in observe mode, where nothing is asked), the path is
    active, the decision number has gone up by exactly one, the switch is
    dated, and every prober is nudged and told whether it is the active one.
    Refused, nothing of that has changed, the kernel's route is what it was,
    and the next decision on the same evidence names the same path, so the
    install is tried again.  A decision that names no new path changes none of
    it either. *)
Theorem evaluate_exact now a clock h pd e1 :
  evaluate_decide now (h_e h) = (Some pd, e1) ->
  let h' := evaluate now a clock h in
  let e := h_e h in let e' := h_e h' in
  let switching := pd_chosen pd <> 0 /\ pd_chosen pd <> e_active e in
  let accepted := applying e = false \/ a = None in
  (switching -> accepted ->
     e_active e' = pd_chosen pd /\ e_decisionSeq e' = u64 (e_decisionSeq e + 1)
     /\ e_lastSwitch e' = now
     /\ (forall id pr, e_probers e !! id = Some pr ->
           e_probers e' !! id = Some (Nudge (SetActive (id =? pd_chosen pd) pr)))
     /\ (applying e = true -> h_main h' = Some (path_Iface (path_or_zero (e_cfg e) (pd_chosen pd)))))
  /\ (~ (switching /\ accepted) ->
     e_active e' = e_active e /\ e_decisionSeq e' = e_decisionSeq e
     /\ e_lastSwitch e' = e_lastSwitch e /\ e_probers e' = e_probers e /\ h_main h' = h_main h
     /\ exists pd' e2, evaluate_decide now e' = (Some pd', e2) /\ pd_chosen pd' = pd_chosen pd).
Proof.
  intros Hd h' e e' switching accepted. subst h' e e'.
  destruct (evaluate_decide_some now (h_e h) pd e1 Hd)
    as (Hr & Hcfg & Hnow & Hprev & _ & t & hd & r & bs & He1 & _ & _).
  assert (Hframe : e_active e1 = e_active (h_e h) /\ e_decisionSeq e1 = e_decisionSeq (h_e h)
    /\ e_lastSwitch e1 = e_lastSwitch (h_e h) /\ e_probers e1 = e_probers (h_e h)
    /\ e_reverted e1 = false /\ applying e1 = applying (h_e h)) by by rewrite He1.
  destruct Hframe as (F1 & F2 & F3 & F4 & F5 & F6).
  destruct (evaluate_decide_again now (h_e h) pd e1 Hd) as (pd' & e2 & Hagain & Hsame).
  unfold evaluate. rewrite Hd. unfold evaluate_apply. cbn [h_e on_engine]. rewrite Hprev, F5.
  destruct (Z.eqb_spec (pd_chosen pd) 0) as [Hz | Hz]; cbn [negb andb].
  { destruct (evaluate_report_engine clock pd (on_engine (fun _ => e1) h)) as [-> ->].
    split; [by intros [? _] |]. intros _. split_and!; try done. by exists pd', e2. }
  destruct (Z.eqb_spec (pd_chosen pd) (e_active (h_e h))) as [Hsw | Hsw]; cbn [negb].
  { destruct (evaluate_report_engine clock pd (on_engine (fun _ => e1) h)) as [-> ->].
    split; [by intros [_ ?] |]. intros _. split_and!; try done. by exists pd', e2. }
  unfold SetActivePath. cbn [h_e on_engine]. rewrite F6.
  assert (Hcommit : forall h1, h_e h1 = e1 ->
    let e' := h_e (evaluate_report clock pd (commitSwitch clock pd h1)) in
    e_active e' = pd_chosen pd /\ e_decisionSeq e' = u64 (e_decisionSeq (h_e h) + 1)
    /\ e_lastSwitch e' = now
    /\ (forall id pr, e_probers (h_e h) !! id = Some pr ->
          e_probers e' !! id = Some (Nudge (SetActive (id =? pd_chosen pd) pr)))
    /\ h_main (evaluate_report clock pd (commitSwitch clock pd h1)) = h_main h1).
  { intros h1 Hh1 e'. subst e'.
    destruct (evaluate_report_engine clock pd (commitSwitch clock pd h1)) as [-> ->].
    unfold commitSwitch, add_event. cbn [h_e h_main e_active with_switch with_probers e_decisionSeq
      e_lastSwitch e_probers]. rewrite Hh1, F2. split_and!; try done.
    intros id pr Hpr. rewrite map_lookup_imap, F4, Hpr. done. }
  destruct (applying (h_e h)) eqn:Ea.
  - destruct a as [err|].
    + destruct (evaluate_report_engine clock pd (add_event clock EventSystem (pd_chosen pd)
        "failed to install route via %s: %v"
        [AStr (path_Iface (path_or_zero (pd_cfg pd) (pd_chosen pd))); AStr err]
        (on_engine (fun _ => e1) h))) as [-> ->].
      split; [by intros _ [? | ?] |]. intros _. split_and!; try done. by exists pd', e2.
    + destruct (Hcommit (mkHost e1 (h_st h) (Some (path_Iface (path_or_zero (pd_cfg pd) (pd_chosen pd)))))
        eq_refl) as (C1 & C2 & C3 & C4 & C5).
      split; [| intros Hn; exfalso; apply Hn; split; [done | by right]].
      intros _ _. split_and!; try done. intros _. rewrite <- Hcfg. exact C5.
  - destruct (Hcommit (on_engine (fun _ => e1) h) eq_refl) as (C1 & C2 & C3 & C4 & C5).
    split; [| intros Hn; exfalso; apply Hn; split; [done | by left]].
    intros _ _. by split_and!.
Qed.

Lemma evaluate_exact_witness :
  let h := sample_host 2 (UnixTime 1000) (UnixTime 10) (Some "wg-lte1"%string) in
  e_active (h_e (evaluate (UnixTime 1130) None (UnixTime 1130) h)) = 1
  /\ e_decisionSeq (h_e (evaluate (UnixTime 1130) None (UnixTime 1130) h)) = 78.
Proof.
  destruct (evaluate_decide (UnixTime 1130)
    (h_e (sample_host 2 (UnixTime 1000) (UnixTime 10) (Some "wg-lte1"%string)))) as [[pd|] e1] eqn:E.
  - assert (Hc : pd_chosen pd = 1).
    { assert (H : pd_chosen <$> Some pd = Some 1).
      { change (Some pd) with (fst (Some pd, e1)). rewrite <- E. vm_compute. reflexivity. }
      by injection H. }
    destruct (evaluate_exact (UnixTime 1130) None (UnixTime 1130)
      (sample_host 2 (UnixTime 1000) (UnixTime 10) (Some "wg-lte1"%string)) pd e1 E) as [H _].
    destruct H as (H1 & H2 & _).
    + rewrite Hc. split; vm_compute; discriminate.
    + right. reflexivity.
    + rewrite Hc in H1. split; [exact H1 | exact H2].
  - exfalso. revert E. vm_compute. discriminate.
Defined.

(** ** The quota verdicts *)

Section verdicts.
Context (LoadLocation : string -> option Location).

(** What the ledger has for a path's current period. *)
Definition used_now (d : DB) (p : PathConfig) (now : Time) : Z :=
  match db_ledger d !! (path_ID p, Unix (PeriodBounds LoadLocation (path_Quota p) now).1) with
  | Some (b, _) => b | None => 0 end.
Definition verdict (d : DB) (p : PathConfig) (now : Time) : Decision :=
  Evaluate LoadLocation p (used_now d p now) (db_grants d !! path_ID p) now.

Lemma query_cases {A} (f : DB -> A) st :
  st_db (query f st).2 = st_db st
  /\ ((query f st).1 = Ok (f (st_db st)) \/ (exists e, (query f st).1 = Err e) /\ st_faults st <> [])
  /\ (st_faults st = [] -> st_faults (query f st).2 = []).
Proof.
  unfold query, sbind, call. destruct (st_faults st) as [|[] fs] eqn:E; cbn.
  - rewrite E. split_and!; [done | by left | done].
  - split_and!; [done | right; split; [by eexists | done] | done].
  - split_and!; [done | by left | done].
Qed.

Definition verdict_ok (d : DB) (now : Time) (previous ds : gmap Z Decision) (faultless : Prop)
    (p : PathConfig) : Prop :=
  ds !! path_ID p = Some (verdict d p now)
  \/ (~ faultless /\ ds !! path_ID p = previous !! path_ID p).

Lemma quota_loop_ok d now previous (faultless : Prop) ps : forall st,
  st_db st = d -> (faultless -> st_faults st = []) -> NoDup (path_ID <$> ps) ->
  let r := fold_left (quota_step LoadLocation now (db_grants d) previous) ps (∅, st) in
  st_db r.2 = d /\ (faultless -> st_faults r.2 = [])
  /\ (forall p, p ∈ ps -> verdict_ok d now previous r.1 faultless p)
  /\ (forall k, k ∉ path_ID <$> ps -> r.1 !! k = None).
Proof.
  induction ps as [|p ps IH] using rev_ind; intros st Hd Hf Hnd r.
  { split_and!; [done | done | | done]. intros p Hp. by apply elem_of_nil in Hp. }
  rewrite fmap_app in Hnd. apply NoDup_app in Hnd as (Hnd & Hfresh & _).
  destruct (IH st Hd Hf Hnd) as (H1 & H2 & H3 & H4). subst r. rewrite fold_left_app. cbn [fold_left].
  destruct (fold_left _ ps (∅, st)) as [ds st'] eqn:E. cbn [fst snd] in *.
  assert (Hp : path_ID p ∉ path_ID <$> ps).
  { intros Hin. apply (Hfresh _ Hin). by left. }
  assert (Hold : forall x v q, q ∈ ps -> x = <[path_ID p := v]> ds \/ x = ds ->
    verdict_ok d now previous x faultless q).
  { intros x v q Hq Hx. specialize (H3 q Hq). unfold verdict_ok in *.
    destruct Hx as [-> | ->]; [| done]. rewrite lookup_insert_ne; [done |].
    intros Heq. apply Hp. rewrite Heq. by apply list_elem_of_fmap_2. }
  unfold quota_step, Store.Usage.
  destruct (query_cases (fun d => match db_ledger d !!
    (path_ID p, Unix (PeriodBounds LoadLocation (path_Quota p) now).1) with
    | Some (b, _) => b | None => 0 end) st') as (Q1 & Q2 & Q3).
  destruct (query _ st') as [[used|e] st'']; cbn [fst snd] in *.
  - destruct Q2 as [[= ->] | [[? ?] _]]; [| done]. split_and!; [congruence | auto | |].
    + intros q [Hq | Hq%list_elem_of_singleton]%elem_of_app; [eapply Hold; [done | by left] |].
      subst q. left. unfold verdict, used_now. rewrite lookup_insert_eq, <- H1. done.
    + intros k Hk. rewrite fmap_app, elem_of_app in Hk. rewrite lookup_insert_ne.
      * apply H4. naive_solver.
      * intros <-. apply Hk. right. by left.
  - destruct Q2 as [? | [_ Hnf]]; [done |]. split_and!; [congruence | | |].
    + intros Hfl. by destruct (Hnf (H2 Hfl)).
    + intros q [Hq | Hq%list_elem_of_singleton]%elem_of_app.
      * destruct (previous !! path_ID p) as [v|]; cbn [fst]; [eapply Hold; [done | by left] | by apply H3].
      * subst q. right. split; [auto |].
        destruct (previous !! path_ID p) as [v|] eqn:Ev; cbn [fst]; [apply lookup_insert_eq | by apply H4].
    + intros k Hk. rewrite fmap_app, elem_of_app in Hk.
      destruct (previous !! path_ID p) as [v|]; cbn [fst]; [| apply H4; naive_solver].
      rewrite lookup_insert_ne; [apply H4; naive_solver |]. intros <-. apply Hk. right. by left.
Qed.

Lemma quota_events_engine now cfg prev l : forall h,
  h_e (fold_left (quota_event now cfg prev) l h) = h_e h.
Proof.
  induction l as [|[id d] l IH]; intros h; [done |]. cbn [fold_left]. rewrite IH.
  unfold quota_event. by repeat split_if.
Qed.

Lemma refreshQuota_verdicts now h p :
  NoDup (path_ID <$> cfg_Paths (e_cfg (h_e h))) -> p ∈ cfg_Paths (e_cfg (h_e h)) ->
  let d := st_db (h_st h) in
  let new := e_quotaDec (h_e (refreshQuota LoadLocation now h)) !! path_ID p in
  (st_faults (h_st h) = [] -> new = Some (verdict d p now))
  /\ (new = Some (verdict d p now) \/ new = e_quotaDec (h_e h) !! path_ID p).
Proof.
  intros Hnd Hp d new. subst new. unfold refreshQuota, Grants.
  destruct (query_cases db_grants (h_st h)) as (Q1 & Q2 & Q3).
  destruct (query db_grants (h_st h)) as [[grants|e] st]; cbn [fst snd] in *.
  - destruct Q2 as [[= ->] | [[? ?] _]]; [| done].
    destruct (quota_loop_ok d now (e_quotaDec (h_e h)) (st_faults (h_st h) = [])
      (cfg_Paths (e_cfg (h_e h))) st Q1 Q3 Hnd) as (_ & _ & H3 & _).
    subst d. destruct (fold_left _ _ (∅, st)) as [ds st'].
    rewrite quota_events_engine. cbn [h_e e_quotaDec with_quotaDec fst] in *.
    destruct (H3 p Hp) as [H | [Hn H]]; split; auto. by intros.
  - destruct Q2 as [? | [_ Hnf]]; [done |]. cbn [h_e]. split; [by intros ? | by right].
Qed.
End verdicts.

(** [C37] The quota verdicts fail closed.  A refresh gives every configured path
    the verdict its ledger and its grant earn; when the database fails, before
    or in the middle, a path has either that verdict or the one it had.  So a
    path that is blocked, and should be, stays blocked whatever the database
    does: an unreadable ledger never opens a path that is over its cap. *)
Theorem refreshQuota_fails_closed LoadLocation now h p :
  NoDup (path_ID <$> cfg_Paths (e_cfg (h_e h))) -> p ∈ cfg_Paths (e_cfg (h_e h)) ->
  let v := verdict LoadLocation (st_db (h_st h)) p now in
  let e' := h_e (refreshQuota LoadLocation now h) in
  (st_faults (h_st h) = [] -> e_quotaDec e' !! path_ID p = Some v)
  /\ (quota_blocked (h_e h) (path_ID p) = true -> dec_Blocked v = true ->
      quota_blocked e' (path_ID p) = true).
Proof.
  intros Hnd Hp v e'. destruct (refreshQuota_verdicts LoadLocation now h p Hnd Hp) as [H1 H2].
  split; [exact H1 |]. unfold quota_blocked. intros Hb Hv.
  destruct H2 as [H2 | H2]; unfold e'; rewrite H2; done.
Qed.

(** The second path, over its 60 GiB. *)
Definition over_quota_host (faults : list bool) : Host :=
  let d := set_ledger {[ (2, Unix (PeriodBounds (fun _ => None) (path_Quota sample_active)
                                     (UnixTime 1700000000)).1) := (Z.shiftl 1 40, 0) ]} emptyDB in
  (refreshQuota (fun _ => None) (UnixTime 1700000000)
     (mkHost (sample_engine 1 zeroTime zeroTime) (mkStore d faults) None)).

Lemma refreshQuota_fails_closed_witness :
  let h := over_quota_host [] in
  let broken := mkHost (h_e h) (mkStore (st_db (h_st h)) [false; false; true]) None in
  quota_blocked (h_e (refreshQuota (fun _ => None) (UnixTime 1700000000) broken)) 2 = true.
Proof.
  apply (refreshQuota_fails_closed (fun _ => None) (UnixTime 1700000000)
    (mkHost (h_e (over_quota_host [])) (mkStore (st_db (h_st (over_quota_host [])))
      [false; false; true]) None) sample_active).
  - vm_compute. repeat constructor; rewrite ?elem_of_cons, ?elem_of_nil; naive_solver.
  - change (sample_active ∈ cfg_Paths Defaults). right. left.
  - vm_compute. reflexivity.
  - vm_compute. reflexivity.
Defined.
