(* ===== verification/Peers.v ===== *)
(** * The two ends of a control connection ([internal/engine/control.go],
    [internal/agent/client.go], [internal/linker/client.go])

    The frontend answers a dialler with a challenge, both prove they hold the
    shared secret, and every frame after that is authenticated.  [serve] is one
    connection at the frontend, from the challenge to what it leaves behind;
    [dial_handshake] and the two clients are the other end.  A connection is a
    stream of the bytes that arrive and the answers its writes get. *)

From S2P Require Import Prelude GoTime Float64 Model Bytes Sha256 Decimal Wire Store Quota Control Registry Prober Tracker Select Engine Messages Session.

(** ** Payloads *)

Inductive framePayload :=
| PChallenge (nonce : bytes) | PAuth (mac nonce : bytes) | PAuthAck (mac : bytes) | PHello (h : Hello)
| PConfig (c : BackendConfig) | PUsage (u : Messages.Usage) | PUsageAck (a : UsageAck) | PLink (links : list LinkInfo)
| PLinkerConfig (cidrs : list string).

(** JSON of the payloads: a decoder answers [None] for an error.  A hello that
    is not one leaves what was read of it. *)
Class PayloadCodec := {
  pc_env :: EnvelopeCodec framePayload;
  dec_challenge : bytes -> option bytes;
  dec_auth : bytes -> option (bytes * bytes);
  dec_ack : bytes -> option bytes;
  dec_hello : bytes -> Hello * bool;
  dec_config : bytes -> option BackendConfig;
  dec_usage : bytes -> option Messages.Usage;
  dec_usage_ack : bytes -> option UsageAck;
  dec_link : bytes -> option (list LinkInfo);
  dec_linker_config : bytes -> option (list string);
  challenge_roundtrip n d : Forall (fun c => is_hex c = true) n -> marshal_payload (PChallenge n) = Some d ->
    d <> [] /\ dec_challenge d = Some n;
  auth_roundtrip m n d : Forall (fun c => is_hex c = true) (m ++ n) -> marshal_payload (PAuth m n) = Some d ->
    d <> [] /\ dec_auth d = Some (m, n);
  ack_roundtrip m d : Forall (fun c => is_hex c = true) m -> marshal_payload (PAuthAck m) = Some d ->
    d <> [] /\ dec_ack d = Some m }.

(** [DecodeInto]: an empty payload leaves the zero value. *)
Definition decode_into {A} (zero : A) (dec : bytes -> option A) (env : Envelope) : option A :=
  match env_Data env with [] => Some zero | d => dec d end.
Definition zero_hello : Hello := mkHello "" "" "" "" 0.
Definition decode_hello {C : PayloadCodec} (env : Envelope) : Hello * bool :=
  match env_Data env with [] => (zero_hello, true) | d => dec_hello d end.

Definition is_type (typ : bytes) (env : Envelope) : bool := bytes_eqb (env_Type env) typ.

Section peers.
Context {C : PayloadCodec}.

(** ** The dialling end *)

Inductive dial_end :=
| DialRead (e : frame_error) | DialNotChallenge | DialUnusable | DialWrite | DialUnproven | DialNoSession.

(** The handshake of [runSession] and of the linker's [session], which are the
    same: the session and what is left of the stream, and the frame written.
    [sent] is whether the connection took it. *)
Definition dial_handshake (psk mine : bytes) (sent : bool) (r : bytes)
    : option (result dial_end (Session * bytes) * list bytes) :=
  match ReadFrame r with
  | None => None
  | Some (Err e, _) => Some (Err (DialRead e), [])
  | Some (Ok env, r) =>
      match (if is_type MsgChallenge env then decode_into [] dec_challenge env else None) with
      | None => Some (Err DialNotChallenge, [])
      | Some nonce =>
          match SignAuth psk nonce mine with
          | Err _ => Some (Err DialUnusable, [])
          | Ok mac =>
              match WriteFrame MsgAuth (Some (PAuth mac mine)) with
              | Err _ => Some (Err DialWrite, [])
              | Ok out =>
                  if negb sent then Some (Err DialWrite, [])
                  else
                    match ReadFrame r with
                    | None => None
                    | Some (Err e, _) => Some (Err (DialRead e), [out])
                    | Some (Ok env, r) =>
                        match (if is_type MsgAuthAck env then decode_into [] dec_ack env else None) with
                        | None => Some (Err DialUnproven, [out])
                        | Some proof =>
                            if negb (VerifyAuthAck psk nonce mine proof) then Some (Err DialUnproven, [out])
                            else match NewSession psk nonce mine true with
                                 | Err _ => Some (Err DialNoSession, [out])
                                 | Ok s => Some (Ok (s, r), [out])
                                 end
                        end
                    end
              end
          end
      end
  end.

(** What a client is told. *)
Inductive told := ToldConfig (c : BackendConfig) | ToldAck (a : UsageAck) | ToldEgress (cidrs : list string).

(** One frame of the backend's loop and of the linker's; a failure to answer a
    ping is ignored. *)
Definition backend_told (env : Envelope) : option told :=
  if is_type MsgConfig env
  then ToldConfig <$> decode_into (mkBackendConfig (mkOverlayInfo "" "" "" "") [] "" 0 [] []) dec_config env
  else if is_type MsgUsageAck env then ToldAck <$> decode_into (mkUsageAck ∅) dec_usage_ack env
  else None.
Definition linker_told (env : Envelope) : option told :=
  if is_type MsgPing env then None
  else if negb (is_type MsgLinkerConfig env) then None
  else ToldEgress <$> decode_into [] dec_linker_config env.
Definition pong (sent : bool) (env : Envelope) (s : Session) : Session :=
  if is_type MsgPing env then (Session_WriteFrame sent MsgPong None s).2 else s.

(** The loop of a client, for as many frames as [sent] answers; what it was
    told, with the frames that told it, and the error it ended with. *)
Fixpoint client_loop (told_by : Envelope -> option told) (sent : list bool) (r : bytes) (s : Session)
    : option (list (Envelope * told) * option frame_error) :=
  match sent with
  | [] => Some ([], None)
  | b :: sent =>
      match Session_ReadFrame r s with
      | None => None
      | Some (Err e, _, _) => Some ([], Some e)
      | Some (Ok env, r, s) =>
          match client_loop told_by sent r (pong b env s) with
          | None => None
          | Some (l, e) => Some (option_list ((fun t => (env, t)) <$> told_by env) ++ l, e)
          end
      end
  end.
Definition client_session (told_by : Envelope -> option told) (psk mine : bytes) (hello : Hello)
    (sent_auth sent_hello : bool) (sent : list bool) (r : bytes) : option (list (Envelope * told)) :=
  match dial_handshake psk mine sent_auth r with
  | None => None
  | Some (Err _, _) => Some []
  | Some (Ok (s, r), _) =>
      match Session_WriteFrame sent_hello MsgHello (Some (PHello hello)) s with
      | (Err _, _) => Some []
      | (Ok _, s) => fst <$> client_loop told_by sent r s
      end
  end.

(** ** The wait between dials *)

Definition dialBackoffMin : Duration := Second.
Definition dialBackoffMax : Duration := 30 * Second.
Definition sessionSettled : Duration := Minute.

Definition nextDialBackoff (previous sessionFor : Duration) : Duration :=
  if sessionSettled <=? sessionFor then dialBackoffMin
  else Z.max dialBackoffMin (Z.min dialBackoffMax (i64 (previous * 2))).

(** The linker's: the wait of a dial, and the one after it. *)
Definition linkerBackoff (backoff : Duration) : Duration :=
  if backoff <? 30 * Second then i64 (backoff * 2) else backoff.
End peers.

(** ** The frontend's end *)

Section serving.
Context {C : PayloadCodec} (LoadLocation : string -> option GoTime.Location).

Inductive serve_end :=
| EndWrite | EndTooLarge | EndUnreadable (e : frame_error) | EndUnproven | EndNoProof | EndNoSession
| EndTampered | EndFirst (e : frame_error) | EndUnknownLinker | EndWrongAddress | EndNotBackend
| EndGone (e : frame_error) | EndClosed.

(** What the connections share. *)
Record frontState := mkFront {
  fs_ctl : ControlServer; fs_reg : Registry; fs_store : Store; fs_e : Select.Engine }.
Definition fs_cfg (fs : frontState) : Config := e_cfg (fs_e fs).

(** What the environment decides for one frame: the time it is read, the times
    the ledger's writes take, and whether an answer can be sent. *)
Record turn := mkTurn { tn_now : Time; tn_nowOf : Z -> Time; tn_sent : bool }.

(** A frame the dialler proves itself with; [None] when it does not. *)
Definition read_auth (psk nonce : bytes) (env : Envelope) : option bytes :=
  match (if is_type MsgAuth env then decode_into ([], []) dec_auth env else None) with
  | Some (mac, theirs) => if VerifyAuth psk nonce theirs mac then Some theirs else None
  | None => None
  end.

(** From the challenge to the first authenticated frame: the session, the frame
    and the rest of the stream; and what was written. *)
Definition serve_handshake (psk nonce : bytes) (sent1 sent2 : bool) (r : bytes)
    : option (result serve_end (Session * Envelope * bytes) * list bytes) :=
  match WriteFrame MsgChallenge (Some (PChallenge nonce)) with
  | Err _ => Some (Err EndWrite, [])
  | Ok out1 =>
      if negb sent1 then Some (Err EndWrite, [])
      else
        match ReadFrame r with
        | None => None
        | Some (Err ErrFrameTooLarge, _) => Some (Err EndTooLarge, [out1])
        | Some (Err e, _) => Some (Err (EndUnreadable e), [out1])
        | Some (Ok env, r) =>
            match read_auth psk nonce env with
            | None => Some (Err EndUnproven, [out1])
            | Some theirs =>
                match SignAuthAck psk nonce theirs with
                | Err _ => Some (Err EndNoProof, [out1])
                | Ok proof =>
                    match WriteFrame MsgAuthAck (Some (PAuthAck proof)) with
                    | Err _ => Some (Err EndWrite, [out1])
                    | Ok out2 =>
                        if negb sent2 then Some (Err EndWrite, [out1])
                        else
                          match NewSession psk nonce theirs false with
                          | Err _ => Some (Err EndNoSession, [out1; out2])
                          | Ok s =>
                              match Session_ReadFrame r s with
                              | None => None
                              | Some (Err ErrBadFrame, _, _) => Some (Err EndTampered, [out1; out2])
                              | Some (Err ErrFrameTooLarge, _, _) => Some (Err EndTooLarge, [out1; out2])
                              | Some (Err e, _, _) => Some (Err (EndFirst e), [out1; out2])
                              | Some (Ok first, r, s) => Some (Ok (s, first, r), [out1; out2])
                              end
                          end
                    end
                end
            end
        end
  end.

(** Who the peer is, and what it may be. *)
Inductive peer_kind := PeerBackend | PeerLinker.
Definition hello_of (first : Envelope) : Hello := if is_type MsgHello first then (decode_hello first).1 else zero_hello.
Definition admit_peer (cfg : Config) (peer : string) (hello : Hello) : result serve_end peer_kind :=
  if String.eqb (hello_Role hello) "linker" then
    if negb (KnownLinker cfg (hello_OverlayIP hello)) then Err EndUnknownLinker
    else if negb (String.eqb peer (hello_OverlayIP hello)) then Err EndWrongAddress
    else Ok PeerLinker
  else if negb (KnownBackend cfg peer) then Err EndNotBackend
  else Ok PeerBackend.

(** *** The backend's frames *)

Definition link_ages (links : list LinkInfo) : gmap Z float64 :=
  fold_left (fun m li => <[li_PathID li := li_HandshakeAgeSec li]> m) links ∅.
Definition set_reg (g : Registry) (fs : frontState) : frontState := mkFront (fs_ctl fs) g (fs_store fs) (fs_e fs).
Definition set_reg_store (p : Registry * Store) (fs : frontState) : frontState := mkFront (fs_ctl fs) p.1 p.2 (fs_e fs).

Definition backend_frame (t : turn) (env : Envelope) (s : Session) (fs : frontState) : Session * frontState :=
  if is_type MsgHello env then
    let '(h, ok) := decode_hello env in
    (s, if ok : bool then set_reg (SetBackendInfo (hello_Version h) (hello_Hostname h) (fs_reg fs)) fs else fs)
  else if is_type MsgUsage env then
    match decode_into (mkUsage []) dec_usage env with
    | None => (s, fs)
    | Some u =>
        let '(ack, st, ctl) := applyUsage LoadLocation (fs_cfg fs) (tn_now t) (tn_nowOf t) u (fs_store fs) (fs_ctl fs) in
        (if bool_decide (ack_Seqs ack = ∅) then s else (Session_WriteFrame (tn_sent t) MsgUsageAck (Some (PUsageAck ack)) s).2,
         mkFront ctl (fs_reg fs) st (fs_e fs))
    end
  else if is_type MsgLink env then
    (s, match decode_into [] dec_link env with
        | None => fs
        | Some links => mkFront (fs_ctl fs) (fs_reg fs) (fs_store fs) (SetHandshakeAges (link_ages links) (fs_e fs))
        end)
  else (pong (tn_sent t) env s, fs).

(** *** A linker's frames *)

Definition linker_frame (overlayIP : string) (t : turn) (env : Envelope) (s : Session) (fs : frontState) : Session * frontState :=
  (pong (tn_sent t) env s, set_reg_store (MarkLinkerSeen overlayIP (tn_now t) (fs_reg fs) (fs_store fs)) fs).

(** Frames until one cannot be read, or the connection is closed. *)
Fixpoint serve_loop (frame : turn -> Envelope -> Session -> frontState -> Session * frontState)
    (turns : list turn) (r : bytes) (s : Session) (fs : frontState) : option (serve_end * frontState) :=
  match turns with
  | [] => Some (EndClosed, fs)
  | t :: turns =>
      match Session_ReadFrame r s with
      | None => None
      | Some (Err e, _, _) => Some (EndGone e, fs)
      | Some (Ok env, r, s) => let '(s, fs) := frame t env s fs in serve_loop frame turns r s fs
      end
  end.

Definition serve_backend (first : Envelope) (hello : Hello) (up down : Time) (turns : list turn) (r : bytes)
    (s : Session) (fs : frontState) : option (serve_end * frontState) :=
  let fs := if is_type MsgHello first
            then set_reg (SetBackendInfo (hello_Version hello) (hello_Hostname hello) (fs_reg fs)) fs else fs in
  let fs := set_reg_store (SetBackendUp true up (fs_reg fs) (fs_store fs)) fs in
  match serve_loop backend_frame turns r s fs with
  | None => None
  | Some (e, fs) => Some (e, set_reg_store (SetBackendUp false down (fs_reg fs) (fs_store fs)) fs)
  end.

Definition serveLinker (hello : Hello) (up : Time) (turns : list turn) (r : bytes) (s : Session) (fs : frontState)
    : option (serve_end * frontState) :=
  let ip := hello_OverlayIP hello in
  let '(session, p) := SetLinkerUp ip (hello_Version hello) (hello_Hostname hello) (hello_Table hello) up
                         (fs_reg fs) (fs_store fs) in
  match serve_loop (linker_frame ip) turns r s (set_reg_store p fs) with
  | None => None
  | Some (e, fs) => Some (e, set_reg_store (SetLinkerDown ip session (fs_reg fs) (fs_store fs)) fs)
  end.

(** One connection, from [peer]. *)
Definition serve (psk nonce : bytes) (sent1 sent2 : bool) (peer : string) (up down : Time) (turns : list turn)
    (r : bytes) (fs : frontState) : option (serve_end * frontState) :=
  match serve_handshake psk nonce sent1 sent2 r with
  | None => None
  | Some (Err e, _) => Some (e, fs)
  | Some (Ok (s, first, r), _) =>
      let hello := hello_of first in
      match admit_peer (fs_cfg fs) peer hello with
      | Err e => Some (e, fs)
      | Ok PeerBackend => serve_backend first hello up down turns r s fs
      | Ok PeerLinker => serveLinker hello up turns r s fs
      end
  end.

(** ** The pushes *)

(** One tick of [pushLoop] and of [pushLinkerLoop]: the version pushed last,
    the version now; whether to push. *)
Definition push_tick (pushed : option Z) (version : Z) : bool :=
  match pushed with Some v => negb (version =? v) | None => true end.
(** The versions a loop pushes, over the versions its ticks see. *)
Fixpoint pushes (pushed : option Z) (versions : list Z) : list Z :=
  match versions with
  | [] => []
  | v :: vs => if push_tick pushed v then v :: pushes (Some v) vs else pushes pushed vs
  end.
End serving.

(** ** Handshakes *)

Section handshakes.
Context {C : PayloadCodec}.

Lemma WriteFrame_read typ (p : option framePayload) out rest : WriteFrame typ p = Ok out ->
  exists env, ReadFrame (out ++ rest) = Some (Ok env, rest) /\ env_Type env = typ /\ frame_data p = Some (env_Data env).
Proof.
  unfold WriteFrame. destruct (frame_data p) as [data|] eqn:Hd; [| done].
  set (env := mkEnvelope typ data 0 []). destruct (marshal_env env) as [line|] eqn:Hm; [| done].
  destruct (_ <? _) eqn:Hsz; [done |]. intros [= <-]. bool_to_prop. exists env. split; [| done].
  unfold ReadFrame. rewrite readLine_one; [| by apply json_one_line in Hm | lia].
  rewrite (json_roundtrip env line); [done | by apply (frame_data_marshalled p) | done | done].
Qed.

Lemma controlMAC_hex psk label sn cn m : controlMAC psk label sn cn = Ok m -> Forall (fun c => is_hex c = true) m.
Proof. unfold controlMAC. destruct (_ || _); [done |]. intros [= <-]. apply hexEncode_hex, hmac_bytes. Qed.

Lemma validNonce_hex n : validNonce n = true -> Forall (fun c => is_hex c = true) n.
Proof.
  unfold validNonce. rewrite andb_true_iff. intros [_ H]. apply Forall_forall. intros c Hc.
  rewrite forallb_forall in H. apply H. by apply list_elem_of_In.
Qed.

Lemma decode_some {A} (zero : A) dec env x : env_Data env <> [] -> dec (env_Data env) = Some x -> decode_into zero dec env = Some x.
Proof. unfold decode_into. by destruct (env_Data env). Qed.

Lemma is_type_refl typ env : env_Type env = typ -> is_type typ env = true.
Proof. intros <-. by apply bytes_eqb_eq. Qed.

(** What [read_auth] takes is a proof, and an honest one is taken. *)
Lemma read_auth_some psk nonce env theirs : read_auth psk nonce env = Some theirs ->
  env_Type env = MsgAuth /\ exists mac, decode_into ([], []) dec_auth env = Some (mac, theirs) /\ SignAuth psk nonce theirs = Ok mac.
Proof.
  unfold read_auth. destruct (is_type MsgAuth env) eqn:Et; [| done]. apply bytes_eqb_eq in Et.
  destruct (decode_into _ _ env) as [[mac n]|]; [| done]. destruct (VerifyAuth psk nonce n mac) eqn:E; [| done].
  intros [= <-]. split; [done |]. exists mac. split; [done |]. unfold VerifyAuth, verifyControl in E. unfold SignAuth.
  destruct (controlMAC psk _ nonce n) as [m|]; [| done]. by apply bytes_eqb_eq in E as ->.
Qed.

Lemma Verify_signed psk label s c m : controlMAC psk label s c = Ok m -> verifyControl psk label s c m = true.
Proof. unfold verifyControl. intros ->. by apply bytes_eqb_eq. Qed.

Lemma signed_nonces psk label s c m : controlMAC psk label s c = Ok m -> validNonce s = true /\ validNonce c = true.
Proof. unfold controlMAC. by destruct (validNonce s), (validNonce c). Qed.

(** The two ends of an honest handshake, over streams that may go on. *)
Lemma dial_completes psk mine nonce mac proof ch au ak rest :
  SignAuth psk nonce mine = Ok mac -> SignAuthAck psk nonce mine = Ok proof ->
  WriteFrame MsgChallenge (Some (PChallenge nonce)) = Ok ch ->
  WriteFrame MsgAuth (Some (PAuth mac mine)) = Ok au ->
  WriteFrame MsgAuthAck (Some (PAuthAck proof)) = Ok ak ->
  exists s, NewSession psk nonce mine true = Ok s
    /\ dial_handshake psk mine true (ch ++ ak ++ rest) = Some (Ok (s, rest), [au]).
Proof.
  intros Hm Hp Hch Hau Hak. destruct (signed_nonces _ _ _ _ _ Hm) as [Hn Hc].
  assert (Hs : exists s, NewSession psk nonce mine true = Ok s) by (unfold NewSession; rewrite Hn, Hc; by eexists).
  destruct Hs as [s Hs]. exists s. split; [done |]. unfold dial_handshake.
  destruct (WriteFrame_read _ _ _ (ak ++ rest) Hch) as (env & -> & Ht & Hd). rewrite (is_type_refl _ _ Ht).
  destruct (challenge_roundtrip nonce (env_Data env) (validNonce_hex _ Hn) Hd) as [Hne Hdec].
  rewrite (decode_some [] dec_challenge env nonce Hne Hdec), Hm, Hau. cbn [negb].
  destruct (WriteFrame_read _ _ _ rest Hak) as (env' & -> & Ht' & Hd'). rewrite (is_type_refl _ _ Ht').
  destruct (ack_roundtrip proof (env_Data env') (controlMAC_hex _ _ _ _ _ Hp) Hd') as [Hne' Hdec'].
  rewrite (decode_some [] dec_ack env' proof Hne' Hdec'). unfold VerifyAuthAck. by rewrite (Verify_signed _ _ _ _ _ Hp), Hs.
Qed.

Lemma serve_completes psk mine nonce mac proof ch au ak hello out s s' rest :
  SignAuth psk nonce mine = Ok mac -> SignAuthAck psk nonce mine = Ok proof ->
  WriteFrame MsgChallenge (Some (PChallenge nonce)) = Ok ch ->
  WriteFrame MsgAuth (Some (PAuth mac mine)) = Ok au ->
  WriteFrame MsgAuthAck (Some (PAuthAck proof)) = Ok ak ->
  NewSession psk nonce mine true = Ok s ->
  Session_WriteFrame true MsgHello (Some (PHello hello)) s = (Ok out, s') ->
  exists first t, serve_handshake psk nonce true true (au ++ out ++ rest) = Some (Ok (t, first, rest), [ch; ak])
    /\ env_Type first = MsgHello /\ marshal_payload (PHello hello) = Some (env_Data first)
    /\ in_step s' t /\ in_step t s'.
Proof.
  intros Hm Hp Hch Hau Hak Hs Hw. destruct (signed_nonces _ _ _ _ _ Hm) as [Hn Hc].
  unfold serve_handshake. rewrite Hch. cbn [negb].
  destruct (WriteFrame_read _ _ _ (out ++ rest) Hau) as (env & -> & Ht & Hd).
  assert (Hr : read_auth psk nonce env = Some mine).
  { unfold read_auth. rewrite (is_type_refl _ _ Ht).
    destruct (auth_roundtrip mac mine (env_Data env)) as [Hne Hdec]; [| exact Hd |].
    - apply Forall_app_2; [by eapply controlMAC_hex | by apply validNonce_hex].
    - rewrite (decode_some ([], []) dec_auth env (mac, mine) Hne Hdec). unfold VerifyAuth. by rewrite (Verify_signed _ _ _ _ _ Hm). }
  rewrite Hr, Hp, Hak. cbn [negb].
  assert (E : s = mkSession (sessionKey psk nonce mine) frameToServer frameToClient 0 0).
  { unfold NewSession in Hs. rewrite Hn, Hc in Hs. by injection Hs as <-. }
  set (t := mkSession (sessionKey psk nonce mine) frameToClient frameToServer 0 0).
  assert (Et : NewSession psk nonce mine false = Ok t) by (unfold NewSession; by rewrite Hn, Hc).
  rewrite Et. assert (Hstep : in_step s t) by (rewrite E; by repeat split).
  destruct (write_read_one _ _ _ _ _ _ rest Hstep Hw) as (first & t' & Hread & Hty & Hda & Hin).
  rewrite Hread. exists first, t'. split_and!; try done.
  assert (Es : s' = set_tx (s_tx s') s /\ t' = set_rx (s_rx t') t).
  { split.
    - unfold Session_WriteFrame in Hw. destruct (frame_data _); [| done]. destruct (marshal_env _); [| done].
      destruct (_ <? _); [done |]. cbn [negb] in Hw. by injection Hw as _ <-.
    - apply Session_ReadFrame_ok in Hread as (_ & _ & ->). done. }
  destruct Es as [-> ->]. rewrite E. by repeat split.
Qed.
End handshakes.

(** ** What a connection leaves behind *)

Section effects.
Context {C : PayloadCodec} (LoadLocation : string -> option GoTime.Location).

(** A frame authenticated at its place in a session. *)
Definition frame_proven (s : Session) (seq : Z) (env : Envelope) : Prop :=
  env_Seq env = seq /\ env_MAC env = frameMAC (s_key s) (s_rxLabel s) seq (env_Type env) (env_Data env).

(** The bytes of a connection prove the secret: they begin with a frame that
    carries the signature of this connection's nonce and the dialler's, and go on
    with one that the session of those two nonces accepts as its first. *)
Definition proves (psk nonce r : bytes) (first : Envelope) : Prop :=
  exists auth mac theirs rest rest' s',
    ReadFrame r = Some (Ok auth, rest) /\ env_Type auth = MsgAuth
    /\ decode_into ([], []) dec_auth auth = Some (mac, theirs) /\ SignAuth psk nonce theirs = Ok mac
    /\ Session_ReadFrame rest (mkSession (sessionKey psk nonce theirs) frameToClient frameToServer 0 0) = Some (Ok first, rest', s')
    /\ env_Seq first = 0 /\ env_MAC first = frameMAC (sessionKey psk nonce theirs) frameToServer 0 (env_Type first) (env_Data first).

(** The address is the one the configuration gives the host the peer claims to
    be: that of the enabled linker it names, or the backend's. *)
Definition entitled (cfg : Config) (peer : string) (h : Hello) : Prop :=
  (hello_Role h = "linker"%string /\ hello_OverlayIP h = peer
     /\ exists l, l ∈ cfg_Linkers cfg /\ linker_Enabled l = true /\ linker_OverlayIP l = peer)
  \/ (hello_Role h <> "linker"%string /\ peer = ov_BackendIP (cfg_Overlay cfg) /\ peer <> ""%string).

Lemma serve_handshake_ok psk nonce sent1 sent2 r s first rest outs :
  serve_handshake psk nonce sent1 sent2 r = Some (Ok (s, first, rest), outs) -> proves psk nonce r first.
Proof.
  unfold serve_handshake. destruct (WriteFrame MsgChallenge _) as [out1|]; [| done]. destruct sent1; [| done]. cbn [negb].
  destruct (ReadFrame r) as [[[env|e] r']|] eqn:Ef; [| by destruct e | done].
  destruct (read_auth psk nonce env) as [theirs|] eqn:Ea; [| done]. apply read_auth_some in Ea as (Ht & mac & Hd & Hv).
  destruct (SignAuthAck psk nonce theirs) as [proof|]; [| done]. destruct (WriteFrame MsgAuthAck _) as [out2|]; [| done].
  destruct sent2; [| done]. cbn [negb]. destruct (NewSession psk nonce theirs false) as [t|] eqn:Et; [| done].
  assert (t = mkSession (sessionKey psk nonce theirs) frameToClient frameToServer 0 0) as ->.
  { unfold NewSession in Et. destruct (_ || _); [done | by injection Et as <-]. }
  destruct (Session_ReadFrame r' _) as [[[[env'|e'] r''] s']|] eqn:Er; [| by destruct e' | done].
  intros [= <- <- <- <-]. pose proof Er as (Hq & Hm & _)%Session_ReadFrame_ok. cbn [s_rx s_key s_rxLabel] in Hq, Hm.
  exists env, mac, theirs, r', r'', s'. by split_and!.
Qed.

Lemma admit_entitled cfg peer hello k : admit_peer cfg peer hello = Ok k -> entitled cfg peer hello.
Proof.
  unfold admit_peer, entitled. destruct (String.eqb_spec (hello_Role hello) "linker") as [Hr|Hr].
  - destruct (KnownLinker cfg (hello_OverlayIP hello)) eqn:Ek; [| done]. cbn [negb].
    destruct (String.eqb_spec peer (hello_OverlayIP hello)) as [->|]; [| done]. intros _. left. split_and!; [done | done |].
    unfold KnownLinker in Ek. apply existsb_exists in Ek as (l & Hl & [He Hi]%andb_true_iff). exists l.
    split_and!; [by apply list_elem_of_In | done | by apply String.eqb_eq].
  - destruct (KnownBackend cfg peer) eqn:Ek; [| done]. intros _. right. unfold KnownBackend in Ek.
    apply andb_true_iff in Ek as [Hn He]. apply String.eqb_eq in He as ->. split_and!; [done | done |].
    intros Hx. by rewrite Hx in Hn.
Qed.

Lemma admit_known cfg peer hello k : admit_peer cfg peer hello = Ok k ->
  match k with PeerBackend => KnownBackend cfg peer = true | PeerLinker => KnownLinker cfg peer = true /\ peer = hello_OverlayIP hello end.
Proof.
  unfold admit_peer. destruct (String.eqb (hello_Role hello) "linker").
  - destruct (KnownLinker cfg (hello_OverlayIP hello)) eqn:Ek; [| done]. cbn [negb].
    destruct (String.eqb_spec peer (hello_OverlayIP hello)) as [->|]; [| done]. cbn [negb]. by intros [= <-].
  - destruct (KnownBackend cfg peer) eqn:Ek; [| done]. by intros [= <-].
Qed.

(** What no frame of a peer can touch. *)
Lemma serve_loop_keeps {A} (view : frontState -> A) frame :
  (forall t env s fs, view (frame t env s fs).2 = view fs) ->
  forall turns r s fs e fs', serve_loop frame turns r s fs = Some (e, fs') -> view fs' = view fs.
Proof.
  intros Hf turns. induction turns as [|t turns IH]; intros r s fs e fs'; cbn [serve_loop]; [by intros [= _ <-] |].
  destruct (Session_ReadFrame r s) as [[[[env|e'] r'] s']|]; [| by intros [= _ <-] | done].
  pose proof (Hf t env s' fs) as Hv. destruct (frame t env s' fs) as [s'' fs'']. cbn in Hv. intros H.
  apply IH in H. congruence.
Qed.

Lemma backend_frame_conns t env s fs : let fs' := (backend_frame LoadLocation t env s fs).2 in
  rg_backendConns (fs_reg fs') = rg_backendConns (fs_reg fs) /\ rg_linkers (fs_reg fs') = rg_linkers (fs_reg fs).
Proof.
  cbv zeta. unfold backend_frame. destruct (is_type MsgHello env); [by destruct (decode_hello env) as [h []] |].
  destruct (is_type MsgUsage env).
  - destruct (decode_into _ dec_usage env) as [u|]; [| done]. by destruct (applyUsage _ _ _ _ _ _ _) as [[ack st] ctl].
  - destruct (is_type MsgLink env); [| done]. by destruct (decode_into _ dec_link env).
Qed.

Lemma persist_linkers ip at_ force g st : rg_linkers (persistLinkerSeen ip at_ force g st).1 = rg_linkers g
  /\ rg_backendConns (persistLinkerSeen ip at_ force g st).1 = rg_backendConns g.
Proof. unfold persistLinkerSeen. by destruct (_ || _). Qed.

Lemma linker_frame_conns ip t env s fs : let fs' := (linker_frame ip t env s fs).2 in
  rg_backendConns (fs_reg fs') = rg_backendConns (fs_reg fs) /\ rg_linkers (fs_reg fs') = rg_linkers (fs_reg fs).
Proof.
  cbv zeta. unfold linker_frame, set_reg_store, MarkLinkerSeen. cbn [snd fs_reg].
  split; [by rewrite (proj2 (persist_linkers _ _ _ _ _)) | by rewrite (proj1 (persist_linkers _ _ _ _ _))].
Qed.

Lemma backend_balanced first hello up down turns r s fs e fs' :
  0 <= rg_backendConns (fs_reg fs) < MaxInt64 ->
  serve_backend LoadLocation first hello up down turns r s fs = Some (e, fs') ->
  rg_backendConns (fs_reg fs') = rg_backendConns (fs_reg fs) /\ rg_linkers (fs_reg fs') = rg_linkers (fs_reg fs).
Proof.
  intros Hc. unfold serve_backend. set (fs1 := if is_type MsgHello first then _ else fs).
  assert (E1 : rg_backendConns (fs_reg fs1) = rg_backendConns (fs_reg fs) /\ rg_linkers (fs_reg fs1) = rg_linkers (fs_reg fs))
    by (subst fs1; by destruct (is_type MsgHello first)).
  destruct (serve_loop _ _ _ _ _) as [[e' fs2]|] eqn:El; [| done]. intros [= _ <-].
  pose proof (serve_loop_keeps (fun fs => rg_backendConns (fs_reg fs)) _ (fun t env s fs => proj1 (backend_frame_conns t env s fs)) _ _ _ _ _ _ El) as Hn.
  pose proof (serve_loop_keeps (fun fs => rg_linkers (fs_reg fs)) _ (fun t env s fs => proj2 (backend_frame_conns t env s fs)) _ _ _ _ _ _ El) as Hl.
  unfold set_reg_store in *. cbn [fs_reg] in *. unfold SetBackendUp in *. cbn [fst rg_backendConns rg_linkers] in *.
  assert (Hi : i64 (rg_backendConns (fs_reg fs1) + 1) = rg_backendConns (fs_reg fs) + 1) by (rewrite (proj1 E1); apply i64_id; go_lia).
  rewrite Hn, Hl, Hi. replace (0 <? rg_backendConns (fs_reg fs) + 1) with true by lia. split; [lia | by apply E1].
Qed.

Lemma linker_balanced hello up turns r s fs e fs' : serveLinker hello up turns r s fs = Some (e, fs') ->
  rg_backendConns (fs_reg fs') = rg_backendConns (fs_reg fs)
  /\ rg_linkers (fs_reg fs') = delete (hello_OverlayIP hello) (rg_linkers (fs_reg fs)).
Proof.
  unfold serveLinker, SetLinkerUp. set (session := u64 _). cbv zeta.
  set (g := set_linkerSeen _ _). set (p := persistLinkerSeen _ _ _ g _).
  assert (Ep : rg_backendConns p.1 = rg_backendConns (fs_reg fs)
    /\ rg_linkers p.1 = <[hello_OverlayIP hello := mkLinkerConn (hello_Version hello) (hello_Hostname hello) (hello_Table hello) up session]> (rg_linkers (fs_reg fs))).
  { subst p. split; [by rewrite (proj2 (persist_linkers _ _ _ _ _)) | by rewrite (proj1 (persist_linkers _ _ _ _ _))]. }
  destruct (serve_loop _ _ _ _ _) as [[e' fs2]|] eqn:El; [| done]. intros [= _ <-].
  pose proof (serve_loop_keeps (fun fs => rg_backendConns (fs_reg fs)) _ (fun t env s fs => proj1 (linker_frame_conns _ t env s fs)) _ _ _ _ _ _ El) as Hn.
  pose proof (serve_loop_keeps (fun fs => rg_linkers (fs_reg fs)) _ (fun t env s fs => proj2 (linker_frame_conns _ t env s fs)) _ _ _ _ _ _ El) as Hl.
  unfold set_reg_store in *. cbn [fs_reg] in *. rewrite (proj1 Ep) in Hn. rewrite (proj2 Ep) in Hl.
  unfold SetLinkerDown. rewrite Hl, lookup_insert_eq. cbn [lc_session]. rewrite Z.eqb_refl. cbn [negb].
  set (g2 := set_linkers _ _).
  assert (Eg : rg_backendConns g2 = rg_backendConns (fs_reg fs) /\ rg_linkers g2 = delete (hello_OverlayIP hello) (rg_linkers (fs_reg fs))).
  { subst g2. unfold set_linkers. cbn [rg_linkers rg_backendConns]. split; [done |]. by rewrite delete_insert_eq. }
  destruct (negb (IsZero _)); cbn [fst]; [| exact Eg].
  by rewrite (proj2 (persist_linkers _ _ _ _ _)), (proj1 (persist_linkers _ _ _ _ _)).
Qed.
End effects.

(** ** What the ends promise *)

(** The handshake completes: over a wire that delivers, the two ends that hold
    the secret establish sessions that read each other's frames, in both
    directions, and the frontend has the dialler's hello. *)
Theorem handshake_agrees {C : PayloadCodec} psk mine nonce mac proof ch au ak hello out s s' rest rest' :
  SignAuth psk nonce mine = Ok mac -> SignAuthAck psk nonce mine = Ok proof ->
  WriteFrame MsgChallenge (Some (PChallenge nonce)) = Ok ch ->
  WriteFrame MsgAuth (Some (PAuth mac mine)) = Ok au ->
  WriteFrame MsgAuthAck (Some (PAuthAck proof)) = Ok ak ->
  NewSession psk nonce mine true = Ok s ->
  Session_WriteFrame true MsgHello (Some (PHello hello)) s = (Ok out, s') ->
  dial_handshake psk mine true (ch ++ ak ++ rest) = Some (Ok (s, rest), [au])
  /\ exists first t, serve_handshake psk nonce true true (au ++ out ++ rest') = Some (Ok (t, first, rest'), [ch; ak])
       /\ env_Type first = MsgHello /\ marshal_payload (PHello hello) = Some (env_Data first)
       /\ in_step s' t /\ in_step t s'.
Proof.
  intros Hm Hp Hch Hau Hak Hs Hw. split.
  - destruct (dial_completes psk mine nonce mac proof ch au ak rest Hm Hp Hch Hau Hak) as (s0 & Hs0 & H). congruence.
  - by eapply serve_completes.
Qed.

(** [C20] A connection changes nothing at the frontend unless the bytes it sent
    begin with the signature, under the shared secret, of this connection's nonce
    and the dialler's, and go on with a frame authenticated under the session of
    those two nonces and in its first place; and unless its address is the one
    the configuration gives the host that frame claims to be, the enabled linker
    it names or the backend. *)
Theorem serve_strangers_change_nothing {C : PayloadCodec} LoadLocation psk nonce sent1 sent2 peer up down turns r fs e fs' :
  serve LoadLocation psk nonce sent1 sent2 peer up down turns r fs = Some (e, fs') ->
  fs' = fs \/ exists first, proves psk nonce r first /\ entitled (fs_cfg fs) peer (hello_of first).
Proof.
  unfold serve. destruct (serve_handshake psk nonce sent1 sent2 r) as [[[[[s first] rest]|e'] outs]|] eqn:Eh; [| by intros [= _ <-]; left | done].
  apply serve_handshake_ok in Eh. destruct (admit_peer (fs_cfg fs) peer (hello_of first)) as [k|e'] eqn:Ea; [| by intros [= _ <-]; left].
  intros _. right. exists first. split; [done | by eapply admit_entitled].
Qed.

(** A connection takes back exactly what it registered: the count of backend
    connections is what it was, and no linker but the one at this address is
    affected. *)
Theorem serve_balanced {C : PayloadCodec} LoadLocation psk nonce sent1 sent2 peer up down turns r fs e fs' :
  0 <= rg_backendConns (fs_reg fs) < MaxInt64 ->
  serve LoadLocation psk nonce sent1 sent2 peer up down turns r fs = Some (e, fs') ->
  rg_backendConns (fs_reg fs') = rg_backendConns (fs_reg fs)
  /\ forall ip, ip <> peer -> rg_linkers (fs_reg fs') !! ip = rg_linkers (fs_reg fs) !! ip.
Proof.
  intros Hc. unfold serve. destruct (serve_handshake psk nonce sent1 sent2 r) as [[[[[s first] rest]|e'] outs]|]; [| by intros [= _ <-] | done].
  destruct (admit_peer (fs_cfg fs) peer (hello_of first)) as [k|e'] eqn:Ea; [| by intros [= _ <-]]. apply admit_known in Ea. destruct k; intros H.
  - destruct (backend_balanced LoadLocation _ _ _ _ _ _ _ _ _ _ Hc H) as [-> ->]. done.
  - destruct Ea as [_ ->]. destruct (linker_balanced _ _ _ _ _ _ _ _ H) as [-> ->]. split; [done |].
    intros ip Hne. by rewrite lookup_delete_ne.
Qed.

(** What a peer that is not the backend can write: its own last-seen stamp. *)
Definition only_meta (key : string) (fs fs' : frontState) : Prop :=
  fs_ctl fs' = fs_ctl fs /\ fs_e fs' = fs_e fs
  /\ set_meta ∅ (st_db (fs_store fs')) = set_meta ∅ (st_db (fs_store fs))
  /\ forall k, k <> key -> db_meta (st_db (fs_store fs')) !! k = db_meta (st_db (fs_store fs)) !! k.

#[export] Instance only_meta_preorder key : PreOrder (only_meta key).
Proof.
  split; [by intros fs |]. intros x y z (A1 & A2 & A3 & A4) (B1 & B2 & B3 & B4). split_and!; try congruence.
  intros k Hk. by rewrite B4, A4.
Qed.

Lemma persist_only_meta ip at_ force g fs :
  only_meta (metaLinkerSeen ip) fs (set_reg_store (persistLinkerSeen ip at_ force g (fs_store fs)) fs).
Proof.
  unfold persistLinkerSeen. destruct (_ || _); [| by split_and!]. unfold SetMeta, exec, sbind, call, set_reg_store, only_meta.
  destruct (st_faults (fs_store fs)) as [|[] faults]; cbn [fst snd fs_ctl fs_e fs_store st_db]; split_and!; try done.
  all: intros k Hk; unfold set_meta; cbn [db_meta]; by rewrite lookup_insert_ne.
Qed.

Lemma linker_loop_only_meta {C : PayloadCodec} ip turns : forall r s fs e fs',
  serve_loop (linker_frame ip) turns r s fs = Some (e, fs') -> only_meta (metaLinkerSeen ip) fs fs'.
Proof.
  induction turns as [|t turns IH]; intros r s fs e fs'; cbn [serve_loop]; [by intros [= _ <-] |].
  destruct (Session_ReadFrame r s) as [[[[env|e'] r'] s']|]; [| by intros [= _ <-] | done].
  destruct (linker_frame ip t env s' fs) as [s'' fs''] eqn:El. intros H. etransitivity; [| by eapply IH].
  unfold linker_frame, MarkLinkerSeen in El. injection El as _ <-. apply persist_only_meta.
Qed.

Lemma serveLinker_only_meta {C : PayloadCodec} hello up turns r s fs e fs' :
  serveLinker hello up turns r s fs = Some (e, fs') -> only_meta (metaLinkerSeen (hello_OverlayIP hello)) fs fs'.
Proof.
  unfold serveLinker, SetLinkerUp. set (ip := hello_OverlayIP hello). set (session := u64 _). cbv zeta.
  set (g := set_linkerSeen _ _). destruct (serve_loop _ _ _ _ _) as [[e' fs2]|] eqn:El; [| done]. intros [= _ <-].
  etransitivity; [by apply (persist_only_meta ip up true g) |].
  etransitivity; [by eapply linker_loop_only_meta |].
  unfold SetLinkerDown. destruct (rg_linkers (fs_reg fs2) !! ip) as [c|]; [| by split_and!].
  destruct (negb (lc_session c =? session)); [by split_and! |].
  destruct (negb (IsZero _)); [apply persist_only_meta | by split_and!].
Qed.

(** [C19] Usage is billed only to the backend: a connection from any other address,
    whatever its peer can prove and whatever it sends, leaves the ledger, the
    tracking of its frames and the engine as they are.  All it can write is the
    last-seen stamp of its own address. *)
Theorem only_backend_bills {C : PayloadCodec} LoadLocation psk nonce sent1 sent2 peer up down turns r fs e fs' :
  KnownBackend (fs_cfg fs) peer = false ->
  serve LoadLocation psk nonce sent1 sent2 peer up down turns r fs = Some (e, fs') ->
  only_meta (metaLinkerSeen peer) fs fs'.
Proof.
  intros Hk. unfold serve. destruct (serve_handshake psk nonce sent1 sent2 r) as [[[[[s first] rest]|e'] outs]|]; [| by intros [= _ <-] | done].
  destruct (admit_peer (fs_cfg fs) peer (hello_of first)) as [[]|e'] eqn:Ea; [..| by intros [= _ <-]]; apply admit_known in Ea.
  - congruence.
  - destruct Ea as [_ Hp]. intros H. rewrite Hp. by eapply serveLinker_only_meta.
Qed.

Lemma client_loop_proven {C : PayloadCodec} told_by sent : forall r s l e, client_loop told_by sent r s = Some (l, e) ->
  0 <= s_rx s -> s_rx s + Z.of_nat (length sent) <= MaxUint64 ->
  Forall (fun p => exists seq, s_rx s <= seq /\ frame_proven s seq p.1 /\ told_by p.1 = Some p.2) l
  /\ StronglySorted Z.lt ((fun p => env_Seq p.1) <$> l).
Proof.
  induction sent as [|b sent IH]; intros r s l e; cbn [client_loop]; [intros [= <- _]; split; constructor |].
  destruct (Session_ReadFrame r s) as [[[[env|e'] r'] s']|] eqn:Er; [| intros [= <- _]; split; constructor | done].
  destruct (client_loop told_by sent r' (pong b env s')) as [[l' e']|] eqn:El; [| done]. intros [= <- _] H0 Hmax.
  apply Session_ReadFrame_ok in Er as (Hq & Hm & ->).
  assert (Hu : u64 (s_rx s + 1) = s_rx s + 1) by (apply u64_id; cbn [length] in Hmax; go_lia).
  assert (Hp : forall b env s, s_rx (pong b env s) = s_rx s /\ s_key (pong b env s) = s_key s /\ s_rxLabel (pong b env s) = s_rxLabel s).
  { intros b1 env1 s1. unfold pong. destruct (is_type MsgPing env1); [| done]. unfold Session_WriteFrame. cbn [frame_data].
    destruct (marshal_env _); [| done]. destruct (_ <? _); [done |]. by destruct b1. }
  destruct (Hp b env (set_rx (u64 (s_rx s + 1)) s)) as (P1 & P2 & P3). cbn [set_rx s_rx s_key s_rxLabel] in P1, P2, P3.
  rewrite Hu in P1, P2, P3, El. cbn [length] in Hmax.
  destruct (IH _ _ _ _ El ltac:(lia) ltac:(lia)) as [F S]. rewrite P1 in F.
  assert (F' : Forall (fun p => exists seq, s_rx s + 1 <= seq /\ frame_proven s seq p.1 /\ told_by p.1 = Some p.2) l').
  { eapply Forall_impl; [exact F |]. intros p (seq & Hs & [Q1 Q2] & Ht). exists seq. split; [done |]. split; [| done].
    split; [done |]. by rewrite P2, P3 in Q2. }
  destruct (told_by env) as [t|] eqn:Et; cbn [fmap option_fmap option_map option_list app].
  - split.
    + constructor; [exists (s_rx s); split; [lia | by split] |]. eapply Forall_impl; [exact F' |].
      intros p (seq & Hs & H). exists seq. split; [lia | done].
    + constructor; [exact S |]. cbn [fst]. rewrite Hq. apply Forall_fmap. eapply Forall_impl; [exact F' |].
      intros p (seq & Hs & [Q _] & _). cbn. lia.
  - split; [| exact S]. eapply Forall_impl; [exact F' |]. intros p (seq & Hs & H). exists seq. split; [lia | done].
Qed.

(** Whatever arrives, an agent acts on nothing but frames of a peer that proved
    it holds the secret over the agent's own nonce, each authenticated at its
    place, in order and none twice. *)
Theorem client_acts_on_proven {C : PayloadCodec} told_by psk mine hello sent_auth sent_hello sent r l :
  client_session told_by psk mine hello sent_auth sent_hello sent r = Some l -> l <> [] ->
  Z.of_nat (length sent) <= MaxUint64 ->
  exists nonce proof s, VerifyAuthAck psk nonce mine proof = true /\ NewSession psk nonce mine true = Ok s
    /\ Forall (fun p => (exists seq, frame_proven s seq p.1) /\ told_by p.1 = Some p.2) l
    /\ StronglySorted Z.lt ((fun p => env_Seq p.1) <$> l).
Proof.
  unfold client_session. destruct (dial_handshake psk mine sent_auth r) as [[[[s rest]|e] outs]|] eqn:Ed; [| by intros [= <-] | done].
  assert (Hs : exists nonce proof, VerifyAuthAck psk nonce mine proof = true /\ NewSession psk nonce mine true = Ok s).
  { revert Ed. unfold dial_handshake. destruct (ReadFrame r) as [[[env|] r1]|]; [| done..].
    destruct (if is_type MsgChallenge env then _ else _) as [nonce|]; [| done].
    destruct (SignAuth psk nonce mine); [| done]. destruct (WriteFrame MsgAuth _); [| done]. destruct sent_auth; [| done]. cbn [negb].
    destruct (ReadFrame r1) as [[[env'|] r2]|]; [| done..]. destruct (if is_type MsgAuthAck env' then _ else _) as [proof|]; [| done].
    destruct (VerifyAuthAck psk nonce mine proof) eqn:Ev; [| done]. cbn [negb].
    destruct (NewSession psk nonce mine true) as [s1|] eqn:En; [| done]. intros [= <- _ _]. by exists nonce, proof. }
  destruct Hs as (nonce & proof & Hv & Hn).
  destruct (Session_WriteFrame sent_hello MsgHello (Some (PHello hello)) s) as [[out|] s1] eqn:Ew; [| by intros [= <-]].
  destruct (client_loop told_by sent rest s1) as [[l' e]|] eqn:El; [| done]. intros [= <-] _ Hlen.
  assert (E : s_rx s1 = 0 /\ s_key s1 = s_key s /\ s_rxLabel s1 = s_rxLabel s).
  { unfold Session_WriteFrame in Ew. destruct (frame_data _); [| done]. destruct (marshal_env _); [| done].
    destruct (_ <? _); [done |]. destruct sent_hello; [| done]. injection Ew as _ <-.
    unfold NewSession in Hn. destruct (_ || _); [done |]. by injection Hn as <-. }
  destruct E as (E1 & E2 & E3). destruct (client_loop_proven told_by sent rest s1 l' e El) as [F S]; [lia.. |].
  exists nonce, proof, s. split_and!; try done. eapply Forall_impl; [exact F |].
  intros p (seq & _ & [Q1 Q2] & Ht). split; [| done]. exists seq. split; [done |]. by rewrite E2, E3 in Q2.
Qed.

(** ** The waits *)

(** The backend's wait is always within its bounds, and a session that stayed
    up resets it. *)
Theorem nextDialBackoff_bounds previous sessionFor :
  dialBackoffMin <= nextDialBackoff previous sessionFor <= dialBackoffMax
  /\ (sessionSettled <= sessionFor -> nextDialBackoff previous sessionFor = dialBackoffMin).
Proof.
  assert (H : dialBackoffMin <= dialBackoffMax) by (vm_compute; discriminate).
  unfold nextDialBackoff. destruct (Z.leb_spec sessionSettled sessionFor); split; lia.
Qed.

(** The linker's only grows: from the sixth dial of the process on it is 32
    seconds, whatever the sessions between. *)
Theorem linkerBackoff_stuck n : (5 <= n)%nat -> Nat.iter n linkerBackoff Second = 32 * Second.
Proof.
  intros Hn. replace n with ((n - 5) + 5)%nat by lia. rewrite Nat.iter_add.
  change (Nat.iter 5 linkerBackoff Second) with (32 * Second). induction (n - 5)%nat as [|m IH]; [done |].
  cbn [Nat.iter]. change (Nat.iter (S m) linkerBackoff (32 * Second)) with (linkerBackoff (Nat.iter m linkerBackoff (32 * Second))).
  by rewrite IH.
Qed.

Lemma pushes_current pushed versions : versions <> [] ->
  last (option_list pushed ++ pushes pushed versions) = last versions.
Proof.
  assert (H : forall vs p, last (p :: pushes (Some p) vs) = last (p :: vs)).
  { induction vs as [|v vs IH]; intros p; [done |]. cbn [pushes push_tick].
    destruct (Z.eqb_spec v p) as [->|]; cbn [negb]; [rewrite IH; by destruct vs |]. exact (IH v). }
  intros Hne. destruct versions as [|v vs]; [done |]. destruct pushed as [q|]; [| exact (H vs v)].
  change (last (q :: pushes (Some q) (v :: vs)) = last (v :: vs)). rewrite H. done.
Qed.

(** ** Witnesses *)

(** Payloads as length-prefixed fields in the codec of [HexCodec]: the
    handshake and the hello, which are what the witnesses exchange. *)
Module FieldCodec.
Import HexCodec.

Definition str (s : string) : bytes := field (string_bytes s).
Definition marshal (p : framePayload) : option bytes :=
  match p with
  | PChallenge n => Some (1 :: n)
  | PAuth m n => if Z.of_nat (length m) <=? MaxUint64 then Some (field m ++ n) else None
  | PAuthAck m => Some (3 :: m)
  | PHello h => Some (str (hello_Version h) ++ str (hello_Hostname h) ++ str (hello_Role h)
                      ++ str (hello_OverlayIP h) ++ put_be 8 (u64 (hello_Table h)))
  | PLinkerConfig cidrs => Some (concat (str <$> cidrs))
  | _ => None
  end.
Fixpoint read_strings (fuel : nat) (b : bytes) : list string :=
  match fuel, b with
  | S fuel, _ :: _ => let '(x, b) := take_field b in bytes_string x :: read_strings fuel b
  | _, _ => []
  end.
Definition read_hello (b : bytes) : Hello * bool :=
  let '(v, b) := take_field b in
  let '(h, b) := take_field b in
  let '(r, b) := take_field b in
  let '(ip, b) := take_field b in
  (mkHello (bytes_string v) (bytes_string h) (bytes_string r) (bytes_string ip) (i64 (get_be b)), true).

Lemma env_roundtrip e line : (env_Data e = [] \/ exists p, marshal p = Some (env_Data e)) ->
  in_u64 (env_Seq e) -> encode e = Some line -> decode (line ++ [newline]) = Some e.
Proof. intros _. apply HexCodec.roundtrip. right. by exists (env_Data e). Qed.

#[export] Instance env_codec : EnvelopeCodec framePayload := {
  marshal_payload := marshal; marshal_env := encode; unmarshal_env := decode;
  json_roundtrip := env_roundtrip; json_one_line := one_line }.

Definition read_auth_fields (b : bytes) : option (bytes * bytes) := Some (take_field b).

Lemma auth_fields m n d : marshal (PAuth m n) = Some d -> d <> [] /\ read_auth_fields d = Some (m, n).
Proof.
  unfold marshal. destruct (Z.leb_spec (Z.of_nat (length m)) MaxUint64); [| done].
  intros Hd. apply (inj Some) in Hd as <-. split; [done |]. unfold read_auth_fields. by rewrite take_field_ok.
Qed.

#[export] Instance payload_codec : PayloadCodec.
Proof.
  refine {| pc_env := env_codec; dec_challenge := fun b => Some (tl b); dec_auth := read_auth_fields;
    dec_ack := fun b => Some (tl b); dec_hello := read_hello; dec_config := fun _ => None;
    dec_usage := fun _ => None; dec_usage_ack := fun _ => None; dec_link := fun _ => None;
    dec_linker_config := fun b => Some (read_strings (length b) b) |}.
  - by intros n d _ [= <-].
  - intros m n d _. apply auth_fields.
  - by intros m d _ [= <-].
Defined.
End FieldCodec.

Section witnesses.
#[local] Existing Instance FieldCodec.payload_codec.

Definition demo_psk : bytes := [1; 2; 3; 4].
Definition or_nothing {E} (r : result E bytes) : bytes := match r with Ok b => b | Err _ => [] end.
Definition demo_mac : bytes := or_nothing (SignAuth demo_psk nonce_a nonce_b).
Definition demo_proof : bytes := or_nothing (SignAuthAck demo_psk nonce_a nonce_b).
Definition demo_challenge : bytes := or_nothing (WriteFrame MsgChallenge (Some (PChallenge nonce_a))).
Definition demo_auth : bytes := or_nothing (WriteFrame MsgAuth (Some (PAuth demo_mac nonce_b))).
Definition demo_ack : bytes := or_nothing (WriteFrame MsgAuthAck (Some (PAuthAck demo_proof))).
Definition demo_dialler : Session := demo_session true.
Definition demo_hello : Hello := mkHello "v1" "home" "" "" 0.
Definition demo_hello_sent : result frame_error bytes * Session :=
  Session_WriteFrame true MsgHello (Some (PHello demo_hello)) demo_dialler.
Definition demo_ping : bytes := or_nothing (Session_WriteFrame true MsgPing None demo_hello_sent.2).1.
Definition demo_stream : bytes := demo_auth ++ or_nothing demo_hello_sent.1 ++ demo_ping.

Lemma handshake_agrees_witness :
  (dial_handshake demo_psk nonce_b true (demo_challenge ++ demo_ack ++ [])
     = Some (Ok (demo_dialler, []), [demo_auth]))
  /\ exists first t, serve_handshake demo_psk nonce_a true true (demo_auth ++ or_nothing demo_hello_sent.1 ++ demo_ping)
        = Some (Ok (t, first, demo_ping), [demo_challenge; demo_ack])
       /\ env_Type first = MsgHello /\ marshal_payload (PHello demo_hello) = Some (env_Data first)
       /\ in_step demo_hello_sent.2 t /\ in_step t demo_hello_sent.2.
Proof.
  apply (handshake_agrees demo_psk nonce_b nonce_a demo_mac demo_proof demo_challenge demo_auth demo_ack demo_hello
    (or_nothing demo_hello_sent.1) demo_dialler demo_hello_sent.2 [] demo_ping); vm_compute; reflexivity.
Defined.

(** A connection of the backend, from the address the configuration gives it. *)
Definition demo_front : frontState :=
  mkFront NewControlServer NewRegistry (mkStore emptyDB []) (sample_engine 2 (UnixTime 1000) (UnixTime 10)).
Definition demo_peer : string := ov_BackendIP (cfg_Overlay Defaults).
Definition demo_turns : list turn := repeat (mkTurn (UnixTime 1200) (fun _ => UnixTime 1200) true) 3.
Definition demo_served (peer : string) : option (serve_end * frontState) :=
  serve (fun _ => None) demo_psk nonce_a true true peer (UnixTime 1130) (UnixTime 1300) demo_turns demo_stream demo_front.

Example demo_served_end : fst <$> demo_served demo_peer = Some (EndGone ErrEOF)
  /\ rg_backendVersion ∘ fs_reg ∘ snd <$> demo_served demo_peer = Some "v1"%string
  /\ fst <$> demo_served "192.0.2.9" = Some EndNotBackend.
Proof. vm_compute. split_and!; reflexivity. Qed.

Lemma serve_strangers_change_nothing_witness :
  exists e fs', demo_served demo_peer = Some (e, fs') /\ fs' <> demo_front
  /\ exists first, proves demo_psk nonce_a demo_stream first /\ entitled (fs_cfg demo_front) demo_peer (hello_of first).
Proof.
  destruct (demo_served demo_peer) as [[e fs']|] eqn:E.
  - exists e, fs'. split; [reflexivity |].
    assert (Hne : fs' <> demo_front).
    { intros ->. apply (f_equal (fmap (rg_backendVersion ∘ fs_reg ∘ snd))) in E. vm_compute in E. discriminate. }
    split; [exact Hne |]. destruct (serve_strangers_change_nothing _ _ _ _ _ _ _ _ _ _ _ _ _ E) as [He|Hx]; [by destruct Hne | exact Hx].
  - exfalso. revert E. vm_compute. discriminate.
Defined.

Lemma serve_balanced_witness :
  exists e fs', demo_served demo_peer = Some (e, fs') /\ rg_backendConns (fs_reg fs') = 0.
Proof.
  destruct (demo_served demo_peer) as [[e fs']|] eqn:E.
  - exists e, fs'. split; [reflexivity |].
    assert (Hc : 0 <= rg_backendConns (fs_reg demo_front) < MaxInt64) by (vm_compute; by split).
    exact (proj1 (serve_balanced _ _ _ _ _ _ _ _ _ _ _ _ _ Hc E)).
  - exfalso. revert E. vm_compute. discriminate.
Defined.

(** The linker of a configuration that has one, which sends a usage frame. *)
Definition demo_linker_ip : string := "10.99.0.11".
Definition demo_linker_hello : Hello := mkHello "v1" "games" "linker" demo_linker_ip 200.
Definition demo_linker_stream : bytes :=
  demo_auth ++ or_nothing (Session_WriteFrame true MsgHello (Some (PHello demo_linker_hello)) demo_dialler).1
  ++ or_nothing (Session_WriteFrame true MsgUsage (Some (PAuthAck [5])) demo_hello_sent.2).1.
Definition demo_linker_front : frontState :=
  mkFront NewControlServer NewRegistry (mkStore emptyDB [])
    (let e := sample_engine 2 (UnixTime 1000) (UnixTime 10) in
     let c := e_cfg e in
     mkEngine (mkConfig (cfg_Mode c) (cfg_Frontend c) (cfg_Overlay c) (cfg_Paths c) (cfg_Probe c) (cfg_Failover c)
                 (cfg_Services c) [mkLinker "games" demo_linker_ip "192.168.1.50" 200 true] (cfg_BackendLAN c)
                 (cfg_Egress c) (cfg_Notify c) (cfg_Protect c) (cfg_QueryCache c) (cfg_Blocklist c))
       (e_trackers e) (e_probers e) (e_blocks e) (e_quotaDec e) (e_active e) (e_pinned e) (e_decisionSeq e)
       (e_lastSwitch e) (e_beatenSince e) (e_held e) (e_heldReason e) (e_reverted e) (e_dataPlane e) (e_cfgVersion e)).

Lemma only_backend_bills_witness :
  exists e fs', serve (fun _ => None) demo_psk nonce_a true true demo_linker_ip (UnixTime 1130) (UnixTime 1300)
                  demo_turns demo_linker_stream demo_linker_front = Some (e, fs')
    /\ rg_linkerSeen (fs_reg fs') !! demo_linker_ip = Some (UnixTime 1200)
    /\ only_meta (metaLinkerSeen demo_linker_ip) demo_linker_front fs'.
Proof.
  destruct (serve (fun _ => None) demo_psk nonce_a true true demo_linker_ip (UnixTime 1130) (UnixTime 1300)
                  demo_turns demo_linker_stream demo_linker_front) as [[e fs']|] eqn:E.
  - exists e, fs'. split; [reflexivity |]. split.
    + revert E. vm_compute. by intros [= _ <-].
    + assert (Hk : KnownBackend (fs_cfg demo_linker_front) demo_linker_ip = false) by (vm_compute; reflexivity).
      exact (only_backend_bills _ _ _ _ _ _ _ _ _ _ _ _ _ Hk E).
  - exfalso. revert E. vm_compute. discriminate.
Defined.

(** A linker that is pinged and then told its networks. *)
Definition demo_told : bytes :=
  let '(o1, s) := Session_WriteFrame true MsgPing None (demo_session false) in
  let '(o2, _) := Session_WriteFrame true MsgLinkerConfig (Some (PLinkerConfig ["172.20.0.0/16"])) s in
  demo_challenge ++ demo_ack ++ or_nothing o1 ++ or_nothing o2.
Definition demo_client : option (list (Envelope * told)) :=
  client_session linker_told demo_psk nonce_b demo_linker_hello true true [true; true; true] demo_told.

Lemma client_acts_on_proven_witness :
  exists l, demo_client = Some l /\ l.*2 = [ToldEgress ["172.20.0.0/16"]]
    /\ exists nonce proof s, VerifyAuthAck demo_psk nonce nonce_b proof = true /\ NewSession demo_psk nonce nonce_b true = Ok s
       /\ Forall (fun p => (exists seq, frame_proven s seq p.1) /\ linker_told p.1 = Some p.2) l
       /\ StronglySorted Z.lt ((fun p => env_Seq p.1) <$> l).
Proof.
  destruct demo_client as [l|] eqn:E; [| exfalso; revert E; vm_compute; discriminate].
  assert (Hl : l.*2 = [ToldEgress ["172.20.0.0/16"]]) by (revert E; vm_compute; by intros [= <-]).
  exists l. split; [reflexivity |]. split; [exact Hl |].
  apply (client_acts_on_proven linker_told demo_psk nonce_b demo_linker_hello true true [true; true; true] demo_told).
  - exact E.
  - intros ->. discriminate Hl.
  - vm_compute. discriminate.
Defined.

Lemma linkerBackoff_stuck_witness : Nat.iter 7 linkerBackoff Second = 32 * Second.
Proof. apply (linkerBackoff_stuck 7). repeat constructor. Defined.
End witnesses.
