(* ===== verification/A2S.v ===== *)
(** * Source-engine queries ([internal/qcache/a2s.go])

    The datagrams a server browser sends and the query cache answers: the
    classification of a client's query, the challenge that proves a source
    address before anything large is sent to it, the requests the cache sends
    upstream, and the header of a fragment of a long reply. *)

From S2P Require Import Prelude Bytes Sha256.

Definition typeInfoRequest : Z := 84.
Definition typePlayerRequest : Z := 85.
Definition typeRulesRequest : Z := 86.
Definition typeChallenge : Z := 65.

Definition headerSingle : bytes := [255; 255; 255; 255].
Definition headerMulti : bytes := [254; 255; 255; 255].
Definition infoPayload : bytes := string_bytes "Source Engine Query" ++ [0].
Definition noChallenge : bytes := [255; 255; 255; 255].
Definition maxFragments : Z := 16.

Inductive queryKind :=
| queryNone | queryInfoBare | queryInfoChallenged | queryPlayerBare | queryPlayerChallenged
| queryRulesBare | queryRulesChallenged.

#[export] Instance queryKind_eq_dec : EqDecision queryKind.
Proof. solve_decision. Defined.

(** [bytes.HasPrefix]. *)
Definition has_prefix (p b : bytes) : bool := bytes_eqb (take (length p) b) p.

(** A query and the challenge it carries. *)
Definition classify (b : bytes) : queryKind * bytes :=
  if (length b <? 5)%nat || negb (bytes_eqb (take 4 b) headerSingle) then (queryNone, [])
  else
    let body := drop 5 b in
    let typ := nth 4 b 0 in
    if typ =? typeInfoRequest then
      if negb (has_prefix infoPayload body) then (queryNone, [])
      else
        let rest := drop (length infoPayload) body in
        match length rest with
        | 0%nat => (queryInfoBare, [])
        | 4%nat => if bytes_eqb rest noChallenge then (queryInfoBare, []) else (queryInfoChallenged, rest)
        | _ => (queryNone, [])
        end
    else if (typ =? typePlayerRequest) || (typ =? typeRulesRequest) then
      if negb (length body =? 4)%nat then (queryNone, [])
      else
        let bare := bytes_eqb body noChallenge in
        if typ =? typeRulesRequest then
          if bare then (queryRulesBare, []) else (queryRulesChallenged, body)
        else if bare then (queryPlayerBare, []) else (queryPlayerChallenged, body)
    else (queryNone, []).

Definition challengeReply (ch : bytes) : bytes := headerSingle ++ [typeChallenge] ++ ch.
Definition infoRequest (challenge : option bytes) : bytes :=
  headerSingle ++ [typeInfoRequest] ++ infoPayload ++ default [] challenge.
Definition challengedRequest (typ : Z) (challenge : option bytes) : bytes :=
  headerSingle ++ [typ] ++ default noChallenge challenge.
Definition playerRequest (challenge : option bytes) : bytes :=
  challengedRequest typePlayerRequest challenge.
Definition rulesRequest (challenge : option bytes) : bytes :=
  challengedRequest typeRulesRequest challenge.

Definition isChallenge (b : bytes) : option bytes :=
  if (length b =? 9)%nat && bytes_eqb (take 4 b) headerSingle && (nth 4 b 0 =? typeChallenge)
  then Some (slice 5 9 b) else None.

(** The number of fragments of a reply and the place of this one. *)
Definition fragmentMeta (b : bytes) : option (Z * Z) :=
  if (length b <? 10)%nat || negb (bytes_eqb (take 4 b) headerMulti) then None
  else
    let total := nth 8 b 0 in
    let index := nth 9 b 0 in
    if (total <? 1) || (maxFragments <? total) || (total <=? index) then None
    else Some (total, index).

Definition hmacEqual (a b : bytes) : bool := bytes_eqb a b.

Definition challengeBucketSecs : Z := 30.

(** What the challenge to a source is computed from. *)
Definition challenge_input (srcIP : bytes) (srcPort dstPort bucket : Z) : bytes :=
  srcIP ++ put_be 2 srcPort ++ put_be 2 dstPort ++ put_be 8 bucket.
Definition challengeFor (secret srcIP : bytes) (srcPort dstPort bucket : Z) : bytes :=
  let sum := take 4 (hmac_sha256 secret (challenge_input srcIP srcPort dstPort bucket)) in
  if bytes_eqb sum noChallenge then [255; 255; 255; 254] else sum.

(** ** The queries, as the protocol builds them *)

(** The client side of the protocol: the query of a kind, with its challenge. *)
Inductive is_query : bytes -> queryKind -> bytes -> Prop :=
| Q_info_bare : is_query (infoRequest None) queryInfoBare []
| Q_info_marker : is_query (infoRequest (Some noChallenge)) queryInfoBare []
| Q_info ch : length ch = 4%nat -> ch <> noChallenge ->
    is_query (infoRequest (Some ch)) queryInfoChallenged ch
| Q_player_bare : is_query (playerRequest None) queryPlayerBare []
| Q_player ch : length ch = 4%nat -> ch <> noChallenge ->
    is_query (playerRequest (Some ch)) queryPlayerChallenged ch
| Q_rules_bare : is_query (rulesRequest None) queryRulesBare []
| Q_rules ch : length ch = 4%nat -> ch <> noChallenge ->
    is_query (rulesRequest (Some ch)) queryRulesChallenged ch.

Lemma has_prefix_iff p b : has_prefix p b = true <-> exists rest, b = p ++ rest.
Proof.
  unfold has_prefix. rewrite bytes_eqb_eq. split.
  - intros H. exists (drop (length p) b). by rewrite <- H at 1; rewrite take_drop.
  - intros [rest ->]. apply take_app_length.
Qed.

(** A datagram split at its type byte. *)
Lemma split_query b :
  (length b <? 5)%nat || negb (bytes_eqb (take 4 b) headerSingle) = false ->
  b = headerSingle ++ [nth 4 b 0] ++ drop 5 b.
Proof.
  intros H. apply orb_false_iff in H as [H1 H2]. apply Nat.ltb_ge in H1.
  apply negb_false_iff, bytes_eqb_eq in H2.
  rewrite <- H2. destruct b as [|b0 [|b1 [|b2 [|b3 [|b4 b]]]]]; simpl in *; try lia.
  done.
Qed.

Lemma classify_built typ body :
  classify (headerSingle ++ [typ] ++ body)
  = if typ =? typeInfoRequest then
      if negb (has_prefix infoPayload body) then (queryNone, [])
      else match length (drop (length infoPayload) body) with
        | 0%nat => (queryInfoBare, [])
        | 4%nat => if bytes_eqb (drop (length infoPayload) body) noChallenge then (queryInfoBare, [])
                   else (queryInfoChallenged, drop (length infoPayload) body)
        | _ => (queryNone, [])
        end
    else if (typ =? typePlayerRequest) || (typ =? typeRulesRequest) then
      if negb (length body =? 4)%nat then (queryNone, [])
      else if typ =? typeRulesRequest then
        if bytes_eqb body noChallenge then (queryRulesBare, []) else (queryRulesChallenged, body)
      else if bytes_eqb body noChallenge then (queryPlayerBare, []) else (queryPlayerChallenged, body)
    else (queryNone, []).
Proof. reflexivity. Qed.

Lemma classify_complete b k ch : is_query b k ch -> classify b = (k, ch).
Proof.
  assert (Hne : forall c, c <> noChallenge -> bytes_eqb c noChallenge = false)
    by (intros c; apply bytes_eqb_neq).
  destruct 1 as [| | ch Hl Hn | | ch Hl Hn | | ch Hl Hn];
    unfold infoRequest, playerRequest, rulesRequest, challengedRequest; cbn [default from_option id];
    rewrite classify_built; cbn [typeInfoRequest typePlayerRequest typeRulesRequest Z.eqb Pos.eqb orb].
  - reflexivity.
  - reflexivity.
  - rewrite (proj2 (has_prefix_iff infoPayload _)) by (by eexists). cbn [negb].
    rewrite drop_app_length, Hl, Hne by done. done.
  - reflexivity.
  - rewrite Hl, Hne by done. done.
  - reflexivity.
  - rewrite Hl, Hne by done. done.
Qed.

Lemma classify_sound b k ch : classify b = (k, ch) -> k <> queryNone -> is_query b k ch.
Proof.
  intros H Hk. destruct ((length b <? 5)%nat || negb (bytes_eqb (take 4 b) headerSingle)) eqn:E.
  { unfold classify in H. rewrite E in H. by injection H as <-. }
  apply split_query in E. revert H E. generalize (nth 4 b 0) (drop 5 b). intros typ body H E.
  subst b. rewrite classify_built in H.
  destruct (Z.eqb_spec typ typeInfoRequest) as [-> | H1].
  - destruct (has_prefix infoPayload body) eqn:Ep; cbn [negb] in H; [| by injection H as <-].
    apply has_prefix_iff in Ep as [rest ->]. rewrite drop_app_length in H.
    destruct rest as [|r0 [|r1 [|r2 [|r3 [|r4 rest]]]]]; cbn [length] in H;
      try (by injection H as <-).
    + injection H as <- <-. exact Q_info_bare.
    + destruct (bytes_eqb _ noChallenge) eqn:Ec; injection H as <- <-.
      * apply bytes_eqb_eq in Ec. rewrite Ec. exact Q_info_marker.
      * apply bytes_eqb_neq in Ec. by apply (Q_info [r0; r1; r2; r3]).
  - destruct ((typ =? typePlayerRequest) || (typ =? typeRulesRequest)) eqn:Et; [| by injection H as <-].
    destruct (length body =? 4)%nat eqn:El; cbn [negb] in H; [| by injection H as <-].
    apply Nat.eqb_eq in El.
    destruct (Z.eqb_spec typ typeRulesRequest) as [-> | H2].
    + destruct (bytes_eqb body noChallenge) eqn:Ec; injection H as <- <-.
      * apply bytes_eqb_eq in Ec as ->. exact Q_rules_bare.
      * apply bytes_eqb_neq in Ec. by apply (Q_rules body).
    + rewrite orb_false_r in Et. apply Z.eqb_eq in Et as ->.
      destruct (bytes_eqb body noChallenge) eqn:Ec; injection H as <- <-.
      * apply bytes_eqb_eq in Ec as ->. exact Q_player_bare.
      * apply bytes_eqb_neq in Ec. by apply (Q_player body).
Qed.

(** The classifier answers exactly the queries of the protocol.  A datagram
    is given a kind and a challenge if and only if it is, byte for byte, the
    query of that kind carrying that challenge (the all-ones marker counting
    as none); every other datagram is given none and answered by silence. *)
Theorem classify_exact b k ch :
  k <> queryNone -> (classify b = (k, ch) <-> is_query b k ch).
Proof. intros Hk. split; [by intros H; apply classify_sound | apply classify_complete]. Qed.

Lemma classify_exact_witness :
  classify (playerRequest (Some [1; 2; 3; 4])) = (queryPlayerChallenged, [1; 2; 3; 4])
  <-> is_query (playerRequest (Some [1; 2; 3; 4])) queryPlayerChallenged [1; 2; 3; 4].
Proof. apply (classify_exact (playerRequest (Some [1; 2; 3; 4]))). discriminate. Defined.

(** ** Challenges *)

Lemma challengeFor_length secret ip sp dp bucket :
  length (challengeFor secret ip sp dp bucket) = 4%nat.
Proof.
  unfold challengeFor. split_if; [done |]. rewrite length_take, length_hmac. done.
Qed.

(** The marker of a bare query is never a challenge. *)
Lemma challengeFor_marker secret ip sp dp bucket :
  challengeFor secret ip sp dp bucket <> noChallenge.
Proof.
  unfold challengeFor. destruct (bytes_eqb _ noChallenge) eqn:E; [done |].
  by apply bytes_eqb_neq in E.
Qed.

(** Sources, ports and buckets that differ are challenged with different
    strings under the key. *)
Lemma challenge_input_inj ip ip' sp sp' dp dp' bk bk' :
  length ip = length ip' -> 0 <= sp < 65536 -> 0 <= sp' < 65536 -> 0 <= dp < 65536 -> 0 <= dp' < 65536 ->
  in_u64 bk -> in_u64 bk' ->
  challenge_input ip sp dp bk = challenge_input ip' sp' dp' bk' ->
  ip = ip' /\ sp = sp' /\ dp = dp' /\ bk = bk'.
Proof.
  intros Hl Hs Hs' Hd Hd' Hb Hb' H. unfold challenge_input in H.
  apply app_inj_1 in H as [-> H]; [| done].
  apply app_inj_1 in H as [H1 H]; [| by rewrite !length_put_be].
  apply app_inj_1 in H as [H2 H3]; [| by rewrite !length_put_be].
  apply put_be_inj in H1, H2, H3; [done | ..]; cbn; unfold in_u64, MaxUint64 in *; lia.
Qed.

(** The challenge the cache sends is recognised as one, and echoed in full. *)
Lemma isChallenge_reply secret ip sp dp bucket :
  isChallenge (challengeReply (challengeFor secret ip sp dp bucket))
  = Some (challengeFor secret ip sp dp bucket).
Proof.
  pose proof (challengeFor_length secret ip sp dp bucket) as H.
  destruct (challengeFor _ _ _ _ _) as [|c0 [|c1 [|c2 [|c3 [|c4 l]]]]]; try done.
Qed.
