(* ===== verification/Pacer.v ===== *)
(** * Reply pacing ([internal/qcache/pace.go])

    A token bucket of reply bytes per source address, in a table kept in order
    of use: the least recently seen source is dropped when the table is full,
    and an idle one when it is found at the end. *)

From S2P Require Import Prelude GoTime Float64 Bytes.

Definition paceBurstBytes : Z := Z.shiftl 512 10.
Definition paceRefillPerSec : Z := Z.shiftl 64 10.
Definition paceIdleAfter : Duration := 2 * Minute.
Definition paceMaxSources : Z := 4096.

Record paceEntry := mkPaceEntry { pe_key : bytes; pe_tokens : float64; pe_last : Time }.

(** [pc_by] is the key set of the index, [pc_lru] the list, most recent first. *)
Record pacer := mkPacer {
  pc_burst : float64; pc_refill : float64; pc_idle : Duration; pc_max : Z;
  pc_by : gset bytes; pc_lru : list paceEntry }.

Definition newPacer (burst refillPerSec : Z) (idle : Duration) (max : Z) : pacer :=
  mkPacer (f64_of_Z burst) (f64_of_Z refillPerSec) idle max ∅ [].

Definition with_table (by_ : gset bytes) (lru : list paceEntry) (p : pacer) : pacer :=
  mkPacer (pc_burst p) (pc_refill p) (pc_idle p) (pc_max p) by_ lru.

(** [Duration.Seconds]. *)
Definition Seconds (d : Duration) : float64 :=
  fadd (f64_of_Z (Z.quot d Second)) (fdiv (f64_of_Z (Z.rem d Second)) (f64_of_Z 1000000000)).

(** [evict] of the back element. *)
Definition evict_back (p : pacer) : pacer :=
  match last (pc_lru p) with
  | None => p
  | Some e => with_table (pc_by p ∖ {[pe_key e]}) (removelast (pc_lru p)) p
  end.

(** [prune], one step per entry of the table. *)
Fixpoint prune_loop (fuel : nat) (now : Time) (p : pacer) : pacer :=
  match fuel with
  | O => p
  | S fuel =>
      match last (pc_lru p) with
      | None => p
      | Some e => if Sub now (pe_last e) <=? pc_idle p then p else prune_loop fuel now (evict_back p)
      end
  end.
Definition prune (now : Time) (p : pacer) : pacer := prune_loop (length (pc_lru p)) now p.

(** The bucket after the time since it was last seen. *)
Definition refilled (now : Time) (p : pacer) (e : paceEntry) : paceEntry :=
  let elapsed := Sub now (pe_last e) in
  if 0 <? elapsed then
    mkPaceEntry (pe_key e)
      (fmin (pc_burst p) (fadd (pe_tokens e) (fmul (Seconds elapsed) (pc_refill p)))) now
  else e.

Definition find_entry (k : bytes) (l : list paceEntry) : option paceEntry :=
  List.find (fun e => bytes_eqb (pe_key e) k) l.
Definition without (k : bytes) (l : list paceEntry) : list paceEntry :=
  List.filter (fun e => negb (bytes_eqb (pe_key e) k)) l.

(** The source's bucket at the front of the table. *)
Definition touch (k : bytes) (now : Time) (p : pacer) : paceEntry * pacer :=
  let fresh p :=
    let p := if pc_max p <=? Z.of_nat (length (pc_lru p)) then evict_back p else p in
    let e := mkPaceEntry k (pc_burst p) now in
    (e, with_table (pc_by p ∪ {[k]}) (e :: pc_lru p) p) in
  if bool_decide (k ∈ pc_by p) then
    match find_entry k (pc_lru p) with
    | Some e => let e := refilled now p e in (e, with_table (pc_by p) (e :: without k (pc_lru p)) p)
    | None => fresh p
    end
  else fresh p.

(** [allow]: whether a reply of [n] bytes may go, and the table after. *)
Definition allow (k : bytes) (n : Z) (now : Time) (p : pacer) : bool * pacer :=
  let '(e, p) := touch k now (prune now p) in
  if flt (pe_tokens e) (f64_of_Z n) then (false, p)
  else (true, with_table (pc_by p)
                (mkPaceEntry (pe_key e) (fsub (pe_tokens e) (f64_of_Z n)) (pe_last e)
                 :: tl (pc_lru p)) p).

(** ** The table *)

Record table_ok (p : pacer) : Prop := {
  tok_index : forall k, k ∈ pc_by p <-> k ∈ pe_key <$> pc_lru p;
  tok_nodup : NoDup (pe_key <$> pc_lru p);
  tok_size : pc_max p >= 1 -> Z.of_nat (length (pc_lru p)) <= pc_max p }.

Lemma snoc_cases {A} (l : list A) : l = [] \/ exists l' x, l = l' ++ [x].
Proof. induction l as [|x l' _] using rev_ind; [by left | right; by exists l', x]. Qed.

Lemma evict_back_snoc p l e :
  pc_lru p = l ++ [e] -> evict_back p = with_table (pc_by p ∖ {[pe_key e]}) l p.
Proof. intros H. unfold evict_back. by rewrite H, last_snoc, removelast_last. Qed.

Lemma evict_back_ok p : table_ok p -> table_ok (evict_back p).
Proof.
  intros [H1 H2 H3]. destruct (snoc_cases (pc_lru p)) as [Hn | (l & e & Hl)].
  { unfold evict_back. by rewrite Hn. }
  rewrite (evict_back_snoc p l e Hl). rewrite Hl in *.
  rewrite fmap_app in H2. apply NoDup_app in H2 as (H2 & Hd & _).
  split; cbn [pc_by pc_lru with_table pc_max].
  - intros k. rewrite elem_of_difference, elem_of_singleton, H1, fmap_app, elem_of_app.
    split.
    + intros [[Hk | Hk%list_elem_of_singleton] Hne]; [done |]. by subst k.
    + intros Hk. split; [by left |]. intros ->. apply (Hd _ Hk). by left.
  - done.
  - intros Hm. specialize (H3 Hm). rewrite length_app in H3. simpl in H3. lia.
Qed.

Lemma prune_loop_ok fuel now : forall p, table_ok p -> table_ok (prune_loop fuel now p).
Proof.
  induction fuel as [|fuel IH]; intros p Hp; [done |]. simpl.
  destruct (last (pc_lru p)); [| done]. split_if; [done |]. by apply IH, evict_back_ok.
Qed.

(** What remains of a table is a front part of it, with the same settings. *)
Lemma prune_loop_prefix fuel now : forall p,
  pc_lru (prune_loop fuel now p) `prefix_of` pc_lru p
  /\ pc_max (prune_loop fuel now p) = pc_max p /\ pc_idle (prune_loop fuel now p) = pc_idle p
  /\ pc_burst (prune_loop fuel now p) = pc_burst p
  /\ pc_refill (prune_loop fuel now p) = pc_refill p.
Proof.
  assert (Hrefl : forall p, pc_lru p `prefix_of` pc_lru p /\ pc_max p = pc_max p
    /\ pc_idle p = pc_idle p /\ pc_burst p = pc_burst p /\ pc_refill p = pc_refill p)
    by (intros p; split; [reflexivity | done]).
  induction fuel as [|fuel IH]; intros p; [apply Hrefl |]. simpl.
  destruct (snoc_cases (pc_lru p)) as [Hl | (l & e & Hl)].
  { replace (last (pc_lru p)) with (@None paceEntry) by by rewrite Hl. apply Hrefl. }
  replace (last (pc_lru p)) with (Some e) by by rewrite Hl, last_snoc.
  split_if; [apply Hrefl |]. rewrite Hl.
  rewrite (evict_back_snoc p l e Hl).
  destruct (IH (with_table (pc_by p ∖ {[pe_key e]}) l p)) as (H1 & H2 & H3 & H4 & H5).
  split_and!; [| done | done | done | done].
  etrans; [exact H1 |]. cbn [pc_lru with_table]. by exists [e].
Qed.

Lemma find_entry_some k l e : find_entry k l = Some e -> e ∈ l /\ pe_key e = k.
Proof.
  unfold find_entry. intros H. apply find_some in H as [H1 H2].
  split; [by apply list_elem_of_In | by apply bytes_eqb_eq].
Qed.

Lemma find_entry_none k l : find_entry k l = None -> k ∉ pe_key <$> l.
Proof.
  unfold find_entry. intros H (e & -> & He)%list_elem_of_fmap.
  apply list_elem_of_In in He. pose proof (find_none _ _ H e He) as Hk.
  by apply bytes_eqb_neq in Hk.
Qed.

Lemma without_keys k l k' : k' ∈ pe_key <$> without k l <-> k' ∈ pe_key <$> l /\ k' <> k.
Proof.
  unfold without. rewrite !list_elem_of_fmap. split.
  - intros (e & -> & He). apply list_elem_of_In, filter_In in He as [H1 H2].
    apply negb_true_iff, bytes_eqb_neq in H2. split; [| done]. exists e.
    split; [done | by apply list_elem_of_In].
  - intros [(e & -> & He) Hne]. exists e. split; [done |]. apply list_elem_of_In, filter_In.
    split; [by apply list_elem_of_In |]. by apply negb_true_iff, bytes_eqb_neq.
Qed.

Lemma without_nodup k l : NoDup (pe_key <$> l) -> NoDup (pe_key <$> without k l).
Proof.
  induction l as [|e l IH]; [done |]. rewrite fmap_cons. intros Hnd.
  apply NoDup_cons in Hnd as [H1 H2]. unfold without in *. simpl. split_if; [| by apply IH].
  rewrite fmap_cons. apply NoDup_cons. split; [| by apply IH].
  intros Hin. apply H1. by apply (without_keys k l (pe_key e)) in Hin as [? _].
Qed.

Lemma without_length k l : NoDup (pe_key <$> l) -> k ∈ pe_key <$> l ->
  S (length (without k l)) = length l.
Proof.
  induction l as [|e l IH]; intros Hnd Hin; [by apply elem_of_nil in Hin |].
  rewrite fmap_cons in *. apply NoDup_cons in Hnd as [H1 H2]. unfold without in *. simpl.
  destruct (bytes_eqb (pe_key e) k) eqn:E; cbn [negb].
  - apply bytes_eqb_eq in E. f_equal.
    assert (Hall : forall l', k ∉ pe_key <$> l' ->
      List.filter (fun e => negb (bytes_eqb (pe_key e) k)) l' = l').
    { induction l' as [|x l' IHl]; intros Hn; [done |]. rewrite fmap_cons, elem_of_cons in Hn.
      simpl. rewrite (proj2 (bytes_eqb_neq (pe_key x) k)) by naive_solver. cbn [negb].
      f_equal. apply IHl. naive_solver. }
    rewrite Hall; [done |]. by rewrite <- E.
  - apply bytes_eqb_neq in E. apply elem_of_cons in Hin as [Hin | Hin]; [by subst |].
    simpl. f_equal. by apply IH.
Qed.

Lemma in_find k l : k ∈ pe_key <$> l -> exists e, find_entry k l = Some e.
Proof.
  intros H. destruct (find_entry k l) as [e|] eqn:E; [by eexists |].
  by apply find_entry_none in E.
Qed.

(** The entry a source starts from: its own, refilled, or a full bucket. *)
Definition bucket (p : pacer) (k : bytes) : option paceEntry := find_entry k (pc_lru p).
Definition start_bucket (p : pacer) (k : bytes) (now : Time) : paceEntry :=
  match bucket p k with
  | Some e => refilled now p e
  | None => mkPaceEntry k (pc_burst p) now
  end.

Lemma start_bucket_key p k now : pe_key (start_bucket p k now) = k.
Proof.
  unfold start_bucket, bucket. destruct (find_entry k (pc_lru p)) as [e|] eqn:E; [| done].
  apply find_entry_some in E as [_ <-]. unfold refilled. by split_if.
Qed.

(** The table before the source is put at its front. *)
Definition others (p : pacer) (k : bytes) : list paceEntry :=
  match bucket p k with
  | Some _ => without k (pc_lru p)
  | None => if pc_max p <=? Z.of_nat (length (pc_lru p)) then removelast (pc_lru p) else pc_lru p
  end.

Lemma touch_eq k now p :
  table_ok p ->
  (touch k now p).1 = start_bucket p k now
  /\ pc_lru (touch k now p).2 = start_bucket p k now :: others p k
  /\ pc_max (touch k now p).2 = pc_max p /\ table_ok (touch k now p).2.
Proof.
  intros [H1 H2 H3]. pose proof (start_bucket_key p k now) as Hk.
  unfold touch. case_bool_decide as Hin.
  - apply H1 in Hin. destruct (in_find k _ Hin) as [e He].
    assert (Hs : start_bucket p k now = refilled now p e)
      by (unfold start_bucket, bucket; by rewrite He).
    assert (Ho : others p k = without k (pc_lru p)) by (unfold others, bucket; by rewrite He).
    rewrite He, Ho, <- Hs. cbn [fst snd pc_lru with_table pc_max]. split_and!; try done.
    split; cbn [pc_by pc_lru with_table pc_max].
    + intros k'. rewrite H1, fmap_cons, elem_of_cons, without_keys, Hk.
      destruct (decide (k' = k)) as [-> | Hne]; naive_solver.
    + rewrite fmap_cons, Hk. apply NoDup_cons. rewrite without_keys. split; [naive_solver |].
      by apply without_nodup.
    + intros Hm. specialize (H3 Hm). pose proof (without_length k _ H2 Hin). simpl. lia.
  - rewrite H1 in Hin.
    assert (Hf : bucket p k = None).
    { unfold bucket. destruct (find_entry k (pc_lru p)) as [e|] eqn:E; [| done].
      apply find_entry_some in E as [He <-]. exfalso. apply Hin. by apply list_elem_of_fmap_2. }
    assert (Hs : start_bucket p k now = mkPaceEntry k (pc_burst p) now)
      by (unfold start_bucket; by rewrite Hf).
    set (p1 := if pc_max p <=? Z.of_nat (length (pc_lru p)) then evict_back p else p).
    assert (Hp1 : table_ok p1 /\ pc_lru p1 = others p k /\ pc_max p1 = pc_max p
      /\ pc_burst p1 = pc_burst p /\ (forall x, x ∈ pe_key <$> pc_lru p1 -> x ∈ pe_key <$> pc_lru p)
      /\ (pc_max p >= 1 -> Z.of_nat (length (pc_lru p1)) < pc_max p)).
    { unfold others. rewrite Hf. subst p1.
      destruct (Z.leb_spec (pc_max p) (Z.of_nat (length (pc_lru p)))) as [Hle | Hlt].
      - pose proof (evict_back_ok p (Build_table_ok p H1 H2 H3)) as Hok.
        destruct (snoc_cases (pc_lru p)) as [Hn | (l & e & Hl)].
        + unfold evict_back in *. rewrite Hn in *. cbn [last removelast] in *.
          rewrite Hn. split_and!; try done.
          intros Hm. simpl in Hle. lia.
        + rewrite (evict_back_snoc p l e Hl) in *. rewrite Hl in *. rewrite removelast_last.
          cbn [pc_lru with_table pc_max pc_burst]. split_and!; try done.
          * intros x Hx. rewrite fmap_app, elem_of_app. by left.
          * intros Hm. specialize (H3 Hm). rewrite length_app in H3. simpl in H3. lia.
      - by split_and!. }
    destruct Hp1 as (Hok & Hl & Hmax & Hb & Hsub & Hlen).
    cbn [fst snd pc_lru with_table pc_max]. rewrite Hs, Hl, Hb. split_and!; try done.
    destruct Hok as [K1 K2 K3]. split; cbn [pc_by pc_lru with_table pc_max]; rewrite ?fmap_cons.
    + intros k'. rewrite elem_of_union, elem_of_singleton, K1, Hl, elem_of_cons. naive_solver.
    + apply NoDup_cons. split; [| by rewrite <- Hl]. rewrite <- Hl. intros Hx. by apply Hin, Hsub.
    + rewrite Hmax. intros Hm. specialize (Hlen Hm). rewrite Hl in Hlen. simpl. lia.
Qed.

(** A reply is charged to one bucket. *)
Definition charged (n : Z) (e : paceEntry) : paceEntry :=
  if flt (pe_tokens e) (f64_of_Z n) then e
  else mkPaceEntry (pe_key e) (fsub (pe_tokens e) (f64_of_Z n)) (pe_last e).

Lemma allow_eq k n now p :
  table_ok p ->
  let p1 := prune now p in
  let e := start_bucket p1 k now in
  (allow k n now p).1 = negb (flt (pe_tokens e) (f64_of_Z n))
  /\ pc_lru (allow k n now p).2 = charged n e :: others p1 k
  /\ pc_max (allow k n now p).2 = pc_max p
  /\ pc_idle (allow k n now p).2 = pc_idle p
  /\ table_ok (allow k n now p).2.
Proof.
  intros Hok p1 e. subst p1 e.
  pose proof (prune_loop_ok (length (pc_lru p)) now p Hok) as Hp. fold (prune now p) in Hp.
  destruct (prune_loop_prefix (length (pc_lru p)) now p) as (_ & Hm & Hi & _ & _).
  fold (prune now p) in Hm, Hi.
  destruct (touch_eq k now (prune now p) Hp) as (T1 & T2 & T3 & T4).
  assert (T5 : pc_idle (touch k now (prune now p)).2 = pc_idle (prune now p)).
  { unfold touch, evict_back. repeat case_match; done. }
  unfold allow, charged. destruct (touch k now (prune now p)) as [e p2]. cbn [fst snd] in *. subst e.
  destruct (flt _ _); cbn [fst snd pc_lru pc_max pc_idle with_table negb].
  - split_and!; [done | done | congruence | congruence | done].
  - rewrite T2. cbn [tl]. split_and!; [done | done | congruence | congruence |].
    destruct T4 as [K1 K2 K3]. rewrite T2 in *. split; cbn [pc_by pc_lru with_table pc_max]; done.
Qed.

(** ** A run of replies *)

Record request := mkRequest { rq_src : bytes; rq_bytes : Z; rq_now : Time }.

Definition allow_step (p : pacer) (r : request) : pacer :=
  (allow (rq_src r) (rq_bytes r) (rq_now r) p).2.
Definition allow_run (rs : list request) (p : pacer) : pacer := fold_left allow_step rs p.

(** The table is in order of use, at a clock that does not go back. *)
Definition newer (a b : paceEntry) : Prop := pe_last b <= pe_last a.
Definition used_until (now : Time) (p : pacer) : Prop :=
  StronglySorted newer (pc_lru p) /\ Forall (fun e => pe_last e <= now) (pc_lru p).

Lemma sorted_prefix {A} (R : A -> A -> Prop) l l' :
  l `prefix_of` l' -> StronglySorted R l' -> StronglySorted R l.
Proof.
  intros [k ->]. induction l as [|x l IH]; [constructor |].
  intros H. inversion_clear H. constructor; [by apply IH |]. by apply Forall_app in H1 as [H1 _].
Qed.

Lemma without_sub k l : without k l `sublist_of` l.
Proof.
  unfold without. induction l as [|e l IH]; [done |]. simpl.
  split_if; [by apply sublist_skip | by apply sublist_cons].
Qed.

Lemma sublist_forall {A} (P : A -> Prop) l l' : l `sublist_of` l' -> Forall P l' -> Forall P l.
Proof. induction 1; intros Hf; [done | |]; inversion_clear Hf; auto. Qed.

Lemma sublist_in {A} (x : A) l l' : l `sublist_of` l' -> x ∈ l -> x ∈ l'.
Proof.
  induction 1; [done | |]; intros Hx; [| apply elem_of_cons; auto].
  apply elem_of_cons in Hx as [-> | Hx]; apply elem_of_cons; auto.
Qed.

Lemma sublist_sorted {A} (R : A -> A -> Prop) l l' :
  l `sublist_of` l' -> StronglySorted R l' -> StronglySorted R l.
Proof.
  induction 1 as [|x l l' Hs IH|x l l' Hs IH]; [done | |]; intros H; inversion_clear H.
  - constructor; [by apply IH |]. eapply sublist_forall; eassumption.
  - by apply IH.
Qed.

Lemma others_sub p k : others p k `sublist_of` pc_lru p.
Proof.
  unfold others. destruct (bucket p k); [apply without_sub |]. split_if; [| done].
  destruct (snoc_cases (pc_lru p)) as [Hl | (l & e & Hl)]; rewrite Hl; [done |].
  rewrite removelast_last. by apply sublist_inserts_r.
Qed.

(** The front entry is dated now. *)
Lemma start_bucket_last p k now :
  Forall (fun e => pe_last e <= now) (pc_lru p) -> pe_last (start_bucket p k now) = now.
Proof.
  intros Hall. unfold start_bucket, bucket.
  destruct (find_entry k (pc_lru p)) as [e|] eqn:E; [| done].
  apply find_entry_some in E as [He _]. rewrite Forall_forall in Hall. specialize (Hall e He).
  unfold refilled. destruct (Z.ltb_spec 0 (Sub now (pe_last e))) as [H | H]; [done |].
  assert (~ 0 < Sub now (pe_last e)) as Hn by lia. rewrite Sub_pos in Hn. lia.
Qed.

Lemma prune_recent fuel now : forall p,
  (length (pc_lru p) <= fuel)%nat -> StronglySorted newer (pc_lru p) ->
  Forall (fun e => Sub now (pe_last e) <= pc_idle p) (pc_lru (prune_loop fuel now p)).
Proof.
  induction fuel as [|fuel IH]; intros p Hlen Hs.
  { destruct (pc_lru p) eqn:E; [| simpl in Hlen; lia]. simpl. rewrite E. constructor. }
  simpl. destruct (snoc_cases (pc_lru p)) as [Hl | (l & e & Hl)].
  { replace (last (pc_lru p)) with (@None paceEntry) by by rewrite Hl. rewrite Hl. constructor. }
  replace (last (pc_lru p)) with (Some e) by by rewrite Hl, last_snoc.
  destruct (Z.leb_spec (Sub now (pe_last e)) (pc_idle p)) as [H | H].
  - rewrite Hl in *. apply Forall_forall. intros x [Hx | ->%list_elem_of_singleton]%elem_of_app; [| done].
    assert (pe_last e <= pe_last x).
    { clear -Hs Hx. induction l as [|y l IHl]; [by apply elem_of_nil in Hx |].
      rewrite <- app_comm_cons in Hs. inversion_clear Hs.
      apply elem_of_cons in Hx as [-> | Hx]; [| by apply IHl].
      rewrite Forall_forall in H0. apply (H0 e). apply elem_of_app. right. by left. }
    unfold Sub in *. repeat split_if_in H; repeat split_if; bool_to_prop; go_lia.
  - rewrite (evict_back_snoc p l e Hl). rewrite Hl, length_app in Hlen. simpl in Hlen.
    apply (IH (with_table (pc_by p ∖ {[pe_key e]}) l p)); cbn [pc_lru with_table]; [lia |].
    eapply sorted_prefix; [| exact Hs]. rewrite Hl. by exists [e].
Qed.

Definition recent (now : Time) (p : pacer) : Prop :=
  Forall (fun e => Sub now (pe_last e) <= pc_idle p) (pc_lru p).

Lemma allow_step_ok t p r :
  0 <= pc_idle p -> table_ok p -> used_until t p -> t <= rq_now r ->
  table_ok (allow_step p r) /\ used_until (rq_now r) (allow_step p r)
  /\ recent (rq_now r) (allow_step p r)
  /\ pc_max (allow_step p r) = pc_max p /\ pc_idle (allow_step p r) = pc_idle p.
Proof.
  intros Hi Hok [Hs Hu] Ht. set (now := rq_now r) in *. unfold allow_step. fold now.
  destruct (allow_eq (rq_src r) (rq_bytes r) now p Hok) as (_ & Hl & Hm & Hid & Hok').
  destruct (prune_loop_prefix (length (pc_lru p)) now p) as (Hpre & _ & Hpi & _ & _).
  fold (prune now p) in Hpre, Hpi.
  assert (Hu' : Forall (fun e => pe_last e <= now) (pc_lru (prune now p))).
  { destruct Hpre as [k Hk]. rewrite Hk in Hu. apply Forall_app in Hu as [Hu _].
    eapply Forall_impl; [exact Hu |]. simpl. lia. }
  assert (Hrec : Forall (fun e => Sub now (pe_last e) <= pc_idle p) (pc_lru (prune now p)))
    by by apply prune_recent.
  pose proof (others_sub (prune now p) (rq_src r)) as Hsub.
  assert (Hlast : pe_last (charged (rq_bytes r) (start_bucket (prune now p) (rq_src r) now)) = now).
  { unfold charged. split_if; by apply start_bucket_last. }
  split_and!; [done | split | | done | done]; unfold recent; rewrite Hl, ?Hid.
  - constructor; [eapply sublist_sorted; [exact Hsub | by eapply sorted_prefix] |].
    eapply sublist_forall; [exact Hsub |]. eapply Forall_impl; [exact Hu' |].
    intros e He. unfold newer. by rewrite Hlast.
  - constructor; [lia |]. by eapply sublist_forall.
  - constructor; [rewrite Hlast; unfold Sub; rewrite Z.sub_diag; done |]. by eapply sublist_forall.
Qed.

(** The pacer's table stays small and honest.  Whatever sources ask in
    whatever order, on a clock that does not go back: the index and the list
    hold the same sources, each once; there are never more of them than the
    bound; and after each request every source left was seen within the idle
    time, so stopping the sweep at the first entry in use loses nothing. *)
Theorem pacer_table burst refill idle max rs r :
  1 <= max -> 0 <= idle ->
  StronglySorted Z.le (rq_now <$> (rs ++ [r])) ->
  let p := allow_run (rs ++ [r]) (newPacer burst refill idle max) in
  Z.of_nat (length (pc_lru p)) <= max
  /\ NoDup (pe_key <$> pc_lru p)
  /\ (forall k, k ∈ pc_by p <-> k ∈ pe_key <$> pc_lru p)
  /\ Forall (fun e => Sub (rq_now r) (pe_last e) <= idle) (pc_lru p).
Proof.
  intros Hm Hi Hs p.
  assert (Hinit : forall rs', (rs' = [] \/ exists rs'' r', rs' = rs'' ++ [r']) ->
    StronglySorted Z.le (rq_now <$> rs') ->
    let p := allow_run rs' (newPacer burst refill idle max) in
    table_ok p /\ pc_max p = max /\ pc_idle p = idle
    /\ (forall r', last rs' = Some r' -> used_until (rq_now r') p /\ recent (rq_now r') p)
    /\ (rs' = [] -> pc_lru p = [])).
  { intros rs' _. induction rs' as [|r' rs' IH] using rev_ind; intros Hst.
    - split_and!; try done. split; [by intros k; rewrite elem_of_nil | constructor | simpl; lia].
    - rewrite fmap_app in Hst. assert (Hst' := sorted_prefix _ _ _ (prefix_app_r _ _ _ (reflexivity _)) Hst).
      destruct (IH Hst') as (I1 & I2 & I3 & I4 & I5).
      unfold allow_run in *. rewrite fold_left_app. cbn [fold_left].
      assert (Hstep : exists t, used_until t (fold_left allow_step rs' (newPacer burst refill idle max))
                        /\ t <= rq_now r').
      { destruct (snoc_cases rs') as [-> | (rs'' & r'' & ->)].
        - exists (rq_now r'). split; [| lia]. split; constructor.
        - exists (rq_now r''). split; [apply (I4 r''); by rewrite last_snoc |].
          rewrite fmap_app, <- app_assoc in Hst. clear -Hst.
          induction (rq_now <$> rs'') as [|x l IHl]; [| inversion_clear Hst; by apply IHl].
          inversion_clear Hst. by inversion_clear H0. }
      destruct Hstep as (t & Hut & Ht). rewrite <- I3 in Hi.
      destruct (allow_step_ok t _ r' Hi I1 Hut Ht) as (S1 & S2 & S3 & S4 & S5).
      split_and!; [done | congruence | congruence | | by intros Hn; destruct rs'].
      intros x Hx. rewrite last_snoc in Hx. by injection Hx as <-. }
  destruct (Hinit (rs ++ [r]) (or_intror (ex_intro _ rs (ex_intro _ r eq_refl))) Hs)
    as ([H1 H2 H3] & H4 & H5 & H6 & _). fold p in H1, H2, H3, H4, H5, H6.
  split_and!; [rewrite H4 in H3; apply H3; lia | done | done |].
  destruct (H6 r) as [_ Hr]; [by rewrite last_snoc |]. unfold recent in Hr. by rewrite H5 in Hr.
Qed.

Lemma pacer_table_witness :
  let p := allow_run ([mkRequest [1] 100 (UnixTime 5); mkRequest [2] 100 (UnixTime 6)]
             ++ [mkRequest [3] 100 (UnixTime 7)]) (newPacer 1000 100 paceIdleAfter 2) in
  Z.of_nat (length (pc_lru p)) <= 2 /\ pe_key <$> pc_lru p = [[3]; [2]].
Proof.
  split; [| vm_compute; reflexivity].
  apply (pacer_table 1000 100 paceIdleAfter 2
    [mkRequest [1] 100 (UnixTime 5); mkRequest [2] 100 (UnixTime 6)] (mkRequest [3] 100 (UnixTime 7))).
  - discriminate.
  - discriminate.
  - vm_compute. repeat constructor; discriminate.
Defined.

(** A reply is charged to its source alone, in full or not at all.  The
    source's bucket is its own, refilled for the time since it was last seen,
    or a full one; the reply goes exactly when that bucket covers it, and then
    the bucket pays for it; a refusal charges nothing.  Every other source
    keeps its bucket as it was, or has been dropped from the table. *)
Theorem allow_exact k n now p :
  table_ok p ->
  let e := start_bucket (prune now p) k now in
  let '(ok, p') := allow k n now p in
  ok = negb (flt (pe_tokens e) (f64_of_Z n))
  /\ bucket p' k = Some (if ok then mkPaceEntry k (fsub (pe_tokens e) (f64_of_Z n)) (pe_last e) else e)
  /\ (forall k', k' <> k -> bucket p' k' = None \/ bucket p' k' = bucket p k').
Proof.
  intros Hok e. pose proof (allow_eq k n now p Hok) as H. cbv zeta in H. fold e in H.
  pose proof (start_bucket_key (prune now p) k now) as Hk. fold e in Hk.
  destruct (allow k n now p) as [ok p']. cbn [fst snd] in H. destruct H as (H1 & H2 & _ & _ & Hok').
  split; [done |]. unfold bucket. rewrite H2. unfold find_entry. cbn [List.find]. split.
  - unfold charged. rewrite H1. destruct (flt _ _); cbn [negb pe_key];
      rewrite Hk, (proj2 (bytes_eqb_eq k k) eq_refl); done.
  - intros k' Hne.
    assert (Hck : bytes_eqb (pe_key (charged n e)) k' = false).
    { apply bytes_eqb_neq. unfold charged. destruct (flt _ _); cbn [pe_key]; by rewrite Hk. }
    rewrite Hck. pose proof (others_sub (prune now p) k) as Hs.
    destruct (prune_loop_prefix (length (pc_lru p)) now p) as (Hpre & _). fold (prune now p) in Hpre.
    assert (Hsub : others (prune now p) k `sublist_of` pc_lru p)
      by (etrans; [exact Hs | destruct Hpre as [k0 ->]; by apply sublist_inserts_r]).
    destruct (List.find _ (others (prune now p) k)) as [x|] eqn:E; [right | by left].
    symmetry. pose proof (find_entry_some k' _ x E) as [Hx Hxk].
    assert (Hin : x ∈ pc_lru p) by (eapply sublist_in; eassumption).
    destruct (find_entry k' (pc_lru p)) as [y|] eqn:Ey.
    + apply find_entry_some in Ey as Ey'. destruct Ey' as [Hy Hyk].
      fold (find_entry k' (pc_lru p)). rewrite Ey. f_equal.
      destruct Hok as [_ Hnd _]. clear -Hnd Hin Hy Hxk Hyk.
      induction (pc_lru p) as [|z l IH]; [by apply elem_of_nil in Hin |].
      rewrite fmap_cons in Hnd. apply NoDup_cons in Hnd as [Hz Hnd].
      apply elem_of_cons in Hin as [-> | Hin]; apply elem_of_cons in Hy as [-> | Hy]; [done | | |].
      * exfalso. apply Hz. rewrite Hxk, <- Hyk. by apply list_elem_of_fmap_2.
      * exfalso. apply Hz. rewrite Hyk, <- Hxk. by apply list_elem_of_fmap_2.
      * by apply IH.
    + apply find_entry_none in Ey. exfalso. apply Ey. rewrite <- Hxk. by apply list_elem_of_fmap_2.
Qed.

Lemma allow_exact_witness :
  let p := newPacer 1000 100 paceIdleAfter 2 in
  bucket (allow [1] 600 (UnixTime 5) p).2 [1]
  = Some (mkPaceEntry [1] (fsub (f64_of_Z 1000) (f64_of_Z 600)) (UnixTime 5)).
Proof.
  cbv zeta. destruct (allow [1] 600 (UnixTime 5) (newPacer 1000 100 paceIdleAfter 2)) as [ok p'] eqn:E.
  pose proof (allow_exact [1] 600 (UnixTime 5) (newPacer 1000 100 paceIdleAfter 2)) as H.
  rewrite E in H. destruct H as (H1 & H2 & _).
  - split; cbn; [intros k; by rewrite elem_of_nil, elem_of_empty | constructor | lia].
  - cbn [snd]. rewrite H2. rewrite H1. vm_compute. reflexivity.
Defined.
