(* ===== verification/QCache.v ===== *)
(** * The query cache ([internal/qcache/qcache.go])

    One cached port: the loop that answers server browsers ([serve_datagram]),
    the challenge in front of it, the cached replies and their age, and the
    refresh that fetches them from the game server ([fetch], [collect]).  What
    arrives from the game server is a list of reads, each a datagram or an
    error (the deadline); what is sent is returned. *)

From S2P Require Import Prelude GoTime Bytes Sha256 A2S Pacer.

Definition DefaultRefreshEvery : Duration := 3 * Second.
Definition DefaultStaleAfter : Duration := 10 * Second.
Definition defaultIdleAfter : Duration := 60 * Second.
Definition defaultUpstreamTimeout : Duration := 2 * Second.
Definition rulesRefreshMultiplier : Z := 5.

Record QConfig := mkQConfig {
  q_RefreshEvery : Duration; q_IdleAfter : Duration; q_StaleAfter : Duration;
  q_UpstreamTimeout : Duration; q_PaceBurst : Z; q_PaceRefill : Z }.

(** The defaults [New] fills in. *)
Definition or_default (v d : Z) : Z := if v <=? 0 then d else v.
Definition New_config (c : QConfig) : QConfig :=
  mkQConfig (or_default (q_RefreshEvery c) DefaultRefreshEvery)
    (or_default (q_IdleAfter c) defaultIdleAfter) (or_default (q_StaleAfter c) DefaultStaleAfter)
    (or_default (q_UpstreamTimeout c) defaultUpstreamTimeout)
    (or_default (q_PaceBurst c) paceBurstBytes) (or_default (q_PaceRefill c) paceRefillPerSec).

Record cacheEntry := mkCacheEntry {
  ce_datagrams : list bytes; ce_fetched : Time; ce_demand : Time; ce_attempted : Time;
  ce_fetchOK : bool; ce_fetchErr : string; ce_scale : Z }.

Definition NewEntry (scale : Z) : cacheEntry :=
  mkCacheEntry [] zeroTime zeroTime zeroTime true "" scale.

Definition window (base : Duration) (e : cacheEntry) : Duration :=
  if ce_scale e <=? 1 then base else dmul base (ce_scale e).

Definition stampDemand (now : Time) (e : cacheEntry) : cacheEntry :=
  mkCacheEntry (ce_datagrams e) (ce_fetched e) now (ce_attempted e) (ce_fetchOK e) (ce_fetchErr e)
    (ce_scale e).

(** The cached reply, unless it was never fetched or is too old. *)
Definition fresh (now : Time) (staleAfter : Duration) (e : cacheEntry) : option (list bytes) :=
  if IsZero (ce_fetched e) || (staleAfter <? Sub now (ce_fetched e)) then None
  else Some (ce_datagrams e).

(** The three cached replies of a port. *)
Inductive slot := SInfo | SPlayer | SRules.
#[export] Instance slot_eq_dec : EqDecision slot.
Proof. solve_decision. Defined.

Record portCache := mkPortCache {
  qp_Port : Z; qp_cfg : QConfig; qp_secret : bytes;
  qp_answered : Z; qp_challenged : Z; qp_unanswered : Z; qp_paced : Z;
  qp_pace : pacer; qp_nudge : bool;
  qp_info : cacheEntry; qp_player : cacheEntry; qp_rules : cacheEntry }.

Definition NewPort (port : Z) (cfg : QConfig) (secret : bytes) : portCache :=
  let cfg := New_config cfg in
  mkPortCache port cfg secret 0 0 0 0
    (newPacer (q_PaceBurst cfg) (q_PaceRefill cfg) paceIdleAfter paceMaxSources) false
    (NewEntry 1) (NewEntry 1) (NewEntry rulesRefreshMultiplier).

Definition entry (s : slot) (p : portCache) : cacheEntry :=
  match s with SInfo => qp_info p | SPlayer => qp_player p | SRules => qp_rules p end.
Definition set_entry (s : slot) (e : cacheEntry) (p : portCache) : portCache :=
  mkPortCache (qp_Port p) (qp_cfg p) (qp_secret p) (qp_answered p) (qp_challenged p)
    (qp_unanswered p) (qp_paced p) (qp_pace p) (qp_nudge p)
    (match s with SInfo => e | _ => qp_info p end)
    (match s with SPlayer => e | _ => qp_player p end)
    (match s with SRules => e | _ => qp_rules p end).
Definition set_counts (answered challenged unanswered paced : Z) (pace : pacer) (nudge : bool)
    (p : portCache) : portCache :=
  mkPortCache (qp_Port p) (qp_cfg p) (qp_secret p) answered challenged unanswered paced pace nudge
    (qp_info p) (qp_player p) (qp_rules p).

(** ** Answering *)

(** A client: its address in sixteen bytes, and its port. *)
Record source := mkSource { src_IP : bytes; src_Port : Z }.

Definition sendChallenge (src : source) (now : Time) (p : portCache) : list bytes * portCache :=
  let ch := challengeFor (qp_secret p) (src_IP src) (src_Port src) (qp_Port p)
              (Z.quot (Unix now) challengeBucketSecs) in
  ([challengeReply ch],
   set_counts (qp_answered p) (u64 (qp_challenged p + 1)) (qp_unanswered p) (qp_paced p)
     (qp_pace p) (qp_nudge p) p).

Definition verify (src : source) (got : bytes) (now : Time) (p : portCache) : bool :=
  let bucket := Z.quot (Unix now) challengeBucketSecs in
  existsb (fun b => hmacEqual (challengeFor (qp_secret p) (src_IP src) (src_Port src) (qp_Port p) b) got)
    [bucket; bucket - 1].

Definition total_bytes (ds : list bytes) : Z :=
  fold_left (fun n d => n + Z.of_nat (length d)) ds 0.

Definition answerOrChallenge (s : slot) (src : source) (ch : bytes) (now : Time) (p : portCache)
    : list bytes * portCache :=
  if negb (verify src ch now p) then sendChallenge src now p
  else
    let p := set_entry s (stampDemand now (entry s p)) p in
    match fresh now (window (q_StaleAfter (qp_cfg p)) (entry s p)) (entry s p) with
    | None =>
        ([], set_counts (qp_answered p) (qp_challenged p) (u64 (qp_unanswered p + 1)) (qp_paced p)
               (qp_pace p) true p)
    | Some datagrams =>
        let '(ok, pace) := allow (src_IP src) (total_bytes datagrams) now (qp_pace p) in
        if ok then
          (datagrams, set_counts (u64 (qp_answered p + 1)) (qp_challenged p) (qp_unanswered p)
                        (qp_paced p) pace (qp_nudge p) p)
        else ([], set_counts (qp_answered p) (qp_challenged p) (qp_unanswered p)
                    (u64 (qp_paced p + 1)) pace (qp_nudge p) p)
    end.

(** One turn of [serve]. *)
Definition serve_datagram (b : bytes) (src : source) (now : Time) (p : portCache)
    : list bytes * portCache :=
  let '(kind, ch) := classify b in
  match kind with
  | queryInfoBare | queryPlayerBare | queryRulesBare => sendChallenge src now p
  | queryInfoChallenged => answerOrChallenge SInfo src ch now p
  | queryPlayerChallenged => answerOrChallenge SPlayer src ch now p
  | queryRulesChallenged => answerOrChallenge SRules src ch now p
  | queryNone => ([], p)
  end.

(** ** Fetching *)

Inductive fetch_err := ErrDial | ErrWrite | ErrRead | ErrUnrecognised | ErrChallenged.

(** A read from the game server: a datagram, or the error that ends it. *)
Definition reads : Type := list (option bytes).

(** The fragment loop of [collect]; running out of reads is the deadline. *)
Fixpoint collect_loop (total : Z) (got : Z) (frags : list (option bytes)) (rs : reads)
    : result fetch_err (list (option bytes)) :=
  if total <=? got then Ok frags
  else match rs with
  | [] => Err ErrRead
  | None :: _ => Err ErrRead
  | Some b :: rs =>
      match fragmentMeta b with
      | None => collect_loop total got frags rs
      | Some (t, i) =>
          if negb (t =? total) || bool_decide (frags !! Z.to_nat i <> Some None)
          then collect_loop total got frags rs
          else collect_loop total (got + 1) (<[Z.to_nat i := Some b]> frags) rs
      end
  end.

Definition collect (first : bytes) (rs : reads) : result fetch_err (list bytes) :=
  if (5 <=? length first)%nat && bytes_eqb (take 4 first) headerSingle then Ok [first]
  else match fragmentMeta first with
  | None => Err ErrUnrecognised
  | Some (total, index) =>
      match collect_loop total 1 (<[Z.to_nat index := Some first]> (replicate (Z.to_nat total) None)) rs with
      | Err e => Err e
      | Ok frags => Ok (default [] <$> frags)
      end
  end.

(** The three attempts of [fetch]: what was sent, and the outcome.  [writes]
    says which sends fail. *)
Fixpoint fetch_loop (attempts : nat) (build : option bytes -> bytes) (challenge : option bytes)
    (writes : list bool) (rs : reads) : list bytes * result fetch_err (list bytes) :=
  match attempts with
  | O => ([], Err ErrChallenged)
  | S attempts =>
      if match writes with w :: _ => negb w | [] => false end then ([], Err ErrWrite)
      else match rs with
      | [] => ([build challenge], Err ErrRead)
      | None :: _ => ([build challenge], Err ErrRead)
      | Some b :: rs =>
          match isChallenge b with
          | Some ch =>
              let '(sent, r) := fetch_loop attempts build (Some ch) (tl writes) rs in
              (build challenge :: sent, r)
          | None => ([build challenge], collect b rs)
          end
      end
  end.

Definition fetch (build : option bytes -> bytes) (dial : bool) (writes : list bool) (rs : reads)
    : list bytes * result fetch_err (list bytes) :=
  if negb dial then ([], Err ErrDial) else fetch_loop 3 build None writes rs.

Definition fetch_err_string (e : fetch_err) : string :=
  match e with
  | ErrDial => "dial" | ErrWrite => "write" | ErrRead => "read"
  | ErrUnrecognised => "unrecognised reply from upstream"
  | ErrChallenged => "upstream answered every attempt with a challenge"
  end.

Definition builder (s : slot) : option bytes -> bytes :=
  match s with SInfo => infoRequest | SPlayer => playerRequest | SRules => rulesRequest end.

(** [refreshEntry]: [now] gates it, [after] is the clock once the fetch is done. *)
Definition refresh_due (now : Time) (cfg : QConfig) (e : cacheEntry) : bool :=
  (negb (IsZero (ce_demand e)) && (Sub now (ce_demand e) <=? q_IdleAfter cfg))
  && (IsZero (ce_attempted e) || (window (q_RefreshEvery cfg) e <=? Sub now (ce_attempted e))).

Definition store_fetch (after : Time) (r : result fetch_err (list bytes)) (e : cacheEntry) : cacheEntry :=
  match r with
  | Ok ds => mkCacheEntry ds after (ce_demand e) after true "" (ce_scale e)
  | Err err => mkCacheEntry (ce_datagrams e) (ce_fetched e) (ce_demand e) after false
                 (fetch_err_string err) (ce_scale e)
  end.

Definition refreshEntry (s : slot) (now after : Time) (dial : bool) (writes : list bool) (rs : reads)
    (p : portCache) : list bytes * portCache :=
  if negb (refresh_due now (qp_cfg p) (entry s p)) then ([], p)
  else
    let '(sent, r) := fetch (builder s) dial writes rs in
    (sent, set_entry s (store_fetch after r (entry s p)) p).

(** ** Nothing large to an unproved address *)

Definition challenge_at (src : source) (bucket : Z) (p : portCache) : bytes :=
  challengeFor (qp_secret p) (src_IP src) (src_Port src) (qp_Port p) bucket.
Definition bucket_of (now : Time) : Z := Z.quot (Unix now) challengeBucketSecs.

Lemma verify_iff src got now p :
  verify src got now p = true <->
  exists b, (b = bucket_of now \/ b = bucket_of now - 1) /\ got = challenge_at src b p.
Proof.
  unfold verify. rewrite existsb_exists. split.
  - intros (b & Hb & H). apply bytes_eqb_eq in H. exists b. split; [| done].
    simpl in Hb. naive_solver.
  - intros (b & Hb & ->). exists b. split; [simpl; naive_solver | by apply bytes_eqb_eq].
Qed.

Lemma sendChallenge_bytes src now p : total_bytes (sendChallenge src now p).1 = 9.
Proof.
  unfold sendChallenge, total_bytes, challengeReply. cbn [fst fold_left].
  rewrite !length_app, challengeFor_length. done.
Qed.

(** A challenged query is the builder's. *)
Definition challenged_kind (s : slot) : queryKind :=
  match s with SInfo => queryInfoChallenged | SPlayer => queryPlayerChallenged
             | SRules => queryRulesChallenged end.

Lemma query_challenged b s ch :
  is_query b (challenged_kind s) ch -> b = builder s (Some ch) /\ (9 <= length b)%nat.
Proof.
  intros H. destruct s; inversion H; subst; (split; [done |]); unfold infoRequest, playerRequest,
    rulesRequest, challengedRequest; rewrite !length_app; cbn; lia.
Qed.

Lemma is_query_length b k ch : is_query b k ch -> (9 <= length b)%nat.
Proof.
  destruct 1; unfold infoRequest, playerRequest, rulesRequest, challengedRequest;
    rewrite !length_app; cbn; lia.
Qed.

Lemma answer_cases s src ch now p :
  (verify src ch now p = false /\ answerOrChallenge s src ch now p = sendChallenge src now p)
  \/ (verify src ch now p = true
      /\ ((answerOrChallenge s src ch now p).1 = []
          \/ ((answerOrChallenge s src ch now p).1 = ce_datagrams (entry s p)
              /\ ce_fetched (entry s p) <> zeroTime
              /\ Sub now (ce_fetched (entry s p)) <= window (q_StaleAfter (qp_cfg p)) (entry s p)
              /\ (allow (src_IP src) (total_bytes (ce_datagrams (entry s p))) now (qp_pace p)).1 = true))).
Proof.
  unfold answerOrChallenge. destruct (verify src ch now p); cbn [negb]; [right | left; done].
  split; [done |].
  set (p1 := set_entry s (stampDemand now (entry s p)) p).
  assert (He : entry s p1 = stampDemand now (entry s p)) by by destruct s.
  cbv zeta. rewrite He. unfold fresh. cbn [ce_fetched stampDemand ce_datagrams].
  change (window (q_StaleAfter (qp_cfg p1)) (stampDemand now (entry s p)))
    with (window (q_StaleAfter (qp_cfg p)) (entry s p)).
  change (qp_pace p1) with (qp_pace p).
  destruct (IsZero (ce_fetched (entry s p))) eqn:Ez; cbn [orb]; [by left |].
  destruct (Z.ltb_spec (window (q_StaleAfter (qp_cfg p)) (entry s p)) (Sub now (ce_fetched (entry s p))));
    [by left |].
  destruct (allow _ _ _ _) as [ok pace] eqn:Ea. destruct ok; cbn [fst]; [right | by left].
  split_and!; [done | | done | done]. unfold IsZero, zeroTime in *. by apply Z.eqb_neq.
Qed.

(** [C13] No amplification.  Whatever datagram arrives from whatever address,
    what goes back is no longer than what came in, unless the datagram is a
    query carrying the challenge the port computed under its secret for that
    very address and source port, in this half-minute or the one before: only
    an address that has received a challenge is sent a reply.  That reply is
    the game server's own, datagram for datagram, no older than the stale
    window, and covered by the source's pacing budget. *)
Theorem no_amplification b src now p :
  let '(out, _) := serve_datagram b src now p in
  total_bytes out <= Z.of_nat (length b)
  \/ exists s bucket,
       (bucket = Z.quot (Unix now) challengeBucketSecs
        \/ bucket = Z.quot (Unix now) challengeBucketSecs - 1)
       /\ b = builder s (Some (challengeFor (qp_secret p) (src_IP src) (src_Port src) (qp_Port p) bucket))
       /\ out = ce_datagrams (entry s p)
       /\ ce_fetched (entry s p) <> zeroTime
       /\ Sub now (ce_fetched (entry s p)) <= window (q_StaleAfter (qp_cfg p)) (entry s p)
       /\ (allow (src_IP src) (total_bytes out) now (qp_pace p)).1 = true.
Proof.
  unfold serve_datagram. destruct (classify b) as [kind ch] eqn:Ec.
  assert (Hq : kind <> queryNone -> is_query b kind ch) by (intros; by apply classify_sound).
  assert (Hbare : kind <> queryNone -> let '(out, _) := sendChallenge src now p in
    total_bytes out <= Z.of_nat (length b)).
  { intros Hk. pose proof (is_query_length b kind ch (Hq Hk)).
    pose proof (sendChallenge_bytes src now p). destruct (sendChallenge src now p). cbn [fst] in *. lia. }
  assert (Hans : forall s, kind = challenged_kind s ->
    let '(out, _) := answerOrChallenge s src ch now p in
    total_bytes out <= Z.of_nat (length b) \/ exists s bucket,
       (bucket = bucket_of now \/ bucket = bucket_of now - 1)
       /\ b = builder s (Some (challenge_at src bucket p))
       /\ out = ce_datagrams (entry s p) /\ ce_fetched (entry s p) <> zeroTime
       /\ Sub now (ce_fetched (entry s p)) <= window (q_StaleAfter (qp_cfg p)) (entry s p)
       /\ (allow (src_IP src) (total_bytes out) now (qp_pace p)).1 = true).
  { intros s ->. assert (Hk : challenged_kind s <> queryNone) by by destruct s.
    destruct (query_challenged b s ch (Hq Hk)) as [Hb Hl].
    destruct (answer_cases s src ch now p) as [[_ ->] | [Hv H]].
    - specialize (Hbare Hk). destruct (sendChallenge src now p). by left.
    - destruct (answerOrChallenge s src ch now p) as [out p']. cbn [fst] in H.
      destruct H as [-> | (-> & Hz & Hw & Ha)]; [left; cbn; lia | right].
      apply verify_iff in Hv as (bk & Hbk & ->). by exists s, bk. }
  destruct kind.
  - left. cbn. lia.
  - specialize (Hbare ltac:(done)). destruct (sendChallenge src now p). by left.
  - apply (Hans SInfo eq_refl).
  - specialize (Hbare ltac:(done)). destruct (sendChallenge src now p). by left.
  - apply (Hans SPlayer eq_refl).
  - specialize (Hbare ltac:(done)). destruct (sendChallenge src now p). by left.
  - apply (Hans SRules eq_refl).
Qed.

(** The challenge works for the client it was sent to.  A client that echoes
    the challenge in any of the three queries within thirty seconds, from the
    same address and port, is recognised: the reply is a challenge to it, the
    echo classifies as that query, and it verifies, even across the turn of the
    half-minute. *)
Theorem challenge_roundtrip s src t0 now p p' :
  qp_secret p' = qp_secret p -> qp_Port p' = qp_Port p ->
  0 <= Unix t0 -> t0 <= now <= t0 + 30 * Second ->
  exists reply ch, (sendChallenge src t0 p).1 = [reply]
    /\ isChallenge reply = Some ch
    /\ classify (builder s (Some ch)) = (challenged_kind s, ch)
    /\ verify src ch now p' = true.
Proof.
  intros Hs Hp H0 Ht. eexists _, (challenge_at src (bucket_of t0) p). split; [reflexivity |].
  split; [apply isChallenge_reply |].
  assert (Hl : length (challenge_at src (bucket_of t0) p) = 4%nat)
    by exact (challengeFor_length _ _ _ _ _).
  assert (Hm : challenge_at src (bucket_of t0) p <> noChallenge)
    by exact (challengeFor_marker _ _ _ _ _).
  split.
  - apply classify_complete. destruct s; by constructor.
  - apply verify_iff. exists (bucket_of t0). split; [| unfold challenge_at; by rewrite Hs, Hp].
    unfold bucket_of, challengeBucketSecs.
    assert (Hu : Unix t0 <= Unix now <= Unix t0 + 30).
    { unfold Unix, Second in *. split.
      - apply Z.sub_le_mono_r, Z.div_le_mono; lia.
      - assert (now / 1000000000 <= (t0 + 30 * 1000000000) / 1000000000) by (apply Z.div_le_mono; lia).
        rewrite Z.div_add in H by lia. lia. }
    rewrite !Z.quot_div_nonneg by lia.
    assert (Unix t0 / 30 <= Unix now / 30 <= Unix t0 / 30 + 1); [| lia]. split.
    + apply Z.div_le_mono; lia.
    + rewrite <- Z.div_add with (b := 1) by lia. apply Z.div_le_mono; lia.
Qed.

Definition sample_port : portCache := NewPort 27015 (mkQConfig 0 0 0 0 0 0) [1; 2; 3].
Definition sample_source : source := mkSource (replicate 10 0 ++ [255; 255; 203; 0; 113; 9]) 50000.

Lemma challenge_roundtrip_witness :
  exists reply ch, (sendChallenge sample_source (UnixTime 29) sample_port).1 = [reply]
    /\ isChallenge reply = Some ch
    /\ classify (builder SRules (Some ch)) = (challenged_kind SRules, ch)
    /\ verify sample_source ch (UnixTime 59) sample_port = true.
Proof.
  apply (challenge_roundtrip SRules sample_source (UnixTime 29) (UnixTime 59) sample_port sample_port).
  - reflexivity.
  - reflexivity.
  - vm_compute. discriminate.
  - vm_compute. split; discriminate.
Defined.

(** ** The reply assembled from its fragments *)

Definition filled (frags : list (option bytes)) : Z :=
  Z.of_nat (length (List.filter (fun f => bool_decide (is_Some f)) frags)).

Lemma filled_insert frags i b :
  frags !! i = Some None -> filled (<[i := Some b]> frags) = filled frags + 1.
Proof.
  unfold filled. revert i. induction frags as [|f frags IH]; intros i Hi; [done |].
  destruct i as [|i].
  - injection Hi as ->. simpl. lia.
  - simpl in *. specialize (IH i Hi). destruct (bool_decide (is_Some f)); simpl; lia.
Qed.

Lemma filled_full frags :
  filled frags = Z.of_nat (length frags) <-> forall i f, frags !! i = Some f -> is_Some f.
Proof.
  assert (Hle : forall l, filled l <= Z.of_nat (length l)).
  { intros l. unfold filled. pose proof (filter_length_le (fun f : option bytes => bool_decide (is_Some f)) l).
    lia. }
  induction frags as [|f frags IH]; [by split |]. split.
  - unfold filled in *. simpl. intros H i x Hi. specialize (Hle frags).
    destruct (bool_decide (is_Some f)) eqn:E; simpl in H; [| lia].
    destruct i as [|i]; [injection Hi as <-; by apply bool_decide_eq_true in E |].
    apply (proj1 IH ltac:(lia) i x Hi).
  - intros H. unfold filled in *. simpl. rewrite bool_decide_eq_true_2 by (by apply (H 0%nat)).
    simpl. assert (Hr : Z.of_nat (length (List.filter (fun f => bool_decide (is_Some f)) frags))
      = Z.of_nat (length frags)); [| lia].
    apply IH. intros i x Hi. by apply (H (S i)).
Qed.

Lemma fragmentMeta_range b t i : fragmentMeta b = Some (t, i) -> 1 <= t <= maxFragments /\ i < t.
Proof.
  unfold fragmentMeta. split_if; [done |]. split_if; [done |]. intros [= <- <-].
  repeat match goal with H : _ || _ = false |- _ => apply orb_false_iff in H as [? ?] end.
  bool_to_prop. lia.
Qed.

Lemma fragment_index_nonneg b t i : all_bytes b -> fragmentMeta b = Some (t, i) -> 0 <= i.
Proof.
  intros Hb Em. unfold fragmentMeta in Em. split_if_in Em; [done |]. split_if_in Em; [done |].
  injection Em as _ <-. destruct (nth_in_or_default 9 b 0) as [Hin | ->]; [| lia].
  rewrite Forall_forall in Hb. assert (Hin' : nth 9 b 0 ∈ b) by by apply list_elem_of_In.
  specialize (Hb _ Hin'). unfold is_byte in Hb. lia.
Qed.

(** The datagrams that arrive before a read fails, and the first of them that is
    a given fragment of a reply. *)
Fixpoint heard (rs : reads) : list bytes :=
  match rs with Some b :: rs => b :: heard rs | _ => [] end.
Definition first_of (total i : Z) (ds : list bytes) : option bytes :=
  List.find (fun d => bool_decide (fragmentMeta d = Some (total, i))) ds.

Lemma first_of_cons total i d ds :
  first_of total i (d :: ds) = if decide (fragmentMeta d = Some (total, i)) then Some d else first_of total i ds.
Proof. unfold first_of. cbn [List.find]. case_bool_decide; by case_decide. Qed.

(** The slots once the datagrams have been through them: the empty ones take the
    first arrival of their place. *)
Definition settle (total : Z) (frags : list (option bytes)) (ds : list bytes) : list (option bytes) :=
  imap (fun i f => match f with Some d => Some d | None => first_of total (Z.of_nat i) ds end) frags.

Lemma settle_lookup total frags ds i :
  settle total frags ds !! i
  = (fun f => match f with Some d => Some d | None => first_of total (Z.of_nat i) ds end) <$> frags !! i.
Proof. apply list_lookup_imap. Qed.

Lemma settle_nil total frags : settle total frags [] = frags.
Proof. apply list_eq. intros i. rewrite settle_lookup. by destruct (frags !! i) as [[?|]|]. Qed.

Lemma settle_skip total frags b ds :
  (forall i, fragmentMeta b = Some (total, Z.of_nat i) -> frags !! i <> Some None) ->
  settle total frags (b :: ds) = settle total frags ds.
Proof.
  intros Hb. apply list_eq. intros i. rewrite !settle_lookup, first_of_cons. specialize (Hb i).
  case_decide as Hm; [| done]. specialize (Hb Hm). by destruct (frags !! i) as [[?|]|].
Qed.

Lemma settle_store total frags b ds i : fragmentMeta b = Some (total, Z.of_nat i) -> frags !! i = Some None ->
  settle total (<[i := Some b]> frags) ds = settle total frags (b :: ds).
Proof.
  intros Hm Hi. apply list_eq. intros j. rewrite !settle_lookup, first_of_cons.
  destruct (decide (j = i)) as [-> | Hne].
  - rewrite list_lookup_insert_eq by (by eapply lookup_lt_Some). rewrite Hi, decide_True by done. done.
  - rewrite list_lookup_insert_ne by done. rewrite decide_False; [done |]. rewrite Hm. intros [= ?]. lia.
Qed.

Lemma settle_full total frags ds : Z.of_nat (length frags) <= filled frags -> settle total frags ds = frags.
Proof.
  intros Hf. assert (Hle : filled frags <= Z.of_nat (length frags)).
  { unfold filled. pose proof (filter_length_le (fun f : option bytes => bool_decide (is_Some f)) frags). lia. }
  pose proof (proj1 (filled_full frags) ltac:(lia)) as Hall. apply list_eq. intros i. rewrite settle_lookup.
  destruct (frags !! i) as [f|] eqn:Ef; [| done]. by destruct (Hall i f Ef) as [d ->].
Qed.

Lemma collect_loop_settles total : forall rs frags, (forall b, Some b ∈ rs -> all_bytes b) ->
  Z.of_nat (length frags) = total ->
  collect_loop total (filled frags) frags rs
  = if total <=? filled (settle total frags (heard rs)) then Ok (settle total frags (heard rs)) else Err ErrRead.
Proof.
  induction rs as [|[b|] rs IH]; intros frags Hb Hl; cbn [collect_loop heard].
  - rewrite settle_nil. done.
  - destruct (Z.leb_spec total (filled frags)) as [Hf|Hf].
    { rewrite settle_full by lia. apply Z.leb_le in Hf. by rewrite Hf. }
    assert (Hb' : forall b, Some b ∈ rs -> all_bytes b) by (intros; apply Hb; by right).
    destruct (fragmentMeta b) as [[t i]|] eqn:Em; [| rewrite settle_skip by congruence; by apply IH].
    assert (Hi0 : 0 <= i) by (eapply fragment_index_nonneg; [apply Hb; by left | exact Em]).
    destruct (negb (t =? total) || bool_decide (frags !! Z.to_nat i <> Some None)) eqn:Ec.
    + rewrite settle_skip; [by apply IH |]. intros j. rewrite Em. intros [= -> ->].
      rewrite Z.eqb_refl, Nat2Z.id in Ec. by apply bool_decide_eq_true in Ec.
    + apply orb_false_iff in Ec as [Et Ei]. apply negb_false_iff, Z.eqb_eq in Et as ->.
      apply bool_decide_eq_false, dec_stable in Ei.
      rewrite <- (settle_store _ _ _ _ (Z.to_nat i)) by (rewrite ?Z2Nat.id by done; done).
      rewrite <- (filled_insert _ _ b Ei). apply IH; [done | by rewrite length_insert].
  - destruct (Z.leb_spec total (filled frags)) as [Hf|Hf]; rewrite settle_nil.
    + apply Z.leb_le in Hf. by rewrite Hf.
    + apply Z.leb_gt in Hf. by rewrite Hf.
Qed.

Lemma filled_some ds : filled (Some <$> ds) = Z.of_nat (length ds).
Proof. unfold filled. induction ds as [|d ds IH]; [done |]. cbn in *. lia. Qed.

(** Slots that may be empty, all or none. *)
Lemma filled_mapM (frags : list (option bytes)) :
  match mapM (fun f => f) frags with
  | Some ds => frags = Some <$> ds
  | None => filled frags < Z.of_nat (length frags)
  end.
Proof.
  induction frags as [|f frags IH]; [done |]. cbn [mapM]. unfold filled in *.
  pose proof (filter_length_le (fun f : option bytes => bool_decide (is_Some f)) frags) as Hle.
  destruct f as [d|]; cbn in *; [| lia].
  destruct (mapM _ frags) as [ds|]; cbn; [by rewrite IH | lia].
Qed.

Lemma mapM_map {A B} (g : A -> option B) (l : list A) : mapM (fun f => f) (g <$> l) = mapM g l.
Proof. induction l as [|x l IH]; [done |]. cbn. by rewrite <- IH. Qed.

Lemma settle_start total index first ds : fragmentMeta first = Some (total, index) -> 0 <= index ->
  settle total (<[Z.to_nat index := Some first]> (replicate (Z.to_nat total) None)) ds
  = (fun i => first_of total i (first :: ds)) <$> seqZ 0 total.
Proof.
  intros Hm Hi. pose proof (fragmentMeta_range first total index Hm) as [Ht Hit].
  rewrite settle_store by (rewrite ?Z2Nat.id by done; (done || apply lookup_replicate_2; lia)).
  apply list_eq. intros i. rewrite settle_lookup, list_lookup_fmap.
  destruct (decide (i < Z.to_nat total)%nat) as [Hlt|Hge].
  - rewrite lookup_replicate_2 by done. rewrite lookup_seqZ_lt by lia. done.
  - rewrite lookup_ge_None_2 by (rewrite length_replicate; lia). rewrite lookup_seqZ_ge by lia. done.
Qed.

(** [C36] A reply is reassembled exactly.  From a fragmented first datagram,
    [collect] answers, for the places 0 to the announced count in order, the
    first datagram to arrive that is that fragment of that count, the first one
    read included, whatever the order of arrival and whatever duplicates and
    strangers came between; and when a place has none before a read fails or
    the deadline passes, it answers that read's error and nothing else. *)
Theorem collect_exact first rs total index :
  all_bytes first -> (forall b, Some b ∈ rs -> all_bytes b) ->
  fragmentMeta first = Some (total, index) ->
  collect first rs
  = match mapM (fun i => first_of total i (first :: heard rs)) (seqZ 0 total) with
    | Some ds => Ok ds
    | None => Err ErrRead
    end.
Proof.
  intros Hf Hrs Hm. pose proof (fragment_index_nonneg first total index Hf Hm) as Hi.
  pose proof (fragmentMeta_range first total index Hm) as [Ht Hit]. unfold collect.
  assert (Hns : (5 <=? length first)%nat && bytes_eqb (take 4 first) headerSingle = false).
  { destruct (_ && _) eqn:E; [| done]. apply andb_true_iff in E as [_ E].
    apply bytes_eqb_eq in E. unfold fragmentMeta in Hm. rewrite E in Hm.
    change (bytes_eqb headerSingle headerMulti) with false in Hm.
    by rewrite orb_true_r in Hm. }
  rewrite Hns, Hm.
  assert (Hone : filled (<[Z.to_nat index := Some first]> (replicate (Z.to_nat total) None)) = 1).
  { rewrite filled_insert by (apply lookup_replicate_2; lia).
    assert (H0 : forall n, filled (replicate n None) = 0) by (induction n; done). by rewrite H0. }
  rewrite <- Hone, collect_loop_settles, settle_start;
    [| done | done | done | rewrite length_insert, length_replicate; lia].
  pose proof (filled_mapM ((fun i => first_of total i (first :: heard rs)) <$> seqZ 0 total)) as Hall.
  rewrite mapM_map in Hall.
  destruct (mapM _ (seqZ 0 total)) as [ds|] eqn:Ed.
  - pose proof (length_mapM _ _ _ Ed) as Hl. rewrite length_seqZ in Hl. rewrite Hall, filled_some.
    replace (total <=? _) with true by (symmetry; apply Z.leb_le; lia). f_equal.
    rewrite <- list_fmap_compose. apply list_fmap_id.
  - rewrite length_fmap, length_seqZ in Hall.
    replace (total <=? _) with false by (symmetry; apply Z.leb_gt; lia). done.
Qed.

(** A two-part reply: the second part first, then another of its place, a
    stranger, and the first part. *)
Definition fragment (total index body : Z) : bytes := headerMulti ++ [9; 9; 9; 9; total; index; body].
Definition arrivals : reads := [Some (fragment 2 1 8); Some [1; 2; 3]; Some (fragment 2 0 7); None].

Lemma collect_exact_witness :
  collect (fragment 2 1 7) arrivals = Ok [fragment 2 0 7; fragment 2 1 7]
  /\ collect (fragment 3 1 7) [Some (fragment 3 0 7); None] = Err ErrRead.
Proof.
  assert (H : forall b, forallb byte_ok b = true -> all_bytes b).
  { intros b Hb. apply Forall_forall. intros x Hx. rewrite forallb_forall in Hb.
    apply list_elem_of_In in Hx. apply Hb in Hx. unfold byte_ok in Hx.
    apply andb_true_iff in Hx as [H1 H2]. unfold is_byte. bool_to_prop. lia. }
  split.
  - rewrite (collect_exact (fragment 2 1 7) arrivals 2 1);
      [vm_compute; reflexivity | apply H; reflexivity | | vm_compute; reflexivity].
    intros b Hb. unfold arrivals in Hb. rewrite !elem_of_cons, elem_of_nil in Hb.
    destruct Hb as [[= ->] | [[= ->] | [[= ->] | [Hb | []]]]]; [| | | discriminate Hb]; apply H; vm_compute; reflexivity.
  - rewrite (collect_exact (fragment 3 1 7) [Some (fragment 3 0 7); None] 3 1);
      [vm_compute; reflexivity | apply H; reflexivity | | vm_compute; reflexivity].
    intros b Hb. rewrite !elem_of_cons, elem_of_nil in Hb.
    destruct Hb as [[= ->] | [Hb | []]]; [| discriminate Hb]; apply H; vm_compute; reflexivity.
Defined.

(** ** The load on the game server *)

Lemma fetch_loop_sent n build : forall c ws rs,
  (length (fetch_loop n build c ws rs).1 <= n)%nat.
Proof.
  induction n as [|n IH]; intros c ws rs; [done |]. cbn [fetch_loop].
  split_if; [simpl; lia |]. destruct rs as [|[b|] rs]; [simpl; lia | | simpl; lia].
  destruct (isChallenge b) as [ch|]; [| simpl; lia].
  specialize (IH (Some ch) (tl ws) rs). destruct (fetch_loop n build (Some ch) (tl ws) rs).
  simpl in *. lia.
Qed.

(** The game server is asked only on demand, and rarely.  A refresh sends
    nothing unless a verified client asked for that reply within the idle time
    and no attempt, good or bad, was made within the reply's refresh window;
    when it sends, it sends at most three requests.  A failed refresh keeps
    the reply and its age, so a dead server's last answer is served until it
    is stale and no longer; a successful one replaces both. *)
Theorem refreshEntry_exact s now after dial ws rs p :
  let '(sent, p') := refreshEntry s now after dial ws rs p in
  let e := entry s p in let e' := entry s p' in
  (length sent <= 3)%nat
  /\ (sent <> [] ->
      ce_demand e <> zeroTime /\ Sub now (ce_demand e) <= q_IdleAfter (qp_cfg p)
      /\ (ce_attempted e = zeroTime
          \/ window (q_RefreshEvery (qp_cfg p)) e <= Sub now (ce_attempted e))
      /\ ce_attempted e' = after)
  /\ (ce_datagrams e' = ce_datagrams e /\ ce_fetched e' = ce_fetched e
      \/ exists ds, (fetch (builder s) dial ws rs).2 = Ok ds
           /\ ce_datagrams e' = ds /\ ce_fetched e' = after)
  /\ (forall s', s' <> s -> entry s' p' = entry s' p).
Proof.
  unfold refreshEntry.
  destruct (refresh_due now (qp_cfg p) (entry s p)) eqn:Ed; cbn [negb].
  2:{ split_and!; [simpl; lia | done | by left | done]. }
  assert (Hsent : (length (fetch (builder s) dial ws rs).1 <= 3)%nat).
  { unfold fetch. split_if; [simpl; lia | apply fetch_loop_sent]. }
  destruct (fetch (builder s) dial ws rs) as [sent r] eqn:Ef. cbn [fst snd] in *.
  assert (He : entry s (set_entry s (store_fetch after r (entry s p)) p) = store_fetch after r (entry s p))
    by by destruct s.
  rewrite He. apply andb_true_iff in Ed as [Ew Edue]. apply andb_true_iff in Ew as [Ez Ei].
  split_and!; [done | | |].
  - intros _. split_and!.
    + unfold IsZero, zeroTime in *. by apply negb_true_iff, Z.eqb_neq in Ez.
    + by apply Z.leb_le.
    + apply orb_true_iff in Edue as [H | H]; [left; by apply Z.eqb_eq | right; by apply Z.leb_le].
    + by destruct r.
  - destruct r as [ds|err]; [right; by exists ds | by left].
  - intros s' Hne. by destruct s, s'.
Qed.
