(* ===== verification/Agent.v ===== *)
(** * The backend's routing ([internal/agent/agent.go], [responder.go])

    The backend answers the frontend's probes and follows the decision stamped
    on them: [plausibleDecisionSeq] bounds what it will believe, [SetActivePath]
    runs in the probe read loop and only queues the newest decision,
    [applyDecision] installs it from the worker, and a configuration push puts
    the return path back.  An instant carries the two readings Go's
    [time.Time] does, because the bound is built on their difference: elapsed
    time is monotonic, and the wall clock may be anything. *)

From S2P Require Import Prelude GoTime Float64 Model Bytes Wire Messages Control.

(** ** The bound on a decision's number *)

Record instant := mkInstant { i_wall : Time; i_mono : Time }.

Definition decisionSeqSkew : Duration := 7 * 24 * Hour.
Definition decisionSeqHorizonMs : Z := 4102444800000.

Definition plausibleDecisionSeq (seq base : Z) (baseAt now : instant) : bool :=
  if decisionSeqHorizonMs <? Z.shiftr seq 16 then false
  else if base =? 0 then true
  else
    let elapsed := Sub (i_mono now) (i_mono baseAt) in
    let elapsed := if elapsed <? 0 then 0 else elapsed in
    let ceiling := u64 (base + u64 (Z.shiftl (u64 (Milliseconds elapsed)) 16)) in
    let ms := UnixMilli (i_wall now) in
    let ceiling :=
      if (0 <? ms) && (ms <=? decisionSeqHorizonMs) && (ceiling <? u64 (Z.shiftl (u64 ms) 16))
      then u64 (Z.shiftl (u64 ms) 16) else ceiling in
    seq <=? u64 (ceiling + u64 (Z.shiftl (u64 (Milliseconds decisionSeqSkew)) 16)).

(** ** State *)

Record pathDecision := mkDecisionOf { pd_path : Z; pd_seq : Z }.

(** [ag_ret] is the interface of the return table's default route, [ag_ov] that
    of the overlay route to the frontend.  [ag_taken] is the decision the
    worker has read and not yet applied. *)
Record Agent := mkAgent {
  ag_cfg : BackendConfig; ag_haveCfg : bool;
  ag_active : Z; ag_lastSeq : Z;
  ag_pending : pathDecision; ag_wake : bool; ag_taken : option pathDecision;
  ag_seqBase : Z; ag_seqBaseAt : instant; ag_implausible : throttle;
  ag_ret : option string; ag_ov : option string }.

Definition ag_applying (a : Agent) : bool :=
  ag_haveCfg a && String.eqb (bc_Mode (ag_cfg a)) ModeArmed.

Definition set_ag_decision (active lastSeq : Z) (a : Agent) : Agent :=
  mkAgent (ag_cfg a) (ag_haveCfg a) active lastSeq (ag_pending a) (ag_wake a) (ag_taken a)
    (ag_seqBase a) (ag_seqBaseAt a) (ag_implausible a) (ag_ret a) (ag_ov a).
Definition set_ag_queue (p : pathDecision) (wake : bool) (taken : option pathDecision) (a : Agent) : Agent :=
  mkAgent (ag_cfg a) (ag_haveCfg a) (ag_active a) (ag_lastSeq a) p wake taken
    (ag_seqBase a) (ag_seqBaseAt a) (ag_implausible a) (ag_ret a) (ag_ov a).
Definition set_ag_anchor (base : Z) (at_ : instant) (a : Agent) : Agent :=
  mkAgent (ag_cfg a) (ag_haveCfg a) (ag_active a) (ag_lastSeq a) (ag_pending a) (ag_wake a)
    (ag_taken a) base at_ (ag_implausible a) (ag_ret a) (ag_ov a).
Definition set_ag_implausible (t : throttle) (a : Agent) : Agent :=
  mkAgent (ag_cfg a) (ag_haveCfg a) (ag_active a) (ag_lastSeq a) (ag_pending a) (ag_wake a)
    (ag_taken a) (ag_seqBase a) (ag_seqBaseAt a) t (ag_ret a) (ag_ov a).
Definition set_ag_routes (ret ov : option string) (a : Agent) : Agent :=
  mkAgent (ag_cfg a) (ag_haveCfg a) (ag_active a) (ag_lastSeq a) (ag_pending a) (ag_wake a)
    (ag_taken a) (ag_seqBase a) (ag_seqBaseAt a) (ag_implausible a) ret ov.
Definition set_ag_cfg (cfg : BackendConfig) (a : Agent) : Agent :=
  mkAgent cfg true (ag_active a) (ag_lastSeq a) (ag_pending a) (ag_wake a)
    (ag_taken a) (ag_seqBase a) (ag_seqBaseAt a) (ag_implausible a) (ag_ret a) (ag_ov a).

(** [sysx.SetReturnPath] through the mode's runner, and [sysx.SetActivePath]
    through the real one; [ok] is the kernel's answer. *)
Definition SetReturnPath (iface : string) (ok : bool) (a : Agent) : bool * Agent :=
  if ag_applying a then
    if ok then (true, set_ag_routes (Some iface) (ag_ov a) a) else (false, a)
  else (true, a).
Definition SetOverlayRoute (iface : string) (ok : bool) (a : Agent) : Agent :=
  if ok then set_ag_routes (ag_ret a) (Some iface) a else a.

(** ** Following the decision *)

(** [anchorDecisionSeq]. *)
Definition anchorDecisionSeq (seq : Z) (now : instant) (a : Agent) : Agent :=
  if ag_seqBase a =? 0 then set_ag_anchor seq now a else a.

(** [warnImplausibleSeq], less the log line. *)
Definition warnImplausibleSeq (now : instant) (a : Agent) : Agent :=
  set_ag_implausible (throttle_take (i_mono now) (ag_implausible a)).2 a.

Definition SetActivePath (path seq : Z) (now : instant) (a : Agent) : Agent :=
  if path =? 0 then a
  else if negb (plausibleDecisionSeq seq (ag_seqBase a) (ag_seqBaseAt a) now)
  then warnImplausibleSeq now a
  else
    let a := if ag_seqBase a =? 0 then anchorDecisionSeq seq now a else a in
    if (seq <? ag_lastSeq a) || ((path =? ag_active a) && (seq <=? ag_lastSeq a)) then a
    else
      let pending := if pd_seq (ag_pending a) <=? seq then mkDecisionOf path seq else ag_pending a in
      set_ag_queue pending true (ag_taken a) a.

(** The interface of a path: the last one with the id. *)
Definition iface_of (cfg : BackendConfig) (path : Z) : string :=
  fold_left (fun i p => if pinfo_ID p =? path then pinfo_Iface p else i) (bc_Paths cfg) ""%string.

Definition applyDecision (path seq : Z) (ret_ok ov_ok : bool) (a : Agent) : Agent :=
  if path =? 0 then a
  else if seq <? ag_lastSeq a then a
  else if path =? ag_active a then
    set_ag_decision (ag_active a) (if ag_lastSeq a <? seq then seq else ag_lastSeq a) a
  else
    let iface := iface_of (ag_cfg a) path in
    if String.eqb iface "" then a
    else
      match SetReturnPath iface ret_ok a with
      | (false, a) => a
      | (true, a) =>
          let a := SetOverlayRoute iface ov_ok a in
          set_ag_decision path (if ag_lastSeq a <? seq then seq else ag_lastSeq a) a
      end.

(** [applyLoop]'s wake case, split where the probe loop can run: the worker
    reads the queue, then applies what it read. *)
Definition work_take (a : Agent) : Agent :=
  if ag_wake a then
    set_ag_queue (ag_pending a) false
      (if negb (pd_path (ag_pending a) =? 0) then Some (ag_pending a) else None) a
  else a.
Definition work_apply (ret_ok ov_ok : bool) (a : Agent) : Agent :=
  match ag_taken a with
  | None => a
  | Some d => set_ag_queue (ag_pending (applyDecision (pd_path d) (pd_seq d) ret_ok ov_ok a))
                (ag_wake a) None (applyDecision (pd_path d) (pd_seq d) ret_ok ov_ok a)
  end.

(** [reassertReturnPath] and the parts of [ApplyConfig] that route. *)
Definition reassertReturnPath (ok : bool) (a : Agent) : Agent :=
  if ag_active a =? 0 then a
  else match List.find (fun p => pinfo_ID p =? ag_active a) (bc_Paths (ag_cfg a)) with
       | Some p => (SetReturnPath (pinfo_Iface p) ok a).2
       | None => a
       end.

(** The last step of [applyPlumbing]: before any decision, the first tunnel that
    exists carries the channel. *)
Definition seed_overlay (exists_ifc : string -> bool) (ok : bool) (a : Agent) : Agent :=
  if ag_active a =? 0 then
    match List.find (fun p => exists_ifc (pinfo_Iface p)) (bc_Paths (ag_cfg a)) with
    | Some p => SetOverlayRoute (pinfo_Iface p) ok a
    | None => a
    end
  else a.

Definition ApplyConfig (cfg : BackendConfig) (exists_ifc : string -> bool) (ov_ok ret_ok : bool)
    (a : Agent) : Agent :=
  reassertReturnPath ret_ok (seed_overlay exists_ifc ov_ok (set_ag_cfg cfg a)).

(** The two routes [reconcileRouting] repairs; [read_ov] and [read_ret] say
    whether the kernel's tables could be read. *)
Definition reconcile_agent (exists_ifc : string -> bool) (read_ov ov_ok read_ret ret_ok : bool)
    (a : Agent) : Agent :=
  if negb (ag_haveCfg a) then a
  else
    let iface := iface_of (ag_cfg a) (ag_active a) in
    if String.eqb iface "" || negb (exists_ifc iface) then a
    else
      let a := if read_ov && negb (bool_decide (ag_ov a = Some iface))
               then SetOverlayRoute iface ov_ok a else a in
      if negb (ag_applying a) then a
      else if read_ret && negb (bool_decide (ag_ret a = Some iface))
      then (SetReturnPath iface ret_ok a).2 else a.

(** ** What the bound admits *)

(** Nothing in the bound can overflow: an anchor under the horizon is below
    [2^58], and elapsed time is at most [2^63] nanoseconds. *)
Lemma Milliseconds_range d : 0 <= d -> in_i64 d -> 0 <= Milliseconds d < 2 ^ 44.
Proof.
  intros Hd Hi. unfold Milliseconds, Millisecond. rewrite Z.quot_div_nonneg by lia.
  change (2 ^ 44) with 17592186044416. go_lia || (Z.div_mod_to_equations; go_lia).
Qed.

Lemma shl16 z : Z.shiftl z 16 = z * 65536.
Proof. rewrite Z.shiftl_mul_pow2 by lia. done. Qed.
Lemma shr16_le z h : Z.shiftr z 16 <= h <-> z < (h + 1) * 65536.
Proof.
  rewrite Z.shiftr_div_pow2 by lia. change (2 ^ 16) with 65536.
  split; intros H; Z.div_mod_to_equations; lia.
Qed.

Definition elapsed_since (at_ now : instant) : Duration :=
  Z.max 0 (Sub (i_mono now) (i_mono at_)).
Definition wall_reference (now : instant) : Z :=
  let ms := UnixMilli (i_wall now) in
  if (0 <? ms) && (ms <=? decisionSeqHorizonMs) then ms * 65536 else 0.
Definition decision_ceiling (base : Z) (at_ now : instant) : Z :=
  Z.max (base + Milliseconds (elapsed_since at_ now) * 65536) (wall_reference now)
  + 604800000 * 65536.

(** A decision is believed exactly when its number is within the century
    and, once the backend has an anchor, no more than a week past the higher of
    two references: the first number it accepted plus the time that has passed
    since on its own monotonic clock, and its wall clock where that reads
    between 1970 and the horizon.  The sixty-four bit arithmetic never wraps.
    So no wall clock, however wrong, refuses a decision the anchor admits. *)
Theorem plausible_exact seq base at_ now :
  0 <= base -> Z.shiftr base 16 <= decisionSeqHorizonMs ->
  plausibleDecisionSeq seq base at_ now = true
  <-> Z.shiftr seq 16 <= decisionSeqHorizonMs
      /\ (base = 0 \/ seq <= decision_ceiling base at_ now).
Proof.
  intros H0 Hb. unfold plausibleDecisionSeq.
  destruct (Z.ltb_spec decisionSeqHorizonMs (Z.shiftr seq 16)); [lia |].
  destruct (Z.eqb_spec base 0) as [->|Hne]; [naive_solver |].
  apply shr16_le in Hb. unfold decisionSeqHorizonMs in *.
  assert (He : (if Sub (i_mono now) (i_mono at_) <? 0 then 0 else Sub (i_mono now) (i_mono at_))
               = elapsed_since at_ now).
  { unfold elapsed_since. destruct (Z.ltb_spec (Sub (i_mono now) (i_mono at_)) 0); lia. }
  rewrite He.
  assert (Hr : 0 <= Milliseconds (elapsed_since at_ now) < 17592186044416).
  { apply Milliseconds_range; unfold elapsed_since;
      pose proof (Sub_range (i_mono now) (i_mono at_)); [lia | go_lia]. }
  unfold decision_ceiling, wall_reference.
  set (el := Milliseconds (elapsed_since at_ now)) in *.
  rewrite (u64_id el), shl16, (u64_id (el * 65536)), (u64_id (base + el * 65536)) by go_lia.
  change (u64 (Z.shiftl (u64 (Milliseconds decisionSeqSkew)) 16)) with (604800000 * 65536).
  set (ms := UnixMilli (i_wall now)). unfold decisionSeqHorizonMs.
  destruct (Z.ltb_spec 0 ms); cbn [andb];
    [| rewrite u64_id by go_lia; rewrite Z.leb_le; lia].
  destruct (Z.leb_spec ms 4102444800000); cbn [andb];
    [| rewrite u64_id by go_lia; rewrite Z.leb_le; lia].
  rewrite (u64_id ms), shl16, (u64_id (ms * 65536)) by go_lia.
  destruct (Z.ltb_spec (base + el * 65536) (ms * 65536));
    rewrite u64_id by go_lia; rewrite Z.leb_le; lia.
Qed.

Lemma plausible_exact_witness :
  plausibleDecisionSeq 6000 5000 (mkInstant 0 0) (mkInstant 0 Second) = true
  <-> Z.shiftr 6000 16 <= decisionSeqHorizonMs
      /\ (5000 = 0 \/ 6000 <= decision_ceiling 5000 (mkInstant 0 0) (mkInstant 0 Second)).
Proof. apply (plausible_exact 6000 5000); [lia | vm_compute; discriminate]. Defined.

(** ** Interleavings

    Probes arrive in the read loop at any point of the worker's progress; a
    configuration push and a reconcile are whole turns, as is the application
    of a decision ([applyMu]).  [AgentLose] is the kernel discarding the routes
    of an interface that went away. *)
Inductive agent_op :=
| AgentProbe (path seq : Z) (now : instant)
| AgentTake
| AgentApply (ret_ok ov_ok : bool)
| AgentConfig (cfg : BackendConfig) (exists_ifc : string -> bool) (ov_ok ret_ok : bool)
| AgentReconcile (exists_ifc : string -> bool) (read_ov ov_ok read_ret ret_ok : bool)
| AgentLose.

Definition agent_step (a : Agent) (o : agent_op) : Agent :=
  match o with
  | AgentProbe path seq now => SetActivePath path seq now a
  | AgentTake => work_take a
  | AgentApply r v => work_apply r v a
  | AgentConfig cfg ex v r => ApplyConfig cfg ex v r a
  | AgentReconcile ex rv v rr r => reconcile_agent ex rv v rr r a
  | AgentLose => set_ag_routes None None a
  end.
Definition agent_run (ops : list agent_op) (a : Agent) : Agent := fold_left agent_step ops a.

Lemma agent_run_app xs ys a : agent_run (xs ++ ys) a = agent_run ys (agent_run xs a).
Proof. apply fold_left_app. Qed.

(** [New], with no configuration cached. *)
Definition NewAgent : Agent :=
  mkAgent (mkBackendConfig (mkOverlayInfo "" "" "" "") [] "" 0 [] []) false 0 0
    (mkDecisionOf 0 0) false None 0 (mkInstant zeroTime zeroTime) new_throttle None None.

(** Which pairs of a number and a path probes carried; a number is unsigned. *)
Definition probe_in (carried : Z -> Z -> Prop) (o : agent_op) : Prop :=
  match o with AgentProbe path seq _ => 0 <= seq /\ carried seq path | _ => True end.

Definition sound_seq (seq : Z) : Prop := 0 <= seq /\ Z.shiftr seq 16 <= decisionSeqHorizonMs.
Definition sound_decision (carried : Z -> Z -> Prop) (d : pathDecision) : Prop :=
  sound_seq (pd_seq d) /\ (pd_path d = 0 \/ carried (pd_seq d) (pd_path d)).

(** The path in use is the one the newest decision applied chose. *)
Definition follows (carried : Z -> Z -> Prop) (a : Agent) : Prop :=
  sound_seq (ag_lastSeq a)
  /\ (ag_active a = 0 /\ ag_lastSeq a = 0 \/ carried (ag_lastSeq a) (ag_active a)).

(** No number was carried with two paths. *)
Definition one_each (carried : Z -> Z -> Prop) : Prop :=
  forall seq path path', carried seq path -> carried seq path' -> path = path'.

Record agent_inv (carried : Z -> Z -> Prop) (a : Agent) : Prop := {
  ai_follows : follows carried a;
  ai_pending : sound_decision carried (ag_pending a);
  ai_taken : forall d, ag_taken a = Some d -> sound_decision carried d;
  ai_base : sound_seq (ag_seqBase a) }.

Lemma SetReturnPath_frame iface ok a :
  let a' := (SetReturnPath iface ok a).2 in
  ag_cfg a' = ag_cfg a /\ ag_haveCfg a' = ag_haveCfg a
  /\ ag_active a' = ag_active a /\ ag_lastSeq a' = ag_lastSeq a
  /\ ag_pending a' = ag_pending a /\ ag_wake a' = ag_wake a /\ ag_taken a' = ag_taken a
  /\ ag_seqBase a' = ag_seqBase a /\ ag_seqBaseAt a' = ag_seqBaseAt a /\ ag_ov a' = ag_ov a.
Proof. unfold SetReturnPath. by destruct (ag_applying a), ok. Qed.

Lemma SetOverlayRoute_frame iface ok a :
  let a' := SetOverlayRoute iface ok a in
  ag_cfg a' = ag_cfg a /\ ag_haveCfg a' = ag_haveCfg a
  /\ ag_active a' = ag_active a /\ ag_lastSeq a' = ag_lastSeq a
  /\ ag_pending a' = ag_pending a /\ ag_wake a' = ag_wake a /\ ag_taken a' = ag_taken a
  /\ ag_seqBase a' = ag_seqBase a /\ ag_seqBaseAt a' = ag_seqBaseAt a /\ ag_ret a' = ag_ret a.
Proof. unfold SetOverlayRoute. by destruct ok. Qed.

(** What routes and configuration leave alone: everything the invariant is
    about. *)
Definition same_decisions (a b : Agent) : Prop :=
  ag_active b = ag_active a /\ ag_lastSeq b = ag_lastSeq a /\ ag_pending b = ag_pending a
  /\ ag_wake b = ag_wake a /\ ag_taken b = ag_taken a
  /\ ag_seqBase b = ag_seqBase a /\ ag_seqBaseAt b = ag_seqBaseAt a.
#[export] Instance same_decisions_refl : Reflexive same_decisions.
Proof. done. Qed.
#[export] Instance same_decisions_trans : Transitive same_decisions.
Proof. unfold same_decisions. intros a b c. intros. destruct_and!. split_and!; congruence. Qed.

Lemma same_return iface ok a : same_decisions a (SetReturnPath iface ok a).2.
Proof. destruct (SetReturnPath_frame iface ok a) as (?&?&?&?&?&?&?&?&?&?). by split_and!. Qed.
Lemma same_overlay iface ok a : same_decisions a (SetOverlayRoute iface ok a).
Proof. destruct (SetOverlayRoute_frame iface ok a) as (?&?&?&?&?&?&?&?&?&?). by split_and!. Qed.
#[export] Hint Resolve same_return same_overlay : go.

Lemma same_reassert ok a : same_decisions a (reassertReturnPath ok a).
Proof. unfold reassertReturnPath. split_if; [done |].
  destruct (List.find _ _); [apply same_return | done].
Qed.
Lemma same_config cfg ex v r a : same_decisions a (ApplyConfig cfg ex v r a).
Proof.
  unfold ApplyConfig. etrans; [| apply same_reassert]. unfold seed_overlay.
  split_if; [| done]. destruct (List.find _ _); [| done].
  etrans; [| apply same_overlay]. done.
Qed.
Lemma same_if (b : bool) a x y :
  same_decisions a x -> same_decisions a y -> same_decisions a (if b then x else y).
Proof. by destruct b. Qed.
Lemma same_reconcile ex rv v rr r a : same_decisions a (reconcile_agent ex rv v rr r a).
Proof.
  unfold reconcile_agent. apply same_if; [done |]. cbv zeta. apply same_if; [done |].
  set (a1 := if rv && _ then _ else a).
  assert (H1 : same_decisions a a1) by (apply same_if; [apply same_overlay | done]).
  apply same_if; [done |]. apply same_if; [| done]. etrans; [exact H1 | apply same_return].
Qed.

Lemma same_inv carried a b : same_decisions a b -> agent_inv carried a -> agent_inv carried b.
Proof.
  intros (H1 & H2 & H3 & H4 & H5 & H6 & _) [[F1 F2] P T B].
  split; unfold follows; rewrite ?H1, ?H2, ?H3, ?H5, ?H6; done.
Qed.

Lemma SetActivePath_inv carried path seq now a :
  0 <= seq -> carried seq path -> agent_inv carried a ->
  agent_inv carried (SetActivePath path seq now a)
  /\ ag_active (SetActivePath path seq now a) = ag_active a
  /\ ag_lastSeq (SetActivePath path seq now a) = ag_lastSeq a.
Proof.
  intros H0 Hc [F P T B]. unfold SetActivePath.
  destruct (path =? 0); [done |].
  destruct (plausibleDecisionSeq _ _ _ _) eqn:Hp; cbn [negb]; [| by split; [split |]].
  assert (Hs : sound_seq seq).
  { split; [done |]. unfold plausibleDecisionSeq in Hp.
    destruct (Z.ltb_spec decisionSeqHorizonMs (Z.shiftr seq 16)); [done | lia]. }
  set (a1 := if _ =? 0 then anchorDecisionSeq seq now a else a).
  assert (H1 : agent_inv carried a1 /\ ag_active a1 = ag_active a
            /\ ag_lastSeq a1 = ag_lastSeq a /\ ag_pending a1 = ag_pending a).
  { unfold a1, anchorDecisionSeq. destruct (ag_seqBase a =? 0); [| done].
    split; [by split | done]. }
  destruct H1 as ([F1 P1 T1 B1] & E1 & E2 & E3). clearbody a1.
  split_if; [by split; [split |] |]. cbn. split; [| done].
  split; [done | | done | done]. cbn. split_if; [| done].
  split; [done | by right].
Qed.

Lemma applyDecision_inv carried d r v a :
  agent_inv carried a -> sound_decision carried d ->
  let a' := applyDecision (pd_path d) (pd_seq d) r v a in
  follows carried a' /\ ag_lastSeq a <= ag_lastSeq a'
  /\ (one_each carried -> ag_lastSeq a' = ag_lastSeq a -> ag_active a <> 0 -> ag_active a' = ag_active a)
  /\ ag_pending a' = ag_pending a /\ ag_seqBase a' = ag_seqBase a.
Proof.
  intros [F P T B] [Hs Hd]. unfold applyDecision. cbv zeta.
  destruct (Z.eqb_spec (pd_path d) 0) as [|Hne]; [by split_and! |].
  destruct Hd as [|Hd]; [done |].
  destruct (Z.ltb_spec (pd_seq d) (ag_lastSeq a)) as [|Hle]; [by split_and! |].
  assert (Hmax : (if ag_lastSeq a <? pd_seq d then pd_seq d else ag_lastSeq a) = pd_seq d).
  { destruct (Z.ltb_spec (ag_lastSeq a) (pd_seq d)); lia. }
  destruct (Z.eqb_spec (pd_path d) (ag_active a)) as [Heq|Hne'].
  - rewrite Hmax. cbn. split_and!; try done. unfold follows. cbn. split; [done |]. right. congruence.
  - destruct (String.eqb _ _); [by split_and! |].
    pose proof (same_return (iface_of (ag_cfg a) (pd_path d)) r a) as Hr.
    destruct (SetReturnPath _ _ _) as [[|] a1]; cbn [snd] in Hr;
      destruct Hr as (R1 & R2 & R3 & R4 & R5 & R6 & R7).
    + pose proof (same_overlay (iface_of (ag_cfg a) (pd_path d)) v a1)
        as (V1 & V2 & V3 & V4 & V5 & V6 & V7).
      cbn. rewrite V2, R2, Hmax, V3, R3, V6, R6. split_and!; try done.
      * split; [exact Hs |]. right. cbn. by rewrite ?Hmax.
      * intros H1e Hq Hn. destruct F as [_ [[Fa _]|Fa]]; [congruence |].
        rewrite Hq in Hd. by eapply H1e.
    + unfold follows in *. rewrite R1, R2, R3, R6. destruct F. split_and!; done || lia.
Qed.

(** One turn keeps the invariant, never lowers the number in force, and moves
    the path in use only to a newer decision's. *)
Lemma agent_step_inv carried o a :
  probe_in carried o -> agent_inv carried a ->
  let b := agent_step a o in
  agent_inv carried b /\ ag_lastSeq a <= ag_lastSeq b
  /\ (one_each carried -> ag_lastSeq b = ag_lastSeq a -> ag_active a <> 0 -> ag_active b = ag_active a).
Proof.
  intros Ho Hinv.
  assert (Hsame : forall b, same_decisions a b -> agent_inv carried b
    /\ ag_lastSeq a <= ag_lastSeq b
    /\ (one_each carried -> ag_lastSeq b = ag_lastSeq a -> ag_active a <> 0 -> ag_active b = ag_active a)).
  { intros b Hb. split; [by eapply same_inv |]. destruct Hb as (-> & -> & _). by split. }
  destruct o; cbn [agent_step]; cbv zeta.
  - destruct Ho as [H0 Hc]. destruct (SetActivePath_inv carried path seq now a) as (I & -> & ->); try done.
  - unfold work_take. split_if; [| by apply Hsame]. cbn. split; [| done].
    destruct Hinv as [F P T B]. split; try done. cbn. intros d.
    destruct (negb _); [intros [= <-] | done]. done.
  - unfold work_apply. destruct (ag_taken a) as [d|] eqn:Ed; [| by apply Hsame].
    destruct (applyDecision_inv carried d ret_ok ov_ok a) as (F & L & M & P & B); [done | |].
    { by apply (ai_taken carried a Hinv). }
    cbn. split; [| by split]. split; cbn; [done | | done |].
    + rewrite P. apply Hinv.
    + rewrite B. apply Hinv.
  - apply Hsame, same_config.
  - apply Hsame, same_reconcile.
  - by apply Hsame.
Qed.

Lemma agent_run_inv carried ops : forall a,
  Forall (probe_in carried) ops -> agent_inv carried a ->
  let b := agent_run ops a in
  agent_inv carried b /\ ag_lastSeq a <= ag_lastSeq b
  /\ (one_each carried -> ag_lastSeq b = ag_lastSeq a -> ag_active a <> 0 -> ag_active b = ag_active a).
Proof.
  induction ops as [|o ops IH]; intros a Hh Hinv; [by split_and! |].
  apply Forall_cons in Hh as [Ho Hh].
  destruct (agent_step_inv carried o a Ho Hinv) as (I1 & L1 & M1).
  destruct (IH (agent_step a o) Hh I1) as (I2 & L2 & M2).
  change (agent_run (o :: ops) a) with (agent_run ops (agent_step a o)). cbv zeta in *.
  split; [done |]. split; [lia |]. intros H1e Heq Hn.
  assert (Hl : ag_lastSeq (agent_step a o) = ag_lastSeq a) by lia.
  rewrite M2; [by apply M1 | done | lia |]. by rewrite (M1 H1e Hl Hn).
Qed.

Lemma NewAgent_inv carried : agent_inv carried NewAgent.
Proof.
  assert (H : sound_seq 0) by (split; vm_compute; discriminate).
  split; try done; [split; [done | by left] | split; [done | by left]].
Qed.

(** What the probes of a run carried. *)
Definition probed (ops : list agent_op) (seq path : Z) : Prop := exists now, AgentProbe path seq now ∈ ops.
Definition unsigned (o : agent_op) : Prop := match o with AgentProbe _ seq _ => 0 <= seq | _ => True end.

Lemma probed_all ops : Forall unsigned ops -> Forall (probe_in (probed ops)) ops.
Proof.
  rewrite !Forall_forall. intros Hu o Ho. specialize (Hu o Ho).
  destruct o; cbn in *; try done. split; [done | by eexists].
Qed.

(** [C6] The backend never moves to an older decision.  However probes
    (reordered, duplicated, refused), failing route commands, configuration
    pushes, repairs and lost routes interleave, the number in force never goes
    down, and the path in use is one a probe carried with just that number.
    Where no number was carried with two paths, the path changes only together
    with the number; a frontend that restarts within a tick of the clock its
    numbers are seeded from can use one number twice, and the second path is
    then applied ([equal_number_moves]). *)
Theorem decisions_monotone ops1 ops2 :
  Forall unsigned (ops1 ++ ops2) ->
  let a := agent_run ops1 NewAgent in
  let b := agent_run ops2 a in
  ag_lastSeq a <= ag_lastSeq b
  /\ (ag_active b = 0 /\ ag_lastSeq b = 0
      \/ exists now, AgentProbe (ag_active b) (ag_lastSeq b) now ∈ ops1 ++ ops2)
  /\ (one_each (probed (ops1 ++ ops2)) ->
      ag_lastSeq b = ag_lastSeq a -> ag_active a <> 0 -> ag_active b = ag_active a).
Proof.
  intros Hu a b. pose proof (probed_all _ Hu) as [H1 H2]%Forall_app.
  destruct (agent_run_inv _ ops1 NewAgent H1 (NewAgent_inv _)) as (I1 & _ & _).
  destruct (agent_run_inv _ ops2 a H2 I1) as (I2 & L & M).
  split; [done |]. split; [apply I2 | done].
Qed.

Definition sample_paths : list PathInfo :=
  [mkPathInfo 1 "main" "wg-main" 101 257 false fzero;
   mkPathInfo 2 "lte" "wg-lte1" 102 258 true fzero].
Definition sample_backend_cfg : BackendConfig :=
  mkBackendConfig (mkOverlayInfo "10.99.0.1" "10.99.0.2" "wg-main" "") sample_paths ModeArmed
    1000 [] [].

Definition first_turns : list agent_op :=
  [AgentConfig sample_backend_cfg (fun _ => true) true true;
   AgentProbe 1 70000 (mkInstant 0 0); AgentTake; AgentApply true true].
Definition next_turns : list agent_op :=
  [AgentProbe 2 80000 (mkInstant 0 5); AgentProbe 1 70000 (mkInstant 0 6);
   AgentTake; AgentApply true true; AgentProbe 1 70000 (mkInstant 0 7); AgentTake; AgentApply true true].

Lemma decisions_monotone_witness :
  let a := agent_run first_turns NewAgent in
  let b := agent_run next_turns a in
  (ag_active a = 1 /\ ag_active b = 2 /\ ag_ret b = Some "wg-lte1"%string)
  /\ ag_lastSeq a <= ag_lastSeq b
  /\ (ag_active b = 0 /\ ag_lastSeq b = 0
      \/ exists now, AgentProbe (ag_active b) (ag_lastSeq b) now ∈ first_turns ++ next_turns)
  /\ (one_each (probed (first_turns ++ next_turns)) ->
      ag_lastSeq b = ag_lastSeq a -> ag_active a <> 0 -> ag_active b = ag_active a).
Proof.
  split; [vm_compute; done |].
  apply (decisions_monotone first_turns next_turns). repeat constructor; done.
Defined.

(** One number carried with two paths: the second is a decision of its own. *)
Example equal_number_moves :
  let b := agent_run [AgentProbe 2 70000 (mkInstant 0 5); AgentTake; AgentApply true true] (agent_run first_turns NewAgent) in
  ag_active (agent_run first_turns NewAgent) = 1 /\ ag_active b = 2 /\ ag_lastSeq b = 70000.
Proof. vm_compute. done. Qed.

(** ** A decision gets applied *)

Lemma plausible_self seq at_ now :
  sound_seq seq -> plausibleDecisionSeq seq seq at_ now = true.
Proof.
  intros [H0 Hh]. apply plausible_exact; [done | done |]. split; [done |]. right.
  pose proof (Sub_range (i_mono now) (i_mono at_)) as Hs.
  pose proof (Milliseconds_range (elapsed_since at_ now)) as Hm.
  unfold elapsed_since, decision_ceiling, elapsed_since in *.
  specialize (Hm ltac:(lia) ltac:(go_lia)). lia.
Qed.

(** The agent between two decisions: nothing taken, nothing newer queued, and
    the decision believed at each of the readings to come. *)
Record awaiting (path seq : Z) (times : list instant) (a : Agent) : Prop := {
  aw_last : ag_lastSeq a <= seq;
  aw_pending : pd_seq (ag_pending a) <= seq;
  aw_active : ag_active a <> path;
  aw_taken : ag_taken a = None;
  aw_plausible : forall now, now ∈ times ->
    plausibleDecisionSeq seq (ag_seqBase a) (ag_seqBaseAt a) now = true }.

(** One probe with the decision, and the worker's turn on it. *)
Definition decision_round (path seq : Z) (now : instant) (ret_ok ov_ok : bool) : list agent_op :=
  [AgentProbe path seq now; AgentTake; AgentApply ret_ok ov_ok].

Lemma decision_taken path seq now times a :
  path <> 0 -> sound_seq seq -> awaiting path seq (now :: times) a ->
  exists a1, work_take (SetActivePath path seq now a) = a1
    /\ ag_taken a1 = Some (mkDecisionOf path seq) /\ ag_wake a1 = false
    /\ ag_active a1 = ag_active a /\ ag_lastSeq a1 = ag_lastSeq a
    /\ ag_pending a1 = mkDecisionOf path seq
    /\ ag_cfg a1 = ag_cfg a /\ ag_haveCfg a1 = ag_haveCfg a
    /\ ag_ret a1 = ag_ret a /\ ag_ov a1 = ag_ov a
    /\ (forall t, t ∈ times -> plausibleDecisionSeq seq (ag_seqBase a1) (ag_seqBaseAt a1) t = true).
Proof.
  intros Hp Hs [L P A T Pl]. unfold SetActivePath.
  destruct (Z.eqb_spec path 0); [done |]. rewrite (Pl now) by (by left). cbn [negb].
  set (a0 := if ag_seqBase a =? 0 then anchorDecisionSeq seq now a else a).
  assert (H0 : ag_active a0 = ag_active a /\ ag_lastSeq a0 = ag_lastSeq a
    /\ ag_pending a0 = ag_pending a /\ ag_cfg a0 = ag_cfg a /\ ag_haveCfg a0 = ag_haveCfg a
    /\ ag_ret a0 = ag_ret a /\ ag_ov a0 = ag_ov a
    /\ (forall t, t ∈ times -> plausibleDecisionSeq seq (ag_seqBase a0) (ag_seqBaseAt a0) t = true)).
  { unfold a0, anchorDecisionSeq. destruct (ag_seqBase a =? 0) eqn:E.
    - split_and!; try done. intros t _. cbn. by apply plausible_self.
    - split_and!; try done. intros t Ht. apply Pl. by right. }
  destruct H0 as (E1 & E2 & E3 & E4 & E5 & E6 & E7 & E8). clearbody a0.
  rewrite E1, E2, E3. destruct (Z.ltb_spec seq (ag_lastSeq a)); [lia |].
  destruct (Z.eqb_spec path (ag_active a)); [by subst |]. cbn [orb andb].
  destruct (Z.leb_spec (pd_seq (ag_pending a)) seq); [| lia].
  unfold work_take. cbn. destruct (Z.eqb_spec path 0); [done |]. eexists. split; [done |].
  cbn. by split_and!.
Qed.

Lemma decision_round_fails path seq now ov times a :
  path <> 0 -> sound_seq seq -> ag_applying a = true ->
  iface_of (ag_cfg a) path <> ""%string -> awaiting path seq (now :: times) a ->
  let b := agent_run (decision_round path seq now false ov) a in
  awaiting path seq times b /\ ag_cfg b = ag_cfg a /\ ag_haveCfg b = ag_haveCfg a
  /\ ag_active b = ag_active a.
Proof.
  intros Hp Hs Harm Hif Hw.
  destruct (decision_taken path seq now times a Hp Hs Hw)
    as (a1 & E & Ht & Hwk & Ha & Hl & Hpd & Hc & Hh & Hr & Ho & Hpl).
  destruct Hw as [L P A T Pl].
  unfold decision_round, agent_run. cbn [fold_left agent_step]. cbv zeta. rewrite E.
  assert (Hd : applyDecision path seq false ov a1 = a1).
  { unfold applyDecision. destruct (Z.eqb_spec path 0); [done |]. rewrite Hl, Ha, Hc.
    destruct (Z.ltb_spec seq (ag_lastSeq a)); [lia |].
    destruct (Z.eqb_spec path (ag_active a)); [by subst |].
    destruct (String.eqb_spec (iface_of (ag_cfg a) path) ""); [done |].
    unfold SetReturnPath. assert (ag_applying a1 = true) as ->; [| done].
    unfold ag_applying in *. by rewrite Hc, Hh. }
  unfold work_apply. rewrite Ht. cbn [pd_path pd_seq]. rewrite Hd.
  split; [| by split_and!]. split; cbn; [lia | rewrite Hpd; cbn; lia | congruence | done | done].
Qed.

Lemma decision_round_ok path seq now times a :
  path <> 0 -> sound_seq seq ->
  iface_of (ag_cfg a) path <> ""%string -> awaiting path seq (now :: times) a ->
  let b := agent_run (decision_round path seq now true true) a in
  ag_active b = path /\ ag_lastSeq b = seq /\ ag_ov b = Some (iface_of (ag_cfg a) path)
  /\ ag_ret b = (if ag_applying a then Some (iface_of (ag_cfg a) path) else ag_ret a).
Proof.
  intros Hp Hs Hif Hw.
  destruct (decision_taken path seq now times a Hp Hs Hw)
    as (a1 & E & Ht & Hwk & Ha & Hl & Hpd & Hc & Hh & Hr & Ho & Hpl).
  destruct Hw as [L P A T Pl].
  unfold decision_round, agent_run. cbn [fold_left agent_step]. cbv zeta. rewrite E.
  unfold work_apply. rewrite Ht. cbn [pd_path pd_seq]. unfold applyDecision.
  destruct (Z.eqb_spec path 0); [done |]. rewrite Hl, Ha, Hc.
  destruct (Z.ltb_spec seq (ag_lastSeq a)); [lia |].
  destruct (Z.eqb_spec path (ag_active a)); [by subst |].
  destruct (String.eqb_spec (iface_of (ag_cfg a) path) ""); [done |].
  assert (Hap : ag_applying a1 = ag_applying a) by (unfold ag_applying; by rewrite Hc, Hh).
  unfold SetReturnPath. rewrite Hap. destruct (ag_applying a); cbn; rewrite ?Hl;
    (split_and!; try done; destruct (Z.ltb_spec (ag_lastSeq a) seq); lia).
Qed.

(** [C31] A decision the backend could not install is installed as soon as it
    can be.  An armed backend that is told of a newer decision for another
    path, by probes that all carry it, and whose return-path command fails any
    number of times, claims nothing meanwhile: the path in use stays the old
    one.  The first probe after the command works moves it, with the return
    path and the overlay route on the new tunnel. *)
Theorem decision_retried path seq times now ov a :
  path <> 0 -> sound_seq seq -> ag_applying a = true ->
  iface_of (ag_cfg a) path <> ""%string ->
  awaiting path seq (times ++ [now]) a ->
  let tried := agent_run (concat ((fun t => decision_round path seq t false ov) <$> times)) a in
  let b := agent_run (decision_round path seq now true true) tried in
  ag_active tried = ag_active a
  /\ ag_active b = path /\ ag_lastSeq b = seq
  /\ ag_ret b = Some (iface_of (ag_cfg a) path) /\ ag_ov b = Some (iface_of (ag_cfg a) path).
Proof.
  intros Hp Hs. revert a. induction times as [|t times IH]; intros a Harm Hif Hw; cbv zeta.
  - destruct (decision_round_ok path seq now [] a Hp Hs Hif Hw) as (H1 & H2 & H3 & H4).
    rewrite Harm in H4. by split_and!.
  - destruct (decision_round_fails path seq t ov (times ++ [now]) a Hp Hs Harm Hif Hw)
      as (W & C & H & A).
    cbn [fmap list_fmap concat]. rewrite agent_run_app, <- A, <- C.
    apply IH; unfold ag_applying in *; rewrite ?C, ?H; done.
Qed.

Lemma decision_retried_witness :
  let a := agent_run (AgentConfig sample_backend_cfg (fun _ => true) true true
             :: decision_round 1 70000 (mkInstant 0 0) true true) NewAgent in
  let times := [mkInstant 0 5; mkInstant 0 6] in
  let tried := agent_run (concat ((fun t => decision_round 2 80000 t false true) <$> times)) a in
  let b := agent_run (decision_round 2 80000 (mkInstant 0 7) true true) tried in
  ag_active tried = ag_active a
  /\ ag_active b = 2 /\ ag_lastSeq b = 80000
  /\ ag_ret b = Some (iface_of (ag_cfg a) 2) /\ ag_ov b = Some (iface_of (ag_cfg a) 2).
Proof.
  intros a times.
  apply (decision_retried 2 80000 times (mkInstant 0 7) true a).
  - done.
  - split; vm_compute; discriminate.
  - vm_compute. reflexivity.
  - vm_compute. discriminate.
  - split; [vm_compute; discriminate | vm_compute; discriminate | vm_compute; discriminate
           | vm_compute; reflexivity |].
    intros now Hnow. unfold times in Hnow. cbn [app] in Hnow.
    repeat (apply elem_of_cons in Hnow as [-> | Hnow]; [vm_compute; reflexivity |]).
    by apply elem_of_nil in Hnow.
Defined.

(** ** The return path *)

(** A configuration naming each path once, the one in use among them. *)
Lemma find_iface_of ps path p :
  NoDup (pinfo_ID <$> ps) -> List.find (fun q => pinfo_ID q =? path) ps = Some p ->
  forall i, fold_left (fun i q => if pinfo_ID q =? path then pinfo_Iface q else i) ps i
            = pinfo_Iface p.
Proof.
  assert (Hnone : forall ps i, path ∉ (pinfo_ID <$> ps) ->
    fold_left (fun i q => if pinfo_ID q =? path then pinfo_Iface q else i) ps i = i).
  { clear. induction ps as [|q ps IH]; intros i Hn; [done |].
    rewrite fmap_cons, not_elem_of_cons in Hn. destruct Hn as [Hq Hn]. cbn.
    destruct (Z.eqb_spec (pinfo_ID q) path); [congruence |]. by apply IH. }
  induction ps as [|q ps IH]; intros Hnd Hf i; [done |]. cbn in *.
  apply NoDup_cons in Hnd as [Hq Hnd].
  destruct (Z.eqb_spec (pinfo_ID q) path) as [Hp|Hp]; [| by apply IH].
  injection Hf as <-. apply Hnone. by rewrite <- Hp.
Qed.

(** The return path is put back whenever it can be wrong: whatever the
    kernel's tables held, a configuration push that leaves the backend armed,
    and a repair turn on an armed backend, each end with replies leaving by
    the tunnel of the path in use; the repair puts the overlay route there
    too; and a backend that is only observing is given no return path by
    either. *)
Theorem return_path_restored a cfg p :
  ag_active a <> 0 -> NoDup (pinfo_ID <$> bc_Paths cfg) ->
  List.find (fun q => pinfo_ID q =? ag_active a) (bc_Paths cfg) = Some p ->
  pinfo_Iface p <> ""%string ->
  forall ex, let pushed := ApplyConfig cfg ex true true a in
  ag_ret pushed = (if String.eqb (bc_Mode cfg) ModeArmed then Some (pinfo_Iface p) else ag_ret a)
  /\ forall lost_ret lost_ov, ex (pinfo_Iface p) = true ->
     let repaired := reconcile_agent ex true true true true (set_ag_routes lost_ret lost_ov pushed) in
     ag_ov repaired = Some (pinfo_Iface p)
     /\ ag_ret repaired = (if String.eqb (bc_Mode cfg) ModeArmed then Some (pinfo_Iface p)
                           else lost_ret).
Proof.
  intros Ha Hnd Hf Hne ex. apply Z.eqb_neq in Ha.
  pose proof (find_iface_of _ _ _ Hnd Hf "") as Hi.
  assert (Hp : exists ret, ApplyConfig cfg ex true true a
      = set_ag_routes ret (ag_ov a) (set_ag_cfg cfg a)
    /\ ret = if String.eqb (bc_Mode cfg) ModeArmed then Some (pinfo_Iface p) else ag_ret a).
  { unfold ApplyConfig, reassertReturnPath, seed_overlay. cbn. rewrite Ha. cbn. rewrite Ha, Hf.
    unfold SetReturnPath, ag_applying. cbn.
    destruct (String.eqb (bc_Mode cfg) ModeArmed); cbn; eexists; split; done. }
  destruct Hp as (ret & -> & ->). cbv zeta. split; [done |].
  intros lr lo Hex. unfold reconcile_agent. cbn. unfold iface_of. rewrite Hi.
  destruct (String.eqb_spec (pinfo_Iface p) ""); [done |]. rewrite Hex. cbn.
  unfold ag_applying. cbn.
  destruct (bool_decide (lo = _)) eqn:Eo; [apply bool_decide_eq_true in Eo; subst lo |]; cbn;
    (destruct (String.eqb (bc_Mode cfg) ModeArmed) eqn:Em; cbn; [| done]);
    (destruct (bool_decide (lr = _)) eqn:Er; [apply bool_decide_eq_true in Er; by subst lr |]);
    cbn; unfold SetReturnPath, ag_applying; cbn; by rewrite Em.
Qed.

Lemma return_path_restored_witness :
  let a := agent_run (AgentConfig sample_backend_cfg (fun _ => true) true true
             :: decision_round 1 70000 (mkInstant 0 0) true true) NewAgent in
  let pushed := ApplyConfig sample_backend_cfg (fun _ => true) true true a in
  ag_ret pushed = Some "wg-main"%string
  /\ forall lost_ret lost_ov, true = true ->
     let repaired := reconcile_agent (fun _ => true) true true true true
                       (set_ag_routes lost_ret lost_ov pushed) in
     ag_ov repaired = Some "wg-main"%string /\ ag_ret repaired = Some "wg-main"%string.
Proof.
  intros a.
  refine (return_path_restored a sample_backend_cfg
    (mkPathInfo 1 "main" "wg-main" 101 257 false fzero) _ _ _ _ (fun _ => true));
    [vm_compute; congruence | | vm_compute; reflexivity | vm_compute; congruence].
  repeat constructor; cbn; set_solver.
Defined.
