(* ===== verification/Responder.v ===== *)
(** * The probe responder ([internal/agent/responder.go])

    The backend's half of a probe's trip.  [on_datagram] is one turn of the
    read loop: authenticate, drop with a throttled report, hand the decision
    to [Agent.SetActivePath], and answer from the socket that carries the
    path's mark ([replyConn]).  Composed with the prober's [send] and
    [resolve] it is the whole round trip of a measurement. *)

From S2P Require Import Prelude GoTime Float64 Model Bytes Sha256 Wire Messages Prober Control Agent.

(** The reply sockets open, by path, each with the mark it was opened with,
    and the two throttled reports. *)
Record Responder := mkResponder {
  rs_replies : gmap Z Z; rs_noise : throttle; rs_wrongVersion : throttle }.

Definition NewResponder : Responder := mkResponder ∅ new_throttle new_throttle.

(** [watchReloads]: every reply socket is closed. *)
Definition reload_sockets (r : Responder) : Responder :=
  mkResponder ∅ (rs_noise r) (rs_wrongVersion r).

(** The mark of a path: the last one with the id, zero when there is none. *)
Definition mark_of (cfg : BackendConfig) (path : Z) : Z :=
  fold_left (fun m p => if pinfo_ID p =? path then pinfo_Mark p else m) (bc_Paths cfg) 0.

(** [replyConn]: the mark of the socket to answer from, [None] being the
    listening socket itself; [opens] is the kernel's answer to the bind. *)
Definition replyConn (a : Agent) (opens : bool) (path : Z) (r : Responder) : option Z * Responder :=
  match rs_replies r !! path with
  | Some mark => (Some mark, r)
  | None =>
      if negb (ag_haveCfg a) then (None, r)
      else
        let mark := mark_of (ag_cfg a) path in
        if mark =? 0 then (None, r)
        else if negb opens then (None, r)
        else (Some mark, mkResponder (<[path := mark]> (rs_replies r)) (rs_noise r) (rs_wrongVersion r))
  end.

Definition reply_of (msg : Probe) (echo : Z) : Probe :=
  mkProbe TypeReply (pr_PathID msg) (pr_Seq msg) (pr_TxNanos msg) echo
    (pr_ActivePath msg) (pr_DecisionSeq msg) (pr_Nonce msg).

Definition bufSize : nat := 512.

(** What is sent, and the two states after.  [now] is the reading the decision
    is judged at, [echo] the one stamped on the reply. *)
Definition on_datagram (psk : bytes) (now : instant) (echo : Z) (opens : bool) (b : bytes)
    (a : Agent) (r : Responder) : option (bytes * option Z) * Agent * Responder :=
  match Unmarshal (take bufSize b) psk with
  | Err ErrProbeVersion =>
      (None, a, mkResponder (rs_replies r) (rs_noise r)
                  (throttle_take (i_mono now) (rs_wrongVersion r)).2)
  | Err ErrBadProbe =>
      (None, a, mkResponder (rs_replies r) (throttle_take (i_mono now) (rs_noise r)).2
                  (rs_wrongVersion r))
  | Ok msg =>
      if negb (pr_Type msg =? TypeProbe) then (None, a, r)
      else
        let a := SetActivePath (pr_ActivePath msg) (pr_DecisionSeq msg) now a in
        let reply := Marshal (reply_of msg echo) psk in
        let '(conn, r) := replyConn a opens (pr_PathID msg) r in
        (Some (reply, conn), a, r)
  end.

(** [flushThrottles]. *)
Definition flushThrottles (now : Time) (a : Agent) (r : Responder) : (Z * Z * Z) * Agent * Responder :=
  let '(nv, wv) := throttle_flush now (rs_wrongVersion r) in
  let '(nn, no) := throttle_flush now (rs_noise r) in
  let '(ni, im) := throttle_flush now (ag_implausible a) in
  ((nv, nn, ni), set_ag_implausible im a, mkResponder (rs_replies r) no wv).

(** ** The round trip *)

Lemma take_probe p psk : take bufSize (Marshal p psk) = Marshal p psk.
Proof.
  destruct (MAC_split p psk) as (_ & _ & Hl). apply take_ge. rewrite Hl. by apply Nat.leb_le.
Qed.

Lemma reply_of_wf msg echo : probe_wf msg -> in_i64 echo -> probe_wf (reply_of msg echo).
Proof. intros [] He. split; cbn; try done. Qed.

(** What is answered is exactly the marshalled probes of type probe, and what
    is answered with is the marshalled reply. *)
Lemma on_datagram_probe psk now echo opens msg a r :
  probe_wf msg -> pr_Type msg = TypeProbe ->
  on_datagram psk now echo opens (Marshal msg psk) a r =
    let a' := SetActivePath (pr_ActivePath msg) (pr_DecisionSeq msg) now a in
    (Some (Marshal (reply_of msg echo) psk, (replyConn a' opens (pr_PathID msg) r).1),
     a', (replyConn a' opens (pr_PathID msg) r).2).
Proof.
  intros Hwf Ht. unfold on_datagram. rewrite take_probe, unmarshal_marshalled by done.
  rewrite Ht. change (negb (TypeProbe =? TypeProbe)) with false. cbv iota zeta.
  by destruct (replyConn _ _ _ _).
Qed.

(** The Go types of what the prober stamps on a probe. *)
Definition send_wf (decision : Z * Z) (now : Time) (nonce : Z) : Prop :=
  0 <= decision.1 < 65536 /\ in_u64 decision.2
  /\ in_i64 (now - unixToInternal * Second) /\ in_u64 nonce.

Lemma send_probe_wf decision now nonce p :
  send_wf decision now nonce -> probe_wf (send decision now nonce p).1.1.
Proof.
  intros (Hd & Hs & Ht & Hn). unfold send. cbn.
  split; cbn; try done; auto with go; unfold in_i64, MinInt64, MaxInt64; lia.
Qed.

(** [C26] A measurement completes.  The probe a prober puts on the wire, carried
    to a backend that shares the secret, is answered; the answer, carried
    back, is accepted by that prober as the answer to that very probe, with
    the time it took and no loss; and on the way the backend was handed the
    routing decision stamped on it.  A second copy of the answer is refused. *)
Theorem probe_answered psk decision sent nonce p now echo opens a r back :
  send_wf decision sent nonce -> in_i64 echo ->
  let '(probe, seq, p1) := send decision sent nonce p in
  exists reply conn r', on_datagram psk now echo opens (Marshal probe psk) a r
      = (Some (reply, conn), SetActivePath decision.1 decision.2 now a, r')
    /\ exists answer, Unmarshal reply psk = Ok answer
    /\ let '(accepted, p2) := resolve answer back p1 in
       accepted = true
       /\ pb_pending p2 !! seq = None
       /\ pb_resolved p2 !! seq
          = Some (mkResult (path_ID (pb_path p)) seq (Sub back sent) false back)
       /\ resolve answer back p2 = (false, p2).
Proof.
  intros Hwf He. pose proof (send_probe_wf decision sent nonce p Hwf) as Hp.
  destruct (send decision sent nonce p) as [[probe seq] p1] eqn:Es. cbn in Hp.
  unfold send in Es. injection Es as E1 E2 E3.
  rewrite on_datagram_probe; [| done | by subst probe]. cbv zeta.
  assert (Hdec : pr_ActivePath probe = decision.1 /\ pr_DecisionSeq probe = decision.2)
    by (subst probe; done).
  destruct Hdec as [-> ->]. do 3 eexists. split; [done |].
  exists (reply_of probe echo). split; [by apply unmarshal_marshalled, reply_of_wf |].
  unfold resolve. subst probe. cbn [reply_of pr_Type pr_PathID pr_Seq pr_Nonce].
  change (negb (TypeReply =? TypeReply)) with false.
  assert (Hpath : pb_path p1 = pb_path p) by (by subst p1).
  rewrite Hpath, Z.eqb_refl, E2. cbn [negb orb].
  assert (Hpend : pb_pending p1 !! seq = Some (mkPending sent nonce)).
  { subst p1. cbn. by rewrite E2, lookup_insert_eq. }
  rewrite Hpend. cbn [pp_nonce pp_sent]. rewrite Z.eqb_refl. cbn [negb].
  cbn [pb_pending pb_resolved pb_path set_pending set_resolved].
  rewrite Hpath, lookup_delete_eq, lookup_insert_eq, Z.eqb_refl. done.
Qed.

Lemma probe_answered_witness :
  let p := NewProber (mkPathConfig 2 "lte1" "wg-lte1" 2 102 258 true true no_quota no_shape)
             (cfg_Probe Defaults) 41 in
  let sent := (unixToInternal + 1000) * Second in
  let '(probe, seq, p1) := send (1, 70000) sent 77 p in
  exists reply conn r', on_datagram [1; 2; 3] (mkInstant 0 0) 5 true (Marshal probe [1; 2; 3])
       NewAgent NewResponder
      = (Some (reply, conn), SetActivePath 1 70000 (mkInstant 0 0) NewAgent, r')
    /\ exists answer, Unmarshal reply [1; 2; 3] = Ok answer
    /\ let '(accepted, p2) := resolve answer (sent + Second) p1 in
       accepted = true
       /\ pb_pending p2 !! seq = None
       /\ pb_resolved p2 !! seq = Some (mkResult 2 seq (Sub (sent + Second) sent) false (sent + Second))
       /\ resolve answer (sent + Second) p2 = (false, p2).
Proof.
  intros p sent.
  exact (probe_answered [1; 2; 3] (1, 70000) sent 77 p (mkInstant 0 0) 5 true NewAgent NewResponder
    (sent + Second) ltac:(split; [cbn; lia |]; split; [cbn; go_lia |]; split;
      [unfold sent, unixToInternal, Second; go_lia | go_lia]) ltac:(go_lia)).
Defined.

(** Nothing unauthenticated moves the backend.  A datagram that is not, in
    its first 512 bytes, the marshalling under the shared secret of a probe
    with fields in range is not answered and changes neither the routing state
    nor the sockets; one that is a reply is ignored altogether. *)
Theorem unauthenticated_ignored psk now echo opens b a r :
  all_bytes b ->
  (forall msg, take bufSize b = Marshal msg psk -> probe_wf msg -> pr_Type msg <> TypeProbe) ->
  let '(sent, a', r') := on_datagram psk now echo opens b a r in
  sent = None /\ a' = a /\ rs_replies r' = rs_replies r.
Proof.
  intros Hb Hno. unfold on_datagram.
  destruct (Unmarshal (take bufSize b) psk) as [msg|[|]] eqn:E; [| done | done].
  apply unmarshalled_marshal in E as [Hwf Heq]; [| by apply Forall_take].
  specialize (Hno msg Heq Hwf). apply Z.eqb_neq in Hno. by rewrite Hno.
Qed.

Lemma unauthenticated_ignored_witness :
  let '(sent, a', r') := on_datagram [1; 2; 3] (mkInstant 0 0) 5 true (zeros 66) NewAgent NewResponder in
  sent = None /\ a' = NewAgent /\ rs_replies r' = rs_replies NewResponder.
Proof.
  apply (unauthenticated_ignored [1; 2; 3] (mkInstant 0 0) 5 true (zeros 66)).
  - apply Forall_forall. intros x Hx. apply elem_of_replicate in Hx as [-> _]. done.
  - intros msg Heq _ _. rewrite Marshal_eq in Heq. discriminate Heq.
Defined.

(** ** The socket a reply leaves by *)

(** A sequence of turns: the sockets a configuration opened are its marks. *)
Definition sockets_current (a : Agent) (r : Responder) : Prop :=
  forall path mark, rs_replies r !! path = Some mark ->
    ag_haveCfg a = true /\ mark = mark_of (ag_cfg a) path /\ mark <> 0.

Lemma replyConn_current a opens path r :
  sockets_current a r ->
  sockets_current a (replyConn a opens path r).2
  /\ (replyConn a opens path r).1
     = if ag_haveCfg a && negb (mark_of (ag_cfg a) path =? 0)
          && (opens || bool_decide (is_Some (rs_replies r !! path)))
       then Some (mark_of (ag_cfg a) path) else None.
Proof.
  intros Hc. unfold replyConn. destruct (rs_replies r !! path) as [mark|] eqn:E.
  - split; [done |]. destruct (Hc path mark E) as (-> & -> & Hne).
    apply Z.eqb_neq in Hne. rewrite Hne, bool_decide_eq_true_2 by eauto. by rewrite orb_true_r.
  - rewrite bool_decide_eq_false_2 by (intros [? ?]; done). rewrite orb_false_r.
    destruct (ag_haveCfg a) eqn:Hh; cbn; [| done].
    destruct (Z.eqb_spec (mark_of (ag_cfg a) path) 0); cbn; [done |].
    destruct opens; cbn; [| done]. split; [| done]. intros q mark. cbn.
    rewrite lookup_insert_Some. intros [[<- <-]|[_ Hq]]; [done |].
    by apply (Hc q mark).
Qed.

Lemma SetActivePath_cfg path seq now a :
  ag_cfg (SetActivePath path seq now a) = ag_cfg a
  /\ ag_haveCfg (SetActivePath path seq now a) = ag_haveCfg a.
Proof.
  unfold SetActivePath, anchorDecisionSeq, warnImplausibleSeq. by repeat split_if.
Qed.

Fixpoint on_datagrams (psk : bytes) (ds : list (instant * Z * bool * bytes)) (a : Agent)
    (r : Responder) : list (option (bytes * option Z)) * Agent * Responder :=
  match ds with
  | [] => ([], a, r)
  | (now, echo, opens, b) :: ds =>
      let '(out, a, r) := on_datagram psk now echo opens b a r in
      let '(outs, a, r) := on_datagrams psk ds a r in
      (out :: outs, a, r)
  end.

Lemma on_datagram_current psk now echo opens b a r :
  sockets_current a r ->
  let '(out, a', r') := on_datagram psk now echo opens b a r in
  ag_cfg a' = ag_cfg a /\ ag_haveCfg a' = ag_haveCfg a /\ sockets_current a' r'
  /\ forall reply mark, out = Some (reply, Some mark) ->
       exists msg, reply = Marshal (reply_of msg echo) psk
         /\ mark = mark_of (ag_cfg a) (pr_PathID msg) /\ mark <> 0.
Proof.
  intros Hc. unfold on_datagram.
  destruct (Unmarshal (take bufSize b) psk) as [msg|[|]]; [| by split_and! | by split_and!].
  destruct (negb _); [by split_and! |].
  set (a1 := SetActivePath _ _ _ a).
  destruct (SetActivePath_cfg (pr_ActivePath msg) (pr_DecisionSeq msg) now a) as [C1 C2].
  fold a1 in C1, C2.
  assert (Hc1 : sockets_current a1 r) by (unfold sockets_current; by rewrite C1, C2).
  destruct (replyConn_current a1 opens (pr_PathID msg) r Hc1) as [R1 R2].
  destruct (replyConn a1 opens (pr_PathID msg) r) as [conn r1]. cbn in R1, R2.
  split_and!; try done. intros reply mark [= <- Hm]. exists msg. rewrite Hm in R2.
  destruct (ag_haveCfg a1); cbn in R2; [| done].
  destruct (Z.eqb_spec (mark_of (ag_cfg a1) (pr_PathID msg)) 0); cbn in R2; [done |].
  destruct (_ || _); [| done]. injection R2 as ->. rewrite C1 in *. done.
Qed.

(** A reply leaves by the tunnel its probe measured.  From the moment a
    configuration's sockets are rebuilt, whatever datagrams arrive, every
    reply that leaves by a marked socket carries the mark that configuration
    gives the very path named in the reply, never another path's and never
    zero; so a working link cannot answer for a failed one. *)
Theorem reply_by_own_path psk ds : forall a r,
  sockets_current a r ->
  let '(outs, a', r') := on_datagrams psk ds a r in
  ag_cfg a' = ag_cfg a /\ sockets_current a' r'
  /\ length outs = length ds
  /\ forall reply mark, Some (reply, Some mark) ∈ outs ->
       exists msg echo, reply = Marshal (reply_of msg echo) psk
         /\ mark = mark_of (ag_cfg a) (pr_PathID msg) /\ mark <> 0.
Proof.
  induction ds as [|[[[now echo] opens] b] ds IH]; intros a r Hc; cbn [on_datagrams].
  { split_and!; try done. intros reply mark Hin. by apply elem_of_nil in Hin. }
  pose proof (on_datagram_current psk now echo opens b a r Hc) as H1.
  destruct (on_datagram psk now echo opens b a r) as [[out a1] r1].
  destruct H1 as (C1 & C2 & C3 & C4). pose proof (IH a1 r1 C3) as H2.
  destruct (on_datagrams psk ds a1 r1) as [[outs a2] r2].
  destruct H2 as (D1 & D2 & D3 & D4). rewrite D1, C1. split_and!; try done; [cbn; by rewrite D3 |].
  intros reply mark [Hin | Hin]%elem_of_cons.
  - destruct (C4 reply mark (eq_sym Hin)) as (msg & ?). by exists msg, echo.
  - rewrite <- C1. by apply D4.
Qed.

Lemma reply_by_own_path_witness :
  let a := ApplyConfig sample_backend_cfg (fun _ => true) true true NewAgent in
  let msg := mkProbe TypeProbe 2 9 0 0 1 70000 77 in
  let '(outs, a', r') := on_datagrams [1; 2; 3]
       [(mkInstant 0 0, 5, true, Marshal msg [1; 2; 3])] a (reload_sockets NewResponder) in
  ag_cfg a' = ag_cfg a /\ sockets_current a' r'
  /\ length outs = 1%nat
  /\ forall reply mark, Some (reply, Some mark) ∈ outs ->
       exists msg echo, reply = Marshal (reply_of msg echo) [1; 2; 3]
         /\ mark = mark_of (ag_cfg a) (pr_PathID msg) /\ mark <> 0.
Proof.
  intros a msg.
  exact (reply_by_own_path [1; 2; 3] [(mkInstant 0 0, 5, true, Marshal msg [1; 2; 3])] a
    (reload_sockets NewResponder) ltac:(intros ? ? H; discriminate H)).
Defined.
