(* ===== verification/Validate.v ===== *)
(** * The settings gate ([internal/web/api.go], [validate])

    Every configuration the portal, an import or the control socket hands the
    engine has been through [validate], which refuses what the system could
    not act on and settles the fields a form may leave blank.  What the other
    components rely on, distinct tables and marks, names a ruleset can carry,
    ports only one row publishes, is what it promises: the theorems here state
    that promise, that it is stable, and what follows from it for the rulesets
    of [Nft] and [Protect]. *)

From S2P Require Import Prelude Model Bytes Float64 GoTime Quota Store Decimal Text Net Ports Nft Rules Protect QCache.

(** What a save is refused with. *)
Inductive refusal :=
| BadMode | BadFrontendIP | BadBackendIP | BadProbePort | BadControlPort | SamePorts | NoPaths
| EgressNeedsIface | BadIface (name : string) | NotifyNeedsKind | BadNotifyKind (kind : string)
| NotifyNeedsURL | BadNotifyURL | NotifyScheme (scheme : string) | NotifyHost
| BadPublicIP | BadSelection | NegativeWeight | BadMargin | NegativeDwell | AllWeightsZero
| NeedsBackendLAN | BadBackendLAN | BackendLANIsOverlay
| LinkerNoName | LinkerNoSubnet (name : string) | LinkerBadOverlay (name : string) | LinkerBadLan (name : string)
| LinkerSame (name : string) | LinkerIsBackendLAN (name : string) | LinkerClaimed (name : string)
| LinkerOutside (name : string) | LinkerBadTable (name : string) | LinkerTableReserved (name : string)
| LinkerTablePath (name path : string) | LinkerTwice (ip : string)
| EgressNoCIDR | EgressBadCIDR | EgressBadHost (cidr : string) | EgressNoLinker (cidr : string)
| EgressOutside (cidr : string) | EgressTwice (cidr : string)
| PathBadID | PathIDTooLarge (id : Z) | PathDuplicateID (id : Z) | PathNoName (id : Z) | PathNoIface (name : string)
| PathIfaceTwice (other name : string) | PathBadTable (name : string) | PathTableReserved (name : string)
| PathTableTwice (name : string) | PathNoMark (name : string) | PathMarkReserved (name : string)
| PathMarkTwice (name : string) | CalibrationNaN (name : string) | CalibrationRange (name : string)
| OverheadRange (name : string) | BadTimezone (name : string) | CeilingBelowQuota (name : string)
| QuotaTooLarge (name : string) | ShapeNegative (name : string) | ShapeTypo (name : string)
| ProtectNeedsIface | ProtectNegative (what : string)
| RefreshNegative | RefreshTooFast | RefreshTooSlow | StaleNegative | StaleTooLong | StaleTooShort
| RegionNoName | RegionLongName | RegionBadName (name : string) | RegionReserved (name : string)
| RegionTwice (other name : string) | BadNetwork (what : string) | BadCountry (cc : string) | RegionsTooLarge
| BlocklistNeedsIface | BlocklistTooOften | BlocklistTooRare | TooManyExceptions
| ProbeTooFast | StandbyTooFast | TimeoutTooShort | BadThreshold
| ServiceLongName | ServiceBadName (name : string) | ServiceBadProto (name : string) | ServiceBadPort (name : string)
| ServiceNeedsIface (name : string) | ServiceBadRange (name : string) | ServiceNegativeCeiling (name : string)
| ServiceNegativeLimit (name : string) | ServiceLimitNotTCP (name : string) | ServiceBadTarget (name : string)
| ServiceNoSubnet (name : string) | ServiceOutside (name : string) | ServiceNoLinker (name : string)
| ServiceNoRegion (name region : string) | ServiceEmptyRegion (name region : string)
| ServiceNegativeAuto (name : string) | ServiceAutoNoRegion (name : string) | ServicesOverlap (a b : string).

Definition checked (A : Type) := result refusal A.
Notation "'refuse' e 'if' b ';' k" := (if b then Err e else k)
  (at level 10, e at level 9, b at level 99, k at level 200) : go_scope.

Definition blank (s : string) : bool := String.eqb s "".
Definition no_address (s : string) : bool := bool_decide (ParseIP s = None).

(** ** Loops over rows

    Each loop of [validate] reads a row against those before it, and leaves it
    settled. *)
Fixpoint rows_loop {R} (check : list R -> R -> checked R) (seen rows : list R) : checked (list R) :=
  match rows with
  | [] => Ok []
  | r :: rows =>
      let? r := check seen r in
      let? rest := rows_loop check (seen ++ [r]) rows in
      Ok (r :: rest)
  end.

(** ** Names and lists *)

Definition iface_byte (c : Z) : bool :=
  ((97 <=? c) && (c <=? 122)) || ((65 <=? c) && (c <=? 90)) || ((48 <=? c) && (c <=? 57))
  || (c =? 45) || (c =? 95) || (c =? 46) || (c =? 58) || (c =? 64).
(** [ifaceName], as a refusal. *)
Definition bad_iface (name : string) : bool :=
  (15 <? String.length name)%nat || String.eqb name "." || String.eqb name ".."
  || negb (forallb iface_byte (string_bytes name)) || IPReadVerb name.

Definition maxRegionName : nat := 32.
Definition maxServiceName : nat := 64.
Definition maxBlocklistExceptions : nat := 256.
Definition maxRegionsBytes : Z := Z.shiftl 24 20.

Definition region_rune (r : Z) : bool :=
  ((97 <=? r) && (r <=? 122)) || ((48 <=? r) && (r <=? 57)) || (r =? 45) || (r =? 95).
(** [firstBadRegionRune] and [firstBadCommentRune], as refusals. *)
Definition bad_region_name (s : string) : bool := negb (forallb region_rune (decode_runes (string_bytes s))).
Definition comment_rune (r : Z) : bool := negb ((r =? 34) || (r =? 92) || (r <? 32) || (r =? 127)).
Definition bad_comment (s : string) : bool := negb (forallb comment_rune (decode_runes (string_bytes s))).

(** [overlayContains]. *)
Definition overlayContains (ov : OverlayConfig) (ip : string) : bool :=
  if String.eqb ip (ov_BackendIP ov) then true
  else if blank (ov_Subnet ov) then false
  else match ParseCIDR (string_bytes (ov_Subnet ov)), ParseIP ip with
       | Some (_, netw), Some addr => Contains netw addr
       | _, _ => false
       end.

(** [cleanNetworkList]. *)
Definition has_slash (s : string) : bool := existsb (Z.eqb 47) (string_bytes s).
Fixpoint cleanNetworkList (what : string) (items : list string) : checked (list string) :=
  match items with
  | [] => Ok []
  | c :: items =>
      let c := TrimSpace c in
      if blank c then cleanNetworkList what items
      else match parseIPv4Network (if has_slash c then c else c ++ "/32")%string with
           | Err _ => Err (BadNetwork what)
           | Ok netw => let? rest := cleanNetworkList what items in Ok (netw :: rest)
           end
  end.

Section gate.
Context `{Unicode}.
(** [url.Parse], as the scheme and the host it reads, and [time.LoadLocation]. *)
Variable url_parse : string -> option (string * string).
Variable LoadLocation : string -> option Location.

(** [badCountryCode] and [cleanCountryCodes]. *)
Definition bad_country (cc : string) : bool :=
  negb (String.length cc =? 2)%nat
  || negb (forallb (fun r => (97 <=? r) && (r <=? 122)) (decode_runes (string_bytes cc))).
Fixpoint clean_codes (seen : list string) (countries : list string) : checked (list string) :=
  match countries with
  | [] => Ok []
  | cc :: countries =>
      let cc := ToLower (TrimSpace cc) in
      if blank cc || bool_decide (cc ∈ seen) then clean_codes seen countries
      else refuse (BadCountry cc) if bad_country cc;
           let? rest := clean_codes (cc :: seen) countries in Ok (cc :: rest)
  end.
Definition cleanCountryCodes (countries : list string) : checked (list string) := clean_codes [] countries.

(** [validateNotify]. *)
Definition validateNotify (n : NotifyConfig) : checked NotifyConfig :=
  let kind := ToLower (TrimSpace (notify_Kind n)) in
  let url := TrimSpace (notify_URL n) in
  let n := mkNotifyConfig (notify_Enabled n) kind url (notify_Token n)
             (notify_OnSwitch n) (notify_OnPathDown n) (notify_OnQuota n) (notify_OnHeld n) in
  if negb (notify_Enabled n) && blank url then Ok n
  else
    refuse NotifyNeedsKind if blank kind;
    refuse (BadNotifyKind kind) if negb (String.eqb kind "webhook" || String.eqb kind "ntfy" || String.eqb kind "telegram");
    refuse NotifyNeedsURL if blank url;
    match url_parse url with
    | None => Err BadNotifyURL
    | Some (scheme, host) =>
        refuse (NotifyScheme scheme) if negb (String.eqb scheme "http") && negb (String.eqb scheme "https");
        refuse NotifyHost if blank host;
        Ok n
    end.

(** The checks ahead of [Normalise]. *)
Definition check_overlay (mode : string) (ov : OverlayConfig) : checked unit :=
  refuse BadMode if negb (String.eqb mode ModeObserve) && negb (String.eqb mode ModeArmed);
  refuse BadFrontendIP if no_address (ov_FrontendIP ov);
  refuse BadBackendIP if no_address (ov_BackendIP ov);
  refuse BadProbePort if (ov_ProbePort ov <? 1) || (65535 <? ov_ProbePort ov);
  refuse BadControlPort if (ov_ControlPort ov <? 1) || (65535 <? ov_ControlPort ov);
  refuse SamePorts if ov_ProbePort ov =? ov_ControlPort ov;
  Ok tt.

Definition check_frontend (fe : FrontendConfig) : checked unit :=
  refuse EgressNeedsIface if fe_BackendEgress fe && blank (TrimSpace (fe_PublicIface fe));
  refuse (BadIface (fe_PublicIface fe)) if negb (blank (fe_PublicIface fe)) && bad_iface (fe_PublicIface fe);
  Ok tt.

Definition settle_address (fe : FrontendConfig) : checked FrontendConfig :=
  if blank (fe_PublicIP fe) then Ok fe
  else match parseIPv4Address (fe_PublicIP fe) with
       | Err _ => Err BadPublicIP
       | Ok v => Ok (mkFrontendConfig (fe_PublicIface fe) v (fe_BackendEgress fe))
       end.

Definition check_failover (f : FailoverConfig) : checked unit :=
  let q := fail_Quality f in
  refuse BadSelection if negb (String.eqb (fail_Selection f) SelectionPriority)
                         && negb (String.eqb (fail_Selection f) SelectionQuality);
  refuse NegativeWeight if flt (qual_LossWeight q) fzero || flt (qual_RTTWeight q) fzero
                           || flt (qual_JitterWeight q) fzero;
  refuse BadMargin if flt (qual_MarginPct q) fzero || fge (qual_MarginPct q) (f64_of_Z 100);
  refuse NegativeDwell if qual_MinDwellSec q <? 0;
  refuse AllWeightsZero if feq (qual_LossWeight q) fzero && feq (qual_RTTWeight q) fzero
                           && feq (qual_JitterWeight q) fzero && String.eqb (fail_Selection f) SelectionQuality;
  Ok tt.

(** *** Linkers and egress sources *)


Definition check_lan (lan : string) (ov : OverlayConfig) (ls : list Linker) : checked unit :=
  if (length ls =? 0)%nat then Ok tt
  else
    refuse NeedsBackendLAN if blank lan;
    refuse BadBackendLAN if no_address lan;
    refuse BackendLANIsOverlay if String.eqb lan (ov_BackendIP ov);
    Ok tt.

Definition check_linker (lan : string) (ov : OverlayConfig) (paths : list PathConfig)
    (seen : list Linker) (l : Linker) : checked Linker :=
  let name := TrimSpace (linker_Name l) in
  let oip := TrimSpace (linker_OverlayIP l) in
  let lip := TrimSpace (linker_LanIP l) in
  let l := mkLinker name oip lip (linker_Table l) (linker_Enabled l) in
  let t := TableOr l 0 in
  refuse LinkerNoName if blank name;
  refuse (LinkerNoSubnet name) if blank (ov_Subnet ov);
  refuse (LinkerBadOverlay name) if no_address oip;
  refuse (LinkerBadLan name) if no_address lip;
  refuse (LinkerSame name) if String.eqb oip lip;
  refuse (LinkerIsBackendLAN name) if String.eqb lip lan;
  refuse (LinkerClaimed name) if String.eqb oip (ov_BackendIP ov) || String.eqb oip (ov_FrontendIP ov);
  refuse (LinkerOutside name) if negb (overlayContains ov oip);
  refuse (LinkerBadTable name) if (linker_Table l <? 0) || (252 <? linker_Table l);
  refuse (LinkerTableReserved name) if negb (t =? 0) && ((t =? ReturnTable) || (t =? ControlTable));
  match (if t =? 0 then None else List.find (fun p => path_Table p =? t) paths) with
  | Some p => Err (LinkerTablePath name (path_Name p))
  | None =>
      refuse (LinkerTwice oip) if existsb (fun k => String.eqb (linker_OverlayIP k) oip) seen;
      Ok l
  end.

(** The addresses a service or an egress source may name. *)
Definition is_linker (ls : list Linker) (ip : string) : bool :=
  existsb (fun l => String.eqb (linker_OverlayIP l) ip) ls.

Definition check_source (ov : OverlayConfig) (ls : list Linker) (_ : list EgressSource) (s : EgressSource)
  : checked EgressSource :=
  let cidr := TrimSpace (src_CIDR s) in
  refuse EgressNoCIDR if blank cidr;
  match parseIPv4Network cidr with
  | Err _ => Err EgressBadCIDR
  | Ok netw =>
      let host := TrimSpace (src_Host s) in
      let s := mkEgressSource (TrimSpace (src_Name s)) host netw (src_Enabled s) in
      if blank host then Ok s
      else
        refuse (EgressBadHost netw) if no_address host;
        refuse (EgressNoLinker netw) if overlayContains ov host && negb (String.eqb host (ov_BackendIP ov))
                                        && negb (is_linker ls host);
        refuse (EgressOutside netw) if negb (overlayContains ov host);
        Ok s
  end.

(** The second loop: a network is listed once for one host. The host holds no
    space, so the joined key is the pair. *)
Definition source_key (backendIP : string) (s : EgressSource) : string :=
  (HostOr s backendIP ++ " " ++ src_CIDR s)%string.
Fixpoint check_sources_once (backendIP : string) (seen : list string) (ss : list EgressSource) : checked unit :=
  match ss with
  | [] => Ok tt
  | s :: ss =>
      refuse (EgressTwice (src_CIDR s)) if bool_decide (source_key backendIP s ∈ seen);
      check_sources_once backendIP (source_key backendIP s :: seen) ss
  end.

(** *** Paths *)

Definition LinkerReturnMark : Z := 513.
Definition LinkerEgressMark : Z := 769.
Definition reserved_marks : list Z := [ControlMark; ReturnMark; EgressMark; LinkerReturnMark; LinkerEgressMark].

Definition check_quota (name : string) (q : Quota) : checked Quota :=
  refuse (CalibrationNaN name) if fis_nan (quota_Calibration q);
  let cal := if fle (quota_Calibration q) fzero then f64_of_Z 100 else quota_Calibration q in
  refuse (CalibrationRange name) if fgt cal MaxCalibration || flt cal MinCalibration;
  refuse (OverheadRange name) if (quota_OverheadPerPacket q <? 0) || (MaxOverheadPerPacket <? quota_OverheadPerPacket q);
  let day := if quota_ResetDay q <? 1 then 1 else quota_ResetDay q in
  let tz := if blank (quota_Timezone q) then DefaultTimezone else quota_Timezone q in
  match LoadLocation tz with
  | None => Err (BadTimezone name)
  | Some _ =>
      refuse (CeilingBelowQuota name) if (0 <? quota_CeilingBytes q) && (quota_CeilingBytes q <? quota_LimitBytes q);
      refuse (QuotaTooLarge name) if (MaxLedgerValue <? quota_LimitBytes q) || (MaxLedgerValue <? quota_CeilingBytes q);
      Ok (mkQuota (quota_LimitBytes q) (quota_CeilingBytes q) day tz cal (quota_OverheadPerPacket q))
  end.

Definition check_path (seen : list PathConfig) (p : PathConfig) : checked PathConfig :=
  let name := path_Name p in
  refuse PathBadID if path_ID p <=? 0;
  refuse (PathIDTooLarge (path_ID p)) if ProbeDenyBandSize <=? path_ID p;
  refuse (PathDuplicateID (path_ID p)) if existsb (fun k => path_ID k =? path_ID p) seen;
  refuse (PathNoName (path_ID p)) if blank (TrimSpace name);
  refuse (PathNoIface name) if blank (TrimSpace (path_Iface p));
  refuse (BadIface (path_Iface p)) if bad_iface (path_Iface p);
  match List.find (fun k => String.eqb (path_Iface k) (path_Iface p)) seen with
  | Some other => Err (PathIfaceTwice (path_Name other) name)
  | None =>
      refuse (PathBadTable name) if (path_Table p <=? 0) || (252 <? path_Table p);
      refuse (PathTableReserved name) if path_Table p =? ControlTable;
      refuse (PathTableTwice name) if existsb (fun k => path_Table k =? path_Table p) seen;
      refuse (PathNoMark name) if path_Mark p =? 0;
      refuse (PathMarkReserved name) if existsb (Z.eqb (path_Mark p)) reserved_marks;
      refuse (PathMarkTwice name) if existsb (fun k => path_Mark k =? path_Mark p) seen;
      let? q := check_quota name (path_Quota p) in
      Ok (mkPathConfig (path_ID p) name (path_Iface p) (path_Priority p) (path_Table p) (path_Mark p)
            (path_Enabled p) (path_Metered p) q (path_Shape p))
  end.

(** The shaping loop, over the paths the first one settled. *)
Definition bad_rate (f : float64) : bool := flt f fzero.
Definition typo_rate (f : float64) : bool := fgt f fzero && flt f (f64_of_Z 1).
Fixpoint check_shapes (ps : list PathConfig) : checked unit :=
  match ps with
  | [] => Ok tt
  | p :: ps =>
      let down := shape_ToBackendMbit (path_Shape p) in
      let up := shape_ToFrontendMbit (path_Shape p) in
      refuse (ShapeNegative (path_Name p)) if bad_rate down;
      refuse (ShapeTypo (path_Name p)) if typo_rate down;
      refuse (ShapeNegative (path_Name p)) if bad_rate up;
      refuse (ShapeTypo (path_Name p)) if typo_rate up;
      check_shapes ps
  end.

(** *** Protection, the query cache, the blocklist, probing *)

Definition check_protect (iface : string) (pr : ProtectConfig) : checked unit :=
  refuse ProtectNeedsIface if protect_Enabled pr && blank (TrimSpace iface);
  refuse (ProtectNegative "connections per second") if protect_NewConnsPerSec pr <? 0;
  refuse (ProtectNegative "connections per source") if protect_MaxConnsPerSource pr <? 0;
  refuse (ProtectNegative "packets per second") if protect_PacketsPerSec pr <? 0;
  refuse (ProtectNegative "queries per second") if protect_QueriesPerSec pr <? 0;
  refuse (ProtectNegative "block seconds") if protect_BlockSeconds pr <? 0;
  refuse (ProtectNegative "region lock seconds") if protect_GeoLockSeconds pr <? 0;
  Ok tt.

Definition check_qcache (qc : QueryCacheConfig) : checked unit :=
  refuse RefreshNegative if qcc_RefreshMs qc <? 0;
  refuse RefreshTooFast if negb (qcc_RefreshMs qc =? 0) && (qcc_RefreshMs qc <? 500);
  refuse RefreshTooSlow if 30000 <? qcc_RefreshMs qc;
  refuse StaleNegative if qcc_StaleMs qc <? 0;
  refuse StaleTooLong if 300000 <? qcc_StaleMs qc;
  let refreshEff := if qcc_RefreshMs qc =? 0 then DefaultRefreshEvery / Millisecond else qcc_RefreshMs qc in
  refuse StaleTooShort if negb (qcc_StaleMs qc =? 0) && (qcc_StaleMs qc <? 3 * refreshEff);
  Ok tt.

Definition check_region (seen : list GeoRegion) (rg : GeoRegion) : checked GeoRegion :=
  let name := TrimSpace (region_Name rg) in
  refuse RegionNoName if blank name;
  refuse RegionLongName if (maxRegionName <? String.length name)%nat;
  refuse (RegionBadName name) if bad_region_name name;
  refuse (RegionReserved name) if GeoNameReserved name;
  match List.find (fun k => String.eqb (GeoSetName (region_Name k)) (GeoSetName name)) seen with
  | Some other => Err (RegionTwice (region_Name other) name)
  | None =>
      let? cidrs := cleanNetworkList ("region " ++ name)%string (region_CIDRs rg) in
      let? codes := cleanCountryCodes (region_Countries rg) in
      Ok (mkGeoRegion name cidrs codes)
  end.
Definition regions_bytes (rs : list GeoRegion) : Z :=
  fold_right (fun r n => n + fold_right (fun c m => m + (Z.of_nat (String.length c) + 1)) 0 (region_CIDRs r)) 0 rs.

Definition check_blocklist (iface : string) (bl : BlocklistConfig) : checked BlocklistConfig :=
  refuse BlocklistNeedsIface if blc_Enabled bl && blank (TrimSpace iface);
  refuse BlocklistTooOften if negb (blc_RefreshHours bl =? 0) && (blc_RefreshHours bl <? MinBlocklistRefreshHours);
  refuse BlocklistTooRare if MaxBlocklistRefreshHours <? blc_RefreshHours bl;
  refuse TooManyExceptions if (maxBlocklistExceptions <? length (blc_Exceptions bl))%nat;
  let? ex := cleanNetworkList "blocklist exception" (blc_Exceptions bl) in
  Ok (mkBlocklistConfig (blc_Enabled bl) (blc_RefreshHours bl) ex).

Definition check_probe (pc : ProbeConfig) : checked ProbeConfig :=
  refuse ProbeTooFast if probe_ActiveIntervalMs pc <? 50;
  refuse StandbyTooFast if probe_StandbyIntervalMs pc <? probe_ActiveIntervalMs pc;
  refuse TimeoutTooShort if probe_TimeoutMs pc <? 50;
  refuse BadThreshold if (probe_FailThreshold pc <? 1) || (probe_RecoverThreshold pc <? 1);
  Ok (mkProbeConfig (probe_ActiveIntervalMs pc) (probe_StandbyIntervalMs pc) (probe_TimeoutMs pc)
        (probe_FailThreshold pc) (probe_RecoverThreshold pc)
        (if probe_WindowSize pc <? 5 then 5 else probe_WindowSize pc)
        (probe_MaxLossPct pc) (probe_MaxRTTMs pc)).

(** *** Services *)

(** The row's regions, read in order: blanks and repeats dropped. *)
Fixpoint check_refs (name : string) (regions : list GeoRegion) (seen refs : list string) : checked (list string) :=
  match refs with
  | [] => Ok []
  | r :: refs =>
      let r := TrimSpace r in
      if blank r || bool_decide (r ∈ seen) then check_refs name regions seen refs
      else
        refuse (ServiceNoRegion name r) if negb (bool_decide (r ∈ (region_Name <$> regions)));
        refuse (ServiceEmptyRegion name r) if negb (existsb (fun g => String.eqb (region_Name g) r
                                                      && (0 <? length (region_CIDRs g))%nat) regions);
        let? rest := check_refs name regions (r :: seen) refs in Ok (r :: rest)
  end.

Definition check_target (ov : OverlayConfig) (ls : list Linker) (name target : string) : checked unit :=
  if blank target then Ok tt
  else
    refuse (ServiceBadTarget name) if no_address target;
    refuse (if blank (ov_Subnet ov) then ServiceNoSubnet name else ServiceOutside name)
      if negb (overlayContains ov target);
    refuse (ServiceNoLinker name) if negb (String.eqb target (ov_BackendIP ov)) && negb (is_linker ls target);
    Ok tt.

Definition check_service (iface : string) (ov : OverlayConfig) (ls : list Linker) (regions : list GeoRegion)
    (_ : list Service) (sv : Service) : checked Service :=
  let name := TrimSpace (svc_Name sv) in
  refuse ServiceLongName if (maxServiceName <? String.length name)%nat;
  refuse (ServiceBadName name) if bad_comment name;
  refuse (ServiceBadProto name) if negb (String.eqb (svc_Proto sv) "tcp") && negb (String.eqb (svc_Proto sv) "udp");
  refuse (ServiceBadPort name) if (svc_Port sv <? 1) || (65535 <? svc_Port sv);
  refuse (ServiceNeedsIface name) if svc_Enabled sv && blank (TrimSpace iface);
  refuse (ServiceBadRange name) if negb (svc_PortEnd sv =? 0) && ((svc_PortEnd sv <? svc_Port sv) || (65535 <? svc_PortEnd sv));
  refuse (ServiceNegativeCeiling name) if svc_CeilingPPS sv <? 0;
  refuse (ServiceNegativeLimit name) if (svc_NewConnsPerSec sv <? 0) || (svc_MaxConnsPerSource sv <? 0);
  refuse (ServiceLimitNotTCP name) if negb (String.eqb (svc_Proto sv) "tcp")
    && ((0 <? svc_NewConnsPerSec sv) || (0 <? svc_MaxConnsPerSource sv));
  let target := TrimSpace (svc_Target sv) in
  let? _ := check_target ov ls name target in
  let? refs := check_refs name regions [] (svc_GeoRegions sv) in
  let block := if (length refs =? 0)%nat then false else svc_GeoBlock sv in
  refuse (ServiceNegativeAuto name) if svc_GeoAutoPPS sv <? 0;
  refuse (ServiceAutoNoRegion name) if (0 <? svc_GeoAutoPPS sv) && (length refs =? 0)%nat;
  Ok (mkService name (svc_Proto sv) (svc_Port sv) (svc_PortEnd sv) (svc_Enabled sv) target (svc_SourceEngine sv)
        (svc_CeilingPPS sv) (svc_NewConnsPerSec sv) (svc_MaxConnsPerSource sv) refs block (svc_GeoAutoPPS sv)).

(** The rows of one protocol whose ports meet. *)
Definition row_lo (s : Service) : Z := svc_Port s.
Definition row_hi (s : Service) : Z := Z.max (svc_Port s) (svc_PortEnd s).
Definition rows_meet (a b : Service) : bool :=
  svc_Enabled b && String.eqb (svc_Proto b) (svc_Proto a)
  && negb ((row_hi b <? row_lo a) || (row_hi a <? row_lo b)).
Fixpoint check_overlap (before rows : list Service) : checked unit :=
  match rows with
  | [] => Ok tt
  | a :: rows =>
      match (if svc_Enabled a then List.find (rows_meet a) before else None) with
      | Some b => Err (ServicesOverlap (svc_Name b) (svc_Name a))
      | None => check_overlap (before ++ [a]) rows
      end
  end.

(** ** [validate] *)

Definition validate (cfg : Config) : checked Config :=
  let ov := cfg_Overlay cfg in
  let? _ := check_overlay (cfg_Mode cfg) ov in
  refuse NoPaths if (length (cfg_Paths cfg) =? 0)%nat;
  let? _ := check_frontend (cfg_Frontend cfg) in
  let? notify := validateNotify (cfg_Notify cfg) in
  let? fe := settle_address (cfg_Frontend cfg) in
  let f := cfg_Failover (Normalise cfg) in
  let? _ := check_failover f in
  let lan := TrimSpace (cfg_BackendLAN cfg) in
  let? _ := check_lan lan ov (cfg_Linkers cfg) in
  let? linkers := rows_loop (check_linker lan ov (cfg_Paths cfg)) [] (cfg_Linkers cfg) in
  let? sources := rows_loop (check_source ov linkers) [] (egress_Sources (cfg_Egress cfg)) in
  let? _ := check_sources_once (ov_BackendIP ov) [] sources in
  let? paths := rows_loop check_path [] (cfg_Paths cfg) in
  let? _ := check_shapes paths in
  let pr := cfg_Protect cfg in
  let? _ := check_protect (fe_PublicIface fe) pr in
  let? _ := check_qcache (cfg_QueryCache cfg) in
  let? regions := rows_loop check_region [] (protect_Regions pr) in
  refuse RegionsTooLarge if maxRegionsBytes <? regions_bytes regions;
  let? bl := check_blocklist (fe_PublicIface fe) (cfg_Blocklist cfg) in
  let? probe := check_probe (cfg_Probe cfg) in
  let? services := rows_loop (check_service (fe_PublicIface fe) ov linkers regions) [] (cfg_Services cfg) in
  let? _ := check_overlap [] services in
  Ok (mkConfig (cfg_Mode cfg) fe ov paths probe f services linkers lan (mkEgressConfig sources) notify
        (mkProtectConfig (protect_Enabled pr) (protect_NewConnsPerSec pr) (protect_MaxConnsPerSource pr)
           (protect_PacketsPerSec pr) (protect_QueriesPerSec pr) (protect_BlockSeconds pr)
           (protect_DropInvalid pr) (protect_DropBogusTCP pr) (protect_DropSpoofed pr)
           (protect_DropLegacyQueries pr) regions (protect_GeoLockSeconds pr))
        (cfg_QueryCache cfg) bl).

(** [pinServerOwnedFields] and [pinHostIdentity]. *)
Definition pinServerOwnedFields (cfg current : Config) : Config :=
  mkConfig (cfg_Mode current) (cfg_Frontend cfg) (cfg_Overlay current) (cfg_Paths cfg) (cfg_Probe cfg)
    (cfg_Failover cfg) (cfg_Services cfg) (cfg_Linkers cfg) (cfg_BackendLAN cfg) (cfg_Egress cfg)
    (cfg_Notify cfg) (cfg_Protect cfg) (cfg_QueryCache cfg) (cfg_Blocklist cfg).
Definition pinHostIdentity (cfg current : Config) : Config :=
  mkConfig (cfg_Mode cfg)
    (mkFrontendConfig (fe_PublicIface (cfg_Frontend current)) (fe_PublicIP (cfg_Frontend current))
       (fe_BackendEgress (cfg_Frontend cfg)))
    (cfg_Overlay cfg) (cfg_Paths cfg) (cfg_Probe cfg)
    (cfg_Failover cfg) (cfg_Services cfg) (cfg_Linkers cfg) (cfg_BackendLAN cfg) (cfg_Egress cfg)
    (cfg_Notify cfg) (cfg_Protect cfg) (cfg_QueryCache cfg) (cfg_Blocklist cfg).
End gate.

Example validate_defaults :
  exists c, @validate AsciiUnicode (fun _ => None) (fun _ => Some UTC) Defaults = Ok c /\ cfg_Services c = cfg_Services Defaults.
Proof. eexists. split; vm_compute; reflexivity. Qed.
Example validate_site :
  is_ok (@validate AsciiUnicode (fun _ => None) (fun _ => Some UTC) sample_site) = true.
Proof. vm_compute. reflexivity. Qed.

(** ** What acceptance promises *)

Ltac accept H :=
  repeat match type of H with
  | (if ?b then Err _ else _) = Ok _ => destruct b eqn:?; [discriminate H |]
  | res_bind ?r _ = Ok _ =>
      let a := fresh "a" in let Ha := fresh "Ha" in apply res_bind_ok in H as (a & Ha & H)
  | (let _ := _ in _) = Ok _ => cbv zeta in H
  end.

Section rows.
Context {R : Type} (check : list R -> R -> checked R).

(** A row accepted is accepted again, as it is. *)
Lemma rows_loop_idem seen rows rows' :
  (forall seen r r', check seen r = Ok r' -> check seen r' = Ok r') ->
  rows_loop check seen rows = Ok rows' -> rows_loop check seen rows' = Ok rows'.
Proof.
  intros Hi. revert seen rows'. induction rows as [|r rows IH]; intros seen rows' Hl; cbn [rows_loop] in Hl.
  - injection Hl as <-. done.
  - accept Hl. injection Hl as <-. cbn [rows_loop]. rewrite (Hi _ _ _ Ha). cbn [res_bind]. by rewrite (IH _ _ Ha0).
Qed.
Lemma rows_loop_all (P : R -> Prop) seen rows rows' :
  (forall seen r r', check seen r = Ok r' -> P r') -> rows_loop check seen rows = Ok rows' -> Forall P rows'.
Proof.
  intros HP. revert seen rows'. induction rows as [|r rows IH]; intros seen rows' Hl; cbn [rows_loop] in Hl.
  - injection Hl as <-. constructor.
  - accept Hl. injection Hl as <-. constructor; eauto.
Qed.
(** What each row keeps apart from those before it is apart in all of them. *)
Lemma rows_loop_nodup {K} (key : R -> K) seen rows rows' :
  (forall seen r r', check seen r = Ok r' -> key r' ∉ (key <$> seen)) ->
  NoDup (key <$> seen) -> rows_loop check seen rows = Ok rows' -> NoDup (key <$> (seen ++ rows')).
Proof.
  intros Hk. revert seen rows'. induction rows as [|r rows IH]; intros seen rows' Hn Hl; cbn [rows_loop] in Hl.
  - injection Hl as <-. by rewrite app_nil_r.
  - accept Hl. injection Hl as <-. change (seen ++ a :: a0) with (seen ++ [a] ++ a0). rewrite app_assoc.
    apply IH; [| done]. rewrite fmap_app. apply NoDup_app. split_and!; [done | | apply NoDup_singleton].
    intros x Hx Hin. apply list_elem_of_singleton in Hin as ->. by apply (Hk _ _ _ Ha).
Qed.
Lemma rows_loop_nodup_nil {K} (key : R -> K) rows rows' :
  (forall seen r r', check seen r = Ok r' -> key r' ∉ (key <$> seen)) ->
  rows_loop check [] rows = Ok rows' -> NoDup (key <$> rows').
Proof. intros Hk Hl. apply (rows_loop_nodup key [] rows rows' Hk); [constructor | done]. Qed.
Lemma rows_loop_length seen rows rows' : rows_loop check seen rows = Ok rows' -> length rows' = length rows.
Proof.
  revert seen rows'. induction rows as [|r rows IH]; intros seen rows' Hl; cbn [rows_loop] in Hl.
  - by injection Hl as <-.
  - accept Hl. injection Hl as <-. cbn. f_equal. eauto.
Qed.
End rows.

Lemma existsb_not_key {A} (f : A -> Z) seen x : existsb (fun k => f k =? x) seen = false -> x ∉ (f <$> seen).
Proof.
  intros Hf (k & -> & Hk)%list_elem_of_fmap. apply not_true_iff_false in Hf. apply Hf, existsb_exists.
  exists k. split; [by apply list_elem_of_In | by rewrite Z.eqb_refl].
Qed.
Lemma existsb_not_string {A} (f : A -> string) seen x : existsb (fun k => String.eqb (f k) x) seen = false -> x ∉ (f <$> seen).
Proof.
  intros Hf (k & -> & Hk)%list_elem_of_fmap. apply not_true_iff_false in Hf. apply Hf, existsb_exists.
  exists k. split; [by apply list_elem_of_In | by rewrite String.eqb_refl].
Qed.
Lemma find_not_string {A} (f : A -> string) seen x : List.find (fun k => String.eqb (f k) x) seen = None -> x ∉ (f <$> seen).
Proof.
  intros Hf (k & -> & Hk)%list_elem_of_fmap. pose proof (List.find_none _ _ Hf k) as Hn. cbn in Hn.
  rewrite String.eqb_refl in Hn. discriminate Hn. by apply list_elem_of_In.
Qed.

(** Run a gate again over what it accepted. *)
Ltac replay :=
  repeat match goal with
  | |- (if ?b then Err _ else _) = Ok _ => match goal with Hb : b = false |- _ => rewrite Hb end
  | |- res_bind ?r _ = Ok _ => match goal with Hr : r = Ok _ |- _ => rewrite Hr; cbn [res_bind] end
  end.

Section promises.
Context `{Unicode}.
Context (url_parse : string -> option (string * string)) (LoadLocation : string -> option Location).

(** *** Paths *)

Record quota_ok (q : Quota) : Prop := {
  qo_cal : fis_nan (quota_Calibration q) = false /\ fle (quota_Calibration q) fzero = false
    /\ fgt (quota_Calibration q) MaxCalibration = false /\ flt (quota_Calibration q) MinCalibration = false;
  qo_overhead : 0 <= quota_OverheadPerPacket q <= MaxOverheadPerPacket;
  qo_day : 1 <= quota_ResetDay q;
  qo_zone : quota_Timezone q <> ""%string /\ is_Some (LoadLocation (quota_Timezone q));
  qo_limits : quota_LimitBytes q <= MaxLedgerValue /\ quota_CeilingBytes q <= MaxLedgerValue
    /\ (0 < quota_CeilingBytes q -> quota_LimitBytes q <= quota_CeilingBytes q) }.

Lemma check_quota_ok name q q' : check_quota LoadLocation name q = Ok q' -> quota_ok q'.
Proof.
  unfold check_quota. intros Hc. accept Hc.
  set (cal := if fle (quota_Calibration q) fzero then f64_of_Z 100 else quota_Calibration q) in *.
  set (tz := if blank (quota_Timezone q) then DefaultTimezone else quota_Timezone q) in *.
  destruct (LoadLocation tz) as [loc|] eqn:El; [| done]. accept Hc. injection Hc as <-.
  assert (Htz : tz <> ""%string).
  { unfold tz, blank. destruct (String.eqb_spec (quota_Timezone q) ""); done. }
  assert (Hcal : fis_nan cal = false /\ fle cal fzero = false).
  { unfold cal. destruct (fle (quota_Calibration q) fzero) eqn:E; split; (done || vm_compute; reflexivity). }
  assert (Hday : 1 <= if quota_ResetDay q <? 1 then 1 else quota_ResetDay q) by (split_if; bool_to_prop; lia).
  destruct Hcal as [Hn Hz].
  bool_to_prop.
  constructor; cbn [quota_Calibration quota_OverheadPerPacket quota_ResetDay quota_Timezone quota_LimitBytes quota_CeilingBytes].
  - done.
  - lia.
  - done.
  - split; [done | by rewrite El].
  - split; [lia |]. split; [lia |]. intros Hpos.
    match goal with Hx : _ && _ = false |- _ => apply andb_false_iff in Hx as [Hx|Hx] end; bool_to_prop; lia.
Qed.
Lemma check_quota_idem name q q' : check_quota LoadLocation name q = Ok q' -> check_quota LoadLocation name q' = Ok q'.
Proof.
  intros Hc. destruct (check_quota_ok _ _ _ Hc) as [(C1 & C2 & C3 & C4) Ho Hd [Ht [loc Hl]] (L1 & L2 & L3)].
  unfold check_quota. rewrite C1, C2, C3, C4. cbn [orb].
  assert (E1 : (quota_OverheadPerPacket q' <? 0) || (MaxOverheadPerPacket <? quota_OverheadPerPacket q') = false)
    by (apply orb_false_iff; rewrite !Z.ltb_ge; lia).
  rewrite E1. unfold blank. apply String.eqb_neq in Ht. rewrite Ht, Hl.
  assert (E2 : (0 <? quota_CeilingBytes q') && (quota_CeilingBytes q' <? quota_LimitBytes q') = false)
    by (apply andb_false_iff; rewrite !Z.ltb_ge; lia).
  assert (E3 : (MaxLedgerValue <? quota_LimitBytes q') || (MaxLedgerValue <? quota_CeilingBytes q') = false)
    by (apply orb_false_iff; rewrite !Z.ltb_ge; lia).
  rewrite E2, E3. destruct (Z.ltb_spec (quota_ResetDay q') 1); [lia |]. by destruct q'.
Qed.

(** An interface name every generator and command line can carry. *)
Definition iface_ok (name : string) : Prop := bad_iface name = false /\ blank (TrimSpace name) = false.

Record path_ok (p : PathConfig) : Prop := {
  po_id : 0 < path_ID p < ProbeDenyBandSize;
  po_iface : iface_ok (path_Iface p);
  po_table : 1 <= path_Table p <= 252 /\ path_Table p <> ControlTable;
  po_mark : path_Mark p <> 0 /\ path_Mark p ∉ reserved_marks;
  po_quota : quota_ok (path_Quota p) }.

Lemma check_path_ok seen p p' : check_path LoadLocation seen p = Ok p' ->
  path_ok p' /\ (path_ID p' ∉ (path_ID <$> seen)) /\ (path_Iface p' ∉ (path_Iface <$> seen))
  /\ (path_Table p' ∉ (path_Table <$> seen)) /\ (path_Mark p' ∉ (path_Mark <$> seen)).
Proof.
  unfold check_path. intros Hc. accept Hc. destruct (List.find _ seen) eqn:Ef; [done |]. accept Hc. injection Hc as <-.
  cbn [path_ID path_Iface path_Table path_Mark].
  split_and!; [| by apply existsb_not_key | by apply find_not_string | by apply existsb_not_key | by apply existsb_not_key].
  bool_to_prop. constructor; cbn; [lia | done | lia | | by eapply check_quota_ok].
  split; [done |]. intros Hin. match goal with Hx : existsb _ reserved_marks = false |- _ => apply not_true_iff_false in Hx; apply Hx end.
  apply existsb_exists. exists (path_Mark p). split; [by apply list_elem_of_In | apply Z.eqb_refl].
Qed.
Lemma check_path_idem seen p p' : check_path LoadLocation seen p = Ok p' -> check_path LoadLocation seen p' = Ok p'.
Proof.
  unfold check_path. intros Hc. accept Hc. destruct (List.find _ seen) eqn:Ef; [done |]. accept Hc. injection Hc as <-.
  cbn [path_ID path_Iface path_Table path_Mark path_Name path_Quota path_Priority path_Enabled path_Metered path_Shape].
  apply check_quota_idem in Ha. replay. rewrite Ef. replay. done.
Qed.

(** *** Regions and lists of networks *)

Lemma has_slash_cidr4 ip ones : ip4_ok ip -> 0 <= ones <= 32 -> has_slash (bytes_string (cidr4 ip ones)) = true.
Proof.
  intros Hip Ho. unfold has_slash. rewrite string_bytes_cidr4 by done. apply existsb_exists. exists 47.
  split; [| done]. unfold cidr4. rewrite !in_app_iff. right. left. by left.
Qed.
Lemma network_text s : is_network s ->
  TrimSpace s = s /\ blank s = false /\ has_slash s = true /\ parseIPv4Network s = Ok s.
Proof.
  intros (ip & ones & Hip & Ho & Hm & ->). split_and!.
  - by apply TrimSpace_cidr4.
  - pose proof (has_slash_cidr4 ip ones Hip Ho) as Hs. unfold blank.
    destruct (String.eqb_spec (bytes_string (cidr4 ip ones)) "") as [E|]; [by rewrite E in Hs | done].
  - by apply has_slash_cidr4.
  - by rewrite parse_network4, string_bytes_cidr4, network4_cidr4.
Qed.
Lemma parsed_network s t : parseIPv4Network s = Ok t -> is_network t.
Proof. intros (ip & ones & _ & -> & ? & ? & ?)%parseIPv4Network_ok. by exists ip, ones. Qed.
Lemma cleanNetworkList_ok what items out : cleanNetworkList what items = Ok out -> Forall is_network out.
Proof.
  revert out. induction items as [|c items IH]; intros out Hc; cbn [cleanNetworkList] in Hc; [injection Hc as <-; constructor |].
  cbv zeta in Hc. destruct (blank (TrimSpace c)); [by apply IH |].
  destruct (parseIPv4Network _) as [n|e] eqn:En; [| done]. accept Hc. injection Hc as <-.
  constructor; [by eapply parsed_network | by apply IH].
Qed.
Lemma cleanNetworkList_settled what out : Forall is_network out -> cleanNetworkList what out = Ok out.
Proof.
  induction 1 as [|n out Hn Hout IH]; [done |]. cbn [cleanNetworkList].
  destruct (network_text n Hn) as (-> & -> & -> & ->). by rewrite IH.
Qed.

Lemma cleanNetworkList_length what items out :
  cleanNetworkList what items = Ok out -> (length out <= length items)%nat.
Proof.
  revert out. induction items as [|c items IH]; intros out Ho; cbn [cleanNetworkList] in Ho; [by injection Ho as <- |].
  cbv zeta in Ho. destruct (blank (TrimSpace c)); [apply IH in Ho; cbn; lia |].
  destruct (parseIPv4Network _); [| done]. accept Ho. injection Ho as <-. apply IH in Ha. cbn. lia.
Qed.
Lemma country_bytes cc : bad_country cc = false -> Forall (fun c => 97 <= c <= 122) (string_bytes cc).
Proof.
  unfold bad_country. intros Hc. bool_to_prop. rewrite forallb_forall in *.
  assert (Hr : Forall (fun c => 97 <= c <= 122) (decode_runes (string_bytes cc))).
  { apply Forall_forall. intros c Hin. apply list_elem_of_In in Hin.
    match goal with Hx : forall x, In x _ -> _ |- _ => apply Hx in Hin end. bool_to_prop. lia. }
  rewrite <- (decode_ascii_inv (string_bytes cc)); [done | apply string_bytes_ok |]. eapply Forall_impl; [exact Hr |]. cbn. lia.
Qed.
Lemma country_settled cc : bad_country cc = false -> ToLower (TrimSpace cc) = cc /\ blank cc = false.
Proof.
  intros Hc. pose proof (country_bytes cc Hc) as Hb. rewrite Forall_forall in Hb.
  assert (Hf : forall f : Z -> bool, (forall x, 97 <= x <= 122 -> f x = true) -> forallb f (string_bytes cc) = true).
  { intros f Hf. apply forallb_forall. intros x Hx. by apply Hf, Hb, list_elem_of_In. }
  rewrite TrimSpace_plain.
  - rewrite ToLower_lower; [split; [done |] |].
    + unfold blank. destruct (String.eqb_spec cc "") as [->|]; done.
    + apply Hf. intros x Hx. apply orb_true_iff. right. rewrite andb_true_iff, Z.leb_le, Z.ltb_lt. lia.
  - apply Hf. intros x Hx. unfold plain_byte. rewrite andb_true_iff, Z.leb_le, Z.ltb_lt. lia.
Qed.
Lemma clean_codes_idem countries : forall seen out, clean_codes seen countries = Ok out -> clean_codes seen out = Ok out.
Proof.
  induction countries as [|c cs IH]; intros seen out Hc; cbn [clean_codes] in Hc; [injection Hc as <-; done |].
  cbv zeta in Hc. destruct (blank (ToLower (TrimSpace c)) || _) eqn:Eb; [by apply IH |]. accept Hc. injection Hc as <-.
  bool_to_prop. cbn [clean_codes]. destruct (country_settled _ ltac:(eassumption)) as [-> ->].
  match goal with Hx : bool_decide _ = false |- _ => rewrite Hx end. cbn [orb]. replay. by rewrite (IH _ _ Ha).
Qed.

Record region_ok (r : GeoRegion) : Prop := {
  ro_name : region_Name r <> ""%string /\ TrimSpace (region_Name r) = region_Name r
    /\ bad_region_name (region_Name r) = false /\ GeoNameReserved (region_Name r) = false;
  ro_nets : Forall is_network (region_CIDRs r) }.
Lemma blank_not s : blank s = false -> s <> ""%string.
Proof. unfold blank. by destruct (String.eqb_spec s ""). Qed.
Lemma check_region_ok seen r r' : check_region seen r = Ok r' ->
  region_ok r' /\ GeoSetName (region_Name r') ∉ (GeoSetName ∘ region_Name <$> seen).
Proof.
  unfold check_region. intros Hc. cbv zeta in Hc. accept Hc. destruct (List.find _ seen) eqn:Ef; [done |].
  accept Hc. injection Hc as <-. cbn [region_Name]. split.
  - constructor; cbn [region_Name region_CIDRs]; [| by eapply cleanNetworkList_ok].
    split_and!; [by apply blank_not | apply TrimSpace_idem | done | done].
  - by apply (find_not_string (GeoSetName ∘ region_Name)).
Qed.
Lemma check_region_idem seen r r' : check_region seen r = Ok r' -> check_region seen r' = Ok r'.
Proof.
  unfold check_region. intros Hc. cbv zeta in Hc. accept Hc. destruct (List.find _ seen) eqn:Ef; [done |].
  accept Hc. injection Hc as <-. cbn [region_Name region_CIDRs region_Countries]. rewrite TrimSpace_idem. cbv zeta.
  replay. rewrite Ef. rewrite (cleanNetworkList_settled _ a) by (by eapply cleanNetworkList_ok).
  cbn [res_bind]. unfold cleanCountryCodes in *. by rewrite (clean_codes_idem _ _ _ Ha0).
Qed.
Lemma region_names_distinct rs rs' : rows_loop check_region [] rs = Ok rs' ->
  NoDup (GeoSetName ∘ region_Name <$> rs').
Proof. apply rows_loop_nodup_nil. intros seen r r' Hc. by apply check_region_ok in Hc as [_ Hn]. Qed.

Lemma check_blocklist_idem iface bl bl' : check_blocklist iface bl = Ok bl' -> check_blocklist iface bl' = Ok bl'.
Proof.
  unfold check_blocklist. intros Hc. accept Hc. injection Hc as <-.
  cbn [blc_Enabled blc_RefreshHours blc_Exceptions].
  assert (Hl : (maxBlocklistExceptions <? length a)%nat = false).
  { apply Nat.ltb_ge in Heqb2. apply Nat.ltb_ge.
    apply cleanNetworkList_length in Ha. lia. }
  replay. rewrite (cleanNetworkList_settled _ a) by (by eapply cleanNetworkList_ok). done.
Qed.
Lemma check_probe_idem pc pc' : check_probe pc = Ok pc' -> check_probe pc' = Ok pc'.
Proof.
  unfold check_probe. intros Hc. accept Hc. injection Hc as <-.
  cbn [probe_ActiveIntervalMs probe_StandbyIntervalMs probe_TimeoutMs probe_FailThreshold probe_RecoverThreshold
       probe_WindowSize probe_MaxLossPct probe_MaxRTTMs]. replay.
  destruct (probe_WindowSize pc <? 5) eqn:E; [done |]. by rewrite E.
Qed.

(** *** Linkers and egress sources *)

Lemma check_linker_ok lan ov paths seen l l' : check_linker lan ov paths seen l = Ok l' ->
  (linker_OverlayIP l' ∉ (linker_OverlayIP <$> seen)) /\ overlayContains ov (linker_OverlayIP l') = true
  /\ linker_OverlayIP l' <> ov_BackendIP ov /\ linker_OverlayIP l' <> ov_FrontendIP ov
  /\ linker_OverlayIP l' <> linker_LanIP l' /\ 0 <= linker_Table l' <= 252
  /\ (TableOr l' 0 <> ControlTable) /\ (TableOr l' 0 <> 0 -> TableOr l' 0 ∉ (path_Table <$> paths)).
Proof.
  unfold check_linker. intros Hc. cbv zeta in Hc. accept Hc.
  destruct (if _ =? 0 then None else List.find _ paths) eqn:Ef; [done |]. accept Hc. injection Hc as <-.
  set (l' := mkLinker _ _ _ _ _) in *. cbn [linker_OverlayIP linker_LanIP linker_Table].
  bool_to_prop. repeat match goal with Hx : String.eqb _ _ = false |- _ => apply String.eqb_neq in Hx end.
  split_and!; try done; [by apply existsb_not_string | |].
  - match goal with Hx : negb (TableOr l' 0 =? 0) && _ = false |- _ => rename Hx into Ht end.
    unfold ControlTable, ReturnTable in *. intros E. by rewrite E in Ht.
  - intros Hz (p & Hp & Hin)%list_elem_of_fmap. apply Z.eqb_neq in Hz. rewrite Hz in Ef.
    pose proof (List.find_none _ _ Ef p) as Hn. cbn in Hn. rewrite <- Hp, Z.eqb_refl in Hn.
    discriminate Hn. by apply list_elem_of_In.
Qed.
Lemma check_linker_idem lan ov paths seen l l' : check_linker lan ov paths seen l = Ok l' ->
  check_linker lan ov paths seen l' = Ok l'.
Proof.
  unfold check_linker. intros Hc. cbv zeta in Hc. accept Hc.
  destruct (if _ =? 0 then None else List.find _ paths) eqn:Ef; [done |]. accept Hc. injection Hc as <-.
  cbn [linker_Name linker_OverlayIP linker_LanIP linker_Table linker_Enabled] in *. rewrite !TrimSpace_idem. cbv zeta.
  replay. rewrite Ef. replay. done.
Qed.
(** The loop over linkers reads only the tables of the paths. *)
Lemma check_linker_paths lan ov ps qs seen l l' : path_Table <$> ps = path_Table <$> qs ->
  check_linker lan ov ps seen l = Ok l' -> check_linker lan ov qs seen l = Ok l'.
Proof.
  intros Heq. unfold check_linker. intros Hc. cbv zeta in *. accept Hc. replay.
  set (t := TableOr _ 0) in *.
  assert (Hf : (if t =? 0 then None else List.find (fun p => path_Table p =? t) ps) = None ->
    (if t =? 0 then None else List.find (fun p => path_Table p =? t) qs) = None).
  { destruct (t =? 0); [done |]. clear -Heq. revert qs Heq. induction ps as [|p ps IH]; intros [|q qs]; try done.
    rewrite !fmap_cons. intros [= E1 E2]. cbn. rewrite E1. destruct (_ =? t); [done |]. by apply IH. }
  destruct (if t =? 0 then None else List.find _ ps) eqn:Ef; [done |]. rewrite (Hf eq_refl). done.
Qed.

Lemma check_source_ok ov ls seen s s' : check_source ov ls seen s = Ok s' -> is_network (src_CIDR s').
Proof.
  unfold check_source. intros Hc. cbv zeta in Hc. accept Hc. destruct (parseIPv4Network _) as [n|e] eqn:En; [| done].
  destruct (blank (TrimSpace (src_Host s))); accept Hc; injection Hc as <-; by eapply parsed_network.
Qed.
Lemma check_source_idem ov ls seen s s' : check_source ov ls seen s = Ok s' -> check_source ov ls seen s' = Ok s'.
Proof.
  intros Hc. pose proof (check_source_ok _ _ _ _ _ Hc) as Hn. apply network_text in Hn as (N1 & N2 & _ & N4).
  unfold check_source in Hc. cbv zeta in Hc. accept Hc. destruct (parseIPv4Network _) as [n|e] eqn:En; [| done].
  unfold check_source. destruct (blank (TrimSpace (src_Host s))) eqn:Eh; accept Hc; injection Hc as <-;
    cbn [src_CIDR src_Host src_Name src_Enabled] in *; rewrite N1, N2, N4, !TrimSpace_idem, Eh; cbv zeta; [done |].
  replay. done.
Qed.

(** *** Services *)

(** A region a row may lock to: one the configuration has, with networks. *)
Definition region_usable (regions : list GeoRegion) (n : string) : Prop :=
  exists g, g ∈ regions /\ region_Name g = n /\ region_CIDRs g <> [].

Lemma check_refs_ok name regions refs : forall seen out, check_refs name regions seen refs = Ok out ->
  NoDup out /\ (forall r, r ∈ out -> (r ∉ seen) /\ r <> ""%string /\ TrimSpace r = r /\ region_usable regions r).
Proof.
  induction refs as [|r refs IH]; intros seen out Hc; cbn [check_refs] in Hc.
  { injection Hc as <-. split; [constructor | intros r Hr; by apply elem_of_nil in Hr]. }
  cbv zeta in Hc. destruct (blank (TrimSpace r) || _) eqn:Eb; [by apply IH |]. accept Hc. injection Hc as <-.
  destruct (IH _ _ Ha) as [I1 I2]. bool_to_prop.
  repeat match goal with Hx : bool_decide _ = false |- _ => apply bool_decide_eq_false in Hx end. split.
  - constructor; [| done]. intros Hin. apply I2 in Hin as [Hn _]. apply Hn. by left.
  - intros x [->|Hx]%elem_of_cons.
    + split_and!; [done | by apply blank_not | apply TrimSpace_idem |].
      match goal with Hx : existsb _ regions = true |- _ => apply existsb_exists in Hx as (g & Hg & Hgx) end.
      apply andb_true_iff in Hgx as [Hn Hl]. apply list_elem_of_In in Hg. apply String.eqb_eq in Hn. exists g.
      split_and!; [done | done |]. by apply nonempty_length.
    + destruct (I2 x Hx) as (Hn & ? & ? & ?). split_and!; [| done | done | done]. intros Hs. apply Hn. by right.
Qed.
Lemma check_refs_idem name regions refs : forall seen out, check_refs name regions seen refs = Ok out ->
  check_refs name regions seen out = Ok out.
Proof.
  induction refs as [|r refs IH]; intros seen out Hc; cbn [check_refs] in Hc; [by injection Hc as <- |].
  cbv zeta in Hc. destruct (blank (TrimSpace r) || _) eqn:Eb; [by apply IH |]. accept Hc. injection Hc as <-.
  cbn [check_refs]. rewrite TrimSpace_idem. cbv zeta. rewrite Eb. replay. by rewrite (IH _ _ Ha).
Qed.

Record service_ok (iface : string) (ov : OverlayConfig) (ls : list Linker) (regions : list GeoRegion) (sv : Service) : Prop := {
  so_name : bad_comment (svc_Name sv) = false /\ (String.length (svc_Name sv) <= maxServiceName)%nat;
  so_proto : svc_Proto sv = "tcp"%string \/ svc_Proto sv = "udp"%string;
  so_ports : 1 <= svc_Port sv <= 65535 /\ (svc_PortEnd sv = 0 \/ svc_Port sv <= svc_PortEnd sv <= 65535);
  so_iface : svc_Enabled sv = true -> TrimSpace iface <> ""%string;
  so_figures : 0 <= svc_CeilingPPS sv /\ 0 <= svc_NewConnsPerSec sv /\ 0 <= svc_MaxConnsPerSource sv /\ 0 <= svc_GeoAutoPPS sv;
  so_tcp : svc_Proto sv <> "tcp"%string -> svc_NewConnsPerSec sv = 0 /\ svc_MaxConnsPerSource sv = 0;
  so_target : svc_Target sv = ""%string
    \/ overlayContains ov (svc_Target sv) = true
       /\ (svc_Target sv = ov_BackendIP ov \/ is_linker ls (svc_Target sv) = true);
  so_refs : NoDup (svc_GeoRegions sv) /\ forall r, r ∈ svc_GeoRegions sv -> region_usable regions r;
  so_lock : svc_GeoRegions sv = [] -> svc_GeoBlock sv = false /\ svc_GeoAutoPPS sv = 0 }.

Lemma check_service_ok iface ov ls regions seen sv sv' :
  check_service iface ov ls regions seen sv = Ok sv' -> service_ok iface ov ls regions sv'.
Proof.
  unfold check_service. intros Hc. cbv zeta in Hc. accept Hc. injection Hc as <-. 
  pose proof (check_refs_ok _ _ _ _ _ Ha0) as [R1 R2]. clear Ha0.
  match goal with Hx : (maxServiceName <? _)%nat = false |- _ => apply Nat.ltb_ge in Hx end. 
  constructor; cbn; try done.
  - destruct (String.eqb_spec (svc_Proto sv) "tcp"); [by left |].
    destruct (String.eqb_spec (svc_Proto sv) "udp"); [by right | done].
  - bool_to_prop. split; [lia |]. destruct (Z.eqb_spec (svc_PortEnd sv) 0); [by left | right].
    cbn [negb andb] in *. bool_to_prop. lia.
  - intros He. rewrite He in *. cbn [andb] in *. by apply blank_not.
  - bool_to_prop. lia.
  - intros Hp. apply String.eqb_neq in Hp. rewrite Hp in *. cbn [negb andb] in *. bool_to_prop. lia.
  - unfold check_target in Ha. destruct (blank (TrimSpace (svc_Target sv))) eqn:Eb.
    { left. unfold blank in Eb. by apply String.eqb_eq in Eb. }
    right. accept Ha. bool_to_prop. split; [done |].
    destruct (String.eqb_spec (TrimSpace (svc_Target sv)) (ov_BackendIP ov)); [by left | right].
    by destruct (is_linker ls _).
  - split; [done |]. intros r Hr. by apply R2.
  - intros ->. cbn in *. bool_to_prop. split; [done |].
    match goal with Hx : _ && true = false |- _ => rewrite andb_true_r in Hx; bool_to_prop; lia end.
Qed.
Lemma check_service_idem iface ov ls regions seen sv sv' :
  check_service iface ov ls regions seen sv = Ok sv' -> check_service iface ov ls regions seen sv' = Ok sv'.
Proof.
  unfold check_service. intros Hc. cbv zeta in Hc. accept Hc. injection Hc as <-.
  cbn [svc_Name svc_Proto svc_Port svc_PortEnd svc_Enabled svc_Target svc_SourceEngine svc_CeilingPPS
       svc_NewConnsPerSec svc_MaxConnsPerSource svc_GeoRegions svc_GeoBlock svc_GeoAutoPPS].
  rewrite !TrimSpace_idem. cbv zeta. apply check_refs_idem in Ha0. replay.
  by destruct (length a0 =? 0)%nat.
Qed.

Lemma check_overlap_ok rows : forall before, check_overlap before rows = Ok tt ->
  forall i j a b, (before ++ rows) !! i = Some b -> (before ++ rows) !! j = Some a -> (i < j)%nat ->
    (length before <= j)%nat -> svc_Enabled a = true -> rows_meet a b = false.
Proof.
  induction rows as [|r rows IH]; intros before Hc i j a b Hi Hj Hlt Hge Ha; cbn [check_overlap] in Hc.
  { rewrite app_nil_r in Hj. apply lookup_lt_Some in Hj. lia. }
  destruct (if svc_Enabled r then List.find (rows_meet r) before else None) eqn:Ef; [done |].
  destruct (decide (j = length before)) as [->|Hne].
  - rewrite lookup_app_r, Nat.sub_diag in Hj by done. injection Hj as <-. rewrite Ha in Ef.
    rewrite lookup_app_l in Hi by lia. apply (List.find_none _ _ Ef). apply list_elem_of_In.
    by eapply list_elem_of_lookup_2.
  - specialize (IH (before ++ [r]) Hc i j a b). rewrite <- app_assoc in IH. cbn [app] in IH.
    apply IH; try done. rewrite length_app. cbn. lia.
Qed.

(** Rows no port of which two of them publish. *)
Definition row_ports (p : Z) (s : Service) : Prop := row_lo s <= p <= row_hi s.
Definition rows_apart (ss : list Service) : Prop := forall i j a b p, ss !! i = Some a -> ss !! j = Some b ->
  svc_Enabled a = true -> svc_Enabled b = true -> svc_Proto a = svc_Proto b ->
  row_ports p a -> row_ports p b -> i = j.

Lemma check_overlap_apart ss : check_overlap [] ss = Ok tt -> rows_apart ss.
Proof.
  intros Hc.
  assert (Hlt : forall i j a b p, ss !! i = Some b -> ss !! j = Some a -> (i < j)%nat -> svc_Enabled a = true ->
    svc_Enabled b = true -> svc_Proto a = svc_Proto b -> row_ports p a -> row_ports p b -> False).
  { intros i j a b p Hi Hj Hlt Ha Hb Hp Pa Pb.
    pose proof (check_overlap_ok ss [] Hc i j a b Hi Hj Hlt ltac:(cbn; lia) Ha) as Hm.
    unfold rows_meet in Hm. rewrite Hb, Hp, String.eqb_refl in Hm. cbn [andb] in Hm. bool_to_prop.
    apply orb_true_iff in Hm. unfold row_ports in *. rewrite !Z.ltb_lt in Hm. lia. }
  intros i j a b p Hi Hj Ha Hb Hp Pa Pb. destruct (Nat.lt_trichotomy i j) as [Hij|[->|Hij]]; [exfalso | done | exfalso].
  - eapply (Hlt i j b a p); (done || by symmetry).
  - by eapply (Hlt j i a b p).
Qed.

(** *** The whole gate *)

Record config_ok (c : Config) : Prop := {
  co_mode : cfg_Mode c = ModeObserve \/ cfg_Mode c = ModeArmed;
  co_ports : 1 <= ov_ProbePort (cfg_Overlay c) <= 65535 /\ 1 <= ov_ControlPort (cfg_Overlay c) <= 65535
    /\ ov_ProbePort (cfg_Overlay c) <> ov_ControlPort (cfg_Overlay c);
  co_public : fe_PublicIface (cfg_Frontend c) = ""%string \/ bad_iface (fe_PublicIface (cfg_Frontend c)) = false;
  co_address : fe_PublicIP (cfg_Frontend c) = ""%string \/ is_address (fe_PublicIP (cfg_Frontend c));
  co_paths : cfg_Paths c <> [] /\ Forall path_ok (cfg_Paths c) /\ NoDup (path_ID <$> cfg_Paths c)
    /\ NoDup (path_Iface <$> cfg_Paths c) /\ NoDup (path_Table <$> cfg_Paths c) /\ NoDup (path_Mark <$> cfg_Paths c);
  co_probe : 50 <= probe_ActiveIntervalMs (cfg_Probe c) <= probe_StandbyIntervalMs (cfg_Probe c)
    /\ 50 <= probe_TimeoutMs (cfg_Probe c) /\ 1 <= probe_FailThreshold (cfg_Probe c)
    /\ 1 <= probe_RecoverThreshold (cfg_Probe c) /\ 5 <= probe_WindowSize (cfg_Probe c);
  co_selection : fail_Selection (cfg_Failover c) = SelectionPriority \/ fail_Selection (cfg_Failover c) = SelectionQuality;
  co_linkers : NoDup (linker_OverlayIP <$> cfg_Linkers c)
    /\ Forall (fun l => overlayContains (cfg_Overlay c) (linker_OverlayIP l) = true) (cfg_Linkers c);
  co_sources : Forall (fun s => is_network (src_CIDR s)) (egress_Sources (cfg_Egress c));
  co_regions : Forall region_ok (protect_Regions (cfg_Protect c))
    /\ NoDup (GeoSetName ∘ region_Name <$> protect_Regions (cfg_Protect c));
  co_services : Forall (service_ok (fe_PublicIface (cfg_Frontend c)) (cfg_Overlay c) (cfg_Linkers c)
    (protect_Regions (cfg_Protect c))) (cfg_Services c) /\ rows_apart (cfg_Services c);
  co_limits : 0 <= protect_NewConnsPerSec (cfg_Protect c) /\ 0 <= protect_MaxConnsPerSource (cfg_Protect c)
    /\ 0 <= protect_PacketsPerSec (cfg_Protect c) /\ 0 <= protect_QueriesPerSec (cfg_Protect c)
    /\ 0 <= protect_BlockSeconds (cfg_Protect c);
  co_scoped : protect_Enabled (cfg_Protect c) = true \/ blc_Enabled (cfg_Blocklist c) = true ->
    TrimSpace (fe_PublicIface (cfg_Frontend c)) <> ""%string }.

Lemma settle_address_ok fe fe' : settle_address fe = Ok fe' ->
  fe_PublicIface fe' = fe_PublicIface fe /\ fe_BackendEgress fe' = fe_BackendEgress fe
  /\ (fe_PublicIP fe' = ""%string \/ is_address (fe_PublicIP fe')) /\ settle_address fe' = Ok fe'.
Proof.
  unfold settle_address. destruct (blank (fe_PublicIP fe)) eqn:Eb.
  { intros [= <-]. rewrite Eb. split_and!; try done. left. unfold blank in Eb. by apply String.eqb_eq in Eb. }
  unfold parseIPv4Address. destruct (String.eqb_spec (AddressLiteral (fe_PublicIP fe)) "") as [|Hne]; [done |].
  intros [= <-]. cbn [fe_PublicIface fe_BackendEgress fe_PublicIP].
  destruct (AddressLiteral_ok _ Hne) as (ip & E & Hip & _ & _ & Hidem). apply String.eqb_neq in Hne as Hb.
  split_and!; [done | done | right; by exists ip |]. unfold blank. rewrite Hb, Hidem, Hb. done.
Qed.

(** What [validate] ran, when it accepted: each piece with what it settled. *)
Record gate_run (cfg c : Config) : Prop := {
  ac_overlay : check_overlay (cfg_Mode cfg) (cfg_Overlay cfg) = Ok tt;
  ac_paths_some : (length (cfg_Paths cfg) =? 0)%nat = false;
  ac_frontend : check_frontend (cfg_Frontend cfg) = Ok tt;
  ac_notify : validateNotify url_parse (cfg_Notify cfg) = Ok (cfg_Notify c);
  ac_address : settle_address (cfg_Frontend cfg) = Ok (cfg_Frontend c);
  ac_failover : check_failover (cfg_Failover c) = Ok tt;
  ac_failover_of : cfg_Failover c = cfg_Failover (Normalise cfg);
  ac_lan : cfg_BackendLAN c = TrimSpace (cfg_BackendLAN cfg);
  ac_check_lan : check_lan (cfg_BackendLAN c) (cfg_Overlay cfg) (cfg_Linkers cfg) = Ok tt;
  ac_linkers : rows_loop (check_linker (cfg_BackendLAN c) (cfg_Overlay cfg) (cfg_Paths cfg)) [] (cfg_Linkers cfg)
    = Ok (cfg_Linkers c);
  ac_sources : rows_loop (check_source (cfg_Overlay cfg) (cfg_Linkers c)) [] (egress_Sources (cfg_Egress cfg))
    = Ok (egress_Sources (cfg_Egress c));
  ac_sources_once : check_sources_once (ov_BackendIP (cfg_Overlay cfg)) [] (egress_Sources (cfg_Egress c)) = Ok tt;
  ac_paths : rows_loop (check_path LoadLocation) [] (cfg_Paths cfg) = Ok (cfg_Paths c);
  ac_shapes : check_shapes (cfg_Paths c) = Ok tt;
  ac_protect : check_protect (fe_PublicIface (cfg_Frontend c)) (cfg_Protect cfg) = Ok tt;
  ac_qcache : check_qcache (cfg_QueryCache cfg) = Ok tt;
  ac_regions : rows_loop check_region [] (protect_Regions (cfg_Protect cfg)) = Ok (protect_Regions (cfg_Protect c));
  ac_regions_bytes : (maxRegionsBytes <? regions_bytes (protect_Regions (cfg_Protect c))) = false;
  ac_blocklist : check_blocklist (fe_PublicIface (cfg_Frontend c)) (cfg_Blocklist cfg) = Ok (cfg_Blocklist c);
  ac_probe : check_probe (cfg_Probe cfg) = Ok (cfg_Probe c);
  ac_services : rows_loop (check_service (fe_PublicIface (cfg_Frontend c)) (cfg_Overlay cfg) (cfg_Linkers c)
    (protect_Regions (cfg_Protect c))) [] (cfg_Services cfg) = Ok (cfg_Services c);
  ac_overlap : check_overlap [] (cfg_Services c) = Ok tt;
  ac_same : cfg_Mode c = cfg_Mode cfg /\ cfg_Overlay c = cfg_Overlay cfg /\ cfg_QueryCache c = cfg_QueryCache cfg;
  ac_protect_of : cfg_Protect c =
    let pr := cfg_Protect cfg in
    mkProtectConfig (protect_Enabled pr) (protect_NewConnsPerSec pr) (protect_MaxConnsPerSource pr)
      (protect_PacketsPerSec pr) (protect_QueriesPerSec pr) (protect_BlockSeconds pr)
      (protect_DropInvalid pr) (protect_DropBogusTCP pr) (protect_DropSpoofed pr)
      (protect_DropLegacyQueries pr) (protect_Regions (cfg_Protect c)) (protect_GeoLockSeconds pr) }.

Lemma tt_ok (r : checked unit) a : r = Ok a -> r = Ok tt.
Proof. by destruct a. Qed.

Lemma validate_run cfg c : validate url_parse LoadLocation cfg = Ok c -> gate_run cfg c.
Proof.
  unfold validate. intros Hc. cbv zeta in Hc. accept Hc. injection Hc as <-.
  constructor; cbn [cfg_Mode cfg_Frontend cfg_Overlay cfg_Paths cfg_Probe cfg_Failover cfg_Services cfg_Linkers
    cfg_BackendLAN cfg_Egress cfg_Notify cfg_Protect cfg_QueryCache cfg_Blocklist egress_Sources protect_Regions];
    try (by eapply tt_ok); try assumption; try reflexivity. by split_and!.
Qed.

Lemma run_validate cfg c : gate_run cfg c -> validate url_parse LoadLocation cfg = Ok c.
Proof.
  intros []. unfold validate. cbv zeta.
  rewrite ac_overlay0. cbn [res_bind]. rewrite ac_paths_some0, ac_frontend0. cbn [res_bind].
  rewrite ac_notify0. cbn [res_bind]. rewrite ac_address0. cbn [res_bind]. rewrite <- ac_failover_of0, ac_failover0.
  cbn [res_bind]. rewrite <- ac_lan0, ac_check_lan0. cbn [res_bind]. rewrite ac_linkers0. cbn [res_bind].
  rewrite ac_sources0. cbn [res_bind]. rewrite ac_sources_once0. cbn [res_bind]. rewrite ac_paths0. cbn [res_bind].
  rewrite ac_shapes0. cbn [res_bind]. rewrite ac_protect0. cbn [res_bind]. rewrite ac_qcache0. cbn [res_bind].
  rewrite ac_regions0. cbn [res_bind]. rewrite ac_regions_bytes0, ac_blocklist0. cbn [res_bind]. rewrite ac_probe0.
  cbn [res_bind]. rewrite ac_services0. cbn [res_bind]. rewrite ac_overlap0. cbn [res_bind].
  destruct ac_same0 as (<- & <- & <-). cbv zeta in ac_protect_of0. rewrite <- ac_protect_of0.
  destruct c as [m fe ov ps pr f sv li bl eg no pt qc bk]. by destruct eg.
Qed.

Lemma validate_ok cfg c : validate url_parse LoadLocation cfg = Ok c -> config_ok c.
Proof.
  intros Hv. apply validate_run in Hv as []. destruct ac_same0 as (Hm & Ho & _).
  destruct (settle_address_ok _ _ ac_address0) as (F1 & _ & F3 & _).
  assert (Hpaths : Forall (fun p => path_ok p) (cfg_Paths c)).
  { eapply rows_loop_all; [| exact ac_paths0]. intros seen r r' Hr. by apply check_path_ok in Hr as [? _]. }
  constructor; rewrite ?Hm, ?Ho; try done.
  - unfold check_overlay in ac_overlay0. accept ac_overlay0.
    destruct (String.eqb_spec (cfg_Mode cfg) ModeObserve); [by left | right].
    by destruct (String.eqb_spec (cfg_Mode cfg) ModeArmed).
  - unfold check_overlay in ac_overlay0. accept ac_overlay0. bool_to_prop. lia.
  - rewrite F1. unfold check_frontend in ac_frontend0. accept ac_frontend0.
    unfold blank in *. destruct (String.eqb_spec (fe_PublicIface (cfg_Frontend cfg)) ""); [by left | by right].
  - split; [| split; [done |]].
    + apply rows_loop_length in ac_paths0. intros Hn. rewrite Hn in ac_paths0. by rewrite <- ac_paths0 in ac_paths_some0.
    + split_and!; (eapply rows_loop_nodup_nil; [| exact ac_paths0]); intros seen r r' Hr;
        by apply check_path_ok in Hr as (_ & ? & ? & ? & ?).
  - unfold check_probe in ac_probe0. accept ac_probe0. injection ac_probe0 as <-. cbn. bool_to_prop.
    destruct (Z.ltb_spec (probe_WindowSize (cfg_Probe cfg)) 5); lia.
  - unfold check_failover in ac_failover0. accept ac_failover0.
    destruct (String.eqb_spec (fail_Selection (cfg_Failover c)) SelectionPriority); [by left | right].
    by destruct (String.eqb_spec (fail_Selection (cfg_Failover c)) SelectionQuality).
  - split.
    + eapply rows_loop_nodup_nil; [| exact ac_linkers0]. intros seen r r' Hr. by apply check_linker_ok in Hr as [? _].
    + eapply rows_loop_all; [| exact ac_linkers0]. intros seen r r' Hr. by apply check_linker_ok in Hr as (_ & ? & _).
  - eapply rows_loop_all; [| exact ac_sources0]. intros seen r r' Hr. by eapply check_source_ok.
  - split; [| by eapply region_names_distinct].
    eapply rows_loop_all; [| exact ac_regions0]. intros seen r r' Hr. by apply check_region_ok in Hr as [? _].
  - split; [| by apply check_overlap_apart].
    eapply rows_loop_all; [| exact ac_services0]. intros seen r r' Hr. by eapply check_service_ok.
  - rewrite ac_protect_of0. cbn. unfold check_protect in ac_protect0. accept ac_protect0. bool_to_prop. lia.
  - rewrite ac_protect_of0. cbn [protect_Enabled]. unfold check_protect in ac_protect0. accept ac_protect0.
    unfold check_blocklist in ac_blocklist0. accept ac_blocklist0. injection ac_blocklist0 as Hbl. rewrite <- Hbl.
    cbn [blc_Enabled]. intros [He|He]; rewrite He in *; cbn [andb] in *; by apply blank_not.
Qed.

(** [C3] What a saved configuration is worth to the rest of the system: every
    path has its own id, interface, table and mark, none of them one the
    control channel, the reply path or the egress rules use, and a quota the
    ledger can reach; every service has ports no other enabled row of its
    protocol publishes and locks only to regions that have networks; every
    name and network is one the rulesets can carry; and nothing filters or
    publishes without an interface to scope it to. *)
Theorem validate_sound cfg c : validate url_parse LoadLocation cfg = Ok c -> config_ok c.
Proof. apply validate_ok. Qed.

(** *** Accepted once, accepted always *)

(** The kind of notification is one the portal offers, or none. *)
Definition kind_known (k : string) : Prop := k ∈ [""; "webhook"; "ntfy"; "telegram"]%string.
Lemma kind_settled k : kind_known k -> ToLower (TrimSpace k) = k.
Proof.
  unfold kind_known. rewrite !elem_of_cons.
  intros [->|[->|[->|[->|Hk%elem_of_nil]]]]; [| | | | done];
    (rewrite TrimSpace_plain by reflexivity; by apply ToLower_lower).
Qed.
Lemma validateNotify_idem n n' : validateNotify url_parse n = Ok n' -> kind_known (notify_Kind n') ->
  validateNotify url_parse n' = Ok n'.
Proof.
  unfold validateNotify. cbv zeta. intros Hc Hk.
  destruct (negb (notify_Enabled n) && blank (TrimSpace (notify_URL n))) eqn:Eb.
  - cbn [notify_Enabled] in Hc. rewrite Eb in Hc. injection Hc as <-.
    cbn [notify_Kind notify_URL notify_Enabled notify_Token notify_OnSwitch notify_OnPathDown notify_OnQuota notify_OnHeld] in *.
    by rewrite (kind_settled _ Hk), TrimSpace_idem, Eb.
  - cbn [notify_Enabled] in Hc. rewrite Eb in Hc. accept Hc.
    destruct (url_parse (TrimSpace (notify_URL n))) as [[scheme host]|] eqn:Eu; [| done]. accept Hc. injection Hc as <-.
    cbn [notify_Kind notify_URL notify_Enabled notify_Token notify_OnSwitch notify_OnPathDown notify_OnQuota notify_OnHeld] in *.
    rewrite (kind_settled _ Hk), TrimSpace_idem.
    match goal with Hb : blank (TrimSpace (notify_URL n)) = false |- _ => rewrite Hb, andb_false_r end.
    replay. rewrite Eu. replay. done.
Qed.

Lemma Normalise_failover c cfg : cfg_Failover c = cfg_Failover (Normalise cfg) ->
  cfg_Failover (Normalise c) = cfg_Failover c.
Proof.
  intros Hf. destruct (Normalise_idempotent cfg) as (_ & Hs & Hq). rewrite <- Hf in Hs, Hq.
  unfold Normalise. apply String.eqb_neq in Hs. rewrite Hs, Hq. destruct c as [m fe ov ps pr f sv li bl eg no pt qc bk].
  cbn. by destruct f.
Qed.

Lemma rows_loop_map {R K} (check : list R -> R -> checked R) (key : R -> K) seen rows rows' :
  (forall seen r r', check seen r = Ok r' -> key r' = key r) ->
  rows_loop check seen rows = Ok rows' -> key <$> rows' = key <$> rows.
Proof.
  intros Hk. revert seen rows'. induction rows as [|r rows IH]; intros seen rows' Hl; cbn [rows_loop] in Hl.
  - by injection Hl as <-.
  - accept Hl. injection Hl as <-. rewrite !fmap_cons, (Hk _ _ _ Ha). f_equal. by eapply IH.
Qed.
Lemma rows_loop_weaken {R} (check check' : list R -> R -> checked R) seen rows rows' :
  (forall seen r r', check seen r = Ok r' -> check' seen r = Ok r') ->
  rows_loop check seen rows = Ok rows' -> rows_loop check' seen rows = Ok rows'.
Proof.
  intros Hw. revert seen rows'. induction rows as [|r rows IH]; intros seen rows' Hl; cbn [rows_loop] in *; [done |].
  accept Hl. rewrite (Hw _ _ _ Ha). cbn [res_bind]. rewrite (IH _ _ Ha0). done.
Qed.

(** A configuration the portal saved is one it will save again, and
    unchanged: reading the form back and pressing Save moves nothing. *)
Theorem validate_idempotent cfg c :
  validate url_parse LoadLocation cfg = Ok c -> kind_known (notify_Kind (cfg_Notify c)) ->
  validate url_parse LoadLocation c = Ok c.
Proof.
  intros Hv Hk. apply validate_run in Hv as []. destruct ac_same0 as (Hm & Ho & Hq).
  destruct (settle_address_ok _ _ ac_address0) as (F1 & F2 & _ & F4).
  assert (Htables : path_Table <$> cfg_Paths cfg = path_Table <$> cfg_Paths c).
  { symmetry. eapply rows_loop_map; [| exact ac_paths0]. unfold check_path. intros seen r r' Hc. accept Hc.
    destruct (List.find _ seen); [done |]. accept Hc. by injection Hc as <-. }
  apply run_validate. constructor; rewrite ?Hm, ?Ho, ?Hq; try done.
  - apply rows_loop_length in ac_paths0. by rewrite ac_paths0.
  - unfold check_frontend in *. by rewrite F1, F2.
  - by eapply validateNotify_idem.
  - symmetry. by eapply Normalise_failover.
  - by rewrite ac_lan0, TrimSpace_idem.
  - apply rows_loop_length in ac_linkers0. unfold check_lan in *. by rewrite ac_linkers0.
  - apply rows_loop_idem in ac_linkers0; [| intros; by eapply check_linker_idem].
    eapply rows_loop_weaken; [| exact ac_linkers0]. intros seen r r'. by apply check_linker_paths.
  - eapply rows_loop_idem; [| exact ac_sources0]. intros. by eapply check_source_idem.
  - eapply rows_loop_idem; [| exact ac_paths0]. intros. by eapply check_path_idem.
  - rewrite ac_protect_of0. unfold check_protect in *. cbv zeta.
    cbn [protect_Enabled protect_NewConnsPerSec protect_MaxConnsPerSource protect_PacketsPerSec protect_QueriesPerSec
         protect_BlockSeconds protect_GeoLockSeconds]. done.
  - eapply rows_loop_idem; [| exact ac_regions0]. intros. by eapply check_region_idem.
  - by eapply check_blocklist_idem.
  - by eapply check_probe_idem.
  - eapply rows_loop_idem; [| exact ac_services0]. intros. by eapply check_service_idem.
  - by destruct (cfg_Protect c).
Qed.
End promises.
