(* ===== verification/LinkerRules.v ===== *)
(** * The linker's kernel commands ([internal/sysx/linker.go])

    The rules, routes and tables of a linker, as programs over the commands of
    [Rules]: rules are told apart by the table token a listing prints, and a
    rule that points at a table this host stopped using goes only once that
    table is relieved of the route to the backend. *)

From S2P Require Import Prelude Model Bytes Decimal Text Net Ports Nft Rules Validate.

Definition DefaultLinkerTable : Z := 200.
Definition LinkerRulePrefBase : Z := 32400.
Definition LinkerEgressDenyRulePref : Z := LinkerRulePrefBase + 3.
Definition NFTLinkerReturnTable : string := "failover_linker_return".
Definition NFTLinkerEgressTable : string := "failover_linker_egress".

(** ** Reading the listings *)

Record sourceRule := mkSource { sr_pref : Z; sr_table : string }.
#[export] Instance sourceRule_eq_dec : EqDecision sourceRule.
Proof. solve_decision. Defined.

(** Whether the selector was seen, and the table named last. *)
Fixpoint scan_selector (key value : string) (matched : bool) (table : string) (fields : list string) : bool * string :=
  match fields with
  | f :: (g :: _) as rest =>
      if String.eqb f key then scan_selector key value (matched || String.eqb g value) table rest
      else if String.eqb f "lookup" then scan_selector key value matched g rest
      else scan_selector key value matched table rest
  | _ => (matched, table)
  end.
Definition selectorRules (rules key value : string) : list sourceRule :=
  omap (fun line =>
    let '(matched, table) := scan_selector key value false "" line.2 in
    if matched && negb (String.eqb table "") then Some (mkSource line.1 table) else None) (rule_lines rules).

(** Every token printed after [lookup]. *)
Fixpoint lookups (fields : list string) : list string :=
  match fields with
  | f :: (g :: _) as rest => if String.eqb f "lookup" then g :: lookups rest else lookups rest
  | _ => []
  end.
Definition tableTokens (listing : string) : list string :=
  split_lines [] (string_bytes listing) ≫= (fun line => lookups (Fields (bytes_string line))).

Fixpoint via_of (fields : list string) : string :=
  match fields with
  | f :: (g :: _) as rest => if String.eqb f "via" then g else via_of rest
  | _ => ""
  end.
Definition gatewayFrom (out : string) : string := via_of (Fields out).

(** ** Rules at their pinned priorities *)

Definition selector_rule (verb key value table : string) (pref : Z) : list string :=
  ["ip"; "rule"; verb; key; value; "lookup"; table; "pref"; Itoa pref]%string.
Definition del_default (gateway table : string) : list string :=
  ["ip"; "route"; "del"; "default"; "via"; gateway; "table"; table]%string.

(** Whether the rule that points at [table] may go. *)
Definition cleanAbandonedTable (backendLAN table : string) : cmds bool :=
  if String.eqb backendLAN "" then Done true
  else
    let! out := showRoutes ["default"; "table"; table]%string in
    match out with
    | Err _ => Done false
    | Ok out =>
        if negb (String.eqb (gatewayFrom out) backendLAN) then Done true
        else let! r := ask (del_default backendLAN table) in Done (is_ok r)
    end.

(** A rule found at [key value] goes, unless its table is not this one's and
    could not be relieved of the route. *)
Definition withdraw (mine : list string) (key value backendLAN : string) (s : sourceRule) : cmds unit :=
  let del := ignore (selector_rule "del" key value (sr_table s) (sr_pref s)) in
  if bool_decide (sr_table s ∈ mine) then del
  else let! ok := cleanAbandonedTable backendLAN (sr_table s) in
       if ok : bool then del else Done tt.
Fixpoint withdraw_all (mine : list string) (key value backendLAN : string) (l : list sourceRule) : cmds unit :=
  match l with
  | [] => Done tt
  | s :: l => let! _ := withdraw mine key value backendLAN s in withdraw_all mine key value backendLAN l
  end.

(** The rule at its own priority in its own table; the strays that can be
    proved this system's. *)
Definition in_place (mine : list string) (want : Z) (s : sourceRule) : bool :=
  (sr_pref s =? want) && bool_decide (sr_table s ∈ mine).
Definition provably_ours (mine : list string) (want : Z) (own : bool) (s : sourceRule) : bool :=
  own || bool_decide (sr_table s ∈ mine) || (sr_pref s =? want).

Definition ensurePinnedRule (tbl : Z) (key value : string) (want : Z) (own : bool) (backendLAN : string)
    : cmds (option rule_err) :=
  let! mine := listRulesInTable tbl in
  match mine with
  | Err e => Done (Some (ErrRun e))
  | Ok mine =>
      let! all := listRules in
      match all with
      | Err e => Done (Some (ErrRun e))
      | Ok all =>
          let table := Itoa tbl in
          let mine := table :: tableTokens mine in
          let found := selectorRules all key value in
          let strays := filter (fun s => negb (in_place mine want s) && provably_ours mine want own s = true) found in
          if existsb (in_place mine want) found
          then let! _ := withdraw_all mine key value backendLAN strays in Done None
          else
            let! r := ask (selector_rule "add" key value table want) in
            match r with
            | Err e => Done (Some (ErrRun e))
            | Ok _ => let! _ := withdraw_all mine key value backendLAN strays in Done None
            end
      end
  end.

Definition removePinnedRule (tbl : Z) (key value : string) (want : Z) (own : bool) (backendLAN : string) : cmds unit :=
  let table := Itoa tbl in
  let! mine := listRulesInTable tbl in
  let mine := table :: match mine with Ok mine => tableTokens mine | Err _ => [] end in
  let! all := listRules in
  let found := match all with
               | Ok all => filter (fun s => provably_ours mine want own s = true) (selectorRules all key value)
               | Err _ => [] end in
  let! _ := withdraw_all mine key value backendLAN found in
  match found with
  | [] => ignore ["ip"; "rule"; "del"; key; value; "lookup"; table]%string
  | _ => Done tt
  end.

Definition EnsureLinkerRule (overlayIP backendLAN : string) (tbl : Z) : cmds (option rule_err) :=
  if String.eqb overlayIP "" then Done (Some ErrNoAddress)
  else ensurePinnedRule tbl "from" overlayIP LinkerRulePrefBase true backendLAN.

Definition EnsureLinkerRoute (backendLAN : string) (tbl : Z) : cmds (option rule_err) :=
  if String.eqb backendLAN "" then Done (Some ErrNoAddress)
  else let! r := ask ["ip"; "route"; "replace"; "default"; "via"; backendLAN; "table"; Itoa tbl]%string in
       Done (failed r).
Definition LinkerRouteVia (tbl : Z) : cmds answer :=
  let! r := showRoutes ["default"; "table"; Itoa tbl]%string in
  Done (match r with Ok out => Ok (gatewayFrom out) | Err e => Err e end).

Definition RemoveLinkerRouting (overlayIP backendLAN : string) (tbl : Z) : cmds unit :=
  let! _ := removePinnedRule tbl "from" overlayIP LinkerRulePrefBase true backendLAN in
  if negb (String.eqb backendLAN "") then ignore (del_default backendLAN (Itoa tbl))
  else ignore ["ip"; "route"; "del"; "default"; "table"; Itoa tbl]%string.

Definition RPFilterOn : cmds (result string bool) :=
  let! out := ask ["sysctl"; "-n"; "net.ipv4.conf.all.rp_filter"]%string in
  Done (match out with Ok out => Ok (negb (String.eqb (TrimSpace out) "0")) | Err e => Err e end).

(** *** On the backend: the way to a linker *)

Definition EnsureLinkerHostRoute (overlayIP viaIP : string) : cmds (option rule_err) :=
  if String.eqb overlayIP "" || String.eqb viaIP "" then Done (Some ErrNoAddress)
  else let! r := ask ["ip"; "route"; "replace"; (overlayIP ++ "/32")%string; "via"; viaIP]%string in Done (failed r).
Definition LinkerHostRouteVia (overlayIP : string) : cmds answer :=
  let! r := ask ["ip"; "route"; "show"; (overlayIP ++ "/32")%string]%string in
  Done (match r with Ok out => Ok (gatewayFrom out) | Err e => Err e end).
Definition RemoveLinkerHostRoute (overlayIP : string) : cmds unit :=
  if String.eqb overlayIP "" then Done tt
  else ignore ["ip"; "route"; "del"; (overlayIP ++ "/32")%string]%string.

(** ** The tables *)

(** [None] is the empty text. *)
Definition linker_return_table (overlayIP : string) : option table :=
  let overlayIP := AddressLiteral overlayIP in
  if String.eqb overlayIP "" then None
  else Some (mkTable NFTLinkerReturnTable
    ["generated by failover-linker - do not edit by hand";
     "marks connections arriving for this host's overlay address";
     "so their replies route back to the backend, even after a";
     "container DNAT has rewritten their source address."]%string []
    [mkChain "prerouting" (Some "type filter hook prerouting priority mangle; policy accept;")%string
       [Rule [Daddr overlayIP; Text "ct direction original"; SetMark "ct mark set 0x201"];
        Rule [Text "ct direction reply"; SetMark "meta mark set ct mark"]]] "").
Definition BuildLinkerReturnRuleset (overlayIP : string) : string := text_of (linker_return_table overlayIP).

Definition linker_egress_table (cidrs : list string) (lanIface overlayIP overlaySubnet : string) : option table :=
  let cidrs := EgressNetworks cidrs in
  let overlayIP := AddressLiteral overlayIP in
  let overlaySubnet := NetworkLiteral overlaySubnet in
  let towards (c : string) (does : list atom) : list line :=
    (if negb (String.eqb overlaySubnet "") then [Rule ([Saddr c; Daddr overlaySubnet] ++ does)] else [])
    ++ [Rule ([Saddr c; Text internetOnly] ++ does)] in
  if (length cidrs =? 0)%nat || String.eqb lanIface "" || String.eqb overlayIP "" then None
  else Some (mkTable NFTLinkerEgressTable
    ["generated by failover-linker - do not edit by hand";
     "pulls these networks onto the overlay so their traffic leaves";
     "by the frontend's public address rather than this host's."]%string []
    [mkChain "prerouting" (Some "type filter hook prerouting priority mangle; policy accept;")%string
       (cidrs ≫= fun c => towards c [SetMark "meta mark set 0x301"]);
     mkChain "postrouting" (Some "type nat hook postrouting priority -10; policy accept;")%string
       (cidrs ≫= fun c => towards c [Oif lanIface; Snat overlayIP])] "").
Definition BuildLinkerEgressRuleset (cidrs : list string) (lanIface overlayIP overlaySubnet : string) : string :=
  text_of (linker_egress_table cidrs lanIface overlayIP overlaySubnet).

(** A file of the state directory is written through the runner too: what it
    holds, and whether the write failed, are the host's. *)
Definition write_file (path text : string) : cmds answer := ask ["write"; path; text]%string.
(** [applyRuleset]. *)
Definition applyRuleset (path ruleset : string) : cmds (option rule_err) :=
  let! w := write_file path ruleset in
  match w with
  | Err e => Done (Some (ErrRun e))
  | Ok _ => let! r := ask ["nft"; "-f"; path]%string in Done (failed r)
  end.
(** [filepath.Join] of a clean directory and a name. *)
Definition state_file (stateDir name : string) : string := (stateDir ++ "/" ++ name)%string.
Definition ApplyLinkerReturnRuleset (stateDir ruleset : string) : cmds (option rule_err) :=
  applyRuleset (state_file stateDir "linker-return.nft") ruleset.
Definition ApplyLinkerEgressRuleset (stateDir ruleset : string) : cmds (option rule_err) :=
  applyRuleset (state_file stateDir "linker-egress.nft") ruleset.
Definition delete_table (name : string) : cmds unit := ignore ["nft"; "delete"; "table"; "ip"; name]%string.

Definition EnsureLinkerMarkRule (backendLAN : string) (tbl : Z) : cmds (option rule_err) :=
  ensurePinnedRule tbl "fwmark" (hex_text LinkerReturnMark) (LinkerRulePrefBase + 1) false backendLAN.
Definition RemoveLinkerReturnRuleset (backendLAN : string) (tbl : Z) : cmds unit :=
  let! _ := removePinnedRule tbl "fwmark" (hex_text LinkerReturnMark) (LinkerRulePrefBase + 1) false backendLAN in
  delete_table NFTLinkerReturnTable.

Definition EnsureLinkerEgressRule (backendLAN : string) (tbl : Z) : cmds (option rule_err) :=
  let mark := hex_text LinkerEgressMark in
  let! r := ensurePinnedRule tbl "fwmark" mark (LinkerRulePrefBase + 2) false backendLAN in
  match r with
  | Some e => Done (Some e)
  | None =>
      let! all := listRules in
      match all with
      | Err e => Done (Some (ErrRun e))
      | Ok all => ensureUnreachableRule mark LinkerEgressDenyRulePref all
      end
  end.
Definition RemoveLinkerEgressRuleset (backendLAN : string) (tbl : Z) : cmds unit :=
  let mark := hex_text LinkerEgressMark in
  let! _ := removePinnedRule tbl "fwmark" mark (LinkerRulePrefBase + 2) false backendLAN in
  let! _ := removeUnreachableRule mark LinkerEgressDenyRulePref in
  delete_table NFTLinkerEgressTable.

Definition LanIfaceTo (addr : string) : cmds answer :=
  if String.eqb addr "" then Done (Err "no address to look up"%string)
  else let! r := ask ["ip"; "route"; "get"; addr]%string in
       Done (match r with Ok out => Ok (devFrom out) | Err e => Err e end).
