(* ===== verification/Web.v ===== *)
(** * The portal's door ([internal/web/server.go])

    Who may ask the portal for what: the routing of a request to its handler,
    the session and the cross-site check in front of every handler under
    [/api/], the login with its lockout and its bounded password hashing, the
    logout and the password change.  The sessions and the accounts are the
    store's ([Store.v]).  A handler runs as one step when requests do not
    overlap; [Concurrent] takes the login apart at the points where another
    request can run.

    [encoding/json] and [net/url] are used through [decode_login],
    [decode_password] (the body, capped at 4096 bytes, to the request it
    encodes) and [url_parse] (a URL to its scheme and host); the file server
    and the handlers behind the door are their names. *)

From S2P Require Import Prelude GoTime Model Bytes Text Store.

(** ** Requests and answers *)

Record Request := mkRequest {
  rq_Method : string; rq_Path : string; rq_Host : string; rq_RemoteAddr : string;
  rq_SecFetchSite : string; rq_Origin : string; rq_ContentType : string;
  rq_Cookie : option string; rq_Body : bytes }.

(** What a handler writes: the status code, and what it does to the cookie. *)
Inductive set_cookie := KeepCookie | SetCookie (token : string) (expires : Time) | ClearCookie.
Record reply := mkAnswer { an_Code : Z; an_Body : string; an_Cookie : set_cookie }.
Definition writeJSON (code : Z) (body : string) : reply := mkAnswer code body KeepCookie.

Record loginRequest := mkLoginRequest { lr_Username : string; lr_Password : string }.
Record passwordRequest := mkPasswordRequest {
  pr_Username : string; pr_Current : string; pr_New : string }.

Definition sessionTTL : Duration := 30 * 24 * Hour.
Definition defaultAdminUser : string := "admin".
Definition minPasswordLen : nat := 10.
Definition maxConcurrentLogins : nat := 2.

(** ** The server *)

Record attemptRecord := mkAttempt { at_count : Z; at_until : Time }.

Record Server := mkServer {
  sv_attempts : gmap string attemptRecord;
  sv_loginSem : nat;     (* slots of [loginSem] in use *)
  sv_st : Store }.

Definition with_attempts a s := mkServer a (sv_loginSem s) (sv_st s).
Definition with_sem n s := mkServer (sv_attempts s) n (sv_st s).
Definition with_st st s := mkServer (sv_attempts s) (sv_loginSem s) st.

(** ** Standard library *)

(** [net.SplitHostPort]: the host, or nothing where it returns an error. *)
Definition colon : Z := 58.
Definition lbracket : Z := 91.
Definition rbracket : Z := 93.
Fixpoint index_byte (c : Z) (b : bytes) : option nat :=
  match b with
  | [] => None
  | x :: b => if x =? c then Some O else S <$> index_byte c b
  end.
Definition last_index_byte (c : Z) (b : bytes) : option nat :=
  (fun k => length b - 1 - k)%nat <$> index_byte c (rev b).
Definition has_byte (c : Z) (b : bytes) : bool := bool_decide (is_Some (index_byte c b)).

Definition split_host (hp : bytes) : option bytes :=
  match last_index_byte colon hp with
  | None => None
  | Some i =>
      match hp with
      | x :: inside =>
          if x =? lbracket then
            match index_byte rbracket hp with
            | None => None
            | Some e =>
                if Nat.eqb (e + 1) i
                   && negb (has_byte lbracket inside) && negb (has_byte rbracket (drop (e + 1) hp))
                then Some (slice 1 e hp) else None
            end
          else if has_byte colon (take i hp) || has_byte lbracket hp || has_byte rbracket hp
          then None else Some (take i hp)
      | [] => None
      end
  end.
Definition remote_host (addr : string) : string :=
  match split_host (string_bytes addr) with Some h => bytes_string h | None => addr end.

(** [strings.EqualFold] compares runes by the representative of their case
    orbit; besides the letters, exactly two runes fold to ASCII. *)
Class CaseFold := {
  fold_key : Z -> Z;
  fold_key_ascii r : 0 <= r < 128 -> fold_key r = if (65 <=? r) && (r <=? 90) then r + 32 else r;
  fold_key_long_s : fold_key 383 = 115;
  fold_key_kelvin : fold_key 8490 = 107;
  fold_key_other r : 128 <= r -> r <> 383 -> r <> 8490 -> 128 <= fold_key r }.
Definition EqualFold `{CaseFold} (s t : string) : bool :=
  bool_decide (fold_key <$> decode_runes (string_bytes s) = fold_key <$> decode_runes (string_bytes t)).

Definition ascii_fold (r : Z) : Z :=
  if (65 <=? r) && (r <=? 90) then r + 32
  else if r =? 383 then 115 else if r =? 8490 then 107 else r.
#[refine] Definition AsciiFold : CaseFold := {| fold_key := ascii_fold |}.
Proof.
  - intros r Hr. unfold ascii_fold. split_if; [done |].
    destruct (Z.eqb_spec r 383); [lia |]. destruct (Z.eqb_spec r 8490); [lia |]. done.
  - done.
  - done.
  - intros r Hr H1 H2. unfold ascii_fold.
    destruct (Z.leb_spec 65 r), (Z.leb_spec r 90); cbn; try lia;
      destruct (Z.eqb_spec r 383), (Z.eqb_spec r 8490); lia.
Defined.

(** ** The lockout *)

(** The lockout a host's [count]-th attempt in a row earns it, if any. *)
Definition lockDelay (count : Z) : Duration :=
  let delay := dmul (dmul (count - 4) 30) Second in
  if 15 * Minute <? delay then 15 * Minute else delay.

(** [throttled]; the clock is read twice, for the decision and for the reply. *)
Definition throttled (host : string) (now now' : Time) (s : Server) : option Duration :=
  match sv_attempts s !! host with
  | None => None
  | Some rec => if Before now (at_until rec) then Some (Sub (at_until rec) now') else None
  end.

Definition evict (now : Time) (a : gmap string attemptRecord) : gmap string attemptRecord :=
  if (256 <? Z.of_nat (size a))
  then filter (fun kv => Before (at_until kv.2) (Add now (- Hour)) = false) a
  else a.

Definition bump (now : Time) (rec : attemptRecord) : attemptRecord :=
  let count := i64 (at_count rec + 1) in
  mkAttempt count (if 5 <=? count then Add now (lockDelay count) else at_until rec).

Definition recordFailure (host : string) (now : Time) (s : Server) : Server :=
  let a := evict now (sv_attempts s) in
  with_attempts (<[host := bump now (default (mkAttempt 0 zeroTime) (a !! host))]> a) s.

Definition clearFailures (host : string) (s : Server) : Server :=
  with_attempts (delete host (sv_attempts s)) s.

(** ** Signing in *)

(** The moments a login reads the clock at, and its random bytes. *)
Record login_clock := mkClock {
  ck_check : Time; ck_record : Time; ck_session : Time; ck_cookie : Time; ck_rand : bytes }.

Section handlers.
Context (decode_login : bytes -> option loginRequest) (decode_password : bytes -> option passwordRequest).
Context (url_parse : string -> option (string * string)).
Context `{CaseFold} `{Unicode}.

Definition tooMany : reply := writeJSON 429 "too many attempts".

(** [select { case s.loginSem <- struct{}{}: default: }]. *)
Definition acquire (s : Server) : option Server :=
  if (sv_loginSem s <? maxConcurrentLogins)%nat then Some (with_sem (S (sv_loginSem s)) s) else None.
Definition release (s : Server) : Server := with_sem (pred (sv_loginSem s)) s.

Definition check_password (req : loginRequest) (s : Server) : bool * Server :=
  let '(ok, st) := CheckPassword (lr_Username req) (lr_Password req) (sv_st s) in
  (ok, with_st st s).

(** From the cleared count to the reply. *)
Definition grant_session (host : string) (req : loginRequest) (ck : login_clock) (s : Server)
    : reply * Server :=
  let s := clearFailures host s in
  match NewSession (lr_Username req) sessionTTL (ck_session ck) (ck_rand ck) (sv_st s) with
  | (Err _, st) => (writeJSON 500 "new session", with_st st s)
  | (Ok token, st) =>
      (mkAnswer 200 "ok" (SetCookie token (Add (ck_cookie ck) sessionTTL)), with_st st s)
  end.

Definition handleLogin (rq : Request) (ck : login_clock) (s : Server) : reply * Server :=
  let host := remote_host (rq_RemoteAddr rq) in
  match throttled host (ck_check ck) (ck_check ck) s with
  | Some _ => (tooMany, s)
  | None =>
      match decode_login (rq_Body rq) with
      | None => (writeJSON 400 "bad request", s)
      | Some req =>
          let s := recordFailure host (ck_record ck) s in
          match acquire s with
          | None => (tooMany, s)
          | Some s =>
              let '(ok, s) := check_password req s in
              let s := release s in
              if ok then grant_session host req ck s
              else (writeJSON 401 "invalid credentials", s)
          end
      end
  end.

Definition handleLogout (rq : Request) (s : Server) : reply * Server :=
  (mkAnswer 200 "ok" ClearCookie,
   match rq_Cookie rq with
   | Some token => with_st (DeleteSession token (sv_st s)).2 s
   | None => s
   end).

(** ** Sessions and the cross-site check *)

Definition sessionUser (rq : Request) (now : Time) (s : Server) : option string * Server :=
  match rq_Cookie rq with
  | None => (None, s)
  | Some token =>
      match Session token now (sv_st s) with
      | (Ok user, st) => (Some user, with_st st s)
      | (Err _, st) => (None, with_st st s)
      end
  end.

Definition form_types : list string :=
  ["application/x-www-form-urlencoded"; "multipart/form-data"; "text/plain"]%string.

Definition crossSite (rq : Request) : bool :=
  let site := rq_SecFetchSite rq in
  let origin := rq_Origin rq in
  if negb (String.eqb site "") && negb (String.eqb site "same-origin") && negb (String.eqb site "none")
  then true
  else if negb (String.eqb origin "")
          && (String.eqb origin "null"
              || match url_parse origin with
                 | None => true
                 | Some (_, host) => negb (EqualFold host (rq_Host rq))
                 end)
  then true
  else existsb (fun form => String.prefix form (ToLower (rq_ContentType rq))) form_types.

(** [requireAuth]: the refusal, or nothing where the handler runs. *)
Definition requireAuth (trusted : bool) (rq : Request) (now : Time) (s : Server)
    : option reply * Server :=
  if trusted then (None, s)
  else match sessionUser rq now s with
  | (None, s) => (Some (writeJSON 401 "authentication required"), s)
  | (Some _, s) =>
      if negb (String.eqb (rq_Method rq) "GET") && negb (String.eqb (rq_Method rq) "HEAD") && crossSite rq
      then (Some (writeJSON 403 "cross-site request refused"), s)
      else (None, s)
  end.

(** ** The password *)

(** Whose password it is, or the refusal. *)
Definition password_caller (trusted : bool) (rq : Request) (req : passwordRequest) (now : Time)
    (s : Server) : (reply + string) * Server :=
  if trusted then (inr (TrimSpace (pr_Username req)), s)
  else match sessionUser rq now s with
  | (None, s) => (inl (writeJSON 401 "authentication required"), s)
  | (Some user, s) =>
      match CheckPassword user (pr_Current req) (sv_st s) with
      | (false, st) => (inl (writeJSON 403 "the current password is not correct"), with_st st s)
      | (true, st) => (inr user, with_st st s)
      end
  end.

Definition handlePassword (trusted : bool) (rq : Request) (now : Time) (salt : bytes)
    (ck : login_clock) (s : Server) : reply * Server :=
  match decode_password (rq_Body rq) with
  | None => (writeJSON 400 "bad request", s)
  | Some req =>
      if (String.length (pr_New req) <? minPasswordLen)%nat
      then (writeJSON 400 "the new password must be at least 10 characters", s)
      else
        let '(who, s) := password_caller trusted rq req now s in
        match who with
        | inl refusal => (refusal, s)
        | inr username =>
            let username := if String.eqb username "" then defaultAdminUser else username in
            match CreateUser username (pr_New req) salt (sv_st s) with
            | (Err _, st) => (writeJSON 500 "create user", with_st st s)
            | (Ok _, st) =>
                let st := (DeleteSessionsFor username st).2 in
                if trusted then (writeJSON 200 username, with_st st s)
                else match NewSession username sessionTTL (ck_session ck) (ck_rand ck) st with
                | (Ok token, st) =>
                    (mkAnswer 200 username (SetCookie token (Add (ck_cookie ck) sessionTTL)), with_st st s)
                | (Err _, st) => (writeJSON 200 username, with_st st s)
                end
            end
        end
  end.

(** [EnsureAdmin], given the twelve random bytes and the salt. *)
Definition EnsureAdmin (username : string) (b salt : bytes) : SM string :=
  do! has := HasUsers in
  if has then sret ""%string
  else run! CreateUser username (hex_string b) salt in sret (hex_string b).

(** ** Routing *)

Inductive ApiHandler :=
| HStatus | HPSK | HGetConfig | HPresets | HProtectPresets | HPutConfig | HCheckConfig | HEvents
| HHistory | HUsage | HMode | HPin | HApprove | HRevoke | HClearQuarantine | HGeoFetch | HRevert
| HPassword.

Inductive Endpoint := Login | Logout | Api (h : ApiHandler) | Static.

Definition routes : list (string * string * Endpoint) :=
  [("POST", "/api/login", Login); ("POST", "/api/logout", Logout);
   ("GET", "/api/status", Api HStatus); ("GET", "/api/psk", Api HPSK);
   ("GET", "/api/config", Api HGetConfig); ("GET", "/api/presets", Api HPresets);
   ("GET", "/api/protect-presets", Api HProtectPresets); ("PUT", "/api/config", Api HPutConfig);
   ("POST", "/api/config/check", Api HCheckConfig); ("GET", "/api/events", Api HEvents);
   ("GET", "/api/history", Api HHistory); ("GET", "/api/usage", Api HUsage);
   ("POST", "/api/mode", Api HMode); ("POST", "/api/pin", Api HPin);
   ("POST", "/api/approve", Api HApprove); ("POST", "/api/revoke", Api HRevoke);
   ("POST", "/api/quarantine/clear", Api HClearQuarantine);
   ("POST", "/api/geo/fetch", Api HGeoFetch); ("POST", "/api/revert", Api HRevert);
   ("POST", "/api/password", Api HPassword)]%string.

(** A [GET] pattern also takes [HEAD]; ["/"] takes what no other pattern does. *)
Definition method_matches (pattern method : string) : bool :=
  String.eqb pattern method || (String.eqb pattern "GET" && String.eqb method "HEAD").
Fixpoint dispatch_in (l : list (string * string * Endpoint)) (method path : string) : Endpoint :=
  match l with
  | [] => Static
  | (m, p, e) :: l =>
      if method_matches m method && String.eqb p path then e else dispatch_in l method path
  end.
Definition dispatch : string -> string -> Endpoint := dispatch_in routes.

(** What becomes of a request at the door. *)
Inductive door_result := Run (e : Endpoint) | Answered (a : reply) | RedirectToLogin.

Definition serve (trusted : bool) (rq : Request) (now : Time) (s : Server) : door_result * Server :=
  match dispatch (rq_Method rq) (rq_Path rq) with
  | Api h =>
      match requireAuth trusted rq now s with
      | (Some a, s) => (Answered a, s)
      | (None, s) => (Run (Api h), s)
      end
  | Static =>
      if String.eqb (rq_Path rq) "/" && negb trusted then
        match sessionUser rq now s with
        | (Some _, s) => (Run Static, s)
        | (None, s) => (RedirectToLogin, s)
        end
      else (Run Static, s)
  | e => (Run e, s)
  end.

(** The handlers that change what the frontend does or keeps. *)
Definition changes_state (h : ApiHandler) : bool :=
  match h with
  | HPutConfig | HMode | HPin | HApprove | HRevoke | HClearQuarantine | HRevert | HPassword => true
  | _ => false
  end.
End handlers.

(** ** The lockout, one request after another *)

Record login := mkLogin { lg_rq : Request; lg_ck : login_clock }.
Definition lg_host (l : login) : string := remote_host (rq_RemoteAddr (lg_rq l)).

(** The logins as they arrive, the host of each with its reply. *)
Fixpoint logins (decode : bytes -> option loginRequest) (l : list login) (s : Server)
    : list (string * reply) * Server :=
  match l with
  | [] => ([], s)
  | x :: l =>
      let '(a, s) := handleLogin decode (lg_rq x) (lg_ck x) s in
      let '(out, s) := logins decode l s in ((lg_host x, a) :: out, s)
  end.

(** Each login reads the clock in order, and after the one before it. *)
Fixpoint in_order (t : Time) (l : list login) : Prop :=
  match l with
  | [] => True
  | x :: l => t <= ck_check (lg_ck x) <= ck_record (lg_ck x) /\ in_order (ck_record (lg_ck x)) l
  end.

(** The passwords a host had checked and refused. *)
Definition guesses (h : string) (out : list (string * reply)) : nat :=
  length (filter (fun p => p.1 = h /\ an_Code p.2 = 401) out).

(** The lockouts served before the [n]-th attempt in a row. *)
Fixpoint lockout_time (n : nat) : Duration :=
  match n with
  | O => 0
  | S n => lockout_time n + (if (5 <=? n)%nat then lockDelay (Z.of_nat n) else 0)
  end.

Lemma lockDelay_val c : 5 <= c < 300000000 -> lockDelay c = Z.min ((c - 4) * (30 * Second)) (15 * Minute).
Proof.
  intros Hc. unfold lockDelay, dmul. change Second with 1000000000. change Minute with 60000000000.
  rewrite (i64_id ((c - 4) * 30)), i64_id by (unfold in_i64, MinInt64, MaxInt64; lia).
  repeat split_if; bool_to_prop; lia.
Qed.

Lemma lockout_time_mono a b : (a <= b)%nat -> Z.of_nat b < 300000000 -> lockout_time a <= lockout_time b.
Proof.
  induction 1 as [|b Hab IH]; intros Hb; [done |]. cbn [lockout_time].
  assert (lockout_time a <= lockout_time b) by (apply IH; lia).
  destruct (5 <=? b)%nat eqn:E; [| lia]. apply Nat.leb_le in E.
  rewrite lockDelay_val by lia. change Second with 1000000000. change Minute with 60000000000. lia.
Qed.

Lemma lockout_time_pos n : Z.of_nat n < 300000000 -> 0 <= lockout_time n.
Proof. apply (lockout_time_mono 0 n). lia. Qed.

(** *** What one login does to a host's record *)

Section lockout.
Context (decode : bytes -> option loginRequest).
Implicit Types (s : Server) (h : string) (x : login).

Lemma grant_session_attempts h req ck s :
  sv_attempts (grant_session h req ck s).2 = delete h (sv_attempts s).
Proof. unfold grant_session. by destruct (NewSession _ _ _ _ _) as [[?|?] ?]. Qed.

Lemma grant_session_code h req ck s :
  an_Code (grant_session h req ck s).1 = 200 \/ an_Code (grant_session h req ck s).1 = 500.
Proof. unfold grant_session. destruct (NewSession _ _ _ _ _) as [[?|?] ?]; auto. Qed.

(** A login refused at the lockout or for its body leaves the records alone;
    one that reaches the count adds to it, and then either is refused or, with
    200 or 500, clears it. *)
Lemma handleLogin_cases x s :
  let '(a, s') := handleLogin decode (lg_rq x) (lg_ck x) s in
  ((an_Code a = 429 \/ an_Code a = 400) /\ s' = s)
  \/ (throttled (lg_host x) (ck_check (lg_ck x)) (ck_check (lg_ck x)) s = None
      /\ let a1 := sv_attempts (recordFailure (lg_host x) (ck_record (lg_ck x)) s) in
         ((an_Code a = 429 \/ an_Code a = 401) /\ sv_attempts s' = a1)
         \/ ((an_Code a = 200 \/ an_Code a = 500) /\ sv_attempts s' = delete (lg_host x) a1)).
Proof.
  unfold handleLogin. fold (lg_host x).
  destruct (throttled _ _ _ s) eqn:Et; [left; split; [by left | done] |].
  destruct (decode _) as [req|]; [| left; split; [by right | done]].
  set (s1 := recordFailure _ _ s). unfold acquire.
  destruct (sv_loginSem s1 <? _)%nat eqn:Es; [| right; split; [done |]; left; split; [by left | done]].
  unfold check_password.
  destruct (CheckPassword _ _ _) as [[] st]; [| right; split; [done |]; left; split; [by right | done]].
  destruct (grant_session _ _ _ _) as [a s'] eqn:Eg.
  pose proof (grant_session_code (lg_host x) req (lg_ck x)
    (release (with_st st (with_sem (S (sv_loginSem s1)) s1)))) as Hc.
  pose proof (grant_session_attempts (lg_host x) req (lg_ck x)
    (release (with_st st (with_sem (S (sv_loginSem s1)) s1)))) as Ha.
  rewrite Eg in Hc, Ha. cbn [fst snd] in *. right. split; [done |]. right. split; [done |]. by rewrite Ha.
Qed.

Lemma throttled_locked h now now' s rec :
  sv_attempts s !! h = Some rec -> now < at_until rec -> throttled h now now' s <> None.
Proof. intros Hr Hn. unfold throttled, Before. rewrite Hr. by rewrite (proj2 (Z.ltb_lt _ _) Hn). Qed.

(** Eviction never takes a record whose lockout still runs. *)
Lemma evict_keeps now a h rec :
  a !! h = Some rec -> now < at_until rec -> evict now a !! h = Some rec.
Proof.
  intros Hr Hn. unfold evict. split_if; [| done].
  rewrite map_lookup_filter_Some. split; [done |]. unfold Before, Add, Hour. cbn [snd]. apply Z.ltb_ge. lia.
Qed.

Lemma recordFailure_other h h' now s rec :
  h <> h' -> sv_attempts s !! h = Some rec -> now < at_until rec ->
  sv_attempts (recordFailure h' now s) !! h = Some rec.
Proof.
  intros Hne Hr Hn. unfold recordFailure. cbn [sv_attempts with_attempts].
  rewrite lookup_insert_ne by done. by apply evict_keeps.
Qed.

(** A lockout holds.  While a host's lockout runs, every login it sends
    is refused without a password being looked at, its record stays as it is,
    and nothing any other host sends, nor the eviction of old records, lifts
    it. *)
Theorem lockout_holds l s h rec :
  sv_attempts s !! h = Some rec ->
  Forall (fun x => ck_check (lg_ck x) < at_until rec /\ ck_record (lg_ck x) < at_until rec) l ->
  Forall (fun p => p.1 = h -> p.2 = tooMany) (logins decode l s).1
  /\ sv_attempts (logins decode l s).2 !! h = Some rec.
Proof.
  intros Hr Hl. revert s Hr. induction Hl as [|x l [Hc Hk] Hl IH]; intros s Hr; [done |].
  cbn [logins]. destruct (decide (lg_host x = h)) as [Hx|Hne].
  - assert (handleLogin decode (lg_rq x) (lg_ck x) s = (tooMany, s)) as ->.
    { unfold handleLogin. fold (lg_host x). rewrite Hx.
      destruct (throttled h _ _ s) eqn:Et; [done |]. by destruct (throttled_locked h _ _ s rec Hr Hc Et). }
    specialize (IH s Hr). destruct (logins decode l s) as [out s']. cbn in *. split; [constructor; [done |] |]; apply IH.
  - pose proof (handleLogin_cases x s) as Hcs. destruct (handleLogin decode _ _ s) as [a s1] eqn:E.
    assert (Hr1 : sv_attempts s1 !! h = Some rec).
    { destruct Hcs as [[_ ->] | (_ & [[_ ->] | [_ ->]])]; [done | by apply recordFailure_other |].
      rewrite lookup_delete_ne by done. by apply recordFailure_other. }
    specialize (IH s1 Hr1). destruct (logins decode l s1) as [out s']. cbn in *. split; [| apply IH].
    constructor; [done | apply IH].
Qed.

(** *** How long guesses take *)

(** The record of [h] when it has tried [c] times in a row since [t0]. *)
Definition tried h t0 (now : Time) (c : nat) s : Prop :=
  default (mkAttempt 0 zeroTime) (sv_attempts s !! h) = mkAttempt (Z.of_nat c)
    (at_until (default (mkAttempt 0 zeroTime) (sv_attempts s !! h)))
  /\ ((5 <= c)%nat -> t0 + lockout_time (S c) <= at_until (default (mkAttempt 0 zeroTime) (sv_attempts s !! h)))
  /\ t0 + lockout_time c <= now
  /\ (c <> 0%nat -> is_Some (sv_attempts s !! h)).

Lemma evict_small now (a : gmap string attemptRecord) : (size a <= 256)%nat -> evict now a = a.
Proof. intros H. unfold evict. destruct (Z.ltb_spec 256 (Z.of_nat (size a))); [lia | done]. Qed.

Lemma size_dom_le (a : gmap string attemptRecord) (H : gset string) :
  dom a ⊆ H -> (size H <= 256)%nat -> (size a <= 256)%nat.
Proof. intros Hd Hs. rewrite <- size_dom. pose proof (subseteq_size _ _ Hd). lia. Qed.

Lemma tried_next h t0 now now' c s :
  (sv_attempts s !! h = None \/ exists rec, sv_attempts s !! h = Some rec /\ at_until rec <= now) ->
  tried h t0 now c s -> now <= now' -> Z.of_nat (S c) < 299999999 -> (size (sv_attempts s) <= 256)%nat ->
  tried h t0 now' (S c) (recordFailure h now' s).
Proof.
  intros Hopen (Hc & Hu & Ht & Hs) Hn Hb Hsz. unfold tried, recordFailure.
  cbn [sv_attempts with_attempts]. rewrite evict_small by done.
  set (rec := default (mkAttempt 0 zeroTime) (sv_attempts s !! h)) in *. rewrite lookup_insert_eq.
  change (default (mkAttempt 0 zeroTime) (Some (bump now' rec))) with (bump now' rec).
  assert (Hcount : at_count rec = Z.of_nat c) by by rewrite Hc.
  assert (Hlt : t0 + lockout_time (S c) <= now).
  { cbn [lockout_time]. destruct (Nat.leb_spec 5 c) as [H5|H5]; [| lia].
    specialize (Hu H5). cbn [lockout_time] in Hu. rewrite (proj2 (Nat.leb_le 5 c) H5) in Hu.
    destruct Hopen as [Hnone|(rec' & Hrec & Hle)].
    - destruct (Hs ltac:(lia)) as [? Hq]. by rewrite Hnone in Hq.
    - subst rec. rewrite Hrec in Hu. cbn in Hu. unfold id in Hu. lia. }
  unfold bump. rewrite Hcount. rewrite i64_id by (unfold in_i64, MinInt64, MaxInt64; lia).
  replace (Z.of_nat c + 1) with (Z.of_nat (S c)) by lia. cbn [at_count at_until].
  split; [done |]. split; [| split; [lia | by intros _; eexists]].
  intros H5. destruct (Z.leb_spec 5 (Z.of_nat (S c))); [| lia].
  change (lockout_time (S (S c))) with (lockout_time (S c) + (if (5 <=? S c)%nat then lockDelay (Z.of_nat (S c)) else 0)).
  rewrite (proj2 (Nat.leb_le 5 (S c)) H5). unfold Add. lia.
Qed.

Lemma tried_later h t0 now now' c s : now <= now' -> tried h t0 now c s -> tried h t0 now' c s.
Proof. intros Hn (H1 & H2 & H3 & H4). repeat split; auto. lia. Qed.

Lemma tried_lookup h t0 now c s s' :
  sv_attempts s' !! h = sv_attempts s !! h -> tried h t0 now c s -> tried h t0 now c s'.
Proof. unfold tried. by intros ->. Qed.

Lemma recordFailure_dom h now s (H : gset string) :
  h ∈ H -> dom (sv_attempts s) ⊆ H -> (size (sv_attempts s) <= 256)%nat ->
  dom (sv_attempts (recordFailure h now s)) ⊆ H.
Proof.
  intros Hh Hd Hs. unfold recordFailure. cbn [sv_attempts with_attempts]. rewrite evict_small by done.
  rewrite dom_insert. set_solver.
Qed.

Lemma throttled_open h now now' s :
  throttled h now now' s = None ->
  sv_attempts s !! h = None \/ exists rec, sv_attempts s !! h = Some rec /\ at_until rec <= now.
Proof.
  unfold throttled, Before. destruct (sv_attempts s !! h) as [rec|]; [| by left].
  destruct (Z.ltb_spec now (at_until rec)); [done |]. right. by exists rec.
Qed.

(** One login by one of at most 256 hosts: what it leaves of the attempts of
    [h], and whether it was a guess of [h]'s. *)
Lemma login_step x s h t0 now c (H : gset string) :
  tried h t0 now c s -> dom (sv_attempts s) ⊆ H -> (size H <= 256)%nat -> lg_host x ∈ H ->
  now <= ck_check (lg_ck x) <= ck_record (lg_ck x) -> Z.of_nat (S c) < 299999999 ->
  let '(a, s') := handleLogin decode (lg_rq x) (lg_ck x) s in
  (lg_host x = h -> an_Code a <> 200 /\ an_Code a <> 500) ->
  dom (sv_attempts s') ⊆ H
  /\ (tried h t0 (ck_record (lg_ck x)) (S c) s'
      \/ tried h t0 (ck_record (lg_ck x)) c s' /\ ~ (lg_host x = h /\ an_Code a = 401)).
Proof.
  intros Ht Hd Hs Hx [Hn1 Hn2] Hb. pose proof (size_dom_le _ _ Hd Hs) as Hsz.
  pose proof (handleLogin_cases x s) as Hcs. destruct (handleLogin decode _ _ s) as [a s1].
  intros Hok. destruct Hcs as [[Hcode ->] | [Hopen Hcs]].
  { split; [done |]. right. split; [eapply tried_later; [| done]; lia | intros [_ E]; lia]. }
  pose proof (recordFailure_dom _ (ck_record (lg_ck x)) _ _ Hx Hd Hsz) as Hd1.
  destruct (decide (lg_host x = h)) as [E|Hne].
  - rewrite E in *. destruct Hcs as [[_ Ha]|[Hcode _]]; [| naive_solver].
    rewrite Ha. split; [done |]. left. apply (tried_lookup _ _ _ _ (recordFailure h (ck_record (lg_ck x)) s)).
    { by rewrite Ha. }
    eapply (tried_next h t0 (ck_check (lg_ck x))); [| eapply tried_later; [| done] | | |]; [| lia..].
    by apply throttled_open in Hopen.
  - assert (Hlook : sv_attempts s1 !! h = sv_attempts s !! h /\ dom (sv_attempts s1) ⊆ H).
    { destruct Hcs as [[_ ->] | [_ ->]]; (split; [| set_solver]);
        rewrite ?lookup_delete_ne by done; unfold recordFailure; cbn [sv_attempts with_attempts];
        by rewrite lookup_insert_ne, evict_small. }
    destruct Hlook as [Hl Hd']. split; [done |]. right. split; [| naive_solver].
    apply (tried_lookup _ _ _ _ s); [done |]. eapply tried_later; [| done]. lia.
Qed.

Lemma guesses_bounded_from h (H : gset string) t0 t1 l : forall s now c,
  tried h t0 now c s -> dom (sv_attempts s) ⊆ H -> (size H <= 256)%nat ->
  in_order now l -> Forall (fun x => lg_host x ∈ H /\ ck_record (lg_ck x) <= t1) l -> now <= t1 ->
  Z.of_nat (c + length l) < 299999998 ->
  Forall (fun p => p.1 = h -> an_Code p.2 <> 200 /\ an_Code p.2 <> 500) (logins decode l s).1 ->
  lockout_time (c + guesses h (logins decode l s).1) <= t1 - t0.
Proof.
  induction l as [|x l IH]; intros s now c Ht Hd Hs Ho Hl Hn Hb Hok.
  { cbn. rewrite Nat.add_0_r. destruct Ht as (_ & _ & Ht & _). lia. }
  inversion_clear Hl as [|? ? [Hx Hr] Hl']. destruct Ho as [Hx1 Ho]. cbn [length] in Hb.
  pose proof (login_step x s h t0 now c H Ht Hd Hs Hx Hx1 ltac:(lia)) as Hstep.
  cbn [logins] in *. destruct (handleLogin decode _ _ s) as [a s1].
  destruct (logins decode l s1) as [out s2] eqn:El. cbn [fst] in *.
  inversion_clear Hok as [|? ? Hok1 Hok2]. destruct (Hstep Hok1) as [Hd1 Hcs].
  assert (Hg : forall c', tried h t0 (ck_record (lg_ck x)) c' s1 -> (c' <= S c)%nat ->
            lockout_time (c' + guesses h out) <= t1 - t0).
  { intros c' Ht' Hc'. specialize (IH s1 (ck_record (lg_ck x)) c' Ht' Hd1 Hs Ho Hl' Hr).
    rewrite El in IH. apply IH; [lia | done]. }
  unfold guesses in *. rewrite filter_cons. cbn [fst snd].
  destruct Hcs as [Ht1|[Ht1 Hno]].
  - specialize (Hg _ Ht1 ltac:(lia)). etrans; [| exact Hg]. apply lockout_time_mono.
    + destruct (decide _); cbn [length]; lia.
    + assert (Hlen : forall l' s', length (logins decode l' s').1 = length l').
      { clear. induction l' as [|y l' IH']; intros s'; [done |]. cbn [logins].
        destruct (handleLogin _ _ _ _) as [b s'']. specialize (IH' s'').
        destruct (logins decode l' s''). cbn in *. lia. }
      specialize (Hlen l s1). rewrite El in Hlen. cbn in Hlen.
      pose proof (length_filter (fun p : string * reply => p.1 = h /\ an_Code p.2 = 401) out). lia.
  - rewrite decide_False by done. apply (Hg c Ht1). lia.
Qed.

(** Guessing is slow.  From a server with no attempts on record, whatever
    the logins of at most 256 hosts, a host that has had [g] passwords checked
    and refused with none accepted has been at it for as long as the lockouts
    of the fifth to the last but one of them add up to: half a minute, a
    minute, and so on up to a quarter of an hour each. *)
Theorem guesses_bounded l s h (H : gset string) t0 t1 :
  sv_attempts s = ∅ -> in_order t0 l -> (size H <= 256)%nat ->
  Forall (fun x => lg_host x ∈ H /\ ck_record (lg_ck x) <= t1) l -> t0 <= t1 ->
  Z.of_nat (length l) < 299999998 ->
  Forall (fun p => p.1 = h -> an_Code p.2 <> 200 /\ an_Code p.2 <> 500) (logins decode l s).1 ->
  lockout_time (guesses h (logins decode l s).1) <= t1 - t0.
Proof.
  intros Hs Ho HH Hl Ht Hb Hok.
  apply (guesses_bounded_from h H t0 t1 l s t0 0); try done.
  - unfold tried. rewrite Hs, lookup_empty. repeat split; cbn; [intros; lia | lia | by intros []].
  - rewrite Hs, dom_empty_L. set_solver.
Qed.
End lockout.

(** The lockouts before the fifth, tenth and thirty-fourth guess; a day of them
    is less than a hundred and twenty guesses. *)
Example lockout_figures :
  lockout_time 5 = 0 /\ lockout_time 10 = 450 * Second
  /\ lockout_time 34 = 217 * 60 * Second + 30 * Second /\ 24 * Hour < lockout_time 120.
Proof. repeat split; vm_compute; reflexivity. Qed.

Definition no_login : bytes -> option loginRequest :=
  fun b => match b with [] => None | _ => Some (mkLoginRequest "admin" "wrong") end.
Definition sample_request : Request :=
  mkRequest "POST" "/api/login" "10.66.0.1:8080" "10.66.0.7:51234" "" "" "application/json" None [123].
Definition sample_login (t : Time) : login := mkLogin sample_request (mkClock t t t t []).
Definition fresh_server : Server := mkServer ∅ 0 (mkStore emptyDB []).

(** A host that guesses as fast as it is let: the fifth and sixth guess are
    half a minute apart, the sixth and seventh a minute. *)
Definition sample_guesses : list login := sample_login <$>
  [0; 1; 2; 3; 4; 5; 30 * Second + 4; 30 * Second + 5; 90 * Second + 4].

Lemma CheckPassword_unknown user password st :
  db_users (st_db st) !! user = None -> st_faults st = [] -> CheckPassword user password st = (false, st).
Proof.
  intros Hn Hf. unfold CheckPassword, credentials. rewrite query_ok by done. rewrite Hn. reflexivity.
Qed.

(** Logins to accounts that do not exist, without their hashes. *)
Fixpoint refusals (l : list login) (s : Server) : list Z * Server :=
  match l with
  | [] => ([], s)
  | x :: l =>
      match throttled (lg_host x) (ck_check (lg_ck x)) (ck_check (lg_ck x)) s with
      | Some _ => let '(out, s) := refusals l s in (429 :: out, s)
      | None => let '(out, s) := refusals l (recordFailure (lg_host x) (ck_record (lg_ck x)) s) in (401 :: out, s)
      end
  end.

Lemma logins_refusals decode l : forall s,
  sv_loginSem s = 0%nat -> st_faults (sv_st s) = [] ->
  Forall (fun x => exists req, decode (rq_Body (lg_rq x)) = Some req
    /\ db_users (st_db (sv_st s)) !! lr_Username req = None) l ->
  (an_Code ∘ snd <$> (logins decode l s).1) = (refusals l s).1.
Proof.
  induction l as [|x l IH]; intros s Hs Hf Hl; [done |].
  inversion_clear Hl as [|? ? (req & Hd & Hu) Hl']. cbn [logins refusals]. unfold handleLogin. fold (lg_host x).
  destruct (throttled _ _ _ s).
  - specialize (IH s Hs Hf Hl'). destruct (logins decode l s), (refusals l s). cbn in *. by rewrite IH.
  - rewrite Hd. set (s1 := recordFailure _ _ s).
    assert (acquire s1 = Some (with_sem 1 s1)) as ->.
    { unfold acquire. replace (sv_loginSem s1) with 0%nat by (symmetry; exact Hs). reflexivity. }
    unfold check_password. change (sv_st (with_sem 1 s1)) with (sv_st s). rewrite CheckPassword_unknown by done.
    replace (release (with_st (sv_st s) (with_sem 1 s1))) with s1
      by (unfold release, with_sem, with_st, s1, recordFailure, with_attempts; cbn; by rewrite Hs).
    specialize (IH s1 Hs Hf Hl'). destruct (logins decode l s1), (refusals l s1). cbn in *. by rewrite IH.
Qed.

Lemma sample_guesses_answers :
  (an_Code ∘ snd <$> (logins no_login sample_guesses fresh_server).1)
  = [401; 401; 401; 401; 401; 429; 401; 429; 401].
Proof.
  rewrite logins_refusals; [vm_compute; reflexivity | done | done |].
  repeat (constructor; [by exists (mkLoginRequest "admin" "wrong") |]). constructor.
Qed.

Lemma guesses_bounded_witness :
  lockout_time (guesses "10.66.0.7" (logins no_login sample_guesses fresh_server).1) <= 90 * Second + 4 - 0
  /\ lockout_time 7 = 90 * Second.
Proof.
  split; [| vm_compute; reflexivity].
  apply (guesses_bounded no_login sample_guesses fresh_server "10.66.0.7" {["10.66.0.7"]} 0 (90 * Second + 4)).
  - reflexivity.
  - cbn. unfold Second. lia.
  - rewrite size_singleton. lia.
  - repeat (constructor; [split; [change (lg_host _) with "10.66.0.7"; set_solver | cbn; unfold Second; lia] |]).
    constructor.
  - unfold Second. lia.
  - cbn. lia.
  - assert (E : Forall (fun c => c <> 200 /\ c <> 500)
      (an_Code ∘ snd <$> (logins no_login sample_guesses fresh_server).1)).
    { rewrite sample_guesses_answers. repeat (constructor; [lia |]). constructor. }
    rewrite Forall_fmap in E. eapply Forall_impl; [exact E |]. intros p Hp _. exact Hp.
Defined.

Lemma lockout_holds_witness :
  let s := mkServer {["10.66.0.7" := mkAttempt 5 (30 * Second)]} 0 (mkStore emptyDB []) in
  Forall (fun p => p.1 = "10.66.0.7" -> p.2 = tooMany)
    (logins no_login [sample_login 3; sample_login (29 * Second)] s).1
  /\ sv_attempts (logins no_login [sample_login 3; sample_login (29 * Second)] s).2 !! "10.66.0.7"
     = Some (mkAttempt 5 (30 * Second)).
Proof.
  apply (lockout_holds no_login _ _ "10.66.0.7" (mkAttempt 5 (30 * Second))); [reflexivity |].
  repeat (constructor; [cbn; unfold Second; lia |]). constructor.
Defined.

(** With more than 256 hosts on record, the eviction also takes the count of a
    host that never reached a lockout: its [until] is the zero time, long past. *)
Theorem eviction_forgets h now s rec :
  (256 < size (sv_attempts s))%nat -> sv_attempts s !! h = Some rec -> at_until rec = zeroTime ->
  Hour < now ->
  sv_attempts (recordFailure h now s) !! h = Some (mkAttempt 1 zeroTime).
Proof.
  intros Hsz Hr Hu Hn. unfold recordFailure. cbn [sv_attempts with_attempts]. rewrite lookup_insert_eq.
  assert (evict now (sv_attempts s) !! h = None) as ->; [| reflexivity].
  unfold evict. destruct (Z.ltb_spec 256 (Z.of_nat (size (sv_attempts s)))); [| lia].
  apply map_lookup_filter_None. right. intros x Hx. rewrite Hr in Hx. injection Hx as <-.
  cbn [snd]. unfold Before, Add, zeroTime, Hour in *. rewrite Hu. rewrite (proj2 (Z.ltb_lt _ _)) by lia. done.
Qed.

(** ** Logins that overlap *)

Module Concurrent.

(** Where a login stands: past the lockout check and waiting for its body;
    holding a slot, its password being hashed. *)
Inductive thread := Waiting (host : string) | Hashing (host : string) (req : loginRequest).

Record state := mkState {
  c_sv : Server;
  c_threads : gmap nat thread;
  c_now : Time;
  c_checked : list (string * Time * bool) }.   (* the hosts whose password was looked at *)

Inductive step (decode : bytes -> option loginRequest) : state -> state -> Prop :=
| step_admit σ id host :
    c_threads σ !! id = None -> throttled host (c_now σ) (c_now σ) (c_sv σ) = None ->
    step decode σ (mkState (c_sv σ) (<[id := Waiting host]> (c_threads σ)) (c_now σ) (c_checked σ))
| step_bad_body σ id host body :
    c_threads σ !! id = Some (Waiting host) -> decode body = None ->
    step decode σ (mkState (c_sv σ) (delete id (c_threads σ)) (c_now σ) (c_checked σ))
| step_no_slot σ id host body req :
    c_threads σ !! id = Some (Waiting host) -> decode body = Some req ->
    acquire (recordFailure host (c_now σ) (c_sv σ)) = None ->
    step decode σ (mkState (recordFailure host (c_now σ) (c_sv σ)) (delete id (c_threads σ))
                     (c_now σ) (c_checked σ))
| step_slot σ id host body req sv :
    c_threads σ !! id = Some (Waiting host) -> decode body = Some req ->
    acquire (recordFailure host (c_now σ) (c_sv σ)) = Some sv ->
    step decode σ (mkState sv (<[id := Hashing host req]> (c_threads σ)) (c_now σ) (c_checked σ))
| step_refuse σ id host req sv :
    c_threads σ !! id = Some (Hashing host req) -> check_password req (c_sv σ) = (false, sv) ->
    step decode σ (mkState (release sv) (delete id (c_threads σ)) (c_now σ)
                     (c_checked σ ++ [(host, c_now σ, false)]))
| step_accept σ id host req ck sv :
    c_threads σ !! id = Some (Hashing host req) -> check_password req (c_sv σ) = (true, sv) ->
    step decode σ (mkState (grant_session host req ck (release sv)).2 (delete id (c_threads σ)) (c_now σ)
                     (c_checked σ ++ [(host, c_now σ, true)]))
| step_tick σ t :
    c_now σ <= t -> step decode σ (mkState (c_sv σ) (c_threads σ) t (c_checked σ)).

Definition idle (st : Store) (now : Time) : state := mkState (mkServer ∅ 0 st) ∅ now [].

Definition is_hashing (th : thread) : bool := match th with Hashing _ _ => true | _ => false end.
Definition hashing (m : gmap nat thread) : nat := size (filter (fun kv => is_hashing kv.2 = true) m).

Lemma hashing_insert m id th :
  m !! id = None -> hashing (<[id := th]> m) = (hashing m + if is_hashing th then 1 else 0)%nat.
Proof.
  intros Hn. unfold hashing. rewrite map_filter_insert. cbn [snd]. destruct (is_hashing th) eqn:E.
  - rewrite decide_True by done. rewrite map_size_insert_None; [lia |].
    rewrite map_lookup_filter_None. by left.
  - rewrite decide_False by done. rewrite delete_id by done. lia.
Qed.

Lemma hashing_delete m id th :
  m !! id = Some th -> hashing (delete id m) = (hashing m - if is_hashing th then 1 else 0)%nat
    /\ (is_hashing th = true -> (0 < hashing m)%nat).
Proof.
  intros Hs. rewrite <- (insert_delete_id m id th Hs). rewrite delete_insert_eq, delete_id by apply lookup_delete_eq.
  rewrite hashing_insert by apply lookup_delete_eq. destruct (is_hashing th); lia.
Qed.

(** However logins overlap, the slots in use are the passwords being
    hashed, and there are never more than two. *)
Theorem hashes_bounded decode st now σ :
  rtc (step decode) (idle st now) σ ->
  sv_loginSem (c_sv σ) = hashing (c_threads σ) /\ (hashing (c_threads σ) <= maxConcurrentLogins)%nat.
Proof.
  intros Hr.
  enough (sv_loginSem (c_sv σ) = hashing (c_threads σ) /\ (sv_loginSem (c_sv σ) <= maxConcurrentLogins)%nat) by lia.
  revert Hr. apply (rtc_ind_r (fun σ => sv_loginSem (c_sv σ) = hashing (c_threads σ)
                                 /\ (sv_loginSem (c_sv σ) <= maxConcurrentLogins)%nat)).
  { unfold hashing, maxConcurrentLogins. cbn. rewrite map_filter_empty. by split; [| lia]. }
  clear σ. intros σ σ' _ Hs [IH1 IH2]. unfold maxConcurrentLogins in *.
  destruct Hs as [σ id host Hid _ | σ id host body Hid _ | σ id host body req Hid _ _
    | σ id host body req sv Hid _ Ha | σ id host req sv Hid Hc | σ id host req ck sv Hid Hc | σ t _];
    cbn [c_sv c_threads sv_loginSem recordFailure with_attempts].
  - rewrite hashing_insert by done. cbn. lia.
  - destruct (hashing_delete _ _ _ Hid) as [-> _]. cbn. lia.
  - destruct (hashing_delete _ _ _ Hid) as [-> _]. cbn. lia.
  - unfold acquire in Ha. destruct (Nat.ltb_spec (sv_loginSem (recordFailure host (c_now σ) (c_sv σ)))
      maxConcurrentLogins) as [Hl|]; [| done].
    injection Ha as <-. cbn [sv_loginSem with_sem]. cbn [sv_loginSem recordFailure with_attempts] in Hl.
    rewrite <- insert_delete_eq, hashing_insert by apply lookup_delete_eq.
    destruct (hashing_delete _ _ _ Hid) as [-> _]. cbn. unfold maxConcurrentLogins in Hl. lia.
  - unfold check_password in Hc. destruct (CheckPassword _ _ _) as [b st']. injection Hc as -> <-.
    destruct (hashing_delete _ _ _ Hid) as [-> Hp]. cbn in *. specialize (Hp eq_refl). lia.
  - unfold check_password in Hc. destruct (CheckPassword _ _ _) as [b st']. injection Hc as -> <-.
    destruct (hashing_delete _ _ _ Hid) as [-> Hp]. unfold grant_session.
    destruct (NewSession _ _ _ _ _) as [[?|?] ?]; cbn in *; specialize (Hp eq_refl); lia.
  - done.
Qed.

Definition checks (host : string) (now : Time) (log : list (string * Time * bool)) : nat :=
  length (filter (fun g => g = (host, now, false)) log).

(** The lockout is read before the body arrives and the attempt counted after:
    any number of logins that were let past the check together are all hashed,
    whatever the count has become. *)
Definition burst_state (decode : bytes -> option loginRequest) st now host n (σ : state) : Prop :=
  rtc (step decode) (idle st now) σ /\ c_now σ = now
  /\ checks host now (c_checked σ) = n.

Fixpoint waiting (host : string) (n : nat) : gmap nat thread :=
  match n with O => ∅ | S n => <[n := Waiting host]> (waiting host n) end.

Lemma waiting_lookup host n : forall i, (n <= i)%nat -> waiting host n !! i = None.
Proof.
  induction n as [|n IH]; intros i Hi; [done |]. cbn [waiting].
  rewrite lookup_insert_ne by lia. apply IH. lia.
Qed.

Lemma all_admitted decode st now host n :
  rtc (step decode) (idle st now) (mkState (mkServer ∅ 0 st) (waiting host n) now []).
Proof.
  induction n as [|n IH]; [constructor |]. eapply rtc_r; [exact IH |].
  exact (step_admit decode (mkState (mkServer ∅ 0 st) (waiting host n) now []) n host
    (waiting_lookup host n n ltac:(lia)) eq_refl).
Qed.

Theorem lockout_burst decode body req st now host n :
  decode body = Some req -> db_users (st_db st) !! lr_Username req = None -> st_faults st = [] ->
  exists σ, burst_state decode st now host n σ.
Proof.
  intros Hd Hu Hf.
  enough (H : forall k m sv log, sv_loginSem sv = 0%nat -> sv_st sv = st ->
    exists sv' log', rtc (step decode) (mkState sv (waiting host (k + m)) now log)
                   (mkState sv' (waiting host m) now log')
      /\ checks host now log' = (k + checks host now log)%nat).
  { destruct (H n 0%nat (mkServer ∅ 0 st) [] eq_refl eq_refl) as (sv & log & Hr & Hl).
    rewrite Nat.add_0_r in Hr. exists (mkState sv (waiting host 0) now log). split; [| split; [done |]].
    - etrans; [apply all_admitted | exact Hr].
    - cbn [c_checked]. rewrite Hl. unfold checks. cbn. lia. }
  induction k as [|k IH]; intros m sv log Hs Hst; [by exists sv, log |].
  set (s1 := recordFailure host now sv).
  assert (Hs1 : acquire s1 = Some (with_sem 1 s1)).
  { unfold acquire. replace (sv_loginSem s1) with 0%nat by (symmetry; exact Hs). reflexivity. }
  assert (Hck : check_password req (with_sem 1 s1) = (false, with_sem 1 s1)).
  { unfold check_password. replace (sv_st (with_sem 1 s1)) with st by (symmetry; exact Hst).
    rewrite CheckPassword_unknown by done. unfold with_st, with_sem, s1, recordFailure, with_attempts.
    cbn. by rewrite Hst. }
  destruct (IH m (release (with_sem 1 s1)) (log ++ [(host, now, false)])) as (sv' & log' & Hr & Hl);
    [reflexivity | exact Hst |].
  exists sv', log'. split.
  - eapply rtc_l.
    { apply (step_slot decode (mkState sv (waiting host (S k + m)) now log) (k + m) host body req (with_sem 1 s1));
        [cbn; by rewrite lookup_insert_eq | done | exact Hs1]. }
    eapply rtc_l.
    { apply (step_refuse decode _ (k + m) host req (with_sem 1 s1)); cbn [c_threads c_sv];
        [by rewrite lookup_insert_eq | exact Hck]. }
    cbn [c_threads c_now c_checked Nat.add waiting].
    rewrite delete_insert_eq, delete_insert_id by (apply waiting_lookup; lia). exact Hr.
  - rewrite Hl. unfold checks. rewrite filter_app, length_app, filter_cons_True by done. cbn. lia.
Qed.
End Concurrent.

(** ** Looking a session up *)

(** The request carries the cookie of a session still running. *)
Definition signed_in (rq : Request) (now : Time) (s : Server) (user : string) : Prop :=
  exists token expires, rq_Cookie rq = Some token
    /\ db_sessions (st_db (sv_st s)) !! token = Some (user, expires) /\ Unix now <= expires.

(** The store after a session was looked up: as it was, but for the presented
    session if it had run out. *)
Definition looked_up (rq : Request) (now : Time) (s s' : Server) : Prop :=
  sv_attempts s' = sv_attempts s
  /\ (st_db (sv_st s') = st_db (sv_st s)
      \/ exists token user expires, rq_Cookie rq = Some token
           /\ db_sessions (st_db (sv_st s)) !! token = Some (user, expires) /\ expires < Unix now
           /\ st_db (sv_st s') = set_sessions (delete token (db_sessions (st_db (sv_st s)))) (st_db (sv_st s))).

Lemma query_same {A} (f : DB -> A) st :
  st_db (query f st).2 = st_db st
  /\ ((query f st).1 = Ok (f (st_db st)) \/ exists e, (query f st).1 = Err e).
Proof.
  unfold query, sbind. pose proof (call_db st) as Hc. destruct (call st) as [[[]|e] st']; cbn in *.
  - rewrite Hc. auto.
  - split; [done | right; by eexists].
Qed.

Lemma sessionUser_cases rq now s :
  looked_up rq now s (sessionUser rq now s).2
  /\ forall user, (sessionUser rq now s).1 = Some user ->
       signed_in rq now s user /\ st_db (sv_st (sessionUser rq now s).2) = st_db (sv_st s).
Proof.
  unfold sessionUser, looked_up. destruct (rq_Cookie rq) as [token|] eqn:Ec; [| by split; [auto | done]].
  unfold Session. destruct (query_same (fun d => db_sessions d !! token) (sv_st s)) as [Hd Hq].
  destruct (query _ (sv_st s)) as [r st]. cbn [fst snd] in *.
  destruct Hq as [-> | [e ->]]; [| cbn; split; [by split; [| left] | done]].
  destruct (db_sessions (st_db (sv_st s)) !! token) as [[user expires]|] eqn:Es;
    [| cbn; split; [by split; [| left] | done]].
  destruct (Z.ltb_spec expires (Unix now)) as [Hlt|Hge]; cbn.
  - split; [| done]. split; [done |].
    destruct (exec_cases (fun d => set_sessions (delete token (db_sessions d)) d) st) as [(e & _ & E)|[_ E]];
      unfold DeleteSession; rewrite E, Hd; [by left | right]. by exists token, user, expires.
  - split; [by split; [| left] |]. intros ? [= <-]. split; [| done]. by exists token, expires.
Qed.

(** ** Who gets through the door *)

Section door.
Context (url_parse : string -> option (string * string)).
Context `{CaseFold} `{Unicode}.

(** Nothing about the request says it was sent by another site's page. *)
Definition same_site (rq : Request) : Prop :=
  rq_SecFetchSite rq ∈ [""; "same-origin"; "none"]%string
  /\ (rq_Origin rq = ""%string
      \/ rq_Origin rq <> "null"%string
         /\ exists scheme host, url_parse (rq_Origin rq) = Some (scheme, host)
                           /\ EqualFold host (rq_Host rq) = true)
  /\ Forall (fun form => String.prefix form (ToLower (rq_ContentType rq)) = false) form_types.

Lemma crossSite_false rq : crossSite url_parse rq = false <-> same_site rq.
Proof.
  unfold crossSite, same_site.
  assert (Hsite : (negb (String.eqb (rq_SecFetchSite rq) "") && negb (String.eqb (rq_SecFetchSite rq) "same-origin")
      && negb (String.eqb (rq_SecFetchSite rq) "none") = false)%string
      <-> rq_SecFetchSite rq ∈ [""; "same-origin"; "none"]%string).
  { rewrite !andb_false_iff, !negb_false_iff, !String.eqb_eq, !elem_of_cons, elem_of_nil. tauto. }
  assert (Hforms : existsb (fun form => String.prefix form (ToLower (rq_ContentType rq))) form_types = false
      <-> Forall (fun form => String.prefix form (ToLower (rq_ContentType rq)) = false) form_types).
  { generalize form_types. intros l. induction l as [|f l IH]; [done |]. cbn [existsb].
    by rewrite orb_false_iff, Forall_cons, IH. }
  rewrite <- Hsite, <- Hforms.
  destruct (_ && _ && _)%bool; [naive_solver |].
  destruct (String.eqb_spec (rq_Origin rq) "") as [E|E]; [naive_solver |]. cbn [negb andb].
  destruct (String.eqb_spec (rq_Origin rq) "null") as [E'|E']; [naive_solver |]. cbn [orb].
  destruct (url_parse (rq_Origin rq)) as [[scheme host]|]; [| naive_solver].
  destruct (EqualFold host (rq_Host rq)) eqn:Ef; cbn [negb]; naive_solver.
Qed.

Lemma requireAuth_pass rq now s s' :
  requireAuth url_parse false rq now s = (None, s') ->
  (exists user, signed_in rq now s user) /\ st_db (sv_st s') = st_db (sv_st s)
  /\ (rq_Method rq <> "GET"%string -> rq_Method rq <> "HEAD"%string -> same_site rq).
Proof.
  unfold requireAuth. destruct (sessionUser_cases rq now s) as [_ Hu].
  destruct (sessionUser rq now s) as [[user|] s1]; [| done]. cbn [fst snd] in Hu.
  destruct (Hu user eq_refl) as [Hin Hd].
  destruct (String.eqb_spec (rq_Method rq) "GET") as [E|E]; cbn [negb andb].
  { intros [= <-]. split; [by exists user |]. done. }
  destruct (String.eqb_spec (rq_Method rq) "HEAD") as [E'|E']; cbn [negb andb].
  { intros [= <-]. split; [by exists user |]. done. }
  destruct (crossSite url_parse rq) eqn:Ex; [done |]. intros [= <-].
  split; [by exists user |]. split; [done |]. intros _ _. by apply crossSite_false.
Qed.

(** A handler that changes state is registered for [POST] or [PUT] alone. *)
Lemma dispatch_changes method path h :
  dispatch method path = Api h -> changes_state h = true ->
  method <> "GET"%string /\ method <> "HEAD"%string.
Proof.
  intros Hd Hc. assert (Hm : method = "POST"%string \/ method = "PUT"%string).
  2: { destruct Hm as [-> | ->]; split; discriminate. }
  unfold dispatch, routes in Hd. revert Hd. cbn [dispatch_in].
  assert (E : forall m, m <> "GET"%string -> method_matches m method = String.eqb m method).
  { intros m Hm. unfold method_matches. apply String.eqb_neq in Hm. by rewrite Hm, orb_false_r. }
  rewrite !(E "POST"%string), !(E "PUT"%string) by discriminate.
  destruct (String.eqb_spec "POST" method) as [<-|]; [by left |].
  destruct (String.eqb_spec "PUT" method) as [<-|]; [by right |]. cbn [andb].
  repeat split_if; intros [= <-]; discriminate Hc.
Qed.

(** [C10] No request changes the frontend's state through the portal unless it
    carries a running session and nothing about it says it came from another
    site: every handler that changes state runs for such requests only.  A
    request that is turned away changes nothing but drops its own expired
    session. *)
Theorem portal_gate rq now s v s' :
  serve url_parse false rq now s = (v, s') ->
  (forall h, v = Run (Api h) ->
     (exists user, signed_in rq now s user) /\ st_db (sv_st s') = st_db (sv_st s)
     /\ (changes_state h = true -> same_site rq))
  /\ looked_up rq now s s'.
Proof.
  intros Hs. destruct (sessionUser_cases rq now s) as [Hlook _].
  assert (Hauth : forall r s1, requireAuth url_parse false rq now s = (r, s1) -> looked_up rq now s s1).
  { unfold requireAuth. destruct (sessionUser rq now s) as [[user|] s2]; cbn [snd] in Hlook; [| by intros ? ? [= <- <-]].
    intros r s1. split_if; by intros [= <- <-]. }
  assert (Hself : looked_up rq now s s) by (split; [done | by left]).
  unfold serve in Hs. destruct (dispatch (rq_Method rq) (rq_Path rq)) as [| |h|] eqn:Ed.
  - injection Hs as <- <-. by split.
  - injection Hs as <- <-. by split.
  - destruct (requireAuth url_parse false rq now s) as [[a|] s1] eqn:Ea; injection Hs as <- <-.
    + split; [done |]. by eapply Hauth.
    + split; [| by eapply Hauth]. intros h' [= <-].
      destruct (requireAuth_pass _ _ _ _ Ea) as (Hin & Hd & Hsame). split_and!; [done.. |].
      intros Hc. destruct (dispatch_changes _ _ _ Ed Hc). by apply Hsame.
  - split_if_in Hs.
    + destruct (sessionUser rq now s) as [[user|] s1]; injection Hs as <- <-; by split.
    + injection Hs as <- <-. by split.
Qed.

End door.

(** ** What a password change leaves *)

Lemma CheckPassword_store user password st :
  st_faults st = [] -> (CheckPassword user password st).2 = st.
Proof.
  intros Hf. unfold CheckPassword, credentials. rewrite query_ok by done. by repeat case_match; simplify_eq.
Qed.

Lemma sessionUser_store rq now s user s' :
  st_faults (sv_st s) = [] -> sessionUser rq now s = (Some user, s') -> s' = s /\ signed_in rq now s user.
Proof.
  intros Hf E. destruct (sessionUser_cases rq now s) as [_ Hu]. rewrite E in Hu.
  destruct (Hu user eq_refl) as [Hin _]. split; [| done]. revert E. unfold sessionUser, Session.
  destruct (rq_Cookie rq) as [token|]; [| done]. rewrite query_ok by done. cbn [fst snd].
  destruct (db_sessions _ !! token) as [[u e]|]; [| done]. split_if; [done |]. intros [= <- <-]. by destruct s.
Qed.

Section password.
Context (decode_password : bytes -> option passwordRequest).

(** The account a password change is for: the one named over the trusted
    socket, else the session's own, whose current password was given. *)
Definition changes_account (trusted : bool) (rq : Request) (req : passwordRequest) (now : Time) (s : Server)
    (account : string) : Prop :=
  exists name, account = (if String.eqb name "" then defaultAdminUser else name)
    /\ if trusted then name = TrimSpace (pr_Username req)
       else signed_in rq now s name /\ (CheckPassword name (pr_Current req) (sv_st s)).1 = true.

Lemma password_caller_ok trusted rq req now s :
  st_faults (sv_st s) = [] ->
  let '(who, s1) := password_caller trusted rq req now s in
  match who with
  | inl r => an_Code r <> 200 /\ db_users (st_db (sv_st s1)) = db_users (st_db (sv_st s))
  | inr name => s1 = s
      /\ changes_account trusted rq req now s (if String.eqb name "" then defaultAdminUser else name)
  end.
Proof.
  intros Hf. unfold password_caller. destruct trusted.
  { split; [done |]. by exists (TrimSpace (pr_Username req)). }
  pose proof (proj1 (sessionUser_cases rq now s)) as [_ Hl].
  destruct (sessionUser rq now s) as [[user|] s2] eqn:Eu.
  - destruct (sessionUser_store _ _ _ _ _ Hf Eu) as [-> Hin].
    pose proof (CheckPassword_store user (pr_Current req) (sv_st s) Hf) as Hst.
    destruct (CheckPassword user (pr_Current req) (sv_st s)) as [ok st] eqn:Ec. cbn in Hst. subst st.
    assert (with_st (sv_st s) s = s) as -> by by destruct s.
    destruct ok; [| done]. split; [done |]. exists user. split; [done |]. by rewrite Ec.
  - split; [done |]. cbn [snd] in Hl. destruct Hl as [-> | (? & ? & ? & _ & _ & _ & ->)]; done.
Qed.

(** Changing a password ends every session of the account.  When the
    change is answered 200 the request was entitled to it, the account opens
    with exactly the new password and every other as before, and of the
    sessions there were only those of other accounts remain, besides the new
    one a portal caller is given; any other reply leaves the accounts as they
    were. *)
Theorem password_change_revokes trusted rq now salt ck s a s' :
  handlePassword decode_password trusted rq now salt ck s = (a, s') ->
  st_faults (sv_st s) = [] -> db_sessions (st_db (sv_st s)) !! hex_string (ck_rand ck) = None ->
  (an_Code a <> 200 -> db_users (st_db (sv_st s')) = db_users (st_db (sv_st s)))
  /\ (an_Code a = 200 -> exists req account,
        decode_password (rq_Body rq) = Some req /\ (minPasswordLen <= String.length (pr_New req))%nat
        /\ changes_account trusted rq req now s account
        /\ (all_bytes salt -> forall offered, (CheckPassword account offered (sv_st s')).1 = true
              <-> derive offered salt = derive (pr_New req) salt)
        /\ (forall other, other <> account ->
              db_users (st_db (sv_st s')) !! other = db_users (st_db (sv_st s)) !! other)
        /\ (forall token user expires, db_sessions (st_db (sv_st s')) !! token = Some (user, expires) <->
              (trusted = false /\ token = hex_string (ck_rand ck) /\ user = account
                 /\ expires = Unix (Add (ck_session ck) sessionTTL))
              \/ (user <> account /\ db_sessions (st_db (sv_st s)) !! token = Some (user, expires)))).
Proof.
  intros E Hf Hfresh. unfold handlePassword in E.
  destruct (decode_password (rq_Body rq)) as [req|]; [| by injection E as <- <-].
  destruct (Nat.ltb_spec (String.length (pr_New req)) minPasswordLen) as [|Hlen]; [by injection E as <- <- |].
  pose proof (password_caller_ok trusted rq req now s Hf) as Hs1.
  destruct (password_caller trusted rq req now s) as [who s1].
  destruct who as [r|name]; [injection E as <- <-; by destruct Hs1 |].
  destruct Hs1 as [-> Hacc]. set (account := if String.eqb name "" then defaultAdminUser else name) in *.
  set (row := (hex_string salt, hex_string (derive (pr_New req) salt))).
  set (d1 := set_users (<[account := row]> (db_users (st_db (sv_st s)))) (st_db (sv_st s))).
  assert (Hcreate : CreateUser account (pr_New req) salt (sv_st s) = (Ok tt, mkStore d1 [])) by by apply exec_ok.
  set (kept := filter (fun kv => kv.2.1 <> account) (db_sessions (st_db (sv_st s)))).
  assert (Hdel : DeleteSessionsFor account (mkStore d1 []) = (Ok tt, mkStore (set_sessions kept d1) [])).
  { unfold DeleteSessionsFor. rewrite exec_ok by done. reflexivity. }
  rewrite Hcreate, Hdel in E. cbn [fst snd] in E.
  assert (Hkept : forall token user expires, kept !! token = Some (user, expires)
            <-> user <> account /\ db_sessions (st_db (sv_st s)) !! token = Some (user, expires)).
  { intros. unfold kept. rewrite map_lookup_filter_Some. cbn. tauto. }
  assert (Hnone : kept !! hex_string (ck_rand ck) = None).
  { unfold kept. apply map_lookup_filter_None. by left. }
  assert (Hend : an_Code a = 200 /\ exists sessions, sv_st s' = mkStore (set_sessions sessions d1) []
     /\ sessions = if trusted then kept
                   else <[hex_string (ck_rand ck) := (account, Unix (Add (ck_session ck) sessionTTL))]> kept).
  { destruct trusted; [injection E as <- <-; split; [done |]; by eexists |].
    unfold NewSession in E. rewrite (sbind_ok _ _ _ tt (mkStore (set_sessions kept d1) [])) in E by done.
    cbn [st_db set_sessions db_sessions] in E. rewrite Hnone in E. injection E as <- <-.
    split; [done |]. by eexists. }
  destruct Hend as [Hcode (sessions & Hst & Hsess)]. split; [done |]. intros _. exists req, account.
  split_and!; [done | done | done | | |].
  - intros Hsalt offered. rewrite Hst, CheckPassword_credentials. unfold credentials.
    rewrite query_ok by done. cbn [st_db db_users set_sessions d1 set_users]. rewrite lookup_insert_eq.
    unfold row. rewrite (unhex_hex salt Hsalt), (unhex_hex _ (derive_bytes (pr_New req) salt)). cbn [fst]. apply bytes_eqb_eq.
  - intros other Hne. rewrite Hst. cbn. by rewrite lookup_insert_ne.
  - intros token user expires. rewrite Hst. cbn [st_db set_sessions db_sessions]. rewrite Hsess. destruct trusted.
    + rewrite Hkept. naive_solver.
    + destruct (decide (token = hex_string (ck_rand ck))) as [->|Hne].
      * rewrite lookup_insert_eq, Hfresh. naive_solver.
      * rewrite lookup_insert_ne, Hkept by done. naive_solver.
Qed.
End password.

Definition no_url : string -> option (string * string) := fun _ => None.
Definition sample_password : bytes -> option passwordRequest :=
  fun _ => Some (mkPasswordRequest "" "" "correct horse").
Definition signed_in_server : Server :=
  mkServer ∅ 0 (mkStore (set_sessions {["a1" := ("admin", 5000000000); "b2" := ("guest", 5000000000)]} emptyDB) []).

(** A reset over the local socket: the administrator's sessions end, the
    guest's goes on. *)
Lemma password_change_revokes_witness :
  let s' := (handlePassword sample_password true sample_request (UnixTime 1700000000) [1; 2; 3]
               (mkClock 0 0 0 0 [7]) signed_in_server).2 in
  db_sessions (st_db (sv_st s')) !! "a1"%string <> Some ("admin"%string, 5000000000)
  /\ db_sessions (st_db (sv_st s')) !! "b2"%string = Some ("guest"%string, 5000000000).
Proof.
  destruct (password_change_revokes sample_password true sample_request (UnixTime 1700000000) [1; 2; 3]
    (mkClock 0 0 0 0 [7]) signed_in_server _ _ (surjective_pairing _) eq_refl eq_refl) as [_ H].
  destruct (H eq_refl) as (req & account & Hr & _ & Ha & _ & _ & Hs). injection Hr as <-.
  destruct Ha as (name & -> & ->). change (if String.eqb _ "" then _ else _) with "admin" in Hs. split.
  - intros [[Hf _]|[Hne _]]%Hs; [discriminate Hf | by destruct Hne].
  - apply Hs. right. split; [discriminate | reflexivity].
Defined.

(** A signed-in page's save runs; the same request sent by a form of another
    site is refused. *)
Definition save_request (site type : string) : Request :=
  mkRequest "PUT" "/api/config" "10.66.0.1:8080" "10.66.0.7:51234" site "" type (Some "a1"%string) [123].

Lemma portal_gate_witness :
  (serve no_url (H := AsciiFold) (H0 := AsciiUnicode) false (save_request "same-origin" "application/json")
     (UnixTime 1700000000) signed_in_server).1 = Run (Api HPutConfig)
  /\ (serve no_url (H := AsciiFold) (H0 := AsciiUnicode) false (save_request "" "text/plain;charset=utf-8")
        (UnixTime 1700000000) signed_in_server).1 = Answered (writeJSON 403 "cross-site request refused")
  /\ @same_site no_url AsciiFold AsciiUnicode (save_request "same-origin" "application/json").
Proof.
  assert (E : (serve no_url (H := AsciiFold) (H0 := AsciiUnicode) false
    (save_request "same-origin" "application/json") (UnixTime 1700000000) signed_in_server).1 = Run (Api HPutConfig))
    by (vm_compute; reflexivity).
  split; [exact E |]. split; [vm_compute; reflexivity |].
  destruct (@portal_gate no_url AsciiFold AsciiUnicode (save_request "same-origin" "application/json")
    (UnixTime 1700000000) signed_in_server _ _ (surjective_pairing _)) as [H _].
  destruct (H HPutConfig E) as (_ & _ & Hsame). exact (Hsame eq_refl).
Defined.

(** Started with no account, the first run makes exactly one. *)
Lemma EnsureAdmin_once username b salt st :
  st_faults st = [] ->
  EnsureAdmin username b salt st =
  if bool_decide (db_users (st_db st) = ∅)
  then (Ok (hex_string b), (CreateUser username (hex_string b) salt st).2)
  else (Ok ""%string, st).
Proof.
  intros Hf. unfold EnsureAdmin, HasUsers. unfold sbind at 1. rewrite query_ok by done.
  destruct (bool_decide _); cbn [negb]; [| done].
  unfold CreateUser. rewrite exec_ok by done. unfold sbind. by rewrite exec_ok.
Qed.
