(* ===== verification/ProbeRules.v ===== *)
(** * The rules of the probes ([internal/sysx/route.go])

    What [EnsureProbeRoutes] and [RemoveProbeRoutes] of [Rules] do to a
    kernel's policy database: which rules they can touch, that no path is ever
    left without a rule it had, and where the rules are when they are done. *)

From S2P Require Import Prelude Model Bytes Decimal Text Net Ports Nft Rules Validate.

(** ** Runs *)

Section runs.
Context {W : Type} (run : runner W).

Lemma execute_exec {A} argv (k : answer -> cmds A) w :
  execute run (Exec argv k) w = execute run (k (run argv w).1) (run argv w).2.
Proof. cbn. by destruct (run argv w). Qed.

Lemma worlds_exec {A} argv (k : answer -> cmds A) w :
  worlds run (Exec argv k) w = (run argv w).2 :: worlds run (k (run argv w).1) (run argv w).2.
Proof. cbn. by destruct (run argv w). Qed.

Lemma execute_then {A B} (c : cmds A) (k : A -> cmds B) w :
  execute run (then_ c k) w = execute run (k (execute run c w).1) (execute run c w).2.
Proof. revert w. induction c as [a|argv f IH]; intros w; [done |]. cbn. destruct (run argv w) as [r w']. apply IH. Qed.

Lemma worlds_then {A B} (c : cmds A) (k : A -> cmds B) w :
  worlds run (then_ c k) w = worlds run c w ++ worlds run (k (execute run c w).1) (execute run c w).2.
Proof.
  revert w. induction c as [a|argv f IH]; intros w; [done |]. cbn. destruct (run argv w) as [r w']. cbn. by rewrite IH.
Qed.

Lemma issued_then {A B} (c : cmds A) (k : A -> cmds B) w :
  issued run (then_ c k) w = issued run c w ++ issued run (k (execute run c w).1) (execute run c w).2.
Proof.
  revert w. induction c as [a|argv f IH]; intros w; [done |]. cbn. destruct (run argv w) as [r w']. cbn. by rewrite IH.
Qed.

Lemma execute_last {A} (c : cmds A) w : (execute run c w).2 ∈ w :: worlds run c w.
Proof.
  revert w. induction c as [a|argv f IH]; intros w; cbn; [by left |].
  destruct (run argv w) as [r w']. right. apply IH.
Qed.
End runs.

(** A property of every command a program can issue, whatever it is answered. *)
Fixpoint emits {A} (P : list string -> Prop) (c : cmds A) : Prop :=
  match c with
  | Done _ => True
  | Exec argv k => P argv /\ forall r, emits P (k r)
  end.

Lemma emits_then {A B} P (c : cmds A) (k : A -> cmds B) : emits P c -> (forall a, emits P (k a)) -> emits P (then_ c k).
Proof. intros Hc Hk. induction c as [a|argv f IH]; cbn in *; [done |]. destruct Hc as [H Hf]. split; [done |]. eauto. Qed.

Lemma emits_mono {A} (P Q : list string -> Prop) (c : cmds A) : (forall argv, P argv -> Q argv) -> emits P c -> emits Q c.
Proof. intros HPQ Hc. induction c as [a|argv f IH]; cbn in *; [done |]. destruct Hc. eauto. Qed.

Lemma emits_sweep {K} P (del : K -> list string) l : (forall k, k ∈ l -> P (del k)) -> emits P (sweep del l).
Proof.
  induction l as [|k l IH]; intros H; [done |]. cbn. split; [apply H; by left |]. intros _. apply IH.
  intros k' Hk'. apply H. by right.
Qed.

(** ** Texts *)

Lemma hex_digits_plain f n : 0 <= n -> forallb plain_byte (hex_digits f n) = true.
Proof.
  assert (Hd : forall k, 0 <= k < 16 -> plain_byte (hexDigit k) = true).
  { intros k Hk. assert (Hall : forallb (fun k => plain_byte (hexDigit k)) (seqZ 0 16) = true) by reflexivity.
    rewrite forallb_forall in Hall. apply Hall, list_elem_of_In, elem_of_seqZ. lia. }
  revert n. induction f as [|f IH]; intros n Hn; [done |]. cbn [hex_digits].
  destruct (Z.ltb_spec n 16); [cbn [forallb]; rewrite Hd by lia; done |].
  rewrite forallb_app, IH by (apply Z.div_pos; lia). cbn [forallb]. rewrite Hd; [done |]. apply Z.mod_pos_bound. lia.
Qed.

Lemma string_bytes_hex n : string_bytes (hex_text n) = 48 :: 120 :: (if n <? 0 then [45] else []) ++ hex_digits 16 (Z.abs n).
Proof.
  assert (Hp : forallb plain_byte (hex_digits 16 (Z.abs n)) = true) by (apply hex_digits_plain; lia).
  unfold hex_text. rewrite !string_bytes_append, string_bytes_string.
  2:{ apply Forall_forall. intros c Hc. rewrite forallb_forall in Hp. apply list_elem_of_In in Hc. specialize (Hp c Hc).
      unfold plain_byte in Hp. bool_to_prop. unfold is_byte. lia. }
  by destruct (n <? 0).
Qed.

Lemma hex_text_ok n : name_ok (hex_text n).
Proof.
  assert (E : exists b, string_bytes (hex_text n) = 48 :: 120 :: b /\ forallb plain_byte b = true).
  { exists ((if n <? 0 then [45] else []) ++ hex_digits 16 (Z.abs n)).
    assert (Hp : forallb plain_byte (hex_digits 16 (Z.abs n)) = true) by (apply hex_digits_plain; lia).
    rewrite string_bytes_hex. split; [reflexivity |]. rewrite forallb_app, Hp. by destruct (n <? 0). }
  destruct E as (b & E & Hb). split.
  - split; [intros H; by rewrite H in E |]. rewrite E. cbn. done.
  - unfold keywords. rewrite !elem_of_cons, elem_of_nil. intros H. destruct_or!; rewrite ?H in E; done.
Qed.

Lemma hex_digits_hex f n : 0 <= n -> Forall (fun c => is_hex c = true) (hex_digits f n).
Proof.
  revert n. induction f as [|f IH]; intros n Hn; [constructor |]. cbn [hex_digits].
  destruct (Z.ltb_spec n 16); [constructor; [by apply hexValue_digit | constructor] |].
  apply Forall_app_2; [apply IH, Z.div_pos; lia |]. constructor; [| constructor].
  apply hexValue_digit, Z.mod_pos_bound. lia.
Qed.

Lemma hex_digits_nonempty f n : hex_digits (S f) n <> [].
Proof. cbn [hex_digits]. destruct (n <? 16); [done |]. by destruct (hex_digits f (n / 16)). Qed.

(** The number a text of digits stands for. *)
Definition hex_number (b : bytes) : Z := fold_left (fun acc c => acc * 16 + default 0 (hexValue c)) b 0.

Lemma hex_number_digits f n : 0 <= n < 16 ^ Z.of_nat f -> hex_number (hex_digits f n) = n.
Proof.
  revert n. induction f as [|f IH]; intros n Hn; [change (16 ^ Z.of_nat 0) with 1 in Hn; cbn; lia |]. cbn [hex_digits].
  destruct (Z.ltb_spec n 16).
  - unfold hex_number. cbn [fold_left]. rewrite (proj1 (hexValue_digit n ltac:(lia))). cbn. lia.
  - rewrite Nat2Z.inj_succ, Z.pow_succ_r in Hn by lia. unfold hex_number. rewrite fold_left_app.
    fold (hex_number (hex_digits f (n / 16))). pose proof (Z.div_mod n 16). pose proof (Z.mod_pos_bound n 16).
    rewrite IH by lia. cbn [fold_left]. rewrite (proj1 (hexValue_digit (n mod 16) ltac:(lia))). cbn. lia.
Qed.

Lemma hex_text_inj n m : in_i64 n -> in_i64 m -> hex_text n = hex_text m -> n = m.
Proof.
  intros Hn Hm E.
  assert (Hno45 : forall k, 0 <= k -> 45 ∉ hex_digits 16 k).
  { intros k Hk Hin. pose proof (hex_digits_hex 16 k Hk) as H. rewrite Forall_forall in H. specialize (H 45 Hin). discriminate H. }
  assert (Hpow : 16 ^ Z.of_nat 16 = 18446744073709551616) by reflexivity.
  assert (Habs : hex_digits 16 (Z.abs n) = hex_digits 16 (Z.abs m) -> Z.abs n = Z.abs m).
  { intros H. rewrite <- (hex_number_digits 16 (Z.abs n)), H, hex_number_digits by go_lia. done. }
  assert (Hn45 := Hno45 (Z.abs n) ltac:(lia)). assert (Hm45 := Hno45 (Z.abs m) ltac:(lia)).
  assert (Eb : string_bytes (hex_text n) = string_bytes (hex_text m)) by (by rewrite E).
  rewrite !string_bytes_hex in Eb. revert Eb Habs Hn45 Hm45. clear -n m.
  generalize (hex_digits 16 (Z.abs n)), (hex_digits 16 (Z.abs m)). intros dn dm Eb Habs Hn45 Hm45.
  injection Eb as Eb. destruct (Z.ltb_spec n 0), (Z.ltb_spec m 0); cbn [app] in Eb.
  - injection Eb as Eb. specialize (Habs Eb). lia.
  - destruct Hm45. rewrite <- Eb. by left.
  - destruct Hn45. rewrite Eb. by left.
  - specialize (Habs Eb). lia.
Qed.

Lemma mark_ok p : name_ok (path_mark p).
Proof. apply hex_text_ok. Qed.

Lemma Atoi_i64 b n : Atoi b = Some n -> in_i64 n.
Proof.
  unfold Atoi. destruct (match b with 45 :: d => _ | _ => _ end) as [neg d]. destruct d as [|c d]; [done |].
  destruct (parse_digits 0 (c :: d)) as [z|]; [| done]. set (z' := if neg then _ else _).
  destruct (_ && _) eqn:E; [| done]. intros [= <-]. bool_to_prop. unfold in_i64. lia.
Qed.

Lemma rule_lines_i64 rules : Forall (fun line => in_i64 line.1) (rule_lines rules).
Proof.
  apply Forall_forall. intros line Hl. unfold rule_lines in Hl. apply list_elem_of_omap in Hl as (b & _ & E).
  unfold rule_line in E. destruct (cut_byte 58 [] (trim_bytes b)) as [[x y]|]; [| done].
  destruct (Atoi x) as [n|] eqn:Ea; [| done]. injection E as <-. by eapply Atoi_i64.
Qed.

Lemma markRulePrefs_i64 rules m t : Forall in_i64 (markRulePrefs rules m t).
Proof.
  apply Forall_forall. intros q Hq. apply list_elem_of_omap in Hq as (line & Hl & E).
  pose proof (rule_lines_i64 rules) as H. rewrite Forall_forall in H. specialize (H line Hl).
  destruct (_ && _); [| done]. by injection E as <-.
Qed.

Lemma denyRulesInBand_good rules :
  Forall (fun d => in_i64 (dr_pref d) /\ inProbeDenyBand (dr_pref d) = true) (denyRulesInBand rules).
Proof.
  apply Forall_forall. intros d Hd. apply list_elem_of_filter in Hd as [Hb Hd]. split; [| done].
  apply list_elem_of_omap in Hd as (line & Hl & E). pose proof (rule_lines_i64 rules) as H. rewrite Forall_forall in H.
  specialize (H line Hl). unfold deny_of in E. destruct (scan_deny "" false line.2) as [m r].
  destruct (_ && _); [| done]. by injection E as <-.
Qed.

(** ** What a command can touch *)

(** Listings and routes leave the rules alone; an insertion and a deletion
    touch rules of [O] only. *)
Inductive touches (O : krule -> Prop) : list string -> Prop :=
| t_show : touches O ["ip"; "rule"; "show"]%string
| t_show_table t : 0 <= t <= MaxInt64 -> touches O ["ip"; "rule"; "show"; "table"; Itoa t]%string
| t_route dst rest : touches O ("ip" :: "route" :: dst :: rest)%string
| t_add r : rule_ok r -> O r -> touches O (rule_argv "add" r)
| t_del r : rule_ok r -> (forall r', fits r r' = true -> O r') -> touches O (rule_argv "del" r).

Lemma touches_mono (O O' : krule -> Prop) argv : (forall r, O r -> O' r) -> touches O argv -> touches O' argv.
Proof. intros H []; econstructor; eauto. Qed.

(** A way of reading rules, and what it reads. *)
Definition seen {W} {run : runner W} `{!Kernel run} {K} (v : krule -> option K) (w : W) : list K := omap v (k_rules w).

(** What the kernel's 32-bit priorities and marks can carry. *)
Definition representable (r : krule) : Prop :=
  0 <= kr_pref r < 4294967296 /\ forall m, kr_mark r = Some m -> exists n, 0 < n < 4294967296 /\ m = hex_text n.

(** Commands on the rules do not fail without a reason: a listing is read, a
    rule the kernel can carry and does not have is added, one that is there
    comes out. *)
Class Reliable {W} (run : runner W) `{!Kernel run} := {
  r_show w : is_ok (run ["ip"; "rule"; "show"]%string w).1 = true;
  r_show_table t w : 0 <= t <= MaxInt64 -> is_ok (run ["ip"; "rule"; "show"; "table"; Itoa t]%string w).1 = true;
  r_add r w : rule_ok r -> representable r -> r ∉ k_rules w -> is_ok (run (rule_argv "add" r) w).1 = true;
  r_del r w : rule_ok r -> (exists r', r' ∈ k_rules w /\ fits r r' = true) ->
    is_ok (run (rule_argv "del" r) w).1 = true }.

Section kernel.
Context {W : Type} (run : runner W) `{HK : !Kernel run}.

Lemma touches_run O argv w : touches O argv ->
  forall K (v : krule -> option K), (forall r, O r -> v r = None) -> seen v (run argv w).2 ≡ₚ seen v w.
Proof.
  intros Ht K v Hv. unfold seen. destruct Ht as [|t Hr|dst rest|r Hr Ho|r Hr Ho].
  - pose proof (k_show w) as L. destruct (run _ w) as [a w']. destruct L as [L _]. cbn. by rewrite L.
  - pose proof (k_show_table t w Hr) as L. destruct (run _ w) as [a w']. destruct L as [L _]. cbn. by rewrite L.
  - pose proof (k_route dst rest w) as L. destruct (run _ w) as [a w']. cbn. by rewrite L.
  - pose proof (k_add r w Hr) as L. destruct (run _ w) as [a w']. cbn. destruct (is_ok a); [| by rewrite L].
    rewrite L. cbn. by rewrite (Hv r Ho).
  - pose proof (k_del r w Hr) as L. destruct (run _ w) as [a w']. cbn. destruct (is_ok a); [| by rewrite L].
    destruct L as (r' & Hf & L). rewrite L. cbn. by rewrite (Hv r' (Ho r' Hf)).
Qed.

Lemma emits_worlds {A} O (c : cmds A) : emits (touches O) c ->
  forall w K (v : krule -> option K), (forall r, O r -> v r = None) ->
  Forall (fun w' => seen v w' ≡ₚ seen v w) (worlds run c w).
Proof.
  intros Hc w K v Hv. revert w. induction c as [a|argv f IH]; intros w; [constructor |]. destruct Hc as [Ht Hf].
  cbn. pose proof (touches_run O argv w Ht K v Hv) as L. destruct (run argv w) as [r w']. cbn in L.
  constructor; [done |]. eapply Forall_impl; [apply IH, Hf |]. cbn. intros w'' H. by rewrite H.
Qed.

Lemma emits_final {A} O (c : cmds A) w K (v : krule -> option K) : emits (touches O) c ->
  (forall r, O r -> v r = None) -> seen v (execute run c w).2 ≡ₚ seen v w.
Proof.
  intros Hc Hv. pose proof (execute_last run c w) as Hl. apply elem_of_cons in Hl as [->|Hl]; [done |].
  pose proof (emits_worlds O c Hc w K v Hv) as Hw. rewrite Forall_forall in Hw. by apply Hw.
Qed.

(** ** Sweeping and pinning *)

Lemma fits_refl r : fits r r = true.
Proof.
  unfold fits. rewrite Z.eqb_refl, bool_decide_eq_true_2 by done.
  assert (H : forall o, fits_opt o o = true) by (intros [s|]; cbn; [by apply bool_decide_eq_true |]; done).
  by rewrite !H.
Qed.

Section pinning.
Context {K : Type} `{EqDecision K} (v : krule -> option K) (mk : K -> krule).
Context (good : K -> Prop) (Hgood : forall k, good k -> rule_ok (mk k)).
Context (Hfit : forall k r', good k -> fits (mk k) r' = true <-> v r' = Some k).

Let del k := rule_argv "del" (mk k).

Lemma del_step k w : good k ->
  (is_ok (run (del k) w).1 = true /\ seen v w ≡ₚ k :: seen v (run (del k) w).2)
  \/ (is_ok (run (del k) w).1 = false /\ seen v (run (del k) w).2 = seen v w).
Proof.
  intros Hr. pose proof (k_del (mk k) w (Hgood k Hr)) as L. unfold del, seen. destruct (run _ w) as [a w']. cbn.
  destruct (is_ok a); [left | right; by rewrite L]. destruct L as (r' & Hf & L). split; [done |].
  rewrite L. cbn. by rewrite (proj1 (Hfit k r' Hr) Hf).
Qed.

Lemma sweep_cons {J} (f : J -> list string) j l : sweep f (j :: l) = Exec (f j) (fun _ => sweep f l).
Proof. reflexivity. Qed.

Lemma sweep_keeps l k w : Forall good l -> k ∉ l -> k ∈ seen v w ->
  Forall (fun w' => k ∈ seen v w') (worlds run (sweep del l) w).
Proof.
  revert w. induction l as [|j l IH]; intros w Hl Hk Hin; [constructor |]. apply Forall_cons in Hl as [Hj Hl].
  apply not_elem_of_cons in Hk as [Hne Hk]. rewrite sweep_cons, worlds_exec.
  assert (Hin' : k ∈ seen v (run (del j) w).2).
  { destruct (del_step j w Hj) as [[_ L]|[_ ->]]; [| done]. rewrite L in Hin. by apply elem_of_cons in Hin as [?|?]. }
  constructor; [done |]. by apply IH.
Qed.

(** Where deletions of what is there succeed, nothing that was found stays. *)
Lemma sweep_clears `{!Reliable run} l kept w : Forall good l -> seen v w ≡ₚ l ++ kept ->
  seen v (execute run (sweep del l) w).2 ≡ₚ kept.
Proof.
  revert w. induction l as [|j l IH]; intros w Hl E; [done |]. apply Forall_cons in Hl as [Hj Hl].
  rewrite sweep_cons, execute_exec. apply IH; [done |].
  assert (Hin : j ∈ seen v w) by (rewrite E; by left).
  apply list_elem_of_omap in Hin as (r & Hr & Hv).
  assert (Hok : is_ok (run (del j) w).1 = true) by (apply r_del; [by apply Hgood | exists r; split; [done | by apply Hfit]]).
  destruct (del_step j w Hj) as [[_ L]|[L _]]; [| congruence].
  rewrite L in E. by apply Permutation_cons_inv in E.
Qed.

Lemma fits_mk_self k : good k -> v (mk k) = Some k.
Proof. intros Hk. by apply Hfit, fits_refl. Qed.

Lemma add_step k w : good k ->
  (is_ok (run (rule_argv "add" (mk k)) w).1 = true /\ seen v (run (rule_argv "add" (mk k)) w).2 ≡ₚ k :: seen v w)
  \/ (is_ok (run (rule_argv "add" (mk k)) w).1 = false /\ seen v (run (rule_argv "add" (mk k)) w).2 = seen v w).
Proof.
  intros Hr. pose proof (k_add (mk k) w (Hgood k Hr)) as L. unfold seen. destruct (run _ w) as [a w']. cbn.
  destruct (is_ok a); [left | right; by rewrite L]. split; [done |]. rewrite L. cbn. by rewrite fits_mk_self.
Qed.

Lemma not_seen_not_there k w : good k -> k ∉ seen v w -> mk k ∉ k_rules w.
Proof. intros Hg Hk Hin. apply Hk, list_elem_of_omap. exists (mk k). split; [done |]. by apply fits_mk_self. Qed.
End pinning.

(** A rule pinned where it was found in [found]: there is one throughout if
    there was one at first; success means it is at [want]; and on a kernel
    that does what it is told, it is nowhere else. *)
Section pin.
Context (v : krule -> option Z) (mk : Z -> krule).
Context (good : Z -> Prop) (Hgood : forall k, good k -> rule_ok (mk k)).
Context (Hfit : forall k r', good k -> fits (mk k) r' = true <-> v r' = Some k).
Context (want : Z) (found : list Z) (w : W).
Context (Hok : Forall good (want :: found)) (Hfound : found ≡ₚ seen v w).

Let program := pin want found (fun verb k => rule_argv verb (mk k)).
Let strays := filter (fun k => k <> want) found.
Let finish : cmds (option string) := let! _ := sweep (fun k => rule_argv "del" (mk k)) strays in Done None.

Lemma strays_ok : Forall good strays.
Proof.
  apply Forall_cons in Hok as [_ H]. rewrite Forall_forall in H. apply Forall_forall. intros k Hk.
  apply list_elem_of_filter in Hk as [_ Hk]. by apply H.
Qed.

Lemma want_no_stray : want ∉ strays.
Proof. unfold strays. rewrite list_elem_of_filter. naive_solver. Qed.

Lemma strays_split : strays ++ filter (fun k => ~ k <> want) found ≡ₚ found.
Proof. apply filter_app_complement. Qed.

Lemma pin_found : want ∈ found -> program = finish.
Proof. intros H. unfold program, pin. by rewrite bool_decide_eq_true_2. Qed.

Lemma pin_missing : want ∉ found -> program = Exec (rule_argv "add" (mk want)) (fun r =>
  match r with Err e => Done (Some e)
  | Ok _ => finish end).
Proof. intros H. unfold program, pin. by rewrite bool_decide_eq_false_2. Qed.

Lemma want_throughout w' : want ∈ seen v w' ->
  Forall (fun w'' => want ∈ seen v w'') (worlds run finish w').
Proof.
  intros H. unfold finish. rewrite worlds_then. apply Forall_app_2; [| constructor].
  eapply (sweep_keeps v mk good); (done || apply strays_ok || apply want_no_stray).
Qed.

Lemma pin_no_gap : seen v w <> [] -> Forall (fun w' => seen v w' <> []) (worlds run program w).
Proof.
  intros Hne. assert (Hin : forall w', want ∈ seen v w' -> seen v w' <> []).
  { intros w' H E. rewrite E in H. by apply elem_of_nil in H. }
  destruct (decide (want ∈ found)) as [Hw|Hw].
  - rewrite pin_found by done. eapply Forall_impl; [apply want_throughout; by rewrite <- Hfound | exact Hin].
  - rewrite pin_missing, worlds_exec by done. pose proof (proj1 (Forall_cons _ _ _) Hok) as [Hr _].
    destruct (add_step v mk good Hgood Hfit want w Hr) as [[Ha L]|[Ha L]].
    + assert (Hw' : want ∈ seen v (run (rule_argv "add" (mk want)) w).2) by (rewrite L; by left).
      constructor; [by apply Hin |]. destruct (run _ w).1; [| done].
      eapply Forall_impl; [by apply want_throughout | exact Hin].
    + constructor; [by rewrite L |]. by destruct (run _ w).1.
Qed.

Lemma pin_success : (execute run program w).1 = None -> want ∈ seen v (execute run program w).2.
Proof.
  assert (Hend : forall w', want ∈ seen v w' ->
    want ∈ seen v (execute run finish w').2).
  { intros w' H. pose proof (execute_last run finish w') as Hl.
    apply elem_of_cons in Hl as [->|Hl]; [done |]. pose proof (want_throughout w' H) as Ht. rewrite Forall_forall in Ht. by apply Ht. }
  destruct (decide (want ∈ found)) as [Hw|Hw].
  - rewrite pin_found by done. intros _. apply Hend. by rewrite <- Hfound.
  - rewrite pin_missing, execute_exec by done. pose proof (proj1 (Forall_cons _ _ _) Hok) as [Hr _].
    destruct (add_step v mk good Hgood Hfit want w Hr) as [[Ha L]|[Ha L]]; destruct (run _ w).1 as [o|e]; try done.
    intros _. apply Hend. rewrite L. by left.
Qed.

Lemma pin_reliable `{!Reliable run} : representable (mk want) -> (execute run program w).1 = None /\ Forall (eq want) (seen v (execute run program w).2).
Proof.
  intros Hrep. assert (Hend : forall w' extra, Forall (eq want) extra -> seen v w' ≡ₚ extra ++ found ->
    (execute run finish w').1 = None
    /\ Forall (eq want) (seen v (execute run finish w').2)).
  { intros w' extra He E. unfold finish. rewrite execute_then. split; [done |]. cbn.
    rewrite (sweep_clears v mk good Hgood Hfit strays (extra ++ filter (fun k => ~ k <> want) found)).
    - apply Forall_app_2; [done |]. apply Forall_forall. intros k Hk. apply list_elem_of_filter in Hk as [Hk _]. lia.
    - apply strays_ok.
    - rewrite E, <- strays_split at 1. by rewrite Permutation_app_swap_app. }
  destruct (decide (want ∈ found)) as [Hw|Hw].
  - rewrite pin_found by done. apply (Hend w []); [constructor | by rewrite <- Hfound].
  - rewrite pin_missing, execute_exec by done. pose proof (proj1 (Forall_cons _ _ _) Hok) as [Hr _].
    assert (Hadd : is_ok (run (rule_argv "add" (mk want)) w).1 = true).
    { apply r_add; [by apply Hgood | done |]. apply (not_seen_not_there v mk good Hfit); [done |]. by rewrite <- Hfound. }
    destruct (add_step v mk good Hgood Hfit want w Hr) as [[Ha L]|[Ha L]]; [| congruence].
    destruct (run _ w).1 as [o|e]; [| done].
    apply (Hend _ [want]); [by repeat constructor | by rewrite L, Hfound].
Qed.
End pin.

(** ** The rules of a path *)

Definition lookup_rule (p : PathConfig) (q : Z) : krule := mkRule q None None (Some (path_mark p)) (Lookup (path_Table p)).
Definition refusal (m : string) (q : Z) : krule := mkRule q None None (Some m) Unreachable.

Definition lookup_view (p : PathConfig) (r : krule) : option Z :=
  if bool_decide (kr_act r = Lookup (path_Table p)) then mark_view (path_mark p) r else None.
Definition refusal_view (m : string) (r : krule) : option Z :=
  match deny_view r with Some d => if String.eqb (dr_mark d) m then Some (dr_pref d) else None | None => None end.

Definition good_refusal (q : Z) : Prop := in_i64 q /\ inProbeDenyBand q = true.

Lemma lookup_fit p q r' : fits (lookup_rule p q) r' = true <-> lookup_view p r' = Some q.
Proof.
  unfold fits, lookup_rule, lookup_view, mark_view, is_lookup. cbn.
  destruct (bool_decide_reflect (kr_act r' = Lookup (path_Table p))) as [->|]; cbn;
    rewrite ?andb_false_r, ?andb_true_r; cbn; [| naive_solver].
  destruct (bool_decide_reflect (kr_mark r' = Some (path_mark p))) as [E|E]; cbn; rewrite ?andb_true_r, ?andb_false_r.
  - rewrite Z.eqb_eq. naive_solver.
  - naive_solver.
Qed.

Lemma refusal_fit m q r' : good_refusal q -> fits (refusal m q) r' = true <-> refusal_view m r' = Some q.
Proof.
  intros [_ Hq]. unfold fits, refusal, refusal_view, deny_view, is_lookup. cbn.
  destruct (kr_act r') as [t|]; cbn; [destruct (kr_mark r'); rewrite ?andb_false_r; naive_solver |].
  rewrite bool_decide_eq_true_2, !andb_true_r by done.
  destruct (kr_mark r') as [m'|]; cbn; [| rewrite andb_false_r; naive_solver].
  destruct (Z.eqb_spec (kr_pref r') q) as [->|Hne]; cbn.
  - rewrite Hq. cbn. destruct (String.eqb_spec m' m) as [->|Hm].
    + by rewrite bool_decide_eq_true_2.
    + rewrite bool_decide_eq_false_2 by congruence. naive_solver.
  - destruct (inProbeDenyBand (kr_pref r')); cbn; [| naive_solver].
    destruct (String.eqb m' m); [| naive_solver]. split; [done | intros [= ?]; lia].
Qed.

Lemma lookup_not_refusal p m r : lookup_view p r <> None -> refusal_view m r = None.
Proof.
  unfold lookup_view, refusal_view, deny_view, mark_view, is_lookup.
  destruct (kr_act r) as [t|]; [destruct (kr_mark r); done |].
  rewrite bool_decide_eq_false_2 by done. done.
Qed.

Lemma lookup_ok p q : 0 <= path_Table p <= MaxInt64 -> in_i64 q -> rule_ok (lookup_rule p q).
Proof. intros Ht Hq. refine (conj Hq (conj Ht (conj I (conj I (mark_ok p))))). Qed.

Lemma refusal_ok m q : name_ok m -> in_i64 q -> rule_ok (refusal m q).
Proof. intros Hm Hq. exact (conj Hq (conj I (conj I (conj I Hm)))). Qed.

(** *** Listings *)

(** The settings a path's rules are built from. *)
Record path_fit (p : PathConfig) : Prop := {
  pf_id : 0 < path_ID p < ProbeDenyBandSize;
  pf_table : 0 <= path_Table p <= MaxInt64 }.

Lemma listRules_honest w : let '(a, w') := run ["ip"; "rule"; "show"]%string w in
  k_rules w' = k_rules w /\ forall out, a = Ok out ->
    denyRulesInBand out = omap deny_view (k_rules w)
    /\ forall m, denyRulePrefs out m = seen (refusal_view m) w.
Proof.
  pose proof (k_show w) as L. destruct (run _ w) as [a w']. destruct L as [E L]. split; [done |].
  intros out ->. rewrite (L out eq_refl). pose proof (denyRulesInBand_listing k_alias k_alias_ok (k_rules w) (k_rules_ok w)) as D.
  split; [done |]. intros m. unfold denyRulePrefs. rewrite D. unfold seen. clear.
  induction (k_rules w) as [|r rs IH]; [done |]. cbn [omap list_omap]. unfold refusal_view at 1. destruct (deny_view r) as [d|]; [| exact IH].
  destruct (String.eqb_spec (dr_mark d) m) as [<-|Hm].
  - rewrite filter_cons_True by done. cbn [fmap list_fmap]. by f_equal.
  - by rewrite filter_cons_False.
Qed.

Lemma table_honest p w : path_fit p -> let '(a, w') := run ["ip"; "rule"; "show"; "table"; Itoa (path_Table p)]%string w in
  k_rules w' = k_rules w /\ forall out, a = Ok out -> markRulePrefs out (path_mark p) "" = seen (lookup_view p) w.
Proof.
  intros Hp. pose proof (k_show_table (path_Table p) w (pf_table p Hp)) as L. destruct (run _ w) as [a w']. destruct L as [E L]. split; [done |].
  intros out ->. rewrite (L out eq_refl), (markRulePrefs_listing k_alias k_alias_ok).
  2:{ apply Forall_forall. intros r Hr. apply list_elem_of_filter in Hr as [_ Hr].
      pose proof (k_rules_ok w) as H. rewrite Forall_forall in H. by apply H. }
  unfold seen. clear. induction (k_rules w) as [|r rs IH]; [done |]. cbn [omap list_omap]. unfold lookup_view at 1.
  destruct (bool_decide_reflect (kr_act r = Lookup (path_Table p))) as [Ha|Ha].
  - rewrite filter_cons_True by (unfold in_table; by apply bool_decide_eq_true). cbn [omap list_omap].
    destruct (mark_view (path_mark p) r); [f_equal |]; exact IH.
  - rewrite filter_cons_False; [exact IH |]. unfold in_table. by rewrite bool_decide_eq_true.
Qed.

(** *** One path *)

Lemma probe_pref p : path_fit p -> probeRulePref p = ProbeRulePrefBase + path_ID p
  /\ 30000 < probeRulePref p < 30100 /\ in_i64 (probeRulePref p).
Proof.
  intros [Hid _]. change ProbeDenyBandSize with 100 in Hid. unfold probeRulePref.
  change ProbeRulePrefBase with 30000. rewrite i64_id by go_lia. split; [done |]. split; [lia | go_lia].
Qed.

Lemma deny_pref p : path_fit p -> probeDenyRulePref p = ProbeDenyRulePrefBase + path_ID p
  /\ 31000 < probeDenyRulePref p < 31100 /\ good_refusal (probeDenyRulePref p).
Proof.
  intros [Hid _]. change ProbeDenyBandSize with 100 in Hid. unfold probeDenyRulePref.
  change ProbeDenyRulePrefBase with 31000. rewrite i64_id by go_lia. split; [done |]. split; [lia |]. split; [go_lia |].
  unfold inProbeDenyBand. change ProbeDenyRulePrefBase with 31000. change ProbeDenyBandSize with 100. lia.
Qed.

(** The rules a path's own commands touch. *)
Definition path_rule (p : PathConfig) (r : krule) : Prop :=
  lookup_view p r <> None \/ refusal_view (path_mark p) r <> None.

Lemma emits_pin P want found rule : P (rule "add"%string want) -> (forall q, q ∈ found -> P (rule "del"%string q)) ->
  emits P (pin want found rule).
Proof.
  intros Ha Hd. assert (Hs : emits P (sweep (rule "del"%string) (filter (fun q => q <> want) found))).
  { apply emits_sweep. intros q Hq. apply list_elem_of_filter in Hq as [_ Hq]. by apply Hd. }
  unfold pin. destruct (bool_decide (want ∈ found)).
  - by apply emits_then.
  - split; [done |]. intros [o|e]; [by apply emits_then | done].
Qed.

Lemma pin_lookup_touches p found : path_fit p -> Forall in_i64 found ->
  emits (touches (fun r => lookup_view p r <> None))
    (pin (probeRulePref p) found (fun verb => mark_rule verb (path_mark p) (Itoa (path_Table p)))).
Proof.
  intros Hp Hf. destruct (probe_pref p Hp) as (_ & _ & Hq). destruct Hp as [_ Ht].
  assert (Hfit : forall q r', fits (lookup_rule p q) r' = true -> lookup_view p r' <> None).
  { intros q r' H. apply lookup_fit in H. by rewrite H. }
  apply emits_pin.
  - apply (t_add _ (lookup_rule p (probeRulePref p))); [by apply lookup_ok |]. apply (Hfit (probeRulePref p)), fits_refl.
  - intros q Hin. rewrite Forall_forall in Hf. apply (t_del _ (lookup_rule p q)); [by apply lookup_ok, Hf |]. apply Hfit.
Qed.

Lemma pin_refusal_touches p all : path_fit p ->
  emits (touches (fun r => refusal_view (path_mark p) r <> None))
    (pin (probeDenyRulePref p) (denyRulePrefs all (path_mark p)) (fun verb => deny_rule verb (path_mark p))).
Proof.
  intros Hp. destruct (deny_pref p Hp) as (_ & _ & Hq).
  assert (Hfit : forall q r', good_refusal q -> fits (refusal (path_mark p) q) r' = true -> refusal_view (path_mark p) r' <> None).
  { intros q r' Hg H. apply refusal_fit in H; [| done]. by rewrite H. }
  apply emits_pin.
  - apply (t_add _ (refusal (path_mark p) (probeDenyRulePref p))); [apply refusal_ok; [apply mark_ok | apply Hq] |].
    apply (Hfit (probeDenyRulePref p)); [done | apply fits_refl].
  - intros q Hin. unfold denyRulePrefs in Hin. apply list_elem_of_fmap in Hin as (d & -> & Hd).
    apply list_elem_of_filter in Hd as [_ Hd]. pose proof (denyRulesInBand_good all) as Hg. rewrite Forall_forall in Hg.
    specialize (Hg d Hd). apply (t_del _ (refusal (path_mark p) (dr_pref d))); [apply refusal_ok; [apply mark_ok | apply Hg] |].
    intros r'. by apply Hfit.
Qed.

Lemma ensure_touches p all : path_fit p -> emits (touches (path_rule p)) (ensureProbeRules p all).
Proof.
  intros Hp. unfold ensureProbeRules, listRulesInTable, ask. cbn [then_]. split; [apply t_show_table, Hp |]. intros [out|e]; [| done].
  apply emits_then.
  { eapply emits_mono; [| apply pin_lookup_touches; [done | apply markRulePrefs_i64]].
    intros argv. apply touches_mono. by left. }
  intros [e|]; [done |]. apply emits_then; [| by intros [e|]].
  eapply emits_mono; [| by apply pin_refusal_touches]. intros argv. apply touches_mono. by right.
Qed.

Lemma refusal_not_lookup p m r : refusal_view m r <> None -> lookup_view p r = None.
Proof. intros H. destruct (lookup_view p r) eqn:E; [| done]. by rewrite (lookup_not_refusal p m r) in H by congruence. Qed.

(** A path never loses the last of its lookups, nor of its refusals. *)
Definition no_gap (p : PathConfig) (w w' : W) : Prop :=
  (seen (lookup_view p) w <> [] -> seen (lookup_view p) w' <> [])
  /\ (seen (refusal_view (path_mark p)) w <> [] -> seen (refusal_view (path_mark p)) w' <> []).

Definition installed (p : PathConfig) (w : W) : Prop :=
  probeRulePref p ∈ seen (lookup_view p) w /\ probeDenyRulePref p ∈ seen (refusal_view (path_mark p)) w.

(** Installed, and nowhere else. *)
Definition pinned (p : PathConfig) (w : W) : Prop :=
  installed p w /\ Forall (eq (probeRulePref p)) (seen (lookup_view p) w)
  /\ Forall (eq (probeDenyRulePref p)) (seen (refusal_view (path_mark p)) w).

Definition same_path (p : PathConfig) (w w' : W) : Prop :=
  seen (lookup_view p) w' ≡ₚ seen (lookup_view p) w
  /\ seen (refusal_view (path_mark p)) w' ≡ₚ seen (refusal_view (path_mark p)) w.

Lemma perm_nil {K} (l l' : list K) : l ≡ₚ l' -> l <> [] -> l' <> [].
Proof. intros E H ->. by apply Permutation_nil_r in E. Qed.

Lemma path_same_trans p w w' w'' : same_path p w w' -> same_path p w' w'' -> same_path p w w''.
Proof. intros [E1 E2] [F1 F2]. split; by etrans. Qed.

Lemma no_gap_same p w0 w w' : same_path p w w' -> no_gap p w0 w -> no_gap p w0 w'.
Proof. intros [E1 E2] [H1 H2]. split; intros H; (eapply perm_nil; [symmetry; eassumption | auto]). Qed.

Lemma no_gap_trans p w w' w'' : no_gap p w w' -> no_gap p w' w'' -> no_gap p w w''.
Proof. intros [H1 H2] [G1 G2]. split; auto. Qed.

Lemma no_gap_refl p w : no_gap p w w.
Proof. by split. Qed.

Lemma installed_same p w w' : same_path p w w' -> installed p w -> installed p w'.
Proof. intros [E1 E2] [H1 H2]. split; [by rewrite E1 | by rewrite E2]. Qed.

Lemma pinned_same p w w' : same_path p w w' -> pinned p w -> pinned p w'.
Proof.
  intros E (H1 & H2 & H3). split; [by eapply installed_same |]. destruct E as [E1 E2]. split; [by rewrite E1 | by rewrite E2].
Qed.

Section one_path.
Context (p : PathConfig) (Hp : path_fit p).

Let L := lookup_view p.
Let R := refusal_view (path_mark p).
Let pinL found := pin (probeRulePref p) found (fun verb => mark_rule verb (path_mark p) (Itoa (path_Table p))).
Let pinR found := pin (probeDenyRulePref p) found (fun verb => deny_rule verb (path_mark p)).

Lemma lookup_good k : in_i64 k -> rule_ok (lookup_rule p k).
Proof. apply lookup_ok, Hp. Qed.
Lemma refusal_good k : good_refusal k -> rule_ok (refusal (path_mark p) k).
Proof. intros Hk. apply refusal_ok; [apply mark_ok | apply Hk]. Qed.

Lemma lookups_good found : Forall in_i64 found -> Forall in_i64 (probeRulePref p :: found).
Proof. intros H. constructor; [apply (probe_pref p Hp) | done]. Qed.
Lemma refusals_good all : Forall good_refusal (probeDenyRulePref p :: denyRulePrefs all (path_mark p)).
Proof.
  constructor; [apply (deny_pref p Hp) |]. unfold denyRulePrefs. apply Forall_fmap, Forall_forall. intros d Hd.
  apply list_elem_of_filter in Hd as [_ Hd]. pose proof (denyRulesInBand_good all) as H. rewrite Forall_forall in H. by apply H.
Qed.

Lemma pinL_frame found w : Forall in_i64 found -> Forall (fun w' => seen R w' ≡ₚ seen R w) (worlds run (pinL found) w)
  /\ seen R (execute run (pinL found) w).2 ≡ₚ seen R w.
Proof.
  intros Hf. pose proof (pin_lookup_touches p found Hp Hf) as Ht. split.
  - eapply emits_worlds; [exact Ht |]. intros r. apply lookup_not_refusal.
  - eapply emits_final; [exact Ht |]. intros r. apply lookup_not_refusal.
Qed.

Lemma pinR_frame all w : Forall (fun w' => seen L w' ≡ₚ seen L w) (worlds run (pinR (denyRulePrefs all (path_mark p))) w)
  /\ seen L (execute run (pinR (denyRulePrefs all (path_mark p))) w).2 ≡ₚ seen L w.
Proof.
  pose proof (pin_refusal_touches p all Hp) as Ht. split.
  - eapply emits_worlds; [exact Ht |]. intros r. apply refusal_not_lookup.
  - eapply emits_final; [exact Ht |]. intros r. apply refusal_not_lookup.
Qed.

(** After the listing of the path's table: the two pins. *)
Definition pins (found : list Z) (all : string) : cmds (option rule_err) :=
  let! r := pinL found in
  match r with
  | Some e => Done (Some (ErrRuleAdd (path_Name p) e))
  | None =>
      let! r := pinR (denyRulePrefs all (path_mark p)) in
      match r with Some e => Done (Some (ErrRuleAdd (path_Name p) e)) | None => Done None end
  end.

Lemma worlds_done {A} (r : option string) (f : string -> A) (a : A) w :
  worlds run (match r with Some e => Done (f e) | None => Done a end) w = [].
Proof. by destruct r. Qed.

Section synced.
Context (found : list Z) (all : string) (w : W) (Hf : Forall in_i64 found).
Context (Hl : found ≡ₚ seen L w) (Hr : denyRulePrefs all (path_mark p) ≡ₚ seen R w).

Let w1 := (execute run (pinL found) w).2.

Lemma second_synced : denyRulePrefs all (path_mark p) ≡ₚ seen R w1.
Proof. rewrite Hr. symmetry. by apply pinL_frame. Qed.

Lemma pins_no_gap : Forall (no_gap p w) (worlds run (pins found all) w).
Proof.
  assert (HL : seen L w <> [] -> Forall (fun w' => seen L w' <> []) (worlds run (pinL found) w)).
  { apply (pin_no_gap L (lookup_rule p) in_i64 lookup_good (fun k r' _ => lookup_fit p k r')); [by apply lookups_good | done]. }
  assert (Hfst : Forall (no_gap p w) (worlds run (pinL found) w)).
  { apply Forall_forall. intros w' Hw'. destruct (pinL_frame found w Hf) as [F _]. rewrite Forall_forall in F. split.
    - intros Hne. specialize (HL Hne). rewrite Forall_forall in HL. by apply HL.
    - apply perm_nil. symmetry. by apply F. }
  unfold pins. rewrite worlds_then. apply Forall_app_2; [done |].
  assert (H1 : no_gap p w w1).
  { pose proof (execute_last run (pinL found) w) as Hin. apply elem_of_cons in Hin as [E|Hin].
    - unfold w1. rewrite E. apply no_gap_refl.
    - rewrite Forall_forall in Hfst. by apply Hfst. }
  fold w1. destruct (execute run (pinL found) w).1; [constructor |].
  rewrite worlds_then, worlds_done, app_nil_r.
  apply Forall_forall. intros w' Hw'. eapply no_gap_trans; [exact H1 |]. split.
  - apply perm_nil. symmetry. destruct (pinR_frame all w1) as [F _]. rewrite Forall_forall in F. by apply F.
  - intros Hne. pose proof (pin_no_gap R (refusal (path_mark p)) good_refusal refusal_good (refusal_fit (path_mark p))
      (probeDenyRulePref p) _ w1 (refusals_good all) second_synced Hne) as F. rewrite Forall_forall in F. by apply F.
Qed.

Lemma pins_success : (execute run (pins found all) w).1 = None -> installed p (execute run (pins found all) w).2.
Proof.
  unfold pins. rewrite execute_then. fold w1. destruct (execute run (pinL found) w).1 eqn:E1; [done |].
  rewrite execute_then. set (c := pinR _). destruct (execute run c w1).1 eqn:E2; [done |]. intros _. cbn [execute snd]. split.
  - assert (F : seen (lookup_view p) (execute run c w1).2 ≡ₚ seen (lookup_view p) w1) by apply pinR_frame.
    rewrite F. revert E1.
    apply (pin_success L (lookup_rule p) in_i64 lookup_good (fun k r' _ => lookup_fit p k r')); [by apply lookups_good | done].
  - revert E2. apply (pin_success R (refusal (path_mark p)) good_refusal refusal_good (refusal_fit (path_mark p)));
      [apply refusals_good | apply second_synced].
Qed.

Lemma pins_reliable `{!Reliable run} : 0 < path_Mark p < 4294967296 ->
  (execute run (pins found all) w).1 = None /\ pinned p (execute run (pins found all) w).2.
Proof.
  intros Hm.
  assert (Hmark : forall m, Some (path_mark p) = Some m -> exists n, 0 < n < 4294967296 /\ m = hex_text n).
  { intros m [= <-]. by exists (path_Mark p). }
  destruct (pin_reliable L (lookup_rule p) in_i64 lookup_good (fun k r' _ => lookup_fit p k r') (probeRulePref p) found w
    (lookups_good _ Hf) Hl) as [E1 P1].
  { split; [cbn; destruct (probe_pref p Hp) as (_ & ? & _); lia | exact Hmark]. }
  destruct (pin_reliable R (refusal (path_mark p)) good_refusal refusal_good (refusal_fit (path_mark p)) (probeDenyRulePref p)
    _ w1 (refusals_good all) second_synced) as [E2 P2].
  { split; [cbn; destruct (deny_pref p Hp) as (_ & ? & _); lia | exact Hmark]. }
  change ((execute run (pinL found) w).1 = None) in E1.
  set (c := pinR (denyRulePrefs all (path_mark p))). change ((execute run c w1).1 = None) in E2.
  assert (Hres : execute run (pins found all) w = (None, (execute run c w1).2)).
  { unfold pins. rewrite execute_then, E1, execute_then. fold w1. fold c. by rewrite E2. }
  split; [by rewrite Hres |]. split; [apply pins_success; by rewrite Hres |]. rewrite Hres. cbn [snd].
  assert (F : seen (lookup_view p) (execute run c w1).2 ≡ₚ seen (lookup_view p) w1) by apply pinR_frame.
  split; [| exact P2]. rewrite F. exact P1.
Qed.
End synced.
End one_path.

Definition honest (all : string) (p : PathConfig) (w : W) : Prop :=
  denyRulePrefs all (path_mark p) ≡ₚ seen (refusal_view (path_mark p)) w.

Lemma ensure_no_gap p all w : path_fit p -> honest all p w -> Forall (no_gap p w) (worlds run (ensureProbeRules p all) w).
Proof.
  intros Hp Hr. unfold ensureProbeRules, listRulesInTable, ask. cbn [then_]. rewrite worlds_exec.
  pose proof (table_honest p w Hp) as T. destruct (run _ w) as [a w0]. destruct T as [E T]. cbn [fst snd].
  assert (Hs : same_path p w w0) by (split; unfold seen; by rewrite E).
  constructor; [eapply no_gap_same; [exact Hs | apply no_gap_refl] |]. destruct a as [out|e]; [| constructor].
  specialize (T out eq_refl). destruct Hs as [S1 S2].
  eapply Forall_impl; [apply (pins_no_gap p Hp _ all w0); [apply markRulePrefs_i64 | by rewrite T, S1 | by rewrite S2] |].
  intros w'. apply no_gap_trans. split; (apply perm_nil; by symmetry).
Qed.

Lemma ensure_installs p all w : path_fit p -> honest all p w ->
  (execute run (ensureProbeRules p all) w).1 = None -> installed p (execute run (ensureProbeRules p all) w).2.
Proof.
  intros Hp Hr. unfold ensureProbeRules, listRulesInTable, ask. cbn [then_]. rewrite execute_exec.
  pose proof (table_honest p w Hp) as T. destruct (run _ w) as [a w0]. destruct T as [E T]. cbn [fst snd].
  destruct a as [out|e]; [| done]. specialize (T out eq_refl).
  refine (pins_success p Hp (markRulePrefs out (path_mark p) "") all w0 _ _ _); [apply markRulePrefs_i64 | rewrite T | unfold honest in Hr; rewrite Hr]; unfold seen; by rewrite E.
Qed.

Lemma ensure_pins `{!Reliable run} p all w : path_fit p -> 0 < path_Mark p < 4294967296 -> honest all p w ->
  (execute run (ensureProbeRules p all) w).1 = None /\ pinned p (execute run (ensureProbeRules p all) w).2.
Proof.
  intros Hp Hm Hr. unfold ensureProbeRules, listRulesInTable, ask. cbn [then_]. rewrite execute_exec.
  pose proof (table_honest p w Hp) as T. pose proof (r_show_table (path_Table p) w (pf_table p Hp)) as Hok.
  destruct (run _ w) as [a w0]. destruct T as [E T]. cbn [fst snd] in *.
  destruct a as [out|e]; [| done]. specialize (T out eq_refl).
  refine (pins_reliable p Hp (markRulePrefs out (path_mark p) "") all w0 _ _ _ Hm); [apply markRulePrefs_i64 | rewrite T | unfold honest in Hr; rewrite Hr]; unfold seen; by rewrite E.
Qed.

(** *** The batch *)

Lemma path_rule_other p q r : path_mark p <> path_mark q -> path_rule p r ->
  lookup_view q r = None /\ refusal_view (path_mark q) r = None.
Proof.
  intros Hne H.
  assert (Hm : kr_mark r = Some (path_mark p)).
  { destruct H as [H|H].
    - unfold lookup_view, mark_view in H. destruct (bool_decide (kr_act r = _)); [| done].
      destruct (bool_decide_reflect (kr_mark r = Some (path_mark p))); done.
    - unfold refusal_view, deny_view in H. destruct (kr_mark r) as [m|]; [| done].
      destruct (_ && _); [| done]. cbn in H. destruct (String.eqb_spec m (path_mark p)); [by subst | done]. }
  unfold lookup_view, mark_view, refusal_view, deny_view. rewrite Hm. split.
  - rewrite (bool_decide_eq_false_2 (Some _ = Some _)) by congruence. cbn. by destruct (bool_decide _).
  - destruct (_ && _); [| done]. cbn. by rewrite (proj2 (String.eqb_neq _ _) Hne).
Qed.

Lemma same_path_emits {A} q O (c : cmds A) w : emits (touches O) c ->
  (forall r, O r -> lookup_view q r = None /\ refusal_view (path_mark q) r = None) ->
  Forall (same_path q w) (worlds run c w) /\ same_path q w (execute run c w).2.
Proof.
  intros Hc Ho. split.
  - pose proof (emits_worlds O c Hc w _ (lookup_view q) (fun r H => proj1 (Ho r H))) as F1.
    pose proof (emits_worlds O c Hc w _ (refusal_view (path_mark q)) (fun r H => proj2 (Ho r H))) as F2.
    rewrite Forall_forall in *. intros w' Hw'. split; [by apply F1 | by apply F2].
  - split; (eapply emits_final; [exact Hc | intros r H; by apply Ho]).
Qed.

Section batch.
Context (exists_ : string -> bool) (dstIP srcIP : string).

Lemma route_touches p : emits (touches (fun _ => False)) (ensureProbeRouteOnly p dstIP srcIP).
Proof. unfold ensureProbeRouteOnly, ask. cbn. split; [| done]. apply t_route. Qed.

Lemma after_rules_touches p (r : option rule_err) : emits (touches (fun _ => False))
  (match r with
  | Some (ErrRuleAdd n e) => Done (inl (ErrRuleAdd n e))
  | Some _ => Done (inr (Some (path_Name p)))
  | None =>
      if negb (exists_ (path_Iface p)) then Done (inr (Some (path_Name p)))
      else let! r := ensureProbeRouteOnly p dstIP srcIP in
           Done (inr (match r with Some _ => Some (path_Name p) | None => None end))
  end : cmds (rule_err + option string)).
Proof.
  destruct r as [[]|]; try done. destruct (negb _); [done |]. apply emits_then; [apply route_touches | done].
Qed.

Lemma path_touches p all : path_fit p -> emits (touches (path_rule p)) (probe_path exists_ p all dstIP srcIP).
Proof.
  intros Hp. unfold probe_path. apply emits_then; [by apply ensure_touches |]. intros r.
  eapply emits_mono; [| apply (after_rules_touches p r)]. intros argv. by apply touches_mono.
Qed.

Lemma path_no_gap p all w : path_fit p -> honest all p w ->
  Forall (no_gap p w) (worlds run (probe_path exists_ p all dstIP srcIP) w).
Proof.
  intros Hp Hr. pose proof (ensure_no_gap p all w Hp Hr) as He. unfold probe_path. rewrite worlds_then.
  apply Forall_app_2; [done |]. set (r := (execute run _ w).1). set (w1 := (execute run _ w).2).
  assert (H1 : no_gap p w w1).
  { pose proof (execute_last run (ensureProbeRules p all) w) as Hin. apply elem_of_cons in Hin as [E|Hin].
    - unfold w1. rewrite E. apply no_gap_refl.
    - rewrite Forall_forall in He. by apply He. }
  destruct (same_path_emits p _ _ w1 (after_rules_touches p r)) as [F _]; [done |].
  eapply Forall_impl; [exact F |]. intros w' S. by eapply no_gap_same.
Qed.

Lemma path_pins `{!Reliable run} p all w : path_fit p -> 0 < path_Mark p < 4294967296 -> honest all p w ->
  (exists problem, (execute run (probe_path exists_ p all dstIP srcIP) w).1 = inr problem)
  /\ pinned p (execute run (probe_path exists_ p all dstIP srcIP) w).2.
Proof.
  intros Hp Hm Hr. destruct (ensure_pins p all w Hp Hm Hr) as [E P]. unfold probe_path. rewrite execute_then, E.
  split.
  - destruct (negb _); [by eexists |]. rewrite execute_then. by eexists.
  - eapply pinned_same; [| exact P]. by apply (same_path_emits p _ _ _ (after_rules_touches p None)).
Qed.

Definition batch_rule (ps : list PathConfig) (r : krule) : Prop := exists p, p ∈ ps /\ path_rule p r.

Lemma paths_touch ps all problems : Forall path_fit ps ->
  emits (touches (batch_rule ps)) (probe_paths exists_ ps all dstIP srcIP problems).
Proof.
  intros Hps. revert problems. induction Hps as [|p ps Hp Hps IH]; intros problems; [done |]. cbn [probe_paths].
  apply emits_then.
  - eapply emits_mono; [| by apply path_touches]. intros argv. apply touches_mono. intros r H. exists p. split; [by left | done].
  - intros [e|problem]; [done |]. eapply emits_mono; [| apply IH]. intros argv. apply touches_mono.
    intros r (q & Hq & H). exists q. split; [by right | done].
Qed.

Lemma batch_other ps q r : path_mark q ∉ (path_mark <$> ps) -> batch_rule ps r ->
  lookup_view q r = None /\ refusal_view (path_mark q) r = None.
Proof.
  intros Hq (p & Hp & H). eapply path_rule_other; [| exact H]. intros E. apply Hq, list_elem_of_fmap. by exists p.
Qed.

Lemma honest_same all q w w' : same_path q w w' -> honest all q w -> honest all q w'.
Proof. intros [_ E] H. unfold honest. by rewrite E. Qed.

Lemma paths_no_gap ps all problems w : Forall path_fit ps -> NoDup (path_mark <$> ps) ->
  (forall q, q ∈ ps -> honest all q w) ->
  forall q, q ∈ ps -> Forall (no_gap q w) (worlds run (probe_paths exists_ ps all dstIP srcIP problems) w).
Proof.
  intros Hps. revert problems w. induction Hps as [|p ps Hp Hps IH]; intros problems w Hnd Hh q Hq; [by apply elem_of_nil in Hq |].
  cbn [fmap list_fmap] in Hnd. apply NoDup_cons in Hnd as [Hnp Hnd]. cbn [probe_paths]. rewrite worlds_then.
  set (c := probe_path _ _ _ _ _). set (w1 := (execute run c w).2).
  assert (Hother : forall q, q ∈ ps -> Forall (same_path q w) (worlds run c w) /\ same_path q w w1).
  { intros q' Hq'. apply (same_path_emits q' (path_rule p)); [by apply path_touches |]. intros r.
    apply path_rule_other. intros E. apply Hnp. rewrite E. apply list_elem_of_fmap. by exists q'. }
  apply elem_of_cons in Hq as [->|Hq].
  - assert (Hg : Forall (no_gap p w) (worlds run c w)) by (apply path_no_gap; [done | apply Hh; by left]).
    apply Forall_app_2; [done |].
    assert (H1 : no_gap p w w1).
    { pose proof (execute_last run c w) as Hin. apply elem_of_cons in Hin as [E|Hin].
      - unfold w1. rewrite E. apply no_gap_refl.
      - rewrite Forall_forall in Hg. by apply Hg. }
    destruct (execute run c w).1 as [e|problem]; [constructor |].
    destruct (same_path_emits p _ _ w1 (paths_touch ps all (problems ++ option_list problem) Hps)) as [F _].
    { intros r. by apply batch_other. }
    eapply Forall_impl; [exact F |]. intros w' S. by eapply no_gap_same.
  - destruct (Hother q Hq) as [F S]. apply Forall_app_2.
    + eapply Forall_impl; [exact F |]. intros w' S'. eapply no_gap_same; [exact S' | apply no_gap_refl].
    + fold w1. destruct (execute run c w).1 as [e|problem]; [constructor |].
      eapply Forall_impl; [apply (IH (problems ++ option_list problem) w1 Hnd) |]; [| exact Hq |].
      * intros q' Hq'. eapply honest_same; [by apply Hother |]. apply Hh. by right.
      * intros w' G. eapply no_gap_trans; [| exact G]. eapply no_gap_same; [exact S | apply no_gap_refl].
Qed.

Definition carried (p : PathConfig) : Prop := 0 < path_Mark p < 4294967296.

Lemma paths_pinned `{!Reliable run} ps all problems w : Forall path_fit ps -> Forall carried ps -> NoDup (path_mark <$> ps) ->
  (forall q, q ∈ ps -> honest all q w) ->
  (exists out, (execute run (probe_paths exists_ ps all dstIP srcIP problems) w).1 = inr out)
  /\ forall q, q ∈ ps -> pinned q (execute run (probe_paths exists_ ps all dstIP srcIP problems) w).2.
Proof.
  intros Hps. revert problems w. induction Hps as [|p ps Hp Hps IH]; intros problems w Hc Hnd Hh.
  { split; [by eexists | intros q Hq; by apply elem_of_nil in Hq]. }
  cbn [fmap list_fmap] in Hnd. apply NoDup_cons in Hnd as [Hnp Hnd]. apply Forall_cons in Hc as [Hcp Hc].
  cbn [probe_paths]. rewrite execute_then. set (c := probe_path _ _ _ _ _).
  destruct (path_pins p all w Hp Hcp (Hh p ltac:(by left))) as [[problem E] P].
  fold c in E, P. rewrite E. set (w1 := (execute run c w).2) in *.
  assert (Hother : forall q, q ∈ ps -> same_path q w w1).
  { intros q' Hq'. apply (same_path_emits q' (path_rule p)); [by apply path_touches |]. intros r.
    apply path_rule_other. intros E'. apply Hnp. rewrite E'. apply list_elem_of_fmap. by exists q'. }
  destruct (IH (problems ++ option_list problem) w1 Hc Hnd) as [Hout Hpin].
  { intros q' Hq'. eapply honest_same; [by apply Hother |]. apply Hh. by right. }
  split; [done |]. intros q Hq. apply elem_of_cons in Hq as [->|Hq]; [| by apply Hpin].
  eapply pinned_same; [| exact P].
  apply (same_path_emits p _ _ w1 (paths_touch ps all (problems ++ option_list problem) Hps)). intros r. by apply batch_other.
Qed.

End batch.

(** *** The sweep of the band *)

Lemma refusal_view_deny m q r : refusal_view m r = Some q <-> deny_view r = Some (mkDeny q m).
Proof.
  unfold refusal_view. destruct (deny_view r) as [[q' m']|]; [| done]. cbn. destruct (String.eqb_spec m' m) as [->|]; naive_solver.
Qed.

Definition good_deny (d : denyRule) : Prop := name_ok (dr_mark d) /\ good_refusal (dr_pref d).
Definition refused (d : denyRule) : krule := refusal (dr_mark d) (dr_pref d).

Lemma refused_ok d : good_deny d -> rule_ok (refused d).
Proof. intros [Hm Hq]. by apply refusal_ok, Hq. Qed.

Lemma refused_fit d r' : good_deny d -> fits (refused d) r' = true <-> deny_view r' = Some d.
Proof. intros [_ Hq]. unfold refused. rewrite refusal_fit, refusal_view_deny by done. by destruct d. Qed.

Lemma listed_good w : Forall good_deny (seen deny_view w).
Proof.
  apply Forall_forall. intros d Hd. apply list_elem_of_omap in Hd as (r & Hr & E).
  pose proof (k_rules_ok w) as H. rewrite Forall_forall in H. destruct (H r Hr) as (Hq & _ & _ & _ & Hm).
  unfold deny_view in E. destruct (kr_mark r) as [m|]; [| done]. destruct (is_lookup r); [done |].
  cbn in E. destruct (inProbeDenyBand (kr_pref r)) eqn:Eb; [| done]. injection E as <-. by repeat split; try apply Hm; try apply Hq.
Qed.

Lemma sweep_denies_touch ds : Forall good_deny ds ->
  emits (touches (fun r => exists d, d ∈ ds /\ deny_view r = Some d)) (sweep_denies ds).
Proof.
  intros Hg. unfold sweep_denies. apply emits_sweep. intros d Hd. rewrite Forall_forall in Hg.
  apply (t_del _ (refused d)); [by apply refused_ok, Hg |]. intros r' Hf. exists d. split; [done |]. apply refused_fit; [by apply Hg | done].
Qed.

Definition strangers (ps : list PathConfig) (all : string) : list denyRule :=
  filter (fun d => dr_mark d ∉ path_mark <$> ps) (denyRulesInBand all).

Section whole.
Context (exists_ : string -> bool) (dstIP srcIP : string).

(** The batch once the listing is in hand. *)
Definition ensure_body (ps : list PathConfig) (all : string) : cmds (option rule_err) :=
  let! r := probe_paths exists_ ps all dstIP srcIP [] in
  match r with
  | inl e => Done (Some e)
  | inr problems =>
      let! _ := sweep_denies (strangers ps all) in
      Done (match problems with [] => None | _ => Some (ErrProblems problems) end)
  end.

Lemma EnsureProbeRoutes_body ps : EnsureProbeRoutes exists_ ps dstIP srcIP =
  Exec ["ip"; "rule"; "show"]%string (fun all => match all with Err e => Done (Some (ErrRun e)) | Ok all => ensure_body ps all end).
Proof. reflexivity. Qed.

Lemma stranger_other ps q r all : q ∈ ps -> (exists d, d ∈ strangers ps all /\ deny_view r = Some d) ->
  lookup_view q r = None /\ refusal_view (path_mark q) r = None.
Proof.
  intros Hq (d & Hd & E). apply list_elem_of_filter in Hd as [Hd _].
  assert (Hr : refusal_view (dr_mark d) r <> None) by (rewrite (proj2 (refusal_view_deny (dr_mark d) (dr_pref d) r)); by destruct d).
  split; [by eapply refusal_not_lookup |]. destruct (refusal_view (path_mark q) r) as [k|] eqn:E'; [| done].
  apply refusal_view_deny in E'. rewrite E in E'. injection E' as ->. destruct Hd. apply list_elem_of_fmap. by exists q.
Qed.

(** [all] is what the kernel lists. *)
Definition lists (all : string) (w : W) : Prop :=
  denyRulesInBand all = seen deny_view w /\ forall p, honest all p w.

Lemma strangers_good ps all w : lists all w -> Forall good_deny (strangers ps all).
Proof.
  intros [E _]. pose proof (listed_good w) as H. rewrite <- E in H. rewrite Forall_forall in *. intros d Hd.
  apply list_elem_of_filter in Hd as [_ Hd]. by apply H.
Qed.

Definition our_rule (ps : list PathConfig) (r : krule) : Prop := batch_rule ps r \/ deny_view r <> None.

Lemma body_touches ps all w : Forall path_fit ps -> lists all w -> emits (touches (our_rule ps)) (ensure_body ps all).
Proof.
  intros Hps Hl. unfold ensure_body. apply emits_then.
  - eapply emits_mono; [| by apply paths_touch]. intros argv. apply touches_mono. by left.
  - intros [e|problems]; [done |]. apply emits_then; [| done].
    eapply emits_mono; [| eapply sweep_denies_touch, strangers_good, Hl]. intros argv. apply touches_mono.
    intros r (d & _ & E). right. by rewrite E.
Qed.

Lemma body_no_gap ps all w q : Forall path_fit ps -> NoDup (path_mark <$> ps) -> lists all w -> q ∈ ps ->
  Forall (no_gap q w) (worlds run (ensure_body ps all) w).
Proof.
  intros Hps Hnd Hl Hq. unfold ensure_body. rewrite worlds_then.
  pose proof (paths_no_gap exists_ dstIP srcIP ps all [] w Hps Hnd (fun q _ => proj2 Hl q) q Hq) as F. apply Forall_app_2; [done |].
  set (c := probe_paths _ _ _ _ _ _) in *. set (w1 := (execute run c w).2).
  assert (H1 : no_gap q w w1).
  { pose proof (execute_last run c w) as Hin. apply elem_of_cons in Hin as [E|Hin].
    - unfold w1. rewrite E. apply no_gap_refl.
    - rewrite Forall_forall in F. by apply F. }
  destruct (execute run c w).1 as [e|problems]; [constructor |]. rewrite worlds_then. cbn [worlds]. rewrite app_nil_r.
  destruct (same_path_emits q _ _ w1 (sweep_denies_touch _ (strangers_good ps all w Hl))) as [S _].
  { intros r. by apply stranger_other. }
  eapply Forall_impl; [exact S |]. intros w' S'. by eapply no_gap_same.
Qed.

(** Refusals of the band no configured path has the mark of. *)
Definition stray_view (ps : list PathConfig) (r : krule) : option denyRule :=
  match deny_view r with
  | Some d => if decide (dr_mark d ∈ path_mark <$> ps) then None else Some d
  | None => None
  end.

Lemma strangers_seen ps all w : lists all w -> strangers ps all = seen (stray_view ps) w.
Proof.
  intros [E _]. unfold strangers. rewrite E. unfold seen. clear. induction (k_rules w) as [|r rs IH]; [done |].
  cbn [omap list_omap]. unfold stray_view at 1. destruct (deny_view r) as [d|]; [| exact IH].
  destruct (decide (dr_mark d ∈ path_mark <$> ps)) as [Hin|Hin].
  - rewrite filter_cons_False; [exact IH | naive_solver].
  - rewrite filter_cons_True by done. by f_equal.
Qed.

Lemma batch_not_stray ps r : batch_rule ps r -> stray_view ps r = None.
Proof.
  intros (p & Hp & H). unfold stray_view. destruct H as [H|H].
  - assert (E : deny_view r = None).
    { destruct (deny_view r) as [d|] eqn:E; [| done]. pose proof (lookup_not_refusal p (dr_mark d) r H) as E'.
      unfold refusal_view in E'. by rewrite E, String.eqb_refl in E'. }
    by rewrite E.
  - unfold refusal_view in H. destruct (deny_view r) as [d|]; [| done].
    destruct (String.eqb_spec (dr_mark d) (path_mark p)) as [E|]; [| done].
    rewrite decide_True; [done |]. rewrite E. apply list_elem_of_fmap. by exists p.
Qed.

Lemma stray_fit ps d r' : good_deny d /\ (dr_mark d ∉ path_mark <$> ps) -> fits (refused d) r' = true <-> stray_view ps r' = Some d.
Proof.
  intros [Hg Hn]. rewrite refused_fit by done. unfold stray_view. split.
  - intros ->. by rewrite decide_False.
  - destruct (deny_view r') as [d'|]; [| done]. by destruct (decide _).
Qed.

Lemma body_pinned `{!Reliable run} ps all w : Forall path_fit ps -> Forall carried ps -> NoDup (path_mark <$> ps) -> lists all w ->
  (forall e, (execute run (ensure_body ps all) w).1 = Some e -> exists problems, e = ErrProblems problems)
  /\ (forall q, q ∈ ps -> pinned q (execute run (ensure_body ps all) w).2)
  /\ seen (stray_view ps) (execute run (ensure_body ps all) w).2 = [].
Proof.
  intros Hps Hc Hnd Hl. unfold ensure_body. rewrite execute_then.
  destruct (paths_pinned exists_ dstIP srcIP ps all [] w Hps Hc Hnd (fun q _ => proj2 Hl q)) as [[problems E] P].
  set (c := probe_paths _ _ _ _ _ _) in *. set (w1 := (execute run c w).2) in *. rewrite E, execute_then.
  set (sw := sweep_denies _). cbn [execute fst snd].
  assert (Hg : Forall good_deny (strangers ps all)) by (eapply strangers_good; exact Hl). split.
  - intros e He. destruct problems; [done |]. injection He as <-. by eexists.
  - split.
    + intros q Hq. eapply pinned_same; [| by apply P].
      apply (same_path_emits q _ _ w1 (sweep_denies_touch _ Hg)). intros r. by apply stranger_other.
    + apply Permutation_nil_r.
      apply (sweep_clears (stray_view ps) refused (fun d => good_deny d /\ (dr_mark d ∉ path_mark <$> ps))).
      * intros d [Hd _]. by apply refused_ok.
      * apply stray_fit.
      * exact _.
      * rewrite Forall_forall in Hg. apply Forall_forall. intros d Hd. split; [by apply Hg |].
        by apply list_elem_of_filter in Hd as [Hd _].
      * rewrite app_nil_r, (strangers_seen ps all w Hl).
        apply (emits_final (batch_rule ps)); [by apply paths_touch | apply batch_not_stray].
Qed.

(** *** A second run *)

(** Commands that read, and the replacement of a route. *)
Inductive quiet : list string -> Prop :=
| q_show : quiet ["ip"; "rule"; "show"]%string
| q_show_table t : quiet ["ip"; "rule"; "show"; "table"; Itoa t]%string
| q_route rest : quiet ("ip" :: "route" :: "replace" :: rest)%string.

Lemma pin_settled want found rule : want ∈ found -> Forall (eq want) found -> pin want found rule = Done None.
Proof.
  intros Hin Hall. unfold pin. rewrite bool_decide_eq_true_2 by done.
  assert (E : filter (fun q => q <> want) found = []).
  { clear Hin. induction Hall as [|q l <- _ IH]; [done |]. rewrite filter_cons_False; [exact IH | naive_solver]. }
  by rewrite E.
Qed.

Lemma path_quiet p all w : path_fit p -> pinned p w -> honest all p w ->
  Forall quiet (issued run (probe_path exists_ p all dstIP srcIP) w)
  /\ k_rules (execute run (probe_path exists_ p all dstIP srcIP) w).2 = k_rules w
  /\ (exists problem, (execute run (probe_path exists_ p all dstIP srcIP) w).1 = inr problem).
Proof.
  intros Hp [[I1 I2] [P1 P2]] Hr. unfold honest in Hr.
  unfold probe_path, ensureProbeRules, listRulesInTable, ask. cbn [then_].
  cbn [issued execute]. pose proof (table_honest p w Hp) as T. destruct (run _ w) as [a w0]. destruct T as [E T].
  assert (Hroute : forall w', k_rules w' = k_rules w -> Forall quiet (issued run (let! r := ensureProbeRouteOnly p dstIP srcIP in
      Done (inr (match r with Some _ => Some (path_Name p) | None => None end) : rule_err + option string)) w')
    /\ k_rules (execute run (let! r := ensureProbeRouteOnly p dstIP srcIP in
      Done (inr (match r with Some _ => Some (path_Name p) | None => None end) : rule_err + option string)) w').2 = k_rules w
    /\ (exists problem, (execute run (let! r := ensureProbeRouteOnly p dstIP srcIP in
      Done (inr (match r with Some _ => Some (path_Name p) | None => None end) : rule_err + option string)) w').1 = inr problem)).
  { intros w' Ew. unfold ensureProbeRouteOnly, ask. cbn [then_ issued execute].
    pose proof (k_route "replace" [(dstIP ++ "/32")%string; "dev"; path_Iface p; "src"; srcIP; "table"; Itoa (path_Table p)]%string w') as Lr.
    destruct (run _ w') as [a' w'']. split; [repeat constructor |]. split; [cbn; by rewrite Lr | by eexists]. }
  destruct a as [out|e]; cbn [then_].
  - specialize (T out eq_refl).
    rewrite pin_settled; [| by rewrite T | by rewrite T]. cbn [then_].
    rewrite pin_settled; [| by rewrite Hr | by rewrite Hr]. cbn [then_].
    destruct (negb _); cbn [issued execute fst snd].
    + split; [repeat constructor |]. split; [done | by eexists].
    + destruct (Hroute w0 E) as (Q & K1 & K2). split; [constructor; [constructor | exact Q] | by split].
  - cbn [issued execute fst snd]. split; [repeat constructor |]. split; [done | by eexists].
Qed.
End whole.
End kernel.
