(* ===== verification/Forward.v ===== *)
(** * Exceptions in a chain somebody else owns ([internal/sysx/nft.go])

    Docker's forward policy drops, so the agents put their own rules in the
    chain it leaves for others and find them again by their comments.  The
    operator's rules live there too.  What [nft] prints of the chain and does
    with a command is [ForwardKernel]; the readings are the source's own, on
    the text. *)

From S2P Require Import Prelude Model Bytes Decimal Text Net Nft Rules ProbeRules.

(** ** The commands *)

Inductive forward_err := ErrNotNetwork (prefix : string) | ErrInsert (e : string).

Definition in_quotes (s : string) : string := (QUOTE ++ s ++ QUOTE)%string.

Definition forwardComment : string := "failover".
Definition overlayForwardComment : string := "failover_overlay".
Definition egressForwardComment : string := "failover_egress".
Definition DockerUserChain : string := "DOCKER-USER".

Definition commentNeedle (comment : string) : string := ("comment " ++ in_quotes comment)%string.

Definition list_chain : list string := ["nft"; "-a"; "list"; "chain"; "ip"; "filter"; DockerUserChain]%string.
Definition delete_rule (handle : string) : list string :=
  ["nft"; "delete"; "rule"; "ip"; "filter"; DockerUserChain; "handle"; handle]%string.
Definition insert_rule (rule : list string) (comment : string) : list string :=
  ["nft"; "insert"; "rule"; "ip"; "filter"; DockerUserChain]%string ++ rule ++ ["comment"%string; in_quotes comment].

Definition lines (s : string) : list string := bytes_string <$> split_lines [] (string_bytes s).

(** What follows the last place a needle is found ([strings.LastIndex]). *)
Fixpoint after_last (needle b : bytes) : option bytes :=
  match b with
  | [] => None
  | _ :: rest =>
      match after_last needle rest with
      | Some x => Some x
      | None => if bool_decide (take (length needle) b = needle) then Some (drop (length needle) b) else None
      end
  end.
Definition handle_of (line : string) : option string :=
  (fun b => TrimSpace (bytes_string b)) <$> after_last (string_bytes "# handle ") (string_bytes line).

(** A deletion for each line that is wanted gone and has a handle. *)
Fixpoint delete_lines (gone : string -> bool) (ls : list string) : cmds unit :=
  match ls with
  | [] => Done tt
  | line :: ls =>
      if gone line then
        match handle_of line with
        | None => delete_lines gone ls
        | Some h => let! _ := ignore (delete_rule h) in delete_lines gone ls
        end
      else delete_lines gone ls
  end.

Definition stale (comment field want line : string) : bool :=
  contains (commentNeedle comment) line && contains (" " ++ field ++ " ")%string line
  && negb (contains (" " ++ field ++ " " ++ want ++ " ")%string line).
Definition dropStaleForwardRules (listing comment field want : string) : cmds unit :=
  delete_lines (stale comment field want) (lines listing).

Definition hasForwardRule (listing comment : string) (rule : list string) : bool :=
  existsb (fun line => contains (commentNeedle comment) line && contains (String.concat " " rule) line) (lines listing).

Fixpoint insert_missing (listing comment : string) (rules : list (list string)) : cmds (option forward_err) :=
  match rules with
  | [] => Done None
  | rule :: rules =>
      if hasForwardRule listing comment rule then insert_missing listing comment rules
      else
        let! r := ask (insert_rule rule comment) in
        match r with
        | Err e => Done (Some (ErrInsert e))
        | Ok _ => insert_missing listing comment rules
        end
  end.

Definition daddr_rule (prefix : string) : list string := ["ip"; "daddr"; prefix; "accept"]%string.
Definition saddr_rule (prefix : string) : list string := ["ip"; "saddr"; prefix; "accept"]%string.
Definition state_rule : list string := ["ct"; "state"; "established,related"; "accept"]%string.

Definition EnsureForwardExceptions (dataPrefix : string) : cmds (option forward_err) :=
  let! existing := ask list_chain in
  match existing with
  | Err _ => Done None
  | Ok existing =>
      let! _ := dropStaleForwardRules existing forwardComment "daddr" dataPrefix in
      insert_missing existing forwardComment [daddr_rule dataPrefix; state_rule]
  end.

Definition EnsureOverlayForwardExceptions (overlayPrefix : string) : cmds (option forward_err) :=
  if String.eqb overlayPrefix "" then Done None
  else
    let prefix := NetworkLiteral overlayPrefix in
    if String.eqb prefix "" then Done (Some (ErrNotNetwork overlayPrefix))
    else
      let! existing := ask list_chain in
      match existing with
      | Err _ => Done None
      | Ok existing =>
          let! _ := dropStaleForwardRules existing overlayForwardComment "daddr" prefix in
          let! _ := dropStaleForwardRules existing overlayForwardComment "saddr" prefix in
          insert_missing existing overlayForwardComment [daddr_rule prefix; saddr_rule prefix]
      end.

Definition EnsureEgressForwardException (dataPrefix : string) : cmds (option forward_err) :=
  let! existing := ask list_chain in
  match existing with
  | Err _ => Done None
  | Ok existing =>
      let! _ := dropStaleForwardRules existing egressForwardComment "saddr" dataPrefix in
      insert_missing existing egressForwardComment [saddr_rule dataPrefix]
  end.

Definition removeCommentedForwardRules (comment : string) : cmds unit :=
  let! out := ask list_chain in
  match out with
  | Err _ => Done tt
  | Ok out => delete_lines (contains (commentNeedle comment)) (lines out)
  end.
Definition RemoveOverlayForwardExceptions : cmds unit := removeCommentedForwardRules overlayForwardComment.
Definition RemoveEgressForwardException : cmds unit := removeCommentedForwardRules egressForwardComment.
Definition RemoveForwardExceptions : cmds unit := removeCommentedForwardRules forwardComment.

Definition ForwardIsBlocked : cmds bool :=
  let! out := ask ["nft"; "list"; "ruleset"]%string in
  Done (match out with
        | Err _ => false
        | Ok out => existsb (fun line => contains "hook forward" line && contains "policy drop" line) (lines out)
        end).

Definition TableMissing (err : option string) : bool :=
  match err with Some e => contains "No such file or directory" e | None => false end.

(** ** The chain *)

(** A rule as [nft] prints it: its matches and verdict, its comment, its
    handle. *)
Record frule := mkFrule { fr_text : string; fr_comment : option string; fr_handle : Z }.

Definition comment_text (c : option string) : string :=
  match c with Some c => (" comment " ++ in_quotes c)%string | None => "" end.
Definition rule_row (r : frule) : string :=
  (TAB ++ TAB ++ fr_text r ++ comment_text (fr_comment r) ++ " # handle " ++ Itoa (fr_handle r))%string.

Definition one_line (s : string) : Prop := 10 ∉ string_bytes s.
Definition unquoted (s : string) : Prop := 34 ∉ string_bytes s.

(** A comment is a string of [nft]'s, which has no quotes in it; the rest of a
    rule does not spell out the beginning of one. *)
Definition frule_ok (r : frule) : Prop :=
  in_i64 (fr_handle r) /\ one_line (fr_text r) /\ contains ("comment " ++ QUOTE)%string (fr_text r) = false
  /\ from_option (fun c => one_line c /\ unquoted c) True (fr_comment r).

(** Values [nft] prints as they are given: an address, or a network that is not
    a single one. *)
Definition keyword_free (p : string) : Prop := word p /\ p ∉ ["saddr"; "daddr"; "state"]%string.
Definition prints_itself (p : string) : Prop :=
  keyword_free p /\ (one_line p /\ unquoted p)
  /\ (AddressLiteral p = p \/ NetworkLiteral p = p /\ contains "/32" p = false).

Inductive exception_rule : list string -> Prop :=
| our_daddr p : prints_itself p -> exception_rule (daddr_rule p)
| our_saddr p : prints_itself p -> exception_rule (saddr_rule p)
| our_state : exception_rule state_rule.
Definition our_comments : list string := [forwardComment; overlayForwardComment; egressForwardComment].

(** The commands on the chain, with the behaviour [nft(8)] documents: a listing
    prints each rule on a line with its handle, a deletion takes the rule of a
    handle, an insertion puts a rule with a new handle first.  [None] is a host
    less_rules the chain.  A command that fails has done nothing. *)
Class ForwardKernel {W} (run : runner W) := {
  fk_chain : W -> option (list frule);
  fk_ok w rs : fk_chain w = Some rs -> Forall frule_ok rs /\ NoDup (fr_handle <$> rs);
  fk_list w : let '(a, w') := run list_chain w in
    fk_chain w' = fk_chain w
    /\ forall out, a = Ok out -> exists rs head foot, fk_chain w = Some rs
         /\ Forall (fun l => one_line l /\ unquoted l) (head ++ foot) /\ head <> []
         /\ out = String.concat NL (head ++ (rule_row <$> rs) ++ foot);
  fk_delete h w : in_i64 h -> let '(a, w') := run (delete_rule (Itoa h)) w in
    fk_chain w' = if is_ok a then filter (fun r => fr_handle r <> h) <$> fk_chain w else fk_chain w;
  fk_insert rule c w : exception_rule rule -> c ∈ our_comments -> let '(a, w') := run (insert_rule rule c) w in
    if is_ok a
    then exists rs h, fk_chain w = Some rs /\ fk_chain w' = Some (mkFrule (String.concat " " rule) (Some c) h :: rs)
    else fk_chain w' = fk_chain w }.

(** Rules a chain has room for. *)
Definition room : Z := 2 ^ 32.

(** Commands that do not fail without a reason. *)
Class ForwardReliable {W} (run : runner W) `{!ForwardKernel run} := {
  fr_list w : is_Some (fk_chain w) -> is_ok (run list_chain w).1 = true;
  fr_delete h w : in_i64 h -> (exists rs r, fk_chain w = Some rs /\ r ∈ rs /\ fr_handle r = h) ->
    is_ok (run (delete_rule (Itoa h)) w).1 = true;
  fr_insert rule c w : exception_rule rule -> c ∈ our_comments ->
    (exists rs, fk_chain w = Some rs /\ Z.of_nat (length rs) < room) ->
    is_ok (run (insert_rule rule c) w).1 = true }.

(** ** What the readings find *)

Definition occurs (n b : bytes) : Prop := exists x y, b = x ++ n ++ y.

Lemma contains_iff n s : contains n s = true <-> occurs (string_bytes n) (string_bytes s).
Proof.
  assert (Hp : forall s, String.prefix n s = true <-> exists y, string_bytes s = string_bytes n ++ y).
  { induction n as [|c n IH]; intros t; [by split; [exists (string_bytes t) | destruct t] |].
    destruct t as [|d t]; cbn [String.prefix]; [by split; [| intros [y ?]] |].
    change (string_bytes (String c n)) with (Z.of_nat (nat_of_ascii c) :: string_bytes n).
    change (string_bytes (String d t)) with (Z.of_nat (nat_of_ascii d) :: string_bytes t). cbn [app].
    destruct (Ascii.ascii_dec c d) as [->|Hne]; [rewrite IH |].
    - split; intros [y Hy]; exists y; [by rewrite Hy | by injection Hy].
    - split; [done |]. intros [y Hy]. exfalso. apply Hne. injection Hy as Hy _. apply Nat2Z.inj, (f_equal ascii_of_nat) in Hy. by rewrite !ascii_nat_embedding in Hy. }
  induction s as [|d s IH]; cbn [contains]; rewrite orb_true_iff, Hp.
  - split; [intros [[y Hy]|?]; [by exists [], y | done] |]. intros (x & y & H). left. exists y. by destruct x.
  - rewrite IH. change (string_bytes (String d s)) with (Z.of_nat (nat_of_ascii d) :: string_bytes s). split.
    + intros [[y Hy]|(x & y & H)]; [by exists [], y |]. exists (Z.of_nat (nat_of_ascii d) :: x), y. cbn. by rewrite H.
    + intros ([|z x] & y & H); [left; by exists y |]. right. injection H as _ H. by exists x, y.
Qed.

Lemma contains_false n s : contains n s = false <-> ~ occurs (string_bytes n) (string_bytes s).
Proof. rewrite <- contains_iff. by destruct (contains n s); split. Qed.

Lemma occurs_in (x : Z) (n b : bytes) : x ∈ n -> x ∉ b -> ~ occurs n b.
Proof. intros Hn Hb (y & z & ->). apply Hb. rewrite !elem_of_app. by right; left. Qed.

(** The first of a byte splits a text in one way. *)
Lemma split_first (x : Z) (p q a b : bytes) : x ∉ p -> x ∉ a -> p ++ x :: q = a ++ x :: b -> p = a /\ q = b.
Proof.
  intros Hp Ha H. pose proof (cut_byte_ok x p q [] Hp) as E. rewrite H, (cut_byte_ok x a b [] Ha) in E.
  by injection E as -> ->.
Qed.

(** Texts in one normal form. *)
Ltac app_norm := do 4 (cbn [app]; rewrite <- ?app_assoc); cbn [app].

(** *** Lines *)

Lemma lines_of ls : ls <> [] -> Forall one_line ls -> lines (String.concat NL ls) = ls.
Proof.
  intros Hne Hls. unfold lines. rewrite string_bytes_concat. change (string_bytes NL) with [10].
  rewrite split_lines_join; [| by destruct ls | by apply Forall_fmap].
  rewrite <- list_fmap_compose. rewrite <- (list_fmap_id ls) at 2. apply list_fmap_ext. intros i l _. cbn. apply bytes_string_bytes.
Qed.

Lemma Itoa_digits h : in_i64 h -> Forall (fun c => 45 <= c <= 57) (string_bytes (Itoa h)).
Proof. intros Hh. apply (Itoa_bytes h Hh). Qed.

(** What a comment's needle begins with. *)
Definition opening : bytes := string_bytes ("comment " ++ QUOTE)%string.

(** A text that does not spell it out cannot begin an occurrence that what
    follows it ends. *)
Lemma occurs_skip rest t x s : ~ occurs opening t -> x <> 34 ->
  occurs (opening ++ rest) (t ++ 32 :: x :: s) -> occurs (opening ++ rest) (32 :: x :: s).
Proof.
  intros Ht Hx (a & b & H). apply app_eq_inv in H as [(k & -> & H) | (k & -> & H)]; [| by exists k, b].
  exfalso. rewrite <- app_assoc in H. apply app_eq_inv in H as [(k' & H & E) | (k' & -> & H)].
  - assert (Hk : k' <> []).
    { intros ->. rewrite app_nil_r in H. subst k. apply Ht. exists a, []. by rewrite app_nil_r. }
    destruct k' as [|y k']; [done |]. injection E as <- E.
    change opening with [99; 111; 109; 109; 101; 110; 116; 32; 34] in H.
    do 7 (destruct k as [|? k]; [discriminate H | injection H as _ H]).
    destruct k as [|? k]; [| by do 2 (destruct k as [|? k]; try discriminate H)].
    injection H as <-. by injection E as ->.
  - apply Ht. by exists a, k'.
Qed.

Lemma row_bytes r : string_bytes (rule_row r)
  = ([9; 9] ++ string_bytes (fr_text r)) ++ string_bytes (comment_text (fr_comment r))
    ++ [32; 35; 32; 104; 97; 110; 100; 108; 101; 32] ++ string_bytes (Itoa (fr_handle r)).
Proof. unfold rule_row. rewrite !string_bytes_append. change (string_bytes TAB) with [9]. by rewrite <- !app_assoc. Qed.

Lemma in_quotes_bytes s : string_bytes (in_quotes s) = 34 :: string_bytes s ++ [34].
Proof. unfold in_quotes. by rewrite !string_bytes_append. Qed.

Lemma needle_bytes c : string_bytes (commentNeedle c) = opening ++ string_bytes c ++ [34].
Proof. unfold commentNeedle. rewrite string_bytes_append, in_quotes_bytes. done. Qed.

Lemma row_one_line r : frule_ok r -> one_line (rule_row r).
Proof.
  intros (Hh & Ht & _ & Hc). unfold one_line in *. rewrite row_bytes, !elem_of_app. intros H.
  assert (Hn : 10 ∉ string_bytes (Itoa (fr_handle r))).
  { intros Hin. apply Itoa_digits in Hh. rewrite Forall_forall in Hh. apply Hh in Hin. lia. }
  destruct H as [[H|H]|[H|[H|H]]]; [by set_solver | done | | by set_solver | done].
  destruct (fr_comment r) as [c|]; [| by set_solver]. destruct Hc as [Hc _]. unfold comment_text in H.
  rewrite string_bytes_append, in_quotes_bytes in H. change (string_bytes " comment ") with [32; 99; 111; 109; 109; 101; 110; 116; 32] in H.
  unfold one_line in Hc. set_solver.
Qed.

(** Of two quotes, the text between them. *)
Lemma between_quotes (p c' t a c b : bytes) : 34 ∉ p -> 34 ∉ c' -> 34 ∉ t -> 34 ∉ c ->
  p ++ 34 :: c' ++ 34 :: t = a ++ 34 :: c ++ 34 :: b -> c' = c.
Proof.
  intros Hp Hc' Ht Hc H. destruct (decide (34 ∈ a)) as [Ha|Ha].
  - exfalso. apply list_elem_of_split_l in Ha as (a1 & a2 & -> & Ha1). rewrite <- app_assoc in H. cbn [app] in H.
    apply split_first in H as [_ H]; [| done..]. destruct (decide (34 ∈ a2)) as [Ha2|Ha2].
    + apply list_elem_of_split_l in Ha2 as (a3 & a4 & -> & Ha3). rewrite <- app_assoc in H. cbn [app] in H.
      apply split_first in H as [_ ->]; [| done..]. apply Ht. set_solver.
    + apply split_first in H as [_ ->]; [| done..]. apply Ht. set_solver.
  - apply split_first in H as [_ H]; [| done..]. by apply split_first in H as [-> _].
Qed.

(** The needle of a comment is found in exactly the rows that have it. *)
Lemma tagged_row r c : frule_ok r -> unquoted c ->
  contains (commentNeedle c) (rule_row r) = bool_decide (fr_comment r = Some c).
Proof.
  intros (Hh & _ & Ht & Hc) Hq.
  assert (Ht' : ~ occurs opening ([9; 9] ++ string_bytes (fr_text r))).
  { apply contains_false in Ht. intros (a & b & E). apply Ht. change (string_bytes ("comment " ++ QUOTE)) with opening.
    destruct a as [|? [|? a]]; [discriminate E | discriminate E |]. injection E as _ _ E. by exists a, b. }
  assert (Hn : 34 ∉ [32; 35; 32; 104; 97; 110; 100; 108; 101; 32] ++ string_bytes (Itoa (fr_handle r))).
  { rewrite elem_of_app. intros [H|Hin]; [by set_solver |]. apply Itoa_digits in Hh. rewrite Forall_forall in Hh. apply Hh in Hin. lia. }
  destruct (fr_comment r) as [c'|] eqn:Ec; cbn [from_option] in Hc.
  - destruct Hc as [_ Hc].
    assert (E : string_bytes (rule_row r) = ([9; 9] ++ string_bytes (fr_text r)) ++ 32 :: 99 :: [111; 109; 109; 101; 110; 116; 32]
      ++ 34 :: string_bytes c' ++ 34 :: [32; 35; 32; 104; 97; 110; 100; 108; 101; 32] ++ string_bytes (Itoa (fr_handle r))).
    { rewrite row_bytes, Ec. unfold comment_text. rewrite string_bytes_append, in_quotes_bytes.
      change (string_bytes " comment ") with [32; 99; 111; 109; 109; 101; 110; 116; 32]. by app_norm. }
    case_bool_decide as Hd.
    + injection Hd as ->. apply contains_iff. rewrite E, needle_bytes. exists (([9; 9] ++ string_bytes (fr_text r)) ++ [32]).
      exists ([32; 35; 32; 104; 97; 110; 100; 108; 101; 32] ++ string_bytes (Itoa (fr_handle r))).
      change opening with [99; 111; 109; 109; 101; 110; 116; 32; 34]. by app_norm.
    + apply contains_false. rewrite E, needle_bytes. intros H. apply (occurs_skip _ _ 99 _ Ht') in H; [| done].
      destruct H as (a & b & H). change opening with ([99; 111; 109; 109; 101; 110; 116; 32] ++ [34]) in H.
      set (tail := [32; 35; 32; 104; 97; 110; 100; 108; 101; 32] ++ _) in *.
      assert (H' : [32; 99; 111; 109; 109; 101; 110; 116; 32] ++ 34 :: string_bytes c' ++ 34 :: tail
        = (a ++ [99; 111; 109; 109; 101; 110; 116; 32]) ++ 34 :: string_bytes c ++ 34 :: b).
      { cbn [app] in H. cbn [app]. rewrite H. by app_norm. }
      apply between_quotes in H'; [| by set_solver | done..]. apply Hd. f_equal. by apply string_bytes_inj.
  - rewrite bool_decide_false by done. apply contains_false. rewrite row_bytes, Ec, needle_bytes. cbn [comment_text].
    change (string_bytes "" ++ ?x) with x. intros H. apply (occurs_skip _ _ 35 _ Ht') in H; [| done].
    revert H. apply (occurs_in 34); [change opening with [99; 111; 109; 109; 101; 110; 116; 32; 34]; set_solver | exact Hn].
Qed.

Lemma after_last_end n x rest d : x ∉ rest ++ d -> n = x :: rest -> forall p, after_last n (p ++ n ++ d) = Some d.
Proof.
  intros Hx -> p. assert (Hn : forall b, x ∉ b -> after_last (x :: rest) b = None).
  { induction b as [|y b IH]; intros Hb; [done |]. cbn [after_last]. rewrite IH by set_solver.
    rewrite bool_decide_false; [done |]. cbn. intros [= -> _]. set_solver. }
  induction p as [|y p IH]; [| rewrite <- app_comm_cons; cbn [after_last]; by rewrite IH].
  change ([] ++ (x :: rest) ++ d) with (x :: rest ++ d). cbn [after_last]. rewrite (Hn _ Hx).
  change (x :: rest ++ d) with ((x :: rest) ++ d). rewrite take_app_length, drop_app_length. by rewrite bool_decide_true.
Qed.

(** What is read as a row's handle is its handle. *)
Lemma handle_row r : in_i64 (fr_handle r) -> handle_of (rule_row r) = Some (Itoa (fr_handle r)).
Proof.
  intros Hh. pose proof (Itoa_digits _ Hh) as Hd. unfold handle_of. rewrite row_bytes.
  change (string_bytes "# handle ") with [35; 32; 104; 97; 110; 100; 108; 101; 32].
  set (p := [9; 9] ++ string_bytes (fr_text r)). set (c := string_bytes (comment_text _)). set (d := string_bytes (Itoa _)) in *.
  replace (p ++ c ++ [32; 35; 32; 104; 97; 110; 100; 108; 101; 32] ++ d)
    with ((p ++ c ++ [32]) ++ [35; 32; 104; 97; 110; 100; 108; 101; 32] ++ d) by (by app_norm).
  erewrite after_last_end; [| | reflexivity].
  - cbn. f_equal. unfold d. rewrite bytes_string_bytes. apply TrimSpace_plain. apply forallb_forall. intros x Hx.
    rewrite Forall_forall in Hd. apply list_elem_of_In, Hd in Hx. unfold plain_byte. apply andb_true_iff. lia.
  - rewrite elem_of_app. intros [H|H]; [by set_solver |]. rewrite Forall_forall in Hd. apply Hd in H. lia.
Qed.

(** *** Words of a row *)

(** The parts of a text between its spaces. *)
Fixpoint cut_spaces (acc b : bytes) : list bytes :=
  match b with
  | [] => [rev acc]
  | c :: b => if c =? 32 then rev acc :: cut_spaces [] b else cut_spaces (c :: acc) b
  end.

Lemma cut_spaces_app a b : forall acc, cut_spaces acc (a ++ 32 :: b) = cut_spaces acc a ++ cut_spaces [] b.
Proof.
  induction a as [|x a IH]; intros acc; cbn [app cut_spaces]; [done |].
  destruct (x =? 32); cbn [app]; by rewrite IH.
Qed.

Lemma cut_spaces_one a : 32 ∉ a -> forall acc, cut_spaces acc a = [rev acc ++ a].
Proof.
  induction a as [|x a IH]; intros Ha acc; cbn [cut_spaces]; [by rewrite app_nil_r |].
  destruct (Z.eqb_spec x 32) as [->|]; [set_solver |]. rewrite IH by set_solver. cbn. by rewrite <- app_assoc.
Qed.

Lemma cut_spaces_join ws : ws <> [] -> Forall (fun w => 32 ∉ w) ws -> cut_spaces [] (join_bytes [32] ws) = ws.
Proof.
  destruct ws as [|w ws]; [done |]. intros _. revert w. induction ws as [|v ws IH]; intros w Hws;
    apply Forall_cons in Hws as [Hw Hws]; cbn [join_bytes fmap list_fmap concat].
  - rewrite app_nil_r. by apply cut_spaces_one.
  - cbn [app]. rewrite cut_spaces_app, (cut_spaces_one w Hw). cbn. f_equal. by apply (IH v).
Qed.

(** A needle of two words that a text of words contains is two of them, one
    after the other. *)
Lemma contains_pair ws before k v after : Forall (fun w => 32 ∉ string_bytes w) ws -> ws <> [] ->
  32 ∉ string_bytes k -> 32 ∉ string_bytes v ->
  contains (before ++ " " ++ k ++ " " ++ v ++ " " ++ after) (String.concat " " ws) = true -> followed_by k v ws = true.
Proof.
  intros Hws Hne Hk Hv H. apply contains_iff in H as (a & b & H).
  assert (Hws' : Forall (fun w => 32 ∉ w) (string_bytes <$> ws)) by (by apply Forall_fmap).
  assert (Hne' : string_bytes <$> ws <> []) by (by destruct ws).
  pose proof (cut_spaces_join _ Hne' Hws') as E. rewrite string_bytes_concat in H. change (string_bytes " ") with [32] in H.
  rewrite H in E. rewrite !string_bytes_append in E. change (string_bytes " ") with [32] in E.
  replace (a ++ (string_bytes before ++ [32] ++ string_bytes k ++ [32] ++ string_bytes v ++ [32] ++ string_bytes after) ++ b)
    with ((a ++ string_bytes before) ++ 32 :: string_bytes k ++ 32 :: string_bytes v ++ 32 :: (string_bytes after ++ b)) in E by (by app_norm).
  rewrite !cut_spaces_app, (cut_spaces_one _ Hk), (cut_spaces_one _ Hv) in E. cbn [rev app] in E.
  revert E. generalize (cut_spaces [] (a ++ string_bytes before)) (cut_spaces [] (string_bytes after ++ b)). clear.
  intros l l' E. revert ws E. induction l as [|x l IH]; intros [|w ws] E; try done; cbn in E.
  - injection E as Ek E. destruct ws as [|w' ws]; [done |]. injection E as Ev _.
    apply string_bytes_inj in Ek as ->. apply string_bytes_inj in Ev as ->. cbn. by rewrite !String.eqb_refl.
  - injection E as _ E. apply IH in E. destruct ws as [|y ws]; [done |].
    change (followed_by k v (w :: y :: ws)) with ((String.eqb w k && String.eqb y v) || followed_by k v (y :: ws)).
    by rewrite E, orb_true_r.
Qed.

(** *** The rows of our rules *)

Definition keys : list string := ["saddr"; "daddr"; "state"]%string.
Definition row_words (rule : list string) (c : string) (h : Z) : list string :=
  match rule with
  | [] => []
  | x :: rest => (TAB ++ TAB ++ x)%string :: rest ++ ["comment"%string; in_quotes c; "#"%string; "handle"%string; Itoa h]
  end.

Lemma our_row rule c h : exception_rule rule ->
  rule_row (mkFrule (String.concat " " rule) (Some c) h) = String.concat " " (row_words rule c h).
Proof.
  intros Hr. apply string_bytes_inj. rewrite row_bytes, string_bytes_concat. cbn [fr_text fr_comment fr_handle comment_text].
  rewrite string_bytes_append, string_bytes_concat. change (string_bytes " ") with [32].
  change (string_bytes " comment ") with [32; 99; 111; 109; 109; 101; 110; 116; 32].
  destruct Hr; unfold daddr_rule, saddr_rule, state_rule; cbn [row_words app fmap list_fmap join_bytes concat];
    rewrite ?string_bytes_append; change (string_bytes TAB) with [9]; change (string_bytes "#") with [35];
    change (string_bytes "handle") with [104; 97; 110; 100; 108; 101];
    change (string_bytes "comment") with [99; 111; 109; 109; 101; 110; 116]; app_norm; rewrite ?app_nil_r; reflexivity.
Qed.

Lemma word_solid w : word w -> 32 ∉ string_bytes w.
Proof.
  intros [_ Hw] H. rewrite forallb_forall in Hw. apply list_elem_of_In, Hw in H. done.
Qed.

Lemma solid s : forallb (fun x => negb (x =? 32)) (string_bytes s) = true -> 32 ∉ string_bytes s.
Proof. intros Hs H. rewrite forallb_forall in Hs. by apply list_elem_of_In, Hs in H. Qed.

Lemma row_words_solid rule c h : exception_rule rule -> c ∈ our_comments -> in_i64 h ->
  row_words rule c h <> [] /\ Forall (fun w => 32 ∉ string_bytes w) (row_words rule c h).
Proof.
  intros Hr Hc Hh. assert (Hi : 32 ∉ string_bytes (Itoa h)).
  { intros H. apply Itoa_digits in Hh. rewrite Forall_forall in Hh. apply Hh in H. lia. }
  assert (Hq : 32 ∉ string_bytes (in_quotes c)).
  { unfold our_comments in Hc. rewrite !elem_of_cons, elem_of_nil in Hc.
    destruct_or!; subst; try done; by apply solid. }
  destruct Hr as [p [[Hp _] _] | p [[Hp _] _] |]; cbn [row_words daddr_rule saddr_rule state_rule app]; (split; [done |]);
    try apply word_solid in Hp; repeat (constructor; [first [assumption | by apply solid; vm_compute] |]); constructor.
Qed.

(** A key is followed by in the row what it is followed by in the rule. *)
Lemma row_follows rule c h k v : exception_rule rule -> k ∈ keys -> followed_by k v (row_words rule c h) = followed_by k v rule.
Proof.
  intros Hr Hk. unfold keys in Hk. rewrite !elem_of_cons, elem_of_nil in Hk.
  destruct Hr as [p [[_ Hp] _] | p [[_ Hp] _] |]; cbn [row_words daddr_rule saddr_rule state_rule app followed_by];
    destruct_or!; subst; try done; cbn [String.eqb Ascii.eqb Bool.eqb andb orb TAB append]; eval_eqb; cbn [andb orb].
Qed.

Lemma contains_word ws k : Forall (fun w => 32 ∉ string_bytes w) ws -> ws <> [] -> 32 ∉ string_bytes k ->
  contains (" " ++ k ++ " ") (String.concat " " ws) = true -> k ∈ ws.
Proof.
  intros Hws Hne Hk H. apply contains_iff in H as (a & b & H).
  assert (Hws' : Forall (fun w => 32 ∉ w) (string_bytes <$> ws)) by (by apply Forall_fmap).
  assert (Hne' : string_bytes <$> ws <> []) by (by destruct ws).
  pose proof (cut_spaces_join _ Hne' Hws') as E. rewrite string_bytes_concat in H. change (string_bytes " ") with [32] in H.
  rewrite H, !string_bytes_append in E. change (string_bytes " ") with [32] in E.
  replace (a ++ ([32] ++ string_bytes k ++ [32]) ++ b) with (a ++ 32 :: string_bytes k ++ 32 :: b) in E by (by app_norm).
  rewrite !cut_spaces_app, (cut_spaces_one _ Hk) in E. cbn [rev app] in E.
  assert (Hin : string_bytes k ∈ string_bytes <$> ws) by (rewrite <- E, !elem_of_app; right; left; done).
  apply list_elem_of_fmap in Hin as (w & Hw & Hin). by apply string_bytes_inj in Hw as ->.
Qed.

(** The rule's key with its value, of those with one. *)
Definition rule_key (rule : list string) : string * string :=
  match rule with [_; k; v; _] => (k, v) | _ => (""%string, ""%string) end.

Lemma our_key rule k v : exception_rule rule -> k ∈ keys -> followed_by k v rule = bool_decide (rule_key rule = (k, v)).
Proof.
  intros Hr Hk. unfold keys in Hk. rewrite !elem_of_cons, elem_of_nil in Hk.
  assert (E : forall a b c d : string, bool_decide ((a, b) = (c, d)) = String.eqb a c && String.eqb b d).
  { intros a b c d. destruct (String.eqb_spec a c), (String.eqb_spec b d); subst; cbn; [by apply bool_decide_true | | |];
      apply bool_decide_false; congruence. }
  destruct Hr as [p [[_ Hp] _] | p [[_ Hp] _] |]; cbn [rule_key daddr_rule saddr_rule state_rule followed_by];
    rewrite E; rewrite !not_elem_of_cons in Hp || idtac; destruct_or!; subst; try done; eval_eqb; cbn [andb orb];
    rewrite ?orb_false_r; try done; repeat match goal with H : _ /\ _ |- _ => destruct H end;
    rewrite ?(proj2 (String.eqb_neq p "saddr")), ?(proj2 (String.eqb_neq p "daddr")), ?(proj2 (String.eqb_neq p "state")) by done;
    cbn [andb orb]; by rewrite ?orb_false_r.
Qed.

Lemma rule_key_inj r r' : exception_rule r -> exception_rule r' -> rule_key r = rule_key r' -> r = r'.
Proof. intros [] []; cbn; intros [= ]; by subst. Qed.

Lemma our_key_in rule : exception_rule rule -> (rule_key rule).1 ∈ keys /\ 32 ∉ string_bytes (rule_key rule).2.
Proof.
  unfold keys. intros [p [[Hp _] _] | p [[Hp _] _] |]; cbn [rule_key daddr_rule saddr_rule state_rule fst snd]; (split; [set_solver |]);
    [by apply word_solid.. | by apply solid].
Qed.

Lemma key_solid k : k ∈ keys -> 32 ∉ string_bytes k.
Proof. unfold keys. rewrite !elem_of_cons, elem_of_nil. intros H. destruct_or!; subst; try done; by apply solid. Qed.

(** A row of a rule of ours is found to have a rule of ours exactly when it is
    that rule. *)
Lemma covers_row rule rule' c h : exception_rule rule -> exception_rule rule' -> c ∈ our_comments -> in_i64 h ->
  contains (String.concat " " rule') (rule_row (mkFrule (String.concat " " rule) (Some c) h)) = true <-> rule' = rule.
Proof.
  intros Hr Hr' Hc Hh. split.
  - rewrite our_row by done. intros H. destruct (row_words_solid rule c h Hr Hc Hh) as [Hne Hs].
    destruct (our_key_in rule' Hr') as [Hk Hv]. destruct (rule_key rule') as [k v] eqn:Ek. cbn [fst snd] in Hk, Hv.
    assert (Hp : followed_by k v (row_words rule c h) = true).
    { assert (E : exists x y, rule' = [x; k; v; y]) by (destruct Hr'; injection Ek as <- <-; by eexists _, _).
      destruct E as (x & y & ->). apply (contains_pair _ x k v y Hs Hne (key_solid k Hk) Hv). exact H. }
    rewrite row_follows, our_key in Hp by done. apply bool_decide_eq_true in Hp. apply rule_key_inj; [done.. |]. congruence.
  - intros ->. apply contains_iff. rewrite row_bytes. cbn [fr_text]. exists [9; 9]. eexists. rewrite <- app_assoc. reflexivity.
Qed.

Lemma row_spelled rule c h : exception_rule rule ->
  exists a b, string_bytes (rule_row (mkFrule (String.concat " " rule) (Some c) h))
    = a ++ 32 :: string_bytes (rule_key rule).1 ++ 32 :: string_bytes (rule_key rule).2 ++ 32 :: b.
Proof.
  intros Hr. rewrite row_bytes. cbn [fr_text fr_comment fr_handle]. rewrite string_bytes_concat.
  change (string_bytes " ") with [32].
  destruct Hr; cbn [rule_key daddr_rule saddr_rule state_rule fst snd fmap list_fmap join_bytes concat];
    [exists ([9; 9] ++ string_bytes "ip") | exists ([9; 9] ++ string_bytes "ip") | exists ([9; 9] ++ string_bytes "ct")];
    eexists; app_norm; reflexivity.
Qed.

(** Stale rows are those of our rules with this key and another value. *)
Lemma stale_row rule c field want h : exception_rule rule -> c ∈ our_comments -> unquoted c -> field ∈ keys -> word want ->
  let r := mkFrule (String.concat " " rule) (Some c) h in frule_ok r ->
  stale c field want (rule_row r) = bool_decide ((rule_key rule).1 = field /\ (rule_key rule).2 <> want).
Proof.
  intros Hr Hc Hq Hf Hw. cbv zeta. intros Hok. pose proof (proj1 Hok) as Hh. cbn [fr_handle] in Hh.
  unfold stale. rewrite (tagged_row _ c Hok Hq). cbn [fr_comment].
  rewrite (bool_decide_true (Some c = Some c)) by done. cbn [andb].
  destruct (row_words_solid rule c h Hr Hc Hh) as [Hne Hs]. destruct (row_spelled rule c h Hr) as (a & b & E).
  assert (E1 : contains (" " ++ field ++ " ") (rule_row (mkFrule (String.concat " " rule) (Some c) h))
    = bool_decide ((rule_key rule).1 = field)).
  { case_bool_decide as Hd.
    - apply contains_iff. rewrite E, !string_bytes_append, <- Hd. change (string_bytes " ") with [32].
      exists a. eexists. app_norm. reflexivity.
    - apply not_true_is_false. intros H. rewrite our_row in H by done. apply contains_word in H; [| done | done | by apply key_solid].
      apply Hd. clear - Hr Hc Hf Hh H. revert H. unfold keys in Hf. rewrite !elem_of_cons, elem_of_nil in Hf.
      assert (Hcq : in_quotes c <> field).
      { intros <-. destruct_or!; try done; apply (f_equal string_bytes) in Hf; rewrite in_quotes_bytes in Hf; discriminate Hf. }
      assert (Hi : Itoa h <> field).
      { intros Hi. apply Itoa_digits in Hh. rewrite Hi in Hh. destruct_or!; try done; subst; apply Forall_inv in Hh;
          vm_compute in Hh; destruct Hh as [_ Hh]; exact (Hh eq_refl). }
      destruct Hr as [p [[_ Hp] _] | p [[_ Hp] _] |]; cbn [row_words daddr_rule saddr_rule state_rule app rule_key fst];
        rewrite !elem_of_cons, ?elem_of_nil; intros H; destruct_or!; subst; try done; exfalso; set_solver. }
  assert (E2 : contains (" " ++ field ++ " " ++ want ++ " ") (rule_row (mkFrule (String.concat " " rule) (Some c) h))
    = bool_decide (rule_key rule = (field, want))).
  { destruct (decide (rule_key rule = (field, want))) as [Hd|Hd];
      [rewrite bool_decide_true by done | rewrite bool_decide_false by done].
    - apply contains_iff. rewrite E, !string_bytes_append, Hd. change (string_bytes " ") with [32].
      exists a. eexists. cbn [fst snd]. app_norm. reflexivity.
    - apply not_true_is_false. intros H. rewrite our_row in H by done.
      apply (contains_pair _ "" field want "" Hs Hne (key_solid _ Hf) (word_solid _ Hw)) in H.
      rewrite row_follows, our_key in H by done. by apply bool_decide_eq_true in H. }
  rewrite E1, E2. destruct (rule_key rule) as [k v]. cbn [fst snd].
  repeat case_bool_decide; try done; naive_solver.
Qed.

(** ** What the programs do to the chain *)

Definition delete_row (r : frule) : list string := delete_rule (Itoa (fr_handle r)).

Lemma filter_agree {A} (P Q : A -> Prop) `{!forall x, Decision (P x), !forall x, Decision (Q x)} (l : list A) :
  (forall x, x ∈ l -> P x <-> Q x) -> filter P l = filter Q l.
Proof.
  intros E. induction l as [|x l IH]; [done |]. rewrite !filter_cons, IH by (intros y Hy; apply E; by right).
  specialize (E x ltac:(by left)). repeat case_decide; tauto.
Qed.

Lemma filter_id {A} (P : A -> Prop) `{!forall x, Decision (P x)} (l : list A) : (forall x, x ∈ l -> P x) -> filter P l = l.
Proof.
  intros E. induction l as [|x l IH]; [done |]. rewrite filter_cons_True by (apply E; by left).
  f_equal. apply IH. intros y Hy. apply E. by right.
Qed.

(** Over rows, a deletion for each rule that is wanted gone. *)
Lemma delete_filtered gone ls : delete_lines gone ls = delete_lines gone (filter (fun l => gone l = true) ls).
Proof.
  induction ls as [|l ls IH]; [done |]. cbn [delete_lines]. destruct (gone l) eqn:E.
  - rewrite filter_cons_True by done. cbn [delete_lines]. rewrite E. by destruct (handle_of l); rewrite IH.
  - rewrite filter_cons_False by congruence. exact IH.
Qed.

Lemma delete_rows gone rs : Forall frule_ok rs ->
  delete_lines gone (rule_row <$> rs) = sweep delete_row (filter (fun r => gone (rule_row r) = true) rs).
Proof.
  induction 1 as [|r rs Hr _ IH]; [done |]. cbn [fmap list_fmap delete_lines]. rewrite handle_row by apply Hr.
  destruct (gone (rule_row r)) eqn:E; [rewrite filter_cons_True by done | rewrite filter_cons_False by congruence; exact IH].
  cbn [sweep]. by rewrite <- IH.
Qed.

Lemma existsb_filtered (f : string -> bool) ls : existsb f ls = existsb f (filter (fun l => f l = true) ls).
Proof.
  induction ls as [|l ls IH]; [done |]. cbn [existsb]. destruct (f l) eqn:E.
  - rewrite filter_cons_True by done. cbn [existsb]. by rewrite E.
  - rewrite filter_cons_False by congruence. exact IH.
Qed.

Lemma existsb_rows (f : string -> bool) rs : existsb f (rule_row <$> rs) = existsb (fun r => f (rule_row r)) rs.
Proof. induction rs as [|r rs IH]; [done |]. cbn. by rewrite IH. Qed.

Section forward.
Context {W : Type} (run : runner W) `{HK : !ForwardKernel run}.
Context (c : string) (Hc : c ∈ our_comments).

Definition is_ours (r : frule) : Prop := fr_comment r = Some c.
#[local] Instance is_ours_dec r : Decision (is_ours r).
Proof. unfold is_ours. apply _. Defined.

(** The rules of others, in their order. *)
Definition other_rules (w : W) : option (list frule) := filter (fun r => ~ is_ours r) <$> fk_chain w.

Lemma comment_unquoted : unquoted c.
Proof. unfold our_comments in Hc. rewrite !elem_of_cons, elem_of_nil in Hc. unfold unquoted. destruct_or!; subst; try done; vm_compute; set_solver. Qed.

(** *** Listings *)

(** The lines of a listing that a test which needs a comment can pick are rows. *)
Definition listed (rs : list frule) (ls : list string) : Prop :=
  forall gone, (forall l, gone l = true -> contains (commentNeedle c) l = true) ->
    filter (fun l => gone l = true) ls = filter (fun l => gone l = true) (rule_row <$> rs).

Lemma list_kept w : fk_chain (run list_chain w).2 = fk_chain w.
Proof. pose proof (fk_list (run := run) w) as H. destruct (run list_chain w). apply H. Qed.

Lemma list_read w out : (run list_chain w).1 = Ok out ->
  exists rs, fk_chain w = Some rs /\ listed rs (lines out).
Proof.
  intros Ha. pose proof (fk_list (run := run) w) as H. destruct (run list_chain w) as [a w']. cbn in Ha. subst a.
  destruct H as [_ H]. destruct (H out eq_refl) as (rs & head & foot & E & Hq & Hne & ->). exists rs. split; [done |].
  destruct (fk_ok (run := run) w rs E) as [Hok _].
  rewrite lines_of; [| by destruct head |].
  - intros gone Hg. rewrite !filter_app. apply Forall_app in Hq as [Hh Hf].
    assert (Hn : forall ls, Forall (fun l => one_line l /\ unquoted l) ls -> filter (fun l => gone l = true) ls = []).
    { intros ls Hls. induction Hls as [|l ls [_ Hl] _ IH]; [done |].
      rewrite filter_cons_False; [done |]. intros Hgl. apply Hg, contains_iff in Hgl. rewrite needle_bytes in Hgl.
      revert Hgl. apply (occurs_in 34); [change opening with [99; 111; 109; 109; 101; 110; 116; 32; 34]; apply elem_of_app; left; clear; set_solver | done]. }
    rewrite (Hn head Hh), (Hn foot Hf), app_nil_r. done.
  - apply Forall_app in Hq as [Hh Hf]. apply Forall_app_2; [eapply Forall_impl; [exact Hh | by intros l []] |].
    apply Forall_app_2; [| eapply Forall_impl; [exact Hf | by intros l []]].
    apply Forall_fmap. eapply Forall_impl; [exact Hok |]. intros r. apply row_one_line.
Qed.

Lemma listed_delete rs ls gone : listed rs ls -> Forall frule_ok rs ->
  (forall l, gone l = true -> contains (commentNeedle c) l = true) ->
  delete_lines gone ls = sweep delete_row (filter (fun r => gone (rule_row r) = true) rs).
Proof. intros Hl Hok Hg. rewrite delete_filtered, (Hl gone Hg), <- delete_filtered. by apply delete_rows. Qed.

Lemma listed_has rs out rule : listed rs (lines out) ->
  hasForwardRule out c rule
  = existsb (fun r => contains (commentNeedle c) (rule_row r) && contains (String.concat " " rule) (rule_row r)) rs.
Proof.
  intros Hl. unfold hasForwardRule. rewrite existsb_filtered, Hl, <- existsb_filtered; [apply existsb_rows |].
  intros l. by rewrite andb_true_iff; intros [].
Qed.

Lemma stale_ours field want l : stale c field want l = true -> contains (commentNeedle c) l = true.
Proof. unfold stale. rewrite !andb_true_iff. tauto. Qed.

Lemma tagged_ours r : frule_ok r -> contains (commentNeedle c) (rule_row r) = true <-> is_ours r.
Proof. intros Hr. rewrite (tagged_row r c Hr comment_unquoted). apply bool_decide_eq_true. Qed.

(** *** Deletions *)

(** Within the rules a listing gave, a handle is of one rule. *)
Lemma handle_one rs r r' : NoDup (fr_handle <$> rs) -> r ∈ rs -> r' ∈ rs -> fr_handle r = fr_handle r' -> r = r'.
Proof.
  intros Hnd Hr Hr' E. induction rs as [|x rs IH]; [by apply elem_of_nil in Hr |].
  apply NoDup_cons in Hnd as [Hx Hnd]. apply elem_of_cons in Hr, Hr'.
  assert (Hin : forall y, y ∈ rs -> fr_handle y = fr_handle x -> False).
  { intros y Hy Ey. apply Hx. apply list_elem_of_fmap. by exists y. }
  destruct Hr as [->|Hr], Hr' as [->|Hr']; [done | by destruct (Hin r') | by destruct (Hin r) | by apply IH].
Qed.

Definition less_rules (ds cur : list frule) : list frule := filter (fun r => fr_handle r ∉ fr_handle <$> ds) cur.

Lemma strangers_without rs cur h : NoDup (fr_handle <$> rs) -> cur ⊆ rs -> (exists d, d ∈ rs /\ is_ours d /\ fr_handle d = h) ->
  filter (fun r => ~ is_ours r) (filter (fun r => fr_handle r <> h) cur) = filter (fun r => ~ is_ours r) cur.
Proof.
  intros Hnd Hsub (d & Hd & Ho & E). rewrite list_filter_filter. apply filter_agree. intros r Hr.
  split; [by intros [] |]. intros Hs. split; [done |]. intros Eh. apply Hs.
  by rewrite (handle_one rs r d Hnd (Hsub r Hr) Hd) by congruence.
Qed.

Lemma delete_step w cur h : fk_chain w = Some cur -> in_i64 h ->
  fk_chain (run (delete_rule (Itoa h)) w).2 = Some cur
  \/ fk_chain (run (delete_rule (Itoa h)) w).2 = Some (filter (fun r => fr_handle r <> h) cur).
Proof.
  intros E Hh. pose proof (fk_delete (run := run) h w Hh) as H. destruct (run _ w) as [a w']. rewrite E in H.
  destruct (is_ok a); cbn; [by right | by left].
Qed.

Lemma sweep_kept rs ds : Forall frule_ok rs -> NoDup (fr_handle <$> rs) -> Forall (fun d => d ∈ rs /\ is_ours d) ds ->
  forall w cur, fk_chain w = Some cur -> cur ⊆ rs ->
  Forall (fun w' => other_rules w' = other_rules w) (worlds run (sweep delete_row ds) w)
  /\ exists cur', fk_chain (execute run (sweep delete_row ds) w).2 = Some cur' /\ cur' ⊆ rs.
Proof.
  intros Hok Hnd. induction 1 as [|d ds [Hd Ho] Hds IH]; intros w cur E Hsub; [by split; [constructor | exists cur] |].
  cbn [sweep]. unfold ignore. cbn [then_]. rewrite worlds_exec, execute_exec.
  assert (Hh : in_i64 (fr_handle d)) by (rewrite Forall_forall in Hok; by apply Hok in Hd as [? _]).
  set (w1 := (run (delete_row d) w).2).
  assert (H1 : exists cur1, fk_chain w1 = Some cur1 /\ cur1 ⊆ rs /\ other_rules w1 = other_rules w).
  { unfold other_rules. destruct (delete_step w cur (fr_handle d) E Hh) as [E1|E1]; fold (delete_row d) w1 in E1; rewrite E1, E; eexists;
      (split; [done |]); [done |]. split; [intros r Hr; apply list_elem_of_filter in Hr as [_ Hr]; by apply Hsub |].
    cbn. f_equal. apply (strangers_without rs cur (fr_handle d)); [done | done | by exists d]. }
  destruct H1 as (cur1 & E1 & Hs1 & Hst). destruct (IH w1 cur1 E1 Hs1) as [H2 H3]. split; [| exact H3].
  constructor; [exact Hst |]. eapply Forall_impl; [exact H2 |]. intros w' ->. exact Hst.
Qed.

Lemma sweep_exact `{!ForwardReliable run} rs ds : Forall frule_ok rs -> Forall (fun d => d ∈ rs) ds ->
  forall w cur, fk_chain w = Some cur ->
  fk_chain (execute run (sweep delete_row ds) w).2 = Some (less_rules ds cur).
Proof.
  intros Hok. induction 1 as [|d ds Hd Hds IH]; intros w cur E.
  { cbn. rewrite E. unfold less_rules. f_equal. symmetry. apply filter_id.
    intros r _. by apply not_elem_of_nil. }
  cbn [sweep]. unfold ignore. cbn [then_]. rewrite execute_exec.
  assert (Hh : in_i64 (fr_handle d)) by (rewrite Forall_forall in Hok; by apply Hok in Hd as [? _]).
  assert (E1 : fk_chain (run (delete_row d) w).2 = Some (filter (fun r => fr_handle r <> fr_handle d) cur)).
  { destruct (decide (fr_handle d ∈ fr_handle <$> cur)) as [Hin|Hin].
    - apply list_elem_of_fmap in Hin as (r & Er & Hr).
      pose proof (fr_delete (run := run) (fr_handle d) w Hh ltac:(by exists cur, r)) as Ha.
      pose proof (fk_delete (run := run) (fr_handle d) w Hh) as H. unfold delete_row. destruct (run _ w) as [a w']. cbn in Ha.
      rewrite Ha, E in H. exact H.
    - assert (En : filter (fun r => fr_handle r <> fr_handle d) cur = cur).
      { apply filter_id. intros r Hr Er. apply Hin. rewrite <- Er. apply list_elem_of_fmap. by exists r. }
      destruct (delete_step w cur (fr_handle d) E Hh) as [E1|E1]; [by rewrite En | done]. }
  rewrite (IH _ _ E1). unfold less_rules. f_equal. rewrite list_filter_filter. apply filter_agree. intros r _.
  cbn [fmap list_fmap]. rewrite elem_of_cons. tauto.
Qed.

(** *** Insertions *)

Lemma insert_step rule w : exception_rule rule -> let '(a, w') := run (insert_rule rule c) w in
  other_rules w' = other_rules w
  /\ (is_ok a = true -> exists rs h, fk_chain w = Some rs
       /\ fk_chain w' = Some (mkFrule (String.concat " " rule) (Some c) h :: rs)).
Proof.
  intros Hr. pose proof (fk_insert (run := run) rule c w Hr Hc) as H. unfold other_rules. destruct (run _ w) as [a w'].
  destruct (is_ok a) eqn:Ea; [| by rewrite H]. destruct H as (rs & h & E & E'). rewrite E, E'. split; [| by exists rs, h].
  cbn [fmap option_fmap option_map]. by rewrite filter_cons_False by (intros Hn; by apply Hn).
Qed.

Lemma insert_kept out rules : Forall exception_rule rules -> forall w,
  Forall (fun w' => other_rules w' = other_rules w) (worlds run (insert_missing out c rules) w).
Proof.
  induction 1 as [|rule rules Hr _ IH]; intros w; cbn [insert_missing]; [constructor |].
  destruct (hasForwardRule out c rule); [apply IH |]. unfold ask. cbn [then_]. rewrite worlds_exec.
  pose proof (insert_step rule w Hr) as H. destruct (run _ w) as [a w1]. cbn [fst snd]. destruct H as [H _].
  constructor; [exact H |]. destruct a; [| constructor]. eapply Forall_impl; [apply IH |]. intros w' ->. exact H.
Qed.

Lemma insert_exact `{!ForwardReliable run} out rules : Forall exception_rule rules -> forall w cur, fk_chain w = Some cur ->
  Z.of_nat (length cur) + Z.of_nat (length rules) <= room ->
  (execute run (insert_missing out c rules) w).1 = None
  /\ exists new, fk_chain (execute run (insert_missing out c rules) w).2 = Some (new ++ cur)
     /\ Forall is_ours new
     /\ forall t, (exists r, r ∈ new /\ fr_text r = t)
          <-> exists rule, rule ∈ rules /\ hasForwardRule out c rule = false /\ t = String.concat " " rule.
Proof.
  induction 1 as [|rule rules Hr _ IH]; intros w cur E Hroom; cbn [insert_missing].
  { split; [done |]. exists []. split; [done |]. split; [constructor |]. intros t.
    split; [intros (r & H & _) | intros (rule & H & _)]; by apply elem_of_nil in H. }
  destruct (hasForwardRule out c rule) eqn:Eh.
  - cbn [length] in Hroom. destruct (IH w cur E ltac:(lia)) as [H1 (new & H2 & H3 & H4)]. split; [done |]. exists new. split_and!; [done | done |].
    intros t. rewrite H4. split; intros (rule' & H & Hn & Ht); exists rule'; (split; [| done]); [by right |].
    apply elem_of_cons in H as [->|H]; [congruence | done].
  - unfold ask. cbn [then_]. rewrite execute_exec. cbn [length] in Hroom.
    pose proof (fr_insert (run := run) rule c w Hr Hc ltac:(exists cur; split; [done | lia])) as Ha.
    pose proof (insert_step rule w Hr) as H. destruct (run _ w) as [[o|e] w1]; [| done]. cbn [fst snd] in *.
    destruct H as [_ H]. destruct (H eq_refl) as (rs & h & E' & E1). rewrite E in E'. injection E' as <-.
    destruct (IH w1 _ E1 ltac:(cbn [length]; lia)) as [H1 (new & H2 & H3 & H4)]. split; [done |].
    exists (new ++ [mkFrule (String.concat " " rule) (Some c) h]). split; [by rewrite <- app_assoc |].
    split; [apply Forall_app_2; [done |]; by repeat constructor |]. intros t. split.
    + intros (r & Hin & Ht). apply elem_of_app in Hin as [Hin|Hin].
      * destruct (proj1 (H4 t)) as (rule' & H' & Hn & ->); [by exists r |]. exists rule'. split; [by right | done].
      * apply list_elem_of_singleton in Hin as ->. exists rule. split; [by left |]. by split.
    + intros (rule' & Hin & Hn & ->). apply elem_of_cons in Hin as [->|Hin].
      * exists (mkFrule (String.concat " " rule) (Some c) h). split; [| done]. apply elem_of_app. right. by left.
      * destruct (proj2 (H4 (String.concat " " rule'))) as (r & Hr' & Ht); [by exists rule' |].
        exists r. split; [apply elem_of_app; by left | done].
Qed.

(** *** Whole programs *)

Definition same_strangers w w' : Prop := other_rules w' = other_rules w.

Lemma from_listing {A} (none : A) (k : string -> cmds A) w (P : W -> Prop) :
  (forall w', fk_chain w' = fk_chain w -> P w') ->
  (forall rs out w', fk_chain w = Some rs -> fk_chain w' = fk_chain w -> listed rs (lines out) -> Forall P (worlds run (k out) w')) ->
  Forall P (worlds run (Exec list_chain (fun r => match r with Err _ => Done none | Ok out => k out end)) w).
Proof.
  intros H0 H. rewrite worlds_exec. pose proof (list_kept w) as E. pose proof (list_read w) as Hr.
  destruct (run list_chain w) as [[out|e] w']; cbn [fst snd] in *; (constructor; [by apply H0 |]); [| constructor].
  destruct (Hr out eq_refl) as (rs & Ers & Hl). by apply (H rs).
Qed.

Lemma drop_then {A} rs out field want (k : unit -> cmds A) w w0 cur :
  fk_chain w0 = Some rs -> listed rs (lines out) -> fk_chain w = Some cur -> cur ⊆ rs -> same_strangers w0 w ->
  (forall w' cur', fk_chain w' = Some cur' -> cur' ⊆ rs -> same_strangers w0 w' -> Forall (same_strangers w0) (worlds run (k tt) w')) ->
  Forall (same_strangers w0) (worlds run (then_ (dropStaleForwardRules out c field want) k) w).
Proof.
  intros E0 Hl E Hsub Hs Hk. destruct (fk_ok (run := run) w0 rs E0) as [Hok Hnd].
  unfold dropStaleForwardRules. rewrite (listed_delete rs) by (done || apply stale_ours). rewrite worlds_then.
  assert (Hds : Forall (fun d => d ∈ rs /\ is_ours d) (filter (fun r => stale c field want (rule_row r) = true) rs)).
  { apply Forall_forall. intros d Hd. apply list_elem_of_filter in Hd as [Hst Hd]. split; [done |].
    rewrite Forall_forall in Hok. apply (tagged_ours d (Hok d Hd)). by eapply stale_ours. }
  destruct (sweep_kept rs _ Hok Hnd Hds w cur E Hsub) as [H1 (cur' & E' & Hsub')]. apply Forall_app_2.
  - eapply Forall_impl; [exact H1 |]. unfold same_strangers in *. intros w' ->. exact Hs.
  - assert (Hs' : same_strangers w0 (execute run (sweep delete_row (filter (fun r => stale c field want (rule_row r) = true) rs)) w).2).
    { pose proof (execute_last run (sweep delete_row (filter (fun r => stale c field want (rule_row r) = true) rs)) w) as Hin.
      apply elem_of_cons in Hin as [->|Hin]; [done |]. rewrite Forall_forall in H1. unfold same_strangers in *. by rewrite (H1 _ Hin). }
    destruct (execute run _ w).1. by eapply Hk.
Qed.

Lemma remove_kept w : Forall (same_strangers w) (worlds run (removeCommentedForwardRules c) w).
Proof.
  apply (from_listing tt); [unfold same_strangers, other_rules; by intros w' -> |]. intros rs out w' E E' Hl.
  destruct (fk_ok (run := run) w rs E) as [Hok Hnd]. rewrite (listed_delete rs) by done.
  assert (Hds : Forall (fun d => d ∈ rs /\ is_ours d) (filter (fun r => contains (commentNeedle c) (rule_row r) = true) rs)).
  { apply Forall_forall. intros d Hd. apply list_elem_of_filter in Hd as [Hst Hd]. split; [done |].
    rewrite Forall_forall in Hok. by apply (tagged_ours d (Hok d Hd)). }
  destruct (sweep_kept rs _ Hok Hnd Hds w' rs ltac:(congruence) ltac:(done)) as [H1 _].
  eapply Forall_impl; [exact H1 |]. unfold same_strangers, other_rules. intros w1 ->. by rewrite E'.
Qed.

Lemma remove_exact `{!ForwardReliable run} w rs : fk_chain w = Some rs ->
  fk_chain (execute run (removeCommentedForwardRules c) w).2 = Some (filter (fun r => ~ is_ours r) rs).
Proof.
  intros E. unfold removeCommentedForwardRules, ask. cbn [then_]. rewrite execute_exec.
  pose proof (fr_list (run := run) w ltac:(by exists rs)) as Ha. pose proof (list_kept w) as Ek. pose proof (list_read w) as Hr.
  destruct (run list_chain w) as [[out|e] w1]; [| done]. cbn [fst snd] in *. destruct (Hr out eq_refl) as (rs' & E' & Hl).
  rewrite E in E'. injection E' as <-. destruct (fk_ok (run := run) w rs E) as [Hok Hnd].
  rewrite (listed_delete rs) by done. set (ds := filter _ rs). assert (Hds : Forall (fun d => d ∈ rs) ds).
  { apply Forall_forall. intros d Hd. by apply list_elem_of_filter in Hd as [_ Hd]. }
  rewrite (sweep_exact rs ds Hok Hds w1 rs) by congruence. unfold less_rules. f_equal. apply filter_agree. intros r Hr'.
  rewrite Forall_forall in Hok. rewrite <- (tagged_ours r (Hok r Hr')). split.
  - intros Hn Ht. apply Hn, list_elem_of_fmap. exists r. split; [done |]. by apply list_elem_of_filter.
  - intros Hn Hin. apply list_elem_of_fmap in Hin as (d & Ed & Hd). apply list_elem_of_filter in Hd as [Ht Hd].
    apply Hn. by rewrite (handle_one rs r d Hnd Hr' Hd Ed).
Qed.

(** *** Settling *)

Context (rules_of : string -> list (list string)) (fs : list string).
Context (F1 : forall q, prints_itself q -> Forall exception_rule (rules_of q)).
Context (F2 : forall p q rule, rule ∈ rules_of q -> rule ∈ rules_of p \/ (rule_key rule).1 ∈ fs /\ (rule_key rule).2 = q).
Context (F3 : forall p rule, rule ∈ rules_of p -> (rule_key rule).1 ∈ fs -> (rule_key rule).2 = p).
Context (F4 : fs ⊆ keys).

(** What is ours in a chain is what this program put there, for some prefix. *)
Definition shaped (rs : list frule) : Prop :=
  forall r, r ∈ rs -> is_ours r -> exists q rule, prints_itself q /\ rule ∈ rules_of q /\ fr_text r = String.concat " " rule.
(** What is ours is exactly the rules of a prefix. *)
Definition settled_on (p : string) (rs : list frule) : Prop :=
  forall t, (exists r, r ∈ rs /\ is_ours r /\ fr_text r = t) <-> exists rule, rule ∈ rules_of p /\ t = String.concat " " rule.

Lemma shaped_rule rs r : Forall frule_ok rs -> shaped rs -> r ∈ rs -> is_ours r ->
  exists q rule, prints_itself q /\ rule ∈ rules_of q /\ exception_rule rule /\ frule_ok r
    /\ r = mkFrule (String.concat " " rule) (Some c) (fr_handle r).
Proof.
  intros Hok Hsh Hr Ho. destruct (Hsh r Hr Ho) as (q & rule & Hq & Hrule & Ht). exists q, rule.
  rewrite Forall_forall in Hok. split_and!; [done | done | | by apply Hok |].
  - specialize (F1 q Hq). rewrite Forall_forall in F1. by apply F1.
  - destruct r as [t o h]. unfold is_ours in Ho. cbn in *. by subst.
Qed.

Lemma has_iff rs out rule : Forall frule_ok rs -> shaped rs -> listed rs (lines out) -> exception_rule rule ->
  hasForwardRule out c rule = true <-> exists r, r ∈ rs /\ is_ours r /\ fr_text r = String.concat " " rule.
Proof.
  intros Hok Hsh Hl Hr. rewrite (listed_has rs) by done. rewrite existsb_exists. split.
  - intros (r & Hin & H). apply list_elem_of_In in Hin. apply andb_true_iff in H as [H1 H2].
    assert (Ho : is_ours r) by (rewrite Forall_forall in Hok; by apply (tagged_ours r (Hok r Hin))).
    exists r. split_and!; [done | done |]. destruct (shaped_rule rs r Hok Hsh Hin Ho) as (q & rule' & _ & _ & Hr' & Hrok & E).
    rewrite E in H2. apply covers_row in H2 as ->; [| done | done | done | apply Hrok]. by rewrite E.
  - intros (r & Hin & Ho & Ht). exists r. split; [by apply list_elem_of_In |]. rewrite Forall_forall in Hok.
    rewrite (proj2 (tagged_ours r (Hok r Hin)) Ho). cbn [andb]. destruct r as [t o h]. unfold is_ours in Ho. cbn in *. subst.
    apply covers_row; [done | done | done | apply (Hok _ Hin) | done].
Qed.

Lemma stale_not rs r p f : Forall frule_ok rs -> shaped rs -> prints_itself p -> r ∈ rs -> f ∈ fs ->
  stale c f p (rule_row r) = true <-> is_ours r /\ exists q rule, rule ∈ rules_of q /\ exception_rule rule
    /\ fr_text r = String.concat " " rule /\ (rule_key rule).1 = f /\ (rule_key rule).2 <> p.
Proof.
  intros Hok Hsh Hp Hr Hf. assert (Hw : word p) by apply Hp. split.
  - intros H. assert (Ho : is_ours r).
    { rewrite Forall_forall in Hok. apply (tagged_ours r (Hok r Hr)). by eapply stale_ours. }
    split; [done |]. destruct (shaped_rule rs r Hok Hsh Hr Ho) as (q & rule & _ & Hq & Hrule & Hrok & E).
    exists q, rule. rewrite E in H, Hrok. rewrite stale_row in H; [| done | done | apply comment_unquoted | by apply F4 | done | done].
    apply bool_decide_eq_true in H. split_and!; [done | done | by rewrite E | apply H | apply H].
  - intros (Ho & q & rule & Hq & Hrule & Ht & Hk & Hv). destruct r as [t o h]. unfold is_ours in Ho. cbn in *. subst o t.
    rewrite stale_row; [by apply bool_decide_eq_true | done | done | apply comment_unquoted | by apply F4 | done |].
    rewrite Forall_forall in Hok. by apply Hok.
Qed.

Lemma tail_settles `{!ForwardReliable run} p rs out w cur : Forall frule_ok rs -> shaped rs -> prints_itself p -> listed rs (lines out) ->
  (forall r, r ∈ cur <-> r ∈ rs /\ forall f, f ∈ fs -> stale c f p (rule_row r) = false) -> fk_chain w = Some cur ->
  Z.of_nat (length cur) + Z.of_nat (length (rules_of p)) <= room ->
  (execute run (insert_missing out c (rules_of p)) w).1 = None
  /\ exists rs', fk_chain (execute run (insert_missing out c (rules_of p)) w).2 = Some rs' /\ settled_on p rs'.
Proof.
  intros Hok Hsh Hp Hl Hcur E Hroom. pose proof (F1 p Hp) as Hrules.
  destruct (insert_exact out (rules_of p) Hrules w cur E Hroom) as [H1 (new & H2 & H3 & H4)]. split; [done |].
  exists (new ++ cur). split; [done |]. rewrite Forall_forall in Hrules. intros t. split.
  - intros (r & Hin & Ho & Ht). apply elem_of_app in Hin as [Hin|Hin].
    + destruct (proj1 (H4 t)) as (rule & Hr & _ & E'); [by exists r |]. by exists rule.
    + apply Hcur in Hin as [Hin Hns]. destruct (shaped_rule rs r Hok Hsh Hin Ho) as (q & rule & Hq & Hrule & Hr & Hrok & Er).
      exists rule. split; [| by rewrite <- Ht, Er]. destruct (F2 p q rule Hrule) as [|[Hk Hv]]; [done |].
      assert (Hqp : q = p); [| by subst]. specialize (Hns _ Hk). destruct (decide (q = p)) as [|Hne]; [done |]. exfalso.
      apply not_true_iff_false in Hns. apply Hns. apply (stale_not rs r p _ Hok Hsh Hp Hin Hk). split; [done |].
      exists q, rule. split_and!; [done | done | by rewrite Er | done | congruence].
  - intros (rule & Hrule & ->). destruct (hasForwardRule out c rule) eqn:Eh.
    + apply (has_iff rs) in Eh as (r & Hin & Ho & Ht); [| done | done | done | by apply Hrules]. exists r.
      split; [| done]. apply elem_of_app. right. apply Hcur. split; [done |]. intros f Hf. apply not_true_is_false.
      intros Hst. apply (stale_not rs r p f Hok Hsh Hp Hin Hf) in Hst as (_ & q & rule' & _ & Hr' & Ht' & Hk & Hv).
      assert (Er : rule' = rule).
      { pose proof Hok as Hok'. rewrite Forall_forall in Hok'. destruct (Hok' r Hin) as [Hh _].
        apply (covers_row rule rule' c (fr_handle r) (Hrules _ Hrule) Hr' Hc Hh). apply contains_iff. rewrite row_bytes.
        cbn [fr_text]. rewrite <- Ht, Ht'. exists [9; 9]. eexists. rewrite <- app_assoc. reflexivity. }
      subst rule'. apply Hv. apply F3; [done |]. by rewrite Hk.
    + destruct (proj2 (H4 (String.concat " " rule))) as (r & Hin & Ht); [by exists rule |].
      exists r. split; [apply elem_of_app; by left |]. split; [| done]. rewrite Forall_forall in H3. by apply H3.
Qed.

Lemma drop_chain `{!ForwardReliable run} rs out f p w cur : Forall frule_ok rs -> NoDup (fr_handle <$> rs) -> listed rs (lines out) ->
  cur ⊆ rs -> fk_chain w = Some cur ->
  exists cur', fk_chain (execute run (dropStaleForwardRules out c f p) w).2 = Some cur'
    /\ (length cur' <= length cur)%nat /\ forall r, r ∈ cur' <-> r ∈ cur /\ stale c f p (rule_row r) = false.
Proof.
  intros Hok Hnd Hl Hsub E. unfold dropStaleForwardRules. rewrite (listed_delete rs) by (done || apply stale_ours).
  set (ds := filter _ rs). assert (Hds : Forall (fun d => d ∈ rs) ds).
  { apply Forall_forall. intros d Hd. by apply list_elem_of_filter in Hd as [_ Hd]. }
  exists (less_rules ds cur). split; [by apply (sweep_exact rs) |]. split; [apply length_filter |]. intros r. unfold less_rules. rewrite list_elem_of_filter.
  assert (Hin : r ∈ cur -> fr_handle r ∈ fr_handle <$> ds <-> stale c f p (rule_row r) = true).
  { intros Hr. split.
    - intros H. apply list_elem_of_fmap in H as (d & Ed & Hd). apply list_elem_of_filter in Hd as [Hst Hd].
      by rewrite (handle_one rs r d Hnd (Hsub r Hr) Hd Ed).
    - intros H. apply list_elem_of_fmap. exists r. split; [done |]. apply list_elem_of_filter. split; [done | by apply Hsub]. }
  destruct (stale c f p (rule_row r)); naive_solver.
Qed.

Lemma installed_quiet p rs out : Forall frule_ok rs -> listed rs (lines out) -> prints_itself p -> settled_on p rs ->
  insert_missing out c (rules_of p) = Done None
  /\ forall f, f ∈ fs -> dropStaleForwardRules out c f p = Done tt.
Proof.
  intros Hok Hl Hp Hi. pose proof (F1 p Hp) as Hrules.
  assert (Hsh : shaped rs).
  { intros r Hr Ho. destruct (proj1 (Hi (fr_text r))) as (rule & Hrule & Ht); [by exists r |]. by exists p, rule. }
  split.
  - assert (Hhas : Forall (fun rule => hasForwardRule out c rule = true) (rules_of p)).
    { apply Forall_forall. intros rule Hrule. rewrite Forall_forall in Hrules. apply (has_iff rs); [done | done | done | by apply Hrules |].
      destruct (proj2 (Hi (String.concat " " rule))) as (r & Hin & Ho & Ht); [by exists rule | by exists r]. }
    clear -Hhas. induction Hhas as [|rule rules H _ IH]; [done |]. cbn [insert_missing]. by rewrite H.
  - intros f Hf. unfold dropStaleForwardRules. rewrite (listed_delete rs) by (done || apply stale_ours).
    assert (Hn : filter (fun r => stale c f p (rule_row r) = true) rs = []); [| by rewrite Hn].
    apply elem_of_nil_inv. intros r H. apply list_elem_of_filter in H as [Hst Hin].
    apply (stale_not rs r p f Hok Hsh Hp Hin Hf) in Hst as (Ho & q & rule & Hrule & Hr & Ht & Hk & Hv).
    destruct (proj1 (Hi (fr_text r))) as (rule' & Hrule' & Ht'); [by exists r |].
    assert (Er : rule' = rule).
    { rewrite Forall_forall in Hrules. pose proof Hok as Hok'. rewrite Forall_forall in Hok'. destruct (Hok' r Hin) as [Hh _].
      apply (covers_row rule rule' c (fr_handle r) Hr (Hrules _ Hrule') Hc Hh). apply contains_iff. rewrite row_bytes.
      cbn [fr_text]. rewrite <- Ht, Ht'. exists [9; 9]. eexists. rewrite <- app_assoc. reflexivity. }
    subst rule'. apply Hv. apply F3; [done |]. by rewrite Hk.
Qed.
End forward.

(** ** What the features promise *)

(** The three features that put rules in the chain: published services at the
    frontend, the backend's own traffic at the frontend, and the backend as a
    router for linkers. *)
Inductive feature := Published | OwnTraffic | Routed.

Definition comment_of (f : feature) : string :=
  match f with Published => forwardComment | OwnTraffic => egressForwardComment | Routed => overlayForwardComment end.
Definition rules_of (f : feature) (p : string) : list (list string) :=
  match f with
  | Published => [daddr_rule p; state_rule]
  | OwnTraffic => [saddr_rule p]
  | Routed => [daddr_rule p; saddr_rule p]
  end.
Definition fields_of (f : feature) : list string :=
  match f with Published => ["daddr"] | OwnTraffic => ["saddr"] | Routed => ["daddr"; "saddr"] end%string.
Definition ensure (f : feature) (p : string) : cmds (option forward_err) :=
  match f with
  | Published => EnsureForwardExceptions p
  | OwnTraffic => EnsureEgressForwardException p
  | Routed => EnsureOverlayForwardExceptions p
  end.
Definition remove (f : feature) : cmds unit :=
  match f with
  | Published => RemoveForwardExceptions
  | OwnTraffic => RemoveEgressForwardException
  | Routed => RemoveOverlayForwardExceptions
  end.

(** A prefix a feature is given: as [nft] prints it, and for a router the
    network it is re-rendered to. *)
Definition prefix_for (f : feature) (p : string) : Prop :=
  prints_itself p /\ (f = Routed -> NetworkLiteral p = p).

Section features.
Context (f : feature).

Lemma comment_ours : comment_of f ∈ our_comments.
Proof. unfold our_comments. destruct f; set_solver. Qed.
Lemma rules_ours q : prints_itself q -> Forall exception_rule (rules_of f q).
Proof. intros Hq. destruct f; repeat (apply Forall_cons_2); try apply Forall_nil_2; by constructor. Qed.
Lemma rules_value p q rule : rule ∈ rules_of f q ->
  rule ∈ rules_of f p \/ (rule_key rule).1 ∈ fields_of f /\ (rule_key rule).2 = q.
Proof.
  destruct f; cbn [rules_of fields_of]; rewrite ?elem_of_cons, ?elem_of_nil; intros H; destruct_or!; subst; try done;
    try (right; split; [cbn [rule_key daddr_rule saddr_rule fst] | done]; set_solver); left; set_solver.
Qed.
Lemma rules_prefix p rule : rule ∈ rules_of f p -> (rule_key rule).1 ∈ fields_of f -> (rule_key rule).2 = p.
Proof.
  destruct f; cbn [rules_of fields_of]; rewrite ?elem_of_cons, ?elem_of_nil; intros H; destruct_or!; subst; try done;
    cbn [rule_key state_rule fst snd]; set_solver.
Qed.
Lemma fields_keys : fields_of f ⊆ keys.
Proof. unfold keys. destruct f; set_solver. Qed.
End features.

Section promises.
Context {W : Type} (run : runner W) `{HK : !ForwardKernel run}.

Lemma ensure_kept f p w : prefix_for f p ->
  Forall (same_strangers run (comment_of f) w) (worlds run (ensure f p) w).
Proof.
  intros [Hp Hn]. pose proof (comment_ours f) as Hc. pose proof (rules_ours f p Hp) as Hr.
  assert (Hq : forall w', fk_chain w' = fk_chain w -> same_strangers run (comment_of f) w w').
  { intros w' E. unfold same_strangers, other_rules. by rewrite E. }
  assert (Hi : forall out w', same_strangers run (comment_of f) w w' ->
    Forall (same_strangers run (comment_of f) w) (worlds run (insert_missing out (comment_of f) (rules_of f p)) w')).
  { intros out w' Hs. eapply Forall_impl; [by apply insert_kept |]. unfold same_strangers in *. intros w1 ->. exact Hs. }
  destruct f; cbn [ensure].
  - apply (from_listing run forwardComment); [done |]. intros rs out w' E E' Hl. apply (drop_then run forwardComment Hc rs out _ _ _ _ _ rs); [done | done | by rewrite E' | done | by apply Hq |].
    intros w1 cur _ _ Hs. by apply Hi.
  - apply (from_listing run egressForwardComment); [done |]. intros rs out w' E E' Hl. apply (drop_then run egressForwardComment Hc rs out _ _ _ _ _ rs); [done | done | by rewrite E' | done | by apply Hq |].
    intros w1 cur _ _ Hs. by apply Hi.
  - unfold EnsureOverlayForwardExceptions. destruct (String.eqb p ""); [constructor |]. rewrite Hn by done.
    destruct (String.eqb p ""); [constructor |]. apply (from_listing run overlayForwardComment); [done |]. intros rs out w' E E' Hl.
    apply (drop_then run overlayForwardComment Hc rs out _ _ _ _ _ rs); [done | done | by rewrite E' | done | by apply Hq |]. intros w1 cur E1 Hsub Hs.
    apply (drop_then run overlayForwardComment Hc rs out _ _ _ _ _ cur); [done | done | done | done | done |]. intros w2 cur2 _ _ Hs2. by apply Hi.
Qed.

Lemma list_ok `{!ForwardReliable run} c (Hc : c ∈ our_comments) w rs : fk_chain w = Some rs ->
  exists out w', run list_chain w = (Ok out, w') /\ fk_chain w' = Some rs /\ listed c rs (lines out).
Proof.
  intros E. pose proof (fr_list (run := run) w ltac:(by exists rs)) as Ha. pose proof (list_kept run w) as Ek.
  pose proof (list_read run c w) as Hr. destruct (run list_chain w) as [[out|e] w']; [| done]. cbn [fst snd] in *.
  exists out, w'. destruct (Hr out eq_refl) as (rs' & E' & Hl). rewrite E in E'. injection E' as <-. by split; [| split; [congruence |]].
Qed.

Lemma ensure_settled `{!ForwardReliable run} f p w rs : prefix_for f p -> fk_chain w = Some rs ->
  shaped (comment_of f) (rules_of f) rs -> Z.of_nat (length rs) + 2 <= room ->
  (execute run (ensure f p) w).1 = None
  /\ exists rs', fk_chain (execute run (ensure f p) w).2 = Some rs' /\ settled_on (comment_of f) (rules_of f) p rs'.
Proof.
  intros [Hp Hn] E Hsh Hroom. destruct (fk_ok (run := run) w rs E) as [Hok Hnd].
  pose proof (comment_ours f) as Hc.
  destruct (list_ok (comment_of f) Hc w rs E) as (out & w1 & Er & E1 & Hl).
  assert (Htail : forall w' cur, (forall r, r ∈ cur <-> r ∈ rs /\ forall k, k ∈ fields_of f -> stale (comment_of f) k p (rule_row r) = false) ->
    fk_chain w' = Some cur -> (length cur <= length rs)%nat -> let r := execute run (insert_missing out (comment_of f) (rules_of f p)) w' in
    r.1 = None /\ exists rs', fk_chain r.2 = Some rs' /\ settled_on (comment_of f) (rules_of f) p rs').
  { intros w' cur Hcur E' Hlen. assert (Hr : Z.of_nat (length cur) + Z.of_nat (length (rules_of f p)) <= room) by (destruct f; cbn; lia).
    exact (tail_settles run (comment_of f) Hc (rules_of f) (fields_of f) (rules_ours f) (rules_value f)
      (rules_prefix f) (fields_keys f) p rs out w' cur Hok Hsh Hp Hl Hcur E' Hr). }
  destruct f; cbn [ensure].
  - unfold EnsureForwardExceptions, ask. cbn [then_]. rewrite execute_exec, Er. cbn [fst snd]. rewrite execute_then.
    destruct (drop_chain run forwardComment rs out "daddr" p w1 rs Hok Hnd Hl ltac:(done) E1) as (cur & E2 & Hlen & Hcur).
    eapply Htail; [| exact E2 | lia]. intros r. rewrite Hcur. cbn [fields_of]. set_solver.
  - unfold EnsureEgressForwardException, ask. cbn [then_]. rewrite execute_exec, Er. cbn [fst snd]. rewrite execute_then.
    destruct (drop_chain run egressForwardComment rs out "saddr" p w1 rs Hok Hnd Hl ltac:(done) E1) as (cur & E2 & Hlen & Hcur).
    eapply Htail; [| exact E2 | lia]. intros r. rewrite Hcur. cbn [fields_of]. set_solver.
  - unfold EnsureOverlayForwardExceptions, ask. rewrite Hn by done. assert (Hne : String.eqb p "" = false).
    { apply String.eqb_neq. apply Hp. }
    rewrite Hne. cbn [then_]. rewrite execute_exec, Er. cbn [fst snd]. rewrite execute_then.
    destruct (drop_chain run overlayForwardComment rs out "daddr" p w1 rs Hok Hnd Hl ltac:(done) E1) as (cur & E2 & Hlen & Hcur).
    rewrite execute_then.
    destruct (drop_chain run overlayForwardComment rs out "saddr" p _ cur Hok Hnd Hl ltac:(intros r Hr; by apply Hcur in Hr as []) E2)
      as (cur2 & E3 & Hlen2 & Hcur2).
    eapply Htail; [| exact E3 | lia]. intros r. rewrite Hcur2, Hcur. cbn [fields_of]. set_solver.
Qed.

Lemma ensure_quiet f p w : prefix_for f p -> (forall rs, fk_chain w = Some rs -> settled_on (comment_of f) (rules_of f) p rs) ->
  issued run (ensure f p) w = [list_chain] /\ (execute run (ensure f p) w).1 = None.
Proof.
  intros [Hp Hn] Hi. pose proof (comment_ours f) as Hc.
  assert (Hq : forall rs out, fk_chain w = Some rs -> listed (comment_of f) rs (lines out) ->
    insert_missing out (comment_of f) (rules_of f p) = Done None
    /\ forall k, k ∈ fields_of f -> dropStaleForwardRules out (comment_of f) k p = Done tt).
  { intros rs out E Hl. destruct (fk_ok (run := run) w rs E) as [Hok _].
    exact (installed_quiet (comment_of f) Hc (rules_of f) (fields_of f) (rules_ours f)
      (rules_prefix f) (fields_keys f) p rs out Hok Hl Hp (Hi rs E)). }
  pose proof (list_read run (comment_of f) w) as Hread.
  destruct f; cbn [ensure].
  - unfold EnsureForwardExceptions, ask. cbn [then_ issued execute]. destruct (run list_chain w) as [[out|e] w1]; [| done].
    destruct (Hread out eq_refl) as (rs & E & Hl). destruct (Hq rs out E Hl) as [H1 H2]. cbn [fields_of rules_of comment_of] in *.
    rewrite H2 by set_solver. cbn [then_]. by rewrite H1.
  - unfold EnsureEgressForwardException, ask. cbn [then_ issued execute]. destruct (run list_chain w) as [[out|e] w1]; [| done].
    destruct (Hread out eq_refl) as (rs & E & Hl). destruct (Hq rs out E Hl) as [H1 H2]. cbn [fields_of rules_of comment_of] in *.
    rewrite H2 by set_solver. cbn [then_]. by rewrite H1.
  - unfold EnsureOverlayForwardExceptions, ask. rewrite Hn by done. assert (Hne : String.eqb p "" = false).
    { apply String.eqb_neq. apply Hp. }
    rewrite Hne. cbn [then_ issued execute]. destruct (run list_chain w) as [[out|e] w1]; [| done].
    destruct (Hread out eq_refl) as (rs & E & Hl). destruct (Hq rs out E Hl) as [H1 H2]. cbn [fields_of rules_of comment_of] in *.
    rewrite !H2 by set_solver. cbn [then_]. by rewrite H1.
Qed.
End promises.

(** [C28] An operator's rules, and those of the other features, are never touched:
    in every world of an installation and of a removal they are the same, in
    the same order, whatever [nft] refuses. *)
Theorem forward_strangers_kept {W} (run : runner W) `{!ForwardKernel run} f p w : prefix_for f p ->
  Forall (fun w' => other_rules run (comment_of f) w' = other_rules run (comment_of f) w) (worlds run (ensure f p) w)
  /\ Forall (fun w' => other_rules run (comment_of f) w' = other_rules run (comment_of f) w) (worlds run (remove f) w).
Proof.
  intros Hp. split; [by apply ensure_kept |]. pose proof (comment_ours f) as Hc.
  destruct f; by apply remove_kept.
Qed.

(** Where [nft] works, an installation leaves of its own exactly the rules for
    the prefix it is given, whatever prefix an earlier one was given; one more
    installation lists the chain and does nothing else. *)
Theorem forward_settles {W} (run : runner W) `{!ForwardKernel run, !ForwardReliable run} f p w rs :
  prefix_for f p -> fk_chain w = Some rs -> shaped (comment_of f) (rules_of f) rs -> Z.of_nat (length rs) + 2 <= room ->
  let w' := (execute run (ensure f p) w).2 in
  (execute run (ensure f p) w).1 = None
  /\ (exists rs', fk_chain w' = Some rs' /\ settled_on (comment_of f) (rules_of f) p rs')
  /\ issued run (ensure f p) w' = [list_chain].
Proof.
  intros Hp E Hsh Hroom. cbv zeta. destruct (ensure_settled run f p w rs Hp E Hsh Hroom) as [H1 (rs' & E' & Hi)].
  split; [done |]. split; [by exists rs' |]. apply (ensure_quiet run); [done |]. intros rs'' E''. rewrite E' in E''. by injection E'' as <-.
Qed.

(** A removal takes out all of its own and nothing else. *)
Theorem forward_removed {W} (run : runner W) `{!ForwardKernel run, !ForwardReliable run} f w rs :
  fk_chain w = Some rs ->
  fk_chain (execute run (remove f) w).2 = Some (filter (fun r => fr_comment r <> Some (comment_of f)) rs).
Proof.
  intros E. pose proof (comment_ours f) as Hc. pose proof (remove_exact run (comment_of f) Hc w rs E) as H.
  destruct f; exact H.
Qed.

(** ** A chain *)

#[export] Instance frule_ok_dec r : Decision (frule_ok r).
Proof.
  unfold frule_ok, one_line, unquoted, in_i64. repeat apply and_dec; try apply _.
  destruct (fr_comment r); cbn [from_option]; apply _.
Defined.
Definition sound (rs : list frule) : Prop := Forall frule_ok rs /\ NoDup (fr_handle <$> rs).
#[export] Instance sound_dec rs : Decision (sound rs).
Proof. unfold sound. apply _. Defined.

(** The first number no rule has. *)
Definition free_handle (rs : list frule) : Z :=
  match list_find (fun n => Z.of_nat n ∉ fr_handle <$> rs) (seq 0 (S (length rs))) with
  | Some (_, n) => Z.of_nat n
  | None => -1
  end.

Definition chain_of (w : option (list frule)) : option (list frule) :=
  match w with Some rs => if decide (sound rs) then Some rs else None | None => None end.
Definition docker_text (rs : list frule) : string :=
  String.concat NL (["table ip filter {"%string; (TAB ++ "chain DOCKER-USER {")%string] ++ (rule_row <$> rs)
                    ++ [(TAB ++ "}")%string; "}"%string; ""%string]).
Definition refused_nft : answer := Err "Error: Could not process rule: No such file or directory"%string.

Definition chain_insert (argv : list string) (rs : list frule) : answer * option (list frule) :=
  if decide (take 6 argv = ["nft"; "insert"; "rule"; "ip"; "filter"; DockerUserChain]%string) then
    match reverse (drop 6 argv) with
    | q :: _ :: rule =>
        match list_find (fun c => in_quotes c = q) our_comments with
        | Some (_, c) =>
            let rs' := mkFrule (String.concat " " (reverse rule)) (Some c) (free_handle rs) :: rs in
            if decide (sound rs') then (Ok ""%string, Some rs') else (refused_nft, Some rs)
        | None => (refused_nft, Some rs)
        end
    | _ => (refused_nft, Some rs)
    end
  else (refused_nft, Some rs).
Definition chain_kernel : runner (option (list frule)) := fun argv w =>
  match chain_of w with
  | None => (refused_nft, w)
  | Some rs =>
      if decide (argv = list_chain) then (Ok (docker_text rs), w)
      else match list_find (fun r => argv = delete_row r) rs with
           | Some (_, r) => (Ok ""%string, Some (filter (fun r' => fr_handle r' <> fr_handle r) rs))
           | None => chain_insert argv rs
           end
  end.

Lemma chain_of_some w rs : chain_of w = Some rs -> w = Some rs /\ sound rs.
Proof. unfold chain_of. destruct w as [rs'|]; [| done]. case_decide; [| done]. by intros [= ->]. Qed.
Lemma chain_of_sound rs : sound rs -> chain_of (Some rs) = Some rs.
Proof. intros H. unfold chain_of. by rewrite decide_True. Qed.

Lemma free_handle_free rs : Z.of_nat (length rs) < room ->
  (free_handle rs ∉ (fr_handle <$> rs)) /\ in_i64 (free_handle rs).
Proof.
  intros Hroom. unfold free_handle. destruct (list_find _ _) as [[i n]|] eqn:E.
  - apply list_find_Some in E as (Hl & Hn & _). split; [done |]. apply lookup_seq in Hl as [-> Hi].
    unfold room in Hroom. go_lia.
  - exfalso. apply list_find_None in E. rewrite Forall_forall in E.
    assert (Hs : submseteq (Z.of_nat <$> seq 0 (S (length rs))) (fr_handle <$> rs)).
    { apply NoDup_submseteq.
      - apply NoDup_fmap_2; [apply _ | apply NoDup_seq].
      - intros x Hx. apply list_elem_of_fmap in Hx as (n & -> & Hn). apply E in Hn. by destruct (decide (Z.of_nat n ∈ fr_handle <$> rs)). }
    apply submseteq_length in Hs. rewrite !length_fmap, length_seq in Hs. lia.
Qed.

Lemma our_rule_text rule : exception_rule rule -> one_line (String.concat " " rule) /\ unquoted (String.concat " " rule).
Proof.
  intros Hr. unfold one_line, unquoted. rewrite string_bytes_concat. change (string_bytes " ") with [32].
  assert (Ha : forall x b, forallb (fun y => negb (y =? x)) b = true -> x ∉ b).
  { intros x b Hb Hx. rewrite forallb_forall in Hb. apply list_elem_of_In, Hb in Hx. by rewrite Z.eqb_refl in Hx. }
  assert (Hw : forall x d p, x ∉ string_bytes p -> forallb (fun y => negb (y =? x)) (string_bytes d) = true ->
    x <> 32 -> forallb (fun y => negb (y =? x)) (string_bytes "ip" ++ string_bytes "accept") = true ->
    x ∉ join_bytes [32] (string_bytes <$> ["ip"; d; p; "accept"]%string)).
  { intros x d p Hp Hd H32 Hi. apply Ha in Hd, Hi. cbn [fmap list_fmap join_bytes concat app]. rewrite app_nil_r. set_solver. }
  destruct Hr as [p (_ & [H1 H2] & _) | p (_ & [H1 H2] & _) |]; [split; by apply Hw.. | split; by apply Ha].
Qed.

Lemma our_rule_ok rule c h : exception_rule rule -> c ∈ our_comments -> in_i64 h ->
  frule_ok (mkFrule (String.concat " " rule) (Some c) h).
Proof.
  intros Hr Hc Hh. destruct (our_rule_text rule Hr) as [H1 H2].
  split; [done |]. split; [done |]. split; cbn [fr_text fr_comment from_option].
  - apply contains_false. apply (occurs_in 34); [| done]. change (34 ∈ opening). vm_compute. set_solver.
  - pose proof (comment_unquoted c Hc) as Hq. split; [| done]. unfold our_comments in Hc.
    rewrite !elem_of_cons, elem_of_nil in Hc. unfold one_line. destruct_or!; subst; try done; vm_compute; set_solver.
Qed.

Lemma sound_filter (P : frule -> Prop) `{!forall r, Decision (P r)} rs : sound rs -> sound (filter P rs).
Proof.
  intros [H1 H2]. split.
  { rewrite Forall_forall in *. intros x Hx. apply list_elem_of_filter in Hx as [_ Hx]. by apply H1. }
  clear H1. induction rs as [|r rs IH]; [constructor |].
  cbn in H2. apply NoDup_cons in H2 as [Hr Hnd]. rewrite filter_cons. case_decide; [| by apply IH].
  cbn. apply NoDup_cons. split; [| by apply IH]. intros Hin. apply Hr. apply list_elem_of_fmap in Hin as (x & Ex & Hx).
  apply list_elem_of_filter in Hx as [_ Hx]. apply list_elem_of_fmap. by exists x.
Qed.

Lemma insert_taken rule c : exception_rule rule -> c ∈ our_comments ->
  insert_rule rule c <> list_chain /\ (forall r, insert_rule rule c <> delete_row r)
  /\ forall rs, chain_insert (insert_rule rule c) rs
       = let rs' := mkFrule (String.concat " " rule) (Some c) (free_handle rs) :: rs in
         if decide (sound rs') then (Ok ""%string, Some rs') else (refused_nft, Some rs).
Proof.
  intros Hr Hc. split; [done |]. split; [done |]. intros rs. unfold chain_insert. rewrite decide_True by done.
  change (drop 6 (insert_rule rule c)) with (rule ++ ["comment"%string; in_quotes c]). rewrite reverse_app.
  change (reverse ["comment"%string; in_quotes c]) with [in_quotes c; "comment"%string]. cbn [app]. rewrite reverse_involutive.
  assert (E : exists i, list_find (fun c' => in_quotes c' = in_quotes c) our_comments = Some (i, c)).
  { unfold our_comments in *. rewrite !elem_of_cons, elem_of_nil in Hc. destruct_or!; subst; try done; by eexists. }
  destruct E as [i E]. by rewrite E.
Qed.

#[export] Instance chain_kernel_ok : ForwardKernel chain_kernel.
Proof.
  refine {| fk_chain := chain_of |}.
  - intros w rs E. apply chain_of_some in E as [_ [H1 H2]]. by split.
  - intros w. unfold chain_kernel. destruct (chain_of w) as [rs|] eqn:E; [| by rewrite E]. rewrite decide_True by done. split; [done |].
    intros out [= <-]. exists rs, ["table ip filter {"%string; (TAB ++ "chain DOCKER-USER {")%string],
      [(TAB ++ "}")%string; "}"%string; ""%string].
    split; [done |]. split; [| done]. apply Forall_forall. intros l Hl. cbn [app] in Hl. rewrite !elem_of_cons, elem_of_nil in Hl.
    unfold one_line, unquoted. destruct_or!; subst; try done; split; vm_compute; set_solver.
  - intros h w Hh. unfold chain_kernel. destruct (chain_of w) as [rs|] eqn:E; [| by rewrite E].
    rewrite decide_False by done. pose proof (chain_of_some w rs E) as [-> Hs].
    destruct (list_find _ rs) as [[i r]|] eqn:Ef.
    + apply list_find_Some in Ef as (Hl & Hd & _). unfold delete_row, delete_rule in Hd. injection Hd as Hd.
      apply list_elem_of_lookup_2 in Hl. destruct Hs as [H1 H2]. rewrite Forall_forall in H1.
      apply Itoa_inj in Hd; [| done | by apply (H1 r Hl)]. subst h. cbn [is_ok]. apply chain_of_sound, sound_filter.
      split; [by apply Forall_forall | done].
    + unfold chain_insert. by rewrite decide_False by done.
  - intros rule c w Hr Hc. destruct (insert_taken rule c Hr Hc) as (N1 & N2 & E3). unfold chain_kernel.
    destruct (chain_of w) as [rs|] eqn:E; [| by rewrite E]. pose proof (chain_of_some w rs E) as [-> Hs].
    rewrite decide_False by done. destruct (list_find _ rs) as [[i r]|] eqn:Ef.
    { apply list_find_Some in Ef as (_ & Hd & _). by destruct (N2 r). }
    rewrite E3. cbv zeta. case_decide as Hd; [| done]. cbn [is_ok]. exists rs, (free_handle rs). split; [done |]. by apply chain_of_sound.
Defined.

#[export] Instance chain_kernel_reliable : ForwardReliable chain_kernel.
Proof.
  split.
  - intros w [rs E]. cbn in E. unfold chain_kernel. by rewrite E, decide_True by done.
  - intros h w Hh (rs & r & E & Hr & <-). cbn in E. unfold chain_kernel. rewrite E, decide_False by done.
    destruct (list_find _ rs) as [[i r']|] eqn:Ef; [done |]. apply list_find_None in Ef. rewrite Forall_forall in Ef. by destruct (Ef r Hr).
  - intros rule c w Hr Hc (rs & E & Hroom). cbn in E. destruct (insert_taken rule c Hr Hc) as (N1 & N2 & E3).
    unfold chain_kernel. rewrite E, decide_False by done. destruct (list_find _ rs) as [[i r]|] eqn:Ef.
    { apply list_find_Some in Ef as (_ & Hd & _). by destruct (N2 r). }
    rewrite E3. cbv zeta. apply chain_of_some in E as [_ [H1 H2]]. destruct (free_handle_free rs Hroom) as [Hf Hi].
    rewrite decide_True; [done |]. split; [constructor; [by apply our_rule_ok | done] |]. cbn. by apply NoDup_cons.
Qed.

(** ** Witnesses *)

(** An operator's rule, the rule of the backend's own traffic, and the
    published ones for the backend's address alone. *)
Definition demo_chain : list frule :=
  [mkFrule "ip saddr 10.99.0.2 accept" None 2; mkFrule "ip saddr 10.99.0.2 accept" (Some egressForwardComment) 3;
   mkFrule "ct state established,related accept" (Some forwardComment) 4;
   mkFrule "ip daddr 10.99.0.2 accept" (Some forwardComment) 5].
Definition demo_prefix : string := "10.99.0.0/24".

Example demo_widened :
  fmap (M := option) (fmap (M := list) (fun r => (fr_text r, fr_comment r))) (execute chain_kernel (ensure Published demo_prefix) (Some demo_chain)).2
  = Some [("ip daddr 10.99.0.0/24 accept", Some forwardComment); ("ip saddr 10.99.0.2 accept", None);
          ("ip saddr 10.99.0.2 accept", Some egressForwardComment);
          ("ct state established,related accept", Some forwardComment)]%string.
Proof. vm_compute. reflexivity. Qed.

Lemma literal_prints p : forallb plain_byte (string_bytes p) = true -> p <> ""%string ->
  forallb (fun y => negb (y =? 34)) (string_bytes p) = true -> p ∉ keys ->
  (AddressLiteral p = p \/ NetworkLiteral p = p /\ contains "/32" p = false) -> prints_itself p.
Proof.
  intros H1 H2 H3 H4 H5. split; [by repeat split |]. split; [| done]. unfold one_line, unquoted.
  rewrite forallb_forall in H1, H3. split; intros Hin; apply list_elem_of_In in Hin; [by apply H1 in Hin | by apply H3 in Hin].
Qed.

Lemma demo_prefix_ok : prints_itself demo_prefix.
Proof. apply literal_prints; [done.. | unfold keys; vm_compute; set_solver | right; by split; vm_compute]. Qed.
Lemma demo_address_ok : prints_itself "10.99.0.2".
Proof. apply literal_prints; [done.. | unfold keys; vm_compute; set_solver | left; by vm_compute]. Qed.

Lemma demo_shaped : shaped forwardComment (rules_of Published) demo_chain.
Proof.
  intros r Hr Ho. unfold demo_chain in Hr. rewrite !elem_of_cons, elem_of_nil in Hr.
  destruct_or!; subst; try done; exists "10.99.0.2"%string.
  - exists state_rule. split; [apply demo_address_ok |]. split; [right; by left | done].
  - exists (daddr_rule "10.99.0.2"). split; [apply demo_address_ok |]. split; [by left | done].
Qed.

Lemma forward_strangers_kept_witness :
  Forall (fun w' => other_rules chain_kernel forwardComment w' = Some (take 2 demo_chain))
    (worlds chain_kernel (ensure Published demo_prefix) (Some demo_chain)).
Proof.
  assert (Hp : prefix_for Published demo_prefix) by (split; [apply demo_prefix_ok | done]).
  pose proof (proj1 (forward_strangers_kept chain_kernel Published demo_prefix (Some demo_chain) Hp)) as H.
  eapply Forall_impl; [exact H |]. intros w' Hw. etransitivity; [exact Hw | vm_compute; reflexivity].
Defined.

Lemma forward_settles_witness :
  let w' := (execute chain_kernel (ensure Published demo_prefix) (Some demo_chain)).2 in
  (execute chain_kernel (ensure Published demo_prefix) (Some demo_chain)).1 = None
  /\ (exists rs', chain_of w' = Some rs' /\ settled_on forwardComment (rules_of Published) demo_prefix rs')
  /\ issued chain_kernel (ensure Published demo_prefix) w' = [list_chain].
Proof.
  assert (Hp : prefix_for Published demo_prefix) by (split; [apply demo_prefix_ok | done]).
  assert (E : fk_chain (run := chain_kernel) (Some demo_chain) = Some demo_chain) by (vm_compute; reflexivity).
  apply (forward_settles chain_kernel Published demo_prefix (Some demo_chain) demo_chain Hp E demo_shaped).
  vm_compute. discriminate.
Defined.

Lemma forward_removed_witness :
  (execute chain_kernel (remove Published) (Some demo_chain)).2 = Some (take 2 demo_chain).
Proof.
  assert (E : fk_chain (run := chain_kernel) (Some demo_chain) = Some demo_chain) by (vm_compute; reflexivity).
  pose proof (forward_removed chain_kernel Published (Some demo_chain) demo_chain E) as H.
  apply chain_of_some in H as [-> _]. vm_compute. reflexivity.
Defined.

(** A network of one address is printed as the address: its rule reads as a
    stale one, and as missing, on every pass. *)
Example single_network_reinserted :
  let row := rule_row (mkFrule "ip daddr 10.99.0.2 accept" (Some overlayForwardComment) 7) in
  stale overlayForwardComment "daddr" "10.99.0.2/32" row = true
  /\ hasForwardRule row overlayForwardComment (daddr_rule "10.99.0.2/32") = false
  /\ NetworkLiteral "10.99.0.2/32" = "10.99.0.2/32"%string.
Proof. vm_compute. repeat split; reflexivity. Qed.
