(* ===== verification/Shape.v ===== *)
(** * Tunnel shaping ([internal/sysx/shape.go])

    One queue per tunnel, put on, read back and taken off with [tc].  What
    [tc] prints and does is [QueueKernel]; numbers as text are the class
    [FloatText]. *)

From S2P Require Import Prelude Float64 Model Bytes Decimal Text Nft Rules ProbeRules Forward.

(** [strconv.ParseFloat] and the verb [%g] on a float64. *)
Class FloatText := { ParseFloat : string -> option float64; FormatG : float64 -> string }.

Section shape.
Context {U : Unicode} {FT : FloatText}.

Definition ShapeOverheadBytes : Z := 80.
Definition ShapeQdisc : string := "cake".

(** [strings.HasSuffix] and [strings.TrimSuffix] in one. *)
Definition cut_suffix (suffix s : string) : option string :=
  let b := string_bytes s in
  let n := (length b - length (string_bytes suffix))%nat in
  if bool_decide (drop n b = string_bytes suffix) && (length (string_bytes suffix) <=? length b)%nat
  then Some (bytes_string (take n b)) else None.

Definition thousandth : float64 := fdiv (f64_of_Z 1) (f64_of_Z 1000).
Definition millionth : float64 := fdiv (f64_of_Z 1) (f64_of_Z 1000000).
Definition rate_unit (lower : string) : option (string * float64) :=
  match cut_suffix "gbit" lower with
  | Some s => Some (s, f64_of_Z 1000)
  | None =>
      match cut_suffix "mbit" lower with
      | Some s => Some (s, f64_of_Z 1)
      | None =>
          match cut_suffix "kbit" lower with
          | Some s => Some (s, thousandth)
          | None => (fun s => (s, millionth)) <$> cut_suffix "bit" lower
          end
      end
  end.
Definition parseRate (s : string) : float64 :=
  match rate_unit (ToLower s) with
  | None => fzero
  | Some (number, mult) =>
      match ParseFloat (TrimSpace number) with Some v => fmul v mult | None => fzero end
  end.
Definition formatRate (mbit : float64) : string := (FormatG mbit ++ "mbit")%string.
Definition tenth : float64 := fdiv (f64_of_Z 1) (f64_of_Z 10).
Definition sameRate (a b : float64) : bool := let d := fsub a b in flt d tenth && fgt d (fopp tenth).

Definition show_qdisc (iface : string) : list string := ["tc"; "qdisc"; "show"; "dev"; iface]%string.
Definition replace_qdisc (iface : string) (mbit : float64) : list string :=
  ["tc"; "qdisc"; "replace"; "dev"; iface; "root"; ShapeQdisc; "bandwidth"; formatRate mbit;
   "overhead"; Itoa ShapeOverheadBytes; "besteffort"]%string.
Definition del_qdisc (iface : string) : list string := ["tc"; "qdisc"; "del"; "dev"; iface; "root"]%string.

(** The rate, the overhead's match and the priority mode a line names last. *)
Record qreading := mkReading { qr_rate : float64; qr_kind : string; qr_ours : bool }.
Fixpoint scan_qdisc (fields : list string) (rate : float64) (overhead besteffort : bool) : float64 * bool * bool :=
  match fields with
  | [] => (rate, overhead, besteffort)
  | f :: rest =>
      match rest with
      | g :: _ =>
          if String.eqb f "bandwidth" then scan_qdisc rest (parseRate g) overhead besteffort
          else if String.eqb f "overhead" then scan_qdisc rest rate (String.eqb g (Itoa ShapeOverheadBytes)) besteffort
          else if String.eqb f "besteffort" then scan_qdisc rest rate overhead true
          else scan_qdisc rest rate overhead besteffort
      | [] => if String.eqb f "besteffort" then (rate, overhead, true) else (rate, overhead, besteffort)
      end
  end.
Definition read_fields (fields : list string) : option qreading :=
  match fields with
  | first :: kind :: _ =>
      if String.eqb first "qdisc" then
        if negb (String.eqb kind ShapeQdisc) then Some (mkReading fzero kind false)
        else let '(rate, overhead, besteffort) := scan_qdisc fields fzero false false in
             Some (mkReading rate kind (overhead && besteffort))
      else None
  | _ => None
  end.
Fixpoint read_lines (ls : list string) : qreading :=
  match ls with
  | [] => mkReading fzero "" false
  | l :: ls => match read_fields (Fields l) with Some r => r | None => read_lines ls end
  end.
Definition qdiscInfo (iface : string) : cmds (result string qreading) :=
  let! out := ask (show_qdisc iface) in
  Done (match out with Ok out => Ok (read_lines (lines out)) | Err e => Err e end).

Definition RemoveQdisc (iface : string) : cmds unit := ignore (del_qdisc iface).

Inductive shape_err := ErrNoInterface | ErrRead (e : string) | ErrShape (e : string).

Definition EnsureQdisc (iface : string) (mbit : float64) : cmds (result shape_err bool) :=
  if String.eqb iface "" then Done (Err ErrNoInterface)
  else
    let! r := qdiscInfo iface in
    match r with
    | Err e => Done (Err (ErrRead e))
    | Ok q =>
        if fle mbit fzero then
          if negb (String.eqb (qr_kind q) ShapeQdisc) || negb (qr_ours q) then Done (Ok false)
          else let! _ := RemoveQdisc iface in Done (Ok true)
        else if String.eqb (qr_kind q) ShapeQdisc && qr_ours q && sameRate (qr_rate q) mbit then Done (Ok false)
        else
          let! r := ask (replace_qdisc iface mbit) in
          Done (match r with Ok _ => Ok true | Err e => Err (ErrShape e) end)
    end.

(** ** The queues of a host *)

(** A queue as [tc] prints it: its kind, and the words after it. *)
Record queue := mkQueue { qu_kind : string; qu_words : list string }.
Definition queue_row (q : queue) : string := String.concat " " ("qdisc" :: qu_kind q :: qu_words q)%string.
Definition queue_ok (q : queue) : Prop := Forall word (qu_kind q :: qu_words q).

(** This system's queue: what the source looks for. *)
Definition reading_of (q : queue) : qreading :=
  default (mkReading fzero "" false) (read_fields ("qdisc" :: qu_kind q :: qu_words q)%string).
Definition our_queue (q : queue) : Prop := qu_kind q = ShapeQdisc /\ qr_ours (reading_of q) = true.
Definition shaped_at (mbit : float64) (q : queue) : Prop := our_queue q /\ sameRate (qr_rate (reading_of q)) mbit = true.

(** The commands on the queues, as [tc(8)] and [tc-cake(8)] document them: an
    interface has at most one root queue, which a listing prints first; a
    replacement prints back what it was given, up to the rounding of the rates
    in [qk_prints]; a deletion brings back the kernel's own queue.  A command
    that fails has done nothing. *)
Class QueueKernel {W} (run : runner W) := {
  qk_queue : W -> string -> option queue;
  qk_ok w i q : qk_queue w i = Some q -> queue_ok q;
  qk_default : queue;
  qk_default_foreign : ~ our_queue qk_default;
  qk_prints : float64 -> Prop;
  qk_show i w : let '(a, w') := run (show_qdisc i) w in
    (forall j, qk_queue w' j = qk_queue w j)
    /\ forall out, a = Ok out -> exists rest,
         out = String.concat NL (option_list (queue_row <$> qk_queue w i) ++ rest)
         /\ option_list (queue_row <$> qk_queue w i) ++ rest <> []
         /\ Forall (fun l => one_line l /\ (qk_queue w i = None -> read_fields (Fields l) = None)) rest;
  qk_replace i m w : let '(a, w') := run (replace_qdisc i m) w in
    (forall j, j <> i -> qk_queue w' j = qk_queue w j)
    /\ if is_ok a then exists q, qk_queue w' i = Some q /\ (qk_prints m -> shaped_at m q)
       else qk_queue w' i = qk_queue w i;
  qk_del i w : let '(a, w') := run (del_qdisc i) w in
    (forall j, j <> i -> qk_queue w' j = qk_queue w j)
    /\ if is_ok a then qk_queue w' i = Some qk_default else qk_queue w' i = qk_queue w i }.

(** Commands that do not fail on an interface that is there. *)
Class QueueReliable {W} (run : runner W) `{!QueueKernel run} := {
  qr_show i w : is_Some (qk_queue w i) -> is_ok (run (show_qdisc i) w).1 = true;
  qr_replace i m w : is_Some (qk_queue w i) -> qk_prints m -> is_ok (run (replace_qdisc i m) w).1 = true;
  qr_del i w : is_Some (qk_queue w i) -> is_ok (run (del_qdisc i) w).1 = true }.

(** ** What is read *)

Lemma queue_row_one_line q : queue_ok q -> one_line (queue_row q).
Proof.
  intros Hq. unfold one_line, queue_row. intros Hin.
  destruct (plain_bytes_of_words ("qdisc" :: qu_kind q :: qu_words q)%string) as (_ & _ & _ & _ & _ & _ & _ & _ & H);
    [constructor; [split; [done | by vm_compute] | exact Hq] | done |].
  rewrite Forall_forall in H. apply H in Hin as [Hin|Hin]; discriminate Hin.
Qed.

Lemma queue_row_fields q : queue_ok q -> Fields (queue_row q) = ("qdisc" :: qu_kind q :: qu_words q)%string.
Proof. intros Hq. apply Fields_concat. constructor; [split; [done | by vm_compute] | exact Hq]. Qed.

Definition no_reading : qreading := mkReading fzero "" false.

Lemma read_lines_none ls : Forall (fun l => read_fields (Fields l) = None) ls -> read_lines ls = no_reading.
Proof. induction 1 as [|l ls Hl _ IH]; cbn [read_lines]; [done |]. by rewrite Hl. Qed.

Lemma reading_some q : exists r, read_fields ("qdisc" :: qu_kind q :: qu_words q)%string = Some r.
Proof.
  cbn [read_fields]. change (String.eqb "qdisc" "qdisc") with true. cbv iota.
  destruct (String.eqb (qu_kind q) ShapeQdisc); cbn [negb]; [| by eexists].
  destruct (scan_qdisc _ _ _ _) as [[r o] b]. by eexists.
Qed.

Lemma reading_kind q : qr_kind (reading_of q) = qu_kind q.
Proof.
  unfold reading_of. cbn [read_fields]. change (String.eqb "qdisc" "qdisc") with true. cbv iota.
  destruct (String.eqb (qu_kind q) ShapeQdisc); cbn [negb]; [| done]. by destruct (scan_qdisc _ _ _ _) as [[r o] b].
Qed.

Section queues.
Context {W : Type} (run : runner W) `{HK : !QueueKernel run}.

(** What the source reads of an interface is its queue. *)
Definition read_of (w : W) (i : string) : qreading := from_option reading_of no_reading (qk_queue w i).

Lemma listing_keeps i w j : qk_queue (run (show_qdisc i) w).2 j = qk_queue w j.
Proof. pose proof (qk_show (run := run) i w) as H. destruct (run (show_qdisc i) w). apply H. Qed.

Lemma show_reads i w out : (run (show_qdisc i) w).1 = Ok out -> read_lines (lines out) = read_of w i.
Proof.
  intros Ha. pose proof (qk_show (run := run) i w) as H. destruct (run (show_qdisc i) w) as [a w']. cbn in Ha. subst a.
  destruct H as [_ H]. destruct (H out eq_refl) as (rest & -> & Hne & Hr). unfold read_of.
  destruct (qk_queue w i) as [q|] eqn:E; cbn [fmap option_fmap option_map from_option].
  - change (option_list (Some (queue_row q)) ++ rest) with (queue_row q :: rest).
    pose proof (qk_ok (run := run) w i q E) as Hq. rewrite lines_of; [| done |].
    + cbn [read_lines]. rewrite queue_row_fields by done. destruct (reading_some q) as [r Hr']. unfold reading_of. by rewrite Hr'.
    + constructor; [by apply queue_row_one_line |]. eapply Forall_impl; [exact Hr | by intros l []].
  - rewrite lines_of; [| done | eapply Forall_impl; [exact Hr | by intros l []]].
    apply read_lines_none. eapply Forall_impl; [exact Hr |]. intros l [_ H']. by apply H'.
Qed.

(** The queue of an interface is this system's. *)
Definition ours_on (w : W) (i : string) : bool := String.eqb (qr_kind (read_of w i)) ShapeQdisc && qr_ours (read_of w i).

Lemma ours_on_iff w i : ours_on w i = true <-> exists q, qk_queue w i = Some q /\ our_queue q.
Proof.
  unfold ours_on, read_of, our_queue. rewrite andb_true_iff, String.eqb_eq. destruct (qk_queue w i) as [q|]; cbn [from_option].
  - rewrite reading_kind. split; [intros []; by exists q | intros (q' & [= <-] & H1 & H2); by split].
  - split; [intros [H _]; discriminate H | by intros (q & ? & _)].
Qed.

(** The rest of the program, once the listing is read. *)
Definition shape_rest (i : string) (m : float64) (q : qreading) : cmds (result shape_err bool) :=
  if fle m fzero then
    if negb (String.eqb (qr_kind q) ShapeQdisc) || negb (qr_ours q) then Done (Ok false)
    else let! _ := RemoveQdisc i in Done (Ok true)
  else if String.eqb (qr_kind q) ShapeQdisc && qr_ours q && sameRate (qr_rate q) m then Done (Ok false)
  else
    let! r := ask (replace_qdisc i m) in
    Done (match r with Ok _ => Ok true | Err e => Err (ErrShape e) end).


Lemma EnsureQdisc_step i m w : i <> ""%string ->
  let '(a, w1) := run (show_qdisc i) w in
  let c := match a with Ok out => shape_rest i m (read_lines (lines out)) | Err e => Done (Err (ErrRead e)) end in
  execute run (EnsureQdisc i m) w = execute run c w1
  /\ worlds run (EnsureQdisc i m) w = w1 :: worlds run c w1
  /\ issued run (EnsureQdisc i m) w = show_qdisc i :: issued run c w1.
Proof.
  intros Hi. unfold EnsureQdisc, qdiscInfo, ask. rewrite (proj2 (String.eqb_neq i "")) by done.
  cbn [then_ execute worlds issued]. by destruct (run (show_qdisc i) w) as [[out|e] w1].
Qed.

(** What the rest of the program does, by the queue the world has. *)
Lemma rest_idle i m w : (fle m fzero = true -> ours_on w i = false) ->
  (fle m fzero = false -> ours_on w i = true /\ sameRate (qr_rate (read_of w i)) m = true) ->
  shape_rest i m (read_of w i) = Done (Ok false).
Proof.
  intros H1 H2. unfold shape_rest, ours_on in *. destruct (fle m fzero).
  - specialize (H1 eq_refl). rewrite <- negb_andb, H1. done.
  - destruct (H2 eq_refl) as [-> ->]. done.
Qed.

Lemma rest_others i m q w j : j <> i -> Forall (fun w' => qk_queue w' j = qk_queue w j) (worlds run (shape_rest i m q) w).
Proof.
  intros Hj. unfold shape_rest, RemoveQdisc, ignore, ask.
  repeat case_match; cbn [then_ worlds]; try (by repeat constructor);
    pose proof (qk_del (run := run) i w) as Hd; pose proof (qk_replace (run := run) i m w) as Hr.
  - destruct (run (del_qdisc i) w) as [a w1]. destruct Hd as [Hd _]. cbn [worlds]. repeat constructor. by apply Hd.
  - destruct (run (replace_qdisc i m) w) as [a w1]. destruct Hr as [Hr _]. cbn [worlds]. repeat constructor. by apply Hr.
Qed.

(** What [i] needs to be left alone at the rate [m]. *)
Definition at_rest (w : W) (i : string) (m : float64) : Prop :=
  if fle m fzero then forall q, qk_queue w i = Some q -> ~ our_queue q
  else exists q, qk_queue w i = Some q /\ shaped_at m q.

Lemma not_ours w i : ours_on w i = false <-> forall q, qk_queue w i = Some q -> ~ our_queue q.
Proof.
  rewrite <- not_true_iff_false, ours_on_iff. split.
  - intros H q E Ho. apply H. by exists q.
  - intros H (q & E & Ho). by apply (H q).
Qed.

Lemma shaped_on w i m : (exists q, qk_queue w i = Some q /\ shaped_at m q)
  <-> ours_on w i = true /\ sameRate (qr_rate (read_of w i)) m = true.
Proof.
  rewrite ours_on_iff. unfold read_of, shaped_at. split.
  - intros (q & E & Ho & Hs). rewrite E. split; [by exists q | done].
  - intros ((q & E & Ho) & Hs). rewrite E in Hs. by exists q.
Qed.

Lemma at_rest_same w w' i m : qk_queue w' i = qk_queue w i -> at_rest w i m -> at_rest w' i m.
Proof. unfold at_rest. by intros ->. Qed.

Lemma at_rest_reads w i m : at_rest w i m
  <-> if fle m fzero then ours_on w i = false else ours_on w i = true /\ sameRate (qr_rate (read_of w i)) m = true.
Proof. unfold at_rest. destruct (fle m fzero); [by rewrite not_ours | apply shaped_on]. Qed.

#[global] Instance at_rest_dec w i m : Decision (at_rest w i m).
Proof.
  refine (cast_if (decide ((if fle m fzero then negb (ours_on w i)
    else ours_on w i && sameRate (qr_rate (read_of w i)) m) = true))).
  all: rewrite at_rest_reads; destruct (fle m fzero); by rewrite <- ?andb_true_iff, <- ?negb_true_iff.
Defined.

Lemma at_rest_idle i m w : at_rest w i m -> shape_rest i m (read_of w i) = Done (Ok false).
Proof. rewrite at_rest_reads. intros H. apply rest_idle; intros E; rewrite E in H; exact H. Qed.

(** What is not at rest is put right. *)
Lemma rest_acts i m w : ~ at_rest w i m ->
  shape_rest i m (read_of w i)
  = if fle m fzero then Exec (del_qdisc i) (fun _ => Done (Ok true))
    else Exec (replace_qdisc i m) (fun r => Done (match r with Ok _ => Ok true | Err e => Err (ErrShape e) end)).
Proof.
  rewrite at_rest_reads. unfold shape_rest, RemoveQdisc, ignore, ask. cbn [then_]. rewrite <- negb_andb.
  change (String.eqb (qr_kind (read_of w i)) ShapeQdisc && qr_ours (read_of w i)) with (ours_on w i).
  destruct (fle m fzero), (ours_on w i); cbn [negb andb]; intros H; try done; try (by destruct H).
  destruct (sameRate _ _); [by destruct H | done].
Qed.

Lemma at_rest_issues i m w : i <> ""%string -> at_rest w i m ->
  issued run (EnsureQdisc i m) w = [show_qdisc i]
  /\ (is_ok (run (show_qdisc i) w).1 = true -> (execute run (EnsureQdisc i m) w).1 = Ok false).
Proof.
  intros Hi Hr. pose proof (EnsureQdisc_step i m w Hi) as H. pose proof (show_reads i w) as Hs.
  destruct (run (show_qdisc i) w) as [[out|e] w1] eqn:Er; cbn in H, Hs; destruct H as (-> & _ & ->); [| by split].
  rewrite (Hs out eq_refl), at_rest_idle by done. by split.
Qed.
End queues.

Section properties.
Context {W : Type} (run : runner W) `{HK : !QueueKernel run}.

(** An interface that has a queue keeps one. *)
Lemma ensure_keeps_queue i m w : is_Some (qk_queue w i) -> is_Some (qk_queue (execute run (EnsureQdisc i m) w).2 i).
Proof.
  intros Hq. destruct (decide (i = ""%string)) as [->|Hi]; [done |].
  pose proof (EnsureQdisc_step run i m w Hi) as H. pose proof (listing_keeps run i w i) as Hk.
  destruct (run (show_qdisc i) w) as [a w1]. cbn in H, Hk. destruct H as (-> & _ & _). rewrite <- Hk in Hq. clear Hk w.
  destruct a as [out|e]; [| done]. unfold shape_rest, RemoveQdisc, ignore, ask.
  pose proof (qk_del (run := run) i w1) as Hd. pose proof (qk_replace (run := run) i m w1) as Hr.
  destruct (fle m fzero); [destruct (_ || _) | destruct (_ && _)]; cbn [then_ execute]; try done.
  - destruct (run (del_qdisc i) w1) as [b w2]. cbn. destruct Hd as [_ Hd]. destruct (is_ok b); rewrite Hd; [by eexists | done].
  - destruct (run (replace_qdisc i m) w1) as [b w2]. cbn. destruct Hr as [_ Hr].
    destruct (is_ok b); [destruct Hr as (q & -> & _); by eexists | by rewrite Hr].
Qed.

(** One pass over an interface changes the queue of no other; at a rate of
    zero a queue that is not this system's is only listed, and stays. *)
Theorem shape_only_ours i m w :
  (forall j, j <> i -> Forall (fun w' => qk_queue w' j = qk_queue w j) (worlds run (EnsureQdisc i m) w))
  /\ (i <> ""%string -> fle m fzero = true -> (forall q, qk_queue w i = Some q -> ~ our_queue q) ->
      issued run (EnsureQdisc i m) w = [show_qdisc i]
      /\ forall j, qk_queue (execute run (EnsureQdisc i m) w).2 j = qk_queue w j).
Proof.
  split.
  - intros j Hj. destruct (decide (i = ""%string)) as [->|Hi]; [constructor |].
    pose proof (EnsureQdisc_step run i m w Hi) as H. pose proof (listing_keeps run i w) as Hk.
    destruct (run (show_qdisc i) w) as [a w1]. cbn in H, Hk. destruct H as (_ & -> & _). constructor; [apply Hk |].
    destruct a as [out|e]; [| constructor]. rewrite <- Hk. by apply rest_others.
  - intros Hi Hm Hq. assert (Hr : at_rest run w i m).
    { unfold at_rest. by rewrite Hm. }
    split; [by apply (at_rest_issues run i m w Hi Hr) |]. intros j.
    pose proof (EnsureQdisc_step run i m w Hi) as H. pose proof (listing_keeps run i w j) as Hk. pose proof (show_reads run i w) as Hs.
    destruct (run (show_qdisc i) w) as [[out|e] w1]; cbn in H, Hk, Hs; destruct H as (-> & _ & _); [| exact Hk].
    rewrite (Hs out eq_refl), at_rest_idle by done. exact Hk.
Qed.

Lemma ensure_others i j m w : j <> i -> qk_queue (execute run (EnsureQdisc i m) w).2 j = qk_queue w j.
Proof.
  intros Hj. pose proof (execute_last run (EnsureQdisc i m) w) as Hl.
  pose proof (proj1 (shape_only_ours i m w) j Hj) as H. rewrite Forall_forall in H.
  apply elem_of_cons in Hl as [-> | Hl]; [done | by apply H].
Qed.

(** On an interface that is there, where commands do not fail, one pass
    brings the queue to its rate - the shaper at that rate, or none of this
    system's - says whether it had to, and a second pass only lists. *)
Theorem shape_settles `{!QueueReliable run} i m w : i <> ""%string -> is_Some (qk_queue w i) ->
  (fle m fzero = false -> qk_prints (run := run) m) ->
  let '(r, w') := execute run (EnsureQdisc i m) w in
  r = Ok (negb (bool_decide (at_rest run w i m)))
  /\ at_rest run w' i m
  /\ issued run (EnsureQdisc i m) w' = [show_qdisc i]
  /\ (execute run (EnsureQdisc i m) w').1 = Ok false.
Proof.
  intros Hi Hin Hm. pose proof (EnsureQdisc_step run i m w Hi) as H. pose proof (listing_keeps run i w i) as Hk.
  pose proof (show_reads run i w) as Hs. pose proof (qr_show (run := run) i w Hin) as Hok.
  destruct (run (show_qdisc i) w) as [[out|e] w1]; cbn in H, Hk, Hs, Hok; [| done]. destruct H as (-> & _ & _).
  rewrite (Hs out eq_refl). rewrite <- Hk in Hin.
  assert (Hsnd : forall w', is_Some (qk_queue w' i) -> at_rest run w' i m ->
    at_rest run w' i m /\ issued run (EnsureQdisc i m) w' = [show_qdisc i] /\ (execute run (EnsureQdisc i m) w').1 = Ok false).
  { intros w' Hw' Hw. pose proof (at_rest_issues run i m w' Hi Hw) as [H1 H2]. split_and!; [done.. |].
    by apply H2, (qr_show (run := run)). }
  destruct (decide (at_rest run w i m)) as [Hr|Hr].
  { rewrite at_rest_idle, bool_decide_true by done. cbn [execute]. split; [done |]. apply Hsnd; [done |].
    by apply (at_rest_same run w). }
  rewrite rest_acts, bool_decide_false by done. destruct (fle m fzero) eqn:E; cbn [execute].
  - pose proof (qk_del (run := run) i w1) as Hd. pose proof (qr_del (run := run) i w1 Hin) as Hdok.
    destruct (run (del_qdisc i) w1) as [a w2]. cbn in Hdok |- *. rewrite Hdok in Hd. destruct Hd as [_ Hd].
    split; [done |]. apply Hsnd; [by eexists |]. unfold at_rest. rewrite E. intros q. rewrite Hd. intros [= <-].
    apply (qk_default_foreign (run := run)).
  - pose proof (qk_replace (run := run) i m w1) as Hp. pose proof (qr_replace (run := run) i m w1 Hin (Hm eq_refl)) as Hpok.
    destruct (run (replace_qdisc i m) w1) as [[out'|e] w2]; cbn in Hpok, Hp |- *; [| done]. destruct Hp as (_ & q & Eq & Hq).
    split; [done |]. apply Hsnd; [by eexists |]. unfold at_rest. rewrite E. exists q. split; [done | by apply Hq, Hm].
Qed.
End properties.
End shape.

(** ** A host *)

(** Rates are written without their fraction here. *)
#[export] Instance WholeRates : FloatText :=
  {| ParseFloat s := f64_of_Z <$> Atoi (string_bytes s); FormatG f := from_option Itoa "" (f64_trunc f) |}.
#[local] Existing Instance AsciiUnicode.

#[export] Instance word_dec s : Decision (word s).
Proof. unfold word. apply _. Defined.
#[export] Instance queue_ok_dec q : Decision (queue_ok q).
Proof. unfold queue_ok. apply _. Defined.

(** A host keeps the root queue of each of its interfaces, and prints what it
    keeps; the rate it keeps is the rate it was given. *)
Definition host_queue (w : gmap string queue) (i : string) : option queue :=
  q ← w !! i; if decide (queue_ok q) then Some q else None.
Definition kernel_queue : queue := mkQueue "noqueue" ["0:"; "root"; "refcnt"; "2"]%string.
Definition cake_queue (rate : string) : queue :=
  mkQueue "cake" ["8001:"; "root"; "refcnt"; "2"; "bandwidth";
    (default "" (cut_suffix "mbit" rate) ++ "Mbit"); "besteffort"; "triple-isolate"; "overhead"; "80"]%string.
Definition host_tc : runner (gmap string queue) := fun argv w =>
  let i := nth 4 argv ""%string in
  if decide (argv = show_qdisc i) then
    (Ok (String.concat NL (option_list (queue_row <$> host_queue w i))), w)
  else if decide (argv = del_qdisc i) then
    if decide (is_Some (host_queue w i)) then (Ok ""%string, <[i := kernel_queue]> w)
    else (Err "Error: Cannot find device."%string, w)
  else if decide (take 3 argv = ["tc"; "qdisc"; "replace"]%string) then
    let q := cake_queue (nth 8 argv ""%string) in
    if decide (is_Some (host_queue w i) /\ queue_ok q) then (Ok ""%string, <[i := q]> w)
    else (Err "Error: Cannot find device."%string, w)
  else (Ok ""%string, w).
Definition host_prints (m : float64) : Prop := queue_ok (cake_queue (formatRate m)) /\ shaped_at m (cake_queue (formatRate m)).

Lemma host_queue_insert w i j q : queue_ok q ->
  host_queue (<[i := q]> w) j = if decide (i = j) then Some q else host_queue w j.
Proof.
  intros Hq. unfold host_queue. destruct (decide (i = j)) as [->|Hij].
  - rewrite lookup_insert_eq. cbn. by rewrite decide_True.
  - by rewrite lookup_insert_ne.
Qed.

#[export] Instance host_queues : QueueKernel host_tc.
Proof.
  refine {| qk_queue := host_queue; qk_default := kernel_queue; qk_prints := host_prints |}.
  - intros w i q. unfold host_queue. destruct (w !! i) as [q'|]; cbn; [| done]. case_decide; [| done]. by intros [= <-].
  - intros [H _]. discriminate H.
  - intros i w. unfold host_tc. cbn [nth show_qdisc]. rewrite decide_True by done. split; [done |].
    intros out [= <-]. destruct (host_queue w i) as [q|]; [by exists [] |]. exists [""%string]. split; [done |]. split; [done |].
    apply Forall_singleton. split; [| done]. unfold one_line. vm_compute. set_solver.
  - intros i m w. unfold host_tc. cbn [nth replace_qdisc]. rewrite !decide_False, decide_True by done.
    case_decide as H; cbn [is_ok]; [| done]. destruct H as [_ Hq]. split.
    + intros j Hj. rewrite host_queue_insert, decide_False by done. done.
    + eexists. rewrite host_queue_insert, decide_True by done. split; [done |]. by intros [_ Hm].
  - intros i w. unfold host_tc. cbn [nth del_qdisc]. rewrite decide_False, decide_True by done.
    assert (Hq : queue_ok kernel_queue) by (apply (bool_decide_unpack _); by vm_compute).
    case_decide as H; cbn [is_ok]; [| done]. split.
    + intros j Hj. rewrite host_queue_insert, decide_False by done. done.
    + by rewrite host_queue_insert, decide_True by done.
Defined.

#[export] Instance host_queues_reliable : QueueReliable host_tc.
Proof.
  split.
  - intros i w _. unfold host_tc. cbn [nth show_qdisc]. by rewrite decide_True by done.
  - intros i m w Hin [Hq _]. unfold host_tc. cbn [nth replace_qdisc]. rewrite !decide_False, !decide_True by done. done.
  - intros i w Hin. unfold host_tc. cbn [nth del_qdisc]. rewrite decide_False, decide_True by done. by rewrite decide_True.
Qed.

(** ** Witnesses *)

(** A tunnel with an operator's own CAKE, and one this system shaped. *)
Definition demo_host : gmap string queue :=
  {[ "wg-lte1" := mkQueue "cake" ["8002:"; "root"; "refcnt"; "2"; "bandwidth"; "50Mbit"; "diffserv3"]%string;
     "wg-lte2" := cake_queue "18mbit" ]}%string.

Lemma shape_only_ours_witness :
  issued host_tc (EnsureQdisc "wg-lte1" fzero) demo_host = [show_qdisc "wg-lte1"]
  /\ forall j, host_queue (execute host_tc (EnsureQdisc "wg-lte1" fzero) demo_host).2 j = host_queue demo_host j.
Proof.
  refine (proj2 (shape_only_ours host_tc "wg-lte1" fzero demo_host) _ _ _).
  - discriminate.
  - by vm_compute.
  - intros q E. vm_compute in E. injection E as <-. intros [_ H]. vm_compute in H. discriminate H.
Defined.

Lemma shape_settles_witness :
  let '(r, w') := execute host_tc (EnsureQdisc "wg-lte1" (f64_of_Z 18)) demo_host in
  r = Ok (negb (bool_decide (at_rest host_tc demo_host "wg-lte1" (f64_of_Z 18))))
  /\ at_rest host_tc w' "wg-lte1" (f64_of_Z 18)
  /\ issued host_tc (EnsureQdisc "wg-lte1" (f64_of_Z 18)) w' = [show_qdisc "wg-lte1"]
  /\ (execute host_tc (EnsureQdisc "wg-lte1" (f64_of_Z 18)) w').1 = Ok false.
Proof.
  apply (shape_settles host_tc "wg-lte1" (f64_of_Z 18) demo_host).
  - discriminate.
  - by eexists; vm_compute.
  - intros _. split; [apply (bool_decide_unpack _); by vm_compute |]. by repeat split; vm_compute.
Defined.
