(* ===== verification/LinkerPolicy.v ===== *)
(** * The linker's rules, as promised

    What [ensurePinnedRule] and [removePinnedRule] of [LinkerRules] do to a
    kernel: they never orphan a route of ours in a table this host stopped
    using, never touch a rule that is not provably ours, and leave no moment
    without a rule. *)

From S2P Require Import Prelude Model Bytes Decimal Text Net Ports Nft Rules Validate ProbeRules LinkerRules.

(** Whether a rule selects on this value. *)
Definition selected (key value : string) (r : krule) : bool :=
  if String.eqb key "from" then bool_decide (kr_from r = Some value) else bool_decide (kr_mark r = Some value).
Definition selector_key (key : string) : Prop := key = "from"%string \/ key = "fwmark"%string.

Section reading.
Context (alias : Z -> string) (Halias : forall t, name_ok (alias t)).

Lemma scan_selector_fields key value r : selector_key key -> value <> "all"%string -> rule_ok r ->
  scan_selector key value false "" (rule_fields alias r)
  = (selected key value r, match kr_act r with Lookup t => alias t | Unreachable => "" end).
Proof.
  intros Hkey Hall Hr.
  assert (Hsrc : String.eqb (default "all" (kr_from r)) value = bool_decide (kr_from r = Some value)).
  { destruct (kr_from r) as [s|]; cbn [default from_option id]; [by rewrite some_decide |].
    rewrite bool_decide_eq_false_2 by done. apply String.eqb_neq. congruence. }
  unfold selected. destruct Hkey as [-> | ->]; scan_rule alias Halias r Hr; cbn [scan_selector];
    repeat match goal with E : String.eqb ?a ?b = false |- context [String.eqb ?a ?b] => rewrite E end;
    eval_eqb; cbn [andb orb negb]; rewrite ?some_decide, ?Hsrc; try done;
    by rewrite bool_decide_eq_false_2.
Qed.

(** What the listing says of a rule on this selector. *)
Definition selector_view (key value : string) (r : krule) : option sourceRule :=
  match kr_act r with
  | Lookup t => if selected key value r then Some (mkSource (kr_pref r) (alias t)) else None
  | Unreachable => None
  end.

Lemma selectorRules_listing key value rs : selector_key key -> value <> "all"%string -> Forall rule_ok rs ->
  selectorRules (listing alias rs) key value = omap (selector_view key value) rs.
Proof.
  intros Hkey Hall Hrs. unfold selectorRules. rewrite (rule_lines_listing alias Halias) by done.
  induction Hrs as [|r rs Hr Hrs IH]; [done |]. cbn [fmap list_fmap omap list_omap fst snd].
  rewrite (scan_selector_fields key value r Hkey Hall Hr). unfold selector_view at 1.
  destruct (kr_act r) as [t|]; [| rewrite andb_false_r; exact IH].
  assert (Hne : String.eqb (alias t) "" = false) by (apply String.eqb_neq, (Halias t)).
  rewrite Hne, andb_true_r. destruct (selected key value r); [f_equal |]; exact IH.
Qed.

Lemma lookups_fields r : rule_ok r ->
  lookups (rule_fields alias r) = match kr_act r with Lookup t => [alias t] | Unreachable => [] end.
Proof.
  intros Hr. scan_rule alias Halias r Hr; cbn [lookups];
    repeat match goal with E : String.eqb ?a ?b = false |- context [String.eqb ?a ?b] => rewrite E end;
    eval_eqb; done.
Qed.

Lemma pref_word n : in_i64 n -> word (Itoa n ++ ":")%string /\ String.eqb (Itoa n ++ ":") "lookup" = false.
Proof.
  intros Hn. destruct (Itoa_bytes n Hn) as (Hne & Hb & _).
  assert (E : string_bytes (Itoa n ++ ":")%string = string_bytes (Itoa n) ++ [58]) by (by rewrite string_bytes_append).
  split; [split |].
  - intros H. rewrite H in E. by destruct (string_bytes (Itoa n)).
  - rewrite E, forallb_app. cbn. rewrite andb_true_r. apply forallb_forall. intros c Hc. apply list_elem_of_In in Hc.
    rewrite Forall_forall in Hb. specialize (Hb c Hc). unfold plain_byte. lia.
  - apply String.eqb_neq. intros H. rewrite H in E. destruct (string_bytes (Itoa n)) as [|c b]; [done |].
    apply Forall_cons in Hb as [Hc _]. change (string_bytes "lookup") with [108; 111; 111; 107; 117; 112] in E.
    cbn [app] in E. injection E as <- _. lia.
Qed.

Lemma line_lookups r : rule_ok r ->
  lookups (Fields (rule_text alias r)) = match kr_act r with Lookup t => [alias t] | Unreachable => [] end.
Proof.
  intros Hr. destruct (pref_word (kr_pref r) (proj1 Hr)) as [Hw Hl].
  assert (E : Fields (rule_text alias r) = (Itoa (kr_pref r) ++ ":")%string :: rule_fields alias r).
  { rewrite <- (Fields_cons (Itoa (kr_pref r) ++ ":") 9 (rule_fields alias r) Hw).
    - unfold rule_text. by rewrite append_assoc.
    - right. lia.
    - by apply rule_fields_words. }
  rewrite E, <- (lookups_fields r Hr). unfold rule_fields. cbn [app lookups]. by rewrite Hl.
Qed.

Lemma tableTokens_listing rs tok : Forall rule_ok rs ->
  tok ∈ tableTokens (listing alias rs) <-> exists r t, r ∈ rs /\ kr_act r = Lookup t /\ tok = alias t.
Proof.
  intros Hrs. unfold tableTokens. destruct rs as [|r0 rs0].
  { cbn. split; [intros H; by apply elem_of_nil in H | intros (r & t & H & _); by apply elem_of_nil in H]. }
  rewrite (listing_lines alias Halias) by done. rewrite Forall_forall in Hrs. split.
  - intros H. apply list_elem_of_bind in H as (b & Htok & Hb).
    apply list_elem_of_fmap in Hb as (s & -> & Hs). apply list_elem_of_fmap in Hs as (r & -> & Hr).
    rewrite bytes_string_bytes in Htok. rewrite line_lookups in Htok by (by apply Hrs).
    destruct (kr_act r) as [t|] eqn:E; [| by apply elem_of_nil in Htok].
    apply list_elem_of_singleton in Htok as ->. by exists r, t.
  - intros (r & t & Hr & Ha & ->). apply list_elem_of_bind. exists (string_bytes (rule_text alias r)). split.
    + rewrite bytes_string_bytes, line_lookups, Ha by (by apply Hrs). by left.
    + apply list_elem_of_fmap. exists (rule_text alias r). split; [done |]. apply list_elem_of_fmap. by exists r.
Qed.
End reading.

(** ** The kernel's tables *)

Definition default_text (gateway : option string) (dev : string) : string :=
  match gateway with
  | Some g => String.concat " " ["default"; "via"; g; "dev"; dev]%string
  | None => ""
  end.

Lemma gatewayFrom_text o dev : (forall g, o = Some g -> word g) -> word dev -> gatewayFrom (default_text o dev) = default ""%string o.
Proof.
  intros Ho Hd. destruct o as [g|]; [| reflexivity]. specialize (Ho g eq_refl). unfold gatewayFrom, default_text.
  rewrite Fields_concat; [reflexivity |].
  assert (Hw : forall s, s ∈ ["default"; "via"; "dev"]%string -> word s).
  { intros s Hs. rewrite !elem_of_cons, elem_of_nil in Hs. destruct_or!; subst; try done; split; (done || vm_compute; reflexivity). }
  repeat constructor; try apply Ho; try apply Hd; apply Hw; set_solver.
Qed.

(** What a table number is called does not matter: its name in [rt_tables] and
    its number are the same table.  A table has at most one default route
    here, which is the one a command without a metric reads and writes. *)
Class LinkerKernel {W} (run : runner W) `{!Kernel run} := {
  l_default : W -> Z -> option string;
  l_default_ok w t g : l_default w t = Some g -> word g;
  l_table : string -> option Z;
  l_table_alias t : 0 <= t <= MaxInt64 -> l_table (k_alias t) = Some t;
  l_table_number t : 0 <= t <= MaxInt64 -> l_table (Itoa t) = Some t;
  l_rule rest w t : l_default (run ("ip" :: "rule" :: rest)%string w).2 t = l_default w t;
  l_del key value tok q t w : selector_key key -> in_i64 q -> l_table tok = Some t ->
    let '(a, w') := run (selector_rule "del" key value tok q) w in
    if is_ok a then exists r, selected key value r = true /\ kr_act r = Lookup t /\ kr_pref r = q /\ k_rules w ≡ₚ r :: k_rules w'
    else k_rules w' = k_rules w;
  l_del_any key value tok t w : selector_key key -> l_table tok = Some t ->
    let '(a, w') := run ["ip"; "rule"; "del"; key; value; "lookup"; tok]%string w in
    if is_ok a then exists r, selected key value r = true /\ kr_act r = Lookup t /\ k_rules w ≡ₚ r :: k_rules w'
    else k_rules w' = k_rules w;
  l_show tok t w : l_table tok = Some t ->
    let '(a, w') := run ["ip"; "route"; "show"; "default"; "table"; tok]%string w in
    (forall t', l_default w' t' = l_default w t')
    /\ match a with
       | Ok out => exists dev, word dev /\ out = default_text (l_default w t) dev
       | Err e => tableDoesNotExist e = true -> l_default w t = None
       end;
  l_del_default g tok t w : l_table tok = Some t ->
    let '(a, w') := run (del_default g tok) w in
    if is_ok a then l_default w t = Some g /\ forall t', l_default w' t' = if t' =? t then None else l_default w t'
    else forall t', l_default w' t' = l_default w t' }.

(** A rule that selects this value into the table. *)
Definition marked {W} {run : runner W} `{!Kernel run} (key value : string) (t : Z) (w : W) : Prop :=
  exists r, r ∈ k_rules w /\ selected key value r = true /\ kr_act r = Lookup t.

Section kernel.
Context {W : Type} (run : runner W) `{HK : !Kernel run, HL : !LinkerKernel run}.
Context (key value : string) (Hkey : selector_key key) (Hall : value <> "all"%string) (Hvalue : name_ok value).
Context (tbl : Z) (Htbl : 0 <= tbl <= MaxInt64) (want : Z) (Hwant : in_i64 want) (own : bool) (backendLAN : string).

Lemma alias_inj t t' : 0 <= t <= MaxInt64 -> 0 <= t' <= MaxInt64 -> k_alias t = k_alias t' -> t = t'.
Proof. intros Ht Ht' E. pose proof (l_table_alias t Ht) as H. rewrite E, (l_table_alias t' Ht') in H. by injection H. Qed.

Definition the_rule (t q : Z) : krule :=
  if String.eqb key "from" then mkRule q (Some value) None None (Lookup t) else mkRule q None None (Some value) (Lookup t).

Lemma the_rule_argv : selector_rule "add" key value (Itoa tbl) want = rule_argv "add" (the_rule tbl want).
Proof. unfold the_rule. destruct Hkey as [-> | ->]; reflexivity. Qed.

Lemma the_rule_ok : rule_ok (the_rule tbl want).
Proof. unfold the_rule, rule_ok. destruct (String.eqb key "from"); cbn; by repeat split; try apply Hvalue; try apply Htbl; try apply Hwant. Qed.

Lemma the_rule_selected : selected key value (the_rule tbl want) = true.
Proof. unfold selected, the_rule. destruct (String.eqb key "from"); by apply bool_decide_eq_true. Qed.

(** Tokens of this host's own table. *)
Definition own_tokens (mine : list string) : Prop := forall tok, tok ∈ mine -> l_table tok = Some tbl.

(** ** Relations every command of a run keeps *)

Definition steps (R : W -> W -> Prop) {A} (c : cmds A) (w : W) : Prop := Forall (R w) (worlds run c w).

Section steps.
Context (R : W -> W -> Prop) `{!Reflexive R, !Transitive R}.

Lemma steps_final {A} (c : cmds A) w : steps R c w -> R w (execute run c w).2.
Proof.
  intros H. pose proof (execute_last run c w) as Hl. apply elem_of_cons in Hl as [->|Hl]; [reflexivity |].
  unfold steps in H. rewrite Forall_forall in H. by apply H.
Qed.

Lemma steps_from {A} (c : cmds A) w w1 : R w w1 -> steps R c w1 -> steps R c w1 /\ Forall (R w) (worlds run c w1).
Proof. intros Hw Hs. split; [done |]. eapply Forall_impl; [exact Hs |]. intros w'. by apply transitivity. Qed.

Lemma steps_exec {A} argv (k : answer -> cmds A) w : R w (run argv w).2 ->
  steps R (k (run argv w).1) (run argv w).2 -> steps R (Exec argv k) w.
Proof. intros Hw Hs. unfold steps. rewrite worlds_exec. constructor; [done |]. by apply (steps_from _ w). Qed.

Lemma steps_then {A B} (c : cmds A) (k : A -> cmds B) w : steps R c w ->
  steps R (k (execute run c w).1) (execute run c w).2 -> steps R (then_ c k) w.
Proof.
  intros Hc Hk. unfold steps. rewrite worlds_then. apply Forall_app_2; [exact Hc |].
  apply (steps_from _ w); [by apply steps_final | done].
Qed.

Lemma steps_done {A} (a : A) w : steps R (Done a) w.
Proof. constructor. Qed.
End steps.

(** ** No route is orphaned *)

(** The route to the backend in a table leaves before its last rule does. *)
Definition no_orphan (t : Z) (w w' : W) : Prop :=
  (l_default w' t = l_default w t \/ l_default w' t = None)
  /\ (marked key value t w -> l_default w' t = Some backendLAN -> marked key value t w').

#[export] Instance no_orphan_refl t : Reflexive (no_orphan t).
Proof. intros w. split; [by left | done]. Qed.
#[export] Instance no_orphan_trans t : Transitive (no_orphan t).
Proof.
  intros w1 w2 w3 [D1 M1] [D2 M2]. split.
  - destruct D2 as [->|D2]; [exact D1 | by right].
  - intros Hm Hd. destruct D2 as [D2|D2]; [| congruence]. apply M2; [| done]. apply M1; [done | congruence].
Qed.

Lemma orphan_same t w w' : k_rules w' = k_rules w -> (l_default w' t = l_default w t \/ l_default w' t = None) -> no_orphan t w w'.
Proof. intros Er Ed. split; [done |]. intros (r & Hr & Hs) _. exists r. by rewrite Er. Qed.

Lemma marked_cons t w w' r : k_rules w ≡ₚ r :: k_rules w' -> kr_act r <> Lookup t -> marked key value t w -> marked key value t w'.
Proof.
  intros E Hr (r' & Hin & Hs & Ha). rewrite E in Hin. apply elem_of_cons in Hin as [->|Hin]; [done |]. by exists r'.
Qed.

(** A deletion in another table, or in one without the route. *)
Lemma orphan_del t tok t' q w : in_i64 q -> l_table tok = Some t' -> (t' = t -> l_default w t <> Some backendLAN) ->
  no_orphan t w (run (selector_rule "del" key value tok q) w).2.
Proof.
  intros Hq Ht Hd. pose proof (l_del key value tok q t' w Hkey Hq Ht) as L.
  pose proof (l_rule ["del"; key; value; "lookup"; tok; "pref"; Itoa q]%string w t) as D.
  unfold selector_rule in *. destruct (run _ w) as [a w']. cbn [fst snd] in *. destruct (is_ok a).
  - destruct L as (r & _ & Ha & _ & E). split; [by left |]. intros Hm Hd'.
    eapply marked_cons; [exact E | | exact Hm]. rewrite Ha. intros [= ->]. rewrite D in Hd'. by apply Hd.
  - by apply orphan_same; [| left].
Qed.

(** A true answer means the route is not there. *)
Lemma clean_ok tok t w : l_table tok = Some t ->
  (execute run (cleanAbandonedTable backendLAN tok) w).1 = true ->
  l_default (execute run (cleanAbandonedTable backendLAN tok) w).2 t <> Some backendLAN.
Proof.
  intros Ht. unfold cleanAbandonedTable. destruct (String.eqb_spec backendLAN "") as [Eb|Eb].
  { intros _ Hd. cbn in Hd. apply l_default_ok in Hd. by destruct Hd. }
  unfold showRoutes, ask. cbn [then_ app]. pose proof (l_show tok t w Ht) as L. rewrite execute_exec.
  destruct (run _ w) as [a w1]. cbn [fst snd]. destruct L as [D L].
  assert (Hgone : (execute run (let! r := ask (del_default backendLAN tok) in Done (is_ok r)) w1).1 = true ->
      l_default (execute run (let! r := ask (del_default backendLAN tok) in Done (is_ok r)) w1).2 t <> Some backendLAN).
  { unfold ask. cbn [then_]. rewrite execute_exec. pose proof (l_del_default backendLAN tok t w1 Ht) as L1.
    destruct (run _ w1) as [a1 w2]. cbn. intros Ha. rewrite Ha in L1. destruct L1 as [_ L1]. by rewrite L1, Z.eqb_refl. }
  assert (Hread : forall out, gatewayFrom out = default ""%string (l_default w1 t) ->
      negb (String.eqb (gatewayFrom out) backendLAN) = true -> l_default w1 t <> Some backendLAN).
  { intros out -> Hn E. rewrite E in Hn. cbn in Hn. by rewrite String.eqb_refl in Hn. }
  destruct a as [out|e].
  - destruct L as (dev & Hdev & ->).
    assert (G : gatewayFrom (default_text (l_default w t) dev) = default ""%string (l_default w1 t)).
    { rewrite D. apply gatewayFrom_text; [apply l_default_ok | done]. }
    cbn [then_]. destruct (negb _) eqn:En; [intros _; cbn [execute snd]; by apply (Hread _ G) | exact Hgone].
  - destruct (tableDoesNotExist e) eqn:Ee; cbn [then_]; [| done].
    assert (G : gatewayFrom "" = default ""%string (l_default w1 t)) by (rewrite D, (L eq_refl); reflexivity).
    destruct (negb _) eqn:En; [intros _; cbn [execute snd]; by apply (Hread _ G) | exact Hgone].
Qed.

(** ** What a run can do

    A relation that the commands of a run keep: those that leave the rules
    alone, the addition of the rule, and the deletion of a rule that may go. *)

(** Each default route is the one it was, or gone. *)
Definition routes_kept (w w' : W) : Prop :=
  k_rules w' = k_rules w /\ forall t, l_default w' t = l_default w t \/ l_default w' t = None.

Section walk.
Context (R : W -> W -> Prop) `{!Reflexive R, !Transitive R}.
Context (allowed : Z -> Z -> Prop).
Context (R_routes : forall w w', routes_kept w w' -> R w w').
Context (R_del : forall q tok t w, in_i64 q -> l_table tok = Some t -> own = true \/ t = tbl \/ q = want -> allowed q t ->
  t = tbl \/ l_default w t <> Some backendLAN -> R w (run (selector_rule "del" key value tok q) w).2).

Lemma R_rule_show rest w : (forall w1, k_rules (run ("ip" :: "rule" :: rest)%string w1).2 = k_rules w1) ->
  R w (run ("ip" :: "rule" :: rest)%string w).2.
Proof. intros H. apply R_routes. split; [apply H |]. intros t. left. apply l_rule. Qed.

Lemma clean_walks tok t w : l_table tok = Some t -> steps R (cleanAbandonedTable backendLAN tok) w.
Proof.
  intros Ht. unfold cleanAbandonedTable. destruct (String.eqb_spec backendLAN ""); [apply steps_done |].
  assert (Hrest : forall out w1, steps R
    (if negb (String.eqb (gatewayFrom out) backendLAN) then Done true
     else let! r := ask (del_default backendLAN tok) in Done (is_ok r)) w1).
  { intros out w1. destruct (negb _); [apply steps_done |]. unfold ask. cbn [then_].
    apply steps_exec; [apply _ | | apply steps_done]. apply R_routes. pose proof (l_del_default backendLAN tok t w1 Ht) as L.
    pose proof (k_route "del" ["default"; "via"; backendLAN; "table"; tok]%string w1) as E.
    unfold del_default in *. destruct (run _ w1) as [a w']. split; [done |]. cbn [fst snd] in *. intros t'.
    destruct (is_ok a); [| by left]. destruct L as [_ D]. rewrite D. destruct (t' =? t); [by right | by left]. }
  unfold showRoutes, ask. cbn [then_ app]. apply steps_exec; [apply _ | |].
  - apply R_routes. pose proof (l_show tok t w Ht) as L. pose proof (k_route "show" ["default"; "table"; tok]%string w) as E.
    destruct (run _ w) as [a w']. destruct L as [D _]. split; [done | by left].
  - destruct (run _ w).1 as [out|e]; [apply Hrest |]. destruct (tableDoesNotExist e); [apply Hrest | apply steps_done].
Qed.

(** A rule that may be withdrawn, as it was listed. *)
Definition may_go (s : sourceRule) : Prop :=
  exists t, in_i64 (sr_pref s) /\ l_table (sr_table s) = Some t /\ (own = true \/ t = tbl \/ sr_pref s = want) /\ allowed (sr_pref s) t.

Lemma withdraw_walks mine s w : own_tokens mine -> may_go s -> steps R (withdraw mine key value backendLAN s) w.
Proof.
  intros Hm (t & Hq & Ht & Ho & Ha). unfold withdraw. case_bool_decide as Hin.
  - unfold ignore. apply steps_exec; [apply _ | | apply steps_done]. apply (R_del _ _ t); [done.. |].
    left. specialize (Hm _ Hin). congruence.
  - apply steps_then; [apply _.. | by eapply clean_walks |].
    pose proof (clean_ok (sr_table s) t w Ht) as Hc. destruct (execute run _ w) as [[|] w1]; [| apply steps_done].
    unfold ignore. apply steps_exec; [apply _ | | apply steps_done]. apply (R_del _ _ t); [done.. |]. right. by apply Hc.
Qed.

Lemma withdraws_walk mine l w : own_tokens mine -> Forall may_go l -> steps R (withdraw_all mine key value backendLAN l) w.
Proof.
  intros Hm Hl. revert w. induction Hl as [|s l Hs _ IH]; intros w; [apply steps_done |].
  cbn [withdraw_all]. apply steps_then; [apply _.. | by apply withdraw_walks | apply IH].
Qed.
End walk.

(** ** What the listings say *)

(** [mine] holds this table's names: each one is it, and if some rule of the
    listing looks it up, what the listing prints is there. *)
Lemma own_listing_tokens w : own_tokens
  (Itoa tbl :: tableTokens (listing k_alias (filter (fun r => in_table tbl r = true) (k_rules w)))).
Proof.
  intros tok Hin. apply elem_of_cons in Hin as [->|Hin]; [by apply l_table_number |].
  apply (tableTokens_listing k_alias k_alias_ok) in Hin.
  - destruct Hin as (r & t & Hr & Ha & ->). apply list_elem_of_filter in Hr as [Hr _]. unfold in_table in Hr.
    rewrite Ha in Hr. apply bool_decide_eq_true in Hr. injection Hr as ->. by apply l_table_alias.
  - pose proof (k_rules_ok w) as Hok. rewrite Forall_forall in Hok. apply Forall_forall. intros r Hr.
    apply list_elem_of_filter in Hr as [_ Hr]. by apply Hok.
Qed.

Lemma own_number : own_tokens [Itoa tbl].
Proof. intros tok Hin. apply list_elem_of_singleton in Hin as ->. by apply l_table_number. Qed.

Lemma found_rule w s : s ∈ selectorRules (listing k_alias (k_rules w)) key value ->
  exists r t, r ∈ k_rules w /\ selected key value r = true /\ kr_act r = Lookup t /\ 0 <= t <= MaxInt64
    /\ s = mkSource (kr_pref r) (k_alias t).
Proof.
  rewrite (selectorRules_listing k_alias k_alias_ok) by (done || apply k_rules_ok).
  intros Hs. apply list_elem_of_omap in Hs as (r & Hr & E). unfold selector_view in E.
  destruct (kr_act r) as [t|] eqn:Ea; [| done]. destruct (selected key value r) eqn:Es; [| done]. injection E as <-.
  exists r, t. split_and!; try done; pose proof (k_rules_ok w) as H; rewrite Forall_forall in H; specialize (H r Hr);
    destruct H as (_ & H & _); rewrite Ea in H; apply H.
Qed.

Lemma found_intro w r t : r ∈ k_rules w -> selected key value r = true -> kr_act r = Lookup t ->
  mkSource (kr_pref r) (k_alias t) ∈ selectorRules (listing k_alias (k_rules w)) key value.
Proof.
  intros Hr Hs Ha. rewrite (selectorRules_listing k_alias k_alias_ok) by (done || apply k_rules_ok).
  apply list_elem_of_omap. exists r. split; [done |]. unfold selector_view. by rewrite Ha, Hs.
Qed.

Lemma may_go_found (allowed : Z -> Z -> Prop) mine w s : own_tokens mine ->
  s ∈ selectorRules (listing k_alias (k_rules w)) key value -> provably_ours mine want own s = true ->
  (forall r t, r ∈ k_rules w -> kr_act r = Lookup t -> s = mkSource (kr_pref r) (k_alias t) -> allowed (kr_pref r) t) ->
  may_go allowed s.
Proof.
  intros Hm Hs Ho Ha. destruct (found_rule w s Hs) as (r & t & Hr & _ & Et & Ht & ->).
  exists t. cbn [sr_table sr_pref] in *. split.
  { pose proof (k_rules_ok w) as Hok. rewrite Forall_forall in Hok. by destruct (Hok r Hr). }
  split; [by apply l_table_alias |]. split; [| by eapply Ha].
  unfold provably_ours in Ho. cbn [sr_table sr_pref] in Ho. apply orb_true_iff in Ho as [Ho|Ho].
  - apply orb_true_iff in Ho as [Ho|Ho]; [by left | right; left]. apply bool_decide_eq_true in Ho.
    specialize (Hm _ Ho). rewrite (l_table_alias t Ht) in Hm. congruence.
  - right. right. lia.
Qed.

Definition own_names (w : W) : list string :=
  Itoa tbl :: tableTokens (listing k_alias (filter (fun r => in_table tbl r = true) (k_rules w))).

Lemma own_name w r : r ∈ k_rules w -> kr_act r = Lookup tbl -> k_alias tbl ∈ own_names w.
Proof.
  intros Hr Ha. right. apply (tableTokens_listing k_alias k_alias_ok).
  - pose proof (k_rules_ok w) as Hok. rewrite Forall_forall in Hok. apply Forall_forall. intros r' Hr'.
    apply list_elem_of_filter in Hr' as [_ Hr']. by apply Hok.
  - exists r, tbl. split_and!; try done. apply list_elem_of_filter. split; [| done]. unfold in_table.
    rewrite Ha. by apply bool_decide_eq_true.
Qed.

(** Not the rule in its place. *)
Definition elsewhere (q t : Z) : Prop := ~ (q = want /\ t = tbl).

Lemma strays_go w : Forall (may_go elsewhere)
  (filter (fun s => negb (in_place (own_names w) want s) && provably_ours (own_names w) want own s = true)
     (selectorRules (listing k_alias (k_rules w)) key value)).
Proof.
  apply Forall_forall. intros s Hs. apply list_elem_of_filter in Hs as [Hb Hs].
  apply andb_true_iff in Hb as [Hp Ho]. eapply may_go_found; [apply own_listing_tokens | done.. |].
  intros r t Hr Ha -> [Hq ->]. rewrite negb_true_iff in Hp. unfold in_place in Hp. cbn [sr_pref sr_table] in Hp.
  rewrite bool_decide_eq_true_2 in Hp by (by eapply own_name). lia.
Qed.

Lemma found_go mine w : own_tokens mine -> Forall (may_go (fun _ _ => True))
  (filter (fun s => provably_ours mine want own s = true) (selectorRules (listing k_alias (k_rules w)) key value)).
Proof.
  intros Hm. apply Forall_forall. intros s Hs. apply list_elem_of_filter in Hs as [Ho Hs]. by eapply may_go_found.
Qed.

(** The rule in its place, as listed and as installed. *)
Definition placed (w : W) : Prop :=
  exists r, r ∈ k_rules w /\ selected key value r = true /\ kr_act r = Lookup tbl /\ kr_pref r = want.

Lemma placed_listed w : existsb (in_place (own_names w) want) (selectorRules (listing k_alias (k_rules w)) key value) = true ->
  placed w.
Proof.
  intros H. apply existsb_exists in H as (s & Hs & Hp). apply list_elem_of_In in Hs.
  destruct (found_rule w s Hs) as (r & t & Hr & Hsel & Ha & Ht & ->). unfold in_place in Hp. cbn [sr_pref sr_table] in Hp.
  apply andb_true_iff in Hp as [Hq Hin]. apply bool_decide_eq_true, own_listing_tokens in Hin.
  rewrite (l_table_alias t Ht) in Hin. injection Hin as ->. exists r. split_and!; try done. lia.
Qed.

(** ** The two programs *)

(** [ensurePinnedRule] once the listings are in hand. *)
Definition pin_body (mine all : string) : cmds (option rule_err) :=
  let names := Itoa tbl :: tableTokens mine in
  let found := selectorRules all key value in
  let strays := filter (fun s => negb (in_place names want s) && provably_ours names want own s = true) found in
  if existsb (in_place names want) found
  then let! _ := withdraw_all names key value backendLAN strays in Done None
  else
    let! r := ask (selector_rule "add" key value (Itoa tbl) want) in
    match r with
    | Err e => Done (Some (ErrRun e))
    | Ok _ => let! _ := withdraw_all names key value backendLAN strays in Done None
    end.

(** The listings leave the kernel as it is, and what was read is what is there. *)
Lemma show_kept w : routes_kept w (run ["ip"; "rule"; "show"]%string w).2
  /\ forall out, (run ["ip"; "rule"; "show"]%string w).1 = Ok out -> out = listing k_alias (k_rules w).
Proof.
  pose proof (k_show w) as L. pose proof (l_rule ["show"]%string w) as D. destruct (run _ w) as [a w']. destruct L as [E L].
  split; [| done]. split; [done |]. intros t. left. apply D.
Qed.

Lemma show_table_kept w : routes_kept w (run ["ip"; "rule"; "show"; "table"; Itoa tbl]%string w).2
  /\ forall out, (run ["ip"; "rule"; "show"; "table"; Itoa tbl]%string w).1 = Ok out ->
       out = listing k_alias (filter (fun r => in_table tbl r = true) (k_rules w)).
Proof.
  pose proof (k_show_table tbl w Htbl) as L. pose proof (l_rule ["show"; "table"; Itoa tbl]%string w) as D.
  destruct (run _ w) as [a w']. destruct L as [E L]. split; [| done]. split; [done |]. intros t. left. apply D.
Qed.

(** Either a listing failed, and that is all that happened, or the body ran on
    what the kernel holds. *)
Lemma pinned_cases (P : option rule_err -> list W -> W -> Prop) w :
  (forall e w1, routes_kept w w1 -> P (Some e) [w1] w1) ->
  (forall e w1 w2, routes_kept w w1 -> routes_kept w w2 -> P (Some e) [w1; w2] w2) ->
  (forall mine all w1 w2, routes_kept w w1 -> routes_kept w w2 -> k_rules w2 = k_rules w ->
     Itoa tbl :: tableTokens mine = own_names w2 -> all = listing k_alias (k_rules w2) ->
     P (execute run (pin_body mine all) w2).1 (w1 :: w2 :: worlds run (pin_body mine all) w2) (execute run (pin_body mine all) w2).2) ->
  let c := ensurePinnedRule tbl key value want own backendLAN in
  P (execute run c w).1 (worlds run c w) (execute run c w).2.
Proof.
  intros P1 P2 P3. cbv zeta. unfold ensurePinnedRule, listRulesInTable, listRules, ask. cbn [then_].
  rewrite execute_exec, worlds_exec. destruct (show_table_kept w) as [K1 T]. set (w1 := (run _ w).2) in *.
  destruct (run _ w).1 as [mine|e]; [| by apply P1]. specialize (T mine eq_refl). cbn [then_].
  rewrite execute_exec, worlds_exec. destruct (show_kept w1) as [K2 L]. set (w2 := (run _ w1).2) in *.
  assert (K : routes_kept w w2).
  { destruct K1 as [E1 D1], K2 as [E2 D2]. split; [congruence |]. intros t. specialize (D1 t). specialize (D2 t).
    destruct D1 as [D1|D1], D2 as [D2|D2]; rewrite ?D2, ?D1; tauto. }
  destruct (run _ w1).1 as [all|e]; [| by apply P2]. specialize (L all eq_refl).
  apply (P3 mine all w1 w2 K1 K); [apply K | |].
  - unfold own_names. destruct K as [-> _]. by rewrite T.
  - destruct K2 as [-> _]. exact L.
Qed.

Lemma ensure_walks (R : W -> W -> Prop) `{!Reflexive R, !Transitive R} w :
  (forall w w', routes_kept w w' -> R w w') ->
  (forall w, R w (run (selector_rule "add" key value (Itoa tbl) want) w).2) ->
  (forall q tok t w, in_i64 q -> l_table tok = Some t -> own = true \/ t = tbl \/ q = want -> elsewhere q t ->
    t = tbl \/ l_default w t <> Some backendLAN -> R w (run (selector_rule "del" key value tok q) w).2) ->
  steps R (ensurePinnedRule tbl key value want own backendLAN) w.
Proof.
  intros R_routes R_add R_del.
  apply (pinned_cases (fun _ ws _ => Forall (R w) ws) w).
  - repeat constructor. by apply R_routes.
  - repeat constructor; by apply R_routes.
  - intros mine all w1 w2 K1 K2 E Em ->. constructor; [by apply R_routes |]. constructor; [by apply R_routes |].
    eapply steps_from; [apply _ | by apply R_routes |]. unfold pin_body. rewrite Em. cbv zeta.
    destruct (existsb _ _).
    + apply steps_then; [apply _.. | | apply steps_done].
      apply (withdraws_walk R elsewhere R_routes R_del); [apply own_listing_tokens | apply strays_go].
    + unfold ask. cbn [then_]. apply steps_exec; [apply _ | apply R_add |].
      destruct (run _ w2).1 as [o|e]; [| apply steps_done].
      apply steps_then; [apply _.. | | apply steps_done].
      apply (withdraws_walk R elsewhere R_routes R_del); [apply own_listing_tokens | apply strays_go].
Qed.

Lemma remove_walks (R : W -> W -> Prop) `{!Reflexive R, !Transitive R} w :
  (forall w w', routes_kept w w' -> R w w') ->
  (forall q tok t w, in_i64 q -> l_table tok = Some t -> own = true \/ t = tbl \/ q = want -> True ->
    t = tbl \/ l_default w t <> Some backendLAN -> R w (run (selector_rule "del" key value tok q) w).2) ->
  (forall w, R w (run ["ip"; "rule"; "del"; key; value; "lookup"; Itoa tbl]%string w).2) ->
  steps R (removePinnedRule tbl key value want own backendLAN) w.
Proof.
  intros R_routes R_del R_any. unfold removePinnedRule, listRulesInTable, listRules, ask. cbn [then_].
  destruct (show_table_kept w) as [K1 T]. apply steps_exec; [apply _ | by apply R_routes |].
  set (w1 := (run _ w).2) in *. set (names := Itoa tbl :: match _ with Ok mine => tableTokens mine | Err _ => [] end). assert (Hn : own_tokens names).
  { subst names. destruct (run _ w).1 as [mine|e]; [| apply own_number]. rewrite (T mine eq_refl). apply own_listing_tokens. }
  cbn [then_]. destruct (show_kept w1) as [K2 L]. apply steps_exec; [apply _ | by apply R_routes |].
  set (w2 := (run _ w1).2) in *. set (found := match (run _ w1).1 with Ok all => _ | Err _ => _ end).
  assert (Hf : Forall (may_go (fun _ _ => True)) found).
  { subst found. destruct (run _ w1).1 as [all|e]; [| constructor]. rewrite (L all eq_refl). by apply found_go. }
  apply steps_then; [apply _.. | by apply (withdraws_walk R (fun _ _ => True) R_routes R_del) |].
  destruct found; [| apply steps_done]. unfold ignore. apply steps_exec; [apply _ | apply R_any | apply steps_done].
Qed.

Lemma orphan_routes t w w' : routes_kept w w' -> no_orphan t w w'.
Proof. intros [E D]. by apply orphan_same. Qed.

Lemma add_facts w : let w' := (run (selector_rule "add" key value (Itoa tbl) want) w).2 in
  (forall t, l_default w' t = l_default w t)
  /\ (k_rules w' = k_rules w \/ k_rules w' ≡ₚ the_rule tbl want :: k_rules w).
Proof.
  pose proof (l_rule ["add"; key; value; "lookup"; Itoa tbl; "pref"; Itoa want]%string w) as D.
  pose proof (k_add (the_rule tbl want) w the_rule_ok) as L. rewrite <- the_rule_argv in L.
  unfold selector_rule in *. destruct (run _ w) as [a w']. cbn [fst snd] in *. split; [exact D |].
  destruct (is_ok a); [by right | by left].
Qed.

Lemma del_any_facts w : let w' := (run ["ip"; "rule"; "del"; key; value; "lookup"; Itoa tbl]%string w).2 in
  (forall t, l_default w' t = l_default w t)
  /\ (k_rules w' = k_rules w \/ exists r, selected key value r = true /\ kr_act r = Lookup tbl /\ k_rules w ≡ₚ r :: k_rules w').
Proof.
  pose proof (l_rule ["del"; key; value; "lookup"; Itoa tbl]%string w) as D.
  pose proof (l_del_any key value (Itoa tbl) tbl w Hkey (l_table_number tbl Htbl)) as L.
  destruct (run _ w) as [a w']. cbn [fst snd] in *. split; [exact D |]. destruct (is_ok a); [by right | by left].
Qed.

Lemma del_facts q tok t w : in_i64 q -> l_table tok = Some t -> let w' := (run (selector_rule "del" key value tok q) w).2 in
  (forall t, l_default w' t = l_default w t)
  /\ (k_rules w' = k_rules w
      \/ exists r, selected key value r = true /\ kr_act r = Lookup t /\ kr_pref r = q /\ k_rules w ≡ₚ r :: k_rules w').
Proof.
  intros Hq Ht. pose proof (l_rule ["del"; key; value; "lookup"; tok; "pref"; Itoa q]%string w) as D.
  pose proof (l_del key value tok q t w Hkey Hq Ht) as L. unfold selector_rule in *.
  destruct (run _ w) as [a w']. cbn [fst snd] in *. split; [exact D |]. destruct (is_ok a); [by right | by left].
Qed.

Lemma orphan_add t w : no_orphan t w (run (selector_rule "add" key value (Itoa tbl) want) w).2.
Proof.
  destruct (add_facts w) as [D [E|E]]; [by apply orphan_same; [| left] |]. split; [by left |].
  intros (r & Hr & Hs) _. exists r. split; [| done]. rewrite E. by right.
Qed.

Lemma orphan_del_any t w : t <> tbl -> no_orphan t w (run ["ip"; "rule"; "del"; key; value; "lookup"; Itoa tbl]%string w).2.
Proof.
  intros Hne. destruct (del_any_facts w) as [D [E|(r & _ & Ha & E)]]; [by apply orphan_same; [| left] |].
  split; [by left |]. intros Hm _. eapply marked_cons; [exact E | congruence | done].
Qed.
End kernel.
