(* ===== verification/Routing.v ===== *)
(** * The probes' policy routing, as promised

    The theorems about [EnsureProbeRoutes], [EnsureProbeRoute] and
    [RemoveProbeRoutes] on any kernel that behaves as [Kernel] says, and a
    kernel on which they are run. *)

From S2P Require Import Prelude Model Bytes Decimal Text Net Ports Nft Rules Validate ProbeRules.

(** What the settings gate leaves of the paths that matters here. *)
Record paths_fit (ps : list PathConfig) : Prop := {
  ft_each : Forall path_fit ps;
  ft_marks : NoDup (path_mark <$> ps) }.

(** The rules this program calls its own: lookups of a configured path's mark
    into that path's table, and every refusal in the band. *)
Definition ours (ps : list PathConfig) (r : krule) : bool :=
  existsb (fun p => match lookup_view p r with Some _ => true | None => false end) ps
  || match deny_view r with Some _ => true | None => false end.

(** Every configuration the gate accepts has such paths. *)
Lemma config_paths {U : Unicode} LoadLocation (c : Config) : @config_ok U LoadLocation c ->
  Forall (fun p => in_i64 (path_Mark p)) (cfg_Paths c) -> paths_fit (cfg_Paths c).
Proof.
  intros Hc Hi. destruct (@co_paths U LoadLocation c Hc) as (_ & Hp & _ & _ & _ & Hm). split.
  - eapply Forall_impl; [exact Hp |]. intros p [Hid _ [Ht _] _ _]. split; [done | go_lia].
  - clear Hp Hc. induction (cfg_Paths c) as [|p ps IH]; [constructor |].
    apply Forall_cons in Hi as [Hip Hi]. cbn [fmap list_fmap] in *. apply NoDup_cons in Hm as [Hn Hm].
    apply NoDup_cons. split; [| by apply IH]. intros Hin. apply list_elem_of_fmap in Hin as (q & E & Hq).
    apply Hn, list_elem_of_fmap. exists q. split; [| done]. rewrite Forall_forall in Hi.
    by apply hex_text_inj; [| apply Hi |].
Qed.

Lemma ours_spec ps r : ours ps r = true <-> (exists p, p ∈ ps /\ lookup_view p r <> None) \/ deny_view r <> None.
Proof.
  unfold ours. rewrite orb_true_iff, existsb_exists. split; (intros [H|H]; [left | right]).
  - destruct H as (p & Hp & H). exists p. split; [by apply list_elem_of_In |]. by destruct (lookup_view p r).
  - by destruct (deny_view r).
  - destruct H as (p & Hp & H). exists p. split; [by apply list_elem_of_In |]. by destruct (lookup_view p r).
  - by destruct (deny_view r).
Qed.

Section kernel.
Context {W : Type} (run : runner W) `{HK : !Kernel run}.

Definition others (ps : list PathConfig) (w : W) : list krule := filter (fun r => ours ps r = false) (k_rules w).

Let other_view (ps : list PathConfig) (r : krule) : option krule := if ours ps r then None else Some r.

Lemma others_seen ps w : others ps w = seen (other_view ps) w.
Proof.
  unfold others, seen. induction (k_rules w) as [|r rs IH]; [done |]. cbn [omap list_omap]. unfold other_view at 1.
  destruct (ours ps r) eqn:E; [rewrite filter_cons_False by congruence; exact IH |].
  rewrite filter_cons_True by done. by f_equal.
Qed.

Lemma our_rule_ours ps r : our_rule ps r -> ours ps r = true.
Proof.
  rewrite ours_spec. intros [(p & Hp & [H|H])|H]; [left; by exists p | right | by right].
  unfold refusal_view in H. by destruct (deny_view r).
Qed.

Lemma others_kept {A} ps O (c : cmds A) w : emits (touches O) c -> (forall r, O r -> ours ps r = true) ->
  Forall (fun w' => others ps w' ≡ₚ others ps w) (worlds run c w).
Proof.
  intros Hc Ho. eapply Forall_impl; [eapply (emits_worlds run O c Hc w _ (other_view ps)) |].
  - intros r H. unfold other_view. by rewrite (Ho r H).
  - intros w' E. by rewrite !others_seen.
Qed.

(** A listing, and the world after it. *)
Lemma listing_step w : let '(a, w') := run ["ip"; "rule"; "show"]%string w in
  k_rules w' = k_rules w /\ forall all, a = Ok all -> lists run all w'.
Proof.
  pose proof (listRules_honest run w) as L. destruct (run _ w) as [a w']. destruct L as [E L]. split; [done |].
  intros all Ha. destruct (L all Ha) as [D H]. unfold lists, honest, seen. rewrite E. split; [exact D |].
  intros p. by rewrite H.
Qed.

(** *** Removal *)

Lemma remove_path_touches p existing dst : path_fit p ->
  emits (touches (fun r => lookup_view p r <> None))
    (let! _ := sweep (fun pref => mark_rule "del" (path_mark p) (Itoa (path_Table p)) pref)
                 (markRulePrefs existing (path_mark p) "") in ignore (del_route dst (path_Table p))).
Proof.
  intros Hp. apply emits_then; [| intros _; cbn; split; [apply t_route | done]].
  apply emits_sweep. intros q Hq. pose proof (markRulePrefs_i64 existing (path_mark p) "") as Hi. rewrite Forall_forall in Hi.
  apply (t_del _ (lookup_rule p q)); [by apply lookup_good, Hi |]. intros r' H. apply lookup_fit in H. by rewrite H.
Qed.

Lemma remove_paths_touch ps dst : Forall path_fit ps ->
  emits (touches (fun r => exists p, p ∈ ps /\ lookup_view p r <> None)) (remove_probe_rules ps dst).
Proof.
  induction 1 as [|p ps Hp Hps IH]; [done |]. cbn [remove_probe_rules]. unfold listRulesInTable, ask. cbn [then_].
  split; [apply t_show_table, Hp |]. intros a. apply emits_then.
  - apply emits_sweep. intros q Hq. pose proof (markRulePrefs_i64 (or_empty a) (path_mark p) "") as Hi. rewrite Forall_forall in Hi.
    apply (t_del _ (lookup_rule p q)); [by apply lookup_good, Hi |]. intros r' H. exists p. split; [by left |].
    apply lookup_fit in H. by rewrite H.
  - intros _. cbn. split; [apply t_route |]. intros _. eapply emits_mono; [| exact IH]. intros argv. apply touches_mono.
    intros r (q & Hq & H). exists q. split; [by right | done].
Qed.

Definition remove_body (ps : list PathConfig) (dst prefix all : string) : cmds unit :=
  let! _ := remove_probe_rules ps dst in
  let! _ := sweep_denies (denyRulesInBand all) in
  ignore ["ip"; "route"; "del"; prefix]%string.

Lemma remove_body_touches ps dst prefix all : Forall path_fit ps -> Forall good_deny (denyRulesInBand all) ->
  emits (touches (fun r => ours ps r = true)) (remove_body ps dst prefix all).
Proof.
  intros Hps Hg. unfold remove_body. apply emits_then.
  - eapply emits_mono; [| by apply remove_paths_touch]. intros argv. apply touches_mono. intros r H. apply ours_spec. by left.
  - intros _. apply emits_then; [| intros _; cbn; split; [apply t_route | done]].
    eapply emits_mono; [| by apply sweep_denies_touch]. intros argv. apply touches_mono.
    intros r (d & _ & E). apply ours_spec. right. by rewrite E.
Qed.

Lemma listed_denies_good all w : lists run all w -> Forall good_deny (denyRulesInBand all).
Proof. intros [E _]. rewrite E. apply listed_good. Qed.

Lemma del_route_same p dst w : k_rules (run (del_route dst (path_Table p)) w).2 = k_rules w.
Proof.
  pose proof (k_route "del" [dst; "table"; Itoa (path_Table p)]%string w) as L. unfold del_route.
  by destruct (run _ w).
Qed.

Lemma remove_path_clears `{!Reliable run} p w w0 existing : path_fit p -> seen (lookup_view p) w0 = seen (lookup_view p) w ->
  markRulePrefs existing (path_mark p) "" = seen (lookup_view p) w ->
  seen (lookup_view p) (execute run (sweep (fun pref => mark_rule "del" (path_mark p) (Itoa (path_Table p)) pref)
    (markRulePrefs existing (path_mark p) "")) w0).2 = [].
Proof.
  intros Hp E Hl. apply Permutation_nil_r.
  refine (sweep_clears run (lookup_view p) (lookup_rule p) in_i64 (lookup_good p Hp) (fun k r' _ => lookup_fit p k r') _ _ w0 _ _).
  - apply markRulePrefs_i64.
  - by rewrite app_nil_r, Hl, E.
Qed.

(** Programs that only take rules out. *)
Inductive removes : list string -> Prop :=
| m_show_table t : 0 <= t <= MaxInt64 -> removes ["ip"; "rule"; "show"; "table"; Itoa t]%string
| m_route dst rest : removes ("ip" :: "route" :: dst :: rest)%string
| m_del r : rule_ok r -> removes (rule_argv "del" r).

Lemma removes_empty {A K} (v : krule -> option K) (c : cmds A) w : emits removes c -> seen v w = [] ->
  seen v (execute run c w).2 = [].
Proof.
  intros Hc. revert w. induction c as [a|argv f IH]; intros w E; [done |]. destruct Hc as [Hm Hf]. rewrite execute_exec.
  apply IH; [apply Hf |]. unfold seen in *. destruct Hm as [t Hr|dst rest|r Hr].
  - pose proof (k_show_table t w Hr) as L. destruct (run _ w) as [a w']. destruct L as [L _]. cbn. by rewrite L.
  - pose proof (k_route dst rest w) as L. destruct (run _ w) as [a w']. cbn. by rewrite L.
  - pose proof (k_del r w Hr) as L. destruct (run _ w) as [a w']. cbn. destruct (is_ok a); [| by rewrite L].
    destruct L as (r' & _ & L). pose proof (omap_Permutation v _ _ L) as P. rewrite E in P.
    apply Permutation_nil in P. cbn in P. by destruct (v r').
Qed.

Lemma remove_paths_removes ps dst : Forall path_fit ps -> emits removes (remove_probe_rules ps dst).
Proof.
  induction 1 as [|p ps Hp Hps IH]; [done |]. cbn [remove_probe_rules]. unfold listRulesInTable, ask. cbn [then_].
  split; [apply m_show_table, Hp |]. intros a. apply emits_then.
  - apply emits_sweep. intros q Hq. pose proof (markRulePrefs_i64 (or_empty a) (path_mark p) "") as Hi. rewrite Forall_forall in Hi.
    apply (m_del (lookup_rule p q)). by apply lookup_good, Hi.
  - intros _. cbn. split; [apply m_route | done].
Qed.

Lemma sweep_denies_removes ds : Forall good_deny ds -> emits removes (sweep_denies ds).
Proof.
  intros Hg. apply emits_sweep. intros d Hd. rewrite Forall_forall in Hg. apply (m_del (refused d)). by apply refused_ok, Hg.
Qed.

Lemma lookups_removed `{!Reliable run} ps dst w p : Forall path_fit ps -> p ∈ ps ->
  seen (lookup_view p) (execute run (remove_probe_rules ps dst) w).2 = [].
Proof.
  intros Hps. revert w. induction Hps as [|q ps Hq Hps IH]; intros w Hp; [by apply elem_of_nil in Hp |].
  cbn [remove_probe_rules]. unfold listRulesInTable, ask. cbn [then_]. rewrite execute_exec.
  pose proof (table_honest run q w Hq) as T. pose proof (r_show_table (path_Table q) w (pf_table q Hq)) as Hok.
  destruct (run _ w) as [a w0]. destruct T as [E T]. cbn [fst snd] in *. destruct a as [out|e]; [| done].
  specialize (T out eq_refl). rewrite execute_then. cbn [or_empty ignore then_]. rewrite execute_exec.
  set (w1 := (execute run _ w0).2). apply elem_of_cons in Hp as [->|Hp]; [| by apply IH].
  apply removes_empty; [by apply remove_paths_removes |]. unfold seen. rewrite del_route_same.
  apply (remove_path_clears q w w0 out Hq); [unfold seen; by rewrite E | done].
Qed.

Lemma sweep_all_clears `{!Reliable run} all w : lists run all w ->
  seen deny_view (execute run (sweep_denies (denyRulesInBand all)) w).2 = [].
Proof.
  intros Hl. apply Permutation_nil_r.
  refine (sweep_clears run deny_view refused good_deny _ _ _ _ w _ _).
  - apply refused_ok.
  - apply refused_fit.
  - by apply listed_denies_good with w.
  - by rewrite app_nil_r, (proj1 Hl).
Qed.

Lemma batch_pins `{!Reliable run} exists_ ps dst src w : paths_fit ps -> Forall carried ps ->
  (forall e, (execute run (EnsureProbeRoutes exists_ ps dst src) w).1 = Some e -> exists problems, e = ErrProblems problems)
  /\ (forall p, p ∈ ps -> pinned run p (execute run (EnsureProbeRoutes exists_ ps dst src) w).2)
  /\ seen (stray_view ps) (execute run (EnsureProbeRoutes exists_ ps dst src) w).2 = [].
Proof.
  intros [Hps Hnd] Hc. rewrite EnsureProbeRoutes_body, execute_exec.
  pose proof (listing_step w) as L. pose proof (r_show w) as Hok. destruct (run _ w) as [a w0]. destruct L as [E L].
  cbn [fst snd] in *. destruct a as [all|e]; [| done]. apply body_pinned; (done || by apply L).
Qed.

(** *** A second run *)

Lemma paths_quiet exists_ dst src ps all problems w : Forall path_fit ps -> (forall p, p ∈ ps -> pinned run p w) -> lists run all w ->
  Forall quiet (issued run (probe_paths exists_ ps all dst src problems) w)
  /\ k_rules (execute run (probe_paths exists_ ps all dst src problems) w).2 = k_rules w.
Proof.
  intros Hps. revert problems w. induction Hps as [|p ps Hpf Hps IH]; intros problems w Hp Hl; [by split; [constructor |] |].
  cbn [probe_paths]. rewrite issued_then, execute_then.
  destruct (path_quiet run exists_ dst src p all w Hpf) as (Q & K & problem & E); [apply Hp; by left | apply Hl |].
  rewrite E. set (w1 := (execute run _ w).2) in *.
  assert (Hl1 : lists run all w1) by (destruct Hl as [D H]; split; [| intros q; specialize (H q)]; unfold honest, seen in *; by rewrite K).
  destruct (IH (problems ++ option_list problem) w1) as [Q' K']; [| done |].
  - intros q Hq. eapply pinned_same; [| apply Hp; by right]. split; unfold seen; by rewrite K.
  - split; [by apply Forall_app_2 | by rewrite K'].
Qed.
End kernel.

(** ** Observe mode *)

Section observe.
Context {W : Type} (run : runner W) `{HK : !Kernel run}.

Lemma rule_argv_write r w verb : verb = "add"%string \/ verb = "del"%string ->
  DryRunner run (rule_argv verb r) w = (Ok ""%string, w).
Proof. intros H. unfold DryRunner, rule_argv. destruct H as [-> | ->]; reflexivity. Qed.

Lemma observed O argv w : touches O argv -> k_rules (DryRunner run argv w).2 = k_rules w.
Proof.
  intros Ht. destruct Ht as [|t Hr|dst rest|r Hr Ho|r Hr Ho].
  - pose proof (k_show w) as L. change (DryRunner run ["ip"; "rule"; "show"]%string w) with (run ["ip"; "rule"; "show"]%string w).
    destruct (run _ w). apply L.
  - pose proof (k_show_table t w Hr) as L.
    change (DryRunner run ["ip"; "rule"; "show"; "table"; Itoa t]%string w) with (run ["ip"; "rule"; "show"; "table"; Itoa t]%string w).
    destruct (run _ w). apply L.
  - pose proof (k_route dst rest w) as L. unfold DryRunner. destruct (read_only _); [| done]. by destruct (run _ w).
  - rewrite rule_argv_write; [done | by left].
  - rewrite rule_argv_write; [done | by right].
Qed.

Lemma observed_worlds {A} O (c : cmds A) w : emits (touches O) c ->
  Forall (fun w' => k_rules w' = k_rules w) (worlds (DryRunner run) c w).
Proof.
  intros Hc. revert w. induction c as [a|argv f IH]; intros w; [constructor |]. destruct Hc as [Ht Hf]. rewrite worlds_exec.
  pose proof (observed O argv w Ht) as E. constructor; [done |]. rewrite <- E. by apply IH.
Qed.

(** What observe mode sees of the listing is what the kernel lists. *)
Lemma observed_listing w : let '(a, w') := DryRunner run ["ip"; "rule"; "show"]%string w in
  k_rules w' = k_rules w /\ forall all, a = Ok all -> lists run all w'.
Proof. apply (listing_step run w). Qed.
End observe.

(** ** The theorems *)

(** In observe mode the policy database is only read: whatever the paths and
    addresses, and however far the run gets, neither putting the probes' rules
    in nor taking them out changes a rule. *)
Theorem observe_changes_no_rule {W} (run : runner W) `{!Kernel run} exists_ ps dst src probeDst dataPrefix w :
  paths_fit ps ->
  Forall (fun w' => k_rules w' = k_rules w) (worlds (DryRunner run) (EnsureProbeRoutes exists_ ps dst src) w)
  /\ Forall (fun w' => k_rules w' = k_rules w) (worlds (DryRunner run) (RemoveProbeRoutes ps probeDst dataPrefix) w).
Proof.
  intros [Hps _]. pose proof (observed_listing run w) as L. split.
  - rewrite EnsureProbeRoutes_body, worlds_exec. destruct (DryRunner run _ w) as [a w0]. destruct L as [E L]. cbn [fst snd].
    constructor; [done |]. destruct a as [all|e]; [| constructor]. rewrite <- E.
    eapply observed_worlds, body_touches; [done | by apply L].
  - unfold RemoveProbeRoutes, listRules, ask. cbn [then_]. rewrite worlds_exec.
    destruct (DryRunner run _ w) as [a w0]. destruct L as [E L]. cbn [fst snd]. constructor; [done |]. rewrite <- E.
    eapply observed_worlds, remove_body_touches; [done |].
    destruct a as [all|e]; [eapply listed_denies_good; by apply L | constructor].
Qed.

(** The probes' rules are all this program touches: on any kernel, whatever
    fails and wherever a run stops, [EnsureProbeRoutes] and
    [RemoveProbeRoutes] leave every other rule of the host in place, command
    by command. *)
Theorem probe_rules_touch_ours {W} (run : runner W) `{!Kernel run} exists_ ps dst src probeDst dataPrefix w :
  paths_fit ps ->
  Forall (fun w' => others run ps w' ≡ₚ others run ps w) (worlds run (EnsureProbeRoutes exists_ ps dst src) w)
  /\ Forall (fun w' => others run ps w' ≡ₚ others run ps w) (worlds run (RemoveProbeRoutes ps probeDst dataPrefix) w).
Proof.
  intros [Hps _]. pose proof (listing_step run w) as L. split.
  - rewrite EnsureProbeRoutes_body, worlds_exec. destruct (run _ w) as [a w0]. destruct L as [E L]. cbn [fst snd].
    assert (E' : others run ps w0 = others run ps w) by (unfold others; by rewrite E).
    constructor; [by rewrite E' |]. destruct a as [all|e]; [| constructor]. rewrite <- E'.
    eapply others_kept; [eapply body_touches; [done | by apply L] | apply our_rule_ours].
  - unfold RemoveProbeRoutes, listRules, ask. cbn [then_]. rewrite worlds_exec.
    destruct (run _ w) as [a w0]. destruct L as [E L]. cbn [fst snd].
    assert (E' : others run ps w0 = others run ps w) by (unfold others; by rewrite E).
    constructor; [by rewrite E' |]. rewrite <- E'.
    apply (others_kept run ps (fun r => ours ps r = true)); [| done]. apply remove_body_touches; [done |].
    destruct a as [all|e]; [eapply listed_denies_good; by apply L | constructor].
Qed.

(** [C15] Reconciling never opens a gap: after every command of a run, on any
    kernel, a path that had a lookup rule has one and a path that had a
    refusal has one, so no probe falls through to the main table meanwhile. *)
Theorem probe_rules_no_gap {W} (run : runner W) `{!Kernel run} exists_ ps dst src w p :
  paths_fit ps -> p ∈ ps ->
  Forall (no_gap run p w) (worlds run (EnsureProbeRoutes exists_ ps dst src) w).
Proof.
  intros [Hps Hnd] Hp. rewrite EnsureProbeRoutes_body, worlds_exec.
  pose proof (listing_step run w) as L. destruct (run _ w) as [a w0]. destruct L as [E L]. cbn [fst snd].
  assert (G : no_gap run p w w0) by (split; unfold seen; by rewrite E).
  constructor; [done |]. destruct a as [all|e]; [| constructor].
  eapply Forall_impl; [apply body_no_gap; [done | done | by apply L | done] |]. intros w' G'. by eapply no_gap_trans.
Qed.

(** [EnsureProbeRoute] reports success only with the path's two rules at their
    priorities, the refusal a thousand behind the lookup: whatever the kernel
    refused, an answer of nil is a probe that fails closed. *)
Theorem EnsureProbeRoute_installs {W} (run : runner W) `{!Kernel run} p dst src w :
  path_fit p -> (execute run (EnsureProbeRoute p dst src) w).1 = None ->
  installed run p (execute run (EnsureProbeRoute p dst src) w).2
  /\ probeRulePref p + 1000 = probeDenyRulePref p.
Proof.
  intros Hp H. split.
  2:{ destruct (probe_pref p Hp) as [-> _], (deny_pref p Hp) as [-> _].
      change ProbeRulePrefBase with 30000. change ProbeDenyRulePrefBase with 31000. lia. }
  revert H. unfold EnsureProbeRoute, listRules, ask. cbn [then_]. rewrite execute_exec.
  pose proof (listing_step run w) as L. destruct (run _ w) as [a w0]. destruct L as [E L]. cbn [fst snd].
  destruct a as [all|e]; [| done]. destruct (L all eq_refl) as [_ Hh]. rewrite execute_then.
  pose proof (ensure_installs run p all w0 Hp (Hh p)) as I.
  destruct (execute run (ensureProbeRules p all) w0).1; [done |]. specialize (I eq_refl). intros _.
  eapply installed_same; [| exact I].
  by apply (same_path_emits run p _ _ _ (route_touches dst src p)).
Qed.

(** [C4] On a kernel that does what it can be asked to, one run leaves each path's
    lookup and refusal at their priorities and nowhere else, sweeps the band of
    refusals no path has the mark of, and fails only over interfaces and
    routes. *)
Theorem probe_rules_pinned {W} (run : runner W) `{!Kernel run, !Reliable run} (exists_ : string -> bool) ps dst src w :
  paths_fit ps -> Forall carried ps ->
  let out := execute run (EnsureProbeRoutes exists_ ps dst src) w in
  (forall e, out.1 = Some e -> exists problems, e = ErrProblems problems)
  /\ (forall p, p ∈ ps -> pinned run p out.2) /\ seen (stray_view ps) out.2 = [].
Proof.
  intros Hps Hc. by apply batch_pins.
Qed.

(** Reconciling is idempotent: after such a run the next one inserts and
    deletes nothing; it lists, replaces routes, and leaves the rules equal. *)
Theorem probe_rules_idempotent {W} (run : runner W) `{!Kernel run, !Reliable run} (exists_ exists_' : string -> bool) ps dst src w :
  paths_fit ps -> Forall carried ps ->
  let w1 := (execute run (EnsureProbeRoutes exists_ ps dst src) w).2 in
  Forall quiet (issued run (EnsureProbeRoutes exists_' ps dst src) w1)
  /\ k_rules (execute run (EnsureProbeRoutes exists_' ps dst src) w1).2 = k_rules w1.
Proof.
  intros [Hps Hnd] Hc. cbv zeta.
  destruct (batch_pins run exists_ ps dst src w (Build_paths_fit ps Hps Hnd) Hc) as (_ & P & S).
  set (w1 := (execute run _ w).2) in *. clearbody w1.
  rewrite !EnsureProbeRoutes_body. cbn [issued execute]. pose proof (listing_step run w1) as L.
  destruct (run _ w1) as [a w2]. destruct L as [E L]. destruct a as [all|e]; [| split; [repeat constructor | done]].
  specialize (L all eq_refl). unfold ensure_body. rewrite issued_then, execute_then.
  destruct (paths_quiet run exists_' dst src ps all [] w2 Hps) as [Q K]; [| done |].
  { intros p Hp. eapply pinned_same; [| by apply P]. split; unfold seen; by rewrite E. }
  assert (Hst : strangers ps all = []).
  { rewrite (strangers_seen run ps all w2 L). unfold seen in *. by rewrite E. }
  set (c := probe_paths _ _ _ _ _ _) in *.
  destruct (execute run c w2).1; cbn [issued execute]; rewrite ?Hst; cbn; rewrite ?app_nil_r;
    (split; [constructor; [constructor | done] | by rewrite K]).
Qed.

(** Revert leaves nothing: on such a kernel [RemoveProbeRoutes] ends with no
    lookup of a configured path and no refusal in the band. *)
Theorem RemoveProbeRoutes_clears {W} (run : runner W) `{!Kernel run, !Reliable run} ps probeDst dataPrefix w :
  paths_fit ps ->
  let w' := (execute run (RemoveProbeRoutes ps probeDst dataPrefix) w).2 in
  (forall p, p ∈ ps -> seen (lookup_view p) w' = []) /\ seen deny_view w' = [].
Proof.
  intros [Hps _]. cbv zeta. unfold RemoveProbeRoutes, listRules, ask. cbn [then_]. rewrite execute_exec.
  pose proof (listing_step run w) as L. pose proof (r_show w) as Hok. destruct (run _ w) as [a w0]. destruct L as [E L].
  cbn [fst snd] in *. destruct a as [all|e]; [| done]. specialize (L all eq_refl). cbn [or_empty].
  rewrite !execute_then. set (w1 := (execute run (remove_probe_rules _ _) w0).2).
  assert (Hl1 : denyRulesInBand all ≡ₚ seen deny_view w1).
  { rewrite (proj1 L). symmetry.
    apply (emits_final run (fun r => exists p, p ∈ ps /\ lookup_view p r <> None)); [by apply remove_paths_touch |].
    intros r (p & _ & H). destruct (deny_view r) as [d|] eqn:Ed; [| done]. pose proof (lookup_not_refusal p (dr_mark d) r H) as F.
    unfold refusal_view in F. by rewrite Ed, String.eqb_refl in F. }
  split.
  - intros p Hp. apply removes_empty; [repeat constructor |]. apply removes_empty; [by apply sweep_denies_removes, (listed_denies_good run all w0) |].
    by apply lookups_removed.
  - apply removes_empty; [repeat constructor |]. apply Permutation_nil_r.
    refine (sweep_clears run deny_view refused good_deny refused_ok refused_fit _ _ w1 _ _).
    + by apply (listed_denies_good run all w0).
    + by rewrite app_nil_r, Hl1.
Qed.

(** ** A kernel

    The policy database as a list, with the commands decoded as they are
    written; a command it cannot decode fails. *)

Definition take_option (key : string) (l : list string) : option string * list string :=
  match l with
  | k :: v :: rest => if String.eqb k key then (Some v, rest) else (None, l)
  | _ => (None, l)
  end.
Definition decode_rule (l : list string) : option krule :=
  let '(from, l) := take_option "from" l in
  let '(to, l) := take_option "to" l in
  let '(mark, l) := take_option "fwmark" l in
  match l with
  | [a; t; b; p] =>
      if String.eqb a "lookup" && String.eqb b "pref" then
        match Atoi (string_bytes t), Atoi (string_bytes p) with
        | Some t, Some p => Some (mkRule p from to mark (Lookup t))
        | _, _ => None
        end
      else None
  | [a; b; p] =>
      if String.eqb a "unreachable" && String.eqb b "pref"
      then match Atoi (string_bytes p) with Some p => Some (mkRule p from to mark Unreachable) | None => None end
      else None
  | _ => None
  end.

Lemma decode_argv verb r : rule_ok r -> decode_rule (drop 3 (rule_argv verb r)) = Some r.
Proof.
  intros (Hp & Ht & _). destruct r as [p from to mark act]. cbn [kr_pref kr_act] in *.
  destruct (Itoa_bytes p Hp) as (_ & _ & Ep).
  destruct from, to, mark, act as [t|]; cbn; rewrite ?(proj2 (proj2 (Itoa_bytes t ltac:(go_lia)))), Ep; done.
Qed.

Definition name_okb (s : string) : bool :=
  negb (String.eqb s "") && forallb plain_byte (string_bytes s) && bool_decide (s ∉ keywords).
Definition opt_okb (o : option string) : bool := match o with Some s => name_okb s | None => true end.
Definition rule_okb (r : krule) : bool :=
  (MinInt64 <=? kr_pref r) && (kr_pref r <=? MaxInt64)
  && match kr_act r with Lookup t => (0 <=? t) && (t <=? MaxInt64) | Unreachable => true end
  && opt_okb (kr_from r) && opt_okb (kr_to r) && opt_okb (kr_mark r).

Lemma opt_okb_spec o : opt_okb o = true <-> from_option name_ok True o.
Proof.
  destruct o as [s|]; [| done]. cbn. unfold name_okb, name_ok, word. rewrite !andb_true_iff, negb_true_iff, String.eqb_neq.
  rewrite bool_decide_eq_true. tauto.
Qed.

Lemma rule_okb_spec r : rule_okb r = true <-> rule_ok r.
Proof.
  unfold rule_okb, rule_ok, in_i64. rewrite !andb_true_iff, !opt_okb_spec, !Z.leb_le.
  destruct (kr_act r); rewrite ?andb_true_iff, ?Z.leb_le; tauto.
Qed.

Definition table_name (t : Z) : string :=
  if t =? 102 then "backup" else if (0 <=? t) && (t <=? MaxInt64) then Itoa t else "main".

Fixpoint remove_first (p : krule -> bool) (rs : list krule) : option (list krule) :=
  match rs with
  | [] => None
  | r :: rs => if p r then Some rs else cons r <$> remove_first p rs
  end.

Definition sound_rules (w : list krule) : list krule := filter (fun r => rule_okb r = true) w.

Definition table_kernel : runner (list krule) := fun argv w =>
  match argv with
  | prog :: object :: verb :: rest =>
      if negb (String.eqb prog "ip") then (Err "not found"%string, w)
      else if String.eqb object "route" then (Ok ""%string, w)
      else if negb (String.eqb object "rule") then (Err "unknown object"%string, w)
      else if String.eqb verb "show" then
        match rest with
        | [] => (Ok (listing table_name (sound_rules w)), w)
        | [_; t] =>
            match Atoi (string_bytes t) with
            | Some t => (Ok (listing table_name (filter (fun r => in_table t r = true) (sound_rules w))), w)
            | None => (Err "invalid table"%string, w)
            end
        | _ => (Err "bad argument"%string, w)
        end
      else match decode_rule rest with
      | None => (Err "bad rule"%string, w)
      | Some r =>
          if String.eqb verb "add" then
            if bool_decide (r ∈ sound_rules w) then (Err "RTNETLINK answers: File exists"%string, w)
            else (Ok ""%string, r :: w)
          else if negb (String.eqb verb "del") then (Err "unknown command"%string, w)
          else match remove_first (fits r) (sound_rules w) with
               | Some w' => (Ok ""%string, w')
               | None => (Err "RTNETLINK answers: No such file or directory"%string, w)
               end
      end
  | _ => (Err "usage"%string, w)
  end.

Lemma remove_first_some p rs : match remove_first p rs with
  | Some rs' => exists r, p r = true /\ rs ≡ₚ r :: rs' | None => forall r, r ∈ rs -> p r = false end.
Proof.
  induction rs as [|r rs IH]; cbn; [intros r Hr; by apply elem_of_nil in Hr |].
  destruct (p r) eqn:E; [by exists r |]. destruct (remove_first p rs) as [rs'|]; cbn.
  - destruct IH as (r' & Hp & IH). exists r'. split; [done |]. rewrite IH. apply Permutation_swap.
  - intros r' Hr. apply elem_of_cons in Hr as [->|Hr]; [done | by apply IH].
Qed.

Lemma sound_rules_ok w : Forall rule_ok (sound_rules w).
Proof. apply Forall_forall. intros r Hr. apply list_elem_of_filter in Hr as [Hr _]. by apply rule_okb_spec. Qed.

Lemma sound_rules_id w : Forall rule_ok w -> sound_rules w = w.
Proof.
  induction 1 as [|r rs Hr Hrs IH]; [done |]. unfold sound_rules. rewrite filter_cons_True by (by apply rule_okb_spec).
  f_equal. exact IH.
Qed.

Lemma removed_sound p w w' : remove_first p (sound_rules w) = Some w' -> sound_rules w' = w'.
Proof.
  intros E. apply sound_rules_id. pose proof (remove_first_some p (sound_rules w)) as H. rewrite E in H.
  destruct H as (r & _ & H). pose proof (sound_rules_ok w) as F. rewrite H in F. by apply Forall_cons in F as [_ F].
Qed.

Lemma table_name_ok t : name_ok (table_name t).
Proof.
  assert (Hk : forall s, name_okb s = true -> name_ok s) by (intros s; apply (opt_okb_spec (Some s))).
  unfold table_name. destruct (t =? 102); [by apply Hk |]. destruct (_ && _) eqn:E; [| by apply Hk]. bool_to_prop.
  destruct (Itoa_bytes t ltac:(go_lia)) as (Hne & Hb & _). split; [split |].
  - intros Et. by rewrite Et in Hne.
  - apply forallb_forall. intros c Hc. apply list_elem_of_In in Hc. rewrite Forall_forall in Hb. specialize (Hb c Hc).
    unfold plain_byte. lia.
  - intros Hin. unfold keywords in Hin. rewrite !elem_of_cons, elem_of_nil in Hin.
    destruct_or!; try done; (rewrite Hin in Hb; apply Forall_cons in Hb as [[_ Hb] _]; vm_compute in Hb; by apply Hb).
Qed.

Lemma table_kernel_rule verb r w : rule_ok r -> (verb = "add" \/ verb = "del")%string ->
  table_kernel (rule_argv verb r) w =
  if String.eqb verb "add" then
    if bool_decide (r ∈ sound_rules w) then (Err "RTNETLINK answers: File exists"%string, w) else (Ok ""%string, r :: w)
  else match remove_first (fits r) (sound_rules w) with
       | Some w' => (Ok ""%string, w')
       | None => (Err "RTNETLINK answers: No such file or directory"%string, w)
       end.
Proof.
  intros Hr Hv. pose proof (decode_argv verb r Hr) as D.
  unfold rule_argv in *. cbn [app drop] in D. rewrite ?drop_0 in D. unfold table_kernel. cbn [app]. destruct Hv as [-> | ->]; eval_eqb;
    cbn [negb]; rewrite D; reflexivity.
Qed.

#[export] Instance table_kernel_ok : Kernel table_kernel.
Proof.
  refine {| k_rules := sound_rules; k_alias := table_name |}.
  - apply table_name_ok.
  - apply sound_rules_ok.
  - intros w. cbn. split; [done | by intros out [= <-]].
  - intros t w Ht. destruct (Itoa_bytes t ltac:(go_lia)) as (_ & _ & E). unfold table_kernel. eval_eqb. cbn [negb].
    rewrite E. split; [done | by intros out [= <-]].
  - intros r w Hr. rewrite table_kernel_rule by tauto. eval_eqb. destruct (bool_decide _); cbn [is_ok]; [done |].
    unfold sound_rules. rewrite filter_cons_True by (by apply rule_okb_spec). done.
  - intros r w Hr. rewrite table_kernel_rule by tauto. eval_eqb.
    pose proof (remove_first_some (fits r) (sound_rules w)) as H. destruct (remove_first _ _) as [w'|] eqn:E; cbn; [| done].
    by rewrite (removed_sound _ _ _ E).
  - intros dst rest w. done.
Defined.

#[export] Instance table_kernel_reliable : Reliable table_kernel.
Proof.
  split.
  - done.
  - intros t w Ht. destruct (Itoa_bytes t ltac:(go_lia)) as (_ & _ & E). unfold table_kernel. eval_eqb. cbn [negb].
    by rewrite E.
  - intros r w Hr _ Hn. rewrite table_kernel_rule by tauto. eval_eqb. by rewrite bool_decide_eq_false_2.
  - intros r w Hr (r' & Hin & Hf). rewrite table_kernel_rule by tauto. eval_eqb.
    pose proof (remove_first_some (fits r) (sound_rules w)) as H. destruct (remove_first _ _); [done |].
    by rewrite (H r' Hin) in Hf.
Qed.

(** A database with rules of its own, a lookup an older build left at another
    priority, a refusal of a mark no path has, and one of its own outside the
    band. *)
Definition older : list krule :=
  [ mkRule 0 None None None (Lookup 255);
    mkRule 200 None None (Some "0x101") (Lookup 101);
    mkRule 900 None None (Some "0x101") Unreachable;
    mkRule 31002 None None (Some "0x102") Unreachable;
    mkRule 31050 None None (Some "0x777") Unreachable;
    mkRule 32766 None None None (Lookup 254) ]%string.
Definition main_path : PathConfig := mkPathConfig 1 "main" "wg-main" 1 101 257 true false no_quota no_shape.
Definition all_up (_ : string) : bool := true.

Lemma defaults_fit : paths_fit (cfg_Paths Defaults).
Proof.
  split; [| by apply (bool_decide_unpack _)].
  repeat constructor; intros ?; discriminate.
Qed.
Lemma defaults_carried : Forall carried (cfg_Paths Defaults).
Proof. repeat constructor. Qed.

Lemma probe_rules_touch_ours_witness : paths_fit (cfg_Paths Defaults)
  /\ Forall (fun w' => others table_kernel (cfg_Paths Defaults) w' ≡ₚ others table_kernel (cfg_Paths Defaults) older)
       (worlds table_kernel (EnsureProbeRoutes all_up (cfg_Paths Defaults) "10.99.0.2" "10.99.0.1") older)
  /\ length (worlds table_kernel (EnsureProbeRoutes all_up (cfg_Paths Defaults) "10.99.0.2" "10.99.0.1") older) = 14%nat.
Proof.
  split; [apply defaults_fit |]. split; [| vm_compute; reflexivity].
  apply (probe_rules_touch_ours table_kernel all_up _ _ _ "10.99.0.2/32" "10.99.0.2/32"). apply defaults_fit.
Defined.

Lemma probe_rules_no_gap_witness : main_path ∈ cfg_Paths Defaults /\
  Forall (no_gap table_kernel main_path older)
    (worlds table_kernel (EnsureProbeRoutes all_up (cfg_Paths Defaults) "10.99.0.2" "10.99.0.1") older).
Proof.
  assert (Hp : main_path ∈ cfg_Paths Defaults) by (by left). split; [exact Hp |].
  exact (probe_rules_no_gap table_kernel all_up _ _ _ older main_path defaults_fit Hp).
Defined.

Lemma EnsureProbeRoute_installs_witness : installed table_kernel main_path
  (execute table_kernel (EnsureProbeRoute main_path "10.99.0.2" "10.99.0.1") older).2.
Proof.
  apply (EnsureProbeRoute_installs table_kernel main_path "10.99.0.2" "10.99.0.1" older); [| vm_compute; reflexivity].
  pose proof (ft_each _ defaults_fit) as H. by apply Forall_cons in H as [H _].
Defined.

Lemma probe_rules_pinned_witness :
  let out := execute table_kernel (EnsureProbeRoutes all_up (cfg_Paths Defaults) "10.99.0.2" "10.99.0.1") older in
  out.1 = None /\ (forall p, p ∈ cfg_Paths Defaults -> pinned table_kernel p out.2)
  /\ mkRule 900 None None (Some "0x101"%string) Unreachable ∈ out.2.
Proof.
  cbv zeta. split; [vm_compute; reflexivity |]. split; [| vm_compute; set_solver].
  apply (probe_rules_pinned table_kernel all_up _ _ _ older defaults_fit defaults_carried).
Defined.

Lemma probe_rules_idempotent_witness :
  let w1 := (execute table_kernel (EnsureProbeRoutes all_up (cfg_Paths Defaults) "10.99.0.2" "10.99.0.1") older).2 in
  Forall quiet (issued table_kernel (EnsureProbeRoutes all_up (cfg_Paths Defaults) "10.99.0.2" "10.99.0.1") w1)
  /\ length (issued table_kernel (EnsureProbeRoutes all_up (cfg_Paths Defaults) "10.99.0.2" "10.99.0.1") w1) = 7%nat.
Proof.
  cbv zeta. split; [| vm_compute; reflexivity].
  apply (probe_rules_idempotent table_kernel all_up all_up _ _ _ older defaults_fit defaults_carried).
Defined.

Lemma RemoveProbeRoutes_clears_witness :
  seen deny_view (execute table_kernel (RemoveProbeRoutes (cfg_Paths Defaults) "10.99.0.2/32" "10.99.0.2/32") older).2 = [].
Proof. apply (RemoveProbeRoutes_clears table_kernel _ _ _ older defaults_fit). Defined.

Lemma observe_changes_no_rule_witness :
  Forall (fun w' => sound_rules w' = sound_rules older)
    (worlds (DryRunner table_kernel) (RemoveProbeRoutes (cfg_Paths Defaults) "10.99.0.2/32" "10.99.0.2/32") older).
Proof.
  exact (proj2 (observe_changes_no_rule table_kernel all_up _ "10.99.0.2" "10.99.0.1" "10.99.0.2/32" "10.99.0.2/32" older defaults_fit)).
Defined.
