(* ===== verification/LinkerRouting.v ===== *)
(** * The linker's policy routing, as promised

    The theorems about [ensurePinnedRule] and [removePinnedRule] on any kernel
    that behaves as [LinkerKernel] says, and a kernel on which they are run. *)

From S2P Require Import Prelude Model Bytes Decimal Text Net Ports Nft Rules Validate ProbeRules Routing LinkerRules LinkerPolicy.

(** A rule the ownership test can claim: it selects the value, and it looks up
    this table, sits at the pinned priority, or is ours wherever it points. *)
Definition linker_rule (key value : string) (tbl want : Z) (own : bool) (r : krule) : bool :=
  selected key value r
  && match kr_act r with Lookup t => own || (t =? tbl) || (kr_pref r =? want) | Unreachable => false end.

(** What a rule of the linker is asked for: a selector, its value, a table and
    a priority. *)
Record pinned_fit (key value : string) (tbl want : Z) : Prop := {
  pn_key : selector_key key;
  pn_all : value <> "all"%string;
  pn_value : name_ok value;
  pn_tbl : 0 <= tbl <= MaxInt64;
  pn_want : in_i64 want }.

(** Deletions and readings do not fail without a reason. *)
Class LinkerReliable {W} (run : runner W) `{HK : !Kernel run, !LinkerKernel run} := {
  lr_kernel : @Reliable W run HK;
  lr_del key value tok q t w : selector_key key -> in_i64 q -> l_table tok = Some t ->
    (exists r, r ∈ k_rules w /\ selected key value r = true /\ kr_act r = Lookup t /\ kr_pref r = q) ->
    is_ok (run (selector_rule "del" key value tok q) w).1 = true;
  lr_show tok t w : l_table tok = Some t ->
    match (run ["ip"; "route"; "show"; "default"; "table"; tok]%string w).1 with
    | Ok _ => True | Err e => tableDoesNotExist e = true end;
  lr_del_default g tok t w : l_table tok = Some t -> l_default w t = Some g ->
    is_ok (run (del_default g tok) w).1 = true }.

Section laws.
Context {W : Type} (run : runner W) `{HK : !Kernel run, HL : !LinkerKernel run}.
Context (key value : string) (tbl want : Z) (own : bool) (backendLAN : string).
Context (Hfit : pinned_fit key value tbl want).

Let Hkey := pn_key _ _ _ _ Hfit.
Let Hall := pn_all _ _ _ _ Hfit.
Let Hvalue := pn_value _ _ _ _ Hfit.
Let Htbl := pn_tbl _ _ _ _ Hfit.
Let Hwant := pn_want _ _ _ _ Hfit.

Definition foreign (w : W) : list krule :=
  filter (fun r => linker_rule key value tbl want own r = false) (k_rules w).
Definition foreign_same (w w' : W) : Prop := foreign w' ≡ₚ foreign w.

#[local] Instance foreign_refl : Reflexive foreign_same.
Proof. intros w. unfold foreign_same. done. Qed.
#[local] Instance foreign_trans : Transitive foreign_same.
Proof. intros w1 w2 w3 H1 H2. unfold foreign_same in *. by rewrite H2. Qed.

Lemma foreign_cons w w' r : linker_rule key value tbl want own r = true -> k_rules w ≡ₚ r :: k_rules w' ->
  foreign w ≡ₚ foreign w'.
Proof.
  intros Hr E. unfold foreign. rewrite E, filter_cons_False by congruence. done.
Qed.

Lemma foreign_routes w w' : routes_kept run w w' -> foreign_same w w'.
Proof. intros [E _]. unfold foreign_same, foreign. by rewrite E. Qed.

Lemma foreign_add w : foreign_same w (run (selector_rule "add" key value (Itoa tbl) want) w).2.
Proof.
  destruct (add_facts run key value Hkey Hvalue tbl Htbl want Hwant w) as [_ [E|E]].
  - unfold foreign_same, foreign. by rewrite E.
  - eapply foreign_cons; [| exact E]. unfold linker_rule. rewrite the_rule_selected. unfold the_rule.
    destruct (String.eqb key "from"); cbn; rewrite Z.eqb_refl; by rewrite orb_true_r.
Qed.

Lemma linker_rule_intro r t q : selected key value r = true -> kr_act r = Lookup t -> kr_pref r = q ->
  own = true \/ t = tbl \/ q = want -> linker_rule key value tbl want own r = true.
Proof.
  intros Hs Ha Hq Ho. unfold linker_rule. rewrite Hs, Ha, Hq. destruct Ho as [->|[->| ->]]; [done | |];
    rewrite Z.eqb_refl, ?orb_true_r; done.
Qed.

Lemma foreign_del q tok t w : in_i64 q -> l_table tok = Some t -> own = true \/ t = tbl \/ q = want ->
  foreign_same w (run (selector_rule "del" key value tok q) w).2.
Proof.
  intros Hq Ht Ho. destruct (del_facts run key value Hkey q tok t w Hq Ht) as [_ [E|(r & Hs & Ha & Hr & E)]].
  - unfold foreign_same, foreign. by rewrite E.
  - unfold foreign_same. symmetry. eapply foreign_cons; [| exact E]. by eapply linker_rule_intro.
Qed.

Lemma foreign_del_any w : foreign_same w (run ["ip"; "rule"; "del"; key; value; "lookup"; Itoa tbl]%string w).2.
Proof.
  destruct (del_any_facts run key value Hkey tbl Htbl w) as [_ [E|(r & Hs & Ha & E)]].
  - unfold foreign_same, foreign. by rewrite E.
  - unfold foreign_same. symmetry. eapply foreign_cons; [| exact E]. eapply linker_rule_intro; [done.. |]. by right; left.
Qed.

(** *** The rule in its place stays in it *)

Let here := placed run key value tbl want.
Definition stays (w w' : W) : Prop := here w -> here w'.

#[local] Instance stays_refl : Reflexive stays.
Proof. intros w H. exact H. Qed.
#[local] Instance stays_trans : Transitive stays.
Proof. intros w1 w2 w3 H1 H2 H. by apply H2, H1. Qed.

Lemma stays_routes w w' : routes_kept run w w' -> stays w w'.
Proof. intros [E _] (r & Hr & H). exists r. by rewrite E. Qed.

Lemma stays_del q tok t w : in_i64 q -> l_table tok = Some t -> elsewhere tbl want q t ->
  stays w (run (selector_rule "del" key value tok q) w).2.
Proof.
  intros Hq Ht He. destruct (del_facts run key value Hkey q tok t w Hq Ht) as [_ [E|(r & Hs & Ha & Hr & E)]].
  - intros (r & Hin & H). exists r. by rewrite E.
  - intros (r' & Hin & Hs' & Ha' & Hq'). exists r'. rewrite E in Hin. apply elem_of_cons in Hin as [->|Hin]; [| done].
    destruct He. split; congruence.
Qed.

Lemma add_places w : is_ok (run (selector_rule "add" key value (Itoa tbl) want) w).1 = true ->
  here (run (selector_rule "add" key value (Itoa tbl) want) w).2.
Proof.
  intros Ha. pose proof (k_add (the_rule key value tbl want) w (the_rule_ok key value Hvalue tbl Htbl want Hwant)) as L.
  rewrite <- (the_rule_argv key value Hkey) in L. destruct (run _ w) as [a w']. cbn in *. rewrite Ha in L.
  exists (the_rule key value tbl want). split_and!; [rewrite L; by left | apply the_rule_selected | |];
    unfold the_rule; by destruct (String.eqb key "from").
Qed.

Lemma place_marks w : here w -> marked key value tbl w.
Proof. intros (r & Hr & Hs & Ha & _). by exists r. Qed.

(** Withdrawals leave it there. *)
Lemma withdraws_stay w w2 :
  let names := own_names run tbl w in
  let strays := filter (fun s => negb (in_place names want s) && provably_ours names want own s = true)
                  (selectorRules (listing k_alias (k_rules w)) key value) in
  steps run stays (withdraw_all names key value backendLAN strays) w2.
Proof.
  cbv zeta. apply (withdraws_walk run key value tbl want own backendLAN stays (elsewhere tbl want)).
  - apply stays_routes.
  - intros q tok t w' Hq Ht _ He _. by apply (stays_del q tok t).
  - by apply own_listing_tokens.
  - by apply strays_go.
Qed.

(** What the body leaves, and what it passes through. *)
Lemma body_places mine all w : Itoa tbl :: tableTokens mine = own_names run tbl w -> all = listing k_alias (k_rules w) ->
  let c := pin_body key value tbl want own backendLAN mine all in
  ((execute run c w).1 = None -> here (execute run c w).2)
  /\ Forall (fun w' => k_rules w' = k_rules w \/ here w') (worlds run c w).
Proof.
  intros Em ->. unfold pin_body. rewrite Em. cbv zeta. set (strays := filter _ _).
  assert (Hrun : forall w2, here w2 -> let c := (let! _ := withdraw_all (own_names run tbl w) key value backendLAN strays in Done (@None rule_err)) in
    here (execute run c w2).2 /\ Forall (fun w' => k_rules w' = k_rules w \/ here w') (worlds run c w2)).
  { intros w2 H2. cbv zeta. pose proof (withdraws_stay w w2) as S. cbv zeta in S. fold strays in S.
    rewrite execute_then, worlds_then. cbn [execute worlds snd]. rewrite app_nil_r. split.
    - by apply (steps_final run stays).
    - eapply Forall_impl; [exact S |]. intros w' H. right. by apply H. }
  destruct (existsb _ _) eqn:Ex.
  - eapply (placed_listed run key value) in Ex; [| done..]. destruct (Hrun w Ex) as [H1 H2]. by split.
  - unfold ask. cbn [then_]. rewrite execute_exec, worlds_exec.
    pose proof (add_places w) as Hp. destruct (add_facts run key value Hkey Hvalue tbl Htbl want Hwant w) as [_ He].
    pose proof (k_add (the_rule key value tbl want) w (the_rule_ok key value Hvalue tbl Htbl want Hwant)) as L.
    rewrite <- (the_rule_argv key value Hkey) in L.
    destruct (run (selector_rule "add" key value (Itoa tbl) want) w) as [[o|e] w2]; cbn [fst snd is_ok] in *.
    + destruct (Hrun w2 (Hp eq_refl)) as [H1 H2]. split; [done |]. constructor; [right; by apply Hp | done].
    + split; [done |]. constructor; [by left | constructor].
Qed.
(** *** Where commands do not fail *)

Section converges.
Context `{HR : !LinkerReliable run}.

Definition same_rules (w w' : W) : Prop := k_rules w' = k_rules w.
#[local] Instance same_rules_refl : Reflexive same_rules.
Proof. intros w. done. Qed.
#[local] Instance same_rules_trans : Transitive same_rules.
Proof. intros w1 w2 w3 H1 H2. unfold same_rules in *. congruence. Qed.

Lemma clean_succeeds tok t w : l_table tok = Some t ->
  (execute run (cleanAbandonedTable backendLAN tok) w).1 = true
  /\ k_rules (execute run (cleanAbandonedTable backendLAN tok) w).2 = k_rules w.
Proof.
  intros Ht. split.
  2:{ apply (steps_final run same_rules). apply (clean_walks run backendLAN same_rules) with t; [| done]. intros w1 w2 K. apply K. }
  unfold cleanAbandonedTable. destruct (String.eqb_spec backendLAN "") as [Eb|Eb]; [done |].
  unfold showRoutes, ask. cbn [then_ app]. pose proof (l_show tok t w Ht) as L. pose proof (lr_show tok t w Ht) as Lr.
  rewrite execute_exec. destruct (run _ w) as [a w1]. destruct L as [D L]. cbn [fst snd] in *.
  destruct a as [out|e]; [| rewrite Lr]; cbn [then_].
  - destruct L as (dev & Hdev & ->). rewrite gatewayFrom_text by (apply l_default_ok || done).
    destruct (String.eqb_spec (default "" (l_default w t)) backendLAN) as [E|E]; [| done]. cbn [negb then_].
    rewrite execute_exec. cbn [execute fst]. apply (lr_del_default backendLAN tok t w1 Ht).
    rewrite D. destruct (l_default w t); cbn in E; congruence.
  - change (gatewayFrom "") with ""%string. destruct (String.eqb_spec "" backendLAN); [by subst | done].
Qed.

(** The rules that are not in their place, as listed. *)
Definition stray (r : krule) : bool :=
  linker_rule key value tbl want own r && negb ((kr_pref r =? want) && bool_decide (kr_act r = Lookup tbl)).
Definition stray_source (r : krule) : option sourceRule := if stray r then selector_view k_alias key value r else None.

Lemma stray_source_some r s : stray_source r = Some s ->
  exists t, selected key value r = true /\ kr_act r = Lookup t /\ s = mkSource (kr_pref r) (k_alias t) /\ stray r = true.
Proof.
  unfold stray_source. destruct (stray r); [| done]. unfold selector_view. destruct (kr_act r) as [t|]; [| done].
  destruct (selected key value r) eqn:E; [| done]. intros [= <-]. by exists t.
Qed.

Lemma stray_source_same r r' t : selected key value r = true -> kr_act r = Lookup t ->
  selected key value r' = true -> kr_act r' = Lookup t -> kr_pref r' = kr_pref r -> stray_source r' = stray_source r.
Proof.
  intros Hs Ha Hs' Ha' Hq. unfold stray_source, stray, linker_rule, selector_view. by rewrite Hs, Ha, Hs', Ha', Hq.
Qed.

Lemma withdraw_one s w : s ∈ seen stray_source w ->
  forall mine, seen stray_source w ≡ₚ s :: seen stray_source (execute run (withdraw mine key value backendLAN s) w).2.
Proof.
  intros Hs mine. apply list_elem_of_omap in Hs as (r & Hr & E). pose proof E as E'.
  destruct (stray_source_some r s E) as (t & Hsel & Ha & -> & _). clear E. rename E' into E.
  pose proof (k_rules_ok w) as Hok. rewrite Forall_forall in Hok. destruct (Hok r Hr) as (Hq & Ht & _). rewrite Ha in Ht.
  assert (Hdel : forall w1, k_rules w1 = k_rules w ->
    seen stray_source w ≡ₚ mkSource (kr_pref r) (k_alias t) :: seen stray_source (run (selector_rule "del" key value (k_alias t) (kr_pref r)) w1).2).
  { intros w1 E1. pose proof (l_table_alias t Ht) as Htok.
    pose proof (l_del key value (k_alias t) (kr_pref r) t w1 Hkey Hq Htok) as L.
    pose proof (lr_del key value (k_alias t) (kr_pref r) t w1 Hkey Hq Htok) as Hd.
    destruct (run _ w1) as [a w']. cbn [fst snd] in *. rewrite Hd in L by (exists r; by rewrite E1).
    destruct L as (r' & Hs' & Ha' & Hq' & L). unfold seen. rewrite <- E1, L. cbn [omap list_omap].
    rewrite (stray_source_same r r' t) by done. by rewrite E. }
  unfold withdraw. cbn [sr_table sr_pref]. case_bool_decide.
  - unfold ignore. rewrite execute_exec. by apply Hdel.
  - rewrite execute_then. destruct (clean_succeeds (k_alias t) t w (l_table_alias t Ht)) as [-> Ek].
    unfold ignore. rewrite execute_exec. by apply Hdel.
Qed.

Lemma withdraw_every l w mine kept : seen stray_source w ≡ₚ l ++ kept ->
  seen stray_source (execute run (withdraw_all mine key value backendLAN l) w).2 ≡ₚ kept.
Proof.
  revert w. induction l as [|s l IH]; intros w E; [done |]. cbn [withdraw_all]. rewrite execute_then. apply IH.
  assert (Hs : s ∈ seen stray_source w) by (rewrite E; by left).
  rewrite (withdraw_one s w Hs mine) in E. cbn [app] in E. by apply Permutation_cons_inv in E.
Qed.

Lemma strays_listed w : filter (fun s => negb (in_place (own_names run tbl w) want s)
      && provably_ours (own_names run tbl w) want own s = true) (selectorRules (listing k_alias (k_rules w)) key value)
  = seen stray_source w.
Proof.
  rewrite (selectorRules_listing k_alias k_alias_ok) by (done || apply k_rules_ok). unfold seen.
  assert (Hin : forall r t, r ∈ k_rules w -> kr_act r = Lookup t ->
    bool_decide (k_alias t ∈ own_names run tbl w) = (t =? tbl)).
  { intros r t Hr Ha. pose proof (k_rules_ok w) as Hok. rewrite Forall_forall in Hok. destruct (Hok r Hr) as (_ & Ht & _).
    rewrite Ha in Ht. destruct (Z.eqb_spec t tbl) as [->|Hne].
    - apply bool_decide_eq_true. by eapply own_name.
    - apply bool_decide_eq_false. intros H. eapply (own_listing_tokens run) in H; [| done].
      rewrite (l_table_alias t Ht) in H. congruence. }
  revert Hin. generalize (own_names run tbl w). intros names. induction (k_rules w) as [|r rs IH]; intros Hin; [done |].
  cbn [omap list_omap]. unfold stray_source at 1, stray, linker_rule, selector_view at 1.
  assert (IH' := IH ltac:(intros r' t' Hr'; apply Hin; by right)). clear IH.
  pose proof (fun t => Hin r t ltac:(by left)) as Hr. destruct (kr_act r) as [t|] eqn:Ea; [| by rewrite andb_false_r].
  specialize (Hr t eq_refl). destruct (selected key value r) eqn:Es; [| exact IH']. cbn [andb].
  set (s := mkSource (kr_pref r) (k_alias t)).
  assert (Ev : selector_view k_alias key value r = Some s) by (unfold selector_view; by rewrite Ea, Es).
  assert (Hp : provably_ours names want own s = own || (t =? tbl) || (kr_pref r =? want))
    by (unfold provably_ours, s; cbn [sr_table sr_pref]; by rewrite Hr).
  assert (Hq : in_place names want s = (kr_pref r =? want) && bool_decide (Lookup t = Lookup tbl)).
  { unfold in_place, s. cbn [sr_table sr_pref]. rewrite Hr. f_equal. destruct (Z.eqb_spec t tbl) as [->|Hne].
    - symmetry. by apply bool_decide_eq_true.
    - symmetry. apply bool_decide_eq_false. congruence. }
  rewrite filter_cons. rewrite Hp, Hq, andb_comm.
  destruct (decide _) as [Hy|Hn].
  - rewrite Hy, Ev. by f_equal.
  - apply not_true_is_false in Hn. by rewrite Hn.
Qed.

Lemma not_stray r w : seen stray_source w = [] -> r ∈ k_rules w -> linker_rule key value tbl want own r = true ->
  kr_pref r = want /\ kr_act r = Lookup tbl.
Proof.
  intros E Hr Hl. destruct (stray r) eqn:Es.
  - assert (Hs : is_Some (stray_source r)).
    { unfold stray_source. rewrite Es. unfold linker_rule in Hl. unfold selector_view.
      destruct (selected key value r); [| done]. destruct (kr_act r); [by eexists | done]. }
    destruct Hs as [s Hs]. assert (Hin : s ∈ seen stray_source w) by (apply list_elem_of_omap; by exists r).
    rewrite E in Hin. by apply elem_of_nil in Hin.
  - unfold stray in Es. rewrite Hl in Es. cbn [andb] in Es. apply negb_false_iff, andb_true_iff in Es as [Hq Ha].
    apply bool_decide_eq_true in Ha. split; [lia | done].
Qed.

(** The body ends with every rule of the selector in its place. *)
Lemma body_converges mine all w : representable (the_rule key value tbl want) ->
  Itoa tbl :: tableTokens mine = own_names run tbl w -> all = listing k_alias (k_rules w) ->
  let c := pin_body key value tbl want own backendLAN mine all in
  (execute run c w).1 = None /\ seen stray_source (execute run c w).2 = [].
Proof.
  intros Hrep Em ->. pose proof (lr_kernel (LinkerReliable := HR)) as Hrel.
  unfold pin_body. rewrite Em. cbv zeta. rewrite strays_listed.
  assert (Hrun : forall w2, seen stray_source w2 ≡ₚ seen stray_source w ->
    let c := (let! _ := withdraw_all (own_names run tbl w) key value backendLAN (seen stray_source w) in Done (@None rule_err)) in
    (execute run c w2).1 = None /\ seen stray_source (execute run c w2).2 = []).
  { intros w2 E. cbv zeta. rewrite execute_then. split; [done |]. apply Permutation_nil_r. cbn [execute snd].
    apply withdraw_every. by rewrite app_nil_r. }
  destruct (existsb _ _) eqn:Ex; [by apply Hrun |].
  unfold ask. cbn [then_]. rewrite execute_exec.
  pose proof (the_rule_ok key value Hvalue tbl Htbl want Hwant) as Hok.
  pose proof (k_add (the_rule key value tbl want) w Hok) as L. pose proof (r_add (the_rule key value tbl want) w Hok Hrep) as La.
  rewrite <- (the_rule_argv key value Hkey) in L, La.
  assert (Hn : the_rule key value tbl want ∉ k_rules w).
  { intros Hin. apply not_true_iff_false in Ex. apply Ex, existsb_exists. exists (mkSource want (k_alias tbl)).
    assert (Hf : kr_pref (the_rule key value tbl want) = want /\ kr_act (the_rule key value tbl want) = Lookup tbl)
      by (unfold the_rule; by destruct (String.eqb key "from")).
    split.
    - apply list_elem_of_In. rewrite <- (proj1 Hf). eapply found_intro; [done | done | done | apply the_rule_selected | apply Hf].
    - unfold in_place. cbn [sr_pref sr_table]. rewrite Z.eqb_refl. apply bool_decide_eq_true. eapply own_name; [done | apply Hf]. }
  specialize (La Hn). destruct (run _ w) as [[o|e] w2]; cbn [fst snd is_ok] in *; [| done]. apply Hrun.
  unfold seen. rewrite L. cbn [omap list_omap]. unfold stray_source at 1, stray, the_rule.
  destruct (String.eqb key "from"); cbn [kr_pref kr_act]; rewrite Z.eqb_refl, bool_decide_eq_true_2 by done;
    by rewrite andb_false_r.
Qed.
End converges.
End laws.

(** [C22] No route is orphaned: while the table this host stopped using still holds
    the default route to the backend, the rule that marks that table is still
    there - between any two commands, on every failure. *)
Theorem linker_no_orphan {W} (run : runner W) `{!Kernel run, !LinkerKernel run} key value tbl want own backendLAN t w :
  pinned_fit key value tbl want -> t <> tbl -> marked key value t w ->
  let safe w' := l_default w' t = Some backendLAN -> marked key value t w' in
  Forall safe (worlds run (ensurePinnedRule tbl key value want own backendLAN) w)
  /\ Forall safe (worlds run (removePinnedRule tbl key value want own backendLAN) w).
Proof.
  intros [Hkey Hall Hvalue Htbl Hwant] Hne Hm. cbv zeta.
  assert (Hdel : forall q tok t' w', in_i64 q -> l_table tok = Some t' -> t' = tbl \/ l_default w' t' <> Some backendLAN ->
    no_orphan run key value backendLAN t w' (run (selector_rule "del" key value tok q) w').2).
  { intros q tok t' w' Hq Ht Hd. eapply orphan_del; [done.. |]. intros ->. by destruct Hd. }
  split; eapply Forall_impl;
    [apply (ensure_walks run key value Hkey Hall tbl Htbl want own backendLAN (no_orphan run key value backendLAN t)) | |
     apply (remove_walks run key value Hkey Hall tbl Htbl want own backendLAN (no_orphan run key value backendLAN t)) |].
  all: try (intros w' [_ H] Hd; by apply H).
  all: try (intros; by eapply orphan_routes).
  all: try (intros; by eapply orphan_add).
  all: try (intros; by eapply Hdel).
  intros; by eapply orphan_del_any.
Qed.

(** A rule nothing ties to this system is never touched: the others are the
    same in every world of an installation and of a removal. *)
Theorem linker_rule_strangers_kept {W} (run : runner W) `{!Kernel run, !LinkerKernel run} key value tbl want own backendLAN w :
  pinned_fit key value tbl want ->
  let kept w' := foreign run key value tbl want own w' ≡ₚ foreign run key value tbl want own w in
  Forall kept (worlds run (ensurePinnedRule tbl key value want own backendLAN) w)
  /\ Forall kept (worlds run (removePinnedRule tbl key value want own backendLAN) w).
Proof.
  intros Hfit. cbv zeta. pose proof (foreign_refl run key value tbl want own) as Hrefl.
  pose proof (foreign_trans run key value tbl want own) as Htrans. pose proof Hfit as [Hkey Hall Hvalue Htbl Hwant]. split.
  - apply (ensure_walks run key value Hkey Hall tbl Htbl want own backendLAN (foreign_same run key value tbl want own)).
    + intros; by eapply foreign_routes.
    + intros; by eapply foreign_add.
    + intros; by eapply foreign_del.
  - apply (remove_walks run key value Hkey Hall tbl Htbl want own backendLAN (foreign_same run key value tbl want own)).
    + intros; by eapply foreign_routes.
    + intros; by eapply foreign_del.
    + intros; by eapply foreign_del_any.
Qed.

Lemma pinned_places {W} (run : runner W) `{!Kernel run, !LinkerKernel run} key value tbl want own backendLAN w :
  pinned_fit key value tbl want ->
  let c := ensurePinnedRule tbl key value want own backendLAN in
  ((execute run c w).1 = None -> placed run key value tbl want (execute run c w).2)
  /\ (marked key value tbl w -> Forall (marked key value tbl) (worlds run c w)).
Proof.
  intros Hfit. pose proof Hfit as [Hkey Hall Hvalue Htbl Hwant].
  apply (pinned_cases run key value tbl Htbl want own backendLAN
    (fun o ws w' => (o = None -> placed run key value tbl want w') /\ (marked key value tbl w -> Forall (marked key value tbl) ws))).
  - intros e w1 [E _]. split; [done |]. intros (r & Hr). repeat constructor. exists r. by rewrite E.
  - intros e w1 w2 [E1 _] [E2 _]. split; [done |]. intros (r & Hr). repeat constructor; exists r; by rewrite ?E1, ?E2.
  - intros mine all w1 w2 [E1 _] _ E2 Em Ea.
    destruct (body_places run key value tbl want own backendLAN Hfit mine all w2 Em Ea) as [H1 H2]. split; [done |].
    intros (r & Hr). constructor; [exists r; by rewrite E1 |]. constructor; [exists r; by rewrite E2 |].
    eapply Forall_impl; [exact H2 |]. intros w' [E|H]; [exists r; by rewrite E, E2 | by eapply place_marks].
Qed.

(** An installation that reports success has its rule in place, and no packet
    it is for finds the table without a rule while it runs. *)
Theorem ensurePinnedRule_places {W} (run : runner W) `{!Kernel run, !LinkerKernel run} key value tbl want own backendLAN w :
  pinned_fit key value tbl want ->
  let c := ensurePinnedRule tbl key value want own backendLAN in
  ((execute run c w).1 = None -> placed run key value tbl want (execute run c w).2)
  /\ (marked key value tbl w -> Forall (marked key value tbl) (worlds run c w)).
Proof. exact (pinned_places run key value tbl want own backendLAN w). Qed.

Lemma pinned_converges {W} (run : runner W) `{!Kernel run, !LinkerKernel run, !LinkerReliable run}
    key value tbl want own backendLAN w :
  pinned_fit key value tbl want -> representable (the_rule key value tbl want) ->
  let c := ensurePinnedRule tbl key value want own backendLAN in
  (execute run c w).1 = None
  /\ placed run key value tbl want (execute run c w).2
  /\ forall r, r ∈ k_rules (execute run c w).2 -> linker_rule key value tbl want own r = true ->
       kr_pref r = want /\ kr_act r = Lookup tbl.
Proof.
  intros Hfit Hrep. pose proof Hfit as [Hkey Hall Hvalue Htbl Hwant]. cbv zeta.
  unfold ensurePinnedRule, listRulesInTable, listRules, ask. cbn [then_]. pose proof (lr_kernel (run := run)) as Hrel.
  rewrite execute_exec. pose proof (r_show_table tbl w Htbl) as O1. destruct (show_table_kept run tbl Htbl w) as [[E1 _] T].
  destruct (run _ w) as [[mine|e] w1]; [| done]. cbn [fst snd] in *. cbn [then_].
  rewrite execute_exec. pose proof (r_show w1) as O2. destruct (show_kept run w1) as [[E2 _] L].
  destruct (run _ w1) as [[all|e] w2]; [| done]. cbn [fst snd] in *.
  fold (pin_body key value tbl want own backendLAN mine all).
  assert (Em : Itoa tbl :: tableTokens mine = own_names run tbl w2).
  { unfold own_names. rewrite E2, E1. by rewrite (T mine eq_refl). }
  assert (Ea : all = listing k_alias (k_rules w2)) by (rewrite E2; by apply L).
  destruct (body_converges run key value tbl want own backendLAN Hfit mine all w2 Hrep Em Ea) as [Ho Hs].
  destruct (body_places run key value tbl want own backendLAN Hfit mine all w2 Em Ea) as [Hp _].
  split; [exact Ho |]. split; [by apply Hp |]. intros r. by apply not_stray.
Qed.

(** Where commands do not fail without a reason an installation succeeds, and
    ends with every rule that is this system's in its place: one more change
    of table, priority or host leaves nothing behind. *)
Theorem ensurePinnedRule_converges {W} (run : runner W) `{!Kernel run, !LinkerKernel run, !LinkerReliable run}
    key value tbl want own backendLAN w :
  pinned_fit key value tbl want -> representable (the_rule key value tbl want) ->
  let c := ensurePinnedRule tbl key value want own backendLAN in
  (execute run c w).1 = None
  /\ placed run key value tbl want (execute run c w).2
  /\ forall r, r ∈ k_rules (execute run c w).2 -> linker_rule key value tbl want own r = true ->
       kr_pref r = want /\ kr_act r = Lookup tbl.
Proof. exact (pinned_converges run key value tbl want own backendLAN w). Qed.

(** ** A kernel with tables

    The policy database of [table_kernel] beside the default routes of the
    tables; table 102 is called [backup]. *)

Definition table_number (tok : string) : option Z :=
  if String.eqb tok "backup" then Some 102
  else match Atoi (string_bytes tok) with
       | Some n => if 0 <=? n then Some n else None
       | None => None
       end.
Definition tabled_host : Type := list krule * gmap Z string.
Definition host_default (w : tabled_host) (t : Z) : option string :=
  match w.2 !! t with Some g => if name_okb g then Some g else None | None => None end.

(** A rule by its selector, its table and, when given, its priority. *)
Definition withdrawn (key value : string) (t : Z) (q : option Z) (r : krule) : bool :=
  selected key value r && bool_decide (kr_act r = Lookup t) && match q with Some q => kr_pref r =? q | None => true end.
Definition withdraw_from (w : tabled_host) (key value : string) (t : Z) (q : option Z) : answer * tabled_host :=
  match remove_first (withdrawn key value t q) (sound_rules w.1) with
  | Some rs => (Ok ""%string, (rs, w.2))
  | None => (Err "RTNETLINK answers: No such file or directory"%string, w)
  end.
Definition on_rules (argv : list string) (w : tabled_host) : answer * tabled_host :=
  let '(a, rs) := table_kernel argv w.1 in (a, (rs, w.2)).

(** [None] for a command that is not one of these. *)
Definition withdrawal (argv : list string) (w : tabled_host) : option (answer * tabled_host) :=
  match argv with
  | prog :: object :: verb :: key :: value :: look :: tok :: rest =>
      if String.eqb prog "ip" && String.eqb object "rule" && String.eqb verb "del" && String.eqb look "lookup"
         && (String.eqb key "from" || String.eqb key "fwmark") then
        match table_number tok, rest with
        | Some t, [] => Some (withdraw_from w key value t None)
        | Some t, [p; q] =>
            if String.eqb p "pref"
            then match Atoi (string_bytes q) with Some q => Some (withdraw_from w key value t (Some q)) | None => None end
            else None
        | _, _ => None
        end
      else None
  | _ => None
  end.
Definition default_route (argv : list string) (w : tabled_host) : option (answer * tabled_host) :=
  match argv with
  | [prog; object; verb; dst; table; tok] =>
      if String.eqb prog "ip" && String.eqb object "route" && String.eqb verb "show" && String.eqb dst "default" then
        match table_number tok with
        | Some t => Some (match host_default w t with
                          | Some g => Ok (default_text (Some g) "eth0")
                          | None => Err "Error: ipv4: FIB table does not exist."%string
                          end, w)
        | None => None
        end
      else None
  | [prog; object; verb; dst; via; g; table; tok] =>
      if String.eqb prog "ip" && String.eqb object "route" && String.eqb verb "del" && String.eqb dst "default" then
        match table_number tok with
        | Some t => Some (if bool_decide (host_default w t = Some g)
                          then (Ok ""%string, (w.1, delete t w.2))
                          else (Err "RTNETLINK answers: No such process"%string, w))
        | None => None
        end
      else None
  | _ => None
  end.
(** Files are written, rulesets loaded, and the backend is reached by [eth0]. *)
Definition service (argv : list string) : option answer :=
  match argv with
  | prog :: object :: verb :: _ =>
      if negb (String.eqb prog "ip") then Some (Ok ""%string)
      else if String.eqb object "route" && String.eqb verb "get"
      then Some (Ok "192.168.1.9 dev eth0 src 192.168.1.20"%string) else None
  | _ => None
  end.
Definition host_kernel : runner tabled_host := fun argv w =>
  match service argv with
  | Some a => (a, w)
  | None =>
      match withdrawal argv w with
      | Some out => out
      | None => match default_route argv w with Some out => out | None => on_rules argv w end
      end
  end.

Lemma table_number_alias t : 0 <= t <= MaxInt64 -> table_number (table_name t) = Some t.
Proof.
  intros Ht. unfold table_name. destruct (Z.eqb_spec t 102) as [->|Hne]; [done |].
  replace (_ && _) with true by lia. unfold table_number.
  destruct (Itoa_bytes t ltac:(go_lia)) as (_ & Hb & E). rewrite E. replace (0 <=? t) with true by lia.
  destruct (String.eqb_spec (Itoa t) "backup") as [H|]; [| done]. rewrite H in Hb.
  apply Forall_cons in Hb as [Hb _]. vm_compute in Hb. by destruct Hb as [_ Hb].
Qed.

Lemma table_number_number t : 0 <= t <= MaxInt64 -> table_number (Itoa t) = Some t.
Proof.
  intros Ht. unfold table_number. destruct (Itoa_bytes t ltac:(go_lia)) as (_ & Hb & E). rewrite E.
  replace (0 <=? t) with true by lia. destruct (String.eqb_spec (Itoa t) "backup") as [H|]; [| done]. rewrite H in Hb.
  apply Forall_cons in Hb as [Hb _]. vm_compute in Hb. by destruct Hb as [_ Hb].
Qed.

Lemma host_default_word w t g : host_default w t = Some g -> word g.
Proof.
  unfold host_default. destruct (w.2 !! t) as [g'|]; [| done]. destruct (name_okb g') eqn:E; [| done]. intros [= <-].
  by apply (opt_okb_spec (Some g')) in E as [E _].
Qed.

Lemma withdraw_from_spec w key value t q : let '(a, w') := withdraw_from w key value t q in
  w'.2 = w.2 /\
  if is_ok a then exists r, withdrawn key value t q r = true /\ sound_rules w.1 ≡ₚ r :: sound_rules w'.1
  else w' = w /\ forall r, r ∈ sound_rules w.1 -> withdrawn key value t q r = false.
Proof.
  unfold withdraw_from. pose proof (remove_first_some (withdrawn key value t q) (sound_rules w.1)) as H.
  destruct (remove_first _ _) as [rs|] eqn:E; cbn [is_ok fst snd]; [| done]. split; [done |].
  by rewrite (removed_sound _ _ _ E).
Qed.

Lemma selector_eqb key : selector_key key -> String.eqb key "from" || String.eqb key "fwmark" = true.
Proof. by intros [-> | ->]. Qed.

Lemma host_kernel_del key value tok q t w : selector_key key -> in_i64 q -> table_number tok = Some t ->
  host_kernel (selector_rule "del" key value tok q) w = withdraw_from w key value t (Some q).
Proof.
  intros Hk Hq Ht. unfold host_kernel, service, selector_rule, withdrawal. destruct (Itoa_bytes q Hq) as (_ & _ & E).
  eval_eqb. cbn [negb andb]. by rewrite (selector_eqb key Hk), Ht, E.
Qed.

Lemma host_kernel_del_any key value tok t w : selector_key key -> table_number tok = Some t ->
  host_kernel ["ip"; "rule"; "del"; key; value; "lookup"; tok]%string w = withdraw_from w key value t None.
Proof.
  intros Hk Ht. unfold host_kernel, service, withdrawal. eval_eqb. cbn [negb andb]. by rewrite (selector_eqb key Hk), Ht.
Qed.

Lemma host_kernel_add r w : host_kernel (rule_argv "add" r) w = on_rules (rule_argv "add" r) w.
Proof. destruct r as [q from to mark act]. by destruct from, to, mark, act. Qed.

Lemma withdrawn_fits key value t q r : selector_key key -> withdrawn key value t (Some q) r = fits (the_rule key value t q) r.
Proof.
  intros Hk. unfold withdrawn, fits, selected, the_rule.
  destruct Hk as [-> | ->]; eval_eqb; cbn [kr_pref kr_act kr_from kr_to kr_mark fits_opt];
    destruct (kr_pref r =? q); rewrite ?andb_true_r, ?andb_false_r; try done; cbn [andb];
    rewrite andb_comm; by rewrite ?andb_true_r.
Qed.

(** Either the deletion is of a selector, or the policy database decodes it. *)
Lemma host_kernel_rule_del r w : rule_ok r ->
  (exists key value t, selector_key key /\ r = the_rule key value t (kr_pref r)
     /\ host_kernel (rule_argv "del" r) w = withdraw_from w key value t (Some (kr_pref r)))
  \/ host_kernel (rule_argv "del" r) w = on_rules (rule_argv "del" r) w.
Proof.
  intros (Hq & Ht & _). destruct r as [q [src|] [dst|] [m|] [t|]]; cbn [kr_pref kr_act] in *; try (right; reflexivity); left.
  - exists "from"%string, src, t. split; [by left |]. split; [done |].
    exact (host_kernel_del "from" src (Itoa t) q t w (or_introl eq_refl) Hq (table_number_number t Ht)).
  - exists "fwmark"%string, m, t. split; [by right |]. split; [done |].
    exact (host_kernel_del "fwmark" m (Itoa t) q t w (or_intror eq_refl) Hq (table_number_number t Ht)).
Qed.

Lemma on_rules_result argv w : (on_rules argv w).1 = (table_kernel argv w.1).1 /\ (on_rules argv w).2 = ((table_kernel argv w.1).2, w.2).
Proof. unfold on_rules. by destruct (table_kernel argv w.1). Qed.

Lemma default_route_rules argv w out : default_route argv w = Some out -> out.2.1 = w.1.
Proof.
  unfold default_route. repeat case_match; intros [= <-]; done.
Qed.

#[export] Instance host_kernel_ok : Kernel host_kernel.
Proof.
  refine {| k_rules := fun w => sound_rules w.1; k_alias := table_name |}.
  - apply table_name_ok.
  - intros w. apply sound_rules_ok.
  - intros w. cbn. split; [done | by intros out [= <-]].
  - intros t w Ht. pose proof (k_show_table (run := table_kernel) t w.1 Ht) as L. unfold host_kernel, service, withdrawal, default_route. eval_eqb.
    cbn [negb andb]. unfold on_rules. by destruct (table_kernel _ w.1).
  - intros r w Hr. rewrite host_kernel_add. pose proof (k_add (run := table_kernel) r w.1 Hr) as L.
    unfold on_rules. by destruct (table_kernel _ w.1).
  - intros r w Hr. destruct (host_kernel_rule_del r w Hr) as [(key & value & t & Hk & Er & ->)| ->].
    + pose proof (withdraw_from_spec w key value t (Some (kr_pref r))) as H. destruct (withdraw_from _ _ _ _ _) as [a w'].
      destruct H as [_ H]. destruct (is_ok a); [| by destruct H as [-> _]]. destruct H as (r' & Hf & E). exists r'. split; [| done].
      by rewrite Er, <- withdrawn_fits.
    + pose proof (k_del (run := table_kernel) r w.1 Hr) as L. unfold on_rules. by destruct (table_kernel _ w.1).
  - intros dst rest w. unfold host_kernel. destruct (service _); [done |].
    replace (withdrawal ("ip" :: "route" :: dst :: rest)%string w) with (@None (answer * tabled_host))
      by (unfold withdrawal; destruct rest as [|? [|? [|? [|? ?]]]]; done).
    destruct (default_route _ w) as [[a w']|] eqn:E; [| done].
    pose proof (default_route_rules _ _ _ E) as H. cbn in *. by rewrite H.
Defined.

#[export] Instance host_kernel_reliable : Reliable host_kernel.
Proof.
  split.
  - done.
  - intros t w Ht. pose proof (r_show_table (run := table_kernel) t w.1 Ht) as L. unfold host_kernel, service, withdrawal, default_route. eval_eqb.
    cbn [negb andb]. by rewrite (proj1 (on_rules_result _ w)).
  - intros r w Hr Hrep Hn. rewrite host_kernel_add, (proj1 (on_rules_result _ w)). by apply (r_add (run := table_kernel)).
  - intros r w Hr (r' & Hin & Hf). destruct (host_kernel_rule_del r w Hr) as [(key & value & t & Hk & Er & ->)| ->].
    + pose proof (withdraw_from_spec w key value t (Some (kr_pref r))) as H. destruct (withdraw_from _ _ _ _ _) as [a w'].
      destruct H as [_ H]. cbn [fst]. destruct (is_ok a); [done |]. destruct H as [_ H]. specialize (H r' Hin).
      rewrite withdrawn_fits, <- Er in H by done. congruence.
    + rewrite (proj1 (on_rules_result _ w)). apply (r_del (run := table_kernel)); [done | by exists r'].
Qed.

#[export] Instance host_kernel_linker : LinkerKernel host_kernel.
Proof.
  refine {| l_default := host_default; l_table := table_number |}.
  - intros w t g. apply host_default_word.
  - apply table_number_alias.
  - apply table_number_number.
  - intros rest w t. unfold host_kernel. destruct (service _); [done |]. destruct (withdrawal _ w) as [[a w']|] eqn:E.
    + unfold withdrawal in E. destruct rest as [|v [|k [|x [|l [|tok rest]]]]]; try done.
      repeat case_match; try done; injection E as E; unfold withdraw_from in E; repeat case_match; by injection E as <- <-.
    + replace (default_route ("ip" :: "rule" :: rest)%string w) with (@None (answer * tabled_host)).
      * by rewrite (proj2 (on_rules_result _ w)).
      * unfold default_route. destruct rest as [|? [|? [|? [|? [|? [|? [|? ?]]]]]]]; done.
  - intros key value tok q t w Hk Hq Ht. rewrite (host_kernel_del key value tok q t w Hk Hq Ht).
    pose proof (withdraw_from_spec w key value t (Some q)) as H. destruct (withdraw_from _ _ _ _ _) as [a w'].
    destruct H as [_ H]. cbn [k_rules host_kernel_ok]. destruct (is_ok a); [| by destruct H as [-> _]].
    destruct H as (r & Hw & E). unfold withdrawn in Hw. bool_to_prop. exists r. repeat split; try done; try lia.
    by eapply bool_decide_eq_true.
  - intros key value tok t w Hk Ht. rewrite (host_kernel_del_any key value tok t w Hk Ht).
    pose proof (withdraw_from_spec w key value t None) as H. destruct (withdraw_from _ _ _ _ _) as [a w'].
    destruct H as [_ H]. cbn [k_rules host_kernel_ok]. destruct (is_ok a); [| by destruct H as [-> _]].
    destruct H as (r & Hw & E). unfold withdrawn in Hw. bool_to_prop. exists r. repeat split; try done.
    by eapply bool_decide_eq_true.
  - intros tok t w Ht. unfold host_kernel, service, withdrawal, default_route. eval_eqb. cbn [negb andb]. rewrite Ht.
    split; [done |]. destruct (host_default w t) as [g|]; [| done]. exists "eth0"%string. split; [| done].
    by split; [| vm_compute].
  - intros g tok t w Ht. unfold host_kernel, service, del_default, withdrawal, default_route. eval_eqb. cbn [negb andb]. rewrite Ht.
    case_bool_decide as Hd; cbn [is_ok]; [| done]. split; [done |]. intros t'. unfold host_default. cbn [snd].
    destruct (Z.eqb_spec t' t) as [->|Hne]; [by rewrite lookup_delete_eq | by rewrite lookup_delete_ne].
Defined.

#[export] Instance host_kernel_linker_reliable : LinkerReliable host_kernel.
Proof.
  split.
  - apply host_kernel_reliable.
  - intros key value tok q t w Hk Hq Ht (r & Hr & Hs & Ha & Hp). rewrite (host_kernel_del key value tok q t w Hk Hq Ht).
    pose proof (withdraw_from_spec w key value t (Some q)) as H. destruct (withdraw_from _ _ _ _ _) as [a w'].
    destruct H as [_ H]. cbn [fst]. destruct (is_ok a); [done |]. destruct H as [_ H]. specialize (H r Hr).
    unfold withdrawn in H. rewrite Hs, bool_decide_eq_true_2, Hp, Z.eqb_refl in H by done. done.
  - intros tok t w Ht. change (table_number tok = Some t) in Ht. unfold host_kernel, service, withdrawal, default_route. eval_eqb. cbn [negb andb]. rewrite Ht. cbn [fst].
    destruct (host_default w t); [done | reflexivity].
  - intros g tok t w Ht Hd. change (table_number tok = Some t) in Ht. change (host_default w t = Some g) in Hd. unfold host_kernel, service, del_default, withdrawal, default_route. eval_eqb. cbn [negb andb]. rewrite Ht.
    by rewrite bool_decide_eq_true_2.
Qed.

(** A host whose linker was moved from table 102 to table 200: the rules still
    point at the old one, which still holds the route to the backend, and the
    host has a rule of its own on the mark. *)
Definition moved : tabled_host :=
  ([ mkRule 0 None None None (Lookup 255);
     mkRule 100 (Some "10.99.0.7") None None (Lookup 102);
     mkRule 32400 (Some "10.99.0.7") None None (Lookup 102);
     mkRule 5000 None None (Some "0x201") (Lookup 77);
     mkRule 32766 None None None (Lookup 254) ]%string,
   {[ 102 := "192.168.1.9" ]}%string).

Lemma source_fit : pinned_fit "from" "10.99.0.7" 200 LinkerRulePrefBase.
Proof. split; [by left | done | by apply (opt_okb_spec (Some "10.99.0.7"%string)) | done | done]. Qed.
Lemma mark_fit : pinned_fit "fwmark" "0x201" 200 (LinkerRulePrefBase + 1).
Proof. split; [by right | done | by apply (opt_okb_spec (Some "0x201"%string)) | done | done]. Qed.

Lemma linker_no_orphan_witness :
  let c := EnsureLinkerRule "10.99.0.7" "192.168.1.9" 200 in
  Forall (fun w' => host_default w' 102 = Some "192.168.1.9"%string -> marked (run := host_kernel) "from" "10.99.0.7" 102 w')
    (worlds host_kernel c moved)
  /\ host_default (execute host_kernel c moved).2 102 = None /\ length (worlds host_kernel c moved) = 8%nat.
Proof.
  cbv zeta. split; [| vm_compute; by split].
  refine (proj1 (linker_no_orphan host_kernel "from" "10.99.0.7" 200 LinkerRulePrefBase true "192.168.1.9" 102 moved source_fit _ _)).
  - done.
  - exists (mkRule 100 (Some "10.99.0.7"%string) None None (Lookup 102)). split; [| done].
    apply (bool_decide_unpack _). vm_compute. reflexivity.
Defined.

Lemma linker_rule_strangers_kept_witness :
  let w' := (execute host_kernel (RemoveLinkerReturnRuleset "192.168.1.9" 200) moved).2 in
  Forall (fun w' => foreign host_kernel "fwmark" "0x201" 200 (LinkerRulePrefBase + 1) false w'
                    ≡ₚ foreign host_kernel "fwmark" "0x201" 200 (LinkerRulePrefBase + 1) false moved)
    (worlds host_kernel (removePinnedRule 200 "fwmark" "0x201" (LinkerRulePrefBase + 1) false "192.168.1.9") moved)
  /\ mkRule 5000 None None (Some "0x201"%string) (Lookup 77) ∈ w'.1.
Proof.
  cbv zeta. split.
  - apply (linker_rule_strangers_kept host_kernel _ _ _ _ _ _ moved mark_fit).
  - apply (bool_decide_unpack _). vm_compute. reflexivity.
Defined.

Lemma ensurePinnedRule_places_witness :
  placed host_kernel "from" "10.99.0.7" 200 LinkerRulePrefBase
    (execute host_kernel (EnsureLinkerRule "10.99.0.7" "192.168.1.9" 200) moved).2.
Proof.
  apply (ensurePinnedRule_places host_kernel "from" "10.99.0.7" 200 LinkerRulePrefBase true "192.168.1.9" moved source_fit).
  vm_compute. reflexivity.
Defined.

Lemma ensurePinnedRule_converges_witness :
  let c := EnsureLinkerRule "10.99.0.7" "192.168.1.9" 200 in
  (execute host_kernel c moved).1 = None
  /\ forall r, r ∈ sound_rules (execute host_kernel c moved).2.1 ->
       linker_rule "from" "10.99.0.7" 200 LinkerRulePrefBase true r = true -> kr_act r = Lookup 200.
Proof.
  cbv zeta. destruct (ensurePinnedRule_converges host_kernel "from" "10.99.0.7" 200 LinkerRulePrefBase true "192.168.1.9" moved source_fit)
    as (H & _ & Hr).
  - split; [done |]. intros m H. discriminate H.
  - split; [exact H |]. intros r Hin Hl. exact (proj2 (Hr r Hin Hl)).
Defined.
