(* ===== verification/Bootstrap.v ===== *)
(** * Bootstrap files ([internal/model/bootstrap.go])

    What an agent starts from: a small file with the shared secret, the overlay
    and, on a linker, what cannot be told over the wire.  [LoadBootstrap]
    settles the addresses to the form the ruleset generators use, so that a
    file it accepts is one no generator answers with an empty ruleset. *)

From S2P Require Import Prelude Model Bytes Sha256 Decimal Text Net Ports Nft Rules Validate ProbeRules LinkerRules LinkerPolicy LinkerRouting.

Record LinkerInfo := mkLinkerInfo { li_Table : Z; li_OverlayIP : string; li_BackendLAN : string }.

(** What is wrong with a file that is used all the same. *)
Inductive boot_warning := ShortSecret (length : Z) | OpenFile (mode : Z).

Record Bootstrap := mkBootstrap {
  boot_Role : string; boot_PSK : string; boot_StateDir : string; boot_DBPath : string;
  boot_PortalListen : string; boot_Overlay : OverlayConfig; boot_Linker : LinkerInfo;
  boot_PublicIface : string; boot_Warnings : list boot_warning }.

Inductive boot_error :=
| ReadConfig (e : string) | ParseConfig (e : string) | NoSecret | PlaceholderSecret
| BootBadFrontend (ip : string) | BootBadBackend (ip : string) | BootBadSubnet (subnet : string)
| BootNoOverlayIP | BootNoBackendLAN | BootBadOverlayIP (ip : string) | BootBadBackendLAN (ip : string)
| BootTaken (ip : string) | BootBadTable (table : Z).

Definition PSKPlaceholder : string := "CHANGE-ME".
Definition MinPSKBytes : Z := 32.
Definition RoleLinker : string := "linker".

(** [ipv4Literal] and [ipv4Network]: the empty string is a value nothing may use. *)
Definition ipv4Literal (addr : string) : string :=
  match ParseIP (TrimSpace addr) with
  | None => ""
  | Some ip => match To4 ip with None => "" | Some ip4 => bytes_string (dotted ip4) end
  end.
Definition ipv4Network (cidr : string) : string :=
  match ParseCIDR (string_bytes (TrimSpace cidr)) with
  | None => ""
  | Some (_, n) =>
      if bool_decide (To4 (net_IP n) = None) then ""
      else if negb (net_bits n =? 32) then ""
      else bytes_string (cidr4 (net_IP n) (net_ones n))
  end.

Definition or_else (s d : string) : string := if String.eqb s "" then d else s.
Definition or_port (n d : Z) : Z := if n =? 0 then d else n.

(** The two warnings, in order: the file's mode is asked for where there are
    modes, and a failure to read it is no warning. *)
Definition boot_warnings (windows : bool) (perm : option Z) (psk : string) : list boot_warning :=
  (if Z.of_nat (String.length psk) <? MinPSKBytes then [ShortSecret (Z.of_nat (String.length psk))] else [])
  ++ match perm with
     | Some mode => if negb windows && negb (Z.land mode 63 =? 0) then [OpenFile mode] else []
     | None => []
     end.

Definition boot_overlay_defaults (o : OverlayConfig) : OverlayConfig :=
  mkOverlayConfig (or_else (ov_FrontendIP o) "10.99.0.1") (or_else (ov_BackendIP o) "10.99.0.2")
    (or_else (ov_Device o) "dummy0") (ov_Subnet o) (or_port (ov_ProbePort o) 51999) (or_port (ov_ControlPort o) 51998).
Definition boot_defaults (b : Bootstrap) (warnings : list boot_warning) : Bootstrap :=
  let dir := or_else (boot_StateDir b) "/var/lib/failover" in
  mkBootstrap (boot_Role b) (boot_PSK b) dir (or_else (boot_DBPath b) (dir ++ "/failover.db"))
    (or_else (boot_PortalListen b) "127.0.0.1:8088") (boot_overlay_defaults (boot_Overlay b)) (boot_Linker b)
    (boot_PublicIface b) warnings.

Definition boot_overlay (o : OverlayConfig) : result boot_error OverlayConfig :=
  let f := ipv4Literal (ov_FrontendIP o) in
  refuse (BootBadFrontend (ov_FrontendIP o)) if String.eqb f "";
  let b := ipv4Literal (ov_BackendIP o) in
  refuse (BootBadBackend (ov_BackendIP o)) if String.eqb b "";
  let done_with s := Ok (mkOverlayConfig f b (ov_Device o) s (ov_ProbePort o) (ov_ControlPort o)) in
  if String.eqb (ov_Subnet o) "" then done_with (ov_Subnet o)
  else
    let s := ipv4Network (ov_Subnet o) in
    refuse (BootBadSubnet (ov_Subnet o)) if String.eqb s "";
    done_with s.

Definition boot_linker (o : OverlayConfig) (l : LinkerInfo) : result boot_error LinkerInfo :=
  refuse BootNoOverlayIP if String.eqb (li_OverlayIP l) "";
  refuse BootNoBackendLAN if String.eqb (li_BackendLAN l) "";
  let ip := ipv4Literal (li_OverlayIP l) in
  refuse (BootBadOverlayIP (li_OverlayIP l)) if String.eqb ip "";
  let lan := ipv4Literal (li_BackendLAN l) in
  refuse (BootBadBackendLAN (li_BackendLAN l)) if String.eqb lan "";
  refuse (BootTaken ip) if String.eqb ip (ov_BackendIP o) || String.eqb ip (ov_FrontendIP o);
  refuse (BootBadTable (li_Table l)) if (li_Table l <? 0) || (252 <? li_Table l);
  Ok (mkLinkerInfo (li_Table l) ip lan).

(** The file as it was read and decoded, and the mode it has. *)
Definition LoadBootstrap (windows : bool) (perm : option Z) (file : result string (result string Bootstrap))
    : result boot_error Bootstrap :=
  match file with
  | Err e => Err (ReadConfig e)
  | Ok (Err e) => Err (ParseConfig e)
  | Ok (Ok b) =>
      refuse NoSecret if String.eqb (boot_PSK b) "";
      refuse PlaceholderSecret if String.prefix PSKPlaceholder (boot_PSK b);
      let b := boot_defaults b (boot_Warnings b ++ boot_warnings windows perm (boot_PSK b)) in
      match boot_overlay (boot_Overlay b) with
      | Err e => Err e
      | Ok o =>
          let with_linker l := mkBootstrap (boot_Role b) (boot_PSK b) (boot_StateDir b) (boot_DBPath b)
            (boot_PortalListen b) o l (boot_PublicIface b) (boot_Warnings b) in
          if String.eqb (boot_Role b) RoleLinker
          then match boot_linker o (boot_Linker b) with Err e => Err e | Ok l => Ok (with_linker l) end
          else Ok (with_linker (boot_Linker b))
      end
  end.

(** The key every message is authenticated with. *)
Definition Key (b : Bootstrap) : bytes := sha256 (string_bytes (boot_PSK b)).

(** The table a linker uses ([internal/linker/linker.go]). *)
Definition linker_table (b : Bootstrap) : Z :=
  if negb (li_Table (boot_Linker b) =? 0) then li_Table (boot_Linker b) else DefaultLinkerTable.

(** ** The readers are the generators' *)

Lemma ipv4Literal_agrees s : ipv4Literal s = AddressLiteral s.
Proof. reflexivity. Qed.

Lemma ipv4Network_agrees s : ipv4Network s = NetworkLiteral s.
Proof.
  unfold ipv4Network, NetworkLiteral, network4. destruct (ParseCIDR _) as [[ip n]|]; [| done].
  destruct (To4 (net_IP n)) eqn:E4.
  - rewrite bool_decide_eq_false_2 by done. rewrite (bool_decide_eq_true_2 (is_Some _)) by done.
    by destruct (net_bits n =? 32).
  - rewrite bool_decide_eq_true_2 by done. rewrite (bool_decide_eq_false_2 (is_Some _)) by (by intros []).
    by rewrite andb_false_r.
Qed.

(** An address and a network as a generator uses them. *)
Definition settled (s : string) : Prop := AddressLiteral s = s /\ s <> ""%string.
Definition settled_network (s : string) : Prop := s = ""%string \/ NetworkLiteral s = s.

Lemma literal_settled s : ipv4Literal s <> ""%string -> settled (ipv4Literal s).
Proof. rewrite ipv4Literal_agrees. intros H. split; [| done]. by destruct (AddressLiteral_ok s H) as (ip & _ & _ & _ & _ & E). Qed.

Lemma network_settled s : ipv4Network s <> ""%string -> NetworkLiteral (ipv4Network s) = ipv4Network s.
Proof.
  rewrite ipv4Network_agrees. unfold NetworkLiteral at 1 3. destruct (network4 _) as [[ip ones]|] eqn:E; [| done]. intros _.
  destruct (network4_ok _ _ _ E) as (H1 & [H2 H3] & H4). unfold NetworkLiteral. rewrite E, TrimSpace_cidr4 by done.
  rewrite string_bytes_cidr4, network4_cidr4 by done. done.
Qed.

Lemma Forall_forall_bool {A} (f : A -> bool) l : Forall (fun x => f x = true) l -> forallb f l = true.
Proof. intros H. apply forallb_forall. intros x Hx. apply list_elem_of_In in Hx. rewrite Forall_forall in H. by apply H. Qed.

(** A settled address can stand in a rule. *)
Lemma settled_name s : settled s -> name_ok s /\ s <> "all"%string.
Proof.
  intros [E Hne]. assert (Hne' : AddressLiteral s <> ""%string) by (by rewrite E).
  destruct (AddressLiteral_ok s Hne') as (ip & Es & Hip & _). rewrite E in Es. clear E Hne'.
  assert (Hd : Forall (fun c => is_digit c || (c =? 46) = true) (string_bytes s)).
  { rewrite Es, string_bytes_string; [by apply dotted_bytes, Hip |]. eapply Forall_impl; [by apply dotted_bytes, Hip |].
    cbn. intros c Hc. by apply net_byte_byte, dotted_byte. }
  assert (Hk : forall k, k ∈ ("all" :: keywords)%string -> s <> k).
  { intros k Hk ->. unfold keywords in Hk. rewrite !elem_of_cons, elem_of_nil in Hk.
    clear Es Hne. apply Forall_forall_bool in Hd. destruct_or!; try done; subst k; vm_compute in Hd; discriminate Hd. }
  split; [| apply Hk; by left]. split; [split; [done |] |].
  - apply forallb_forall. intros c Hc. apply list_elem_of_In in Hc. rewrite Forall_forall in Hd.
    by apply net_byte_plain, dotted_byte, Hd.
  - intros Hin. apply (Hk s); [by right | done].
Qed.

(** ** What a file that is accepted holds *)

Definition overlay_settled (o : OverlayConfig) : Prop :=
  settled (ov_FrontendIP o) /\ settled (ov_BackendIP o) /\ settled_network (ov_Subnet o)
  /\ ov_Device o <> ""%string /\ ov_ProbePort o <> 0 /\ ov_ControlPort o <> 0.
Definition linker_settled (b : Bootstrap) : Prop :=
  settled (li_OverlayIP (boot_Linker b)) /\ settled (li_BackendLAN (boot_Linker b))
  /\ li_OverlayIP (boot_Linker b) <> ov_BackendIP (boot_Overlay b)
  /\ li_OverlayIP (boot_Linker b) <> ov_FrontendIP (boot_Overlay b)
  /\ 0 <= li_Table (boot_Linker b) <= 252.

Lemma or_else_set s d : d <> ""%string -> or_else s d <> ""%string.
Proof. unfold or_else. by destruct (String.eqb_spec s ""). Qed.
Lemma or_else_same s d : s <> ""%string -> or_else s d = s.
Proof. unfold or_else. by destruct (String.eqb_spec s ""). Qed.
Lemma or_port_set n d : d <> 0 -> or_port n d <> 0.
Proof. unfold or_port. by destruct (Z.eqb_spec n 0). Qed.
Lemma or_port_same n d : n <> 0 -> or_port n d = n.
Proof. unfold or_port. by destruct (Z.eqb_spec n 0). Qed.

Lemma boot_overlay_ok o o' : boot_overlay o = Ok o' ->
  settled (ov_FrontendIP o') /\ settled (ov_BackendIP o') /\ settled_network (ov_Subnet o')
  /\ ov_Device o' = ov_Device o /\ ov_ProbePort o' = ov_ProbePort o /\ ov_ControlPort o' = ov_ControlPort o.
Proof.
  unfold boot_overlay. destruct (String.eqb_spec (ipv4Literal (ov_FrontendIP o)) ""); [done |].
  destruct (String.eqb_spec (ipv4Literal (ov_BackendIP o)) ""); [done |].
  destruct (String.eqb_spec (ov_Subnet o) "") as [Es|Es].
  - intros [= <-]. cbn. split_and!; try apply literal_settled; try done. by left.
  - destruct (String.eqb_spec (ipv4Network (ov_Subnet o)) ""); [done |]. intros [= <-]. cbn.
    split_and!; try apply literal_settled; try done. right. by apply network_settled.
Qed.

Lemma boot_overlay_fix o : overlay_settled o -> boot_overlay (boot_overlay_defaults o) = Ok o.
Proof.
  intros ([F1 F2] & [B1 B2] & S & D & P & C). unfold boot_overlay, boot_overlay_defaults. destruct o as [f b d s p c].
  cbn [ov_FrontendIP ov_BackendIP ov_Device ov_Subnet ov_ProbePort ov_ControlPort] in *.
  cbv zeta. rewrite !or_else_same, !or_port_same by done.
  rewrite <- ipv4Literal_agrees in F1, B1. rewrite F1, B1.
  destruct (String.eqb_spec f ""); [done |]. destruct (String.eqb_spec b ""); [done |].
  destruct (String.eqb_spec s ""); [done |]. destruct S as [->|S]; [done |]. rewrite <- ipv4Network_agrees in S. rewrite S.
  by destruct (String.eqb_spec s "").
Qed.

Lemma boot_linker_ok o l l' : boot_linker o l = Ok l' ->
  settled (li_OverlayIP l') /\ settled (li_BackendLAN l') /\ li_OverlayIP l' <> ov_BackendIP o
  /\ li_OverlayIP l' <> ov_FrontendIP o /\ 0 <= li_Table l' <= 252.
Proof.
  unfold boot_linker. destruct (String.eqb_spec (li_OverlayIP l) ""); [done |].
  destruct (String.eqb_spec (li_BackendLAN l) ""); [done |].
  destruct (String.eqb_spec (ipv4Literal (li_OverlayIP l)) ""); [done |].
  destruct (String.eqb_spec (ipv4Literal (li_BackendLAN l)) ""); [done |].
  destruct (String.eqb_spec (ipv4Literal (li_OverlayIP l)) (ov_BackendIP o)); [done |].
  destruct (String.eqb_spec (ipv4Literal (li_OverlayIP l)) (ov_FrontendIP o)); [done |]. cbn [orb].
  destruct (Z.ltb_spec (li_Table l) 0); [done |]. destruct (Z.ltb_spec 252 (li_Table l)); [done |].
  intros [= <-]. cbn. split_and!; try apply literal_settled; try done.
Qed.

Lemma boot_linker_fix b : linker_settled b -> boot_linker (boot_Overlay b) (boot_Linker b) = Ok (boot_Linker b).
Proof.
  intros ([O1 O2] & [L1 L2] & N1 & N2 & T). unfold boot_linker. destruct (boot_Linker b) as [t ip lan]. cbn in *. cbv zeta.
  rewrite <- ipv4Literal_agrees in O1, L1. rewrite O1, L1.
  apply String.eqb_neq in O2, L2, N1, N2. rewrite O2, L2, N1, N2. cbn [orb].
  destruct (Z.ltb_spec t 0); [lia |]. destruct (Z.ltb_spec 252 t); [lia | done].
Qed.

Lemma linker_table_range b : linker_settled b -> 1 <= linker_table b <= 252.
Proof.
  intros (_ & _ & _ & _ & T). unfold linker_table. destruct (Z.eqb_spec (li_Table (boot_Linker b)) 0); cbn; [done | lia].
Qed.

Lemma LoadBootstrap_ok windows perm file b : LoadBootstrap windows perm file = Ok b ->
  boot_PSK b <> ""%string /\ String.prefix PSKPlaceholder (boot_PSK b) = false
  /\ boot_StateDir b <> ""%string /\ boot_DBPath b <> ""%string /\ boot_PortalListen b <> ""%string
  /\ overlay_settled (boot_Overlay b) /\ (boot_Role b = RoleLinker -> linker_settled b).
Proof.
  unfold LoadBootstrap. destruct file as [[f|e]|e]; [| done..].
  destruct (String.eqb_spec (boot_PSK f) "") as [|Hpsk]; [done |].
  destruct (String.prefix PSKPlaceholder (boot_PSK f)) eqn:Epre; [done |]. cbv zeta.
  destruct (boot_overlay _) as [o|e] eqn:Eo; [| done]. apply boot_overlay_ok in Eo as (F & B & S & D & P & C).
  assert (Ho : overlay_settled o).
  { split_and!; try done; rewrite ?D, ?P, ?C; [by apply or_else_set | by apply or_port_set..]. }
  assert (Hdir : or_else (boot_StateDir f) "/var/lib/failover" <> ""%string) by (by apply or_else_set).
  assert (Hdb : or_else (boot_DBPath f) (or_else (boot_StateDir f) "/var/lib/failover" ++ "/failover.db") <> ""%string).
  { apply or_else_set. by destruct (or_else (boot_StateDir f) _). }
  cbn [boot_defaults boot_Role boot_Linker]. destruct (String.eqb_spec (boot_Role f) RoleLinker) as [Er|Er].
  - destruct (boot_linker o (boot_Linker f)) as [l|e] eqn:El; [| done]. intros [= <-].
    apply boot_linker_ok in El. split_and!; try done. by apply or_else_set.
  - intros [= <-]. split_and!; try done. by apply or_else_set.
Qed.

Lemma text_of_some t : text_of (Some t) <> ""%string.
Proof. cbn [text_of]. unfold table_text. by destruct (String.concat "" _). Qed.

(** A file that is accepted is one the rest can work from: its addresses and
    networks are as the generators use them, and on a linker no ruleset comes
    out empty, the table is one an operator may use, and the rule can be put
    in and read back. *)
Theorem LoadBootstrap_usable windows perm file b :
  LoadBootstrap windows perm file = Ok b ->
  boot_PSK b <> ""%string /\ overlay_settled (boot_Overlay b)
  /\ (boot_Role b = RoleLinker ->
      let li := boot_Linker b in
      1 <= linker_table b <= 252
      /\ pinned_fit "from" (li_OverlayIP li) (linker_table b) LinkerRulePrefBase
      /\ BuildLinkerReturnRuleset (li_OverlayIP li) <> ""%string
      /\ forall cidrs iface, EgressNetworks cidrs <> [] -> iface <> ""%string ->
           BuildLinkerEgressRuleset cidrs iface (li_OverlayIP li) (ov_Subnet (boot_Overlay b)) <> ""%string).
Proof.
  intros H. destruct (LoadBootstrap_ok windows perm file b H) as (Hp & _ & _ & _ & _ & Ho & Hl).
  split; [done |]. split; [done |]. intros Hr. specialize (Hl Hr). cbv zeta.
  pose proof (linker_table_range b Hl) as Ht. destruct Hl as (Hip & _). pose proof (settled_name _ Hip) as [Hn Ha].
  destruct Hip as [E Hne]. split_and!; try lia.
  - split; [by left | done | done | go_lia | done].
  - unfold BuildLinkerReturnRuleset, linker_return_table. rewrite E. destruct (String.eqb_spec (li_OverlayIP (boot_Linker b)) ""); [done |].
    apply text_of_some.
  - intros cidrs iface Hc Hi. unfold BuildLinkerEgressRuleset, linker_egress_table. rewrite E.
    destruct (Nat.eqb_spec (length (EgressNetworks cidrs)) 0) as [H0|_]; [by apply nil_length_inv in H0 |].
    destruct (String.eqb_spec iface ""); [done |]. destruct (String.eqb_spec (li_OverlayIP (boot_Linker b)) ""); [done |].
    apply text_of_some.
Qed.

(** Reading back what was accepted changes nothing: what the checks saw is what
    everything after them sees. *)
Theorem LoadBootstrap_idempotent windows perm file b :
  LoadBootstrap windows perm file = Ok b ->
  let again := mkBootstrap (boot_Role b) (boot_PSK b) (boot_StateDir b) (boot_DBPath b) (boot_PortalListen b)
                 (boot_Overlay b) (boot_Linker b) (boot_PublicIface b) [] in
  exists b', LoadBootstrap windows perm (Ok (Ok again)) = Ok b' /\
    b' = mkBootstrap (boot_Role b) (boot_PSK b) (boot_StateDir b) (boot_DBPath b) (boot_PortalListen b)
           (boot_Overlay b) (boot_Linker b) (boot_PublicIface b) (boot_warnings windows perm (boot_PSK b)).
Proof.
  intros H. cbv zeta. destruct (LoadBootstrap_ok windows perm file b H) as (Hp & Hpre & Hdir & Hdb & Hl & Ho & Hli).
  eexists. split; [| reflexivity]. unfold LoadBootstrap. cbn [boot_PSK].
  destruct (String.eqb_spec (boot_PSK b) ""); [done |]. rewrite Hpre.
  unfold boot_defaults. cbn [boot_Overlay boot_Role boot_Linker boot_StateDir boot_DBPath boot_PortalListen boot_PublicIface boot_Warnings boot_PSK app].
  rewrite (boot_overlay_fix _ Ho). rewrite !(or_else_same _ _ Hdir), (or_else_same _ _ Hdb), (or_else_same _ _ Hl).
  destruct (String.eqb_spec (boot_Role b) RoleLinker) as [Er|]; [| done].
  by rewrite (boot_linker_fix b (Hli Er)).
Qed.

(** ** Witnesses *)

Definition linker_file : Bootstrap :=
  mkBootstrap "linker" "0123456789abcdef0123456789abcdef" "" "" "" (mkOverlayConfig "" " 10.99.0.2 " "" "10.99.0.5/24" 0 0)
    (mkLinkerInfo 0 " 10.99.0.3" "::ffff:192.168.1.9") "" [].
Definition linker_boot : Bootstrap :=
  mkBootstrap "linker" "0123456789abcdef0123456789abcdef" "/var/lib/failover" "/var/lib/failover/failover.db" "127.0.0.1:8088"
    (mkOverlayConfig "10.99.0.1" "10.99.0.2" "dummy0" "10.99.0.0/24" 51999 51998)
    (mkLinkerInfo 0 "10.99.0.3" "192.168.1.9") "" [OpenFile 416].

Example linker_file_loads : LoadBootstrap false (Some 416) (Ok (Ok linker_file)) = Ok linker_boot.
Proof. vm_compute. reflexivity. Qed.
Example other_files_refused :
  LoadBootstrap false None (Ok (Ok (mkBootstrap "frontend" "CHANGE-ME-now" "" "" "" (boot_Overlay linker_file) (boot_Linker linker_file) "" [])))
    = Err PlaceholderSecret
  /\ LoadBootstrap false None (Ok (Ok (mkBootstrap "linker" "s" "" "" "" (boot_Overlay linker_file) (mkLinkerInfo 254 "10.99.0.3" "192.168.1.9") "" [])))
    = Err (BootBadTable 254)
  /\ LoadBootstrap false None (Ok (Ok (mkBootstrap "linker" "s" "" "" "" (boot_Overlay linker_file) (mkLinkerInfo 0 "10.99.0.2" "192.168.1.9") "" [])))
    = Err (BootTaken "10.99.0.2").
Proof. vm_compute. split_and!; reflexivity. Qed.

Lemma LoadBootstrap_usable_witness :
  LoadBootstrap false (Some 416) (Ok (Ok linker_file)) = Ok linker_boot
  /\ BuildLinkerEgressRuleset ["172.18.0.0/16"; "nonsense"]%string "eth0" (li_OverlayIP (boot_Linker linker_boot))
       (ov_Subnet (boot_Overlay linker_boot)) <> ""%string.
Proof.
  assert (H : LoadBootstrap false (Some 416) (Ok (Ok linker_file)) = Ok linker_boot) by (vm_compute; reflexivity).
  split; [exact H |]. destruct (LoadBootstrap_usable _ _ _ _ H) as (_ & _ & Hl).
  destruct (Hl eq_refl) as (_ & _ & _ & He). apply He; [vm_compute; discriminate | discriminate].
Defined.

Lemma LoadBootstrap_idempotent_witness :
  exists b', LoadBootstrap false (Some 416) (Ok (Ok (mkBootstrap (boot_Role linker_boot) (boot_PSK linker_boot) (boot_StateDir linker_boot)
    (boot_DBPath linker_boot) (boot_PortalListen linker_boot) (boot_Overlay linker_boot) (boot_Linker linker_boot)
    (boot_PublicIface linker_boot) []))) = Ok b' /\ boot_Overlay b' = boot_Overlay linker_boot.
Proof.
  assert (H : LoadBootstrap false (Some 416) (Ok (Ok linker_file)) = Ok linker_boot) by (vm_compute; reflexivity).
  destruct (LoadBootstrap_idempotent _ _ _ _ H) as (b' & E & Eb). exists b'. split; [exact E | by rewrite Eb].
Defined.
