(* ===== verification/LinkerAgent.v ===== *)
(** * The linker's agent ([internal/linker/linker.go])

    What the agent of a linker installs, re-checks and takes out again, over
    the commands of [LinkerRules]: the egress networks the frontend pushes,
    remembered only once the kernel has them; the marking of replies, whose
    rule goes in only behind its table; and the turn of the reconciler. *)

From S2P Require Import Prelude Model Bytes Decimal Text Net Ports Nft Rules Validate ProbeRules Routing LinkerRules LinkerPolicy LinkerRouting Bootstrap.

(** What the agent remembers. *)
Record linkerState := mkLinkerState {
  egressKnown : bool; egressWant : list string; egressHave : list string; egressOK : bool; returnOK : bool }.
#[export] Instance linkerState_eq_dec : EqDecision linkerState.
Proof. solve_decision. Defined.
Definition new_linker : linkerState := mkLinkerState false [] [] false false.

Inductive egress_err :=
| EgNoIface (e : string) | EgNoRoute | EgRule (e : rule_err) | EgNoRuleset | EgLoad (e : rule_err).

Fixpoint equalStrings (a b : list string) : bool :=
  match a, b with
  | [], [] => true
  | x :: a, y :: b => String.eqb x y && equalStrings a b
  | _, _ => false
  end.

Section agent.
Context (boot : Bootstrap).

Let li := boot_Linker boot.
Let tbl := linker_table boot.

(** ** Egress *)

(** [installEgress]: [None] is success. *)
Definition installEgress (usable : list string) : cmds (option egress_err) :=
  if (length usable =? 0)%nat
  then let! _ := RemoveLinkerEgressRuleset (li_BackendLAN li) tbl in Done None
  else
    let! iface := LanIfaceTo (li_BackendLAN li) in
    match iface with
    | Err e => Done (Some (EgNoIface e))
    | Ok iface =>
        if String.eqb iface "" then Done (Some EgNoRoute)
        else
          let! r := EnsureLinkerEgressRule (li_BackendLAN li) tbl in
          match r with
          | Some e => Done (Some (EgRule e))
          | None =>
              let ruleset := BuildLinkerEgressRuleset usable iface (li_OverlayIP li) (ov_Subnet (boot_Overlay boot)) in
              if String.eqb ruleset "" then Done (Some EgNoRuleset)
              else let! r := ApplyLinkerEgressRuleset (boot_StateDir boot) ruleset in Done (EgLoad <$> r)
          end
    end.

(** The three parts of [applyEgress]: what it records before it takes the lock
    of the commands, the work, and what it records of the work. *)
Definition egress_begin (cidrs : list string) (st : linkerState) : linkerState * bool :=
  (mkLinkerState true cidrs (egressHave st) (egressOK st) (returnOK st),
   egressOK st && equalStrings (egressHave st) cidrs).
Definition egress_work (cidrs : list string) : cmds (option egress_err) :=
  let usable := EgressNetworks cidrs in
  if (0 <? length cidrs)%nat && (length usable =? 0)%nat then Done None else installEgress usable.
Definition egress_commit (cidrs : list string) (r : option egress_err) (st : linkerState) : linkerState :=
  match r with
  | Some _ => mkLinkerState (egressKnown st) (egressWant st) (egressHave st) false (returnOK st)
  | None => mkLinkerState (egressKnown st) (egressWant st) cidrs true (returnOK st)
  end.

Definition applyEgress (cidrs : list string) (st : linkerState) : cmds linkerState :=
  let '(st, unchanged) := egress_begin cidrs st in
  if unchanged : bool then Done st
  else let! r := egress_work cidrs in Done (egress_commit cidrs r st).

(** [retryEgress]: what it reads, and the run. *)
Definition egress_pending (st : linkerState) : bool :=
  egressKnown st && negb (egressOK st && equalStrings (egressHave st) (egressWant st)).
Definition retryEgress (st : linkerState) : cmds linkerState :=
  if egress_pending st then applyEgress (egressWant st) st else Done st.

(** ** The return path *)

Definition set_returnOK (st : linkerState) : linkerState :=
  mkLinkerState (egressKnown st) (egressWant st) (egressHave st) (egressOK st) true.

Definition ensureReturnPath (st : linkerState) : cmds linkerState :=
  let returnRules := BuildLinkerReturnRuleset (li_OverlayIP li) in
  if String.eqb returnRules "" then Done st
  else
    let! r := ApplyLinkerReturnRuleset (boot_StateDir boot) returnRules in
    match r with
    | Some _ => Done st
    | None => let! _ := EnsureLinkerMarkRule (li_BackendLAN li) tbl in Done (set_returnOK st)
    end.

(** ** The turns *)

Definition linker_apply (st : linkerState) : cmds linkerState :=
  let! _ := EnsureOverlayAddress (li_OverlayIP li) (ov_Device (boot_Overlay boot)) in
  let! _ := EnsureLinkerRule (li_OverlayIP li) (li_BackendLAN li) tbl in
  let! _ := EnsureLinkerRoute (li_BackendLAN li) tbl in
  let! st := ensureReturnPath st in
  let! _ := RPFilterOn in
  Done st.

Definition linker_reconcile (st : linkerState) : cmds linkerState :=
  let! _ := EnsureOverlayAddress (li_OverlayIP li) (ov_Device (boot_Overlay boot)) in
  let! _ := EnsureLinkerRule (li_OverlayIP li) (li_BackendLAN li) tbl in
  let! st := if returnOK st
             then let! _ := EnsureLinkerMarkRule (li_BackendLAN li) tbl in Done st
             else ensureReturnPath st in
  let! st := retryEgress st in
  let! via := LinkerRouteVia tbl in
  match via with
  | Err _ => Done st
  | Ok via =>
      if String.eqb via (li_BackendLAN li) then Done st
      else let! _ := EnsureLinkerRoute (li_BackendLAN li) tbl in Done st
  end.

Definition linker_Revert : cmds unit :=
  let! _ := RemoveLinkerEgressRuleset (li_BackendLAN li) tbl in
  let! _ := RemoveLinkerReturnRuleset (li_BackendLAN li) tbl in
  RemoveLinkerRouting (li_OverlayIP li) (li_BackendLAN li) tbl.

(** What the agent is asked to do, one after the other: its start, a turn of
    the reconciler, a push. *)
Inductive agent_turn := OpApply | OpReconcile | OpPush (cidrs : list string).
Definition linker_do (o : agent_turn) (st : linkerState) : cmds linkerState :=
  match o with
  | OpApply => linker_apply st
  | OpReconcile => linker_reconcile st
  | OpPush cidrs => applyEgress cidrs st
  end.
Fixpoint agent_turns (os : list agent_turn) (st : linkerState) : cmds linkerState :=
  match os with
  | [] => Done st
  | o :: os => let! st := linker_do o st in agent_turns os st
  end.
End agent.

(** ** Runs, command by command *)

(** The commands of a run, each with the world it meets. *)
Fixpoint calls {W A} (run : runner W) (c : cmds A) (w : W) : list (list string * W) :=
  match c with
  | Done _ => []
  | Exec argv k => (argv, w) :: calls run (k (run argv w).1) (run argv w).2
  end.

(** The runner that keeps a record of what it was asked and answered. *)
Definition history : Type := list (list string * answer).
Definition recorded {W} (run : runner W) : runner (W * history) := fun argv w =>
  ((run argv w.1).1, ((run argv w.1).2, w.2 ++ [(argv, (run argv w.1).1)])).

Section walks.
Context {W : Type} (run : runner W).

(** Every command meets a world [P] allows, and the end is one [Q] does. *)
Fixpoint wp {A} (P : list string -> W -> Prop) (c : cmds A) (Q : A -> W -> Prop) (w : W) : Prop :=
  match c with
  | Done a => Q a w
  | Exec argv k => P argv w /\ wp P (k (run argv w).1) Q (run argv w).2
  end.

Lemma wp_calls {A} P (c : cmds A) Q w : wp P c Q w <->
  Forall (fun call => P call.1 call.2) (calls run c w) /\ Q (execute run c w).1 (execute run c w).2.
Proof.
  revert w. induction c as [a|argv f IH]; intros w; cbn [wp calls].
  - split; [intros H; by split | by intros [_ H]].
  - rewrite IH, execute_exec, Forall_cons. cbn [fst snd]. tauto.
Qed.

Lemma wp_then {A B} P (c : cmds A) (k : A -> cmds B) Q w :
  wp P c (fun a w' => wp P (k a) Q w') w -> wp P (then_ c k) Q w.
Proof. revert w. induction c as [a|argv f IH]; intros w; cbn [wp then_]; [done |]. intros [Hp H]. split; [done |]. by apply IH. Qed.

Lemma wp_mono {A} P (c : cmds A) (Q Q' : A -> W -> Prop) w : (forall a w, Q a w -> Q' a w) -> wp P c Q w -> wp P c Q' w.
Proof. intros HQ. revert w. induction c as [a|argv f IH]; intros w; cbn [wp]; [apply HQ |]. intros [Hp H]. split; [done |]. by apply IH. Qed.

(** A program of commands that are always allowed. *)
Lemma wp_emits {A} E P (c : cmds A) Q w : emits E c -> (forall argv w, E argv -> P argv w) ->
  (Q (execute run c w).1 (execute run c w).2) -> wp P c Q w.
Proof.
  intros He Hp. revert w. induction c as [a|argv f IH]; intros w HQ; cbn [wp]; [done |]. destruct He as [H Hf].
  rewrite execute_exec in HQ. split; [by apply Hp |]. by apply IH.
Qed.

(** The same, with a property of worlds that its commands keep. *)
Lemma wp_keeps {A} E P (I : W -> Prop) (c : cmds A) (Q : A -> W -> Prop) w : emits E c -> I w ->
  (forall argv w, E argv -> I w -> P argv w /\ I (run argv w).2) -> (forall a w, I w -> Q a w) -> wp P c Q w.
Proof.
  intros He Hi HI HQ. revert w Hi. induction c as [a|argv f IH]; intros w Hi; cbn [wp]; [by apply HQ |].
  destruct He as [H Hf]. destruct (HI argv w H Hi) as [Hp Hi']. split; [done |]. by apply IH.
Qed.
End walks.

(** ** What the programs can issue *)

Definition starts_with (prog : string) (argv : list string) : Prop := exists rest, argv = prog :: rest.

Ltac emit_step :=
  first [ done
        | apply emits_then
        | progress intros
        | progress cbv zeta
        | match goal with |- emits _ (match ?x with _ => _ end) => destruct x end
        | match goal with |- emits _ (if ?b then _ else _) => destruct b end
        | match goal with |- emits _ (let '(_, _) := ?p in _) => destruct p end
        | match goal with |- emits _ (Exec _ _) => split end
        | match goal with |- emits _ (ask _) => split end
        | match goal with |- emits _ (ignore _) => split end
        | by eexists ].

Lemma cleanAbandonedTable_ip lan t : emits (starts_with "ip") (cleanAbandonedTable lan t).
Proof. unfold cleanAbandonedTable, showRoutes. repeat emit_step. Qed.
Lemma withdraw_ip mine key value lan s : emits (starts_with "ip") (withdraw mine key value lan s).
Proof. unfold withdraw. pose proof (cleanAbandonedTable_ip lan (sr_table s)). repeat emit_step. Qed.
Lemma withdraw_all_ip mine key value lan l : emits (starts_with "ip") (withdraw_all mine key value lan l).
Proof. induction l as [|s l IH]; [done |]. cbn [withdraw_all]. apply emits_then; [apply withdraw_ip | done]. Qed.
Lemma ensurePinnedRule_ip tbl key value want own lan : emits (starts_with "ip") (ensurePinnedRule tbl key value want own lan).
Proof.
  unfold ensurePinnedRule, listRulesInTable, listRules. repeat (first [apply withdraw_all_ip | emit_step]).
Qed.
Lemma removePinnedRule_ip tbl key value want own lan : emits (starts_with "ip") (removePinnedRule tbl key value want own lan).
Proof.
  unfold removePinnedRule, listRulesInTable, listRules. repeat (first [apply withdraw_all_ip | emit_step]).
Qed.
Lemma EnsureLinkerEgressRule_ip lan tbl : emits (starts_with "ip") (EnsureLinkerEgressRule lan tbl).
Proof.
  unfold EnsureLinkerEgressRule, ensureUnreachableRule, listRules. repeat (first [apply ensurePinnedRule_ip | emit_step]).
Qed.

(** ** Rules before the ruleset *)

(** What is not a command of [ip] leaves the policy database alone. *)
Class LinkerHost {W} (run : runner W) `{HK : !Kernel run, !LinkerKernel run} := {
  lh_quiet prog rest w : prog <> "ip"%string -> k_rules (run (prog :: rest) w).2 = k_rules w }.

(** A refusal of a mark at a priority. *)
Definition refused_at {W} {run : runner W} `{!Kernel run} (mark : string) (pref : Z) (w : W) : Prop :=
  exists r, r ∈ k_rules w /\ refused_view r = Some (mkDeny pref mark).

Section kernel.
Context {W : Type} (run : runner W) `{HK : !Kernel run, HL : !LinkerKernel run}.

Lemma refusal_argv mark pref : deny_rule "add" mark pref = rule_argv "add" (refusal mark pref).
Proof. reflexivity. Qed.

Lemma unreachable_places mark pref w : name_ok mark -> in_i64 pref ->
  let c := ensureUnreachableRule mark pref (listing k_alias (k_rules w)) in
  (execute run c w).1 = None ->
  refused_at mark pref (execute run c w).2 /\ forall r, r ∈ k_rules w -> r ∈ k_rules (execute run c w).2.
Proof.
  intros Hm Hp. cbv zeta. unfold ensureUnreachableRule. rewrite (unreachableRules_listing k_alias k_alias_ok) by apply k_rules_ok.
  case_bool_decide as Hin.
  - intros _. apply list_elem_of_omap in Hin as (r & Hr & E). split; [by exists r | done].
  - unfold ask. cbn [then_]. rewrite execute_exec, refusal_argv. pose proof (k_add (refusal mark pref) w (refusal_ok mark pref Hm Hp)) as L.
    destruct (run _ w) as [[o|e] w']; cbn [fst snd is_ok execute failed] in *; [| done]. intros _. split.
    + exists (refusal mark pref). split; [rewrite L; by left | done].
    + intros r Hr. rewrite L. by right.
Qed.

Definition egress_fit (tbl : Z) : Prop := pinned_fit "fwmark" (hex_text LinkerEgressMark) tbl (LinkerRulePrefBase + 2).

Lemma table_fit tbl mark pref : 0 <= tbl <= MaxInt64 -> in_i64 pref -> pinned_fit "fwmark" (hex_text mark) tbl pref.
Proof.
  intros Ht Hp. split; [by right | | apply hex_text_ok | done | done].
  unfold hex_text. intros H. apply (f_equal (String.get 0)) in H. discriminate H.
Qed.

(** What has to stand before a packet may be marked for egress. *)
Definition egress_guarded (tbl : Z) (w : W) : Prop :=
  placed run "fwmark" (hex_text LinkerEgressMark) tbl (LinkerRulePrefBase + 2) w
  /\ refused_at (hex_text LinkerEgressMark) LinkerEgressDenyRulePref w.

Lemma egress_rule_guards lan tbl w : 0 <= tbl <= MaxInt64 ->
  (execute run (EnsureLinkerEgressRule lan tbl) w).1 = None ->
  egress_guarded tbl (execute run (EnsureLinkerEgressRule lan tbl) w).2.
Proof.
  intros Ht. unfold EnsureLinkerEgressRule. rewrite execute_then.
  destruct (pinned_places run "fwmark" (hex_text LinkerEgressMark) tbl (LinkerRulePrefBase + 2) false lan w) as [Hp _];
    [by apply table_fit |].
  destruct (execute run _ w) as [[e|] w1]; cbn [fst snd] in *; [done |]. specialize (Hp eq_refl).
  unfold listRules, ask. cbn [then_]. rewrite execute_exec. destruct (show_kept run w1) as [[E _] L].
  destruct (run _ w1) as [[all|e] w2]; cbn [fst snd] in *; [| done]. rewrite (L all eq_refl), <- E.
  intros H. apply unreachable_places in H as [Hr Hk]; [| apply hex_text_ok | done]. split; [| done].
  destruct Hp as (r & Hin & H). exists r. split; [apply Hk; by rewrite E | done].
Qed.

Lemma guarded_rules tbl w w' : k_rules w' = k_rules w -> egress_guarded tbl w -> egress_guarded tbl w'.
Proof. intros E [(r & Hr & H) (r' & Hr' & H')]. split; [exists r | exists r']; by rewrite E. Qed.
End kernel.

(** The command that loads a ruleset from a file. *)
Definition load (path : string) : list string := ["nft"; "-f"; path]%string.
Definition return_path (boot : Bootstrap) : string := state_file (boot_StateDir boot) "linker-return.nft".
Definition egress_path (boot : Bootstrap) : string := state_file (boot_StateDir boot) "linker-egress.nft".

Lemma state_file_inj dir a b : state_file dir a = state_file dir b -> a = b.
Proof.
  unfold state_file. intros H. apply (f_equal string_bytes) in H. rewrite !string_bytes_append in H.
  apply app_inv_head in H. change (string_bytes "/") with [47] in H. injection H as H.
  apply (f_equal bytes_string) in H. by rewrite !bytes_string_bytes in H.
Qed.

Definition no_load (path : string) (argv : list string) : Prop := argv <> load path.

Lemma ip_no_load path {A} (c : cmds A) : emits (starts_with "ip") c -> emits (no_load path) c.
Proof. apply emits_mono. by intros argv [rest ->]. Qed.

Ltac no_load_step :=
  first [ apply ip_no_load; first [apply ensurePinnedRule_ip | apply removePinnedRule_ip | apply EnsureLinkerEgressRule_ip]
        | match goal with |- no_load _ _ => discriminate end | emit_step ].

Section agent_runs.
Context (boot : Bootstrap).

Lemma remove_egress_no_load lan tbl path : emits (no_load path) (RemoveLinkerEgressRuleset lan tbl).
Proof. unfold RemoveLinkerEgressRuleset, removeUnreachableRule, delete_table. repeat no_load_step. Qed.

Lemma overlay_no_load ip dev path : emits (no_load path) (EnsureOverlayAddress ip dev).
Proof. unfold EnsureOverlayAddress. repeat no_load_step. Qed.
Lemma rule_no_load ip lan tbl path : emits (no_load path) (EnsureLinkerRule ip lan tbl).
Proof. unfold EnsureLinkerRule. repeat no_load_step. Qed.
Lemma route_no_load lan tbl path : emits (no_load path) (EnsureLinkerRoute lan tbl).
Proof. unfold EnsureLinkerRoute. repeat no_load_step. Qed.
Lemma mark_no_load lan tbl path : emits (no_load path) (EnsureLinkerMarkRule lan tbl).
Proof. unfold EnsureLinkerMarkRule. repeat no_load_step. Qed.

Lemma return_no_load st : emits (no_load (egress_path boot)) (ensureReturnPath boot st).
Proof.
  unfold ensureReturnPath, ApplyLinkerReturnRuleset, applyRuleset, write_file.
  repeat (first [apply mark_no_load | no_load_step]). intros H. injection H as H. by apply state_file_inj in H.
Qed.

Context {W : Type} (run : runner W) `{HK : !Kernel run, HL : !LinkerKernel run, HH : !LinkerHost run}.
Context (Htbl : 0 <= linker_table boot <= MaxInt64).

Definition load_guarded (argv : list string) (w : W) : Prop :=
  argv = load (egress_path boot) -> egress_guarded run (linker_table boot) w.

Lemma wp_no_load {A} (c : cmds A) (Q : A -> W -> Prop) w : emits (no_load (egress_path boot)) c -> (forall a w, Q a w) ->
  wp run load_guarded c Q w.
Proof. intros He HQ. eapply wp_emits; [exact He | by intros argv w' H E | apply HQ]. Qed.

Lemma install_guarded usable w : wp run load_guarded (installEgress boot usable) (fun _ _ => True) w.
Proof.
  unfold installEgress. destruct (_ =? _)%nat.
  { apply wp_then, wp_no_load; [apply remove_egress_no_load | done]. }
  unfold LanIfaceTo. apply wp_then. destruct (String.eqb _ ""); [by cbn |].
  unfold ask. cbn [then_ wp]. split; [done |]. destruct (run _ w).1 as [out|e]; cbn [wp]; [| done].
  destruct (String.eqb (devFrom out) ""); [done |]. set (w1 := (run _ w).2). apply wp_then.
  eapply wp_emits; [apply EnsureLinkerEgressRule_ip | by intros argv w' [rest ->] E |].
  pose proof (egress_rule_guards run (li_BackendLAN (boot_Linker boot)) (linker_table boot) w1 Htbl) as Hg.
  destruct (execute run (EnsureLinkerEgressRule _ _) w1) as [[e|] w2]; cbn [fst snd] in *; [done |]. specialize (Hg eq_refl).
  destruct (String.eqb _ ""); [done |]. apply wp_then. unfold ApplyLinkerEgressRuleset, applyRuleset, write_file, ask. cbn [then_ wp].
  split; [done |]. destruct (run _ w2).1; cbn [wp]; [| done]. split; [| done]. intros _.
  eapply guarded_rules; [| exact Hg]. by apply lh_quiet.
Qed.

Lemma apply_guarded cidrs st w : wp run load_guarded (applyEgress boot cidrs st) (fun _ _ => True) w.
Proof.
  unfold applyEgress, egress_begin. destruct (_ && _); [done |]. apply wp_then. unfold egress_work.
  destruct (_ && _); [done |]. eapply wp_mono; [| apply install_guarded]. done.
Qed.

Lemma run_guarded os st w : wp run load_guarded (agent_turns boot os st) (fun _ _ => True) w.
Proof.
  revert st w. induction os as [|o os IH]; intros st w; [done |]. cbn [agent_turns]. apply wp_then.
  eapply (wp_mono run load_guarded _ (fun _ _ => True)); [intros st' w' _; apply IH |]. destruct o as [| |cidrs]; cbn [linker_do].
  - apply wp_no_load; [| done]. unfold linker_apply, RPFilterOn.
    repeat (first [apply overlay_no_load | apply rule_no_load | apply route_no_load | apply return_no_load | no_load_step]).
  - unfold linker_reconcile. apply wp_then, wp_no_load; [apply overlay_no_load |]. intros _ w1.
    apply wp_then, wp_no_load; [apply rule_no_load |]. intros _ w2. apply wp_then, wp_no_load.
    { repeat (first [apply mark_no_load | apply return_no_load | no_load_step]). }
    intros st1 w3. apply wp_then. unfold retryEgress.
    assert (Hrest : forall (st : linkerState) w, wp (A := linkerState) run load_guarded (let! via := LinkerRouteVia (linker_table boot) in
      match via with Err _ => Done st | Ok via => if String.eqb via (li_BackendLAN (boot_Linker boot)) then Done st
        else let! _ := EnsureLinkerRoute (li_BackendLAN (boot_Linker boot)) (linker_table boot) in Done st end) (fun _ _ => True) w).
    { intros st' w'. apply wp_no_load; [| done]. unfold LinkerRouteVia, showRoutes.
      repeat (first [apply route_no_load | no_load_step]). }
    destruct (egress_pending st1); [| apply Hrest].
    eapply (wp_mono run load_guarded _ (fun _ _ => True)); [intros st' w' _; apply Hrest | apply apply_guarded].
  - apply apply_guarded.
Qed.
End agent_runs.

(** ** The mark rule behind its table *)

Lemma emits_true {A} (c : cmds A) : emits (fun _ => True) c.
Proof. induction c as [a|argv f IH]; cbn; auto. Qed.

(** No command that adds the rule of the return mark. *)
Definition return_mark_add (boot : Bootstrap) : list string :=
  selector_rule "add" "fwmark" (hex_text LinkerReturnMark) (Itoa (linker_table boot)) (LinkerRulePrefBase + 1).
Definition no_mark_add (boot : Bootstrap) (argv : list string) : Prop := argv <> return_mark_add boot.

Ltac no_add_step :=
  first [ match goal with |- no_mark_add _ _ => discriminate end | emit_step ].

Section mark_adds.
Context (boot : Bootstrap).

Lemma clean_no_add lan t : emits (no_mark_add boot) (cleanAbandonedTable lan t).
Proof. unfold cleanAbandonedTable, showRoutes. repeat no_add_step. Qed.
Lemma withdraw_no_add mine key value lan s : emits (no_mark_add boot) (withdraw mine key value lan s).
Proof. unfold withdraw. repeat (first [apply clean_no_add | no_add_step]). Qed.
Lemma withdraws_no_add mine key value lan l : emits (no_mark_add boot) (withdraw_all mine key value lan l).
Proof. induction l as [|s l IH]; [done |]. cbn [withdraw_all]. apply emits_then; [apply withdraw_no_add | done]. Qed.
Lemma pinned_no_add tbl key value want own lan : (key, value) <> ("fwmark", hex_text LinkerReturnMark)%string ->
  emits (no_mark_add boot) (ensurePinnedRule tbl key value want own lan).
Proof.
  intros Hne. unfold ensurePinnedRule, listRulesInTable, listRules.
  repeat (first [apply withdraws_no_add | no_add_step]).
  intros H. unfold selector_rule, return_mark_add in H. injection H as Hk Hv _ _. by apply Hne; rewrite Hk, Hv.
Qed.
Lemma removed_no_add tbl key value want own lan : emits (no_mark_add boot) (removePinnedRule tbl key value want own lan).
Proof.
  unfold removePinnedRule, listRulesInTable, listRules. repeat (first [apply withdraws_no_add | no_add_step]).
Qed.
Lemma egress_work_no_add cidrs : emits (no_mark_add boot) (egress_work boot cidrs).
Proof.
  unfold egress_work, installEgress, RemoveLinkerEgressRuleset, EnsureLinkerEgressRule, LanIfaceTo, ApplyLinkerEgressRuleset,
    applyRuleset, write_file, removeUnreachableRule, ensureUnreachableRule, delete_table, listRules.
  repeat (first [apply removed_no_add | apply pinned_no_add; discriminate | no_add_step]).
Qed.
Lemma overlay_no_add ip dev : emits (no_mark_add boot) (EnsureOverlayAddress ip dev).
Proof. unfold EnsureOverlayAddress. repeat no_add_step. Qed.
Lemma rule_no_add ip lan tbl : emits (no_mark_add boot) (EnsureLinkerRule ip lan tbl).
Proof. unfold EnsureLinkerRule. repeat (first [apply pinned_no_add; discriminate | no_add_step]). Qed.
Lemma route_no_add lan tbl : emits (no_mark_add boot) (EnsureLinkerRoute lan tbl).
Proof. unfold EnsureLinkerRoute. repeat no_add_step. Qed.

Context {W : Type} (run : runner W).

Definition return_loaded (h : history) : Prop := exists out, (load (return_path boot), Ok out) ∈ h.
Definition mark_guarded (argv : list string) (w : W * history) : Prop := argv = return_mark_add boot -> return_loaded w.2.
Definition return_inv (st : linkerState) (w : W * history) : Prop := returnOK st = true -> return_loaded w.2.

Lemma loaded_grows argv w : return_loaded w.2 -> return_loaded (recorded run argv w).2.2.
Proof. intros [out H]. exists out. cbn. apply elem_of_app. by left. Qed.

Lemma wp_loaded {A} (c : cmds A) w : return_loaded w.2 -> wp (recorded run) mark_guarded c (fun _ w' => return_loaded w'.2) w.
Proof.
  intros H. apply (wp_keeps _ (fun _ => True) _ (fun w => return_loaded w.2)); [apply emits_true | done | | done].
  intros argv w' _ Hl. split; [by intros _ | by apply loaded_grows].
Qed.

Lemma wp_no_add {A} (c : cmds A) st w : emits (no_mark_add boot) c -> return_inv st w ->
  wp (recorded run) mark_guarded c (fun _ w' => return_inv st w') w.
Proof.
  intros He Hi. apply (wp_keeps _ (no_mark_add boot) _ (return_inv st)); [done | done | | done].
  intros argv w' Hn Hi'. split; [by intros E | intros Hr; by apply loaded_grows, Hi'].
Qed.

Lemma return_path_inv st w : return_inv st w -> wp (recorded run) mark_guarded (ensureReturnPath boot st) return_inv w.
Proof.
  intros Hi. unfold ensureReturnPath. destruct (String.eqb _ ""); [done |]. unfold ApplyLinkerReturnRuleset, applyRuleset, write_file, ask.
  cbn [then_ wp]. split; [by intros H |]. set (w1 := (recorded run _ w).2). assert (H1 : return_inv st w1) by (intros H; by apply loaded_grows, Hi).
  destruct (recorded run _ w).1 as [o|e]; cbn [wp]; [| done]. split; [by intros H |].
  assert (H2 : return_inv st (recorded run ["nft"; "-f"; state_file (boot_StateDir boot) "linker-return.nft"]%string w1).2)
    by (intros H; by apply loaded_grows, H1).
  destruct (recorded run _ w1) as [[o'|e'] w2] eqn:E; cbn [fst snd failed then_ wp] in *; [| done].
  assert (Hl : return_loaded w2.2).
  { unfold recorded in E. injection E as E1 E2. exists o'. rewrite <- E2, <- E1. cbn. apply elem_of_app. right. by left. }
  apply wp_then. eapply wp_mono; [| by apply wp_loaded]. intros ? w3 Hl3. by intros _.
Qed.

Lemma apply_inv cidrs st w : return_inv st w -> wp (recorded run) mark_guarded (applyEgress boot cidrs st) return_inv w.
Proof.
  intros Hi. unfold applyEgress, egress_begin. destruct (_ && _); [done |]. apply wp_then.
  eapply wp_mono; [| by apply wp_no_add, Hi; apply egress_work_no_add]. intros r w' Hi'. by destruct r.
Qed.

Lemma turn_inv o st w : return_inv st w -> wp (recorded run) mark_guarded (linker_do boot o st) return_inv w.
Proof.
  intros Hi. destruct o as [| |cidrs]; cbn [linker_do]; [| | by apply apply_inv].
  - unfold linker_apply. apply wp_then. eapply wp_mono; [| by apply wp_no_add, Hi; apply overlay_no_add]. intros ? w1 H1.
    apply wp_then. eapply wp_mono; [| by apply wp_no_add, H1; apply rule_no_add]. intros ? w2 H2.
    apply wp_then. eapply wp_mono; [| by apply wp_no_add, H2; apply route_no_add]. intros ? w3 H3.
    apply wp_then. eapply wp_mono; [| by apply return_path_inv]. intros st' w4 H4.
    apply wp_then. eapply wp_mono; [| apply (wp_no_add _ st'); [unfold RPFilterOn; repeat no_add_step | done]]. done.
  - unfold linker_reconcile. apply wp_then. eapply wp_mono; [| by apply wp_no_add, Hi; apply overlay_no_add]. intros ? w1 H1.
    apply wp_then. eapply wp_mono; [| by apply wp_no_add, H1; apply rule_no_add]. intros ? w2 H2.
    apply wp_then. apply (wp_mono _ _ _ return_inv).
    2:{ destruct (returnOK st) eqn:Er; [| by apply return_path_inv]. apply wp_then.
        eapply wp_mono; [| by apply wp_loaded, H2]. intros ? w3 Hl. by intros _. }
    intros st3 w3 H3. apply wp_then. apply (wp_mono _ _ _ return_inv).
    2:{ unfold retryEgress. destruct (egress_pending st3); [by apply apply_inv | done]. }
    intros st4 w4 H4. apply wp_then. eapply wp_mono; [| apply (wp_no_add _ st4); [| done]].
    + intros via w5 H5. destruct via as [via|e]; [| done]. destruct (String.eqb via _); [done |].
      apply wp_then. eapply wp_mono; [| by apply wp_no_add, H5; apply route_no_add]. done.
    + unfold LinkerRouteVia, showRoutes. repeat no_add_step.
Qed.

Lemma run_inv os st w : return_inv st w -> wp (recorded run) mark_guarded (agent_turns boot os st) return_inv w.
Proof.
  revert st w. induction os as [|o os IH]; intros st w Hi; [done |]. cbn [agent_turns]. apply wp_then.
  eapply wp_mono; [| by apply turn_inv]. intros st' w' Hi'. by apply IH.
Qed.
End mark_adds.

(** ** Where commands do not fail *)

(** Files are written, rulesets load, and the backend is reached by some
    interface. *)
Class LinkerUp {W} (run : runner W) `{HK : !Kernel run, HL : !LinkerKernel run, !LinkerReliable run} := {
  lu_write path text w : is_ok (run ["write"; path; text]%string w).1 = true;
  lu_load path w : is_ok (run (load path) w).1 = true;
  lu_get addr w : exists out, (run ["ip"; "route"; "get"; addr]%string w).1 = Ok out /\ devFrom out <> ""%string }.

Lemma EgressNetworks_settled l : Forall (fun c => NetworkLiteral c = c /\ c <> ""%string) (EgressNetworks l).
Proof.
  apply Forall_forall. intros c Hc. unfold EgressNetworks in Hc. apply list_elem_of_filter in Hc as [Hne Hc].
  apply list_elem_of_fmap in Hc as (s & -> & _). split; [| done].
  pose proof (network_settled s) as H. rewrite !ipv4Network_agrees in H. by apply H.
Qed.

Lemma EgressNetworks_idem l : EgressNetworks (EgressNetworks l) = EgressNetworks l.
Proof.
  pose proof (EgressNetworks_settled l) as H. induction H as [|c cs [Ec Hc] _ IH]; [done |].
  unfold EgressNetworks in *. rewrite fmap_cons, Ec, filter_cons_True by done. by f_equal.
Qed.

Section up.
Context {W : Type} (run : runner W) `{HK : !Kernel run, HL : !LinkerKernel run, HR : !LinkerReliable run, HU : !LinkerUp run}.

Lemma wp_any {A} (c : cmds A) (Q : A -> W -> Prop) w : (forall a w, Q a w) -> wp run (fun _ _ => True) c Q w.
Proof. intros HQ. eapply wp_emits; [apply emits_true | done | apply HQ]. Qed.

Lemma wp_execute {A} P (c : cmds A) Q w : wp run P c Q w -> Q (execute run c w).1 (execute run c w).2.
Proof. intros H. by apply wp_calls in H as [_ H]. Qed.

Lemma unreachable_succeeds mark pref w : name_ok mark -> in_i64 pref -> representable (refusal mark pref) ->
  (execute run (ensureUnreachableRule mark pref (listing k_alias (k_rules w))) w).1 = None.
Proof.
  intros Hm Hp Hr. unfold ensureUnreachableRule. rewrite (unreachableRules_listing k_alias k_alias_ok) by apply k_rules_ok.
  case_bool_decide as Hin; [done |]. unfold ask. cbn [then_]. rewrite execute_exec, refusal_argv. cbn [execute fst].
  pose proof (lr_kernel (run := run)) as Hrel.
  pose proof (r_add (refusal mark pref) w (refusal_ok mark pref Hm Hp) Hr) as La.
  destruct (run _ w) as [[o|e] w']; [done |]. assert (H : refusal mark pref ∉ k_rules w); [| by specialize (La H)].
  intros H. apply Hin, list_elem_of_omap. by exists (refusal mark pref).
Qed.

Lemma egress_rule_succeeds lan tbl w : 0 <= tbl <= MaxInt64 -> (execute run (EnsureLinkerEgressRule lan tbl) w).1 = None.
Proof.
  intros Ht. unfold EnsureLinkerEgressRule. rewrite execute_then.
  assert (Hmark : exists n, 0 < n < 4294967296 /\ hex_text LinkerEgressMark = hex_text n) by (by exists LinkerEgressMark).
  destruct (pinned_converges run "fwmark" (hex_text LinkerEgressMark) tbl (LinkerRulePrefBase + 2) false lan w) as [-> _].
  - by apply table_fit.
  - split; [done |]. by intros m [= <-].
  - unfold listRules, ask. cbn [then_]. set (w1 := (execute run _ w).2). rewrite execute_exec.
    pose proof (lr_kernel (run := run)) as Hrel. pose proof (r_show w1) as Hok. destruct (show_kept run w1) as [[E _] L].
    destruct (run _ w1) as [[all|e] w2]; [| done]. cbn [fst snd] in *. rewrite (L all eq_refl), <- E.
    apply unreachable_succeeds; [apply hex_text_ok | done |]. split; [done |]. by intros m [= <-].
Qed.

Context (boot : Bootstrap) (Hboot : linker_settled boot).

Lemma egress_ruleset_some usable iface : EgressNetworks usable <> [] -> iface <> ""%string ->
  BuildLinkerEgressRuleset usable iface (li_OverlayIP (boot_Linker boot)) (ov_Subnet (boot_Overlay boot)) <> ""%string.
Proof.
  intros Hu Hi. destruct Hboot as ([E Hne] & _). unfold BuildLinkerEgressRuleset, linker_egress_table. rewrite E.
  destruct (Nat.eqb_spec (length (EgressNetworks usable)) 0) as [H0|_]; [by apply nil_length_inv in H0 |].
  destruct (String.eqb_spec iface ""); [done |]. destruct (String.eqb_spec (li_OverlayIP (boot_Linker boot)) ""); [done |].
  apply text_of_some.
Qed.

Lemma egress_work_succeeds cidrs w : (execute run (egress_work boot cidrs) w).1 = None.
Proof.
  unfold egress_work. destruct (_ && _); [done |]. unfold installEgress.
  destruct (Nat.eqb_spec (length (EgressNetworks cidrs)) 0) as [_|Hu]; [by rewrite execute_then |].
  destruct Hboot as (_ & [_ Hlan] & _). unfold LanIfaceTo. destruct (String.eqb_spec (li_BackendLAN (boot_Linker boot)) ""); [done |].
  unfold ask. cbn [then_]. rewrite execute_exec. destruct (lu_get (li_BackendLAN (boot_Linker boot)) w) as (out & Ho & Hd).
  rewrite Ho. cbn [then_]. destruct (String.eqb_spec (devFrom out) ""); [done |].
  rewrite execute_then, egress_rule_succeeds by (pose proof (linker_table_range boot Hboot); go_lia).
  destruct (String.eqb_spec (BuildLinkerEgressRuleset (EgressNetworks cidrs) (devFrom out) (li_OverlayIP (boot_Linker boot))
    (ov_Subnet (boot_Overlay boot))) "") as [E|_].
  { apply egress_ruleset_some in E; [done | | done]. rewrite EgressNetworks_idem. intros H. by rewrite H in Hu. }
  set (w1 := (execute run _ _).2). rewrite execute_then. unfold ApplyLinkerEgressRuleset, applyRuleset, write_file, ask. cbn [then_].
  rewrite execute_exec. set (text := BuildLinkerEgressRuleset _ _ _ _). pose proof (lu_write (egress_path boot) text w1) as Hw.
  unfold egress_path in Hw. destruct (run _ w1) as [[o|e] w2]; [| done]. cbn [fst snd]. rewrite execute_exec.
  pose proof (lu_load (egress_path boot) w2) as Hl. unfold load, egress_path in Hl. by destruct (run _ w2) as [[o'|e'] w3].
Qed.

Lemma equalStrings_refl l : equalStrings l l = true.
Proof. induction l as [|s l IH]; [done |]. cbn. by rewrite String.eqb_refl. Qed.

Lemma equalStrings_eq a b : equalStrings a b = true -> a = b.
Proof.
  revert b. induction a as [|x a IH]; intros [|y b]; try done. cbn. intros H. apply andb_true_iff in H as [Hx H].
  apply String.eqb_eq in Hx as ->. by rewrite (IH b H).
Qed.

Lemma apply_settles cidrs st w : let st' := (execute run (applyEgress boot cidrs st) w).1 in
  egressWant st' = cidrs /\ egressHave st' = cidrs /\ egressOK st' = true /\ returnOK st' = returnOK st.
Proof.
  cbv zeta. unfold applyEgress, egress_begin. destruct (egressOK st && equalStrings (egressHave st) cidrs) eqn:E.
  - apply andb_true_iff in E as [Ho He]. apply equalStrings_eq in He. by cbn.
  - rewrite execute_then, egress_work_succeeds. by cbn.
Qed.

Lemma retry_settles st w : egress_pending (execute run (retryEgress boot st) w).1 = false
  /\ egressWant (execute run (retryEgress boot st) w).1 = egressWant st.
Proof.
  unfold retryEgress. destruct (egress_pending st) eqn:Ep; [| by cbn].
  destruct (apply_settles (egressWant st) st w) as (E1 & E2 & E3 & _). split; [| done]. unfold egress_pending.
  rewrite E1, E2, E3, equalStrings_refl. by rewrite andb_false_r.
Qed.

Lemma return_path_keeps st w : let st' := (execute run (ensureReturnPath boot st) w).1 in
  egressKnown st' = egressKnown st /\ egressWant st' = egressWant st /\ egressHave st' = egressHave st /\ egressOK st' = egressOK st.
Proof.
  cbv zeta. apply (wp_execute (fun _ _ => True) _ (fun st' _ => egressKnown st' = egressKnown st /\ egressWant st' = egressWant st
    /\ egressHave st' = egressHave st /\ egressOK st' = egressOK st)).
  unfold ensureReturnPath. destruct (String.eqb _ ""); [done |]. apply wp_then, wp_any. intros [e|] w1; [done |].
  by apply wp_then, wp_any.
Qed.

Lemma return_path_succeeds st w : returnOK (execute run (ensureReturnPath boot st) w).1 = true.
Proof.
  unfold ensureReturnPath. destruct Hboot as ([E Hne] & _).
  assert (Hr : BuildLinkerReturnRuleset (li_OverlayIP (boot_Linker boot)) <> ""%string).
  { unfold BuildLinkerReturnRuleset, linker_return_table. rewrite E.
    destruct (String.eqb_spec (li_OverlayIP (boot_Linker boot)) ""); [done | apply text_of_some]. }
  destruct (String.eqb_spec (BuildLinkerReturnRuleset (li_OverlayIP (boot_Linker boot))) ""); [done |].
  rewrite execute_then. unfold ApplyLinkerReturnRuleset, applyRuleset, write_file, ask. cbn [then_]. rewrite execute_exec.
  pose proof (lu_write (return_path boot) (BuildLinkerReturnRuleset (li_OverlayIP (boot_Linker boot))) w) as Hw.
  unfold return_path in Hw. destruct (run _ w) as [[o|e] w2]; [| done]. cbn [fst snd]. rewrite execute_exec.
  pose proof (lu_load (return_path boot) w2) as Hl. unfold load, return_path in Hl. destruct (run _ w2) as [[o'|e'] w3]; [| done].
  cbn [fst snd failed execute]. by rewrite execute_then.
Qed.

Lemma reconcile_settles st w : let st' := (execute run (linker_reconcile boot st) w).1 in
  egress_pending st' = false /\ egressWant st' = egressWant st /\ returnOK st' = true.
Proof.
  cbv zeta. apply (wp_execute (fun _ _ => True) _ (fun st' _ => egress_pending st' = false /\ egressWant st' = egressWant st /\ returnOK st' = true)).
  unfold linker_reconcile. apply wp_then, wp_any. intros ? w1. apply wp_then, wp_any. intros ? w2. apply wp_then.
  apply (wp_mono run _ _ (fun st1 _ => egressWant st1 = egressWant st /\ returnOK st1 = true)).
  2:{ destruct (returnOK st) eqn:Er.
      - apply wp_then, wp_any. done.
      - apply wp_calls. split; [by apply Forall_true |]. split; [apply return_path_keeps | apply return_path_succeeds]. }
  intros st1 w3 [Ew Er]. apply wp_then.
  apply (wp_mono run _ _ (fun st2 _ => egress_pending st2 = false /\ egressWant st2 = egressWant st /\ returnOK st2 = true)).
  2:{ apply wp_calls. split; [by apply Forall_true |]. destruct (retry_settles st1 w3) as [H1 H2]. split; [done |].
      split; [congruence |]. unfold retryEgress. destruct (egress_pending st1); [| done].
      destruct (apply_settles (egressWant st1) st1 w3) as (_ & _ & _ & H). congruence. }
  intros st2 w4 H. apply wp_then, wp_any. intros [via|e] w5; [| done]. destruct (String.eqb via _); [done |].
  by apply wp_then, wp_any.
Qed.
End up.

(** ** What the agent promises *)

(** [C21] No packet is marked for egress before the rules that catch it stand:
    whenever the egress ruleset is loaded, at the start, on a push or on a
    retry, the lookup of its mark and the refusal behind it are in the policy
    database. *)
Theorem egress_rules_first {W} (run : runner W) `{!Kernel run, !LinkerKernel run, !LinkerHost run}
    windows perm file boot os st w :
  LoadBootstrap windows perm file = Ok boot -> boot_Role boot = RoleLinker ->
  Forall (fun call => call.1 = load (egress_path boot) -> egress_guarded run (linker_table boot) call.2)
    (calls run (agent_turns boot os st) w).
Proof.
  intros Hb Hr. destruct (LoadBootstrap_ok _ _ _ _ Hb) as (_ & _ & _ & _ & _ & _ & Hl).
  pose proof (linker_table_range boot (Hl Hr)) as Ht.
  exact (proj1 (proj1 (wp_calls run _ _ _ w) (run_guarded boot run ltac:(go_lia) os st w))).
Qed.

(** The rule of the return mark never stands on its own: it is only ever added
    after the kernel took the table that sets the mark, and the agent believes
    in the table only then. *)
Theorem return_mark_behind_table {W} (run : runner W) boot os w :
  Forall (fun call => call.1 = return_mark_add boot -> return_loaded boot call.2.2)
    (calls (recorded run) (agent_turns boot os new_linker) (w, []))
  /\ let out := execute (recorded run) (agent_turns boot os new_linker) (w, []) in
     returnOK out.1 = true -> return_loaded boot out.2.2.
Proof.
  apply (wp_calls (recorded run) (mark_guarded boot) (agent_turns boot os new_linker) (return_inv boot)).
  apply run_inv. discriminate.
Qed.

(** A push none of whose networks can be used issues no command, and is not
    tried again. *)
Theorem unusable_push_ignored {W} (run : runner W) boot cidrs st w :
  cidrs <> [] -> EgressNetworks cidrs = [] ->
  let c := applyEgress boot cidrs st in
  issued run c w = [] /\ (execute run c w).2 = w /\ egress_pending (execute run c w).1 = false
  /\ egressWant (execute run c w).1 = cidrs.
Proof.
  intros Hne Hu. cbv zeta. unfold applyEgress, egress_begin.
  destruct (egressOK st && equalStrings (egressHave st) cidrs) eqn:E.
  - cbn [issued execute fst snd egressWant]. unfold egress_pending. cbn [egressKnown egressOK egressHave egressWant].
    by rewrite E.
  - unfold egress_work. rewrite Hu. destruct cidrs as [|c cs]; [done |]. cbn -[equalStrings]. unfold egress_pending.
    cbn [egressKnown egressOK egressHave egressWant]. by rewrite equalStrings_refl.
Qed.

(** Where commands do not fail, one turn of the reconciler installs what a push
    asked for, whatever failed before, and the marking of replies with it. *)
Theorem reconcile_converges {W} (run : runner W) `{!Kernel run, !LinkerKernel run, !LinkerReliable run, !LinkerUp run}
    windows perm file boot st w :
  LoadBootstrap windows perm file = Ok boot -> boot_Role boot = RoleLinker ->
  let st' := (execute run (linker_reconcile boot st) w).1 in
  egress_pending st' = false /\ egressWant st' = egressWant st /\ returnOK st' = true.
Proof.
  intros Hb Hr. destruct (LoadBootstrap_ok _ _ _ _ Hb) as (_ & _ & _ & _ & _ & _ & Hl).
  exact (reconcile_settles run boot (Hl Hr) st w).
Qed.

(** ** The goroutines of the agent

    A push and a retry record what they are about under one lock and install
    it under another; the retry reads what to install in a section of its own
    first. *)

Inductive stage := Idle | Read (want : list string) | Begun (cidrs : list string) | Working (cidrs : list string).
Record race := mkRace { rc_st : linkerState; rc_push : stage; rc_retry : stage; rc_installed : list string }.
Inductive race_op :=
| PushBegin (cidrs : list string) | PushLock | PushDone (r : option egress_err)
| RetryRead | RetryBegin | RetryLock | RetryDone (r : option egress_err).

Definition holds_lock (g : stage) : bool := match g with Working _ => true | _ => false end.
Definition begin_stage (cidrs : list string) (st : linkerState) : linkerState * stage :=
  let '(st, unchanged) := egress_begin cidrs st in (st, if unchanged : bool then Idle else Begun cidrs).
Definition now_installed (cidrs : list string) (r : option egress_err) (old : list string) : list string :=
  match r with None => cidrs | Some _ => old end.

Definition race_do (o : race_op) (s : race) : option race :=
  match o, rc_push s, rc_retry s with
  | PushBegin cidrs, Idle, _ =>
      let '(st, g) := begin_stage cidrs (rc_st s) in Some (mkRace st g (rc_retry s) (rc_installed s))
  | PushLock, Begun cidrs, g =>
      if holds_lock g then None else Some (mkRace (rc_st s) (Working cidrs) g (rc_installed s))
  | PushDone r, Working cidrs, _ =>
      Some (mkRace (egress_commit cidrs r (rc_st s)) Idle (rc_retry s) (now_installed cidrs r (rc_installed s)))
  | RetryRead, _, Idle =>
      Some (mkRace (rc_st s) (rc_push s) (if egress_pending (rc_st s) then Read (egressWant (rc_st s)) else Idle) (rc_installed s))
  | RetryBegin, _, Read want =>
      let '(st, g) := begin_stage want (rc_st s) in Some (mkRace st (rc_push s) g (rc_installed s))
  | RetryLock, g, Begun cidrs =>
      if holds_lock g then None else Some (mkRace (rc_st s) g (Working cidrs) (rc_installed s))
  | RetryDone r, _, Working cidrs =>
      Some (mkRace (egress_commit cidrs r (rc_st s)) (rc_push s) Idle (now_installed cidrs r (rc_installed s)))
  | _, _, _ => None
  end.
Fixpoint race_run (os : list race_op) (s : race) : option race :=
  match os with
  | [] => Some s
  | o :: os => match race_do o s with Some s => race_run os s | None => None end
  end.

(** A retry that read the list before a push and records it after the push puts
    the old list back, for good: nothing is left to retry, and the frontend
    has nothing more to say. *)
Theorem retry_reinstates_old : exists os s,
  race_run os (mkRace new_linker Idle Idle []) = Some s
  /\ rc_push s = Idle /\ rc_retry s = Idle
  /\ omap (fun o => match o with PushBegin cidrs => Some cidrs | _ => None end) os = [["172.18.0.0/16"]; ["172.19.0.0/16"]]%string
  /\ rc_installed s = ["172.18.0.0/16"]%string /\ egressWant (rc_st s) = ["172.18.0.0/16"]%string
  /\ egress_pending (rc_st s) = false.
Proof.
  exists [PushBegin ["172.18.0.0/16"]; PushLock; PushDone (Some EgNoRoute); RetryRead;
          PushBegin ["172.19.0.0/16"]; PushLock; PushDone None; RetryBegin; RetryLock; RetryDone None]%string.
  eexists. split; [vm_compute; reflexivity |]. by vm_compute.
Qed.

(** ** Witnesses *)

#[export] Instance host_kernel_host : LinkerHost host_kernel.
Proof.
  split. intros prog rest w Hp. assert (Hq : String.eqb prog "ip" = false) by (by apply String.eqb_neq).
  destruct rest as [|x [|y rest]]; unfold host_kernel, service; rewrite ?Hq; done.
Qed.

#[export] Instance host_kernel_up : LinkerUp host_kernel.
Proof.
  split; [done | done |]. intros addr w. exists "192.168.1.9 dev eth0 src 192.168.1.20"%string. by split.
Qed.

Lemma linker_boot_loads : LoadBootstrap false (Some 416) (Ok (Ok linker_file)) = Ok linker_boot.
Proof. vm_compute. reflexivity. Qed.

Definition day : list agent_turn := [OpApply; OpPush ["172.18.0.0/16"; "bad"]%string; OpReconcile; OpPush []; OpReconcile].

Lemma egress_rules_first_witness :
  Forall (fun call => call.1 = load (egress_path linker_boot) -> egress_guarded host_kernel (linker_table linker_boot) call.2)
    (calls host_kernel (agent_turns linker_boot day new_linker) moved)
  /\ Exists (fun call => call.1 = load (egress_path linker_boot)) (calls host_kernel (agent_turns linker_boot day new_linker) moved).
Proof.
  split.
  - exact (egress_rules_first host_kernel false (Some 416) _ linker_boot day new_linker moved linker_boot_loads eq_refl).
  - apply (bool_decide_unpack _). vm_compute. reflexivity.
Defined.

Lemma unusable_push_ignored_witness :
  issued host_kernel (applyEgress linker_boot ["fd00::/8"; "lan"]%string new_linker) moved = [].
Proof. apply (unusable_push_ignored host_kernel linker_boot ["fd00::/8"; "lan"]%string new_linker moved); [discriminate | vm_compute; reflexivity]. Defined.

Lemma reconcile_converges_witness :
  let st := mkLinkerState true ["172.18.0.0/16"]%string [] false false in
  egress_pending st = true /\ egress_pending (execute host_kernel (linker_reconcile linker_boot st) moved).1 = false.
Proof.
  cbv zeta. split; [reflexivity |].
  exact (proj1 (reconcile_converges host_kernel false (Some 416) (Ok (Ok linker_file)) linker_boot
    (mkLinkerState true ["172.18.0.0/16"]%string [] false false) moved linker_boot_loads eq_refl)).
Defined.
