(* ===== verification/Plumbing.v ===== *)
(** * What the frontend installs ([applySystemConfig] of [internal/engine/engine.go])

    The commands of a configuration's installation, in the code's order and
    through the runner the code picks for each: the real one for what has to
    work in observe mode, the mode's own for what moves traffic. *)

From S2P Require Import Prelude GoTime Float64 Model Bytes Decimal Text Net Ports Nft Protect Blocklist Rules ProbeRules LinkerRules LinkerAgent Forward Shape.

(** ** The mode's runner *)

(** Files of the state directory are written whatever the mode. *)
Definition is_write (argv : list string) : bool :=
  match argv with prog :: _ => String.eqb prog "write" | [] => false end.
Definition passes (applying : bool) (argv : list string) : bool := applying || read_only argv || is_write argv.

(** A program whose commands go through the runner of the mode: what does not
    pass is answered with nothing said and no error. *)
Fixpoint gate {A} (applying : bool) (c : cmds A) : cmds A :=
  match c with
  | Done a => Done a
  | Exec argv k =>
      if passes applying argv then Exec argv (fun r => gate applying (k r)) else gate applying (k (Ok ""%string))
  end.

(** [applyRuleset] for the tables of [sysx]. *)
Definition ApplyRuleset (stateDir ruleset : string) : cmds (option rule_err) :=
  applyRuleset (state_file stateDir "ruleset.nft") ruleset.
Definition ApplyReturnRuleset (stateDir ruleset : string) : cmds (option rule_err) :=
  applyRuleset (state_file stateDir "return.nft") ruleset.
Definition ApplyEgressRuleset (stateDir ruleset : string) : cmds (option rule_err) :=
  applyRuleset (state_file stateDir "egress.nft") ruleset.
Definition ApplyProtectRuleset (stateDir ruleset : string) : cmds (option rule_err) :=
  applyRuleset (state_file stateDir "protect.nft") ruleset.
Definition ApplyBlocklistRuleset (stateDir ruleset : string) : cmds (option rule_err) :=
  applyRuleset (state_file stateDir "blocklist.nft") ruleset.
Definition ApplyBlocklistElements (stateDir elements : string) : cmds (option rule_err) :=
  applyRuleset (state_file stateDir "blocklist-feed.nft") elements.
Definition RemoveRuleset : cmds unit := delete_table NFTTable.
Definition RemoveReturnRuleset : cmds unit := delete_table NFTReturnTable.
Definition RemoveEgressRuleset : cmds unit := delete_table NFTEgressTable.
Definition RemoveProtectRuleset : cmds unit := delete_table NFTProtectTable.
Definition RemoveBlocklistRuleset : cmds unit := delete_table NFTBlocklistTable.

(** ** What the engine remembers of the kernel *)

Record ProtectCounter := mkProtectCounter { pc_Name : string; pc_Packets : Z; pc_Bytes : Z; pc_Drops : bool }.
Record BlockedSource := mkBlockedSource { bs_Address : string; bs_ExpiresSec : Z }.
Record GeoLockedPort := mkGeoLockedPort { gp_Proto : string; gp_Port : Z; gp_ExpiresSec : Z }.
Record protectSample := mkSample {
  sm_Counters : list ProtectCounter; sm_Blocked : list BlockedSource; sm_Locked : list GeoLockedPort }.
Definition no_sample : protectSample := mkSample [] [] [].

Record frontState := mkFront {
  fs_active : Z; fs_dataPlane : bool;
  fs_qcache : list QueryCacheSpan;          (* the record in the store *)
  fs_protectOn : bool; fs_protectApplied : string; fs_sample : protectSample; fs_blockedTotal : Z;
  fs_feed : feed }.

Definition set_protect (on : bool) (applied : string) (s : protectSample) (st : frontState) : frontState :=
  mkFront (fs_active st) (fs_dataPlane st) (fs_qcache st) on applied s (fs_blockedTotal st) (fs_feed st).
Definition set_feed (f : feed) (st : frontState) : frontState :=
  mkFront (fs_active st) (fs_dataPlane st) (fs_qcache st) (fs_protectOn st) (fs_protectApplied st)
    (fs_sample st) (fs_blockedTotal st) f.
Definition set_published (qcache : list QueryCacheSpan) (st : frontState) : frontState :=
  mkFront (fs_active st) true qcache (fs_protectOn st) (fs_protectApplied st) (fs_sample st)
    (fs_blockedTotal st) (fs_feed st).

Section frontend.
Context {U : Unicode} {FT : FloatText}.
Context (exists_ : string -> bool) (stateDir : string).

(** ** Routes *)

Definition applyActivePath (armed : bool) (cfg : Config) (p : PathConfig) : cmds (option rule_err) :=
  let o := cfg_Overlay cfg in
  let! _ := EnsureControlRoute (RoutePrefix o) (ov_BackendIP o) (ov_FrontendIP o) (path_Iface p) in
  gate armed (SetActivePath (RoutePrefix o) (ov_FrontendIP o) (path_Iface p)).

Definition dropSupersededHostRoute (armed : bool) (cfg : Config) : cmds unit :=
  let o := cfg_Overlay cfg in
  if String.eqb (ov_Subnet o) "" || negb armed then Done tt
  else
    let host := (ov_BackendIP o ++ "/32")%string in
    let! via := RouteVia host 0 in
    match via with
    | Err _ => Done tt
    | Ok via =>
        if String.eqb via "" then Done tt
        else let! _ := gate armed (DeleteRoute host) in Done tt
    end.

(** ** Tables *)

Definition applyEgress (armed : bool) (cfg : Config) : cmds unit :=
  let ruleset := BuildEgressRuleset cfg in
  if String.eqb ruleset "" then
    let! _ := RemoveEgressRuleset in RemoveEgressForwardException
  else
    let! _ := EnsureEgressForwardException (MatchPrefix (cfg_Overlay cfg)) in
    let! _ := gate armed (ApplyEgressRuleset stateDir ruleset) in
    Done tt.

Definition applyProtect (armed : bool) (cfg : Config) (st : frontState) : cmds frontState :=
  let ruleset := BuildProtectRuleset (ProtectSpecFrom cfg) in
  if String.eqb ruleset "" then
    let! _ := RemoveProtectRuleset in
    Done (set_protect false "" no_sample st)
  else if armed && fs_protectOn st && String.eqb (fs_protectApplied st) ruleset then Done st
  else
    let! r := gate armed (ApplyProtectRuleset stateDir ruleset) in
    Done (match r with
          | Some _ => set_protect (fs_protectOn st) "" (fs_sample st) st
          | None =>
              if armed then set_protect true ruleset (fs_sample st) st
              else set_protect (fs_protectOn st) "" (fs_sample st) st
          end).

Definition loadElements (armed : bool) (now : Time) (f : feed) : cmds feed :=
  if negb (bl_On f) || negb armed || (length (bl_Networks f) =? 0)%nat then Done (forgetBlocklistLoadFailure f)
  else
    let elements := RenderBlocklistElements (bl_Elems f) in
    if String.eqb elements "" then Done (forgetBlocklistLoadFailure f)
    else
      let! r := gate armed (ApplyBlocklistElements stateDir elements) in
      Done (match r with Some _ => with_failure now true f | None => forgetBlocklistLoadFailure f end).

Definition applyFeed (armed : bool) (now : Time) (cfg : Config) (f : feed) : cmds feed :=
  let bl := cfg_Blocklist cfg in
  let ruleset := BuildBlocklistRuleset
    (mkBlocklistSpec (blc_Enabled bl) (fe_PublicIface (cfg_Frontend cfg)) (blc_Exceptions bl)) in
  if String.eqb ruleset "" then
    let! _ := RemoveBlocklistRuleset in Done (forgetBlocklistTable f)
  else if armed && bl_On f && String.eqb (bl_Applied f) ruleset then Done f
  else
    let! r := gate armed (ApplyBlocklistRuleset stateDir ruleset) in
    match r with
    | Some _ => Done (with_rules (bl_On f) "" (bl_Counter f) f)
    | None =>
        if armed then loadElements armed now (with_rules true ruleset 0 f)
        else Done (with_rules (bl_On f) "" (bl_Counter f) f)
    end.

(** ** Queues *)

Fixpoint applyShaping (armed : bool) (ps : list PathConfig) : cmds unit :=
  match ps with
  | [] => Done tt
  | p :: ps =>
      if negb (exists_ (path_Iface p)) then applyShaping armed ps
      else
        let! _ := gate armed (EnsureQdisc (path_Iface p) (shape_ToBackendMbit (path_Shape p))) in
        applyShaping armed ps
  end.

Definition reconcileShaping (armed : bool) (p : PathConfig) : cmds unit :=
  if fle (shape_ToBackendMbit (path_Shape p)) fzero then Done tt
  else let! _ := gate armed (EnsureQdisc (path_Iface p) (shape_ToBackendMbit (path_Shape p))) in Done tt.

(** ** The installation *)

(** The control channel's route before any decision: the first tunnel that
    exists. *)
Fixpoint seed_control (cfg : Config) (ps : list PathConfig) : cmds unit :=
  match ps with
  | [] => Done tt
  | p :: ps =>
      if exists_ (path_Iface p) then
        let o := cfg_Overlay cfg in
        let! _ := EnsureControlRoute (RoutePrefix o) (ov_BackendIP o) (ov_FrontendIP o) (path_Iface p) in
        Done tt
      else seed_control cfg ps
  end.

(** [meta_ok] says whether the store took the record of the redirected ports. *)
Definition applySystemConfig (armed meta_ok : bool) (now : Time) (cfg : Config) (st : frontState) : cmds frontState :=
  let o := cfg_Overlay cfg in
  let! _ := EnsureOverlayAddress (ov_FrontendIP o) (ov_Device o) in
  let! _ := EnsureSysctls (path_Iface <$> cfg_Paths cfg) in
  let! _ := EnsureProbeRoutes exists_ (cfg_Paths cfg) (ov_BackendIP o) (ov_FrontendIP o) in
  let! _ := (if fs_active st =? 0 then seed_control cfg (cfg_Paths cfg) else Done tt) in
  let! _ := match PathByID cfg (fs_active st) with
            | Some p => applyActivePath armed cfg p
            | None => Done None
            end in
  let! _ := dropSupersededHostRoute armed cfg in
  let! r := EnsureForwardExceptions (MatchPrefix o) in
  let! _ := match r with Some _ => Done false | None => ForwardIsBlocked end in
  let! r := gate armed (ApplyRuleset stateDir (BuildRuleset cfg)) in
  let st := match r with
            | Some _ => st
            | None =>
                if armed then set_published (if meta_ok : bool then QueryCachePorts cfg else fs_qcache st) st else st
            end in
  let! _ := applyEgress armed cfg in
  let! st := applyProtect armed cfg st in
  let! f := applyFeed armed now cfg (fs_feed st) in
  let! _ := applyShaping armed (cfg_Paths cfg) in
  Done (set_feed f st).

(** ** The repairs *)

Fixpoint reconcile_paths (armed : bool) (cfg : Config) (ps : list PathConfig) : cmds unit :=
  match ps with
  | [] => Done tt
  | p :: ps =>
      if negb (exists_ (path_Iface p)) then reconcile_paths armed cfg ps
      else
        let o := cfg_Overlay cfg in
        let! _ := RPFilterOff (path_Iface p) in
        let! _ := reconcileShaping armed p in
        let! via := RouteVia (ov_BackendIP o ++ "/32") (path_Table p) in
        let! _ := match via with
                  | Err _ => Done None
                  | Ok via =>
                      if String.eqb via (path_Iface p) then Done None
                      else EnsureProbeRoute p (ov_BackendIP o) (ov_FrontendIP o)
                  end in
        reconcile_paths armed cfg ps
  end.

(** A route read back, and put right where it is not the one wanted. *)
Definition repair (via : answer) (iface : string) (fix_ : cmds (option rule_err)) : cmds (option rule_err) :=
  match via with
  | Err _ => Done None
  | Ok via => if String.eqb via iface then Done None else fix_
  end.

Definition reconcileRouting (armed reverted : bool) (cfg : Config) (active : Z) : cmds unit :=
  let o := cfg_Overlay cfg in
  if reverted then Done tt
  else
    let! _ := reconcile_paths armed cfg (cfg_Paths cfg) in
    match PathByID cfg active with
    | None => Done tt
    | Some ap =>
        if negb (exists_ (path_Iface ap)) then Done tt
        else
          let! via := RouteVia (RoutePrefix o) ControlTable in
          let! _ := repair via (path_Iface ap)
                      (EnsureControlRoute (RoutePrefix o) (ov_BackendIP o) (ov_FrontendIP o) (path_Iface ap)) in
          if negb armed then Done tt
          else
            let! via := RouteVia (RoutePrefix o) 0 in
            let! _ := repair via (path_Iface ap)
                        (gate armed (SetActivePath (RoutePrefix o) (ov_FrontendIP o) (path_Iface ap))) in
            dropSupersededHostRoute armed cfg
    end.
End frontend.

(** ** The gate *)

(** The runner of the mode: [sysx.ExecRunner], or [sysx.DryRunner] around it. *)
Definition mode_runner {W} (applying : bool) (run : runner W) : runner W := fun argv w =>
  if passes applying argv then run argv w else (Ok ""%string, w).

Lemma mode_dry {W} (run : runner W) argv w : is_write argv = false -> mode_runner false run argv w = DryRunner run argv w.
Proof. intros H. unfold mode_runner, passes, DryRunner. rewrite H, orb_false_r. done. Qed.

Lemma gate_execute {W A} (run : runner W) applying (c : cmds A) w :
  execute run (gate applying c) w = execute (mode_runner applying run) c w.
Proof.
  revert w. induction c as [a|argv k IH]; intros w; [done |]. cbn [gate execute]. unfold mode_runner.
  destruct (passes applying argv); cbn [execute]; [| apply IH]. destruct (run argv w). apply IH.
Qed.

Lemma gate_passes {A} applying (c : cmds A) : emits (fun argv => passes applying argv = true) (gate applying c).
Proof.
  induction c as [a|argv k IH]; [done |]. cbn [gate]. destruct (passes applying argv) eqn:E; [| apply IH].
  split; [done | intros r; apply IH].
Qed.

Lemma gate_emits {A} P applying (c : cmds A) : emits P c -> emits P (gate applying c).
Proof.
  induction c as [a|argv k IH]; [done |]. intros [Hp Hk]. cbn [gate].
  destruct (passes applying argv); [split; [done | intros r; by apply IH] | by apply IH].
Qed.

(** Armed, the gate is not there. *)
Lemma gate_open {W A} (run : runner W) (c : cmds A) w :
  execute run (gate true c) w = execute run c w /\ worlds run (gate true c) w = worlds run c w
  /\ issued run (gate true c) w = issued run c w.
Proof.
  revert w. induction c as [a|argv k IH]; intros w; [done |]. cbn [gate passes orb execute worlds issued].
  destruct (run argv w) as [r w']. destruct (IH r w') as (-> & -> & ->). done.
Qed.

(** ** What moves traffic *)

(** A ruleset loaded, a queue changed, a route of the main table written or
    taken out. *)
Definition moves_traffic (argv : list string) : bool :=
  match argv with
  | prog :: verb :: rest =>
      if String.eqb prog "nft" then String.eqb verb "-f"
      else if String.eqb prog "tc" then negb (read_only argv)
      else if String.eqb prog "ip" then
        String.eqb verb "route"
        && match rest with v :: rest => negb (String.eqb v "" || IPReadVerb v) && negb (existsb (String.eqb "table") rest) | [] => false end
      else false
  | _ => false
  end.
Definition still (argv : list string) : Prop := moves_traffic argv = false.

(** A file to load is not taken for a listing. *)
Definition no_listing (argv : list string) : Prop := forall rest, argv = "nft" :: "-f" :: rest -> read_only argv = false.

Lemma closed_still {A} (c : cmds A) : emits no_listing c -> emits still (gate false c).
Proof.
  intros Hc. induction c as [a|argv k IH]; [done |]. destruct Hc as [Hl Hk]. cbn [gate].
  destruct (passes false argv) eqn:H; [| by apply IH]. split; [| intros r; by apply IH]. clear IH Hk.
  unfold still, moves_traffic. destruct argv as [|prog [|verb rest]]; [done.. |]. unfold passes in H. cbn [orb] in H.
  destruct (String.eqb_spec prog "nft") as [->|_].
  { destruct (String.eqb_spec verb "-f") as [->|_]; [| done]. by rewrite (Hl rest) in H. }
  destruct (String.eqb_spec prog "tc") as [->|_]; [by rewrite orb_false_r in H; rewrite H |].
  destruct (String.eqb_spec prog "ip") as [->|_]; [| done]. destruct (String.eqb_spec verb "route") as [->|_]; [| done].
  destruct rest as [|v rest]; [done |]. rewrite orb_false_r in H. cbn in H.
  unfold IPReadVerb in *. cbn [String.eqb Ascii.eqb Bool.eqb andb]. by rewrite H.
Qed.

(** ** What only plumbs

    The commands of what is installed for real in observe mode too. *)
Inductive plumbing : list string -> Prop :=
| pl_rule rest : plumbing ("ip" :: "rule" :: rest)%string
| pl_addrs rest : plumbing ("ip" :: "-o" :: rest)%string
| pl_addr rest : plumbing ("ip" :: "addr" :: rest)%string
| pl_link rest : plumbing ("ip" :: "link" :: rest)%string
| pl_sysctl rest : plumbing ("sysctl" :: rest)%string
| pl_nft verb rest : verb <> "-f"%string -> plumbing ("nft" :: verb :: rest)%string
| pl_show rest : plumbing ("ip" :: "route" :: "show" :: rest)%string
| pl_route dst iface src t : plumbing ["ip"; "route"; "replace"; dst; "dev"; iface; "src"; src; "table"; t]%string
| pl_unroute dst t : plumbing ["ip"; "route"; "del"; dst; "table"; t]%string.

Lemma plumbing_still argv : plumbing argv -> still argv.
Proof.
  intros [rest|rest|rest|rest|rest|verb rest Hv|rest|d i s t|d t]; unfold still, moves_traffic; try done; cbn -[String.eqb IPReadVerb].
  - by destruct rest.
  - by apply String.eqb_neq.
  - change (String.eqb "table" "table") with true. cbn [orb]. by rewrite !orb_true_r.
  - change (String.eqb "table" "table") with true. cbn [orb]. by rewrite !orb_true_r.
Qed.

Create HintDb plumbs discriminated.
#[export] Hint Constants Opaque : plumbs.
Ltac plumbing_cmd :=
  match goal with |- plumbing _ => first [by constructor | by apply pl_nft] end.
Ltac plumbs := repeat (first [solve [auto with plumbs nocore] | plumbing_cmd | emit_step]).

Lemma sweep_plumbs {K} del (l : list K) : (forall k, plumbing (del k)) -> emits plumbing (sweep del l).
Proof. intros H. apply emits_sweep. auto. Qed.
Lemma pin_plumbs want found rule : (forall verb k, plumbing (rule verb k)) -> emits plumbing (pin want found rule).
Proof.
  intros H. unfold pin. case_bool_decide.
  - apply emits_then; [by apply sweep_plumbs | done].
  - cbn. split; [apply H |]. intros [|]; [| done]. apply emits_then; [by apply sweep_plumbs | done].
Qed.
Lemma mark_rule_plumbs verb m t k : plumbing (mark_rule verb m t k).
Proof. constructor. Qed.
Lemma deny_rule_plumbs verb m k : plumbing (deny_rule verb m k).
Proof. constructor. Qed.
Lemma source_rule_plumbs verb m t k : plumbing (source_rule verb m t k).
Proof. constructor. Qed.
#[export] Hint Resolve sweep_plumbs pin_plumbs mark_rule_plumbs deny_rule_plumbs source_rule_plumbs : plumbs.

Lemma routes_plumb args : emits plumbing (showRoutes args).
Proof. unfold showRoutes. plumbs. Qed.
#[export] Hint Resolve routes_plumb : plumbs.
Lemma RouteVia_plumbs dst t : emits plumbing (RouteVia dst t).
Proof. unfold RouteVia. plumbs. Qed.
Lemma listRules_plumb : emits plumbing listRules.
Proof. unfold listRules. plumbs. Qed.
Lemma listRulesInTable_plumb t : emits plumbing (listRulesInTable t).
Proof. unfold listRulesInTable. plumbs. Qed.
#[export] Hint Resolve RouteVia_plumbs listRules_plumb listRulesInTable_plumb : plumbs.

Lemma overlay_address_plumbs ip dev : emits plumbing (EnsureOverlayAddress ip dev).
Proof. unfold EnsureOverlayAddress. plumbs. Qed.
Lemma rp_filters_plumb ifaces : emits plumbing (rp_filters_off ifaces).
Proof. induction ifaces; cbn [rp_filters_off]; plumbs. Qed.
#[export] Hint Resolve rp_filters_plumb : plumbs.
Lemma sysctls_plumb ifaces : emits plumbing (EnsureSysctls ifaces).
Proof. unfold EnsureSysctls. plumbs. Qed.
Lemma rp_filter_plumbs iface : emits plumbing (RPFilterOff iface).
Proof. unfold RPFilterOff. plumbs. Qed.

Lemma probe_rules_plumb p all : emits plumbing (ensureProbeRules p all).
Proof. unfold ensureProbeRules. plumbs. Qed.
Lemma probe_route_only_plumbs p d s : emits plumbing (ensureProbeRouteOnly p d s).
Proof. unfold ensureProbeRouteOnly. plumbs. Qed.
#[export] Hint Resolve overlay_address_plumbs sysctls_plumb rp_filter_plumbs probe_rules_plumb probe_route_only_plumbs : plumbs.
Lemma probe_route_plumbs p d s : emits plumbing (EnsureProbeRoute p d s).
Proof. unfold EnsureProbeRoute. plumbs. Qed.
Lemma probe_paths_plumb ex ps all d s : forall problems, emits plumbing (probe_paths ex ps all d s problems).
Proof. induction ps as [|p ps IH]; intros problems; cbn [probe_paths]; [done |]. unfold probe_path. plumbs; apply IH. Qed.
#[export] Hint Resolve probe_route_plumbs probe_paths_plumb : plumbs.
Lemma probe_routes_plumb ex ps d s : emits plumbing (EnsureProbeRoutes ex ps d s).
Proof. unfold EnsureProbeRoutes, sweep_denies. plumbs. Qed.
Lemma control_route_plumbs r b f i : emits plumbing (EnsureControlRoute r b f i).
Proof. unfold EnsureControlRoute, old_control_rule, del_route. plumbs. Qed.

Lemma delete_lines_plumb gone ls : emits plumbing (delete_lines gone ls).
Proof. induction ls as [|l ls IH]; cbn [delete_lines]; plumbs. Qed.
Lemma insert_missing_plumbs out c rules : emits plumbing (insert_missing out c rules).
Proof. induction rules as [|r rules IH]; cbn [insert_missing]; unfold insert_rule; plumbs. Qed.
#[export] Hint Resolve probe_routes_plumb control_route_plumbs delete_lines_plumb insert_missing_plumbs : plumbs.
Lemma forward_plumbs p : emits plumbing (EnsureForwardExceptions p).
Proof. unfold EnsureForwardExceptions, dropStaleForwardRules. plumbs. Qed.
Lemma overlay_forward_plumbs p : emits plumbing (EnsureOverlayForwardExceptions p).
Proof. unfold EnsureOverlayForwardExceptions, dropStaleForwardRules. plumbs. Qed.
Lemma egress_forward_plumbs p : emits plumbing (EnsureEgressForwardException p).
Proof. unfold EnsureEgressForwardException, dropStaleForwardRules. plumbs. Qed.
Lemma remove_forward_plumbs c : emits plumbing (removeCommentedForwardRules c).
Proof. unfold removeCommentedForwardRules. plumbs. Qed.
Lemma blocked_plumbs : emits plumbing ForwardIsBlocked.
Proof. unfold ForwardIsBlocked. plumbs. Qed.
Lemma delete_table_plumbs name : emits plumbing (delete_table name).
Proof. unfold delete_table. plumbs. Qed.
#[export] Hint Resolve forward_plumbs overlay_forward_plumbs egress_forward_plumbs remove_forward_plumbs blocked_plumbs delete_table_plumbs : plumbs.

(** ** Observe mode *)

Lemma state_file_not_list dir name : String.eqb (state_file dir name) "list" = false.
Proof.
  apply String.eqb_neq. intros H. assert (Hin : 47 ∈ string_bytes (state_file dir name)).
  { unfold state_file. rewrite !string_bytes_append. change (string_bytes "/") with [47]. set_solver. }
  rewrite H in Hin. vm_compute in Hin. set_solver.
Qed.

Lemma load_not_listing dir name : no_listing (load (state_file dir name)).
Proof.
  intros rest _. unfold load, read_only, isReadOnly. cbn -[String.eqb state_file String.prefix].
  change (String.eqb "nft" "wg") with false. change (String.eqb "nft" "ip") with false.
  change (String.eqb "nft" "tc") with false. change (String.eqb "nft" "nft") with true. cbn [orb].
  unfold nftVerb. cbn [skip_options]. change (String.prefix "-" "-f") with true. cbv iota.
  destruct (String.prefix "-" (state_file dir name)); [done | apply state_file_not_list].
Qed.

Lemma other_not_listing prog rest : prog <> "nft"%string -> no_listing (prog :: rest).
Proof. intros H rest' [= E]. done. Qed.

Lemma apply_still dir name text : emits still (gate false (applyRuleset (state_file dir name) text)).
Proof.
  apply closed_still. unfold applyRuleset, write_file, ask. cbn [then_]. split; [by apply other_not_listing |].
  intros [|]; cbn [then_]; [| done]. split; [apply load_not_listing | done].
Qed.

Lemma qdisc_still `{Unicode} `{FloatText} i m : emits still (gate false (EnsureQdisc i m)).
Proof.
  apply closed_still. unfold EnsureQdisc, qdiscInfo, RemoveQdisc. cbv zeta.
  repeat (first [by apply other_not_listing | emit_step]).
Qed.

Lemma plumbs_still {A} (c : cmds A) : emits plumbing c -> emits still c.
Proof. apply emits_mono, plumbing_still. Qed.

Section observe.
Context {U : Unicode} {FT : FloatText}.
Context (exists_ : string -> bool) (stateDir : string).

Create HintDb still discriminated.
#[local] Hint Constants Opaque : still.
#[local] Hint Extern 3 (emits still _) => apply plumbs_still; solve [auto with plumbs nocore] : still.
#[local] Hint Resolve apply_still qdisc_still : still.
Ltac stills := repeat (first [solve [auto with still nocore] | emit_step]).

Lemma shaping_still ps : emits still (applyShaping exists_ false ps).
Proof. induction ps as [|p ps IH]; cbn [applyShaping]; stills. Qed.

Lemma active_path_still cfg p : emits still (applyActivePath false cfg p).
Proof.
  unfold applyActivePath. cbv zeta. apply emits_then; [stills |]. intros _. apply closed_still.
  unfold SetActivePath. repeat (first [by apply other_not_listing | emit_step]).
Qed.

Lemma egress_still cfg : emits still (applyEgress stateDir false cfg).
Proof. unfold applyEgress, RemoveEgressRuleset, RemoveEgressForwardException, ApplyEgressRuleset. stills. Qed.
Lemma protect_still cfg st : emits still (applyProtect stateDir false cfg st).
Proof. unfold applyProtect, RemoveProtectRuleset, ApplyProtectRuleset. stills. Qed.
Lemma feed_still now cfg f : emits still (applyFeed stateDir false now cfg f).
Proof.
  unfold applyFeed, RemoveBlocklistRuleset, ApplyBlocklistRuleset, loadElements, ApplyBlocklistElements. cbv zeta.
  cbn [andb]. stills.
Qed.
Lemma seed_still cfg ps : emits still (seed_control exists_ cfg ps).
Proof. induction ps as [|p ps IH]; cbn [seed_control]; stills. Qed.
#[local] Hint Resolve shaping_still active_path_still egress_still protect_still feed_still seed_still : still.

Lemma reconcile_shaping_still p : emits still (reconcileShaping false p).
Proof. unfold reconcileShaping. stills. Qed.
#[local] Hint Resolve reconcile_shaping_still : still.
Lemma reconcile_paths_still cfg ps : emits still (reconcile_paths exists_ false cfg ps).
Proof. induction ps as [|p ps IH]; cbn [reconcile_paths]; stills. Qed.
#[local] Hint Resolve reconcile_paths_still : still.

(** [C23] Observe mode moves nothing: whatever the host answers, neither an
    installation nor a turn of the repairs loads a ruleset, changes a queue, or
    writes or takes out a route of the main table. *)
Theorem observe_moves_nothing meta_ok now cfg st reverted active :
  emits still (applySystemConfig exists_ stateDir false meta_ok now cfg st)
  /\ emits still (reconcileRouting exists_ false reverted cfg active).
Proof.
  split.
  - unfold applySystemConfig, dropSupersededHostRoute, ApplyRuleset. cbv zeta. rewrite orb_true_r. stills.
  - unfold reconcileRouting, repair. stills.
Qed.
End observe.

(** ** A healthy host *)

(** A program that only reads, and what it makes of what it reads. *)
Definition reads {W A} (run : runner W) (w : W) (c : cmds A) (a : A) : Prop :=
  execute run c w = (a, w) /\ Forall (fun argv => read_only argv = true) (issued run c w).

Lemma reads_then {W A B} (run : runner W) w (c : cmds A) (k : A -> cmds B) a b :
  reads run w c a -> reads run w (k a) b -> reads run w (then_ c k) b.
Proof.
  intros [H1 H2] [H3 H4]. split; [by rewrite execute_then, H1 |]. rewrite issued_then, H1. by apply Forall_app.
Qed.
Lemma reads_done {W A} (run : runner W) w (a : A) : reads run w (Done a) a.
Proof. by split; [| constructor]. Qed.
Lemma reads_exec {W A} (run : runner W) w argv (k : answer -> cmds A) r a :
  read_only argv = true -> run argv w = (r, w) -> reads run w (k r) a -> reads run w (Exec argv k) a.
Proof. intros Ho Hr [H1 H2]. split; cbn [execute issued]; rewrite Hr; [done | by constructor]. Qed.

(** What only reads passes the gate. *)
Lemma gate_reads {W A} (run : runner W) applying (c : cmds A) w :
  Forall (fun argv => read_only argv = true) (issued run c w) ->
  execute run (gate applying c) w = execute run c w /\ issued run (gate applying c) w = issued run c w.
Proof.
  revert w. induction c as [a|argv k IH]; intros w; [done |]. cbn [gate execute issued].
  destruct (run argv w) as [r w'] eqn:E. intros H. apply Forall_cons in H as [Ho H]. unfold passes.
  rewrite Ho, orb_true_r. cbn [orb execute issued]. rewrite E. destruct (IH r w' H) as [-> ->]. done.
Qed.

Lemma reads_gate {W A} (run : runner W) w applying (c : cmds A) a :
  reads run w c a -> reads run w (gate applying c) a.
Proof. unfold reads. intros [H1 H2]. destruct (gate_reads run applying c w H2) as [E1 E2]. by rewrite E1, E2. Qed.

Section healthy.
Context {U : Unicode} {FT : FloatText}.
Context (exists_ : string -> bool) {W : Type} (run : runner W) (w : W).

(** The route to a destination in a table leaves by an interface. *)
Definition route_seen (dst : string) (table : Z) (iface : string) : Prop :=
  exists out, run (["ip"; "route"; "show"; dst]%string ++ if 0 <? table then ["table"; Itoa table]%string else []) w = (Ok out, w)
    /\ devFrom out = iface.
Definition filter_off (iface : string) : Prop :=
  exists out, run ["sysctl"; "-n"; rpFilterKey iface]%string w = (Ok out, w) /\ TrimSpace out = "0"%string.
Definition queue_seen (iface : string) (mbit : float64) : Prop :=
  exists out, run (show_qdisc iface) w = (Ok out, w)
    /\ let q := read_lines (lines out) in qr_kind q = ShapeQdisc /\ qr_ours q = true /\ sameRate (qr_rate q) mbit = true.

(** Everything is where the configuration puts it. *)
Record healthy (armed : bool) (cfg : Config) (active : Z) : Prop := {
  hl_paths p : p ∈ cfg_Paths cfg -> exists_ (path_Iface p) = true ->
    filter_off (path_Iface p)
    /\ route_seen (ov_BackendIP (cfg_Overlay cfg) ++ "/32") (path_Table p) (path_Iface p)
    /\ (fle (shape_ToBackendMbit (path_Shape p)) fzero = false -> queue_seen (path_Iface p) (shape_ToBackendMbit (path_Shape p)));
  hl_active p : PathByID cfg active = Some p -> exists_ (path_Iface p) = true ->
    route_seen (RoutePrefix (cfg_Overlay cfg)) ControlTable (path_Iface p)
    /\ (armed = true -> route_seen (RoutePrefix (cfg_Overlay cfg)) 0 (path_Iface p)
        /\ (ov_Subnet (cfg_Overlay cfg) <> ""%string -> route_seen (ov_BackendIP (cfg_Overlay cfg) ++ "/32") 0 "")) }.

Lemma RouteVia_reads dst table iface : route_seen dst table iface -> reads run w (RouteVia dst table) (Ok iface).
Proof.
  intros (out & Hr & <-). unfold RouteVia, showRoutes, ask. cbn [then_ app].
  eapply (reads_exec run w _ _ (Ok out)); [done | exact Hr | apply reads_done].
Qed.

Lemma RPFilterOff_reads iface : filter_off iface -> reads run w (RPFilterOff iface) (Ok false).
Proof.
  intros (out & Hr & Ht). unfold RPFilterOff, ask. cbn [then_]. cbv zeta.
  eapply reads_exec; [done | exact Hr |]. cbn. rewrite Ht. apply reads_done.
Qed.

Lemma EnsureQdisc_reads iface mbit : fle mbit fzero = false -> queue_seen iface mbit ->
  exists r, reads run w (EnsureQdisc iface mbit) r.
Proof.
  intros Hm (out & Hr & Hk & Ho & Hs). unfold EnsureQdisc, qdiscInfo, ask.
  destruct (String.eqb iface ""); [eexists; apply reads_done |]. exists (Ok false).
  cbn [then_]. eapply reads_exec; [done | exact Hr |]. cbn. rewrite Hm, Hk, Ho, Hs. apply reads_done.
Qed.

Lemma reconcile_shaping_reads armed p :
  (fle (shape_ToBackendMbit (path_Shape p)) fzero = false -> queue_seen (path_Iface p) (shape_ToBackendMbit (path_Shape p))) ->
  reads run w (reconcileShaping armed p) tt.
Proof.
  intros H. unfold reconcileShaping. destruct (fle _ fzero) eqn:E; [apply reads_done |].
  destruct (EnsureQdisc_reads _ _ E (H eq_refl)) as [r Hr]. eapply reads_then; [by apply reads_gate | apply reads_done].
Qed.

Lemma reconcile_paths_reads armed cfg active ps : healthy armed cfg active -> ps ⊆ cfg_Paths cfg ->
  reads run w (reconcile_paths exists_ armed cfg ps) tt.
Proof.
  intros [Hp _]. induction ps as [|p ps IH]; intros Hs; cbn [reconcile_paths]; [apply reads_done |].
  assert (Hrest : reads run w (reconcile_paths exists_ armed cfg ps) tt) by (apply IH; set_solver).
  destruct (exists_ (path_Iface p)) eqn:E; cbn [negb]; [| exact Hrest].
  destruct (Hp p) as (Hf & Hr & Hq); [set_solver | done |].
  eapply reads_then; [by apply RPFilterOff_reads |]. eapply reads_then; [by apply reconcile_shaping_reads |].
  eapply reads_then; [by apply RouteVia_reads |]. cbv iota beta. rewrite String.eqb_refl.
  eapply reads_then; [apply reads_done | exact Hrest].
Qed.

Lemma drop_host_reads armed cfg :
  (armed = true -> ov_Subnet (cfg_Overlay cfg) <> ""%string -> route_seen (ov_BackendIP (cfg_Overlay cfg) ++ "/32") 0 "") ->
  reads run w (dropSupersededHostRoute armed cfg) tt.
Proof.
  intros H. unfold dropSupersededHostRoute. cbv zeta. destruct (String.eqb_spec (ov_Subnet (cfg_Overlay cfg)) "") as [_|Hs]; [apply reads_done |].
  destruct armed; cbn [negb orb]; [| apply reads_done]. eapply reads_then; [apply RouteVia_reads; by apply H | apply reads_done].
Qed.

Lemma repair_reads iface fix_ : reads run w (repair (Ok iface) iface fix_) None.
Proof. unfold repair. rewrite String.eqb_refl. apply reads_done. Qed.

(** A turn of the repairs on a host where everything is in place only reads,
    and leaves the host as it is. *)
Theorem reconcile_healthy_quiet armed reverted cfg active : healthy armed cfg active ->
  (execute run (reconcileRouting exists_ armed reverted cfg active) w).2 = w
  /\ Forall (fun argv => read_only argv = true) (issued run (reconcileRouting exists_ armed reverted cfg active) w).
Proof.
  intros Hh. cut (reads run w (reconcileRouting exists_ armed reverted cfg active) tt); [by intros [-> H] |].
  unfold reconcileRouting. destruct reverted; [apply reads_done |]. cbv zeta.
  eapply reads_then; [by eapply reconcile_paths_reads |]. destruct Hh as [_ Ha].
  destruct (PathByID cfg active) as [p|]; [| apply reads_done].
  destruct (exists_ (path_Iface p)) eqn:E; cbn [negb]; [| apply reads_done]. destruct (Ha p eq_refl E) as [Hc Hm].
  eapply reads_then; [by apply RouteVia_reads |]. eapply reads_then; [apply repair_reads |].
  destruct armed; cbn [negb]; [| apply reads_done]. destruct (Hm eq_refl) as [Hr Hd].
  eapply reads_then; [by apply RouteVia_reads |]. eapply reads_then; [apply repair_reads |]. by apply drop_host_reads.
Qed.
End healthy.

(** ** The queues of all paths *)

Section shaping.
Context {U : Unicode} {FT : FloatText}.
Context (exists_ : string -> bool) {W : Type} (run : runner W) `{HK : !QueueKernel run, HR : !QueueReliable run}.

Definition path_rate (p : PathConfig) : float64 := shape_ToBackendMbit (path_Shape p).
Definition live (ps : list PathConfig) : list PathConfig := filter (fun p => exists_ (path_Iface p) = true) ps.

(** A tunnel that is there, at a rate the kernel prints back. *)
Definition shapeable (w : W) (p : PathConfig) : Prop :=
  path_Iface p <> ""%string /\ is_Some (qk_queue w (path_Iface p))
  /\ (fle (path_rate p) fzero = false -> qk_prints (run := run) (path_rate p)).

Lemma applyShaping_cons p ps w : exists_ (path_Iface p) = true ->
  let w1 := (execute run (EnsureQdisc (path_Iface p) (path_rate p)) w).2 in
  execute run (applyShaping exists_ true (p :: ps)) w = execute run (applyShaping exists_ true ps) w1
  /\ issued run (applyShaping exists_ true (p :: ps)) w
     = issued run (EnsureQdisc (path_Iface p) (path_rate p)) w ++ issued run (applyShaping exists_ true ps) w1.
Proof.
  intros E. cbn [applyShaping]. rewrite E. cbn [negb]. rewrite execute_then, issued_then.
  destruct (gate_open run (EnsureQdisc (path_Iface p) (path_rate p)) w) as (E1 & _ & E3).
  unfold path_rate in *. by rewrite E1, E3.
Qed.

Lemma applyShaping_skip p ps : exists_ (path_Iface p) = false -> applyShaping exists_ true (p :: ps) = applyShaping exists_ true ps.
Proof. intros E. cbn [applyShaping]. by rewrite E. Qed.

Lemma live_cons p ps : live (p :: ps) = if exists_ (path_Iface p) then p :: live ps else live ps.
Proof. unfold live. rewrite filter_cons. case_decide as H; [by rewrite H | by destruct (exists_ _)]. Qed.

Lemma shaping_others ps w j : j ∉ path_Iface <$> live ps ->
  qk_queue (execute run (applyShaping exists_ true ps) w).2 j = qk_queue w j.
Proof.
  revert w. induction ps as [|p ps IH]; intros w Hj; [done |]. rewrite live_cons in Hj.
  destruct (exists_ (path_Iface p)) eqn:E; [| rewrite applyShaping_skip by done; by apply IH].
  cbn in Hj. apply not_elem_of_cons in Hj as [Hne Hj]. destruct (applyShaping_cons p ps w E) as [-> _].
  rewrite IH by done. by apply ensure_others.
Qed.

Lemma shaping_quiet ps w : Forall (fun p => path_Iface p <> ""%string /\ is_Some (qk_queue w (path_Iface p))
    /\ at_rest run w (path_Iface p) (path_rate p)) (live ps) ->
  issued run (applyShaping exists_ true ps) w = (fun p => show_qdisc (path_Iface p)) <$> live ps.
Proof.
  revert w. induction ps as [|p ps IH]; intros w H; [done |]. rewrite live_cons in *.
  destruct (exists_ (path_Iface p)) eqn:E; [| rewrite applyShaping_skip by done; by apply IH].
  apply Forall_cons in H as [(Hi & Hq & Hr) H]. destruct (applyShaping_cons p ps w E) as [_ ->].
  destruct (at_rest_issues run (path_Iface p) (path_rate p) w Hi Hr) as [-> _]. cbn. f_equal. apply IH.
  assert (Hsame : forall j, qk_queue (execute run (EnsureQdisc (path_Iface p) (path_rate p)) w).2 j = qk_queue w j).
  { intros j. destruct (decide (j = path_Iface p)) as [->|Hne]; [| by apply ensure_others].
    pose proof (EnsureQdisc_step run (path_Iface p) (path_rate p) w Hi) as Hs. pose proof (show_reads run (path_Iface p) w) as Hd.
    pose proof (listing_keeps run (path_Iface p) w (path_Iface p)) as Hk. destruct (run _ w) as [[out|e] w1]; cbn in Hs, Hd, Hk; destruct Hs as (-> & _ & _); [| done].
    by rewrite (Hd out eq_refl), at_rest_idle. }
  eapply Forall_impl; [exact H |]. intros q (H1 & H2 & H3). rewrite Hsame. split_and!; [done.. |].
  eapply at_rest_same; [apply Hsame | done].
Qed.

(** One installation brings the queue of every tunnel that is there to its
    rate, touches no other interface, and the next one only lists. *)
Theorem shaping_settles ps w :
  NoDup (path_Iface <$> live ps) -> Forall (shapeable w) (live ps) ->
  let w' := (execute run (applyShaping exists_ true ps) w).2 in
  Forall (fun p => at_rest run w' (path_Iface p) (path_rate p)) (live ps)
  /\ (forall j, j ∉ path_Iface <$> live ps -> qk_queue w' j = qk_queue w j)
  /\ issued run (applyShaping exists_ true ps) w' = (fun p => show_qdisc (path_Iface p)) <$> live ps.
Proof.
  intros Hnd Hw. cbv zeta.
  assert (H : Forall (fun p => path_Iface p <> ""%string /\ is_Some (qk_queue (execute run (applyShaping exists_ true ps) w).2 (path_Iface p))
      /\ at_rest run (execute run (applyShaping exists_ true ps) w).2 (path_Iface p) (path_rate p)) (live ps)).
  { revert w Hw. induction ps as [|p ps IH]; intros w Hw; [constructor |]. rewrite live_cons in *.
    destruct (exists_ (path_Iface p)) eqn:E; [| rewrite applyShaping_skip by done; by apply IH].
    cbn in Hnd. apply NoDup_cons in Hnd as [Hp Hnd]. apply Forall_cons in Hw as [(Hi & Hq & Hm) Hw].
    destruct (applyShaping_cons p ps w E) as [-> _]. set (w1 := (execute run (EnsureQdisc _ _) w).2).
    assert (H1 : at_rest run w1 (path_Iface p) (path_rate p)).
    { pose proof (shape_settles run (path_Iface p) (path_rate p) w Hi Hq Hm) as H. unfold w1. destruct (execute run _ w). apply H. }
    assert (H2 : is_Some (qk_queue w1 (path_Iface p))) by by apply ensure_keeps_queue.
    constructor.
    - rewrite shaping_others by done. split_and!; [done.. |]. eapply at_rest_same; [by apply shaping_others | done].
    - apply IH; [done |]. rewrite Forall_forall in *. intros q Hin. destruct (Hw q Hin) as (Q1 & Q2 & Q3).
      split_and!; [done | | done]. unfold w1. rewrite ensure_others; [done |]. intros Eq. apply Hp. rewrite <- Eq. by apply list_elem_of_fmap_2. }
  split_and!.
  - eapply Forall_impl; [exact H |]. by intros p (_ & _ & ?).
  - intros j Hj. by apply shaping_others.
  - apply shaping_quiet. exact H.
Qed.
End shaping.

(** ** The protection table and the record of it *)

(** What the readback finds. *)
Inductive protect_read := ReadOk (s : protectSample) (total : Z) | ReadFailed (missing : bool).

Definition sample_feed (r : readback) (f : feed) : feed :=
  match r with
  | Found c => with_rules true (bl_Applied f) c f
  | Missing => forgetBlocklistTable f
  | Unreadable => with_rules (bl_On f) "" (bl_Counter f) f
  end.

(** [recent]: the portal was asked for a status a moment ago. *)
Definition sampleProtect (recent : bool) (bl : readback) (r : protect_read) (cfg : Config) (st : frontState) : frontState :=
  let on := fs_protectOn st || protect_Enabled (cfg_Protect cfg) in
  let blEnabled := blc_Enabled (cfg_Blocklist cfg) in
  if negb on && negb blEnabled then st
  else if negb recent then st
  else
    let st := if blEnabled then set_feed (sample_feed bl (fs_feed st)) st else st in
    if negb on then st
    else match r with
         | ReadFailed missing => set_protect (if missing then false else fs_protectOn st) "" no_sample st
         | ReadOk s total =>
             mkFront (fs_active st) (fs_dataPlane st) (fs_qcache st) true (fs_protectApplied st) s total (fs_feed st)
         end.

(** One table, the file it is loaded from, and the commands on them: a file is
    loaded whole or not at all. *)
Class TableKernel {W} (run : runner W) (path name : string) := {
  tb_file : W -> option string;
  tb_table : W -> option string;
  tb_write text w : let '(a, w') := run ["write"; path; text]%string w in
    tb_table w' = tb_table w /\ (is_ok a = true -> tb_file w' = Some text);
  tb_load w : let '(a, w') := run (load path) w in
    tb_table w' = if is_ok a then tb_file w else tb_table w;
  tb_delete w : let '(a, w') := run ["nft"; "delete"; "table"; "ip"; name]%string w in
    tb_table w' = if is_ok a then None else tb_table w }.

Section protect.
Context {U : Unicode} (stateDir : string) {W : Type} (run : runner W).
Context `{HK : !TableKernel run (state_file stateDir "protect.nft") NFTProtectTable}.

Lemma apply_table text w :
  let '(r, w') := execute run (ApplyProtectRuleset stateDir text) w in
  match r with None => tb_table w' = Some text | Some _ => tb_table w' = tb_table w end.
Proof.
  unfold ApplyProtectRuleset, applyRuleset, write_file, ask. cbn [then_]. rewrite execute_exec.
  pose proof (tb_write (run := run) text w) as H. destruct (run _ w) as [[o|e] w1]; cbn [fst snd then_ execute] in *; [| apply H].
  destruct H as [H1 H2]. pose proof (tb_load (run := run) w1) as H. unfold load in H. destruct (run _ w1) as [[o'|e] w2]; cbn in *.
  - rewrite H. by apply H2.
  - by rewrite H.
Qed.

(** What the engine does about the table, one thing after the other: an
    installation, a readback, a revert. *)
Inductive protect_turn :=
| TurnApply (armed : bool) (cfg : Config)
| TurnSample (recent : bool) (bl : readback) (r : protect_read) (cfg : Config)
| TurnRevert.

Definition protect_do (t : protect_turn) (x : frontState * W) : frontState * W :=
  match t with
  | TurnApply armed cfg => execute run (applyProtect stateDir armed cfg x.1) x.2
  | TurnSample recent bl r cfg => (sampleProtect recent bl r cfg x.1, x.2)
  | TurnRevert => (set_protect false "" no_sample x.1, (execute run RemoveProtectRuleset x.2).2)
  end.
Definition protect_turns (ts : list protect_turn) (x : frontState * W) : frontState * W := fold_left (fun x t => protect_do t x) ts x.

(** The record of a loaded ruleset is what the kernel has. *)
Definition record_true (x : frontState * W) : Prop :=
  fs_protectApplied x.1 <> ""%string -> tb_table x.2 = Some (fs_protectApplied x.1).

Lemma sample_applied recent bl r cfg st :
  fs_protectApplied (sampleProtect recent bl r cfg st) = fs_protectApplied st
  \/ fs_protectApplied (sampleProtect recent bl r cfg st) = ""%string.
Proof. unfold sampleProtect. cbv zeta. repeat case_match; cbn; auto. Qed.

Lemma apply_record armed cfg st w : record_true (st, w) ->
  record_true (execute run (applyProtect stateDir armed cfg st) w).
Proof.
  unfold record_true. cbn [fst snd]. intros H. unfold applyProtect. cbv zeta.
  destruct (String.eqb (BuildProtectRuleset _) ""); [rewrite execute_then; cbn; done |].
  destruct (armed && _ && _) eqn:E; [exact H |]. rewrite execute_then.
  destruct armed.
  - rewrite (proj1 (gate_open run _ _)). pose proof (apply_table (BuildProtectRuleset (ProtectSpecFrom cfg)) w) as Ha.
    destruct (execute run _ w) as [[e|] w']; cbn in *; [done |]. by intros _.
  - destruct (execute run (gate false _) w) as [[e|] w']; by cbn.
Qed.

Lemma turn_record t x : record_true x -> record_true (protect_do t x).
Proof.
  destruct x as [st w]. destruct t as [armed cfg|recent bl r cfg|]; intros H; cbn [protect_do fst snd].
  - by apply apply_record.
  - unfold record_true in *. cbn [fst snd] in *. destruct (sample_applied recent bl r cfg st) as [->| ->]; done.
  - unfold record_true. by cbn.
Qed.

Lemma turns_record ts : forall x, record_true x -> record_true (protect_turns ts x).
Proof. induction ts as [|t ts IH]; intros x H; [done |]. apply (IH (protect_do t x)). by apply turn_record. Qed.

(** [C24] The protection table is what the configuration asks.  After any turns of a
    process that has nothing on record at first (or has forgotten it, as after
    a readback that failed), an armed installation of [cfg] that renders rules
    ends with them in the kernel, or with nothing on record because a command
    was refused; and it leaves a table alone exactly when the record says it is
    the same one. *)
Theorem protect_in_sync ts st0 w0 cfg : fs_protectApplied st0 = ""%string ->
  let r := BuildProtectRuleset (ProtectSpecFrom cfg) in
  let '(st, w) := protect_turns ts (st0, w0) in
  let '(st', w') := execute run (applyProtect stateDir true cfg st) w in
  r <> ""%string ->
  (fs_protectApplied st' = r /\ fs_protectOn st' = true /\ tb_table w' = Some r
   \/ fs_protectApplied st' = ""%string /\ tb_table w' = tb_table w
      /\ (execute run (ApplyProtectRuleset stateDir r) w).1 <> None)
  /\ (issued run (applyProtect stateDir true cfg st) w = []
      <-> fs_protectOn st = true /\ fs_protectApplied st = r).
Proof.
  intros H0. cbv zeta. set (r := BuildProtectRuleset _).
  assert (Hr : record_true (protect_turns ts (st0, w0))) by (apply turns_record; intros H; by destruct (H H0)).
  destruct (protect_turns ts (st0, w0)) as [st w]. unfold record_true in Hr. cbn [fst snd] in Hr.
  pose proof (apply_table r w) as Ha. unfold applyProtect. fold r. cbv zeta. cbn [andb].
  destruct (String.eqb_spec r "") as [Er|Er].
  { destruct (execute run (let! _ := RemoveProtectRuleset in _) w). intros ?. done. }
  destruct (fs_protectOn st && String.eqb (fs_protectApplied st) r) eqn:E.
  - apply andb_true_iff in E as [E1 E2]. apply String.eqb_eq in E2. cbn [execute issued]. intros _. split; [left | done].
    split_and!; [done.. |]. rewrite <- E2. apply Hr. by rewrite E2.
  - rewrite execute_then, issued_then. rewrite !(proj1 (gate_open run _ _)), (proj2 (proj2 (gate_open run _ _))).
    destruct (execute run (ApplyProtectRuleset stateDir r) w) as [[e|] w'] eqn:Ex; cbn [fst snd execute issued].
    + intros _. split; [right; by split_and! |]. split; [| intros [H1 H2]; rewrite H1, H2, String.eqb_refl in E; done].
      unfold ApplyProtectRuleset, applyRuleset, write_file, ask. cbn [then_ issued]. by destruct (run _ w).
    + intros _. split; [left; by split_and! |]. split; [| intros [H1 H2]; rewrite H1, H2, String.eqb_refl in E; done].
      unfold ApplyProtectRuleset, applyRuleset, write_file, ask. cbn [then_ issued]. by destruct (run _ w).
Qed.
End protect.

(** The commands on the feed's table have the effects [Blocklist] gives them,
    whatever the commands answer. *)
Theorem feed_program_agrees {U : Unicode} stateDir {W} (run : runner W) now cfg (h : host) w :
  h_cfg h = cfg_Blocklist cfg -> h_iface h = fe_PublicIface (cfg_Frontend cfg) ->
  exists o, ao_Now o = now
    /\ (execute run (applyFeed stateDir (h_armed h) now cfg (h_feed h)) w).1 = h_feed (applyBlocklist o h).
Proof.
  intros Hc Hi. unfold applyFeed, applyBlocklist. rewrite Hc, Hi. cbv zeta.
  set (r := BuildBlocklistRuleset _). destruct (String.eqb r "").
  { exists (mkApply false false false now). split; [done |]. rewrite execute_then. cbn. by destruct (_ && _). }
  destruct (h_armed h && bl_On (h_feed h) && String.eqb (bl_Applied (h_feed h)) r); [by exists (mkApply false false false now) |].
  rewrite execute_then. destruct (execute run (gate (h_armed h) _) w) as [[e|] w1] eqn:E; cbn [fst snd].
  { exists (mkApply false false false now). split; [done |]. by destruct (h_armed h). }
  destruct (h_armed h) eqn:Ea; [| by exists (mkApply false false false now)].
  unfold loadElements, loadBlocklistElements. cbn [negb orb]. cbv zeta.
  set (f := with_rules true r 0 (h_feed h)).
  assert (Hn : (length (bl_Networks f) =? 0)%nat = bool_decide (bl_Networks (h_feed h) = [])).
  { cbn. by destruct (bl_Networks (h_feed h)). }
  rewrite Hn. clear Hn.
  exists (mkApply false true (bool_decide ((execute run (ApplyBlocklistElements stateDir (RenderBlocklistElements (bl_Elems f))) w1).1 = None)) now).
  split; [done |]. cbn [ao_Table ao_Load ao_Now]. unfold load_elements. cbn -[RenderBlocklistElements execute ApplyBlocklistElements gate].
  rewrite Ea. cbn [negb orb]. fold f. case_bool_decide as Hb; [done |].
  change (bl_Elems (h_feed h)) with (bl_Elems f). destruct (String.eqb (RenderBlocklistElements (bl_Elems f)) ""); [done |].
  rewrite execute_then, (proj1 (gate_open run _ _)).
  destruct (execute run (ApplyBlocklistElements stateDir _) w1) as [[e|] w2]; cbn [fst snd execute].
  - by rewrite bool_decide_false by done.
  - by rewrite bool_decide_true by done.
Qed.

(** ** Witnesses *)

#[local] Existing Instance AsciiUnicode.

Definition lte (id : Z) (iface : string) (mbit : Z) : PathConfig :=
  mkPathConfig id iface iface id (100 + id) (256 + id) true true no_quota (mkShapeConfig (f64_of_Z mbit) fzero).
(** The operator's own queue is on the first tunnel, this system's on the
    second, which is not to be shaped any more. *)
Definition demo_paths : list PathConfig := [lte 2 "wg-lte1" 18; lte 3 "wg-lte2" 0].

Lemma shaping_settles_witness :
  let w' := (execute host_tc (applyShaping (fun _ => true) true demo_paths) demo_host).2 in
  Forall (fun p => at_rest host_tc w' (path_Iface p) (path_rate p)) demo_paths
  /\ issued host_tc (applyShaping (fun _ => true) true demo_paths) w' = [show_qdisc "wg-lte1"; show_qdisc "wg-lte2"].
Proof.
  assert (Hnd : NoDup (path_Iface <$> live (fun _ => true) demo_paths)).
  { cbn. apply NoDup_cons. split; [set_solver | apply NoDup_singleton]. }
  assert (Hw : Forall (shapeable host_tc demo_host) (live (fun _ => true) demo_paths)).
  { change (live (fun _ => true) demo_paths) with demo_paths.
    apply Forall_cons. split; [| apply Forall_singleton]; (split; [done |]; split; [by eexists; vm_compute |]).
    - intros _. split; [apply (bool_decide_unpack _); by vm_compute | by repeat split; vm_compute].
    - intros H. vm_compute in H. discriminate H. }
  pose proof (shaping_settles (fun _ => true) host_tc demo_paths demo_host Hnd Hw) as (H1 & _ & H3). split; [exact H1 | exact H3].
Defined.

(** A host with one tunnel, where everything is in place. *)
Definition calm_host : gmap string queue := {[ "wg-lte1"%string := cake_queue "18mbit" ]}.
Definition calm : runner (gmap string queue) := fun argv w =>
  if String.eqb (nth 0 argv "")%string "tc" then host_tc argv w
  else if String.eqb (nth 0 argv "")%string "sysctl" then (Ok "0"%string, w)
  else (Ok "10.99.0.2 dev wg-lte1 scope link src 10.99.0.1"%string, w).
Definition calm_site : Config :=
  mkConfig "armed" (mkFrontendConfig "eth0" "203.0.113.7" true) (cfg_Overlay Defaults) [lte 2 "wg-lte1" 18]
    (cfg_Probe Defaults) (cfg_Failover Defaults) [] [] "" (cfg_Egress Defaults)
    (cfg_Notify Defaults) sample_protect (mkQueryCacheConfig true 1000 5000) (cfg_Blocklist Defaults).

Lemma reconcile_healthy_quiet_witness :
  (execute calm (reconcileRouting (fun _ => true) true false calm_site 2) calm_host).2 = calm_host
  /\ Forall (fun argv => read_only argv = true) (issued calm (reconcileRouting (fun _ => true) true false calm_site 2) calm_host).
Proof.
  apply (reconcile_healthy_quiet (fun _ => true) calm calm_host). split.
  - intros p Hp _. apply list_elem_of_singleton in Hp as ->. split_and!.
    + by exists "0"%string.
    + eexists. by split; [reflexivity | vm_compute].
    + intros _. eexists. split; [reflexivity | by vm_compute].
  - intros p Hp _. injection Hp as <-. split; [eexists; by split; [reflexivity | vm_compute] |].
    intros _. split; [eexists; by split; [reflexivity | vm_compute] | by intros []].
Defined.

(** A host that keeps one table and the file it is loaded from. *)
Definition one_table (path name : string) : runner (option string * option string) := fun argv w =>
  if decide (argv = ["write"; path; nth 2 argv ""])%string then (Ok ""%string, (Some (nth 2 argv ""%string), w.2))
  else if decide (argv = load path) then
    match w.1 with Some _ => (Ok ""%string, (w.1, w.1)) | None => (Err "No such file or directory"%string, w) end
  else if decide (argv = ["nft"; "delete"; "table"; "ip"; name])%string then (Ok ""%string, (w.1, None))
  else (Ok ""%string, w).

#[export] Instance one_table_kernel path name : TableKernel (one_table path name) path name.
Proof.
  refine {| tb_file := fst; tb_table := snd |}.
  - intros text w. unfold one_table. cbn [nth]. by rewrite decide_True.
  - intros w. unfold one_table, load. rewrite decide_False, decide_True by done. by destruct w as [[f|] t].
  - intros w. unfold one_table, load. rewrite !decide_False by done. by rewrite decide_True.
Defined.

(** Armed, then a save of the same rules after a readback that failed. *)
Definition fresh_front : frontState := mkFront 0 false [] false "" no_sample 0 emptyFeed.
Lemma protect_in_sync_witness :
  let path := state_file "/var/lib/failover" "protect.nft" in
  let r := BuildProtectRuleset (ProtectSpecFrom calm_site) in
  let '(st, w) := protect_turns "/var/lib/failover" (one_table path NFTProtectTable)
      [TurnApply true calm_site; TurnSample true Unreadable (ReadFailed false) calm_site] (fresh_front, (None, None)) in
  let '(st', w') := execute (one_table path NFTProtectTable) (applyProtect "/var/lib/failover" true calm_site st) w in
  fs_protectApplied st' = r /\ w'.2 = Some r
  /\ (issued (one_table path NFTProtectTable) (applyProtect "/var/lib/failover" true calm_site st) w = []
      <-> fs_protectOn st = true /\ fs_protectApplied st = r).
Proof.
  cbv zeta.
  pose proof (protect_in_sync "/var/lib/failover" (one_table (state_file "/var/lib/failover" "protect.nft") NFTProtectTable)
    [TurnApply true calm_site; TurnSample true Unreadable (ReadFailed false) calm_site] fresh_front (None, None) calm_site eq_refl) as H.
  cbv zeta in H. destruct (protect_turns _ _ _ _) as [st w]. destruct (execute _ _ w) as [st' w'].
  assert (Hr : BuildProtectRuleset (ProtectSpecFrom calm_site) <> ""%string) by (vm_compute; discriminate).
  destruct (H Hr) as [[(E1 & E2 & E3)|(E1 & E2 & E3)] Hi]; [by split_and! |].
  exfalso. apply E3. unfold ApplyProtectRuleset, applyRuleset, write_file, ask. cbn [then_]. rewrite execute_exec.
  unfold one_table at 1 2. cbn [nth fst snd]. rewrite decide_True by done. cbn [fst snd then_]. rewrite execute_exec.
  unfold one_table, load. rewrite decide_False, decide_True by done. done.
Defined.

Lemma feed_program_agrees_witness :
  let h := mkHost emptyFeed (cfg_Blocklist calm_site) "eth0" false true None None [] in
  exists o, ao_Now o = 0
    /\ (execute calm (applyFeed "/var/lib/failover" true 0 calm_site emptyFeed) calm_host).1 = h_feed (applyBlocklist o h).
Proof.
  apply (feed_program_agrees "/var/lib/failover" calm 0 calm_site
    (mkHost emptyFeed (cfg_Blocklist calm_site) "eth0" false true None None []) calm_host); reflexivity.
Defined.
