(* ===== verification/Backend.v ===== *)
(** * What the backend installs ([internal/agent/agent.go])

    The commands of a pushed configuration, of the repairs and of the revert,
    and the copy of the configuration a restart starts from.  [Agent] has the
    decisions; this file has the rest of the host. *)

From S2P Require Import Prelude Float64 Model Messages Bytes Decimal Text Net Ports Nft Rules ProbeRules LinkerRules LinkerPolicy LinkerRouting LinkerAgent Bootstrap Forward Shape Plumbing.

(** A path as the commands take one. *)
Definition plain_path (p : PathInfo) : PathConfig :=
  mkPathConfig (pinfo_ID p) (pinfo_Name p) (pinfo_Iface p) 0 (pinfo_Table p) (pinfo_Mark p) false false no_quota no_shape.

Definition applying (cfg : BackendConfig) : bool := String.eqb (bc_Mode cfg) ModeArmed.

(** [runnerFor], through [mode_runner]. *)
Definition runnerFor {W} (mode : string) (run : runner W) : runner W := mode_runner (String.eqb mode ModeArmed) run.

(** ** What it runs on *)

Definition Overlay (boot : Bootstrap) (pushed : option BackendConfig) : OverlayConfig :=
  let ov := boot_Overlay boot in
  match pushed with
  | None => ov
  | Some cfg =>
      let o := bc_Overlay cfg in
      mkOverlayConfig
        (if String.eqb (oi_FrontendIP o) "" then ov_FrontendIP ov else oi_FrontendIP o)
        (if String.eqb (oi_BackendIP o) "" then ov_BackendIP ov else oi_BackendIP o)
        (ov_Device ov) (ov_Subnet ov) (ov_ProbePort ov) (ov_ControlPort ov)
  end.

Definition provisionalConfig (boot : Bootstrap) (pushed : option BackendConfig) : BackendConfig :=
  let ov := Overlay boot pushed in
  mkBackendConfig (mkOverlayInfo (ov_FrontendIP ov) (ov_BackendIP ov) (ov_Device ov) (ov_Subnet ov))
    ((fun p => mkPathInfo (path_ID p) (path_Name p) (path_Iface p) (path_Table p) (path_Mark p) false fzero) <$> cfg_Paths Defaults)
    ModeObserve 0 [] [].

(** *** The copy on disk *)

(** [json.MarshalIndent] and [json.Unmarshal] of a configuration. *)
Class ConfigCodec := {
  MarshalConfig : BackendConfig -> option string;
  UnmarshalConfig : string -> option BackendConfig;
  config_roundtrip cfg raw : MarshalConfig cfg = Some raw -> UnmarshalConfig raw = Some cfg }.

Section backend.
Context {U : Unicode} {FT : FloatText}.
Context (exists_ : string -> bool) (stateDir : string).

(** ** Installing *)

Fixpoint linker_routes (ls : list LinkerRoute) : cmds unit :=
  match ls with
  | [] => Done tt
  | l :: ls => let! _ := EnsureLinkerHostRoute (lr_OverlayIP l) (lr_LanIP l) in linker_routes ls
  end.

Fixpoint applyShaping (armed : bool) (ps : list PathInfo) : cmds unit :=
  match ps with
  | [] => Done tt
  | p :: ps =>
      if negb (exists_ (pinfo_Iface p)) then applyShaping armed ps
      else let! _ := gate armed (EnsureQdisc (pinfo_Iface p) (pinfo_ShapeMbit p)) in applyShaping armed ps
  end.

Definition applyEgress (armed : bool) (cfg : BackendConfig) (ifaces : list string) : cmds unit :=
  let asked := (0 <? length (bc_EgressCIDRs cfg))%nat in
  if asked && String.eqb (AddressLiteral (oi_BackendIP (bc_Overlay cfg))) "" then Done tt
  else
    let usable := EgressNetworks (bc_EgressCIDRs cfg) in
    if asked && (length usable =? 0)%nat then Done tt
    else
      let ruleset := BuildBackendEgressRuleset usable ifaces (oi_BackendIP (bc_Overlay cfg)) in
      if String.eqb ruleset "" then let! _ := RemoveEgressRuleset in RemoveEgressRule
      else if negb armed then Done tt
      else
        let! r := gate armed EnsureEgressRule in
        match r with
        | Some _ => Done tt
        | None => let! _ := gate armed (ApplyEgressRuleset stateDir ruleset) in Done tt
        end.

(** The control channel's way out, before any decision. *)
Fixpoint seed_route (cfg : BackendConfig) (ps : list PathInfo) : cmds unit :=
  match ps with
  | [] => Done tt
  | p :: ps =>
      if exists_ (pinfo_Iface p) then
        let o := bc_Overlay cfg in
        let! _ := SetActivePath (oi_FrontendIP o ++ "/32") (oi_BackendIP o) (pinfo_Iface p) in Done tt
      else seed_route cfg ps
  end.

Definition applyPlumbing (armed : bool) (cfg : BackendConfig) (active : Z) : cmds unit :=
  let o := bc_Overlay cfg in
  let ifaces := pinfo_Iface <$> bc_Paths cfg in
  let! _ := EnsureOverlayAddress (oi_BackendIP o) (oi_Device o) in
  let! _ := EnsureSysctls ifaces in
  let! _ := EnsureProbeRoutes exists_ (plain_path <$> bc_Paths cfg) (oi_FrontendIP o) (oi_BackendIP o) in
  let! _ := EnsureReturnRule [oi_BackendIP o; oi_Subnet o] in
  let! _ := EnsureOverlayLocalRule (oi_Subnet o) in
  let! _ := EnsureFrontendLocalRule (oi_FrontendIP o) (oi_Subnet o) in
  let! _ := (if (0 <? length (bc_Linkers cfg))%nat then EnsureOverlayForwardExceptions (oi_Subnet o) else Done None) in
  let! _ := linker_routes (bc_Linkers cfg) in
  let! _ := gate armed (ApplyReturnRuleset stateDir (BuildReturnRuleset ifaces)) in
  let! _ := EnsureReturnMarkRule in
  let! _ := applyEgress armed cfg ifaces in
  let! _ := applyShaping armed (bc_Paths cfg) in
  if active =? 0 then seed_route cfg (bc_Paths cfg) else Done tt.

(** The routes of linkers that are gone. *)
Fixpoint withdraw_routes (keep : list string) (prev : list LinkerRoute) : cmds unit :=
  match prev with
  | [] => Done tt
  | l :: prev =>
      if bool_decide (lr_OverlayIP l ∈ keep) then withdraw_routes keep prev
      else let! _ := RemoveLinkerHostRoute (lr_OverlayIP l) in withdraw_routes keep prev
  end.
Definition withdrawRemovedLinkers (prev now : list LinkerRoute) : cmds unit :=
  match prev with [] => Done tt | _ => withdraw_routes (lr_OverlayIP <$> now) prev end.

Definition reassertReturnPath (armed : bool) (cfg : BackendConfig) (active : Z) : cmds unit :=
  if active =? 0 then Done tt
  else match List.find (fun p => pinfo_ID p =? active) (bc_Paths cfg) with
       | None => Done tt
       | Some p => let! _ := gate armed (SetReturnPath (pinfo_Iface p)) in Done tt
       end.

(** The commands of [ApplyConfig], by the mode it brings. *)
Definition ApplyConfig (prev : list LinkerRoute) (cfg : BackendConfig) (active : Z) : cmds unit :=
  let! _ := applyPlumbing (applying cfg) cfg active in
  let! _ := withdrawRemovedLinkers prev (bc_Linkers cfg) in
  reassertReturnPath (applying cfg) cfg active.

(** ** The repairs *)

Fixpoint reconcile_paths (armed : bool) (cfg : BackendConfig) (ps : list PathInfo) : cmds unit :=
  match ps with
  | [] => Done tt
  | p :: ps =>
      if negb (exists_ (pinfo_Iface p)) then reconcile_paths armed cfg ps
      else
        let o := bc_Overlay cfg in
        let! _ := RPFilterOff (pinfo_Iface p) in
        let! _ := (if fgt (pinfo_ShapeMbit p) fzero
                   then let! _ := gate armed (EnsureQdisc (pinfo_Iface p) (pinfo_ShapeMbit p)) in Done tt
                   else Done tt) in
        let! via := RouteVia (oi_FrontendIP o ++ "/32") (pinfo_Table p) in
        let! _ := repair via (pinfo_Iface p) (EnsureProbeRoute (plain_path p) (oi_FrontendIP o) (oi_BackendIP o)) in
        reconcile_paths armed cfg ps
  end.

Fixpoint reconcile_linkers (ls : list LinkerRoute) : cmds unit :=
  match ls with
  | [] => Done tt
  | l :: ls =>
      let! via := LinkerHostRouteVia (lr_OverlayIP l) in
      let! _ := repair via (lr_LanIP l) (EnsureLinkerHostRoute (lr_OverlayIP l) (lr_LanIP l)) in
      reconcile_linkers ls
  end.

(** The interface of a path: the last one with the id. *)
Definition active_iface (cfg : BackendConfig) (active : Z) : string :=
  fold_left (fun i p => if pinfo_ID p =? active then pinfo_Iface p else i) (bc_Paths cfg) ""%string.

Definition reconcileRouting (cfg : option BackendConfig) (active : Z) : cmds unit :=
  match cfg with
  | None => Done tt
  | Some cfg =>
      let o := bc_Overlay cfg in
      let armed := applying cfg in
      let! _ := reconcile_paths armed cfg (bc_Paths cfg) in
      let iface := active_iface cfg active in
      if String.eqb iface "" || negb (exists_ iface) then Done tt
      else
        let! via := RouteVia (oi_FrontendIP o ++ "/32") 0 in
        let! _ := repair via iface (SetActivePath (oi_FrontendIP o ++ "/32") (oi_BackendIP o) iface) in
        let! _ := reconcile_linkers (bc_Linkers cfg) in
        if negb armed then Done tt
        else
          let! via := DefaultVia ReturnTable in
          let! _ := repair via iface (gate armed (SetReturnPath iface)) in
          Done tt
  end.

(** ** The revert *)

Fixpoint remove_queues (ps : list PathInfo) : cmds unit :=
  match ps with
  | [] => Done tt
  | p :: ps =>
      if fgt (pinfo_ShapeMbit p) fzero
      then let! _ := RemoveQdisc (pinfo_Iface p) in remove_queues ps
      else remove_queues ps
  end.
Fixpoint remove_linkers (ls : list LinkerRoute) : cmds unit :=
  match ls with
  | [] => Done tt
  | l :: ls => let! _ := RemoveLinkerHostRoute (lr_OverlayIP l) in remove_linkers ls
  end.

Definition revert_cmds (cfg : BackendConfig) : cmds unit :=
  let o := bc_Overlay cfg in
  let! _ := RemoveReturnRuleset in
  let! _ := RemoveEgressRuleset in
  let! _ := RemoveEgressRule in
  let! _ := remove_queues (bc_Paths cfg) in
  let! _ := remove_linkers (bc_Linkers cfg) in
  let! _ := RemoveOverlayForwardExceptions in
  let! _ := RemoveReturnRoutes [oi_BackendIP o; oi_Subnet o] in
  let! _ := RemoveOverlayLocalRule (oi_Subnet o) in
  let! _ := RemoveFrontendLocalRule (oi_FrontendIP o) (oi_Subnet o) in
  RemoveProbeRoutes (plain_path <$> bc_Paths cfg) (oi_FrontendIP o ++ "/32") (oi_FrontendIP o ++ "/32").

(** ** The configuration over restarts *)

Context {CC : ConfigCodec}.

Record copy := mkCopy { cp_cfg : option BackendConfig; cp_disk : option string }.

(** [cacheConfig]: the temporary file is written, then renamed over the copy. *)
Definition cacheConfig (cfg : BackendConfig) (written renamed : bool) (st : copy) : copy :=
  match MarshalConfig cfg with
  | None => st
  | Some raw => if written && renamed then mkCopy (cp_cfg st) (Some raw) else st
  end.
Definition loadCachedConfig (st : copy) : copy :=
  match cp_disk st with
  | None => st
  | Some raw =>
      match UnmarshalConfig raw with
      | None => st
      | Some cfg => mkCopy (Some cfg) (cp_disk st)
      end
  end.
(** [Config], as the runner of a push reads it. *)
Definition take_push (cfg : BackendConfig) (written renamed : bool) (st : copy) : copy :=
  cacheConfig cfg written renamed (mkCopy (Some cfg) (cp_disk st)).
(** [New] and the start of [Run]. *)
Definition restart (st : copy) : copy := loadCachedConfig (mkCopy None (cp_disk st)).

Definition Revert (boot : Bootstrap) (st : copy) : cmds unit :=
  let st := match cp_cfg st with None => loadCachedConfig st | Some _ => st end in
  revert_cmds (match cp_cfg st with Some cfg => cfg | None => provisionalConfig boot None end).
End backend.

(** ** Observe mode *)

(** What observe mode keeps from the host: a table, a queue, the return path. *)
Definition return_route (iface : string) : list string :=
  ["ip"; "route"; "replace"; "default"; "dev"; iface; "table"; Itoa ReturnTable]%string.
Definition installs (argv : list string) : Prop :=
  (exists rest, argv = "nft" :: "-f" :: rest)%string
  \/ (exists rest, argv = "tc" :: rest /\ read_only argv = false)%string
  \/ exists iface, argv = return_route iface.
Definition inert (argv : list string) : Prop := ~ installs argv.

Lemma plumbing_inert argv : plumbing argv -> inert argv.
Proof.
  intros [rest|rest|rest|rest|rest|verb rest Hv|rest|d i s t|d t] [[r H]|[(r & H & _)|[i' H]]]; try discriminate H.
  by injection H.
Qed.

Lemma closed_inert {A} (c : cmds A) : emits no_listing c -> emits inert (gate false c).
Proof.
  intros Hc. induction c as [a|argv k IH]; [done |]. destruct Hc as [Hl Hk]. cbn [gate].
  destruct (passes false argv) eqn:H; [| by apply IH]. split; [| intros r; by apply IH].
  unfold passes in H. cbn [orb] in H. intros [[r E]|[(r & E & Ho)|[i E]]].
  - rewrite (Hl r E), E in H. discriminate H.
  - rewrite Ho, E in H. discriminate H.
  - rewrite E in H. discriminate H.
Qed.

Lemma return_rules_plumb existing sources : forall seen idx, emits plumbing (return_rules existing seen idx sources).
Proof. induction sources as [|s l IH]; intros seen idx; cbn [return_rules]; plumbs; apply IH. Qed.
#[export] Hint Resolve return_rules_plumb : plumbs.
Lemma return_rule_plumbs sources : emits plumbing (EnsureReturnRule sources).
Proof. unfold EnsureReturnRule. plumbs. Qed.
Lemma overlay_local_plumbs s : emits plumbing (EnsureOverlayLocalRule s).
Proof. unfold EnsureOverlayLocalRule. plumbs. Qed.
Lemma frontend_local_plumbs f s : emits plumbing (EnsureFrontendLocalRule f s).
Proof. unfold EnsureFrontendLocalRule. plumbs. Qed.
Lemma return_mark_plumbs : emits plumbing EnsureReturnMarkRule.
Proof. unfold EnsureReturnMarkRule, ensureMarkRule. plumbs. Qed.
Lemma remove_egress_rule_plumbs : emits plumbing RemoveEgressRule.
Proof. unfold RemoveEgressRule, removeUnreachableRule. plumbs. Qed.
#[export] Hint Resolve return_rule_plumbs overlay_local_plumbs frontend_local_plumbs return_mark_plumbs remove_egress_rule_plumbs : plumbs.

Lemma inert_apply dir name text : emits inert (gate false (applyRuleset (state_file dir name) text)).
Proof.
  apply closed_inert. unfold applyRuleset, write_file, ask. cbn [then_]. split; [by apply other_not_listing |].
  intros [|]; cbn [then_]; [| done]. split; [apply load_not_listing | done].
Qed.
Lemma inert_qdisc `{Unicode} `{FloatText} i m : emits inert (gate false (EnsureQdisc i m)).
Proof.
  apply closed_inert. unfold EnsureQdisc, qdiscInfo, RemoveQdisc. cbv zeta. repeat (first [by apply other_not_listing | emit_step]).
Qed.
Lemma inert_return i : emits inert (gate false (SetReturnPath i)).
Proof. apply closed_inert. unfold SetReturnPath. repeat (first [by apply other_not_listing | emit_step]). Qed.

Ltac inert_cmd := match goal with |- inert _ => intros [[? H]|[(? & H & _)|[? H]]]; discriminate H end.
Lemma inert_active d s i : emits inert (SetActivePath d s i).
Proof. unfold SetActivePath. repeat (first [inert_cmd | emit_step]). Qed.
Lemma inert_linker o v : emits inert (EnsureLinkerHostRoute o v).
Proof. unfold EnsureLinkerHostRoute. repeat (first [inert_cmd | emit_step]). Qed.
Lemma inert_via o : emits inert (LinkerHostRouteVia o).
Proof. unfold LinkerHostRouteVia. repeat (first [inert_cmd | emit_step]). Qed.
Lemma inert_unlink o : emits inert (RemoveLinkerHostRoute o).
Proof. unfold RemoveLinkerHostRoute. repeat (first [inert_cmd | emit_step]). Qed.
Lemma inert_default t : emits inert (DefaultVia t).
Proof. unfold DefaultVia, showRoutes. repeat (first [inert_cmd | emit_step]). Qed.

Section observe.
Context {U : Unicode} {FT : FloatText} (exists_ : string -> bool) (stateDir : string).

Create HintDb inert discriminated.
#[local] Hint Constants Opaque : inert.
Lemma plumbs_inert {A} (c : cmds A) : emits plumbing c -> emits inert c.
Proof. apply emits_mono, plumbing_inert. Qed.
#[local] Hint Extern 3 (emits inert _) => apply plumbs_inert; solve [auto with plumbs nocore] : inert.
#[local] Hint Resolve inert_apply inert_qdisc inert_return inert_active inert_linker inert_via inert_unlink inert_default : inert.
Ltac inerts := repeat (first [solve [auto with inert nocore] | emit_step]).

Lemma inert_linker_routes ls : emits inert (linker_routes ls).
Proof. induction ls as [|l ls IH]; cbn [linker_routes]; inerts. Qed.
Lemma inert_shaping ps : emits inert (applyShaping exists_ false ps).
Proof. induction ps as [|p ps IH]; cbn [applyShaping]; inerts. Qed.
Lemma inert_egress cfg ifaces : emits inert (applyEgress stateDir false cfg ifaces).
Proof. unfold applyEgress, RemoveEgressRuleset. cbv zeta. cbn [negb]. inerts. Qed.
Lemma inert_seed cfg ps : emits inert (seed_route exists_ cfg ps).
Proof. induction ps as [|p ps IH]; cbn [seed_route]; inerts. Qed.
Lemma inert_withdraw keep prev : emits inert (withdraw_routes keep prev).
Proof. induction prev as [|l prev IH]; cbn [withdraw_routes]; inerts. Qed.
#[local] Hint Resolve inert_linker_routes inert_shaping inert_egress inert_seed inert_withdraw : inert.
Lemma inert_paths cfg ps : emits inert (reconcile_paths exists_ false cfg ps).
Proof. induction ps as [|p ps IH]; cbn [reconcile_paths]; unfold repair; inerts. Qed.
Lemma inert_repair_linkers ls : emits inert (reconcile_linkers ls).
Proof. induction ls as [|l ls IH]; cbn [reconcile_linkers]; unfold repair; inerts. Qed.
#[local] Hint Resolve inert_paths inert_repair_linkers : inert.

(** In observe mode a push and a turn of the repairs load no table, change no
    queue and do not write the return path, whatever the host answers. *)
Theorem backend_observes prev cfg active : applying cfg = false ->
  emits inert (ApplyConfig exists_ stateDir prev cfg active)
  /\ emits inert (reconcileRouting exists_ (Some cfg) active).
Proof.
  intros Hm. split.
  - unfold ApplyConfig, applyPlumbing, withdrawRemovedLinkers, reassertReturnPath, ApplyReturnRuleset. rewrite Hm. cbv zeta. inerts.
  - unfold reconcileRouting, repair. rewrite Hm. cbv zeta. inerts.
Qed.
End observe.

(** ** Rules before the ruleset *)

(** What is not a command of [ip] leaves the policy database alone. *)
Class QuietHost {W} (run : runner W) `{HK : !Kernel run} := {
  qh_quiet prog rest w : prog <> "ip"%string -> k_rules (run (prog :: rest) w).2 = k_rules w }.

(** A mark and a table, as a path has them. *)
Definition marked (mark table : Z) : PathConfig := mkPathConfig 1 "" "" 0 table mark false false no_quota no_shape.

Section mark_rules.
Context {W : Type} (run : runner W) `{HK : !Kernel run}.

(** A mark rule that is said to be in is there. *)
Lemma mark_rule_places mark table want w : 0 <= table <= MaxInt64 -> in_i64 want ->
  (execute run (ensureMarkRule (hex_text mark) table want) w).1 = None ->
  want ∈ seen (lookup_view (marked mark table)) (execute run (ensureMarkRule (hex_text mark) table want) w).2.
Proof.
  intros Ht Hw. unfold ensureMarkRule, listRulesInTable, ask. cbn [then_]. rewrite execute_exec.
  assert (Hfit : path_fit (marked mark table)) by (split; [by vm_compute | done]).
  pose proof (table_honest run (marked mark table) w Hfit) as L. cbn [path_Table marked] in L.
  set (p := marked mark table) in *. change (hex_text mark) with (path_mark p).
  destruct (run _ w) as [[all|e] w1]; cbn [fst snd] in *; [| done]. destruct L as [E L].
  pose proof (markRulePrefs_i64 all (path_mark p) "") as Hi. rewrite (L all eq_refl) in *. rewrite execute_then.
  assert (Hc : let c := pin want (seen (lookup_view p) w) (fun verb => mark_rule verb (path_mark p) (Itoa table)) in
    (execute run c w1).1 = None -> want ∈ seen (lookup_view p) (execute run c w1).2).
  { apply (pin_success run (lookup_view p) (lookup_rule p) in_i64 (fun k => lookup_ok p k Ht) (fun k r' _ => lookup_fit p k r')).
    - by constructor.
    - unfold seen. by rewrite E. }
  cbv zeta in Hc. destruct (execute run (pin _ _ _) w1) as [[e|] w2]; cbn in *; [done |]. intros _. by apply Hc.
Qed.

(** What has to stand before a packet may be marked for egress: the rule that
    sends the mark to the return table, and the refusal behind it. *)
Definition egress_rules_in (w : W) : Prop :=
  EgressRulePref ∈ seen (lookup_view (marked EgressMark ReturnTable)) w
  /\ refused_at (hex_text EgressMark) EgressDenyRulePref w.

Lemma egress_rule_places w : (execute run EnsureEgressRule w).1 = None -> egress_rules_in (execute run EnsureEgressRule w).2.
Proof.
  unfold EnsureEgressRule. cbv zeta. rewrite execute_then.
  pose proof (mark_rule_places EgressMark ReturnTable EgressRulePref w) as Hp.
  destruct (execute run (ensureMarkRule _ _ _) w) as [[e|] w1]; cbn [fst snd] in *; [done |].
  assert (H1 : EgressRulePref ∈ seen (lookup_view (marked EgressMark ReturnTable)) w1) by (apply Hp; done). clear Hp.
  unfold listRules, ask. cbn [then_]. rewrite execute_exec. pose proof (k_show (run := run) w1) as L.
  destruct (run _ w1) as [[all|e] w2]; cbn [fst snd] in *; [| done]. destruct L as [E L]. rewrite (L all eq_refl), <- E.
  intros H. apply unreachable_places in H as [Hr Hk]; [| apply hex_text_ok | done]. split; [| done].
  unfold seen in *. apply list_elem_of_omap in H1 as (r & Hin & Hv). apply list_elem_of_omap. exists r.
  split; [apply Hk; by rewrite E | done].
Qed.

Lemma egress_rules_kept w w' : k_rules w' = k_rules w -> egress_rules_in w -> egress_rules_in w'.
Proof. intros E [H1 (r & Hr & H2)]. split; [unfold seen in *; by rewrite E | exists r; by rewrite E]. Qed.
End mark_rules.

Lemma wp_gate_open {W A} (run : runner W) P (c : cmds A) Q w : wp run P c Q w -> wp run P (gate true c) Q w.
Proof. revert w. induction c as [a|argv k IH]; intros w; [done |]. cbn [gate passes orb wp]. intros [H1 H2]. split; [done | by apply IH]. Qed.

Section egress_order.
Context {U : Unicode} {FT : FloatText} (exists_ : string -> bool) (stateDir : string).
Context {W : Type} (run : runner W) `{HK : !Kernel run, HQ : !QuietHost run}.

Definition egress_file : string := state_file stateDir "egress.nft".
Definition load_ruled (argv : list string) (w : W) : Prop := argv = load egress_file -> egress_rules_in run w.

Create HintDb unload discriminated.
#[local] Hint Constants Opaque : unload.
Lemma plumbs_no_load {A} (c : cmds A) : emits plumbing c -> emits (no_load egress_file) c.
Proof.
  apply emits_mono. intros argv H E. subst argv. unfold load in H. inversion H; subst. done.
Qed.
#[local] Hint Extern 3 (emits (no_load _) _) => apply plumbs_no_load; solve [auto with plumbs nocore] : unload.
Ltac unload_cmd := match goal with |- no_load _ _ => discriminate end.
Lemma no_load_return text armed : emits (no_load egress_file) (gate armed (ApplyReturnRuleset stateDir text)).
Proof.
  apply gate_emits. unfold ApplyReturnRuleset, applyRuleset, write_file. repeat (first [unload_cmd | emit_step]).
  intros H. injection H as H. by apply state_file_inj in H.
Qed.
Lemma no_load_qdisc armed i m : emits (no_load egress_file) (gate armed (EnsureQdisc i m)).
Proof. apply gate_emits. unfold EnsureQdisc, qdiscInfo, RemoveQdisc. cbv zeta. repeat (first [unload_cmd | emit_step]). Qed.
Lemma no_load_active d s i : emits (no_load egress_file) (SetActivePath d s i).
Proof. unfold SetActivePath. repeat (first [unload_cmd | emit_step]). Qed.
Lemma no_load_linker o v : emits (no_load egress_file) (EnsureLinkerHostRoute o v).
Proof. unfold EnsureLinkerHostRoute. repeat (first [unload_cmd | emit_step]). Qed.
Lemma no_load_unlink o : emits (no_load egress_file) (RemoveLinkerHostRoute o).
Proof. unfold RemoveLinkerHostRoute. repeat (first [unload_cmd | emit_step]). Qed.
Lemma no_load_path armed i : emits (no_load egress_file) (gate armed (SetReturnPath i)).
Proof. apply gate_emits. unfold SetReturnPath. repeat (first [unload_cmd | emit_step]). Qed.
#[local] Hint Resolve no_load_return no_load_qdisc no_load_active no_load_linker no_load_unlink no_load_path : unload.
Ltac unloads := repeat (first [solve [auto with unload nocore] | emit_step]).
Lemma no_load_linkers ls : emits (no_load egress_file) (linker_routes ls).
Proof. induction ls as [|l ls IH]; cbn [linker_routes]; unloads. Qed.
Lemma no_load_shaping armed ps : emits (no_load egress_file) (applyShaping exists_ armed ps).
Proof. induction ps as [|p ps IH]; cbn [applyShaping]; unloads. Qed.
Lemma no_load_seed cfg ps : emits (no_load egress_file) (seed_route exists_ cfg ps).
Proof. induction ps as [|p ps IH]; cbn [seed_route]; unloads. Qed.
Lemma no_load_withdraw keep prev : emits (no_load egress_file) (withdraw_routes keep prev).
Proof. induction prev as [|l prev IH]; cbn [withdraw_routes]; unloads. Qed.
#[local] Hint Resolve no_load_linkers no_load_shaping no_load_seed no_load_withdraw : unload.

Lemma wp_unload {A} (c : cmds A) (Q : A -> W -> Prop) w : emits (no_load egress_file) c -> (forall a w, Q a w) -> wp run load_ruled c Q w.
Proof. intros He Hend. eapply wp_emits; [exact He | by intros argv w' H E | apply Hend]. Qed.

Lemma egress_ruled armed cfg ifaces w : wp run load_ruled (applyEgress stateDir armed cfg ifaces) (fun _ _ => True) w.
Proof.
  unfold applyEgress. cbv zeta. destruct (_ && String.eqb _ ""); [done |]. destruct (_ && _); [done |].
  destruct (String.eqb _ ""); [apply wp_unload; [unfold RemoveEgressRuleset; unloads | done] |].
  destruct armed; cbn [negb]; [| done]. apply wp_then, wp_gate_open.
  eapply wp_emits; [apply plumbs_no_load; unfold EnsureEgressRule, ensureMarkRule, ensureUnreachableRule; plumbs | by intros argv w' H E |].
  pose proof (egress_rule_places run w) as Hg. destruct (execute run EnsureEgressRule w) as [[e|] w1]; cbn [fst snd] in *; [done |].
  specialize (Hg eq_refl). apply wp_then, wp_gate_open. unfold ApplyEgressRuleset, applyRuleset, write_file, ask. cbn [then_ wp].
  split; [done |]. pose proof (qh_quiet (run := run) "write" [state_file stateDir "egress.nft"; BuildBackendEgressRuleset (EgressNetworks (bc_EgressCIDRs cfg)) ifaces (oi_BackendIP (bc_Overlay cfg))] w1) as Hq.
  destruct (run _ w1) as [[o|e] w2]; cbn [fst snd wp] in *; [| done]. split; [| done]. intros _.
  eapply egress_rules_kept; [by apply Hq | exact Hg].
Qed.

(** A push marks packets for the tunnel only behind the rules that carry them:
    whatever fails, the egress ruleset is loaded in no world that lacks the
    rule of its mark or the refusal behind it. *)
Theorem backend_egress_rules_first prev cfg active w :
  Forall (fun call => load_ruled call.1 call.2) (calls run (ApplyConfig exists_ stateDir prev cfg active) w).
Proof.
  apply (wp_calls run load_ruled _ (fun _ _ => True)). unfold ApplyConfig, applyPlumbing. cbv zeta.
  set (rest := fun _ : unit => then_ (withdrawRemovedLinkers _ _) _).
  assert (Hrest : forall u w, wp run load_ruled (rest u) (fun _ _ => True) w).
  { intros u w'. apply wp_unload; [| done]. unfold rest, withdrawRemovedLinkers, reassertReturnPath. unloads. }
  apply wp_then. eapply (wp_mono run load_ruled _ (fun _ _ => True)); [intros u w' _; apply Hrest |].
  repeat (apply wp_then, wp_unload; [solve [unloads] | intros _ ?]).
  apply wp_then. eapply (wp_mono run load_ruled _ (fun _ _ => True)); [intros u w' _ | apply egress_ruled].
  apply wp_unload; [unloads | done].
Qed.
End egress_order.

(** ** A fault is not an instruction *)

Definition teardown : list string := ["nft"; "delete"; "table"; "ip"; NFTEgressTable]%string.

Lemma usable_again cidrs : EgressNetworks (EgressNetworks cidrs) = EgressNetworks cidrs.
Proof.
  pose proof (EgressNetworks_settled cidrs) as H. induction H as [|c l [H1 H2] _ IH]; [done |].
  unfold EgressNetworks in *. cbn [fmap list_fmap]. rewrite H1, filter_cons_True by done. by f_equal.
Qed.

Lemma gate_no_teardown armed name text : emits (fun argv => argv <> teardown) (gate armed (applyRuleset name text)).
Proof. apply gate_emits. unfold applyRuleset, write_file. repeat (first [match goal with |- _ <> teardown => discriminate end | emit_step]). Qed.
Lemma egress_rule_no_teardown armed : emits (fun argv => argv <> teardown) (gate armed EnsureEgressRule).
Proof.
  apply gate_emits. unfold EnsureEgressRule, ensureMarkRule, ensureUnreachableRule, listRules, listRulesInTable, pin.
  repeat (first [match goal with |- _ <> teardown => discriminate end | apply emits_sweep | emit_step]).
Qed.

(** Networks that were asked for and cannot be used, or an overlay address that
    is none, leave the host alone; the egress rules come down only when nothing
    is asked for. *)
Theorem egress_fault_keeps stateDir armed cfg ifaces : ifaces <> [] ->
  (bc_EgressCIDRs cfg <> [] -> AddressLiteral (oi_BackendIP (bc_Overlay cfg)) = ""%string \/ EgressNetworks (bc_EgressCIDRs cfg) = [] ->
     applyEgress stateDir armed cfg ifaces = Done tt)
  /\ (bc_EgressCIDRs cfg <> [] <-> emits (fun argv => argv <> teardown) (applyEgress stateDir armed cfg ifaces)).
Proof.
  intros Hi. unfold applyEgress. cbv zeta. destruct (bc_EgressCIDRs cfg) as [|c cs] eqn:E; cbn [length].
  { split; [done |]. split; [done |]. change ((0 <? 0)%nat) with false. cbn [andb].
    assert (Hr : BuildBackendEgressRuleset (EgressNetworks []) ifaces (oi_BackendIP (bc_Overlay cfg)) = (""%string)) by reflexivity.
    rewrite Hr. cbn. intros [H _]. done. }
  change ((0 <? S (length cs))%nat) with true. cbn [andb]. split.
  { intros _ [H|H]; [by rewrite H |]. rewrite H. cbn. by destruct (String.eqb _ ""). }
  split; [intros _ | done]. destruct (String.eqb_spec (AddressLiteral (oi_BackendIP (bc_Overlay cfg))) "") as [_|Ha]; [done |].
  destruct (Nat.eqb_spec (length (EgressNetworks (c :: cs))) 0) as [_|Hn]; [done |].
  assert (Hr : BuildBackendEgressRuleset (EgressNetworks (c :: cs)) ifaces (oi_BackendIP (bc_Overlay cfg)) <> ""%string).
  { unfold BuildBackendEgressRuleset, backend_egress_table. rewrite usable_again. rewrite (proj2 (Nat.eqb_neq _ _)) by done.
    rewrite (proj2 (Nat.eqb_neq (length ifaces) 0)) by (by destruct ifaces). rewrite (proj2 (String.eqb_neq _ _)) by done.
    cbn [orb]. apply text_of_some. }
  rewrite (proj2 (String.eqb_neq _ _)) by done. destruct armed; cbn [negb]; [| done].
  apply emits_then; [apply egress_rule_no_teardown |]. intros [e|]; [done |]. apply emits_then; [apply gate_no_teardown | done].
Qed.

(** ** Linkers that are gone *)

(** The routes taken out are those of the hosts that were configured and are
    not any more, in their order. *)
Theorem withdraw_exact {W} (run : runner W) prev now w :
  issued run (withdrawRemovedLinkers prev now) w
  = fmap (M := list) (fun l => ["ip"; "route"; "del"; (lr_OverlayIP l ++ "/32")%string]%string)
      (filter (fun l => lr_OverlayIP l ∉ (lr_OverlayIP <$> now) /\ lr_OverlayIP l <> ""%string) prev).
Proof.
  assert (H : forall keep w, issued run (withdraw_routes keep prev) w
    = fmap (M := list) (fun l => ["ip"; "route"; "del"; (lr_OverlayIP l ++ "/32")%string]%string)
      (filter (fun l => lr_OverlayIP l ∉ keep /\ lr_OverlayIP l <> ""%string) prev)).
  { intros keep. induction prev as [|l prev' IH]; intros w'; [done |]. cbn [withdraw_routes]. case_bool_decide as Hk.
    - rewrite filter_cons_False by tauto. apply IH.
    - unfold RemoveLinkerHostRoute, ignore. rewrite issued_then. destruct (String.eqb_spec (lr_OverlayIP l) "") as [Ee|Ee].
      + rewrite filter_cons_False by tauto. apply IH.
      + rewrite filter_cons_True by done. cbn [issued execute fmap list_fmap]. destruct (run _ w') as [r w1]. cbn. f_equal. apply IH. }
  unfold withdrawRemovedLinkers. destruct prev; [done | apply H].
Qed.

(** ** Restarts *)

Section restarts.
Context {CC : ConfigCodec}.

(** What happens to the copy: a push, whose file may not be written or not be
    renamed, and a restart. *)
Inductive copy_turn := Pushed (cfg : BackendConfig) (written renamed : bool) | Restarted.
Definition copy_do (st : copy) (t : copy_turn) : copy :=
  match t with Pushed cfg a b => take_push cfg a b st | Restarted => restart st end.
Definition copy_run (ts : list copy_turn) (st : copy) : copy := fold_left copy_do ts st.

(** The last push that reached the disk. *)
Definition reached (t : copy_turn) : option BackendConfig :=
  match t with
  | Pushed cfg written renamed => if written && renamed && bool_decide (is_Some (MarshalConfig cfg)) then Some cfg else None
  | Restarted => None
  end.
Definition last_kept (ts : list copy_turn) : option BackendConfig := last (omap reached ts).

Definition copy_holds (st : copy) (cfg : option BackendConfig) : Prop :=
  match cfg with Some cfg => exists raw, cp_disk st = Some raw /\ UnmarshalConfig raw = Some cfg | None => cp_disk st = None end.

Lemma copy_step ts t : copy_holds (copy_run ts (mkCopy None None)) (last_kept ts) ->
  copy_holds (copy_run (ts ++ [t]) (mkCopy None None)) (last_kept (ts ++ [t])).
Proof.
  unfold copy_run, last_kept. rewrite fold_left_app, omap_app. cbn [fold_left].
  set (st := fold_left copy_do ts _). intros H.
  assert (Hlast : last (omap reached ts ++ omap reached [t]) = match reached t with Some c => Some c | None => last (omap reached ts) end).
  { cbn [omap list_omap]. destruct (reached t); [apply last_snoc | by rewrite app_nil_r]. }
  rewrite Hlast. destruct t as [cfg written renamed|]; cbn [copy_do].
  - unfold take_push, cacheConfig, reached. cbn [cp_cfg cp_disk]. destruct (MarshalConfig cfg) as [raw|] eqn:E.
    + rewrite bool_decide_true by by eexists. rewrite andb_true_r.
      destruct (written && renamed); [| exact H]. exists raw. split; [done | by apply config_roundtrip].
    + rewrite bool_decide_false by (by intros [? ?]). rewrite andb_false_r. exact H.
  - unfold restart, loadCachedConfig. cbn. destruct (cp_disk st) as [raw|] eqn:E; cbn [cp_disk].
    + unfold copy_holds in *. destruct (UnmarshalConfig raw); cbn [cp_disk]; by rewrite <- E in *.
    + unfold copy_holds in *. cbn [cp_disk]. by rewrite E in H.
Qed.

(** What a restart comes back with is a configuration that was pushed, whole:
    the last one whose file was written and renamed; and none before the first. *)
Theorem restart_reads_last ts :
  cp_cfg (copy_run (ts ++ [Restarted]) (mkCopy None None)) = last_kept ts.
Proof.
  assert (H : copy_holds (copy_run ts (mkCopy None None)) (last_kept ts)).
  { induction ts as [|t ts IH] using rev_ind; [done |]. by apply copy_step. }
  unfold copy_run in *. rewrite fold_left_app. cbn [fold_left copy_do]. set (st := fold_left copy_do ts _) in *.
  unfold restart, loadCachedConfig, copy_holds in *. cbn [cp_disk]. destruct (last_kept ts) as [cfg|].
  - destruct H as (raw & -> & ->). done.
  - by rewrite H.
Qed.
End restarts.

(** ** Witnesses *)

#[local] Existing Instance AsciiUnicode.

#[export] Instance host_kernel_quiet : QuietHost host_kernel.
Proof.
  split. intros prog rest w Hp. assert (Hq : String.eqb prog "ip" = false) by (by apply String.eqb_neq).
  destruct rest as [|x [|y rest]]; unfold host_kernel, service; rewrite ?Hq; done.
Qed.

Definition demo_pushed (mode : string) : BackendConfig :=
  mkBackendConfig (mkOverlayInfo "10.99.0.1" "10.99.0.2" "" "10.99.0.0/24")
    [mkPathInfo 2 "lte1" "wg-lte1" 102 258 true (f64_of_Z 18)] mode 60000
    [mkLinkerRoute "10.99.0.3" "192.168.1.20"] ["172.18.0.0/16"]%string.

Lemma backend_observes_witness :
  emits inert (ApplyConfig (fun _ => true) "/var/lib/failover" [] (demo_pushed ModeObserve) 2)
  /\ emits inert (reconcileRouting (fun _ => true) (Some (demo_pushed ModeObserve)) 2).
Proof. apply (backend_observes (fun _ => true) "/var/lib/failover" [] (demo_pushed ModeObserve) 2). reflexivity. Defined.

(** The ruleset is loaded, and behind its rules. *)
Lemma backend_egress_rules_first_witness :
  let calls := calls host_kernel (ApplyConfig (fun _ => true) "/var/lib/failover" [] (demo_pushed ModeArmed) 2) moved in
  Forall (fun call => load_ruled "/var/lib/failover" host_kernel call.1 call.2) calls
  /\ Exists (fun call => call.1 = load (egress_file "/var/lib/failover")) calls.
Proof.
  split; [apply (backend_egress_rules_first (fun _ => true) "/var/lib/failover" host_kernel [] (demo_pushed ModeArmed) 2 moved) |].
  apply (bool_decide_unpack _). vm_compute. reflexivity.
Defined.

Lemma egress_fault_keeps_witness :
  let cfg := mkBackendConfig (mkOverlayInfo "10.99.0.1" "10.99.0.2" "" "") [] ModeArmed 0 [] ["172.18.0.0"]%string in
  applyEgress "/var/lib/failover" true cfg ["wg-lte1"%string] = Done tt
  /\ emits (fun argv => argv <> teardown) (applyEgress "/var/lib/failover" true cfg ["wg-lte1"%string]).
Proof.
  cbv zeta. set (cfg := mkBackendConfig _ _ _ _ _ _).
  destruct (egress_fault_keeps "/var/lib/failover" true cfg ["wg-lte1"%string]) as [H1 H2]; [done |]. split.
  - apply H1; [done |]. right. by vm_compute.
  - by apply H2.
Defined.

(** One configuration, by name. *)
#[export] Instance float64_eq_dec : EqDecision float64.
Proof. solve_decision. Defined.
#[export] Instance BackendConfig_eq_dec : EqDecision BackendConfig.
Proof.
  assert (EqDecision OverlayInfo) by solve_decision. assert (EqDecision PathInfo) by solve_decision.
  assert (EqDecision LinkerRoute) by solve_decision. solve_decision.
Defined.
Definition demo_codec : ConfigCodec.
Proof.
  refine {| MarshalConfig cfg := if decide (cfg = demo_pushed ModeArmed) then Some "armed"%string else None;
    UnmarshalConfig raw := if String.eqb raw "armed" then Some (demo_pushed ModeArmed) else None |}.
  intros cfg raw. case_decide as E; [| done]. intros [= <-]. by rewrite E.
Defined.

Lemma restart_reads_last_witness :
  cp_cfg (@copy_run demo_codec [Pushed (demo_pushed ModeArmed) true true; Pushed (demo_pushed ModeArmed) true false; Restarted] (mkCopy None None))
  = Some (demo_pushed ModeArmed).
Proof.
  etransitivity; [apply (@restart_reads_last demo_codec [Pushed (demo_pushed ModeArmed) true true; Pushed (demo_pushed ModeArmed) true false]) |].
  unfold last_kept, reached. cbn [omap list_omap MarshalConfig demo_codec]. by rewrite decide_True by done.
Defined.

(** In observe mode the agent leaves an operator's queue alone, and its revert
    takes it out all the same. *)
Example revert_takes_foreign_queue :
  let cfg := demo_pushed ModeObserve in
  let w := (execute host_tc (applyShaping (fun _ => true) (applying cfg) (bc_Paths cfg)) demo_host).2 in
  host_queue w "wg-lte1" = host_queue demo_host "wg-lte1"
  /\ ours_on host_tc w "wg-lte1" = false
  /\ host_queue (execute host_tc (revert_cmds cfg) w).2 "wg-lte1" = Some kernel_queue.
Proof. vm_compute. repeat split; reflexivity. Qed.

(** A linker's route that is lost stays lost while the active tunnel is down:
    the turn ends before it looks. *)
Example linker_route_not_repaired :
  let cfg := demo_pushed ModeArmed in
  bc_Linkers cfg = [mkLinkerRoute "10.99.0.3" "192.168.1.20"]%string
  /\ issued host_tc (reconcileRouting (fun _ => false) (Some cfg) 2) demo_host = [].
Proof. by vm_compute. Qed.
