(* ===== verification/Saved.v ===== *)
(** * What a saved configuration does to traffic

    The gate of [Validate] and the rulesets of [Nft] and [Protect] together:
    on a configuration the portal accepted, the generated chain sends the
    first packet to each published port to its own row's target, and each region
    lock bars exactly the sources it says. *)

From S2P Require Import Prelude Model Bytes GoTime Text Net Ports Nft Rules Protect QCache Validate.

Section saved.
Context `{Unicode}.
Context (url_parse : string -> option (string * string)) (LoadLocation : string -> option Location).
Variables (cfg c : Config).
Hypothesis saved : validate url_parse LoadLocation cfg = Ok c.

Lemma saved_ok : config_ok LoadLocation c.
Proof. by eapply validate_ok. Qed.

Lemma saved_row s : s ∈ cfg_Services c -> svc_Enabled s = true -> row_proto s = Some (svc_Proto s).
Proof.
  intros Hs He. destruct saved_ok as [? ? ? ? ? ? ? ? ? ? [Hsv _] ? ?]. rewrite Forall_forall in Hsv.
  destruct (Hsv s Hs) as [_ Hp _ _ _ _ _ _ _]. unfold row_proto. rewrite He. cbn [negb].
  destruct Hp as [-> | ->]; by rewrite ToLower_lower.
Qed.

(** The rows' ports as a ruleset writes them are the ports they name. *)
Lemma saved_ports s p : s ∈ cfg_Services c -> in_spec p (svc_range s) = true <-> row_ports p s.
Proof.
  intros Hs. destruct saved_ok as [? ? ? ? ? ? ? ? ? ? [Hsv _] ? ?]. rewrite Forall_forall in Hsv.
  destruct (Hsv s Hs) as [_ _ [Hp He] _ _ _ _ _ _]. unfold in_spec, svc_range, row_ports, row_lo, row_hi.
  cbn [pr_lo pr_hi]. destruct (Z.ltb_spec (svc_Port s) (svc_PortEnd s)).
  - rewrite andb_true_iff, !Z.leb_le. lia.
  - rewrite Z.eqb_eq. lia.
Qed.

Lemma saved_publisher s p : s ∈ cfg_Services c -> svc_Enabled s = true -> pk_proto p = svc_Proto s ->
  row_ports (pk_dport p) s -> List.find (publishes p) (cfg_Services c) = Some s.
Proof.
  intros Hs He Hp Hport.
  assert (Hpub : forall w, w ∈ cfg_Services c -> svc_Enabled w = true ->
    publishes p w = String.eqb (pk_proto p) (svc_Proto w) && in_spec (pk_dport p) (svc_range w)).
  { intros w Hw Ew. by rewrite row_publishes, (saved_row w Hw Ew). }
  assert (Hps : publishes p s = true).
  { rewrite (Hpub s Hs He), Hp, String.eqb_refl. by apply saved_ports. }
  destruct (List.find (publishes p) (cfg_Services c)) as [w|] eqn:Ef.
  - apply List.find_some in Ef as [Hw Hpw]. apply list_elem_of_In in Hw.
    assert (Ew : svc_Enabled w = true) by (unfold publishes in Hpw; by destruct (svc_Enabled w)).
    rewrite (Hpub w Hw Ew) in Hpw. apply andb_true_iff in Hpw as [Epw%String.eqb_eq Hportw%saved_ports]; [| done].
    destruct saved_ok as [? ? ? ? ? ? ? ? ? ? [_ Hap] ? ?].
    apply list_elem_of_lookup in Hs as [i Hi], Hw as [j Hj].
    assert (i = j) as -> by (eapply (Hap i j s w (pk_dport p)); (done || by rewrite <- Hp, <- Epw)).
    congruence.
  - pose proof (List.find_none _ _ Ef s) as Hn. rewrite Hps in Hn. discriminate Hn. by apply list_elem_of_In.
Qed.
End saved.

(** [C18] On a saved configuration each published port reaches its own row.
    When the first packet of a flow comes to the public address, on the
    protocol and inside the ports of an enabled service, and is not a query the
    cache answers, the generated chain sends it to that row's own target (the
    backend when the row names none), whatever the other rows are. The chain
    speaks once nft has loaded it: a target written in the mapped form passes
    the gate and nft then refuses the whole ruleset
    ([mapped_target_saved]). A later packet follows its flow, so one of a flow
    whose first packet was a query stays with the cache. *)
Theorem saved_publishes `{Unicode} url_parse LoadLocation cfg c E s p :
  validate url_parse LoadLocation cfg = Ok c ->
  s ∈ cfg_Services c -> svc_Enabled s = true ->
  in_scope c p = true -> pk_proto p = svc_Proto s ->
  svc_Port s <= pk_dport p <= Z.max (svc_Port s) (svc_PortEnd s) ->
  ~ (source_query p = true /\ pk_dport p ∈ query_ports c) ->
  chain_outcome E p (prerouting_rules c)
  = Some (VDnat (if bool_decide (svc_Target s = "") then ov_BackendIP (cfg_Overlay c) else svc_Target s)).
Proof.
  intros Hv Hs He Hsc Hp Hport Hq. rewrite published_outcome. unfold publish_spec. rewrite Hsc. cbn [negb].
  assert (source_query p && bool_decide (pk_dport p ∈ query_ports c) = false) as ->.
  { apply not_true_is_false. intros [H1 H2%bool_decide_eq_true]%andb_true_iff. tauto. }
  assert (row_ports (pk_dport p) s) as Hrow.
  { unfold row_ports, row_lo, row_hi. destruct (Z.ltb_spec (svc_Port s) (svc_PortEnd s)); lia. }
  by rewrite (saved_publisher url_parse LoadLocation cfg c Hv s p Hs He Hp Hrow).
Qed.

(** ** Region locks *)

Lemma merged_some cidrs : Forall is_network cidrs -> cidrs <> [] -> mergeCIDRs cidrs <> [].
Proof.
  intros Hn Hne Hm. destruct cidrs as [|s cidrs]; [done |]. apply Forall_cons in Hn as [(ip & ones & Hip & Ho & Hmask & ->) _].
  assert (Ha : Exists (admits ip) (mergeCIDRs (bytes_string (cidr4 ip ones) :: cidrs))).
  { apply mergeCIDRs_admits; [done |]. constructor. exists ip, ones.
    by rewrite TrimSpace_cidr4, string_bytes_cidr4, network4_cidr4. }
  rewrite Hm in Ha. by apply Exists_nil in Ha.
Qed.

Section locks.
Context `{Unicode}.
Context (url_parse : string -> option (string * string)) (LoadLocation : string -> option Location).
Variables (cfg c : Config).
Hypothesis saved : validate url_parse LoadLocation cfg = Ok c.
Hypothesis protected : protect_Enabled (cfg_Protect c) = true.
Let spec := ProtectSpecFrom c.

Lemma spec_rows sv : sv ∈ sp_Services spec <-> exists s, s ∈ cfg_Services c /\ protect_row s = Some sv.
Proof. unfold spec, ProtectSpecFrom. rewrite protected. cbn [negb sp_Services]. apply list_elem_of_omap. Qed.
Lemma spec_regions : sp_Regions spec = protect_Regions (cfg_Protect c).
Proof. unfold spec, ProtectSpecFrom. by rewrite protected. Qed.

(** What a row carries over from its service. *)
Lemma row_of s sv : s ∈ cfg_Services c -> protect_row s = Some sv ->
  svc_Enabled s = true /\ psv_Proto sv = svc_Proto s /\ psv_spec sv = svc_range s
  /\ psv_GeoRegions sv = svc_GeoRegions s /\ psv_GeoBlock sv = svc_GeoBlock s.
Proof.
  intros Hs Hr. unfold protect_row in Hr. destruct (svc_Enabled s) eqn:He; [| done]. cbn [negb] in Hr.
  pose proof (saved_row url_parse LoadLocation cfg c saved s Hs He) as Hp. unfold row_proto in Hp.
  rewrite He in Hp. cbn [negb] in Hp. destruct (_ || _); [| done]. injection Hp as Hp. rewrite Hp in Hr.
  destruct (_ && _); [done |]. injection Hr as <-. done.
Qed.

Lemma region_names_nodup : NoDup (region_Name <$> sp_Regions spec).
Proof.
  rewrite spec_regions. pose proof (co_regions _ _ (validate_ok _ _ _ _ saved)) as [_ Hn].
  rewrite list_fmap_compose in Hn. by apply NoDup_fmap_1 in Hn.
Qed.

Lemma referenced_usable n : n ∈ referenced_regions spec -> region_usable (protect_Regions (cfg_Protect c)) n.
Proof.
  intros Hn. unfold referenced_regions in Hn. apply list_elem_of_In, in_concat in Hn as (gs & Hgs & Hn).
  apply list_elem_of_In in Hgs, Hn. apply list_elem_of_fmap in Hgs as (sv & -> & Hsv).
  apply spec_rows in Hsv as (s & Hs & Hr). destruct (row_of s sv Hs Hr) as (_ & _ & _ & Hg & _). rewrite Hg in Hn.
  pose proof (co_services _ _ (validate_ok _ _ _ _ saved)) as [Hsv' _]. rewrite Forall_forall in Hsv'.
  destruct (Hsv' s Hs) as [_ _ _ _ _ _ _ [_ Hrefs] _]. by apply Hrefs.
Qed.
Lemma referenced_inj n m : n ∈ referenced_regions spec -> m ∈ referenced_regions spec ->
  GeoSetName n = GeoSetName m -> n = m.
Proof.
  intros (g & Hg & <- & _)%referenced_usable (k & Hk & <- & _)%referenced_usable Heq.
  pose proof (co_regions _ _ (validate_ok _ _ _ _ saved)) as [_ Hn].
  apply list_elem_of_lookup in Hg as [i Hi], Hk as [j Hj].
  assert (i = j) as ->; [| congruence].
  eapply (NoDup_lookup _ i j (GeoSetName (region_Name g)) Hn); rewrite list_lookup_fmap; [by rewrite Hi |].
  rewrite Hj. cbn. by rewrite Heq.
Qed.

Lemma lock_live sv : sv ∈ sp_Services spec -> psv_GeoRegions sv <> [] ->
  sv ∈ geoServices spec (geoRegionElems spec).
Proof.
  intros Hsv Hne. unfold geoServices. apply list_elem_of_filter. split; [| done].
  assert (Hres : forall n, n ∈ psv_GeoRegions sv -> resolves (geoRegionElems spec) n = true).
  { intros n Hn. assert (Href : n ∈ referenced_regions spec).
    { apply list_elem_of_In, in_concat. exists (psv_GeoRegions sv).
      split; apply list_elem_of_In; [by apply list_elem_of_fmap_2 | done]. }
    destruct (referenced_usable n Href) as (g & Hg & <- & Hc). unfold resolves.
    rewrite (geo_elems_region spec g); [| apply region_names_nodup | by rewrite spec_regions | done].
    pose proof (co_regions _ _ (validate_ok _ _ _ _ saved)) as [Hr _]. rewrite Forall_forall in Hr.
    destruct (Hr g Hg) as [_ Hnets]. pose proof (merged_some _ Hnets Hc). by destruct (mergeCIDRs _). }
  unfold geo_live. destruct (psv_GeoRegions sv) as [|n ns] eqn:Eg; [done |]. rewrite <- Eg in *.
  assert (Hlen : (length (psv_GeoRegions sv) =? 0)%nat = false) by (by rewrite Eg). rewrite Hlen.
  assert (Hfilter : filter (fun n => resolves (geoRegionElems spec) n = true) (psv_GeoRegions sv) = psv_GeoRegions sv).
  { clear -Hres. induction (psv_GeoRegions sv) as [|x l IH]; [done |]. rewrite filter_cons_True by (apply Hres; by left).
    f_equal. apply IH. intros y Hy. apply Hres. by right. }
  rewrite Hfilter, Nat.eqb_refl. destruct (psv_GeoBlock sv); cbn [andb negb]; [| done].
  destruct (Nat.ltb_spec 0 (length (psv_GeoRegions sv))); [done |]. rewrite Eg in *. cbn in *. lia.
Qed.
End locks.

(** [C7] On a saved configuration a service's region lock bars exactly whom it
    says. A packet to an enabled service with regions is dropped by the locks
    when, and only when, that service's own lock is engaged and the source is
    outside every network of its regions, inside one when the lock is a block:
    no other row's lock touches it, and no lock is skipped. *)
Theorem saved_locks `{Unicode} url_parse LoadLocation cfg c E p s sv sePorts overrides :
  validate url_parse LoadLocation cfg = Ok c -> protect_Enabled (cfg_Protect c) = true ->
  s ∈ cfg_Services c -> protect_row s = Some sv -> svc_GeoRegions s <> [] ->
  pk_proto p = svc_Proto s -> row_ports (pk_dport p) s -> ip4_ok (pk_saddr p) ->
  let spec := ProtectSpecFrom c in
  let elems := geoRegionElems spec in
  sets_loaded E (protect_sets spec elems (geoServices spec elems) sePorts overrides) (pk_saddr p) ->
  chain_outcome E p (concat (geo_lock spec elems <$> geoServices spec elems)) = Some VDrop
  <-> lock_engaged E sv = true
      /\ (if svc_GeoBlock s then in_regions spec sv (pk_saddr p) else ~ in_regions spec sv (pk_saddr p)).
Proof.
  intros Hv Hprot Hs Hr Hne Hp Hport Hip spec elems Hload.
  unfold elems. rewrite (region_locks_outcome spec E p sePorts overrides Hip);
    [| by eapply region_names_nodup | intros; by eapply referenced_inj | exact Hload]. fold elems.
  destruct (row_of url_parse LoadLocation cfg c Hv s sv Hs Hr) as (He & Hproto & Hspec & Hg & Hb).
  assert (Hcov : forall w v, w ∈ cfg_Services c -> protect_row w = Some v -> lock_covers p v = true -> v = sv).
  { intros w v Hw Hrw Hc. destruct (row_of url_parse LoadLocation cfg c Hv w v Hw Hrw) as (Hew & Hpw & Hsw & _ & _).
    unfold lock_covers in Hc. rewrite Hpw, Hsw in Hc. apply andb_true_iff in Hc as [H1%String.eqb_eq H2].
    apply (saved_ports url_parse LoadLocation cfg c Hv w) in H2; [| done].
    pose proof (co_services _ _ (validate_ok _ _ _ _ Hv)) as [_ Hap].
    apply list_elem_of_lookup in Hs as [i Hi], Hw as [j Hj].
    assert (i = j) as -> by (eapply (Hap i j s w (pk_dport p)); (done || by rewrite <- Hp, <- H1)). congruence. }
  split.
  - intros (v & Hv' & Hc & Hen & Hbar). apply geoServices_sub in Hv' as [Hin _].
    apply (spec_rows c Hprot) in Hin as (w & Hw & Hrw). rewrite (Hcov w v Hw Hrw Hc) in Hen, Hbar.
    rewrite Hb in Hbar. by split.
  - intros [Hen Hbar]. exists sv. rewrite Hb. split_and!; [| | done | done].
    + eapply (lock_live url_parse LoadLocation cfg c Hv Hprot); [| by rewrite Hg].
      apply (spec_rows c Hprot). by exists s.
    + unfold lock_covers. rewrite Hproto, Hp, String.eqb_refl, Hspec. cbn [andb].
      by apply (saved_ports url_parse LoadLocation cfg c Hv s).
Qed.

(** ** The sample site, saved *)

Definition no_url (_ : string) : option (string * string) := None.
Definition any_zone (_ : string) : option Location := Some UTC.
Definition gate (cfg : Config) : checked Config := @validate AsciiUnicode no_url any_zone cfg.
Definition saved_site : Config := match gate sample_site with Ok c => c | Err _ => sample_site end.
Lemma saved_site_ok : gate sample_site = Ok saved_site.
Proof. vm_compute. reflexivity. Qed.
Definition game_row : Service :=
  mkService "Game (EU)" "udp" 27015 27020 true "" true 5000 0 0 ["eu"%string] false 400.
Definition game_packet : packet := mkPacket "eth0" "" [10; 1; 2; 3] "203.0.113.7" "udp" 27016 [].

Lemma validate_sound_witness : gate sample_site = Ok saved_site /\ @config_ok AsciiUnicode any_zone saved_site.
Proof.
  split; [exact saved_site_ok |].
  apply (@validate_sound AsciiUnicode no_url any_zone sample_site). exact saved_site_ok.
Defined.
Lemma validate_idempotent_witness : gate saved_site = Ok saved_site.
Proof.
  apply (@validate_idempotent AsciiUnicode no_url any_zone sample_site); [exact saved_site_ok |].
  vm_compute. right. right. left.
Defined.

Lemma game_row_in : game_row ∈ cfg_Services saved_site.
Proof. vm_compute. right. right. left. Qed.

Lemma saved_publishes_witness :
  chain_outcome sample_env game_packet (@prerouting_rules AsciiUnicode saved_site) = Some (VDnat "10.99.0.2").
Proof.
  apply (@saved_publishes AsciiUnicode no_url any_zone sample_site saved_site sample_env game_row game_packet);
    [exact saved_site_ok | exact game_row_in | reflexivity | vm_compute; reflexivity | reflexivity | cbn; lia | intros [Hq _]; vm_compute in Hq; discriminate Hq].
Defined.

Lemma saved_locks_witness :
  let spec := @ProtectSpecFrom AsciiUnicode saved_site in
  let elems := geoRegionElems spec in
  exists sv, @protect_row AsciiUnicode game_row = Some sv /\
  (chain_outcome sample_env game_packet (concat (@geo_lock AsciiUnicode spec elems <$> geoServices spec elems)) = Some VDrop
   <-> @lock_engaged AsciiUnicode sample_env sv = true
       /\ (if svc_GeoBlock game_row then in_regions spec sv (pk_saddr game_packet) else ~ in_regions spec sv (pk_saddr game_packet))).
Proof.
  intros spec elems. eexists. split; [vm_compute; reflexivity |].
  apply (@saved_locks AsciiUnicode no_url any_zone sample_site saved_site sample_env game_packet game_row _ [] []);
    [exact saved_site_ok | vm_compute; reflexivity | exact game_row_in | vm_compute; reflexivity | discriminate
    | reflexivity | unfold row_ports, row_lo, row_hi; cbn; lia | |].
  - split; [reflexivity |]. repeat constructor; unfold is_byte; cbn; lia.
  - intros x l Hx Hl.
    assert (Hs : Forall (fun x => match ns_elems x with
        | Some l => ns_name x = "geo_eu"%string /\ l = ["10.0.0.0/8"%string] | None => True end)
      (@protect_sets AsciiUnicode spec elems (geoServices spec elems) [] [])).
    { vm_compute. repeat constructor. }
    rewrite Forall_forall in Hs. specialize (Hs x Hx). rewrite Hl in Hs. destruct Hs as [-> ->].
    split; [intros _ | intros _; reflexivity]. constructor. exists [10; 0; 0; 0], 8. split; vm_compute; reflexivity.
Defined.

(** ** Where the gate lets one address through that a ruleset cannot carry

    A linker's overlay address is held only to [net.ParseIP], which reads an
    IPv4-mapped address, and is stored as it was typed; a service published to
    it renders that text into an [ip] table, which nft refuses whole. The
    public address beside it is flattened for exactly this reason. *)
Definition mapped_site : Config :=
  mkConfig "armed" (cfg_Frontend sample_site) (mkOverlayConfig "10.99.0.1" "10.99.0.2" "dummy0" "10.99.0.0/24" 51999 51998)
    (cfg_Paths sample_site) (cfg_Probe sample_site) (cfg_Failover sample_site)
    [mkService "web" "tcp" 80 0 true "::ffff:10.99.0.3" false 0 0 0 [] false 0]
    [mkLinker "lan" "::ffff:10.99.0.3" "192.168.1.5" 0 true] "192.168.1.2" (cfg_Egress sample_site)
    (cfg_Notify sample_site) (cfg_Protect sample_site) (cfg_QueryCache sample_site) (cfg_Blocklist sample_site).

Definition mapped_saved : Config := match gate mapped_site with Ok c => c | Err _ => mapped_site end.
Lemma mapped_target_saved :
  gate mapped_site = Ok mapped_saved
  /\ @prerouting_rules AsciiUnicode mapped_saved
     = [Rule (serviceScope mapped_saved
              ++ [Dport "tcp" [mkPortRange 80 0]; Dnat "::ffff:10.99.0.3"; Comment "web"])]
  /\ AddressLiteral "::ffff:10.99.0.3" = "10.99.0.3"%string.
Proof. split; [| split]; vm_compute; reflexivity. Qed.

(** ** Where it lets a mark through that no packet can carry

    A path's mark is held to be non-zero and apart from the reserved ones as
    the 64-bit integer it was typed as, but a packet's mark has 32 bits:
    [SO_MARK] keeps the low half, here the control channel's. *)
Definition wide_mark : Z := 4294967552.
Definition wide_site : Config :=
  mkConfig "armed" (cfg_Frontend sample_site) (cfg_Overlay sample_site)
    [mkPathConfig 1 "main" "wg-main" 1 101 wide_mark true false no_quota no_shape]
    (cfg_Probe sample_site) (cfg_Failover sample_site) [] [] "" (cfg_Egress sample_site)
    (cfg_Notify sample_site) (cfg_Protect sample_site) (cfg_QueryCache sample_site) (cfg_Blocklist sample_site).
Lemma wide_mark_saved :
  (path_Mark <$> from_option cfg_Paths [] (match gate wide_site with Ok c => Some c | Err _ => None end)) = [wide_mark]
  /\ wide_mark mod 4294967296 = ControlMark.
Proof. split; vm_compute; reflexivity. Qed.
