(* ===== verification/CacheRecord.v ===== *)
(** * The query cache's sockets and the redirects ([internal/engine/qcache.go])

    The ruleset redirects query traffic to ports the cache has to hold open.
    The redirects outlive a disarm, a save that loads nothing and the process
    itself, so what was redirected when the ruleset was last loaded is recorded
    in the store, and the sockets follow the record. *)

From S2P Require Import Prelude GoTime Model Store Quota Select Engine QCache.

(** [json.Marshal] and [json.Unmarshal] of a list of spans. *)
Class SpansCodec := {
  MarshalSpans : list QueryCacheSpan -> string;
  UnmarshalSpans : string -> option (list QueryCacheSpan);
  spans_written spans : spans <> [] -> MarshalSpans spans <> ""%string;
  spans_roundtrip spans : spans <> [] -> UnmarshalSpans (MarshalSpans spans) = Some spans }.

Section record.
Context {C : SpansCodec}.

Definition persistAppliedQueryCache (cfg : Config) (st : Store) : Store :=
  let val := match QueryCachePorts cfg with [] => ""%string | spans => MarshalSpans spans end in
  (SetMeta qcacheAppliedMetaKey val st).2.

Definition appliedQueryCacheSpans (st : Store) : list QueryCacheSpan * Store :=
  match MetaChecked qcacheAppliedMetaKey st with
  | (Err _, st) => ([], st)
  | (Ok raw, st) => (if String.eqb raw "" then [] else default [] (UnmarshalSpans raw), st)
  end.

Definition queryCacheTimings (qc : QueryCacheConfig) : Duration * Duration :=
  let refresh := dmul (qcc_RefreshMs qc) Millisecond in
  let floor := 500 * Millisecond in
  let refresh := if (0 <? refresh) && (refresh <? floor) then floor else refresh in
  let refreshEff := if refresh =? 0 then DefaultRefreshEvery else refresh in
  let stale := dmul (qcc_StaleMs qc) Millisecond in
  let stale := if stale =? 0 then DefaultStaleAfter else stale in
  let least := i64 (3 * refreshEff) in
  (refresh, if stale <? least then least else stale).

Record cachePort := mkCachePort { cp_Port : Z; cp_Target : string; cp_Service : string }.
Definition span_ports (sp : QueryCacheSpan) : list cachePort :=
  (fun p => mkCachePort p (span_Target sp) (span_Service sp)) <$> seqZ (span_From sp) (span_To sp - span_From sp + 1).

(** A running generation. *)
Record generation := mkGeneration { gn_Ports : list cachePort; gn_Refresh : Duration; gn_Stale : Duration }.

(** What a host is, as far as the cache goes: [qh_loaded] is what the ruleset in
    the kernel redirects. *)
Record cacheHost := mkCacheHost {
  qh_cfg : Config; qh_store : Store; qh_reverted : bool;
  qh_loaded : list QueryCacheSpan; qh_running : option generation }.

Definition stopQueryCache (h : cacheHost) : cacheHost :=
  mkCacheHost (qh_cfg h) (qh_store h) (qh_reverted h) (qh_loaded h) None.

Definition startQueryCache (h : cacheHost) : cacheHost :=
  let h := stopQueryCache h in
  let cfg := qh_cfg h in
  let '(spans, st) := if String.eqb (cfg_Mode cfg) ModeArmed then (QueryCachePorts cfg, qh_store h)
                      else appliedQueryCacheSpans (qh_store h) in
  let run := match spans with
             | [] => None
             | _ => let '(refresh, stale) := queryCacheTimings (cfg_QueryCache cfg) in
                    Some (mkGeneration (concat (span_ports <$> spans)) refresh stale)
             end in
  mkCacheHost cfg st (qh_reverted h) (qh_loaded h) run.

(** The ruleset of [applySystemConfig]: [loaded] says whether [nft] took it. *)
Definition install_ruleset (loaded : bool) (h : cacheHost) : cacheHost :=
  if String.eqb (cfg_Mode (qh_cfg h)) ModeArmed && loaded
  then mkCacheHost (qh_cfg h) (persistAppliedQueryCache (qh_cfg h) (qh_store h)) (qh_reverted h)
         (QueryCachePorts (qh_cfg h)) (qh_running h)
  else h.

Inductive cache_op := CacheSave (cfg : Config) (loaded : bool) | CacheRestart (loaded : bool) | CacheRevert (removed : bool).

Definition cache_do (o : cache_op) (h : cacheHost) : cacheHost :=
  match o with
  | CacheSave cfg loaded =>                        (* [Reconfigure] *)
      match SaveConfig cfg (qh_store h) with
      | (Err _, st) => mkCacheHost (qh_cfg h) st (qh_reverted h) (qh_loaded h) (qh_running h)
      | (Ok _, st) =>
          let h := stopQueryCache h in
          startQueryCache (install_ruleset loaded
            (mkCacheHost cfg (SetMeta revertedMetaKey "" st).2 false (qh_loaded h) (qh_running h)))
      end
  | CacheRestart loaded =>                         (* [New] and [Run] *)
      match LoadConfig (qh_store h) with
      | (Err _, st) => mkCacheHost (qh_cfg h) st (qh_reverted h) (qh_loaded h) None
      | (Ok cfg, st) =>
          let '(latch, st) := Meta revertedMetaKey st in
          let h := mkCacheHost cfg st (negb (String.eqb latch "")) (qh_loaded h) None in
          if qh_reverted h then h else startQueryCache (install_ruleset loaded h)
      end
  | CacheRevert removed =>                         (* [Revert] *)
      let st := (SetMeta revertedMetaKey "1" (qh_store h)).2 in
      let h := stopQueryCache h in
      let st := (SetMeta qcacheAppliedMetaKey "" st).2 in
      let cfg := set_cfg_Mode ModeObserve (qh_cfg h) in
      mkCacheHost cfg (SaveConfig cfg st).2 true (if removed then [] else qh_loaded h) (qh_running h)
  end.
Definition cache_run (os : list cache_op) (h : cacheHost) : cacheHost := fold_left (fun h o => cache_do o h) os h.
End record.

(** ** The sockets match the redirects *)

Section match_.
Context {C : SpansCodec}.

Definition served (h : cacheHost) : list cachePort := from_option gn_Ports [] (qh_running h).
Definition redirected (h : cacheHost) : list cachePort := concat (span_ports <$> qh_loaded h).

(** The record says what the kernel redirects. *)
Definition record_right (h : cacheHost) : Prop :=
  st_faults (qh_store h) = [] /\ (appliedQueryCacheSpans (qh_store h)).1 = qh_loaded h.

Lemma SetMeta_run key v st : st_faults st = [] ->
  SetMeta key v st = (Ok tt, mkStore (set_meta (<[key := v]> (db_meta (st_db st))) (st_db st)) []).
Proof. destruct st as [db f]. cbn. by intros ->. Qed.
Lemma MetaChecked_run key st : st_faults st = [] -> MetaChecked key st = (Ok (default "" (db_meta (st_db st) !! key))%string, st).
Proof. destruct st as [db f]. cbn. by intros ->. Qed.
Lemma SaveConfig_run cfg st : st_faults st = [] -> SaveConfig cfg st = (Ok tt, mkStore (set_config (Some cfg) (st_db st)) []).
Proof. destruct st as [db f]. cbn. by intros ->. Qed.

(** What the record is read as. *)
Definition recorded_spans (db : DB) : list QueryCacheSpan :=
  let raw := default ""%string (db_meta db !! qcacheAppliedMetaKey) in
  if String.eqb raw "" then [] else default [] (UnmarshalSpans raw).

Lemma applied_run st : st_faults st = [] -> appliedQueryCacheSpans st = (recorded_spans (st_db st), st).
Proof. intros H. unfold appliedQueryCacheSpans. by rewrite MetaChecked_run. Qed.

Lemma record_right_db h : record_right h <-> st_faults (qh_store h) = [] /\ recorded_spans (st_db (qh_store h)) = qh_loaded h.
Proof. unfold record_right. split; intros [H1 H2]; (split; [done |]); by rewrite applied_run in *. Qed.

Lemma persist_run cfg st : st_faults st = [] ->
  st_faults (persistAppliedQueryCache cfg st) = [] /\ recorded_spans (st_db (persistAppliedQueryCache cfg st)) = QueryCachePorts cfg.
Proof.
  intros H. unfold persistAppliedQueryCache. rewrite SetMeta_run by done. split; [done |].
  unfold recorded_spans. cbn. rewrite lookup_insert_eq. cbn. destruct (QueryCachePorts cfg) as [|sp spans] eqn:E; [done |].
  rewrite (proj2 (String.eqb_neq _ _)) by (by apply spans_written). by rewrite spans_roundtrip.
Qed.

Lemma other_meta key v st : st_faults st = [] -> key <> qcacheAppliedMetaKey ->
  st_faults (SetMeta key v st).2 = [] /\ recorded_spans (st_db (SetMeta key v st).2) = recorded_spans (st_db st).
Proof. intros H Hk. rewrite SetMeta_run by done. split; [done |]. unfold recorded_spans. cbn. by rewrite lookup_insert_ne. Qed.

(** An installation keeps the record right, and a start serves it. *)
Lemma install_right loaded h : record_right h -> record_right (install_ruleset loaded h).
Proof.
  rewrite !record_right_db. intros [H1 H2]. unfold install_ruleset. destruct (_ && _); [| done]. cbn [qh_store qh_loaded].
  by apply persist_run.
Qed.
Lemma start_right h : record_right h -> record_right (startQueryCache h).
Proof.
  rewrite !record_right_db. intros [H1 H2]. unfold startQueryCache. cbn [stopQueryCache qh_cfg qh_store qh_loaded qh_reverted].
  destruct (String.eqb _ _); cbn [qh_store qh_loaded]; [done |]. rewrite applied_run by done. by split.
Qed.
Lemma start_serves h : record_right h -> (cfg_Mode (qh_cfg h) = ModeArmed -> qh_loaded h = QueryCachePorts (qh_cfg h)) ->
  served (startQueryCache h) = redirected (startQueryCache h).
Proof.
  intros Hr Ha. apply record_right_db in Hr as [H1 H2]. unfold startQueryCache, served, redirected.
  cbn [stopQueryCache qh_cfg qh_store qh_loaded qh_reverted]. destruct (String.eqb_spec (cfg_Mode (qh_cfg h)) ModeArmed) as [E|E].
  - cbn [qh_running qh_loaded]. rewrite (Ha E). destruct (QueryCachePorts (qh_cfg h)); [done |]. by destruct (queryCacheTimings _).
  - rewrite applied_run by done. cbn [qh_running qh_loaded]. rewrite H2. destruct (qh_loaded h); [done |]. by destruct (queryCacheTimings _).
Qed.
Lemma installed_serves h : record_right h ->
  served (startQueryCache (install_ruleset true h)) = redirected (startQueryCache (install_ruleset true h)).
Proof.
  intros Hr. apply start_serves; [by apply install_right |]. unfold install_ruleset. rewrite andb_true_r.
  destruct (String.eqb_spec (cfg_Mode (qh_cfg h)) ModeArmed) as [E|E]; [done |]. intros H. done.
Qed.

Definition loads (o : cache_op) : Prop := match o with CacheSave _ l | CacheRestart l => l = true | CacheRevert _ => True end.
Definition removes (o : cache_op) : Prop := match o with CacheRevert r => r = true | _ => True end.

Lemma save_config_right cfg st : st_faults st = [] ->
  st_faults (SaveConfig cfg st).2 = [] /\ recorded_spans (st_db (SaveConfig cfg st).2) = recorded_spans (st_db st)
  /\ is_ok (SaveConfig cfg st).1 = true.
Proof. intros H. by rewrite SaveConfig_run. Qed.

Lemma load_config_right st : st_faults st = [] -> exists cfg,
  (LoadConfig st).1 = Ok cfg /\ st_faults (LoadConfig st).2 = [] /\ recorded_spans (st_db (LoadConfig st).2) = recorded_spans (st_db st)
  /\ db_meta (st_db (LoadConfig st).2) = db_meta (st_db st).
Proof.
  destruct st as [db f]. cbn. intros ->. unfold LoadConfig, query, sbind, sret, call. cbn. destruct (db_config db); cbn; by eexists.
Qed.

(** A latched host redirects nothing. *)
Definition latch_of (h : cacheHost) : string := default ""%string (db_meta (st_db (qh_store h)) !! revertedMetaKey).
Definition host_right (h : cacheHost) : Prop := record_right h /\ (latch_of h <> ""%string -> qh_loaded h = []).

Lemma install_latch loaded h : st_faults (qh_store h) = [] -> latch_of (install_ruleset loaded h) = latch_of h.
Proof.
  intros Hf. unfold install_ruleset. destruct (_ && _); [| done]. unfold latch_of, persistAppliedQueryCache. cbn [qh_store].
  rewrite SetMeta_run by done. cbn. by rewrite lookup_insert_ne.
Qed.
Lemma start_latch h : st_faults (qh_store h) = [] -> latch_of (startQueryCache h) = latch_of h.
Proof.
  intros Hf. unfold startQueryCache, latch_of. cbn [stopQueryCache qh_cfg qh_store qh_loaded qh_reverted].
  destruct (String.eqb _ _); cbn [qh_store]; [done |]. by rewrite applied_run.
Qed.

(** An installation on a host that is not latched. *)
Lemma start_host loaded h : record_right h -> latch_of h = ""%string ->
  host_right (startQueryCache (install_ruleset loaded h))
  /\ (loaded = true -> served (startQueryCache (install_ruleset loaded h)) = redirected (startQueryCache (install_ruleset loaded h))).
Proof.
  intros Hr Hl. pose proof (install_right loaded h Hr) as Hi. split; [| intros ->; by apply installed_serves].
  split; [by apply start_right |]. rewrite start_latch, install_latch by apply Hi || apply Hr. done.
Qed.

Lemma op_right o h : removes o -> host_right h ->
  host_right (cache_do o h) /\ (loads o -> served (cache_do o h) = redirected (cache_do o h)).
Proof.
  intros Hrm [Hr Hlatch]. pose proof Hr as [Hf Hl]%record_right_db. destruct o as [cfg l|l|r]; cbn [cache_do loads removes] in *.
  - pose proof (save_config_right cfg (qh_store h) Hf) as (S1 & S2 & S3). destruct (SaveConfig cfg (qh_store h)) as [[u|e] st]; cbn in S1, S2, S3; [| done].
    cbn [stopQueryCache qh_loaded qh_running]. apply start_host.
    + apply record_right_db. cbn [qh_store qh_loaded]. destruct (other_meta revertedMetaKey "" st S1) as [-> ->]; [done |]. by rewrite S2.
    + unfold latch_of. cbn [qh_store]. rewrite SetMeta_run by done. cbn. by rewrite lookup_insert_eq.
  - pose proof (load_config_right (qh_store h) Hf) as (cfg & E & S1 & S2 & S3). destruct (LoadConfig (qh_store h)) as [a st]. cbn in E, S1, S2, S3. subst a.
    unfold Meta. rewrite MetaChecked_run by done. cbn [qh_reverted]. rewrite S3. fold (latch_of h).
    assert (H1 : record_right (mkCacheHost cfg st (negb (String.eqb (latch_of h) "")) (qh_loaded h) None)) by (apply record_right_db; cbn [qh_store qh_loaded]; by rewrite S2).
    destruct (String.eqb_spec (latch_of h) "") as [El|El]; cbn [negb] in *.
    + apply start_host; [done |]. unfold latch_of. cbn [qh_store]. by rewrite S3.
    + split; [split; [done |]; unfold latch_of; cbn [qh_store qh_loaded]; by rewrite S3 |].
      intros _. unfold served, redirected. cbn [qh_running qh_loaded]. by rewrite (Hlatch El).
  - subst r. set (st1 := (SetMeta revertedMetaKey "1" (qh_store h)).2). set (st2 := (SetMeta qcacheAppliedMetaKey "" st1).2).
    set (cfg := set_cfg_Mode _ _). cbn [stopQueryCache qh_running].
    assert (F1 : st_faults st1 = []) by (unfold st1; by rewrite SetMeta_run). assert (F2 : st_faults st2 = []) by (unfold st2; by rewrite SetMeta_run).
    pose proof (save_config_right cfg st2 F2) as (S1 & S2 & _). split; [| done]. split; [| done]. apply record_right_db. cbn [qh_store qh_loaded].
    split; [done |]. rewrite S2. unfold st2, recorded_spans. rewrite SetMeta_run by done. cbn. by rewrite lookup_insert_eq.
Qed.

(** [C35] The cache's sockets are the ports the ruleset in the kernel redirects:
    on a host whose store does not fail and whose reverts do remove the ruleset,
    after any saves, restarts and reverts, whichever rulesets [nft] took and
    whatever the mode, the record says what the kernel redirects; and where the
    last of them ended with the ruleset it asked for, the ports held open are
    the ports redirected, however many disarmed saves lie between. A revert
    whose removal is refused clears the record all the same
    ([refused_removal_unrecorded]). *)
Theorem sockets_match_redirects os h : Forall removes os -> host_right h ->
  host_right (cache_run os h)
  /\ (forall o, last os = Some o -> loads o -> served (cache_run os h) = redirected (cache_run os h)).
Proof.
  intros Hos Hh. induction os as [|o os IH] using rev_ind; [by split |].
  rewrite Forall_app, Forall_singleton in Hos. destruct Hos as [Hos Ho]. destruct (IH Hos) as [Hr _]. unfold cache_run in *. rewrite fold_left_app. cbn [fold_left].
  destruct (op_right o _ Ho Hr) as [H1 H2]. split; [done |]. intros o'. rewrite last_snoc. intros [= <-]. exact H2.
Qed.
End match_.

(** ** The timings *)

(** What the cache runs with keeps both floors: half a second between fetches,
    and answers kept for three of the intervals it really uses. *)
Theorem timings_floor qc burst refill idle upstream : 0 <= qcc_RefreshMs qc <= 3000000000000 -> -9000000000000 <= qcc_StaleMs qc <= 9000000000000 ->
  let '(refresh, stale) := queryCacheTimings qc in
  let c := New_config (mkQConfig refresh idle stale upstream burst refill) in
  500 * Millisecond <= q_RefreshEvery c /\ 3 * q_RefreshEvery c <= q_StaleAfter c.
Proof.
  intros Hr Hs. unfold queryCacheTimings, New_config, or_default, dmul, DefaultRefreshEvery, DefaultStaleAfter, Second, Millisecond.
  rewrite !(i64_id (_ * 1000000)) by go_lia.
  set (r0 := qcc_RefreshMs qc * 1000000). set (s0 := qcc_StaleMs qc * 1000000).
  set (r := if (0 <? r0) && (r0 <? 500 * 1000000) then 500 * 1000000 else r0).
  assert (Hrr : r = 0 \/ 500000000 <= r <= 3000000000000000000).
  { unfold r. destruct (Z.ltb_spec 0 r0), (Z.ltb_spec r0 (500 * 1000000)); cbn [andb]; lia. }
  clearbody r. destruct (Z.eqb_spec r 0) as [->|Hn].
  - change (0 <=? 0) with true. cbn [q_RefreshEvery q_StaleAfter]. rewrite (i64_id (3 * (3 * 1000000000))) by go_lia.
    set (s := if s0 =? 0 then _ else s0). clearbody s. destruct (Z.ltb_spec s (3 * (3 * 1000000000))); cbn; split_if; lia.
  - destruct Hrr as [|Hrr]; [done |]. rewrite (i64_id (3 * r)) by go_lia. set (s := if s0 =? 0 then _ else s0). clearbody s.
    cbn [q_RefreshEvery q_StaleAfter]. destruct (Z.ltb_spec s (3 * r)), (Z.leb_spec r 0); try lia; split_if; lia.
Qed.

(** ** Concrete hosts

    One codec: the number a list of spans is coded by, its binary digits written
    out. *)

Fixpoint bits_text (p : positive) : string :=
  match p with xH => "1" | xO p => String "0" (bits_text p) | xI p => String "1" (bits_text p) end.
Fixpoint text_bits (s : string) : option positive :=
  match s with
  | EmptyString => None
  | String "1" EmptyString => Some xH
  | String c s => p ← text_bits s; Some (if Ascii.eqb c "1" then xI p else xO p)
  end.
Lemma bits_text_some p : exists c s, bits_text p = String c s.
Proof. destruct p; by repeat eexists. Qed.
Lemma bits_text_written p : bits_text p <> ""%string.
Proof. destruct (bits_text_some p) as (c & s & ->). done. Qed.
Lemma text_bits_text p : text_bits (bits_text p) = Some p.
Proof.
  induction p as [p IH|p IH|]; [| | done]; cbn [bits_text]; destruct (bits_text_some p) as (c & s & E);
    rewrite E in *; cbn [text_bits] in *; by rewrite IH.
Qed.

Definition span_tuple (sp : QueryCacheSpan) : Z * Z * string * string :=
  (span_From sp, span_To sp, span_Target sp, span_Service sp).
Definition tuple_span (t : Z * Z * string * string) : QueryCacheSpan :=
  let '(a, b, c, d) := t in mkQueryCacheSpan a b c d.
Definition write_spans (spans : list QueryCacheSpan) : string := bits_text (encode (map span_tuple spans)).
Definition read_spans (s : string) : option (list QueryCacheSpan) :=
  match text_bits s with
  | Some p => option_map (map tuple_span) (decode (A := list (Z * Z * string * string)) p)
  | None => None
  end.
Lemma tuple_span_tuple (spans : list QueryCacheSpan) : map tuple_span (map span_tuple spans) = spans.
Proof. induction spans as [|[] spans IH]; cbn; [done | by f_equal]. Qed.
Lemma read_write (spans : list QueryCacheSpan) : read_spans (write_spans spans) = Some spans.
Proof. unfold read_spans, write_spans. rewrite text_bits_text, decode_encode. cbn. by rewrite tuple_span_tuple. Qed.

#[local] Instance binary_codec : SpansCodec := {
  MarshalSpans := write_spans; UnmarshalSpans := read_spans;
  spans_written spans _ := bits_text_written (encode (map span_tuple spans));
  spans_roundtrip spans _ := read_write spans }.

Definition cached_service (port end_ : Z) : Service :=
  mkService "game" "udp" port end_ true "" true 0 0 0 [] false 0.
Definition cached_config (mode : string) (port end_ : Z) : Config :=
  mkConfig mode (cfg_Frontend Defaults) (cfg_Overlay Defaults) (cfg_Paths Defaults) (cfg_Probe Defaults)
    (cfg_Failover Defaults) [cached_service port end_] [] "" (cfg_Egress Defaults) (cfg_Notify Defaults)
    (cfg_Protect Defaults) (mkQueryCacheConfig true 0 0) (cfg_Blocklist Defaults).
Definition cold_host : cacheHost := mkCacheHost Defaults (mkStore emptyDB []) false [] None.

(** Armed on two ports, disarmed onto one, and started again after a crash. *)
Lemma sockets_match_redirects_witness :
  cp_Port <$> served (cache_run [CacheSave (cached_config ModeArmed 27015 27016) true;
                                 CacheSave (cached_config ModeObserve 27015 0) true; CacheRestart true] cold_host) = [27015; 27016]
  /\ served (cache_run [CacheSave (cached_config ModeArmed 27015 27016) true;
                        CacheSave (cached_config ModeObserve 27015 0) true; CacheRestart true] cold_host)
     = redirected (cache_run [CacheSave (cached_config ModeArmed 27015 27016) true;
                              CacheSave (cached_config ModeObserve 27015 0) true; CacheRestart true] cold_host).
Proof.
  split; [by vm_compute |]. eapply sockets_match_redirects; [repeat constructor | | reflexivity | reflexivity].
  split; [by split |]. intros H. by destruct H.
Defined.

(** What a refused ruleset does to an armed host: the redirects of the ruleset
    before stay, and the sockets are those of the new configuration. *)
Example refused_load_blackholes :
  let h := cache_run [CacheSave (cached_config ModeArmed 27015 0) true; CacheSave (cached_config ModeArmed 28015 0) false] cold_host in
  (cp_Port <$> redirected h = [27015]) /\ (cp_Port <$> served h = [28015]).
Proof. by vm_compute. Qed.

(** What a refused removal does: the redirects stay, the record of them is gone,
    and no later start or disarmed save opens a socket for them. *)
Theorem refused_removal_unrecorded :
  let h := cache_run [CacheSave (cached_config ModeArmed 27015 0) true; CacheRevert false; CacheRestart true;
                      CacheSave (cached_config ModeObserve 27015 0) true] cold_host in
  (cp_Port <$> redirected h = [27015]) /\ (appliedQueryCacheSpans (qh_store h)).1 = [] /\ served h = [].
Proof. by vm_compute. Qed.

Lemma timings_floor_witness :
  let '(refresh, stale) := queryCacheTimings (mkQueryCacheConfig true 20 100) in
  let c := New_config (mkQConfig refresh 0 stale 0 0 0) in
  500 * Millisecond <= q_RefreshEvery c /\ 3 * q_RefreshEvery c <= q_StaleAfter c.
Proof. apply (timings_floor (mkQueryCacheConfig true 20 100) 0 0 0 0); cbn; lia. Defined.

(** A stored interval below zero passes under the floor: the cache runs with its
    own three seconds, and forgets an answer a tenth of a second old. *)
Example negative_refresh_unfloored :
  let '(refresh, stale) := queryCacheTimings (mkQueryCacheConfig true (-1) 100) in
  let c := New_config (mkQConfig refresh 0 stale 0 0 0) in
  q_RefreshEvery c = 3 * Second /\ q_StaleAfter c = 100 * Millisecond.
Proof. by vm_compute. Qed.
