(* ===== verification/Api.v ===== *)
(** * The portal's handlers ([internal/web/api.go])

    What a request does once the door of [Web] has let it in: the configuration
    it saves, the mode, pins, approvals and reverts, over the engine of
    [Engine].  A handler that reconfigures or reverts prepares what it will
    apply and then waits for the engine's reconfiguration lock, so requests
    overlap there: [po_wait] holds those that wait, and any of them can be next.

    [encoding/json] is the class [Bodies]: a body to the value it encodes.  The
    pages that only render are their names. *)

From S2P Require Import Prelude GoTime Float64 FloatBound Bytes Text Decimal Model Store Quota Registry Select Engine Validate Web.
From Stdlib Require Import SpecFloat.

(** ** Bodies and answers *)

Inductive config_body := BodyUnreadable | BodyTrailing | BodyConfig (cfg : Config).

(** Each under its cap, with unknown fields refused in a configuration.  A JSON
    number is a finite one. *)
Class Bodies := {
  config_of : bytes -> config_body;
  mode_of : bytes -> option string;
  path_of : bytes -> option Z;
  approve_of : bytes -> option (Z * float64 * float64);
  approve_numbers b id hours gb : approve_of b = Some (id, hours, gb) -> number hours /\ number gb }.

Inductive fault :=
| FBody | FTrailing | FRefused (e : refusal) | FMode | FTooLong | FExtraShape | FExtraCap
| FOp (e : OpErr) | FStore (e : StoreErr) | FNoSecret.

Inductive api_reply :=
| ROk | RConfig (cfg : Config) | RMode (mode : string) | RPinned (id : Z)
| RApproved (until : Time) (extra : Z) | RSecret (psk : string) | REvents (l : list Event)
| RHistory (id : Z) (since : Time) (bucket : Z) | RUsage (id : Z) (since : Time) (bucket : Z)
| RPage (h : ApiHandler) | RDoor (a : reply) | RStatic | RLogin
| RFault (code : Z) (f : fault).
Definition clientErr (f : fault) : api_reply := RFault 400 f.

(** What waits for [reconfMu]. *)
Inductive waits := WaitSave (cfg : Config) (answer : api_reply) | WaitRevert.

Definition intParam (get : string -> string) (key : string) (def : Z) : Z :=
  let v := get key in
  if String.eqb v "" then def else default def (Atoi (string_bytes v)).

(** ** Handlers *)

Section api.
Context `{Unicode} `{CaseFold} {B : Bodies}.
Context (url_parse : string -> option (string * string)) (LoadLocation : string -> option Location).
Context (local : Location) (psk : string).

Definition decodeConfig (b : bytes) (current : Config) : fault + Config :=
  match config_of b with
  | BodyUnreadable => inl FBody
  | BodyTrailing => inl FTrailing
  | BodyConfig cfg =>
      match validate url_parse LoadLocation (pinServerOwnedFields cfg current) with
      | Ok cfg => inr cfg
      | Err e => inl (FRefused e)
      end
  end.

Definition handleCheckConfig (b : bytes) (current : Config) : api_reply :=
  match decodeConfig b current with
  | inl f => clientErr f
  | inr cfg => RConfig (pinHostIdentity cfg current)
  end.

(** Up to the call of [Reconfigure]. *)
Definition handlePutConfig (b : bytes) (current : Config) : api_reply + waits :=
  match decodeConfig b current with
  | inl f => inl (clientErr f)
  | inr cfg => inr (WaitSave cfg ROk)
  end.

Definition handleMode (b : bytes) (current : Config) : api_reply + waits :=
  match mode_of b with
  | None => inl (clientErr FBody)
  | Some mode =>
      if negb (String.eqb mode ModeObserve) && negb (String.eqb mode ModeArmed) then inl (clientErr FMode)
      else inr (WaitSave (Model.set_cfg_Mode mode current) (RMode mode))
  end.

Definition handlePin (b : bytes) (now : Time) (h : Host) : api_reply * Host :=
  match path_of b with
  | None => (clientErr FBody, h)
  | Some id => match Pin id now h with
               | (Ok _, h) => (RPinned id, h)
               | (Err e, h) => (clientErr (FOp e), h)
               end
  end.

(** The duration and the extra bytes of an approval, or why it is refused. *)
Definition approval (hours gb : float64) : fault + Duration * Z :=
  let hours := if fle hours fzero then f64_of_Z 24 else hours in
  if fgt hours (f64_of_Z (24 * 31)) then inl FTooLong
  else if fis_nan gb || (match gb with S754_infinity _ => true | _ => false end) || flt gb fzero then inl FExtraShape
  else if fgt gb (f64_of_Z (Z.shiftr MaxLedgerValue 30)) then inl FExtraCap
  else inr (f64_to_int64 (fmul hours (f64_of_Z Hour)), f64_to_int64 (fmul gb (f64_of_Z (Z.shiftl 1 30)))).

Definition handleApprove (b : bytes) (now : Time) (h : Host) : api_reply * Host :=
  match approve_of b with
  | None => (clientErr FBody, h)
  | Some (id, hours, gb) =>
      match approval hours gb with
      | inl f => (clientErr f, h)
      | inr (dur, extra) =>
          match Approve LoadLocation id dur extra now h with
          | (Ok _, h) => (RApproved (Add now dur) extra, h)
          | (Err e, h) => (clientErr (FOp e), h)
          end
      end
  end.

Definition handleRevoke (b : bytes) (now : Time) (h : Host) : api_reply * Host :=
  match path_of b with
  | None => (clientErr FBody, h)
  | Some id => match RevokeApproval LoadLocation id now h with
               | (Ok _, h) => (ROk, h)
               | (Err e, h) => (clientErr (FOp e), h)
               end
  end.

Definition handleClearQuarantine (b : bytes) (now : Time) (h : Host) : api_reply * Host :=
  match path_of b with
  | None => (clientErr FBody, h)
  | Some id => (ROk, ClearQuarantine id now h)
  end.

Definition handlePSK : api_reply := if String.eqb psk "" then RFault 404 FNoSecret else RSecret psk.

Definition handleEvents (get : string -> string) (h : Host) : api_reply * Host :=
  let limit := intParam get "limit" 100 in
  let limit := if 500 <? limit then 500 else limit in
  match Events limit (h_st h) with
  | (Ok l, st) => (REvents l, mkHost (h_e h) st (h_main h))
  | (Err e, st) => (RFault 500 (FStore e), mkHost (h_e h) st (h_main h))
  end.

(** The two graphs: which query they ask. *)
Definition handleHistory (get : string -> string) (now : Time) : api_reply :=
  let hours := intParam get "hours" 6 in
  let hours := if hours <? 1 then 1 else hours in
  let hours := if 720 <? hours then 720 else hours in
  let bucket := hours * 3600 / 240 in
  let bucket := if bucket <? 10 then 10 else bucket in
  RHistory (intParam get "path_id" 0) (Add now (- (hours * Hour))) bucket.
Definition handleUsage (get : string -> string) (now : Time) : api_reply :=
  let days := intParam get "days" 31 in
  let days := if days <? 1 then 1 else days in
  let days := if 400 <? days then 400 else days in
  RUsage (intParam get "path_id" 0) (AddDate local now 0 0 (- days)) 3600.

(** A handler behind the door: an answer, or something that waits. *)
Definition stay (r : api_reply * Host) : (api_reply + waits) * Host := (inl r.1, r.2).
Definition handle (a : ApiHandler) (b : bytes) (get : string -> string) (now : Time) (h : Host)
    : (api_reply + waits) * Host :=
  let current := e_cfg (h_e h) in
  match a with
  | HPSK => (inl handlePSK, h)
  | HGetConfig => (inl (RConfig current), h)
  | HCheckConfig => (inl (handleCheckConfig b current), h)
  | HPutConfig => (handlePutConfig b current, h)
  | HEvents => stay (handleEvents get h)
  | HHistory => (inl (handleHistory get now), h)
  | HUsage => (inl (handleUsage get now), h)
  | HMode => (handleMode b current, h)
  | HPin => stay (handlePin b now h)
  | HApprove => stay (handleApprove b now h)
  | HRevoke => stay (handleRevoke b now h)
  | HClearQuarantine => stay (handleClearQuarantine b now h)
  | HRevert => (inr WaitRevert, h)
  | HStatus | HPresets | HProtectPresets | HGeoFetch | HPassword => (inl (RPage a), h)
  end.

(** ** The portal over the engine *)

Record Portal := mkPortal {
  po_attempts : gmap string attemptRecord; po_loginSem : nat; po_world : World; po_wait : list waits }.

Definition po_host (p : Portal) : Host := w_host (po_world p).
Definition po_server (p : Portal) : Server := mkServer (po_attempts p) (po_loginSem p) (h_st (po_host p)).
Definition with_server (s : Server) (p : Portal) : Portal :=
  mkPortal (sv_attempts s) (sv_loginSem s)
    (set_host (mkHost (h_e (po_host p)) (sv_st s) (h_main (po_host p))) (po_world p)) (po_wait p).
Definition with_world (w : World) (p : Portal) : Portal := mkPortal (po_attempts p) (po_loginSem p) w (po_wait p).

Record asked := mkAsked {
  as_trusted : bool; as_rq : Request; as_get : string -> string; as_now : Time; as_ck : login_clock; as_salt : bytes }.
Context (decode_login : bytes -> option loginRequest) (decode_password : bytes -> option passwordRequest).

Definition ServeHTTP (q : asked) (p : Portal) : option api_reply * Portal :=
  match serve url_parse (as_trusted q) (as_rq q) (as_now q) (po_server p) with
  | (Answered a, s) => (Some (RDoor a), with_server s p)
  | (RedirectToLogin, s) => (Some RLogin, with_server s p)
  | (Run Static, s) => (Some RStatic, with_server s p)
  | (Run Login, s) => let '(a, s) := handleLogin decode_login (as_rq q) (as_ck q) s in (Some (RDoor a), with_server s p)
  | (Run Logout, s) => let '(a, s) := handleLogout (as_rq q) s in (Some (RDoor a), with_server s p)
  | (Run (Api HPassword), s) =>
      let '(a, s) := handlePassword decode_password (as_trusted q) (as_rq q) (as_now q) (as_salt q) (as_ck q) s in
      (Some (RDoor a), with_server s p)
  | (Run (Api a), s) =>
      let p := with_server s p in
      let '(r, h) := handle a (rq_Body (as_rq q)) (as_get q) (as_now q) (po_host p) in
      let p := with_world (set_host h (po_world p)) p in
      match r with
      | inl r => (Some r, p)
      | inr w => (None, mkPortal (po_attempts p) (po_loginSem p) (po_world p) (po_wait p ++ [w]))
      end
  end.

(** The one that waits longest is not the next: a mutex has no queue.  Its
    answer, where it is not refused, is sent when [ActFinish] is done. *)
Definition take_turn (i : nat) (p : Portal) : option Portal :=
  w ← po_wait p !! i;
  w' ← step LoadLocation (match w with WaitSave cfg _ => ActSave cfg | WaitRevert => ActRevert end) (po_world p);
  Some (mkPortal (po_attempts p) (po_loginSem p) w' (delete i (po_wait p))).

Inductive event :=
| EvAsk (q : asked)
| EvTurn (i : nat)
| EvEngine (a : act).

(** What only a request or its turn does. *)
Definition portal_act (a : act) : bool :=
  match a with ActPin _ _ | ActClear _ _ | ActApprove _ _ _ _ | ActRevoke _ _ | ActRevert | ActSave _ => true | _ => false end.

Definition react (ev : event) (p : Portal) : option Portal :=
  match ev with
  | EvAsk q => Some (ServeHTTP q p).2
  | EvTurn i => take_turn i p
  | EvEngine a =>
      if portal_act a then None
      else w ← step LoadLocation a (po_world p);
           Some (match a with ActRestart _ _ _ _ => mkPortal ∅ 0 w [] | _ => with_world w p end)
  end.
Definition happenings (evs : list event) (p : Portal) : option Portal := fold_left (fun op ev => op ≫= react ev) evs (Some p).
End api.

(** ** Only a save writes the configuration *)

Definition row_of {X} (row : DB -> X) (st st' : Store) : Prop := row (st_db st') = row (st_db st).
Definition keeps_of {X} (row : DB -> X) {A} (m : SM A) : Prop := forall st, row_of row st (m st).2.

Section rows.
Context {X : Type} {row : DB -> X}.
#[local] Notation row_kept := (row_of row).
#[local] Notation keeps_row := (keeps_of row).

Lemma row_refl st : row_kept st st.
Proof. done. Qed.
Lemma row_trans a b c : row_kept a b -> row_kept b c -> row_kept a c.
Proof. unfold row_of. congruence. Qed.
Lemma row_call : keeps_row call.
Proof. intros [db [|[] f]]; done. Qed.
Lemma row_bind {A B} (m : SM A) (k : A -> SM B) : keeps_row m -> (forall a, keeps_row (k a)) -> keeps_row (sbind m k).
Proof. intros Hm Hk st. unfold sbind. specialize (Hm st). destruct (m st) as [[a|e] st']; [| done]. eapply row_trans; [exact Hm | apply Hk]. Qed.
Lemma row_ret {A} (a : A) : keeps_row (sret a).
Proof. done. Qed.
Lemma row_exec f : (forall d, row (f d) = row d) -> keeps_row (exec f).
Proof. intros Hf. apply row_bind; [apply row_call |]. intros _ st. apply Hf. Qed.
Lemma row_query {A} (f : DB -> A) : keeps_row (query f).
Proof. apply row_bind; [apply row_call |]. by intros _ st. Qed.
Lemma row_transaction body : keeps_row body -> keeps_row (transaction body).
Proof.
  intros Hb st. unfold transaction. assert (H : keeps_row (sbind call (fun _ => sbind body (fun _ => call)))).
  { apply row_bind; [apply row_call | intros _; apply row_bind; [done | intros _; apply row_call]]. }
  specialize (H st). by destruct (sbind call _ st) as [[u|e] st'].
Qed.
#[local] Hint Resolve row_refl row_call row_ret row_query : core.

(** A table the log is not part of. *)
Context (not_log : forall ts kind path m d, row (append_event ts kind path m d) = row d).
Lemma event_row now kind path m st : row_kept st (log_event now kind path m st).
Proof. by apply (row_exec (append_event _ _ _ _)). Qed.
Lemma quota_events_row now cfg prev l : forall h, row_kept (h_st h) (h_st (fold_left (quota_event now cfg prev) l h)).
Proof.
  induction l as [|[id d] l IH]; intros h; [done |]. cbn [fold_left]. eapply row_trans; [| apply IH]. unfold quota_event.
  split_if; [apply event_row |]. split_if; [apply event_row | done].
Qed.
Lemma quota_loop_row LoadLocation now grants previous ps : forall ds st,
  row_kept st (fold_left (quota_step LoadLocation now grants previous) ps (ds, st)).2.
Proof.
  induction ps as [|p ps IH]; intros ds st; [done |]. cbn [fold_left].
  assert (H : row_kept st (quota_step LoadLocation now grants previous (ds, st) p).2).
  { unfold quota_step, Store.Usage. set (f := fun d => _). pose proof (row_query f st). by destruct (query f st) as [[used|e] st']. }
  destruct (quota_step _ _ _ _ (ds, st) p) as [ds' st']. eapply row_trans; [exact H | apply IH].
Qed.
Lemma refreshQuota_row LoadLocation now h : row_kept (h_st h) (h_st (refreshQuota LoadLocation now h)).
Proof.
  unfold refreshQuota, Grants. pose proof (row_query db_grants (h_st h)) as Hg.
  destruct (query db_grants (h_st h)) as [[grants|e] st]; cbn [snd] in Hg; [| done].
  pose proof (quota_loop_row LoadLocation now grants (e_quotaDec (h_e h)) (cfg_Paths (e_cfg (h_e h))) ∅ st) as Hq.
  destruct (fold_left _ _ (∅, st)) as [ds st']. eapply row_trans; [| apply quota_events_row]. by eapply row_trans.
Qed.
End rows.

#[local] Notation row_kept := (row_of db_config).
#[local] Notation keeps_row := (keeps_of db_config).
#[local] Hint Resolve row_refl row_call row_ret row_query : core.
Lemma row_event now kind path m st : row_kept st (log_event now kind path m st).
Proof. by apply event_row. Qed.
Lemma row_samples now l : keeps_row (AddPathSamples now l).
Proof.
  unfold AddPathSamples. destruct l as [|s l]; [done |]. apply row_transaction, row_bind; [apply row_call |]. intros _.
  generalize (s :: l). intros l'. induction l' as [|s' l' IH]; [done |]. cbn. apply row_bind; [by apply row_exec | done].
Qed.

(** The engine keeps its configuration and its row. *)
Definition cfg_kept (h h' : Host) : Prop := e_cfg (h_e h') = e_cfg (h_e h) /\ row_kept (h_st h) (h_st h').
Lemma cfg_refl h : cfg_kept h h.
Proof. done. Qed.
Lemma cfg_trans a b c : cfg_kept a b -> cfg_kept b c -> cfg_kept a c.
Proof. intros [H1 H2] [H3 H4]. split; [congruence | by eapply row_trans]. Qed.
Lemma cfg_event clock kind path fmt args h : cfg_kept h (add_event clock kind path fmt args h).
Proof. split; [done | apply row_event]. Qed.
Lemma cfg_event_l clock kind path fmt args h h' : cfg_kept h h' -> cfg_kept h (add_event clock kind path fmt args h').
Proof. intros H. eapply cfg_trans; [exact H | apply cfg_event]. Qed.
Lemma cfg_store h st : row_kept (h_st h) st -> cfg_kept h (mkHost (h_e h) st (h_main h)).
Proof. by split. Qed.
Lemma cfg_of_harmless h h' : harmless h h' -> row_kept (h_st h) (h_st h') -> cfg_kept h h'.
Proof. intros (_ & _ & _ & H & _). by split. Qed.
Lemma cfg_on_engine f h : e_cfg (f (h_e h)) = e_cfg (h_e h) -> cfg_kept h (on_engine f h).
Proof. by split. Qed.
#[local] Hint Resolve cfg_refl cfg_event cfg_event_l cfg_store : core.

Lemma cfg_SetActivePath iface a h : cfg_kept h (SetActivePath iface a h).2.
Proof. unfold SetActivePath. destruct (applying _), a; done. Qed.

Lemma cfg_evaluate_apply a clock pd h : cfg_kept h (evaluate_apply a clock pd h).2.
Proof.
  unfold evaluate_apply. destruct (_ && _); [| done]. destruct (e_reverted (h_e h)); [done |].
  pose proof (cfg_SetActivePath (path_Iface (path_or_zero (pd_cfg pd) (pd_chosen pd))) a h) as Hs.
  destruct (SetActivePath _ _ h) as [[err|] h']; cbn [snd] in *; [by apply cfg_event_l |].
  unfold commitSwitch. apply cfg_event_l. eapply cfg_trans; [exact Hs | done].
Qed.
Lemma cfg_onResult now r h : cfg_kept h (onResult now r h).
Proof.
  apply cfg_of_harmless; [apply onResult_harmless |]. unfold onResult. destruct (_ !! _); [| done]. destruct (Tracker.Observe _ _ _) as [tn tr].
  destruct (negb _); [done |]. destruct (Tracker.tr_To tn); try done; [apply row_event |]. split_if; [eapply row_trans |]; apply row_event.
Qed.
Lemma cfg_persistSamples now h : cfg_kept h (persistSamples now h).
Proof. apply cfg_of_harmless; [apply persistSamples_harmless |]. unfold persistSamples. destruct (e_reverted _); [done |]. apply row_samples. Qed.
Lemma cfg_refreshQuota LoadLocation now h : cfg_kept h (refreshQuota LoadLocation now h).
Proof. apply cfg_of_harmless; [apply refreshQuota_harmless | by apply refreshQuota_row]. Qed.
Lemma cfg_Approve LoadLocation path dur extra now h : cfg_kept h (Approve LoadLocation path dur extra now h).2.
Proof.
  unfold Approve. destruct (PathByID _ path) as [p|]; [| done]. set (m := sbind _ _).
  assert (H : keeps_row m) by (apply row_bind; [apply row_query | intros used; by apply row_exec]). specialize (H (h_st h)).
  destruct (m (h_st h)) as [[u|e] st]; [| by apply cfg_store]. cbn [snd]. eapply cfg_trans; [| apply cfg_refreshQuota]. by apply cfg_event_l, cfg_store.
Qed.
Lemma cfg_Revoke LoadLocation path now h : cfg_kept h (RevokeApproval LoadLocation path now h).2.
Proof.
  unfold RevokeApproval. assert (H : row_kept (h_st h) (ClearGrant path (h_st h)).2) by by apply row_exec.
  destruct (ClearGrant path (h_st h)) as [[u|e] st]; [| by apply cfg_store]. cbn [snd]. eapply cfg_trans; [| apply cfg_refreshQuota]. by apply cfg_event_l, cfg_store.
Qed.
Lemma cfg_Pin path now h : cfg_kept h (Pin path now h).2.
Proof.
  apply cfg_of_harmless; [apply Pin_harmless |]. unfold Pin. destruct (path =? 0); [apply row_event |].
  destruct (PathByID _ path); [| done]. destruct (block_of _ path); try done; apply row_event.
Qed.
Lemma cfg_Clear path now h : cfg_kept h (ClearQuarantine path now h).
Proof. apply cfg_of_harmless; [apply ClearQuarantine_harmless | apply row_event]. Qed.
Lemma cfg_report clock pd h : cfg_kept h (evaluate_report clock pd h).
Proof. unfold evaluate_report. repeat split_if; auto. Qed.
Lemma cfg_reconcile ex read a clock h : cfg_kept h (reconcileRouting ex read a clock h).
Proof.
  unfold reconcileRouting. destruct (e_reverted _); [done |]. destruct (PathByID _ _) as [ap|]; [| done].
  destruct (_ || _); [done |]. destruct (_ && _); [| done]. pose proof (cfg_SetActivePath (path_Iface ap) a h) as Hs.
  destruct (SetActivePath _ _ h) as [[err|] h']; auto.
Qed.
Lemma cfg_system route nft clock h : cfg_kept h (applySystemConfig route nft clock h).
Proof.
  unfold applySystemConfig. set (h1 := match PathByID _ _ with Some _ => _ | None => _ end).
  assert (H1 : cfg_kept h h1).
  { unfold h1. destruct (PathByID _ _) as [p|]; [| done]. pose proof (cfg_SetActivePath (path_Iface p) route h) as Hs.
    destruct (SetActivePath _ _ h) as [[err|] h']; auto. }
  clearbody h1. destruct (negb _); [done |]. destruct nft; [by apply cfg_event_l | by eapply cfg_trans].
Qed.
Lemma startProbers_cfg dial e : e_cfg (startProbers dial e) = e_cfg e.
Proof. unfold startProbers. by destruct (fold_left _ _ _). Qed.
Lemma cfg_finish LoadLocation dial m d now h : cfg_kept h (reconfigure_finish LoadLocation dial m d now h).
Proof.
  unfold reconfigure_finish. set (h1 := refreshQuota _ _ _).
  assert (H1 : cfg_kept h h1) by (eapply cfg_trans; [apply cfg_on_engine, startProbers_cfg | apply cfg_refreshQuota]).
  split_if; auto.
Qed.

(** ** The door leaves the configuration alone *)

Section door_row.
Context `{Unicode} `{CaseFold}.
Context (url_parse : string -> option (string * string)).

Definition door_kept (s s' : Server) : Prop := row_kept (sv_st s) (sv_st s').

Lemma row_session token now : keeps_row (Session token now).
Proof.
  intros st. unfold Session. pose proof (row_query (row := db_config) (fun d => db_sessions d !! token) st) as Hq.
  destruct (query _ st) as [[[[user exp]|]|e] st']; cbn [snd] in Hq; try done. split_if; [| done].
  eapply row_trans; [exact Hq |]. by apply row_exec.
Qed.
Lemma row_credentials user st : row_kept st (credentials user st).2.
Proof.
  unfold credentials. pose proof (row_query (row := db_config) (fun d => db_users d !! user) st) as Hq.
  by destruct (query _ st) as [[[[a b]|]|e] st'].
Qed.
Lemma row_check user pw st : row_kept st (CheckPassword user pw st).2.
Proof.
  unfold CheckPassword. pose proof (row_credentials user st) as Hq. destruct (credentials user st) as [cred st'].
  by destruct (default _ cred).
Qed.
Lemma row_new_session user ttl now b : keeps_row (NewSession user ttl now b).
Proof. apply row_bind; [apply row_call |]. intros _ st. by destruct (db_sessions (st_db st) !! _). Qed.

Lemma sessionUser_kept rq now s : door_kept s (sessionUser rq now s).2.
Proof.
  unfold sessionUser. destruct (rq_Cookie rq) as [token|]; [| done]. pose proof (row_session token now (sv_st s)) as Hr.
  by destruct (Session _ _ _) as [[u|e] st].
Qed.
Lemma serve_kept trusted rq now s : door_kept s (serve url_parse trusted rq now s).2.
Proof.
  pose proof (sessionUser_kept rq now s) as Hs. unfold serve, requireAuth. destruct (dispatch _ _); try done.
  - destruct trusted; [done |]. destruct (sessionUser rq now s) as [[u|] s']; [| done]. by split_if.
  - split_if; [| done]. by destruct (sessionUser rq now s) as [[u|] s'].
Qed.
Lemma door_trans a b c : door_kept a b -> door_kept b c -> door_kept a c.
Proof. apply row_trans. Qed.
Lemma acquire_kept s s' : acquire s = Some s' -> door_kept s s'.
Proof. unfold acquire. split_if; [| done]. by intros [= <-]. Qed.
Lemma grant_kept host req ck s : door_kept s (grant_session host req ck s).2.
Proof.
  unfold grant_session. pose proof (row_new_session (lr_Username req) sessionTTL (ck_session ck) (ck_rand ck) (sv_st (clearFailures host s))) as Hn.
  by destruct (NewSession _ _ _ _ _) as [[t|e] st].
Qed.
Lemma login_kept decode rq ck s : door_kept s (handleLogin decode rq ck s).2.
Proof.
  unfold handleLogin. destruct (throttled _ _ _ _); [done |]. destruct (decode _) as [req|]; [| done].
  set (s1 := recordFailure _ _ s). assert (H1 : door_kept s s1) by done. clearbody s1.
  destruct (acquire s1) as [s2|] eqn:Ea; [| done]. apply acquire_kept in Ea. apply (door_trans _ _ _ H1) in Ea. clear H1.
  unfold check_password. pose proof (row_check (lr_Username req) (lr_Password req) (sv_st s2)) as Hc.
  destruct (CheckPassword _ _ _) as [ok st]. cbn [snd] in Hc. eapply door_trans; [exact Ea |]. destruct ok; [| done].
  eapply door_trans; [| apply grant_kept]. done.
Qed.
Lemma logout_kept rq s : door_kept s (handleLogout rq s).2.
Proof. unfold handleLogout. cbn [snd]. destruct (rq_Cookie rq); [| done]. by apply row_exec. Qed.
Lemma caller_kept trusted rq req now s : door_kept s (password_caller trusted rq req now s).2.
Proof.
  unfold password_caller. destruct trusted; [done |]. pose proof (sessionUser_kept rq now s) as Hs.
  destruct (sessionUser rq now s) as [[user|] s']; [| done]. cbn [snd] in Hs. pose proof (row_check user (pr_Current req) (sv_st s')) as Hc.
  destruct (CheckPassword _ _ _) as [[] st]; eapply door_trans; [exact Hs | done | exact Hs | done].
Qed.
Lemma password_kept decode trusted rq now salt ck s : door_kept s (handlePassword decode trusted rq now salt ck s).2.
Proof.
  unfold handlePassword. destruct (decode _) as [req|]; [| done]. split_if; [done |].
  pose proof (caller_kept trusted rq req now s) as Hk. destruct (password_caller trusted rq req now s) as [[refusal|user] s1]; [done |]. cbn [snd] in Hk.
  eapply door_trans; [exact Hk |]. clear Hk. set (name := if String.eqb user "" then _ else user).
  assert (Hu : row_kept (sv_st s1) (CreateUser name (pr_New req) salt (sv_st s1)).2) by by apply row_exec.
  destruct (CreateUser name _ _ _) as [[u|e] st]; [| done]. cbn [snd] in Hu.
  assert (Hd : row_kept (sv_st s1) (DeleteSessionsFor name st).2) by (eapply row_trans; [exact Hu | by apply row_exec]).
  destruct trusted; [done |]. pose proof (row_new_session name sessionTTL (ck_session ck) (ck_rand ck) (DeleteSessionsFor name st).2) as Hn.
  destruct (NewSession _ _ _ _ _) as [[t|e] st']; unfold door_kept; cbn; eapply row_trans; done.
Qed.
End door_row.

(** ** Every configuration is one the gate accepts *)

Section gate_sound.
Context `{Unicode} `{CaseFold} {B : Bodies}.
Context (url_parse : string -> option (string * string)) (LoadLocation : string -> option Location).
Context (local : Location) (psk : string).
Context (decode_login : bytes -> option loginRequest) (decode_password : bytes -> option passwordRequest).
Context (ov : OverlayConfig).

Definition gate_sound (c : Config) : Prop := config_ok LoadLocation c /\ cfg_Overlay c = ov.

Lemma sound_mode m c : m = ModeObserve \/ m = ModeArmed -> gate_sound c -> gate_sound (Model.set_cfg_Mode m c).
Proof. intros Hm [[] Ho]. split; [| done]. by constructor. Qed.
Lemma sound_observe c : gate_sound c -> gate_sound (Engine.set_cfg_Mode ModeObserve c).
Proof. intros Hc. apply (sound_mode ModeObserve) in Hc; [done | by left]. Qed.
Lemma sound_normalise c : gate_sound c -> gate_sound (Normalise c).
Proof.
  intros [[] Ho]. split; [| done]. constructor; try done. unfold Normalise. cbn.
  destruct co_selection as [E|E]; rewrite E; [by left | by right].
Qed.

(** In force, and in the store. *)
Definition cfg_in_force (h : Host) : Prop :=
  gate_sound (e_cfg (h_e h)) /\ exists c, db_config (st_db (h_st h)) = Some c /\ gate_sound c.
Lemma in_force_kept h h' : cfg_kept h h' -> cfg_in_force h -> cfg_in_force h'.
Proof. intros [H1 H2] [H3 H4]. unfold cfg_in_force. by rewrite H1, H2. Qed.

Lemma save_row cfg st :
  match SaveConfig cfg st with
  | (Ok _, st') => db_config (st_db st') = Some cfg
  | (Err _, st') => row_kept st st'
  end.
Proof. destruct st as [db [|[] f]]; done. Qed.

Lemma row_SetMeta key v st : row_kept st (SetMeta key v st).2.
Proof. by apply row_exec. Qed.
Lemma swap_in_force cfg h : gate_sound cfg -> cfg_in_force h -> cfg_in_force (reconfigure_swap cfg h).2.
Proof.
  intros Hc Hh. unfold reconfigure_swap. pose proof (save_row cfg (h_st h)) as Hs.
  destruct (SaveConfig cfg (h_st h)) as [[u|e] st]; [| by eapply in_force_kept; [apply cfg_store |]].
  split; [done |]. exists cfg. split; [| done]. cbn [snd h_st]. by rewrite row_SetMeta.
Qed.

Lemma revert_in_force removed clock h : cfg_in_force h -> cfg_in_force (revert_finish removed clock h).
Proof.
  intros [H1 (c & H2 & H3)]. unfold revert_finish. eapply in_force_kept; [apply cfg_event |]. split; [by apply sound_observe |].
  cbn [h_st]. set (st := (SetMeta _ _ _).2). assert (E : row_kept (h_st h) st) by by apply row_exec.
  pose proof (save_row (Engine.set_cfg_Mode ModeObserve (e_cfg (h_e h))) st) as Hs.
  destruct (SaveConfig _ st) as [[u|e] st']; cbn [snd].
  - eexists. split; [exact Hs | by apply sound_observe].
  - exists c. by rewrite Hs, E.
Qed.

Lemma row_Meta key st : row_kept st (Meta key st).2.
Proof. unfold Meta, MetaChecked. set (f := fun d => _). pose proof (row_query (row := db_config) f st). by destruct (query f st) as [[v|e] st']. Qed.
Lemma load_row st c cfg st' : db_config (st_db st) = Some c -> LoadConfig st = (Ok cfg, st') -> cfg = Normalise c /\ row_kept st st'.
Proof.
  intros H1. unfold LoadConfig, query, sbind. pose proof (row_call (row := db_config) st) as R. destruct (call st) as [[u|e] st0]; [| done].
  cbn [snd] in R. rewrite R, H1. by intros [= <- <-].
Qed.
Lemma seed_cfg via e : e_cfg (seedActiveFromKernel via e) = e_cfg e.
Proof. unfold seedActiveFromKernel. by repeat case_match. Qed.
Lemma restart_in_force now via nft dial w w' : cfg_in_force (w_host w) -> restart now via nft dial w = Some w' -> cfg_in_force (w_host w').
Proof.
  intros [_ (c & H1 & H2)]. unfold restart. destruct (LoadConfig (h_st (w_host w))) as [[cfg|e] st] eqn:El; [| done].
  destruct (load_row _ _ _ _ H1 El) as [-> R1]. unfold New. pose proof (row_Meta revertedMetaKey st) as R2.
  destruct (Meta revertedMetaKey st) as [latch st']. cbn [snd] in R2. set (e := mkEngine _ _ _ _ _ _ _ _ _ _ _ _ _ _ _).
  assert (Hh : cfg_in_force (mkHost e st' (h_main (w_host w)))).
  { split; [by apply sound_normalise |]. exists c. split; [| done]. cbn [h_st]. by rewrite R2, R1. }
  intros [= <-]. cbn [w_host]. case_match; [done |]. eapply in_force_kept; [| exact Hh].
  eapply cfg_trans; [apply (cfg_system None nft now) |]. apply cfg_on_engine. rewrite startProbers_cfg. apply seed_cfg.
Qed.

#[local] Hint Resolve cfg_report cfg_onResult cfg_persistSamples cfg_refreshQuota cfg_reconcile cfg_Pin cfg_Clear cfg_Approve
  cfg_Revoke cfg_system cfg_finish : core.

Lemma cfg_decide now h : cfg_kept h (on_engine (fun _ => (evaluate_decide now (h_e h)).2) h).
Proof. by apply cfg_of_harmless; [apply evaluate_decide_harmless |]. Qed.
Lemma cfg_latch h : cfg_kept h (revert_latch h).
Proof. split; [done |]. apply row_SetMeta. Qed.

(** A step of the engine, where a save is of a sound configuration. *)
Definition act_sound (a : act) : Prop := match a with ActSave cfg => gate_sound cfg | _ => True end.
Lemma step_in_force a w w' : act_sound a -> cfg_in_force (w_host w) -> step LoadLocation a w = Some w' -> cfg_in_force (w_host w').
Proof.
  intros Ha Hw. assert (K : forall h, cfg_kept (w_host w) h -> cfg_in_force h) by (intros h Hk; by eapply in_force_kept).
  pose proof (fun a c p => K _ (cfg_evaluate_apply a c p (w_host w))) as Happly.
  pose proof (fun n => K _ (cfg_decide n (w_host w))) as Hdecide.
  destruct a; try (by intros; eapply restart_in_force); cbn [step act_sound] in *; unfold loop, set_host; intros Hs;
    repeat case_match; simplify_eq; cbn [w_host]; auto;
    try (apply revert_in_force; done); try (apply K, cfg_latch);
    match goal with
    | H : evaluate_decide ?n _ = _ |- _ => specialize (Hdecide n); by rewrite H in Hdecide
    | H : evaluate_apply ?a ?c ?p _ = _ |- _ => specialize (Happly a c p); by rewrite H in Happly
    | H : reconfigure_swap ?c ?h = _ |- _ => pose proof (swap_in_force c h Ha Hw) as Hk; by rewrite H in Hk
    end.
Qed.

(** *** The portal *)

Definition waiting_sound (w : waits) : Prop := match w with WaitSave cfg _ => gate_sound cfg | WaitRevert => True end.
Definition portal_sound (p : Portal) : Prop := cfg_in_force (po_host p) /\ Forall waiting_sound (po_wait p).

Lemma decode_sound b current cfg : cfg_Overlay current = ov -> decodeConfig url_parse LoadLocation b current = inr cfg -> gate_sound cfg.
Proof.
  intros Ho. unfold decodeConfig. destruct (config_of b) as [| |c]; try done. destruct (validate _ _ _) as [c'|e] eqn:Ev; [| done].
  intros [= <-]. split; [by eapply validate_ok |]. apply validate_run, ac_same in Ev as (_ & -> & _). exact Ho.
Qed.

Lemma handle_sound a b get now h : cfg_in_force h ->
  cfg_kept h (handle url_parse LoadLocation local psk a b get now h).2
  /\ (forall w, (handle url_parse LoadLocation local psk a b get now h).1 = inr w -> waiting_sound w).
Proof.
  intros [[Hc Ho] _]. assert (K : forall (r : api_reply * Host), cfg_kept h r.2 -> cfg_kept h (stay r).2 /\ (forall w, (stay r).1 = inr w -> waiting_sound w)) by done.
  destruct a; cbn [handle]; try (split; [done |]; by intros w [= <-]); try apply K.
  - split; [done |]. unfold handlePutConfig. cbn [fst]. destruct (decodeConfig _ _ _ _) as [f|cfg] eqn:Ed; [done |].
    intros w [= <-]. by eapply decode_sound.
  - unfold handleEvents. set (l := if 500 <? _ then 500 else _). assert (R : row_kept (h_st h) (Events l (h_st h)).2) by apply row_query.
    by destruct (Events l (h_st h)) as [[es|e] st].
  - split; [done |]. unfold handleMode. cbn [fst]. destruct (mode_of b) as [m|]; [| done].
    destruct (String.eqb_spec m ModeObserve) as [E|E], (String.eqb_spec m ModeArmed) as [E'|E']; cbn [negb andb]; try done;
      intros w [= <-]; (apply sound_mode; [by auto | done]).
  - unfold handlePin. destruct (path_of b) as [id|]; [| done]. pose proof (cfg_Pin id now h). by destruct (Pin id now h) as [[u|e] h'].
  - unfold handleApprove. destruct (approve_of b) as [[[id hours] gb]|]; [| done]. destruct (approval hours gb) as [f|[dur extra]]; [done |].
    pose proof (cfg_Approve LoadLocation id dur extra now h). by destruct (Approve _ _ _ _ _ h) as [[u|e] h'].
  - unfold handleRevoke. destruct (path_of b) as [id|]; [| done]. pose proof (cfg_Revoke LoadLocation id now h). by destruct (RevokeApproval _ id now h) as [[u|e] h'].
  - unfold handleClearQuarantine. destruct (path_of b) as [id|]; [| done]. apply cfg_Clear.
Qed.

Lemma with_server_sound s p : door_kept (po_server p) s -> portal_sound p -> portal_sound (with_server s p).
Proof. intros Hk [Hh Hw]. split; [| done]. by eapply in_force_kept; [apply cfg_store |]. Qed.

Lemma ask_sound q p : portal_sound p ->
  portal_sound (ServeHTTP url_parse LoadLocation local psk decode_login decode_password q p).2.
Proof.
  intros Hp. unfold ServeHTTP. pose proof (serve_kept url_parse (as_trusted q) (as_rq q) (as_now q) (po_server p)) as Hs.
  destruct (serve _ _ _ _ _) as [v s]. cbn [snd] in Hs. pose proof (with_server_sound s p Hs Hp) as Hp'.
  assert (Hdoor : forall a s', door_kept s s' -> portal_sound (Some (RDoor a), with_server s' p).2).
  { intros a s' Hk. apply with_server_sound; [by eapply door_trans | done]. }
  destruct v as [[| |a|]| |]; try exact Hp'.
  - pose proof (login_kept decode_login (as_rq q) (as_ck q) s) as Hk. destruct (handleLogin _ _ _ _) as [a s']. by apply Hdoor.
  - pose proof (logout_kept (as_rq q) s) as Hk. destruct (handleLogout _ _) as [a s']. by apply Hdoor.
  - set (p1 := with_server s p) in *. assert (Hother : portal_sound (let '(r, h) := handle url_parse LoadLocation local psk a (rq_Body (as_rq q)) (as_get q) (as_now q) (po_host p1) in
      match r with
      | inl r => (Some r, with_world (set_host h (po_world p1)) p1)
      | inr w => (None, mkPortal (po_attempts p1) (po_loginSem p1) (set_host h (po_world p1)) (po_wait p1 ++ [w]))
      end).2).
    { destruct Hp' as [Hh Hw]. destruct (handle_sound a (rq_Body (as_rq q)) (as_get q) (as_now q) (po_host p1) Hh) as [H1 H2].
      destruct (handle _ _ _ _ _ _ _ _ _) as [[r|w] h]; cbn [fst snd] in *; (split; [by eapply in_force_kept |]); [done |].
      apply Forall_app. split; [done |]. apply Forall_singleton. by apply H2. }
    destruct a; try exact Hother.
    pose proof (password_kept decode_password (as_trusted q) (as_rq q) (as_now q) (as_salt q) (as_ck q) s) as Hk.
    destruct (handlePassword _ _ _ _ _ _ _) as [a s']. by apply Hdoor.
Qed.

Lemma react_sound ev p p' : portal_sound p ->
  react url_parse LoadLocation local psk decode_login decode_password ev p = Some p' -> portal_sound p'.
Proof.
  intros Hp. destruct ev as [q|i|a]; cbn [react].
  - intros [= <-]. by apply ask_sound.
  - destruct Hp as [Hh Hw]. unfold take_turn. destruct (po_wait p !! i) as [w|] eqn:Ei; [| done]. cbn [mbind option_bind].
    destruct (step _ _ _) as [w'|] eqn:Es; [| done]. intros [= <-]. pose proof (Forall_lookup_1 _ _ _ _ Hw Ei) as Hw1. split.
    + eapply step_in_force; [| exact Hh | exact Es]. by destruct w.
    + by apply Forall_delete.
  - destruct (portal_act a) eqn:Ea; [done |]. destruct (step _ _ _) as [w'|] eqn:Es; [| done]. cbn [mbind option_bind].
    intros [= <-]. destruct Hp as [Hh Hw].
    assert (cfg_in_force (w_host w')) by (eapply step_in_force; [| exact Hh | exact Es]; by destruct a).
    destruct a; by split.
Qed.

(** [C34] Whatever is asked of the portal, by whom and in whatever order, and whatever
    the engine and its store do meanwhile - restarts, reverts and failed writes
    included - the configuration in force and the one in the store are ones that
    [validate] promises about, at the overlay the host was bootstrapped with. *)
Theorem portal_config_sound evs p p' : portal_sound p ->
  happenings url_parse LoadLocation local psk decode_login decode_password evs p = Some p' -> portal_sound p'.
Proof.
  unfold happenings. intros Hp. revert p' . induction evs as [|ev evs IH] using rev_ind; intros p'; [by intros [= <-] |].
  rewrite fold_left_app. cbn [fold_left]. destruct (fold_left _ evs (Some p)) as [p1|]; [| done]. cbn [mbind option_bind].
  apply react_sound. by apply IH.
Qed.
End gate_sound.

(** ** Approvals are bounded *)





Lemma number_24 : number (f64_of_Z 24).
Proof. replace (f64_of_Z 24) with (S754_finite false 6755399441055744 (-48)) by by vm_compute. split; [done |]. split; [done |]. by left. Qed.




(** ** Only a user moves the engine *)

Section strangers.
Context `{Unicode} `{CaseFold} {B : Bodies}.
Context (url_parse : string -> option (string * string)) (LoadLocation : string -> option Location).
Context (local : Location) (psk : string).
Context (decode_login : bytes -> option loginRequest) (decode_password : bytes -> option passwordRequest).

(** What a request can move of the engine: its state, the route, what waits for
    the lock, and how far the holder has come. *)
Definition engine_side (p : Portal) : Engine * option string * list waits * phase :=
  (h_e (po_host p), h_main (po_host p), po_wait p, w_phase (po_world p)).

(** A request over the network without a running session, whatever it asks for
    and however it is dressed, leaves the engine, the kernel's route and the
    requests in waits as they are, and the stored configuration too. *)
Theorem strangers_move_nothing q p : as_trusted q = false ->
  (forall user, ~ signed_in (as_rq q) (as_now q) (po_server p) user) ->
  let p' := (ServeHTTP url_parse LoadLocation local psk decode_login decode_password q p).2 in
  engine_side p' = engine_side p /\ db_config (st_db (h_st (po_host p'))) = db_config (st_db (h_st (po_host p))).
Proof.
  intros Ht Hno. cbn zeta. unfold ServeHTTP. rewrite Ht.
  pose proof (serve_kept url_parse false (as_rq q) (as_now q) (po_server p)) as Hs.
  assert (Hin : forall a s, serve url_parse false (as_rq q) (as_now q) (po_server p) = (Run (Api a), s) -> False).
  { intros a s. unfold serve. destruct (dispatch _ _) as [| |a'|]; try done.
    - destruct (requireAuth url_parse false (as_rq q) (as_now q) (po_server p)) as [[r|] s'] eqn:Ea; [done |]. intros _.
      apply requireAuth_pass in Ea as ((user & Hu) & _). by eapply Hno.
    - split_if; [| done]. by destruct (sessionUser _ _ _) as [[u|] s']. }
  destruct (serve _ _ _ _ _) as [v s]. cbn [snd] in Hs. destruct v as [[| |a|]| |]; try (split; [done | exact Hs]).
  - pose proof (login_kept decode_login (as_rq q) (as_ck q) s) as Hk. destruct (handleLogin _ _ _ _) as [a s']. split; [done |]. by apply (door_trans _ _ _ Hs).
  - pose proof (logout_kept (as_rq q) s) as Hk. destruct (handleLogout _ _) as [a s']. split; [done |]. by apply (door_trans _ _ _ Hs).
  - exfalso. by eapply Hin.
Qed.
End strangers.

(** ** Concrete requests

    One codec, by the first byte of the body. *)
Definition small_config : Config := match @validate AsciiUnicode no_url (fun _ => Some UTC) Defaults with Ok c => c | Err _ => Defaults end.
Definition lan_config : Config :=
  mkConfig ModeArmed (cfg_Frontend Defaults) (cfg_Overlay Defaults) (cfg_Paths Defaults) (cfg_Probe Defaults) (cfg_Failover Defaults)
    (cfg_Services Defaults) [] "192.168.1.0/24" (cfg_Egress Defaults) (cfg_Notify Defaults) (cfg_Protect Defaults)
    (cfg_QueryCache Defaults) (cfg_Blocklist Defaults).
Definition byte_approval (b : bytes) : option (Z * float64 * float64) :=
  match b with
  | 1 :: _ => Some (2, f64_of_Z 24, f64_of_Z 10)
  | 2 :: _ => Some (2, f64_of_Z 24, S754_finite false 4503599627370496 (-83))
  | _ => None
  end.
Lemma byte_approval_numbers b id hours gb : byte_approval b = Some (id, hours, gb) -> number hours /\ number gb.
Proof.
  assert (N10 : number (f64_of_Z 10)).
  { replace (f64_of_Z 10) with (S754_finite false 5629499534213120 (-49)) by by vm_compute. split; [done |]. split; [done |]. by left. }
  pose proof number_24 as N24. destruct b as [|x b]; [done |]. cbn. repeat case_match; try done; intros [= <- <- <-]; (split; [done |]); try done.
  split; [done |]. split; [done |]. by left.
Qed.
#[local] Instance byte_bodies : Bodies := {
  config_of b := match b with 1 :: _ => BodyConfig lan_config | 2 :: _ => BodyTrailing | _ => BodyUnreadable end;
  mode_of b := match b with 1 :: _ => Some ModeArmed | 2 :: _ => Some ModeObserve | _ => Some "arm"%string end;
  path_of b := match b with x :: _ => Some x | [] => None end;
  approve_of := byte_approval; approve_numbers := byte_approval_numbers }.
#[local] Existing Instance AsciiUnicode.
#[local] Existing Instance AsciiFold.

Definition on_socket (method path : string) (body : bytes) (get : string -> string) : event :=
  EvAsk (mkAsked true (mkRequest method path "" "@" "" "" "" None body) get (UnixTime 1700000000) (mkClock 0 0 0 0 []) []).
Definition no_query : string -> string := fun _ => ""%string.
Definition put_lan := on_socket "PUT" "/api/config" [1] no_query.
Definition post_mode (b : Z) := on_socket "POST" "/api/mode" [b] no_query.
Definition ask_revert := on_socket "POST" "/api/revert" [] no_query.
Definition finish_save : list event :=
  [EvEngine (ActSystem None None (UnixTime 1700000001)); EvEngine (ActFinish (fun _ => Some 1) (UnixTime 1700000002))].
Definition finish_revert : event := EvEngine (ActRevertFinish true (UnixTime 1700000003)).

Definition fresh_portal : Portal :=
  mkPortal ∅ 0 (mkWorld (mkHost (New small_config (UnixTime 1690000000) (mkStore (set_config (Some small_config) emptyDB) [])).1
    (mkStore (set_config (Some small_config) emptyDB) []) None) None Idle) [].
Definition happens (evs : list event) : option Portal :=
  happenings no_url (fun _ => Some UTC) UTC "secret" (fun _ => None) (fun _ => None) evs fresh_portal.
Definition mode_and_lan (p : Portal) : string * string * bool :=
  let e := h_e (po_host p) in (cfg_Mode (e_cfg e), cfg_BackendLAN (e_cfg e), e_reverted e).

(** One after the other: armed, the settings saved, and reverted. *)
Example in_turn :
  mode_and_lan <$> happens ([post_mode 1; EvTurn 0] ++ finish_save ++ [put_lan; EvTurn 0] ++ finish_save) = Some (ModeArmed, "192.168.1.0/24"%string, false)
  /\ mode_and_lan <$> happens ([post_mode 1; EvTurn 0] ++ finish_save ++ [put_lan; EvTurn 0] ++ finish_save
       ++ [ask_revert; EvTurn 0; finish_revert]) = Some (ModeObserve, "192.168.1.0/24"%string, true).
Proof. by vm_compute. Qed.

(** A save read while the host was armed, which gets its turn after a revert:
    the host is armed again and no longer held. *)
Example save_rearms_after_revert :
  mode_and_lan <$> happens ([post_mode 1; EvTurn 0] ++ finish_save
    ++ [ask_revert; EvTurn 0; put_lan; finish_revert; EvTurn 0] ++ finish_save) = Some (ModeArmed, "192.168.1.0/24"%string, false).
Proof. by vm_compute. Qed.

(** A mode change read before a save and taken after it undoes the save. *)
Example mode_loses_save :
  mode_and_lan <$> happens ([put_lan; post_mode 1; EvTurn 0] ++ finish_save ++ [EvTurn 0] ++ finish_save) = Some (ModeArmed, ""%string, false).
Proof. by vm_compute. Qed.

(** A negative limit passes the cap of 500 and means no limit to the store. *)
Definition long_log : Host :=
  mkHost (New small_config (UnixTime 1690000000) (mkStore emptyDB [])).1
    (mkStore (Nat.iter 600 (append_event 1700000000 EventSystem 0 (mkMessage "x" [])) emptyDB) []) None.
Definition events_answered (limit : string) : option nat :=
  match (handleEvents (fun _ => limit) long_log).1 with REvents l => Some (length l) | _ => None end.
Example events_cap_bypassed :
  events_answered "501" = Some 500%nat /\ events_answered "" = Some 100%nat /\ events_answered "-1" = Some 600%nat.
Proof. by vm_compute. Qed.


(** A grant of less than a byte is a grant of no byte, which is no limit. *)
Example fraction_is_unlimited :
  approval (f64_of_Z 24) (S754_finite false 4503599627370496 (-83)) = inr (24 * Hour, 0)
  /\ flt fzero (S754_finite false 4503599627370496 (-83)) = true.
Proof. by vm_compute. Qed.

Lemma small_config_sound : gate_sound (fun _ => Some UTC) (cfg_Overlay Defaults) small_config.
Proof.
  assert (Hv : @validate AsciiUnicode no_url (fun _ => Some UTC) Defaults = Ok small_config) by (vm_compute; reflexivity).
  split; [by eapply validate_ok |]. by vm_compute.
Qed.
Lemma fresh_portal_sound : portal_sound (fun _ => Some UTC) (cfg_Overlay Defaults) fresh_portal.
Proof.
  split; [| constructor]. split; [exact small_config_sound |]. exists small_config. split; [reflexivity | exact small_config_sound].
Qed.

Lemma portal_config_sound_witness :
  match happens ([ask_revert; EvTurn 0; put_lan; finish_revert; EvTurn 0] ++ finish_save) with
  | Some p => cfg_BackendLAN (e_cfg (h_e (po_host p))) = "192.168.1.0/24"%string /\ portal_sound (fun _ => Some UTC) (cfg_Overlay Defaults) p
  | None => False
  end.
Proof.
  destruct (happens ([ask_revert; EvTurn 0; put_lan; finish_revert; EvTurn 0] ++ finish_save)) as [p|] eqn:E.
  - split; [| exact (portal_config_sound _ _ _ _ _ _ _ _ _ _ fresh_portal_sound E)].
    assert (E' : cfg_BackendLAN ∘ e_cfg ∘ h_e ∘ po_host <$> happens ([ask_revert; EvTurn 0; put_lan; finish_revert; EvTurn 0] ++ finish_save) = Some "192.168.1.0/24"%string)
      by (vm_compute; reflexivity). rewrite E in E'. injection E' as E'. exact E'.
  - exfalso. revert E. vm_compute. discriminate.
Defined.

Definition stranger : asked :=
  mkAsked false (mkRequest "POST" "/api/revert" "10.66.0.1:8080" "10.66.0.7:51234" "same-origin" "" "application/json" (Some "stolen"%string) [])
    no_query (UnixTime 1700000000) (mkClock 0 0 0 0 []) [].
Lemma strangers_move_nothing_witness :
  let p' := (ServeHTTP no_url (fun _ => Some UTC) UTC "secret" (fun _ => None) (fun _ => None) stranger fresh_portal).2 in
  engine_side p' = engine_side fresh_portal /\ db_config (st_db (h_st (po_host p'))) = Some small_config.
Proof.
  apply (strangers_move_nothing no_url (fun _ => Some UTC) UTC "secret" (fun _ => None) (fun _ => None) stranger fresh_portal eq_refl).
  intros user (token & expires & E & H & _). cbn in H. by rewrite lookup_empty in H.
Defined.
