(* ===== verification/Watching.v ===== *)
(** * Which link each tunnel rides ([sysx/stats.go], [samplePeerEndpoints])

    The frontend's tunnels are meant to arrive from different public addresses.
    [wg show all endpoints] says where each peer was last seen; two tunnels seen
    from one address ride one internet service, and the portal says so. *)

From S2P Require Import Prelude GoTime Float64 Text Decimal Bytes Model Store Registry Quota Select Meter.

(** ** Reading [wg] *)

(** [f[0]] and the last field of a line with three fields or more. *)
Definition wg_row (line : bytes) : option (string * string) :=
  match Fields (bytes_string line) with
  | f0 :: _ :: rest => e ← last rest; Some (f0, e)
  | _ => None
  end.
Definition wg_rows (out : string) : list (string * string) := omap wg_row (split_lines [] (string_bytes out)).

Definition endpoint_row (ends : gmap string string) (row : string * string) : gmap string string :=
  let '(iface, endpoint) := row in
  if String.eqb endpoint "(none)" then ends
  else match ends !! iface with
       | Some _ => <[iface := ""%string]> ends
       | None => <[iface := endpoint]> ends
       end.
Definition PeerEndpoints (out : option string) : gmap string string :=
  match out with
  | None => ∅
  | Some out => filter (fun kv => kv.2 <> ""%string) (fold_left endpoint_row (wg_rows out) ∅)
  end.

(** [strings.LastIndex]. *)
Fixpoint LastIndex (b sep : bytes) : option nat :=
  match b with
  | [] => None
  | _ :: rest => match LastIndex rest sep with
                 | Some i => Some (S i)
                 | None => if bool_decide (sep `prefix_of` b) then Some O else None
                 end
  end.
Definition trim_bracket (b : bytes) : bytes := match b with 91 :: b => b | _ => b end.
Definition EndpointHost (endpoint : string) : string :=
  let b := string_bytes endpoint in
  match LastIndex b [93; 58] with
  | Some i => bytes_string (trim_bracket (take i b))
  | None => match LastIndex b [58] with
            | Some i => bytes_string (take i b)
            | None => endpoint
            end
  end.

Definition age_row (now : Z) (ages : gmap string float64) (row : string * string) : gmap string float64 :=
  let '(iface, stamp) := row in
  match Atoi (string_bytes stamp) with
  | None => ages
  | Some ts =>
      if ts =? 0 then ages
      else let age := f64_of_Z (i64 (now - ts)) in
           match ages !! iface with
           | Some prev => if flt age prev then <[iface := age]> ages else ages
           | None => <[iface := age]> ages
           end
  end.
Definition HandshakeAges (out : option string) (now : Time) : gmap string float64 :=
  match out with None => ∅ | Some out => fold_left (age_row (Unix now)) (wg_rows out) ∅ end.

(** [ReadCounters]: the four files of [/sys/class/net/<iface>/statistics], each
    read by [file]; the first that cannot be read or is no number ends it. *)
Definition ReadCounters (file : string -> option string) : option Counters :=
  let read name := raw ← file name; Atoi (string_bytes (TrimSpace raw)) in
  rx ← read "rx_bytes"%string; tx ← read "tx_bytes"%string; rxp ← read "rx_packets"%string; txp ← read "tx_packets"%string;
  Some (mkCounters rx tx rxp txp).

Example PeerEndpoints_ex :
  PeerEndpoints (Some ("wg-main	key1	198.51.100.7:51820
wg-lte1	key2	(none)
wg-lte2	key3	[2001:db8::1]:40000
wg-two	a	203.0.113.1:1
wg-two	b	203.0.113.2:2
"%string)) = {["wg-main"%string := "198.51.100.7:51820"%string; "wg-lte2"%string := "[2001:db8::1]:40000"%string]}
  /\ EndpointHost "198.51.100.7:51820" = "198.51.100.7"%string /\ EndpointHost "[2001:db8::1]:40000" = "2001:db8::1"%string
  /\ EndpointHost "" = ""%string.
Proof. by vm_compute. Qed.

(** ** Tunnels on one link *)

Record SharedEndpoint := mkShared { sh_Address : string; sh_Paths : list string }.
Record endpointState := mkEndpoints {
  en_peerEndpoints : gmap Z string; en_sharedEndpoints : list SharedEndpoint; en_endpointClash : string }.

(** [sort.Strings], in the order of bytes. *)
Definition str_le (a b : string) : Prop := String.leb a b = true.
#[export] Instance str_le_dec : RelDecision str_le := fun a b => decide (String.leb a b = true).
Definition sortStrings (l : list string) : list string := merge_sort str_le l.
Definition shared_le (a b : SharedEndpoint) : Prop := str_le (sh_Address a) (sh_Address b).
#[export] Instance shared_le_dec : RelDecision shared_le := fun a b => decide (str_le (sh_Address a) (sh_Address b)).

(** [strings.Join]. *)
Fixpoint Join (l : list string) (sep : string) : string :=
  match l with [] => "" | [x] => x | x :: l => x ++ sep ++ Join l sep end.

Definition host_row (ends : gmap string string) (s : gmap Z string * gmap string (list string)) (p : PathConfig)
    : gmap Z string * gmap string (list string) :=
  let '(byPath, hosts) := s in
  match ends !! path_Iface p with
  | None => s
  | Some ep =>
      (<[path_ID p := ep]> byPath,
       let host := EndpointHost ep in
       if String.eqb host "" then hosts
       else <[host := default [] (hosts !! host) ++ [path_Name p]]> hosts)
  end.

Definition shared_of (hosts : gmap string (list string)) : list SharedEndpoint :=
  merge_sort shared_le (omap (fun kv : string * list string =>
    if (1 <? length kv.2)%nat then Some (mkShared kv.1 (sortStrings kv.2)) else None) (map_to_list hosts)).
Definition clash (s : SharedEndpoint) : string := (Join (sh_Paths s) "+" ++ " at " ++ sh_Address s)%string.
Definition signature_of (shared : list SharedEndpoint) : string := Join (sortStrings (clash <$> shared)) ", ".

(** The state after a sample, and the event it logs. *)
Definition samplePeerEndpoints (ends : gmap string string) (cfg : Config) (st : endpointState) : endpointState * option message :=
  let '(byPath, hosts) := fold_left (host_row ends) (cfg_Paths cfg) (∅, ∅) in
  let shared := shared_of hosts in
  let signature := signature_of shared in
  (mkEndpoints byPath shared signature,
   if String.eqb signature (en_endpointClash st) then None
   else Some (if String.eqb signature "" then mkMessage "tunnels are on separate WANs again" []
              else mkMessage "tunnels are on the same WAN (%s): one internet service under both, so a failover between them has nowhere to go"
                     [AStr signature])).

(** ** One peer, one endpoint *)

Definition seen_at (iface : string) (rows : list (string * string)) : list string :=
  omap (fun r : string * string => if String.eqb r.1 iface && negb (String.eqb r.2 "(none)") then Some r.2 else None) rows.

Lemma endpoint_rows rows iface :
  fold_left endpoint_row rows ∅ !! iface =
  match seen_at iface rows with [] => None | [e] => Some e | _ => Some ""%string end.
Proof.
  induction rows as [|[f e] rows IH] using rev_ind; [apply lookup_empty |].
  rewrite fold_left_app. cbn [fold_left]. unfold seen_at in *. rewrite omap_app. cbn [omap list_omap fst snd].
  set (ends := fold_left endpoint_row rows ∅) in *. unfold endpoint_row.
  destruct (String.eqb_spec f iface) as [->|Hf]; destruct (String.eqb_spec e "(none)") as [->|He]; cbn [andb negb]; rewrite ?app_nil_r; try exact IH.
  - rewrite IH. destruct (omap _ rows) as [|x [|y l]]; cbn [app]; rewrite lookup_insert_eq; done.
  - destruct (ends !! f); by rewrite lookup_insert_ne.
Qed.

(** What a tunnel's endpoint is read as: the one its single peer was seen at.
    A tunnel with no peer seen yet, or with several, has none. *)
Lemma PeerEndpoints_exact out iface e :
  PeerEndpoints (Some out) !! iface = Some e <-> seen_at iface (wg_rows out) = [e] /\ e <> ""%string.
Proof.
  unfold PeerEndpoints. rewrite map_lookup_filter_Some, endpoint_rows. cbn [snd].
  destruct (seen_at iface (wg_rows out)) as [|x [|y l]]; split; intros [H1 H2]; simplify_eq; done.
Qed.

(** ** Which paths share an address *)

(** The address the tunnel of a path arrives from, if it is known. *)
Definition path_host (ends : gmap string string) (p : PathConfig) : option string :=
  ep ← ends !! path_Iface p; if String.eqb (EndpointHost ep) "" then None else Some (EndpointHost ep).
Definition riding (ends : gmap string string) (a : string) (ps : list PathConfig) : list string :=
  path_Name <$> filter (fun p => path_host ends p = Some a) ps.

Lemma host_rows ends ps a :
  (fold_left (host_row ends) ps (∅, ∅)).2 !! a = match riding ends a ps with [] => None | l => Some l end.
Proof.
  induction ps as [|p ps IH] using rev_ind; [apply lookup_empty |].
  rewrite fold_left_app. cbn [fold_left]. unfold riding in *. rewrite filter_app, fmap_app.
  destruct (fold_left (host_row ends) ps (∅, ∅)) as [byPath hosts]. cbn [snd] in IH. unfold host_row. cbn [filter list_filter].
  set (old := path_Name <$> filter _ ps) in *.
  destruct (ends !! path_Iface p) as [ep|] eqn:Ee; cbn [snd].
  - destruct (String.eqb_spec (EndpointHost ep) "") as [E0|E0].
    + rewrite decide_False; [by rewrite app_nil_r |]. unfold path_host. rewrite Ee. cbn [mbind option_bind]. by rewrite E0.
    + assert (Hp : path_host ends p = Some (EndpointHost ep)).
      { unfold path_host. rewrite Ee. cbn [mbind option_bind]. apply String.eqb_neq in E0. by rewrite E0. }
      destruct (decide (EndpointHost ep = a)) as [<-|Hne].
      * rewrite lookup_insert_eq, decide_True by done. rewrite IH. by destruct old.
      * rewrite lookup_insert_ne, decide_False by (done || congruence). by rewrite app_nil_r.
  - rewrite decide_False; [by rewrite app_nil_r |]. unfold path_host. by rewrite Ee.
Qed.

Lemma elem_of_shared hosts s : s ∈ shared_of hosts <->
  exists l, hosts !! sh_Address s = Some l /\ (1 < length l)%nat /\ sh_Paths s = sortStrings l.
Proof.
  unfold shared_of. rewrite (merge_sort_Permutation shared_le), list_elem_of_omap. split.
  - intros ([a l] & Hin & Hs). cbn [fst snd] in Hs. destruct (Nat.ltb_spec 1 (length l)); [| done]. injection Hs as <-.
    exists l. split; [by apply elem_of_map_to_list | done].
  - intros (l & H1 & H2 & H3). exists (sh_Address s, l). split; [by apply elem_of_map_to_list |]. cbn [fst snd].
    apply Nat.ltb_lt in H2. rewrite H2. destruct s as [a ns]. cbn in *. by rewrite H3.
Qed.

Lemma shared_once hosts : NoDup (sh_Address <$> shared_of hosts).
Proof.
  unfold shared_of. rewrite (merge_sort_Permutation shared_le). set (f := fun kv : string * list string => _).
  assert (Hsub : forall l : list (string * list string), sublist (sh_Address <$> omap f l) l.*1).
  { induction l as [|[a ns] l IH]; [done |]. cbn [omap list_omap fmap list_fmap fst]. unfold f at 1. cbn [fst snd].
    destruct (1 <? length ns)%nat; cbn [fmap list_fmap]; by constructor. }
  eapply sublist_NoDup; [| apply Hsub]. apply NoDup_fst_map_to_list.
Qed.

Lemma str_le_total a b : str_le a b \/ str_le b a.
Proof. unfold str_le. destruct (String.leb_total a b); auto. Qed.

(** *** The sample *)

(** An address is reported exactly where the tunnels of two or more paths arrive
    from it, once, with the names of all of them and of no other; paths whose
    address is not known are never reported. *)
Theorem shared_links_exact ends cfg st :
  let shared := en_sharedEndpoints (samplePeerEndpoints ends cfg st).1 in
  NoDup (sh_Address <$> shared) /\
  forall a names, mkShared a names ∈ shared <->
    names = sortStrings (riding ends a (cfg_Paths cfg)) /\ (1 < length (riding ends a (cfg_Paths cfg)))%nat.
Proof.
  unfold samplePeerEndpoints. pose proof (host_rows ends (cfg_Paths cfg)) as Hr.
  destruct (fold_left (host_row ends) (cfg_Paths cfg) (∅, ∅)) as [byPath hosts]. cbn [fst snd en_sharedEndpoints] in *.
  split; [apply shared_once |]. intros a names. rewrite elem_of_shared. cbn [sh_Address sh_Paths]. rewrite Hr.
  destruct (riding ends a (cfg_Paths cfg)) as [|x l]; split; [naive_solver | cbn; intros [_ ?]; lia | intros (l' & [= <-] & H1 & H2); done | intros [H1 H2]; by eexists].
Qed.

(** ** What is announced *)

Lemma Join_empty l : Forall (fun s => s <> ""%string) l -> Join l ", " = ""%string -> l = [].
Proof. destruct l as [|x [|y l]]; [done | |]; inversion_clear 1 as [|?? Hx]; cbn [Join]; [done | by destruct x]. Qed.
Lemma clash_nonempty s : clash s <> ""%string.
Proof. unfold clash. by destruct (Join (sh_Paths s) "+"). Qed.

(** The signature is empty exactly when nothing is shared. *)
Lemma signature_empty shared : signature_of shared = ""%string <-> shared = [].
Proof.
  unfold signature_of, sortStrings. split; [| by intros ->]. intros Hj. apply Join_empty in Hj.
  - pose proof (merge_sort_Permutation str_le (clash <$> shared)) as Hp. rewrite Hj in Hp. apply Permutation_nil_l in Hp. symmetry in Hp. by apply fmap_nil_inv in Hp.
  - rewrite (merge_sort_Permutation str_le). apply Forall_fmap, Forall_true. intros s. apply clash_nonempty.
Qed.

Definition announced (shared : list SharedEndpoint) : message :=
  if bool_decide (shared = []) then mkMessage "tunnels are on separate WANs again" []
  else mkMessage "tunnels are on the same WAN (%s): one internet service under both, so a failover between them has nowhere to go" [AStr (signature_of shared)].
Definition settled (st : endpointState) : Prop := en_endpointClash st = signature_of (en_sharedEndpoints st).
#[export] Instance shared_eq_dec : EqDecision SharedEndpoint.
Proof. solve_decision. Defined.

(** The log has a line when what is shared starts or ends, none while it stays as
    it is, and the line is about what the portal shows; the first sample of a
    process compares with nothing. *)
Theorem clash_announced ends cfg st : settled st ->
  let '(st', ev) := samplePeerEndpoints ends cfg st in
  settled st'
  /\ (ev = None \/ ev = Some (announced (en_sharedEndpoints st')))
  /\ (en_sharedEndpoints st' = en_sharedEndpoints st -> ev = None)
  /\ (bool_decide (en_sharedEndpoints st = []) <> bool_decide (en_sharedEndpoints st' = []) ->
      ev = Some (announced (en_sharedEndpoints st'))).
Proof.
  unfold settled, samplePeerEndpoints. intros Hs. destruct (fold_left _ _ _) as [byPath hosts]. cbn [en_sharedEndpoints en_endpointClash].
  set (shared := shared_of hosts). rewrite Hs. set (sig := signature_of shared).
  assert (Ha : (if String.eqb sig "" then mkMessage "tunnels are on separate WANs again" []
              else mkMessage "tunnels are on the same WAN (%s): one internet service under both, so a failover between them has nowhere to go"
                     [AStr sig]) = announced shared).
  { unfold announced. pose proof (signature_empty shared) as He. fold sig in He. fold sig.
    destruct (String.eqb_spec sig "") as [E|E], (bool_decide_reflect (shared = [])) as [E'|E']; done || naive_solver. }
  rewrite Ha. split_and!; [done | | |].
  - destruct (String.eqb sig (signature_of (en_sharedEndpoints st))); [by left | by right].
  - intros <-. unfold sig. by rewrite String.eqb_refl.
  - intros Hne. destruct (String.eqb_spec sig (signature_of (en_sharedEndpoints st))) as [E|E]; [| done]. exfalso. apply Hne.
    apply bool_decide_ext. rewrite <- !signature_empty. fold sig. by rewrite E.
Qed.

Definition three_paths : Config := Defaults.
Definition one_link : gmap string string :=
  {["wg-main"%string := "198.51.100.7:51820"%string; "wg-lte1"%string := "203.0.113.9:4000"%string; "wg-lte2"%string := "203.0.113.9:4001"%string]}.
Definition fresh_endpoints : endpointState := mkEndpoints ∅ [] "".

Example two_on_one_link :
  en_sharedEndpoints (samplePeerEndpoints one_link three_paths fresh_endpoints).1 = [mkShared "203.0.113.9" ["lte1"; "lte2"]%string]
  /\ (samplePeerEndpoints one_link three_paths (samplePeerEndpoints one_link three_paths fresh_endpoints).1).2 = None.
Proof. by vm_compute. Qed.

Lemma clash_announced_witness :
  exists ev, (samplePeerEndpoints one_link three_paths fresh_endpoints).2 = Some ev /\ msg_args ev = [AStr "lte1+lte2 at 203.0.113.9"%string].
Proof.
  pose proof (clash_announced one_link three_paths fresh_endpoints eq_refl) as H.
  destruct (samplePeerEndpoints one_link three_paths fresh_endpoints) as [st' ev] eqn:E.
  assert (Es : en_sharedEndpoints st' = [mkShared "203.0.113.9" ["lte1"; "lte2"]%string]).
  { replace st' with (samplePeerEndpoints one_link three_paths fresh_endpoints).1 by (by rewrite E). by vm_compute. }
  destruct H as (_ & _ & _ & H). rewrite Es in H. eexists. split; [apply H; by vm_compute | by vm_compute].
Defined.
