(* ===== verification/Status.v ===== *)
(** * What the portal shows ([Status] of [internal/engine/engine.go])

    The snapshot the portal polls every second, built from what the engine
    knows of its paths, its hosts, its tables and its links; the address it calls
    the WAN; and the gate that keeps the protection sample only while somebody
    watches. *)

From S2P Require Import Prelude GoTime Float64 Bytes Decimal Net Text Model Tracker Quota QCache Blocklist LinkerRules Registry Select Rules ProbeRules Plumbing Watching.

(** ** Durations as numbers *)

(** [Duration.Seconds] and [Duration.Hours]: the whole part and the rest, each
    rounded. *)
Definition in_units (unit d : Duration) : float64 :=
  fadd (f64_of_Z (Z.quot d unit)) (fdiv (f64_of_Z (Z.rem d unit)) (f64_of_Z unit)).
Definition in_seconds : Duration -> float64 := in_units Second.
Definition in_hours : Duration -> float64 := in_units Hour.

(** ** The WAN address *)

(** What [Interface.Addrs] lists: networks, and what is none. *)
Inductive net_addr := IPNetAddr (ip : bytes) | OtherAddr.

Definition octet_at (i : nat) (ip : bytes) : Z := nth i ip 0.
Definition IsLoopback (ip : bytes) : bool := octet_at 0 ip =? 127.
Definition IsLinkLocalUnicast (ip : bytes) : bool := (octet_at 0 ip =? 169) && (octet_at 1 ip =? 254).
Definition IsPrivate (ip : bytes) : bool :=
  (octet_at 0 ip =? 10) || ((octet_at 0 ip =? 172) && (Z.land (octet_at 1 ip) 240 =? 16))
  || ((octet_at 0 ip =? 192) && (octet_at 1 ip =? 168)).
Definition cgnat (ip : bytes) : bool := (octet_at 0 ip =? 100) && (64 <=? octet_at 1 ip) && (octet_at 1 ip <=? 127).
Definition ip_String (ip : bytes) : string := bytes_string (dotted ip).

Fixpoint pick_from (first : string) (addrs : list net_addr) : string :=
  match addrs with
  | [] => first
  | OtherAddr :: addrs => pick_from first addrs
  | IPNetAddr ip :: addrs =>
      match To4 ip with
      | None => pick_from first addrs
      | Some ip4 =>
          if IsLoopback ip4 || IsLinkLocalUnicast ip4 then pick_from first addrs
          else if negb (IsPrivate ip4) && negb (cgnat ip4) then ip_String ip4
          else pick_from (if String.eqb first "" then ip_String ip4 else first) addrs
      end
  end.
Definition pickWANAddress : list net_addr -> string := pick_from "".

(** [ifaces]: the addresses of an interface, or nothing where it cannot be
    read. *)
Definition publicAddress (ifaces : string -> option (list net_addr)) (publicIP publicIface : string) : string :=
  if negb (String.eqb publicIP "") then publicIP
  else if String.eqb publicIface "" then ""
  else match ifaces publicIface with Some addrs => pickWANAddress addrs | None => "" end.

Record wanCache := mkWan { wan_Addr : string; wan_Key : string; wan_At : Time }.
Definition cachedPublicAddress (ifaces : string -> option (list net_addr)) (publicIP publicIface : string) (now : Time)
    (w : wanCache) : string * wanCache :=
  let key := (publicIP ++ "|" ++ publicIface)%string in
  if String.eqb key (wan_Key w) && (Sub now (wan_At w) <? 5 * Second) then (wan_Addr w, w)
  else let a := publicAddress ifaces publicIP publicIface in (a, mkWan a key now).

(** ** The parts of the snapshot *)

Record QueryCacheState := mkQueryCacheState {
  qs_Port : Z; qs_Service : string; qs_Target : string;
  qs_Answered : Z; qs_Challenged : Z; qs_Unanswered : Z; qs_Paced : Z;
  qs_InfoAgeSec : float64; qs_PlayerAgeSec : float64; qs_RulesAgeSec : float64;
  qs_StaleSec : float64; qs_RulesStaleSec : float64; qs_Error : string; qs_RefreshError : string }.

(** A port the cache runs: its name, its state, and why it could not bind. *)
Record cachedPort := mkCached { cq_Service : string; cq_Target : string; cq_port : portCache; cq_bindErr : string }.

Definition ageSec (now : Time) (e : cacheEntry) : float64 :=
  if IsZero (ce_fetched e) then f64_of_Z (-1) else in_seconds (Sub now (ce_fetched e)).
Definition first_text (l : list string) : string := default "" (List.find (fun s => negb (String.eqb s "")) l).
Definition port_state (now : Time) (c : cachedPort) : QueryCacheState :=
  let p := cq_port c in
  let staleAfter := q_StaleAfter (qp_cfg p) in
  mkQueryCacheState (qp_Port p) (cq_Service c) (cq_Target c) (qp_answered p) (qp_challenged p) (qp_unanswered p) (qp_paced p)
    (ageSec now (qp_info p)) (ageSec now (qp_player p)) (ageSec now (qp_rules p))
    (in_seconds staleAfter) (in_seconds (window staleAfter (qp_rules p))) (cq_bindErr c)
    (first_text [ce_fetchErr (qp_info p); ce_fetchErr (qp_player p); ce_fetchErr (qp_rules p)]).
Definition by_port (a b : QueryCacheState) : Prop := qs_Port a <= qs_Port b.
#[export] Instance by_port_dec : RelDecision by_port := fun a b => decide (qs_Port a <= qs_Port b).
(** [Cacher.Snapshot]. *)
Definition cache_Snapshot (now : Time) (ports : list cachedPort) : list QueryCacheState := merge_sort by_port (port_state now <$> ports).

Record LinkerState := mkLinkerState {
  lst_Name : string; lst_OverlayIP : string; lst_LanIP : string; lst_Up : bool; lst_Version : string; lst_Hostname : string;
  lst_Since : Time; lst_LastSeen : Time; lst_ConfiguredTable : Z; lst_Table : Z }.
Definition linker_state (g : Registry) (l : Linker) : LinkerState :=
  let seen := default zeroTime (rg_linkerSeen g !! linker_OverlayIP l) in
  let table := TableOr l DefaultLinkerTable in
  match rg_linkers g !! linker_OverlayIP l with
  | Some c => mkLinkerState (linker_Name l) (linker_OverlayIP l) (linker_LanIP l) true (lc_version c) (lc_hostname c)
                (lc_since c) seen table (lc_table c)
  | None => mkLinkerState (linker_Name l) (linker_OverlayIP l) (linker_LanIP l) false "" "" zeroTime seen table 0
  end.
Definition linkerStates (cfg : Config) (g : Registry) : list LinkerState := linker_state g <$> cfg_Linkers cfg.

Record ProtectStatus := mkProtectStatus { prs_sample : protectSample; prs_BlockedTotal : Z }.
Definition protectStatus (f : frontState) : option ProtectStatus :=
  if negb (fs_protectOn f) then None else Some (mkProtectStatus (fs_sample f) (fs_blockedTotal f)).

Record BlocklistStatus := mkBlocklistStatus {
  bls_Networks : Z; bls_Exceptions : Z; bls_UpdatedAt : Time; bls_AgeHours : float64; bls_Stale : bool;
  bls_LastTry : Time; bls_LastError : option feed_error; bls_LoadError : bool; bls_Loaded : bool; bls_Packets : Z }.
Definition blocklistStatus (cfg : Config) (now : Time) (f : feed) : option BlocklistStatus :=
  let bl := cfg_Blocklist cfg in
  if negb (blc_Enabled bl) then None
  else
    let '(age, stale) := if IsZero (bl_Updated f) then (fzero, false)
                         else let age := in_hours (Sub now (bl_Updated f)) in (age, fge age (in_hours blocklistStaleAfter)) in
    Some (mkBlocklistStatus (bl_Count f) (Z.of_nat (length (blc_Exceptions bl))) (bl_Updated f) age stale (bl_LastTry f)
            (bl_LastErr f) (bl_LoadErr f) (bl_On f) (bl_Counter f)).

(** ** The snapshot *)

Record Status := mkStatus {
  ss_Mode : string; ss_ActivePath : Z; ss_ActiveName : string; ss_Held : bool; ss_HeldReason : string;
  ss_Paths : list PathState; ss_LastSwitch : Time; ss_BackendUp : bool; ss_RulesActive : bool; ss_Uptime : float64;
  ss_DecisionSeq : Z; ss_Reverted : bool; ss_PreferredPath : Z; ss_PublicAddress : string;
  ss_BackendVersion : string; ss_BackendHost : string; ss_LinkerStates : list LinkerState;
  ss_Protect : option ProtectStatus; ss_QueryCache : list QueryCacheState; ss_Blocklist : option BlocklistStatus;
  ss_SharedEndpoints : list SharedEndpoint }.

(** What of the process the snapshot reads. *)
Record observed := mkObserved {
  ob_engine : Engine; ob_registry : Registry; ob_front : frontState; ob_endpoints : endpointState;
  ob_cache : list cachedPort; ob_started : Time }.

Definition protectSampleIdleAfter : Duration := 30 * Second.

(** The first section of [Status]: the stamp, and the samples nobody kept fresh. *)
Definition drop_samples (f : frontState) : frontState :=
  let feed := fs_feed f in
  set_feed (with_rules (bl_On feed) (bl_Applied feed) 0 feed)
    (set_protect (fs_protectOn f) (fs_protectApplied f) no_sample f).
Definition stamp (now : Time) (prev : Time) (f : frontState) : frontState :=
  if protectSampleIdleAfter <? Sub now prev then drop_samples f else f.

Definition path_state (now : Time) (e : Engine) (n : endpointState) (p : PathConfig) (tr : Tracker) : PathState :=
  let s := Snapshot now tr in
  let id := path_ID p in
  let '(used, limit, start, end_, until, grant) :=
    match e_quotaDec e !! id with
    | Some d => (dec_Used d, dec_Limit d, dec_PeriodStart d, dec_PeriodEnd d, dec_GrantUntil d, dec_GrantBytes d)
    | None => (ps_UsedBytes s, ps_LimitBytes s, ps_PeriodStart s, ps_PeriodEnd s, ps_GrantUntil s, ps_GrantBytes s)
    end in
  mkPathState (ps_ID s) (ps_Name s) (ps_Iface s) (ps_Priority s) (ps_Health s) (block_of e id) (id =? e_active e)
    (ps_RTTms s) (ps_JitterMs s) (ps_LossPct s) (ps_ConsecLoss s) (ps_ConsecOK s) (ps_LastReply s) (ps_HandshakeAge s)
    (default ""%string (en_peerEndpoints n !! id)) (ps_CleanSince s) (ps_QuarantineEnd s) used limit start end_ until grant.
Definition path_states (now : Time) (e : Engine) (n : endpointState) : list (PathConfig * PathState) :=
  omap (fun p => tr ← e_trackers e !! path_ID p; Some (p, path_state now e n p tr)) (cfg_Paths (e_cfg e)).
Definition by_priority (a b : PathState) : Prop := ps_Priority a <= ps_Priority b.
#[export] Instance by_priority_dec : RelDecision by_priority := fun a b => decide (ps_Priority a <= ps_Priority b).
(** The last active one in the order of the configuration names the active path. *)
Definition active_name (l : list (PathConfig * PathState)) : string :=
  fold_left (fun name x => if ps_Active x.2 then path_Name x.1 else name) l ""%string.

Definition snapshot (now : Time) (wan : string) (o : observed) : Status :=
  let e := ob_engine o in
  let g := ob_registry o in
  let paths := path_states now e (ob_endpoints o) in
  mkStatus (cfg_Mode (e_cfg e)) (e_active e) (active_name paths) (e_held e) (e_heldReason e)
    (merge_sort by_priority paths.*2) (e_lastSwitch e) (rg_backendUp g) (e_dataPlane e)
    (in_seconds (Sub now (ob_started o))) (e_decisionSeq e) (e_reverted e) (preferredPathID (e_cfg e)) wan
    (rg_backendVersion g) (rg_backendHost g) (linkerStates (e_cfg e) g) (protectStatus (ob_front o))
    (cache_Snapshot now (ob_cache o)) (blocklistStatus (e_cfg e) now (fs_feed (ob_front o)))
    (en_sharedEndpoints (ob_endpoints o)).

Definition StatusOf (ifaces : string -> option (list net_addr)) (now : Time) (o : observed) (at_ : Time) (w : wanCache)
    : Status * (Time * wanCache * frontState) :=
  let f := stamp now at_ (ob_front o) in
  let fe := cfg_Frontend (e_cfg (ob_engine o)) in
  let '(wan, w) := cachedPublicAddress ifaces (fe_PublicIP fe) (fe_PublicIface fe) now w in
  (snapshot now wan (mkObserved (ob_engine o) (ob_registry o) f (ob_endpoints o) (ob_cache o) (ob_started o)), (now, w, f)).

(** ** The WAN is a public address where there is one *)

Definition usable (a : net_addr) : option bytes :=
  match a with
  | IPNetAddr ip => ip4 ← To4 ip; if IsLoopback ip4 || IsLinkLocalUnicast ip4 then None else Some ip4
  | OtherAddr => None
  end.
Definition routable (ip : bytes) : bool := negb (IsPrivate ip) && negb (cgnat ip).

Lemma bytes_string_some b : b <> [] -> bytes_string b <> ""%string.
Proof. by destruct b. Qed.
Lemma ip_String_some ip : length ip = 4%nat -> ip_String ip <> ""%string.
Proof.
  destruct ip as [|a [|b ip]]; try done. intros _. apply bytes_string_some. cbn [dotted]. by destruct (string_bytes (FormatUint a)).
Qed.
Lemma To4_length ip ip4 : To4 ip = Some ip4 -> length ip4 = 4%nat.
Proof.
  unfold To4. destruct (Nat.eqb_spec (length ip) 4) as [|]; [by intros [= <-] |].
  destruct (Nat.eqb_spec (length ip) 16) as [E|]; [| done]. cbn [andb]. split_if; [| done]. intros [= <-]. rewrite length_drop. lia.
Qed.

Lemma pick_from_exact addrs : forall first,
  pick_from first addrs =
  match List.find routable (omap usable addrs) with
  | Some ip => ip_String ip
  | None => if String.eqb first "" then default ""%string (ip_String <$> head (omap usable addrs)) else first
  end.
Proof.
  induction addrs as [|a addrs IH]; intros first; [cbn; by destruct (String.eqb_spec first "") as [->|] |].
  destruct a as [ip|]; [| apply IH]. cbn [pick_from omap list_omap usable].
  destruct (To4 ip) as [ip4|] eqn:E4; cbn [mbind option_bind]; [| apply IH].
  destruct (IsLoopback ip4 || IsLinkLocalUnicast ip4); [apply IH |]. cbn [List.find]. fold (routable ip4).
  destruct (routable ip4); [done |]. rewrite IH. destruct (List.find routable _); [done |]. cbn [head fmap option_fmap option_map default].
  destruct (String.eqb_spec first "") as [|Hf].
  - by rewrite (proj2 (String.eqb_neq _ _) (ip_String_some ip4 (To4_length _ _ E4))).
  - by rewrite (proj2 (String.eqb_neq _ _) Hf).
Qed.

(** What is called the WAN: the first publicly routable IPv4 address of the
    interface, wherever it stands; the first ordinary one where there is none;
    blank where there is nothing but loopback, link-local and other families. *)
Theorem pickWANAddress_exact addrs :
  pickWANAddress addrs =
  match List.find routable (omap usable addrs), omap usable addrs with
  | Some ip, _ => ip_String ip
  | None, ip :: _ => ip_String ip
  | None, [] => ""%string
  end.
Proof. unfold pickWANAddress. rewrite pick_from_exact. cbn. destruct (List.find _ _); [done |]. by destruct (omap usable addrs). Qed.

Example nat_before_public :
  pickWANAddress [IPNetAddr [127; 0; 0; 1]; IPNetAddr [100; 72; 1; 9]; OtherAddr; IPNetAddr [203; 0; 113; 7]] = "203.0.113.7"%string
  /\ pickWANAddress [IPNetAddr [169; 254; 1; 1]; IPNetAddr [10; 0; 0; 9]; IPNetAddr [192; 168; 1; 1]] = "10.0.0.9"%string.
Proof. by vm_compute. Qed.

(** ** The sample is the last reading *)

(** The samples are dropped, kept, or replaced by what was read just now. *)
Inductive watched :=
| Poll (now : Time)
| Tick (now : Time) (bl : readback) (r : protect_read) (cfg : Config)
| Other (f : frontState -> frontState).

(** [Other]: anything else the engine does to its record of the tables; it drops
    the sample or leaves it, and a record without a table has no sample. *)
Definition keeps_sample (f : frontState -> frontState) : Prop :=
  forall st, (fs_sample (f st) = fs_sample st \/ fs_sample (f st) = no_sample)
    /\ (fs_protectOn (f st) = false -> fs_protectOn st = false \/ fs_sample (f st) = no_sample).

Definition observe_do (w : watched) (x : frontState * Time) : frontState * Time :=
  let '(st, at_) := x in
  match w with
  | Poll now => (stamp now at_ st, now)
  | Tick now bl r cfg => (sampleProtect (negb (protectSampleIdleAfter <? Sub now at_)) bl r cfg st, at_)
  | Other f => (f st, at_)
  end.
Definition observe_run (ws : list watched) (x : frontState * Time) : frontState * Time := fold_left (fun x w => observe_do w x) ws x.

Definition time_of (w : watched) : option Time := match w with Poll t | Tick t _ _ _ => Some t | Other _ => None end.
Definition is_tick (w : watched) : bool := match w with Tick _ _ _ _ => true | _ => false end.
Fixpoint in_order (from : Time) (ws : list watched) : Prop :=
  match ws with
  | [] => True
  | w :: ws => match time_of w with Some t => from <= t /\ in_order t ws | None => in_order from ws end
  end.
Definition last_time (from : Time) (ws : list watched) : Time := fold_left (fun t w => default t (time_of w)) ws from.
Lemma in_order_snoc ws w : forall from, in_order from (ws ++ [w]) -> in_order from ws /\ (forall t, time_of w = Some t -> last_time from ws <= t).
Proof.
  induction ws as [|w' ws IH]; intros from; cbn [app in_order last_time fold_left].
  - destruct (time_of w) as [t|]; [| done]. intros [H _]. split; [done |]. by intros t' [= <-].
  - destruct (time_of w') as [t|] eqn:E; cbn [default]; [| apply IH]. intros [H1 H2]. apply IH in H2 as [H2 H3]. by split.
Qed.

Lemma Sub_mono t u v : t <= u -> Sub t v <= Sub u v.
Proof. unfold Sub, MaxInt64, MinInt64. intros H. repeat split_if; lia. Qed.

(** The sample is the outcome of the last turn of the sampler. *)
Definition last_reading (ws : list watched) (s : protectSample) : Prop :=
  exists ws1 t bl total cfg ws2, ws = ws1 ++ Tick t bl (ReadOk s total) cfg :: ws2 /\ forallb (fun w => negb (is_tick w)) ws2 = true.
Lemma last_reading_snoc ws w s : is_tick w = false -> last_reading ws s -> last_reading (ws ++ [w]) s.
Proof.
  intros Hw (ws1 & t & bl & total & cfg & ws2 & -> & H). exists ws1, t, bl, total, cfg, (ws2 ++ [w]). split; [by rewrite <- app_assoc |].
  rewrite forallb_app, H. cbn. by rewrite Hw.
Qed.

Record watching (ws : list watched) (from : Time) (x : frontState * Time) : Prop := {
  wa_on : fs_protectOn x.1 = false -> fs_sample x.1 = no_sample;
  wa_sample : fs_sample x.1 = no_sample \/ last_reading ws (fs_sample x.1)
    \/ exists t, t <= last_time from ws /\ protectSampleIdleAfter < Sub t x.2 }.

Lemma last_time_snoc from ws w : last_time from (ws ++ [w]) = default (last_time from ws) (time_of w).
Proof. unfold last_time. by rewrite fold_left_app. Qed.

Lemma poll_watching ws from st at_ now : watching ws from (st, at_) -> last_time from ws <= now ->
  watching (ws ++ [Poll now]) from (stamp now at_ st, now)
  /\ (fs_sample (stamp now at_ st) = no_sample \/ last_reading ws (fs_sample (stamp now at_ st))).
Proof.
  intros [H1 H2] Hle. cbn [fst snd] in *. unfold stamp. destruct (Z.ltb_spec protectSampleIdleAfter (Sub now at_)) as [Hg|Hg].
  - split; [| by left]. split; [done | by left].
  - assert (Hs : fs_sample st = no_sample \/ last_reading ws (fs_sample st)).
    { destruct H2 as [H2|[H2|(t & Ht & Hi)]]; [by left | by right |]. exfalso. pose proof (Sub_mono t now at_ ltac:(lia)). lia. }
    split; [| done]. split; [done |]. cbn [fst snd]. destruct Hs as [Hs|Hs]; [by left | right; left; by apply last_reading_snoc].
Qed.

Lemma tick_watching ws from st at_ now bl r cfg : watching ws from (st, at_) ->
  watching (ws ++ [Tick now bl r cfg]) from (sampleProtect (negb (protectSampleIdleAfter <? Sub now at_)) bl r cfg st, at_).
Proof.
  intros [H1 H2]. cbn [fst snd] in *. unfold sampleProtect. cbv zeta.
  destruct (fs_protectOn st || protect_Enabled (cfg_Protect cfg)) eqn:Eon; cbn [negb andb].
  - destruct (Z.ltb_spec protectSampleIdleAfter (Sub now at_)) as [Hg|Hg]; cbn [negb].
    + split; [done |]. cbn [fst snd]. right. right. exists now. rewrite last_time_snoc. by split.
    + destruct r as [s total|missing].
      * split; [done |]. right. left. cbn [fst fs_sample]. by exists ws, now, bl, total, cfg, [].
      * split; [done | by left].
  - apply orb_false_iff in Eon as [Eon _]. specialize (H1 Eon).
    assert (K : forall f, watching (ws ++ [Tick now bl r cfg]) from (set_feed f st, at_)) by (intros f; split; [done | by left]).
    assert (K' : watching (ws ++ [Tick now bl r cfg]) from (st, at_)) by (split; [done | by left]).
    repeat case_match; done.
Qed.

Lemma watching_run ws from st : fs_sample st = no_sample -> in_order from ws ->
  Forall (fun w => match w with Other f => keeps_sample f | _ => True end) ws -> watching ws from (observe_run ws (st, from)).
Proof.
  intros Hst. induction ws as [|w ws IH] using rev_ind; intros Ho Hf; [split; [done | by left] |].
  apply in_order_snoc in Ho as [Ho Hle]. rewrite Forall_app, Forall_singleton in Hf. destruct Hf as [Hf Hw]. specialize (IH Ho Hf).
  unfold observe_run in *. rewrite fold_left_app. cbn [fold_left]. destruct (fold_left _ ws (st, from)) as [st' at_].
  destruct w as [now|now bl r cfg|f]; cbn [observe_do].
  - apply poll_watching; [done | by apply Hle].
  - by apply tick_watching.
  - destruct IH as [H1 H2]. cbn [fst snd] in *. destruct (Hw st') as [Hs Hon]. split; cbn [fst snd].
    + intros E. destruct (Hon E) as [E'|E']; [| done]. destruct Hs as [-> | ->]; auto.
    + destruct Hs as [-> | ->]; [| by left]. destruct H2 as [H2|[H2|H2]]; [by left | right; left; by apply last_reading_snoc | right; right].
      destruct H2 as (t & Ht & Hi). exists t. by rewrite last_time_snoc.
Qed.

(** What the portal states as live facts - the counters, the parked sources, the
    engaged locks - is what the last turn of the sampler read, or nothing: a
    reading from before an idle spell is never served, however the polls, the
    sampler and the installations fall. *)
Theorem sample_served_is_last ws from st now : fs_sample st = no_sample -> in_order from (ws ++ [Poll now]) ->
  Forall (fun w => match w with Other f => keeps_sample f | _ => True end) ws ->
  let served := fs_sample (observe_run (ws ++ [Poll now]) (st, from)).1 in
  served = no_sample \/ last_reading ws served.
Proof.
  intros Hst Ho Hf. apply in_order_snoc in Ho as [Ho Hle]. pose proof (watching_run ws from st Hst Ho Hf) as Hw.
  unfold observe_run in *. cbn zeta. rewrite fold_left_app. cbn [fold_left]. destruct (fold_left _ ws (st, from)) as [st' at_].
  cbn [observe_do fst]. by apply (poll_watching _ _ _ _ _ Hw (Hle _ eq_refl)).
Qed.

(** The installations and the revert of [Plumbing] are such steps. *)
Lemma apply_keeps_sample {W} {U : Unicode} stateDir (run : runner W) armed cfg w :
  keeps_sample (fun st => (execute run (applyProtect stateDir armed cfg st) w).1).
Proof.
  intros st. unfold applyProtect. cbv zeta. destruct (String.eqb _ "").
  - rewrite execute_then. cbn. split; by right.
  - destruct (armed && fs_protectOn st && _); [split; by left |]. rewrite execute_then.
    destruct (execute run (gate armed _) w) as [[e|] w1]; [split; by left |]. destruct armed; (split; [by left | intros E; first [discriminate E | by left]]).
Qed.
Lemma revert_keeps_sample : keeps_sample (set_protect false "" no_sample).
Proof. intros st. by split; right. Qed.

Definition flood : protectSample := mkSample [mkProtectCounter "parked" 900 54000 true] [mkBlockedSource "203.0.113.9" 40] [].
Definition guarded : Config := Defaults.
Definition at_s (n : Z) : Time := UnixTime (1700000000 + n).
Definition quiet_front : frontState := mkFront 0 true [] true "table" no_sample 0 emptyFeed.
Definition flood_seen : list watched := [Poll (at_s 0); Tick (at_s 1) Missing (ReadOk flood 1) guarded; Poll (at_s 2)].

(** Watched, the flood is shown; an hour later the first poll shows nothing. *)
Lemma sample_served_is_last_witness :
  fs_sample (observe_run (flood_seen ++ [Poll (at_s 3)]) (quiet_front, at_s (-100))).1 = flood
  /\ last_reading flood_seen flood
  /\ fs_sample (observe_run (flood_seen ++ [Tick (at_s 3000) Missing (ReadOk flood 1) guarded; Poll (at_s 3600)]) (quiet_front, at_s (-100))).1 = no_sample.
Proof.
  split; [by vm_compute |]. split; [| by vm_compute].
  destruct (sample_served_is_last flood_seen (at_s (-100)) quiet_front (at_s 3)) as [H|H]; [reflexivity | | repeat constructor | | ].
  - cbn. repeat split; apply Z.leb_le; by vm_compute.
  - exfalso. revert H. by vm_compute.
  - replace (fs_sample (observe_run (flood_seen ++ [Poll (at_s 3)]) (quiet_front, at_s (-100))).1) with flood in H by by vm_compute. exact H.
Defined.

(** ** The paths of the snapshot *)

(** Every path of the configuration that is measured is shown once, in the order
    of priority, with the block and the activity the decision loop holds, and the
    name beside the active path is that path's. *)
Theorem snapshot_paths now wan o : NoDup (path_ID <$> cfg_Paths (e_cfg (ob_engine o))) ->
  let e := ob_engine o in
  let s := snapshot now wan o in
  Sorted by_priority (ss_Paths s)
  /\ ss_Paths s ≡ₚ (path_states now e (ob_endpoints o)).*2
  /\ (forall p tr, p ∈ cfg_Paths (e_cfg e) -> e_trackers e !! path_ID p = Some tr ->
        path_state now e (ob_endpoints o) p tr ∈ ss_Paths s
        /\ (path_ID p = e_active e -> ss_ActiveName s = path_Name p)).
Proof.
  intros Hnd. cbn zeta. cbn [snapshot ss_Paths ss_ActiveName]. set (e := ob_engine o) in *. set (l := path_states now e (ob_endpoints o)).
  assert (Hin : forall p tr, p ∈ cfg_Paths (e_cfg e) -> e_trackers e !! path_ID p = Some tr -> (p, path_state now e (ob_endpoints o) p tr) ∈ l).
  { intros p tr Hp Ht. apply list_elem_of_omap. exists p. split; [done |]. rewrite Ht. done. }
  split_and!; [apply Sorted_merge_sort; unfold Total, by_priority; intros; lia | apply merge_sort_Permutation |].
  intros p tr Hp Ht. split.
  - rewrite (merge_sort_Permutation by_priority). apply (list_elem_of_fmap_2 snd _ _ (Hin p tr Hp Ht)).
  - intros Ha. assert (Hl : forall q s, (q, s) ∈ l -> q ∈ cfg_Paths (e_cfg e) /\ ps_Active s = (path_ID q =? e_active e)).
    { intros q s Hq. apply list_elem_of_omap in Hq as (q' & Hq' & E). destruct (e_trackers e !! path_ID q') as [tr'|]; [| done]. cbn in E.
      injection E as <- <-. split; [done |]. unfold path_state. by destruct (e_quotaDec e !! path_ID q'). }
    assert (Hp1 : ps_Active (path_state now e (ob_endpoints o) p tr) = true).
    { destruct (Hl _ _ (Hin p tr Hp Ht)) as [_ ->]. rewrite Ha. apply Z.eqb_refl. }
    specialize (Hin p tr Hp Ht). set (sp := path_state now e (ob_endpoints o) p tr) in *. clearbody l.
    unfold active_name. generalize ""%string. revert Hin Hl. induction l as [|[q s] l IH] using rev_ind; intros Hin Hl name; [by apply elem_of_nil in Hin |].
    rewrite fold_left_app. cbn [fold_left fst snd]. destruct (Hl q s) as [Hq Eq]; [apply elem_of_app; right; by apply list_elem_of_singleton |].
    destruct (ps_Active s) eqn:Es.
    + f_equal. symmetry in Eq. apply Z.eqb_eq in Eq. pose proof (path_by_id_unique _ _ Hnd Hq) as E1. pose proof (path_by_id_unique _ _ Hnd Hp) as E2. rewrite Eq, <- Ha, E2 in E1. congruence.
    + apply elem_of_app in Hin as [Hin|Hin]; [apply IH; [done |]; intros q' s' H'; apply Hl; apply elem_of_app; by left |].
      apply list_elem_of_singleton in Hin as [= -> ->]. congruence.
Qed.
