(* ===== verification/Readback.v ===== *)
(** * Reading the protection table back ([ProtectState] of [sysx/protect.go])

    The counters and the parked sources the portal shows are read out of nft's
    JSON listings: the table once, terse, and then the sets whose elements are
    state, each by name.  [encoding/json] is the class [Listing]: a text to what
    [Unmarshal] makes of it at the types the source declares. *)

From S2P Require Import Prelude Bytes Text Model Ports Protect Rules ProbeRules Plumbing.

(** ** What a listing decodes to *)

(** One expression of a rule: its counter, if [Unmarshal] takes it, with the
    fields it carries, and whether it is a drop.  A counter that is not taken is
    one that sets nothing. *)
Record nft_expr := mkExpr { ne_counter : option (option Z * option Z); ne_drop : bool }.
Record nft_rule := mkRuleRow { nr_Comment : string; nr_Expr : list nft_expr }.
Record table_item := mkItem { ti_Rule : option nft_rule; ti_Set : option string }.

(** An element of a set: what it is as a bare value and as an object with the
    seconds left, at each of the two types it is read at. *)
Record set_elem := mkElem {
  el_string : option string; el_int : option Z;
  el_wrapped_string : option (string * Z); el_wrapped_int : option (Z * Z) }.
Record nft_set := mkSetRow { st_Name : string; st_Elem : list set_elem }.

Class Listing := {
  table_listing : string -> option (list table_item);
  set_listing : string -> option (list (option nft_set)) }.

(** ** Parsing *)

(** The expressions of a rule fill in one counter; [None] until one of them has
    it. *)
Definition count_expr (c : option (Z * Z)) (x : nft_expr) : option (Z * Z) :=
  match ne_counter x with
  | Some (packets, bytes) => let '(p0, b0) := default (0, 0) c in Some (default p0 packets, default b0 bytes)
  | None => c
  end.
Definition rule_counter (r : nft_rule) : option (Z * Z) := fold_left count_expr (nr_Expr r) None.
Definition rule_drops (r : nft_rule) : bool := existsb ne_drop (nr_Expr r).

Fixpoint count_in (name : string) (packets bytes : Z) (drops : bool) (cs : list ProtectCounter) : list ProtectCounter :=
  match cs with
  | [] => [mkProtectCounter name packets bytes drops]
  | c :: cs =>
      if String.eqb (pc_Name c) name
      then mkProtectCounter (pc_Name c) (i64 (pc_Packets c + packets)) (i64 (pc_Bytes c + bytes)) (pc_Drops c || drops) :: cs
      else c :: count_in name packets bytes drops cs
  end.

Definition table_row (s : list ProtectCounter * gset string) (item : table_item) : list ProtectCounter * gset string :=
  let '(counters, present) := s in
  let present := match ti_Set item with Some name => {[name]} ∪ present | None => present end in
  match ti_Rule item with
  | Some r =>
      if String.eqb (nr_Comment r) "" then (counters, present)
      else match rule_counter r with
           | Some (packets, bytes) => (count_in (nr_Comment r) packets bytes (rule_drops r) counters, present)
           | None => (counters, present)
           end
  | None => (counters, present)
  end.

Section readback.
Context {U : Unicode} {L : Listing}.

Definition parseProtectCounters (text : string) : option (list ProtectCounter * gset string) :=
  (fun items => fold_left table_row items ([], ∅)) <$> table_listing text.

(** [parseSetElem] at a type: the bare value, the object, and the zero. *)
Definition parseSetElem {T} (is_zero : T -> bool) (plain : option T) (wrapped : option (T * Z)) : option (T * Z) :=
  match plain with
  | Some v => if negb (is_zero v) then Some (v, 0) else
      match wrapped with Some (v, e) => if negb (is_zero v) then Some (v, e) else None | None => None end
  | None => match wrapped with Some (v, e) => if negb (is_zero v) then Some (v, e) else None | None => None end
  end.
Definition parseBlockedElem (el : set_elem) : option BlockedSource :=
  '(addr, expires) ← parseSetElem (fun s => String.eqb s "") (el_string el) (el_wrapped_string el); Some (mkBlockedSource addr expires).
Definition parseLockedElem (proto : string) (el : set_elem) : option GeoLockedPort :=
  '(port, expires) ← parseSetElem (Z.eqb 0) (el_int el) (el_wrapped_int el); Some (mkGeoLockedPort proto port expires).

Definition blocked_elems (l : list set_elem) : list BlockedSource := omap parseBlockedElem l.
Definition locked_elems (proto : string) (l : list set_elem) : list GeoLockedPort := omap (parseLockedElem proto) l.
Definition set_row (s : list BlockedSource * list GeoLockedPort) (item : option nft_set) : list BlockedSource * list GeoLockedPort :=
  match item with
  | None => s
  | Some set =>
      let '(blocked, locked) := s in
      let blocked := if String.eqb (st_Name set) "blocked" then blocked ++ blocked_elems (st_Elem set) else blocked in
      (blocked, fold_left (fun locked proto => if String.eqb (st_Name set) (geoLockSetName proto)
                                               then locked ++ locked_elems proto (st_Elem set) else locked)
                  ["tcp"; "udp"]%string locked)
  end.
Definition parseProtectSetElems (text : string) : option (list BlockedSource * list GeoLockedPort) :=
  (fun items => fold_left set_row items ([], [])) <$> set_listing text.

(** ** [ProtectState] *)

Definition maxBlockedReported : nat := 100.
Definition by_expiry (a b : BlockedSource) : Prop := bs_ExpiresSec b <= bs_ExpiresSec a.
#[export] Instance by_expiry_dec : RelDecision by_expiry := fun a b => decide (bs_ExpiresSec b <= bs_ExpiresSec a).
Definition by_lock_port (a b : GeoLockedPort) : Prop := gp_Port a <= gp_Port b.
#[export] Instance by_lock_port_dec : RelDecision by_lock_port := fun a b => decide (gp_Port a <= gp_Port b).

Definition state_sets : list string := ["blocked"%string; geoLockSetName "tcp"; geoLockSetName "udp"].
Definition list_table : list string := ["nft"; "-j"; "-t"; "list"; "table"; "ip"; NFTProtectTable]%string.
Definition list_set (name : string) : list string := ["nft"; "-j"; "list"; "set"; "ip"; NFTProtectTable; name]%string.

(** The sets that are there, one after the other. *)
Fixpoint read_sets (present : gset string) (names : list string) (blocked : list BlockedSource) (locked : list GeoLockedPort)
    : cmds (option (list BlockedSource * list GeoLockedPort)) :=
  match names with
  | [] => Done (Some (blocked, locked))
  | name :: names =>
      if negb (bool_decide (name ∈ present)) then read_sets present names blocked locked
      else Exec (list_set name) (fun r =>
        match r with
        | Err _ => Done None
        | Ok out => match parseProtectSetElems out with
                    | None => Done None
                    | Some (b, l) => read_sets present names (blocked ++ b) (locked ++ l)
                    end
        end)
  end.

(** What is served of what was read. *)
Definition report (counters : list ProtectCounter) (blocked : list BlockedSource) (locked : list GeoLockedPort) : protectSample * Z :=
  let blocked := merge_sort by_expiry blocked in
  (mkSample counters (take maxBlockedReported blocked) (merge_sort by_lock_port locked), Z.of_nat (length blocked)).

Definition ProtectState : cmds (option (protectSample * Z)) :=
  Exec list_table (fun r =>
    match r with
    | Err _ => Done None
    | Ok out => match parseProtectCounters out with
                | None => Done None
                | Some (counters, present) =>
                    let! sets := read_sets present state_sets [] [] in
                    Done ('(blocked, locked) ← sets; Some (report counters blocked locked))
                end
    end).
End readback.

(** ** One counter per limit *)

(** The counted rules of a limit, in the order of the table. *)
Definition limit_rules (name : string) (items : list table_item) : list (Z * Z * bool) :=
  omap (fun item => r ← ti_Rule item;
    if String.eqb (nr_Comment r) name then c ← rule_counter r; Some (c, rule_drops r) else None) items.
Definition tally (name : string) (rows : list (Z * Z * bool)) : option ProtectCounter :=
  match rows with
  | [] => None
  | (p, b, d) :: rows => Some (fold_left (fun c x => mkProtectCounter name (i64 (pc_Packets c + x.1.1)) (i64 (pc_Bytes c + x.1.2)) (pc_Drops c || x.2))
                                 rows (mkProtectCounter name p b d))
  end.
Definition counter_of (name : string) (cs : list ProtectCounter) : option ProtectCounter := List.find (fun c => String.eqb (pc_Name c) name) cs.

Lemma count_in_other name p b d cs n : n <> name -> counter_of n (count_in name p b d cs) = counter_of n cs.
Proof.
  intros Hn. unfold counter_of. induction cs as [|c cs IH]; cbn [count_in List.find pc_Name].
  - by rewrite (proj2 (String.eqb_neq name n)) by congruence.
  - destruct (String.eqb_spec (pc_Name c) name) as [E|E]; cbn [List.find pc_Name].
    + rewrite E. by rewrite (proj2 (String.eqb_neq name n)) by congruence.
    + by rewrite IH.
Qed.
Lemma count_in_same name p b d cs :
  counter_of name (count_in name p b d cs) =
  Some (match counter_of name cs with
        | Some c => mkProtectCounter name (i64 (pc_Packets c + p)) (i64 (pc_Bytes c + b)) (pc_Drops c || d)
        | None => mkProtectCounter name p b d end).
Proof.
  unfold counter_of. induction cs as [|c cs IH]; cbn [count_in List.find pc_Name]; [by rewrite String.eqb_refl |].
  destruct (String.eqb_spec (pc_Name c) name) as [E|E]; cbn [List.find pc_Name].
  - by rewrite E, String.eqb_refl.
  - rewrite (proj2 (String.eqb_neq _ _) E). exact IH.
Qed.
Lemma count_in_names name p b d cs n :
  n ∈ pc_Name <$> count_in name p b d cs <-> n = name \/ n ∈ pc_Name <$> cs.
Proof.
  induction cs as [|c cs IH]; cbn [count_in]; rewrite ?fmap_cons; cbn [pc_Name].
  - rewrite list_elem_of_singleton. split; [by left | intros [|H]; [done | by apply elem_of_nil in H]].
  - destruct (String.eqb_spec (pc_Name c) name) as [E|E]; rewrite ?fmap_cons; cbn [pc_Name]; rewrite !elem_of_cons; [naive_solver |].
    rewrite IH. naive_solver.
Qed.
Lemma count_in_once name p b d cs : NoDup (pc_Name <$> cs) -> NoDup (pc_Name <$> count_in name p b d cs).
Proof.
  induction cs as [|c cs IH]; cbn [count_in]; rewrite ?fmap_cons; cbn [pc_Name]; [intros _; apply NoDup_singleton |].
  intros [Hc Hn]%NoDup_cons. destruct (String.eqb_spec (pc_Name c) name) as [E|E]; rewrite ?fmap_cons; cbn [pc_Name]; apply NoDup_cons; (split; [| auto]); [done |].
  rewrite count_in_names. naive_solver.
Qed.

Lemma tally_snoc name rows p b d : tally name (rows ++ [(p, b, d)]) =
  Some (match tally name rows with
        | Some c => mkProtectCounter name (i64 (pc_Packets c + p)) (i64 (pc_Bytes c + b)) (pc_Drops c || d)
        | None => mkProtectCounter name p b d end).
Proof. destruct rows as [|[[p0 b0] d0] rows]; [done |]. cbn [app tally]. by rewrite fold_left_app. Qed.

Lemma table_rows items : let s := fold_left table_row items ([], ∅) in
  NoDup (pc_Name <$> s.1)
  /\ (forall name, name <> ""%string -> counter_of name s.1 = tally name (limit_rules name items))
  /\ (forall c, c ∈ s.1 -> pc_Name c <> ""%string)
  /\ (forall name, name ∈ s.2 <-> Exists (fun i => ti_Set i = Some name) items).
Proof.
  induction items as [|item items IH] using rev_ind.
  { cbn. split_and!; [constructor | done | intros c H; by apply elem_of_nil in H | intros name; rewrite Exists_nil; set_solver]. }
  cbn zeta in *. rewrite fold_left_app. cbn [fold_left]. destruct (fold_left table_row items ([], ∅)) as [cs present]. cbn [fst snd] in IH.
  destruct IH as (H1 & H2 & H3 & H4). unfold table_row.
  set (present' := match ti_Set item with Some name => _ | None => _ end).
  assert (Hp : forall name, name ∈ present' <-> Exists (fun i => ti_Set i = Some name) (items ++ [item])).
  { intros name. rewrite Exists_app, Exists_cons, Exists_nil, <- H4. unfold present'. destruct (ti_Set item) as [n|]; [| naive_solver].
    rewrite elem_of_union, elem_of_singleton. naive_solver. }
  assert (Hr : forall name, limit_rules name (items ++ [item]) = limit_rules name items ++ limit_rules name [item]) by (intros; apply omap_app).
  destruct (ti_Rule item) as [r|] eqn:Er.
  2: { cbn [fst snd]. split_and!; try done. intros name Hn. rewrite Hr. unfold limit_rules at 2. cbn. rewrite Er. cbn. by rewrite app_nil_r, H2. }
  destruct (String.eqb_spec (nr_Comment r) "") as [E0|E0].
  { cbn [fst snd]. split_and!; try done. intros name Hn. rewrite Hr. unfold limit_rules at 2. cbn. rewrite Er. cbn.
    rewrite (proj2 (String.eqb_neq _ _)) by congruence. by rewrite app_nil_r, H2. }
  destruct (rule_counter r) as [[p b]|] eqn:Ec; cbn [fst snd].
  - split_and!; [by apply count_in_once | | | done].
    + intros name Hn. rewrite Hr. unfold limit_rules at 2. cbn. rewrite Er. cbn. destruct (String.eqb_spec (nr_Comment r) name) as [<-|E].
      * rewrite Ec. cbn. rewrite count_in_same, tally_snoc, H2 by done. done.
      * rewrite count_in_other by congruence. by rewrite app_nil_r, H2.
    + intros c Hc. assert (Hin : pc_Name c ∈ pc_Name <$> count_in (nr_Comment r) p b (rule_drops r) cs) by by apply list_elem_of_fmap_2.
      apply count_in_names in Hin as [-> |Hin]; [done |]. apply list_elem_of_fmap in Hin as (c' & -> & Hc'). by apply H3.
  - split_and!; try done. intros name Hn. rewrite Hr. unfold limit_rules at 2. cbn. rewrite Er. cbn. rewrite Ec.
    destruct (String.eqb (nr_Comment r) name); cbn; by rewrite app_nil_r, H2.
Qed.

(** ** What the readback promises *)

Section promises.
Context {U : Unicode} {L : Listing}.

(** The counters of a listing: one per limit, however many rules nft split it
    into, with their packets and bytes added up in the order of the table and the
    verdict of any of them; a rule without a name or a counter is in none.  The
    sets are those the table declares. *)
Theorem counters_by_limit text items counters present : table_listing text = Some items ->
  parseProtectCounters text = Some (counters, present) ->
  NoDup (pc_Name <$> counters)
  /\ (forall name, name <> ""%string -> counter_of name counters = tally name (limit_rules name items))
  /\ (forall name, name ∈ present <-> Exists (fun i => ti_Set i = Some name) items).
Proof.
  unfold parseProtectCounters. intros ->. cbn. intros [= E]. pose proof (table_rows items) as H. cbn zeta in H. rewrite E in H.
  destruct H as (H1 & H2 & _ & H4). by split_and!.
Qed.

Lemma read_sets_emits present names : forall blocked locked,
  emits (fun argv => exists name, name ∈ names /\ name ∈ present /\ argv = list_set name) (read_sets present names blocked locked).
Proof.
  induction names as [|name names IH]; intros blocked locked; [done |]. cbn [read_sets].
  assert (Hm : forall b l, emits (fun argv => exists n, n ∈ name :: names /\ n ∈ present /\ argv = list_set n) (read_sets present names b l)).
  { intros b l. eapply emits_mono; [| apply IH]. intros argv (n & H1 & H2). exists n. split; [by right | done]. }
  case_bool_decide as Hp; [cbn [negb] | apply Hm]. split; [exists name; split; [by left | done] |].
  intros [out|e]; [| done]. destruct (parseProtectSetElems out) as [[b l]|]; [apply Hm | done].
Qed.

(** The lists of the sets read, in order. *)
Lemma report_spec counters blocked locked : let '(s, total) := report counters blocked locked in
  sm_Counters s = counters /\ total = Z.of_nat (length blocked) /\ sm_Locked s ≡ₚ locked
  /\ (length (sm_Blocked s) <= maxBlockedReported)%nat
  /\ exists dropped, sm_Blocked s ++ dropped ≡ₚ blocked
       /\ (forall k d, k ∈ sm_Blocked s -> d ∈ dropped -> bs_ExpiresSec d <= bs_ExpiresSec k)
       /\ (dropped <> [] -> length (sm_Blocked s) = maxBlockedReported).
Proof.
  unfold report. cbn [sm_Counters sm_Blocked sm_Locked]. set (l := merge_sort by_expiry blocked).
  assert (Hp : l ≡ₚ blocked) by apply merge_sort_Permutation.
  assert (Hs : StronglySorted by_expiry l).
  { apply Sorted_StronglySorted; [intros a b c; unfold by_expiry; lia |]. apply Sorted_merge_sort. unfold Total, by_expiry. intros. lia. }
  split_and!; [done | by rewrite Hp | apply merge_sort_Permutation | rewrite length_take; lia |]. exists (drop maxBlockedReported l).
  split_and!; [by rewrite take_drop | | intros Hd; rewrite length_take; destruct (Nat.le_gt_cases (length l) maxBlockedReported); [by rewrite drop_ge in Hd | lia]].
  intros k d Hk Hd. rewrite <- (take_drop maxBlockedReported l) in Hs. clear Hp.
  revert Hk Hd Hs. generalize (take maxBlockedReported l), (drop maxBlockedReported l). intros t dr Hk Hd. revert Hk.
  induction t as [|x t IH]; [by intros ?%elem_of_nil |]. intros Hk Hs. cbn [app] in Hs. inversion Hs as [|? ? Hs' Hx]; subst. apply elem_of_cons in Hk as [-> |Hk]; [| by apply IH].
  rewrite Forall_forall in Hx. apply (Hx d), elem_of_app. by right.
Qed.

(** What nft answered for the sets that are there. *)
Definition answered {W} (run : runner W) (names : list string) (parsed : list (list BlockedSource * list GeoLockedPort)) : Prop :=
  Forall2 (fun name p => exists out w, (run (list_set name) w).1 = Ok out /\ parseProtectSetElems out = Some p) names parsed.

Lemma read_sets_result {W} (run : runner W) present names : forall blocked locked w b l,
  (execute run (read_sets present names blocked locked) w).1 = Some (b, l) ->
  exists parsed, answered run (filter (fun n => n ∈ present) names) parsed
    /\ b = blocked ++ concat parsed.*1 /\ l = locked ++ concat parsed.*2.
Proof.
  induction names as [|name names IH]; intros blocked locked w b l; cbn [read_sets].
  { intros [= <- <-]. exists []. split; [constructor |]. cbn. by rewrite !app_nil_r. }
  rewrite filter_cons. case_bool_decide as Hp; cbn [negb].
  - rewrite decide_True by done. rewrite execute_exec. destruct (run (list_set name) w) as [[out|e] w1] eqn:Er; [| done]. cbn [fst snd].
    destruct (parseProtectSetElems out) as [[b1 l1]|] eqn:Es; [| done]. intros H. apply IH in H as (parsed & H1 & -> & ->).
    exists ((b1, l1) :: parsed). split; [| cbn; by rewrite !app_assoc]. constructor; [| done]. exists out, w. by rewrite Er.
  - rewrite decide_False by done. apply IH.
Qed.

(** What the sampler hands the portal, whatever nft prints: it has read the
    table, and then exactly the sets whose elements are state and which the
    table declares.  Of all the parked sources they list it serves at most a
    hundred, those with longest to go, beside the count of all of them, and
    every engaged lock; half a readback is none. *)
Theorem readback_bounded {W} (run : runner W) (w : W) :
  emits (fun argv => argv = list_table \/ exists name, name ∈ state_sets /\ argv = list_set name) ProtectState
  /\ match (execute run ProtectState w).1 with
     | None => True
     | Some (s, total) => exists text items parsed,
         (run list_table w).1 = Ok text /\ table_listing text = Some items
         /\ (forall name, name <> ""%string -> counter_of name (sm_Counters s) = tally name (limit_rules name items))
         /\ answered run (filter (fun name => Exists (fun i => ti_Set i = Some name) items) state_sets) parsed
         /\ sm_Locked s ≡ₚ concat parsed.*2
         /\ total = Z.of_nat (length (concat parsed.*1)) /\ (length (sm_Blocked s) <= maxBlockedReported)%nat
         /\ exists dropped, sm_Blocked s ++ dropped ≡ₚ concat parsed.*1
              /\ (forall k d, k ∈ sm_Blocked s -> d ∈ dropped -> bs_ExpiresSec d <= bs_ExpiresSec k)
              /\ (dropped <> [] -> length (sm_Blocked s) = maxBlockedReported)
     end.
Proof.
  split.
  - split; [by left |]. intros [out|e]; [| done]. destruct (parseProtectCounters out) as [[counters present]|]; [| done].
    apply emits_then; [| done]. eapply emits_mono; [| apply read_sets_emits]. intros argv (n & H1 & _ & H2). right. by exists n.
  - unfold ProtectState. rewrite execute_exec. destruct (run list_table w) as [[text|e] w1]; [| done]. cbn [fst snd].
    destruct (parseProtectCounters text) as [[counters present]|] eqn:Ep; [| done]. rewrite execute_then.
    pose proof (read_sets_result run present state_sets [] [] w1) as Hsets.
    destruct (execute run (read_sets present state_sets [] []) w1) as [[[blocked locked]|] w2]; [| done]. cbn [execute mbind option_bind fst snd].
    destruct (Hsets _ _ eq_refl) as (parsed & S1 & -> & ->). cbn [app].
    pose proof (report_spec counters (concat parsed.*1) (concat parsed.*2)) as Hr. destruct (report _ _ _) as [s total].
    destruct Hr as (R1 & R2 & R3 & R4 & R5). unfold parseProtectCounters in Ep. destruct (table_listing text) as [items|] eqn:Et; [| done].
    cbn in Ep. injection Ep as Ep. pose proof (table_rows items) as H. cbn zeta in H. rewrite Ep in H. destruct H as (_ & H2 & _ & H4). cbn [fst snd] in *.
    exists text, items, parsed. rewrite R1. split_and!; try done.
    assert (Ef : filter (fun name => Exists (fun i => ti_Set i = Some name) items) state_sets = filter (fun n => n ∈ present) state_sets)
      by (apply list_filter_iff; intros x; by rewrite H4).
    by rewrite Ef.
Qed.
End promises.

(** ** A listing read back *)

Definition bogus (packets : Z) : table_item := mkItem (Some (mkRuleRow "bogus-tcp" [mkExpr (Some (Some packets, Some (packets * 40))) false; mkExpr None true])) None.
Definition sample_items : list table_item :=
  [mkItem None (Some "blocked"%string); mkItem None (Some "geo_lockdown_eu"%string); bogus 3; bogus 4;
   mkItem (Some (mkRuleRow "" [mkExpr (Some (Some 9, Some 9)) true])) None;
   mkItem (Some (mkRuleRow "trip" [mkExpr (Some (Some 1, Some 60)) false])) None].
Definition parked_row (n : Z) : set_elem := mkElem None None (Some ("203.0.113.9"%string, n)) None.
#[local] Instance sample_listing : Listing := {
  table_listing t := if String.eqb t "table" then Some sample_items else None;
  set_listing t := Some [None; Some (mkSetRow "blocked" (mkElem (Some "198.51.100.1"%string) None None None :: (parked_row <$> seqZ 1 150)))] }.
Definition sample_nft : runner unit := fun argv w =>
  (match argv with
   | [_; _; "-t"; _; _; _; _]%string => Ok "table"%string
   | [_; _; _; _; _; _; "blocked"]%string => Ok "set"%string
   | _ => Err "no such set"%string end, w).

Example flood_read_back :
  match (execute sample_nft (@ProtectState AsciiUnicode _) tt).1 with
  | Some (s, total) => sm_Counters s = [mkProtectCounter "bogus-tcp" 7 280 true; mkProtectCounter "trip" 1 60 false]
      /\ total = 151 /\ length (sm_Blocked s) = 100%nat /\ (bs_ExpiresSec <$> last (sm_Blocked s)) = Some 51
  | None => False
  end.
Proof. by vm_compute. Qed.
