(* ===== verification/GeoFetch.v ===== *)
(** * Region lists ([internal/web/geofetch.go])

    The one outbound request of the portal: the networks of some countries,
    fetched side by side from a zone server and put into the settings form.
    The fetches run in goroutines behind four slots and one context, so a
    request is a sequence of their steps in any order ([geo_run]); what the
    zone server answers to a URL is a parameter, and so is the JSON of the
    body. *)

From S2P Require Import Prelude Bytes Decimal Text Net Model Validate.

Definition geoFetchMaxBytes : Z := Z.shiftl 4 20.
Definition geoFetchMaxCountries : nat := 24.
Definition geoFetchMaxTotal : Z := Z.shiftl 8 20.
Definition geoFetchParallel : nat := 4.

(** What a GET brings: nothing, or a status and a body that ends or breaks off. *)
Inductive geo_answer := NoAnswer | Answer (status : Z) (body : bytes) (broken : bool).

(** [GeoCut] is a request its context ended. *)
Inductive geo_err :=
| GeoNoFetch (cc : string) | GeoStatus (cc : string) (status : Z) | GeoRead (cc : string)
| GeoTooLarge (cc : string) | GeoNotNetwork (cc line : string) | GeoEmpty (cc : string)
| GeoCut (cc : string).

(** ** One country *)

Fixpoint zone_lines (cc : string) (ls : list bytes) : result geo_err (list string) :=
  match ls with
  | [] => Ok []
  | l :: ls =>
      let line := TrimSpace (bytes_string l) in
      if blank line then zone_lines cc ls
      else match parseIPv4Network line with
           | Err _ => Err (GeoNotNetwork cc line)
           | Ok _ => let? rest := zone_lines cc ls in Ok (line :: rest)
           end
  end.

(** At most one byte past the cap is read, so a body that breaks off later than
    that is too large and not broken. *)
Definition fetchCountry (get : string -> geo_answer) (geoBase cc : string) : result geo_err (list string) :=
  match get (geoBase ++ "/" ++ cc ++ "-aggregated.zone")%string with
  | NoAnswer => Err (GeoNoFetch cc)
  | Answer status body broken =>
      if negb (status =? 200) then Err (GeoStatus cc status)
      else if geoFetchMaxBytes <? Z.of_nat (length body) then Err (GeoTooLarge cc)
      else if broken then Err (GeoRead cc)
      else let? out := zone_lines cc (split_lines [] body) in
           match out with [] => Err (GeoEmpty cc) | _ => Ok out end
  end.

(** ** The fetches of one request *)

(** Where a goroutine is: before the semaphore, holding a slot, fetching, done. *)
Inductive fetch_phase := Queued | Slot | Flying | Ended.
#[export] Instance phase_eq : EqDecision fetch_phase. Proof. solve_decision. Defined.

Record fetches := mkFetches {
  ft_phase : list fetch_phase; ft_lists : list (list string); ft_err : option geo_err; ft_cancelled : bool }.
Definition geo_init (codes : list string) : fetches :=
  mkFetches ((fun _ => Queued) <$> codes) ((fun _ => []) <$> codes) None false.
Definition set_phase (i : nat) (p : fetch_phase) (f : fetches) : fetches :=
  mkFetches (<[i := p]> (ft_phase f)) (ft_lists f) (ft_err f) (ft_cancelled f).

Definition in_slot (p : fetch_phase) : bool := match p with Slot | Flying => true | _ => false end.
Definition busy (f : fetches) : nat := sum_list_with (fun p => Nat.b2n (in_slot p)) (ft_phase f).
Definition at_phase (i : nat) (p : fetch_phase) (f : fetches) : bool := bool_decide (ft_phase f !! i = Some p).

(** A slot is taken, the context is looked at, the fetch ends (cut short only
    once the context has ended), and the operator leaves. *)
Inductive geo_op := GTake (i : nat) | GLook (i : nat) | GEnd (i : nat) (cut : bool) | GGone.
#[export] Instance geo_op_eq : EqDecision geo_op. Proof. solve_decision. Defined.

Section fetch.
Context (get : string -> geo_answer) (geoBase : string) (codes : list string).

Definition geo_outcome (f : fetches) (cc : string) (cut : bool) : option (result geo_err (list string)) :=
  if cut then if ft_cancelled f then Some (Err (GeoCut cc)) else None
  else Some (fetchCountry get geoBase cc).

Definition geo_ended (i : nat) (f : fetches) (r : result geo_err (list string)) : fetches :=
  let ph := <[i := Ended]> (ft_phase f) in
  match r with
  | Ok l => mkFetches ph (<[i := l]> (ft_lists f)) (ft_err f) (ft_cancelled f)
  | Err e => mkFetches ph (ft_lists f) (Some (default e (ft_err f))) true
  end.

Definition geo_step (f : fetches) (op : geo_op) : option fetches :=
  match op with
  | GTake i => if at_phase i Queued f && (busy f <? geoFetchParallel)%nat then Some (set_phase i Slot f) else None
  | GLook i => if at_phase i Slot f then Some (set_phase i (if ft_cancelled f then Ended else Flying) f) else None
  | GEnd i cut =>
      if at_phase i Flying f then
        match codes !! i with
        | Some cc => geo_ended i f <$> geo_outcome f cc cut
        | None => None
        end
      else None
  | GGone => Some (mkFetches (ft_phase f) (ft_lists f) (ft_err f) true)
  end.
Fixpoint geo_run (f : fetches) (ops : list geo_op) : option fetches :=
  match ops with
  | [] => Some f
  | op :: ops => geo_step f op ≫= fun f => geo_run f ops
  end.

(** [wg.Wait]. *)
Definition waited (f : fetches) : bool := forallb (fun p => bool_decide (p = Ended)) (ft_phase f).

(** ** The answer *)

Inductive geo_reply :=
| GeoLists (cidrs : list string) (counts : list (string * nat))
| GeoTooMuch | GeoBadGateway (e : geo_err) | GeoSilent.

Definition geo_total (cidrs : list string) : Z :=
  fold_right (fun c n => n + (Z.of_nat (String.length c) + 1)) 0 cidrs.
Definition geo_answered (f : fetches) : geo_reply :=
  match ft_err f with
  | Some e => GeoBadGateway e
  | None =>
      if ft_cancelled f then GeoSilent
      else
        let cidrs := concat (ft_lists f) in
        if geoFetchMaxTotal <? geo_total cidrs then GeoTooMuch
        else GeoLists cidrs (zip_with (fun cc l => (cc, length l)) codes (ft_lists f))
  end.
End fetch.

(** [handleGeoFetch] up to the fetches: the codes it will ask for, or the
    refusal; [countries_of] decodes the body. *)
Inductive geo_refusal := GeoBadBody | GeoNone | GeoTooMany (n : nat) | GeoBadCode (e : refusal) | GeoBlank.
Section begin.
Context `{Unicode} (countries_of : bytes -> option (list string)).
Definition geo_begin (body : bytes) : result geo_refusal (list string) :=
  match countries_of body with
  | None => Err GeoBadBody
  | Some [] => Err GeoNone
  | Some countries =>
      if (geoFetchMaxCountries <? length countries)%nat then Err (GeoTooMany (length countries))
      else match cleanCountryCodes countries with
           | Err e => Err (GeoBadCode e)
           | Ok [] => Err GeoBlank
           | Ok codes => Ok codes
           end
  end.
End begin.

(** ** What a fetched list is *)

Lemma v4_fields_long s : forall acc val dl ip, v4_fields s acc val dl = Some ip -> 0 <= dl -> (dl = 0 -> s <> []) ->
  ((if (dl =? 0)%Z then 1 else 0) + 2 * (3 - length acc) <= length s)%nat.
Proof.
  induction s as [|c s IH]; intros acc val dl ip Hp Hd Hs; cbn [v4_fields length] in *.
  { destruct (Nat.ltb_spec (length acc) 3); [done |]. destruct (Z.eqb_spec dl 0); [by specialize (Hs e) | lia]. }
  destruct (is_digit c).
  - destruct (_ && _); [done |]. destruct (255 <? _); [done |]. apply IH in Hp; [| lia | lia].
    rewrite (proj2 (Z.eqb_neq (dl + 1) 0)) in Hp by lia. destruct (dl =? 0); lia.
  - destruct (c =? 46); [| done]. destruct (dl =? 0); [done |]. cbn [orb] in Hp.
    destruct (bool_decide_reflect (s = [])); [done |]. destruct (Nat.eqb_spec (length acc) 3); [done |].
    apply IH in Hp; [| lia | done]. rewrite length_app in Hp. cbn in Hp. lia.
Qed.

Lemma split_slash_eq s a m : split_slash s = Some (a, m) -> s = a ++ 47 :: m.
Proof.
  unfold split_slash. destruct (list_find _ _) as [[i x]|] eqn:E; [| done]. intros [= <- <-].
  apply list_find_Some in E as (Hi & <- & _). by rewrite take_drop_middle.
Qed.

(** The shortest network is [0.0.0.0/0], and the longest printed one has
    eighteen characters. *)
Lemma parsed_line s t : parseIPv4Network s = Ok t ->
  has_slash s = true /\ (9 <= String.length s)%nat /\ (String.length t <= 18)%nat.
Proof.
  intros Ht. pose proof Ht as (ip & ones & Hn & -> & Hip & Ho & _)%parseIPv4Network_ok.
  unfold network4, ParseCIDR in Hn. destruct (split_slash _) as [[a m]|] eqn:Es; [| done].
  apply split_slash_eq in Es. rewrite !string_length_bytes. unfold has_slash. rewrite Es.
  destruct (ParseAddr a) as [ad|] eqn:Ea; [| done]. destruct (dtoi m) as [n|] eqn:Em; [| done].
  destruct (_ <? n); [done |]. cbn [net_bits net_IP net_ones] in Hn.
  destruct ad as [ip4|ip6]; cbn [BitLen Z.eqb andb] in Hn; [| done].
  apply ParseAddr_cases in Ea as [(v & _ & Hv & _) | (? & ? & _)]; [| done].
  assert (Ha : (7 <= length a)%nat).
  { destruct a as [|x a]; [done |]. by apply v4_fields_long in Hv. }
  split_and!.
  - rewrite existsb_app. cbn. by rewrite orb_true_r.
  - rewrite length_app. cbn [length]. destruct m; [done |]. cbn. lia.
  - rewrite string_bytes_cidr4 by done. clear - Hip Ho.
    assert (Hl : forall k, 0 <= k < 1000 -> (length (octet k) <= 3)%nat).
    { intros k Hk. rewrite FormatUint_small by done. repeat split_if; cbn; lia. }
    assert (H2 : (length (octet ones) <= 2)%nat).
    { rewrite FormatUint_small by lia. destruct (Z.ltb_spec ones 10); [cbn; lia |].
      destruct (Z.ltb_spec ones 100); [cbn; lia | lia]. }
    destruct Hip as [Hl4 Hb]. destruct ip as [|a [|b [|c [|d [|]]]]]; try done.
    rewrite !Forall_cons in Hb. destruct Hb as (Ha & Hb & Hc & Hd & _). unfold is_byte in *.
    unfold cidr4. cbn [dotted]. fold (octet a) (octet b) (octet c) (octet d) (octet ones).
    rewrite !length_app. cbn [length].
    pose proof (Hl a ltac:(lia)). pose proof (Hl b ltac:(lia)). pose proof (Hl c ltac:(lia)). pose proof (Hl d ltac:(lia)). lia.
Qed.

(** A line that can stand in a fetched list. *)
Definition zone_line (s : string) : Prop :=
  TrimSpace s = s /\ blank s = false /\ is_ok (parseIPv4Network s) = true.

Lemma zone_lines_ok cc ls out : zone_lines cc ls = Ok out ->
  Forall zone_line out /\ out = filter (fun s => blank s = false) ((fun l => TrimSpace (bytes_string l)) <$> ls).
Proof.
  revert out. induction ls as [|l ls IH]; intros out Ho; cbn [zone_lines] in Ho; [by injection Ho as <- |].
  cbv zeta in Ho. cbn [fmap list_fmap]. destruct (blank (TrimSpace (bytes_string l))) eqn:Eb.
  { rewrite filter_cons_False by (by rewrite Eb). by apply IH. }
  rewrite filter_cons_True by done.
  destruct (parseIPv4Network _) eqn:En; [| done]. apply res_bind_ok in Ho as (rest & Hr & [= <-]).
  destruct (IH rest Hr) as [Hf <-]. split; [| done]. constructor; [| done].
  split_and!; [apply TrimSpace_idem | done | by rewrite En].
Qed.

(** [fetchCountry] whole: the non-blank lines of a complete answer, every one a
    network, and at least one. *)
Lemma fetchCountry_ok get base cc out : fetchCountry get base cc = Ok out ->
  out <> [] /\ Forall zone_line out
  /\ exists body, get (base ++ "/" ++ cc ++ "-aggregated.zone")%string = Answer 200 body false
     /\ Z.of_nat (length body) <= geoFetchMaxBytes
     /\ out = filter (fun s => blank s = false) ((fun l => TrimSpace (bytes_string l)) <$> split_lines [] body).
Proof.
  unfold fetchCountry. destruct (get _) as [|status body broken] eqn:Eg; [done |].
  destruct (Z.eqb_spec status 200) as [->|]; [cbn [negb] | done].
  destruct (Z.ltb_spec geoFetchMaxBytes (Z.of_nat (length body))); [done |]. destruct broken; [done |].
  intros (l & Hl & Ho)%res_bind_ok. destruct l as [|x l]; [done |]. injection Ho as <-.
  pose proof (zone_lines_ok _ _ _ Hl) as [Hf He]. split_and!; [done | done |]. by exists body.
Qed.

Lemma clean_fetched what cidrs : Forall zone_line cidrs -> exists nets,
  cleanNetworkList what cidrs = Ok nets /\ Forall2 (fun c n => parseIPv4Network c = Ok n) cidrs nets
  /\ 10 * geo_total nets <= 19 * geo_total cidrs.
Proof.
  induction 1 as [|c cidrs (Ht & Hb & Hp) _ (nets & Hc & Hf & Hl)]; [exists []; by repeat split |].
  destruct (parseIPv4Network c) as [n|] eqn:En; [| done].
  destruct (parsed_line _ _ En) as (Hs & H9 & H18). exists (n :: nets). cbn [cleanNetworkList].
  rewrite Ht, Hb, Hs, En, Hc. split_and!; [done | by constructor |]. cbn [geo_total fold_right].
  fold (geo_total nets) (geo_total cidrs). lia.
Qed.

Lemma regions_bytes_one r : regions_bytes [r] = geo_total (region_CIDRs r).
Proof. done. Qed.

(** A list a fetch can have answered fits in a save, whatever it is saved under. *)
Lemma fetched_region_saves `{Unicode} seen name countries rg cidrs : Forall zone_line cidrs ->
  geo_total cidrs <= geoFetchMaxTotal -> check_region seen (mkGeoRegion name [] countries) = Ok rg ->
  exists nets, Forall2 (fun c n => parseIPv4Network c = Ok n) cidrs nets
    /\ check_region seen (mkGeoRegion name cidrs countries) = Ok (mkGeoRegion (region_Name rg) nets (region_Countries rg))
    /\ regions_bytes [mkGeoRegion (region_Name rg) nets (region_Countries rg)] <= maxRegionsBytes.
Proof.
  intros Hz Ht Hc.
  destruct (clean_fetched ("region " ++ TrimSpace name)%string cidrs Hz) as (nets & Hn & Hf & Hl). exists nets.
  split; [done |]. rewrite regions_bytes_one. split.
  - unfold check_region in *. cbv zeta in *. cbn [region_Name region_CIDRs region_Countries cleanNetworkList] in *.
    accept Hc. destruct (List.find _ seen); [done |]. accept Hc. injection Hc as <-. by replay.
  - cbn [region_CIDRs]. change geoFetchMaxTotal with 8388608 in Ht. change maxRegionsBytes with 25165824. lia.
Qed.

(** ** The goroutines *)

Lemma sum_insert {A} (g : A -> nat) (l : list A) i x y : l !! i = Some x ->
  (sum_list_with g (<[i := y]> l) + g x = sum_list_with g l + g y)%nat.
Proof.
  revert i. induction l as [|z l IH]; intros [|i] Hi; [done | done | injection Hi as <-; cbn; lia |].
  specialize (IH i Hi). change (<[S i := y]> (z :: l)) with (z :: <[i := y]> l). cbn [sum_list_with]. lia.
Qed.

Section fetching.
Context (get : string -> geo_answer) (geoBase : string) (codes : list string).
#[local] Abbreviation step := (geo_step get geoBase codes).
#[local] Abbreviation run := (geo_run get geoBase codes).
#[local] Abbreviation fetched cc := (fetchCountry get geoBase cc).

(** What holds of every state: the lists of the goroutines that ended are those
    fetched unless the context has ended, and an error is one of some code. *)
Record geo_inv (f : fetches) : Prop := {
  gi_phase : length (ft_phase f) = length codes;
  gi_lists : length (ft_lists f) = length codes;
  gi_busy : (busy f <= geoFetchParallel)%nat;
  gi_ended : ft_cancelled f = false -> forall i cc, ft_phase f !! i = Some Ended -> codes !! i = Some cc ->
    exists l, ft_lists f !! i = Some l /\ fetched cc = Ok l;
  gi_err : forall e, ft_err f = Some e -> ft_cancelled f = true }.

(** While the operator stays the context only ends with the error of a code. *)
Definition geo_stays (f : fetches) : Prop :=
  ft_cancelled f = true -> exists cc e, cc ∈ codes /\ fetched cc = Err e /\ ft_err f = Some e.

Lemma busy_set f (ph : list fetch_phase) i p q : ft_phase f !! i = Some p -> ph = <[i := q]> (ft_phase f) ->
  (sum_list_with (fun p => Nat.b2n (in_slot p)) ph + Nat.b2n (in_slot p) = busy f + Nat.b2n (in_slot q))%nat.
Proof. intros Hi ->. exact (sum_insert (fun p => Nat.b2n (in_slot p)) _ _ _ _ Hi). Qed.

(** The list of an ended goroutine survives a step of another. *)
Lemma ended_other (ph : list fetch_phase) i q (ls : list (list string)) :
  q <> Ended -> (forall j cc, ph !! j = Some Ended -> codes !! j = Some cc -> exists l, ls !! j = Some l /\ fetched cc = Ok l) ->
  (forall j cc, <[i := q]> ph !! j = Some Ended -> codes !! j = Some cc -> exists l, ls !! j = Some l /\ fetched cc = Ok l).
Proof.
  intros Hq He j cc Hj Hc. destruct (decide (i = j)) as [->|Hij].
  - apply list_lookup_insert_Some in Hj as [(_ & Hj & _) | [? _]]; congruence.
  - rewrite list_lookup_insert_ne in Hj by done. by apply He.
Qed.

Lemma geo_init_inv : geo_inv (geo_init codes) /\ geo_stays (geo_init codes).
Proof.
  split; [| done]. constructor; cbn [geo_init ft_phase ft_lists ft_err ft_cancelled].
  - by rewrite length_fmap.
  - by rewrite length_fmap.
  - unfold busy. cbn [geo_init ft_phase]. clear. induction codes; cbn; [lia | done].
  - intros _ i cc Hi. apply list_lookup_fmap_Some in Hi as (? & ? & _). done.
  - done.
Qed.

Lemma geo_step_inv f op f' : step f op = Some f' -> geo_inv f -> geo_inv f'.
Proof.
  intros Hs [Hp Hl Hb He Hr]. destruct op as [i|i|i cut|]; cbn [geo_step] in Hs.
  - destruct (at_phase i Queued f) eqn:Ea; [| done]. apply bool_decide_eq_true in Ea.
    destruct (Nat.ltb_spec (busy f) geoFetchParallel); [| done]. injection Hs as <-. constructor; cbn [set_phase ft_phase ft_lists ft_err ft_cancelled].
    + by rewrite length_insert.
    + done.
    + pose proof (busy_set f _ i _ Slot Ea eq_refl) as Hn. unfold busy at 1. cbn [set_phase ft_phase in_slot Nat.b2n] in *. lia.
    + intros Hc. apply ended_other; [done | by apply He].
    + done.
  - destruct (at_phase i Slot f) eqn:Ea; [| done]. apply bool_decide_eq_true in Ea. injection Hs as <-.
    constructor; cbn [set_phase ft_phase ft_lists ft_err ft_cancelled].
    + by rewrite length_insert.
    + done.
    + pose proof (busy_set f _ i _ (if ft_cancelled f then Ended else Flying) Ea eq_refl) as Hn.
      unfold busy at 1. cbn [set_phase ft_phase in_slot Nat.b2n] in *. destruct (ft_cancelled f); cbn in *; lia.
    + intros Hc. rewrite Hc. apply ended_other; [done | by apply He].
    + done.
  - destruct (at_phase i Flying f) eqn:Ea; [| done]. apply bool_decide_eq_true in Ea.
    destruct (codes !! i) as [cc|] eqn:Ec; [| done].
    assert (Hn : (sum_list_with (fun p => Nat.b2n (in_slot p)) (<[i := Ended]> (ft_phase f)) <= geoFetchParallel)%nat).
    { pose proof (busy_set f _ i _ Ended Ea eq_refl) as Hn. cbn in Hn |- *. unfold geoFetchParallel in *. lia. }
    apply fmap_Some in Hs as (r & Ho & ->). destruct r as [l|e]; cbn [geo_ended].
    2: { constructor; cbn [ft_phase ft_lists ft_err ft_cancelled]; [by rewrite length_insert | done | done | done | done]. }
    constructor; cbn [ft_phase ft_lists ft_err ft_cancelled]; [by rewrite length_insert | by rewrite length_insert | done | | done].
    intros Hc j cj Hj Hcj. destruct (decide (i = j)) as [->|Hij].
    + exists l. rewrite list_lookup_insert_eq by (apply lookup_lt_Some in Ec; lia). split; [done |].
      unfold geo_outcome in Ho. rewrite Hc in Ho. destruct cut; [done |]. congruence.
    + rewrite list_lookup_insert_ne in Hj by done. rewrite list_lookup_insert_ne by done. by apply (He Hc).
  - injection Hs as <-. by constructor.
Qed.

Lemma geo_step_stays f op f' : step f op = Some f' -> op <> GGone -> geo_inv f -> geo_stays f -> geo_stays f'.
Proof.
  intros Hs Hg Hi Hst. destruct op as [i|i|i cut|]; cbn [geo_step] in Hs.
  - destruct (_ && _); [| done]. by injection Hs as <-.
  - destruct (at_phase _ _ _); [| done]. by injection Hs as <-.
  - destruct (at_phase _ _ _); [| done]. destruct (codes !! i) as [cc|] eqn:Ec; [| done].
    apply fmap_Some in Hs as (r & Ho & ->). destruct r as [l|e]; [done |]. intros _. cbn [geo_ended ft_err].
    unfold geo_outcome in Ho. destruct (ft_cancelled f) eqn:Hc.
    + destruct (Hst Hc) as (c0 & e0 & H1 & H2 & ->). by exists c0, e0.
    + destruct cut; [done |]. injection Ho as Ho. exists cc, e. split_and!; [by eapply list_elem_of_lookup_2 | done |].
      destruct (ft_err f) as [e1|] eqn:Ee; [| done]. by rewrite (gi_err f Hi _ Ee) in Hc.
  - done.
Qed.

Lemma geo_run_inv ops : forall f f', run f ops = Some f' -> geo_inv f -> geo_inv f'.
Proof.
  induction ops as [|op ops IH]; intros f f' Hr Hi; cbn [geo_run] in Hr; [by injection Hr as <- |].
  apply bind_Some in Hr as (g & Hs & Hr). eapply IH; [exact Hr |]. by eapply geo_step_inv.
Qed.
Lemma geo_run_stays ops : forall f f', run f ops = Some f' -> GGone ∉ ops -> geo_inv f -> geo_stays f -> geo_stays f'.
Proof.
  induction ops as [|op ops IH]; intros f f' Hr Hg Hi Hst; cbn [geo_run] in Hr; [by injection Hr as <- |].
  apply bind_Some in Hr as (g & Hs & Hr). apply not_elem_of_cons in Hg as [Hn Hg].
  eapply IH; [exact Hr | done | by eapply geo_step_inv | by eapply geo_step_stays].
Qed.

(** Once every goroutine has ended and the context has not, every list is the
    one fetched. *)
Lemma waited_lists f : geo_inv f -> waited f = true -> ft_cancelled f = false ->
  Forall2 (fun cc l => fetched cc = Ok l) codes (ft_lists f).
Proof.
  intros Hi Hw Hc. apply Forall2_same_length_lookup. split; [symmetry; apply Hi |]. intros i cc l Hcc Hl.
  destruct (gi_ended f Hi Hc i cc) as (l' & Hl' & Hf); [| done | congruence].
  destruct (ft_phase f !! i) as [q|] eqn:Eq.
  - f_equal. unfold waited in Hw. rewrite forallb_forall in Hw.
    apply (bool_decide_eq_true (q = Ended)). apply Hw, list_elem_of_In. by eapply list_elem_of_lookup_2.
  - apply lookup_ge_None in Eq. apply lookup_lt_Some in Hcc. rewrite (gi_phase f Hi) in Eq. lia.
Qed.

Lemma answered_lists f : ft_err f = None -> ft_cancelled f = false ->
  geo_answered codes f = geo_answered codes (mkFetches [] (ft_lists f) None false).
Proof. unfold geo_answered. by intros -> ->. Qed.

(** *** No goroutine waits for ever *)

Definition todo_phase (p : fetch_phase) : nat := match p with Queued => 3 | Slot => 2 | Flying => 1 | Ended => 0 end.
Definition todo (f : fetches) : nat := sum_list_with todo_phase (ft_phase f).

Lemma geo_step_todo f op f' : step f op = Some f' -> op <> GGone -> (todo f' < todo f)%nat.
Proof.
  intros Hs Hg.
  assert (Hlt : forall i p q, ft_phase f !! i = Some p -> (todo_phase q < todo_phase p)%nat ->
    (sum_list_with todo_phase (<[i := q]> (ft_phase f)) < todo f)%nat).
  { intros i p q Hi Hpq. pose proof (sum_insert todo_phase _ _ _ q Hi). unfold todo. lia. }
  destruct op as [i|i|i cut|]; cbn [geo_step] in Hs; [| | | done];
    destruct (at_phase i _ f) eqn:Ea; cbn [andb] in Hs; try done; apply bool_decide_eq_true in Ea.
  - destruct (_ <? _)%nat; [| done]. injection Hs as <-. apply (Hlt _ _ _ Ea). cbn. lia.
  - injection Hs as <-. apply (Hlt _ _ _ Ea). destruct (ft_cancelled f); cbn; lia.
  - destruct (codes !! i); [| done]. apply fmap_Some in Hs as ([l|e] & _ & ->); apply (Hlt _ _ _ Ea); cbn; lia.
Qed.

Lemma no_slot_no_busy f : Forall (fun p => in_slot p = false) (ft_phase f) -> busy f = 0%nat.
Proof. unfold busy. induction 1 as [|p l Hp _ IH]; cbn; [done |]. by rewrite Hp. Qed.

(** While one has not ended, some step can be taken. *)
Lemma geo_progress f : geo_inv f -> waited f = false -> exists op f', op <> GGone /\ step f op = Some f'.
Proof.
  intros Hi Hw.
  destruct (decide (Exists (fun p => in_slot p = true) (ft_phase f))) as [Hx|Hx].
  - apply Exists_exists in Hx as (p & (i & Hp)%list_elem_of_lookup_1 & Hs). destruct p; try done.
    + exists (GLook i). eexists. split; [done |]. cbn [geo_step]. unfold at_phase. by rewrite bool_decide_eq_true_2.
    + assert (Hc : is_Some (codes !! i)).
      { apply lookup_lt_is_Some. rewrite <- (gi_phase f Hi). by eapply lookup_lt_Some. }
      destruct Hc as [cc Hc]. exists (GEnd i false). eexists. split; [done |]. cbn [geo_step]. unfold at_phase.
      rewrite bool_decide_eq_true_2 by done. by rewrite Hc.
  - assert (Hn : busy f = 0%nat).
    { apply no_slot_no_busy. apply not_Exists_Forall in Hx; [| apply _]. eapply Forall_impl; [exact Hx |]. cbn. by intros [] H. }
    unfold waited in Hw. apply not_true_iff_false in Hw. rewrite forallb_forall in Hw.
    assert (Hq : Queued ∈ ft_phase f).
    { destruct (decide (Queued ∈ ft_phase f)) as [|Hq]; [done |]. exfalso. apply Hw. intros p Hp.
      apply bool_decide_eq_true. apply list_elem_of_In in Hp. destruct p; try done; destruct Hx;
        apply Exists_exists; eexists; (split; [exact Hp | done]). }
    apply list_elem_of_lookup_1 in Hq as [i Hq]. exists (GTake i). eexists. split; [done |]. cbn [geo_step]. unfold at_phase.
    by rewrite bool_decide_eq_true_2, Hn by done.
Qed.

Lemma geo_finishes n : forall f, (todo f <= n)%nat -> geo_inv f ->
  exists ops f', GGone ∉ ops /\ run f ops = Some f' /\ waited f' = true.
Proof.
  induction n as [|n IH]; intros f Hn Hi; destruct (waited f) eqn:Ew.
  all: try by (exists [], f; repeat split; [apply not_elem_of_nil | done]).
  - destruct (geo_progress f Hi Ew) as (op & f' & Hg & Hs). apply geo_step_todo in Hs; [lia | done].
  - destruct (geo_progress f Hi Ew) as (op & f' & Hg & Hs). pose proof (geo_step_todo _ _ _ Hs Hg).
    destruct (IH f') as (ops & f2 & Hgo & Hr & Hw); [lia | by eapply geo_step_inv |].
    exists (op :: ops), f2. split_and!; [| by cbn [geo_run]; rewrite Hs | done].
    apply not_elem_of_cons. split; congruence.
Qed.
End fetching.

(** ** What the button promises *)

Section promises.
Context `{Unicode} (countries_of : bytes -> option (list string)).
Context (get : string -> geo_answer) (geoBase : string).

Lemma geo_begin_ok body codes : geo_begin countries_of body = Ok codes ->
  codes <> [] /\ exists countries, countries_of body = Some countries
    /\ (length countries <= geoFetchMaxCountries)%nat /\ cleanCountryCodes countries = Ok codes.
Proof.
  unfold geo_begin. destruct (countries_of body) as [countries|]; [| done].
  destruct countries as [|c cs]; [done |]. destruct (Nat.ltb_spec geoFetchMaxCountries (length (c :: cs))); [done |].
  destruct (cleanCountryCodes (c :: cs)) as [l|] eqn:Ec; [| done]. destruct l as [|x l]; [done |].
  intros [= <-]. split; [done |]. by exists (c :: cs).
Qed.

(** The complete list of a country, told of what the server answered: one answer,
    status 200, read to its end and within the cap, of which every line that is
    not blank stands in the list in its order, is a network, and there is one. *)
Definition whole_zone (cc : string) (l : list string) : Prop :=
  exists zone, get (geoBase ++ "/" ++ cc ++ "-aggregated.zone")%string = Answer 200 zone false
    /\ Z.of_nat (length zone) <= 4 * 1024 * 1024
    /\ l = filter (fun line => line <> "") ((fun b => TrimSpace (bytes_string b)) <$> split_lines [] zone)
    /\ l <> [] /\ Forall (fun line => is_ok (parseIPv4Network line) = true) l.

Lemma fetchCountry_whole cc l : fetchCountry get geoBase cc = Ok l -> whole_zone cc l.
Proof.
  intros (Hn & Hz & zone & Hg & Hl & He)%fetchCountry_ok. exists zone. split_and!; [done | exact Hl | | done |].
  - rewrite He. apply list_filter_iff. intros s. unfold blank. destruct (String.eqb_spec s ""); naive_solver.
  - eapply Forall_impl; [exact Hz |]. by intros line (_ & _ & ?).
Qed.

(** [C33] A region list is whole or it is nothing, and what the button fills in can
    be saved.  However the fetches interleave and whichever end first, when the
    handler answers with networks the server gave a complete list for every
    code the request asked for: status 200, the body read to its end and within
    the cap, every line that is not blank a network, and at least one; the
    answer is those lines and no others, code by code in the order asked, with
    their counts. The codes are ones the gate keeps as they are, and the
    region's form, if it can be saved at all, can be saved with all of these
    networks and then takes less than the gate allows all regions together. *)
Theorem fetch_whole_or_nothing body codes ops f cidrs counts :
  geo_begin countries_of body = Ok codes ->
  geo_run get geoBase codes (geo_init codes) ops = Some f -> waited f = true ->
  geo_answered codes f = GeoLists cidrs counts ->
  cleanCountryCodes codes = Ok codes
  /\ (exists ls, Forall2 whole_zone codes ls
        /\ cidrs = concat ls /\ counts = zip_with (fun cc l => (cc, length l)) codes ls)
  /\ cidrs <> []
  /\ forall seen name countries rg, check_region seen (mkGeoRegion name [] countries) = Ok rg ->
       exists nets, Forall2 (fun c n => parseIPv4Network c = Ok n) cidrs nets
         /\ check_region seen (mkGeoRegion name cidrs countries) = Ok (mkGeoRegion (region_Name rg) nets (region_Countries rg))
         /\ regions_bytes [mkGeoRegion (region_Name rg) nets (region_Countries rg)] <= maxRegionsBytes.
Proof.
  intros Hb Hr Hw Ha. apply geo_begin_ok in Hb as (Hne & countries & _ & _ & Hc).
  pose proof (geo_run_inv get geoBase codes _ _ _ Hr (proj1 (geo_init_inv get geoBase codes))) as Hi.
  unfold geo_answered in Ha. destruct (ft_err f); [done |]. destruct (ft_cancelled f) eqn:Ec; [done |].
  destruct (Z.ltb_spec geoFetchMaxTotal (geo_total (concat (ft_lists f)))); [done |]. injection Ha as <- <-.
  pose proof (waited_lists _ _ _ _ Hi Hw Ec) as Hf.
  assert (Hz : Forall zone_line (concat (ft_lists f))).
  { apply Forall_concat. clear - Hf. induction Hf as [|cc l cs ls Hl _ IH]; constructor; [| done].
    by apply fetchCountry_ok in Hl as (_ & ? & _). }
  split_and!.
  - by eapply clean_codes_idem.
  - exists (ft_lists f). split; [| done]. eapply Forall2_impl; [exact Hf |]. exact fetchCountry_whole.
  - destruct Hf as [|cc l cs ls Hl _]; [done |]. apply fetchCountry_ok in Hl as (Hn & _). by destruct l.
  - intros seen name cs rg Hg. by apply fetched_region_saves.
Qed.

(** While the operator waits, the answer does not depend on how the fetches
    interleave but for which error is told: with every list fetched it is the
    one of those lists, and otherwise a bad gateway with the error of one of the
    codes. *)
Theorem fetch_any_order codes ops f :
  geo_run get geoBase codes (geo_init codes) ops = Some f -> waited f = true -> GGone ∉ ops ->
  (exists ls, Forall2 (fun cc l => fetchCountry get geoBase cc = Ok l) codes ls
     /\ geo_answered codes f = geo_answered codes (mkFetches [] ls None false))
  \/ (exists cc e, cc ∈ codes /\ fetchCountry get geoBase cc = Err e /\ geo_answered codes f = GeoBadGateway e).
Proof.
  intros Hr Hw Hg. destruct (geo_init_inv get geoBase codes) as [Hi0 Hs0].
  pose proof (geo_run_inv _ _ _ _ _ _ Hr Hi0) as Hi. pose proof (geo_run_stays _ _ _ _ _ _ Hr Hg Hi0 Hs0) as Hs.
  destruct (ft_cancelled f) eqn:Ec.
  - right. destruct (Hs Ec) as (cc & e & Hin & Hf & He). exists cc, e. unfold geo_answered. by rewrite He.
  - left. exists (ft_lists f). split; [by apply waited_lists |]. apply answered_lists; [| done].
    destruct (ft_err f) eqn:Ee; [| done]. by rewrite (gi_err _ _ _ f Hi _ Ee) in Ec.
Qed.

(** At most four fetches hold a slot, a run has at most three steps for each
    code, and from wherever a run is all of them end. *)
Theorem fetch_ends codes ops f :
  geo_run get geoBase codes (geo_init codes) ops = Some f ->
  (busy f <= geoFetchParallel)%nat
  /\ (length (filter (fun op => op <> GGone) ops) <= 3 * length codes)%nat
  /\ exists rest f', GGone ∉ rest /\ geo_run get geoBase codes f rest = Some f' /\ waited f' = true.
Proof.
  intros Hr. pose proof (geo_run_inv _ _ _ _ _ _ Hr (proj1 (geo_init_inv get geoBase codes))) as Hi.
  split_and!; [apply Hi | | by eapply (geo_finishes get geoBase codes (todo f) f)].
  assert (H0 : todo (geo_init codes) = (3 * length codes)%nat).
  { unfold todo. cbn [geo_init ft_phase]. clear. induction codes as [|c cs IH]; [done |].
    cbn [fmap list_fmap sum_list_with todo_phase length]. rewrite IH. lia. }
  rewrite <- H0. clear - Hr. revert Hr. generalize (geo_init codes) as g. induction ops as [|op ops IH]; intros g Hr.
  { cbn. lia. }
  cbn [geo_run] in Hr. apply bind_Some in Hr as (g' & Hs & Hr). specialize (IH g' Hr).
  rewrite filter_cons. case_decide as Hg.
  - apply geo_step_todo in Hs; [| done]. cbn [length]. lia.
  - subst op. cbn [geo_step] in Hs. injection Hs as <-. exact IH.
Qed.
End promises.

(** ** A fetch of two countries *)

#[local] Existing Instance AsciiUnicode.
Definition sample_countries (b : bytes) : option (list string) := Some [" AU"; "nz"; "au "]%string.
Definition sample_zone (url : string) : geo_answer :=
  if String.eqb url "z/au-aggregated.zone" then Answer 200 (string_bytes "1.0.0.0/24" ++ [13; 10; 10] ++ string_bytes "1.128.0.7/11") false
  else if String.eqb url "z/nz-aggregated.zone" then Answer 200 (string_bytes "14.1.32.0/19" ++ [10]) false
  else NoAnswer.
Definition sample_codes : list string := ["au"; "nz"]%string.
(** The second country ends first. *)
Definition sample_ops : list geo_op := [GTake 0; GTake 1; GLook 1; GEnd 1 false; GLook 0; GEnd 0 false].
Definition sample_cidrs : list string := ["1.0.0.0/24"; "1.128.0.7/11"; "14.1.32.0/19"]%string.

Lemma fetch_whole_or_nothing_witness : exists f,
  geo_run sample_zone "z" sample_codes (geo_init sample_codes) sample_ops = Some f
  /\ exists nets, check_region [] (mkGeoRegion "oceania" sample_cidrs ["au"]%string) = Ok (mkGeoRegion "oceania" nets ["au"]%string).
Proof.
  destruct (geo_run sample_zone "z" sample_codes (geo_init sample_codes) sample_ops) as [f|] eqn:Er; [| vm_compute in Er; discriminate Er].
  exists f. split; [reflexivity |].
  destruct (fetch_whole_or_nothing sample_countries sample_zone "z" [] sample_codes sample_ops f sample_cidrs
    [("au", 2%nat); ("nz", 1%nat)]%string) as (_ & _ & _ & Hs).
  - vm_compute. reflexivity.
  - exact Er.
  - vm_compute in Er. injection Er as <-. reflexivity.
  - vm_compute in Er. injection Er as <-. vm_compute. reflexivity.
  - destruct (Hs [] "oceania"%string ["au"]%string (mkGeoRegion "oceania" [] ["au"]%string)) as (nets & _ & Hn & _); [vm_compute; reflexivity |].
    exists nets. exact Hn.
Defined.

(** A page that is not a list, a list cut off, and a country left out take the
    whole answer with them. *)
Example fetch_refusals :
  fetchCountry (fun _ => Answer 200 (string_bytes "<html>") false) "z" "au" = Err (GeoNotNetwork "au" "<html>")
  /\ fetchCountry (fun _ => Answer 200 (string_bytes "1.0.0.0/24") true) "z" "au" = Err (GeoRead "au")
  /\ fetchCountry (fun _ => Answer 200 [10; 32] false) "z" "au" = Err (GeoEmpty "au").
Proof. split_and!; vm_compute; reflexivity. Qed.
