(* ===== verification/Notify.v ===== *)
(** * Alerts ([internal/notify/notify.go])

    The notifier keeps, for each dedupe key, when it last let an alert through;
    delivery is one HTTP request made from the alert and the settings of that
    moment.  The alerts themselves are those of [internal/engine/engine.go].
    [encoding/json] of a flat object is a parameter, and so are the reading of a
    URL and what its host answers. *)

From S2P Require Import Prelude GoTime Decimal Bytes Text Model Prober Tracker Store Quota Select Engine Validate.

Inductive Priority := PriorityInfo | PriorityWarning | PriorityUrgent.
Definition priority_text (p : Priority) : string :=
  match p with PriorityInfo => "info" | PriorityWarning => "warning" | PriorityUrgent => "urgent" end.

Definition KindSwitch := "switch"%string.
Definition KindPathDown := "path_down"%string.
Definition KindQuota := "quota"%string.
Definition KindHeld := "held"%string.

(** The arguments of [Send]. *)
Record alert := mkAlert {
  al_kind : string; al_key : string; al_title : string; al_body : string; al_prio : Priority }.

Record Notifier := mkNotifier { nt_cfg : NotifyConfig; nt_last : gmap string Time }.
Definition NewNotifier : Notifier := mkNotifier (mkNotifyConfig false "" "" "" false false false false) ∅.
Definition NotifierSetConfig (cfg : NotifyConfig) (n : Notifier) : Notifier := mkNotifier cfg (nt_last n).

Definition enabledFor (cfg : NotifyConfig) (kind : string) : bool :=
  if String.eqb kind KindSwitch then notify_OnSwitch cfg
  else if String.eqb kind KindPathDown then notify_OnPathDown cfg
  else if String.eqb kind KindQuota then notify_OnQuota cfg
  else if String.eqb kind KindHeld then notify_OnHeld cfg
  else true.

Definition cooldown (p : Priority) : Duration :=
  match p with PriorityUrgent => 15 * Minute | _ => 5 * Minute end.

(** [Send]: the notifier, and the settings a delivery is started with. *)
Definition Send (now : Time) (a : alert) (n : Notifier) : option NotifyConfig * Notifier :=
  let cfg := nt_cfg n in
  if negb (notify_Enabled cfg) || negb (enabledFor cfg (al_kind a)) then (None, n)
  else if match nt_last n !! al_key a with
          | Some t => Sub now t <? cooldown (al_prio a)
          | None => false
          end then (None, n)
  else (Some cfg, mkNotifier cfg (<[al_key a := now]> (nt_last n))).

(** ** Delivery *)

Record request := mkRequest { rq_url : string; rq_headers : list (string * string); rq_body : bytes }.
Inductive send_error := NoURL | BadRequest | BadHeader (name : string) | NoReply | BadStatus (code : Z).

Definition nl : string := bytes_string [10].

(** What the client refuses to send in a header: a control character other than
    a tab ([httpguts.ValidHeaderFieldValue]). *)
Definition header_byte (c : Z) : bool := (c =? 9) || (c =? 32) || ((32 <=? c) && negb (c =? 127)).
Definition bad_header (h : string * string) : bool := negb (forallb header_byte (string_bytes h.2)).

Section delivery.
Context `{Unicode}.
Context (marshal : list (string * string) -> bytes) (url_reads : string -> bool).
(** One exchange: the status of the answer, if one comes.  A redirect is a
    status like any other. *)
Context (exchange : request -> option Z).

Definition bearer (cfg : NotifyConfig) : list (string * string) :=
  if String.eqb (notify_Token cfg) "" then [] else [("Authorization", "Bearer " ++ notify_Token cfg)%string].

Definition NewRequest (url : string) (headers : list (string * string)) (body : bytes) : result send_error request :=
  if url_reads url then Ok (mkRequest url headers body) else Err BadRequest.

Definition sendNtfy (cfg : NotifyConfig) (a : alert) : result send_error request :=
  NewRequest (notify_URL cfg)
    (("Title"%string, al_title a)
     :: match al_prio a with
        | PriorityUrgent => [("Priority", "urgent"); ("Tags", "rotating_light")]%string
        | PriorityWarning => [("Priority", "high"); ("Tags", "warning")]%string
        | PriorityInfo => [("Tags", "satellite")]%string
        end ++ bearer cfg)
    (string_bytes (al_body a)).

Definition sendTelegram (cfg : NotifyConfig) (a : alert) : result send_error request :=
  NewRequest (notify_URL cfg) [("Content-Type", "application/json")]%string
    (marshal [("chat_id", notify_Token cfg); ("text", al_title a ++ nl ++ al_body a)]%string).

Definition sendWebhook (cfg : NotifyConfig) (a : alert) : result send_error request :=
  NewRequest (notify_URL cfg) (("Content-Type", "application/json")%string :: bearer cfg)
    (marshal [("content", "**" ++ al_title a ++ "**" ++ nl ++ al_body a);
              ("text", "*" ++ al_title a ++ "*" ++ nl ++ al_body a);
              ("priority", priority_text (al_prio a))]%string).

(** [do]: the requests made, and what is told of them. *)
Definition do_request (rq : request) : list request * option send_error :=
  match List.find bad_header (rq_headers rq) with
  | Some h => ([], Some (BadHeader h.1))
  | None =>
      match exchange rq with
      | None => ([rq], Some NoReply)
      | Some code => ([rq], if 300 <=? code then Some (BadStatus code) else None)
      end
  end.

Definition deliver (cfg : NotifyConfig) (a : alert) : list request * option send_error :=
  if String.eqb (notify_URL cfg) "" then ([], Some NoURL)
  else
    let kind := ToLower (notify_Kind cfg) in
    match (if String.eqb kind "ntfy" then sendNtfy cfg a
           else if String.eqb kind "telegram" then sendTelegram cfg a
           else sendWebhook cfg a) with
    | Err e => ([], Some e)
    | Ok rq => do_request rq
    end.
End delivery.

(** ** The alerts of the engine *)

Definition down_alert (name : string) : alert :=
  mkAlert KindPathDown ("down:" ++ name) ("Path " ++ name ++ " is down")
    "End-to-end probes through this tunnel stopped reaching the backend." PriorityWarning.
Definition switch_alert (chosen : Z) (prevName name mode : string) : alert :=
  mkAlert KindSwitch ("switch:" ++ Itoa chosen) ("Path switched to " ++ name)
    ("Traffic moved from " ++ prevName ++ " to " ++ name ++ mode ++ ".") PriorityWarning.
Definition quota_alert (id : Z) (name reason : string) : alert :=
  mkAlert KindQuota ("quota:" ++ Itoa id) (name ++ " is over quota") reason PriorityWarning.
Definition onHeld (reason : string) : alert :=
  mkAlert KindHeld "held" "No usable path"
    (reason ++ nl ++ nl ++ "The last route is still installed. Open the portal to approve an over-quota path if you want to stay online.")
    PriorityUrgent.

(** What an outcome raises ([onResult]), a commit ([commitSwitch]), a pass that
    ends without a usable path ([evaluate]), and a verdict that turned
    ([refreshQuota]). *)
Definition result_alerts (now : Time) (r : Result) (e : Engine) : list alert :=
  match e_trackers e !! r_PathID r with
  | None => []
  | Some tr =>
      let '(tn, tr') := Observe r now tr in
      if tr_Changed tn then
        match tr_To tn with HealthDown => [down_alert (path_Name (tk_cfg tr'))] | _ => [] end
      else []
  end.
Definition commit_alerts (pd : pending) (e : Engine) : list alert :=
  let prevName := match PathByID (pd_cfg pd) (pd_prevActive pd) with Some p => path_Name p | None => "none"%string end in
  [switch_alert (pd_chosen pd) prevName (path_Name (path_or_zero (pd_cfg pd) (pd_chosen pd)))
     (if applying e then "" else " (observe mode, not applied)")].
Definition report_alerts (pd : pending) : list alert :=
  if pd_held pd && negb (pd_prevHeld pd) then [onHeld (pd_reason pd)] else [].
Definition quota_alerts (cfg : Config) (prev : gmap Z Decision) (reason : Decision -> string) (kv : Z * Decision) : list alert :=
  let '(id, d) := kv in
  let was := match prev !! id with Some d => dec_Blocked d | None => false end in
  if dec_Blocked d && negb was then [quota_alert id (path_Name (path_or_zero cfg id)) (reason d)] else [].

(** ** What gets through *)

Inductive notifier_op := NSet (cfg : NotifyConfig) | NSend (now : Time) (a : alert).
Definition delivery : Type := Time * alert * NotifyConfig.

Fixpoint notifier_run (n : Notifier) (ops : list notifier_op) : list delivery :=
  match ops with
  | [] => []
  | NSet cfg :: ops => notifier_run (NotifierSetConfig cfg n) ops
  | NSend now a :: ops =>
      match Send now a n with
      | (Some cfg, n) => (now, a, cfg) :: notifier_run n ops
      | (None, n) => notifier_run n ops
      end
  end.

(** The policy, over every delivery started so far, told apart from the code that
    keeps it: the kinds of the portal's four boxes, and how long a key is quiet
    in nanoseconds, a quarter of an hour before an urgent alert and five minutes
    before any other. A started delivery counts whether or not it arrives. *)
Definition asked_for (cfg : NotifyConfig) (kind : string) : bool :=
  notify_Enabled cfg
  && bool_decide ((kind = "switch" -> notify_OnSwitch cfg = true) /\ (kind = "path_down" -> notify_OnPathDown cfg = true)
       /\ (kind = "quota" -> notify_OnQuota cfg = true) /\ (kind = "held" -> notify_OnHeld cfg = true)).
Definition quiet_for (p : Priority) : Z :=
  match p with PriorityUrgent => 900000000000 | PriorityWarning | PriorityInfo => 300000000000 end.
Definition policy_allows (started : list delivery) (now : Time) (a : alert) : bool :=
  bool_decide (Forall (fun d => al_key d.1.2 = al_key a -> quiet_for (al_prio a) <= now - d.1.1) started).
Fixpoint policy_run (cfg : NotifyConfig) (started : list delivery) (ops : list notifier_op) : list delivery :=
  match ops with
  | [] => []
  | NSet cfg :: ops => policy_run cfg started ops
  | NSend now a :: ops =>
      if asked_for cfg (al_kind a) && policy_allows started now a
      then (now, a, cfg) :: policy_run cfg ((now, a, cfg) :: started) ops
      else policy_run cfg started ops
  end.

(** A clock that does not go back. *)
Fixpoint clock_from (t : Time) (ops : list notifier_op) : Prop :=
  match ops with
  | [] => True
  | NSet _ :: ops => clock_from t ops
  | NSend now _ :: ops => t <= now /\ clock_from now ops
  end.

(** The stamp of a key is the start of its last delivery. *)
Record remembers (t : Time) (sent : list delivery) (n : Notifier) : Prop := {
  rm_past : Forall (fun d => d.1.1 <= t) sent;
  rm_none : forall k, nt_last n !! k = None -> Forall (fun d => al_key d.1.2 <> k) sent;
  rm_last : forall k u, nt_last n !! k = Some u -> Exists (fun d => al_key d.1.2 = k /\ d.1.1 = u) sent
            /\ Forall (fun d => al_key d.1.2 = k -> d.1.1 <= u) sent }.

Lemma cooldown_quiet now t p : (Sub now t <? cooldown p) = bool_decide (now - t < quiet_for p).
Proof.
  unfold Sub, MaxInt64, MinInt64, cooldown, quiet_for, Minute, Second.
  destruct p; repeat split_if; symmetry; case_bool_decide; bool_to_prop; lia.
Qed.

Lemma asked_for_enabled cfg kind : asked_for cfg kind = notify_Enabled cfg && enabledFor cfg kind.
Proof.
  unfold asked_for, enabledFor. destruct (notify_Enabled cfg); [cbn [andb] | done].
  destruct (String.eqb_spec kind KindSwitch) as [->|Hs].
  { destruct (notify_OnSwitch cfg); [by rewrite bool_decide_eq_true_2 | apply bool_decide_eq_false_2; naive_solver]. }
  destruct (String.eqb_spec kind KindPathDown) as [->|Hd].
  { destruct (notify_OnPathDown cfg); [by rewrite bool_decide_eq_true_2 | apply bool_decide_eq_false_2; naive_solver]. }
  destruct (String.eqb_spec kind KindQuota) as [->|Hq].
  { destruct (notify_OnQuota cfg); [by rewrite bool_decide_eq_true_2 | apply bool_decide_eq_false_2; naive_solver]. }
  destruct (String.eqb_spec kind KindHeld) as [->|Hh].
  { destruct (notify_OnHeld cfg); [by rewrite bool_decide_eq_true_2 | apply bool_decide_eq_false_2; naive_solver]. }
  by rewrite bool_decide_eq_true_2.
Qed.

Lemma policy_allows_last t sent n now a : remembers t sent n ->
  policy_allows sent now a =
    match nt_last n !! al_key a with Some u => negb (Sub now u <? cooldown (al_prio a)) | None => true end.
Proof.
  intros Hr. unfold policy_allows. destruct (nt_last n !! al_key a) as [u|] eqn:Ek.
  - destruct (rm_last _ _ _ Hr _ _ Ek) as [Hx Ha]. rewrite cooldown_quiet. case_bool_decide as Hp; symmetry.
    + apply negb_true_iff, bool_decide_eq_false. apply Exists_exists in Hx as (d & Hd & Hk & <-).
      rewrite Forall_forall in Hp. specialize (Hp d Hd Hk). lia.
    + apply negb_false_iff, bool_decide_eq_true. apply Znot_ge_lt. intros Hge. apply Hp.
      apply Forall_forall. intros d Hd Hk. rewrite Forall_forall in Ha. specialize (Ha d Hd Hk). lia.
  - pose proof (rm_none _ _ _ Hr _ Ek) as Ha. apply bool_decide_eq_true. eapply Forall_impl; [exact Ha |]. done.
Qed.

Lemma remembers_later t u sent n : remembers t sent n -> t <= u -> remembers u sent n.
Proof. intros [Hp Hn Hl] Ht. constructor; [| done | done]. eapply Forall_impl; [exact Hp |]. cbn. intros. lia. Qed.

Lemma remembers_sent t sent n now a cfg : remembers t sent n -> t <= now ->
  remembers now ((now, a, cfg) :: sent) (mkNotifier cfg (<[al_key a := now]> (nt_last n))).
Proof.
  intros [Hp Hn Hl] Ht. constructor; cbn [nt_last].
  - constructor; [cbn; lia |]. eapply Forall_impl; [exact Hp |]. cbn. intros. lia.
  - intros k [Hk Hne]%lookup_insert_None. constructor; [done | by apply Hn].
  - intros k u [[<- <-] | [Hne Hk]]%lookup_insert_Some.
    + split; [by left |]. constructor; [cbn; lia |]. eapply Forall_impl; [exact Hp |]. cbn. intros. lia.
    + destruct (Hl _ _ Hk) as [Hx Ha]. split; [by right |]. constructor; [done | done].
Qed.

Lemma run_refines ops : forall t sent n, remembers t sent n -> clock_from t ops ->
  notifier_run n ops = policy_run (nt_cfg n) sent ops.
Proof.
  induction ops as [|[cfg|now a] ops IH]; intros t sent n Hr Hc; cbn [notifier_run policy_run clock_from] in *; [done | |].
  - change cfg with (nt_cfg (NotifierSetConfig cfg n)) at 2. apply (IH t); [| done]. destruct Hr. by constructor.
  - destruct Hc as [Ht Hc]. rewrite (policy_allows_last _ _ _ now a Hr), asked_for_enabled. unfold Send.
    destruct (notify_Enabled (nt_cfg n)), (enabledFor (nt_cfg n) (al_kind a)); cbn [negb orb andb];
      try (apply (IH now); [by eapply remembers_later | done]).
    destruct (nt_last n !! al_key a) as [u|] eqn:Ek; [destruct (Sub now u <? cooldown (al_prio a)) |]; cbn [negb].
    + apply (IH now); [by eapply remembers_later | done].
    + f_equal. apply (IH now (_ :: sent) (mkNotifier _ _)); [by eapply remembers_sent | done].
    + f_equal. apply (IH now (_ :: sent) (mkNotifier _ _)); [by eapply remembers_sent | done].
Qed.

(** Later deliveries under a key are its quiet time apart from all before. *)
Definition spaced (d d' : delivery) : Prop :=
  al_key d.1.2 = al_key d'.1.2 -> quiet_for (al_prio d'.1.2) <= d'.1.1 - d.1.1.
Lemma policy_spaced ops : forall cfg sent,
  ForallOrdPairs spaced (policy_run cfg sent ops)
  /\ Forall (fun d' => Forall (fun d => spaced d d') sent) (policy_run cfg sent ops).
Proof.
  induction ops as [|[c|now a] ops IH]; intros cfg sent; cbn [policy_run]; [by split; constructor | apply IH |].
  destruct (_ && _) eqn:E; [| apply IH]. apply andb_true_iff in E as [_ Hp%bool_decide_eq_true].
  destruct (IH cfg ((now, a, cfg) :: sent)) as [Ho Hf]. split; constructor; try done.
  - eapply Forall_impl; [exact Hf |]. intros d Hd. by apply Forall_cons in Hd as [? _].
  - eapply Forall_impl; [exact Hf |]. intros d Hd. by apply Forall_cons in Hd as [_ ?].
Qed.

Lemma NewNotifier_remembers t : remembers t [] NewNotifier.
Proof. constructor; [done | done |]. unfold NewNotifier. cbn [nt_last]. intros k u Hk. by rewrite lookup_empty in Hk. Qed.

(** [C32] The deliveries the notifier starts are the policy's: with one stamp for
    each key it starts exactly the alerts whose box the settings of the moment
    tick, and under whose key no delivery was started within a quarter of an
    hour for an urgent alert and five minutes for any other; two deliveries
    started under one key are never closer than that. A delivery that fails
    counts as one ([undelivered_silences]). *)
Theorem alerts_refine ops t : clock_from t ops ->
  notifier_run NewNotifier ops = policy_run (nt_cfg NewNotifier) [] ops
  /\ ForallOrdPairs spaced (notifier_run NewNotifier ops).
Proof.
  intros Hc. rewrite (run_refines ops t [] NewNotifier); [| apply NewNotifier_remembers | done].
  split; [done | apply policy_spaced].
Qed.

Definition sample_settings : NotifyConfig := mkNotifyConfig true "ntfy" "https://ntfy.example/ops" "" true true true true.
Definition flaps : list notifier_op :=
  [ NSet sample_settings; NSend 0 (down_alert "lte1"); NSend (Second) (down_alert "lte1"); NSend Minute (onHeld "no usable path");
    NSend (6 * Minute) (down_alert "lte1"); NSend (15 * Minute) (onHeld "no usable path"); NSend (17 * Minute) (onHeld "no usable path") ].
Lemma alerts_refine_witness :
  (fun d => (d.1.1 / Minute, al_key d.1.2)) <$> notifier_run NewNotifier flaps = [(0, "down:lte1"); (1, "held"); (6, "down:lte1"); (17, "held")]%string
  /\ ForallOrdPairs spaced (notifier_run NewNotifier flaps).
Proof. split; [vm_compute; reflexivity |]. apply (alerts_refine flaps 0). cbn. unfold Second, Minute. lia. Defined.

(** ** Which alerts share a key *)

Inductive engine_alert : alert -> Prop :=
| EDown name : engine_alert (down_alert name)
| EHeld reason : engine_alert (onHeld reason)
| ESwitch id prev name mode : engine_alert (switch_alert id prev name mode)
| EQuota id name reason : engine_alert (quota_alert id name reason).

Lemma append_inj (p a b : string) : (p ++ a = p ++ b)%string -> a = b.
Proof. induction p as [|c p IH]; cbn; [done |]. intros [= Hab]. by apply IH. Qed.

(** An alert silences only alerts of its kind, of the path with its name or id;
    so the cooldown of a key is one. *)
Theorem keys_apart a b : engine_alert a -> engine_alert b -> al_key a = al_key b ->
  al_kind a = al_kind b /\ al_prio a = al_prio b.
Proof. intros [] []; cbn; try done; intros Hk; by inversion Hk. Qed.
Lemma switch_keys id id' p n m p' n' m' : in_i64 id -> in_i64 id' ->
  al_key (switch_alert id p n m) = al_key (switch_alert id' p' n' m') -> id = id'.
Proof. intros Hi Hj Hk. apply (Itoa_inj id id'); [done | done |]. exact (append_inj "switch:" _ _ Hk). Qed.
Lemma quota_keys id id' n r n' r' : in_i64 id -> in_i64 id' ->
  al_key (quota_alert id n r) = al_key (quota_alert id' n' r') -> id = id'.
Proof. intros Hi Hj Hk. apply (Itoa_inj id id'); [done | done |]. exact (append_inj "quota:" _ _ Hk). Qed.

(** ** Where a delivery goes *)

Section where_to.
Context `{Unicode}.
Context (marshal : list (string * string) -> bytes) (url_reads : string -> bool) (exchange : request -> option Z).

(** One request at the most, to the address of the settings and no other, with
    nothing but a status under 300 for a success: a redirect is a failure and
    takes the token nowhere. *)
Theorem deliver_exact cfg a :
  let '(rqs, e) := deliver marshal url_reads exchange cfg a in
  (length rqs <= 1)%nat /\ Forall (fun rq => rq_url rq = notify_URL cfg) rqs
  /\ (e = None <-> exists rq code, rqs = [rq] /\ exchange rq = Some code /\ code < 300).
Proof.
  unfold deliver. destruct (String.eqb (notify_URL cfg) "").
  { split_and!; [cbn; lia | done |]. split; [done | naive_solver]. }
  assert (Hd : forall r : result send_error request, (forall rq, r = Ok rq -> rq_url rq = notify_URL cfg) ->
    let '(rqs, e) := match r with Err e => ([], Some e) | Ok rq => do_request exchange rq end in
    (length rqs <= 1)%nat /\ Forall (fun rq => rq_url rq = notify_URL cfg) rqs
    /\ (e = None <-> exists rq code, rqs = [rq] /\ exchange rq = Some code /\ code < 300)).
  { intros [rq|e] Hu; [| split_and!; [cbn; lia | done |]; split; [done | naive_solver]].
    specialize (Hu rq eq_refl). unfold do_request. destruct (List.find bad_header _) as [h|].
    { split_and!; [cbn; lia | done |]. split; [done | naive_solver]. }
    destruct (exchange rq) as [code|] eqn:Ex.
    - split_and!; [cbn; lia | by constructor |]. destruct (Z.leb_spec 300 code); split; try naive_solver.
      intros (? & ? & [= <-] & ? & ?). assert (x0 = code) by congruence. lia.
    - split_and!; [cbn; lia | by constructor |]. split; [done |]. intros (? & ? & [= <-] & ? & ?). congruence. }
  apply Hd. intros rq. unfold sendNtfy, sendTelegram, sendWebhook, NewRequest.
  repeat split_if; intros [= <-]; done.
Qed.
End where_to.

(** ** What this shows *)

Lemma evaluate_decide_held now e pd e' : evaluate_decide now e = (Some pd, e') ->
  pd_prevHeld pd = e_held e /\ e_held e' = pd_held pd.
Proof.
  unfold evaluate_decide. destruct (e_reverted e); [done |]. cbv zeta.
  destruct (refresh_blocks_frame now e) as [bs ->].
  destruct (selectPath_frame (with_blocks bs e) (e_cfg e) now) as [t Ht].
  destruct (selectPath _ _ _) as [[[id held] reason] e1]. cbn [snd] in Ht. subst e1. by intros [= <- <-].
Qed.

(** Passes one after another, with what they raise. *)
Fixpoint held_passes (ts : list Time) (e : Engine) : list (list alert) :=
  match ts with
  | [] => []
  | now :: ts =>
      match evaluate_decide now e with
      | (Some pd, e) => report_alerts pd :: held_passes ts e
      | (None, e) => [] :: held_passes ts e
      end
  end.
Fixpoint all_held (ts : list Time) (e : Engine) : Prop :=
  match ts with [] => True | now :: ts => e_held (evaluate_decide now e).2 = true /\ all_held ts (evaluate_decide now e).2 end.

(** The alert that no path is usable goes out when that state begins; however
    long it lasts no later pass raises it again. *)
Theorem held_not_repeated ts : forall e, e_held e = true -> all_held ts e -> Forall (fun l => l = []) (held_passes ts e).
Proof.
  induction ts as [|now ts IH]; intros e He Ha; cbn [held_passes]; [constructor |]. destruct Ha as [Hh Ha].
  destruct (evaluate_decide now e) as [[pd|] e'] eqn:Ed; cbn [snd] in *; constructor; try done; try by apply IH.
  destruct (evaluate_decide_held _ _ _ _ Ed) as [Hp _]. unfold report_alerts. rewrite Hp, He. by rewrite andb_false_r.
Qed.

(** And when the state ends and begins again within a quarter of an hour, nothing
    is sent, though an alert of less weight would be after five minutes. *)
Example held_again_silent :
  length (notifier_run NewNotifier [NSet sample_settings; NSend 0 (onHeld "x"); NSend (14 * Minute) (onHeld "x")]) = 1%nat
  /\ length (notifier_run NewNotifier [NSet sample_settings; NSend 0 (down_alert "x"); NSend (14 * Minute) (down_alert "x")]) = 2%nat.
Proof. split; vm_compute; reflexivity. Qed.

(** A stamp is set before the delivery is tried, so an alert whose delivery
    failed is silent for its cooldown as a delivered one is. *)
Example undelivered_silences :
  let n := NotifierSetConfig sample_settings NewNotifier in
  let n := (Send 0 (onHeld "x") n).2 in
  (@deliver AsciiUnicode (fun _ => []) (fun _ => true) (fun _ => None) sample_settings (onHeld "x")).2 = Some NoReply
  /\ (Send (14 * Minute) (onHeld "x") n).1 = None.
Proof. split; vm_compute; reflexivity. Qed.

(** Two paths may bear one name, and then share a key: the second to fail is not
    told.  A name may hold a line break, which ntfy's title cannot: no alert of
    that path is ever sent. *)
Definition with_name (name : string) (p : PathConfig) : PathConfig :=
  mkPathConfig (path_ID p) name (path_Iface p) (path_Priority p) (path_Table p) (path_Mark p) (path_Enabled p)
    (path_Metered p) (path_Quota p) (path_Shape p).
Definition with_names (names : list string) : Config :=
  mkConfig (cfg_Mode Defaults) (cfg_Frontend Defaults) (cfg_Overlay Defaults) (zip_with with_name names (cfg_Paths Defaults))
    (cfg_Probe Defaults) (cfg_Failover Defaults) (cfg_Services Defaults) (cfg_Linkers Defaults) (cfg_BackendLAN Defaults)
    (cfg_Egress Defaults) (cfg_Notify Defaults) (cfg_Protect Defaults) (cfg_QueryCache Defaults) (cfg_Blocklist Defaults).
Definition accepted_names (names : list string) : option (list string) :=
  match @validate AsciiUnicode (fun _ => Some ("https", "ntfy.example")%string) (fun _ => Some UTC) (with_names names) with
  | Ok c => Some (path_Name <$> cfg_Paths c)
  | Err _ => None
  end.

Theorem same_name_silenced :
  accepted_names ["main"; "lte"; "lte"]%string = Some ["main"; "lte"; "lte"]%string
  /\ length (notifier_run NewNotifier [NSet sample_settings; NSend 0 (down_alert "lte"); NSend (Minute) (down_alert "lte")]) = 1%nat.
Proof. split; vm_compute; reflexivity. Qed.

Definition broken_name : string := "lte" ++ nl ++ "1".
Theorem broken_name_untold exchange :
  accepted_names ["main"; broken_name]%string = Some ["main"; broken_name]%string
  /\ @deliver AsciiUnicode (fun _ => []) (fun _ => true) exchange sample_settings (down_alert broken_name) = ([], Some (BadHeader "Title")).
Proof. split; vm_compute; reflexivity. Qed.
