(* ===== verification/Journal.v ===== *)
(** * What reaches the journal ([internal/engine/control.go], [internal/agent/throttle.go])

    A peer decides how often a report about it is due, so every such report goes
    through a throttle: the first event of a window is told at once, what follows
    is counted and told when a ticker finds the window closed.  [Control] has
    the throttle of the frontend; here are the frontend's twelve, the table that
    pairs each with the line its ticker writes, and the backend's copy of the
    type. *)

From S2P Require Import Prelude GoTime Session Control.

(** ** The backend's copy *)

Definition agentThrottleWindow : Duration := 30 * Second.
Definition agent_take (now : Time) (t : throttle) : Z * throttle :=
  let seen := i64 (th_seen t + 1) in
  if Sub now (th_at t) <? agentThrottleWindow then (0, mkThrottle (th_at t) seen)
  else (seen, mkThrottle now 0).
Definition agent_flush (now : Time) (t : throttle) : Z * throttle :=
  if (th_seen t =? 0) || (Sub now (th_at t) <? agentThrottleWindow) then (0, t)
  else (th_seen t, mkThrottle now 0).

(** "If the rule moves in one, move it in the other." *)
Theorem agent_throttle_mirrors now t :
  agent_take now t = throttle_take now t /\ agent_flush now t = throttle_flush now t.
Proof. done. Qed.

(** ** The frontend's throttles *)

Inductive reason :=
| Rejected | Refused | Oversubbed | NotBackend | UnknownIP | WrongIP
| Clamped | BadPath | BadSeq | Oversized | BadFrame | Tampered.
#[export] Instance reason_eq : EqDecision reason. Proof. solve_decision. Defined.

Inductive level := LevelWarn | LevelError.

(** The fields of [ControlServer] that are throttles, by their reason. *)
Definition Throttles : Type := reason -> throttle.
Definition fresh_throttles : Throttles := fun _ => new_throttle.
Definition set_throttle (r : reason) (t : throttle) (s : Throttles) : Throttles :=
  fun r' => if decide (r' = r) then t else s r'.

Record throttleReport := mkThrottleReport {
  tr_reason : reason; tr_level : level; tr_msg : string; tr_countKey : string }.
Definition reports : list throttleReport :=
  [ mkThrottleReport Rejected LevelWarn "further control connections rejected before authentication" "attempts";
    mkThrottleReport Refused LevelWarn "further control connections refused; the concurrency limit was full" "refused";
    mkThrottleReport Oversubbed LevelWarn "further control connections refused; one address held its whole share" "refused";
    mkThrottleReport NotBackend LevelWarn "further control connections refused; a peer claimed the backend role from another address" "refused";
    mkThrottleReport UnknownIP LevelWarn "further linker connections refused; the address claimed is not configured" "refused";
    mkThrottleReport WrongIP LevelWarn "further linker connections refused; the address claimed is not the one connecting" "refused";
    mkThrottleReport Clamped LevelError "further usage deltas were outside the bounds a meter can produce and were clamped" "clamped";
    mkThrottleReport BadPath LevelError "further usage deltas named path ids that are neither configured nor in range" "dropped";
    mkThrottleReport BadSeq LevelError "further usage deltas carried sequences that would have ended a path's accounting" "dropped";
    mkThrottleReport Oversized LevelError "further usage batches were larger than one frame applies" "batches";
    mkThrottleReport BadFrame LevelWarn "further control frames over the size limit were dropped" "frames";
    mkThrottleReport Tampered LevelWarn "further post-handshake frames failed their authentication" "frames" ]%string.

(** A line of the journal, as far as the throttles decide it: when, for which
    reason, how many events it stands for. *)
Record journal_line := mkLine { ln_at : Time; ln_reason : reason; ln_count : Z }.

(** The sites that report: an event of a reason, told when [take] says so. *)
Definition reported (now : Time) (r : reason) (s : Throttles) : list journal_line * Throttles :=
  let '(n, t) := throttle_take now (s r) in
  (if 0 <? n then [mkLine now r n] else [], set_throttle r t s).
Definition warnRejected (now : Time) := reported now Rejected.
Definition warnBadFrame (now : Time) := reported now BadFrame.

(** [warnUnsendable] is not throttled: it tells of the one refusal of a write
    that does not heal. *)
Definition warnUnsendable (too_large : bool) : option level := if too_large then Some LevelError else None.

(** [flushThrottles], at each tick. *)
Fixpoint flush_reports (now : Time) (rs : list throttleReport) (s : Throttles) : list journal_line * Throttles :=
  match rs with
  | [] => ([], s)
  | r :: rs =>
      let '(n, t) := throttle_flush now (s (tr_reason r)) in
      let '(ls, s) := flush_reports now rs (set_throttle (tr_reason r) t s) in
      (if n =? 0 then ls else mkLine now (tr_reason r) n :: ls, s)
  end.
Definition flushThrottles (now : Time) (s : Throttles) : list journal_line * Throttles := flush_reports now reports s.

Inductive journal_op := JEvent (now : Time) (r : reason) | JTick (now : Time).
Fixpoint journal (ops : list journal_op) (s : Throttles) : list journal_line * Throttles :=
  match ops with
  | [] => ([], s)
  | op :: ops =>
      let '(l, s) := match op with JEvent now r => reported now r s | JTick now => flushThrottles now s end in
      let '(ls, s) := journal ops s in (l ++ ls, s)
  end.

(** ** Every reason has its trailing edge *)

Lemma reports_complete r : r ∈ (tr_reason <$> reports) /\ NoDup (tr_reason <$> reports).
Proof. split; [| by apply (bool_decide_unpack _); vm_compute]. destruct r; apply (bool_decide_unpack _); by vm_compute. Qed.

Lemma set_throttle_eq r t s : set_throttle r t s r = t.
Proof. unfold set_throttle. by rewrite decide_True. Qed.
Lemma set_throttle_ne r r' t s : r' <> r -> set_throttle r t s r' = s r'.
Proof. intros Hr. unfold set_throttle. by rewrite decide_False. Qed.

(** The lines of one reason. *)
Definition of_reason (r : reason) (ls : list journal_line) : list journal_line := filter (fun l => ln_reason l = r) ls.
Definition told_of (r : reason) (ls : list journal_line) : Z := fold_right (fun l n => ln_count l + n) 0 (of_reason r ls).

Lemma flush_reports_other now rs : forall s r, r ∉ (tr_reason <$> rs) ->
  of_reason r (flush_reports now rs s).1 = [] /\ (flush_reports now rs s).2 r = s r.
Proof.
  induction rs as [|x rs IH]; intros s r Hr; [done |]. cbn [flush_reports]. apply not_elem_of_cons in Hr as [Hx Hr].
  destruct (throttle_flush now (s (tr_reason x))) as [n t] eqn:Ef.
  destruct (IH (set_throttle (tr_reason x) t s) r Hr) as [H1 H2].
  destruct (flush_reports now rs _) as [ls s'] eqn:Er. cbn [fst snd] in *. rewrite set_throttle_ne in H2 by done.
  split; [| done]. destruct (n =? 0); [done |]. unfold of_reason in *. by rewrite filter_cons_False by (cbn; congruence).
Qed.

(** A tick does to the throttle of each reason what [flush] does, and writes its
    line when there is one. *)
Lemma flush_reports_one now rs : forall s r, NoDup (tr_reason <$> rs) -> r ∈ (tr_reason <$> rs) ->
  let '(n, t) := throttle_flush now (s r) in
  of_reason r (flush_reports now rs s).1 = (if n =? 0 then [] else [mkLine now r n]) /\ (flush_reports now rs s).2 r = t.
Proof.
  induction rs as [|x rs IH]; intros s r Hn Hr; cbn [fmap list_fmap] in *; [by apply not_elem_of_nil in Hr |].
  apply NoDup_cons in Hn as [Hx Hn]. cbn [flush_reports].
  destruct (throttle_flush now (s (tr_reason x))) as [nx tx] eqn:Ef.
  destruct (decide (r = tr_reason x)) as [->|Hne].
  - rewrite Ef. destruct (flush_reports_other now rs (set_throttle (tr_reason x) tx s) _ Hx) as [H1 H2].
    destruct (flush_reports now rs _) as [ls s']. cbn [fst snd] in *. rewrite set_throttle_eq in H2.
    split; [| done]. destruct (nx =? 0); [done |]. unfold of_reason in *. by rewrite filter_cons_True, H1.
  - apply elem_of_cons in Hr as [Hr|Hr]; [done |]. specialize (IH (set_throttle (tr_reason x) tx s) r Hn Hr).
    rewrite set_throttle_ne in IH by done. destruct (throttle_flush now (s r)) as [n t].
    destruct (flush_reports now rs _) as [ls s']. cbn [fst snd] in *. destruct IH as [H1 H2]. split; [| done].
    destruct (nx =? 0); [done |]. unfold of_reason in *. by rewrite filter_cons_False by (cbn; congruence).
Qed.

(** ** Nothing counted is forgotten *)

Definition event_of (r : reason) (op : journal_op) : bool :=
  match op with JEvent _ r' => bool_decide (r' = r) | JTick _ => false end.
Definition events (r : reason) (ops : list journal_op) : Z := Z.of_nat (length (filter (fun op => event_of r op = true) ops)).

Definition lines_apart (l l' : journal_line) : Prop := ln_at l + throttleWindow <= ln_at l'.

Lemma window_passed now t : throttleWindow <= Sub now t <-> t + throttleWindow <= now.
Proof. rewrite Sub_ge_small by (unfold throttleWindow, Second; go_lia). lia. Qed.

(** One operation, as one reason sees it: either its throttle does not speak and
    owes what it owed and the event, or it speaks of all of that, a window after
    it last did. *)
Lemma journal_op_one r op s : 0 <= th_seen (s r) < MaxInt64 ->
  let '(ls, s') := match op with JEvent now r => reported now r s | JTick now => flushThrottles now s end in
  let owed := th_seen (s r) + Z.b2z (event_of r op) in
  (of_reason r ls = [] /\ th_seen (s' r) = owed /\ th_at (s' r) = th_at (s r))
  \/ (exists now, of_reason r ls = [mkLine now r owed] /\ 0 < owed /\ s' r = mkThrottle now 0 /\ th_at (s r) + throttleWindow <= now).
Proof.
  intros Hs. destruct op as [now r'|now]; cbn [event_of].
  - unfold reported. destruct (throttle_take now (s r')) as [n t] eqn:Et. destruct (decide (r' = r)) as [->|Hne].
    + rewrite bool_decide_eq_true_2 by done. cbn [Z.b2z]. rewrite set_throttle_eq. unfold throttle_take in Et.
      rewrite i64_id in Et by go_lia. destruct (Z.ltb_spec (Sub now (th_at (s r))) throttleWindow) as [Hw|Hw]; injection Et as <- <-.
      * left. done.
      * right. exists now. destruct (Z.ltb_spec 0 (th_seen (s r) + 1)); [| lia]. unfold of_reason.
        rewrite filter_cons_True by done. split_and!; [done | lia | done | by apply window_passed].
    + rewrite bool_decide_eq_false_2 by done. cbn [Z.b2z]. left. rewrite set_throttle_ne by done.
      split_and!; [| lia | done]. destruct (0 <? n); [| done]. unfold of_reason. by rewrite filter_cons_False by (cbn; congruence).
  - pose proof (flush_reports_one now reports s r (proj2 (reports_complete r)) (proj1 (reports_complete r))) as Hf.
    unfold flushThrottles. destruct (throttle_flush now (s r)) as [n t] eqn:Et. destruct (flush_reports now reports s) as [ls s'].
    cbn [fst snd] in Hf. destruct Hf as [Hl ->]. cbn [Z.b2z]. rewrite Hl. unfold throttle_flush in Et.
    destruct (Z.eqb_spec (th_seen (s r)) 0) as [H0|H0]; cbn [orb] in Et; [injection Et as <- <-; left; split_and!; done || lia |].
    destruct (Z.ltb_spec (Sub now (th_at (s r))) throttleWindow) as [Hw|Hw]; injection Et as <- <-.
    + left. split_and!; [done | lia | done].
    + right. exists now. rewrite (proj2 (Z.eqb_neq _ _) H0), Z.add_0_r. split_and!; [done | lia | done | by apply window_passed].
Qed.

Lemma told_of_app r a b : told_of r (a ++ b) = told_of r a + told_of r b.
Proof. unfold told_of, of_reason. rewrite filter_app, foldr_app. induction (filter _ a) as [|x l IH]; cbn; lia. Qed.
Lemma events_cons r op ops : events r (op :: ops) = Z.b2z (event_of r op) + events r ops.
Proof. unfold events. rewrite filter_cons. destruct (event_of r op); cbn [Z.b2z]; case_decide; try done; cbn [length]; lia. Qed.

Lemma journal_run r ops : forall s, 0 <= th_seen (s r) -> th_seen (s r) + Z.of_nat (length ops) < MaxInt64 ->
  let '(ls, s') := journal ops s in
  told_of r ls + th_seen (s' r) = th_seen (s r) + events r ops /\ 0 <= th_seen (s' r)
  /\ Forall (fun l => 0 < ln_count l) (of_reason r ls) /\ ForallOrdPairs lines_apart (of_reason r ls)
  /\ Forall (fun l => th_at (s r) + throttleWindow <= ln_at l) (of_reason r ls).
Proof.
  induction ops as [|op ops IH]; intros s H0 Hm; cbn [journal].
  { unfold told_of, of_reason, events. cbn. split_and!; [lia | done | constructor | constructor | constructor]. }
  cbn [length] in Hm. pose proof (journal_op_one r op s ltac:(lia)) as Ho.
  destruct (match op with JEvent now r' => reported now r' s | JTick now => flushThrottles now s end) as [l s1].
  assert (Hb : 0 <= Z.b2z (event_of r op) <= 1) by (destruct (event_of r op); cbn; lia).
  destruct Ho as [(Hl & Hs & Ha) | (now & Hl & Hp & Hs & Hw)].
  - specialize (IH s1 ltac:(lia) ltac:(lia)). destruct (journal ops s1) as [ls s2].
    rewrite told_of_app, events_cons. unfold told_of at 1. unfold of_reason in *. rewrite filter_app, Hl. cbn [fold_right app].
    destruct IH as (I1 & I2 & I3 & I4 & I5). rewrite Ha in I5. split_and!; try done. lia.
  - specialize (IH s1). rewrite Hs in IH. cbn [th_seen th_at] in IH. specialize (IH ltac:(lia) ltac:(lia)).
    destruct (journal ops s1) as [ls s2]. rewrite told_of_app, events_cons. unfold told_of at 1. unfold of_reason in *.
    rewrite filter_app, Hl. cbn [fold_right app ln_count]. destruct IH as (I1 & I2 & I3 & I4 & I5).
    split_and!; [lia | done | by constructor | by constructor |]. constructor; [done |].
    eapply Forall_impl; [exact I5 |]. unfold throttleWindow, Second in *. cbn. intros. lia.
Qed.

(** For every reason, in any run of events and ticks: what the lines tell and
    what is still owed is every event; each line tells of something, and two are
    a window apart; and a tick that finds the window closed leaves nothing
    owed. *)
Theorem journal_whole r ops : Z.of_nat (length ops) < MaxInt64 ->
  let '(ls, s) := journal ops fresh_throttles in
  told_of r ls + th_seen (s r) = events r ops
  /\ Forall (fun l => 0 < ln_count l) (of_reason r ls) /\ ForallOrdPairs lines_apart (of_reason r ls)
  /\ forall now, th_at (s r) + throttleWindow <= now ->
       told_of r (flushThrottles now s).1 = th_seen (s r) /\ th_seen ((flushThrottles now s).2 r) = 0.
Proof.
  intros Hl. pose proof (journal_run r ops fresh_throttles ltac:(cbn; lia) ltac:(cbn; lia)) as Hr.
  destruct (journal ops fresh_throttles) as [ls s]. destruct Hr as (H1 & H0 & H2 & H3 & _). split_and!; try done.
  intros now Hw. apply window_passed in Hw.
  pose proof (flush_reports_one now reports s r (proj2 (reports_complete r)) (proj1 (reports_complete r))) as Hf.
  unfold flushThrottles. unfold throttle_flush in Hf. destruct (Z.eqb_spec (th_seen (s r)) 0) as [Hz|Hz]; cbn [orb] in Hf.
  - destruct Hf as [Hf1 Hf2]. unfold told_of. rewrite Hf1, Hf2, Hz. done.
  - destruct (Z.ltb_spec (Sub now (th_at (s r))) throttleWindow); [lia |]. destruct Hf as [Hf1 Hf2].
    unfold told_of. rewrite Hf1, Hf2. rewrite (proj2 (Z.eqb_neq _ _) Hz). cbn. lia.
Qed.

(** Five hundred refusals in five seconds are two lines, and another reason has
    its own. *)
Example flood : (fun l => (ln_at l / Second, ln_reason l, ln_count l)) <$>
  (journal (JEvent (100 * Second) Rejected :: replicate 499 (JEvent (105 * Second) Rejected)
            ++ [JEvent (106 * Second) Tampered; JTick (129 * Second); JTick (159 * Second)]) fresh_throttles).1
  = [(100, Rejected, 1); (106, Tampered, 1); (159, Rejected, 499)].
Proof. vm_compute. reflexivity. Qed.
