(* ===== verification/StateFile.v ===== *)
(** * Files that survive ([internal/agent/meter.go] and its neighbours)

    [Meter] takes it that a state file is replaced whole or left alone.  Here is
    why: [writeAtomic] as the calls it makes, over a file system that may lose
    power between any two of them and then brings back any directory since the
    last one it settled, with anything in a file not synced; and [decodeBuffer],
    which reads what it finds.  The same file system shows what the two writers
    that do not sync can leave ([cacheConfig], [saveBlocklistCache]).

    [encoding/json] of one delta is the class [DeltaCodec]. *)

From S2P Require Import Prelude Bytes Decimal Text Messages.

(** ** The file system

    A name leads to an inode, an inode to its bytes.  [fs_older] are the
    directories a power loss may bring back in place of [fs_dir]; [fs_synced]
    the inodes whose bytes it cannot touch. *)
Record fs := mkFs {
  fs_dir : gmap string nat; fs_older : list (gmap string nat); fs_data : gmap nat bytes;
  fs_synced : gset nat; fs_next : nat }.

Inductive fs_op :=
| FOpen (name : string)              (** [O_WRONLY|O_CREATE|O_TRUNC] *)
| FWrite (name : string) (b : bytes) (** on the file opened under that name *)
| FSync (name : string)
| FRename (old new : string)
| FRemove (name : string)
| FSettle.                           (** the kernel writes everything back *)

Definition change_dir (d : gmap string nat) (s : fs) : fs :=
  mkFs d (fs_dir s :: fs_older s) (fs_data s) (fs_synced s) (fs_next s).
Definition put_data (i : nat) (b : bytes) (s : fs) : fs :=
  mkFs (fs_dir s) (fs_older s) (<[i := b]> (fs_data s)) (fs_synced s ∖ {[i]}) (fs_next s).

Definition fs_step (op : fs_op) (s : fs) : fs :=
  match op with
  | FOpen name =>
      match fs_dir s !! name with
      | Some i => put_data i [] s
      | None =>
          let i := fs_next s in
          put_data i [] (mkFs (<[name := i]> (fs_dir s)) (fs_dir s :: fs_older s) (fs_data s) (fs_synced s) (S i))
      end
  | FWrite name b =>
      match fs_dir s !! name with
      | Some i => put_data i (default [] (fs_data s !! i) ++ b) s
      | None => s
      end
  | FSync name =>
      match fs_dir s !! name with
      | Some i => mkFs (fs_dir s) (fs_older s) (fs_data s) (fs_synced s ∪ {[i]}) (fs_next s)
      | None => s
      end
  | FRename old new =>
      match fs_dir s !! old with
      | Some i => change_dir (<[new := i]> (delete old (fs_dir s))) s
      | None => s
      end
  | FRemove name => change_dir (delete name (fs_dir s)) s
  | FSettle => mkFs (fs_dir s) [] (fs_data s) (dom (fs_data s)) (fs_next s)
  end.
Definition fs_run (ops : list fs_op) (s : fs) : fs := fold_left (fun s op => fs_step op s) ops s.

Definition read_in (d : gmap string nat) (s : fs) (name : string) : option bytes := d !! name ≫= fun i => fs_data s !! i.
(** [os.ReadFile]. *)
Definition read_file (name : string) (s : fs) : option bytes := read_in (fs_dir s) s name.

(** A power loss. *)
Record power_loss (s s' : fs) : Prop := {
  pl_dir : fs_dir s' ∈ fs_dir s :: fs_older s;
  pl_data : forall i, i ∈ fs_synced s -> fs_data s' !! i = fs_data s !! i }.

(** ** The writers *)

Definition tmp_of (path : string) : string := (path ++ ".tmp")%string.

(** How each call goes; [wo_short] is a write that stopped. *)
Record outcomes := mkOutcomes {
  wo_open : bool; wo_short : option nat; wo_sync : bool; wo_close : bool; wo_rename : bool; wo_remove : bool }.
Definition all_well : outcomes := mkOutcomes true None true true true true.
Definition wrote (o : outcomes) (data : bytes) : bytes := match wo_short o with Some k => take k data | None => data end.
Definition write_failed (o : outcomes) : bool := match wo_short o with Some _ => true | None => false end.

Definition writeAtomic (path : string) (data : bytes) (o : outcomes) : list fs_op :=
  let tmp := tmp_of path in
  if negb (wo_open o) then []
  else
    [FOpen tmp; FWrite tmp (wrote o data)] ++ (if wo_sync o then [FSync tmp] else [])
    ++ if write_failed o || negb (wo_sync o) || negb (wo_close o)
       then if wo_remove o then [FRemove tmp] else []
       else if wo_rename o then [FRename tmp path] else [].

(** It returned with the file replaced. *)
Definition replaced (o : outcomes) : bool :=
  wo_open o && negb (write_failed o) && wo_sync o && wo_close o && wo_rename o.

(** [os.WriteFile], and the two writers that rename what it wrote: the backend's
    [cacheConfig], and [saveBlocklistCache], which takes its file back when the
    rename fails. *)
Definition WriteFile (name : string) (data : bytes) (o : outcomes) : list fs_op :=
  if negb (wo_open o) then [] else [FOpen name; FWrite name (wrote o data)].
Definition WriteFile_ok (o : outcomes) : bool := wo_open o && negb (write_failed o) && wo_close o.
Definition cacheConfig_calls (path : string) (raw : bytes) (o : outcomes) : list fs_op :=
  WriteFile (tmp_of path) raw o ++
  if WriteFile_ok o then if wo_rename o then [FRename (tmp_of path) path] else [] else [].
Definition saveBlocklistCache_calls (path : string) (raw : bytes) (o : outcomes) : list fs_op :=
  WriteFile (tmp_of path) raw o ++
  if WriteFile_ok o then
    if wo_rename o then [FRename (tmp_of path) path] else if wo_remove o then [FRemove (tmp_of path)] else []
  else [].

(** ** What an agent does to its files *)

Inductive file_event := EWrite (path : string) (data : bytes) (o : outcomes) | ESettle.
Definition calls_of (e : file_event) : list fs_op :=
  match e with EWrite path data o => writeAtomic path data o | ESettle => [FSettle] end.
Definition calls (evs : list file_event) : list fs_op := concat (calls_of <$> evs).

(** What the writes that replaced [path] put there, in order. *)
Definition put_at (path : string) (e : file_event) : option bytes :=
  match e with
  | EWrite p data o => if String.eqb p path && replaced o then Some data else None
  | ESettle => None
  end.
Definition put_to (path : string) (evs : list file_event) : list bytes := omap (put_at path) evs.

(** ** Never torn *)

Section never_torn.
(** The files kept, none of them another's temporary one, and the contents each
    may be found with. *)
Context (P : string -> Prop) (Hsep : forall p q, P p -> P q -> p <> tmp_of q).
Context (G : string -> option bytes -> Prop).

Definition versions (s : fs) : list (gmap string nat) := fs_dir s :: fs_older s.
Record fs_inv (s : fs) : Prop := {
  iv_data : forall i, (i < fs_next s)%nat -> is_Some (fs_data s !! i);
  iv_fresh : forall d n i, d ∈ versions s -> d !! n = Some i -> (i < fs_next s)%nat;
  iv_inj : forall a b i, fs_dir s !! a = Some i -> fs_dir s !! b = Some i -> a = b;
  iv_tmp : forall q i d p, P q -> fs_dir s !! tmp_of q = Some i -> d ∈ versions s -> P p -> d !! p <> Some i;
  iv_good : forall d p, d ∈ versions s -> P p ->
    G p (read_in d s p) /\ (forall i, d !! p = Some i -> i ∈ fs_synced s) }.

(** No file kept leads to the inode, in any directory. *)
Definition unkept (i : nat) (s : fs) : Prop := forall d p, d ∈ versions s -> P p -> d !! p <> Some i.

Lemma put_inv i b s : fs_inv s -> unkept i s -> fs_inv (put_data i b s).
Proof.
  intros [Ha Hf Hi Ht Hg] Hu. constructor; [| done | done | done |].
  { intros j Hj. cbn [put_data fs_data]. destruct (decide (i = j)) as [->|]; [by rewrite lookup_insert_eq; eexists |].
    rewrite lookup_insert_ne by done. by apply Ha. }
  intros d p Hd Hp. destruct (Hg d p Hd Hp) as [Hr Hs].
  unfold read_in in *. cbn [put_data fs_data fs_synced]. destruct (d !! p) as [j|] eqn:Ej; cbn [mbind option_bind] in *.
  - assert (j <> i) by (intros ->; by eapply Hu). rewrite lookup_insert_ne by done. split; [done |].
    intros k [= <-]. specialize (Hs j eq_refl). set_solver.
  - split; [done |]. intros k. done.
Qed.

Lemma change_dir_inv d s : fs_inv s ->
  (forall n i, d !! n = Some i -> (i < fs_next s)%nat) ->
  (forall a b i, d !! a = Some i -> d !! b = Some i -> a = b) ->
  (forall q i, P q -> d !! tmp_of q = Some i -> unkept i s) ->
  (forall p, P p -> G p (read_in d s p) /\ forall i, d !! p = Some i -> i ∈ fs_synced s) ->
  fs_inv (change_dir d s).
Proof.
  intros [Ha Hf Hi Ht Hg] H1 H2 H3 H4. constructor; cbn [change_dir fs_dir fs_older fs_data fs_synced fs_next]; [done | | | |].
  - intros d' n i [-> | Hd]%elem_of_cons; [apply H1 | by apply Hf].
  - exact H2.
  - intros q i d' p Hq Hqi [-> | Hd]%elem_of_cons Hp; [| by apply (H3 q i Hq Hqi)].
    intros Hpi. by apply (Hsep p q Hp Hq), (H2 _ _ i).
  - intros d' p [-> | Hd]%elem_of_cons Hp; [by apply H4 | by apply Hg].
Qed.

(** A directory whose kept names lead where they led. *)
Lemma change_same d s : fs_inv s -> (forall p, P p -> d !! p = fs_dir s !! p) ->
  (forall n i, d !! n = Some i -> fs_dir s !! n = Some i) -> fs_inv (change_dir d s).
Proof.
  intros Hs Hp Hd. apply change_dir_inv; [done | | | |].
  - intros n i Hn. eapply (iv_fresh s Hs); [by left | by apply Hd].
  - intros a b i Ha Hb. apply (iv_inj s Hs a b i); by apply Hd.
  - intros q i Hq Hqi d' p Hd' Hpp. eapply (iv_tmp s Hs q); [done | by apply Hd | done | done].
  - intros p Hpp. destruct (iv_good s Hs (fs_dir s) p) as [H1 H2]; [by left | done |].
    unfold read_in in *. rewrite (Hp p Hpp). done.
Qed.

Lemma open_inv q s : P q -> fs_inv s -> fs_inv (fs_step (FOpen (tmp_of q)) s).
Proof.
  intros Hq Hs. cbn [fs_step]. destruct (fs_dir s !! tmp_of q) as [i|] eqn:Ei.
  { apply put_inv; [done |]. intros d p Hd Hp. by apply (iv_tmp s Hs q i). }
  set (i := fs_next s).
  set (s1 := mkFs (fs_dir s) (fs_older s) (<[i := []]> (fs_data s)) (fs_synced s ∖ {[i]}) (S i)).
  assert (Hnew : unkept i s).
  { intros d p Hd Hp Hc. pose proof (iv_fresh s Hs d p _ Hd Hc). lia. }
  assert (Hs1 : fs_inv s1).
  { pose proof (put_inv i [] s Hs Hnew) as [Ha Hf Hi Ht Hg]. constructor; try done.
    - intros j Hj. cbn [s1 fs_data fs_next] in *. destruct (decide (i = j)) as [->|Hne]; [by rewrite lookup_insert_eq; eexists |].
      apply (Ha j). cbn [put_data fs_next]. lia.
    - intros d n j Hd Hj. specialize (Hf d n j Hd Hj). cbn in *. lia. }
  change (fs_inv (change_dir (<[tmp_of q := i]> (fs_dir s)) s1)).
  apply change_dir_inv; [done | | | |]; cbn [s1 fs_next].
  - intros n j [[_ <-] | [_ Hn]]%lookup_insert_Some; [lia |]. pose proof (iv_fresh s Hs (fs_dir s) n j ltac:(by left) Hn). lia.
  - intros a b j [[<- <-] | [Ha1 Ha]]%lookup_insert_Some [[<- Hb] | [Hb1 Hb]]%lookup_insert_Some; try done.
    + pose proof (iv_fresh s Hs (fs_dir s) _ _ ltac:(by left) Hb). lia.
    + subst j. pose proof (iv_fresh s Hs (fs_dir s) _ _ ltac:(by left) Ha). lia.
    + by apply (iv_inj s Hs a b j).
  - intros q' j Hq' [[_ <-] | [_ Hj]]%lookup_insert_Some; [exact Hnew |]. intros d p Hd Hp. by apply (iv_tmp s Hs q' j).
  - intros p Hp. unfold read_in. rewrite lookup_insert_ne by (intros He; by apply (Hsep p q Hp Hq)).
    apply (iv_good s1 Hs1 (fs_dir s)); [by left | done].
Qed.

Lemma write_inv q b s : P q -> fs_inv s -> fs_inv (fs_step (FWrite (tmp_of q) b) s).
Proof.
  intros Hq Hs. cbn [fs_step]. destruct (fs_dir s !! tmp_of q) as [i|] eqn:Ei; [| done].
  apply put_inv; [done |]. intros d p Hd Hp. by apply (iv_tmp s Hs q i).
Qed.
Lemma sync_inv n s : fs_inv s -> fs_inv (fs_step (FSync n) s).
Proof.
  intros Hs. cbn [fs_step]. destruct (fs_dir s !! n) as [i|]; [| done]. destruct Hs as [Ha Hf Hi Ht Hg].
  constructor; try done. intros d p Hd Hp. destruct (Hg d p Hd Hp) as [Hr Hy]. split; [done |].
  intros j Hj. cbn [fs_synced]. specialize (Hy j Hj). set_solver.
Qed.
Lemma remove_inv q s : P q -> fs_inv s -> fs_inv (fs_step (FRemove (tmp_of q)) s).
Proof.
  intros Hq Hs. cbn [fs_step]. apply change_same; [done | |].
  - intros p Hp. rewrite lookup_delete_ne; [done |]. intros He. by apply (Hsep p q Hp Hq).
  - by intros n i [_ ?]%lookup_delete_Some.
Qed.

(** The rename is safe once the temporary file is whole and synced. *)
Lemma rename_inv q s : P q -> fs_inv s ->
  (forall i, fs_dir s !! tmp_of q = Some i -> i ∈ fs_synced s /\ G q (fs_data s !! i)) ->
  fs_inv (fs_step (FRename (tmp_of q) q) s).
Proof.
  intros Hq Hs Hw. cbn [fs_step]. destruct (fs_dir s !! tmp_of q) as [i|] eqn:Ei; [| done].
  destruct (Hw i eq_refl) as [Hy Hgi]. apply change_dir_inv; [done | | | |].
  - intros n j [[_ <-] | [_ [_ Hn]%lookup_delete_Some]]%lookup_insert_Some; eapply (iv_fresh s Hs (fs_dir s)); try done; by left.
  - assert (Hno : forall b, delete (tmp_of q) (fs_dir s) !! b = Some i -> False).
    { intros b [Hb1 Hb2]%lookup_delete_Some. by apply Hb1, (iv_inj s Hs _ _ i). }
    intros a b j [[<- <-] | [Ha1 Ha]]%lookup_insert_Some [[<- Hb] | [Hb1 Hb]]%lookup_insert_Some; try done.
    + by apply Hno in Hb.
    + subst j. by apply Hno in Ha.
    + apply lookup_delete_Some in Ha as [_ Ha], Hb as [_ Hb]. by apply (iv_inj s Hs a b j).
  - intros q' j Hq' [[He _] | [_ [_ Hj]%lookup_delete_Some]]%lookup_insert_Some; [by apply (Hsep q q' Hq Hq') in He |].
    intros d p Hd Hp. by apply (iv_tmp s Hs q' j).
  - intros p Hp. unfold read_in. destruct (decide (p = q)) as [->|Hne].
    + rewrite lookup_insert_eq. cbn [mbind option_bind]. split; [done |]. by intros j [= <-].
    + rewrite lookup_insert_ne, lookup_delete_ne by (try done; intros He; by apply (Hsep p q Hp Hq)).
      apply (iv_good s Hs); [by left | done].
Qed.
Lemma settle_inv s : fs_inv s -> fs_inv (fs_step FSettle s).
Proof.
  intros [Ha Hf Hi Ht Hg]. constructor; cbn [fs_step fs_dir fs_older fs_data fs_synced fs_next]; [done | | done | |].
  - intros d n i [-> | Hd]%elem_of_cons Hn; [eapply Hf; [by left | done] | by apply not_elem_of_nil in Hd].
  - intros q i d p Hq Hqi [-> | Hd]%elem_of_cons Hp; [apply (Ht q); [done | done | by left | done] | by apply not_elem_of_nil in Hd].
  - intros d p [-> | Hd]%elem_of_cons Hp; [| by apply not_elem_of_nil in Hd].
    destruct (Hg (fs_dir s) p) as [Hr Hy]; [by left | done |]. split; [done |]. intros i Hpi.
    apply elem_of_dom, Ha. by eapply Hf; [left |].
Qed.

(** What [FOpen], a whole [FWrite] and [FSync] make of a temporary file. *)
Lemma staged q b s : fs_inv s -> let s := fs_step (FSync (tmp_of q)) (fs_step (FWrite (tmp_of q) b) (fs_step (FOpen (tmp_of q)) s)) in
  exists i, fs_dir s !! tmp_of q = Some i /\ i ∈ fs_synced s /\ fs_data s !! i = Some b.
Proof.
  intros Hs. cbn [fs_step]. destruct (fs_dir s !! tmp_of q) as [i|] eqn:Ei; cbn [put_data fs_dir].
  - rewrite Ei. cbn [put_data fs_dir]. rewrite Ei. cbn [fs_dir fs_data fs_synced]. exists i.
    cbn [put_data fs_data fs_synced]. rewrite !lookup_insert_eq. cbn [default id app]. split_and!; [done | set_solver | done].
  - rewrite !lookup_insert_eq. cbn [put_data fs_dir fs_data fs_synced]. rewrite !lookup_insert_eq. cbn [fs_dir fs_data fs_synced].
    exists (fs_next s). cbn [put_data fs_data fs_synced]. rewrite !lookup_insert_eq. cbn [default id app]. split_and!; [done | set_solver | done].
Qed.

(** Any part of a call leaves the files safe, when what it would put there is
    allowed. *)
Lemma writeAtomic_inv q data o n s : P q -> (replaced o = true -> G q (Some data)) -> fs_inv s ->
  fs_inv (fs_run (take n (writeAtomic q data o)) s).
Proof.
  intros Hq Hg Hs. unfold writeAtomic. destruct (wo_open o) eqn:Eo; cbn [negb]; [| by rewrite take_nil].
  assert (H1 := open_inv q s Hq Hs). assert (H2 := write_inv q (wrote o data) _ Hq H1). assert (H3 := sync_inv (tmp_of q) _ H2).
  destruct n as [|[|n]]; [done | done |]. cbn [app take fs_run fold_left].
  destruct n as [|n]; [done |].
  destruct (wo_sync o) eqn:Ey; cbn [app negb orb].
  - cbn [take fold_left]. destruct n as [|n]; [done |].
    destruct (write_failed o || false || negb (wo_close o)) eqn:Ef.
    + destruct (wo_remove o); [| by rewrite take_nil]. cbn [take fold_left]. rewrite take_nil. by apply remove_inv.
    + destruct (wo_rename o) eqn:Er; [| by rewrite take_nil]. cbn [take fold_left]. rewrite take_nil.
      rewrite orb_false_r in Ef. apply orb_false_iff in Ef as [Ew Ec]. apply negb_false_iff in Ec.
      apply rename_inv; [done | done |]. intros i Hi.
      assert (Hwr : wrote o data = data). { unfold wrote, write_failed in *. by destruct (wo_short o). }
      destruct (staged q (wrote o data) s Hs) as (j & Hj & Hy & Hd). cbn zeta in Hj, Hy, Hd.
      rewrite Hj in Hi. injection Hi as <-. split; [done |]. rewrite Hd, Hwr. apply Hg.
      unfold replaced. by rewrite Eo, Ew, Ey, Ec, Er.
  - rewrite orb_true_r. cbn [orb]. destruct (wo_remove o); [| by rewrite take_nil]. cbn [take fold_left].
    rewrite take_nil. by apply remove_inv.
Qed.

Definition event_ok (e : file_event) : Prop :=
  match e with EWrite q data o => P q /\ (replaced o = true -> G q (Some data)) | ESettle => True end.
Lemma fs_run_app a b s : fs_run (a ++ b) s = fs_run b (fs_run a s).
Proof. apply fold_left_app. Qed.
Lemma calls_inv evs : forall n s, Forall event_ok evs -> fs_inv s -> fs_inv (fs_run (take n (calls evs)) s).
Proof.
  induction evs as [|e evs IH]; intros n s He Hs; [by destruct n |]. apply Forall_cons in He as [He Hes].
  unfold calls. cbn [fmap list_fmap concat]. rewrite take_app, fs_run_app. apply IH; [done |].
  destruct e as [q data o|]; cbn [calls_of]; [destruct He; by apply writeAtomic_inv |].
  destruct n as [|n]; [done |]. replace (take (S n) [FSettle]) with [FSettle] by (by destruct n). by apply settle_inv.
Qed.

(** What a file kept reads as, call by call. *)
Lemma file_put i b p s : unkept i s -> P p -> read_file p (put_data i b s) = read_file p s.
Proof.
  intros Hu Hp. unfold read_file, read_in. cbn [put_data fs_dir fs_data].
  destruct (fs_dir s !! p) as [j|] eqn:Ej; [| done]. cbn [mbind option_bind]. apply lookup_insert_ne.
  intros ->. apply (Hu (fs_dir s) p); [by left | done | done].
Qed.
Lemma file_open q p s : P q -> P p -> fs_inv s -> read_file p (fs_step (FOpen (tmp_of q)) s) = read_file p s.
Proof.
  intros Hq Hp Hs. cbn [fs_step]. destruct (fs_dir s !! tmp_of q) as [i|] eqn:Ei.
  { apply file_put; [| done]. intros d r Hd Hr. by apply (iv_tmp s Hs q i). }
  unfold read_file, read_in. cbn [put_data fs_dir fs_data].
  rewrite lookup_insert_ne by (intros He; by apply (Hsep p q Hp Hq)).
  destruct (fs_dir s !! p) as [j|] eqn:Ej; [| done]. cbn [mbind option_bind]. apply lookup_insert_ne.
  pose proof (iv_fresh s Hs (fs_dir s) p j ltac:(by left) Ej). lia.
Qed.
Lemma file_write q b p s : P q -> P p -> fs_inv s -> read_file p (fs_step (FWrite (tmp_of q) b) s) = read_file p s.
Proof.
  intros Hq Hp Hs. cbn [fs_step]. destruct (fs_dir s !! tmp_of q) as [i|] eqn:Ei; [| done].
  apply file_put; [| done]. intros d r Hd Hr. by apply (iv_tmp s Hs q i).
Qed.
Lemma file_sync n p s : read_file p (fs_step (FSync n) s) = read_file p s.
Proof. cbn [fs_step]. by destruct (fs_dir s !! n). Qed.
Lemma file_remove q p s : P q -> P p -> read_file p (fs_step (FRemove (tmp_of q)) s) = read_file p s.
Proof.
  intros Hq Hp. unfold read_file, read_in. cbn [fs_step change_dir fs_dir fs_data].
  rewrite lookup_delete_ne; [done |]. intros He. by apply (Hsep p q Hp Hq).
Qed.
Lemma file_rename q p i s : P q -> P p -> fs_dir s !! tmp_of q = Some i ->
  read_file p (fs_step (FRename (tmp_of q) q) s) = if decide (p = q) then fs_data s !! i else read_file p s.
Proof.
  intros Hq Hp Hi. unfold read_file, read_in. cbn [fs_step]. rewrite Hi. cbn [change_dir fs_dir fs_data].
  destruct (decide (p = q)) as [->|Hne]; [by rewrite lookup_insert_eq |].
  rewrite lookup_insert_ne, lookup_delete_ne by (try done; intros He; by apply (Hsep p q Hp Hq)). done.
Qed.

Lemma writeAtomic_reads q data o p s : P q -> P p -> fs_inv s ->
  read_file p (fs_run (writeAtomic q data o) s) = if String.eqb q p && replaced o then Some data else read_file p s.
Proof.
  intros Hq Hp Hs. unfold writeAtomic, replaced. destruct (wo_open o); cbn [negb andb]; [| by rewrite andb_false_r].
  assert (H1 := open_inv q s Hq Hs). assert (H2 := write_inv q (wrote o data) _ Hq H1).
  assert (Hr2 : read_file p (fs_step (FWrite (tmp_of q) (wrote o data)) (fs_step (FOpen (tmp_of q)) s)) = read_file p s)
    by (rewrite file_write, file_open by done; done).
  pose proof (staged q (wrote o data) s Hs) as (i & Hi & _ & Hd). cbn zeta in Hi, Hd.
  cbn [app fs_run fold_left].
  set (s2 := fs_step (FWrite _ _) _) in *.
  destruct (wo_sync o); cbn [app fold_left negb]; rewrite ?orb_true_r, ?orb_false_r, ?andb_true_r, ?andb_false_r; cbn [orb].
  2: { destruct (wo_remove o); cbn [fold_left]; rewrite ?file_remove by done; rewrite ?andb_false_r; done. }
  set (s3 := fs_step (FSync _) s2) in *.
  assert (Hr3 : read_file p s3 = read_file p s) by (unfold s3; by rewrite file_sync).
  destruct (write_failed o) eqn:Ew; cbn [orb negb andb].
  { rewrite andb_false_r. destruct (wo_remove o); cbn [fold_left]; [by rewrite file_remove |]; done. }
  destruct (wo_close o); cbn [negb andb].
  2: { rewrite andb_false_r. destruct (wo_remove o); cbn [fold_left]; [by rewrite file_remove |]; done. }
  destruct (wo_rename o); cbn [fold_left]; [| by rewrite andb_false_r].
  rewrite (file_rename q p i) by done. rewrite andb_true_r.
  destruct (decide (p = q)) as [->|Hne].
  - rewrite String.eqb_refl, Hd. unfold wrote, write_failed in *. by destruct (wo_short o).
  - destruct (String.eqb_spec q p); [congruence | done].
Qed.

Lemma calls_read evs p : forall s, Forall event_ok evs -> P p -> fs_inv s ->
  read_file p (fs_run (calls evs) s) = from_option Some (read_file p s) (last (put_to p evs)).
Proof.
  induction evs as [|e evs IH]; intros s He Hp Hs; [done |]. apply Forall_cons in He as [He Hes].
  unfold calls. cbn [fmap list_fmap concat]. rewrite fs_run_app.
  assert (Hi : fs_inv (fs_run (calls_of e) s)).
  { pose proof (calls_inv [e] (length (calls [e])) s) as Hc. rewrite firstn_all in Hc. unfold calls in Hc. cbn in Hc.
    rewrite app_nil_r in Hc. apply Hc; [by constructor | done]. }
  fold (calls evs). rewrite IH by done. unfold put_to. cbn [omap list_omap].
  destruct e as [q data o|]; cbn [put_at calls_of] in *; [| done].
  rewrite writeAtomic_reads by (done || apply He). fold (put_to p evs).
  destruct (String.eqb q p && replaced o); [| done]. destruct (put_to p evs) as [|d ds]; [done |].
  change (last (data :: d :: ds)) with (last (d :: ds)). destruct (last (d :: ds)) eqn:El; [done |]. by apply last_None in El.
Qed.
End never_torn.

(** A file system just started: what it holds is on the disk. *)
Record booted (s : fs) : Prop := {
  bt_older : fs_older s = [];
  bt_synced : fs_synced s = dom (fs_data s);
  bt_data : forall i, (i < fs_next s)%nat -> is_Some (fs_data s !! i);
  bt_fresh : forall n i, fs_dir s !! n = Some i -> (i < fs_next s)%nat;
  bt_inj : forall a b i, fs_dir s !! a = Some i -> fs_dir s !! b = Some i -> a = b }.

Section files.
Context (P : string -> Prop) (Hsep : forall p q, P p -> P q -> p <> tmp_of q).
Definition kept_event (e : file_event) : Prop := match e with EWrite q _ _ => P q | ESettle => True end.

Lemma booted_inv (G : string -> option bytes -> Prop) s :
  booted s -> (forall p, P p -> G p (read_file p s)) -> fs_inv P G s.
Proof.
  intros [Ho Hy Ha Hf Hi] Hg. constructor; [done | | done | |]; unfold versions; rewrite Ho.
  - intros d n i [-> | Hd]%elem_of_cons; [apply Hf | by apply not_elem_of_nil in Hd].
  - intros q i d p Hq Hqi [-> | Hd]%elem_of_cons Hp; [| by apply not_elem_of_nil in Hd].
    intros Hpi. by apply (Hsep p q Hp Hq), (Hi _ _ i).
  - intros d p [-> | Hd]%elem_of_cons Hp; [| by apply not_elem_of_nil in Hd]. split; [by apply Hg |].
    intros i Hpi. rewrite Hy. apply elem_of_dom, Ha. by eapply Hf.
Qed.
Lemma settled_booted G s : fs_inv P G s -> booted (fs_step FSettle s).
Proof.
  intros [Ha Hf Hi Ht Hg]. constructor; try done. intros n i Hn. eapply Hf; [by left | done].
Qed.
Lemma lost_inv (G : string -> option bytes -> Prop) s s' p : fs_inv P G s -> P p -> power_loss s s' -> G p (read_file p s').
Proof.
  intros Hs Hp [Hd Hy]. destruct (iv_good _ _ s Hs _ p Hd Hp) as [Hr Hk]. unfold read_file, read_in in *.
  destruct (fs_dir s' !! p) as [i|] eqn:Ei; [| done]. cbn [mbind option_bind] in *. rewrite Hy; [done |]. by apply Hk.
Qed.

Definition found (p : string) (was : option bytes) (evs : list file_event) (o : option bytes) : Prop :=
  o = was \/ exists data, data ∈ put_to p evs /\ o = Some data.

Lemma put_to_elem p q data o evs : EWrite q data o ∈ evs -> String.eqb q p && replaced o = true -> data ∈ put_to p evs.
Proof. intros He Hr. apply list_elem_of_omap. exists (EWrite q data o). split; [done |]. cbn [put_at]. by rewrite Hr. Qed.

Lemma never_torn evs n s s' p : Forall kept_event evs -> booted s -> P p ->
  power_loss (fs_run (take n (calls evs)) s) s' -> found p (read_file p s) evs (read_file p s').
Proof.
  intros He Hb Hp Hl. eapply (lost_inv (fun p => found p (read_file p s) evs)); [| exact Hp | exact Hl].
  apply calls_inv; [done | | by apply booted_inv; [| by left]].
  rewrite Forall_forall in *. intros [q data o|] Hin; [| done]. split; [exact (He _ Hin) |].
  intros Hr. right. exists data. split; [| done]. eapply put_to_elem; [done |]. by rewrite String.eqb_refl.
Qed.

(** A power loss never tears a state file.  Whatever the files are written
    with, however the calls go, and between whichever two of them the power
    goes, each file is found as one of the writes that replaced it left it, or
    as it was at the start; once the kernel has written back, it is found no
    older than that; and while the power stays on it reads as the last write
    that replaced it. *)
Theorem writeAtomic_never_torn before after n s s' p :
  Forall kept_event before -> Forall kept_event after -> booted s -> P p ->
  let was := from_option Some (read_file p s) (last (put_to p before)) in
  read_file p (fs_run (calls before) s) = was
  /\ (power_loss (fs_run (take n (calls before)) s) s' -> found p (read_file p s) before (read_file p s'))
  /\ (power_loss (fs_run (take n (calls after)) (fs_step FSettle (fs_run (calls before) s))) s' ->
        found p was after (read_file p s')).
Proof.
  intros Hb Ha Hs Hp was.
  assert (Hi : fs_inv P (fun _ _ => True) s) by (by apply booted_inv).
  assert (Hev : Forall (event_ok P (fun _ _ => True)) before).
  { eapply Forall_impl; [exact Hb |]. by intros [q data o|]. }
  assert (Hr : read_file p (fs_run (calls before) s) = was) by (eapply calls_read; done).
  split_and!; [exact Hr | by apply never_torn |]. intros Hl.
  apply (never_torn after n _ s' p) in Hl; [| done | | done].
  - by rewrite <- Hr.
  - eapply (settled_booted (fun _ _ => True)). pose proof (calls_inv P Hsep (fun _ _ => True) before (length (calls before)) s Hev Hi) as Hc.
    by rewrite firstn_all in Hc.
Qed.
End files.

(** ** What a start reads back *)

(** The fields of a delta, as the struct holds them. *)
Definition delta_ok (d : UsageDelta) : Prop :=
  in_i64 (ud_PathID d) /\ in_i64 (ud_Bytes d) /\ in_i64 (ud_Packets d) /\ in_i64 (ud_AtUnix d) /\ in_u64 (ud_Sequence d).

(** [encoding/json] of a delta: what [Encode] writes before its newline,
    [Decode] of the next value of a stream, and [Unmarshal] into a slice with
    whether it failed, which looks at the whole text before it fills
    anything. *)
Class DeltaCodec := {
  enc_delta : UsageDelta -> bytes;
  dec_delta : bytes -> option (UsageDelta * bytes);
  json_valid : bytes -> bool;
  dec_deltas : bytes -> list UsageDelta * bool;
  delta_plain d : delta_ok d -> Forall (fun c => plain_byte c = true) (enc_delta d);
  delta_object d : delta_ok d -> exists mid, enc_delta d = 123 :: mid ++ [125];
  delta_decodes d b : delta_ok d -> dec_delta (enc_delta d ++ b) = Some (d, b);
  delta_cut d b rest : delta_ok d -> enc_delta d = b ++ rest -> rest <> [] -> dec_delta b = None;
  delta_shorter b d rest : dec_delta b = Some (d, rest) -> (length rest < length b)%nat;
  deltas_checked b : json_valid b = false -> dec_deltas b = ([], true) }.

(** [dec.More] looks past white space, and stops at a closing bracket. *)
Definition json_space (c : Z) : bool := (c =? 32) || (c =? 9) || (c =? 10) || (c =? 13).
Fixpoint skip_space (b : bytes) : bytes :=
  match b with c :: b' => if json_space c then skip_space b' else b | [] => [] end.
Definition More (b : bytes) : bool :=
  match skip_space b with [] => false | c :: _ => negb (c =? 93) && negb (c =? 125) end.

Section buffer.
Context `{DeltaCodec}.

Fixpoint decode_stream (fuel : nat) (b : bytes) : list UsageDelta * bool :=
  match fuel with
  | O => ([], false)
  | S fuel =>
      if More b then
        match dec_delta (skip_space b) with
        | None => ([], true)
        | Some (d, b) => let '(ds, err) := decode_stream fuel b in (d :: ds, err)
        end
      else ([], false)
  end.

(** The deltas, and whether there was an error. *)
Definition decodeBuffer (raw : bytes) : list UsageDelta * bool :=
  match trim_bytes raw with
  | [] => ([], false)
  | 91 :: _ => dec_deltas (trim_bytes raw)
  | _ => decode_stream (S (length (trim_bytes raw))) (trim_bytes raw)
  end.

(** What [persist] writes, and what [load] keeps of it. *)
Definition buffer_bytes (ds : list UsageDelta) : bytes := concat ((fun d => enc_delta d ++ [10]) <$> ds).
Definition load_pending (raw : option bytes) : list UsageDelta :=
  match raw with Some raw => (decodeBuffer raw).1 | None => [] end.

Lemma skip_space_le b : (length (skip_space b) <= length b)%nat.
Proof. induction b as [|c b IH]; cbn; [lia |]. destruct (json_space c); cbn; lia. Qed.

(** One more than the bytes there are is enough fuel. *)
Lemma decode_stream_fuel n : forall m b, (length b < n)%nat -> (length b < m)%nat -> decode_stream n b = decode_stream m b.
Proof.
  induction n as [|n IH]; intros [|m] b Hn Hm; try lia. cbn [decode_stream]. destruct (More b); [| done].
  destruct (dec_delta (skip_space b)) as [[d rest]|] eqn:Ed; [| done]. apply delta_shorter in Ed.
  pose proof (skip_space_le b). by rewrite (IH m rest) by lia.
Qed.

Lemma plain_not_space c : plain_byte c = true -> json_space c = false.
Proof. unfold plain_byte, json_space. intros Hp. bool_to_prop. rewrite !orb_false_iff, !Z.eqb_neq. lia. Qed.

Lemma object_ahead d b : delta_ok d -> skip_space (enc_delta d ++ b) = enc_delta d ++ b /\ More (enc_delta d ++ b) = true.
Proof. intros Hd. destruct (delta_object d Hd) as [mid Hm]. unfold More. rewrite Hm. done. Qed.

Lemma decode_stream_newline n b : decode_stream n (10 :: b) = decode_stream n b.
Proof. destruct n; [done |]. cbn [decode_stream]. unfold More. done. Qed.

Lemma decode_stream_lines ds b : Forall delta_ok ds -> forall n, (length (buffer_bytes ds ++ b) < n)%nat ->
  decode_stream n (buffer_bytes ds ++ b) = (ds ++ (decode_stream n b).1, (decode_stream n b).2).
Proof.
  unfold buffer_bytes. induction 1 as [|d ds Hd _ IH]; intros n Hn; cbn [fmap list_fmap concat app] in *; [by destruct (decode_stream n b) |].
  destruct n as [|n]; [lia |]. rewrite <- !app_assoc in *. cbn [app] in *.
  rewrite length_app in Hn. cbn [length] in Hn.
  rewrite (decode_stream_fuel (S n) n b) by (rewrite length_app in Hn; lia). cbn [decode_stream].
  destruct (object_ahead d (10 :: concat ((fun d => enc_delta d ++ [10]) <$> ds) ++ b) Hd) as [-> ->].
  rewrite delta_decodes by done. rewrite decode_stream_newline. by rewrite IH by lia.
Qed.
End buffer.

Lemma plain_head x b : plain_byte x = true -> space_front (x :: b) = 0%nat.
Proof.
  unfold plain_byte. intros Hx. bool_to_prop. cbn.
  assert (E : forall k, (128 <=? k) = true \/ k = 32 \/ (9 <=? k) && (k <=? 13) = true -> (x =? k) = false).
  { intros k Hk. apply Z.eqb_neq. intros <-. destruct Hk as [Hk|[Hk|Hk]]; bool_to_prop; lia. }
  rewrite (E 32), (E 194), (E 225), (E 226), (E 227) by auto.
  assert ((9 <=? x) && (x <=? 13) = false) as ->.
  { apply andb_false_iff. rewrite !Z.leb_gt. lia. }
  cbn. by destruct b as [|? [|? ?]].
Qed.
Lemma plain_last x b : plain_byte x = true -> space_back (x :: b) = 0%nat.
Proof.
  unfold plain_byte. intros Hx. bool_to_prop.
  assert (H3 : forall l, (length l <= 2)%nat -> space_front (l ++ [x]) = 0%nat \/ (space_front (l ++ [x]) <= length l)%nat).
  { intros l Hl.
    assert (E : forall k, (128 <=? k) = true -> (x =? k) = false) by (intros k Hk; apply Z.eqb_neq; intros ->; bool_to_prop; lia).
    assert (F : forall k, (128 <=? k) = true -> (k <=? x) = false) by (intros k Hk; apply Z.leb_gt; bool_to_prop; lia).
    destruct l as [|y [|z [|]]]; cbn in *; try lia.
    - left. by apply (plain_head x []); apply andb_true_iff; split; [apply Z.leb_le | apply Z.ltb_lt].
    - rewrite (E 133), (E 160) by done. rewrite andb_false_r. repeat split_if; lia.
    - rewrite (E 128), (E 168), (E 169), (E 175), (E 159), (F 128) by done. rewrite ?andb_false_r. cbn. repeat split_if; lia. }
  assert (Ht : forall n, (n <= 2)%nat -> space_front (rev (take (S n) (x :: b))) <> S n).
  { intros n Hn. cbn [take rev]. pose proof (length_take_le b n) as Hlt.
    destruct (H3 (rev (take n b))) as [->|Hle]; [rewrite length_rev, length_take; lia | lia |].
    rewrite length_rev, length_take in Hle. lia. }
  unfold space_back. cbn [take] in Ht |- *.
  destruct (Nat.eqb_spec (space_front (rev (x :: take 0 b))) 1) as [E1|_]; [by apply (Ht 0%nat) in E1; [| lia] |].
  destruct (Nat.eqb_spec (space_front (rev (x :: take 1 b))) 2) as [E2|_]; [by apply (Ht 1%nat) in E2; [| lia] |].
  destruct (Nat.eqb_spec (space_front (rev (x :: take 2 b))) 3) as [E3|_]; [by apply (Ht 2%nat) in E3; [| lia] | done].
Qed.

(** A text that starts and ends with a plain byte, and one with a newline more. *)
Lemma trim_body b x y : head b = Some x -> last b = Some y -> plain_byte x = true -> plain_byte y = true ->
  trim_bytes b = b /\ trim_bytes (b ++ [10]) = b.
Proof.
  intros Hh Hl Hx Hy. destruct b as [|x' b]; [done |]. injection Hh as ->. apply last_Some in Hl as [l Hl].
  assert (Hr : rev (x :: b) = y :: rev l) by (by rewrite Hl, rev_app_distr). split.
  - apply trim_bytes_id; [by apply plain_head |]. rewrite Hr. by apply plain_last.
  - unfold trim_bytes, trim_left. rewrite trim_with_id by (by apply plain_head). unfold trim_right.
    rewrite rev_app_distr, length_app, Nat.add_1_r.
    change (trim_with space_back (S (length (x :: b))) (rev [10] ++ rev (x :: b)))
      with (trim_with space_back (length (x :: b)) (rev (x :: b))).
    rewrite trim_with_id; [by rewrite rev_involutive |]. rewrite Hr. by apply plain_last.
Qed.

Section reading.
Context `{DeltaCodec}.

Lemma buffer_bytes_snoc ds d : buffer_bytes (ds ++ [d]) = (buffer_bytes ds ++ enc_delta d) ++ [10].
Proof. unfold buffer_bytes. rewrite fmap_app, concat_app. cbn. by rewrite app_nil_r, <- app_assoc. Qed.

Lemma buffer_head ds b : Forall delta_ok ds -> head b = Some 123 -> head (buffer_bytes ds ++ b) = Some 123.
Proof.
  intros Hd Hb. destruct Hd as [|d ds Hd _]; [done |]. unfold buffer_bytes. cbn [fmap list_fmap concat].
  destruct (delta_object d Hd) as [mid ->]. done.
Qed.

(** The front part of an encoded delta: one object, whole or cut. *)
Lemma delta_front d b rest : delta_ok d -> enc_delta d = b ++ rest -> b <> [] ->
  head b = Some 123 /\ exists y, last b = Some y /\ plain_byte y = true.
Proof.
  intros Hd He Hb. destruct (delta_object d Hd) as [mid Hm]. pose proof (delta_plain d Hd) as Hp. rewrite He in Hp, Hm.
  destruct b as [|x b]; [done |]. split; [by injection Hm as -> |].
  destruct (last (x :: b)) as [y|] eqn:El; [| by apply last_None in El]. exists y. split; [done |].
  rewrite Forall_forall in Hp. apply Hp, elem_of_app. left. apply last_Some in El as [l ->]. set_solver.
Qed.

Lemma decode_text ds b d rest : Forall delta_ok ds -> delta_ok d -> enc_delta d = b ++ rest -> b <> [] ->
  let t := buffer_bytes ds ++ b in
  (trim_bytes t = t /\ trim_bytes (t ++ [10]) = t)
  /\ forall raw, trim_bytes raw = t -> decodeBuffer raw = (ds ++ (decode_stream (S (length t)) b).1, (decode_stream (S (length t)) b).2).
Proof.
  intros Hds Hd He Hb t. destruct (delta_front d b rest Hd He Hb) as (Hh & y & Hl & Hy).
  pose proof (buffer_head ds b Hds Hh) as Hht. fold t in Hht. split.
  - apply (trim_body _ 123 y); [done | | done | done]. unfold t. destruct b as [|x b]; [done |]. by rewrite last_app, Hl.
  - intros raw Hr. unfold decodeBuffer. rewrite Hr. destruct t as [|c t'] eqn:Et; [done |].
    injection Hht as ->. rewrite <- Et. unfold t. apply decode_stream_lines; [done | lia].
Qed.

(** What [persist] wrote is read back, all of it and without an error. *)
Theorem decodeBuffer_roundtrip ds : Forall delta_ok ds -> decodeBuffer (buffer_bytes ds) = (ds, false).
Proof.
  destruct ds as [|d ds _] using rev_ind; [done |]. intros [Hds Hd]%Forall_app. apply Forall_cons in Hd as [Hd _].
  destruct (decode_text ds (enc_delta d) d [] Hds Hd) as [[_ Ht] Hr]; [by rewrite app_nil_r | |].
  { destruct (delta_object d Hd) as [mid ->]. done. }
  cbn zeta in Ht, Hr. rewrite buffer_bytes_snoc, (Hr _ Ht). cbn [decode_stream].
  destruct (object_ahead d [] Hd) as [Hs Hm]. rewrite app_nil_r in Hs, Hm. rewrite Hm, Hs.
  pose proof (delta_decodes d [] Hd) as Hdd. rewrite app_nil_r in Hdd. rewrite Hdd.
  destruct (length _); [done |]. done.
Qed.

(** A file cut inside a line costs that line: everything before it is kept, and
    the error is told. *)
Theorem decodeBuffer_torn ds d b rest : Forall delta_ok ds -> delta_ok d -> enc_delta d = b ++ rest -> b <> [] -> rest <> [] ->
  decodeBuffer (buffer_bytes ds ++ b) = (ds, true).
Proof.
  intros Hds Hd He Hb Hr. destruct (decode_text ds b d rest Hds Hd He Hb) as [[Ht _] Hx]. cbn zeta in Ht, Hx.
  rewrite (Hx _ Ht). cbn [decode_stream]. destruct (delta_front d b rest Hd He Hb) as (Hh & _).
  assert (Hs : skip_space b = b /\ More b = true).
  { destruct b as [|x b]; [done |]. injection Hh as ->. done. }
  destruct Hs as [-> ->]. rewrite (delta_cut d b rest) by done. cbn. by rewrite app_nil_r.
Qed.

(** The array of older builds is another matter: [Unmarshal] looks at the whole
    text first, so one that was cut gives nothing. *)
Theorem torn_array_lost raw rest : trim_bytes raw = 91 :: rest -> json_valid (91 :: rest) = false ->
  decodeBuffer raw = ([], true).
Proof. intros Ht Hv. unfold decodeBuffer. rewrite Ht. by apply deltas_checked. Qed.

(** ** The backlog across a power loss *)

(** Every write of the buffer is one of [persist]. *)
Definition persisted (path : string) (dss : list (list UsageDelta)) (evs : list file_event) : Prop :=
  put_to path evs = buffer_bytes <$> dss.

(** [C39] However the backend loses power, its backlog comes back whole: what
    [load] reads is, delta for delta and without an error, what one of the
    [persist]s that replaced the file wrote, or what was there at the start. So
    on a file system where a rename is all or nothing, a synced file keeps its
    bytes, and the directory comes back as one it has been since it was last
    settled, of files that only [writeAtomic] writes. [decodeBuffer] and its
    test allow for a file torn in mid-write nonetheless: these calls leave none,
    and [decodeBuffer_torn] is what would be read of one. *)
Theorem backlog_survives P evs dss n s s' path old :
  (forall p q, P p -> P q -> p <> tmp_of q) -> Forall (kept_event P) evs -> P path -> booted s ->
  read_file path s = buffer_bytes <$> old -> Forall delta_ok (default [] old) ->
  persisted path dss evs -> Forall (Forall delta_ok) dss ->
  power_loss (fs_run (take n (calls evs)) s) s' ->
  exists ds, (ds = default [] old \/ ds ∈ dss) /\ load_pending (read_file path s') = ds
    /\ forall raw, read_file path s' = Some raw -> decodeBuffer raw = (ds, false).
Proof.
  intros Hsep He Hp Hb Hold Hok Hper Hdss Hl. pose proof (never_torn P Hsep evs n s s' path He Hb Hp Hl) as Hf.
  assert (Hx : forall ds o, Forall delta_ok ds -> o = Some (buffer_bytes ds) ->
    load_pending o = ds /\ forall raw, o = Some raw -> decodeBuffer raw = (ds, false)).
  { intros ds o Hd ->. cbn. rewrite decodeBuffer_roundtrip by done. split; [done |]. intros raw [= <-]. by apply decodeBuffer_roundtrip. }
  destruct Hf as [Hf | (data & Hin & Hf)].
  - rewrite Hf, Hold. destruct old as [ds|]; cbn [fmap option_fmap option_map default] in *.
    + exists ds. split; [by left |]. by apply Hx.
    + exists []. split; [by left |]. done.
  - rewrite Hper in Hin. apply list_elem_of_fmap in Hin as (ds & -> & Hin). exists ds. split; [by right |].
    rewrite Forall_forall in Hdss. apply Hx; [by apply Hdss | done].
Qed.
End reading.

(** ** What is not synced may be torn *)

(** A power loss that keeps the directory and puts other bytes in one inode. *)
Definition lose (i : nat) (b : bytes) (s : fs) : fs :=
  mkFs (fs_dir s) [] (<[i := b]> (fs_data s)) (dom (<[i := b]> (fs_data s))) (fs_next s).
Lemma lose_loss i b s : i ∉ fs_synced s -> power_loss s (lose i b s).
Proof.
  intros Hi. constructor; [by left |]. intros j Hj. cbn [lose fs_data]. apply lookup_insert_ne. by intros ->.
Qed.

(** The two writers that rename a file they have not synced: every call goes
    well, the power goes after, and the file may hold anything, the old contents
    gone. *)
Theorem unsynced_torn s path raw torn : path <> tmp_of path ->
  (exists s', power_loss (fs_run (cacheConfig_calls path raw all_well) s) s' /\ read_file path s' = Some torn)
  /\ exists s', power_loss (fs_run (saveBlocklistCache_calls path raw all_well) s) s' /\ read_file path s' = Some torn.
Proof.
  intros Hne. change (saveBlocklistCache_calls path raw all_well) with (cacheConfig_calls path raw all_well).
  assert (Hx : exists s', power_loss (fs_run (cacheConfig_calls path raw all_well) s) s' /\ read_file path s' = Some torn); [| by split].
  set (s1 := fs_run _ s).
  assert (H1 : exists i, fs_dir s1 !! path = Some i /\ i ∉ fs_synced s1).
  { subst s1. cbn [cacheConfig_calls WriteFile WriteFile_ok all_well wo_open wo_short wo_rename wo_close write_failed negb andb app fs_run fold_left fs_step].
    destruct (fs_dir s !! tmp_of path) as [i|] eqn:Ei; cbn [put_data fs_dir].
    - rewrite Ei. cbn [put_data fs_dir]. rewrite Ei. exists i. cbn [change_dir fs_dir fs_synced put_data].
      rewrite lookup_insert_eq. split; [done | set_solver].
    - rewrite !lookup_insert_eq. cbn [put_data fs_dir]. rewrite !lookup_insert_eq. exists (fs_next s).
      cbn [change_dir fs_dir fs_synced put_data]. rewrite lookup_insert_eq. split; [done | set_solver]. }
  destruct H1 as (i & Hi & Hu).
  exists (lose i torn s1). split; [by apply lose_loss |].
  unfold read_file, read_in. cbn [lose fs_dir fs_data]. rewrite Hi. cbn [mbind option_bind]. by rewrite lookup_insert_eq.
Qed.

(** ** Witnesses

    A codec with the laws: five numerals in braces. *)
Module PlainCodec.
Definition num (n : Z) : bytes := string_bytes (FormatUint n).
Definition shifted (n : Z) : Z := n - MinInt64.
Definition enc (d : UsageDelta) : bytes :=
  123 :: num (shifted (ud_PathID d)) ++ 44 :: num (shifted (ud_Bytes d)) ++ 44 :: num (shifted (ud_Packets d))
  ++ 44 :: num (shifted (ud_AtUnix d)) ++ 44 :: num (ud_Sequence d) ++ [125].
Definition read_num (stop : Z) (b : bytes) : option (Z * bytes) :=
  match cut_byte stop [] b with
  | Some (a, b) => match ParseUint (bytes_string a) with Some n => Some (n, b) | None => None end
  | None => None
  end.
Definition dec (b : bytes) : option (UsageDelta * bytes) :=
  match b with
  | 123 :: b =>
      '(p, b) ← read_num 44 b; '(n, b) ← read_num 44 b; '(k, b) ← read_num 44 b; '(t, b) ← read_num 44 b;
      '(q, b) ← read_num 125 b; Some (mkUsageDelta (p + MinInt64) (n + MinInt64) (k + MinInt64) (t + MinInt64) q, b)
  | _ => None
  end.

Lemma num_digits n : in_u64 n -> Forall (fun c => 48 <= c <= 57) (num n).
Proof.
  intros Hn. unfold num. rewrite FormatUint_bytes by go_lia. apply Forall_fmap.
  destruct (digits_ok 20 n) as (_ & Hd & _); [go_lia |]. eapply Forall_impl; [exact Hd |]. cbn. intros. lia.
Qed.
Lemma cut_byte_parts c b : forall acc x r, cut_byte c acc b = Some (x, r) -> (length r < length b)%nat /\ c ∈ b /\ (forall y, y ∈ r -> y ∈ b).
Proof.
  induction b as [|z b IH]; intros acc x r Hc; cbn in Hc; [done |]. destruct (Z.eqb_spec z c) as [->|].
  - injection Hc as _ ->. cbn. split_and!; [lia | by left | by right].
  - apply IH in Hc as (Hl & Hi & Hs). cbn. split_and!; [lia | by right | intros y Hy; right; by apply Hs].
Qed.
Lemma num_stop c n : in_u64 n -> 57 < c \/ c < 48 -> c ∉ num n.
Proof. intros Hn Hc Hi. pose proof (num_digits n Hn) as Hd. rewrite Forall_forall in Hd. apply Hd in Hi. lia. Qed.
Lemma read_num_ok c n b : in_u64 n -> 57 < c \/ c < 48 -> read_num c (num n ++ c :: b) = Some (n, b).
Proof.
  intros Hn Hc. unfold read_num. rewrite cut_byte_ok by (by apply num_stop). cbn [rev app]. unfold num.
  by rewrite bytes_string_bytes, ParseUint_FormatUint.
Qed.
Lemma read_num_parts c b n r : read_num c b = Some (n, r) -> (length r < length b)%nat /\ c ∈ b /\ (forall y, y ∈ r -> y ∈ b).
Proof.
  unfold read_num. destruct (cut_byte c [] b) as [[a r']|] eqn:E; [| done]. destruct (ParseUint _); [| done].
  intros [= _ <-]. by apply cut_byte_parts in E.
Qed.
Lemma shifted_u64 n : in_i64 n -> in_u64 (shifted n).
Proof. unfold shifted. intros. go_lia. Qed.

Lemma decodes d b : delta_ok d -> dec (enc d ++ b) = Some (d, b).
Proof.
  intros (H1 & H2 & H3 & H4 & H5). unfold enc, dec. cbn [app]. repeat first [rewrite <- app_assoc | progress cbn [app]].
  do 4 (rewrite read_num_ok by (by apply shifted_u64 || lia); cbn [mbind option_bind]).
  rewrite read_num_ok by (done || lia). cbn [mbind option_bind]. do 2 f_equal. destruct d. unfold shifted. cbn. f_equal; lia.
Qed.
Lemma dec_parts b d r : dec b = Some (d, r) -> (length r < length b)%nat /\ 125 ∈ b.
Proof.
  unfold dec. destruct b as [|x b]; [done |]. intros Hd.
  assert (x = 123) as -> by (repeat (destruct x as [|x|x]; try done)).
  do 5 (match type of Hd with
        | context [read_num ?c ?b] => destruct (read_num c b) as [[? ?]|] eqn:?; [cbn [mbind option_bind] in Hd | done]
        end).
  injection Hd as _ <-.
  repeat match goal with E : read_num _ _ = Some _ |- _ => apply read_num_parts in E as (? & ? & ?) end.
  cbn [length]. split; [lia |]. right. auto.
Qed.
Lemma one_brace d : delta_ok d -> exists mid, enc d = 123 :: mid ++ [125] /\ 125 ∉ 123 :: mid.
Proof.
  intros (H1 & H2 & H3 & H4 & H5). unfold enc.
  exists (num (shifted (ud_PathID d)) ++ 44 :: num (shifted (ud_Bytes d)) ++ 44 :: num (shifted (ud_Packets d))
    ++ 44 :: num (shifted (ud_AtUnix d)) ++ 44 :: num (ud_Sequence d)). split.
  - by repeat first [rewrite <- app_assoc | progress cbn [app]].
  - rewrite !not_elem_of_cons, !not_elem_of_app, !not_elem_of_cons, !not_elem_of_app, !not_elem_of_cons, !not_elem_of_app,
      !not_elem_of_cons, !not_elem_of_app, !not_elem_of_cons.
    split_and!; try done; apply num_stop; try (by apply shifted_u64); try done; lia.
Qed.

#[export] Instance codec : DeltaCodec.
Proof.
  refine {| enc_delta := enc; dec_delta := dec; json_valid := fun _ => false; dec_deltas := fun _ => ([], true) |}.
  - intros d (H1 & H2 & H3 & H4 & H5). unfold enc.
    assert (Hn : forall n, in_u64 n -> Forall (fun c => plain_byte c = true) (num n)).
    { intros n Hn. eapply Forall_impl; [by apply num_digits |]. cbn. intros c Hc. unfold plain_byte.
      apply andb_true_iff. rewrite Z.leb_le, Z.ltb_lt. lia. }
    repeat (apply Forall_cons; split; [done |] || (apply Forall_app_2; [apply Hn; try (by apply shifted_u64); done |])).
    by constructor.
  - intros d Hd. destruct (one_brace d Hd) as (mid & -> & _). by exists mid.
  - intros. by apply decodes.
  - intros d b rest Hd He Hr. destruct (dec b) as [[d' r]|] eqn:E; [| done]. exfalso. apply dec_parts in E as [_ Hi].
    destruct (one_brace d Hd) as (mid & Hm & Hno). rewrite He, app_comm_cons in Hm.
    destruct rest as [|z rest _] using rev_ind; [done |]. rewrite app_assoc in Hm. apply app_inj_tail in Hm as [Hm _].
    apply Hno. rewrite <- Hm. apply elem_of_app. by left.
  - intros b d rest Hd. by apply dec_parts in Hd as [? _].
  - done.
Defined.
End PlainCodec.

Section sample.
#[local] Existing Instance PlainCodec.codec.
Definition backlog : string := "usage-buffer.jsonl".
Definition state_json : string := "meter-state.json".
Definition ours (p : string) : Prop := p = backlog \/ p = state_json.
Lemma ours_sep p q : ours p -> ours q -> p <> tmp_of q.
Proof. by intros [-> | ->] [-> | ->]. Qed.

Definition delta (n : Z) : UsageDelta := mkUsageDelta 2 (1500 * n) n 1700000000 n.
Definition sample_fs : fs :=
  mkFs {[backlog := 0%nat]} [] {[0%nat := buffer_bytes [delta 1]]} {[0%nat]} 1.
Lemma sample_booted : booted sample_fs.
Proof.
  constructor; cbn [sample_fs fs_older fs_synced fs_data fs_next fs_dir]; [done | by rewrite dom_singleton_L | | |].
  - intros i Hi. assert (i = 0%nat) as -> by lia. rewrite lookup_singleton_eq. by eexists.
  - intros n i [_ <-]%lookup_singleton_Some. lia.
  - by intros a b i [<- _]%lookup_singleton_Some [<- _]%lookup_singleton_Some.
Qed.

(** Two writes of the backlog, of which the first does not reach the disk, and
    one of the counters. *)
Definition sample_events : list file_event :=
  [ EWrite backlog (buffer_bytes [delta 1; delta 2]) (mkOutcomes true (Some 20%nat) true true true true);
    EWrite state_json [123; 125] all_well;
    EWrite backlog (buffer_bytes [delta 1; delta 2; delta 3]) all_well ].
Definition cut_fs : fs := fs_run (take 9 (calls sample_events)) sample_fs.
(** The power goes between the write and the sync of the second; its temporary
    file comes back empty. *)
Definition after_loss : fs := lose 3 [] cut_fs.
Lemma sample_loss : power_loss cut_fs after_loss.
Proof. apply lose_loss. apply (bool_decide_unpack _). vm_compute. exact I. Qed.
Lemma sample_kept : Forall (kept_event ours) sample_events.
Proof. unfold sample_events, kept_event, ours. repeat (apply Forall_cons; split; [auto |]). constructor. Qed.

Lemma writeAtomic_never_torn_witness :
  read_file backlog (fs_run (calls sample_events) sample_fs) = Some (buffer_bytes [delta 1; delta 2; delta 3])
  /\ found backlog (Some (buffer_bytes [delta 1])) sample_events (read_file backlog after_loss).
Proof.
  destruct (writeAtomic_never_torn ours ours_sep sample_events [] 9 sample_fs after_loss backlog) as (Hr & Hl & _).
  - exact sample_kept.
  - constructor.
  - exact sample_booted.
  - left. reflexivity.
  - split; [rewrite Hr; vm_compute; reflexivity |]. apply Hl. exact sample_loss.
Defined.

Lemma delta_small n : 0 <= n <= 1000 -> delta_ok (delta n).
Proof. intros Hn. unfold delta_ok, delta. cbn. split_and!; go_lia. Qed.

Lemma backlog_survives_witness : exists ds, load_pending (read_file backlog after_loss) = ds
  /\ (ds = [delta 1] \/ ds ∈ [[delta 1; delta 2; delta 3]]).
Proof.
  destruct (backlog_survives ours sample_events [[delta 1; delta 2; delta 3]] 9 sample_fs after_loss backlog (Some [delta 1])) as (ds & Hd & Hl & _).
  - exact ours_sep.
  - exact sample_kept.
  - left. reflexivity.
  - exact sample_booted.
  - vm_compute. reflexivity.
  - apply Forall_cons. split; [apply delta_small; lia | constructor].
  - vm_compute. reflexivity.
  - apply Forall_cons. split; [| constructor]. repeat (apply Forall_cons; split; [apply delta_small; lia |]). constructor.
  - exact sample_loss.
  - exists ds. split; [exact Hl | exact Hd].
Defined.
End sample.
